(* ===== verification/_CoqProject ===== *)
-Q . S2P
Prelude.v
Encoding.v
Json.v
JsonWrite.v
JsonTree.v
JsonCodec.v
JsonSame.v
BigRat.v
Calendar.v
Failure.v
Sse.v
Breaker.v
Queue.v
Registry.v
KeySelector.v
Binary64.v
Duration.v
Retry.v
Routing.v
ChatContent.v
ChatRequest.v
FloatText.v
Transport.v
Compatible.v
Embedding.v
Attempt.v
Construction.v
ProviderConfig.v
Stream.v
Orchestrator.v
Gateway.v
Document.v
DocumentJson.v
Usage.v
UsageJson.v
Collector.v
Pricing.v
UsageStore.v
UsageQuery.v
Outbox.v
Relay.v
Worker.v
ControlStore.v
ControlSecrets.v
ControlPlane.v
ControlPricing.v
PolicyIndex.v
Quota.v
Token.v
AuthSnapshot.v
AuthL1.v
AuthCache.v
RedisAuth.v
AuthCoherence.v
ResponseCache.v
ApiKeys.v
RateLimit.v
HttpApi.v
ChatSession.v
ChatHandler.v
ChatProtocol.v
EmbeddingHandler.v
