(* ===== verification/Prelude.v ===== *)
(** * Model-Velo: a verification development of the gateway core

    Model-Velo is a gateway for large language models written in Go. A request
    of a tenant is authenticated and limited, its quota is reserved, the router
    turns the model it asks for into a list of upstream candidates, and the
    reliability layer tries them with retries, fallbacks, circuit breakers,
    bounded queues and key rotation; what was used is metered, priced and
    settled. This library models that core in Rocq, close to the code, and proves
    what makes it correct. The Go sources are under [src/]; names of operations
    are kept.

    ** How the code is represented

    A struct is a [Record], an enumeration an [Inductive], a function that
    returns [(value, error)] answers a [result]. A [map] is a [gmap], a slice a
    [list]; [int] and [int64] are [Z] with [wrap_int64] where they can overflow;
    a string is its bytes ([String.string]); an instant or a duration is [Z]
    nanoseconds, an instant counted from year 1, so that 0 is the zero time. What
    is shared through pointers lives in a heap of locations (Registry.v,
    KeySelector.v). A section under a mutex is one function; where the code
    releases a lock between two steps, the steps are separate and a step
    relation interleaves them with those of other goroutines. Time, randomness,
    the outcome of a [select] between ready branches and the order in which Go
    visits a map are arguments, so theorems hold for all of them.

    ** The parts

    Foundations. Prelude.v: [result], integers, time, strings, contexts, sums.
    Encoding.v: base64, hexadecimal, SHA-256, HMAC, UTF-8. Json.v: what
    [encoding/json] reads: the scanner, [json.RawMessage], unmarshalling,
    [json.Compact]. JsonWrite.v: what it writes, and that this is read back.
    JsonTree.v: JSON values as trees, their reading token by token and their
    canonical text; JsonSame.v: rewriting a value keeps its tree. JsonCodec.v:
    structs written and read member by member.
    BigRat.v: [big.Rat.SetString]. Binary64.v: [float64]; FloatText.v: its
    shortest text. Calendar.v: dates and RFC 3339; Duration.v: durations.

    Reliability ([internal/reliability]). Failure.v is [failure.go]: errors as
    values and what they ask for (retry, another key, fallback, breaker).
    Breaker.v ([breaker.go]), Queue.v ([queue.go]), Registry.v
    ([breaker_registry.go] and the queue's registry), KeySelector.v
    ([keyselector.go]) and Retry.v ([retry.go], [retry_registry.go]) are the
    mechanisms, each a record with its methods. Attempt.v is [attempt.go]: one
    candidate is tried until it succeeds or its policy is used up, in a monad
    over a [World] that other goroutines may change before every operation, and
    that records the operations made in a trace. Stream.v is
    [stream_attempt.go], Orchestrator.v is [orchestrator.go]: the loop over the
    candidates of a plan. The theorems say that whatever was taken is given back
    once, that the work is bounded, that a failure is justified, and what the
    answer reports.

    Routing and providers. Routing.v is [internal/routing/router.go] with the
    protocol tables of [internal/provider]: construction validates, [Plan] is
    refined from a declarative list. Sse.v is [provider/stream.go]: the reading
    of an upstream's event stream, independent of how the network cuts it.
    ChatContent.v and ChatRequest.v are [chat_content.go], [chat_request.go] and
    [chat_tools.go]: which requests are accepted. Transport.v is [transport.go]:
    one HTTP round trip. Compatible.v is [compatible.go], [azure.go],
    [cloudflare.go] and [endpoint.go]: the bodies sent to upstreams that speak the
    protocol of OpenAI, and which of their answers are let through. Embedding.v is
    [embedding.go]: requests for embeddings, and the four adapters that answer them.
    Construction.v is [catalog.go], [factory.go] and [registry.go]: what is
    resolved for a vendor can be constructed.

    Configuration. ProviderConfig.v is [internal/config/routing.go]: what is
    loaded is valid and can be constructed. Gateway.v is
    [internal/gateway/runtime.go]: the snapshot of everything a request uses, and
    its swap. Document.v and DocumentJson.v are
    [internal/controlplane/document.go]: from a document to a snapshot; what is
    built is complete, and reconfiguring keeps the state of what stays as it was.
    ControlStore.v, ControlPlane.v and ControlPricing.v are
    [internal/controlplane/service.go]: the stored versions with their sealed
    secrets and audit log, the updates, reloads and publications that interleave on
    an instance, and the versions of the price list. What is in force was built from
    a stored version; what can go wrong when updates overlap is shown too.
    ControlSecrets.v runs an update twice, with other secrets: its answer, errors
    included, and what it writes in the clear are the same.

    Credentials ([internal/apikey]). Token.v ([token.go]), AuthSnapshot.v
    ([snapshot.go]), AuthL1.v ([cache_l1.go], refining an LRU list), AuthCache.v
    ([cache.go]), RedisAuth.v ([cache_redis.go]), AuthCoherence.v (the two cache
    levels and the database as a transition system), ApiKeys.v ([manager.go]):
    a cached decision is the one the database would take, but for lookups that join
    a load begun before the last invalidation, which can be stale. ResponseCache.v is
    [internal/responsecache]: answers kept under a key that separates tenants,
    models, routes and JSON requests.

    Limits and accounting. RateLimit.v ([internal/ratelimit]): the fixed-window
    script. PolicyIndex.v and Quota.v ([internal/quota]): reservations, their
    settlement and expiry over the quota tables. Usage.v, Collector.v, Pricing.v
    ([internal/usage]): what an upstream reports, the event of a request, and
    its cost.

    The delivery of usage events ([internal/usage]). UsageJson.v ([event.go]): the
    stored text of an event. UsageStore.v ([store.go], [maintenance.go]): the table
    of stored events, cleaning up, repricing, cursors. UsageQuery.v ([query.go]):
    pages, totals, groups and series of the dashboards. Outbox.v and Relay.v
    ([outbox.go], [emitter.go]): the rows that requests leave, in batches, and the
    relay that appends them to the Redis stream. Worker.v ([worker.go]): batches
    that are stored and acknowledged, the retention that deletes old rows, and the
    pipeline of all of them: no event is lost before its retention is over, what is
    stored is what was emitted, repricing changes only its cost, and when everything
    answers all of it arrives.

    The handler of chat requests ([internal/httpapi]) composes all of this. HttpApi.v
    ([errors.go], [auth.go], the checks and headers of [chat.go]) is what is looked at
    and written; ChatSession.v ([usage.go]) is the accounting of one request;
    ChatHandler.v ([chat.go], [protocol.go]) is [complete], [stream] and
    [serveProtocol], in a monad over the services, the [World] of the reliability
    layer, the answer and a log of calls. ChatProtocol.v has the automaton that every
    run keeps to: who is not authenticated is not served, the upstream is called only
    after authorization, limit and reservation, and whatever happens the reservation
    is settled once and the event emitted once, last. EmbeddingHandler.v is
    [embeddings.go]: the same protocol for requests for embeddings. The event is
    refused in the cases that are shown: names of a route that do not fit an event, a
    cached answer that cannot be represented, and, for embeddings, a client that is gone.

    ** Interfaces

    A client is proved against what it needs of another part: [QuotaDB] and
    [QuotaDBLaws] (the statements of the quota manager), [AuthRows] (the
    statements that load a credential), [SharedAuthLaws] (what the credential
    store needs of the shared cache, discharged by RedisAuth.v from the laws of a
    Redis server), [Env] and [StreamEnv] (an upstream call). Of the standard
    library and of services only the following are parameters: the Unicode case
    tables ([Unicode], [UnicodeUpper]; on ASCII the mapping is defined), the
    dates of HTTP headers ([HTTPDates]), the codec of cached snapshots
    ([SnapshotCodec]), PostgreSQL and Redis through the interfaces above, the order in
    which Go visits a map ([MapOrder]), the text
    that a [jsonb] column gives back ([Jsonb]), the order in which rows are found
    and texts are ordered ([Scan], [Collation]), a Redis stream and its consumer
    group ([EventStream], [ConsumerGroup]), URLs ([NetURL]), the HTTP client
    ([HTTPClient]) and the cipher that seals secrets ([AEAD]). The handler of chat
    requests is proved against [GatewayServices] (what [httpapi] declares as
    interfaces), [ClientConnection] (the response writer) and [UpstreamReads] (what
    reading an upstream stream gives); a dialect other than that of OpenAI is a
    [ResponseProtocol]. Every statement on the database is
    applied, refused, or applied with its answer lost ([DbAnswer]).

    ** Fuel and bounds

    Loops are structural where the code's are bounded by data. [Execute] and the
    stream loop take fuel above [MaxAttempts] plus the time to the deadline, which
    is shown to be enough (the answer does not run out); [scan_fuel] is twice the
    length of a JSON text, enough by [scan_complete]; reading a stream needs one
    round for every byte ([stream_pieces_irrelevant]); cleaning up needs
    one round more than there are rows, draining the emitter one more than there are
    writes, following cursors one page more than there are rows; bisection and the
    UTF-8 scan use the length. Relaying a stream to a client takes fuel above the
    number of upstream events ([reads_end]). Line reading uses the constant 18: seventeen full
    buffers exceed the limit of a line.

    ** Not modelled, and why

    Tracing, metrics and logging only report. The adapters of single vendors
    ([anthropic.go], [gemini.go], [bedrock.go] and others) and the conversions of the
    Responses and Messages dialects rewrite one vendor's JSON into another's: there is
    no specification to hold them against but the vendors' own documents, so they are
    arguments here ([Env], [StreamEnv], [ResponseProtocol]) and the theorems hold
    whatever they answer. The administration handlers, [internal/adminauth] and the
    quota administration are forms over tables around library calls (bcrypt, gorm).
    PostgreSQL keeps instants in microseconds; the rows here keep them exactly.
    [cmd/], the PostgreSQL and Redis clients and the loaders of single settings are
    wiring around libraries. *)

From Stdlib Require Export ZArith Lia String Ascii Bool.
From stdpp Require Export base option list gmap strings relations sorting.

Open Scope Z_scope.
#[export] Set Warnings "-clear-no-such-hyp".

(** ** Fallible computations

    A Go function that returns [(value, error)] is a [result]: exactly one of
    the two is meaningful. *)

Inductive result (E A : Type) : Type :=
| Ok (value : A)
| Err (error : E).
Arguments Ok {E A} value.
Arguments Err {E A} error.

#[export] Instance result_ret {E} : MRet (result E) := λ A a, Ok a.
#[export] Instance result_bind {E} : MBind (result E) := λ A B f m,
  match m with Ok a => f a | Err e => Err e end.
#[export] Instance result_fmap {E} : FMap (result E) := λ A B f m,
  match m with Ok a => Ok (f a) | Err e => Err e end.

Declare Scope go_scope.
Delimit Scope go_scope with go.
Open Scope go_scope.

Definition is_ok {E A} (r : result E A) : bool :=
  match r with Ok _ => true | Err _ => false end.

Lemma result_bind_ok {E A B} (m : result E A) (f : A → result E B) b :
  mbind f m = Ok b → ∃ a, m = Ok a ∧ f a = Ok b.
Proof. destruct m as [a|e]; cbn; [eauto | discriminate]. Qed.

Definition isSome {A} (o : option A) : bool := match o with Some _ => true | None => false end.

(** A [switch] of conditions that each return an error: the first one that holds
    decides. *)
Fixpoint first_error {E} (cases : list (bool * E)) : option E :=
  match cases with
  | [] => None
  | (cond, e) :: rest => if cond then Some e else first_error rest
  end.

Lemma first_error_none {E} (cases : list (bool * E)) :
  first_error cases = None ↔ Forall (λ c, c.1 = false) cases.
Proof.
  induction cases as [|[cond e] rest IH]; cbn; [done|].
  rewrite Forall_cons. cbn. destruct cond; [naive_solver|]. rewrite IH. naive_solver.
Qed.

(** ** Fixed-width integers

    Go's [int] and [int64] are 64-bit two's complement, [uint64] is taken
    modulo 2^64; both are carried by [Z] with the wrap-around written out where
    an operation can overflow. *)

Definition int64_max : Z := 9223372036854775807.
Definition int64_min : Z := -9223372036854775808.
Definition two64 : Z := 18446744073709551616.

Definition wrap_int64 (z : Z) : Z := (z - int64_min) mod two64 + int64_min.
Definition wrap_uint64 (z : Z) : Z := z mod two64.
Definition in_int64 (z : Z) : Prop := int64_min ≤ z ≤ int64_max.
Definition is_int64 (z : Z) : bool := (int64_min <=? z) && (z <=? int64_max).

Lemma is_int64_spec z : is_int64 z = true ↔ in_int64 z.
Proof. unfold is_int64, in_int64. rewrite andb_true_iff, !Z.leb_le. done. Qed.

Lemma wrap_int64_id z : in_int64 z → wrap_int64 z = z.
Proof.
  unfold in_int64, wrap_int64, two64, int64_min, int64_max. intros H.
  rewrite Z.mod_small; lia.
Qed.

Lemma wrap_int64_range z : in_int64 (wrap_int64 z).
Proof.
  unfold in_int64, wrap_int64, two64, int64_min, int64_max.
  pose proof (Z.mod_pos_bound (z - -9223372036854775808) 18446744073709551616).
  lia.
Qed.

Lemma wrap_uint64_id z : 0 ≤ z < two64 → wrap_uint64 z = z.
Proof. intros. by apply Z.mod_small. Qed.

Lemma wrap_uint64_range z : 0 ≤ wrap_uint64 z < two64.
Proof. by apply Z.mod_pos_bound. Qed.

(** ** Time

    A [time.Time] is the number of nanoseconds since Go's zero time (January 1
    of year 1, UTC), so the zero value is 0; [UTC] does not move an instant. A
    [time.Duration] is an [int64] of nanoseconds. *)

Abbreviation Time := Z (only parsing).
Abbreviation Duration := Z (only parsing).

Definition time_zero : Time := 0.
Definition nanosecond : Duration := 1.
Definition millisecond : Duration := 1000000.
Definition second : Duration := 1000000000.
Definition minute : Duration := 60 * second.
Definition hour : Duration := 60 * minute.

Definition time_is_zero (t : Time) : bool := t =? time_zero.
Definition time_before (a b : Time) : bool := a <? b.
Definition time_after (a b : Time) : bool := b <? a.
Definition time_add (t : Time) (d : Duration) : Time := t + d.

(** [Time.Sub] saturates at the limits of [Duration]. *)
Definition time_sub (a b : Time) : Duration :=
  Z.max int64_min (Z.min int64_max (a - b)).

Lemma time_sub_pos a b : 0 < time_sub a b ↔ b < a.
Proof. unfold time_sub, int64_min, int64_max. lia. Qed.

Lemma time_sub_le a b : b ≤ a → time_sub a b ≤ a - b.
Proof. unfold time_sub, int64_min, int64_max. lia. Qed.

(** ** Strings

    A Go string is a sequence of bytes ([String.string]). [strings.TrimSpace]
    removes the UTF-8 encodings of the Unicode White_Space code points from
    both ends. *)

Definition byte_of (c : ascii) : Z := Z.of_N (N_of_ascii c).

Definition space1 (c : ascii) : bool :=
  let b := byte_of c in ((9 <=? b) && (b <=? 13)) || (b =? 32).
Definition space2 (c1 c2 : ascii) : bool :=
  (byte_of c1 =? 0xC2) && ((byte_of c2 =? 0x85) || (byte_of c2 =? 0xA0)).
Definition space3 (c1 c2 c3 : ascii) : bool :=
  let a := byte_of c1 in let b := byte_of c2 in let c := byte_of c3 in
  ((a =? 0xE1) && (b =? 0x9A) && (c =? 0x80)) ||
  ((a =? 0xE2) && (b =? 0x80) &&
     (((0x80 <=? c) && (c <=? 0x8A)) || (c =? 0xA8) || (c =? 0xA9) || (c =? 0xAF))) ||
  ((a =? 0xE2) && (b =? 0x81) && (c =? 0x9F)) ||
  ((a =? 0xE3) && (b =? 0x80) && (c =? 0x80)).

(** [starts_space rev l]: the bytes at the front of [l] spell a white-space
    code point, read forwards, or backwards when [rev] is set. *)
Definition starts_space (rev : bool) (l : list ascii) : bool :=
  match l with
  | a :: l1 => space1 a ||
      match l1 with
      | b :: l2 => (if rev then space2 b a else space2 a b) ||
          match l2 with
          | c :: _ => if rev then space3 c b a else space3 a b c
          | [] => false
          end
      | [] => false
      end
  | [] => false
  end.

Fixpoint trim_front (rev : bool) (l : list ascii) : list ascii :=
  match l with
  | a :: l1 =>
      if space1 a then trim_front rev l1
      else match l1 with
           | b :: l2 =>
               if (if rev then space2 b a else space2 a b) then trim_front rev l2
               else match l2 with
                    | c :: l3 =>
                        if (if rev then space3 c b a else space3 a b c)
                        then trim_front rev l3 else l
                    | [] => l
                    end
           | [] => l
           end
  | [] => l
  end.

Definition trim_bytes (l : list ascii) : list ascii :=
  rev (trim_front true (rev (trim_front false l))).

Definition TrimSpace (s : string) : string :=
  string_of_list_ascii (trim_bytes (list_ascii_of_string s)).

Lemma trim_front_id r l : starts_space r l = false → trim_front r l = l.
Proof.
  destruct l as [|a [|b [|c l]]]; cbn; auto; rewrite ?orb_false_iff.
  - intros [-> _]. done.
  - intros [-> [-> _]]. done.
  - intros [-> [-> ->]]. done.
Qed.

Lemma trim_front_spec r l :
  starts_space r (trim_front r l) = false ∧ ∃ pre, l = pre ++ trim_front r l.
Proof.
  induction (Nat.lt_wf_0_projected length l) as [l _ IH].
  destruct l as [|a l1]; [split; [done | by exists []]|].
  cbn. destruct (space1 a) eqn:Ha.
  { destruct (IH l1) as [H [pre Hpre]]; [cbn; lia|]. split; [done|].
    exists (a :: pre). cbn. congruence. }
  destruct l1 as [|b l2]; [cbn; rewrite Ha; split; [done | by exists []]|].
  destruct (if r then _ else _) eqn:Hb.
  { destruct (IH l2) as [H [pre Hpre]]; [cbn; lia|]. split; [done|].
    exists (a :: b :: pre). cbn. congruence. }
  destruct l2 as [|c l3]; [cbn; rewrite Ha, Hb; split; [done | by exists []]|].
  destruct (if r then space3 _ _ _ else _) eqn:Hc.
  { destruct (IH l3) as [H [pre Hpre]]; [cbn; lia|]. split; [done|].
    exists (a :: b :: c :: pre). cbn. congruence. }
  cbn. rewrite Ha, Hb, Hc. split; [done | by exists []].
Qed.

Lemma starts_space_app l k : starts_space false l = true → starts_space false (l ++ k) = true.
Proof.
  destruct l as [|a [|b [|c l]]]; cbn; rewrite ?orb_true_iff;
    intuition (congruence || auto).
Qed.

Lemma trim_bytes_idem l : trim_bytes (trim_bytes l) = trim_bytes l.
Proof.
  unfold trim_bytes.
  set (l1 := trim_front false l).
  destruct (trim_front_spec true (rev l1)) as [H2 [pre Hpre]].
  set (l2 := trim_front true (rev l1)) in *.
  assert (starts_space false (rev l2) = false) as Hf.
  { destruct (starts_space false (rev l2)) eqn:E; [|done].
    apply (starts_space_app _ (rev pre)) in E.
    rewrite <-rev_app_distr, <-Hpre, rev_involutive in E.
    pose proof (proj1 (trim_front_spec false l)). unfold l1 in E. congruence. }
  rewrite (trim_front_id false _ Hf), rev_involutive, (trim_front_id true _ H2).
  done.
Qed.

Lemma TrimSpace_idem s : TrimSpace (TrimSpace s) = TrimSpace s.
Proof.
  unfold TrimSpace. rewrite list_ascii_of_string_of_list_ascii, trim_bytes_idem.
  done.
Qed.

(** A string that trimming leaves alone. *)
Definition trimmed (s : string) : Prop := TrimSpace s = s.

#[export] Instance trimmed_dec s : Decision (trimmed s) := decide (TrimSpace s = s).

Lemma trimmed_TrimSpace s : trimmed (TrimSpace s).
Proof. apply TrimSpace_idem. Qed.

(** [strings.ToLower]. On strings of ASCII bytes it is the byte-wise mapping;
    the Unicode tables that serve the other strings are a parameter. *)
Class Unicode := unicode_to_lower : string → string.

Definition is_ascii (c : ascii) : bool := byte_of c <? 128.
Definition lower_byte (c : ascii) : ascii :=
  let b := byte_of c in
  if (65 <=? b) && (b <=? 90) then ascii_of_N (Z.to_N (b + 32)) else c.
Definition ToLower `{Unicode} (s : string) : string :=
  if forallb is_ascii (list_ascii_of_string s)
  then string_of_list_ascii (map lower_byte (list_ascii_of_string s))
  else unicode_to_lower s.

(** [strings.ToUpper], likewise. *)
Class UnicodeUpper := unicode_to_upper : string → string.

Definition upper_byte (c : ascii) : ascii :=
  let b := byte_of c in
  if (97 <=? b) && (b <=? 122) then ascii_of_N (Z.to_N (b - 32)) else c.
Definition ToUpper `{UnicodeUpper} (s : string) : string :=
  if forallb is_ascii (list_ascii_of_string s)
  then string_of_list_ascii (map upper_byte (list_ascii_of_string s))
  else unicode_to_upper s.

Definition Contains (s sub : string) : bool :=
  match String.index 0 sub s with Some _ => true | None => false end.

Definition str_len (s : string) : Z := Z.of_nat (String.length s).

(** [strings.Split] on a one-byte separator: never empty. *)
Fixpoint Split (sep : ascii) (s : string) : list string :=
  match s with
  | EmptyString => [""%string]
  | String c rest =>
      if Ascii.eqb c sep then ""%string :: Split sep rest
      else match Split sep rest with
           | [] => [String c ""]
           | part :: parts => String c part :: parts
           end
  end.

Definition HasPrefix (s prefix : string) : bool := String.prefix prefix s.

(** [s[:n]] for [n] within the string. *)
Definition take_string (n : nat) (s : string) : string :=
  string_of_list_ascii (take n (list_ascii_of_string s)).

Lemma str_len_nonneg s : 0 ≤ str_len s.
Proof. unfold str_len. lia. Qed.

Lemma length_string_of_list l : String.length (string_of_list_ascii l) = length l.
Proof. induction l; cbn; auto. Qed.

Lemma str_len_take n s : str_len (take_string n s) ≤ Z.of_nat n.
Proof.
  unfold str_len, take_string. rewrite length_string_of_list, length_take. lia.
Qed.

Definition string_le (a b : string) : Prop := String.leb a b = true.
#[export] Instance string_le_dec : RelDecision string_le :=
  λ a b, decide (String.leb a b = true).

(** [sort.Strings]: equal strings are indistinguishable, so any sorting
    algorithm gives the same slice. *)
Definition sort_Strings (l : list string) : list string := merge_sort string_le l.

#[export] Instance string_le_total : Total string_le.
Proof.
  intros a b. unfold string_le, String.leb.
  rewrite (String.compare_antisym a b). destruct (String.compare b a); cbn; auto.
Qed.

#[export] Instance string_le_antisymm : AntiSymm (=) string_le.
Proof. intros a b. apply String.leb_antisym. Qed.

Lemma string_le_cons a s b t :
  string_le (String a s) (String b t) ↔
  byte_of a < byte_of b ∨ (a = b ∧ string_le s t).
Proof.
  unfold string_le, String.leb, byte_of. cbn. unfold Ascii.compare.
  destruct (N.compare_spec (N_of_ascii a) (N_of_ascii b)) as [Heq|Hlt|Hgt].
  - assert (a = b) as -> by (rewrite <-(ascii_N_embedding a), Heq; apply ascii_N_embedding).
    split; [by right | intros [?|[_ ?]]; [lia | done]].
  - split; [intros _; left; lia | done].
  - split; [done | intros [?|[-> _]]; lia].
Qed.

#[export] Instance string_le_trans : Transitive string_le.
Proof.
  intros s. induction s as [|a s IH]; intros t u; [by destruct u|].
  destruct t as [|b t]; [done|]. destruct u as [|c u]; [by destruct t|].
  rewrite !string_le_cons. intros [?|[-> ?]] [?|[-> ?]]; [left; lia | by left | by left | right].
  split; [done | by eapply IH].
Qed.

(** Sorting is determined by what is sorted. *)
Lemma sort_Strings_unique l k : Sorted string_le k → l ≡ₚ k → sort_Strings l = k.
Proof.
  intros Hk Hp. apply (Sorted_unique string_le); [apply Sorted_merge_sort, _ | done|].
  rewrite <-Hp. apply merge_sort_Permutation.
Qed.

Lemma sort_Strings_perm l : sort_Strings l ≡ₚ l.
Proof. apply merge_sort_Permutation. Qed.

Lemma sort_Strings_sorted l : Sorted string_le (sort_Strings l).
Proof. apply Sorted_merge_sort, _. Qed.

(** ** Contexts

    The part of [context.Context] the gateway observes: when it is cancelled
    and when its deadline passes. [ctx_err] is [Err()] at a given instant: the
    first of the two events that has happened, for good. *)

Record Ctx := { ctx_deadline : option Time; ctx_cancel_at : option Time }.

Inductive CtxErr := Canceled | DeadlineExceeded.

#[export] Instance CtxErr_eq_dec : EqDecision CtxErr.
Proof. solve_decision. Defined.

Definition ctx_background : Ctx := {| ctx_deadline := None; ctx_cancel_at := None |}.

Definition passed (at_ : option Time) (now : Time) : bool :=
  match at_ with Some t => t <=? now | None => false end.

Definition ctx_err (ctx : Ctx) (now : Time) : option CtxErr :=
  match ctx_cancel_at ctx, ctx_deadline ctx with
  | Some c, Some d =>
      if (c <? d) && (c <=? now) then Some Canceled
      else if d <=? now then Some DeadlineExceeded else None
  | Some c, None => if c <=? now then Some Canceled else None
  | None, Some d => if d <=? now then Some DeadlineExceeded else None
  | None, None => None
  end.

(** [context.WithTimeout] never extends the parent's deadline. *)
Definition ctx_with_timeout (ctx : Ctx) (now : Time) (d : Duration) : Ctx :=
  {| ctx_deadline := Some match ctx_deadline ctx with
                          | Some t => Z.min t (time_add now d)
                          | None => time_add now d
                          end;
     ctx_cancel_at := ctx_cancel_at ctx |}.

Lemma ctx_err_sticky ctx t t' :
  t ≤ t' → ctx_err ctx t ≠ None → ctx_err ctx t' = ctx_err ctx t.
Proof.
  unfold ctx_err. intros Hle. destruct (ctx_cancel_at ctx) as [c|], (ctx_deadline ctx) as [d|];
    repeat case_match; try done; intros _; exfalso; lia.
Qed.

Lemma ctx_with_timeout_none ctx now d t :
  ctx_err (ctx_with_timeout ctx now d) t = None → t < now + d ∧ ctx_err ctx t = None.
Proof.
  unfold ctx_err, ctx_with_timeout, time_add; cbn.
  destruct (ctx_cancel_at ctx) as [c|], (ctx_deadline ctx) as [e|];
    repeat case_match; try done; intros _; split; try done; lia.
Qed.

(** ** Weighted counts of list entries *)

Definition sumZ {A} (w : A → Z) (l : list A) : Z := foldr (λ x n, w x + n) 0 l.

Section sumZ.
Context {A : Type} (w : A → Z).

Lemma sumZ_nil : sumZ w [] = 0.
Proof. done. Qed.

Lemma sumZ_cons x l : sumZ w (x :: l) = w x + sumZ w l.
Proof. done. Qed.

Lemma sumZ_app l k : sumZ w (l ++ k) = sumZ w l + sumZ w k.
Proof. induction l as [|x l IH]; cbn; [done|]. unfold sumZ in *. lia. Qed.

Lemma sumZ_snoc l x : sumZ w (l ++ [x]) = sumZ w l + w x.
Proof. rewrite sumZ_app. cbn. lia. Qed.

Lemma sumZ_insert l i x y :
  l !! i = Some x → sumZ w (<[i:=y]> l) = sumZ w l - w x + w y.
Proof.
  revert i. induction l as [|z l IH]; intros [|i] H; simplify_eq/=.
  - unfold sumZ. lia.
  - specialize (IH _ H). unfold sumZ in *. lia.
Qed.

Lemma sumZ_zero l : (∀ x, x ∈ l → w x = 0) → sumZ w l = 0.
Proof.
  induction l as [|x l IH]; intros H; [done|]. cbn.
  rewrite (H x) by set_solver. apply IH. set_solver.
Qed.

Lemma sumZ_nonneg l : (∀ x, 0 ≤ w x) → 0 ≤ sumZ w l.
Proof. intros H. induction l as [|x l IH]; cbn; [done|]. specialize (H x). unfold sumZ in *. lia. Qed.

Lemma sumZ_lookup_le l i x : (∀ x, 0 ≤ w x) → l !! i = Some x → w x ≤ sumZ w l.
Proof.
  intros Hw. revert i. induction l as [|z l IH]; intros [|i] H; simplify_eq/=.
  - pose proof (sumZ_nonneg l Hw). unfold sumZ in *. lia.
  - specialize (IH _ H). specialize (Hw z). unfold sumZ in *. lia.
Qed.
End sumZ.

Lemma sumZ_ext {A} (v w : A → Z) l : (∀ x, x ∈ l → v x = w x) → sumZ v l = sumZ w l.
Proof.
  induction l as [|x l IH]; intros H; [done|]. cbn.
  rewrite (H x) by set_solver. f_equal. apply IH. set_solver.
Qed.

Lemma sumZ_le {A} (v w : A → Z) l : (∀ x, v x ≤ w x) → sumZ v l ≤ sumZ w l.
Proof. intros H. induction l as [|x l IH]; cbn; [done|]. specialize (H x). unfold sumZ in *. lia. Qed.

#[global] Arguments sumZ : simpl never.
#[global] Arguments wrap_int64 : simpl never.

Lemma elem_of_insert_inv {A} (l : list A) i x y : x ∈ <[i:=y]> l → x = y ∨ x ∈ l.
Proof.
  revert i. induction l as [|z l IH]; [set_solver|].
  intros [|i]; cbn; rewrite !elem_of_cons; [tauto|].
  intros [->|H]; [tauto|]. destruct (IH _ H); tauto.
Qed.

(** ** Reachability *)

Section reachability.
Context {S : Type} (R : S → S → Prop) (I : S → Prop).
Hypothesis step_preserves : ∀ x y, I x → R x y → I y.

Lemma invariant_rtc x y : I x → rtc R x y → I y.
Proof. intros Hx Hr. induction Hr; eauto. Qed.

Lemma invariant_nsteps n x y : I x → nsteps R n x y → I y.
Proof. intros Hx Hr. induction Hr; eauto. Qed.
End reachability.

(** ** Automation *)

(** Case analysis on every [match] and [if] of the goal, closing the cases by
    computation and linear arithmetic. *)
Ltac go_cases := repeat case_match; simplify_eq/=; try done; try lia.

(** Division and remainder by constants. *)
Ltac divide := Z.to_euclidean_division_equations; lia.

Create HintDb go discriminated.
#[export] Hint Resolve trimmed_TrimSpace TrimSpace_idem : go.
Create Rewrite HintDb go_simpl.
#[export] Hint Rewrite TrimSpace_idem : go_simpl.
#[export] Hint Rewrite is_int64_spec : go_simpl.
