(* ===== verification/Encoding.v ===== *)
(** * Byte strings: base64, hexadecimal, SHA-256 and HMAC

    The parts of Go's [encoding/base64], [encoding/hex], [crypto/sha256] and
    [crypto/hmac] that the credentials, the caches and the rate limiter use. A
    [[]byte] is a [string] of its bytes; inside the codecs a byte is a [Z]. *)

From S2P Require Import Prelude.

(** ** Bytes *)

Definition byte_ascii (b : Z) : ascii := ascii_of_N (Z.to_N b).
Definition bytes_of (s : string) : list Z := map byte_of (list_ascii_of_string s).
Definition string_of_bytes (l : list Z) : string := string_of_list_ascii (map byte_ascii l).

Definition is_byte (b : Z) : Prop := 0 ≤ b < 256.

Lemma byte_of_range c : is_byte (byte_of c).
Proof. unfold byte_of, is_byte. pose proof (N_ascii_bounded c). lia. Qed.

Lemma byte_ascii_of c : byte_ascii (byte_of c) = c.
Proof. unfold byte_ascii, byte_of. rewrite N2Z.id. apply ascii_N_embedding. Qed.

Lemma byte_of_ascii b : is_byte b → byte_of (byte_ascii b) = b.
Proof. unfold byte_of, byte_ascii, is_byte. intros. rewrite N_ascii_embedding; lia. Qed.

Lemma bytes_of_range s : Forall is_byte (bytes_of s).
Proof. apply Forall_map, Forall_true. intros. apply byte_of_range. Qed.

Lemma bytes_of_string_of_bytes l : Forall is_byte l → bytes_of (string_of_bytes l) = l.
Proof.
  intros Hl. unfold bytes_of, string_of_bytes. rewrite list_ascii_of_string_of_list_ascii, map_map.
  induction Hl as [|b l Hb _ IH]; cbn; [done|]. by rewrite byte_of_ascii, IH.
Qed.

Lemma string_of_bytes_of_string s : string_of_bytes (bytes_of s) = s.
Proof. induction s as [|c s IH]; [done|]. unfold string_of_bytes, bytes_of in *. cbn. by rewrite byte_ascii_of, IH. Qed.

Lemma length_string_of_bytes l : String.length (string_of_bytes l) = length l.
Proof. unfold string_of_bytes. by rewrite length_string_of_list, length_map. Qed.

Lemma length_bytes_of s : length (bytes_of s) = String.length s.
Proof. rewrite <-(string_of_bytes_of_string s) at 2. by rewrite length_string_of_bytes. Qed.

(** ** Base64

    [base64.RawURLEncoding]: the URL alphabet, no padding. *)

Definition b64_char (v : Z) : Z :=
  if v <? 26 then v + 65 else if v <? 52 then v + 71 else if v <? 62 then v - 4
  else if v =? 62 then 45 else 95.

Definition b64_value (c : Z) : option Z :=
  if (65 <=? c) && (c <=? 90) then Some (c - 65)
  else if (97 <=? c) && (c <=? 122) then Some (c - 71)
  else if (48 <=? c) && (c <=? 57) then Some (c + 4)
  else if c =? 45 then Some 62 else if c =? 95 then Some 63 else None.

Fixpoint b64_split (l : list Z) : list Z :=
  match l with
  | x :: y :: z :: rest =>
      x / 4 :: x mod 4 * 16 + y / 16 :: y mod 16 * 4 + z / 64 :: z mod 64 :: b64_split rest
  | [x; y] => [x / 4; x mod 4 * 16 + y / 16; y mod 16 * 4]
  | [x] => [x / 4; x mod 4 * 16]
  | [] => []
  end.

(** The bits left over in the last quantum are ignored; a single character left
    over is an error. *)
Fixpoint b64_join (l : list Z) : option (list Z) :=
  match l with
  | a :: b :: c :: d :: rest =>
      tail ← b64_join rest;
      Some (a * 4 + b / 16 :: b mod 16 * 16 + c / 4 :: c mod 4 * 64 + d :: tail)
  | [a; b; c] => Some [a * 4 + b / 16; b mod 16 * 16 + c / 4]
  | [a; b] => Some [a * 4 + b / 16]
  | [_] => None
  | [] => Some []
  end.

Definition is_newline (c : Z) : bool := (c =? 10) || (c =? 13).

Definition EncodeToString (s : string) : string :=
  string_of_bytes (map b64_char (b64_split (bytes_of s))).

Definition DecodeString (s : string) : option string :=
  values ← mapM b64_value (List.filter (λ c, negb (is_newline c)) (bytes_of s));
  bytes ← b64_join values;
  Some (string_of_bytes bytes).

Definition EncodedLen (n : Z) : Z := n / 3 * 4 + (n mod 3 * 8 + 5) / 6.

(** ** Hexadecimal *)

Definition hex_digit (v : Z) : Z := if v <? 10 then v + 48 else v + 87.
Definition hex_encode (s : string) : string :=
  string_of_bytes (flat_map (λ b, [hex_digit (b / 16); hex_digit (b mod 16)]) (bytes_of s)).

(** ** SHA-256 *)

Definition w32 (x : Z) : Z := Z.land x 4294967295.
Definition rotate (n x : Z) : Z := Z.lor (Z.shiftr x n) (w32 (Z.shiftl x (32 - n))).

Definition big_sigma0 x := Z.lxor (rotate 2 x) (Z.lxor (rotate 13 x) (rotate 22 x)).
Definition big_sigma1 x := Z.lxor (rotate 6 x) (Z.lxor (rotate 11 x) (rotate 25 x)).
Definition small_sigma0 x := Z.lxor (rotate 7 x) (Z.lxor (rotate 18 x) (Z.shiftr x 3)).
Definition small_sigma1 x := Z.lxor (rotate 17 x) (Z.lxor (rotate 19 x) (Z.shiftr x 10)).
Definition choose x y z := Z.lxor (Z.land x y) (Z.land (Z.lxor x 4294967295) z).
Definition majority x y z := Z.lxor (Z.land x y) (Z.lxor (Z.land x z) (Z.land y z)).

(** The [n] 32-bit words of a number, most significant first. *)
Fixpoint words_of_Z (n : nat) (z : Z) : list Z :=
  match n with
  | O => []
  | S n => words_of_Z n (Z.shiftr z 32) ++ [w32 z]
  end.

Definition round_constants : list Z := Eval vm_compute in
  words_of_Z 16 0x428a2f9871374491b5c0fbcfe9b5dba53956c25b59f111f1923f82a4ab1c5ed5d807aa9812835b01243185be550c7dc372be5d7480deb1fe9bdc06a7c19bf174 ++
  words_of_Z 16 0xe49b69c1efbe47860fc19dc6240ca1cc2de92c6f4a7484aa5cb0a9dc76f988da983e5152a831c66db00327c8bf597fc7c6e00bf3d5a7914706ca635114292967 ++
  words_of_Z 16 0x27b70a852e1b21384d2c6dfc53380d13650a7354766a0abb81c2c92e92722c85a2bfe8a1a81a664bc24b8b70c76c51a3d192e819d6990624f40e3585106aa070 ++
  words_of_Z 16 0x19a4c1161e376c082748774c34b0bcb5391c0cb34ed8aa4a5b9cca4f682e6ff3748f82ee78a5636f84c878148cc7020890befffaa4506cebbef9a3f7c67178f2.

Record HashState := Hash8 { ha : Z; hb : Z; hc : Z; hd : Z; he : Z; hf : Z; hg : Z; hh : Z }.

Definition initial_hash : HashState :=
  Hash8 0x6a09e667 0xbb67ae85 0x3c6ef372 0xa54ff53a 0x510e527f 0x9b05688c 0x1f83d9ab 0x5be0cd19.

(** One round: the window holds the next sixteen words of the schedule. *)
Definition sha_round (s : HashState * list Z) (k : Z) : HashState * list Z :=
  let '(Hash8 a b c d e f g h, window) := s in
  let word i := default 0 (window !! i) in
  let t1 := h + big_sigma1 e + choose e f g + k + word 0%nat in
  let t2 := big_sigma0 a + majority a b c in
  (Hash8 (w32 (t1 + t2)) a b c (w32 (d + t1)) e f g,
   tail window ++ [w32 (small_sigma1 (word 14%nat) + word 9%nat + small_sigma0 (word 1%nat) + word 0%nat)]).

Definition compress (s : HashState) (block : list Z) : HashState :=
  let '(Hash8 a b c d e f g h, _) := foldl sha_round (s, block) round_constants in
  Hash8 (w32 (a + ha s)) (w32 (b + hb s)) (w32 (c + hc s)) (w32 (d + hd s))
        (w32 (e + he s)) (w32 (f + hf s)) (w32 (g + hg s)) (w32 (h + hh s)).

Fixpoint words_of_bytes (l : list Z) : list Z :=
  match l with
  | a :: b :: c :: d :: rest => ((a * 256 + b) * 256 + c) * 256 + d :: words_of_bytes rest
  | _ => []
  end.

Fixpoint hash_blocks (n : nat) (s : HashState) (words : list Z) : HashState :=
  match n with
  | O => s
  | S n => hash_blocks n (compress s (take 16 words)) (drop 16 words)
  end.

Definition be32 (w : Z) : list Z :=
  [Z.land (Z.shiftr w 24) 255; Z.land (Z.shiftr w 16) 255; Z.land (Z.shiftr w 8) 255; Z.land w 255].

Definition sha_pad (l : list Z) : list Z :=
  let n := Z.of_nat (length l) in
  let bits := wrap_uint64 (8 * n) in
  l ++ [128] ++ repeat 0 (Z.to_nat ((55 - n) mod 64)) ++
  be32 (Z.shiftr bits 32) ++ be32 (w32 bits).

Definition sha_bytes (l : list Z) : list Z :=
  let words := words_of_bytes (sha_pad l) in
  let '(Hash8 a b c d e f g h) := hash_blocks (length words / 16) initial_hash words in
  be32 a ++ be32 b ++ be32 c ++ be32 d ++ be32 e ++ be32 f ++ be32 g ++ be32 h.

Definition Sum256 (s : string) : string := string_of_bytes (sha_bytes (bytes_of s)).

(** ** HMAC-SHA-256 *)

Definition hmac_bytes (key message : list Z) : list Z :=
  let key := if (64 <? length key)%nat then sha_bytes key else key in
  let key := key ++ repeat 0 (64 - length key) in
  sha_bytes (map (Z.lxor 0x5c) key ++ sha_bytes (map (Z.lxor 0x36) key ++ message)).

Definition hmac_sha256 (key message : string) : string :=
  string_of_bytes (hmac_bytes (bytes_of key) (bytes_of message)).

Example sha256_abc :
  hex_encode (Sum256 "abc") = "ba7816bf8f01cfea414140de5dae2223b00361a396177a9cb410ff61f20015ad"%string.
Proof. vm_compute. reflexivity. Qed.

Example sha256_two_blocks :
  hex_encode (Sum256 "abcdbcdecdefdefgefghfghighijhijkijkljklmklmnlmnomnopnopq") =
  "248d6a61d20638b8e5c026930c3e6039a33ce45964ff2167f6ecedd419db06c1"%string.
Proof. vm_compute. reflexivity. Qed.

Example hmac_fox :
  hex_encode (hmac_sha256 "key" "The quick brown fox jumps over the lazy dog") =
  "f7bc83f430538424b13298e6aa6fb143ef4d59a14946175997479dbc2d1a3cd8"%string.
Proof. vm_compute. reflexivity. Qed.

(** ** Facts *)

Lemma b64_char_value v : 0 ≤ v < 64 → b64_value (b64_char v) = Some v.
Proof. intros. unfold b64_char, b64_value. repeat case_match; f_equal; lia. Qed.

Lemma b64_char_range v : 0 ≤ v < 64 → is_byte (b64_char v) ∧ is_newline (b64_char v) = false.
Proof. intros. unfold b64_char, is_byte, is_newline. repeat case_match; lia. Qed.

(** Induction three bytes at a time. *)
Lemma triples_ind (P : list Z → Prop) :
  P [] → (∀ x, P [x]) → (∀ x y, P [x; y]) → (∀ x y z l, P l → P (x :: y :: z :: l)) → ∀ l, P l.
Proof.
  intros H0 H1 H2 H3 l. induction (Nat.lt_wf_0_projected length l) as [l _ IH].
  destruct l as [|x [|y [|z l]]]; auto. apply H3, IH. cbn. lia.
Qed.

Lemma b64_split_range l : Forall is_byte l → Forall (λ v, 0 ≤ v < 64) (b64_split l).
Proof.
  unfold is_byte. induction l as [|x|x y|x y z l IH] using triples_ind; cbn; rewrite ?Forall_cons;
    intros Hl; [done | | | destruct_and?]; repeat split; try done; try (destruct_and?; divide).
  by apply IH.
Qed.

Lemma b64_join_split l : Forall is_byte l → b64_join (b64_split l) = Some l.
Proof.
  unfold is_byte. induction l as [|x|x y|x y z l IH] using triples_ind; intros Hl; [done| | |].
  1,2: repeat setoid_rewrite Forall_cons in Hl; destruct_and?; cbn; repeat f_equal; divide.
  repeat setoid_rewrite Forall_cons in Hl. destruct_and?. cbn [b64_split b64_join]. rewrite IH by done.
  cbn. repeat f_equal; divide.
Qed.

Lemma filter_no_newlines l :
  Forall (λ v, 0 ≤ v < 64) l → List.filter (λ c, negb (is_newline c)) (map b64_char l) = map b64_char l.
Proof.
  induction 1 as [|v l Hv _ IH]; [done|]. cbn [map List.filter].
  by rewrite (proj2 (b64_char_range v Hv)), IH.
Qed.

Lemma b64_values_chars l : Forall (λ v, 0 ≤ v < 64) l → mapM b64_value (map b64_char l) = Some l.
Proof.
  induction 1 as [|v l Hv _ IH]; [done|]. cbn. rewrite b64_char_value by done. cbn.
  change (mapM b64_value (map b64_char l)) with (mapM b64_value (map b64_char l)) in *. by rewrite IH.
Qed.

(** What is encoded decodes to itself. *)
Lemma DecodeString_EncodeToString s : DecodeString (EncodeToString s) = Some s.
Proof.
  unfold DecodeString, EncodeToString. pose proof (b64_split_range _ (bytes_of_range s)) as Hr.
  rewrite bytes_of_string_of_bytes
    by (apply Forall_map; eapply Forall_impl; [exact Hr | intros v Hv; apply (b64_char_range v Hv)]).
  rewrite filter_no_newlines, b64_values_chars by done. cbn.
  rewrite b64_join_split by apply bytes_of_range. cbn. by rewrite string_of_bytes_of_string.
Qed.

Lemma b64_split_length l : Z.of_nat (length (b64_split l)) = EncodedLen (Z.of_nat (length l)).
Proof.
  unfold EncodedLen. induction l as [|x|x y|x y z l IH] using triples_ind; [done..|].
  cbn [b64_split length]. rewrite !Nat2Z.inj_succ, IH. divide.
Qed.

Lemma EncodeToString_len s : str_len (EncodeToString s) = EncodedLen (str_len s).
Proof.
  unfold str_len, EncodeToString. by rewrite length_string_of_bytes, length_map, b64_split_length, length_bytes_of.
Qed.

(** *** Hexadecimal is injective *)

Lemma hex_digit_inj v w : 0 ≤ v < 16 → 0 ≤ w < 16 → hex_digit v = hex_digit w → v = w.
Proof. unfold hex_digit. repeat case_match; lia. Qed.

Lemma hex_bytes_inj l k :
  Forall is_byte l → Forall is_byte k →
  flat_map (λ b, [hex_digit (b / 16); hex_digit (b mod 16)]) l =
  flat_map (λ b, [hex_digit (b / 16); hex_digit (b mod 16)]) k → l = k.
Proof.
  intros Hl. revert k. induction Hl as [|b l Hb _ IH]; intros k Hk; destruct Hk as [|c k Hc Hk]; [done..|].
  unfold is_byte in *. cbn. intros [= H1 H2 H3]. f_equal; [|by apply IH].
  apply hex_digit_inj in H1; [|divide..]. apply hex_digit_inj in H2; [|divide..]. divide.
Qed.

Lemma hex_bytes_range l :
  Forall is_byte l → Forall is_byte (flat_map (λ b, [hex_digit (b / 16); hex_digit (b mod 16)]) l).
Proof.
  unfold is_byte. induction 1 as [|b l Hb _ IH]; [done|]. cbn.
  repeat (apply Forall_cons; split; [unfold hex_digit; case_match; divide|]). done.
Qed.

Lemma hex_encode_inj s t : hex_encode s = hex_encode t → s = t.
Proof.
  unfold hex_encode. intros Heq%(f_equal bytes_of).
  rewrite !bytes_of_string_of_bytes in Heq by apply hex_bytes_range, bytes_of_range.
  apply hex_bytes_inj in Heq; [|apply bytes_of_range..].
  rewrite <-(string_of_bytes_of_string s), Heq. apply string_of_bytes_of_string.
Qed.

Lemma be32_length w : length (be32 w) = 4%nat.
Proof. done. Qed.

Lemma sha_bytes_length l : length (sha_bytes l) = 32%nat.
Proof. unfold sha_bytes. by destruct (hash_blocks _ _ _). Qed.

Lemma Sum256_len s : str_len (Sum256 s) = 32.
Proof. unfold str_len, Sum256. by rewrite length_string_of_bytes, sha_bytes_length. Qed.

Lemma digest_length s : String.length (hex_encode (Sum256 s)) = 64%nat.
Proof.
  unfold hex_encode. rewrite length_string_of_bytes.
  assert (∀ l : list Z, length (flat_map (λ b, [hex_digit (b / 16); hex_digit (b mod 16)]) l) = (2 * length l)%nat) as Hl.
  { intros l. induction l as [|b l IH]; [done|]. cbn [flat_map]. rewrite length_app, IH. cbn. lia. }
  rewrite Hl, length_bytes_of. pose proof (Sum256_len s) as Hs. unfold str_len in Hs. lia.
Qed.

Lemma hmac_sha256_len key message : str_len (hmac_sha256 key message) = 32.
Proof. unfold str_len, hmac_sha256, hmac_bytes. by rewrite length_string_of_bytes, sha_bytes_length. Qed.

#[export] Hint Rewrite Sum256_len hmac_sha256_len EncodeToString_len DecodeString_EncodeToString : go_simpl.
#[global] Opaque sha_bytes hmac_bytes.

(** ** UTF-8

    [unicode/utf8]. [rune_size] is the number of bytes of the code point at the
    front, and whether they are well-formed; an ill-formed byte counts as one
    code point. *)

Definition continuation (low high : Z) (b : option Z) : bool :=
  match b with Some b => (low <=? b) && (b <=? high) | None => false end.

(** The size of the sequence a lead byte announces and the bounds on the second
    byte; [None] for a byte that cannot lead. *)
Definition lead_byte (b : Z) : option (nat * Z * Z) :=
  if b <? 0xC2 then None
  else if b <? 0xE0 then Some (2%nat, 0x80, 0xBF)
  else if b =? 0xE0 then Some (3%nat, 0xA0, 0xBF)
  else if b =? 0xED then Some (3%nat, 0x80, 0x9F)
  else if b <? 0xF0 then Some (3%nat, 0x80, 0xBF)
  else if b =? 0xF0 then Some (4%nat, 0x90, 0xBF)
  else if b <? 0xF4 then Some (4%nat, 0x80, 0xBF)
  else if b =? 0xF4 then Some (4%nat, 0x80, 0x8F)
  else None.

Definition rune_size (b : Z) (rest : list Z) : nat * bool :=
  if b <? 0x80 then (1%nat, true)
  else match lead_byte b with
       | None => (1%nat, false)
       | Some (size, low, high) =>
           if continuation low high (rest !! 0%nat) &&
              ((size <? 3)%nat || continuation 0x80 0xBF (rest !! 1%nat)) &&
              ((size <? 4)%nat || continuation 0x80 0xBF (rest !! 2%nat))
           then (size, true) else (1%nat, false)
       end.

(** The code points of a string, as their sizes; the fuel is the length. *)
Fixpoint runes (fuel : nat) (l : list Z) : list (nat * bool) :=
  match fuel, l with
  | S fuel, b :: rest =>
      let r := rune_size b rest in r :: runes fuel (drop (r.1 - 1) rest)
  | _, _ => []
  end.

Definition RuneCountInString (s : string) : Z := Z.of_nat (length (runes (String.length s) (bytes_of s))).
Definition utf8_Valid (s : string) : bool := forallb snd (runes (String.length s) (bytes_of s)).

Example rune_count_mixed : RuneCountInString "aé€😀" = 4 ∧ utf8_Valid "aé€😀" = true.
Proof. by vm_compute. Qed.

Example rune_invalid :
  RuneCountInString (string_of_bytes [0xE2; 0x82; 65; 0xC0]) = 4 ∧
  utf8_Valid (string_of_bytes [0xED; 0xA0; 0x80]) = false.
Proof. by vm_compute. Qed.

(** The fuel is enough: the sizes add up to the length. *)
Lemma rune_size_pos b rest : (1 ≤ (rune_size b rest).1)%nat.
Proof. unfold rune_size, lead_byte. repeat case_match; simplify_eq/=; lia. Qed.

Lemma rune_size_fits b rest : ((rune_size b rest).1 ≤ S (length rest))%nat.
Proof.
  unfold rune_size, lead_byte, continuation.
  destruct rest as [|b1 [|b2 [|b3 rest]]]; cbn; repeat case_match; simplify_eq/=; try lia.
Qed.

Lemma runes_cover fuel l :
  (length l ≤ fuel)%nat → foldr (λ r n, (r.1 + n)%nat) 0%nat (runes fuel l) = length l.
Proof.
  revert l. induction fuel as [|fuel IH]; intros [|b l] Hf; cbn in Hf |- *; try done; [lia|].
  pose proof (rune_size_pos b l). pose proof (rune_size_fits b l).
  rewrite IH by (rewrite length_drop; lia). rewrite length_drop. lia.
Qed.
