(* ===== verification/Json.v ===== *)
(** * JSON texts

    The part of Go's [encoding/json] that reads: the scanner that accepts a value
    and says where it ends, validity, and the shallow decoding of objects, arrays,
    strings and integers. A [json.RawMessage] is the text of a value without the
    white space around it, decoded again by whoever looks into it. *)

From S2P Require Import Prelude Encoding.

(** ** Scanning *)

Definition is_ws (c : ascii) : bool :=
  let b := byte_of c in (b =? 32) || (b =? 9) || (b =? 10) || (b =? 13).
Definition is_digit (c : ascii) : bool := let b := byte_of c in (48 <=? b) && (b <=? 57).
Definition hex_value (c : ascii) : option Z :=
  let b := byte_of c in
  if (48 <=? b) && (b <=? 57) then Some (b - 48)
  else if (97 <=? b) && (b <=? 102) then Some (b - 87)
  else if (65 <=? b) && (b <=? 70) then Some (b - 55) else None.
Definition is_hex (c : ascii) : bool := isSome (hex_value c).

Fixpoint skip_ws (s : string) : string :=
  match s with
  | String c r => if is_ws c then skip_ws r else s
  | EmptyString => s
  end.

Fixpoint skip_digits (s : string) : string :=
  match s with
  | String c r => if is_digit c then skip_digits r else s
  | EmptyString => s
  end.

Definition digits1 (s : string) : option string :=
  match s with
  | String c r => if is_digit c then Some (skip_digits r) else None
  | EmptyString => None
  end.

Definition quote_byte : ascii := "034".

(** What follows the character [c] at the front. *)
Definition strip (c : ascii) (s : string) : option string :=
  match s with
  | String d r => if (d =? c)%char then Some r else None
  | EmptyString => None
  end.

(** The scanners answer what follows the value. *)
Definition skip_int (s : string) : option string :=
  match strip "0" s with Some r => Some r | None => digits1 s end.
Definition skip_frac (s : string) : option string :=
  match strip "." s with Some r => digits1 r | None => Some s end.
Definition skip_sign (s : string) : string :=
  match strip "+" s with Some r => r | None => default s (strip "-" s) end.
Definition skip_exp (s : string) : option string :=
  match strip "e" s with
  | Some r => digits1 (skip_sign r)
  | None => match strip "E" s with Some r => digits1 (skip_sign r) | None => Some s end
  end.
Definition skip_number (s : string) : option string :=
  r ← skip_int (default s (strip "-" s)); r ← skip_frac r; skip_exp r.

Definition simple_escape (c : ascii) : option Z :=
  let b := byte_of c in
  if (b =? 34) || (b =? 92) || (b =? 47) then Some b
  else if b =? 98 then Some 8 else if b =? 102 then Some 12
  else if b =? 110 then Some 10 else if b =? 114 then Some 13
  else if b =? 116 then Some 9 else None.

(** After the opening quote. *)
Fixpoint skip_str (s : string) : option string :=
  match s with
  | EmptyString => None
  | String c r =>
      if (c =? quote_byte)%char then Some r
      else if (c =? "\")%char then
        match r with
        | String e r =>
            if (e =? "u")%char then
              match r with
              | String h1 (String h2 (String h3 (String h4 r))) =>
                  if is_hex h1 && is_hex h2 && is_hex h3 && is_hex h4 then skip_str r else None
              | _ => None
              end
            else if isSome (simple_escape e) then skip_str r else None
        | EmptyString => None
        end
      else if byte_of c <? 32 then None else skip_str r
  end.

Fixpoint skip_literal (literal s : string) : option string :=
  match literal with
  | String c literal => r ← strip c s; skip_literal literal r
  | EmptyString => Some s
  end.

(** The values that nest no further. *)
Definition skip_flat (s : string) : option string :=
  match s with
  | String c r =>
      if (c =? quote_byte)%char then skip_str r
      else if (c =? "t")%char then skip_literal "true" s
      else if (c =? "f")%char then skip_literal "false" s
      else if (c =? "n")%char then skip_literal "null" s
      else if (c =? "-")%char || is_digit c then skip_number s
      else None
  | EmptyString => None
  end.

Definition skip_key (s : string) : option string :=
  r ← strip quote_byte s; r ← skip_str r; r ← strip ":" (skip_ws r); Some (skip_ws r).

(** A value, the members of an object after its brace (at a key), the elements
    of an array after its bracket (at a value); [depth] is how much deeper the
    nesting may become. *)
Fixpoint skip_value (fuel : nat) (depth : Z) (s : string) : option string :=
  match fuel with
  | O => None
  | S fuel =>
      match strip "{" s with
      | Some r =>
          if depth <=? 0 then None
          else match strip "}" (skip_ws r) with
               | Some r => Some r
               | None => skip_members fuel (depth - 1) (skip_ws r)
               end
      | None =>
          match strip "[" s with
          | Some r =>
              if depth <=? 0 then None
              else match strip "]" (skip_ws r) with
                   | Some r => Some r
                   | None => skip_elements fuel (depth - 1) (skip_ws r)
                   end
          | None => skip_flat s
          end
      end
  end
with skip_members (fuel : nat) (depth : Z) (s : string) : option string :=
  match fuel with
  | O => None
  | S fuel =>
      v ← skip_key s;
      r ← skip_value fuel depth v;
      match strip "," (skip_ws r) with
      | Some r => skip_members fuel depth (skip_ws r)
      | None => strip "}" (skip_ws r)
      end
  end
with skip_elements (fuel : nat) (depth : Z) (s : string) : option string :=
  match fuel with
  | O => None
  | S fuel =>
      r ← skip_value fuel depth s;
      match strip "," (skip_ws r) with
      | Some r => skip_elements fuel depth (skip_ws r)
      | None => strip "]" (skip_ws r)
      end
  end.

Definition maxNestingDepth : Z := 10000.
Definition scan_fuel (s : string) : nat := 2 * String.length s + 2.
Definition scan (s : string) : option string := skip_value (scan_fuel s) maxNestingDepth s.

(** [json.Valid]: one value and white space around it. *)
Definition json_valid (s : string) : bool :=
  match scan (skip_ws s) with
  | Some r => (skip_ws r =? "")%string
  | None => false
  end.

(** ** Decoding *)

(** What of [s] lies before its suffix [r]. *)
Definition before (s r : string) : string := String.substring 0 (String.length s - String.length r) s.

Definition encode_rune (r : Z) : list Z :=
  if r <? 0x80 then [r]
  else if r <? 0x800 then [0xC0 + r / 64; 0x80 + r mod 64]
  else if r <? 0x10000 then [0xE0 + r / 4096; 0x80 + r / 64 mod 64; 0x80 + r mod 64]
  else [0xF0 + r / 262144; 0x80 + r / 4096 mod 64; 0x80 + r / 64 mod 64; 0x80 + r mod 64].

Definition replacement : list Z := [0xEF; 0xBF; 0xBD].

Definition hex4 (l : list Z) : option (Z * list Z) :=
  match l with
  | a :: b :: c :: d :: r =>
      a ← hex_value (byte_ascii a); b ← hex_value (byte_ascii b);
      c ← hex_value (byte_ascii c); d ← hex_value (byte_ascii d);
      Some (((a * 16 + b) * 16 + c) * 16 + d, r)
  | _ => None
  end.

(** The bytes of a string literal between its quotes; ill-formed UTF-8 and lone
    surrogates become U+FFFD. *)
Fixpoint unquote (fuel : nat) (l : list Z) : list Z :=
  match fuel, l with
  | S fuel, 92 :: 117 :: r =>
      match hex4 r with
      | Some (u, r) =>
          if (0xD800 <=? u) && (u <? 0xE000) then
            match r with
            | 92 :: 117 :: r' =>
                match hex4 r' with
                | Some (v, r'') =>
                    if (u <? 0xDC00) && (0xDC00 <=? v) && (v <? 0xE000)
                    then encode_rune (0x10000 + (u - 0xD800) * 1024 + (v - 0xDC00)) ++ unquote fuel r''
                    else replacement ++ unquote fuel r
                | None => replacement ++ unquote fuel r
                end
            | _ => replacement ++ unquote fuel r
            end
          else encode_rune u ++ unquote fuel r
      | None => []
      end
  | S fuel, 92 :: e :: r => default e (simple_escape (byte_ascii e)) :: unquote fuel r
  | S fuel, b :: r =>
      let '(size, ok) := rune_size b r in
      (if ok : bool then b :: take (size - 1) r else replacement) ++ unquote fuel (drop (size - 1) r)
  | _, _ => []
  end.

Definition unquote_string (body : string) : string :=
  string_of_bytes (unquote (String.length body) (bytes_of body)).

Definition unquote_literal (literal : string) : string :=
  unquote_string (String.substring 1 (String.length literal - 2) literal).

(** The members of an object after its brace, the elements of an array after its
    bracket, in a valid text: keys decoded, values as their text. *)
Fixpoint members (fuel : nat) (s : string) : option (list (string * string)) :=
  match fuel with
  | O => None
  | S fuel =>
      rest ← strip quote_byte s ≫= skip_str;
      v ← skip_key s;
      r ← scan v;
      let field := (unquote_literal (before s rest), before v r) in
      match strip "," (skip_ws r) with
      | Some r => fields ← members fuel (skip_ws r); Some (field :: fields)
      | None => Some [field]
      end
  end.

Fixpoint elements_of (fuel : nat) (s : string) : option (list string) :=
  match fuel with
  | O => None
  | S fuel =>
      r ← scan s;
      match strip "," (skip_ws r) with
      | Some r' => l ← elements_of fuel (skip_ws r'); Some (before s r :: l)
      | None => Some [before s r]
      end
  end.

(** The text of the value in a valid text, without the space around it; the
    members and elements of such a value; [None] for every other text. *)
Definition value_text (s : string) : option string :=
  if json_valid s then r ← scan (skip_ws s); Some (before (skip_ws s) r) else None.

Definition json_object (raw : string) : option (list (string * string)) :=
  raw ← value_text raw;
  r ← strip "{" raw;
  match strip "}" (skip_ws r) with
  | Some _ => Some []
  | None => members (String.length r) (skip_ws r)
  end.

Definition json_array (raw : string) : option (list string) :=
  raw ← value_text raw;
  r ← strip "[" raw;
  match strip "]" (skip_ws r) with
  | Some _ => Some []
  | None => elements_of (String.length r) (skip_ws r)
  end.

Definition is_null (raw : string) : bool := bool_decide (value_text raw = Some "null").

(** ** Unmarshalling

    How [json.Unmarshal] stores a value into a variable of a Go type: a function
    of what the variable holds and of the text of the value. A value of the wrong
    kind is an error; [null] leaves a variable as it is, but makes pointers,
    slices and maps nil. *)

Definition decoder (A : Type) : Type := A → string → option A.

Definition decode_raw : decoder string := λ _ raw, value_text raw.

Definition decode_string : decoder string := λ old raw,
  raw ← value_text raw;
  if (raw =? "null")%string then Some old
  else if isSome (strip quote_byte raw) then Some (unquote_literal raw) else None.

Definition decode_bool : decoder bool := λ old raw,
  raw ← value_text raw;
  if (raw =? "null")%string then Some old
  else if (raw =? "true")%string then Some true
  else if (raw =? "false")%string then Some false else None.

Fixpoint decimal (acc : Z) (l : list Z) : option Z :=
  match l with
  | [] => Some acc
  | b :: r => if (48 <=? b) && (b <=? 57) then decimal (acc * 10 + (b - 48)) r else None
  end.

(** [int] and [int64]: a number without fraction and exponent, in 64 bits. *)
Definition decode_int : decoder Z := λ old raw,
  raw ← value_text raw;
  if (raw =? "null")%string then Some old
  else
    _ ← skip_number raw;
    z ← match strip "-" raw with
        | Some digits => Z.opp <$> decimal 0 (bytes_of digits)
        | None => decimal 0 (bytes_of raw)
        end;
    if is_int64 z then Some z else None.

(** A pointer: what it points to is decoded into, or made new. *)
Definition decode_ptr {A} (zero : A) (d : decoder A) : decoder (option A) := λ old raw,
  if is_null raw then Some None else Some <$> d (default zero old) raw.

(** A slice with the elements that were written behind its end: decoding into it
    again finds what they held. *)
Record Slice (A : Type) := { sl_elems : list A; sl_stale : list A }.
Arguments sl_elems {A}.
Arguments sl_stale {A}.
Arguments Build_Slice {A}.
Definition nil_slice {A} : Slice A := Build_Slice [] [].

Fixpoint decode_elems {A} (zero : A) (d : decoder A) (old : list A) (raws : list string)
  : option (list A) :=
  match raws with
  | [] => Some []
  | raw :: raws =>
      a ← d (default zero (head old)) raw; l ← decode_elems zero d (tail old) raws; Some (a :: l)
  end.

Definition decode_slice {A} (zero : A) (d : decoder A) : decoder (Slice A) := λ old raw,
  if is_null raw then Some nil_slice
  else
    raws ← json_array raw;
    match raws with
    | [] => Some nil_slice
    | _ =>
        let backing := sl_elems old ++ sl_stale old in
        l ← decode_elems zero d backing raws;
        Some (Build_Slice l (drop (length raws) backing))
    end.

(** [map[string]json.RawMessage]; [None] is the nil map. *)
Definition RawMap : Type := option (gmap string string).
Definition raw_lookup (m : RawMap) (key : string) : string :=
  default ""%string (match m with Some m => m !! key | None => None end).

Definition decode_raw_map : decoder RawMap := λ old raw,
  if is_null raw then Some None
  else
    fields ← json_object raw;
    Some (Some (foldl (λ m f, <[f.1 := f.2]> m) (default ∅ old) fields)).

(** [strings.EqualFold] with an ASCII name, as struct fields are matched: letters
    fold to upper case, U+212A to K and U+017F to S. *)
Fixpoint fold_name (fuel : nat) (l : list Z) : list Z :=
  match fuel, l with
  | S fuel, 0xE2 :: 0x84 :: 0xAA :: r => 75 :: fold_name fuel r
  | S fuel, 0xC5 :: 0xBF :: r => 83 :: fold_name fuel r
  | S fuel, b :: r => (if (97 <=? b) && (b <=? 122) then b - 32 else b) :: fold_name fuel r
  | _, _ => []
  end.

Definition folded (s : string) : list Z := fold_name (String.length s) (bytes_of s).

(** The members a struct is decoded from, and one field of it: the members of its
    name are stored into it one after the other; other members are skipped. The
    fields of a struct have different names, so each is decoded by itself. *)
Definition struct_members (raw : string) : option (list (string * string)) :=
  if is_null raw then Some [] else json_object raw.

Definition field {A} (name : string) (d : decoder A) (old : A) (ms : list (string * string)) : option A :=
  foldl (λ acc m, if bool_decide (folded m.1 = folded name) then a ← acc; d a m.2 else acc) (Some old) ms.

(** ** Compaction

    [json.Compact]: a valid text without the white space outside its strings. *)

Fixpoint drop_ws (quoted escaped : bool) (s : string) : string :=
  match s with
  | EmptyString => EmptyString
  | String c r =>
      if quoted
      then String c (drop_ws (escaped || negb (c =? quote_byte)%char) (negb escaped && (c =? "\")%char) r)
      else if is_ws c then drop_ws false false r
      else String c (drop_ws (c =? quote_byte)%char false r)
  end.

Definition json_compact (raw : string) : option string :=
  if json_valid raw then Some (drop_ws false false raw) else None.

(** A JSON text written with ' for the quotation mark. *)
Definition text (s : string) : string :=
  string_of_list_ascii
    (map (λ c, if (c =? "'")%char then quote_byte else c) (list_ascii_of_string s)).

(** ** Facts about the scanners

    A scanner that answers [r] has read a prefix [p] of the text; it reads [p]
    alike before any other text that ends it. *)

Lemma append_cons c (s t : string) : (String c s +:+ t) = String c (s +:+ t).
Proof. reflexivity. Qed.

Lemma append_nil (t : string) : ("" +:+ t) = t.
Proof. reflexivity. Qed.

Lemma append_assoc (s t u : string) : ((s +:+ t) +:+ u) = (s +:+ (t +:+ u)).
Proof. induction s as [|c s IH]; [done|]. rewrite !append_cons. by rewrite IH. Qed.

Lemma length_append (s t : string) :
  String.length (s +:+ t) = (String.length s + String.length t)%nat.
Proof. induction s as [|c s IH]; [done|]. rewrite append_cons. cbn. by rewrite IH. Qed.

Lemma strip_some c s r : strip c s = Some r → s = String c r.
Proof.
  destruct s as [|d s]; cbn; [done|]. destruct (Ascii.eqb_spec d c) as [->|]; [|done]. by intros [= ->].
Qed.

Lemma strip_cons c r : strip c (String c r) = Some r.
Proof. cbn. by rewrite Ascii.eqb_refl. Qed.

Lemma skip_ws_cons c r : is_ws c = false → skip_ws (String c r) = String c r.
Proof. intros Hc. cbn. by rewrite Hc. Qed.

Lemma skip_ws_le s : (String.length (skip_ws s) ≤ String.length s)%nat.
Proof. induction s as [|c s IH]; cbn; [lia|]. destruct (is_ws c); cbn; lia. Qed.

Definition reads (f : string → option string) (ok : string → Prop) (p : string) : Prop :=
  ∀ t, ok t → f (p +:+ t) = Some t.

Definition any (t : string) : Prop := True.
Definition no_digit (t : string) : Prop :=
  match t with String c _ => is_digit c = false | EmptyString => True end.
(** What may follow a number: none of the characters that would continue it. *)
Definition ends_number (t : string) : Prop :=
  match t with
  | String c _ =>
      is_digit c = false ∧ (c =? ".")%char = false ∧ (c =? "e")%char = false ∧ (c =? "E")%char = false
  | EmptyString => True
  end.

(** Text that compaction keeps: no white space outside strings. *)
Definition compacts (p c : string) : Prop :=
  ∀ t, drop_ws false false (p +:+ t) = c +:+ drop_ws false false t.

Lemma compacts_nil : compacts "" "".
Proof. intros t. done. Qed.

Lemma compacts_app p c q d : compacts p c → compacts q d → compacts (p +:+ q) (c +:+ d).
Proof. intros Hp Hq t. by rewrite append_assoc, Hp, Hq, append_assoc. Qed.

Definition plain (c : ascii) : bool := negb (is_ws c) && negb (c =? quote_byte)%char.

Lemma compacts_plain c : plain c = true → compacts (String c "") (String c "").
Proof.
  unfold plain. intros [Hw Hq]%andb_true_iff t. apply negb_true_iff in Hw, Hq.
  rewrite !append_cons. cbn. by rewrite Hw, Hq.
Qed.

Lemma compacts_string p :
  (∀ c, In c (list_ascii_of_string p) → plain c = true) → compacts p p.
Proof.
  induction p as [|c p IH]; [by intros|]. intros Hp.
  apply (compacts_app (String c "") (String c "") p p).
  - apply compacts_plain, Hp. by left.
  - apply IH. intros d Hd. apply Hp. by right.
Qed.

(** *** White space *)

Record white (w : string) : Prop := {
  white_compacts : compacts w "";
  white_skipped : ∀ t, skip_ws (w +:+ t) = skip_ws t;
}.

Lemma skip_ws_split s : ∃ w, s = (w +:+ skip_ws s) ∧ white w.
Proof.
  assert (white "") as Hnil by done.
  induction s as [|c s (w & Hs & [Hw Hk])]; [by exists ""%string|]. cbn. destruct (is_ws c) eqn:Hc.
  - exists (String c w). rewrite append_cons, <-Hs. split; [done|].
    split; intros t; rewrite append_cons; cbn; rewrite Hc; [apply Hw | apply Hk].
  - by exists ""%string.
Qed.

(** *** Strings *)

Definition reads_quoted (p : string) : Prop :=
  reads skip_str any p ∧ ∀ t, drop_ws true false (p +:+ t) = p +:+ drop_ws false false t.

Lemma hex_not_special h : is_hex h = true → (h =? quote_byte)%char = false ∧ (h =? "\")%char = false.
Proof.
  unfold is_hex, hex_value. intros Hh.
  split; apply Ascii.eqb_neq; intros ->; by vm_compute in Hh.
Qed.

Lemma skip_str_split n s r :
  (String.length s ≤ n)%nat → skip_str s = Some r → ∃ p, s = (p +:+ r) ∧ reads_quoted p.
Proof.
  revert s r. induction n as [|n IH]; intros [|c s] r Hn; cbn in Hn; try lia; try done. intros Hs. cbn in Hs.
  destruct (c =? quote_byte)%char eqn:Hq.
  { injection Hs as ->. exists (String c ""). split; [done|]. split.
    - intros t _. rewrite append_cons. cbn. by rewrite Hq.
    - intros t. rewrite !append_cons. cbn. by rewrite Hq, (proj1 (Ascii.eqb_eq _ _) Hq). }
  destruct (c =? "\")%char eqn:Hb.
  2:{ destruct (byte_of c <? 32) eqn:Hlow; [done|]. destruct (IH s r ltac:(lia) Hs) as (p & -> & Hr & Hd).
      exists (String c p). rewrite append_cons. split; [done|]. split.
      - intros t _. rewrite append_cons. cbn. rewrite Hq, Hb, Hlow. by apply Hr.
      - intros t. rewrite !append_cons. cbn. by rewrite Hq, Hb, Hd. }
  destruct s as [|e s]; [done|]. destruct (e =? "u")%char eqn:Hu.
  - destruct s as [|h1 [|h2 [|h3 [|h4 s]]]]; try done.
    destruct (is_hex h1 && is_hex h2 && is_hex h3 && is_hex h4) eqn:Hh; [|done].
    destruct (IH s r ltac:(cbn in Hn; lia) Hs) as (p & -> & Hr & Hd).
    exists (String c (String e (String h1 (String h2 (String h3 (String h4 p)))))).
    rewrite !append_cons. split; [done|]. split.
    + intros t _. rewrite !append_cons. cbn. rewrite Hq, Hb, Hu, Hh. by apply Hr.
    + intros t. rewrite !append_cons. apply andb_true_iff in Hh as [Hh H4].
      apply andb_true_iff in Hh as [Hh H3]. apply andb_true_iff in Hh as [H1 H2].
      apply hex_not_special in H1 as [A1 B1], H2 as [A2 B2], H3 as [A3 B3], H4 as [A4 B4].
      cbn. rewrite Hq, Hb. cbn. rewrite A1, B1. cbn. rewrite A2, B2. cbn. rewrite A3, B3. cbn.
      rewrite A4, B4. cbn. by rewrite Hd.
  - destruct (isSome (simple_escape e)) eqn:He; [|done].
    destruct (IH s r ltac:(cbn in Hn; lia) Hs) as (p & -> & Hr & Hd).
    exists (String c (String e p)). rewrite !append_cons. split; [done|]. split.
    + intros t _. rewrite !append_cons. cbn. rewrite Hq, Hb, Hu, He. by apply Hr.
    + intros t. rewrite !append_cons. cbn. rewrite Hq, Hb. cbn. by rewrite Hd.
Qed.

(** *** Numbers *)

Definition number_char (c : ascii) : Prop := plain c = true.

Lemma digit_plain c : is_digit c = true → plain c = true.
Proof.
  unfold is_digit, plain, is_ws. intros [H1 H2]%andb_true_iff. apply Z.leb_le in H1, H2.
  apply andb_true_iff. split; [|apply negb_true_iff, Ascii.eqb_neq; intros ->; by vm_compute in H1].
  apply negb_true_iff. rewrite !orb_false_iff, !Z.eqb_neq. lia.
Qed.

(** A number's part: read before any text that does not continue it, and kept
    by compaction; [start] tells what it may begin with. *)
Record piece (f : string → option string) (ok : string → Prop) (s r p : string) : Prop := {
  pc_split : s = (p +:+ r);
  pc_reads : reads f ok p;
  pc_plain : ∀ c, In c (list_ascii_of_string p) → plain c = true;
}.

Lemma skip_digits_split s :
  ∃ p, s = (p +:+ skip_digits s) ∧ (∀ t, no_digit t → skip_digits (p +:+ t) = t) ∧
    ∀ c, In c (list_ascii_of_string p) → plain c = true.
Proof.
  induction s as [|c s (p & Hs & Hr & Hp)].
  { exists ""%string. split; [done|]. split; [|by intros]. intros [|d t]; cbn; [done|]. intros Hd.
    rewrite append_nil. cbn. by rewrite Hd. }
  cbn. destruct (is_digit c) eqn:Hc.
  - exists (String c p). rewrite append_cons, <-Hs. split; [done|]. split.
    + intros t Ht. rewrite append_cons. cbn. rewrite Hc. by apply Hr.
    + intros d [<-|Hd]; [by apply digit_plain | by apply Hp].
  - exists ""%string. split; [done|]. split; [|by intros]. intros [|d t]; cbn; [done|]. intros Hd.
    rewrite append_nil. cbn. by rewrite Hd.
Qed.

Lemma digits1_piece s r : digits1 s = Some r → ∃ p, piece digits1 no_digit s r p ∧ ¬ no_digit p.
Proof.
  destruct s as [|c s]; cbn; [done|]. destruct (is_digit c) eqn:Hc; [|done]. intros [= <-].
  destruct (skip_digits_split s) as (p & Hs & Hr & Hp). exists (String c p). split.
  - constructor.
    + by rewrite append_cons, <-Hs.
    + intros t Ht. rewrite append_cons. cbn. rewrite Hc. f_equal. by apply Hr.
    + intros d [<-|Hd]; [by apply digit_plain | by apply Hp].
  - cbn. by rewrite Hc.
Qed.

Lemma strip_none c d r : strip c (String d r) = None → (d =? c)%char = false.
Proof. cbn. by destruct (d =? c)%char. Qed.

Lemma digits1_head p : ¬ no_digit p → ∃ c q, p = String c q ∧ is_digit c = true.
Proof. destruct p as [|c q]; cbn; [tauto|]. intros Hc. exists c, q. split; [done|]. by destruct (is_digit c). Qed.

Lemma digit_not c d : is_digit c = true → is_digit d = false → (c =? d)%char = false.
Proof. intros Hc Hd. apply Ascii.eqb_neq. congruence. Qed.

Lemma piece_char c f ok s r p :
  plain c = true → (∀ t, f (String c t) = digits1 t) → piece digits1 ok s r p →
  piece f ok (String c s) r (String c p).
Proof.
  intros Hc Hf [-> Hr Hp]. constructor; [done| |].
  - intros t Ht. rewrite append_cons, Hf. by apply Hr.
  - intros d [<-|Hd]; [done | by apply Hp].
Qed.

Lemma skip_int_piece s r : skip_int s = Some r → ∃ p, piece skip_int no_digit s r p ∧ ¬ no_digit p.
Proof.
  unfold skip_int. destruct (strip "0" s) as [r'|] eqn:H0.
  - intros [= ->]. apply strip_some in H0 as ->. exists "0"%string. split; [|by cbn]. constructor; [done| |].
    + intros t _. reflexivity.
    + intros d [<-|[]]. reflexivity.
  - intros (p & [-> Hr Hp] & Hd)%digits1_piece. exists p. split; [|done]. constructor; [done| |done].
    intros t Ht. apply digits1_head in Hd as (c & q & -> & Hc). rewrite append_cons in H0 |- *.
    cbn [strip]. rewrite (strip_none _ _ _ H0), <-append_cons. by apply Hr.
Qed.

Definition no_point (t : string) : Prop := no_digit t ∧ strip "." t = None.

Lemma skip_frac_piece s r :
  skip_frac s = Some r →
  ∃ p, piece skip_frac no_point s r p ∧ ∀ t, no_digit t → no_digit (p +:+ t).
Proof.
  unfold skip_frac. destruct (strip "." s) as [r'|] eqn:H0.
  - intros (p & Hp & _)%digits1_piece. apply strip_some in H0 as ->. exists (String "." p). split; [|done].
    apply (piece_char "." skip_frac) in Hp; [|done..]. destruct Hp as [Hs Hr Hp].
    constructor; [done| |done]. intros t [Ht _]. by apply Hr.
  - intros [= ->]. exists ""%string. split; [|done]. constructor; [done| |by intros].
    intros t [_ Ht]. rewrite append_nil. unfold skip_frac. by rewrite Ht.
Qed.

Lemma signed_piece s r :
  digits1 (skip_sign s) = Some r → ∃ p, piece (λ t, digits1 (skip_sign t)) no_digit s r p.
Proof.
  assert (∀ c x, plain c = true → (∀ t, skip_sign (String c t) = t) → digits1 x = Some r →
    ∃ p, piece (λ t, digits1 (skip_sign t)) no_digit (String c x) r p) as Hsign.
  { intros c x Hc Hs (p & Hp & _)%digits1_piece. exists (String c p).
    apply piece_char; [done| |done]. intros t. by rewrite Hs. }
  unfold skip_sign at 1. destruct (strip "+" s) as [x|] eqn:Hplus.
  { apply strip_some in Hplus as ->. by apply Hsign. }
  destruct (strip "-" s) as [x|] eqn:Hminus; cbn [default].
  { apply strip_some in Hminus as ->. by apply Hsign. }
  intros (p & [-> Hr Hp] & Hd)%digits1_piece. exists p. constructor; [done| |done]. intros t Ht.
  apply digits1_head in Hd as (c & q & -> & Hc). rewrite append_cons in Hplus, Hminus |- *.
  unfold skip_sign. cbn [strip]. rewrite (strip_none _ _ _ Hplus), (strip_none _ _ _ Hminus).
  cbn [default from_option]. rewrite <-append_cons. by apply Hr.
Qed.

Lemma ends_number_point t : ends_number t → no_point t.
Proof. destruct t as [|c t]; [done|]. intros (Hd & Hp & _). split; [done|]. cbn. by rewrite Hp. Qed.

Lemma skip_exp_piece s r :
  skip_exp s = Some r → ∃ p, piece skip_exp ends_number s r p ∧ ∀ t, ends_number t → no_point (p +:+ t).
Proof.
  assert (∀ c x, plain c = true → (∀ t, skip_exp (String c t) = digits1 (skip_sign t)) →
    (∀ t, no_point (String c t)) → digits1 (skip_sign x) = Some r →
    ∃ p, piece skip_exp ends_number (String c x) r p ∧ ∀ t, ends_number t → no_point (p +:+ t)) as Hexp.
  { intros c x Hc Hs Hn (p & [-> Hr Hp])%signed_piece. exists (String c p).
    split; [|intros t _; apply (Hn (p +:+ t))]. constructor; [done| |].
    - intros t Ht. rewrite append_cons, Hs. apply Hr. by apply ends_number_point.
    - intros d [<-|Hd]; [done | by apply Hp]. }
  unfold skip_exp at 1. destruct (strip "e" s) as [x|] eqn:He.
  { apply strip_some in He as ->. by apply Hexp. }
  destruct (strip "E" s) as [x|] eqn:HE.
  { apply strip_some in HE as ->. by apply Hexp. }
  intros [= ->]. exists ""%string. split; [|by intros; apply ends_number_point].
  constructor; [done| |by intros]. intros [|c t]; [done|]. intros (_ & _ & He' & HE').
  rewrite append_nil. unfold skip_exp. cbn [strip]. by rewrite He', HE'.
Qed.

Lemma plain_app p q :
  (∀ c, In c (list_ascii_of_string p) → plain c = true) →
  (∀ c, In c (list_ascii_of_string q) → plain c = true) →
  ∀ c, In c (list_ascii_of_string (p +:+ q)) → plain c = true.
Proof.
  induction p as [|d p IH]; intros Hp Hq c; [apply Hq|]. rewrite append_cons. intros [<-|Hc].
  - apply Hp. by left.
  - apply IH; [|done|done]. intros e He. apply Hp. by right.
Qed.

Lemma unsigned_piece s r1 r2 r :
  skip_int s = Some r1 → skip_frac r1 = Some r2 → skip_exp r2 = Some r →
  ∃ p, piece (λ t, t ← skip_int t; t ← skip_frac t; skip_exp t) ends_number s r p ∧ ¬ no_digit p.
Proof.
  intros (p1 & [-> R1 P1] & D1)%skip_int_piece (p2 & [-> R2 P2] & D2)%skip_frac_piece
    (p3 & [-> R3 P3] & D3)%skip_exp_piece.
  exists (p1 +:+ (p2 +:+ p3)). split; [constructor|].
  - by rewrite !append_assoc.
  - intros t Ht. rewrite !append_assoc. rewrite R1 by apply D2, D3, Ht. cbn [mbind option_bind].
    rewrite R2 by apply D3, Ht. cbn. by apply R3.
  - by repeat apply plain_app.
  - apply digits1_head in D1 as (c & q & -> & Hc). rewrite append_cons. cbn. by rewrite Hc.
Qed.

Lemma skip_number_piece s r :
  skip_number s = Some r → ∃ p, piece skip_number ends_number s r p ∧ p ≠ ""%string.
Proof.
  unfold skip_number at 1. intros (r1 & H1 & (r2 & H2 & H3)%bind_Some)%bind_Some.
  destruct (unsigned_piece _ _ _ _ H1 H2 H3) as (p & [Hs Hr Hp] & Hd).
  destruct (strip "-" s) as [x|] eqn:Hneg; cbn in Hs.
  - apply strip_some in Hneg as ->. subst x. exists (String "-" p). split; [|done]. constructor; [done| |].
    + intros t Ht. rewrite append_cons. unfold skip_number. rewrite strip_cons. by apply Hr.
    + intros d [<-|Hin]; [done | by apply Hp].
  - subst s. apply digits1_head in Hd as (c & q & -> & Hc). exists (String c q). split; [|done].
    constructor; [done| |done]. intros t Ht. rewrite append_cons in Hneg |- *. unfold skip_number.
    cbn [strip]. rewrite (strip_none _ _ _ Hneg). cbn [default from_option]. rewrite <-append_cons.
    by apply Hr.
Qed.

(** *** Values *)

Definition value_start (c : ascii) : bool :=
  (c =? "{")%char || (c =? "[")%char || (c =? quote_byte)%char || (c =? "t")%char || (c =? "f")%char ||
  (c =? "n")%char || (c =? "-")%char || is_digit c.

Definition starts (c : string) : Prop :=
  match c with String a _ => value_start a = true | EmptyString => False end.

(** [f] reads a prefix of [s] and leaves [r]; it reads this prefix and its compact
    form [c] before any text that ends a value. *)
Definition scanned (f : string → option string) (s r : string) : Prop :=
  ∃ p c, s = (p +:+ r) ∧ compacts p c ∧ (starts p ∧ starts c) ∧
    reads f ends_number p ∧ reads f ends_number c.

Lemma value_start_not_ws a : value_start a = true → is_ws a = false.
Proof.
  intros Ha. destruct (is_ws a) eqn:Hw; [|done]. exfalso. revert Ha.
  unfold is_ws in Hw. assert (byte_of a = 32 ∨ byte_of a = 9 ∨ byte_of a = 10 ∨ byte_of a = 13) as Hb.
  { rewrite !orb_true_iff, !Z.eqb_eq in Hw. tauto. }
  rewrite <-(byte_ascii_of a). destruct Hb as [-> | [-> | [-> | ->]]]; by vm_compute.
Qed.

Lemma starts_skip_ws c t : starts c → skip_ws (c +:+ t) = (c +:+ t).
Proof.
  destruct c as [|a c]; [done|]. intros Ha. rewrite append_cons. by apply skip_ws_cons, value_start_not_ws.
Qed.

Lemma starts_strip x c t : value_start x = false → starts c → strip x (c +:+ t) = None.
Proof.
  destruct c as [|a c]; [done|]. intros Hx Ha. rewrite append_cons. cbn [strip].
  destruct (Ascii.eqb_spec a x) as [->|]; [|done]. cbn in Ha. congruence.
Qed.

Lemma starts_app c d : starts c → starts (c +:+ d).
Proof. by destruct c. Qed.

Lemma skip_literal_split literal s r :
  skip_literal literal s = Some r → s = (literal +:+ r) ∧ reads (skip_literal literal) any literal.
Proof.
  revert s. induction literal as [|c l IH]; intros s; [by intros [= ->]|]. cbn.
  intros (x & ->%strip_some & (-> & Hr)%IH)%bind_Some. split; [done|]. intros t _.
  rewrite append_cons. cbn. rewrite Ascii.eqb_refl. cbn. by apply Hr.
Qed.

Lemma plain_compacts p : forallb plain (list_ascii_of_string p) = true → compacts p p.
Proof. intros Hp. apply compacts_string. intros c Hc. by apply (proj1 (forallb_forall _ _) Hp). Qed.

(** A value that nests no further is its own compact form. *)
Lemma skip_flat_piece s r :
  skip_flat s = Some r → ∃ p, s = (p +:+ r) ∧ compacts p p ∧ starts p ∧ reads skip_flat ends_number p.
Proof.
  destruct s as [|c s]; [done|]. unfold skip_flat at 1.
  assert (∀ f p, (∀ t, skip_flat (String c t) = f (String c t)) → value_start c = true →
    String c s = (p +:+ r) → p ≠ ""%string → compacts p p → reads f ends_number p →
    ∃ p, String c s = (p +:+ r) ∧ compacts p p ∧ starts p ∧ reads skip_flat ends_number p) as Hgo.
  { intros f p Hf Hv Hs Hp Hc Hr. assert (starts p) as Hst.
    { destruct p as [|a p]; [done|]. rewrite append_cons in Hs. by injection Hs as <- _. }
    exists p. split_and!; [done..|]. intros t Ht.
    destruct p as [|a p]; [done|]. rewrite append_cons in Hs |- *. injection Hs as <- _.
    rewrite Hf, <-append_cons. by apply Hr. }
  destruct (c =? quote_byte)%char eqn:Hq.
  { intros (p & Hp & Hr & Hd)%(skip_str_split _ _ _ (le_n _)).
    apply (Hgo (λ t, match t with String _ t => skip_str t | EmptyString => None end) (String c p)).
    - intros t. unfold skip_flat. by rewrite Hq.
    - unfold value_start. by rewrite Hq, !orb_true_r.
    - by rewrite append_cons, Hp.
    - done.
    - apply Ascii.eqb_eq in Hq as ->. intros t. rewrite !append_cons. cbn. by rewrite Hd.
    - intros t _. rewrite append_cons. by apply Hr. }
  assert (∀ a w, (c =? a)%char = true → forallb plain (list_ascii_of_string (String a w)) = true →
    (∀ t, skip_flat (String c t) = skip_literal (String a w) (String c t)) → value_start c = true →
    skip_literal (String a w) (String c s) = Some r →
    ∃ p, String c s = (p +:+ r) ∧ compacts p p ∧ starts p ∧ reads skip_flat ends_number p) as Hlit.
  { intros a w Ha Hp Hf Hv (Hs & Hr)%skip_literal_split.
    apply (Hgo (skip_literal (String a w)) (String a w)); try done.
    - by apply plain_compacts.
    - intros t _. by apply Hr. }
  destruct (c =? "t")%char eqn:Ht.
  { apply (Hlit "t"%char "rue"%string); [done|reflexivity| |unfold value_start; by rewrite Ht, !orb_true_r].
    intros t. unfold skip_flat. by rewrite Hq, Ht. }
  destruct (c =? "f")%char eqn:Hf.
  { apply (Hlit "f"%char "alse"%string); [done|reflexivity| |unfold value_start; by rewrite Hf, !orb_true_r].
    intros t. unfold skip_flat. by rewrite Hq, Ht, Hf. }
  destruct (c =? "n")%char eqn:Hn.
  { apply (Hlit "n"%char "ull"%string); [done|reflexivity| |unfold value_start; by rewrite Hn, !orb_true_r].
    intros t. unfold skip_flat. by rewrite Hq, Ht, Hf, Hn. }
  destruct ((c =? "-")%char || is_digit c) eqn:Hnum; [|done].
  intros (p & [Hs Hr Hp] & Hne)%skip_number_piece. apply (Hgo skip_number p); try done.
  - intros t. unfold skip_flat. by rewrite Hq, Ht, Hf, Hn, Hnum.
  - unfold value_start. rewrite <-!orb_assoc, Hnum. by rewrite !orb_true_r.
  - by apply compacts_string.
Qed.

Lemma skip_flat_scanned s r : skip_flat s = Some r → scanned skip_flat s r.
Proof. intros (p & ? & ? & ? & ?)%skip_flat_piece. by exists p, p. Qed.

Lemma skip_key_split s v :
  skip_key s = Some v →
  ∃ p c, s = (p +:+ v) ∧ compacts p c ∧ (starts p ∧ starts c) ∧
    (∀ t, skip_ws t = t → skip_key (p +:+ t) = Some t) ∧
    (∀ t, skip_ws t = t → skip_key (c +:+ t) = Some t).
Proof.
  unfold skip_key at 1.
  intros (s1 & ->%strip_some & (s2 & (k & -> & Hr & Hd)%(skip_str_split _ _ _ (le_n _)) &
    (s3 & Hcolon%strip_some & [= <-])%bind_Some)%bind_Some)%bind_Some.
  destruct (skip_ws_split s2) as (w1 & Hw1 & [Hc1 Hk1]). destruct (skip_ws_split s3) as (w2 & Hw2 & [Hc2 Hk2]).
  rewrite Hcolon in Hw1.
  exists (String quote_byte k +:+ (w1 +:+ (String ":" w2))), (String quote_byte k +:+ ("" +:+ ":")).
  assert (compacts (String quote_byte k) (String quote_byte k)) as Hk.
  { intros t. rewrite !append_cons. cbn. by rewrite Hd. }
  assert (∀ w t, (∀ t, skip_ws (w +:+ t) = skip_ws t) →
    skip_key (String quote_byte k +:+ (w +:+ String ":" t)) = Some (skip_ws t)) as Hkey.
  { intros w t Hw. unfold skip_key. rewrite append_cons, strip_cons. cbn [mbind option_bind].
    rewrite Hr by done. cbn [mbind option_bind]. rewrite Hw, skip_ws_cons by done. by rewrite strip_cons. }
  split_and!; [| |done|done| |].
  - by rewrite !append_cons, !append_assoc, append_cons, <-Hw2, <-Hw1.
  - apply compacts_app; [done|]. apply compacts_app; [done|].
    apply (compacts_app ":" ":" w2 ""); [by apply plain_compacts | done].
  - intros t Ht. by rewrite !append_assoc, (append_cons ":"), Hkey, Hk2, Ht.
  - intros t Ht. by rewrite !append_assoc, (append_cons ":"), (Hkey ""%string), append_nil, Ht.
Qed.

(** A separator and what follows it, after white space. *)
Lemma separator_split x s r :
  plain x = true → strip x (skip_ws s) = Some r →
  ∃ w, s = (w +:+ r) ∧ compacts w (String x "") ∧ ∀ t, skip_ws (w +:+ t) = String x t.
Proof.
  intros Hx Hs%strip_some. destruct (skip_ws_split s) as (w & Hw & [Hc Hk]).
  exists (w +:+ String x ""). split_and!; [by rewrite append_assoc, append_cons, append_nil, <-Hs| |].
  2:{ intros t. rewrite append_assoc, append_cons, append_nil, Hk. apply skip_ws_cons.
      unfold plain in Hx. by destruct (is_ws x). }
  apply (compacts_app w "" (String x "") (String x "")); [done | by apply compacts_plain].
Qed.

Lemma starts_not_empty c t : starts c → ends_number (String "," (c +:+ t)) ∧ c ≠ ""%string.
Proof. intros Hc. split; [done|]. by destruct c. Qed.

Lemma strip_other x d t : (d =? x)%char = false → strip x (String d t) = None.
Proof. intros Hd. cbn. by rewrite Hd. Qed.

(** A nested value: bracket [x], then nothing or [inner], then bracket [y]. *)
Lemma nested_scanned (x y : ascii) (inner outer : string → option string) s r :
  plain x = true → plain y = true → is_ws y = false → value_start x = true → value_start y = false →
  (∀ t, outer (String x t) =
        match strip y (skip_ws t) with Some t => Some t | None => inner (skip_ws t) end) →
  match strip y (skip_ws s) with Some r' => Some r' | None => inner (skip_ws s) end = Some r →
  (inner (skip_ws s) = Some r → scanned inner (skip_ws s) r) →
  scanned outer (String x s) r.
Proof.
  intros Hx Hy Hyw Hxs Hys Hout Hs Hinner. destruct (strip y (skip_ws s)) as [r'|] eqn:Hempty.
  - injection Hs as ->. destruct (separator_split _ _ _ Hy Hempty) as (w & -> & Hw & Hk).
    exists (String x "" +:+ w), (String x "" +:+ String y ""). split_and!; try done.
    + apply compacts_app; [by apply compacts_plain | done].
    + intros t _. rewrite append_assoc, append_cons, append_nil, Hout, Hk. by rewrite strip_cons.
    + intros t _. rewrite !append_assoc, !append_cons, !append_nil, Hout, skip_ws_cons by done.
      by rewrite strip_cons.
  - destruct (Hinner Hs) as (p & c & Hp & Hc & [Hsp Hsc] & Hrp & Hrc).
    destruct (skip_ws_split s) as (w & Hw & [Hcw Hkw]).
    exists (String x "" +:+ (w +:+ p)), (String x "" +:+ ("" +:+ c)). split_and!; try done.
    + by rewrite !append_assoc, append_cons, append_nil, <-Hp, <-Hw.
    + apply compacts_app; [by apply compacts_plain|]. by apply compacts_app.
    + intros t Ht. rewrite !append_assoc, append_cons, append_nil, Hout, Hkw.
      rewrite starts_skip_ws, starts_strip by done. by apply Hrp.
    + intros t Ht. rewrite append_assoc, append_cons, !append_nil, Hout.
      rewrite starts_skip_ws, starts_strip by done. by apply Hrc.
Qed.

(** A sequence of items separated by commas and closed by [y]. *)
Lemma sequence_scanned (y : ascii) (item rest whole : string → option string) s r1 r :
  plain y = true → is_ws y = false → (y =? ",")%char = false → value_start y = false →
  (∀ w t, (∀ t, skip_ws (w +:+ t) = String y t) → ends_number (w +:+ t)) →
  (∀ w t, (∀ t, skip_ws (w +:+ t) = String "," t) → ends_number (w +:+ t)) →
  (∀ t, whole t = r ← item t;
        match strip "," (skip_ws r) with Some r => rest (skip_ws r) | None => strip y (skip_ws r) end) →
  scanned item s r1 →
  match strip "," (skip_ws r1) with Some r => rest (skip_ws r) | None => strip y (skip_ws r1) end
    = Some r →
  (∀ s, rest s = Some r → scanned rest s r) →
  scanned whole s r.
Proof.
  intros Hy Hyw Hyc Hys Hendy Hendc Hwhole (p & c & -> & Hc & [Hsp Hsc] & Hrp & Hrc) Hs Hrest.
  destruct (strip "," (skip_ws r1)) as [r2|] eqn:Hcomma.
  - destruct (separator_split "," _ _ eq_refl Hcomma) as (w1 & -> & Hw1 & Hk1).
    destruct (skip_ws_split r2) as (w2 & Hw2 & [Hcw2 Hk2]).
    destruct (Hrest _ Hs) as (p' & c' & Hp' & Hc' & [Hsp' Hsc'] & Hrp' & Hrc').
    exists (p +:+ (w1 +:+ (w2 +:+ p'))), (c +:+ ("," +:+ ("" +:+ c'))). split_and!.
    + by rewrite !append_assoc, <-Hp', <-Hw2.
    + by repeat apply compacts_app.
    + by apply starts_app.
    + by apply starts_app.
    + intros t Ht. rewrite !append_assoc, Hwhole. rewrite Hrp by by apply Hendc.
      cbn [mbind option_bind]. rewrite Hk1, strip_cons, Hk2, starts_skip_ws by done. by apply Hrp'.
    + intros t Ht. rewrite !append_assoc, append_nil, Hwhole. rewrite Hrc by done.
      cbn [mbind option_bind]. rewrite append_cons, append_nil, skip_ws_cons, strip_cons by done.
      rewrite starts_skip_ws by done. by apply Hrc'.
  - destruct (separator_split y _ _ Hy Hs) as (w & -> & Hw & Hk).
    exists (p +:+ w), (c +:+ String y ""). split_and!.
    + by rewrite append_assoc.
    + by apply compacts_app.
    + by apply starts_app.
    + by apply starts_app.
    + intros t Ht. rewrite append_assoc, Hwhole. rewrite Hrp by by apply Hendy.
      cbn [mbind option_bind]. rewrite Hk, strip_cons. by rewrite strip_other.
    + intros t Ht. rewrite append_assoc, append_cons, append_nil, Hwhole.
      rewrite Hrc by by apply (Hendy (String y "") t); intros u; apply skip_ws_cons.
      cbn [mbind option_bind]. rewrite skip_ws_cons, strip_cons by done. by rewrite strip_other.
Qed.

Lemma separator_ends y w t :
  is_digit y || (y =? ".")%char || (y =? "e")%char || (y =? "E")%char = false →
  (∀ t, skip_ws (w +:+ t) = String y t) → ends_number (w +:+ t).
Proof.
  rewrite !orb_false_iff. intros [[[Hd Hp] He] HE] Hw. specialize (Hw t).
  destruct (w +:+ t) as [|a x]; [done|]. cbn in Hw. destruct (is_ws a) eqn:Ha.
  - unfold is_ws in Ha. rewrite !orb_true_iff, !Z.eqb_eq in Ha. cbn. unfold is_digit.
    rewrite <-(byte_ascii_of a). destruct Ha as [[[-> | ->] | ->] | ->]; by vm_compute.
  - by injection Hw as -> _.
Qed.

Definition skip_member (fuel : nat) (depth : Z) (s : string) : option string :=
  v ← skip_key s; skip_value fuel depth v.

Lemma member_scanned fuel depth s r :
  (∀ v, skip_value fuel depth v = Some r → scanned (skip_value fuel depth) v r) →
  skip_member fuel depth s = Some r → scanned (skip_member fuel depth) s r.
Proof.
  intros IH. unfold skip_member at 1.
  intros (v & (p & c & -> & Hc & [Hsp Hsc] & Hkp & Hkc)%skip_key_split & Hv)%bind_Some.
  destruct (IH v Hv) as (p' & c' & -> & Hc' & [Hsp' Hsc'] & Hrp' & Hrc').
  exists (p +:+ p'), (c +:+ c').
  split_and!; [by rewrite append_assoc | by apply compacts_app | by apply starts_app
    | by apply starts_app | |]; intros t Ht; rewrite append_assoc; unfold skip_member.
  - rewrite Hkp by by apply starts_skip_ws. cbn [mbind option_bind]. by apply Hrp'.
  - rewrite Hkc by by apply starts_skip_ws. cbn [mbind option_bind]. by apply Hrc'.
Qed.

Lemma flat_value fuel depth s r : skip_flat s = Some r → skip_value (S fuel) depth s = Some r.
Proof.
  intros Hs. cbn [skip_value].
  destruct (strip "{" s) eqn:E1; [by apply strip_some in E1 as ->|].
  by destruct (strip "[" s) eqn:E2; [apply strip_some in E2 as ->|].
Qed.

Lemma skip_scanned fuel :
  (∀ depth s r, skip_value fuel depth s = Some r → scanned (skip_value fuel depth) s r) ∧
  (∀ depth s r, skip_members fuel depth s = Some r → scanned (skip_members fuel depth) s r) ∧
  (∀ depth s r, skip_elements fuel depth s = Some r → scanned (skip_elements fuel depth) s r).
Proof.
  induction fuel as [|fuel (IHv & IHm & IHe)]; [done|]. split_and!; intros depth s r Hs.
  - cbn in Hs. destruct (strip "{" s) as [s'|] eqn:Hb.
    { apply strip_some in Hb as ->. destruct (depth <=? 0) eqn:Hd; [done|].
      apply (nested_scanned "{" "}" (skip_members fuel (depth - 1))); try done; [|apply IHm].
      intros t. cbn. by rewrite Hd. }
    destruct (strip "[" s) as [s'|] eqn:Hb'.
    { apply strip_some in Hb' as ->. destruct (depth <=? 0) eqn:Hd; [done|].
      apply (nested_scanned "[" "]" (skip_elements fuel (depth - 1))); try done; [|apply IHe].
      intros t. cbn. by rewrite Hd. }
    apply skip_flat_scanned in Hs as (p & c & -> & Hc & Hst & Hrp & Hrc). exists p, c.
    split_and!; [done|done|apply Hst|apply Hst|..]; intros t Ht; apply flat_value; auto.
  - cbn in Hs. apply bind_Some in Hs as (v & Hk & (r1 & Hv & Hs)%bind_Some).
    apply (sequence_scanned "}" (skip_member fuel depth) (skip_members fuel depth) _ _ r1);
      try done; try (intros; eapply separator_ends; [|eassumption]; done).
    + intros t. cbn. unfold skip_member. by destruct (skip_key t).
    + apply member_scanned; [intros v'; apply IHv|]. unfold skip_member. by rewrite Hk.
    + intros s'. apply IHm.
  - cbn in Hs. apply bind_Some in Hs as (r1 & Hv & Hs).
    apply (sequence_scanned "]" (skip_value fuel depth) (skip_elements fuel depth) _ _ r1);
      try done; try (intros; eapply separator_ends; [|eassumption]; done).
    + by apply IHv.
    + intros s'. apply IHe.
Qed.

(** ** Fuel and depth

    Twice the length is enough fuel, and more depth changes nothing. *)

Lemma scanned_shorter f s r : scanned f s r → (String.length r < String.length s)%nat.
Proof.
  intros (p & c & -> & _ & [Hp _] & _). rewrite length_append. destruct p; [done|]. cbn. lia.
Qed.

Lemma strip_length x s r : strip x s = Some r → String.length s = S (String.length r).
Proof. by intros ->%strip_some. Qed.

Lemma skip_key_shorter s v : skip_key s = Some v → (String.length v + 2 ≤ String.length s)%nat.
Proof.
  unfold skip_key. intros (s1 & ->%strip_some & (s2 & (k & -> & Hr & _)%(skip_str_split _ _ _ (le_n _)) &
    (s3 & Hs3%strip_length & [= <-])%bind_Some)%bind_Some)%bind_Some.
  cbn. rewrite length_append. pose proof (skip_ws_le s2). pose proof (skip_ws_le s3). lia.
Qed.

Lemma skip_fuel fuel :
  (∀ d d' s r n, skip_value fuel d s = Some r → d ≤ d' → (2 * String.length s ≤ n)%nat →
     skip_value n d' s = Some r) ∧
  (∀ d d' s r n, skip_members fuel d s = Some r → d ≤ d' → (2 * String.length s + 1 ≤ n)%nat →
     skip_members n d' s = Some r) ∧
  (∀ d d' s r n, skip_elements fuel d s = Some r → d ≤ d' → (2 * String.length s + 1 ≤ n)%nat →
     skip_elements n d' s = Some r).
Proof.
  induction fuel as [|fuel (IHv & IHm & IHe)]; [done|]. split_and!; intros d d' s r n Hs Hd Hn.
  - pose proof (scanned_shorter _ _ _ (proj1 (skip_scanned (S fuel)) d s r Hs)) as Hlen.
    destruct n as [|n]; [lia|]. cbn in Hs |- *.
    destruct (strip "{" s) as [s'|] eqn:Hb.
    { apply strip_length in Hb. destruct (Z.leb_spec d 0); [done|]. destruct (Z.leb_spec d' 0); [lia|].
      destruct (strip "}" (skip_ws s')); [done|]. pose proof (skip_ws_le s').
      eapply IHm; [done|lia|lia]. }
    destruct (strip "[" s) as [s'|] eqn:Hb'; [|done].
    apply strip_length in Hb'. destruct (Z.leb_spec d 0); [done|]. destruct (Z.leb_spec d' 0); [lia|].
    destruct (strip "]" (skip_ws s')); [done|]. pose proof (skip_ws_le s'). eapply IHe; [done|lia|lia].
  - destruct n as [|n]; [lia|]. cbn in Hs |- *. apply bind_Some in Hs as (v & Hk & Hs).
    apply bind_Some in Hs as (r1 & Hv & Hs). rewrite Hk. cbn [mbind option_bind].
    apply skip_key_shorter in Hk.
    pose proof (scanned_shorter _ _ _ (proj1 (skip_scanned fuel) d v r1 Hv)) as Hlen.
    rewrite (IHv d d' v r1 n Hv Hd ltac:(lia)). cbn [mbind option_bind].
    destruct (strip "," (skip_ws r1)) as [r2|] eqn:Hc; [|done].
    apply strip_length in Hc. pose proof (skip_ws_le r1). pose proof (skip_ws_le r2).
    eapply IHm; [done|lia|lia].
  - destruct n as [|n]; [lia|]. cbn in Hs |- *. apply bind_Some in Hs as (r1 & Hv & Hs).
    pose proof (scanned_shorter _ _ _ (proj1 (skip_scanned fuel) d s r1 Hv)) as Hlen.
    rewrite (IHv d d' s r1 n Hv Hd ltac:(lia)). cbn [mbind option_bind].
    destruct (strip "," (skip_ws r1)) as [r2|] eqn:Hc; [|done].
    apply strip_length in Hc. pose proof (skip_ws_le r1). pose proof (skip_ws_le r2).
    eapply IHe; [done|lia|lia].
Qed.

(** A value accepted with any fuel is accepted by [scan]. *)
Lemma scan_complete fuel d s r : skip_value fuel d s = Some r → d ≤ maxNestingDepth → scan s = Some r.
Proof. intros Hs Hd. eapply (proj1 (skip_fuel fuel)); [done|done|]. unfold scan_fuel. lia. Qed.

Lemma scan_scanned s r :
  scan s = Some r →
  ∃ p c, s = (p +:+ r) ∧ compacts p c ∧ (starts p ∧ starts c) ∧
    reads scan ends_number p ∧ reads scan ends_number c.
Proof.
  unfold scan. intros (p & c & Hs & Hc & Hst & Hrp & Hrc)%skip_scanned. exists p, c.
  split_and!; [done|done|apply Hst|apply Hst|..]; intros t Ht; (eapply scan_complete; [|done]); auto.
Qed.

(** ** Texts *)

Definition all_white (s : string) : Prop := skip_ws s = ""%string.

Lemma append_nil_r s : (s +:+ "") = s.
Proof. induction s as [|c s IH]; [done|]. rewrite append_cons. by rewrite IH. Qed.

Lemma append_inj_r s t r : (s +:+ r) = (t +:+ r) → s = t.
Proof.
  revert t. induction s as [|c s IH]; intros [|d t] Heq; [done| | |].
  - apply (f_equal String.length) in Heq. rewrite append_cons, append_nil in Heq. cbn in Heq.
    rewrite length_append in Heq. lia.
  - apply (f_equal String.length) in Heq. rewrite append_cons, append_nil in Heq. cbn in Heq.
    rewrite length_append in Heq. lia.
  - rewrite !append_cons in Heq. injection Heq as -> Heq. f_equal. by apply IH.
Qed.

Lemma before_append p r : before (p +:+ r) r = p.
Proof.
  unfold before. rewrite length_append. replace (String.length p + String.length r - String.length r)%nat
    with (String.length p) by lia.
  induction p as [|c p IH]; [by destruct r|]. rewrite append_cons. cbn. by rewrite IH.
Qed.

Lemma json_valid_spec raw :
  json_valid raw = true ↔
  ∃ w p w' c, raw = (w +:+ (p +:+ w')) ∧ white w ∧ white w' ∧ compacts p c ∧ starts p ∧ starts c ∧
    skip_ws raw = (p +:+ w') ∧ reads scan ends_number p ∧ reads scan ends_number c ∧
    scan (skip_ws raw) = Some w'.
Proof.
  unfold json_valid. split.
  - destruct (scan (skip_ws raw)) as [r|] eqn:Hs; [|done]. intros Hr%String.eqb_eq.
    destruct (scan_scanned _ _ Hs) as (p & c & Hp & Hc & [Hsp Hsc] & Hrp & Hrc).
    destruct (skip_ws_split raw) as (w & Hw & Hww). destruct (skip_ws_split r) as (w' & Hw' & Hww').
    rewrite Hr, append_nil_r in Hw'. subst w'. exists w, p, r, c. rewrite <-Hp. by split_and!.
  - intros (w & p & w' & c & _ & _ & Hw' & _ & _ & _ & _ & _ & _ & ->).
    apply String.eqb_eq. destruct Hw' as [_ Hk]. specialize (Hk ""%string).
    by rewrite append_nil_r in Hk.
Qed.

Lemma reads_valid p : starts p → reads scan ends_number p → json_valid p = true.
Proof.
  intros Hst Hr. unfold json_valid. pose proof (starts_skip_ws p "" Hst) as Hws.
  rewrite append_nil_r in Hws. rewrite Hws. specialize (Hr ""%string I). rewrite append_nil_r in Hr.
  by rewrite Hr.
Qed.

Lemma value_text_spec raw t :
  value_text raw = Some t → json_valid raw = true ∧ starts t ∧ reads scan ends_number t.
Proof.
  unfold value_text. destruct (json_valid raw) eqn:Hv; [|done].
  apply json_valid_spec in Hv as (w & p & w' & c & _ & _ & _ & _ & Hst & _ & Hp & Hr & _ & Hs).
  rewrite Hs. cbn. rewrite Hp, before_append. by intros [= <-].
Qed.

(** What is cut out of a valid text is itself a valid text, and cutting again
    changes nothing. *)
Lemma value_text_idem raw t : value_text raw = Some t → json_valid t = true ∧ value_text t = Some t.
Proof.
  intros (_ & Hst & Hr)%value_text_spec. pose proof (reads_valid _ Hst Hr) as Hv. split; [done|].
  unfold value_text. rewrite Hv. pose proof (starts_skip_ws t "" Hst) as Hws.
  rewrite append_nil_r in Hws. rewrite Hws. specialize (Hr ""%string I). rewrite append_nil_r in Hr.
  rewrite Hr. cbn. f_equal. pose proof (before_append t "") as Hb. by rewrite append_nil_r in Hb.
Qed.

Lemma drop_ws_length q e s : str_len (drop_ws q e s) ≤ str_len s.
Proof.
  revert q e. induction s as [|c s IH]; intros q e; [done|]. unfold str_len in *. cbn.
  destruct q; [|destruct (is_ws c)]; cbn;
    [pose proof (IH (e || negb (c =? quote_byte)%char) (negb e && (c =? "\")%char))
    | pose proof (IH false false) | pose proof (IH (c =? quote_byte)%char false)]; lia.
Qed.

(** The compact form of a valid text is valid and not longer. *)
Lemma json_compact_ok raw c :
  json_compact raw = Some c → json_valid c = true ∧ str_len c ≤ str_len raw.
Proof.
  unfold json_compact. destruct (json_valid raw) eqn:Hv; [|done]. intros [= <-].
  split; [|apply drop_ws_length].
  apply json_valid_spec in Hv as (w & p & w' & c & -> & [Hw _] & [Hw' _] & Hc & _ & Hsc & _ & _ & Hrc & _).
  specialize (Hw' ""%string). rewrite append_nil_r in Hw'. cbn in Hw'. rewrite append_nil_r in Hw'.
  rewrite Hw, Hc, append_nil, Hw', append_nil_r. by apply reads_valid.
Qed.

(** An accepted object or array always decodes into its members or elements. *)

Lemma members_total fuel d s r n :
  skip_members fuel d s = Some r → d ≤ maxNestingDepth → (String.length s ≤ n)%nat →
  ∃ l, members n s = Some l.
Proof.
  revert s n. induction fuel as [|fuel IH]; intros s n Hs Hd Hn; [done|]. cbn in Hs.
  apply bind_Some in Hs as (v & Hk & (r1 & Hv & Hs)%bind_Some).
  pose proof (skip_key_shorter _ _ Hk) as Hkl.
  pose proof (scanned_shorter _ _ _ (proj1 (skip_scanned fuel) d v r1 Hv)) as Hvl.
  destruct n as [|n]; [lia|]. cbn [members]. rewrite Hk. unfold skip_key in Hk.
  destruct (strip quote_byte s) as [x|]; [|done]. cbn [mbind option_bind] in Hk |- *.
  destruct (skip_str x) as [rest|]; [|done]. cbn [mbind option_bind] in Hk |- *.
  rewrite (scan_complete _ _ _ _ Hv Hd). cbn [mbind option_bind].
  destruct (strip "," (skip_ws r1)) as [r2|] eqn:Hc; [|by eexists].
  apply strip_length in Hc. pose proof (skip_ws_le r1). pose proof (skip_ws_le r2).
  destruct (IH (skip_ws r2) n Hs Hd ltac:(lia)) as (l & ->). by eexists.
Qed.

Lemma elements_total fuel d s r n :
  skip_elements fuel d s = Some r → d ≤ maxNestingDepth → (String.length s ≤ n)%nat →
  ∃ l, elements_of n s = Some l.
Proof.
  revert s n. induction fuel as [|fuel IH]; intros s n Hs Hd Hn; [done|]. cbn in Hs.
  apply bind_Some in Hs as (r1 & Hv & Hs).
  pose proof (scanned_shorter _ _ _ (proj1 (skip_scanned fuel) d s r1 Hv)) as Hvl.
  destruct n as [|n]; [lia|]. cbn [elements_of]. rewrite (scan_complete _ _ _ _ Hv Hd).
  cbn [mbind option_bind].
  destruct (strip "," (skip_ws r1)) as [r2|] eqn:Hc; [|by eexists].
  apply strip_length in Hc. pose proof (skip_ws_le r1). pose proof (skip_ws_le r2).
  destruct (IH (skip_ws r2) n Hs Hd ltac:(lia)) as (l & ->). by eexists.
Qed.

Lemma value_text_scan raw t : value_text raw = Some t → scan t = Some ""%string.
Proof.
  intros (_ & _ & Hr)%value_text_spec. specialize (Hr ""%string I). by rewrite append_nil_r in Hr.
Qed.

Lemma json_object_total raw t r :
  value_text raw = Some t → strip "{" t = Some r → ∃ l, json_object raw = Some l.
Proof.
  intros Ht Hb. pose proof (value_text_scan _ _ Ht) as Hs. unfold json_object. rewrite Ht. cbn. rewrite Hb.
  cbn. apply strip_some in Hb as ->. cbn in Hs.
  destruct (strip "}" (skip_ws r)); [by eexists|]. eapply members_total; [done| |apply skip_ws_le].
  unfold maxNestingDepth. lia.
Qed.

Lemma json_array_total raw t r :
  value_text raw = Some t → strip "[" t = Some r → ∃ l, json_array raw = Some l.
Proof.
  intros Ht Hb. pose proof (value_text_scan _ _ Ht) as Hs. unfold json_array. rewrite Ht. cbn. rewrite Hb.
  cbn. apply strip_some in Hb as ->. cbn in Hs.
  destruct (strip "]" (skip_ws r)); [by eexists|]. eapply elements_total; [done| |apply skip_ws_le].
  unfold maxNestingDepth. lia.
Qed.

(** ** Examples *)

Example json_valid_examples :
  map json_valid
    (map text ["{'a' : [null, {}]}"; " [1, -0.5e+3] "; "'a\u00e9'"; "01"; "[1,]"; "{'a':1,}"; "1 2"; ""]) =
  [true; true; true; false; false; false; false; false].
Proof. vm_compute. reflexivity. Qed.

Example json_object_example :
  json_object (text " {'a' : [null, {}] , '\u0062' : ' x' } ") =
  Some [("a", "[null, {}]"); ("b", text "' x'")]%string.
Proof. vm_compute. reflexivity. Qed.

Example decode_slice_example :
  decode_slice 0 decode_int (Build_Slice [1; 2; 3] []) "[null, 5]" = Some (Build_Slice [1; 5] [3]).
Proof. vm_compute. reflexivity. Qed.
