(* ===== verification/JsonWrite.v ===== *)
(** * Writing JSON

    The part of Go's [encoding/json] that writes: [json.Marshal] of strings,
    integers, booleans, raw messages and structs, with the escaping that
    [Marshal] applies for HTML. Every text written is read back by the scanner
    and the decoders of Json.v: a struct whose fields are written is decoded
    into the same fields. *)

From S2P Require Import Prelude Encoding Json.

(** ** Strings *)

(** The bytes of a text given with ' for the quotation mark. *)
Definition ascii_bytes (s : string) : list Z := bytes_of (text s).

(** [htmlSafeSet]: the bytes below 0x80 that stand for themselves. *)
Definition html_safe (b : Z) : bool :=
  (32 <=? b) && negb ((b =? 34) || (b =? 92) || (b =? 60) || (b =? 62) || (b =? 38)).

Definition u00 (b : Z) : list Z := ascii_bytes "\u00" ++ [hex_digit (b / 16); hex_digit (b mod 16)].

Definition escape_ascii (b : Z) : list Z :=
  if html_safe b then [b]
  else if (b =? 34) || (b =? 92) then [92; b]
  else if b =? 8 then ascii_bytes "\b" else if b =? 12 then ascii_bytes "\f"
  else if b =? 10 then ascii_bytes "\n" else if b =? 13 then ascii_bytes "\r"
  else if b =? 9 then ascii_bytes "\t" else u00 b.

(** U+2028 and U+2029. *)
Definition line_separator (b : Z) (rest : list Z) : option Z :=
  match rest with
  | b1 :: b2 :: _ => if (b =? 0xE2) && (b1 =? 0x80) && ((b2 =? 0xA8) || (b2 =? 0xA9)) then Some b2 else None
  | _ => None
  end.

(** [appendString]: the text between the quotation marks. *)
Fixpoint escape_bytes (fuel : nat) (l : list Z) : list Z :=
  match fuel, l with
  | S fuel, b :: r =>
      if b <? 0x80 then escape_ascii b ++ escape_bytes fuel r
      else
        let '(size, ok) := rune_size b r in
        (if negb ok then ascii_bytes "\ufffd"
         else match line_separator b r with
              | Some b2 => ascii_bytes "\u202" ++ [hex_digit (b2 mod 16)]
              | None => b :: take (size - 1) r
              end) ++ escape_bytes fuel (drop (size - 1) r)
  | _, _ => []
  end.

Definition encode_string (s : string) : string :=
  String quote_byte
    (string_of_bytes (escape_bytes (String.length s) (bytes_of s)) +:+ String quote_byte "").

(** ** Other values *)

Definition encode_bool (b : bool) : string := if b then "true" else "false".

(** [strconv.AppendInt] in base ten. *)
Fixpoint decimal_digits (fuel : nat) (z : Z) (acc : list Z) : list Z :=
  match fuel with
  | O => acc
  | S fuel =>
      if z <? 10 then 48 + z :: acc else decimal_digits fuel (z / 10) (48 + z mod 10 :: acc)
  end.

Definition encode_int (z : Z) : string :=
  if z <? 0 then String "-" (string_of_bytes (decimal_digits 20 (- z) []))
  else string_of_bytes (decimal_digits 20 z []).

(** A [json.RawMessage]: [Marshal] compacts the text and escapes it for HTML. *)
Definition html_special (c : ascii) : bool :=
  (c =? "<")%char || (c =? ">")%char || (c =? "&")%char.

Definition hex_ascii (v : Z) : ascii := byte_ascii (hex_digit v).

Fixpoint html_escape (s : string) : string :=
  match s with
  | EmptyString => EmptyString
  | String c r =>
      if html_special c
      then String "\" (String "u" (String "0" (String "0"
             (String (hex_ascii (byte_of c / 16)) (String (hex_ascii (byte_of c mod 16)) (html_escape r))))))
      else
        match r with
        | String c1 (String c2 r') =>
            if (byte_of c =? 0xE2) && (byte_of c1 =? 0x80) &&
               ((byte_of c2 =? 0xA8) || (byte_of c2 =? 0xA9))
            then String "\" (String "u" (String "2" (String "0" (String "2"
                   (String (hex_ascii (byte_of c2 mod 16)) (html_escape r'))))))
            else String c (html_escape r)
        | _ => String c (html_escape r)
        end
  end.

Definition encode_raw (raw : string) : option string := html_escape <$> json_compact raw.

(** A struct: the fields it shows, a name and the text of a value each. *)
Definition encode_member (f : string * string) : string := encode_string f.1 +:+ String ":" f.2.

Fixpoint encode_members (fields : list (string * string)) : string :=
  match fields with
  | [] => ""
  | [f] => encode_member f
  | f :: fields => encode_member f +:+ String "," (encode_members fields)
  end.

Definition encode_object (fields : list (string * string)) : string :=
  String "{" (encode_members fields +:+ "}").

(** A field that is left out when it has no text. *)
Definition opt_field (name : string) (value : option string) : list (string * string) :=
  match value with Some t => [(name, t)] | None => [] end.

(** [omitempty] for strings, integers and pointers. *)
Definition nonempty_string (s : string) : option string :=
  if (s =? "")%string then None else Some (encode_string s).
Definition nonzero_int (z : Z) : option string := if z =? 0 then None else Some (encode_int z).

Example encode_string_example :
  encode_string (string_of_bytes [60; 10; 34; 0xE2; 0x80; 0xA9; 0xC3; 0xA9; 0xFF]) =
  string_of_bytes ([34] ++ ascii_bytes "\u003c\n\" ++ [34] ++ ascii_bytes "\u2029" ++ [0xC3; 0xA9]
                   ++ ascii_bytes "\ufffd" ++ [34]).
Proof. vm_compute. reflexivity. Qed.

Example encode_raw_example :
  encode_raw (text " { 'a<b' : [1, 'x y'] } ") = Some (text "{'a\u003cb':[1,'x y']}").
Proof. vm_compute. reflexivity. Qed.

Example encode_object_example :
  encode_object (("a", encode_int (-120)) :: opt_field "b" (nonempty_string "") ++
                 opt_field "c" (nonzero_int 7)) = text "{'a':-120,'c':7}".
Proof. vm_compute. reflexivity. Qed.

(** ** Strings are read back *)

Definition plain_byte (b : Z) : bool := (32 <=? b) && (b <? 256) && negb (b =? 34) && negb (b =? 92).

(** A piece of a string literal: a byte that stands for itself, or an escape. *)
Definition is_piece (p : list Z) : bool :=
  match p with
  | [b] => plain_byte b
  | [92; e] => isSome (simple_escape (byte_ascii e)) && negb (e =? 117)
  | [92; 117; h1; h2; h3; h4] =>
      is_hex (byte_ascii h1) && is_hex (byte_ascii h2) && is_hex (byte_ascii h3) && is_hex (byte_ascii h4)
  | _ => false
  end.

Lemma string_of_bytes_cons b l : string_of_bytes (b :: l) = String (byte_ascii b) (string_of_bytes l).
Proof. done. Qed.

Lemma string_of_bytes_app l k : string_of_bytes (l ++ k) = (string_of_bytes l +:+ string_of_bytes k).
Proof. induction l as [|b l IH]; [done|]. rewrite !string_of_bytes_cons, append_cons, <-IH. done. Qed.

Lemma ascii_eqb_byte b c : is_byte b → b ≠ byte_of c → (byte_ascii b =? c)%char = false.
Proof. intros Hb Hn. destruct (Ascii.eqb_spec (byte_ascii b) c) as [<-|]; [|done]. by rewrite byte_of_ascii in Hn. Qed.

Lemma plain_byte_read b t :
  plain_byte b = true → skip_str (String (byte_ascii b) t) = skip_str t.
Proof.
  unfold plain_byte. rewrite !andb_true_iff, !negb_true_iff, Z.leb_le, Z.ltb_lt, !Z.eqb_neq.
  intros [[[Hl Hh] Hq] Hs]. assert (is_byte b) as Hb by (unfold is_byte; lia). cbn.
  rewrite !ascii_eqb_byte by done. rewrite byte_of_ascii by done. by destruct (Z.ltb_spec b 32); [lia|].
Qed.

Lemma skip_escape e t :
  e ≠ "u"%char → skip_str (String "\" (String e t)) = if isSome (simple_escape e) then skip_str t else None.
Proof. intros He. cbn. by destruct (Ascii.eqb_spec e "u"). Qed.

Lemma skip_unicode h1 h2 h3 h4 t :
  skip_str (String "\" (String "u" (String h1 (String h2 (String h3 (String h4 t)))))) =
  if is_hex h1 && is_hex h2 && is_hex h3 && is_hex h4 then skip_str t else None.
Proof. done. Qed.

Lemma piece_read p t : is_piece p = true → skip_str (string_of_bytes p +:+ t) = skip_str t.
Proof.
  intros Hp.
  assert ((∃ b, p = [b] ∧ plain_byte b = true) ∨
    (∃ e, p = [92; e] ∧ isSome (simple_escape (byte_ascii e)) && negb (e =? 117) = true) ∨
    (∃ h1 h2 h3 h4, p = [92; 117; h1; h2; h3; h4] ∧
      is_hex (byte_ascii h1) && is_hex (byte_ascii h2) && is_hex (byte_ascii h3) && is_hex (byte_ascii h4) = true))
    as Hcase.
  { unfold is_piece in Hp. repeat case_match; try done; eauto 12. }
  destruct Hcase as [(b & -> & Hb) | [(e & -> & [He Hu]%andb_true_iff) | (h1 & h2 & h3 & h4 & -> & Hh)]].
  - rewrite string_of_bytes_cons, append_cons. by apply plain_byte_read.
  - rewrite !string_of_bytes_cons, !append_cons. change (byte_ascii 92) with "\"%char.
    rewrite skip_escape by (intros Hx; rewrite Hx in He; by vm_compute in He). by rewrite He.
  - rewrite !string_of_bytes_cons, !append_cons. change (byte_ascii 92) with "\"%char.
    change (byte_ascii 117) with "u"%char. by rewrite skip_unicode, Hh.
Qed.

Lemma small_bytes (P : Z → Prop) : Forall P (map Z.of_nat (seq 0 128)) → ∀ b, 0 ≤ b < 0x80 → P b.
Proof.
  intros HP b Hb. rewrite Forall_forall in HP. apply HP. apply list_elem_of_In, in_map_iff.
  exists (Z.to_nat b). split; [lia|]. apply in_seq. lia.
Qed.

(** The list of all bytes below 0x80, written out. *)
Ltac small_list :=
  let l := eval vm_compute in (map Z.of_nat (seq 0 128)) in change (map Z.of_nat (seq 0 128)) with l.

Lemma escape_ascii_piece b : 0 ≤ b < 0x80 → is_piece (escape_ascii b) = true.
Proof.
  revert b. apply small_bytes. small_list. repeat (apply Forall_cons; split; [vm_compute; reflexivity|]).
  by apply Forall_nil.
Qed.

Lemma escape_ascii_unquote b n r :
  0 ≤ b < 0x80 → unquote (S n) (escape_ascii b ++ r) = b :: unquote n r.
Proof.
  intros Hb. revert n r.
  refine (small_bytes (λ b, ∀ n r, unquote (S n) (escape_ascii b ++ r) = b :: unquote n r) _ b Hb).
  small_list. repeat (apply Forall_cons; split; [intros; reflexivity|]). by apply Forall_nil.
Qed.

Ltac forall_lia := cbn; repeat (apply Forall_cons; split; [lia|]); by apply Forall_nil.

(** What [rune_size] says of a sequence longer than a byte. *)
Lemma rune_size_ok b r size :
  rune_size b r = (size, true) → 0x80 ≤ b →
  (2 ≤ size ≤ 4)%nat ∧ length (take (size - 1) r) = (size - 1)%nat ∧
  Forall (λ c, 0x80 ≤ c ≤ 0xBF) (take (size - 1) r) ∧
  ∀ x, rune_size b (take (size - 1) r ++ x) = (size, true).
Proof.
  unfold rune_size. intros Hr Hb. destruct (Z.ltb_spec b 0x80); [lia|].
  destruct (lead_byte b) as [[[k low] high]|] eqn:Hlead; [|done].
  destruct (_ && _) eqn:Hc; [|done]. injection Hr as <-.
  assert ((2 ≤ k ≤ 4)%nat ∧ 0x80 ≤ low ∧ high ≤ 0xBF) as (Hk & Hl & Hh).
  { unfold lead_byte in Hlead. repeat case_match; simplify_eq; lia. }
  unfold continuation in *. rewrite !andb_true_iff, !orb_true_iff in Hc.
  destruct Hc as [[H0 H1] H2].
  destruct r as [|r0 r]; [done|]. cbn in H0.
  assert (0x80 ≤ r0 ≤ 0xBF) by lia.
  assert (k = 2 ∨ k = 3 ∨ k = 4)%nat as [-> | [-> | ->]] by lia.
  - split_and!; [lia|lia|done|forall_lia|]. intros x. cbn. by rewrite H0.
  - destruct H1 as [|H1]; [done|]. destruct r as [|r1 r]; [done|]. cbn in H1.
    split_and!; [lia|lia|done|forall_lia|]. intros x. cbn. by rewrite H0, H1.
  - destruct H1 as [|H1]; [done|]. destruct H2 as [|H2]; [done|].
    destruct r as [|r1 [|r2 r]]; try done. cbn in H1, H2.
    split_and!; [lia|lia|done|forall_lia|]. intros x. cbn. by rewrite H0, H1, H2.
Qed.

Lemma high_bytes_read p t :
  Forall (λ c, 0x80 ≤ c < 256) p → skip_str (string_of_bytes p +:+ t) = skip_str t.
Proof.
  induction 1 as [|c p Hc _ IH]; [done|]. rewrite string_of_bytes_cons, append_cons, plain_byte_read; [done|].
  unfold plain_byte. lia.
Qed.

Lemma escape_bytes_read n l t :
  Forall is_byte l →
  skip_str (string_of_bytes (escape_bytes n l) +:+ String quote_byte t) = Some t.
Proof.
  revert l. induction n as [|n IH]; intros [|b l] Hl; try done. apply Forall_cons in Hl as [Hb Hl].
  cbn [escape_bytes]. destruct (Z.ltb_spec b 0x80).
  - rewrite string_of_bytes_app, append_assoc, piece_read by (apply escape_ascii_piece; unfold is_byte in Hb; lia).
    by apply IH.
  - destruct (rune_size b l) as [size ok] eqn:Hr. rewrite string_of_bytes_app, append_assoc.
    assert (∀ t, skip_str (string_of_bytes
        (if negb ok then ascii_bytes "\ufffd"
         else match line_separator b l with
              | Some b2 => ascii_bytes "\u202" ++ [hex_digit (b2 mod 16)]
              | None => b :: take (size - 1) l end) +:+ t) = skip_str t) as ->.
    { intros t'. destruct ok; [|by apply piece_read]. cbn [negb]. unfold is_byte in Hb.
      destruct (line_separator b l) as [b2|] eqn:Hls.
      - apply piece_read. unfold line_separator in Hls. destruct l as [|b1 [|c2 l]]; try done.
        destruct (_ && _) eqn:Hc in Hls; [|done]. injection Hls as ->.
        apply andb_true_iff in Hc as [_ Hc]. apply orb_true_iff in Hc.
        rewrite !Z.eqb_eq in Hc. by destruct Hc as [-> | ->].
      - apply rune_size_ok in Hr as (_ & _ & Hc & _); [|done]. apply high_bytes_read.
        constructor; [lia|]. eapply Forall_impl; [done|]. cbn. lia. }
    apply IH. by apply Forall_drop.
Qed.

Lemma separator_unquote b m r :
  b = 0xA8 ∨ b = 0xA9 →
  unquote (S m) ((ascii_bytes "\u202" ++ [hex_digit (b mod 16)]) ++ r) = 0xE2 :: 0x80 :: b :: unquote m r.
Proof. by intros [-> | ->]. Qed.

(** Well-formed UTF-8 comes back as it was. *)
Lemma escape_bytes_unquote n l m :
  Forall is_byte l → (length l ≤ n)%nat → (length l ≤ m)%nat → forallb snd (runes n l) = true →
  unquote m (escape_bytes n l) = l.
Proof.
  revert l m. induction n as [|n IH]; intros [|b l] m Hl Hn Hm Hv; [by destruct m|cbn in Hn; lia|by destruct m|].
  apply Forall_cons in Hl as [Hb Hl]. cbn in Hn, Hm. destruct m as [|m]; [lia|].
  cbn [runes forallb] in Hv. apply andb_true_iff in Hv as [Hok Hv]. cbn [escape_bytes].
  destruct (Z.ltb_spec b 0x80) as [Hlt|Hge].
  - unfold is_byte in Hb. rewrite escape_ascii_unquote by lia. f_equal. apply IH; [done|lia|lia|].
    unfold rune_size in Hv. destruct (Z.ltb_spec b 0x80); [|lia]. done.
  - destruct (rune_size b l) as [size ok] eqn:Hr. cbn in Hok, Hv. subst ok. cbn [negb].
    destruct (rune_size_ok _ _ _ Hr Hge) as (Hs & Hlen & Hc & Hx).
    assert (unquote m (escape_bytes n (drop (size - 1) l)) = drop (size - 1) l) as Hrest.
    { apply IH; [by apply Forall_drop|rewrite length_drop; lia|rewrite length_drop; lia|done]. }
    destruct (line_separator b l) as [b2|] eqn:Hls.
    + unfold line_separator in Hls. destruct l as [|b1 [|c2 l]]; try done.
      destruct (_ && _) eqn:Hc' in Hls; [|done]. injection Hls as ->.
      rewrite !andb_true_iff, orb_true_iff, !Z.eqb_eq in Hc'. destruct Hc' as [[-> ->] Hc2].
      assert (size = 3%nat) as ->.
      { by destruct Hc2 as [-> | ->]; vm_compute in Hr; injection Hr as <-. }
      change (drop (3 - 1) (128 :: b2 :: l)) with l in *.
      destruct Hc2 as [-> | ->]; rewrite separator_unquote by auto; by rewrite Hrest.
    + rewrite <-app_comm_cons.
      assert (unquote (S m) (b :: take (size - 1) l ++ escape_bytes n (drop (size - 1) l)) =
        b :: take (size - 1) (take (size - 1) l ++ escape_bytes n (drop (size - 1) l)) ++
          unquote m (drop (size - 1) (take (size - 1) l ++ escape_bytes n (drop (size - 1) l)))) as ->.
      { specialize (Hx (escape_bytes n (drop (size - 1) l))).
        set (y := take (size - 1) l ++ _) in *. clearbody y. unfold unquote at 1. fold unquote.
        assert (b ≠ 92) by lia. destruct b as [|b|]; [lia| |lia].
        repeat (destruct b as [b|b|]; try (rewrite Hx; reflexivity); try lia). }
      rewrite take_app_le by lia. rewrite firstn_all2 by (rewrite Hlen; lia).
      rewrite drop_app_ge by lia. rewrite Hlen, Nat.sub_diag, drop_0, Hrest.
      by rewrite take_drop.
Qed.

Lemma rune_size_le4 b l : ((rune_size b l).1 ≤ 4)%nat.
Proof. unfold rune_size, lead_byte. repeat case_match; simplify_eq/=; lia. Qed.

Ltac forall_byte := apply (bool_decide_unpack _); vm_compute; exact I.

Lemma escape_bytes_range n l : Forall is_byte l → Forall is_byte (escape_bytes n l).
Proof.
  revert l. induction n as [|n IH]; intros [|b l] Hl; cbn; try by constructor.
  apply Forall_cons in Hl as [Hb Hl]. destruct (Z.ltb_spec b 0x80).
  - apply Forall_app. split; [|by apply IH]. unfold is_byte in Hb.
    apply (small_bytes (λ b, Forall is_byte (escape_ascii b))); [|lia]. small_list.
    repeat (apply Forall_cons; split; [forall_byte|]). by apply Forall_nil.
  - destruct (rune_size b l) as [size ok]. apply Forall_app. split; [|apply IH; by apply Forall_drop].
    destruct ok; [|forall_byte]. cbn [negb].
    destruct (line_separator b l) as [b2|] eqn:Hls; [|constructor; [done|by apply Forall_take]].
    unfold line_separator in Hls. destruct l as [|b1 [|c2 l]]; try done.
    destruct (_ && _) eqn:Hc in Hls; [|done]. injection Hls as ->. apply andb_true_iff in Hc as [_ Hc].
    apply orb_true_iff in Hc. rewrite !Z.eqb_eq in Hc. destruct Hc as [-> | ->]; forall_byte.
Qed.

Lemma escape_bytes_length n l : (length l ≤ n)%nat → (length l ≤ length (escape_bytes n l))%nat.
Proof.
  revert l. induction n as [|n IH]; intros [|b l] Hn; cbn [length escape_bytes] in Hn |- *; try lia.
  destruct (b <? 0x80).
  - rewrite length_app. specialize (IH l ltac:(lia)).
    assert (1 ≤ length (escape_ascii b))%nat; [|lia].
    unfold escape_ascii, u00. repeat case_match; cbn; lia.
  - pose proof (rune_size_fits b l) as Hf. pose proof (rune_size_pos b l) as Hp.
    pose proof (rune_size_le4 b l) as H4.
    destruct (rune_size b l) as [size ok] eqn:Hr. cbn in Hf, Hp, H4. rewrite length_app.
    specialize (IH (drop (size - 1) l) ltac:(rewrite length_drop; lia)). rewrite length_drop in IH.
    enough (size ≤ length (if negb ok then ascii_bytes "\ufffd"
         else match line_separator b l with
              | Some b2 => ascii_bytes "\u202" ++ [hex_digit (b2 mod 16)]
              | None => b :: take (size - 1) l end))%nat by lia.
    repeat case_match; cbn; try lia. rewrite length_take. lia.
Qed.

(** ** Values

    [value_at d t]: [t] is the text of one value, without white space around it,
    that nests at most [d] deep. *)

Definition value_at (d : Z) (t : string) : Prop := ∃ fuel, skip_value fuel d t = Some ""%string.

Lemma value_at_flat d t : skip_flat t = Some ""%string → value_at d t.
Proof. intros Ht. exists 1%nat. by apply flat_value. Qed.

Lemma value_at_weaken d d' t : value_at d t → d ≤ d' → value_at d' t.
Proof.
  intros (fuel & Hv) Hd. exists (2 * String.length t)%nat. by eapply (proj1 (skip_fuel fuel)).
Qed.

Lemma value_at_reads d t :
  value_at d t →
  starts t ∧ ∀ n r, ends_number r → (2 * String.length (t +:+ r) ≤ n)%nat → skip_value n d (t +:+ r) = Some r.
Proof.
  intros (fuel & (p & c & Hp & _ & [Hst _] & Hr & _)%skip_scanned). rewrite append_nil_r in Hp. subst p.
  split; [done|]. intros n r He Hn. eapply (proj1 (skip_fuel fuel)); [by apply Hr|done|done].
Qed.

Lemma value_at_text d t : value_at d t → d ≤ maxNestingDepth → json_valid t = true ∧ value_text t = Some t.
Proof.
  intros Hv Hd. pose proof (value_at_reads _ _ Hv) as [Hst Hr].
  apply (value_text_idem t). unfold value_text.
  pose proof (starts_skip_ws t "" Hst) as Hws. rewrite append_nil_r in Hws.
  specialize (Hr (2 * String.length (t +:+ ""))%nat ""%string I (le_n _)). rewrite append_nil_r in Hr.
  apply scan_complete in Hr; [|done]. unfold json_valid. rewrite Hws, Hr. cbn.
  f_equal. pose proof (before_append t "") as Hb. by rewrite append_nil_r in Hb.
Qed.

Lemma encode_string_value d s : value_at d (encode_string s).
Proof.
  apply value_at_flat. unfold encode_string. cbn [skip_flat].
  change ((quote_byte =? quote_byte)%char) with true. cbv iota.
  apply escape_bytes_read, bytes_of_range.
Qed.

Lemma substring_literal (q : ascii) (b : string) :
  String.substring 1 (String.length (String q (b +:+ String q "")) - 2) (String q (b +:+ String q "")) = b.
Proof.
  cbn. rewrite length_append. cbn. replace (String.length b + 1 - 1)%nat with (String.length b) by lia.
  induction b as [|c b IH]; [done|]. rewrite append_cons. cbn. by rewrite IH.
Qed.

Lemma unquote_encode s : utf8_Valid s = true → unquote_literal (encode_string s) = s.
Proof.
  intros Hv. unfold unquote_literal, encode_string. rewrite substring_literal. unfold unquote_string.
  pose proof (escape_bytes_length (String.length s) (bytes_of s) ltac:(by rewrite length_bytes_of)) as Hlen.
  assert (Forall is_byte (escape_bytes (String.length s) (bytes_of s))) as Hb by apply escape_bytes_range, bytes_of_range.
  rewrite bytes_of_string_of_bytes by done. rewrite length_string_of_bytes.
  rewrite escape_bytes_unquote; [by apply string_of_bytes_of_string|apply bytes_of_range|by rewrite length_bytes_of|done|done].
Qed.

Lemma decode_string_encode s old : utf8_Valid s = true → decode_string old (encode_string s) = Some s.
Proof.
  intros Hv. unfold decode_string.
  destruct (value_at_text maxNestingDepth (encode_string s) (encode_string_value _ s) ltac:(done)) as [_ ->].
  cbn [mbind option_bind]. change (isSome (strip quote_byte (encode_string s))) with true.
  destruct (String.eqb_spec (encode_string s) "null") as [He|_]; [done|]. by rewrite unquote_encode.
Qed.

(** *** Integers *)

Definition is_digit_byte (b : Z) : bool := (48 <=? b) && (b <=? 57).

Lemma decimal_digits_spec n z acc :
  0 ≤ z < 10 ^ Z.of_nat n → (1 ≤ n)%nat →
  ∃ b ds, decimal_digits n z acc = b :: ds ++ acc ∧ Forall (λ b, is_digit_byte b = true) (b :: ds) ∧
    (b = 48 → ds = []) ∧ (b = 48 ↔ z = 0) ∧
    ∀ r, decimal 0 (b :: ds ++ r) = decimal z r.
Proof.
  revert z acc. induction n as [|n IH]; [lia|]. intros z acc Hz _. cbn [decimal_digits].
  destruct (Z.ltb_spec z 10).
  { exists (48 + z), []. split_and!; [done| |done|lia|].
    - repeat constructor. unfold is_digit_byte. lia.
    - intros r. cbn -[Z.add]. replace ((48 <=? 48 + z) && (48 + z <=? 57)) with true by lia. f_equal. lia. }
  destruct n as [|n]; [cbn in Hz; lia|].
  rewrite Nat2Z.inj_succ, Z.pow_succ_r in Hz by lia.
  destruct (IH (z / 10) (48 + z mod 10 :: acc)) as (b & ds & -> & Hd & H0 & Hz0 & Hr); [divide|lia|].
  exists b, (ds ++ [48 + z mod 10]). split_and!.
  - by rewrite <-app_assoc.
  - rewrite app_comm_cons. apply Forall_app. split; [done|]. repeat constructor. unfold is_digit_byte. divide.
  - intros ->. exfalso. pose proof (proj1 Hz0 eq_refl). divide.
  - rewrite Hz0. divide.
  - intros r. rewrite <-app_assoc. rewrite Hr. cbn -[Z.add Z.mul].
    replace ((48 <=? 48 + z mod 10) && (48 + z mod 10 <=? 57)) with true by divide. f_equal. divide.
Qed.

Lemma is_digit_ascii b : is_digit_byte b = true → is_digit (byte_ascii b) = true.
Proof. intros Hb. unfold is_digit. rewrite byte_of_ascii; [done|]. unfold is_digit_byte, is_byte in *. lia. Qed.

Lemma skip_digits_all ds :
  Forall (λ b, is_digit_byte b = true) ds → skip_digits (string_of_bytes ds) = ""%string.
Proof.
  induction 1 as [|b ds Hb _ IH]; [done|]. rewrite string_of_bytes_cons. cbn. by rewrite is_digit_ascii.
Qed.

Lemma skip_int_digits b ds :
  Forall (λ b, is_digit_byte b = true) (b :: ds) → (b = 48 → ds = []) →
  skip_int (string_of_bytes (b :: ds)) = Some ""%string ∧ strip "-" (string_of_bytes (b :: ds)) = None ∧
  skip_flat (string_of_bytes (b :: ds)) = skip_number (string_of_bytes (b :: ds)).
Proof.
  intros [Hb Hds]%Forall_cons H0. rewrite string_of_bytes_cons.
  pose proof (is_digit_ascii _ Hb) as Hd. split_and!.
  - unfold skip_int. cbn [strip]. destruct (Ascii.eqb_spec (byte_ascii b) "0") as [He|].
    + rewrite H0; [done|]. apply (f_equal byte_of) in He. rewrite byte_of_ascii in He; [done|].
      unfold is_digit_byte, is_byte in *. lia.
    + cbn [digits1]. by rewrite Hd, skip_digits_all.
  - cbn. by rewrite (digit_not _ "-").
  - unfold skip_flat. rewrite !(digit_not (byte_ascii b)) by done. by rewrite Hd, orb_true_r.
Qed.

Lemma encode_int_read z :
  in_int64 z →
  skip_flat (encode_int z) = Some ""%string ∧ skip_number (encode_int z) = Some ""%string ∧
  (encode_int z =? "null")%string = false ∧
  match strip "-" (encode_int z) with
  | Some digits => Z.opp <$> decimal 0 (bytes_of digits)
  | None => decimal 0 (bytes_of (encode_int z))
  end = Some z.
Proof.
  unfold in_int64, int64_min, int64_max, encode_int. intros Hz.
  assert (∀ z, 0 ≤ z < 10 ^ Z.of_nat 20 → ∃ s,
    string_of_bytes (decimal_digits 20 z []) = s ∧ skip_int s = Some ""%string ∧ strip "-" s = None ∧
    skip_flat s = skip_number s ∧ (s =? "null")%string = false ∧ decimal 0 (bytes_of s) = Some z) as Hnat.
  { intros y Hy. destruct (decimal_digits_spec 20 y [] Hy) as (b & ds & -> & Hd & H0 & _ & Hr); [lia|].
    rewrite app_nil_r. specialize (Hr []). rewrite app_nil_r in Hr.
    destruct (skip_int_digits _ _ Hd H0) as (? & ? & ?). eexists. split_and!; try done.
    - rewrite string_of_bytes_cons. apply Forall_cons in Hd as [Hd _]. cbn.
      by rewrite (digit_not _ "n") by (try apply is_digit_ascii; done).
    - rewrite bytes_of_string_of_bytes; [done|]. eapply Forall_impl; [done|]. unfold is_digit_byte, is_byte. lia. }
  destruct (Z.ltb_spec z 0).
  - destruct (Hnat (- z)) as (s & -> & Hi & Hs & Hf & Hn & Hd); [lia|].
    assert (skip_number (String "-" s) = Some ""%string) as Hnum.
    { unfold skip_number. rewrite strip_cons. cbn [from_option id]. by rewrite Hi. }
    split_and!; [|done|done|].
    + unfold skip_flat. change (("-" =? quote_byte)%char) with false. exact Hnum.
    + rewrite strip_cons, Hd. cbn. f_equal. lia.
  - destruct (Hnat z) as (s & -> & Hi & Hs & Hf & Hn & Hd); [lia|]. rewrite Hs.
    assert (skip_number s = Some ""%string) as Hnum.
    { unfold skip_number. rewrite Hs. cbn [from_option]. by rewrite Hi. }
    split_and!; [congruence|done|done|done].
Qed.

Lemma encode_int_value d z : in_int64 z → value_at d (encode_int z).
Proof. intros Hz. by apply value_at_flat, encode_int_read. Qed.

Lemma decode_int_encode z old : in_int64 z → decode_int old (encode_int z) = Some z.
Proof.
  intros Hz. destruct (encode_int_read z Hz) as (_ & Hnum & Hnull & Hd). unfold decode_int.
  destruct (value_at_text maxNestingDepth _ (encode_int_value _ z Hz) ltac:(done)) as [_ ->].
  cbn [mbind option_bind]. rewrite Hnull, Hnum. cbn [mbind option_bind]. rewrite Hd. cbn [mbind option_bind].
  by rewrite (proj2 (is_int64_spec z)).
Qed.

Lemma encode_bool_value d b : value_at d (encode_bool b).
Proof. apply value_at_flat. by destruct b. Qed.

Lemma decode_bool_encode b old : decode_bool old (encode_bool b) = Some b.
Proof. by destruct b; vm_compute. Qed.

(** ** Structs *)

Definition good_member (d : Z) (f : string * string) : Prop := utf8_Valid f.1 = true ∧ value_at d f.2.

Lemma skip_key_encode name t r :
  starts t → skip_key (encode_string name +:+ String ":" (t +:+ r)) = Some (t +:+ r).
Proof.
  intros Ht. unfold skip_key, encode_string. rewrite append_cons, strip_cons. cbn [mbind option_bind].
  rewrite append_assoc, append_cons, append_nil, escape_bytes_read by apply bytes_of_range.
  cbn [mbind option_bind]. rewrite skip_ws_cons by done. rewrite strip_cons. cbn [mbind option_bind].
  by rewrite starts_skip_ws.
Qed.

Lemma encode_string_length s : (2 ≤ String.length (encode_string s))%nat.
Proof. unfold encode_string. cbn. rewrite length_append. cbn. lia. Qed.

Lemma encode_members_ws g fields r :
  skip_ws (encode_members (g :: fields) +:+ r) = (encode_members (g :: fields) +:+ r).
Proof. by destruct fields. Qed.

(** The first member, its separator and what follows. *)
Lemma encode_members_split f fields t :
  ∃ sep rest,
    (encode_members (f :: fields) +:+ String "}" t) = (encode_string f.1 +:+ String ":" (f.2 +:+ String sep rest)) ∧
    ends_number (String sep rest) ∧
    match fields with
    | [] => sep = "}"%char ∧ rest = t
    | _ => sep = ","%char ∧ rest = (encode_members fields +:+ String "}" t)
    end.
Proof.
  destruct fields as [|g fields].
  - exists "}"%char, t. cbn [encode_members]. unfold encode_member. by rewrite append_assoc, append_cons.
  - exists ","%char, (encode_members (g :: fields) +:+ String "}" t).
    change (encode_members (f :: g :: fields))
      with (encode_member f +:+ String "," (encode_members (g :: fields))). unfold encode_member.
    by rewrite !append_assoc, !append_cons.
Qed.

Lemma members_skip d fields n t :
  fields ≠ [] → Forall (good_member d) fields →
  (2 * String.length (encode_members fields +:+ String "}" t) + 1 ≤ n)%nat →
  skip_members n d (encode_members fields +:+ String "}" t) = Some t.
Proof.
  intros Hne Hf. revert n Hne. induction Hf as [|f fields [_ Hv] Hf IH]; [done|]. intros n _ Hn.
  apply value_at_reads in Hv as [Hst Hr].
  destruct (encode_members_split f fields t) as (sep & rest & Heq & He & Hsep).
  rewrite Heq in Hn |- *. destruct n as [|n]; [lia|]. cbn [skip_members].
  rewrite skip_key_encode by done. cbn [mbind option_bind].
  pose proof (encode_string_length f.1). rewrite !length_append in Hn. cbn [String.length] in Hn.
  rewrite length_append in Hn. cbn [String.length] in Hn.
  rewrite Hr; [|done|rewrite length_append; cbn; lia]. cbn [mbind option_bind].
  destruct fields as [|g fields]; destruct Hsep as [-> ->].
  - by rewrite skip_ws_cons.
  - rewrite skip_ws_cons by done. rewrite strip_cons, encode_members_ws. apply IH; [done|lia].
Qed.

Lemma strip_members f fields t : strip "}" (encode_members (f :: fields) +:+ t) = None.
Proof. by destruct fields. Qed.

Lemma encode_object_value d fields : 1 ≤ d → Forall (good_member (d - 1)) fields → value_at d (encode_object fields).
Proof.
  intros Hd Hf. unfold encode_object. exists (S (2 * String.length (encode_members fields +:+ "}") + 1)).
  cbn [skip_value]. rewrite strip_cons. destruct (Z.leb_spec d 0); [lia|].
  destruct fields as [|f fields]; [done|]. rewrite encode_members_ws, strip_members.
  by apply members_skip.
Qed.

Lemma members_encode d fields n t :
  d ≤ maxNestingDepth → fields ≠ [] → Forall (good_member d) fields →
  (String.length (encode_members fields +:+ String "}" t) ≤ n)%nat →
  members n (encode_members fields +:+ String "}" t) = Some fields.
Proof.
  intros Hd Hne Hf. revert n Hne. induction Hf as [|f fields [Hu Hv] Hf IH]; [done|]. intros n _ Hn.
  apply value_at_reads in Hv as [Hst Hr].
  destruct (encode_members_split f fields t) as (sep & rest & Heq & He & Hsep).
  rewrite Heq in Hn |- *. pose proof (encode_string_length f.1).
  rewrite !length_append in Hn. cbn [String.length] in Hn. rewrite length_append in Hn.
  cbn [String.length] in Hn. destruct n as [|n]; [lia|]. cbn [members].
  rewrite skip_key_encode by done.
  assert (∀ r, strip quote_byte (encode_string f.1 +:+ r) ≫= skip_str = Some r) as ->.
  { intros r. unfold encode_string. rewrite append_cons, strip_cons. cbn [mbind option_bind].
    rewrite append_assoc, append_cons, append_nil. apply escape_bytes_read, bytes_of_range. }
  cbn [mbind option_bind]. rewrite before_append, unquote_encode by done.
  specialize (Hr _ (String sep rest) He (le_n _)). apply scan_complete in Hr; [|done]. rewrite Hr.
  cbn [mbind option_bind]. rewrite before_append, <-surjective_pairing.
  destruct fields as [|g fields]; destruct Hsep as [-> ->].
  - by rewrite skip_ws_cons.
  - rewrite skip_ws_cons by done. rewrite strip_cons, encode_members_ws. rewrite IH; [done|done|lia].
Qed.

(** The object that is written is read as the fields it was made of. *)
Lemma struct_members_encode fields :
  Forall (good_member (maxNestingDepth - 1)) fields → struct_members (encode_object fields) = Some fields.
Proof.
  intros Hf. pose proof (encode_object_value maxNestingDepth fields ltac:(done) Hf) as Hv.
  apply value_at_text in Hv as [_ Ht]; [|done]. unfold struct_members, is_null. rewrite Ht.
  destruct (bool_decide_reflect (Some (encode_object fields) = Some "null"%string)) as [Heq|_];
    [unfold encode_object in Heq; discriminate Heq|].
  unfold json_object. rewrite Ht. unfold encode_object at 1. cbn [mbind option_bind]. rewrite strip_cons.
  cbn [mbind option_bind]. destruct fields as [|f fields]; [done|].
  rewrite encode_members_ws, strip_members. by apply (members_encode (maxNestingDepth - 1)).
Qed.

(** *** Fields *)

Definition names (ms : list (string * string)) : list (list Z) := map (λ m, folded m.1) ms.

(** No member of the object is stored into the field [name]. *)
Definition absent (name : string) (ms : list (string * string)) : Prop := folded name ∉ names ms.

Definition other_name (n name : string) : bool := bool_decide (folded n ≠ folded name).

Lemma absent_nil name : absent name [].
Proof. apply not_elem_of_nil. Qed.

Lemma absent_cons name n t ms : other_name n name = true → absent name ms → absent name ((n, t) :: ms).
Proof.
  unfold other_name, absent, names. intros Hn%bool_decide_eq_true Hms. cbn [map fst].
  apply not_elem_of_cons. split; [congruence|done].
Qed.

Lemma absent_opt name n o ms : other_name n name = true → absent name ms → absent name (opt_field n o ++ ms).
Proof. destruct o; [apply absent_cons | done]. Qed.

(** The text [o] of a field, if it is shown, is decoded into [a]. *)
Definition encodes {A} (d : decoder A) (old : A) (o : option string) (a : A) : Prop :=
  match o with Some t => d old t = Some a | None => a = old end.

Lemma field_absent {A} name (d : decoder A) old ms : absent name ms → field name d old ms = Some old.
Proof.
  unfold absent, field, names. induction ms as [|m ms IH]; [done|]. cbn [foldl map].
  rewrite not_elem_of_cons. intros [Hm Hms]. rewrite bool_decide_false by done. by apply IH.
Qed.

Lemma field_skip {A} name (d : decoder A) old n t ms a :
  other_name n name = true → field name d old ms = Some a → field name d old ((n, t) :: ms) = Some a.
Proof.
  unfold other_name. intros Hn%bool_decide_eq_true Ha. unfold field. cbn [foldl fst snd].
  by rewrite bool_decide_false.
Qed.

Lemma field_opt_skip {A} name (d : decoder A) old n o ms a :
  other_name n name = true → field name d old ms = Some a → field name d old (opt_field n o ++ ms) = Some a.
Proof. destruct o; [apply field_skip | done]. Qed.

Lemma field_found {A} name (d : decoder A) old t ms a :
  absent name ms → encodes d old (Some t) a → field name d old ((name, t) :: ms) = Some a.
Proof.
  intros Hn Ha. unfold field. cbn [foldl fst snd]. rewrite bool_decide_true by done.
  cbn [mbind option_bind]. rewrite Ha. by apply (field_absent name d a).
Qed.

Lemma field_opt_found {A} name (d : decoder A) old o ms a :
  absent name ms → encodes d old o a → field name d old (opt_field name o ++ ms) = Some a.
Proof. destruct o as [t|]; [apply field_found|]. intros Hn ->. by apply field_absent. Qed.

Lemma bind_field {A B} name (d : decoder A) old ms a (f : A → option B) b :
  field name d old ms = Some a → f a = b → (field name d old ms ≫= f) = b.
Proof. by intros ->. Qed.

Lemma encodes_string s : utf8_Valid s = true → encodes decode_string "" (Some (encode_string s)) s.
Proof. apply decode_string_encode. Qed.

Lemma encodes_nonempty s : utf8_Valid s = true → encodes decode_string "" (nonempty_string s) s.
Proof.
  intros Hs. unfold nonempty_string. destruct (String.eqb_spec s "") as [->|]; [done|].
  by apply decode_string_encode.
Qed.

Lemma encodes_int z old : in_int64 z → encodes decode_int old (Some (encode_int z)) z.
Proof. intros. by apply decode_int_encode. Qed.

Lemma encodes_nonzero z : in_int64 z → encodes decode_int 0 (nonzero_int z) z.
Proof. intros Hz. unfold nonzero_int. destruct (Z.eqb_spec z 0) as [->|]; [done|]. by apply decode_int_encode. Qed.

Lemma encodes_bool b : encodes decode_bool false (Some (encode_bool b)) b.
Proof. apply decode_bool_encode. Qed.

Lemma decode_raw_text d t old : value_at d t → d ≤ maxNestingDepth → decode_raw old t = Some t.
Proof. intros Hv Hd. by destruct (value_at_text _ _ Hv Hd). Qed.

Lemma is_null_starts t d c r : value_at d t → d ≤ maxNestingDepth → t = String c r → c ≠ "n"%char → is_null t = false.
Proof.
  intros Hv Hd -> Hc. apply value_at_text in Hv as [_ Ht]; [|done]. unfold is_null. rewrite Ht.
  apply bool_decide_eq_false. intros [=]. done.
Qed.

Lemma decode_ptr_some {A} (zero : A) d t a :
  is_null t = false → d zero t = Some a → decode_ptr zero d None t = Some (Some a).
Proof. intros Hn Ha. unfold decode_ptr. rewrite Hn. cbn. by rewrite Ha. Qed.

Lemma encodes_ptr {A} (zero : A) (d : decoder A) (encode : A → string) (o : option A) :
  (∀ a, o = Some a → is_null (encode a) = false ∧ d zero (encode a) = Some a) →
  encodes (decode_ptr zero d) None (encode <$> o) o.
Proof. destruct o as [a|]; [|done]. intros Ho. destruct (Ho a eq_refl). by apply decode_ptr_some. Qed.

Lemma encode_int_not_null z : in_int64 z → is_null (encode_int z) = false.
Proof.
  intros Hz. unfold is_null.
  destruct (value_at_text maxNestingDepth _ (encode_int_value _ z Hz) ltac:(done)) as [_ ->].
  destruct (encode_int_read z Hz) as (_ & _ & Hn & _). apply String.eqb_neq in Hn.
  apply bool_decide_eq_false. congruence.
Qed.

Lemma encodes_ptr_int (o : option Z) :
  (∀ z, o = Some z → in_int64 z) → encodes (decode_ptr 0 decode_int) None (encode_int <$> o) o.
Proof.
  intros Ho. apply encodes_ptr. intros z Hz%Ho. split; [by apply encode_int_not_null|by apply decode_int_encode].
Qed.

Lemma encode_object_not_null fields :
  Forall (good_member (maxNestingDepth - 1)) fields → is_null (encode_object fields) = false.
Proof.
  intros Hf. eapply is_null_starts; [by apply (encode_object_value maxNestingDepth)|done|done|done].
Qed.

(** The members of a struct are well-formed. *)
Lemma good_nil d : Forall (good_member d) [].
Proof. by apply Forall_nil. Qed.

Lemma good_cons d n t ms :
  utf8_Valid n = true → value_at d t → Forall (good_member d) ms → Forall (good_member d) ((n, t) :: ms).
Proof. intros. by apply Forall_cons. Qed.

Lemma good_opt d n o ms :
  utf8_Valid n = true → (∀ t, o = Some t → value_at d t) → Forall (good_member d) ms →
  Forall (good_member d) (opt_field n o ++ ms).
Proof. intros Hn Ho Hms. destruct o as [t|]; [apply Forall_cons; split; [split; auto|done]|done]. Qed.

Lemma nonempty_value d s : ∀ t, nonempty_string s = Some t → value_at d t.
Proof. intros t. unfold nonempty_string. destruct (s =? "")%string; [done|]. intros [= <-]. apply encode_string_value. Qed.

Lemma nonzero_value d z : in_int64 z → ∀ t, nonzero_int z = Some t → value_at d t.
Proof. unfold nonzero_int. intros Hz t. destruct (z =? 0); [done|]. intros [= <-]. by apply encode_int_value. Qed.

Lemma fmap_value {A} d (encode : A → string) (o : option A) :
  (∀ a, o = Some a → value_at d (encode a)) → ∀ t, (encode <$> o) = Some t → value_at d t.
Proof. intros Ho t (a & -> & ->)%fmap_Some. by apply Ho. Qed.

Ltac solve_absent :=
  repeat first [apply absent_nil | apply absent_opt; [vm_compute; reflexivity|]
               | apply absent_cons; [vm_compute; reflexivity|]].

(** Finds the field of a struct among the members that were written; what is left
    is that its text is decoded. *)
Ltac find_field :=
  repeat first [apply field_found; [solve_absent|] | apply field_opt_found; [solve_absent|]
               | apply field_skip; [vm_compute; reflexivity|] | apply field_opt_skip; [vm_compute; reflexivity|]].

(** What is left are the values of the members. *)
Ltac solve_good :=
  repeat first [apply good_nil | apply good_cons; [vm_compute; reflexivity| |]
               | apply good_opt; [vm_compute; reflexivity| |]].

(** *** Raw messages *)

(** How a text begins, escaped and not. *)
Lemma html_escape_cases c r :
  (html_special c = false ∧ html_escape (String c r) = String c (html_escape r)) ∨
  (∃ t, (html_special c = true ∨ byte_of c = 0xE2) ∧ html_escape (String c r) = String "\" t).
Proof.
  cbn [html_escape]. destruct (html_special c) eqn:Hc; [eauto|].
  destruct r as [|c1 [|c2 r]]; auto. destruct (_ && _) eqn:Hls; [|by left].
  right. eexists. split; [|done]. right. lia.
Qed.

(** Characters that escaping does not touch. *)
Definition kept (x : ascii) : bool :=
  negb (html_special x) && (byte_of x <? 128) && negb (x =? "\")%char.

Lemma kept_not c x : html_special c = true ∨ byte_of c = 0xE2 → kept x = true → (c =? x)%char = false.
Proof.
  intros Hc Hx. destruct (Ascii.eqb_spec c x) as [->|]; [|done]. exfalso.
  unfold kept in Hx. rewrite !andb_true_iff, negb_true_iff in Hx. destruct Hx as [[Hs Hb] _].
  destruct Hc; [congruence|lia].
Qed.

Lemma strip_escape x s : kept x = true → strip x (html_escape s) = (html_escape <$> strip x s).
Proof.
  intros Hx. destruct s as [|c r]; [done|]. destruct (html_escape_cases c r) as [[_ ->] | (t & Hc & ->)].
  - cbn. by destruct (c =? x)%char.
  - cbn [strip]. rewrite (kept_not c x) by done. rewrite Ascii.eqb_sym.
    unfold kept in Hx. rewrite !andb_true_iff, !negb_true_iff in Hx. by destruct Hx as [_ ->].
Qed.

(** Spaces and digits begin a text or its escaped form alike. *)
Lemma special_class (P : ascii → bool) c :
  (∀ x, P x = true → kept x = true) → html_special c = true ∨ byte_of c = 0xE2 → P c = false.
Proof.
  intros HP Hc. destruct (P c) eqn:Hp; [|done]. apply HP in Hp.
  pose proof (kept_not _ _ Hc Hp) as Hn. by rewrite Ascii.eqb_refl in Hn.
Qed.

Lemma class_kept (P : Z → bool) x :
  (∀ b, 0 ≤ b < 256 → P b = true → kept (byte_ascii b) = true) → P (byte_of x) = true → kept x = true.
Proof. intros HP Hx. rewrite <-(byte_ascii_of x). apply HP; [apply byte_of_range|done]. Qed.

Lemma is_ws_kept x : is_ws x = true → kept x = true.
Proof.
  apply (class_kept (λ b, (b =? 32) || (b =? 9) || (b =? 10) || (b =? 13))). intros b _ Hb.
  rewrite !orb_true_iff, !Z.eqb_eq in Hb. by destruct Hb as [[[-> | ->] | ->] | ->].
Qed.

Lemma is_digit_kept x : is_digit x = true → kept x = true.
Proof.
  apply (class_kept (λ b, (48 <=? b) && (b <=? 57))). intros b _ Hb.
  assert (b = 48 ∨ b = 49 ∨ b = 50 ∨ b = 51 ∨ b = 52 ∨ b = 53 ∨ b = 54 ∨ b = 55 ∨ b = 56 ∨ b = 57) as Hc by lia.
  by repeat destruct Hc as [-> | Hc]; [..|subst b].
Qed.

Lemma skip_ws_escape s : skip_ws (html_escape s) = html_escape (skip_ws s).
Proof.
  induction s as [|c s IH]; [done|]. destruct (html_escape_cases c s) as [[_ He] | (t & Hc & He)].
  - rewrite He. cbn [skip_ws]. by destruct (is_ws c).
  - rewrite He. cbn [skip_ws]. by rewrite (special_class is_ws c is_ws_kept Hc), He.
Qed.

Lemma skip_digits_escape s : skip_digits (html_escape s) = html_escape (skip_digits s).
Proof.
  induction s as [|c s IH]; [done|]. destruct (html_escape_cases c s) as [[_ He] | (t & Hc & He)].
  - rewrite He. cbn [skip_digits]. by destruct (is_digit c).
  - rewrite He. cbn [skip_digits]. by rewrite (special_class is_digit c is_digit_kept Hc), He.
Qed.

Lemma digits1_escape s : digits1 (html_escape s) = (html_escape <$> digits1 s).
Proof.
  destruct s as [|c r]; [done|]. destruct (html_escape_cases c r) as [[_ ->] | (t & Hc & ->)]; cbn [digits1].
  - destruct (is_digit c); [|done]. cbn. by rewrite skip_digits_escape.
  - by rewrite (special_class is_digit c is_digit_kept Hc).
Qed.

Ltac strip_escapes := rewrite ?strip_escape by done.

Lemma skip_number_escape s : skip_number (html_escape s) = (html_escape <$> skip_number s).
Proof.
  assert (∀ s, skip_int (html_escape s) = (html_escape <$> skip_int s)) as Hi.
  { intros t. unfold skip_int. strip_escapes. destruct (strip "0" t); [done|]. apply digits1_escape. }
  assert (∀ s, skip_frac (html_escape s) = (html_escape <$> skip_frac s)) as Hf.
  { intros t. unfold skip_frac. strip_escapes. destruct (strip "." t); [apply digits1_escape|done]. }
  assert (∀ s, skip_sign (html_escape s) = html_escape (skip_sign s)) as Hs.
  { intros t. unfold skip_sign. strip_escapes. destruct (strip "+" t); [done|]. by destruct (strip "-" t). }
  assert (∀ s, skip_exp (html_escape s) = (html_escape <$> skip_exp s)) as He.
  { intros t. unfold skip_exp. strip_escapes. destruct (strip "e" t) as [r|]; cbn [fmap option_fmap option_map].
    - rewrite Hs. apply digits1_escape.
    - destruct (strip "E" t) as [r|]; cbn [fmap option_fmap option_map]; [|done]. rewrite Hs. apply digits1_escape. }
  unfold skip_number. strip_escapes.
  assert (default (html_escape s) (html_escape <$> strip "-" s) = html_escape (default s (strip "-" s))) as ->
    by by destruct (strip "-" s).
  rewrite Hi. destruct (skip_int _) as [r|]; [|done]. cbn. rewrite Hf. destruct (skip_frac r); [|done]. cbn. apply He.
Qed.

Lemma skip_literal_escape l s :
  forallb kept (list_ascii_of_string l) = true →
  skip_literal l (html_escape s) = (html_escape <$> skip_literal l s).
Proof.
  revert s. induction l as [|c l IH]; intros s; [done|]. cbn [list_ascii_of_string forallb skip_literal].
  intros [Hc Hl]%andb_true_iff. rewrite strip_escape by done. destruct (strip c s) as [r|]; [|done]. by apply IH.
Qed.

Lemma skip_str_cons c t :
  (c =? quote_byte)%char = false → (c =? "\")%char = false →
  skip_str (String c t) = if byte_of c <? 32 then None else skip_str t.
Proof. intros Hq Hb. cbn. by rewrite Hq, Hb. Qed.

Lemma kept_escape c r : html_special c = false → byte_of c < 128 → html_escape (String c r) = String c (html_escape r).
Proof.
  intros Hc Hb. destruct (html_escape_cases c r) as [[_ ->] | (t & [Hs|Hs] & _)]; [done|congruence|lia].
Qed.

Lemma is_hex_plain h : is_hex h = true → kept h = true.
Proof.
  intros Hh. apply (class_kept (λ b, isSome (hex_value (byte_ascii b)))); [|by rewrite byte_ascii_of].
  intros b Hb. revert b Hb.
  assert (forallb (λ b, implb (isSome (hex_value (byte_ascii b))) (kept (byte_ascii b)))
    (map Z.of_nat (seq 0 256)) = true) as HF by (vm_compute; reflexivity).
  rewrite forallb_forall in HF. intros b Hb Hx. specialize (HF b). rewrite Hx in HF. apply HF, in_map_iff.
  exists (Z.to_nat b). split; [lia|]. apply in_seq. lia.
Qed.

Lemma kept_keeps x r : kept x = true → html_escape (String x r) = String x (html_escape r).
Proof.
  unfold kept. rewrite !andb_true_iff, negb_true_iff, Z.ltb_lt. intros [[Hs Hb] _]. by apply kept_escape.
Qed.

Lemma simple_escape_keeps e r :
  isSome (simple_escape e) = true → html_escape (String e r) = String e (html_escape r).
Proof.
  intros He. assert (html_special e = false ∧ byte_of e < 128) as [? ?]; [|by apply kept_escape].
  unfold simple_escape in He.
  assert (byte_of e = 34 ∨ byte_of e = 92 ∨ byte_of e = 47 ∨ byte_of e = 98 ∨ byte_of e = 102 ∨
    byte_of e = 110 ∨ byte_of e = 114 ∨ byte_of e = 116) as Hc by (repeat case_match; try done; lia).
  rewrite <-(byte_ascii_of e). by repeat destruct Hc as [-> | Hc]; [..|rewrite Hc].
Qed.

Lemma skip_str_escape s r : skip_str s = Some r → skip_str (html_escape s) = Some (html_escape r).
Proof.
  revert r. induction (Nat.lt_wf_0_projected String.length s) as [s _ IH]. intros r Hs.
  destruct s as [|c s]; [done|].
  destruct (Ascii.eqb_spec c quote_byte) as [->|Hq].
  { rewrite kept_keeps by done. cbn in Hs |- *. by injection Hs as ->. }
  destruct (Ascii.eqb_spec c "\") as [->|Hb].
  { rewrite (kept_escape "\") by done. destruct s as [|e s]; [done|].
    destruct (Ascii.eqb_spec e "u") as [->|He].
    - rewrite kept_keeps by done. destruct s as [|h1 [|h2 [|h3 [|h4 s]]]]; try done.
      rewrite skip_unicode in Hs. destruct (_ && _) eqn:Hh; [|done].
      pose proof Hh as Hh'. rewrite !andb_true_iff in Hh'. destruct Hh' as [[[H1 H2] H3] H4].
      rewrite !kept_keeps by by apply is_hex_plain. rewrite skip_unicode, Hh.
      apply IH; [cbn; lia|done].
    - rewrite skip_escape in Hs by done. destruct (isSome (simple_escape e)) eqn:Hse; [|done].
      rewrite simple_escape_keeps by done. rewrite skip_escape, Hse by done. apply IH; [cbn; lia|done]. }
  apply Ascii.eqb_neq in Hq, Hb. rewrite skip_str_cons in Hs by done.
  destruct (byte_of c <? 32) eqn:Hlow; [done|]. cbn [html_escape].
  destruct (html_special c) eqn:Hc.
  { rewrite skip_unicode. assert (is_hex (hex_ascii (byte_of c / 16)) && is_hex (hex_ascii (byte_of c mod 16)) = true) as Hh.
    { unfold html_special in Hc. rewrite !orb_true_iff, !Ascii.eqb_eq in Hc. by destruct Hc as [[-> | ->] | ->]. }
    rewrite <-andb_assoc, Hh. apply IH; [cbn; lia|done]. }
  assert (skip_str (String c (html_escape s)) = Some (html_escape r)) as Hplain.
  { rewrite skip_str_cons, Hlow by done. apply IH; [cbn; lia|done]. }
  destruct s as [|c1 [|c2 s]]; try done. destruct (_ && _) eqn:Hls; [|done].
  rewrite skip_unicode. rewrite !andb_true_iff, orb_true_iff, !Z.eqb_eq in Hls. destruct Hls as [[_ H1] H2].
  assert (is_hex (hex_ascii (byte_of c2 mod 16)) = true) as -> by by destruct H2 as [-> | ->].
  assert (∀ x, 128 ≤ byte_of x → (x =? quote_byte)%char = false ∧ (x =? "\")%char = false) as Hhigh.
  { intros x Hx. by split; apply Ascii.eqb_neq; intros ->. }
  destruct (Hhigh c1) as [? ?]; [lia|]. destruct (Hhigh c2) as [? ?]; [lia|].
  rewrite skip_str_cons in Hs by done. destruct (Z.ltb_spec (byte_of c1) 32); [lia|].
  rewrite skip_str_cons in Hs by done. destruct (Z.ltb_spec (byte_of c2) 32); [lia|].
  apply IH; [cbn; lia|done].
Qed.

Lemma skip_flat_escape s r : skip_flat s = Some r → skip_flat (html_escape s) = Some (html_escape r).
Proof.
  destruct s as [|c s]; [done|]. intros Hs. destruct (kept c) eqn:Hk.
  - rewrite kept_keeps by done. unfold skip_flat in Hs |- *.
    destruct (c =? quote_byte)%char; [by apply skip_str_escape|].
    rewrite <-(kept_keeps c s Hk).
    destruct (c =? "t")%char; [by rewrite skip_literal_escape, Hs by done|].
    destruct (c =? "f")%char; [by rewrite skip_literal_escape, Hs by done|].
    destruct (c =? "n")%char; [by rewrite skip_literal_escape, Hs by done|].
    destruct (_ || _); [by rewrite skip_number_escape, Hs|done].
  - exfalso. unfold skip_flat in Hs.
    assert (∀ x, kept x = true → (c =? x)%char = false) as Hx.
    { intros x Hx. destruct (Ascii.eqb_spec c x) as [->|]; [congruence|done]. }
    rewrite !Hx in Hs by done. destruct (is_digit c) eqn:Hd; [apply is_digit_kept in Hd; congruence|done].
Qed.

Lemma skip_key_escape s v : skip_key s = Some v → skip_key (html_escape s) = Some (html_escape v).
Proof.
  unfold skip_key. strip_escapes. destruct (strip quote_byte s) as [r|]; [|done]. cbn.
  destruct (skip_str r) as [r1|] eqn:Hr; [|done]. rewrite (skip_str_escape _ _ Hr). cbn.
  rewrite skip_ws_escape. strip_escapes. destruct (strip ":" _) as [r2|]; [|done]. cbn.
  intros [= <-]. by rewrite skip_ws_escape.
Qed.

Lemma skip_escape_all fuel :
  (∀ d s r, skip_value fuel d s = Some r → skip_value fuel d (html_escape s) = Some (html_escape r)) ∧
  (∀ d s r, skip_members fuel d s = Some r → skip_members fuel d (html_escape s) = Some (html_escape r)) ∧
  (∀ d s r, skip_elements fuel d s = Some r → skip_elements fuel d (html_escape s) = Some (html_escape r)).
Proof.
  assert (∀ x s r, strip x s = Some r → kept x = true → strip x (html_escape s) = Some (html_escape r)) as Hsome.
  { intros x s r Hs Hx. by rewrite strip_escape, Hs. }
  assert (∀ x s, strip x s = None → kept x = true → strip x (html_escape s) = None) as Hnone.
  { intros x s Hs Hx. by rewrite strip_escape, Hs. }
  induction fuel as [|fuel (IHv & IHm & IHe)]; [done|]. split_and!; intros d s r Hs; cbn in Hs |- *.
  - destruct (strip "{" s) as [s'|] eqn:E1.
    { rewrite (Hsome _ _ _ E1 eq_refl). destruct (d <=? 0); [done|]. rewrite skip_ws_escape.
      destruct (strip "}" (skip_ws s')) as [s2|] eqn:E2.
      - rewrite (Hsome _ _ _ E2 eq_refl). by injection Hs as ->.
      - rewrite (Hnone _ _ E2 eq_refl). by apply IHm. }
    rewrite (Hnone _ _ E1 eq_refl). destruct (strip "[" s) as [s'|] eqn:E2.
    { rewrite (Hsome _ _ _ E2 eq_refl). destruct (d <=? 0); [done|]. rewrite skip_ws_escape.
      destruct (strip "]" (skip_ws s')) as [s2|] eqn:E3.
      - rewrite (Hsome _ _ _ E3 eq_refl). by injection Hs as ->.
      - rewrite (Hnone _ _ E3 eq_refl). by apply IHe. }
    rewrite (Hnone _ _ E2 eq_refl). by apply skip_flat_escape.
  - apply bind_Some in Hs as (v & Hk & (r1 & Hv & Hs)%bind_Some).
    rewrite (skip_key_escape _ _ Hk). cbn. rewrite (IHv _ _ _ Hv). cbn. rewrite skip_ws_escape.
    destruct (strip "," (skip_ws r1)) as [r2|] eqn:Hc.
    + rewrite (Hsome _ _ _ Hc eq_refl), skip_ws_escape. by apply IHm.
    + rewrite (Hnone _ _ Hc eq_refl). by apply Hsome.
  - apply bind_Some in Hs as (r1 & Hv & Hs). rewrite (IHv _ _ _ Hv). cbn. rewrite skip_ws_escape.
    destruct (strip "," (skip_ws r1)) as [r2|] eqn:Hc.
    + rewrite (Hsome _ _ _ Hc eq_refl), skip_ws_escape. by apply IHe.
    + rewrite (Hnone _ _ Hc eq_refl). by apply Hsome.
Qed.

Lemma value_at_compact d raw : value_at d raw → value_at d (drop_ws false false raw).
Proof.
  intros (fuel & (p & c & Hp & Hc & _ & _ & Hr)%skip_scanned). rewrite append_nil_r in Hp. subst p.
  specialize (Hc ""%string). specialize (Hr ""%string I). cbn in Hc. rewrite append_nil_r in Hc, Hr.
  rewrite Hc, append_nil_r. by exists fuel.
Qed.

(** A raw message is written as a value that nests as deep as it does. *)
Lemma encode_raw_value d raw :
  value_at d raw → d ≤ maxNestingDepth → ∃ t, encode_raw raw = Some t ∧ value_at d t.
Proof.
  intros Hv Hd. unfold encode_raw, json_compact. destruct (value_at_text _ _ Hv Hd) as [-> _].
  eexists. split; [done|]. destruct (value_at_compact _ _ Hv) as (fuel & Hf). exists fuel.
  by apply (proj1 (skip_escape_all fuel)) in Hf.
Qed.

(** Writing a raw message again changes nothing. *)
Lemma drop_ws_unquoted e s : drop_ws false e s = drop_ws false false s.
Proof. by destruct s. Qed.

Lemma drop_ws_idem q e s : drop_ws q e (drop_ws q e s) = drop_ws q e s.
Proof.
  revert q e. induction s as [|c s IH]; intros q e; [done|]. cbn. destruct q.
  - cbn. by rewrite IH.
  - destruct (is_ws c) eqn:Hc; [rewrite drop_ws_unquoted; apply IH|]. cbn. by rewrite Hc, IH.
Qed.

Lemma drop_ws_cons q e c s :
  drop_ws q e (String c s) = String c s →
  (q = true ∨ is_ws c = false) ∧
  drop_ws (if q then e || negb (c =? quote_byte)%char else (c =? quote_byte)%char)
    (q && negb e && (c =? "\")%char) s = s.
Proof.
  cbn. destruct q; [intros [= Hs]; by split; [left|]|]. destruct (is_ws c) eqn:Hc.
  - intros Hs. pose proof (drop_ws_length false false s) as Hl. rewrite Hs in Hl. unfold str_len in Hl.
    cbn in Hl. lia.
  - intros [= Hs]. by split; [right|].
Qed.

Lemma drop_ws_plain q e c s :
  plain c = true → (c =? "\")%char = false → drop_ws q e (String c s) = String c (drop_ws q false s).
Proof.
  unfold plain. rewrite andb_true_iff, !negb_true_iff. intros [Hw Hq] Hb. cbn.
  rewrite Hw, Hq, Hb, andb_false_r, orb_true_r. by destruct q.
Qed.

(** An escape does not change how the rest is read. *)
Lemma drop_ws_u q e h1 h2 h3 h4 s :
  forallb plain [h1; h2; h3; h4] = true → forallb (λ c, negb (c =? "\")%char) [h1; h2; h3; h4] = true →
  drop_ws q e (String "\" (String "u" (String h1 (String h2 (String h3 (String h4 s)))))) =
  String "\" (String "u" (String h1 (String h2 (String h3 (String h4 (drop_ws q false s)))))).
Proof.
  cbn [forallb]. rewrite !andb_true_iff, !negb_true_iff. intros (H1 & H2 & H3 & H4 & _) (B1 & B2 & B3 & B4 & _).
  assert (drop_ws q e (String "\" (String "u" (String h1 (String h2 (String h3 (String h4 s)))))) =
    String "\" (drop_ws q (q && negb e) (String "u" (String h1 (String h2 (String h3 (String h4 s))))))) as ->.
  { cbn [drop_ws]. destruct q; [|done]. by rewrite orb_true_r, andb_true_r. }
  by rewrite !drop_ws_plain.
Qed.

Lemma high_plain c : 128 ≤ byte_of c → plain c = true ∧ (c =? "\")%char = false ∧ html_special c = false.
Proof.
  intros Hc. assert (∀ x, byte_of x < 128 → (c =? x)%char = false) as Hx.
  { intros x Hx. apply Ascii.eqb_neq. intros ->. lia. }
  unfold plain, is_ws, html_special. rewrite !Hx by done. split_and!; try done. lia.
Qed.

Lemma drop_ws_escape q e s : drop_ws q e s = s → drop_ws q e (html_escape s) = html_escape s.
Proof.
  revert q e. induction (Nat.lt_wf_0_projected String.length s) as [s _ IH]. intros q e Hs.
  destruct s as [|c s]; [done|]. pose proof (drop_ws_cons _ _ _ _ Hs) as [Hq Hrest].
  assert (drop_ws q e (String c (html_escape s)) = String c (html_escape s)) as Hkeep.
  { apply IH in Hrest; [|cbn; lia]. cbn. destruct Hq as [->| ->].
    - cbn in Hrest. by rewrite Hrest.
    - destruct q; cbn in Hrest; by rewrite Hrest. }
  cbn [html_escape]. destruct (html_special c) eqn:Hc.
  { unfold html_special in Hc. rewrite !orb_true_iff, !Ascii.eqb_eq in Hc.
    assert (drop_ws q false s = s) as Hs'.
    { destruct Hc as [[-> | ->] | ->]; destruct q, e; cbn in Hrest; done. }
    apply IH in Hs'; [|cbn; lia]. destruct Hc as [[-> | ->] | ->]; by rewrite drop_ws_u, Hs'. }
  destruct s as [|c1 [|c2 s]]; try exact Hkeep.
  destruct ((byte_of c =? 226) && _ && _) eqn:Hls; [|exact Hkeep].
  rewrite !andb_true_iff, orb_true_iff, !Z.eqb_eq in Hls. destruct Hls as [[H0 H1] H2].
  destruct (high_plain c) as (P0 & B0 & _); [lia|]. destruct (high_plain c1) as (P1 & B1 & _); [lia|].
  destruct (high_plain c2) as (P2 & B2 & _); [lia|].
  rewrite !drop_ws_plain in Hs by done. injection Hs as Hs. apply IH in Hs; [|cbn; lia].
  assert (forallb plain ["2"; "0"; "2"; hex_ascii (byte_of c2 mod 16)]%char = true ∧
    forallb (λ c, negb (c =? "\")%char) ["2"; "0"; "2"; hex_ascii (byte_of c2 mod 16)]%char = true) as [? ?]
    by by destruct H2 as [-> | ->].
  by rewrite drop_ws_u, Hs.
Qed.

(** Only a line separator depends on the bytes that follow. *)
Lemma html_escape_pair c r :
  html_special c = false →
  html_escape (String c r) = String c (html_escape r) ∨
  (byte_of c = 0xE2 ∧ ∃ a b t, r = String a (String b t) ∧ byte_of a = 0x80 ∧ (byte_of b = 0xA8 ∨ byte_of b = 0xA9)).
Proof.
  intros Hc. cbn [html_escape]. rewrite Hc. destruct r as [|a [|b r]]; auto.
  destruct (_ && _) eqn:Hls; [|by left]. right. rewrite !andb_true_iff, orb_true_iff, !Z.eqb_eq in Hls. naive_solver.
Qed.

(** A high byte at the front of an escaped text was there before. *)
Lemma html_escape_high s a t :
  html_escape s = String a t → 128 ≤ byte_of a → ∃ s', s = String a s' ∧ t = html_escape s'.
Proof.
  intros Hs Ha. destruct s as [|c s]; [done|]. destruct (html_escape_cases c s) as [[_ He]|(u & _ & He)];
    rewrite He in Hs; injection Hs as <- <-; [by exists s|]. by vm_compute in Ha.
Qed.

Lemma html_escape_idem s : html_escape (html_escape s) = html_escape s.
Proof.
  induction (Nat.lt_wf_0_projected String.length s) as [s _ IH]. destruct s as [|c s]; [done|].
  assert (∀ h, kept h = true → ∀ r, html_escape (String h r) = String h (html_escape r)) as Hk
    by (intros; by apply kept_keeps).
  assert (∀ r, html_escape (String "\" r) = String "\" (html_escape r)) as Hb by (intros; by apply kept_escape).
  cbn [html_escape]. destruct (html_special c) eqn:Hc.
  { assert (kept (hex_ascii (byte_of c / 16)) = true ∧ kept (hex_ascii (byte_of c mod 16)) = true) as [? ?].
    { unfold html_special in Hc. rewrite !orb_true_iff, !Ascii.eqb_eq in Hc. by destruct Hc as [[-> | ->] | ->]. }
    rewrite Hb, !Hk by done. by rewrite IH by (cbn; lia). }
  assert (html_escape (html_escape s) = html_escape s) as Hs by (apply IH; cbn; lia).
  assert (html_escape (String c (html_escape s)) = String c (html_escape s) ∨
    (byte_of c = 0xE2 ∧ ∃ a b t, s = String a (String b t) ∧ byte_of a = 0x80 ∧ (byte_of b = 0xA8 ∨ byte_of b = 0xA9)))
    as Hcase.
  { destruct (html_escape_pair c (html_escape s) Hc) as [->|(HE & a & b & t & Hx & Ha & Hb')]; [left; by rewrite Hs|].
    right. split; [done|]. destruct (html_escape_high s a (String b t) Hx) as (s1 & -> & Ht); [lia|].
    destruct (html_escape_high s1 b t) as (s2 & -> & _); [done|lia|]. by exists a, b, s2. }
  destruct s as [|c1 [|c2 s]].
  - by destruct Hcase as [|(_ & ? & ? & ? & ? & _)].
  - by destruct Hcase as [|(_ & ? & ? & ? & ? & _)].
  - destruct ((byte_of c =? 226) && _ && _) eqn:Hls.
    + assert (kept (hex_ascii (byte_of c2 mod 16)) = true) as Hk2.
      { rewrite !andb_true_iff, orb_true_iff, !Z.eqb_eq in Hls. by destruct Hls as [_ [-> | ->]]. }
      rewrite Hb, !Hk by done. by rewrite IH by (cbn; lia).
    + destruct Hcase as [Hcase|(HE & a & b & t & [= -> -> ->] & Ha & Hb')]; [exact Hcase|]. exfalso. lia.
Qed.
