(* ===== verification/JsonTree.v ===== *)
(** * JSON values as trees

    [json.Decoder] read token by token into [any], with [UseNumber], the way
    [readJSONValue] of [src/internal/responsecache/cache.go] does, and
    [json.Marshal] of such a value: the keys of a map in order, strings escaped,
    numbers as they were written. What is written is read back as the same value,
    and two values are written alike exactly when they are the same JSON value:
    the order of the members of an object does not count. *)

From S2P Require Import Prelude Encoding Json JsonWrite.

(** [any] as the decoder fills it. The members of an object are a Go map: their
    keys differ, and the list has them in the order in which they were read. *)
Inductive JsonTree :=
| JNull
| JBool (b : bool)
| JNumber (literal : string)
| JString (s : string)
| JArray (l : list JsonTree)
| JObject (ms : list (string * JsonTree)).

(** ** Reading *)

(** A value that is not a delimiter, from its text. *)
Definition flat_tree (literal : string) : JsonTree :=
  if isSome (strip quote_byte literal) then JString (unquote_literal literal)
  else if (literal =? "null")%string then JNull
  else if (literal =? "true")%string then JBool true
  else if (literal =? "false")%string then JBool false
  else JNumber literal.

Definition read_flat (s : string) : option (JsonTree * string) :=
  r ← skip_flat s; Some (flat_tree (before s r), r).

(** [readJSONValue]: a value at the front and what follows it; [None] on every
    error. A key that the object has already is an error. There is no bound on the
    depth. *)
Fixpoint read_value (fuel : nat) (s : string) : option (JsonTree * string) :=
  match fuel with
  | O => None
  | S fuel =>
      match strip "{" s with
      | Some r =>
          match strip "}" (skip_ws r) with
          | Some r => Some (JObject [], r)
          | None => '(ms, r) ← read_members fuel [] (skip_ws r); Some (JObject ms, r)
          end
      | None =>
          match strip "[" s with
          | Some r =>
              match strip "]" (skip_ws r) with
              | Some r => Some (JArray [], r)
              | None => '(l, r) ← read_elements fuel (skip_ws r); Some (JArray l, r)
              end
          | None => read_flat s
          end
      end
  end
with read_members (fuel : nat) (seen : list string) (s : string) : option (list (string * JsonTree) * string) :=
  match fuel with
  | O => None
  | S fuel =>
      rest ← strip quote_byte s ≫= skip_str;
      v ← skip_key s;
      let key := unquote_literal (before s rest) in
      if bool_decide (key ∈ seen) then None
      else
        '(t, r) ← read_value fuel v;
        match strip "," (skip_ws r) with
        | Some r => '(ms, r) ← read_members fuel (key :: seen) (skip_ws r); Some ((key, t) :: ms, r)
        | None => r ← strip "}" (skip_ws r); Some ([(key, t)], r)
        end
  end
with read_elements (fuel : nat) (s : string) : option (list JsonTree * string) :=
  match fuel with
  | O => None
  | S fuel =>
      '(t, r) ← read_value fuel s;
      match strip "," (skip_ws r) with
      | Some r => '(l, r) ← read_elements fuel (skip_ws r); Some (t :: l, r)
      | None => r ← strip "]" (skip_ws r); Some ([t], r)
      end
  end.

(** The whole text is one value, and white space around it. *)
Definition read_json (s : string) : option JsonTree :=
  '(t, r) ← read_value (scan_fuel s) (skip_ws s);
  if (skip_ws r =? "")%string then Some t else None.

(** ** Writing *)

(** The order in which [Marshal] writes the keys of a map. *)
Definition key_le {A} (a b : string * A) : Prop := string_le a.1 b.1.
#[export] Instance key_le_dec {A} : RelDecision (@key_le A).
Proof. intros a b. unfold key_le. apply _. Defined.

Definition sort_members {A} (ms : list (string * A)) : list (string * A) := merge_sort key_le ms.

Fixpoint encode_elements (l : list string) : string :=
  match l with
  | [] => ""
  | [t] => t
  | t :: l => t +:+ String "," (encode_elements l)
  end.

Definition encode_array (l : list string) : string := String "[" (encode_elements l +:+ "]").

(** [json.Marshal] of a value. *)
Fixpoint encode_tree (t : JsonTree) : string :=
  match t with
  | JNull => "null"
  | JBool b => encode_bool b
  | JNumber literal => literal
  | JString s => encode_string s
  | JArray l => encode_array (map encode_tree l)
  | JObject ms => encode_object (sort_members (map (λ m, (m.1, encode_tree m.2)) ms))
  end.

(** The same value with the members of every object in order. *)
Fixpoint sorted_tree (t : JsonTree) : JsonTree :=
  match t with
  | JArray l => JArray (map sorted_tree l)
  | JObject ms => JObject (sort_members (map (λ m, (m.1, sorted_tree m.2)) ms))
  | _ => t
  end.

(** The same JSON value: members are a set. *)
Inductive json_equiv : JsonTree → JsonTree → Prop :=
| equiv_refl t : json_equiv t t
| equiv_array l k : Forall2 json_equiv l k → json_equiv (JArray l) (JArray k)
| equiv_object ms ms' ks ks' :
    ms ≡ₚ ms' → ks ≡ₚ ks' → Forall2 (λ m k, m.1 = k.1 ∧ json_equiv m.2 k.2) ms' ks' →
    json_equiv (JObject ms) (JObject ks).

(** What can be read: numbers are number literals, strings are UTF-8, and the keys
    of an object differ. *)
Definition number_literal (s : string) : bool :=
  match skip_number s with Some r => (r =? "")%string | None => false end.

Fixpoint tree_ok (t : JsonTree) : bool :=
  match t with
  | JNull | JBool _ => true
  | JNumber literal => number_literal literal
  | JString s => utf8_Valid s
  | JArray l => forallb tree_ok l
  | JObject ms =>
      bool_decide (NoDup ms.*1) && forallb (λ m : string * JsonTree, utf8_Valid m.1 && tree_ok m.2) ms
  end.

Example read_json_example :
  read_json (text " {'b' : [1.50, -2e3,'x'] ,'a':{ }, 'c':null} ") =
    Some (JObject [("b", JArray [JNumber "1.50"; JNumber "-2e3"; JString "x"]); ("a", JObject []); ("c", JNull)])
  ∧ encode_tree <$> read_json (text " {'b' : [1.50, -2e3,'x'] ,'a':{ }, 'c':null} ") =
    Some (text "{'a':{},'b':[1.50,-2e3,'x'],'c':null}").
Proof. vm_compute. done. Qed.

Example read_json_refuses :
  map read_json [text "{'a':1,'\u0061':2}"; text "[1,]"; text "{'a' 1}"; text "1 2"; text "{1:2}"; text "01"; ""%string]
  = repeat None 7.
Proof. vm_compute. done. Qed.

(** ** Induction on trees *)

Section tree_induction.
Context (P : JsonTree → Prop).
Hypotheses (Hnull : P JNull) (Hbool : ∀ b, P (JBool b)) (Hnumber : ∀ n, P (JNumber n)) (Hstring : ∀ s, P (JString s))
  (Harray : ∀ l, Forall P l → P (JArray l)) (Hobject : ∀ ms, Forall (λ m, P m.2) ms → P (JObject ms)).

Fixpoint tree_ind' (t : JsonTree) : P t :=
  match t with
  | JNull => Hnull
  | JBool b => Hbool b
  | JNumber n => Hnumber n
  | JString s => Hstring s
  | JArray l =>
      Harray l ((fix all (l : list JsonTree) : Forall P l :=
                   match l with [] => Forall_nil_2 _ | t :: l => Forall_cons_2 _ _ _ (tree_ind' t) (all l) end) l)
  | JObject ms =>
      Hobject ms ((fix all (ms : list (string * JsonTree)) : Forall (λ m, P m.2) ms :=
                     match ms with [] => Forall_nil_2 _ | m :: ms => Forall_cons_2 _ _ _ (tree_ind' m.2) (all ms) end) ms)
  end.
End tree_induction.

(** ** Sorting members

    Sorting looks at the keys only. *)

Definition map_snd {A B} (f : A → B) (m : string * A) : string * B := (m.1, f m.2).

Lemma map_snd_keys {A B} (f : A → B) ms : (map (map_snd f) ms).*1 = ms.*1.
Proof. induction ms as [|m ms IH]; [done|]. cbn. by rewrite IH. Qed.

Lemma list_merge_map {A B} (f : A → B) l k :
  list_merge key_le (map (map_snd f) l) (map (map_snd f) k) = map (map_snd f) (list_merge key_le l k).
Proof.
  revert k. induction l as [|x l IHl]; intros k; [by destruct k|].
  induction k as [|y k IHk]; [done|]. cbn -[list_merge] in *. rewrite !list_merge_cons.
  rewrite !(decide_ext (key_le (map_snd f x) (map_snd f y)) (key_le x y)) by done.
  case_decide; cbn; [by rewrite <-IHl | by rewrite <-IHk].
Qed.

Lemma merge_sort_map {A B} (f : A → B) ms : sort_members (map (map_snd f) ms) = map (map_snd f) (sort_members ms).
Proof.
  unfold sort_members, merge_sort.
  assert (∀ st, merge_stack key_le (map (fmap (map (map_snd f))) st) = map (map_snd f) (merge_stack key_le st)) as Hst.
  { induction st as [|[l|] st IH]; cbn; [done| |done]. by rewrite IH, list_merge_map. }
  assert (∀ st l, merge_list_to_stack key_le (map (fmap (map (map_snd f))) st) (map (map_snd f) l) =
    map (fmap (map (map_snd f))) (merge_list_to_stack key_le st l)) as Hmerge.
  { induction st as [|[k|] st IH]; intros l; cbn; [done| |done]. by rewrite list_merge_map, IH. }
  assert (∀ st, merge_sort_aux key_le (map (fmap (map (map_snd f))) st) (map (map_snd f) ms) =
    map (map_snd f) (merge_sort_aux key_le st ms)) as Haux; [|apply (Haux [])].
  induction ms as [|m ms IH]; intros st; cbn; [done|]. rewrite <-IH. f_equal. apply (Hmerge st [m]).
Qed.

#[export] Instance key_le_trans {A} : Transitive (@key_le A).
Proof. intros a b c. unfold key_le. apply transitivity. Qed.
#[export] Instance key_le_total {A} : Total (@key_le A).
Proof. intros a b. apply string_le_total. Qed.

Lemma sort_members_perm {A} (ms : list (string * A)) : sort_members ms ≡ₚ ms.
Proof. apply merge_sort_Permutation. Qed.

(** With keys that differ there is one order. *)
Lemma sorted_members_unique {A} (ms ks : list (string * A)) :
  NoDup ms.*1 → ms ≡ₚ ks → StronglySorted key_le ms → StronglySorted key_le ks → ms = ks.
Proof.
  intros Hnd Hp Hm Hk. apply (StronglySorted_unique_strong key_le); [|done..].
  intros [k1 a1] [k2 a2] Hx Hy H1 H2. rewrite <-Hp in Hy.
  assert (k1 = k2) as -> by by apply (anti_symm string_le).
  apply list_elem_of_lookup in Hx as (i & Hi), Hy as (j & Hj).
  assert (i = j) as ->; [|congruence].
  apply (NoDup_lookup ms.*1 _ _ k2); [done|..]; by rewrite list_lookup_fmap, ?Hi, ?Hj.
Qed.

Lemma sort_members_perm_eq {A} (ms ks : list (string * A)) :
  NoDup ms.*1 → ms ≡ₚ ks → sort_members ms = sort_members ks.
Proof.
  intros Hnd Hp. apply sorted_members_unique.
  - by rewrite sort_members_perm.
  - by rewrite !sort_members_perm.
  - apply (StronglySorted_merge_sort key_le).
  - apply (StronglySorted_merge_sort key_le).
Qed.

(** ** What is written is read

    [writes e t]: the text [e] is read as [t] before anything that ends a number. *)

Definition writes (e : string) (t : JsonTree) : Prop :=
  starts e ∧ ∀ n r, ends_number r → (2 * String.length (e +:+ r) ≤ n)%nat → read_value n (e +:+ r) = Some (t, r).

Lemma writes_flat e : skip_flat e = Some ""%string → writes e (flat_tree e).
Proof.
  intros (p & c & Hp & _ & [Hst _] & Hr & _)%skip_flat_scanned. rewrite append_nil_r in Hp. subst p.
  split; [done|]. intros n r He Hn. specialize (Hr r He). destruct e as [|a e]; [done|].
  rewrite append_cons in Hn, Hr |- *. cbn [String.length] in Hn. destruct n as [|n]; [lia|]. cbn [read_value].
  destruct (strip "{" (String a (e +:+ r))) as [x|] eqn:E1.
  { apply strip_some in E1 as [= -> _]. by cbn in Hr. }
  destruct (strip "[" (String a (e +:+ r))) as [x|] eqn:E2.
  { apply strip_some in E2 as [= -> _]. by cbn in Hr. }
  unfold read_flat. rewrite Hr. cbn [mbind option_bind]. rewrite <-append_cons. by rewrite before_append.
Qed.

Lemma writes_starts e t : writes e t → starts e.
Proof. by intros []. Qed.

Lemma starts_length e : starts e → (1 ≤ String.length e)%nat.
Proof. destruct e; [done|]. cbn. lia. Qed.

Lemma encode_elements_ws e es r : starts e → skip_ws (encode_elements (e :: es) +:+ r) = (encode_elements (e :: es) +:+ r).
Proof. intros He. apply starts_skip_ws. destruct es; [done|]. by apply starts_app. Qed.

Lemma read_elements_writes es l n r :
  Forall2 writes es l → es ≠ [] → (2 * String.length (encode_elements es +:+ String "]" r) + 1 ≤ n)%nat →
  read_elements n (encode_elements es +:+ String "]" r) = Some (l, r).
Proof.
  intros Hes Hne. revert n Hne. induction Hes as [|e t es l [Hst He] Hes IH]; [done|]. intros n _ Hn.
  destruct n as [|n]; [lia|]. cbn [read_elements].
  destruct es as [|e' es].
  - inversion Hes; subst. cbn [encode_elements] in Hn |- *. rewrite He by (done || lia).
    cbn [mbind option_bind]. rewrite skip_ws_cons by done. by rewrite strip_cons.
  - apply starts_length in Hst. inversion Hes as [|? ? ? ? [Hst' _]]; subst.
    change (encode_elements (e :: e' :: es)) with (e +:+ String "," (encode_elements (e' :: es))) in Hn |- *.
    rewrite append_assoc, append_cons in Hn |- *. rewrite He by (done || lia). cbn [mbind option_bind].
    rewrite skip_ws_cons by done. rewrite strip_cons, encode_elements_ws by done.
    rewrite length_append in Hn. cbn [String.length] in Hn. rewrite IH by (done || lia). done.
Qed.

Lemma writes_array es l : Forall2 writes es l → writes (encode_array es) (JArray l).
Proof.
  intros Hes. split; [done|]. intros n r He Hn. unfold encode_array in Hn |- *.
  rewrite append_cons, append_assoc, append_cons, append_nil in Hn |- *. cbn [String.length] in Hn.
  destruct n as [|n]; [lia|]. cbn [read_value strip]. cbv iota beta. cbn [Ascii.eqb Bool.eqb].
  destruct es as [|e es].
  - inversion Hes; subst. cbn [encode_elements]. rewrite append_nil, skip_ws_cons by done. by rewrite strip_cons.
  - inversion Hes as [|? t ? ? [Hst _]]; subst. assert (starts (encode_elements (e :: es))) as Hse by (destruct es; [done | by apply starts_app]).
    rewrite encode_elements_ws, starts_strip by done.
    rewrite (read_elements_writes _ (t :: _)) by (done || lia). done.
Qed.

Definition writes_member (f : string * string) (m : string * JsonTree) : Prop :=
  f.1 = m.1 ∧ utf8_Valid f.1 = true ∧ writes f.2 m.2.

Lemma read_members_writes fs ms seen n r :
  Forall2 writes_member fs ms → fs ≠ [] → NoDup ms.*1 → (∀ k, k ∈ ms.*1 → k ∉ seen) →
  (2 * String.length (encode_members fs +:+ String "}" r) + 1 ≤ n)%nat →
  read_members n seen (encode_members fs +:+ String "}" r) = Some (ms, r).
Proof.
  intros Hfs Hne. revert n Hne seen. induction Hfs as [|f m fs ms (Hk & Hu & [Hst Hr]) Hfs IH]; [done|].
  intros n _ seen Hnd Hseen Hn. cbn [fmap list_fmap] in Hnd, Hseen. apply NoDup_cons in Hnd as [Hm Hnd].
  destruct (encode_members_split f fs r) as (sep & rest & Heq & He & Hsep). rewrite Heq in Hn |- *.
  destruct n as [|n]; [lia|]. cbn [read_members].
  rewrite skip_key_encode by done. pose proof (encode_string_length f.1).
  assert (∀ x, strip quote_byte (encode_string f.1 +:+ x) ≫= skip_str = Some x) as ->.
  { intros x. unfold encode_string. rewrite append_cons, strip_cons. cbn [mbind option_bind].
    rewrite append_assoc, append_cons, append_nil. apply escape_bytes_read, bytes_of_range. }
  cbn [mbind option_bind]. rewrite before_append, unquote_encode by done.
  rewrite length_append in Hn. cbn [String.length] in Hn. rewrite length_append in Hn. cbn [String.length] in Hn.
  rewrite bool_decide_false by (rewrite Hk; apply Hseen, elem_of_cons; by left).
  rewrite Hr; [|done|rewrite length_append; cbn; lia]. cbn [mbind option_bind].
  assert ((f.1, m.2) = m) as Hfm by (rewrite Hk; by destruct m).
  destruct fs as [|g fs]; destruct Hsep as [-> ->].
  - inversion Hfs; subst. rewrite skip_ws_cons by done. rewrite strip_cons. cbn. by rewrite Hfm.
  - rewrite skip_ws_cons by done. rewrite strip_cons, encode_members_ws. rewrite IH; [|done|done| |lia].
    + cbn [mbind option_bind]. by rewrite Hfm.
    + intros k Hin [->|Hin']%elem_of_cons; [rewrite <-Hk in Hm; done|]. apply (Hseen k); [apply elem_of_cons; by right|done].
Qed.

Lemma writes_object fs ms : Forall2 writes_member fs ms → NoDup ms.*1 → writes (encode_object fs) (JObject ms).
Proof.
  intros Hfs Hnd. split; [done|]. intros n r He Hn. unfold encode_object in Hn |- *.
  rewrite append_cons, append_assoc, append_cons, append_nil in Hn |- *. cbn [String.length] in Hn.
  destruct n as [|n]; [lia|]. cbn [read_value]. rewrite strip_cons.
  destruct fs as [|f fs].
  - inversion Hfs; subst. cbn [encode_members]. rewrite append_nil, skip_ws_cons by done. by rewrite strip_cons.
  - rewrite encode_members_ws, strip_members.
    rewrite (read_members_writes _ ms) by (done || lia || (intros ? _; apply not_elem_of_nil)). done.
Qed.

(** ** What is read is UTF-8

    The decoder replaces what is not, and makes UTF-8 of every escape. *)

Definition utf8 (l : list Z) : bool := forallb snd (runes (length l) l).

Lemma utf8_Valid_bytes s : utf8_Valid s = utf8 (bytes_of s).
Proof. unfold utf8_Valid, utf8. by rewrite length_bytes_of. Qed.

Lemma runes_fuel n m l : (length l ≤ n)%nat → (length l ≤ m)%nat → runes n l = runes m l.
Proof.
  revert m l. induction n as [|n IH]; intros m [|b l] Hn Hm; cbn in Hn, Hm; try (by destruct m); [lia|].
  destruct m as [|m]; [lia|]. cbn. f_equal. apply IH; rewrite length_drop; lia.
Qed.

Lemma utf8_cons b l size : rune_size b l = (size, true) → utf8 (b :: l) = utf8 (drop (size - 1) l).
Proof.
  intros Hs. unfold utf8. cbn. rewrite Hs. cbn. f_equal. apply runes_fuel; rewrite ?length_drop; lia.
Qed.

(** Bytes that are whole code points whatever follows. *)
Definition rune_piece (p : list Z) : Prop := ∀ l, utf8 (p ++ l) = utf8 l.

Lemma ascii_piece b : b < 0x80 → rune_piece [b].
Proof.
  intros Hb l. cbn [app]. rewrite (utf8_cons b l 1) by (unfold rune_size; by destruct (Z.ltb_spec b 128); [|lia]).
  done.
Qed.

Lemma copied_piece b r size : rune_size b r = (size, true) → rune_piece (b :: take (size - 1) r).
Proof.
  intros Hs l. destruct (Z_lt_le_dec b 0x80) as [Hb|Hb].
  - unfold rune_size in Hs. destruct (Z.ltb_spec b 128); [|lia]. injection Hs as <-. by apply ascii_piece.
  - apply rune_size_ok in Hs as (_ & Hlen & _ & Hx); [|done]. cbn [app]. rewrite (utf8_cons _ _ size) by done.
    by rewrite drop_app_length'.
Qed.

Lemma replacement_piece : rune_piece replacement.
Proof. intros l. exact (utf8_cons 0xEF (0xBF :: 0xBD :: l) 3 eq_refl). Qed.

Definition scalar (u : Z) : Prop := 0 ≤ u < 0xD800 ∨ 0xE000 ≤ u < 0x110000.

Lemma encode_rune_piece u : scalar u → rune_piece (encode_rune u).
Proof.
  unfold scalar. intros Hu. unfold encode_rune.
  destruct (Z.ltb_spec u 0x80); [by apply ascii_piece|].
  assert (∀ k, 0x80 ≤ 0x80 + k mod 64 ≤ 0xBF) as Hmod.
  { intros k. pose proof (Z.mod_pos_bound k 64 ltac:(lia)). lia. }
  destruct (Z.ltb_spec u 0x800).
  { intros l. assert (2 ≤ u / 64 < 32) by (Z.to_euclidean_division_equations; lia).
    cbn [app]. rewrite (utf8_cons _ _ 2); [done|]. unfold rune_size, lead_byte. cbn [app lookup list_lookup].
    pose proof (Hmod u). repeat case_match; simplify_eq; try lia; cbn in *; unfold continuation in *; done || lia. }
  destruct (Z.ltb_spec u 0x10000).
  { intros l. assert (0 ≤ u / 4096 < 16) by (Z.to_euclidean_division_equations; lia).
    assert (u / 4096 = 0 → 0xA0 ≤ 0x80 + u / 64 mod 64) by (Z.to_euclidean_division_equations; lia).
    assert (u / 4096 = 13 → 0x80 + u / 64 mod 64 ≤ 0x9F) by (Z.to_euclidean_division_equations; lia).
    pose proof (Hmod (u / 64)). pose proof (Hmod u).
    cbn [app]. rewrite (utf8_cons _ _ 3); [done|]. unfold rune_size, lead_byte. cbn [app lookup list_lookup].
    repeat case_match; simplify_eq; try lia; cbn in *; unfold continuation in *; done || lia. }
  intros l. assert (0 ≤ u / 262144 ≤ 4) by (Z.to_euclidean_division_equations; lia).
  assert (u / 262144 = 0 → 0x90 ≤ 0x80 + u / 4096 mod 64) by (Z.to_euclidean_division_equations; lia).
  assert (u / 262144 = 4 → 0x80 + u / 4096 mod 64 ≤ 0x8F) by (Z.to_euclidean_division_equations; lia).
  pose proof (Hmod (u / 4096)). pose proof (Hmod (u / 64)). pose proof (Hmod u).
  cbn [app]. rewrite (utf8_cons _ _ 4); [done|]. unfold rune_size, lead_byte. cbn [app lookup list_lookup].
  repeat case_match; simplify_eq; try lia; cbn in *; unfold continuation in *; done || lia.
Qed.

(** The bytes between the quotation marks of a literal. *)
Definition literal_body (l : list Z) : Prop := skip_str (string_of_bytes l +:+ String quote_byte "") = Some ""%string.

Lemma body_escape e l :
  is_byte e → e ≠ 117 → literal_body (92 :: e :: l) → isSome (simple_escape (byte_ascii e)) = true ∧ literal_body l.
Proof.
  intros He Hu. unfold literal_body. rewrite !string_of_bytes_cons, !append_cons.
  change (byte_ascii 92) with "\"%char. rewrite skip_escape.
  - by destruct (isSome _).
  - intros Heq. apply Hu. apply (f_equal byte_of) in Heq. by rewrite byte_of_ascii in Heq.
Qed.

Lemma body_unicode l :
  literal_body (92 :: 117 :: l) → ∃ u r, hex4 l = Some (u, r) ∧ 0 ≤ u < 0x10000 ∧ literal_body r ∧ (length r < length l)%nat.
Proof.
  assert (∀ h, is_hex h = true → ∃ v, hex_value h = Some v ∧ 0 ≤ v < 16) as Hhex.
  { intros h. unfold is_hex, hex_value. repeat case_match; try done; intros _; eexists; (split; [done|lia]). }
  unfold literal_body. rewrite !string_of_bytes_cons, !append_cons.
  change (byte_ascii 92) with "\"%char. change (byte_ascii 117) with "u"%char.
  destruct l as [|h1 [|h2 [|h3 [|h4 r]]]]; try (intros Hx; discriminate Hx).
  { rewrite !string_of_bytes_cons, !append_cons. cbn [string_of_bytes map string_of_list_ascii]. rewrite append_nil, skip_unicode.
    change (is_hex quote_byte) with false. by rewrite andb_false_r. }
  rewrite !string_of_bytes_cons, !append_cons, skip_unicode.
  destruct (is_hex _ && _ && _ && _) eqn:Hh; [|done]. rewrite !andb_true_iff in Hh. destruct Hh as [[[H1 H2] H3] H4].
  apply Hhex in H1 as (v1 & E1 & ?), H2 as (v2 & E2 & ?), H3 as (v3 & E3 & ?), H4 as (v4 & E4 & ?).
  intros Hr. eexists _, r. cbn [hex4]. rewrite E1. cbn [mbind option_bind]. rewrite E2. cbn [mbind option_bind].
  rewrite E3. cbn [mbind option_bind]. rewrite E4. cbn [mbind option_bind]. split_and!; [done|lia|lia|done|cbn; lia].
Qed.

Lemma body_plain b l : is_byte b → b ≠ 92 → literal_body (b :: l) → literal_body l.
Proof.
  intros Hb Hn. unfold literal_body. rewrite string_of_bytes_cons, append_cons. cbn [skip_str].
  rewrite (ascii_eqb_byte b "\") by done. destruct (_ =? quote_byte)%char.
  - intros [= Hl]. by destruct (string_of_bytes l).
  - by destruct (_ <? 32).
Qed.

Lemma body_drop k l : Forall (λ c, 0x80 ≤ c ≤ 0xBF) (take k l) → literal_body l → literal_body (drop k l).
Proof.
  intros Hk. unfold literal_body. rewrite <-(take_drop k l) at 1. rewrite string_of_bytes_app, append_assoc.
  rewrite high_bytes_read; [done|]. eapply Forall_impl; [done|]. cbn. lia.
Qed.

(** How [unquote] treats an escape, a surrogate pair and a byte. *)
Lemma unquote_plain n b r :
  b ≠ 92 →
  unquote (S n) (b :: r) =
    (if (rune_size b r).2 then b :: take ((rune_size b r).1 - 1) r else replacement) ++
    unquote n (drop ((rune_size b r).1 - 1) r).
Proof.
  intros Hb. destruct (rune_size b r) as [size ok] eqn:Hs. unfold unquote at 1. fold unquote. rewrite Hs. cbn [fst snd].
  destruct b as [|p|p]; [done| |done]. do 7 (try (destruct p as [p|p|]; try done)).
Qed.

Lemma unquote_simple n e r :
  e ≠ 117 → unquote (S n) (92 :: e :: r) = default e (simple_escape (byte_ascii e)) :: unquote n r.
Proof. intros He. destruct e as [|p|p]; [done| |done]. do 7 (try (destruct p as [p|p|]; try done)). Qed.

(** A text begins with [\u], or a match on that beginning fails. *)
Lemma escape_front (l : list Z) :
  (∃ r, l = 92 :: 117 :: r) ∨
  ∀ (A : Type) (f : list Z → A) (x : A), match l with 92 :: 117 :: r => f r | _ => x end = x.
Proof.
  destruct l as [|b [|c l]]; [by right| |].
  - right. intros A f x. destruct b as [|p|p]; [done| |done]. do 7 (try (destruct p as [p|p|]; try done)).
  - destruct (Z.eq_dec b 92) as [->|Hb]; [destruct (Z.eq_dec c 117) as [->|Hc]; [left; by eexists|]|]; right; intros A f x.
    + destruct c as [|p|p]; [done| |done]. do 7 (try (destruct p as [p|p|]; try done)).
    + destruct b as [|p|p]; [done| |done]. do 7 (try (destruct p as [p|p|]; try done)).
Qed.

(** The low half of a surrogate pair at the front. *)
Definition low_surrogate (l : list Z) : option (Z * list Z) :=
  match l with
  | 92 :: 117 :: l =>
      '(v, r) ← hex4 l; if (0xDC00 <=? v) && (v <? 0xE000) then Some (v, r) else None
  | _ => None
  end.

Lemma unquote_u n u l r :
  hex4 l = Some (u, r) →
  unquote (S n) (92 :: 117 :: l) =
    if (0xD800 <=? u) && (u <? 0xE000)
    then match low_surrogate r with
         | Some (v, r') =>
             if u <? 0xDC00 then encode_rune (0x10000 + (u - 0xD800) * 1024 + (v - 0xDC00)) ++ unquote n r'
             else replacement ++ unquote n r
         | None => replacement ++ unquote n r
         end
    else encode_rune u ++ unquote n r.
Proof.
  intros Hu. unfold unquote. fold unquote. rewrite Hu. destruct (_ && _); [|done].
  destruct (escape_front r) as [(l' & ->)|Hno].
  - unfold low_surrogate. destruct (hex4 l') as [[v r']|]; [|done]. cbn [mbind option_bind].
    destruct (u <? 0xDC00), (0xDC00 <=? v), (v <? 0xE000); done.
  - unfold low_surrogate. by rewrite !Hno.
Qed.

Lemma low_surrogate_some l v r :
  low_surrogate l = Some (v, r) → ∃ l', l = 92 :: 117 :: l' ∧ hex4 l' = Some (v, r) ∧ 0xDC00 ≤ v < 0xE000.
Proof.
  unfold low_surrogate. destruct (escape_front l) as [(l' & ->)|Hno]; [|by rewrite Hno].
  intros ([w r'] & Hw & Hv)%bind_Some. destruct (_ && _) eqn:Hr; [|done]. injection Hv as -> ->.
  exists l'. split_and!; [done|done|lia|lia].
Qed.

Definition utf8_bytes (l : list Z) : Prop := utf8 l = true ∧ Forall is_byte l.

Lemma utf8_bytes_app p l : rune_piece p → Forall is_byte p → utf8_bytes l → utf8_bytes (p ++ l).
Proof. intros Hp Hb [Hu Hl]. split; [by rewrite Hp | by apply Forall_app]. Qed.

Lemma encode_rune_bytes u : scalar u → Forall is_byte (encode_rune u).
Proof.
  unfold scalar, encode_rune, is_byte. intros Hu.
  repeat case_match; rewrite ?Z.ltb_lt, ?Z.ltb_ge in *; repeat (apply Forall_cons; split);
    try apply Forall_nil; try done; Z.to_euclidean_division_equations; lia.
Qed.

Lemma replacement_bytes : Forall is_byte replacement.
Proof. by repeat (apply Forall_cons; split). Qed.

Lemma unquote_utf8 n l : Forall is_byte l → literal_body l → (length l ≤ n)%nat → utf8_bytes (unquote n l).
Proof.
  revert l. induction n as [|n IH]; intros [|b l] Hl Hbody Hn; [by split|cbn in Hn; lia|by split|].
  apply Forall_cons in Hl as [Hb Hl]. cbn in Hn. destruct (Z.eq_dec b 92) as [->|Hne].
  - destruct l as [|e l]; [done|]. apply Forall_cons in Hl as [He Hl]. cbn in Hn.
    destruct (Z.eq_dec e 117) as [->|Hu].
    + assert (∀ r u x, hex4 x = Some (u, r) → Forall is_byte x → Forall is_byte r) as Hsuf.
      { intros r u [|a [|b [|c [|d x]]]]; cbn; try done.
        intros (? & _ & (? & _ & (? & _ & (? & _ & [= _ ->])%bind_Some)%bind_Some)%bind_Some)%bind_Some.
        rewrite !Forall_cons. tauto. }
      apply body_unicode in Hbody as (u & r & Hu & Hrange & Hr & Hlen). pose proof (Hsuf _ _ _ Hu Hl) as Hbr.
      assert (utf8_bytes (replacement ++ unquote n r)) as Hrep.
      { apply utf8_bytes_app; [apply replacement_piece|apply replacement_bytes|]. apply IH; [done|done|lia]. }
      rewrite (unquote_u n u l r Hu). destruct (_ && _) eqn:Hsur.
      * destruct (low_surrogate r) as [[v r']|] eqn:Hlow; [|done]. destruct (u <? 0xDC00) eqn:Hu'; [|done].
        apply low_surrogate_some in Hlow as (l' & -> & Hv & Hv').
        apply body_unicode in Hr as (v' & r'' & Hv'' & _ & Hr & Hlen'). rewrite Hv in Hv''. injection Hv'' as <- <-.
        assert (scalar (0x10000 + (u - 0xD800) * 1024 + (v - 0xDC00))) by (unfold scalar; lia).
        apply utf8_bytes_app; [by apply encode_rune_piece|by apply encode_rune_bytes|].
        apply IH; [|done|cbn in Hlen; lia].
        apply (Hsuf _ _ _ Hv). by do 2 apply Forall_inv_tail in Hbr.
      * assert (scalar u) by (unfold scalar; lia).
        apply utf8_bytes_app; [by apply encode_rune_piece|by apply encode_rune_bytes|]. apply IH; [done|done|lia].
    + apply body_escape in Hbody as [Hs Hbody]; [|done|done]. rewrite unquote_simple by done.
      assert (0 ≤ default e (simple_escape (byte_ascii e)) < 0x80) as Hsmall.
      { unfold simple_escape in Hs |- *. rewrite byte_of_ascii in * by done. repeat case_match; cbn in *; try done; lia. }
      apply (utf8_bytes_app [_]); [apply ascii_piece; lia|apply Forall_singleton; unfold is_byte; lia|].
      apply IH; [done|done|lia].
  - apply body_plain in Hbody; [|done|done]. rewrite unquote_plain by done.
    destruct (rune_size b l) as [size ok] eqn:Hs. cbn [fst snd].
    assert (literal_body (drop (size - 1) l)) as Hdrop.
    { destruct ok; [|assert (size = 1)%nat as -> by (unfold rune_size in Hs; repeat case_match; congruence); done].
      destruct (Z_lt_le_dec b 0x80) as [Hlow|Hhigh].
      - unfold rune_size in Hs. destruct (Z.ltb_spec b 128); [|lia]. by injection Hs as <-.
      - apply rune_size_ok in Hs as (_ & _ & Hf & _); [|done]. by apply body_drop. }
    assert (utf8_bytes (unquote n (drop (size - 1) l))) as Hrest.
    { apply IH; [by apply Forall_drop|done|rewrite length_drop; lia]. }
    destruct ok; apply utf8_bytes_app; try done.
    + by apply copied_piece.
    + apply Forall_cons. split; [done|]. by apply Forall_take.
    + apply replacement_piece.
    + apply replacement_bytes.
Qed.

Lemma skip_str_body n s r :
  (String.length s ≤ n)%nat → skip_str s = Some r →
  ∃ q, s = (q +:+ String quote_byte r) ∧ skip_str (q +:+ String quote_byte "") = Some ""%string.
Proof.
  intros Hn Hs. destruct (skip_str_split _ _ _ Hn Hs) as (p & -> & Hr & _).
  assert (∃ q, p = (q +:+ String quote_byte "")) as (q & ->).
  { specialize (Hr ""%string I). rewrite append_nil_r in Hr. clear Hs Hn n. remember (String.length p) as n eqn:Hn.
    assert (String.length p ≤ n)%nat as Hle by lia. clear Hn. revert p Hle Hr.
    induction n as [|n IH]; intros [|c p] Hle; cbn in Hle; try lia; try done. cbn [skip_str].
    destruct (c =? quote_byte)%char eqn:Hq; [intros [= ->]; apply Ascii.eqb_eq in Hq as ->; by exists ""%string|].
    assert (∀ a q, ∃ x, String a (q +:+ String quote_byte "") = (x +:+ String quote_byte "")) as Hcons
      by (intros a q; by exists (String a q)).
    destruct (c =? "\")%char.
    2:{ destruct (byte_of c <? 32); [done|]. intros (q & ->)%IH; [apply Hcons|lia]. }
    destruct p as [|e p]; [done|]. destruct (e =? "u")%char.
    - destruct p as [|h1 [|h2 [|h3 [|h4 p]]]]; try done. destruct (_ && _); [|done].
      intros (q & ->)%IH; [|cbn in Hle; lia]. by exists (String c (String e (String h1 (String h2 (String h3 (String h4 q)))))).
    - destruct (isSome _); [|done]. intros (q & ->)%IH; [|cbn in Hle; lia]. by exists (String c (String e q)). }
  exists q. split; [by rewrite append_assoc|]. specialize (Hr ""%string I). by rewrite append_nil_r in Hr.
Qed.

(** The string between the quotation marks of a literal at the front. *)
Lemma literal_utf8 s r :
  skip_str s = Some r → utf8_Valid (unquote_literal (before (String quote_byte s) r)) = true.
Proof.
  intros (q & -> & Hq)%(skip_str_body _ _ _ (le_n _)).
  assert (String quote_byte (q +:+ String quote_byte r) = (String quote_byte (q +:+ String quote_byte "") +:+ r)) as ->
    by by rewrite append_cons, append_assoc.
  rewrite before_append. unfold unquote_literal. rewrite substring_literal, utf8_Valid_bytes. unfold unquote_string.
  assert (literal_body (bytes_of q)) as Hbody by by unfold literal_body; rewrite string_of_bytes_of_string.
  destruct (unquote_utf8 (String.length q) (bytes_of q)) as [Hu Hb]; [apply bytes_of_range|done|by rewrite length_bytes_of|].
  by rewrite bytes_of_string_of_bytes.
Qed.

(** ** What is read can be written *)

Lemma number_first lit : number_literal lit = true → ∃ c r, lit = String c r ∧ ((c =? "-")%char || is_digit c) = true.
Proof.
  unfold number_literal, skip_number. destruct lit as [|c lit]; [done|]. intros Hn. exists c, lit. split; [done|].
  destruct (c =? "-")%char eqn:Hc; [done|]. cbn [strip] in Hn. rewrite Hc in Hn. cbn [default] in Hn.
  unfold skip_int in Hn. cbn [strip digits1] in Hn. destruct (Ascii.eqb_spec c "0") as [->|]; [done|].
  by destruct (is_digit c).
Qed.

Lemma digit_first c : is_digit c = true →
  (c =? quote_byte)%char = false ∧ (c =? "t")%char = false ∧ (c =? "f")%char = false ∧ (c =? "n")%char = false.
Proof. intros Hc. split_and!; by apply digit_not. Qed.

Lemma number_flat lit : number_literal lit = true → skip_flat lit = Some ""%string ∧ flat_tree lit = JNumber lit.
Proof.
  intros Hn. destruct (number_first _ Hn) as (c & r & -> & Hc).
  assert ((c =? quote_byte)%char = false ∧ (c =? "t")%char = false ∧ (c =? "f")%char = false ∧
    (c =? "n")%char = false) as (Hq & Ht & Hf & Hnn).
  { apply orb_true_iff in Hc as [->%Ascii.eqb_eq|Hc]; [done|by apply digit_first]. }
  split.
  - unfold skip_flat. rewrite Hq, Ht, Hf, Hnn, Hc. unfold number_literal in Hn.
    destruct (skip_number _) as [x|]; [|done]. by apply String.eqb_eq in Hn as ->.
  - unfold flat_tree. cbn [strip]. rewrite Hq. cbn [isSome String.eqb]. by rewrite Hnn, Ht, Hf.
Qed.

Lemma flat_tree_ok s r : skip_flat s = Some r → tree_ok (flat_tree (before s r)) = true.
Proof.
  intros Hs. destruct (skip_flat_scanned _ _ Hs) as (p & _ & -> & _ & [Hst _] & Hr & _).
  rewrite before_append. specialize (Hr ""%string I). rewrite append_nil_r in Hr. clear Hs.
  destruct p as [|c p]; [done|]. unfold flat_tree. cbn [strip]. destruct (c =? quote_byte)%char eqn:Hq.
  { apply Ascii.eqb_eq in Hq as ->. cbn [isSome tree_ok]. cbn [skip_flat] in Hr.
    change ((quote_byte =? quote_byte)%char) with true in Hr. cbv iota in Hr. apply literal_utf8 in Hr.
    pose proof (before_append (String quote_byte p) "") as Hb. rewrite append_nil_r in Hb. by rewrite Hb in Hr. }
  cbn [isSome]. unfold skip_flat in Hr. rewrite Hq in Hr.
  assert (∀ w, skip_literal w (String c p) = Some ""%string → String c p = w) as Hlit.
  { intros w (Hw & _)%skip_literal_split. by rewrite append_nil_r in Hw. }
  destruct (c =? "t")%char; [by rewrite (Hlit _ Hr)|]. destruct (c =? "f")%char; [by rewrite (Hlit _ Hr)|].
  destruct (c =? "n")%char; [by rewrite (Hlit _ Hr)|]. destruct (_ || _); [|done].
  repeat case_match; try done. cbn [tree_ok]. unfold number_literal. by rewrite Hr.
Qed.

Lemma read_tree_ok n :
  (∀ s t r, read_value n s = Some (t, r) → tree_ok t = true) ∧
  (∀ seen s ms r, read_members n seen s = Some (ms, r) →
     NoDup ms.*1 ∧ (∀ k, k ∈ ms.*1 → k ∉ seen) ∧
     forallb (λ m : string * JsonTree, utf8_Valid m.1 && tree_ok m.2) ms = true) ∧
  (∀ s l r, read_elements n s = Some (l, r) → forallb tree_ok l = true).
Proof.
  induction n as [|n (IHv & IHm & IHe)]; [done|]. split_and!.
  - intros s t r. cbn [read_value]. destruct (strip "{" s) as [x|].
    { destruct (strip "}" (skip_ws x)); [by intros [= <- _]|].
      intros ([ms y] & (Hnd & _ & Hms)%IHm & [= <- _])%bind_Some. cbn. rewrite Hms, bool_decide_true; done. }
    destruct (strip "[" s) as [x|].
    { destruct (strip "]" (skip_ws x)); [by intros [= <- _]|].
      by intros ([l y] & Hl%IHe & [= <- _])%bind_Some. }
    unfold read_flat. intros (y & Hy & [= <- _])%bind_Some. by apply flat_tree_ok.
  - intros seen s ms r. cbn [read_members].
    intros (rest & (q & ->%strip_some & Hq)%bind_Some & (v & _ & Hms)%bind_Some)%bind_Some.
    pose proof (literal_utf8 _ _ Hq) as Hutf. case_bool_decide as Hseen; [done|].
    apply bind_Some in Hms as ([t y] & Ht%IHv & Hms). destruct (strip "," (skip_ws y)) as [z|].
    + apply bind_Some in Hms as ([ms' u] & (Hnd & Hdis & Hall)%IHm & [= <- <-]). cbn [fmap list_fmap fst].
      split_and!.
      * apply NoDup_cons. split; [|done]. intros Hin. apply (Hdis _ Hin), elem_of_cons. by left.
      * intros k [->|Hin]%elem_of_cons; [done|]. intros Hk. apply (Hdis _ Hin), elem_of_cons. by right.
      * cbn [forallb fst snd]. by rewrite Hutf, Ht.
    + apply bind_Some in Hms as (u & _ & [= <- <-]). cbn [forallb fmap list_fmap fst snd]. split_and!.
      * apply NoDup_singleton.
      * by intros k ->%list_elem_of_singleton.
      * by rewrite Hutf, Ht.
  - intros s l r. cbn [read_elements]. intros ([t y] & Ht%IHv & Hl)%bind_Some.
    destruct (strip "," (skip_ws y)) as [z|].
    + apply bind_Some in Hl as ([l' u] & Hall%IHe & [= <- _]). cbn. by rewrite Ht.
    + apply bind_Some in Hl as (u & _ & [= <- _]). cbn. by rewrite Ht.
Qed.

Lemma read_json_ok s t : read_json s = Some t → tree_ok t = true.
Proof.
  unfold read_json. intros ([u r] & Hu & Hr)%bind_Some. destruct (_ =? _)%string; [|done]. injection Hr as <-.
  by apply (proj1 (read_tree_ok _)) in Hu.
Qed.

Lemma tree_ok_array l : tree_ok (JArray l) = true → Forall (λ t, tree_ok t = true) l.
Proof. cbn. rewrite forallb_forall, Forall_forall. intros Hl t Ht. by apply Hl, list_elem_of_In. Qed.

Lemma tree_ok_object ms :
  tree_ok (JObject ms) = true → NoDup ms.*1 ∧ Forall (λ m, utf8_Valid m.1 = true ∧ tree_ok m.2 = true) ms.
Proof.
  cbn. rewrite andb_true_iff, bool_decide_eq_true, forallb_forall, Forall_forall. intros [Hnd Hms]. split; [done|].
  intros m Hm. apply andb_true_iff, Hms. by apply list_elem_of_In.
Qed.

Lemma writes_tree t : tree_ok t = true → writes (encode_tree t) (sorted_tree t).
Proof.
  induction t as [|b|lit|s|l IH|ms IH] using tree_ind'; intros Hok.
  - by apply (writes_flat "null").
  - destruct b; [by apply (writes_flat "true")|by apply (writes_flat "false")].
  - apply number_flat in Hok as [Hs Ht]. apply writes_flat in Hs. by rewrite Ht in Hs.
  - cbn [encode_tree sorted_tree]. assert (flat_tree (encode_string s) = JString s) as <-.
    { unfold flat_tree. change (isSome (strip quote_byte (encode_string s))) with true. cbv iota.
      by rewrite unquote_encode. }
    apply writes_flat. unfold encode_string. cbn [skip_flat].
    change ((quote_byte =? quote_byte)%char) with true. cbv iota. apply escape_bytes_read, bytes_of_range.
  - apply tree_ok_array in Hok. cbn [encode_tree sorted_tree]. apply writes_array.
    induction Hok as [|t l Ht Hl IHl]; [done|]. apply Forall_cons in IH as [IHt IH]. constructor; auto.
  - apply tree_ok_object in Hok as [Hnd Hms]. cbn [encode_tree sorted_tree].
    change (map (λ m, (m.1, encode_tree m.2)) ms) with (map (map_snd encode_tree) ms).
    change (map (λ m, (m.1, sorted_tree m.2)) ms) with (map (map_snd sorted_tree) ms).
    rewrite !merge_sort_map. pose proof (sort_members_perm ms) as Hp. apply writes_object.
    + rewrite <-Hp in IH, Hms. clear Hp Hnd. induction Hms as [|m l [Hu Ht] Hl IHl]; [constructor|].
      apply Forall_cons in IH as [IHt IH]. constructor; [|by apply IHl]. split_and!; [done..|]. by apply IHt.
    + change (NoDup (map (map_snd sorted_tree) (sort_members ms)).*1). rewrite map_snd_keys. by rewrite Hp.
Qed.

Lemma read_json_encode t : tree_ok t = true → read_json (encode_tree t) = Some (sorted_tree t).
Proof.
  intros [Hst Hr]%writes_tree. unfold read_json. pose proof (starts_skip_ws _ "" Hst) as Hws.
  rewrite append_nil_r in Hws. rewrite Hws. specialize (Hr (scan_fuel (encode_tree t)) ""%string I).
  rewrite append_nil_r in Hr. rewrite Hr by (unfold scan_fuel; lia). done.
Qed.

(** ** The canonical form

    Sorting the members decides whether two values are the same. *)

Lemma sorted_tree_ok t : tree_ok t = true → tree_ok (sorted_tree t) = true.
Proof. intros Hok. apply (read_json_ok (encode_tree t)). by apply read_json_encode. Qed.

(** Sorting a second time changes nothing. *)
Lemma sort_members_idem {A} (ms : list (string * A)) : NoDup ms.*1 → sort_members (sort_members ms) = sort_members ms.
Proof. intros Hnd. apply sort_members_perm_eq; [by rewrite sort_members_perm | apply sort_members_perm]. Qed.

Lemma sorted_tree_idem t : tree_ok t = true → sorted_tree (sorted_tree t) = sorted_tree t.
Proof.
  induction t as [| | | |l IH|ms IH] using tree_ind'; intros Hok; try done.
  - apply tree_ok_array in Hok. cbn. f_equal.
    induction Hok as [|t l Ht Hl IHl]; [done|]. apply Forall_cons in IH as [IHt IH]. cbn. rewrite IHt by done.
    by rewrite IHl.
  - apply tree_ok_object in Hok as [Hnd Hms]. cbn [sorted_tree]. f_equal.
    change (map (λ m, (m.1, sorted_tree m.2)) ms) with (map (map_snd sorted_tree) ms).
    rewrite merge_sort_map. set (ks := sort_members ms).
    change (map (λ m, (m.1, sorted_tree m.2)) (map (map_snd sorted_tree) ks))
      with (map (map_snd sorted_tree) (map (map_snd sorted_tree) ks)).
    assert (map (map_snd sorted_tree) (map (map_snd sorted_tree) ks) = map (map_snd sorted_tree) ks) as ->.
    { pose proof (sort_members_perm ms : ks ≡ₚ ms) as Hp. rewrite <-Hp in IH, Hms. clearbody ks. clear Hp Hnd.
      induction Hms as [|m ks [_ Ht] Hks IHl]; [done|]. apply Forall_cons in IH as [IHm IH]. cbn.
      unfold map_snd at 1. cbn [map_snd fst snd]. rewrite IHm by done. f_equal. by apply IHl. }
    rewrite merge_sort_map. f_equal. by apply sort_members_idem.
Qed.

Lemma sorted_equiv t u : sorted_tree t = sorted_tree u → json_equiv t u.
Proof.
  revert u. induction t as [| | | |l IH|ms IH] using tree_ind'; intros u Heq; destruct u as [| | | |k|ks]; try done;
    try apply equiv_refl; try (injection Heq as Heq; subst; apply equiv_refl).
  - cbn [sorted_tree] in Heq. injection Heq as Heq. apply equiv_array. revert k Heq. induction IH as [|t l IHt IH IHl]; intros [|u k] Heq; try done.
    injection Heq as Ht Hl. constructor; auto.
  - cbn [sorted_tree] in Heq. injection Heq as Heq. change (λ m : string * JsonTree, (m.1, sorted_tree m.2)) with (map_snd sorted_tree) in Heq.
    rewrite !merge_sort_map in Heq. apply (equiv_object _ (sort_members ms) _ (sort_members ks)).
    + by rewrite sort_members_perm.
    + by rewrite sort_members_perm.
    + rewrite <-(sort_members_perm ms) in IH. revert Heq. generalize (sort_members ks).
      induction IH as [|m l IHm IH IHl]; intros [|k ks'] Heq; try done. injection Heq as Hk Ht Hl.
      constructor; auto.
Qed.

Lemma equiv_sorted t u : tree_ok t = true → json_equiv t u → sorted_tree t = sorted_tree u.
Proof.
  revert u. induction t as [| | | |l IH|ms IH] using tree_ind'; intros u Hok Hu; inversion Hu as [|? k Hl|? ms' ks ks' Hp Hp' Hl]; subst; try done.
  - apply tree_ok_array in Hok. cbn. f_equal. clear Hu. revert k Hl. induction Hok as [|t l Ht Hl IHl]; intros k Hk.
    + by inversion Hk.
    + apply Forall_cons in IH as [IHt IH]. inversion Hk as [|? t' ? k' Ht' Hk']; subst. cbn. f_equal; [by apply IHt|].
      by apply IHl.
  - apply tree_ok_object in Hok as [Hnd Hms]. cbn [sorted_tree]. f_equal.
    change (λ m : string * JsonTree, (m.1, sorted_tree m.2)) with (map_snd sorted_tree).
    transitivity (sort_members (map (map_snd sorted_tree) ms')).
    + apply sort_members_perm_eq; [by rewrite map_snd_keys|]. by apply fmap_Permutation.
    + transitivity (sort_members (map (map_snd sorted_tree) ks')); [f_equal|].
      2:{ symmetry. apply sort_members_perm_eq; [|by apply fmap_Permutation]. rewrite map_snd_keys.
          assert (ks'.*1 = ms'.*1) as Hkeys by (clear -Hl; induction Hl as [|m k ? ? [Hk _] _ IH]; [done|]; cbn; by rewrite IH, Hk).
          by rewrite Hp', Hkeys, <-Hp. }
      rewrite Hp in IH, Hms. clear Hp Hp' Hu Hnd. revert ks' Hl.
      induction Hms as [|m ms' [_ Ht] Hms IHl]; intros ks' Hl; inversion Hl as [|? k ? ks'' [Hk Hm] Hl']; subst; [done|].
      apply Forall_cons in IH as [IHm IH]. cbn. f_equal; [|by apply IHl]. unfold map_snd. rewrite Hk. f_equal.
      by apply IHm.
Qed.

(** [json.Marshal] writes two values alike exactly when they are the same. *)
Lemma encode_tree_equiv t u :
  tree_ok t = true → tree_ok u = true → encode_tree t = encode_tree u ↔ json_equiv t u.
Proof.
  intros Ht Hu. assert (∀ x, tree_ok x = true → encode_tree x = encode_tree (sorted_tree x)) as Hsort.
  { clear. intros x. induction x as [| | | |l IH|ms IH] using tree_ind'; intros Hok; try done.
    - apply tree_ok_array in Hok. cbn. f_equal.
      induction Hok as [|t l Ht Hl IHl]; [done|]. apply Forall_cons in IH as [IHt IH]. cbn. by rewrite IHt, IHl.
    - apply tree_ok_object in Hok as [Hnd Hms]. cbn [encode_tree sorted_tree]. f_equal.
      change (λ m : string * JsonTree, (m.1, sorted_tree m.2)) with (map_snd sorted_tree).
      change (λ m : string * JsonTree, (m.1, encode_tree m.2)) with (map_snd encode_tree).
      rewrite !merge_sort_map. rewrite sort_members_idem by done.
      pose proof (sort_members_perm ms) as Hp. rewrite <-Hp in IH, Hms. generalize dependent (sort_members ms).
      intros ks IH Hms _. induction Hms as [|m ks [_ Ht] Hks IHl]; [done|]. apply Forall_cons in IH as [IHm IH].
      cbn. f_equal; [|by apply IHl]. unfold map_snd. cbn. by rewrite IHm. }
  split.
  - intros Heq. assert (sorted_tree t = sorted_tree u) as Hst.
    { apply read_json_encode in Ht, Hu. rewrite Heq in Ht. congruence. }
    by apply sorted_equiv.
  - intros Heq%equiv_sorted; [|done]. rewrite (Hsort t), (Hsort u) by done. by rewrite Heq.
Qed.

(** ** Fuel

    What is read with any fuel is read with twice the length of the text. *)

Lemma skip_flat_shorter s r : skip_flat s = Some r → (String.length r < String.length s)%nat.
Proof. intros Hs%skip_flat_scanned. by eapply scanned_shorter. Qed.

Lemma strip_ws_shorter c r x : strip c (skip_ws r) = Some x → (String.length x < String.length r)%nat.
Proof. intros Hx%strip_length. pose proof (skip_ws_le r). lia. Qed.

Lemma read_shorter n :
  (∀ s t r, read_value n s = Some (t, r) → (String.length r < String.length s)%nat) ∧
  (∀ seen s ms r, read_members n seen s = Some (ms, r) → (String.length r < String.length s)%nat) ∧
  (∀ s l r, read_elements n s = Some (l, r) → (String.length r < String.length s)%nat).
Proof.
  induction n as [|n (IHv & IHm & IHe)]; [done|]. split_and!.
  - intros s t r. cbn [read_value]. destruct (strip "{" s) as [x|] eqn:Hb.
    { apply strip_length in Hb. destruct (strip "}" (skip_ws x)) as [y|] eqn:Hy.
      { apply strip_ws_shorter in Hy. intros [= _ <-]. lia. }
      pose proof (skip_ws_le x). intros ([ms z] & Hz%IHm & [= _ <-])%bind_Some. lia. }
    destruct (strip "[" s) as [x|] eqn:Hb'.
    { apply strip_length in Hb'. destruct (strip "]" (skip_ws x)) as [y|] eqn:Hy.
      { apply strip_ws_shorter in Hy. intros [= _ <-]. lia. }
      pose proof (skip_ws_le x). intros ([l z] & Hz%IHe & [= _ <-])%bind_Some. lia. }
    unfold read_flat. by intros (y & Hy%skip_flat_shorter & [= _ <-])%bind_Some.
  - intros seen s ms r. cbn [read_members].
    intros (rest & _ & (v & Hv%skip_key_shorter & Hms)%bind_Some)%bind_Some.
    case_bool_decide; [done|]. apply bind_Some in Hms as ([t y] & Hy%IHv & Hms).
    destruct (strip "," (skip_ws y)) as [z|] eqn:Hz.
    + apply strip_ws_shorter in Hz. pose proof (skip_ws_le z).
      apply bind_Some in Hms as ([ms' u] & Hu%IHm & [= _ <-]). lia.
    + apply bind_Some in Hms as (u & Hu%strip_ws_shorter & [= _ <-]). lia.
  - intros s l r. cbn [read_elements]. intros ([t y] & Hy%IHv & Hl)%bind_Some.
    destruct (strip "," (skip_ws y)) as [z|] eqn:Hz.
    + apply strip_ws_shorter in Hz. pose proof (skip_ws_le z).
      apply bind_Some in Hl as ([l' u] & Hu%IHe & [= _ <-]). lia.
    + apply bind_Some in Hl as (u & Hu%strip_ws_shorter & [= _ <-]). lia.
Qed.

Lemma read_fuel n :
  (∀ s x m, read_value n s = Some x → (2 * String.length s ≤ m)%nat → read_value m s = Some x) ∧
  (∀ seen s x m, read_members n seen s = Some x → (2 * String.length s + 1 ≤ m)%nat → read_members m seen s = Some x) ∧
  (∀ s x m, read_elements n s = Some x → (2 * String.length s + 1 ≤ m)%nat → read_elements m s = Some x).
Proof.
  induction n as [|n (IHv & IHm & IHe)]; [done|]. split_and!.
  - intros s [t r] m Hs Hm. pose proof (proj1 (read_shorter (S n)) _ _ _ Hs). destruct m as [|m]; [lia|].
    cbn [read_value] in Hs |- *. destruct (strip "{" s) as [x|] eqn:Hb.
    { apply strip_length in Hb. destruct (strip "}" (skip_ws x)); [done|]. pose proof (skip_ws_le x).
      apply bind_Some in Hs as (y & Hy & Hs). rewrite (IHm _ _ _ m Hy) by lia. exact Hs. }
    destruct (strip "[" s) as [x|] eqn:Hb'; [|done].
    apply strip_length in Hb'. destruct (strip "]" (skip_ws x)); [done|]. pose proof (skip_ws_le x).
    apply bind_Some in Hs as (y & Hy & Hs). rewrite (IHe _ _ m Hy) by lia. exact Hs.
  - intros seen s x m Hs Hm. destruct m as [|m]; [lia|]. cbn [read_members] in Hs |- *.
    apply bind_Some in Hs as (rest & -> & (v & Hv & Hs)%bind_Some). rewrite Hv. cbn [mbind option_bind] in Hs |- *.
    apply skip_key_shorter in Hv. case_bool_decide; [done|]. apply bind_Some in Hs as ([t y] & Hy & Hs).
    rewrite (IHv _ _ m Hy) by lia. apply (proj1 (read_shorter n)) in Hy. cbn [mbind option_bind] in Hs |- *.
    destruct (strip "," (skip_ws y)) as [z|] eqn:Hz; [|done]. apply strip_ws_shorter in Hz. pose proof (skip_ws_le z).
    apply bind_Some in Hs as (w & Hw & Hs). rewrite (IHm _ _ _ m Hw) by lia. exact Hs.
  - intros s x m Hs Hm. destruct m as [|m]; [lia|]. cbn [read_elements] in Hs |- *.
    apply bind_Some in Hs as ([t y] & Hy & Hs). rewrite (IHv _ _ m Hy) by lia.
    apply (proj1 (read_shorter n)) in Hy. cbn [mbind option_bind] in Hs |- *.
    destruct (strip "," (skip_ws y)) as [z|] eqn:Hz; [|done]. apply strip_ws_shorter in Hz. pose proof (skip_ws_le z).
    apply bind_Some in Hs as (w & Hw & Hs). rewrite (IHe _ _ m Hw) by lia. exact Hs.
Qed.

(** More fuel than [read_json] has reads nothing else. *)
Lemma read_json_complete n s t r :
  read_value n (skip_ws s) = Some (t, r) → skip_ws r = ""%string → read_json s = Some t.
Proof.
  intros Hn Hr. unfold read_json. rewrite (proj1 (read_fuel n) _ (t, r)); [|done|].
  - cbn. by rewrite Hr.
  - pose proof (skip_ws_le s). unfold scan_fuel. lia.
Qed.

#[export] Instance json_equiv_refl : Reflexive json_equiv := equiv_refl.

(** Two texts of the same JSON value. *)
Definition same_json (a b : string) : Prop :=
  ∃ t u, read_json a = Some t ∧ read_json b = Some u ∧ json_equiv t u.
