(* ===== verification/JsonCodec.v ===== *)
(** * Writing and reading Go values as JSON

    What the codecs of single types share: a value that is written as a struct, a
    slice or a map, and that is read back as it was. *)

From Stdlib Require Import Floats.
From S2P Require Import Prelude Encoding Json JsonWrite JsonTree.

Open Scope Z_scope.

(** ** Structs *)

(** A value that is written: a JSON value, not [null], that is decoded into the same
    value. *)
Definition written {A} (zero : A) (d : decoder A) (depth : Z) (a : A) (t : string) : Prop :=
  value_at depth t ∧ is_null t = false ∧ d zero t = Some a.

Lemma written_object {A} (zero : A) (d : decoder A) depth a fields :
  1 ≤ depth ≤ maxNestingDepth → Forall (good_member (depth - 1)) fields →
  (struct_members (encode_object fields) = Some fields → d zero (encode_object fields) = Some a) →
  written zero d depth a (encode_object fields).
Proof.
  intros Hd Hg Hdec.
  assert (Forall (good_member (maxNestingDepth - 1)) fields) as Hg'.
  { eapply Forall_impl; [done|]. intros f [? Hv]. split; [done|]. eapply value_at_weaken; [done|]. lia. }
  split_and!; [apply encode_object_value; [lia|done] | by apply encode_object_not_null | by apply Hdec, struct_members_encode].
Qed.

Lemma encodes_written {A} (zero : A) (d : decoder A) depth (o : option A) (encode : A → string) :
  (∀ a, o = Some a → written zero d depth a (encode a)) →
  encodes (decode_ptr zero d) None (encode <$> o) o ∧
  ∀ t, (encode <$> o) = Some t → value_at depth t.
Proof.
  intros Ho. split.
  - apply encodes_ptr. intros a Ha. by destruct (Ho a Ha) as (_ & ? & ?).
  - apply fmap_value. intros a Ha. by destruct (Ho a Ha).
Qed.

(** The members of the object are at hand; the next field is found among them. *)
Ltac read_struct Hms := intros Hms; cbv beta; rewrite Hms; cbn [mbind option_bind].
Ltac step_field := eapply bind_field; [find_field|].

(** ** Slices *)

Lemma elements_split e es t :
  ∃ sep rest, (encode_elements (e :: es) +:+ String "]" t) = (e +:+ String sep rest) ∧ ends_number (String sep rest) ∧
    match es with
    | [] => sep = "]"%char ∧ rest = t
    | _ => sep = ","%char ∧ rest = (encode_elements es +:+ String "]" t)
    end.
Proof.
  destruct es as [|e' es]; [by exists "]"%char, t|].
  exists ","%char, (encode_elements (e' :: es) +:+ String "]" t).
  change (encode_elements (e :: e' :: es)) with (e +:+ String "," (encode_elements (e' :: es))).
  by rewrite append_assoc, append_cons.
Qed.

Lemma elements_skip d es n t :
  es ≠ [] → Forall (value_at d) es → (2 * String.length (encode_elements es +:+ String "]" t) + 1 ≤ n)%nat →
  skip_elements n d (encode_elements es +:+ String "]" t) = Some t.
Proof.
  intros Hne Hf. revert n Hne. induction Hf as [|e es Hv Hf IH]; [done|]. intros n _ Hn.
  apply value_at_reads in Hv as [Hst Hr].
  destruct (elements_split e es t) as (sep & rest & Heq & He & Hsep). rewrite Heq in Hn |- *.
  destruct n as [|n]; [lia|]. cbn [skip_elements]. apply starts_length in Hst.
  rewrite length_append in Hn. cbn [String.length] in Hn.
  rewrite Hr; [|done|rewrite length_append; cbn [String.length]; lia]. cbn [mbind option_bind].
  destruct es as [|e' es]; destruct Hsep as [-> ->].
  - by rewrite skip_ws_cons.
  - rewrite skip_ws_cons by done. rewrite strip_cons, encode_elements_ws by (inversion Hf; by apply (value_at_reads d)).
    apply IH; [done|lia].
Qed.

Lemma strip_elements e es t : starts e → strip "]" (encode_elements (e :: es) +:+ t) = None.
Proof. intros He. apply starts_strip; [done|]. destruct es; [done|]. by apply starts_app. Qed.

Lemma encode_array_value d es : 1 ≤ d → Forall (value_at (d - 1)) es → value_at d (encode_array es).
Proof.
  intros Hd Hf. unfold encode_array. exists (S (2 * String.length (encode_elements es +:+ "]") + 1)).
  cbn [skip_value]. change (strip "{" (String "[" (encode_elements es +:+ "]"))) with (@None string). cbv iota.
  rewrite strip_cons. destruct (Z.leb_spec d 0); [lia|].
  destruct es as [|e es]; [done|]. apply Forall_cons_1 in Hf as He. destruct He as [[He _]%value_at_reads _].
  rewrite encode_elements_ws, strip_elements by done. by apply elements_skip.
Qed.

Lemma elements_encode d es n t :
  d ≤ maxNestingDepth → es ≠ [] → Forall (value_at d) es →
  (String.length (encode_elements es +:+ String "]" t) ≤ n)%nat →
  elements_of n (encode_elements es +:+ String "]" t) = Some es.
Proof.
  intros Hd Hne Hf. revert n Hne. induction Hf as [|e es Hv Hf IH]; [done|]. intros n _ Hn.
  apply value_at_reads in Hv as [Hst Hr].
  destruct (elements_split e es t) as (sep & rest & Heq & He & Hsep). rewrite Heq in Hn |- *.
  apply starts_length in Hst. rewrite length_append in Hn. cbn [String.length] in Hn. destruct n as [|n]; [lia|].
  cbn [elements_of]. specialize (Hr _ (String sep rest) He (le_n _)). apply scan_complete in Hr; [|done]. rewrite Hr.
  cbn [mbind option_bind]. rewrite before_append. destruct es as [|e' es]; destruct Hsep as [-> ->].
  - by rewrite skip_ws_cons.
  - rewrite skip_ws_cons by done. rewrite strip_cons, encode_elements_ws by (inversion Hf; by apply (value_at_reads d)).
    rewrite IH; [done|done|lia].
Qed.

Lemma array_not_null es : Forall (value_at (maxNestingDepth - 1)) es → is_null (encode_array es) = false.
Proof. intros Hf. eapply is_null_starts; [by apply (encode_array_value maxNestingDepth)|done|done|done]. Qed.

Lemma json_array_encode es : Forall (value_at (maxNestingDepth - 1)) es → json_array (encode_array es) = Some es.
Proof.
  intros Hf. pose proof (encode_array_value maxNestingDepth es ltac:(done) Hf) as Hv.
  apply value_at_text in Hv as [_ Ht]; [|done]. unfold json_array. rewrite Ht. unfold encode_array at 1.
  cbn [mbind option_bind]. rewrite strip_cons. cbn [mbind option_bind].
  destruct es as [|e es]; [done|]. apply Forall_cons_1 in Hf as He. destruct He as [[He _]%value_at_reads _].
  rewrite encode_elements_ws, strip_elements by done. by apply (elements_encode (maxNestingDepth - 1)).
Qed.

(** A slice is written element by element; an empty one is an empty array. *)
Lemma decode_elems_fresh {A} (zero : A) (d : decoder A) raws l :
  Forall2 (λ raw a, d zero raw = Some a) raws l → decode_elems zero d [] raws = Some l.
Proof. induction 1 as [|raw a raws l Ha _ IH]; [done|]. cbn. rewrite Ha. cbn. by rewrite IH. Qed.

Lemma written_slice {A} (zero : A) (d : decoder A) depth (raws : list string) (l : list A) :
  1 ≤ depth ≤ maxNestingDepth → Forall2 (λ raw a, written zero d (depth - 1) a raw) raws l →
  written nil_slice (decode_slice zero d) depth (Build_Slice l []) (encode_array raws).
Proof.
  intros Hd Hl.
  assert (Forall (value_at (depth - 1)) raws) as Hv.
  { apply Forall_forall. intros raw Hraw. apply list_elem_of_lookup in Hraw as [i Hi].
    destruct (Forall2_lookup_l _ _ _ _ _ Hl Hi) as (a & _ & Ha). apply Ha. }
  assert (Forall (value_at (maxNestingDepth - 1)) raws) as Hv'.
  { eapply Forall_impl; [done|]. intros raw ?. eapply value_at_weaken; [done|]. lia. }
  split; [apply encode_array_value; [lia|done]|]. split; [by apply array_not_null|].
  unfold decode_slice. rewrite (array_not_null raws), json_array_encode by done. cbn [mbind option_bind].
  destruct Hl as [|raw a raws l Ha Hl]; [done|]. cbn [sl_elems sl_stale nil_slice app].
  rewrite (decode_elems_fresh zero d (raw :: raws) (a :: l)).
  - cbn [mbind option_bind]. by rewrite drop_nil.
  - constructor; [apply Ha|]. eapply Forall2_impl; [done|]. by intros ? ? (_ & _ & ?).
Qed.

(** A field that holds a list: the elements behind its end matter only to a document that
    names the field more than once, which is not what is written. *)
Definition decode_list {A} (zero : A) (d : decoder A) : decoder (list A) := λ old raw,
  sl_elems <$> decode_slice zero d (Build_Slice old []) raw.

Lemma written_list {A} (zero : A) (d : decoder A) depth (raws : list string) (l : list A) :
  1 ≤ depth ≤ maxNestingDepth → Forall2 (λ raw a, written zero d (depth - 1) a raw) raws l →
  written [] (decode_list zero d) depth l (encode_array raws).
Proof.
  intros Hd Hl. destruct (written_slice zero d depth raws l Hd Hl) as (Hv & Hn & Hr).
  split; [done|]. split; [done|]. unfold decode_list. change (Build_Slice [] []) with (@nil_slice A). by rewrite Hr.
Qed.

Lemma written_string depth s : utf8_Valid s = true → written "" decode_string depth s (encode_string s).
Proof.
  intros Hs. split; [apply encode_string_value|]. split; [|by apply decode_string_encode].
  eapply (is_null_starts _ maxNestingDepth); [apply encode_string_value|done|done|done].
Qed.

Lemma written_strings depth l :
  1 ≤ depth ≤ maxNestingDepth → Forall (λ s, utf8_Valid s = true) l →
  written [] (decode_list "" decode_string) depth l (encode_array (map encode_string l)).
Proof.
  intros Hd Hl. apply written_list; [done|]. induction Hl; constructor; [by apply written_string|done].
Qed.

(** What is written is a field's value, or is left out when it is the zero value. *)
Lemma encodes_of {A} (zero : A) (d : decoder A) depth a t : written zero d depth a t → encodes d zero (Some t) a.
Proof. by intros (_ & _ & ?). Qed.

(** ** Maps *)

(** A [map[string]V]: a value is decoded into a fresh variable. The nil map is empty. *)
Definition decode_map {V} (zero : V) (d : decoder V) : decoder (gmap string V) := λ old raw,
  if is_null raw then Some ∅
  else
    fields ← json_object raw;
    foldl (λ acc f, m ← acc; v ← d zero f.2; Some (<[f.1 := v]> m)) (Some old) fields.

(** The members of a map, in the order of their keys. *)
Definition map_members (m : gmap string string) : list (string * string) := sort_members (map_to_list m).

Lemma map_members_perm m : map_members m ≡ₚ map_to_list m.
Proof. apply sort_members_perm. Qed.

Lemma decode_members {V} (zero : V) (d : decoder V) fields vs (acc : gmap string V) :
  Forall2 (λ f v, f.1 = v.1 ∧ d zero f.2 = Some v.2) fields vs →
  foldl (λ acc f, m ← acc; v ← d zero f.2; Some (<[f.1 := v]> m)) (Some acc) fields =
  Some (foldl (λ m v, <[v.1 := v.2]> m) acc vs).
Proof.
  intros Hf. revert acc. induction Hf as [|f v fields vs [Hk Hv] _ IH]; intros acc; [done|].
  cbn [foldl mbind option_bind]. rewrite Hv. cbn [mbind option_bind]. rewrite Hk. apply IH.
Qed.

Lemma members_fold_lookup {V} (vs : list (string * V)) (acc : gmap string V) k :
  NoDup vs.*1 → foldl (λ m v, <[v.1 := v.2]> m) acc vs !! k = match (list_to_map vs : gmap string V) !! k with Some v => Some v | None => acc !! k end.
Proof.
  revert acc. induction vs as [|[k' v] vs IH]; intros acc; [done|]. cbn [fmap list_fmap fst]. intros [Hk' Hnd]%NoDup_cons.
  cbn [foldl]. rewrite IH by done. rewrite list_to_map_cons. cbn [fst snd]. destruct (decide (k' = k)) as [->|Hne].
  - rewrite (not_elem_of_list_to_map_1 vs k Hk'). by rewrite !lookup_insert_eq.
  - by rewrite !lookup_insert_ne.
Qed.

Lemma json_object_encode fields :
  Forall (good_member (maxNestingDepth - 1)) fields → json_object (encode_object fields) = Some fields.
Proof.
  intros Hf. pose proof (struct_members_encode fields Hf) as Hs. unfold struct_members in Hs.
  by rewrite encode_object_not_null in Hs.
Qed.

(** A map is written with its keys in order. *)
Lemma written_map {V} (zero : V) (d : decoder V) depth (m : gmap string V) (texts : gmap string string) :
  1 ≤ depth ≤ maxNestingDepth →
  (∀ k v, m !! k = Some v → utf8_Valid k = true ∧ ∃ t, texts !! k = Some t ∧ written zero d (depth - 1) v t) →
  dom texts = dom m →
  written ∅ (decode_map zero d) depth m (encode_object (map_members texts)).
Proof.
  intros Hdep Hm Hdom.
  assert (∀ f, f ∈ map_members texts → utf8_Valid f.1 = true ∧ ∃ v, m !! f.1 = Some v ∧ written zero d (depth - 1) v f.2) as Hin.
  { intros [k t]. rewrite map_members_perm. intros Ht%elem_of_map_to_list. cbn.
    assert (k ∈ dom m) as [v Hv]%elem_of_dom by (rewrite <-Hdom; apply elem_of_dom; eauto).
    destruct (Hm k v Hv) as (Hk & t' & Ht' & Hw). rewrite Ht in Ht'. injection Ht' as <-. split; [done|]. by exists v. }
  assert (∀ n, depth - 1 ≤ n → Forall (good_member n) (map_members texts)) as Hg.
  { intros n Hn. apply Forall_forall. intros f (Hk & v & _ & Hv & _)%Hin. split; [done|]. by eapply value_at_weaken. }
  split; [apply encode_object_value; [lia|apply Hg; lia]|].
  assert (Forall (good_member (maxNestingDepth - 1)) (map_members texts)) as Hg' by (apply Hg; lia).
  split; [by apply encode_object_not_null|]. unfold decode_map.
  rewrite (encode_object_not_null _ Hg'), (json_object_encode _ Hg'). cbn [mbind option_bind].
  assert (∃ vs, Forall2 (λ f v, f.1 = v.1 ∧ d zero f.2 = Some v.2 ∧ m !! v.1 = Some v.2) (map_members texts) vs) as [vs Hvs].
  { clear -Hin. induction (map_members texts) as [|f fields IH]; [by exists []|]. destruct IH as [vs Hvs]; [intros g Hg; apply Hin; by right|].
    destruct (Hin f (list_elem_of_here _ _)) as (_ & v & Hv & _ & _ & Hd). exists ((f.1, v) :: vs). by constructor. }
  rewrite (decode_members _ _ _ vs) by (eapply Forall2_impl; [done|]; by intros ?? (?&?&_)). f_equal.
  assert (vs.*1 = (map_members texts).*1) as Hkeys by (clear -Hvs; induction Hvs as [|f v fs vs (Hk & _) _ IH]; [done|]; cbn; by rewrite IH, Hk).
  assert (NoDup vs.*1) as Hnd by (rewrite Hkeys, map_members_perm; apply NoDup_fst_map_to_list).
  apply map_eq. intros k. rewrite members_fold_lookup, lookup_empty by done.
  assert (∀ v, (k, v) ∈ vs → m !! k = Some v) as Hsound.
  { intros v Hv. apply list_elem_of_lookup in Hv as [i Hi]. destruct (Forall2_lookup_r _ _ _ _ _ Hvs Hi) as (f & _ & _ & _ & Hmv). exact Hmv. }
  destruct (list_to_map vs !! k) as [v|] eqn:Hl.
  - apply elem_of_list_to_map_2, Hsound in Hl. done.
  - destruct (m !! k) as [v|] eqn:Hk; [exfalso|done].
    apply not_elem_of_list_to_map in Hl. apply Hl. rewrite Hkeys, map_members_perm. apply list_elem_of_fmap.
    assert (k ∈ dom texts) as [t Ht]%elem_of_dom by (rewrite Hdom; apply elem_of_dom; eauto).
    exists (k, t). split; [done|]. by apply elem_of_map_to_list.
Qed.

(** ** Trimming keeps UTF-8 *)

Definition bytes (l : list ascii) : list Z := map byte_of l.

Lemma space_piece p :
  (∃ a, p = [a] ∧ space1 a = true) ∨ (∃ a b, p = [a; b] ∧ space2 a b = true) ∨ (∃ a b c, p = [a; b; c] ∧ space3 a b c = true) →
  rune_piece (bytes p) ∧ ∃ b q, bytes p = b :: q ∧ (b < 0x80 ∨ 0xC0 ≤ b).
Proof.
  intros [(a & -> & Ha)|[(a & b & -> & Hb)|(a & b & c & -> & Hc)]]; unfold bytes; cbn [map].
  - unfold space1 in Ha. split; [apply ascii_piece; lia|]. eexists _, _. split; [done|lia].
  - unfold space2 in Hb. apply andb_true_iff in Hb as [->%Z.eqb_eq Hb]. split; [|eexists _, _; split; [done|lia]].
    apply orb_true_iff in Hb as [->%Z.eqb_eq| ->%Z.eqb_eq]; intros l; by apply (utf8_cons 0xC2 (_ :: l) 2).
  - assert (∃ x y z, byte_of a = x ∧ byte_of b = y ∧ byte_of c = z ∧ rune_size x [y; z] = (3%nat, true) ∧ 0xC0 ≤ x) as (x & y & z & -> & -> & -> & Hs & Hx).
    { exists (byte_of a), (byte_of b), (byte_of c). split_and!; try done; unfold space3 in Hc;
        revert Hc; generalize (byte_of a), (byte_of b), (byte_of c); intros x y z Hc; [|clear -Hc; lia].
      rewrite !orb_true_iff, !andb_true_iff in Hc.
        destruct Hc as [[[[[Hx Hy] Hz]|[[Hx Hy] Hz]]|[[Hx Hy] Hz]]|[[Hx Hy] Hz]]; apply Z.eqb_eq in Hx, Hy; subst; unfold rune_size; cbn;
          unfold continuation; cbn; destruct (Z.leb_spec 128 z); try (exfalso; lia); destruct (Z.leb_spec z 191); try (exfalso; lia); done. }
    split; [|eexists _, _; split; [done|lia]]. apply (copied_piece _ _ _ Hs).
Qed.

(** A valid text is valid up to the start of a code point. *)
Lemma utf8_before l b q : (b < 0x80 ∨ 0xC0 ≤ b) → utf8 (l ++ b :: q) = true → utf8 l = true.
Proof.
  intros Hb. induction (Nat.lt_wf_0_projected length l) as [l _ IH]. destruct l as [|c l]; [done|].
  cbn [app]. intros Hu. destruct (rune_size c (l ++ b :: q)) as [size ok] eqn:Hs.
  assert (ok = true) as -> by (unfold utf8 in Hu; cbn in Hu; rewrite Hs in Hu; by destruct ok).
  rewrite (utf8_cons _ _ _ Hs) in Hu. destruct (Z_lt_le_dec c 0x80) as [Hc|Hc].
  - unfold rune_size in Hs. destruct (Z.ltb_spec c 128); [|lia]. injection Hs as <-. change (1 - 1)%nat with 0%nat in Hu. rewrite drop_0 in Hu.
    rewrite (utf8_cons c l 1) by (unfold rune_size; by destruct (Z.ltb_spec c 128); [|lia]). change (1 - 1)%nat with 0%nat. rewrite drop_0. apply IH; [cbn; lia|done].
  - destruct (rune_size_ok _ _ _ Hs Hc) as (_ & Hlen & Hf & Hx).
    destruct (le_lt_dec (size - 1) (length l)) as [Hle|Hlt].
    + rewrite take_app_le in Hx by done. specialize (Hx (drop (size - 1) l)). rewrite take_drop in Hx.
      rewrite (utf8_cons _ _ _ Hx). rewrite drop_app_le in Hu by done. apply IH; [cbn; rewrite length_drop; lia|done].
    + rewrite Forall_forall in Hf. exfalso. assert (0x80 ≤ b ≤ 0xBF); [|lia]. apply Hf.
      rewrite take_app_ge by lia. apply elem_of_app. right. replace (size - 1 - length l)%nat with (S (size - 2 - length l)) by lia. left.
Qed.

Lemma trim_front_split r l :
  ∃ p, l = p ++ trim_front r l ∧ ∀ P : list ascii → Prop, P [] →
    (∀ s t, (∃ a, s = [a] ∧ space1 a = true) ∨ (∃ a b, s = (if r then [b; a] else [a; b]) ∧ space2 a b = true) ∨
            (∃ a b c, s = (if r then [c; b; a] else [a; b; c]) ∧ space3 a b c = true) → P t → P (s ++ t)) → P p.
Proof.
  induction (Nat.lt_wf_0_projected length l) as [l _ IH].
  destruct l as [|a l1]; [by exists []|]. cbn [trim_front]. destruct (space1 a) eqn:Ha.
  { destruct (IH l1) as (p & Hp & HP); [cbn; lia|]. exists (a :: p). split; [by rewrite Hp at 1|].
    intros P H0 Hs. apply (Hs [a] p); [left; by exists a|]. by apply HP. }
  destruct l1 as [|b l2]; [by exists []|]. destruct (if r then space2 b a else space2 a b) eqn:Hb.
  { destruct (IH l2) as (p & Hp & HP); [cbn; lia|]. exists (a :: b :: p). split; [by rewrite Hp at 1|].
    intros P H0 Hs. apply (Hs [a; b] p); [|by apply HP]. right. left. destruct r; [by exists b, a|by exists a, b]. }
  destruct l2 as [|c l3]; [by exists []|]. destruct (if r then space3 c b a else space3 a b c) eqn:Hc; [|by exists []].
  destruct (IH l3) as (p & Hp & HP); [cbn; lia|]. exists (a :: b :: c :: p). split; [by rewrite Hp at 1|].
  intros P H0 Hs. apply (Hs [a; b; c] p); [|by apply HP]. right. right. destruct r; [by exists c, b, a|by exists a, b, c].
Qed.

Lemma TrimSpace_utf8 s : utf8_Valid s = true → utf8_Valid (TrimSpace s) = true.
Proof.
  rewrite !utf8_Valid_bytes. unfold bytes_of, TrimSpace. rewrite list_ascii_of_string_of_list_ascii.
  generalize (list_ascii_of_string s). clear s. intros l. unfold trim_bytes. change (map byte_of) with bytes.
  intros Hl. assert (utf8 (bytes (trim_front false l)) = true) as Hf.
  { destruct (trim_front_split false l) as (p & Hp & HP). rewrite Hp in Hl. unfold bytes in Hl |- *. rewrite map_app in Hl.
    revert Hl. generalize (map byte_of (trim_front false l)). clear Hp.
    apply (HP (λ p, ∀ m, utf8 (map byte_of p ++ m) = true → utf8 m = true)); [done|].
    intros q t Hq IH m. rewrite map_app, <-app_assoc. destruct (space_piece q) as [Hpiece _]; [|rewrite (Hpiece _); apply IH].
    by destruct Hq as [(?&?&?)|[(?&?&?&?)|(?&?&?&?&?)]]; eauto 10. }
  revert Hf. generalize (trim_front false l). clear l Hl. intros l Hl.
  destruct (trim_front_split true (rev l)) as (p & Hp & HP).
  assert (l = rev (trim_front true (rev l)) ++ rev p) as Hlp by (rewrite <-rev_app_distr, <-Hp; by rewrite rev_involutive).
  unfold bytes. rewrite Hlp in Hl. revert Hl. unfold bytes. rewrite map_app. generalize (map byte_of (rev (trim_front true (rev l)))). clear Hp Hlp.
  apply (HP (λ p, ∀ m, utf8 (m ++ map byte_of (rev p)) = true → utf8 m = true)); [intros m; by rewrite app_nil_r|].
  intros q t Hq IH m. rewrite rev_app_distr, map_app, app_assoc.
  destruct (space_piece (rev q)) as [_ (b & r & Hbr & Hb)].
  { destruct Hq as [(a & -> & ?)|[(a & b & -> & ?)|(a & b & c & -> & ?)]]; cbn; eauto 10. }
  unfold bytes in Hbr. rewrite Hbr. intros Hu. apply IH. by eapply utf8_before.
Qed.
