(* ===== verification/JsonSame.v ===== *)
(** * Raw messages keep their value

    [json.Marshal] of a [json.RawMessage] rewrites its text: white space is dropped
    and some characters are escaped. It is read as the same tree ([JsonTree.v]); the
    last lemma says so. *)

From S2P Require Import Prelude Encoding Json JsonWrite JsonTree.

(** ** Escaped literals *)

Lemma bytes_of_cons c s : bytes_of (String c s) = byte_of c :: bytes_of s.
Proof. done. Qed.

Definition escaped {A} (p : A * string) : A * string := (p.1, html_escape p.2).
Definition as_bytes {A} (p : A * string) : A * list Z := (p.1, bytes_of p.2).

Definition take_hex (s : string) : option (Z * string) :=
  match s with String c r => v ← hex_value c; Some (v, r) | EmptyString => None end.

Definition hex4_string (s : string) : option (Z * string) :=
  '(a, s) ← take_hex s; '(b, s) ← take_hex s; '(c, s) ← take_hex s; '(d, s) ← take_hex s;
  Some (((a * 16 + b) * 16 + c) * 16 + d, s).

Definition low_string (s : string) : option (Z * string) :=
  s ← strip "\" s; s ← strip "u" s; '(v, r) ← hex4_string s;
  if (0xDC00 <=? v) && (v <? 0xE000) then Some (v, r) else None.

Lemma hex4_string_length s v r : hex4_string s = Some (v, r) → String.length s = (String.length r + 4)%nat.
Proof.
  assert (∀ x v y, take_hex x = Some (v, y) → String.length x = S (String.length y)) as Ht.
  { intros [|c z] w z'; [done|]. cbn. destruct (hex_value c); [|done]. by intros [= _ <-]. }
  unfold hex4_string.
  intros ([? ?] & H1%Ht & ([? ?] & H2%Ht & ([? ?] & H3%Ht & ([? ?] & H4%Ht & [= _ <-])%bind_Some)%bind_Some)%bind_Some)%bind_Some.
  lia.
Qed.

Lemma hex4_bytes s : hex4 (bytes_of s) = as_bytes <$> hex4_string s.
Proof.
  unfold hex4_string. destruct s as [|c1 s]; [done|]. cbn [take_hex].
  destruct s as [|c2 s]; [cbn; by destruct (hex_value c1)|].
  destruct s as [|c3 s]; [cbn; destruct (hex_value c1); [cbn; by destruct (hex_value c2)|done]|].
  destruct s as [|c4 s].
  { cbn. destruct (hex_value c1); [cbn|done]. destruct (hex_value c2); [cbn|done]. by destruct (hex_value c3). }
  rewrite !bytes_of_cons. cbn [hex4]. rewrite !byte_ascii_of.
  destruct (hex_value c1); [cbn|done]. destruct (hex_value c2); [cbn|done].
  destruct (hex_value c3); [cbn|done]. by destruct (hex_value c4).
Qed.

Lemma take_hex_escape s : take_hex (html_escape s) = escaped <$> take_hex s.
Proof.
  destruct s as [|c s]; [done|]. cbn [take_hex].
  destruct (hex_value c) as [v|] eqn:Hv; cbn [mbind option_bind].
  - rewrite kept_keeps by (apply is_hex_plain; unfold is_hex; by rewrite Hv). cbn [take_hex]. by rewrite Hv.
  - destruct (html_escape_cases c s) as [[_ ->] | (t & _ & ->)]; cbn [take_hex]; [by rewrite Hv|done].
Qed.

Lemma hex4_string_escape s : hex4_string (html_escape s) = escaped <$> hex4_string s.
Proof.
  unfold hex4_string. rewrite take_hex_escape. destruct (take_hex s) as [[a s1]|]; [|done]. cbn.
  rewrite take_hex_escape. destruct (take_hex s1) as [[b s2]|]; [|done]. cbn.
  rewrite take_hex_escape. destruct (take_hex s2) as [[c s3]|]; [|done]. cbn.
  rewrite take_hex_escape. by destruct (take_hex s3) as [[d s4]|].
Qed.

Lemma byte_of_inj c d : byte_of c = byte_of d → c = d.
Proof. intros Heq. by rewrite <-(byte_ascii_of c), <-(byte_ascii_of d), Heq. Qed.

Lemma low_surrogate_bytes s : low_surrogate (bytes_of s) = as_bytes <$> low_string s.
Proof.
  unfold low_string, low_surrogate. destruct (escape_front (bytes_of s)) as [(l & Hl)|Hno].
  - destruct s as [|c [|d s]]; try done. rewrite !bytes_of_cons in Hl |- *. injection Hl as Hc Hd Hs.
    apply (byte_of_inj c "\") in Hc as ->. apply (byte_of_inj d "u") in Hd as ->.
    rewrite strip_cons. cbn [mbind option_bind]. rewrite strip_cons. cbn [mbind option_bind].
    change (byte_of "\") with 92. change (byte_of "u") with 117. cbv iota. rewrite hex4_bytes. destruct (hex4_string s) as [[v r]|]; [|reflexivity].
    cbn [fmap option_fmap option_map as_bytes fst snd mbind option_bind].
    by destruct ((56320 <=? v) && (v <? 57344)).
  - rewrite Hno. destruct s as [|c s]; [done|]. cbn [strip]. destruct (Ascii.eqb_spec c "\") as [->|]; [|done].
    cbn [mbind option_bind]. destruct s as [|d s]; [done|]. cbn [strip]. destruct (Ascii.eqb_spec d "u") as [->|]; [|done].
    by specialize (Hno (option nat) (λ _, Some 0%nat) None).
Qed.

Lemma special_hex c r :
  html_special c = true →
  hex4_string (String "0" (String "0" (String (hex_ascii (byte_of c / 16)) (String (hex_ascii (byte_of c mod 16)) r)))) =
    Some (byte_of c, r) ∧ encode_rune (byte_of c) = [byte_of c] ∧ byte_of c < 0x80 ∧ byte_of c ≠ 92.
Proof. unfold html_special. rewrite !orb_true_iff, !Ascii.eqb_eq. by intros [[-> | ->] | ->]. Qed.

Lemma separator_hex c r :
  byte_of c = 0xA8 ∨ byte_of c = 0xA9 →
  hex4_string (String "2" (String "0" (String "2" (String (hex_ascii (byte_of c mod 16)) r)))) =
    Some (0x2000 + 0x20 + (byte_of c - 0xA0), r) ∧
  encode_rune (0x2000 + 0x20 + (byte_of c - 0xA0)) = [0xE2; 0x80; byte_of c].
Proof. by intros [-> | ->]. Qed.

(** How escaping treats the character at the front. *)
Lemma html_escape_front c s :
  (html_special c = true ∧ html_escape (String c s) = String "\" (String "u" (String "0" (String "0"
     (String (hex_ascii (byte_of c / 16)) (String (hex_ascii (byte_of c mod 16)) (html_escape s))))))) ∨
  (∃ a b t, s = String a (String b t) ∧ byte_of c = 0xE2 ∧ byte_of a = 0x80 ∧ (byte_of b = 0xA8 ∨ byte_of b = 0xA9) ∧
     html_escape (String c s) =
       String "\" (String "u" (String "2" (String "0" (String "2" (String (hex_ascii (byte_of b mod 16)) (html_escape t))))))) ∨
  (html_special c = false ∧ html_escape (String c s) = String c (html_escape s)).
Proof.
  cbn [html_escape]. destruct (html_special c) eqn:Hc; [by left|right].
  destruct s as [|a [|b t]]; try by right. destruct (_ && _) eqn:Hls; [left|by right].
  rewrite !andb_true_iff, orb_true_iff, !Z.eqb_eq in Hls. destruct Hls as [[? ?] ?]. by exists a, b, t.
Qed.

Lemma low_string_escape s : low_string (html_escape s) = escaped <$> low_string s.
Proof.
  unfold low_string. destruct s as [|c s]; [done|].
  destruct (html_escape_front c s) as [[Hc ->] | [(a & b & t & -> & Hc & _ & Hb & ->) | [Hc ->]]].
  - destruct (special_hex c (html_escape s) Hc) as (Hx & _ & Hlow & Hne). rewrite strip_cons. cbn [mbind option_bind].
    rewrite strip_cons. cbn [mbind option_bind]. rewrite Hx. cbn [mbind option_bind].
    rewrite (proj2 (Z.leb_gt _ _)) by lia. cbn.
    destruct (Ascii.eqb_spec c "\") as [->|]; [done|done].
  - destruct (separator_hex b (html_escape t) Hb) as (Hx & _). rewrite strip_cons. cbn [mbind option_bind].
    rewrite strip_cons. cbn [mbind option_bind]. rewrite Hx. cbn [mbind option_bind].
    rewrite (proj2 (Z.leb_gt _ _)) by lia. cbn. destruct (Ascii.eqb_spec c "\") as [->|]; [done|done].
  - cbn [strip]. destruct (c =? "\")%char; [|done]. cbn [mbind option_bind].
    rewrite strip_escape by done. destruct (strip "u" s) as [r|]; [|done]. cbn.
    rewrite hex4_string_escape. destruct (hex4_string r) as [[v x]|]; [|done]. cbn. by destruct (_ && _).
Qed.

(** Continuation bytes are the same before and after escaping. *)
Definition continues (l : list Z) : Prop := Forall (λ c, 0x80 ≤ c ≤ 0xBF) l.

Lemma html_escape_continuation c s :
  0x80 ≤ byte_of c ≤ 0xBF → html_escape (String c s) = String c (html_escape s).
Proof.
  intros Hc. destruct (html_escape_front c s) as [[Hs _] | [(a & b & t & _ & He & _) | [_ ->]]]; [|lia|done].
  destruct (special_hex c s Hs) as (_ & _ & Hlow & _). lia.
Qed.

Lemma continuations_escape k s :
  length (take k (bytes_of s)) = k → continues (take k (bytes_of s)) →
  ∃ p t, s = (p +:+ t) ∧ take k (bytes_of s) = bytes_of p ∧ html_escape s = (p +:+ html_escape t).
Proof.
  revert s. induction k as [|k IH]; intros s Hlen Hc; [by exists ""%string, s|].
  destruct s as [|c s]; [done|]. rewrite bytes_of_cons in Hlen, Hc |- *. cbn [take] in Hlen, Hc |- *.
  apply Forall_cons in Hc as [Hc Hcs]. destruct (IH s) as (p & t & -> & Hp & He); [by injection Hlen|done|].
  exists (String c p), t. rewrite append_cons, html_escape_continuation, He, Hp by done. done.
Qed.

Lemma continuations_unescape k s :
  length (take k (bytes_of (html_escape s))) = k → continues (take k (bytes_of (html_escape s))) →
  take k (bytes_of s) = take k (bytes_of (html_escape s)).
Proof.
  revert s. induction k as [|k IH]; intros s Hlen Hc; [done|].
  destruct (html_escape s) as [|a x] eqn:He; [done|]. rewrite bytes_of_cons in Hlen, Hc. cbn [take] in Hlen, Hc.
  apply Forall_cons in Hc as [Ha Hx]. destruct (html_escape_high s a x He) as (s' & -> & ->); [lia|].
  rewrite !bytes_of_cons. cbn [take]. f_equal. apply IH; [by injection Hlen|done].
Qed.

Lemma bytes_of_app s t : bytes_of (s +:+ t) = bytes_of s ++ bytes_of t.
Proof. induction s as [|c s IH]; [done|]. rewrite append_cons, !bytes_of_cons, IH. done. Qed.

(** A byte and what [rune_size] says of it, escaped or not. *)
Lemma rune_size_escape b s :
  is_byte b →
  rune_size b (bytes_of (html_escape s)) = rune_size b (bytes_of s) ∧
  ∃ t, drop ((rune_size b (bytes_of s)).1 - 1) (bytes_of s) = bytes_of t ∧
    drop ((rune_size b (bytes_of s)).1 - 1) (bytes_of (html_escape s)) = bytes_of (html_escape t) ∧
    take ((rune_size b (bytes_of s)).1 - 1) (bytes_of (html_escape s)) = take ((rune_size b (bytes_of s)).1 - 1) (bytes_of s) ∧
    (String.length t ≤ String.length s)%nat.
Proof.
  intros Hb. destruct (Z_lt_le_dec b 0x80) as [Hlow|Hhigh].
  { unfold rune_size. destruct (Z.ltb_spec b 128); [|lia]. split; [done|]. by exists s. }
  destruct (rune_size b (bytes_of s)) as [size ok] eqn:Hs. cbn [fst]. destruct ok.
  - apply rune_size_ok in Hs as (_ & Hlen & Hc & Hx); [|done].
    destruct (continuations_escape _ _ Hlen Hc) as (p & t & Hst & Hp & He).
    assert (length (bytes_of p) = size - 1)%nat as Hlp by by rewrite <-Hp.
    rewrite He, bytes_of_app. split; [rewrite <-Hp; apply Hx|]. exists t. split_and!.
    + rewrite Hst, bytes_of_app. by rewrite drop_app_length'.
    + by rewrite drop_app_length'.
    + rewrite take_app_length' by done. by rewrite Hp.
    + rewrite Hst, length_append. lia.
  - assert (size = 1)%nat as ->.
    { unfold rune_size in Hs. repeat case_match; congruence. }
    split; [|by exists s]. destruct (rune_size b (bytes_of (html_escape s))) as [size ok] eqn:He. destruct ok.
    + exfalso. apply rune_size_ok in He as (_ & Hlen & Hc & Hx); [|done].
      pose proof (continuations_unescape _ _ Hlen Hc) as Heq. specialize (Hx (drop (size - 1) (bytes_of s))).
      rewrite <-Heq, take_drop in Hx. congruence.
    + unfold rune_size in He. repeat case_match; congruence.
Qed.

Lemma hex4_string_bytes s l u :
  hex4 (bytes_of s) = Some (u, l) → ∃ r, l = bytes_of r ∧ hex4_string s = Some (u, r).
Proof.
  rewrite hex4_bytes. destruct (hex4_string s) as [[v r]|]; [|done]. cbn. intros [= <- <-]. by exists r.
Qed.

Lemma low_string_spec r v x :
  low_string r = Some (v, x) → ∃ y, r = String "\" (String "u" y) ∧ hex4_string y = Some (v, x).
Proof.
  unfold low_string. intros (r1 & ->%strip_some & (r2 & ->%strip_some & ([w z] & Hw & Hv)%bind_Some)%bind_Some)%bind_Some.
  destruct (_ && _); [|done]. injection Hv as -> ->. by exists r2.
Qed.

(** The three ways a piece of a literal is escaped: it stays, it is an escape already,
    or one is put in. The lemma holds of all shorter texts. *)
Definition same_unquoted (s : string) : Prop := ∀ n m,
  (String.length (html_escape s) ≤ n)%nat → (String.length s ≤ m)%nat →
  unquote n (bytes_of (html_escape s)) = unquote m (bytes_of s).

Definition shorter_same (s : string) : Prop :=
  ∀ t, (String.length t < String.length s)%nat → literal_body (bytes_of t) → same_unquoted t.

Lemma special_unquoted c t :
  shorter_same (String c t) → html_special c = true → literal_body (bytes_of (String c t)) → same_unquoted (String c t).
Proof.
  intros HP Hc Hbody n m Hn Hm. destruct (html_escape_front c t) as [[_ He] | [(a & b & x & _ & He & _) | [He _]]].
  2:{ destruct (special_hex c t Hc) as (_ & _ & Hlow & _). lia. }
  2:{ congruence. }
  rewrite He in Hn |- *. cbn [String.length] in Hn, Hm. destruct n as [|n]; [lia|]. destruct m as [|m]; [lia|].
  destruct (special_hex c (html_escape t) Hc) as (Hx & Hr & Hlow & Hne).
  rewrite !(bytes_of_cons "\"), !(bytes_of_cons "u"). change (byte_of "\") with 92. change (byte_of "u") with 117.
  rewrite (unquote_u _ (byte_of c) _ (bytes_of (html_escape t))) by (rewrite hex4_bytes, Hx; done).
  destruct (Z.leb_spec 55296 (byte_of c)); [lia|]. cbn [andb]. rewrite Hr.
  rewrite bytes_of_cons in Hbody |- *. apply body_plain in Hbody; [|apply byte_of_range|done].
  rewrite unquote_plain by done.
  assert (rune_size (byte_of c) (bytes_of t) = (1%nat, true)) as ->.
  { unfold rune_size. by destruct (Z.ltb_spec (byte_of c) 128); [|lia]. }
  cbn [fst snd]. change (1 - 1)%nat with 0%nat. rewrite take_0, drop_0. cbn [app]. f_equal.
  apply HP; [cbn; lia|done|lia|lia].
Qed.

Lemma separator_unquoted c a b t s :
  s = String c (String a (String b t)) → shorter_same s → byte_of c = 0xE2 → byte_of a = 0x80 → (byte_of b = 0xA8 ∨ byte_of b = 0xA9) →
  html_escape s = String "\" (String "u" (String "2" (String "0" (String "2" (String (hex_ascii (byte_of b mod 16)) (html_escape t)))))) →
  literal_body (bytes_of s) → same_unquoted s.
Proof.
  intros -> HP Hc Ha Hb He Hbody n m Hn Hm. rewrite He in Hn |- *. cbn [String.length] in Hn, Hm.
  destruct n as [|n]; [lia|]. destruct m as [|m]; [lia|]. destruct (separator_hex b (html_escape t) Hb) as (Hx & Hr).
  rewrite !(bytes_of_cons "\"), !(bytes_of_cons "u"). change (byte_of "\") with 92. change (byte_of "u") with 117.
  rewrite (unquote_u _ (0x2000 + 0x20 + (byte_of b - 0xA0)) _ (bytes_of (html_escape t))) by (rewrite hex4_bytes, Hx; done).
  destruct (Z.leb_spec 55296 (0x2000 + 0x20 + (byte_of b - 0xA0))); [lia|]. cbn [andb]. rewrite Hr.
  rewrite !bytes_of_cons in Hbody. rewrite !bytes_of_cons. rewrite Hc in Hbody |- *. rewrite Ha in Hbody |- *.
  rewrite unquote_plain by done.
  assert (rune_size 0xE2 (0x80 :: byte_of b :: bytes_of t) = (3%nat, true)) as Hsize by by destruct Hb as [-> | ->].
  rewrite Hsize. cbn [fst snd take drop Nat.sub app]. do 3 f_equal.
  do 3 (apply body_plain in Hbody; [|unfold is_byte; lia|lia]). apply HP; [cbn; lia|done|lia|lia].
Qed.

Lemma unicode_unquoted t s :
  s = String "\" (String "u" t) → shorter_same s → literal_body (bytes_of s) → same_unquoted s.
Proof.
  intros -> HP Hbody n m Hn Hm. rewrite (kept_escape "\") in Hn |- * by done. rewrite kept_keeps in Hn |- * by done.
  rewrite !bytes_of_cons in Hbody. rewrite !bytes_of_cons. change (byte_of "\") with 92 in *.
  change (byte_of "u") with 117 in *. unfold shorter_same in HP. cbn [String.length] in Hn, Hm, HP.
  destruct n as [|n]; [lia|]. destruct m as [|m]; [lia|].
  apply body_unicode in Hbody as (u & l & Hl & _ & Hbody & _). apply hex4_string_bytes in Hl as Hl'.
  destruct Hl' as (r & -> & Hr). pose proof (hex4_string_length _ _ _ Hr).
  assert (hex4_string (html_escape t) = Some (u, html_escape r)) as Hre by (rewrite hex4_string_escape, Hr; done).
  pose proof (hex4_string_length _ _ _ Hre).
  rewrite (unquote_u _ u _ (bytes_of (html_escape r))) by (rewrite hex4_bytes, Hre; done).
  rewrite (unquote_u _ u _ (bytes_of r)) by done.
  assert (unquote n (bytes_of (html_escape r)) = unquote m (bytes_of r)) as Hrest by (apply HP; [lia|done|lia|lia]).
  rewrite !low_surrogate_bytes, low_string_escape, Hrest. destruct ((55296 <=? u) && (u <? 57344)); [|done].
  destruct (low_string r) as [[v x]|] eqn:Hlow; [|done]. cbn [fmap option_fmap option_map escaped as_bytes fst snd].
  destruct (u <? 56320); [|done]. f_equal. apply low_string_spec in Hlow as (y & -> & Hy).
  rewrite !bytes_of_cons in Hbody. change (byte_of "\") with 92 in Hbody. change (byte_of "u") with 117 in Hbody.
  apply body_unicode in Hbody as (w & l & Hw & _ & Hbody & _). rewrite hex4_bytes, Hy in Hw. injection Hw as <- <-.
  pose proof (hex4_string_length _ _ _ Hy).
  assert (hex4_string (html_escape y) = Some (v, html_escape x)) as Hye by (rewrite hex4_string_escape, Hy; done).
  pose proof (hex4_string_length _ _ _ Hye).
  rewrite (kept_escape "\"), kept_keeps in * by done. cbn [String.length] in *.
  apply HP; [lia|done|lia|lia].
Qed.

Lemma simple_unquoted e t s :
  s = String "\" (String e t) → shorter_same s → e ≠ "u"%char → literal_body (bytes_of s) → same_unquoted s.
Proof.
  intros -> HP Hu Hbody n m Hn Hm. rewrite !bytes_of_cons in Hbody. change (byte_of "\") with 92 in Hbody.
  assert (byte_of e ≠ 117) as Hu' by (intros He; by apply (byte_of_inj e "u") in He).
  apply body_escape in Hbody as [He Hbody]; [|apply byte_of_range|done]. rewrite byte_ascii_of in He.
  rewrite (kept_escape "\"), simple_escape_keeps in Hn |- * by done. rewrite !bytes_of_cons.
  change (byte_of "\") with 92. cbn [String.length] in Hn, Hm. destruct n as [|n]; [lia|]. destruct m as [|m]; [lia|].
  rewrite !unquote_simple by done. f_equal. apply HP; [cbn; lia|done|lia|lia].
Qed.

Lemma plain_unquoted c t s :
  s = String c t → shorter_same s → c ≠ "\"%char → html_escape s = String c (html_escape t) → literal_body (bytes_of s) → same_unquoted s.
Proof.
  intros -> HP Hc He Hbody n m Hn Hm. rewrite He in Hn |- *. cbn [String.length] in Hn, Hm.
  destruct n as [|n]; [lia|]. destruct m as [|m]; [lia|]. rewrite !bytes_of_cons in Hbody. rewrite !bytes_of_cons.
  assert (byte_of c ≠ 92) as Hne by (intros Hx; by apply (byte_of_inj c "\") in Hx).
  rewrite !unquote_plain by done.
  destruct (rune_size_escape (byte_of c) t (byte_of_range c)) as (-> & x & Hd & Hde & Ht & Hlen). rewrite Ht, Hd, Hde.
  apply body_plain in Hbody; [|apply byte_of_range|done]. f_equal.
  assert (literal_body (bytes_of x)) as Hx.
  { rewrite <-Hd. destruct (rune_size (byte_of c) (bytes_of t)) as [size ok] eqn:Hs. cbn [fst] in *.
    destruct ok; [|assert (size = 1)%nat as -> by (unfold rune_size in Hs; repeat case_match; congruence); done].
    destruct (Z_lt_le_dec (byte_of c) 0x80) as [Hlow|Hhigh].
    - unfold rune_size in Hs. destruct (Z.ltb_spec (byte_of c) 128); [|lia]. by injection Hs as <-.
    - apply rune_size_ok in Hs as (_ & _ & Hf & _); [|done]. by apply body_drop. }
  assert (String.length (html_escape x) ≤ String.length (html_escape t))%nat.
  { rewrite <-!length_bytes_of, <-Hde, length_drop. lia. }
  apply HP; [cbn; lia|done|lia|lia].
Qed.

Lemma unquote_escape s : literal_body (bytes_of s) → same_unquoted s.
Proof.
  induction (Nat.lt_wf_0_projected String.length s) as [s _ IH]. intros Hbody.
  destruct s as [|c s]; [by intros [] []|].
  assert (shorter_same (String c s)) as HP by (intros t Ht Hb; by apply IH).
  destruct (html_escape_front c s) as [[Hc _] | [(a & b & t & -> & Hc & Ha & Hb & He) | [Hc He]]].
  - by apply special_unquoted.
  - by eapply separator_unquoted.
  - destruct (Ascii.eqb_spec c "\") as [->|Hne]; [|by eapply plain_unquoted].
    destruct s as [|e s]; [done|]. destruct (Ascii.eqb_spec e "u") as [->|Hu].
    + by eapply unicode_unquoted.
    + by eapply simple_unquoted.
Qed.

(** ** Escaped texts *)

Lemma html_escape_app q a r : byte_of a < 128 → html_escape (q +:+ String a r) = (html_escape q +:+ html_escape (String a r)).
Proof.
  intros Ha. induction (Nat.lt_wf_0_projected String.length q) as [q _ IH].
  destruct q as [|c q]; [done|]. rewrite append_cons.
  destruct (html_escape_front c q) as [[Hc He] | [(x & y & t & -> & Hc & Hx & Hy & He) | [Hc He]]]; rewrite He.
  - destruct (html_escape_front c (q +:+ String a r)) as [[_ ->] | [(x & y & t & _ & Hx & _) | [Hx _]]].
    + rewrite IH by (cbn; lia). done.
    + destruct (special_hex c "" Hc) as (_ & _ & Hlow & _). lia.
    + congruence.
  - rewrite !append_cons. cbn [html_escape]. destruct (html_special c) eqn:Hs.
    { destruct (special_hex c "" Hs) as (_ & _ & Hlow & _). lia. }
    rewrite Hc, Hx. assert ((byte_of y =? 168) || (byte_of y =? 169) = true) as -> by lia. cbn [Z.eqb Pos.eqb andb].
    fold html_escape. rewrite IH by (cbn; lia). done.
  - destruct (html_escape_front c (q +:+ String a r)) as [[Hs _] | [(x & y & t & Heq & Hx & Hb & Hy & _) | [_ ->]]].
    + congruence.
    + exfalso. destruct q as [|x' [|y' q]]; cbn in Heq.
      * injection Heq as -> _. lia.
      * injection Heq as -> -> _. lia.
      * injection Heq as -> -> _. cbn [html_escape] in He. rewrite Hc, Hx, Hb in He.
        assert ((byte_of y =? 168) || (byte_of y =? 169) = true) as Hyy by lia. rewrite Hyy in He. cbn in He.
        injection He as <- _. by vm_compute in Hx.
    + rewrite IH by (cbn; lia). done.
Qed.

(** The characters of numbers. *)
Definition number_part (c : ascii) : bool :=
  is_digit c || existsb (Ascii.eqb c) ["-"; "+"; "."; "e"; "E"]%char.

Definition cuts_number (f : string → option string) : Prop :=
  ∀ s r, f s = Some r → ∃ p, s = (p +:+ r) ∧ forallb number_part (list_ascii_of_string p) = true.

Lemma list_ascii_of_string_app s t : list_ascii_of_string (s +:+ t) = list_ascii_of_string s ++ list_ascii_of_string t.
Proof. induction s as [|c s IH]; [done|]. rewrite append_cons. cbn. by rewrite IH. Qed.

Lemma cuts_bind f g : cuts_number f → cuts_number g → cuts_number (λ s, f s ≫= g).
Proof.
  intros Hf Hg s r (x & (p & -> & Hp)%Hf & (q & -> & Hq)%Hg)%bind_Some.
  exists (p +:+ q). by rewrite append_assoc, list_ascii_of_string_app, forallb_app, Hp, Hq.
Qed.

Lemma cuts_char c f : number_part c = true → cuts_number f → ∀ s r, f s = Some r → ∃ p, String c s = (p +:+ r) ∧ forallb number_part (list_ascii_of_string p) = true.
Proof.
  intros Hc Hf s r (p & -> & Hp)%Hf. exists (String c p). split; [done|]. cbn. by rewrite Hc.
Qed.

Lemma skip_digits_cut s : ∃ p, s = (p +:+ skip_digits s) ∧ forallb number_part (list_ascii_of_string p) = true.
Proof.
  induction s as [|c s (p & Hp & Hf)]; [by exists ""%string|]. cbn. destruct (is_digit c) eqn:Hc; [|by exists ""%string].
  exists (String c p). rewrite append_cons, <-Hp. split; [done|]. cbn. unfold number_part at 1. by rewrite Hc.
Qed.

Lemma digits1_cut : cuts_number digits1.
Proof.
  intros [|c s] r; [done|]. cbn. destruct (is_digit c) eqn:Hc; [|done]. intros [= <-].
  destruct (skip_digits_cut s) as (p & Hp & Hf). exists (String c p). rewrite append_cons, <-Hp. split; [done|].
  cbn. unfold number_part at 1. by rewrite Hc.
Qed.

Lemma sign_cut : cuts_number (λ s, digits1 (skip_sign s)).
Proof.
  intros s r. unfold skip_sign. destruct (strip "+" s) as [x|] eqn:E1.
  { apply strip_some in E1 as ->. by apply cuts_char; [|apply digits1_cut]. }
  destruct (strip "-" s) as [x|] eqn:E2; cbn [default from_option]; [|apply digits1_cut].
  apply strip_some in E2 as ->. by apply cuts_char; [|apply digits1_cut].
Qed.

Lemma skip_number_cut : cuts_number skip_number.
Proof.
  assert (cuts_number skip_int) as Hi.
  { intros s r. unfold skip_int. destruct (strip "0" s) as [x|] eqn:E; [|apply digits1_cut].
    apply strip_some in E as ->. intros [= <-]. by exists "0"%string. }
  assert (cuts_number skip_frac) as Hf.
  { intros s r. unfold skip_frac. destruct (strip "." s) as [x|] eqn:E.
    - apply strip_some in E as ->. by apply cuts_char; [|apply digits1_cut].
    - intros [= <-]. by exists ""%string. }
  assert (cuts_number skip_exp) as He.
  { intros s r. unfold skip_exp. destruct (strip "e" s) as [x|] eqn:E1.
    { apply strip_some in E1 as ->. by apply (cuts_char _ (λ s, digits1 (skip_sign s))); [|apply sign_cut]. }
    destruct (strip "E" s) as [x|] eqn:E2.
    - apply strip_some in E2 as ->. by apply (cuts_char _ (λ s, digits1 (skip_sign s))); [|apply sign_cut].
    - intros [= <-]. by exists ""%string. }
  assert (cuts_number (λ s, skip_int s ≫= λ r, skip_frac r ≫= skip_exp)) as Hall
    by by apply cuts_bind; [|apply cuts_bind].
  intros s r. unfold skip_number. destruct (strip "-" s) as [x|] eqn:E; cbn [default from_option]; [|apply Hall].
  apply strip_some in E as ->. by apply (cuts_char _ (λ s, skip_int s ≫= λ r, skip_frac r ≫= skip_exp)).
Qed.

Lemma number_part_kept c : number_part c = true → kept c = true.
Proof.
  unfold number_part. rewrite orb_true_iff. intros [Hc|Hc]; [by apply is_digit_kept|]. cbn in Hc.
  rewrite !orb_true_iff, !Ascii.eqb_eq in Hc. by destruct Hc as [->|[->|[->|[->|[->|]]]]].
Qed.

Lemma html_escape_kept p r : forallb kept (list_ascii_of_string p) = true → html_escape (p +:+ r) = (p +:+ html_escape r).
Proof.
  induction p as [|c p IH]; [done|]. cbn [list_ascii_of_string forallb]. intros [Hc Hp]%andb_true_iff.
  rewrite !append_cons, kept_keeps by done. by rewrite IH.
Qed.

(** A flat value that is no string is written with these characters or letters. *)
Lemma flat_kept c s r :
  (c =? quote_byte)%char = false → skip_flat (String c s) = Some r →
  ∃ p, String c s = (p +:+ r) ∧ forallb kept (list_ascii_of_string p) = true.
Proof.
  intros Hq. unfold skip_flat. rewrite Hq.
  assert (∀ w, forallb kept (list_ascii_of_string w) = true → skip_literal w (String c s) = Some r →
    ∃ p, String c s = (p +:+ r) ∧ forallb kept (list_ascii_of_string p) = true) as Hlit.
  { intros w Hw (Hs & _)%skip_literal_split. by exists w. }
  destruct (c =? "t")%char; [by apply Hlit|]. destruct (c =? "f")%char; [by apply Hlit|].
  destruct (c =? "n")%char; [by apply Hlit|]. destruct (_ || _); [|done].
  intros (p & Hp & Hf)%skip_number_cut. exists p. split; [done|]. rewrite forallb_forall in Hf |- *.
  intros x Hx. by apply number_part_kept, Hf.
Qed.

Definition literal_of (q : string) : string := String quote_byte (q +:+ String quote_byte "").

Lemma literal_cut q r : before (String quote_byte (q +:+ String quote_byte r)) r = literal_of q.
Proof.
  assert (String quote_byte (q +:+ String quote_byte r) = (literal_of q +:+ r)) as -> by
    (unfold literal_of; by rewrite append_cons, append_assoc).
  apply before_append.
Qed.

Lemma unquote_literal_of q : unquote_literal (literal_of q) = unquote_string q.
Proof. unfold unquote_literal, literal_of. by rewrite substring_literal. Qed.

Lemma literal_escape s r :
  skip_str s = Some r →
  unquote_literal (before (String quote_byte (html_escape s)) (html_escape r)) =
  unquote_literal (before (String quote_byte s) r).
Proof.
  intros (q & -> & Hq)%(skip_str_body _ _ _ (le_n _)). rewrite html_escape_app by done.
  rewrite (kept_keeps quote_byte) by done. rewrite !literal_cut, !unquote_literal_of. unfold unquote_string.
  f_equal. apply unquote_escape; [|done|done]. unfold literal_body. by rewrite string_of_bytes_of_string.
Qed.

Lemma read_flat_escape s t r : read_flat s = Some (t, r) → read_flat (html_escape s) = Some (t, html_escape r).
Proof.
  unfold read_flat. intros (x & Hx & [= <- <-])%bind_Some. rewrite (skip_flat_escape _ _ Hx). cbn [mbind option_bind].
  do 2 f_equal. destruct s as [|c s]; [done|]. destruct (c =? quote_byte)%char eqn:Hq.
  - apply Ascii.eqb_eq in Hq as ->. rewrite (kept_keeps quote_byte) by done.
    assert (skip_str s = Some x) as Hs.
    { cbn [skip_flat] in Hx. change ((quote_byte =? quote_byte)%char) with true in Hx. by cbv iota in Hx. }
    apply literal_escape in Hs as Hlit. apply (skip_str_body _ _ _ (le_n _)) in Hs as (q & -> & _).
    rewrite html_escape_app in Hlit |- * by done. rewrite (kept_keeps quote_byte x) in Hlit |- * by done.
    rewrite !literal_cut in *. assert (∀ y, flat_tree (literal_of y) = JString (unquote_literal (literal_of y))) as Hflat by done.
    by rewrite !Hflat, Hlit.
  - destruct (flat_kept _ _ _ Hq Hx) as (p & Hp & Hk). rewrite Hp, html_escape_kept by done. by rewrite !before_append.
Qed.

Lemma key_literal_escape s rest :
  strip quote_byte s ≫= skip_str = Some rest →
  strip quote_byte (html_escape s) ≫= skip_str = Some (html_escape rest) ∧
  unquote_literal (before (html_escape s) (html_escape rest)) = unquote_literal (before s rest).
Proof.
  intros (q & ->%strip_some & Hq)%bind_Some. rewrite (kept_keeps quote_byte) by done. rewrite strip_cons.
  split; [by apply skip_str_escape | by apply literal_escape].
Qed.

Lemma read_escape_all fuel :
  (∀ s t r, read_value fuel s = Some (t, r) → read_value fuel (html_escape s) = Some (t, html_escape r)) ∧
  (∀ seen s ms r, read_members fuel seen s = Some (ms, r) → read_members fuel seen (html_escape s) = Some (ms, html_escape r)) ∧
  (∀ s l r, read_elements fuel s = Some (l, r) → read_elements fuel (html_escape s) = Some (l, html_escape r)).
Proof.
  assert (∀ x s r, strip x s = Some r → kept x = true → strip x (html_escape s) = Some (html_escape r)) as Hsome.
  { intros x s r Hs Hx. by rewrite strip_escape, Hs. }
  assert (∀ x s, strip x s = None → kept x = true → strip x (html_escape s) = None) as Hnone.
  { intros x s Hs Hx. by rewrite strip_escape, Hs. }
  induction fuel as [|fuel (IHv & IHm & IHe)]; [done|]. split_and!.
  - intros s t r Hs. cbn [read_value] in Hs |- *. destruct (strip "{" s) as [s'|] eqn:E1.
    { rewrite (Hsome _ _ _ E1 eq_refl), skip_ws_escape. destruct (strip "}" (skip_ws s')) as [s2|] eqn:E2.
      - rewrite (Hsome _ _ _ E2 eq_refl). by injection Hs as <- <-.
      - rewrite (Hnone _ _ E2 eq_refl). apply bind_Some in Hs as ([ms x] & Hx & [= <- <-]). by rewrite (IHm _ _ _ _ Hx). }
    rewrite (Hnone _ _ E1 eq_refl). destruct (strip "[" s) as [s'|] eqn:E2.
    { rewrite (Hsome _ _ _ E2 eq_refl), skip_ws_escape. destruct (strip "]" (skip_ws s')) as [s2|] eqn:E3.
      - rewrite (Hsome _ _ _ E3 eq_refl). by injection Hs as <- <-.
      - rewrite (Hnone _ _ E3 eq_refl). apply bind_Some in Hs as ([l x] & Hx & [= <- <-]). by rewrite (IHe _ _ _ Hx). }
    rewrite (Hnone _ _ E2 eq_refl). by apply read_flat_escape.
  - intros seen s ms r Hs. cbn [read_members] in Hs |- *.
    apply bind_Some in Hs as (rest & Hrest & (v & Hv & Hs)%bind_Some).
    apply key_literal_escape in Hrest as [-> Hkey]. cbn [mbind option_bind]. rewrite (skip_key_escape _ _ Hv).
    cbn [mbind option_bind]. rewrite Hkey. case_bool_decide; [done|].
    apply bind_Some in Hs as ([t x] & Hx & Hs). rewrite (IHv _ _ _ Hx). cbn [mbind option_bind].
    rewrite skip_ws_escape. destruct (strip "," (skip_ws x)) as [r2|] eqn:Hc.
    + rewrite (Hsome _ _ _ Hc eq_refl), skip_ws_escape. apply bind_Some in Hs as ([ms' y] & Hy & [= <- <-]).
      by rewrite (IHm _ _ _ _ Hy).
    + rewrite (Hnone _ _ Hc eq_refl). apply bind_Some in Hs as (y & Hy & [= <- <-]). by rewrite (Hsome _ _ _ Hy eq_refl).
  - intros s l r Hs. cbn [read_elements] in Hs |- *.
    apply bind_Some in Hs as ([t x] & Hx & Hs). rewrite (IHv _ _ _ Hx). cbn [mbind option_bind].
    rewrite skip_ws_escape. destruct (strip "," (skip_ws x)) as [r2|] eqn:Hc.
    + rewrite (Hsome _ _ _ Hc eq_refl), skip_ws_escape. apply bind_Some in Hs as ([l' y] & Hy & [= <- <-]).
      by rewrite (IHe _ _ _ Hy).
    + rewrite (Hnone _ _ Hc eq_refl). apply bind_Some in Hs as (y & Hy & [= <- <-]). by rewrite (Hsome _ _ _ Hy eq_refl).
Qed.

Lemma html_escape_empty s : html_escape s = ""%string → s = ""%string.
Proof. destruct s as [|c s]; [done|]. by destruct (html_escape_cases c s) as [[_ ->] | (t & _ & ->)]. Qed.

Lemma read_json_escape s t : read_json s = Some t → read_json (html_escape s) = Some t.
Proof.
  unfold read_json at 1. intros ([u r] & Hu & Hr)%bind_Some. destruct (String.eqb_spec (skip_ws r) ""); [|done].
  injection Hr as ->. apply (proj1 (read_escape_all _)) in Hu.
  eapply read_json_complete; [rewrite skip_ws_escape; exact Hu|]. rewrite skip_ws_escape. by replace (skip_ws r) with ""%string.
Qed.

(** ** Compact texts *)

Abbreviation compact := (drop_ws false false).

Lemma compact_ws s : compact (skip_ws s) = compact s.
Proof.
  induction s as [|c s IH]; [done|]. cbn [skip_ws]. destruct (is_ws c) eqn:Hc; [|done].
  rewrite IH. cbn [drop_ws]. by rewrite Hc.
Qed.

Lemma compact_no_ws s : skip_ws (compact s) = compact s.
Proof.
  induction s as [|c s IH]; [done|]. cbn [drop_ws]. destruct (is_ws c) eqn:Hc; [done|]. by apply skip_ws_cons.
Qed.

Lemma compact_plain c s : plain c = true → compact (String c s) = String c (compact s).
Proof. unfold plain. intros [Hw%negb_true_iff Hq%negb_true_iff]%andb_true_iff. cbn [drop_ws]. by rewrite Hw, Hq. Qed.

Lemma compact_strip c s r : plain c = true → strip c s = Some r → strip c (compact s) = Some (compact r).
Proof. intros Hc ->%strip_some. rewrite compact_plain by done. by rewrite strip_cons. Qed.


Lemma compact_front s : compact s = ""%string ∨ ∃ c x y, skip_ws s = String c x ∧ compact s = String c y.
Proof.
  rewrite <-compact_ws. induction s as [|c s IH]; [by left|]. cbn [skip_ws].
  destruct (is_ws c) eqn:Hc; [done|]. right. cbn [drop_ws]. rewrite Hc. by repeat eexists.
Qed.

Lemma compact_strip_none c s : strip c (skip_ws s) = None → strip c (compact s) = None.
Proof. destruct (compact_front s) as [->|(d & x & y & -> & ->)]; [done|]. cbn [strip]. by destruct (d =? c)%char. Qed.

Lemma compact_strip_ws c s r : plain c = true → strip c (skip_ws s) = Some r → strip c (compact s) = Some (compact r).
Proof. intros Hc Hs. rewrite <-compact_ws. by apply compact_strip. Qed.

(** A value is followed by a bracket or a comma. *)
Lemma separator_ends_number c s r :
  plain c = true → is_digit c || (c =? ".")%char || (c =? "e")%char || (c =? "E")%char = false →
  strip c (skip_ws s) = Some r → ends_number (compact s).
Proof.
  intros Hc He Hs. apply compact_strip_ws in Hs; [|done]. apply strip_some in Hs as ->.
  rewrite !orb_false_iff in He. by destruct He as [[[? ?] ?] ?].
Qed.

Lemma key_compact s rest v :
  strip quote_byte s ≫= skip_str = Some rest → skip_key s = Some v →
  strip quote_byte (compact s) ≫= skip_str = Some (compact rest) ∧
  before (compact s) (compact rest) = before s rest ∧ skip_key (compact s) = Some (compact v).
Proof.
  intros (x & ->%strip_some & Hx)%bind_Some. unfold skip_key. rewrite strip_cons. cbn [mbind option_bind].
  rewrite Hx. cbn [mbind option_bind]. intros (y & Hy & [= <-])%bind_Some.
  apply (skip_str_split _ _ _ (le_n _)) in Hx as (p & -> & Hr & Hd).
  assert (compact (String quote_byte (p +:+ rest)) = String quote_byte (p +:+ compact rest)) as ->.
  { cbn [drop_ws]. change (is_ws quote_byte) with false. change ((quote_byte =? quote_byte)%char) with true. cbv iota.
    by rewrite Hd. }
  rewrite strip_cons. cbn [mbind option_bind]. rewrite Hr by done. cbn [mbind option_bind].
  rewrite compact_no_ws, (compact_strip_ws ":" _ _ eq_refl Hy). cbn [mbind option_bind].
  rewrite compact_ws, compact_no_ws. split_and!; [done| |done].
  rewrite <-!append_cons. by rewrite !before_append.
Qed.

Lemma read_compact_all fuel :
  (∀ s t r, read_value fuel s = Some (t, r) → ends_number (compact r) → read_value fuel (compact s) = Some (t, compact r)) ∧
  (∀ seen s ms r, read_members fuel seen s = Some (ms, r) → read_members fuel seen (compact s) = Some (ms, compact r)) ∧
  (∀ s l r, read_elements fuel s = Some (l, r) → read_elements fuel (compact s) = Some (l, compact r)).
Proof.
  induction fuel as [|fuel (IHv & IHm & IHe)]; [done|]. split_and!.
  - intros s t r Hs He. cbn [read_value] in Hs |- *. destruct (strip "{" s) as [s'|] eqn:E1.
    { rewrite (compact_strip "{" _ _ eq_refl E1), compact_no_ws. destruct (strip "}" (skip_ws s')) as [s2|] eqn:E2.
      - rewrite (compact_strip_ws "}" _ _ eq_refl E2). by injection Hs as <- <-.
      - rewrite (compact_strip_none _ _ E2). apply bind_Some in Hs as ([ms x] & Hx%IHm & [= <- <-]).
        rewrite compact_ws in Hx. by rewrite Hx. }
    destruct (strip "[" s) as [s'|] eqn:E2.
    { apply strip_some in E2 as ->. rewrite compact_plain by done. cbn [strip]. cbn [Ascii.eqb Bool.eqb].
      rewrite compact_no_ws. destruct (strip "]" (skip_ws s')) as [s2|] eqn:E3.
      - rewrite (compact_strip_ws "]" _ _ eq_refl E3). by injection Hs as <- <-.
      - rewrite (compact_strip_none _ _ E3). apply bind_Some in Hs as ([l x] & Hx%IHe & [= <- <-]).
        rewrite compact_ws in Hx. by rewrite Hx. }
    unfold read_flat in Hs. apply bind_Some in Hs as (x & Hx & [= <- <-]).
    apply skip_flat_piece in Hx as Hp. destruct Hp as (p & -> & Hc & Hst & Hr). rewrite Hc.
    destruct (strip "{" (p +:+ compact x)) as [y|] eqn:F1.
    { destruct p as [|a p]; [done|]. rewrite append_cons in E1, F1. cbn [strip] in E1, F1. by destruct (_ =? _)%char. }
    destruct (strip "[" (p +:+ compact x)) as [y|] eqn:F2.
    { destruct p as [|a p]; [done|]. rewrite append_cons in E2, F2. cbn [strip] in E2, F2. by destruct (_ =? _)%char. }
    unfold read_flat. rewrite Hr by done. cbn [mbind option_bind]. by rewrite !before_append.
  - intros seen s ms r Hs. cbn [read_members] in Hs |- *.
    apply bind_Some in Hs as (rest & Hrest & (v & Hv & Hs)%bind_Some).
    destruct (key_compact _ _ _ Hrest Hv) as (-> & Hb & ->). cbn [mbind option_bind]. rewrite Hb.
    case_bool_decide; [done|]. apply bind_Some in Hs as ([t x] & Hx & Hs).
    destruct (strip "," (skip_ws x)) as [z|] eqn:Hc.
    + rewrite (IHv _ _ _ Hx) by (eapply separator_ends_number; [| |exact Hc]; done). cbn [mbind option_bind].
      rewrite compact_no_ws, (compact_strip_ws "," _ _ eq_refl Hc), compact_no_ws.
      apply bind_Some in Hs as ([ms' y] & Hy%IHm & [= <- <-]). rewrite compact_ws in Hy. by rewrite Hy.
    + apply bind_Some in Hs as (y & Hy & [= <- <-]).
      rewrite (IHv _ _ _ Hx) by (eapply separator_ends_number; [| |exact Hy]; done). cbn [mbind option_bind].
      by rewrite compact_no_ws, (compact_strip_none _ _ Hc), (compact_strip_ws "}" _ _ eq_refl Hy).
  - intros s l r Hs. cbn [read_elements] in Hs |- *. apply bind_Some in Hs as ([t x] & Hx & Hs).
    destruct (strip "," (skip_ws x)) as [z|] eqn:Hc.
    + rewrite (IHv _ _ _ Hx) by (eapply separator_ends_number; [| |exact Hc]; done). cbn [mbind option_bind].
      rewrite compact_no_ws, (compact_strip_ws "," _ _ eq_refl Hc), compact_no_ws.
      apply bind_Some in Hs as ([l' y] & Hy%IHe & [= <- <-]). rewrite compact_ws in Hy. by rewrite Hy.
    + apply bind_Some in Hs as (y & Hy & [= <- <-]).
      rewrite (IHv _ _ _ Hx) by (eapply separator_ends_number; [| |exact Hy]; done). cbn [mbind option_bind].
      by rewrite compact_no_ws, (compact_strip_none _ _ Hc), (compact_strip_ws "]" _ _ eq_refl Hy).
Qed.

Lemma compact_length s : (String.length (compact s) ≤ String.length s)%nat.
Proof. pose proof (drop_ws_length false false s). unfold str_len in *. lia. Qed.

(** What [json.Marshal] writes for a raw message is read as the message was. *)
Lemma read_json_encode_raw raw text t : encode_raw raw = Some text → read_json raw = Some t → read_json text = Some t.
Proof.
  unfold encode_raw, json_compact. destruct (json_valid raw); [|done]. intros [= <-] Ht. apply read_json_escape.
  unfold read_json in Ht. apply bind_Some in Ht as ([u r] & Hu & Hr). destruct (String.eqb_spec (skip_ws r) ""); [|done].
  injection Hr as ->. assert (compact r = ""%string) as Hcr by (rewrite <-compact_ws; by replace (skip_ws r) with ""%string).
  apply (proj1 (read_compact_all _)) in Hu; [|by rewrite Hcr]. rewrite compact_ws, Hcr in Hu.
  eapply read_json_complete; [rewrite compact_no_ws; exact Hu|done].
Qed.

(** ** Values are trimmed

    A value ends in a visible ASCII character, and starts with one. *)

Definition visible (c : ascii) : bool := (33 <=? byte_of c) && (byte_of c <? 127).

Definition ends_visibly (s r : string) : Prop := ∃ p c, s = (p +:+ String c r) ∧ visible c = true.

Lemma ends_prefix p s r : ends_visibly s r → ends_visibly (p +:+ s) r.
Proof. intros (q & c & -> & Hc). exists (p +:+ q), c. by rewrite append_assoc. Qed.

Lemma ends_strip c s r : visible c = true → strip c (skip_ws s) = Some r → ends_visibly s r.
Proof.
  intros Hc Hs. destruct (skip_ws_split s) as (w & -> & _). apply ends_prefix. apply strip_some in Hs as ->.
  by exists ""%string, c.
Qed.

Lemma ends_ws s r : ends_visibly (skip_ws s) r → ends_visibly s r.
Proof. destruct (skip_ws_split s) as (w & Hw & _). rewrite Hw at 2. apply ends_prefix. Qed.

Lemma ends_visible_text p r :
  p ≠ ""%string → forallb visible (list_ascii_of_string p) = true → ends_visibly (p +:+ r) r.
Proof.
  induction p as [|c p IH]; [done|]. intros _. cbn [list_ascii_of_string forallb]. intros [Hc Hp]%andb_true_iff.
  destruct p as [|d p]; [by exists ""%string, c|]. destruct IH as (q & e & Hq & He); [done|done|].
  exists (String c q), e. rewrite append_cons, Hq. done.
Qed.

Lemma number_part_visible c : number_part c = true → visible c = true.
Proof.
  unfold number_part, visible. rewrite orb_true_iff. intros [Hc|Hc]; [unfold is_digit in Hc; lia|]. cbn in Hc.
  rewrite !orb_true_iff, !Ascii.eqb_eq in Hc. by destruct Hc as [->|[->|[->|[->|[->|]]]]].
Qed.

Lemma skip_flat_ends s r : skip_flat s = Some r → ends_visibly s r.
Proof.
  intros Hs. pose proof (skip_flat_shorter _ _ Hs) as Hlen. destruct s as [|c s]; [done|]. revert Hs. unfold skip_flat.
  destruct (c =? quote_byte)%char eqn:Hq.
  { intros (q & -> & _)%(skip_str_body _ _ _ (le_n _)). by exists (String c q), quote_byte. }
  assert (∀ p, String c s = (p +:+ r) → forallb visible (list_ascii_of_string p) = true → ends_visibly (String c s) r) as Htext.
  { intros p Hp Hv. rewrite Hp in Hlen |- *. apply ends_visible_text; [|done]. intros ->. rewrite append_nil in Hlen. lia. }
  assert (∀ w, forallb visible (list_ascii_of_string w) = true → skip_literal w (String c s) = Some r →
    ends_visibly (String c s) r) as Hlit.
  { intros w Hw (Hp & _)%skip_literal_split. by eapply Htext. }
  destruct (c =? "t")%char; [by apply Hlit|]. destruct (c =? "f")%char; [by apply Hlit|].
  destruct (c =? "n")%char; [by apply Hlit|]. destruct (_ || _); [|done].
  intros (p & Hp & Hf)%skip_number_cut. apply (Htext p Hp). rewrite forallb_forall in Hf |- *.
  intros x Hx. by apply number_part_visible, Hf.
Qed.

Lemma skip_ends fuel :
  (∀ d s r, skip_value fuel d s = Some r → ends_visibly s r) ∧
  (∀ d s r, skip_members fuel d s = Some r → ends_visibly s r) ∧
  (∀ d s r, skip_elements fuel d s = Some r → ends_visibly s r).
Proof.
  assert (∀ c s r, ends_visibly s r → ends_visibly (String c s) r) as Hcons
    by (intros c s r; apply (ends_prefix (String c ""))).
  induction fuel as [|fuel (IHv & IHm & IHe)]; [done|]. split_and!; intros d s r Hs; cbn in Hs.
  - destruct (strip "{" s) as [x|] eqn:E1.
    { apply strip_some in E1 as ->. apply Hcons. destruct (d <=? 0); [done|].
      destruct (strip "}" (skip_ws x)) as [y|] eqn:E2; [injection Hs as <-; by apply (ends_strip "}")|].
      apply ends_ws. by eapply IHm. }
    destruct (strip "[" s) as [x|] eqn:E2; [|by apply skip_flat_ends].
    apply strip_some in E2 as ->. apply Hcons. destruct (d <=? 0); [done|].
    destruct (strip "]" (skip_ws x)) as [y|] eqn:E3; [injection Hs as <-; by apply (ends_strip "]")|].
    apply ends_ws. by eapply IHe.
  - apply bind_Some in Hs as (v & (p & c & -> & _)%skip_key_split & (r1 & Hv & Hs)%bind_Some). apply ends_prefix.
    apply (proj1 (skip_scanned fuel)) in Hv as (q & c' & -> & _). apply ends_prefix.
    destruct (strip "," (skip_ws r1)) as [r2|] eqn:Hc; [|by apply (ends_strip "}")].
    destruct (skip_ws_split r1) as (w & -> & _). apply ends_prefix. apply strip_some in Hc as ->. apply Hcons.
    apply ends_ws. by eapply IHm.
  - apply bind_Some in Hs as (r1 & Hv & Hs).
    apply (proj1 (skip_scanned fuel)) in Hv as (q & c' & -> & _). apply ends_prefix.
    destruct (strip "," (skip_ws r1)) as [r2|] eqn:Hc; [|by apply (ends_strip "]")].
    destruct (skip_ws_split r1) as (w & -> & _). apply ends_prefix. apply strip_some in Hc as ->. apply Hcons.
    apply ends_ws. by eapply IHe.
Qed.

Lemma visible_no_space rev c l : visible c = true → starts_space rev (c :: l) = false.
Proof.
  unfold visible. intros Hc. unfold starts_space, space1, space2, space3. destruct l as [|d [|e l]]; destruct rev; lia.
Qed.

Lemma value_trimmed d v : value_at d v → TrimSpace v = v.
Proof.
  intros Hv. pose proof (value_at_reads _ _ Hv) as [Hst _]. destruct Hv as (fuel & Hv).
  apply (proj1 (skip_ends fuel)) in Hv as (p & c & Hp & Hc). unfold TrimSpace, trim_bytes.
  assert (trim_front false (list_ascii_of_string v) = list_ascii_of_string v) as ->.
  { destruct v as [|a v]; [done|]. apply trim_front_id, visible_no_space. cbn in Hst. unfold value_start in Hst.
    rewrite !orb_true_iff, !Ascii.eqb_eq in Hst.
    destruct Hst as [[[[[[[-> | ->] | ->] | ->] | ->] | ->] | ->] | Hd]; [done..|]. unfold is_digit in Hd. unfold visible. lia. }
  rewrite trim_front_id, rev_involutive; [apply string_of_list_ascii_of_string|].
  rewrite Hp, list_ascii_of_string_app, rev_app_distr. by apply visible_no_space.
Qed.
