(* ===== verification/BigRat.v ===== *)
(** * Fractions as [math/big] reads them

    [big.Rat.SetString]: a quotient of two integers, each with its own base
    prefix, or a number with a fraction and an exponent; digits may be separated
    by single underscores. *)

From S2P Require Import Prelude Encoding.

(** ** Digits *)

Definition digit_value (b : Z) : Z :=
  if (48 <=? b) && (b <=? 57) then b - 48
  else if (97 <=? b) && (b <=? 122) then b - 87
  else if (65 <=? b) && (b <=? 90) then b - 55 else 63.

(** What was seen last: nothing yet or the point, a digit, or a separator. *)
Inductive Seen := SeenOther | SeenDigit | SeenSeparator.
#[export] Instance Seen_eq_dec : EqDecision Seen.
Proof. solve_decision. Defined.

Record Scan := {
  sc_value : Z;
  sc_count : Z;             (* digits so far *)
  sc_point : option Z;      (* digits before the point *)
  sc_seen : Seen;
  sc_bad : bool;            (* a separator not between digits *)
}.

(** The loop of [nat.scan] in base [b]; [frac] tells whether a point may come. *)
Fixpoint scan_digits (b : Z) (frac : bool) (s : Scan) (l : list Z) : Scan * list Z :=
  let 'Build_Scan v n p seen bad := s in
  match l with
  | [] => (s, [])
  | c :: r =>
      if (c =? 46) && frac
      then scan_digits b false (Build_Scan v n (Some n) SeenOther (bad || bool_decide (seen = SeenSeparator))) r
      else if c =? 95
      then scan_digits b frac (Build_Scan v n p SeenSeparator (bad || negb (bool_decide (seen = SeenDigit)))) r
      else if digit_value c <? b
      then scan_digits b frac (Build_Scan (v * b + digit_value c) (n + 1) p SeenDigit bad) r
      else (s, l)
  end.

(** [nat.scan] with base 0: the value, the base, the number of digits (minus that
    of the fraction, if there is a point) and what is left. *)
Definition scan_nat (frac : bool) (l : list Z) : option (Z * Z * Z * list Z) :=
  let start := Build_Scan 0 0 None SeenOther false in
  let zero := Build_Scan 0 0 None SeenDigit false in
  let '(b, octal, s, l) :=
    match l with
    | 48 :: c :: r =>
        if (c =? 98) || (c =? 66) then (2, false, zero, r)
        else if (c =? 111) || (c =? 79) then (8, false, zero, r)
        else if (c =? 120) || (c =? 88) then (16, false, zero, r)
        else if frac then (10, false, Build_Scan 0 1 None SeenDigit false, c :: r)
        else (8, true, zero, c :: r)
    | 48 :: r => (10, false, Build_Scan 0 1 None SeenDigit false, r)
    | _ => (10, false, start, l)
    end in
  let '(s, r) := scan_digits b frac s l in
  if sc_bad s || bool_decide (sc_seen s = SeenSeparator) then None
  else if sc_count s =? 0 then if octal then Some (0, 10, 1, r) else None
  else Some (sc_value s, b, match sc_point s with Some p => p - sc_count s | None => sc_count s end, r).

(** [Int.SetString] with base 0. *)
Definition scan_int (l : list Z) : option Z :=
  let '(neg, l) := match l with 45 :: r => (true, r) | 43 :: r => (false, r) | _ => (false, l) end in
  '(v, _, _, r) ← scan_nat false l;
  match r with [] => Some (if neg : bool then - v else v) | _ => None end.

(** ** The exponent *)

Fixpoint exponent_digits (v : Z) (any : bool) (seen : Seen) (bad : bool) (l : list Z)
  : Z * bool * bool * list Z :=
  match l with
  | c :: r =>
      if (48 <=? c) && (c <=? 57) then exponent_digits (v * 10 + (c - 48)) true SeenDigit bad r
      else if c =? 95 then exponent_digits v any SeenSeparator (bad || negb (bool_decide (seen = SeenDigit))) r
      else (v, any, bad || bool_decide (seen = SeenSeparator), l)
  | [] => (v, any, bad || bool_decide (seen = SeenSeparator), l)
  end.

(** [scanExponent]: the exponent, its base and what is left. *)
Definition scan_exponent (l : list Z) : option (Z * Z * list Z) :=
  match l with
  | c :: r =>
      let base := if (c =? 101) || (c =? 69) then 10 else if (c =? 112) || (c =? 80) then 2 else 0 in
      if base =? 0 then Some (0, 10, l)
      else
        let '(neg, r) := match r with 45 :: r => (true, r) | 43 :: r => (false, r) | _ => (false, r) end in
        let '(v, any, bad, r) := exponent_digits 0 false SeenOther false r in
        let v := if neg : bool then - v else v in
        if negb any || negb (is_int64 v) || bad then None else Some (v, base, r)
  | [] => Some (0, 10, [])
  end.

(** ** Fractions *)

Definition reduce (num : Z) (denom : positive) : Z * positive :=
  let g := Z.gcd num (Z.pos denom) in (num / g, Z.to_pos (Z.pos denom / g)).

(** The powers of 5 and of 2 of a mantissa of [count] and an exponent. *)
Definition power5 (base count exp ebase : Z) : Z :=
  (if (count <? 0) && (base =? 10) then count else 0) + (if ebase =? 10 then exp else 0).
Definition power2 (base count exp ebase : Z) : Z :=
  (if count <? 0 then if base =? 8 then 3 * count else if base =? 16 then 4 * count else count else 0) + exp.

Fixpoint cut_slash (l : list Z) : option (list Z * list Z) :=
  match l with
  | [] => None
  | 47 :: r => Some ([], r)
  | c :: r => '(a, b) ← cut_slash r; Some (c :: a, b)
  end.

Definition rat_of_float (l : list Z) : option (Z * positive) :=
  let '(neg, l) := match l with 45 :: r => (true, r) | 43 :: r => (false, r) | _ => (false, l) end in
  '(v, base, count, l) ← scan_nat true l;
  '(exp, ebase, l) ← scan_exponent l;
  match l with
  | _ :: _ => None
  | [] =>
      if v =? 0 then Some (0, 1%positive)
      else
        let e5 := wrap_int64 (power5 base count exp ebase) in
        let e2 := wrap_int64 (power2 base count exp ebase) in
        if (1000000 <? Z.abs e5) || (10000000 <? Z.abs e2) then None
        else
          let num := v * 5 ^ Z.max 0 e5 * 2 ^ Z.max 0 e2 in
          let denom := 5 ^ Z.max 0 (- e5) * 2 ^ Z.max 0 (- e2) in
          Some (reduce (if neg : bool then - num else num) (Z.to_pos denom))
  end.

Definition rat_SetString (s : string) : option (Z * positive) :=
  let l := bytes_of s in
  match cut_slash l with
  | Some (a, b) =>
      num ← scan_int a;
      '(denom, _, _, r) ← scan_nat false b;
      match r with
      | [] => if denom =? 0 then None else Some (reduce num (Z.to_pos denom))
      | _ => None
      end
  | None => rat_of_float l
  end.
