(* ===== verification/Calendar.v ===== *)
(** * The calendar of package time

    [Time.Year], [Month], [Day] and [time.Date] in UTC, as far as the quota
    periods use them: the first instant of the day and of the month of an
    instant, in the proleptic Gregorian calendar that starts on January 1 of
    year 1; and [time.Parse] of RFC 3339 times, which the prices use. *)

From S2P Require Import Prelude.

Definition day : Duration := 24 * hour.

(** [Time.Truncate]. *)
Definition Truncate (t : Time) (d : Duration) : Time := t - t mod d.

Definition day_start (t : Time) : Time := Truncate t day.

(** The year, from 0, and the day in it, of a day number: whole cycles of 400
    years, of 100, of 4 and single years, as [time] computes them. *)
Definition civil (d : Z) : Z * Z :=
  let n400 := d / 146097 in
  let d := d - 146097 * n400 in
  let n100 := d / 36524 in
  let n100 := n100 - n100 / 4 in
  let d := d - 36524 * n100 in
  let n4 := d / 1461 in
  let d := d - 1461 * n4 in
  let n1 := d / 365 in
  let n1 := n1 - n1 / 4 in
  (400 * n400 + 100 * n100 + 4 * n4 + n1, d - 365 * n1).

Definition is_leap (year : Z) : bool :=
  (year mod 4 =? 0) && (negb (year mod 100 =? 0) || (year mod 400 =? 0)).

(** The day of the year on which each month starts. *)
Definition month_starts (leap : bool) : list Z :=
  let l := if leap then 1 else 0 in
  [0; 31; 59 + l; 90 + l; 120 + l; 151 + l; 181 + l; 212 + l; 243 + l; 273 + l; 304 + l; 334 + l].

Definition month_offset (leap : bool) (yday : Z) : Z :=
  foldl (λ start o, if o <=? yday then o else start) 0 (month_starts leap).

Definition month_start (t : Time) : Time :=
  let d := t / day in
  let '(year, yday) := civil d in
  (d - yday + month_offset (is_leap (year + 1)) yday) * day.

Example year_2024 : month_start (738935 * day + hour) = 738916 * day.
Proof. vm_compute. reflexivity. Qed.

Lemma civil_range d : 0 ≤ d → let '(year, yday) := civil d in 0 ≤ yday < 366 ∧ 0 ≤ year ∧ yday ≤ d.
Proof.
  intros Hd. unfold civil.
  set (n400 := d / 146097). set (d1 := d - 146097 * n400).
  set (n100 := d1 / 36524 - d1 / 36524 / 4). set (d2 := d1 - 36524 * n100).
  set (n4 := d2 / 1461). set (d3 := d2 - 1461 * n4).
  set (n1 := d3 / 365 - d3 / 365 / 4).
  assert (0 ≤ d1 < 146097 ∧ 0 ≤ n400) as [? ?] by (subst d1 n400; divide).
  assert (0 ≤ d2 ≤ 36524 ∧ 0 ≤ n100) as [? ?] by (subst d2 n100; divide).
  assert (0 ≤ d3 < 1461 ∧ 0 ≤ n4) as [? ?] by (subst d3 n4; divide).
  assert (0 ≤ d3 - 365 * n1 < 366 ∧ 0 ≤ n1) as [? ?] by (subst n1; divide).
  subst d1 d2 d3. divide.
Qed.

(** An earlier day of the same year. *)
Lemma civil_same_year d k :
  0 ≤ d → 0 ≤ k ≤ (civil d).2 → civil (d - (civil d).2 + k) = ((civil d).1, k).
Proof.
  intros Hd. unfold civil at 1 3 4. cbn [fst snd].
  set (n400 := d / 146097). set (d1 := d - 146097 * n400).
  set (n100 := d1 / 36524 - d1 / 36524 / 4). set (d2 := d1 - 36524 * n100).
  set (n4 := d2 / 1461). set (d3 := d2 - 1461 * n4).
  set (n1 := d3 / 365 - d3 / 365 / 4). intros Hk.
  assert (0 ≤ d1 < 146097) as H1 by (subst d1 n400; divide).
  assert (0 ≤ n100 ≤ 3) as Hn100 by (subst n100; divide).
  assert (0 ≤ d2 ≤ 36524 ∧ (n100 < 3 → d2 < 36524)) as [H2 H2'] by (subst d2 n100; divide).
  assert (0 ≤ d3 < 1461) as H3 by (subst d3 n4; divide).
  assert (0 ≤ n1 ≤ 3) as Hn1 by (subst n1; divide).
  assert (0 ≤ d3 - 365 * n1 ≤ 365 ∧ (n1 < 3 → d3 - 365 * n1 < 365)) as [H4 H4'] by (subst n1; divide).
  assert (0 ≤ n4) as Hn4 by (subst n4; divide).
  replace (d - (d3 - 365 * n1) + k) with (146097 * n400 + (36524 * n100 + (1461 * n4 + (365 * n1 + k))))
    by (subst d3 d2 d1; divide).
  clearbody n1. assert (1461 * n4 + 365 * n1 + k ≤ d2) as Hd2 by (subst d3; divide).
  clearbody n4. assert (36524 * n100 + d2 = d1) as Hd1 by (subst d2; divide).
  clearbody n100 d2 d1 n400. unfold civil.
  replace ((146097 * n400 + (36524 * n100 + (1461 * n4 + (365 * n1 + k)))) / 146097) with n400 by divide.
  replace (146097 * n400 + (36524 * n100 + (1461 * n4 + (365 * n1 + k))) - 146097 * n400)
    with (36524 * n100 + (1461 * n4 + (365 * n1 + k))) by divide.
  set (x := 36524 * n100 + _). assert (x / 36524 - x / 36524 / 4 = n100) as -> by (subst x; divide).
  replace (x - 36524 * n100) with (1461 * n4 + (365 * n1 + k)) by (subst x; divide).
  replace ((1461 * n4 + (365 * n1 + k)) / 1461) with n4 by divide.
  replace (1461 * n4 + (365 * n1 + k) - 1461 * n4) with (365 * n1 + k) by divide.
  set (y := 365 * n1 + k). assert (y / 365 - y / 365 / 4 = n1) as -> by (subst y; divide).
  f_equal; subst y; divide.
Qed.

(** The last start that is not after the day. *)
Lemma month_offset_facts leap yday :
  0 ≤ yday → 0 ≤ month_offset leap yday ≤ yday ∧
    month_offset leap (month_offset leap yday) = month_offset leap yday.
Proof.
  intros Hy. assert (∃ m, month_offset leap yday = m ∧ 0 ≤ m ≤ yday ∧ month_offset leap m = m) as (m & -> & ?);
    [|done].
  unfold month_offset at 1, month_starts. cbn [foldl]. destruct leap; cbn [Z.add Z.leb];
    repeat match goal with |- context [if ?b <=? yday then _ else _] => destruct (Z.leb_spec b yday); try lia end;
    eexists; (split; [reflexivity|]); (split; [lia | reflexivity]).
Qed.

Lemma day_start_facts t : 0 ≤ t → 0 ≤ day_start t ≤ t ∧ day_start (day_start t) = day_start t.
Proof. intros Ht. unfold day_start, Truncate, day, hour, minute, second. divide. Qed.

Lemma month_start_facts t : 0 ≤ t → 0 ≤ month_start t ≤ t ∧ month_start (month_start t) = month_start t.
Proof.
  intros Ht. unfold month_start. assert (0 ≤ t / day) as Hd by (unfold day, hour, minute, second; divide).
  pose proof (civil_range (t / day) Hd) as Hr. pose proof (civil_same_year (t / day)) as Hs.
  destruct (civil (t / day)) as [year yday]. cbn [fst snd] in *.
  destruct (month_offset_facts (is_leap (year + 1)) yday) as [Hm Hmm]; [lia|].
  set (k := month_offset (is_leap (year + 1)) yday) in *.
  rewrite Z.div_mul by (unfold day, hour, minute, second; lia). rewrite Hs by lia. rewrite Hmm.
  split; [|f_equal; lia]. unfold day, hour, minute, second in *. divide.
Qed.

(** ** RFC 3339

    [time.Parse] with [time.RFC3339]: [2006-01-02T15:04:05Z07:00]. The hour may
    have one digit, the seconds a fraction after a point or a comma. *)

(** The number of days before year [year]. *)
Definition days_before (year : Z) : Z :=
  let y := year - 1 in 365 * y + y / 4 - y / 100 + y / 400.

(** [time.Date] of a valid day, in UTC. *)
Definition date_days (year month mday : Z) : Z :=
  days_before year + nth (Z.to_nat (month - 1)) (month_starts (is_leap year)) 0 + (mday - 1).

Definition daysIn (month year : Z) : Z :=
  if month =? 2 then if is_leap year then 29 else 28
  else if (month =? 4) || (month =? 6) || (month =? 9) || (month =? 11) then 30 else 31.

Definition digit (c : ascii) : option Z :=
  let b := byte_of c in if (48 <=? b) && (b <=? 57) then Some (b - 48) else None.

(** [getnum]: two digits, or one unless [fixed]. *)
Definition getnum (fixed : bool) (l : list ascii) : option (Z * list ascii) :=
  match l with
  | c :: r =>
      a ← digit c;
      match r with
      | d :: r' =>
          match digit d with
          | Some b => Some (a * 10 + b, r')
          | None => if fixed then None else Some (a, r)
          end
      | [] => if fixed then None else Some (a, r)
      end
  | [] => None
  end.

Definition literal (c : ascii) (l : list ascii) : option (list ascii) :=
  match l with d :: r => if (d =? c)%char then Some r else None | [] => None end.

Fixpoint span_digits (l : list ascii) : list Z * list ascii :=
  match l with
  | c :: r =>
      match digit c with
      | Some a => let '(ds, rest) := span_digits r in (a :: ds, rest)
      | None => ([], l)
      end
  | [] => ([], [])
  end.

(** [parseNanoseconds]: at most nine digits count. *)
Definition nanos_of (ds : list Z) : Z :=
  foldl (λ n d, n * 10 + d) 0 (take 9 ds ++ replicate (9 - length ds) 0).

Definition fraction (l : list ascii) : Z * list ascii :=
  match l with
  | c :: r =>
      if (c =? ".")%char || (c =? ",")%char then
        match span_digits r with
        | ([], _) => (0, l)
        | (ds, rest) => (nanos_of ds, rest)
        end
      else (0, l)
  | [] => (0, [])
  end.

(** The offset from UTC in seconds. *)
Definition zone (l : list ascii) : option (Z * list ascii) :=
  match l with
  | c :: r =>
      if (c =? "Z")%char then Some (0, r)
      else
        '(h, r) ← getnum true r; r ← literal ":" r; '(m, r) ← getnum true r;
        if (24 <? h) || (60 <? m) then None
        else if (c =? "+")%char then Some ((h * 60 + m) * 60, r)
        else if (c =? "-")%char then Some (- ((h * 60 + m) * 60), r) else None
  | [] => None
  end.

Definition parse_RFC3339 (s : string) : option Time :=
  match list_ascii_of_string s with
  | a :: b :: c :: d :: l =>
      a ← digit a; b ← digit b; c ← digit c; d ← digit d;
      let year := ((a * 10 + b) * 10 + c) * 10 + d in
      l ← literal "-" l; '(month, l) ← getnum true l;
      if (month <=? 0) || (12 <? month) then None
      else
        l ← literal "-" l; '(mday, l) ← getnum true l;
        l ← literal "T" l; '(h, l) ← getnum false l;
        if 24 <=? h then None
        else
          l ← literal ":" l; '(m, l) ← getnum true l;
          if 60 <=? m then None
          else
            l ← literal ":" l; '(sec, l) ← getnum true l;
            if 60 <=? sec then None
            else
              let '(nanos, l) := fraction l in
              '(offset, l) ← zone l;
              match l with
              | _ :: _ => None
              | [] =>
                  if (mday <? 1) || (daysIn month year <? mday) then None
                  else Some (date_days year month mday * day + h * hour + m * minute
                             + (sec - offset) * second + nanos)
              end
  | _ => None
  end.

Example epoch_parses : parse_RFC3339 "1970-01-01T00:00:00Z" = Some (62135596800 * second).
Proof. vm_compute. reflexivity. Qed.

Example offset_parses :
  parse_RFC3339 "2024-02-29T1:30:00,5+01:30" = Some (date_days 2024 2 29 * day + 500 * millisecond) ∧
  parse_RFC3339 "2023-02-29T01:30:00Z" = None.
Proof. split; vm_compute; reflexivity. Qed.

(** The calendar reads back the year and the day of the year it was given. *)
Lemma civil_days_before year yday :
  1 ≤ year → 0 ≤ yday < 365 + (if is_leap year then 1 else 0) →
  civil (days_before year + yday) = (year - 1, yday).
Proof.
  intros Hy Hd. unfold days_before. set (y := year - 1).
  set (a := y / 400). set (b := y / 100 - 4 * a). set (c := y / 4 - 25 * (y / 100)). set (e := y - 4 * (y / 4)).
  assert (0 ≤ a) as Ha by (subst a y; divide).
  assert (0 ≤ b ≤ 3) as Hb by (subst b a; divide).
  assert (0 ≤ c ≤ 24) as Hc by (subst c; divide).
  assert (0 ≤ e ≤ 3) as He by (subst e; divide).
  assert (y = 400 * a + 100 * b + 4 * c + e) as Hyd by (subst e c b; lia).
  assert (0 ≤ yday ≤ 364 ∨ yday = 365 ∧ e = 3 ∧ (c < 24 ∨ b = 3)) as Hleap.
  { destruct (is_leap year) eqn:Hl; [|lia]. destruct (decide (yday = 365)); [|lia]. right.
    split; [done|]. unfold is_leap in Hl. apply andb_true_iff in Hl as [H4 H100].
    apply Z.eqb_eq in H4. apply orb_true_iff in H100.
    rewrite negb_true_iff, Z.eqb_neq, Z.eqb_eq in H100. subst y. split; [divide|].
    destruct (decide (c = 24)); [|lia]. right. destruct H100; divide. }
  replace (365 * y + y / 4 - y / 100 + a + yday)
    with (146097 * a + (36524 * b + (1461 * c + (365 * e + yday)))).
  2:{ replace (y / 4) with (100 * a + 25 * b + c) by (subst c b; lia).
      replace (y / 100) with (4 * a + b) by (subst b; lia). lia. }
  clearbody a b c e y. unfold civil.
  replace ((146097 * a + (36524 * b + (1461 * c + (365 * e + yday)))) / 146097) with a by divide.
  replace (146097 * a + (36524 * b + (1461 * c + (365 * e + yday))) - 146097 * a)
    with (36524 * b + (1461 * c + (365 * e + yday))) by lia.
  set (x := 36524 * b + _). assert (x / 36524 - x / 36524 / 4 = b) as -> by (subst x; divide).
  replace (x - 36524 * b) with (1461 * c + (365 * e + yday)) by (subst x; lia).
  replace ((1461 * c + (365 * e + yday)) / 1461) with c by divide.
  replace (1461 * c + (365 * e + yday) - 1461 * c) with (365 * e + yday) by lia.
  set (z := 365 * e + yday). assert (z / 365 - z / 365 / 4 = e) as -> by (subst z; divide).
  f_equal; subst z; lia.
Qed.

(** ** Writing times

    [Time.MarshalJSON] of a UTC time: RFC 3339 with the fraction that is needed,
    for the years 0 to 9999. *)

Definition digit_char (n : Z) : ascii := ascii_of_N (Z.to_N (48 + n)).
Definition digits2 (n : Z) : list ascii := [digit_char (n / 10); digit_char (n mod 10)].

(** The month of a day of the year. *)
Definition month_of (leap : bool) (yday : Z) : Z :=
  foldl (λ m o, if o <=? yday then m + 1 else m) 0 (month_starts leap).

Definition nano_digits (n : Z) : list Z := map (λ k, n / 10 ^ k mod 10) [8; 7; 6; 5; 4; 3; 2; 1; 0].

Fixpoint trim_zeros (ds : list Z) : list Z :=
  match ds with
  | [] => []
  | d :: ds => match trim_zeros ds with [] => if d =? 0 then [] else [d] | ds => d :: ds end
  end.

(** [appendNano]. *)
Definition format_fraction (n : Z) : list ascii :=
  match trim_zeros (nano_digits n) with [] => [] | ds => "."%char :: map digit_char ds end.

Definition format_RFC3339Nano (t : Time) : option string :=
  let '(year, yday) := civil (t / day) in
  let year := year + 1 in
  let leap := is_leap year in
  let clock := t mod day in
  if (year <? 0) || (9999 <? year) then None
  else Some (string_of_list_ascii
    (digits2 (year / 100) ++ digits2 (year mod 100) ++ ["-"%char] ++
     digits2 (month_of leap yday) ++ ["-"%char] ++ digits2 (yday - month_offset leap yday + 1) ++ ["T"%char] ++
     digits2 (clock / hour) ++ [":"%char] ++ digits2 (clock mod hour / minute) ++ [":"%char] ++
     digits2 (clock mod minute / second) ++ format_fraction (t mod second) ++ ["Z"%char])).

Example format_example :
  format_RFC3339Nano (date_days 2024 2 29 * day + hour + 5 * minute + 7 * second + 120 * millisecond) =
  Some "2024-02-29T01:05:07.12Z"%string.
Proof. vm_compute. reflexivity. Qed.

Lemma digit_of_char n : 0 ≤ n < 10 → digit (digit_char n) = Some n.
Proof.
  intros Hn. unfold digit, digit_char, byte_of. rewrite N_ascii_embedding by lia. rewrite Z2N.id by lia.
  replace ((48 <=? 48 + n) && (48 + n <=? 57)) with true by lia. f_equal. lia.
Qed.

Lemma getnum_digits2 fixed n r : 0 ≤ n < 100 → getnum fixed (digits2 n ++ r) = Some (n, r).
Proof.
  intros Hn. unfold digits2. cbn [app getnum]. rewrite !digit_of_char by divide. cbn [mbind option_bind].
  do 2 f_equal. divide.
Qed.

Lemma span_digits_chars ds r :
  Forall (λ d, 0 ≤ d < 10) ds → match r with c :: _ => digit c = None | [] => True end →
  span_digits (map digit_char ds ++ r) = (ds, r).
Proof.
  intros Hds Hr. induction Hds as [|d ds Hd _ IH]; cbn.
  - destruct r as [|c r]; [done|]. cbn. by rewrite Hr.
  - rewrite digit_of_char by done. by rewrite IH.
Qed.

Lemma trim_zeros_spec ds :
  ∃ k, (length (trim_zeros ds) + k = length ds)%nat ∧ trim_zeros ds ++ replicate k 0 = ds.
Proof.
  induction ds as [|d ds (k & Hk & Hd)]; [by exists 0%nat|]. cbn. destruct (trim_zeros ds) as [|e es].
  - destruct (Z.eqb_spec d 0) as [->|].
    + exists (S k). cbn in *. split; [lia|]. by rewrite Hd.
    + exists k. cbn in *. split; [lia|]. by rewrite Hd.
  - exists k. cbn in *. split; [lia|]. by rewrite Hd.
Qed.

Lemma nanos_of_trim n : 0 ≤ n < 1000000000 → nanos_of (trim_zeros (nano_digits n)) = n.
Proof.
  intros Hn. destruct (trim_zeros_spec (nano_digits n)) as (k & Hk & Hd). change (length (nano_digits n)) with 9%nat in Hk.
  unfold nanos_of. rewrite firstn_all2 by lia. replace (9 - _)%nat with k by lia. rewrite Hd.
  unfold nano_digits. cbn -[Z.add Z.mul Z.div Z.modulo]. divide.
Qed.

Lemma trim_zeros_digits n : Forall (λ d, 0 ≤ d < 10) (trim_zeros (nano_digits n)).
Proof.
  destruct (trim_zeros_spec (nano_digits n)) as (k & _ & Hd).
  assert (Forall (λ d, 0 ≤ d < 10) (nano_digits n)) as Hall
    by (unfold nano_digits; apply Forall_map, Forall_true; intros; cbn; divide).
  rewrite <-Hd in Hall. by apply Forall_app in Hall as [? _].
Qed.

Lemma fraction_format n r :
  0 ≤ n < 1000000000 → fraction (format_fraction n ++ "Z"%char :: r) = (n, "Z"%char :: r).
Proof.
  intros Hn. pose proof (nanos_of_trim n Hn) as Hnanos. unfold format_fraction.
  pose proof (trim_zeros_digits n) as Hds.
  destruct (trim_zeros (nano_digits n)) as [|d ds]; [by rewrite <-Hnanos|].
  cbn [app fraction]. change ((("." =? ".")%char || ("." =? ",")%char)) with true. cbv iota.
  rewrite span_digits_chars by done. by rewrite Hnanos.
Qed.

(** Every day of the year is a day of its month. *)
Definition month_check (leap : bool) (yday : Z) : bool :=
  let m := month_of leap yday in
  let mday := yday - month_offset leap yday + 1 in
  (1 <=? m) && (m <=? 12) && (nth (Z.to_nat (m - 1)) (month_starts leap) 0 =? month_offset leap yday) &&
  (1 <=? mday) && (mday <=? daysIn m (if leap then 4 else 1)).

Lemma month_of_facts year yday :
  0 ≤ yday < 365 + (if is_leap year then 1 else 0) →
  let m := month_of (is_leap year) yday in
  let mday := yday - month_offset (is_leap year) yday + 1 in
  1 ≤ m ≤ 12 ∧ nth (Z.to_nat (m - 1)) (month_starts (is_leap year)) 0 = month_offset (is_leap year) yday ∧
  1 ≤ mday ≤ daysIn m year ∧ mday < 100.
Proof.
  intros Hy. assert (month_check (is_leap year) yday = true) as Hc.
  { assert (forallb (month_check true) (map Z.of_nat (seq 0 366)) = true) as Ht by (vm_compute; reflexivity).
    assert (forallb (month_check false) (map Z.of_nat (seq 0 365)) = true) as Hf by (vm_compute; reflexivity).
    rewrite forallb_forall in Ht, Hf.
    destruct (is_leap year); [apply Ht|apply Hf]; apply in_map_iff; exists (Z.to_nat yday);
      (split; [lia|apply in_seq; lia]). }
  unfold month_check in Hc. set (m := month_of (is_leap year) yday) in *. cbn zeta.
  assert (daysIn m (if is_leap year then 4 else 1) = daysIn m year) as Hd.
  { unfold daysIn. destruct (m =? 2); [|done]. by destruct (is_leap year). }
  assert (daysIn m year ≤ 31) by (unfold daysIn; repeat case_match; lia). lia.
Qed.

(** The civil date of a day determines the day. *)
Lemma civil_year d :
  let '(year, yday) := civil d in
  days_before (year + 1) + yday = d ∧ 0 ≤ yday < 365 + (if is_leap (year + 1) then 1 else 0).
Proof.
  unfold civil.
  set (n400 := d / 146097). set (d1 := d - 146097 * n400).
  set (n100 := d1 / 36524 - d1 / 36524 / 4). set (d2 := d1 - 36524 * n100).
  set (n4 := d2 / 1461). set (d3 := d2 - 1461 * n4).
  set (n1 := d3 / 365 - d3 / 365 / 4).
  assert (0 ≤ d1 < 146097) as H1 by (subst d1 n400; divide).
  assert (0 ≤ n100 ≤ 3) as Hn100 by (subst n100; divide).
  assert (0 ≤ d2 ≤ 36524 ∧ (n100 < 3 → d2 < 36524)) as [H2 H2'] by (subst d2 n100; divide).
  assert (0 ≤ d3 < 1461) as H3 by (subst d3 n4; divide).
  assert (0 ≤ n1 ≤ 3) as Hn1 by (subst n1; divide).
  assert (0 ≤ d3 - 365 * n1 ≤ 365 ∧ (n1 < 3 → d3 - 365 * n1 < 365)) as [H4 H4'] by (subst n1; divide).
  assert (0 ≤ n4 ≤ 24) as Hn4 by (subst n4; divide).
  assert (n4 = 24 → n100 < 3 → d3 < 1460) as H24 by (subst d3; lia).
  assert (d = 146097 * n400 + (36524 * n100 + (1461 * n4 + (365 * n1 + (d3 - 365 * n1))))) as Hd
    by (subst d3 d2 d1; lia).
  set (yday := d3 - 365 * n1) in *. assert (d3 = 365 * n1 + yday) as Hd3 by (subst yday; lia).
  clearbody yday. clearbody n1. clearbody d3 n4. clearbody d2 n100. clearbody d1 n400. subst d3.
  replace (400 * n400 + 100 * n100 + 4 * n4 + n1 + 1) with (400 * n400 + 100 * n100 + 4 * n4 + (n1 + 1)) by lia.
  split.
  - unfold days_before. set (y := _ - 1). replace (y / 4) with (100 * n400 + 25 * n100 + n4) by (subst y; divide).
    replace (y / 100) with (4 * n400 + n100) by (subst y; divide).
    replace (y / 400) with n400 by (subst y; divide). subst y. lia.
  - unfold is_leap. set (y := _ + (n1 + 1)).
    destruct (Z.eqb_spec (y mod 4) 0); [|cbn; assert (n1 < 3) by (subst y; divide); lia].
    destruct (Z.eqb_spec (y mod 100) 0); [|cbn; lia].
    destruct (Z.eqb_spec (y mod 400) 0); [cbn; lia|]. cbn.
    assert (n1 = 3 ∧ n4 = 24 ∧ n100 < 3) by (subst y; divide). lia.
Qed.

Lemma literal_here c l : literal c (c :: l) = Some l.
Proof. cbn. by rewrite Ascii.eqb_refl. Qed.

Ltac pass_literal := cbn [app mbind option_bind]; rewrite literal_here; cbn [mbind option_bind].

Lemma clock_parts t :
  0 ≤ t mod day / hour < 24 ∧ 0 ≤ t mod day mod hour / minute < 60 ∧
  0 ≤ t mod day mod minute / second < 60 ∧ 0 ≤ t mod second < 1000000000 ∧
  t / day * day + t mod day / hour * hour + t mod day mod hour / minute * minute +
    t mod day mod minute / second * second + t mod second = t.
Proof. unfold day, hour, minute, second. divide. Qed.

Lemma year_digits year :
  0 ≤ year ≤ 9999 →
  0 ≤ year / 100 < 100 ∧ 0 ≤ year mod 100 < 100 ∧
  ((year / 100 / 10 * 10 + (year / 100) mod 10) * 10 + year mod 100 / 10) * 10 + (year mod 100) mod 10 = year.
Proof.
  intros Hy. pose proof (Z.div_mod year 100). pose proof (Z.div_mod (year / 100) 10).
  pose proof (Z.div_mod (year mod 100) 10). split; [divide|]. split; [divide|]. lia.
Qed.

(** A time that can be written is read back. *)
Lemma parse_format t s : format_RFC3339Nano t = Some s → parse_RFC3339 s = Some t.
Proof.
  unfold format_RFC3339Nano. pose proof (civil_year (t / day)) as Hc.
  destruct (civil (t / day)) as [y yday]. destruct Hc as [Hday Hy].
  pose proof (month_of_facts (y + 1) yday Hy) as Hm. cbn zeta in Hm.
  set (year := y + 1) in *. set (m := month_of (is_leap year) yday) in *.
  set (mday := yday - month_offset (is_leap year) yday + 1) in *.
  destruct Hm as (Hm & Hnth & Hmd & Hmd').
  destruct (_ || _) eqn:Hrange; [done|]. apply orb_false_iff in Hrange as [Hlo Hhi].
  rewrite Z.ltb_ge in Hlo, Hhi. intros <-%(inj Some). unfold parse_RFC3339.
  rewrite list_ascii_of_string_of_list_ascii.
  destruct (clock_parts t) as (Hh & Hmin & Hsec & Hn & Hsum).
  destruct (year_digits year) as (Hc & Hc' & Hyear); [lia|].
  assert (date_days year m mday = t / day) as Hdate by (unfold date_days; rewrite Hnth; subst mday; lia).
  clearbody m mday. clear Hday Hy Hnth.
  revert Hh Hmin Hsec Hn Hsum. generalize (t mod day / hour), (t mod day mod hour / minute),
    (t mod day mod minute / second), (t mod second). intros h mi sec n Hh Hmin Hsec Hn Hsum.
  revert Hyear Hc Hc'. unfold digits2 at 1 2. generalize (year / 100), (year mod 100). intros q1 q2 Hyear Hc Hc'.
  cbn [app]. rewrite !digit_of_char by divide. cbn [mbind option_bind]. rewrite Hyear.
  pass_literal. rewrite getnum_digits2 by lia. cbn [mbind option_bind].
  replace ((m <=? 0) || (12 <? m)) with false by lia.
  pass_literal. rewrite getnum_digits2 by lia. pass_literal.
  rewrite getnum_digits2 by lia. cbn [mbind option_bind].
  replace (24 <=? h) with false by lia. pass_literal. rewrite getnum_digits2 by lia. cbn [mbind option_bind].
  replace (60 <=? mi) with false by lia. pass_literal. rewrite getnum_digits2 by lia. cbn [mbind option_bind].
  replace (60 <=? sec) with false by lia. rewrite fraction_format by lia.
  cbn [zone]. change (("Z" =? "Z")%char) with true. cbv iota. cbn [mbind option_bind].
  replace ((mday <? 1) || (daysIn m year <? mday)) with false by lia. f_equal. rewrite Hdate. lia.
Qed.

Lemma days_before_mono y y' : y ≤ y' → days_before y ≤ days_before y'.
Proof.
  intros Hy. unfold days_before.
  pose proof (Z.div_le_mono (y - 1) (y' - 1) 4). pose proof (Z.div_le_mono (y - 1) (y' - 1) 400).
  assert ((y' - 1) / 100 - (y - 1) / 100 ≤ y' - y) by divide. lia.
Qed.

(** The instants of the years 1 to 9999 can be written. *)
Definition in_range (t : Time) : Prop := 0 ≤ t < days_before 10000 * day.

Lemma format_total t : in_range t → ∃ s, format_RFC3339Nano t = Some s.
Proof.
  unfold in_range, format_RFC3339Nano. intros Ht.
  assert (0 ≤ t / day < days_before 10000) as Hd.
  { split; [apply Z.div_pos; [lia|done]|apply Z.div_lt_upper_bound; [done|lia]]. }
  pose proof (civil_year (t / day)) as Hc. destruct (civil (t / day)) as [y yday]. destruct Hc as [Hday Hy].
  assert (0 ≤ y + 1 ≤ 9999) as Hyear.
  { split.
    - destruct (Z.le_gt_cases 0 (y + 1)); [done|]. pose proof (days_before_mono (y + 1) 0 ltac:(lia)) as Hm.
      change (days_before 0) with (-366) in Hm. destruct (is_leap (y + 1)); lia.
    - destruct (Z.le_gt_cases (y + 1) 9999); [done|].
      pose proof (days_before_mono 10000 (y + 1) ltac:(lia)). lia. }
  destruct (_ || _) eqn:Hr; [lia|]. by eexists.
Qed.
