(* ===== verification/Failure.v ===== *)
(** * Failures: classification of provider errors and the signals they raise

    Models [src/internal/reliability/failure.go] with the error values of
    [src/internal/provider/errors.go]. A Go error is a tree whose [Unwrap]
    chain [errors.Is] and [errors.As] follow; a [*Failure] is itself an error
    that unwraps to its cause. Failures are values here: every [*Failure] of
    the code is freshly allocated by the function that returns it and has one
    owner. *)

From S2P Require Import Prelude.

(** ** Data *)

Inductive Category :=
| CategoryLocalValidation
| CategoryKeyUnauthorized
| CategoryKeyForbidden
| CategoryUpstreamRateLimit
| CategoryUpstream4xx
| CategoryModelUnavailable
| CategoryUpstream5xx
| CategoryUpstreamProtocol
| CategoryUnsupportedCapability
| CategoryUnsupportedResponse
| CategoryNetwork
| CategoryTimeout
| CategoryKeyExhausted
| CategoryQueue
| CategoryBreaker
| CategoryCanceled.

#[export] Instance Category_eq_dec : EqDecision Category.
Proof. solve_decision. Defined.

Inductive TimeoutScope := TimeoutUpstream | TimeoutRequestBudget.

#[export] Instance TimeoutScope_eq_dec : EqDecision TimeoutScope.
Proof. solve_decision. Defined.

Inductive QueueReason := QueueFull | QueueWaitTimeout | QueueUnknownProvider.

#[export] Instance QueueReason_eq_dec : EqDecision QueueReason.
Proof. solve_decision. Defined.

(** The sentinel errors the reliability layer tests for with [errors.Is]. *)
Inductive Sentinel :=
| context_Canceled
| context_DeadlineExceeded
| io_EOF
| ErrUnknownProvider
| ErrInvalidRequest
| ErrUnsupportedCapability
| ErrUnsupportedResponse
| ErrInvalidResponse
| ErrInvalidStream
| ErrResponseTooLarge
| ErrUnknownBreakerProvider
| ErrNoRoute
| ErrCapabilityUnavailable.

#[export] Instance Sentinel_eq_dec : EqDecision Sentinel.
Proof. solve_decision. Defined.

Record HTTPError := {
  http_StatusCode : Z;
  http_RetryAfter : string;
  http_Code : string;
}.

(** One executed upstream call; [ar_Category] is [None] on success, where the
    code stores the empty string. *)
Record AttemptRecord := {
  ar_ProviderID : string;
  ar_UpstreamModel : string;
  ar_KeyID : string;
  ar_Candidate : Z;
  ar_Attempt : Z;
  ar_Duration : Duration;
  ar_Category : option Category;
  ar_StatusCode : Z;
}.

(** [Failure], over the type [E] of the errors that may be its cause. The
    empty string of [Timeout] and [Queue] is [None]. *)
Record FailureOf (E : Type) := {
  f_Category : Category;
  f_ProviderID : string;
  f_KeyID : string;
  f_Candidate : Z;
  f_Attempt : Z;
  f_TotalAttempts : Z;
  f_Fallbacks : Z;
  f_StatusCode : Z;
  f_Timeout : option TimeoutScope;
  f_Queue : option QueueReason;
  f_RetryAfter : Duration;
  f_RetryAfterSet : bool;
  f_Trail : list AttemptRecord;
  f_Cause : option E;
}.
Arguments f_Category {E} _.
Arguments f_ProviderID {E} _.
Arguments f_KeyID {E} _.
Arguments f_Candidate {E} _.
Arguments f_Attempt {E} _.
Arguments f_TotalAttempts {E} _.
Arguments f_Fallbacks {E} _.
Arguments f_StatusCode {E} _.
Arguments f_Timeout {E} _.
Arguments f_Queue {E} _.
Arguments f_RetryAfter {E} _.
Arguments f_RetryAfterSet {E} _.
Arguments f_Trail {E} _.
Arguments f_Cause {E} _.

(** [EWrap e] is [fmt.Errorf("...: %w", e)], [EOther] any error that wraps
    nothing and is no value the code tests for. *)
Inductive GoErr :=
| ESentinel (s : Sentinel)
| EHTTP (h : HTTPError)
| EFailure (f : FailureOf GoErr)
| EWrap (e : GoErr)
| EOther (message : string).

Abbreviation Failure := (FailureOf GoErr).

Fixpoint errors_Is (s : Sentinel) (e : GoErr) : bool :=
  match e with
  | ESentinel s' => bool_decide (s' = s)
  | EWrap e' => errors_Is s e'
  | EFailure f => match f_Cause f with Some c => errors_Is s c | None => false end
  | EHTTP _ | EOther _ => false
  end.

Fixpoint errors_As_Failure (e : GoErr) : option Failure :=
  match e with
  | EFailure f => Some f
  | EWrap e' => errors_As_Failure e'
  | _ => None
  end.

Fixpoint errors_As_HTTPError (e : GoErr) : option HTTPError :=
  match e with
  | EHTTP h => Some h
  | EWrap e' => errors_As_HTTPError e'
  | EFailure f => match f_Cause f with Some c => errors_As_HTTPError c | None => None end
  | _ => None
  end.

(** The zero [Failure] with a category and a provider, and the assignments to
    its fields that the callers make. *)
Definition new_failure (c : Category) (providerID : string) : Failure :=
  {| f_Category := c; f_ProviderID := providerID; f_KeyID := ""; f_Candidate := 0;
     f_Attempt := 0; f_TotalAttempts := 0; f_Fallbacks := 0; f_StatusCode := 0;
     f_Timeout := None; f_Queue := None; f_RetryAfter := 0; f_RetryAfterSet := false;
     f_Trail := []; f_Cause := None |}.

Section setters.
Context (f : Failure).
Let build c p k cd at_ ta fb sc t q ra rs tr ca : Failure :=
  Build_FailureOf GoErr c p k cd at_ ta fb sc t q ra rs tr ca.
Definition f_with_category (c : Category) : Failure :=
  build c (f_ProviderID f) (f_KeyID f) (f_Candidate f) (f_Attempt f) (f_TotalAttempts f)
    (f_Fallbacks f) (f_StatusCode f) (f_Timeout f) (f_Queue f) (f_RetryAfter f)
    (f_RetryAfterSet f) (f_Trail f) (f_Cause f).
Definition f_with_identity (p k : string) (candidate attempt : Z) : Failure :=
  build (f_Category f) p k candidate attempt (f_TotalAttempts f) (f_Fallbacks f)
    (f_StatusCode f) (f_Timeout f) (f_Queue f) (f_RetryAfter f) (f_RetryAfterSet f)
    (f_Trail f) (f_Cause f).
Definition f_with_position (candidate attempt : Z) : Failure :=
  f_with_identity (f_ProviderID f) (f_KeyID f) candidate attempt.
Definition f_with_key (k : string) : Failure :=
  f_with_identity (f_ProviderID f) k (f_Candidate f) (f_Attempt f).
Definition f_with_provider (p : string) : Failure :=
  f_with_identity p (f_KeyID f) (f_Candidate f) (f_Attempt f).
Definition f_with_attempt (attempt : Z) : Failure :=
  f_with_identity (f_ProviderID f) (f_KeyID f) (f_Candidate f) attempt.
Definition f_with_totals (total fallbacks : Z) (trail : list AttemptRecord) : Failure :=
  build (f_Category f) (f_ProviderID f) (f_KeyID f) (f_Candidate f) (f_Attempt f) total
    fallbacks (f_StatusCode f) (f_Timeout f) (f_Queue f) (f_RetryAfter f)
    (f_RetryAfterSet f) trail (f_Cause f).
Definition f_with_total (total : Z) : Failure :=
  f_with_totals total (f_Fallbacks f) (f_Trail f).
Definition f_with_cause (e : GoErr) : Failure :=
  build (f_Category f) (f_ProviderID f) (f_KeyID f) (f_Candidate f) (f_Attempt f)
    (f_TotalAttempts f) (f_Fallbacks f) (f_StatusCode f) (f_Timeout f) (f_Queue f)
    (f_RetryAfter f) (f_RetryAfterSet f) (f_Trail f) (Some e).
Definition f_with_timeout (t : TimeoutScope) : Failure :=
  build (f_Category f) (f_ProviderID f) (f_KeyID f) (f_Candidate f) (f_Attempt f)
    (f_TotalAttempts f) (f_Fallbacks f) (f_StatusCode f) (Some t) (f_Queue f)
    (f_RetryAfter f) (f_RetryAfterSet f) (f_Trail f) (f_Cause f).
Definition f_with_queue (q : QueueReason) : Failure :=
  build (f_Category f) (f_ProviderID f) (f_KeyID f) (f_Candidate f) (f_Attempt f)
    (f_TotalAttempts f) (f_Fallbacks f) (f_StatusCode f) (f_Timeout f) (Some q)
    (f_RetryAfter f) (f_RetryAfterSet f) (f_Trail f) (f_Cause f).
Definition f_with_status (status : Z) : Failure :=
  build (f_Category f) (f_ProviderID f) (f_KeyID f) (f_Candidate f) (f_Attempt f)
    (f_TotalAttempts f) (f_Fallbacks f) status (f_Timeout f) (f_Queue f)
    (f_RetryAfter f) (f_RetryAfterSet f) (f_Trail f) (f_Cause f).
Definition f_with_retry_after (d : Duration) (set : bool) : Failure :=
  build (f_Category f) (f_ProviderID f) (f_KeyID f) (f_Candidate f) (f_Attempt f)
    (f_TotalAttempts f) (f_Fallbacks f) (f_StatusCode f) (f_Timeout f) (f_Queue f)
    d set (f_Trail f) (f_Cause f).
End setters.

(** ** Signals *)

Record Signals := {
  sig_Retry : bool;
  sig_SwitchKey : bool;
  sig_Fallback : bool;
  sig_CountBreaker : bool;
}.

Definition no_signals : Signals :=
  {| sig_Retry := false; sig_SwitchKey := false; sig_Fallback := false; sig_CountBreaker := false |}.

Definition breakerHTTPStatus (statusCode : Z) : bool :=
  (statusCode =? 500) || (statusCode =? 502) || (statusCode =? 503) || (statusCode =? 504).

Definition SignalsFor (failure : option Failure) : Signals :=
  match failure with
  | None => no_signals
  | Some f =>
      match f_Category f with
      | CategoryKeyUnauthorized | CategoryKeyForbidden =>
          {| sig_Retry := false; sig_SwitchKey := true; sig_Fallback := true;
             sig_CountBreaker := false |}
      | CategoryUpstreamRateLimit =>
          {| sig_Retry := true; sig_SwitchKey := true; sig_Fallback := true;
             sig_CountBreaker := false |}
      | CategoryUpstream5xx =>
          if breakerHTTPStatus (f_StatusCode f)
          then {| sig_Retry := true; sig_SwitchKey := false; sig_Fallback := true;
                  sig_CountBreaker := true |}
          else no_signals
      | CategoryNetwork =>
          {| sig_Retry := true; sig_SwitchKey := false; sig_Fallback := true;
             sig_CountBreaker := true |}
      | CategoryTimeout =>
          if bool_decide (f_Timeout f = Some TimeoutUpstream)
          then {| sig_Retry := true; sig_SwitchKey := false; sig_Fallback := true;
                  sig_CountBreaker := true |}
          else no_signals
      | CategoryUpstreamProtocol =>
          {| sig_Retry := false; sig_SwitchKey := false; sig_Fallback := true;
             sig_CountBreaker :=
               negb match f_Cause f with
                    | Some c => errors_Is ErrResponseTooLarge c
                    | None => false
                    end |}
      | CategoryUnsupportedCapability | CategoryUnsupportedResponse
      | CategoryModelUnavailable | CategoryQueue | CategoryBreaker =>
          {| sig_Retry := false; sig_SwitchKey := false; sig_Fallback := true;
             sig_CountBreaker := false |}
      | CategoryKeyExhausted =>
          {| sig_Retry := 0 <? f_RetryAfter f; sig_SwitchKey := false; sig_Fallback := true;
             sig_CountBreaker := false |}
      | CategoryLocalValidation | CategoryUpstream4xx | CategoryCanceled => no_signals
      end
  end.

(** ** Classification *)

Definition model_markers : list string :=
  ["not_found"; "notfound"; "not_available"; "unavailable"; "unsupported"; "invalid";
   "deprecated"; "retired"; "disabled"]%string.

Definition modelUnavailable `{Unicode} (statusCode : Z) (code : string) : bool :=
  if (statusCode =? 400) || (statusCode =? 404) || (statusCode =? 422) then
    let code := ToLower (TrimSpace code) in
    if (statusCode =? 404) &&
       ((code =? "not_found")%string || (code =? "not_found_error")%string) then true
    else if Contains code "deployment_not_found" || Contains code "deploymentnotfound" then true
    else if negb (Contains code "model") then false
    else existsb (Contains code) model_markers
  else false.

Definition defaultProviderKeyCooldown : Duration := 30 * second.
Definition maximumRetryAfter : Duration := 24 * hour.

Definition is_digit (c : ascii) : bool := (48 <=? byte_of c) && (byte_of c <=? 57).

Fixpoint digits_value (acc : Z) (l : list ascii) : Z :=
  match l with [] => acc | c :: l' => digits_value (acc * 10 + (byte_of c - 48)) l' end.

(** [strconv.ParseUint(raw, 10, 64)] on a string of digits: an error exactly
    when the value does not fit 64 bits. *)
Definition ParseUint (raw : string) : option Z :=
  let v := digits_value 0 (list_ascii_of_string raw) in
  if v <? two64 then Some v else None.

(** [http.ParseTime]: the three HTTP date grammars are a parameter. *)
Class HTTPDates := http_ParseTime : string → option Time.

Definition parseRetryAfter `{HTTPDates} (raw : string) (now : Time) : Duration * bool :=
  let raw := TrimSpace raw in
  if (raw =? "")%string then (0, false)
  else if forallb is_digit (list_ascii_of_string raw) then
    match ParseUint raw with
    | Some seconds =>
        if seconds >? maximumRetryAfter / second then (maximumRetryAfter, true)
        else (seconds * second, true)
    | None => (maximumRetryAfter, true)
    end
  else
    match http_ParseTime raw with
    | None => (0, false)
    | Some retryAt =>
        let delay := time_sub retryAt now in
        if delay <=? 0 then (0, true)
        else if delay >? maximumRetryAfter then (maximumRetryAfter, true)
        else (delay, true)
    end.

(** The categories of an upstream HTTP status; 401, 403 and 429 concern the
    key, the others the request or the provider. *)
Definition http_failure `{Unicode, HTTPDates} (failure : Failure) (h : HTTPError) (now : Time)
  : Failure :=
  let failure := f_with_status failure (http_StatusCode h) in
  let set c := f_with_category failure c in
  if http_StatusCode h =? 401 then set CategoryKeyUnauthorized
  else if http_StatusCode h =? 403 then set CategoryKeyForbidden
  else if http_StatusCode h =? 429 then
    match parseRetryAfter (http_RetryAfter h) now with
    | (d, true) => f_with_retry_after (set CategoryUpstreamRateLimit) d true
    | (_, false) =>
        f_with_retry_after (set CategoryUpstreamRateLimit) defaultProviderKeyCooldown true
    end
  else if modelUnavailable (http_StatusCode h) (http_Code h) then set CategoryModelUnavailable
  else if (400 <=? http_StatusCode h) && (http_StatusCode h <? 500) then set CategoryUpstream4xx
  else if 500 <=? http_StatusCode h then set CategoryUpstream5xx
  else set CategoryUpstreamProtocol.

(** [now] is the instant at which the function runs, read both by [ctx.Err()]
    and by [time.Now()]. *)
Definition FromProvider `{Unicode, HTTPDates} (ctx : Ctx) (now : Time) (providerID : string)
    (candidate attempt : Z) (err : option GoErr) : option Failure :=
  match err with
  | None => None
  | Some err =>
      let providerID := TrimSpace providerID in
      let failure c :=
        f_with_cause (f_with_position (new_failure c providerID) candidate attempt) err in
      if bool_decide (ctx_err ctx now = Some Canceled) || errors_Is context_Canceled err
      then Some (failure CategoryCanceled)
      else if bool_decide (ctx_err ctx now = Some DeadlineExceeded)
      then Some (f_with_timeout (failure CategoryTimeout) TimeoutRequestBudget)
      else if errors_Is context_DeadlineExceeded err
      then Some (f_with_timeout (failure CategoryTimeout) TimeoutUpstream)
      else match errors_As_Failure err with
      | Some existing =>
          let copy := if (f_ProviderID existing =? "")%string
                      then f_with_provider existing providerID else existing in
          let copy := if f_Attempt copy =? 0 then f_with_attempt copy attempt else copy in
          Some copy
      | None =>
          if errors_Is ErrUnsupportedCapability err
          then Some (failure CategoryUnsupportedCapability)
          else if errors_Is ErrUnsupportedResponse err
          then Some (failure CategoryUnsupportedResponse)
          else if errors_Is ErrInvalidRequest err
          then Some (failure CategoryLocalValidation)
          else if errors_Is ErrInvalidResponse err || errors_Is ErrInvalidStream err ||
                  errors_Is ErrResponseTooLarge err
          then Some (failure CategoryUpstreamProtocol)
          else match errors_As_HTTPError err with
          | Some h => Some (http_failure (failure CategoryNetwork) h now)
          | None => Some (failure CategoryNetwork)
          end
      end
  end.

(** The context's error as an error value. *)
Definition ctx_GoErr (e : CtxErr) : GoErr :=
  ESentinel match e with
            | Canceled => context_Canceled
            | DeadlineExceeded => context_DeadlineExceeded
            end.

(** ** Properties *)

Lemma CountBreaker_Fallback f :
  sig_CountBreaker (SignalsFor f) = true → sig_Fallback (SignalsFor f) = true.
Proof. unfold SignalsFor. go_cases. Qed.

(** What a retried failure can be. *)
Lemma Retry_categories f :
  sig_Retry (SignalsFor (Some f)) = true →
  f_Category f = CategoryUpstreamRateLimit ∨ f_Category f = CategoryNetwork ∨
  f_Category f = CategoryTimeout ∧ f_Timeout f = Some TimeoutUpstream ∨
  f_Category f = CategoryUpstream5xx ∧ breakerHTTPStatus (f_StatusCode f) = true ∨
  f_Category f = CategoryKeyExhausted ∧ 0 < f_RetryAfter f.
Proof.
  unfold SignalsFor. destruct (f_Category f); cbn; try discriminate; try tauto.
  - case_match; cbn; [tauto | discriminate].
  - case_bool_decide; cbn; [tauto | discriminate].
  - rewrite Z.ltb_lt. tauto.
Qed.

Lemma SwitchKey_categories f :
  sig_SwitchKey (SignalsFor (Some f)) = true ↔
  f_Category f = CategoryKeyUnauthorized ∨ f_Category f = CategoryKeyForbidden ∨
  f_Category f = CategoryUpstreamRateLimit.
Proof. unfold SignalsFor. destruct (f_Category f); cbn; try case_match; cbn; intuition congruence. Qed.

Lemma digits_value_nonneg l acc :
  0 ≤ acc → forallb is_digit l = true → 0 ≤ digits_value acc l.
Proof.
  revert acc. induction l as [|c l IH]; cbn; intros acc Hacc H; [done|].
  apply andb_prop in H as [Hc Hl]. apply IH; [|done].
  unfold is_digit in Hc. lia.
Qed.

(** Wrapping an error with a message hides nothing from [errors.Is] and
    [errors.As]. *)
Lemma errors_Is_wrap t n e : errors_Is t (Nat.iter n EWrap e) = errors_Is t e.
Proof. by induction n. Qed.

Lemma errors_As_Failure_wrap n e :
  errors_As_Failure (Nat.iter n EWrap e) = errors_As_Failure e.
Proof. by induction n. Qed.

Lemma errors_As_HTTPError_wrap n e :
  errors_As_HTTPError (Nat.iter n EWrap e) = errors_As_HTTPError e.
Proof. by induction n. Qed.

Section with_tables.
Context `{Unicode, HTTPDates}.

(** An error always gives a failure. *)
Lemma FromProvider_some ctx now p c a e : FromProvider ctx now p c a (Some e) ≠ None.
Proof.
  unfold FromProvider. destruct (_ || _); [done|].
  repeat (case_bool_decide || match goal with |- (if ?b then _ else _) ≠ _ => destruct b end); try done;
  repeat case_match; done.
Qed.

(** [parseRetryAfter] always gives a delay between zero and 24 hours,
    whatever header the upstream sent and whatever the clock says; it reports
    "not set" only with a zero delay; and a header of digits is honoured as
    that number of seconds up to the limit. *)
Theorem parseRetryAfter_bounds raw now :
  let '(d, set) := parseRetryAfter raw now in
  0 ≤ d ≤ maximumRetryAfter ∧ (set = false → d = 0) ∧
  (TrimSpace raw ≠ ""%string →
   forallb is_digit (list_ascii_of_string (TrimSpace raw)) = true →
   set = true ∧
   d = Z.min (digits_value 0 (list_ascii_of_string (TrimSpace raw)) * second)
             maximumRetryAfter).
Proof.
  unfold parseRetryAfter, maximumRetryAfter, ParseUint, hour, minute, second, two64.
  destruct (_ =? "")%string eqn:E.
  { apply String.eqb_eq in E. cbn. intuition (congruence || lia). }
  destruct (forallb _ _) eqn:Hd.
  - pose proof (digits_value_nonneg (list_ascii_of_string (TrimSpace raw)) 0 ltac:(lia) Hd).
    change (24 * (60 * (60 * 1000000000)) / 1000000000) with 86400.
    repeat case_match; simplify_eq; repeat split; intros; try done; lia.
  - repeat case_match; simplify_eq; repeat split; intros; try done; lia.
Qed.

(** Exact policy for an upstream HTTP error, however deeply wrapped, while
    the request is alive. Exactly 401, 403 and 429 switch the key; exactly
    429 and 500, 502, 503, 504 are retried; the breaker counts exactly
    500, 502, 503, 504 and the statuses below 400 that are no HTTP error at
    all; in particular no key failure is ever held against the provider. *)
Theorem http_error_policy ctx now p c a h n :
  ctx_err ctx now = None →
  let s := http_StatusCode h in
  let sig := SignalsFor (FromProvider ctx now p c a (Some (Nat.iter n EWrap (EHTTP h)))) in
  (sig_SwitchKey sig = true ↔ s = 401 ∨ s = 403 ∨ s = 429) ∧
  (sig_Retry sig = true ↔ s = 429 ∨ s = 500 ∨ s = 502 ∨ s = 503 ∨ s = 504) ∧
  (sig_CountBreaker sig = true ↔ s < 400 ∨ s = 500 ∨ s = 502 ∨ s = 503 ∨ s = 504).
Proof.
  intros Hctx s.
  cbn zeta. unfold FromProvider. rewrite Hctx, !errors_Is_wrap, errors_As_Failure_wrap, errors_As_HTTPError_wrap.
  cbn -[SignalsFor http_failure].
  unfold http_failure. fold s.
  assert (modelUnavailable s (http_Code h) = true → s = 400 ∨ s = 404 ∨ s = 422) as Hm.
  { unfold modelUnavailable. destruct (_ || _) eqn:E; [lia | done]. }
  repeat case_match; simplify_eq/=; rewrite ?errors_Is_wrap; unfold breakerHTTPStatus in *;
    repeat case_match; simplify_eq/=; (intuition (congruence || lia)).
Qed.

Lemma client_end_signals ctx now p c a e :
  ctx_err ctx now ≠ None ∨ errors_Is context_Canceled e = true →
  SignalsFor (FromProvider ctx now p c a (Some e)) = no_signals.
Proof.
  intros Hc. unfold FromProvider. case_bool_decide as H1; [done|].
  destruct (errors_Is context_Canceled e); [done|].
  case_bool_decide as H2; [done|].
  destruct Hc as [Hc|]; [|done]. destruct (ctx_err ctx now) as [[]|]; congruence.
Qed.

(** An outcome the client caused (cancellation, or the end of the total
    request budget) raises no signal: it is not retried, does not switch the
    key, does not fall back and does not count against the breaker, whatever
    error the provider reported at the same time. *)
Theorem client_end_no_signals ctx now p c a e :
  ctx_err ctx now ≠ None ∨ errors_Is context_Canceled e = true →
  SignalsFor (FromProvider ctx now p c a (Some e)) = no_signals.
Proof. apply client_end_signals. Qed.
End with_tables.

(** ** Concrete instances *)

(** Tables for concrete runs: no non-ASCII lower-casing, no HTTP date. *)
Definition demo_unicode : Unicode := λ s, s.
Definition demo_dates : HTTPDates := λ _, None.

Definition demo_503 : HTTPError :=
  {| http_StatusCode := 503; http_RetryAfter := ""; http_Code := "" |}.

Lemma http_error_policy_witness :
  sig_CountBreaker (SignalsFor (@FromProvider demo_unicode demo_dates ctx_background 7 "p" 0 1
    (Some (EWrap (EHTTP demo_503))))) = true.
Proof.
  apply (@http_error_policy demo_unicode demo_dates ctx_background 7 "p" 0 1 demo_503 1 eq_refl).
  right; right; right; left; reflexivity.
Defined.

Lemma client_end_no_signals_witness :
  SignalsFor (@FromProvider demo_unicode demo_dates
    {| ctx_deadline := None; ctx_cancel_at := Some 5 |} 7 "p" 0 1 (Some (EHTTP demo_503))) =
    no_signals.
Proof. apply (@client_end_no_signals demo_unicode demo_dates). left. discriminate. Defined.
