(* ===== verification/Sse.v ===== *)
(** * Reading an upstream's event stream

    Models [src/internal/provider/stream.go]: lines are read through a
    [bufio.Reader] of 64 KiB, joined into server-sent events, and each event is
    checked before it is handed on. The response body is the sequence of what
    its [Read] calls answer, and [bufio.Reader.ReadSlice] is written out, so that
    it can be proved that the events do not depend on how the network cuts the
    bytes into pieces. *)

From S2P Require Import Prelude Failure Encoding Json.

(** ** The response body and its buffer *)

Definition streamReaderBufferBytes : Z := 65536.
Definition maxStreamLineBytes : Z := 1048576.
Definition maxStreamEventBytes : Z := 2097152.

Definition len {A} (l : list A) : Z := Z.of_nat (length l).
Definition newline : ascii := "010".
Definition carriage_return : ascii := "013".

(** The chunks that [Read] will answer, at most as many bytes as there is space
    for, and the error at the end, [io.EOF] or another; [rd_eager] tells whether
    it comes with the last bytes or after them. *)
Record Reader := {
  rd_buf : list ascii;        (* read from the body, not yet taken *)
  rd_err : option GoErr;      (* pending, [Reader.err] *)
  rd_chunks : list (list ascii);
  rd_end : GoErr;
  rd_eager : bool;
}.

Definition with_rest (rd : Reader) (buf : list ascii) (err : option GoErr) (chunks : list (list ascii))
  : Reader :=
  {| rd_buf := buf; rd_err := err; rd_chunks := chunks; rd_end := rd_end rd; rd_eager := rd_eager rd |}.

Inductive SliceErr := BufferFull | SliceFailed (e : GoErr).
Definition no_progress : GoErr := EOther "multiple Read calls return no data or error".

(** Up to and including the first newline, and what follows. *)
Fixpoint cut_line (l : list ascii) : option (list ascii * list ascii) :=
  match l with
  | [] => None
  | c :: r =>
      if (c =? newline)%char then Some ([c], r)
      else match cut_line r with Some (line, rest) => Some (c :: line, rest) | None => None end
  end.

(** The search of [ReadSlice] and its calls of [fill]; [empty] is how many more
    empty reads [fill] puts up with. *)
Fixpoint slice_loop (rd : Reader) (empty : nat) (chunks : list (list ascii)) (buf : list ascii)
  : list ascii * option SliceErr * Reader :=
  match cut_line buf with
  | Some (line, rest) => (line, None, with_rest rd rest None chunks)
  | None =>
      let space := streamReaderBufferBytes - len buf in
      if space <=? 0 then (buf, Some BufferFull, with_rest rd [] None chunks)
      else
        match chunks with
        | [] => (buf, Some (SliceFailed (rd_end rd)), with_rest rd [] None [])
        | [] :: chunks =>
            if rd_eager rd && bool_decide (chunks = [])
            then (buf, Some (SliceFailed (rd_end rd)), with_rest rd [] None [])
            else match empty with
                 | O => (buf, Some (SliceFailed no_progress), with_rest rd [] None chunks)
                 | S empty => slice_loop rd empty chunks buf
                 end
        | c :: chunks' =>
            if space <? len c
            then
              let buf := buf ++ take (Z.to_nat space) c in
              let chunks := drop (Z.to_nat space) c :: chunks' in
              match cut_line buf with
              | Some (line, rest) => (line, None, with_rest rd rest None chunks)
              | None => (buf, Some BufferFull, with_rest rd [] None chunks)
              end
            else if rd_eager rd && bool_decide (chunks' = [])
            then
              match cut_line (buf ++ c) with
              | Some (line, rest) => (line, None, with_rest rd rest (Some (rd_end rd)) [])
              | None => (buf ++ c, Some (SliceFailed (rd_end rd)), with_rest rd [] None [])
              end
            else slice_loop rd 99 chunks' (buf ++ c)
        end
  end.

(** [reader.ReadSlice('\n')]. *)
Definition ReadSlice (rd : Reader) : list ascii * option SliceErr * Reader :=
  match rd_err rd with
  | Some e =>
      match cut_line (rd_buf rd) with
      | Some (line, rest) => (line, None, with_rest rd rest (Some e) (rd_chunks rd))
      | None => (rd_buf rd, Some (SliceFailed e), with_rest rd [] None (rd_chunks rd))
      end
  | None => slice_loop rd 99 (rd_chunks rd) (rd_buf rd)
  end.

(** ** Lines *)

Definition trim_suffix (c : ascii) (l : list ascii) : list ascii :=
  if bool_decide (last l = Some c) then take (length l - 1) l else l.

Definition trimStreamLineEnding (line : list ascii) : list ascii :=
  trim_suffix carriage_return (trim_suffix newline line).

(** [io.EOF] ends the last line. *)
Definition end_of_line (line : list ascii) (e : GoErr) : result GoErr (list ascii) :=
  if errors_Is io_EOF e && (0 <? len line) then Ok (trimStreamLineEnding line) else Err e.

(** The loop of [readStreamLine]. Seventeen full buffers exceed the limit, so
    eighteen rounds are enough. *)
Fixpoint line_loop (fuel : nat) (line : list ascii) (rd : Reader) : result GoErr (list ascii) * Reader :=
  match fuel with
  | O => (Err (ESentinel ErrResponseTooLarge), rd)
  | S fuel =>
      let '(fragment, err, rd) := ReadSlice rd in
      if maxStreamLineBytes + 1 <? len line + len fragment then (Err (ESentinel ErrResponseTooLarge), rd)
      else
        let line := line ++ fragment in
        match err with
        | None => (Ok (trimStreamLineEnding line), rd)
        | Some BufferFull => line_loop fuel line rd
        | Some (SliceFailed e) => (end_of_line line e, rd)
        end
  end.

Definition readStreamLine (rd : Reader) : result GoErr (list ascii) * Reader := line_loop 18 [] rd.

Fixpoint cut_colon (l : list ascii) : option (list ascii * list ascii) :=
  match l with
  | [] => None
  | c :: r =>
      if (c =? ":")%char then Some ([], r)
      else match cut_colon r with Some (field, value) => Some (c :: field, value) | None => None end
  end.

Definition splitStreamField (line : list ascii) : list ascii * list ascii :=
  match cut_colon line with
  | None => (line, [])
  | Some (field, value) =>
      (field, match value with c :: r => if (c =? " ")%char then r else value | [] => value end)
  end.

(** ** Checking a chunk *)

Definition valuePresent (raw : string) : bool :=
  let raw := TrimSpace raw in negb (raw =? "")%string && negb (raw =? "null")%string.

Definition jsonObject (raw : string) : bool :=
  let raw := TrimSpace raw in
  match strip "{" raw with
  | Some _ => match decode_raw_map None raw with Some (Some _) => true | _ => false end
  | None => false
  end.

(** A field that is present is a string that [ok] accepts. *)
Definition optional_string (raw : string) (ok : string → bool) : bool :=
  negb (valuePresent raw) || match decode_string "" raw with Some value => ok value | None => false end.

Record StreamCall := {
  scl_Index : option Z;
  scl_ID : string;
  scl_Type : string;
  scl_Function : string;
}.

Definition no_call : StreamCall := {| scl_Index := None; scl_ID := ""; scl_Type := ""; scl_Function := "" |}.

Definition decode_call : decoder StreamCall := λ c raw,
  ms ← struct_members raw;
  index ← field "index" (decode_ptr 0 decode_int) (scl_Index c) ms;
  id ← field "id" decode_raw (scl_ID c) ms;
  type ← field "type" decode_raw (scl_Type c) ms;
  function ← field "function" decode_raw (scl_Function c) ms;
  Some {| scl_Index := index; scl_ID := id; scl_Type := type; scl_Function := function |}.

Definition not_empty (s : string) : bool := negb (s =? "")%string.

Definition valid_call (call : StreamCall) : bool :=
  match scl_Index call with None => false | Some index => negb (index <? 0) end &&
  jsonObject (scl_Function call) &&
  optional_string (scl_ID call) not_empty &&
  optional_string (scl_Type call) (String.eqb "function") &&
  match decode_raw_map None (scl_Function call) with
  | None => false
  | Some function =>
      optional_string (raw_lookup function "name") not_empty &&
      optional_string (raw_lookup function "arguments") (λ _, true)
  end.

(** [true]: no error. *)
Definition validateCompatibleStreamDelta (raw : string) : bool :=
  match decode_raw_map None raw with
  | None | Some None => false
  | Some (Some delta) =>
      let field := raw_lookup (Some delta) in
      optional_string (field "role"%string) (String.eqb "assistant") &&
      forallb (λ name, optional_string (field name) (λ _, true))
        ["content"; "reasoning_content"; "refusal"]%string &&
      (negb (valuePresent (field "tool_calls"%string)) ||
       match decode_slice no_call decode_call nil_slice (field "tool_calls"%string) with
       | None => false
       | Some calls => negb (bool_decide (sl_elems calls = [])) && forallb valid_call (sl_elems calls)
       end)
  end.

(** A choice is its [Delta]. *)
Record ChunkEnvelope := { ce_Error : string; ce_Choices : list string; ce_Usage : string }.

Definition decode_delta : decoder string := λ delta raw,
  ms ← struct_members raw; field "delta" decode_raw delta ms.

Definition decode_chunk (data : string) : option ChunkEnvelope :=
  ms ← struct_members data;
  error ← field "error" decode_raw ""%string ms;
  choices ← field "choices" (decode_slice ""%string decode_delta) nil_slice ms;
  usage ← field "usage" decode_raw ""%string ms;
  Some {| ce_Error := error; ce_Choices := sl_elems choices; ce_Usage := usage |}.

Definition validateCompatibleChatChunk (data : string) : bool :=
  utf8_Valid data && json_valid data &&
  match decode_chunk data with
  | None => false
  | Some envelope =>
      negb (valuePresent (ce_Error envelope)) &&
      match ce_Choices envelope with
      | [] => jsonObject (ce_Usage envelope)
      | deltas => forallb (λ delta, jsonObject delta && validateCompatibleStreamDelta delta) deltas
      end
  end.

(** ** The stream *)

Record ChatStreamEvent := { ev_Data : string; ev_Done : bool }.
Definition no_event : ChatStreamEvent := {| ev_Data := ""; ev_Done := false |}.

(** [decodeEvent]: the event and whether the stream is finished by it. *)
Definition decodeEvent (data : list ascii) : result GoErr ChatStreamEvent :=
  let data := string_of_list_ascii (trim_bytes data) in
  if (data =? "[DONE]")%string then Ok {| ev_Data := ""; ev_Done := true |}
  else if validateCompatibleChatChunk data then Ok {| ev_Data := data; ev_Done := false |}
  else Err (ESentinel ErrInvalidStream).

(** The loop of [Next] over any source of lines [St]; the number of lines read
    tells whether there was activity. *)
Section next.
Context {St : Type} (read_line : St → result GoErr (list ascii) * St).

Fixpoint next_loop (fuel : nat) (data : list ascii) (lines : nat) (src : St)
  : result GoErr (list ascii) * nat * St :=
  match fuel with
  | O => (Err no_progress, lines, src)
  | S fuel =>
      let '(line, src) := read_line src in
      match line with
      | Err e => (if errors_Is io_EOF e && (0 <? len data) then Ok data else Err e, lines, src)
      | Ok [] =>
          if len data =? 0 then next_loop fuel data (S lines) src else (Ok data, S lines, src)
      | Ok (c :: r) =>
          if (c =? ":")%char then next_loop fuel data (S lines) src
          else
            let '(field, value) := splitStreamField (c :: r) in
            if negb (bool_decide (field = list_ascii_of_string "data"))
            then next_loop fuel data (S lines) src
            else
              let additional := len value + (if 0 <? len data then 1 else 0) in
              if maxStreamEventBytes <? len data + additional
              then (Err (ESentinel ErrResponseTooLarge), S lines, src)
              else next_loop fuel ((if 0 <? len data then data ++ [newline] else data) ++ value) (S lines) src
      end
  end.
End next.

(** The body and its reader are set and cleared together. *)
Record ChatEventStream := {
  st_reader : option Reader;
  st_activity : bool;             (* the channel holds its one signal *)
  st_finished : bool;
}.

(** What is left to read. *)
Definition content (rd : Reader) : list ascii := rd_buf rd ++ concat (rd_chunks rd).

Definition newChatEventStream (body : option Reader) : result GoErr ChatEventStream :=
  match body with
  | None => Err (ESentinel ErrInvalidStream)
  | Some rd =>
      Ok {| st_reader := Some rd; st_activity := false; st_finished := false |}
  end.

(** Every line takes a byte of what is left, or is the last. *)
Definition Next (s : ChatEventStream) : result GoErr ChatStreamEvent * ChatEventStream :=
  match st_reader s with
  | None => (Err (ESentinel io_EOF), s)
  | Some rd =>
      if st_finished s then (Err (ESentinel io_EOF), s)
      else
        let '(data, lines, rd') := next_loop readStreamLine (S (length (content rd))) [] 0 rd in
        let event := data ≫= decodeEvent in
        (event,
         {| st_reader := Some rd';
            st_activity := st_activity s || (0 <? Z.of_nat lines);
            st_finished := match event with Ok event => ev_Done event | Err _ => false end |})
  end.

(** The answer tells whether the body is closed by this call. *)
Definition Close (s : ChatEventStream) : bool * ChatEventStream :=
  match st_reader s with
  | Some _ => (true, {| st_reader := None; st_activity := st_activity s; st_finished := true |})
  | None => (false, s)
  end.

(** A reader of the stream: events until the end, which is [None] after
    [[DONE]]. *)
Fixpoint read_all (fuel : nat) (s : ChatEventStream) : list string * option GoErr :=
  match fuel with
  | O => ([], Some no_progress)
  | S fuel =>
      match Next s with
      | (Ok event, s) =>
          if ev_Done event then ([], None)
          else let '(l, e) := read_all fuel s in (ev_Data event :: l, e)
      | (Err e, _) => ([], Some e)
      end
  end.

(** ** What a stream of bytes says

    The lines and events of the bytes themselves, without buffers and chunks. *)

Definition limit : Z := maxStreamLineBytes + 1.

(** The next line of [bytes], which end with the error [fin]. *)
Definition spec_line (fin : GoErr) (bytes : list ascii) : result GoErr (list ascii) * list ascii :=
  match cut_line bytes with
  | Some (line, rest) =>
      if limit <? len line then (Err (ESentinel ErrResponseTooLarge), bytes)
      else (Ok (trimStreamLineEnding line), rest)
  | None =>
      if limit <? len bytes then (Err (ESentinel ErrResponseTooLarge), bytes)
      else (end_of_line bytes fin, [])
  end.

Definition spec_next (fin : GoErr) (bytes : list ascii) : result GoErr (list ascii) * nat * list ascii :=
  next_loop (spec_line fin) (S (length bytes)) [] 0 bytes.

(** ** Lines do not depend on the pieces *)

Lemma cut_line_some l line rest :
  cut_line l = Some (line, rest) → l = line ++ rest ∧ ∃ p, line = p ++ [newline] ∧ (newline ∉ p).
Proof.
  revert line. induction l as [|c l IH]; intros line; cbn; [done|].
  destruct (Ascii.eqb_spec c newline) as [->|Hc].
  - intros [= <- <-]. split; [done|]. exists []. split; [done|]. apply not_elem_of_nil.
  - destruct (cut_line l) as [[line' rest']|]; [|done]. intros [= <- <-].
    destruct (IH line' eq_refl) as (-> & p & -> & Hp). split; [done|]. exists (c :: p). split; [done|].
    rewrite elem_of_cons. intros [?|?]; [by subst | done].
Qed.

Lemma cut_line_none l : cut_line l = None ↔ newline ∉ l.
Proof.
  induction l as [|c l IH]; cbn; [split; [intros _; apply not_elem_of_nil | done]|].
  rewrite not_elem_of_cons, <-IH. destruct (Ascii.eqb_spec c newline) as [->|Hc]; [split; [done | tauto]|].
  destruct (cut_line l) as [[]|]; (split; [intros Hn|intros [_ Hn]]); done.
Qed.

Lemma cut_line_app p rest : newline ∉ p → cut_line (p ++ newline :: rest) = Some (p ++ [newline], rest).
Proof.
  induction p as [|c p IH]; cbn; [done|]. rewrite elem_of_cons. intros Hp.
  destruct (Ascii.eqb_spec c newline) as [->|Hc]; [tauto|]. rewrite IH by tauto. done.
Qed.

Record reader_ok (rd : Reader) : Prop := {
  ro_chunks : Forall (λ c, c ≠ []) (rd_chunks rd);
  ro_buf : len (rd_buf rd) ≤ streamReaderBufferBytes;
  ro_err : ∀ e, rd_err rd = Some e → e = rd_end rd ∧ rd_chunks rd = [];
}.

(** A fragment: a line or its end, a full buffer, or all there was. *)
Definition fragment_ok (rd : Reader) (r : list ascii * option SliceErr * Reader) : Prop :=
  let '(fragment, err, rd') := r in
  reader_ok rd' ∧ rd_end rd' = rd_end rd ∧ rd_eager rd' = rd_eager rd ∧
  content rd = fragment ++ content rd' ∧
  match err with
  | None => ∃ p, fragment = p ++ [newline] ∧ (newline ∉ p)
  | Some BufferFull => (newline ∉ fragment) ∧ len fragment = streamReaderBufferBytes
  | Some (SliceFailed e) => (newline ∉ fragment) ∧ e = rd_end rd ∧ content rd' = []
  end.

Lemma len_app {A} (l k : list A) : len (l ++ k) = len l + len k.
Proof. unfold len. rewrite length_app. lia. Qed.

Lemma len_nonneg {A} (l : list A) : 0 ≤ len l.
Proof. unfold len. lia. Qed.

Lemma slice_loop_ok rd chunks empty buf :
  Forall (λ c, c ≠ []) chunks → len buf ≤ streamReaderBufferBytes →
  fragment_ok (with_rest rd buf None chunks) (slice_loop rd empty chunks buf).
Proof.
  revert empty buf. induction chunks as [|c chunks IH]; intros empty buf Hne Hbuf.
  - cbn [slice_loop]. destruct (cut_line buf) as [[line rest]|] eqn:Hcut.
    { apply cut_line_some in Hcut as (-> & Hl). rewrite len_app in Hbuf. pose proof (len_nonneg line).
      unfold fragment_ok, content. cbn. rewrite !app_nil_r. repeat split; try done. cbn. lia. }
    apply cut_line_none in Hcut. destruct (Z.leb_spec (streamReaderBufferBytes - len buf) 0).
    + unfold fragment_ok, content. cbn. rewrite app_nil_r. repeat split; try done. lia.
    + unfold fragment_ok, content. cbn. by rewrite app_nil_r.
  - apply Forall_cons in Hne as [Hc Hne]. cbn [slice_loop].
    destruct (cut_line buf) as [[line rest]|] eqn:Hcut.
    { apply cut_line_some in Hcut as (-> & Hl). rewrite len_app in Hbuf. pose proof (len_nonneg line).
      unfold fragment_ok, content. cbn. rewrite <-app_assoc.
      repeat split; try done; cbn; [by apply Forall_cons | lia]. }
    apply cut_line_none in Hcut. destruct (Z.leb_spec (streamReaderBufferBytes - len buf) 0).
    { unfold fragment_ok, content. cbn. repeat split; try done; cbn; [by apply Forall_cons | lia]. }
    destruct c as [|a c]; [done|]. set (space := streamReaderBufferBytes - len buf) in *.
    destruct (Z.ltb_spec space (len (a :: c))).
    + assert (drop (Z.to_nat space) (a :: c) ≠ []) as Hd.
      { intros Hd%(f_equal length). rewrite length_drop in Hd. unfold len in *. cbn in Hd. cbn in H0. lia. }
      assert (len (take (Z.to_nat space) (a :: c)) = space) as Htake.
      { unfold len in *. rewrite length_take. lia. }
      assert (buf ++ (a :: c) ++ concat chunks =
        (buf ++ take (Z.to_nat space) (a :: c)) ++ drop (Z.to_nat space) (a :: c) ++ concat chunks) as Hall.
      { by rewrite <-app_assoc, (app_assoc (take _ _)), take_drop. }
      destruct (cut_line (buf ++ _)) as [[line rest]|] eqn:Hcut'.
      * apply cut_line_some in Hcut' as (Heq & Hl). unfold fragment_ok, content. cbn [with_rest rd_buf rd_chunks
          rd_end rd_eager concat].
        split_and!; try done.
        -- constructor; [by apply Forall_cons| |done]. cbn. apply (f_equal len) in Heq.
           rewrite !len_app, Htake in Heq. pose proof (len_nonneg line). lia.
        -- by rewrite Hall, Heq, <-app_assoc.
      * apply cut_line_none in Hcut'. unfold fragment_ok, content. cbn [with_rest rd_buf rd_chunks
          rd_end rd_eager concat].
        split_and!; try done.
        -- constructor; [by apply Forall_cons| |done]. cbn. done.
        -- rewrite len_app, Htake. lia.
    + destruct (rd_eager rd && bool_decide (chunks = [])) eqn:Heager.
      * apply andb_true_iff in Heager as [He ->%bool_decide_eq_true].
        destruct (cut_line (buf ++ _)) as [[line rest]|] eqn:Hcut'.
        -- apply cut_line_some in Hcut' as (Heq & Hl). unfold fragment_ok, content. cbn.
           rewrite !app_nil_r, <-Heq. split_and!; try done. constructor; [done| |].
           ++ cbn. apply (f_equal len) in Heq. rewrite !len_app in Heq. pose proof (len_nonneg line). lia.
           ++ cbn. by intros e [= <-].
        -- apply cut_line_none in Hcut'. unfold fragment_ok, content. cbn. rewrite !app_nil_r.
           split_and!; try done.
      * specialize (IH 99%nat (buf ++ a :: c) Hne). rewrite len_app in IH. specialize (IH ltac:(lia)).
        unfold fragment_ok, content in IH |- *. cbn [with_rest rd_buf rd_chunks rd_end rd_eager concat] in *.
        by rewrite <-app_assoc in IH.
Qed.

Lemma ReadSlice_ok rd : reader_ok rd → fragment_ok rd (ReadSlice rd).
Proof.
  intros [Hne Hbuf Herr]. unfold ReadSlice. destruct (rd_err rd) as [e|] eqn:He.
  - destruct (Herr e eq_refl) as [-> Hch].
    destruct (cut_line (rd_buf rd)) as [[line rest]|] eqn:Hcut.
    + apply cut_line_some in Hcut as (Heq & Hl). unfold fragment_ok, content. cbn.
      rewrite Hch, Heq. cbn. rewrite !app_nil_r. split_and!; try done.
      constructor; cbn; [done| |by intros e' [= <-]].
      rewrite Heq, len_app in Hbuf. pose proof (len_nonneg line). lia.
    + apply cut_line_none in Hcut. unfold fragment_ok, content. cbn. rewrite Hch. cbn.
      rewrite !app_nil_r. by split_and!.
  - destruct rd as [buf err chunks fin eager]. cbn in *. subst err.
    by apply (slice_loop_ok (Build_Reader buf None chunks fin eager)).
Qed.

(** [r] is what [spec] says, up to what is left of a line that was too long. *)
Definition too_large {A} : result GoErr A := Err (ESentinel ErrResponseTooLarge).

Definition line_agrees (rd : Reader) (r : result GoErr (list ascii) * Reader)
    (spec : result GoErr (list ascii) * list ascii) : Prop :=
  r.1 = spec.1 ∧
  (r.1 ≠ too_large → content r.2 = spec.2 ∧ reader_ok r.2 ∧ rd_end r.2 = rd_end rd).

Lemma line_loop_agrees fuel line rd :
  reader_ok rd → newline ∉ line → len line ≤ limit →
  limit < len line + Z.of_nat fuel * streamReaderBufferBytes →
  line_agrees rd (line_loop fuel line rd) (spec_line (rd_end rd) (line ++ content rd)).
Proof.
  revert line rd. induction fuel as [|fuel IH]; intros line rd Hrd Hline Hlen Hfuel; [lia|].
  cbn [line_loop]. pose proof (ReadSlice_ok rd Hrd) as Hf.
  destruct (ReadSlice rd) as [[fragment err] rd']. destruct Hf as (Hrd' & Hend & _ & Hcont & Herr).
  fold limit. rewrite Hcont. unfold spec_line. destruct err as [[|e]|].
  - destruct Herr as [Hn Hfull]. destruct (Z.ltb_spec limit (len line + len fragment)) as [Hbig|Hsmall].
    + split; [|done]. cbn [fst]. rewrite app_assoc.
      destruct (cut_line ((line ++ fragment) ++ content rd')) as [[l rest]|] eqn:Hcut.
      * apply cut_line_some in Hcut as (Heq & p & -> & Hp).
        destruct (Z.ltb_spec limit (len (p ++ [newline]))); [done|]. exfalso.
        assert (length (line ++ fragment) ≤ length p)%nat.
        { destruct (decide (length (line ++ fragment) ≤ length p)%nat); [done|]. exfalso.
          assert (((p ++ [newline]) ++ rest) !! length p = Some newline) as Hnl.
          { rewrite <-app_assoc. by apply list_lookup_middle. }
          rewrite <-Heq, lookup_app_l in Hnl by lia.
          apply list_elem_of_lookup_2, elem_of_app in Hnl. tauto. }
        unfold len in *. rewrite !length_app in *. cbn in *. lia.
      * destruct (Z.ltb_spec limit (len ((line ++ fragment) ++ content rd'))); [done|].
        rewrite !len_app in *. pose proof (len_nonneg (content rd')). lia.
    + specialize (IH (line ++ fragment) rd' Hrd'). rewrite app_assoc, <-Hend.
      unfold line_agrees in *. rewrite Hend in *. apply IH.
      * rewrite elem_of_app. tauto.
      * rewrite len_app. lia.
      * rewrite len_app, Hfull. lia.
  - destruct Herr as (Hn & -> & Hrest). rewrite Hrest, app_nil_r.
    rewrite (proj2 (cut_line_none _)) by (rewrite elem_of_app; tauto). rewrite len_app.
    destruct (Z.ltb_spec limit (len line + len fragment)); [by split|]. split; [done|]. intros _. by split_and!.
  - destruct Herr as (p & -> & Hp). assert (line ++ (p ++ [newline]) ++ content rd' = (line ++ p) ++ (newline :: content rd')) as ->
      by by rewrite <-!app_assoc.
    rewrite cut_line_app by (rewrite elem_of_app; tauto). rewrite <-app_assoc, (len_app line).
    destruct (Z.ltb_spec limit (len line + len (p ++ [newline]))); [by split|]. split; [done|]. intros _. by split_and!.
Qed.

Lemma readStreamLine_agrees rd :
  reader_ok rd → line_agrees rd (readStreamLine rd) (spec_line (rd_end rd) (content rd)).
Proof.
  intros Hrd. apply (line_loop_agrees 18 []); [done | apply not_elem_of_nil | |];
    unfold limit, maxStreamLineBytes, streamReaderBufferBytes, len; cbn; lia.
Qed.

(** ** Events do not depend on the pieces *)

Section simulation.
Context {A B : Type} (f : A → result GoErr (list ascii) * A) (g : B → result GoErr (list ascii) * B).
Context (R : A → B → Prop).
Context (Hstep : ∀ a b, R a b → (f a).1 = (g b).1 ∧ ((f a).1 ≠ too_large → R (f a).2 (g b).2)).

Lemma next_loop_sim fuel data lines a b :
  R a b →
  (next_loop f fuel data lines a).1 = (next_loop g fuel data lines b).1 ∧
  ((next_loop f fuel data lines a).1.1 ≠ too_large →
   R (next_loop f fuel data lines a).2 (next_loop g fuel data lines b).2).
Proof.
  revert data lines a b. induction fuel as [|fuel IH]; intros data lines a b Hab; [done|].
  cbn [next_loop]. destruct (Hstep a b Hab) as [Heq Hr]. destruct (f a) as [r a'], (g b) as [r' b'].
  cbn [fst snd] in *. subst r'. destruct r as [[|c r]|e].
  - specialize (Hr ltac:(done)). destruct (len data =? 0); [by apply IH | done].
  - specialize (Hr ltac:(done)). destruct (c =? ":")%char; [by apply IH|].
    destruct (splitStreamField (c :: r)) as [field value]. destruct (negb _); [by apply IH|].
    destruct (_ <? _); [done|]. by apply IH.
  - split; [done|]. intros Hne. apply Hr. intros [= ->]. by apply Hne.
Qed.

Lemma next_loop_lines fuel data n m a :
  (next_loop f fuel data n a).1.1 = (next_loop f fuel data m a).1.1 ∧
  (next_loop f fuel data n a).2 = (next_loop f fuel data m a).2.
Proof.
  revert data n m a. induction fuel as [|fuel IH]; intros data n m a; [done|]. cbn [next_loop].
  destruct (f a) as [[[|c r]|e] a']; [destruct (len data =? 0); [apply IH|done]| |done].
  destruct (c =? ":")%char; [apply IH|]. destruct (splitStreamField (c :: r)) as [field value].
  destruct (negb _); [apply IH|]. destruct (_ <? _); [done | apply IH].
Qed.

(** A source that takes something with every line ends the loop. *)
Context (size : A → nat) (Hsize : ∀ a, is_ok (f a).1 = true → (size (f a).2 < size a)%nat).

Lemma next_loop_fuel n m data lines a :
  (size a < n)%nat → (size a < m)%nat → next_loop f n data lines a = next_loop f m data lines a.
Proof.
  revert m data lines a. induction n as [|n IH]; intros [|m] data lines a Hn Hm; try lia.
  cbn [next_loop]. pose proof (Hsize a) as Hs. destruct (f a) as [r a']. cbn [fst snd] in Hs.
  destruct r as [l|e]; [|done]. specialize (Hs eq_refl).
  assert (∀ data lines, next_loop f n data lines a' = next_loop f m data lines a') as IH'
    by (intros; apply IH; lia).
  destruct l as [|c r]; [destruct (len data =? 0); [apply IH' | done]|].
  destruct (c =? ":")%char; [apply IH'|]. destruct (splitStreamField (c :: r)) as [field value].
  destruct (negb _); [apply IH'|]. destruct (_ <? _); [done | apply IH'].
Qed.
End simulation.

Lemma spec_line_shorter fin bytes :
  is_ok (spec_line fin bytes).1 = true → (length (spec_line fin bytes).2 < length bytes)%nat.
Proof.
  unfold spec_line. destruct (cut_line bytes) as [[line rest]|] eqn:Hcut.
  - apply cut_line_some in Hcut as (-> & p & -> & _). destruct (_ <? _); [done|].
    intros _. cbn. rewrite !length_app. cbn. lia.
  - destruct (_ <? _); [done|]. unfold end_of_line, len.
    destruct (errors_Is io_EOF fin && _) eqn:He; [|done]. apply andb_true_iff in He as [_ He].
    apply Z.ltb_lt in He. intros _. cbn. lia.
Qed.

Definition related (fin : GoErr) (rd : Reader) (bytes : list ascii) : Prop :=
  reader_ok rd ∧ rd_end rd = fin ∧ content rd = bytes.

Lemma related_step fin rd bytes :
  related fin rd bytes →
  (readStreamLine rd).1 = (spec_line fin bytes).1 ∧
  ((readStreamLine rd).1 ≠ too_large → related fin (readStreamLine rd).2 (spec_line fin bytes).2).
Proof.
  intros (Hrd & <- & <-). destruct (readStreamLine_agrees rd Hrd) as [Heq Hr]. split; [done|].
  intros Hne. by destruct (Hr Hne) as (? & ? & ?).
Qed.

(** The events of [bytes], and how they end. *)
Fixpoint spec_events (fuel : nat) (fin : GoErr) (bytes : list ascii) : list string * option GoErr :=
  match fuel with
  | O => ([], Some no_progress)
  | S fuel =>
      let '(data, _, rest) := spec_next fin bytes in
      match data ≫= decodeEvent with
      | Ok event =>
          if ev_Done event then ([], None)
          else let '(l, e) := spec_events fuel fin rest in (ev_Data event :: l, e)
      | Err e => ([], Some e)
      end
  end.

Lemma read_all_spec fuel s rd :
  st_reader s = Some rd → st_finished s = false → reader_ok rd →
  read_all fuel s = spec_events fuel (rd_end rd) (content rd).
Proof.
  revert s rd. induction fuel as [|fuel IH]; intros s rd Hs Hfin Hrd; [done|].
  cbn [read_all spec_events]. unfold Next, spec_next. rewrite Hs, Hfin.
  destruct (next_loop_sim readStreamLine (spec_line (rd_end rd)) (related (rd_end rd))
    (related_step (rd_end rd)) (S (length (content rd))) [] 0 rd (content rd)) as [Heq Hr]; [done|].
  destruct (next_loop readStreamLine _ _ _ _) as [[data n] rd'].
  destruct (next_loop (spec_line _) _ _ _ _) as [[data' n'] rest]. cbn [fst snd] in *.
  injection Heq as -> ->. destruct data' as [data'|e]; [|done]. cbn [mbind result_bind].
  destruct (decodeEvent data') as [event|e]; [|done]. destruct (ev_Done event) eqn:Hdone; [done|].
  destruct (Hr ltac:(done)) as (Hrd' & Hend & Hc).
  rewrite (IH {| st_reader := Some rd'; st_activity := _; st_finished := false |} rd' eq_refl
    eq_refl Hrd'). by rewrite Hend, Hc.
Qed.

Lemma read_all_new fuel rd s :
  newChatEventStream (Some rd) = Ok s → reader_ok rd →
  read_all fuel s = spec_events fuel (rd_end rd) (content rd).
Proof. intros [= <-]. by apply read_all_spec. Qed.

(** ** Writing events *)

Inductive Frame := Comment (text : list ascii) | Message (data : string).

Definition ends_line (eol : list ascii) : Prop := eol = [newline] ∨ eol = [carriage_return; newline].

Definition encode_frame (eol : list ascii) (frame : Frame) : list ascii :=
  match frame with
  | Comment text => ":"%char :: text ++ eol
  | Message data => list_ascii_of_string "data: " ++ list_ascii_of_string data ++ eol ++ eol
  end.

Definition encode_stream (eol : list ascii) (frames : list Frame) : list ascii :=
  concat (map (encode_frame eol) frames) ++ encode_frame eol (Message "[DONE]").

Definition messages (frames : list Frame) : list string :=
  omap (λ frame, match frame with Message data => Some data | Comment _ => None end) frames.

(** A comment and a message that fit on a line; the message is a chunk the gateway
    accepts, without white space around it and on one line. *)
Definition frame_ok (frame : Frame) : Prop :=
  match frame with
  | Comment text => (newline ∉ text) ∧ len text + 3 ≤ limit
  | Message data =>
      (newline ∉ list_ascii_of_string data) ∧ len (list_ascii_of_string data) + 8 ≤ limit ∧
      TrimSpace data = data ∧ validateCompatibleChatChunk data = true
  end.

#[export] Instance frame_ok_dec frame : Decision (frame_ok frame).
Proof. destruct frame; cbn; apply _. Defined.

Lemma trim_suffix_app c l : trim_suffix c (l ++ [c]) = l.
Proof.
  unfold trim_suffix. rewrite last_snoc, bool_decide_true by done. rewrite length_app. cbn.
  replace (length l + 1 - 1)%nat with (length l) by lia. apply take_app_length.
Qed.

Lemma trim_suffix_other c l : last l ≠ Some c → trim_suffix c l = l.
Proof. intros Hl. unfold trim_suffix. by rewrite bool_decide_false. Qed.

Lemma trimmed_line l eol : ends_line eol → last l ≠ Some carriage_return → trimStreamLineEnding (l ++ eol) = l.
Proof.
  intros [-> | ->] Hl; unfold trimStreamLineEnding.
  - rewrite trim_suffix_app. by apply trim_suffix_other.
  - change [carriage_return; newline] with ([carriage_return] ++ [newline]). rewrite app_assoc.
    by rewrite !trim_suffix_app.
Qed.

Lemma spec_line_encoded fin l eol rest :
  ends_line eol → (newline ∉ l) → len l + 2 ≤ limit →
  spec_line fin (l ++ eol ++ rest) = (Ok (trimStreamLineEnding (l ++ eol)), rest).
Proof.
  intros Heol Hl Hlen.
  assert (∃ p, eol = p ++ [newline] ∧ (newline ∉ p) ∧ len eol ≤ 2) as (p & -> & Hp & Hlp).
  { destruct Heol as [-> | ->]; [exists [] | exists [carriage_return]]; split_and!; try done;
      [apply not_elem_of_nil | by rewrite list_elem_of_singleton]. }
  unfold spec_line. rewrite <-app_assoc, app_assoc. cbn [app].
  rewrite cut_line_app by (rewrite elem_of_app; tauto). rewrite <-app_assoc, (len_app l).
  destruct (Z.ltb_spec limit (len l + len (p ++ [newline]))); [lia|done].
Qed.

Lemma trimmed_last l c : trim_bytes l = l → space1 c = true → last l ≠ Some c.
Proof.
  intros Ht Hc Hl. unfold trim_bytes in Ht. set (r := rev (trim_front false l)) in Ht.
  destruct (trim_front_spec true r) as [Hs _]. rewrite <-Ht in Hl.
  destruct (trim_front true r) as [|a x]; [done|]. cbn [rev] in Hl. rewrite last_snoc in Hl.
  injection Hl as ->. cbn in Hs. by rewrite Hc in Hs.
Qed.

Section encoded.
Context (fin : GoErr) (eol : list ascii) (Heol : ends_line eol).

(** The empty line. *)
Lemma spec_line_empty rest : spec_line fin (eol ++ rest) = (Ok [], rest).
Proof.
  rewrite <-(app_nil_l (eol ++ rest)), spec_line_encoded; [|done|apply not_elem_of_nil|done].
  by rewrite trimmed_line.
Qed.

Lemma comment_skipped text rest fuel n :
  frame_ok (Comment text) →
  next_loop (spec_line fin) (S fuel) [] n (encode_frame eol (Comment text) ++ rest) =
  next_loop (spec_line fin) fuel [] (S n) rest.
Proof.
  intros [Htext Hlen]. cbn [next_loop encode_frame].
  assert (newline ∉ ":"%char :: text) as Hn by (by apply not_elem_of_cons).
  change ((":"%char :: text ++ eol) ++ rest) with (((":"%char :: text) ++ eol) ++ rest).
  rewrite <-app_assoc, spec_line_encoded; [|done|done|unfold len in *; cbn [length]; lia].
  assert (∃ r, trimStreamLineEnding ((":"%char :: text) ++ eol) = ":"%char :: r) as (r & ->); [|done].
  unfold trimStreamLineEnding. destruct Heol as [-> | ->].
  - rewrite trim_suffix_app. unfold trim_suffix. case_bool_decide; [|by eexists].
    destruct text as [|c text]; [done|]. cbn. by eexists.
  - change [carriage_return; newline] with ([carriage_return] ++ [newline]). rewrite app_assoc.
    rewrite !trim_suffix_app. by eexists.
Qed.

(** A line of data. *)
Lemma message_read data rest fuel n :
  (newline ∉ list_ascii_of_string data) → len (list_ascii_of_string data) + 8 ≤ limit →
  last (list_ascii_of_string data) ≠ Some carriage_return → data ≠ ""%string →
  next_loop (spec_line fin) (S (S fuel)) [] n (encode_frame eol (Message data) ++ rest) =
  (Ok (list_ascii_of_string data), S (S n), rest).
Proof.
  intros Hn Hlen Hlast Hne. set (l := list_ascii_of_string data) in *.
  assert (l ≠ []) as Hl by (by destruct data).
  assert (newline ∉ list_ascii_of_string "data: " ++ l) as Hn'.
  { rewrite elem_of_app. intros [Hin|]; [|done]. revert Hin. apply (bool_decide_unpack _). vm_compute. exact I. }
  cbn [encode_frame]. fold l. rewrite <-!app_assoc, (app_assoc (list_ascii_of_string "data: ")).
  cbn [next_loop]. rewrite spec_line_encoded; [|done|done|rewrite len_app; unfold len in *; cbn; lia].
  rewrite trimmed_line; [|done|].
  2:{ rewrite last_app. destruct (last l) eqn:Hll; [done|]. by apply last_None in Hll. }
  assert (∃ r, list_ascii_of_string "data: " ++ l = "d"%char :: r ∧
    splitStreamField ("d"%char :: r) = (list_ascii_of_string "data", l)) as (r & -> & Hsplit) by by eexists.
  cbv match. change ("d" =? ":")%char with false. cbv match. rewrite Hsplit.
  rewrite bool_decide_true by done. cbn [negb].
  change (0 <? len []) with false. cbn [app]. change (len (@nil ascii)) with 0.
  destruct (Z.ltb_spec maxStreamEventBytes (0 + (len l + 0))).
  { unfold limit, maxStreamLineBytes, maxStreamEventBytes in *. lia. }
  rewrite spec_line_empty. destruct (Z.eqb_spec (len l) 0) as [Hz|]; [|done].
  destruct l; [done|]. unfold len in Hz. cbn in Hz. lia.
Qed.

Lemma frame_data data :
  frame_ok (Message data) →
  last (list_ascii_of_string data) ≠ Some carriage_return ∧ data ≠ ""%string ∧
  decodeEvent (list_ascii_of_string data) = Ok {| ev_Data := data; ev_Done := false |}.
Proof.
  intros (_ & _ & Htrim & Hv).
  assert (trim_bytes (list_ascii_of_string data) = list_ascii_of_string data) as Htb.
  { unfold TrimSpace in Htrim. apply (f_equal list_ascii_of_string) in Htrim.
    by rewrite list_ascii_of_string_of_list_ascii in Htrim. }
  split_and!.
  - by apply trimmed_last.
  - intros ->. by vm_compute in Hv.
  - unfold decodeEvent. rewrite Htb, string_of_list_ascii_of_string, Hv.
    destruct (String.eqb_spec data "[DONE]") as [->|]; [by vm_compute in Hv | done].
Qed.

(** The first message after any comments. *)
Fixpoint first_message (frames : list Frame) : option (string * list Frame) :=
  match frames with
  | [] => None
  | Comment _ :: frames => first_message frames
  | Message data :: frames => Some (data, frames)
  end.

Lemma next_encoded frames fuel n :
  Forall frame_ok frames → (length (encode_stream eol frames) < fuel)%nat →
  (next_loop (spec_line fin) fuel [] n (encode_stream eol frames)).1.1 =
    Ok (list_ascii_of_string (match first_message frames with Some (d, _) => d | None => "[DONE]"%string end)) ∧
  ∀ d rest, first_message frames = Some (d, rest) →
    (next_loop (spec_line fin) fuel [] n (encode_stream eol frames)).2 = encode_stream eol rest.
Proof.
  revert fuel n. induction frames as [|frame frames IH]; intros fuel n Hok Hfuel.
  - destruct fuel as [|[|fuel]]; [lia| |].
    { exfalso. unfold encode_stream in Hfuel. cbn in Hfuel. lia. }
    unfold encode_stream. cbn [map concat]. rewrite app_nil_l, <-(app_nil_r (encode_frame _ _)).
    rewrite message_read; [done| | |done|done].
    + apply (bool_decide_unpack _). vm_compute. exact I.
    + unfold limit, maxStreamLineBytes, len. cbn. lia.
  - apply Forall_cons in Hok as [Hf Hok].
    assert (encode_stream eol (frame :: frames) = encode_frame eol frame ++ encode_stream eol frames) as Henc.
    { unfold encode_stream. cbn [map concat]. by rewrite app_assoc. }
    rewrite Henc in *. rewrite length_app in Hfuel. destruct frame as [text|data].
    + destruct fuel as [|fuel]; [lia|]. rewrite comment_skipped by done. apply IH; [done|].
      cbn [encode_frame length] in Hfuel. lia.
    + destruct (frame_data data Hf) as (Hlast & Hne & _). destruct Hf as (Hn & Hlen & _).
      destruct fuel as [|[|fuel]]; [lia| |].
      { exfalso. cbn in Hfuel. lia. }
      rewrite message_read by done. split; [done|]. by intros d rest [= <- <-].
Qed.

Lemma messages_first frames :
  messages frames =
  match first_message frames with Some (d, rest) => d :: messages rest | None => [] end.
Proof. induction frames as [|[text|data] frames IH]; [done|exact IH|done]. Qed.

Lemma first_message_ok frames d rest :
  Forall frame_ok frames → first_message frames = Some (d, rest) →
  frame_ok (Message d) ∧ Forall frame_ok rest ∧ (length rest < length frames)%nat.
Proof.
  induction frames as [|[text|data] frames IH]; [done| |]; intros [Hf Hok]%Forall_cons.
  - intros Hfm. destruct (IH Hok Hfm) as (? & ? & ?). split; [done|split; [done|cbn; lia]].
  - intros [= <- <-]. split; [done|split; [done|cbn; lia]].
Qed.

Lemma events_encoded fuel frames :
  Forall frame_ok frames → (length frames < fuel)%nat →
  spec_events fuel fin (encode_stream eol frames) = (messages frames, None).
Proof.
  revert frames. induction fuel as [|fuel IH]; intros frames Hok Hfuel; [lia|].
  cbn [spec_events]. unfold spec_next.
  destruct (next_encoded frames (S (length (encode_stream eol frames))) 0 Hok ltac:(lia)) as [Heq Hrest].
  destruct (next_loop _ _ _ _ _) as [[data n] rest]. cbn [fst snd] in *. subst data.
  rewrite messages_first. cbn [mbind result_bind].
  destruct (first_message frames) as [[d fs]|] eqn:Hfirst; [|done].
  destruct (first_message_ok _ _ _ Hok Hfirst) as (Hd & Hfs & Hlen).
  destruct (frame_data d Hd) as (_ & _ & ->). cbn [ev_Done ev_Data].
  rewrite (Hrest d fs eq_refl). by rewrite IH by (done || lia).
Qed.
End encoded.

(** ** What a stream hands on *)

Lemma spec_next_shorter fin fuel data n bytes d k rest :
  next_loop (spec_line fin) fuel data n bytes = (Ok d, k, rest) →
  (length rest < length bytes + length data)%nat ∧ (length rest ≤ length bytes)%nat.
Proof.
  revert data n bytes. induction fuel as [|fuel IH]; intros data n bytes; [done|]. cbn [next_loop].
  pose proof (spec_line_shorter fin bytes) as Hs.
  assert (∀ l rest' data', (length rest' < length bytes)%nat →
    next_loop (spec_line fin) fuel data' l rest' = (Ok d, k, rest) →
    (length rest < length bytes)%nat) as Hrec.
  { intros l rest' data' Hlt Hl. apply IH in Hl. lia. }
  destruct (spec_line fin bytes) as [[l|e] rest'] eqn:Hline.
  - specialize (Hs eq_refl). cbn in Hs. intros Hl. cut (length rest < length bytes)%nat; [lia|].
    destruct l as [|c r].
    { destruct (len data =? 0); [by eapply Hrec|]. by injection Hl as _ _ <-. }
    destruct (c =? ":")%char; [by eapply Hrec|]. destruct (splitStreamField (c :: r)) as [field value].
    destruct (negb _); [by eapply Hrec|]. destruct (_ <? _); [done | by eapply Hrec].
  - destruct (errors_Is io_EOF e && (0 <? len data)) eqn:He; [|done]. intros [= <- _ <-].
    apply andb_true_iff in He as [He Hd]. apply Z.ltb_lt in Hd. unfold len in Hd.
    assert (length rest' ≤ length bytes)%nat; [|lia].
    unfold spec_line in Hline. repeat case_match; simplify_eq/=; lia.
Qed.

Lemma spec_events_fuel fin n m bytes :
  (length bytes < n)%nat → (length bytes < m)%nat → spec_events n fin bytes = spec_events m fin bytes.
Proof.
  revert m bytes. induction n as [|n IH]; intros [|m] bytes Hn Hm; try lia. cbn [spec_events].
  unfold spec_next. destruct (next_loop _ _ _ _ _) as [[data k] rest] eqn:Hl.
  destruct data as [d|e]; [|done]. apply spec_next_shorter in Hl as [Hl _]. cbn in Hl.
  cbn [mbind result_bind]. destruct (decodeEvent d) as [event|e]; [|done].
  destruct (ev_Done event); [done|]. by rewrite (IH m) by lia.
Qed.

Lemma next_loop_bounded {St} (f : St → result GoErr (list ascii) * St) fuel data n a d :
  len data ≤ maxStreamEventBytes → (next_loop f fuel data n a).1.1 = Ok d → len d ≤ maxStreamEventBytes.
Proof.
  revert data n a. induction fuel as [|fuel IH]; intros data n a Hdata; [done|]. cbn [next_loop].
  destruct (f a) as [[[|c r]|e] a'].
  - destruct (len data =? 0); [by apply IH | by intros [= <-]].
  - destruct (c =? ":")%char; [by apply IH|]. destruct (splitStreamField (c :: r)) as [field value].
    destruct (negb _); [by apply IH|]. destruct (Z.ltb_spec maxStreamEventBytes
      (len data + (len value + (if 0 <? len data then 1 else 0)))); [done|].
    apply IH. destruct (0 <? len data); rewrite ?len_app in *; unfold len in *; cbn; lia.
  - destruct (_ && _); [by intros [= <-] | done].
Qed.

Lemma trim_front_length r l : (length (trim_front r l) ≤ length l)%nat.
Proof. destruct (trim_front_spec r l) as [_ [p Hp]]. rewrite Hp at 2. rewrite length_app. lia. Qed.

Lemma trim_bytes_length l : len (trim_bytes l) ≤ len l.
Proof.
  unfold len, trim_bytes. rewrite length_rev. pose proof (trim_front_length true (rev (trim_front false l))).
  rewrite length_rev in H. pose proof (trim_front_length false l). lia.
Qed.

(** C14: what reaches a client was checked. Whatever the upstream sends, in whatever
    pieces, an answer of [Next] is the end mark, which finishes the stream, or an
    event of at most 2 MiB without white space around it that is UTF-8, valid
    JSON and a well-formed chat chunk; after the end mark, and after [Close],
    there is nothing but [io.EOF]. *)
Theorem stream_next_checked s event s' :
  Next s = (Ok event, s') →
  (ev_Done event = true ∧ ev_Data event = ""%string ∧ Next s' = (Err (ESentinel io_EOF), s')) ∨
  (ev_Done event = false ∧ str_len (ev_Data event) ≤ maxStreamEventBytes ∧
   TrimSpace (ev_Data event) = ev_Data event ∧ utf8_Valid (ev_Data event) = true ∧
   json_valid (ev_Data event) = true ∧ validateCompatibleChatChunk (ev_Data event) = true ∧
   Next (Close s').2 = (Err (ESentinel io_EOF), (Close s').2)).
Proof.
  unfold Next at 1. destruct (st_reader s) as [rd|]; [|done]. destruct (st_finished s); [done|].
  pose proof (λ d, next_loop_bounded readStreamLine (S (length (content rd))) [] 0 rd d ltac:(done)) as Hlen.
  destruct (next_loop _ _ _ _ _) as [[data n] rd']. cbn [fst] in Hlen.
  destruct data as [d|e]; [|done]. specialize (Hlen d eq_refl). cbn [mbind result_bind].
  unfold decodeEvent. set (text := string_of_list_ascii (trim_bytes d)).
  assert (str_len text ≤ maxStreamEventBytes) as Hl.
  { unfold str_len, text. rewrite length_string_of_list. pose proof (trim_bytes_length d). unfold len in *. lia. }
  destruct (text =? "[DONE]")%string; [intros [= <- <-]; by left|].
  destruct (validateCompatibleChatChunk text) eqn:Hv; [|done]. intros [= <- <-]. right. cbn [ev_Done ev_Data].
  pose proof Hv as Hv'. unfold validateCompatibleChatChunk in Hv'. apply andb_true_iff in Hv' as [Hv' _].
  apply andb_true_iff in Hv' as [Hu Hj]. split_and!; try done.
  unfold TrimSpace, text. by rewrite list_ascii_of_string_of_list_ascii, trim_bytes_idem.
Qed.

(** The events do not depend on how the network cuts the bytes. Two bodies with
    the same bytes and the same end, in any non-empty pieces, the end reported
    with the last piece or after it, give the same events and end alike; and
    as many rounds as there are bytes are enough to reach the end. *)
Theorem stream_pieces_irrelevant s1 s2 rd1 rd2 n m :
  newChatEventStream (Some rd1) = Ok s1 → newChatEventStream (Some rd2) = Ok s2 →
  reader_ok rd1 → reader_ok rd2 → content rd1 = content rd2 → rd_end rd1 = rd_end rd2 →
  (length (content rd1) < n)%nat → (length (content rd1) < m)%nat →
  read_all n s1 = read_all m s2.
Proof.
  intros Hs1 Hs2 H1 H2 Hc He Hn Hm. rewrite (read_all_new n rd1), (read_all_new m rd2) by done.
  rewrite <-Hc, <-He. by apply spec_events_fuel.
Qed.

(** C13: what is written is read back. A stream of messages with any comments between
    them, ended by [[DONE]], with either line ending, cut into any pieces, is
    read as exactly these messages, in order. *)
Theorem stream_roundtrip eol frames rd s :
  ends_line eol → Forall frame_ok frames → reader_ok rd →
  content rd = encode_stream eol frames → newChatEventStream (Some rd) = Ok s →
  read_all (S (length frames)) s = (messages frames, None).
Proof.
  intros Heol Hok Hrd Hc Hs. rewrite (read_all_new _ rd) by done. rewrite Hc. apply events_encoded; [done|done|lia].
Qed.

(** ** Concrete instances *)

Definition demo_chunk : string := text "{'choices':[{'delta':{'role':'assistant','content':'hi'}}]}".
Definition demo_tool_chunk : string := text
  "{'choices':[{'delta':{'tool_calls':[{'index':0,'id':'c','function':{'name':'f','arguments':''}}]}}]}".
Definition demo_usage_chunk : string := text "{'choices':[],'usage':{'prompt_tokens':1}}".
Definition demo_frames : list Frame :=
  [Comment (list_ascii_of_string " ping"); Message demo_chunk; Message demo_tool_chunk; Comment [];
   Message demo_usage_chunk].
Definition crlf : list ascii := [carriage_return; newline].

Example chunks_checked :
  map validateCompatibleChatChunk
    (map text ["{'choices':[]}"; "{'error':{},'choices':[{'delta':{}}]}"; "{'choices':[{'delta':{'role':'user'}}]}";
          "{'choices':[{'delta':{'tool_calls':[{'function':{}}]}}]}"; "{'choices':[{'delta':null}]}";
          "{'choices':[{'delta':{}}],'error':null}"]) = [false; false; false; false; false; true].
Proof. vm_compute. reflexivity. Qed.

(** The bytes in pieces of [n]. *)
Fixpoint pieces (fuel n : nat) (l : list ascii) : list (list ascii) :=
  match fuel with
  | O => []
  | S fuel => match l with [] => [] | _ => take n l :: pieces fuel n (drop n l) end
  end.

Definition demo_reader (n : nat) (eager : bool) : Reader :=
  {| rd_buf := []; rd_err := None; rd_chunks := pieces 300 n (encode_stream crlf demo_frames);
     rd_end := ESentinel io_EOF; rd_eager := eager |}.
Definition demo_stream (n : nat) (eager : bool) : ChatEventStream :=
  {| st_reader := Some (demo_reader n eager); st_activity := false; st_finished := false |}.

Lemma demo_frames_ok : Forall frame_ok demo_frames.
Proof. apply (bool_decide_unpack _). vm_compute. exact I. Qed.

Lemma demo_reader_ok n eager :
  bool_decide (Forall (λ c, c ≠ []) (rd_chunks (demo_reader n eager))) = true → reader_ok (demo_reader n eager).
Proof. intros Hc. constructor; [by apply bool_decide_eq_true in Hc | done | done]. Qed.

Lemma demo_content_7 : content (demo_reader 7 true) = encode_stream crlf demo_frames.
Proof. vm_compute. reflexivity. Qed.

Lemma demo_content_64 : content (demo_reader 64 false) = encode_stream crlf demo_frames.
Proof. vm_compute. reflexivity. Qed.

Lemma stream_roundtrip_witness :
  read_all 6 (demo_stream 7 true) = ([demo_chunk; demo_tool_chunk; demo_usage_chunk], None).
Proof.
  exact (stream_roundtrip crlf demo_frames (demo_reader 7 true) (demo_stream 7 true) (or_intror eq_refl)
    demo_frames_ok (demo_reader_ok 7 true eq_refl) demo_content_7 eq_refl).
Defined.

Lemma demo_content_bound : (length (content (demo_reader 7 true)) < 400)%nat.
Proof. vm_compute. lia. Qed.

Lemma stream_pieces_irrelevant_witness :
  read_all 400 (demo_stream 7 true) = read_all 500 (demo_stream 64 false).
Proof.
  exact (stream_pieces_irrelevant _ _ (demo_reader 7 true) (demo_reader 64 false) 400 500 eq_refl eq_refl
    (demo_reader_ok 7 true eq_refl) (demo_reader_ok 64 false eq_refl)
    (eq_trans demo_content_7 (eq_sym demo_content_64)) eq_refl demo_content_bound
    (Nat.lt_trans _ _ 500 demo_content_bound ltac:(lia))).
Defined.

Definition demo_first : result GoErr ChatStreamEvent * ChatEventStream :=
  Eval vm_compute in Next (demo_stream 7 true).

Lemma demo_first_next :
  Next (demo_stream 7 true) = (Ok {| ev_Data := demo_chunk; ev_Done := false |}, demo_first.2).
Proof. vm_compute. reflexivity. Qed.

Lemma stream_next_checked_witness :
  json_valid demo_chunk = true ∧ validateCompatibleChatChunk demo_chunk = true.
Proof.
  destruct (stream_next_checked _ _ _ demo_first_next) as [[H _]|(_ & _ & _ & _ & Hj & Hv & _)];
    [discriminate H | exact (conj Hj Hv)].
Defined.
