(* ===== verification/Breaker.v ===== *)
(** * The circuit breaker of one provider

    Models [src/internal/reliability/breaker.go]. A breaker is one record; its
    methods hold [breaker.mu] from start to end, so each is one function from
    state to state, with the instant [breaker.now()] returns as an argument. A
    [Permit] is the caller's token; its [completed] flag is set by an atomic
    compare-and-swap before the breaker is locked, which the step relation at
    the end keeps as two separate steps. *)

From S2P Require Import Prelude Failure.

(** ** Configuration *)

Definition minimumOpenDuration : Duration := second.
Definition maximumOpenDuration : Duration := 10 * minute.
Definition maximumFailures : Z := 1000.
Definition maximumProbes : Z := 100.

Record BreakerConfig := {
  FailureThreshold : Z;
  OpenDuration : Duration;
  HalfOpenMaxProbes : Z;
}.

#[export] Instance BreakerConfig_eq_dec : EqDecision BreakerConfig.
Proof. solve_decision. Defined.

Definition DefaultBreakerConfig : BreakerConfig :=
  {| FailureThreshold := 5; OpenDuration := 30 * second; HalfOpenMaxProbes := 1 |}.

Inductive BreakerError :=
| breaker_threshold_range
| breaker_duration_range
| breaker_probes_range
| breaker_provider_required
| breaker_provider_empty (index : nat)
| breaker_provider_duplicated (providerID : string)
| breaker_config_missing (providerID : string)
| breaker_registry_empty.

Definition BreakerConfig_Validate (config : BreakerConfig) : option BreakerError :=
  if (FailureThreshold config <? 1) || (maximumFailures <? FailureThreshold config)
  then Some breaker_threshold_range
  else if (OpenDuration config <? minimumOpenDuration) ||
          (maximumOpenDuration <? OpenDuration config)
  then Some breaker_duration_range
  else if (HalfOpenMaxProbes config <? 1) || (maximumProbes <? HalfOpenMaxProbes config)
  then Some breaker_probes_range
  else None.

(** ** State *)

Inductive BreakerState := StateClosed | StateOpen | StateHalfOpen.

#[export] Instance BreakerState_eq_dec : EqDecision BreakerState.
Proof. solve_decision. Defined.

Record Breaker := {
  br_providerID : string;
  br_config : BreakerConfig;
  br_state : BreakerState;
  br_generation : Z;
  br_consecutiveFailures : Z;
  br_openedUntil : Time;
  br_halfOpenInFlight : Z;
  br_halfOpenSuccesses : Z;
  br_rejected : Z;
}.

Record BreakerSnapshot := {
  bs_ProviderID : string;
  bs_State : BreakerState;
  bs_ConsecutiveFailures : Z;
  bs_OpenedUntil : Time;
  bs_HalfOpenInFlight : Z;
  bs_HalfOpenSuccesses : Z;
  bs_Rejected : Z;
}.

Record Permit := {
  p_generation : Z;
  p_probe : bool;
  p_completed : bool;
}.

(** The clock is never nil here: it is the argument [now] of each method. *)
Definition NewBreaker (providerID : string) (config : BreakerConfig)
  : result BreakerError Breaker :=
  let providerID := TrimSpace providerID in
  if (providerID =? "")%string then Err breaker_provider_required
  else match BreakerConfig_Validate config with
  | Some e => Err e
  | None =>
      Ok {| br_providerID := providerID; br_config := config; br_state := StateClosed;
            br_generation := 0; br_consecutiveFailures := 0; br_openedUntil := time_zero;
            br_halfOpenInFlight := 0; br_halfOpenSuccesses := 0; br_rejected := 0 |}
  end.

(** Assignments to the counters. *)
Definition br_set (b : Breaker) (st : BreakerState) (gen failures : Z) (until : Time)
    (inflight successes : Z) : Breaker :=
  {| br_providerID := br_providerID b; br_config := br_config b; br_state := st;
     br_generation := gen; br_consecutiveFailures := failures; br_openedUntil := until;
     br_halfOpenInFlight := inflight; br_halfOpenSuccesses := successes;
     br_rejected := br_rejected b |}.
Definition br_set_failures (b : Breaker) (n : Z) : Breaker :=
  br_set b (br_state b) (br_generation b) n (br_openedUntil b) (br_halfOpenInFlight b)
    (br_halfOpenSuccesses b).
Definition br_set_probes (b : Breaker) (inflight successes : Z) : Breaker :=
  br_set b (br_state b) (br_generation b) (br_consecutiveFailures b) (br_openedUntil b)
    inflight successes.
Definition br_set_rejected (b : Breaker) (n : Z) : Breaker :=
  {| br_providerID := br_providerID b; br_config := br_config b; br_state := br_state b;
     br_generation := br_generation b; br_consecutiveFailures := br_consecutiveFailures b;
     br_openedUntil := br_openedUntil b; br_halfOpenInFlight := br_halfOpenInFlight b;
     br_halfOpenSuccesses := br_halfOpenSuccesses b; br_rejected := n |}.

(** ** Transitions *)

Definition Breaker_advance (b : Breaker) (now : Time) : Breaker :=
  if negb (bool_decide (br_state b = StateOpen)) || time_before now (br_openedUntil b) then b
  else br_set b StateHalfOpen (wrap_uint64 (br_generation b + 1)) (br_consecutiveFailures b)
         (br_openedUntil b) 0 0.

Definition Breaker_open (b : Breaker) (now : Time) : Breaker :=
  br_set b StateOpen (wrap_uint64 (br_generation b + 1)) (FailureThreshold (br_config b))
    (time_add now (OpenDuration (br_config b))) 0 0.

Definition Breaker_close (b : Breaker) : Breaker :=
  br_set b StateClosed (wrap_uint64 (br_generation b + 1)) 0 time_zero 0 0.

Definition Breaker_Allow (b : Breaker) (now : Time) : result Failure Permit * Breaker :=
  let b := Breaker_advance b now in
  let reject :=
    let retryAfter := time_sub (br_openedUntil b) now in
    let retryAfter := if retryAfter <? 0 then 0 else retryAfter in
    (Err (f_with_retry_after (new_failure CategoryBreaker (br_providerID b)) retryAfter false),
     br_set_rejected b (wrap_uint64 (br_rejected b + 1))) in
  match br_state b with
  | StateClosed =>
      (Ok {| p_generation := br_generation b; p_probe := false; p_completed := false |}, b)
  | StateHalfOpen =>
      if br_halfOpenInFlight b <? HalfOpenMaxProbes (br_config b) then
        let b := br_set_probes b (br_halfOpenInFlight b + 1) (br_halfOpenSuccesses b) in
        (Ok {| p_generation := br_generation b; p_probe := true; p_completed := false |}, b)
      else reject
  | StateOpen => reject
  end.

Definition Breaker_Snapshot (b : Breaker) (now : Time) : BreakerSnapshot * Breaker :=
  let b := Breaker_advance b now in
  ({| bs_ProviderID := br_providerID b; bs_State := br_state b;
      bs_ConsecutiveFailures := br_consecutiveFailures b;
      bs_OpenedUntil := br_openedUntil b; bs_HalfOpenInFlight := br_halfOpenInFlight b;
      bs_HalfOpenSuccesses := br_halfOpenSuccesses b; bs_Rejected := br_rejected b |}, b).

Definition Breaker_completeProbe (b : Breaker) (failure : option Failure) (now : Time)
  : Breaker :=
  if negb (bool_decide (br_state b = StateHalfOpen)) then b
  else
    let b := if 0 <? br_halfOpenInFlight b
             then br_set_probes b (br_halfOpenInFlight b - 1) (br_halfOpenSuccesses b) else b in
    match failure with
    | None =>
        let b := br_set_probes b (br_halfOpenInFlight b) (br_halfOpenSuccesses b + 1) in
        if HalfOpenMaxProbes (br_config b) <=? br_halfOpenSuccesses b then Breaker_close b else b
    | Some _ =>
        if sig_CountBreaker (SignalsFor failure) then Breaker_open b now else b
    end.

Definition Breaker_complete (b : Breaker) (permit : Permit) (failure : option Failure)
    (now : Time) : Breaker :=
  if negb (p_generation permit =? br_generation b) then b
  else if p_probe permit then Breaker_completeProbe b failure now
  else if negb (bool_decide (br_state b = StateClosed)) then b
  else match failure with
  | None => br_set_failures b 0
  | Some _ =>
      if negb (sig_CountBreaker (SignalsFor failure)) then b
      else
        let b := br_set_failures b (br_consecutiveFailures b + 1) in
        if FailureThreshold (br_config b) <=? br_consecutiveFailures b
        then Breaker_open b now else b
  end.

Definition Breaker_abandon (b : Breaker) (permit : Permit) : Breaker :=
  if (p_generation permit =? br_generation b) && p_probe permit &&
     bool_decide (br_state b = StateHalfOpen) && (0 <? br_halfOpenInFlight b)
  then br_set_probes b (br_halfOpenInFlight b - 1) (br_halfOpenSuccesses b) else b.

Definition p_set_completed (p : Permit) : Permit :=
  {| p_generation := p_generation p; p_probe := p_probe p; p_completed := true |}.

(** [Complete] and [Abandon] on a nil permit answer false; a permit of the
    model is never nil. *)
Definition Permit_Complete (p : Permit) (failure : option Failure) (b : Breaker) (now : Time)
  : bool * Permit * Breaker :=
  if p_completed p then (false, p, b)
  else (true, p_set_completed p, Breaker_complete b p failure now).

Definition Permit_Abandon (p : Permit) (b : Breaker) : bool * Permit * Breaker :=
  if p_completed p then (false, p, b)
  else (true, p_set_completed p, Breaker_abandon b p).

(** ** Functional behaviour of the operations *)

Lemma Validate_bounds config :
  BreakerConfig_Validate config = None →
  1 ≤ FailureThreshold config ≤ maximumFailures ∧
  minimumOpenDuration ≤ OpenDuration config ≤ maximumOpenDuration ∧
  1 ≤ HalfOpenMaxProbes config ≤ maximumProbes.
Proof. unfold BreakerConfig_Validate. repeat case_match; try done. lia. Qed.

Lemma NewBreaker_ok id config b :
  NewBreaker id config = Ok b →
  BreakerConfig_Validate config = None ∧ br_config b = config ∧ br_state b = StateClosed ∧
  br_generation b = 0 ∧ br_consecutiveFailures b = 0 ∧ br_halfOpenInFlight b = 0 ∧
  br_halfOpenSuccesses b = 0 ∧ br_providerID b = TrimSpace id.
Proof.
  unfold NewBreaker. destruct (_ =? "")%string; [done|]. case_match; [done|].
  intros H'. injection H' as <-. done.
Qed.

(** ** Concurrent use: the step relation

    Any number of goroutines share the breaker; each permit goes through its
    compare-and-swap ([bs_complete_begin], [bs_abandon_begin]) and later, when
    its holder gets the lock, through the breaker's own method. *)

Inductive PermitCall :=
| Held
| Completing (failure : option Failure)
| Abandoning
| Settled.

Record BSys := {
  sys_now : Time;
  sys_breaker : Breaker;
  sys_permits : list (Permit * PermitCall);
}.

Inductive bstep : BSys → BSys → Prop :=
| bs_tick t t' b ps :
    t ≤ t' → bstep {| sys_now := t; sys_breaker := b; sys_permits := ps |}
                   {| sys_now := t'; sys_breaker := b; sys_permits := ps |}
| bs_allow t b ps p b' :
    Breaker_Allow b t = (Ok p, b') →
    bstep {| sys_now := t; sys_breaker := b; sys_permits := ps |}
          {| sys_now := t; sys_breaker := b'; sys_permits := ps ++ [(p, Held)] |}
| bs_reject t b ps f b' :
    Breaker_Allow b t = (Err f, b') →
    bstep {| sys_now := t; sys_breaker := b; sys_permits := ps |}
          {| sys_now := t; sys_breaker := b'; sys_permits := ps |}
| bs_snapshot t b ps :
    bstep {| sys_now := t; sys_breaker := b; sys_permits := ps |}
          {| sys_now := t; sys_breaker := snd (Breaker_Snapshot b t); sys_permits := ps |}
| bs_complete_begin t b ps i p f :
    ps !! i = Some (p, Held) →
    bstep {| sys_now := t; sys_breaker := b; sys_permits := ps |}
          {| sys_now := t; sys_breaker := b;
             sys_permits := <[i := (p_set_completed p, Completing f)]> ps |}
| bs_complete_end t b ps i p f :
    ps !! i = Some (p, Completing f) →
    bstep {| sys_now := t; sys_breaker := b; sys_permits := ps |}
          {| sys_now := t; sys_breaker := Breaker_complete b p f t;
             sys_permits := <[i := (p, Settled)]> ps |}
| bs_abandon_begin t b ps i p :
    ps !! i = Some (p, Held) →
    bstep {| sys_now := t; sys_breaker := b; sys_permits := ps |}
          {| sys_now := t; sys_breaker := b;
             sys_permits := <[i := (p_set_completed p, Abandoning)]> ps |}
| bs_abandon_end t b ps i p :
    ps !! i = Some (p, Abandoning) →
    bstep {| sys_now := t; sys_breaker := b; sys_permits := ps |}
          {| sys_now := t; sys_breaker := Breaker_abandon b p;
             sys_permits := <[i := (p, Settled)]> ps |}.

Definition bsys_init (t : Time) (b : Breaker) : BSys :=
  {| sys_now := t; sys_breaker := b; sys_permits := [] |}.

(** A probe the breaker still has in flight: of the current generation and not
    yet accounted for. *)
Definition live_probe (gen : Z) (e : Permit * PermitCall) : Z :=
  match e with
  | (_, Settled) => 0
  | (p, _) => if p_probe p && (p_generation p =? gen) then 1 else 0
  end.

Definition live_probes (s : BSys) : Z :=
  sumZ (live_probe (br_generation (sys_breaker s))) (sys_permits s).

Lemma live_probe_range g e : 0 ≤ live_probe g e ≤ 1.
Proof. destruct e as [p []]; cbn; try case_match; lia. Qed.

(** No permit comes from a generation after [g]. *)
Definition no_newer (g : Z) (ps : list (Permit * PermitCall)) : Prop :=
  ∀ e, e ∈ ps → p_generation e.1 ≤ g.

Lemma no_newer_insert g ps i e e' :
  no_newer g ps → ps !! i = Some e → p_generation e'.1 = p_generation e.1 →
  no_newer g (<[i:=e']> ps).
Proof.
  intros Hps Hi He x [->|Hx]%elem_of_insert_inv; [|by apply Hps].
  rewrite He. apply Hps. by eapply list_elem_of_lookup_2.
Qed.

Lemma live_probe_old g g' ps : g < g' → no_newer g ps → sumZ (live_probe g') ps = 0.
Proof.
  intros Hg Hps. apply sumZ_zero. intros [p c] He. specialize (Hps _ He). cbn in *.
  destruct c; try done; rewrite (proj2 (Z.eqb_neq _ _)) by lia; by rewrite andb_false_r.
Qed.

(** The breaker's own bookkeeping, given the number [live] of live probes. *)
Definition br_counts_ok (b : Breaker) (live : Z) : Prop :=
  let c := br_config b in
  match br_state b with
  | StateClosed =>
      live = 0 ∧ br_halfOpenInFlight b = 0 ∧ br_halfOpenSuccesses b = 0 ∧
      0 ≤ br_consecutiveFailures b < FailureThreshold c
  | StateOpen =>
      live = 0 ∧ br_halfOpenInFlight b = 0 ∧ br_halfOpenSuccesses b = 0 ∧
      br_consecutiveFailures b = FailureThreshold c
  | StateHalfOpen =>
      br_halfOpenInFlight b = live ∧ 0 ≤ live ≤ HalfOpenMaxProbes c ∧
      0 ≤ br_halfOpenSuccesses b < HalfOpenMaxProbes c ∧
      br_consecutiveFailures b = FailureThreshold c
  end.

Record bsys_ok (config : BreakerConfig) (n : nat) (s : BSys) : Prop := {
  ok_config : br_config (sys_breaker s) = config;
  ok_gen : 0 ≤ br_generation (sys_breaker s) ≤ Z.of_nat n;
  ok_old : no_newer (br_generation (sys_breaker s)) (sys_permits s);
  ok_counts : br_counts_ok (sys_breaker s) (live_probes s);
}.

(** What an operation may do: it keeps the configuration and either stays in
    its generation, or starts the next one, where no live probe is left. *)
Definition live_after (b b' : Breaker) (live : Z) : Z :=
  if br_generation b' =? br_generation b then live else 0.

Definition probe_weight (b : Breaker) (p : Permit) : Z :=
  if p_probe p && (p_generation p =? br_generation b) then 1 else 0.

Definition br_moves (b b' : Breaker) : Prop :=
  br_config b' = br_config b ∧
  (br_generation b' = br_generation b ∨ br_generation b' = br_generation b + 1).

Lemma relive b b' ps :
  br_moves b b' → no_newer (br_generation b) ps →
  sumZ (live_probe (br_generation b')) ps =
  live_after b b' (sumZ (live_probe (br_generation b)) ps).
Proof.
  intros [_ Hg] Hps. unfold live_after. case_match.
  - f_equal. f_equal. lia.
  - apply (live_probe_old (br_generation b)); [lia | done].
Qed.

Section operations.
Context (b : Breaker) (live : Z).
Hypothesis Hvalid : BreakerConfig_Validate (br_config b) = None.
Hypothesis Hgen : 0 ≤ br_generation b < two64 - 1.
Hypothesis Hok : br_counts_ok b live.

Local Ltac crush :=
  unfold br_moves, live_after, br_counts_ok, Breaker_open, Breaker_close, probe_weight in *;
  cbn in *; rewrite ?(wrap_uint64_id (br_generation b + 1)) by lia;
  repeat case_match; cbn in *; rewrite ?(wrap_uint64_id (br_generation b + 1)) in * by lia;
  try congruence; try lia; intuition (congruence || lia).

Lemma advance_ok now :
  br_moves b (Breaker_advance b now) ∧
  br_counts_ok (Breaker_advance b now) (live_after b (Breaker_advance b now) live) ∧
  (br_generation (Breaker_advance b now) ≠ br_generation b →
   br_state (Breaker_advance b now) = StateHalfOpen ∧
   br_halfOpenInFlight (Breaker_advance b now) = 0).
Proof.
  pose proof (Validate_bounds _ Hvalid). unfold Breaker_advance.
  case_bool_decide; cbn; [|crush].
  destruct (time_before now (br_openedUntil b)); crush.
Qed.

Lemma complete_ok p f now :
  probe_weight b p ≤ live →
  br_moves b (Breaker_complete b p f now) ∧
  br_counts_ok (Breaker_complete b p f now)
    (live_after b (Breaker_complete b p f now) (live - probe_weight b p)).
Proof.
  pose proof (Validate_bounds _ Hvalid). intros Hw.
  unfold Breaker_complete, Breaker_completeProbe, probe_weight in *.
  destruct (p_generation p =? br_generation b), (p_probe p); cbn in *; try solve [crush].
  - case_bool_decide; cbn; [|crush].
    destruct (0 <? br_halfOpenInFlight b) eqn:E; crush.
  - case_bool_decide; crush.
Qed.

Lemma abandon_ok p :
  probe_weight b p ≤ live →
  br_moves b (Breaker_abandon b p) ∧
  br_counts_ok (Breaker_abandon b p)
    (live_after b (Breaker_abandon b p) (live - probe_weight b p)).
Proof.
  intros Hw. unfold Breaker_abandon, probe_weight in *.
  destruct (p_generation p =? br_generation b), (p_probe p); cbn in *; try solve [crush].
  case_bool_decide; cbn; [|crush].
  destruct (0 <? br_halfOpenInFlight b) eqn:E; crush.
Qed.
End operations.

Lemma allow_ok b live now r b' :
  BreakerConfig_Validate (br_config b) = None → 0 ≤ br_generation b < two64 - 1 →
  br_counts_ok b live → Breaker_Allow b now = (r, b') →
  br_moves b b' ∧
  match r with
  | Ok p => p_generation p = br_generation b' ∧
            br_counts_ok b' (live_after b b' live + probe_weight b' p)
  | Err _ => br_counts_ok b' (live_after b b' live)
  end.
Proof.
  intros Hv Hg Hok. destruct (advance_ok b live Hv Hg Hok now) as (Hm & Hc & _).
  unfold Breaker_Allow. set (a := Breaker_advance b now) in *.
  unfold br_moves, live_after, br_counts_ok, probe_weight in *.
  destruct (br_state a) eqn:Es; [| |destruct (_ <? _) eqn:El]; intros [= <- <-]; cbn in *;
    rewrite ?Es, ?Z.eqb_refl; intuition lia.
Qed.

Lemma no_newer_moves b b' ps :
  br_moves b b' → no_newer (br_generation b) ps → no_newer (br_generation b') ps.
Proof. intros [_ Hm] Hps e He. specialize (Hps _ He). lia. Qed.

(** A step that moves the breaker from [b] to [b'] and changes at most one
    permit's call re-establishes the invariant from the breaker's bookkeeping. *)
Lemma bsys_build n t b b' ps ps' :
  0 ≤ br_generation b ≤ Z.of_nat n → br_moves b b' → no_newer (br_generation b') ps' →
  no_newer (br_generation b) ps →
  br_counts_ok b' (live_after b b' (sumZ (live_probe (br_generation b)) ps) +
                   (sumZ (live_probe (br_generation b')) ps' -
                    sumZ (live_probe (br_generation b')) ps)) →
  bsys_ok (br_config b) (S n) {| sys_now := t; sys_breaker := b'; sys_permits := ps' |}.
Proof.
  intros Hg Hm Hn' Hn Hc. rewrite <-(relive b b' ps) in Hc by done.
  rewrite Zplus_minus in Hc. destruct Hm as [? ?]. constructor; cbn; [done|lia|done|done].
Qed.

(** The end of a call on permit [i]: [op] is [complete] or [abandon]. *)
Lemma bsys_settle n t b b' ps i p c :
  0 ≤ br_generation b ≤ Z.of_nat n → no_newer (br_generation b) ps →
  ps !! i = Some (p, c) → c ≠ Settled → br_moves b b' →
  br_counts_ok b' (live_after b b'
    (sumZ (live_probe (br_generation b)) ps - probe_weight b p)) →
  bsys_ok (br_config b) (S n)
    {| sys_now := t; sys_breaker := b'; sys_permits := <[i := (p, Settled)]> ps |}.
Proof.
  intros Hg Hn Hi Hc Hm Hcnt.
  apply (bsys_build n t b b' ps); try done.
  { eapply no_newer_insert; [by eapply no_newer_moves | done | done]. }
  erewrite sumZ_insert by done.
  assert (live_probe (br_generation b') (p, c) = probe_weight b' p) as -> by (by destruct c).
  assert (p_generation p ≤ br_generation b)
    by (apply (Hn (p, c)); by eapply list_elem_of_lookup_2).
  eapply eq_ind; [exact Hcnt|]. f_equal. cbn. unfold live_after, probe_weight.
  destruct Hm as [_ [E|E]]; rewrite E.
  - rewrite Z.eqb_refl. lia.
  - rewrite (proj2 (Z.eqb_neq (br_generation b + 1) _)) by lia.
    rewrite (proj2 (Z.eqb_neq (p_generation p) (_ + 1))) by lia.
    rewrite andb_false_r. lia.
Qed.

Lemma bsys_ok_step config n s s' :
  BreakerConfig_Validate config = None → Z.of_nat (S n) < two64 →
  bsys_ok config n s → bstep s s' → bsys_ok config (S n) s'.
Proof.
  intros Hv Hn [<- Hg Hold Hcnt] Hstep. unfold live_probes in *.
  assert (∀ b, br_moves b b) as Hrefl by (split; auto).
  destruct Hstep as [t t' b ps|t b ps p b' Ha|t b ps f b' Ha|t b ps|t b ps i p f Hi
    |t b ps i p f Hi|t b ps i p Hi|t b ps i p Hi]; cbn in *.
  1: by apply (bsys_build n _ b b ps); rewrite ?Z.sub_diag, ?Z.add_0_r; unfold live_after;
       rewrite ?Z.eqb_refl.
  1,2,3: assert (0 ≤ br_generation b < two64 - 1) as Hg' by lia.
  - pose proof (allow_ok b _ t _ _ Hv Hg' Hcnt Ha) as (Hm & Hp & Hc').
    apply (bsys_build n t b b' ps); auto.
    + intros e [He|He%list_elem_of_singleton]%elem_of_app; [|subst; cbn; lia].
      by eapply no_newer_moves.
    + rewrite sumZ_snoc. cbn. by rewrite Z.add_simpl_l.
  - pose proof (allow_ok b _ t _ _ Hv Hg' Hcnt Ha) as (Hm & Hc').
    apply (bsys_build n t b b' ps); rewrite ?Z.sub_diag, ?Z.add_0_r; auto.
    by eapply no_newer_moves.
  - pose proof (advance_ok b _ Hv Hg' Hcnt t) as (Hm & Hc' & _).
    apply (bsys_build n t b _ ps); rewrite ?Z.sub_diag, ?Z.add_0_r; auto.
    by eapply no_newer_moves.
  - apply (bsys_build n t b b ps); auto; [by eapply no_newer_insert|].
    erewrite sumZ_insert by done. unfold live_after. rewrite Z.eqb_refl. cbn.
    eapply eq_ind; [exact Hcnt|]. f_equal. lia.
  - assert (probe_weight b p ≤ sumZ (live_probe (br_generation b)) ps) as Hle
      by exact (sumZ_lookup_le _ ps i _ ltac:(intros; apply live_probe_range) Hi).
    destruct (complete_ok b _ Hv ltac:(lia) Hcnt p f t Hle). by eapply bsys_settle.
  - apply (bsys_build n t b b ps); auto; [by eapply no_newer_insert|].
    erewrite sumZ_insert by done. unfold live_after. rewrite Z.eqb_refl. cbn.
    eapply eq_ind; [exact Hcnt|]. f_equal. lia.
  - assert (probe_weight b p ≤ sumZ (live_probe (br_generation b)) ps) as Hle
      by exact (sumZ_lookup_le _ ps i _ ltac:(intros; apply live_probe_range) Hi).
    destruct (abandon_ok b _ ltac:(lia) Hcnt p Hle). by eapply bsys_settle.
Qed.

Lemma bsys_ok_reachable id config b0 t n s :
  NewBreaker id config = Ok b0 → Z.of_nat n < two64 →
  nsteps bstep n (bsys_init t b0) s → bsys_ok config n s.
Proof.
  intros Hnew. apply NewBreaker_ok in Hnew as (Hv & <- & Hs0 & Hg & Hf & Hi & Hsu & _).
  assert (bsys_ok (br_config b0) 0 (bsys_init t b0)) as Hinit.
  { pose proof (Validate_bounds _ Hv). constructor; cbn; [done|lia|by intros ? ?%elem_of_nil|].
    unfold br_counts_ok, live_probes, sumZ. rewrite Hs0. cbn. lia. }
  revert s. induction n as [|n IH]; intros s Hn Hs.
  - by inversion Hs; subst.
  - apply nsteps_inv_r in Hs as (s1 & H1 & H2).
    eapply bsys_ok_step; [done|done|apply IH; [lia|done]|done].
Qed.

(** C7: probe accounting under any interleaving of [Allow], [Complete],
    [Abandon], [Snapshot] and the passing of time. In every state reached in
    fewer than 2^64 steps (so that the 64-bit generation has not come round),
    the probes of the current generation that are still in flight are exactly
    [halfOpenInFlight] and never more than [HalfOpenMaxProbes]; outside the
    half-open state there is none; and a closed breaker is strictly below its
    failure threshold. *)
Theorem breaker_probe_accounting id config b0 t n s :
  NewBreaker id config = Ok b0 → Z.of_nat n < two64 →
  nsteps bstep n (bsys_init t b0) s →
  let b := sys_breaker s in
  live_probes s = br_halfOpenInFlight b ∧
  0 ≤ live_probes s ≤ HalfOpenMaxProbes config ∧
  (br_state b ≠ StateHalfOpen → live_probes s = 0) ∧
  (br_state b = StateClosed → 0 ≤ br_consecutiveFailures b < FailureThreshold config) ∧
  (br_state b ≠ StateClosed → br_consecutiveFailures b = FailureThreshold config).
Proof.
  intros Hnew Hn Hs. pose proof (bsys_ok_reachable _ _ _ _ _ _ Hnew Hn Hs) as [<- _ _ Hc].
  destruct (NewBreaker_ok _ _ _ Hnew) as (Hv & _).
  pose proof (Validate_bounds _ Hv). cbn.
  unfold br_counts_ok in Hc. destruct (br_state _); intuition (congruence || lia).
Qed.

(** ** Sequential behaviour *)

(** What one completed call means to a closed breaker. *)
Inductive Outcome := Success | Counted | Ignored.

Definition outcome_of (f : option Failure) : Outcome :=
  match f with
  | None => Success
  | Some _ => if sig_CountBreaker (SignalsFor f) then Counted else Ignored
  end.

(** The abstract counter: the counted failures since the last success. *)
Definition count_outcome (n : Z) (o : Outcome) : Z :=
  match o with Success => 0 | Counted => n + 1 | Ignored => n end.
Definition run_from (n : Z) (outs : list Outcome) : Z := fold_left count_outcome outs n.
Definition run_length (outs : list Outcome) : Z := run_from 0 outs.

Definition closed_permit (b : Breaker) : Permit :=
  {| p_generation := br_generation b; p_probe := false; p_completed := false |}.

(** Requests that complete one after the other, each with a permit obtained
    while the breaker was in the generation of [b]. *)
Definition complete_with (p : Permit) (now : Time) (b : Breaker) (f : option Failure) : Breaker :=
  Breaker_complete b p f now.
Definition complete_all (b : Breaker) (now : Time) (fs : list (option Failure)) : Breaker :=
  fold_left (complete_with (closed_permit b) now) fs b.

Lemma complete_stale b p f now :
  br_generation b ≠ p_generation p → Breaker_complete b p f now = b.
Proof. intros H. unfold Breaker_complete. by rewrite (proj2 (Z.eqb_neq _ _)). Qed.

Lemma complete_all_stale p b now fs :
  br_generation b ≠ p_generation p → fold_left (complete_with p now) fs b = b.
Proof.
  intros Hg. induction fs as [|f fs IH]; cbn; [done|].
  unfold complete_with at 2. by rewrite complete_stale.
Qed.

(** One completion on a closed breaker. *)
Lemma complete_closed b p f now :
  br_state b = StateClosed → p_generation p = br_generation b → p_probe p = false →
  let c := count_outcome (br_consecutiveFailures b) (outcome_of f) in
  br_consecutiveFailures b < FailureThreshold (br_config b) →
  1 ≤ FailureThreshold (br_config b) →
  Breaker_complete b p f now =
    if FailureThreshold (br_config b) <=? c then Breaker_open (br_set_failures b c) now
    else br_set_failures b c.
Proof.
  intros Hs Hg Hp c Hlt H1. subst c. unfold Breaker_complete, outcome_of.
  rewrite Hg, Z.eqb_refl, Hp, Hs, bool_decide_true by done. cbn.
  destruct f as [f|]; cbn -[SignalsFor]; [|case_match; [lia|done]].
  destruct (sig_CountBreaker _); cbn; [done|].
  rewrite (proj2 (Z.leb_gt _ _)) by lia. unfold br_set_failures, br_set. by destruct b.
Qed.

Lemma run_take_cons thr c o os :
  c < thr →
  (∃ k, thr ≤ run_from c (take k (o :: os))) ↔
  ∃ k, thr ≤ run_from (count_outcome c o) (take k os).
Proof.
  intros Hc. split; [intros [[|k] Hk] | intros [k Hk]].
  - unfold run_from in Hk. cbn in Hk. lia.
  - by exists k.
  - by exists (S k).
Qed.

Lemma trips_from b p now fs :
  BreakerConfig_Validate (br_config b) = None → 0 ≤ br_generation b < two64 - 1 →
  br_state b = StateClosed → p_generation p = br_generation b → p_probe p = false →
  br_consecutiveFailures b < FailureThreshold (br_config b) →
  let b' := fold_left (complete_with p now) fs b in
  let outs := map outcome_of fs in
  ((∃ k, FailureThreshold (br_config b) ≤ run_from (br_consecutiveFailures b) (take k outs)) ∧
    br_state b' = StateOpen ∧ br_openedUntil b' = now + OpenDuration (br_config b) ∧
    br_generation b' = br_generation b + 1) ∨
  (¬ (∃ k, FailureThreshold (br_config b) ≤
             run_from (br_consecutiveFailures b) (take k outs)) ∧
    br_state b' = StateClosed ∧
    br_consecutiveFailures b' = run_from (br_consecutiveFailures b) outs).
Proof.
  intros Hv Hgen Hs Hg Hp Hlt. pose proof (Validate_bounds _ Hv) as (H1 & _ & _).
  revert b Hv Hgen Hs Hg Hlt H1. induction fs as [|f fs IH]; intros b Hv Hgen Hs Hg Hlt H1.
  - right. repeat split; auto. intros [[|k] Hk]; unfold run_from in Hk; cbn in Hk; lia.
  - cbn [fold_left map]. unfold complete_with at 2 4 6 8 10.
    rewrite !run_take_cons, (complete_closed b p f now) by (auto; lia).
    set (c := count_outcome _ _). destruct (FailureThreshold (br_config b) <=? c) eqn:E.
    + left. rewrite complete_all_stale.
      * cbn. rewrite wrap_uint64_id by lia. repeat split; auto.
        exists 0%nat. by apply Z.leb_le.
      * cbn. rewrite wrap_uint64_id; lia.
    + apply (IH (br_set_failures b c)); auto; cbn; lia.
Qed.

(** C8: the breaker trips exactly when it must. Completing any sequence of
    requests on a closed breaker with no failure on record opens it if and
    only if some prefix of the outcomes ends in [FailureThreshold] counted
    failures with no success among them (uncounted failures neither help nor
    reset); it is then open for [OpenDuration] in the next generation, and
    otherwise still closed with the length of the current run recorded. *)
Theorem breaker_trips_exactly b now fs :
  BreakerConfig_Validate (br_config b) = None → 0 ≤ br_generation b < two64 - 1 →
  br_state b = StateClosed → br_consecutiveFailures b = 0 →
  let b' := complete_all b now fs in
  let outs := map outcome_of fs in
  (br_state b' = StateOpen ↔
     ∃ k, FailureThreshold (br_config b) ≤ run_length (take k outs)) ∧
  (br_state b' = StateOpen → br_openedUntil b' = now + OpenDuration (br_config b) ∧
     br_generation b' = br_generation b + 1) ∧
  (br_state b' ≠ StateOpen →
     br_state b' = StateClosed ∧ br_consecutiveFailures b' = run_length outs).
Proof.
  intros Hv Hgen Hs Hz. pose proof (Validate_bounds _ Hv).
  pose proof (trips_from b (closed_permit b) now fs Hv Hgen Hs eq_refl eq_refl) as Ht.
  rewrite Hz in Ht. cbn in Ht. fold (complete_all b now fs) in Ht.
  cbn. unfold run_length. destruct Ht as [?|?]; [lia| |]; intuition congruence.
Qed.

(** ** Recovery *)

Fixpoint allow_times (n : nat) (b : Breaker) (now : Time)
  : list (result Failure Permit) * Breaker :=
  match n with
  | O => ([], b)
  | S n' =>
      let '(r, b1) := Breaker_Allow b now in
      let '(rs, b2) := allow_times n' b1 now in (r :: rs, b2)
  end.

Definition probe_permit (gen : Z) : Permit :=
  {| p_generation := gen; p_probe := true; p_completed := false |}.

Lemma advance_not_open b now : br_state b ≠ StateOpen → Breaker_advance b now = b.
Proof. intros H. unfold Breaker_advance. by rewrite bool_decide_false. Qed.

Lemma allow_probes n b now :
  br_state b = StateHalfOpen →
  br_halfOpenInFlight b + Z.of_nat n ≤ HalfOpenMaxProbes (br_config b) →
  allow_times n b now =
    (replicate n (Ok (probe_permit (br_generation b))),
     br_set_probes b (br_halfOpenInFlight b + Z.of_nat n) (br_halfOpenSuccesses b)).
Proof.
  revert b. induction n as [|n IH]; intros b Hs Hn.
  - rewrite Z.add_0_r. unfold br_set_probes, br_set. by destruct b.
  - cbn [allow_times replicate]. unfold Breaker_Allow.
    rewrite advance_not_open, Hs, (proj2 (Z.ltb_lt _ _)) by (congruence || lia).
    rewrite IH; [|done|cbn; lia]. cbn -[Z.of_nat].
    replace (br_halfOpenInFlight b + 1 + Z.of_nat n)
      with (br_halfOpenInFlight b + Z.of_nat (S n)) by lia.
    unfold br_set_probes, br_set. done.
Qed.

Lemma complete_probes n b now :
  br_state b = StateHalfOpen → 0 ≤ br_generation b < two64 - 1 → (0 < n)%nat →
  br_halfOpenSuccesses b + Z.of_nat n = HalfOpenMaxProbes (br_config b) →
  Z.of_nat n ≤ br_halfOpenInFlight b →
  let b' := fold_left (complete_with (probe_permit (br_generation b)) now) (replicate n None) b in
  br_state b' = StateClosed ∧ br_consecutiveFailures b' = 0 ∧ br_openedUntil b' = time_zero ∧
  br_halfOpenInFlight b' = 0 ∧ br_generation b' = br_generation b + 1.
Proof.
  revert b. induction n as [|n IH]; intros b Hs Hg Hn Hsum Hin; [lia|].
  cbn [replicate fold_left]. unfold complete_with at 2 4 6 8 10.
  unfold Breaker_complete. cbn [p_generation p_probe probe_permit]. rewrite Z.eqb_refl.
  cbn [negb]. unfold Breaker_completeProbe.
  rewrite Hs, bool_decide_true, (proj2 (Z.ltb_lt _ _)) by (done || lia). cbn.
  case_match eqn:E.
  - destruct n as [|n]; [|lia]. cbn. rewrite wrap_uint64_id by lia. done.
  - apply Z.leb_gt in E. apply (IH (br_set_probes b (br_halfOpenInFlight b - 1)
      (br_halfOpenSuccesses b + 1))); cbn; done || lia.
Qed.

(** C9: an open breaker recovers. Once its open period is over it admits exactly
    [HalfOpenMaxProbes] probes and rejects the next request; when those probes
    succeed it is closed again with no failure on record. *)
Theorem breaker_recovers b now now' :
  BreakerConfig_Validate (br_config b) = None → 0 ≤ br_generation b < two64 - 2 →
  br_state b = StateOpen → br_openedUntil b ≤ now →
  let n := Z.to_nat (HalfOpenMaxProbes (br_config b)) in
  let p := probe_permit (br_generation b + 1) in
  let '(rs, b1) := allow_times n b now in
  rs = replicate n (Ok p) ∧ is_ok (Breaker_Allow b1 now).1 = false ∧
  let b2 := fold_left (complete_with p now') (replicate n None) b1 in
  br_state b2 = StateClosed ∧ br_consecutiveFailures b2 = 0 ∧ br_halfOpenInFlight b2 = 0.
Proof.
  intros Hv Hg Hs Hu. pose proof (Validate_bounds _ Hv) as (_ & _ & H1 & _).
  set (a := Breaker_advance b now).
  assert (a = br_set b StateHalfOpen (br_generation b + 1) (br_consecutiveFailures b)
                (br_openedUntil b) 0 0) as Ha.
  { unfold a, Breaker_advance, time_before. rewrite Hs, bool_decide_true by done.
    rewrite (proj2 (Z.ltb_ge _ _)) by lia. cbn. by rewrite wrap_uint64_id by lia. }
  intros n p.
  assert (allow_times n b now = allow_times n a now) as ->.
  { subst n. destruct (Z.to_nat _) eqn:E; [lia|]. cbn [allow_times]. unfold Breaker_Allow.
    fold a. rewrite (advance_not_open a now); [done|]. by rewrite Ha. }
  rewrite allow_probes by (rewrite Ha; cbn; lia || done).
  assert (br_generation a = br_generation b + 1) as Hga by by rewrite Ha.
  split; [by rewrite Hga|]. split.
  - unfold Breaker_Allow. rewrite advance_not_open by by rewrite Ha. rewrite Ha. cbn.
    rewrite (proj2 (Z.ltb_ge _ _)) by lia. done.
  - unfold p. rewrite <-Hga.
    change (br_generation a) with (br_generation (br_set_probes a
      (br_halfOpenInFlight a + Z.of_nat n) (br_halfOpenSuccesses a))).
    edestruct complete_probes as (? & ? & ? & ? & ?); [..|split; [done|split; done]];
      rewrite ?Ha; cbn; try done; lia.
Qed.

(** While the breaker is open and its period is not over, [Allow] admits
    nobody: it reports a breaker failure of this provider with the exact time
    left as [RetryAfter], counts the rejection and changes nothing else. *)
Theorem open_rejects b now :
  br_state b = StateOpen → now < br_openedUntil b →
  br_openedUntil b - now ≤ int64_max →
  Breaker_Allow b now =
    (Err (f_with_retry_after (new_failure CategoryBreaker (br_providerID b))
            (br_openedUntil b - now) false),
     br_set_rejected b (wrap_uint64 (br_rejected b + 1))).
Proof.
  intros Hs Hlt Hmax. unfold Breaker_Allow, Breaker_advance, time_before.
  rewrite (proj2 (Z.ltb_lt _ _) Hlt), orb_true_r, Hs.
  assert (time_sub (br_openedUntil b) now = br_openedUntil b - now) as ->
    by (unfold time_sub, int64_min, int64_max in *; lia).
  by rewrite (proj2 (Z.ltb_ge _ 0)) by lia.
Qed.

(** ** A permit settles once *)

Inductive PermitOp := OpComplete (failure : option Failure) (now : Time) | OpAbandon.

Definition permit_op (st : Permit * Breaker) (op : PermitOp) : bool * (Permit * Breaker) :=
  match op with
  | OpComplete f now => let '(ok, p, b) := Permit_Complete st.1 f st.2 now in (ok, (p, b))
  | OpAbandon => let '(ok, p, b) := Permit_Abandon st.1 st.2 in (ok, (p, b))
  end.

Fixpoint permit_ops (st : Permit * Breaker) (ops : list PermitOp) : list bool * (Permit * Breaker) :=
  match ops with
  | [] => ([], st)
  | op :: ops' =>
      let '(ok, st') := permit_op st op in
      let '(oks, st'') := permit_ops st' ops' in (ok :: oks, st'')
  end.

Lemma permit_ops_completed p b ops :
  p_completed p = true → permit_ops (p, b) ops = (replicate (length ops) false, (p, b)).
Proof.
  intros Hp. induction ops as [|op ops IH]; [done|]. cbn.
  assert (permit_op (p, b) op = (false, (p, b))) as ->.
  { destruct op; cbn; unfold Permit_Complete, Permit_Abandon; by rewrite Hp. }
  by rewrite IH.
Qed.

(** Of any sequence of [Complete] and [Abandon] calls on a fresh permit only
    the first answers true and reaches the breaker; the deferred [Abandon] of
    an attempt that has completed therefore does nothing. *)
Theorem permit_settles_once p b op ops :
  p_completed p = false →
  permit_ops (p, b) (op :: ops) =
    (true :: replicate (length ops) false, (p_set_completed p, (permit_op (p, b) op).2.2)).
Proof.
  intros Hp. cbn [permit_ops].
  assert (permit_op (p, b) op = (true, (p_set_completed p, (permit_op (p, b) op).2.2))) as ->.
  { destruct op; cbn; unfold Permit_Complete, Permit_Abandon; by rewrite Hp. }
  by rewrite permit_ops_completed.
Qed.

(** ** Concrete instances *)

Definition demo_config : BreakerConfig :=
  {| FailureThreshold := 2; OpenDuration := second; HalfOpenMaxProbes := 2 |}.

Definition demo_breaker : Breaker :=
  {| br_providerID := "p"; br_config := demo_config; br_state := StateClosed;
     br_generation := 0; br_consecutiveFailures := 0; br_openedUntil := 0;
     br_halfOpenInFlight := 0; br_halfOpenSuccesses := 0; br_rejected := 0 |}.

Definition demo_open : Breaker := Breaker_open demo_breaker 5.

Definition demo_trace_end : BSys :=
  {| sys_now := 7; sys_breaker := demo_breaker;
     sys_permits := [(closed_permit demo_breaker, Held)] |}.

Lemma breaker_probe_accounting_witness :
  nsteps bstep 2 (bsys_init 5 demo_breaker) demo_trace_end ∧
  live_probes demo_trace_end = br_halfOpenInFlight (sys_breaker demo_trace_end).
Proof.
  assert (nsteps bstep 2 (bsys_init 5 demo_breaker) demo_trace_end) as Htrace.
  { eapply nsteps_l; [apply (bs_tick 5 7); lia|].
    eapply nsteps_l; [|apply nsteps_O].
    exact (bs_allow 7 demo_breaker [] (closed_permit demo_breaker) demo_breaker eq_refl). }
  split; [exact Htrace|].
  exact (proj1 (breaker_probe_accounting " p " demo_config demo_breaker 5 2 _
    eq_refl ltac:(reflexivity) Htrace)).
Defined.

Lemma breaker_trips_exactly_witness :
  br_state (complete_all demo_breaker 5
    [Some (new_failure CategoryNetwork "p"); Some (new_failure CategoryCanceled "p");
     Some (new_failure CategoryNetwork "p")]) = StateOpen.
Proof.
  apply (breaker_trips_exactly demo_breaker 5); try done.
  exists 3%nat. vm_compute. discriminate.
Defined.

Lemma breaker_recovers_witness :
  let '(rs, b1) := allow_times 2 demo_open (5 + second) in
  rs = replicate 2 (Ok (probe_permit 2)) ∧ is_ok (Breaker_Allow b1 (5 + second)).1 = false ∧
  let b2 := fold_left (complete_with (probe_permit 2) 9) (replicate 2 None) b1 in
  br_state b2 = StateClosed ∧ br_consecutiveFailures b2 = 0 ∧ br_halfOpenInFlight b2 = 0.
Proof.
  exact (breaker_recovers demo_open (5 + second) 9 eq_refl ltac:(done) eq_refl ltac:(done)).
Defined.

Lemma open_rejects_witness :
  Breaker_Allow demo_open 6 =
    (Err (f_with_retry_after (new_failure CategoryBreaker "p") (second - 1) false),
     br_set_rejected demo_open 1).
Proof. exact (open_rejects demo_open 6 eq_refl ltac:(done) ltac:(done)). Defined.

Lemma permit_settles_once_witness :
  permit_ops (probe_permit 0, demo_breaker) [OpAbandon; OpComplete None 5; OpAbandon] =
    ([true; false; false], (p_set_completed (probe_permit 0), demo_breaker)).
Proof.
  exact (permit_settles_once (probe_permit 0) demo_breaker OpAbandon
    [OpComplete None 5; OpAbandon] eq_refl).
Defined.
