(* ===== verification/Queue.v ===== *)
(** * The bounded queue of one provider

    Models [src/internal/reliability/queue.go] (the registry part is in
    Registry.v). The buffered channel [slots] is the number of tokens in it; the
    counters are the atomics of the code. [Acquire] runs alone up to its
    [select]; what happens while it is blocked is told by its environment. The
    step relation at the end interleaves any number of callers at the
    granularity of the single channel and atomic operations. *)

From S2P Require Import Prelude Failure.

(** ** Configuration *)

Definition minimumQueueWaitTimeout : Duration := 10 * millisecond.
Definition maximumQueueWaitTimeout : Duration := minute.
Definition maximumQueueInFlight : Z := 10000.
Definition maximumQueueWaiting : Z := 100000.

Record QueueConfig := {
  MaxInFlight : Z;
  MaxWaiting : Z;
  WaitTimeout : Duration;
}.

#[export] Instance QueueConfig_eq_dec : EqDecision QueueConfig.
Proof. solve_decision. Defined.

Definition DefaultQueueConfig : QueueConfig :=
  {| MaxInFlight := 256; MaxWaiting := 100; WaitTimeout := 2 * second |}.

Inductive QueueError :=
| queue_in_flight_range
| queue_waiting_range
| queue_timeout_range
| queue_provider_required
| queue_provider_empty (index : nat)
| queue_provider_duplicated (providerID : string)
| queue_config_missing (providerID : string)
| queue_registry_empty.

Definition QueueConfig_Validate (config : QueueConfig) : option QueueError :=
  if (MaxInFlight config <? 1) || (maximumQueueInFlight <? MaxInFlight config)
  then Some queue_in_flight_range
  else if (MaxWaiting config <? 0) || (maximumQueueWaiting <? MaxWaiting config)
  then Some queue_waiting_range
  else if (WaitTimeout config <? minimumQueueWaitTimeout) ||
          (maximumQueueWaitTimeout <? WaitTimeout config)
  then Some queue_timeout_range
  else None.

(** ** State *)

Record ProviderQueue := {
  q_providerID : string;
  q_config : QueueConfig;
  q_slots : Z;
  q_active : Z;
  q_waiting : Z;
  q_rejected : Z;
  q_timedOut : Z;
  q_canceled : Z;
}.

Record QueueSnapshot := {
  qs_ProviderID : string;
  qs_Active : Z;
  qs_Waiting : Z;
  qs_MaxInFlight : Z;
  qs_MaxWaiting : Z;
  qs_Rejected : Z;
  qs_TimedOut : Z;
  qs_Canceled : Z;
}.

(** The lease's queue is the one it was acquired from. *)
Record QueueLease := { lease_released : bool }.

Definition NewProviderQueue (providerID : string) (config : QueueConfig)
  : result QueueError ProviderQueue :=
  let providerID := TrimSpace providerID in
  if (providerID =? "")%string then Err queue_provider_required
  else match QueueConfig_Validate config with
  | Some e => Err e
  | None => Ok {| q_providerID := providerID; q_config := config; q_slots := 0; q_active := 0;
                  q_waiting := 0; q_rejected := 0; q_timedOut := 0; q_canceled := 0 |}
  end.

Definition q_set (q : ProviderQueue) (slots active waiting rejected timedOut canceled : Z)
  : ProviderQueue :=
  {| q_providerID := q_providerID q; q_config := q_config q; q_slots := slots;
     q_active := active; q_waiting := waiting; q_rejected := rejected;
     q_timedOut := timedOut; q_canceled := canceled |}.
Definition q_set_slots (q : ProviderQueue) (n : Z) : ProviderQueue :=
  q_set q n (q_active q) (q_waiting q) (q_rejected q) (q_timedOut q) (q_canceled q).
Definition q_add_active (q : ProviderQueue) (d : Z) : ProviderQueue :=
  q_set q (q_slots q) (q_active q + d) (q_waiting q) (q_rejected q) (q_timedOut q) (q_canceled q).
Definition q_add_waiting (q : ProviderQueue) (d : Z) : ProviderQueue :=
  q_set q (q_slots q) (q_active q) (q_waiting q + d) (q_rejected q) (q_timedOut q) (q_canceled q).
Definition q_add_rejected (q : ProviderQueue) : ProviderQueue :=
  q_set q (q_slots q) (q_active q) (q_waiting q) (wrap_uint64 (q_rejected q + 1))
    (q_timedOut q) (q_canceled q).
Definition q_add_timedOut (q : ProviderQueue) : ProviderQueue :=
  q_set q (q_slots q) (q_active q) (q_waiting q) (q_rejected q)
    (wrap_uint64 (q_timedOut q + 1)) (q_canceled q).
Definition q_add_canceled (q : ProviderQueue) : ProviderQueue :=
  q_set q (q_slots q) (q_active q) (q_waiting q) (q_rejected q) (q_timedOut q)
    (wrap_uint64 (q_canceled q + 1)).

(** Sending to the channel blocks when its buffer is full, receiving when it is
    empty; [None] is "blocks". *)
Definition slots_send (q : ProviderQueue) : option ProviderQueue :=
  if q_slots q <? MaxInFlight (q_config q) then Some (q_set_slots q (q_slots q + 1)) else None.
Definition slots_recv (q : ProviderQueue) : option ProviderQueue :=
  if 0 <? q_slots q then Some (q_set_slots q (q_slots q - 1)) else None.

(** ** Operations *)

Definition ProviderQueue_Snapshot (q : ProviderQueue) : QueueSnapshot :=
  {| qs_ProviderID := q_providerID q; qs_Active := q_active q; qs_Waiting := q_waiting q;
     qs_MaxInFlight := MaxInFlight (q_config q); qs_MaxWaiting := MaxWaiting (q_config q);
     qs_Rejected := q_rejected q; qs_TimedOut := q_timedOut q; qs_Canceled := q_canceled q |}.

Definition new_lease : QueueLease := {| lease_released := false |}.

Definition tryAcquire (q : ProviderQueue) : option QueueLease * ProviderQueue :=
  match slots_send q with
  | Some q => (Some new_lease, q_add_active q 1)
  | None => (None, q)
  end.

(** One turn of the compare-and-swap loop: the value loaded, then the swap. *)
Definition reserve_cas (q : ProviderQueue) (current : Z) : option ProviderQueue :=
  if q_waiting q =? current then Some (q_add_waiting q 1) else None.

(** Run alone, the loop ends in its first turn: nothing comes between its load
    and its swap. *)
Definition reserveWaiting (q : ProviderQueue) : bool * ProviderQueue :=
  let current := q_waiting q in
  if MaxWaiting (q_config q) <=? current then (false, q)
  else match reserve_cas q current with
  | Some q => (true, q)
  | None => (false, q)
  end.

Definition ProviderQueue_failure (q : ProviderQueue) (reason : QueueReason) : Failure :=
  f_with_queue (new_failure CategoryQueue (q_providerID q)) reason.

Definition contextFailure (q : ProviderQueue) (ctx : Ctx) (now : Time)
  : option Failure * ProviderQueue :=
  match ctx_err ctx now with
  | None => (None, q)
  | Some DeadlineExceeded =>
      (Some (f_with_cause
               (f_with_timeout (new_failure CategoryTimeout (q_providerID q))
                  TimeoutRequestBudget)
               (ctx_GoErr DeadlineExceeded)), q)
  | Some Canceled =>
      (Some (f_with_cause (new_failure CategoryCanceled (q_providerID q)) (ctx_GoErr Canceled)),
       q_add_canceled q)
  end.

(** The branches of the [select]. The environment of a blocked [Acquire] names
    the one that fires, with the instant and the queue it finds; a branch that
    is not ready is not taken. *)
Inductive WaitEvent := WaitSlot | WaitTimer | WaitDone.

(** After the [select]; [since] is when the timer was armed. Answers the
    result, the instant at which the function returns and the queue. *)
Definition Acquire_select (q : ProviderQueue) (ctx : Ctx) (since now : Time) (ev : WaitEvent)
  : result Failure QueueLease * Time * ProviderQueue :=
  let timeout :=
    (Err (ProviderQueue_failure q QueueWaitTimeout),
     Z.max now (time_add since (WaitTimeout (q_config q))),
     q_add_waiting (q_add_timedOut q) (-1)) in
  match ev with
  | WaitSlot =>
      match slots_send q with
      | Some q' =>
          match contextFailure q' ctx now with
          | (Some failure, q'') =>
              (Err failure, now,
               q_add_waiting (match slots_recv q'' with Some r => r | None => q'' end) (-1))
          | (None, q'') => (Ok new_lease, now, q_add_waiting (q_add_active q'' 1) (-1))
          end
      | None => timeout
      end
  | WaitTimer => timeout
  | WaitDone =>
      match contextFailure q ctx now with
      | (Some failure, q') => (Err failure, now, q_add_waiting q' (-1))
      | (None, _) => timeout
      end
  end.

(** [ctx] is [None] for a nil context. [wait] is the environment of the blocked
    call. *)
Definition ProviderQueue_Acquire (q : ProviderQueue) (ctx : option Ctx) (now : Time)
    (wait : ProviderQueue → WaitEvent * Time * ProviderQueue)
  : result Failure QueueLease * Time * ProviderQueue :=
  match ctx with
  | None =>
      (Err (f_with_cause (new_failure CategoryCanceled (q_providerID q))
              (EOther "queue context is nil")), now, q)
  | Some ctx =>
      match contextFailure q ctx now with
      | (Some failure, q) => (Err failure, now, q)
      | (None, q) =>
          match tryAcquire q with
          | (Some lease, q) => (Ok lease, now, q)
          | (None, q) =>
              match reserveWaiting q with
              | (false, q) =>
                  let q := q_add_rejected q in
                  (Err (ProviderQueue_failure q QueueFull), now, q)
              | (true, q) =>
                  let '(ev, now', q') := wait q in
                  Acquire_select q' ctx now (Z.max now now') ev
              end
          end
      end
  end.

(** The receive in [Release] cannot block: the lease's own token is there
    ([queue_limits]). *)
Definition QueueLease_Release (lease : QueueLease) (q : ProviderQueue)
  : bool * QueueLease * ProviderQueue :=
  if lease_released lease then (false, lease, q)
  else
    let q := q_add_active q (-1) in
    (true, {| lease_released := true |},
     match slots_recv q with Some q => q | None => q end).

(** ** Sequential behaviour *)

(** Admission. With a live context, [Acquire] leases a free slot at once;
    with none free and the waiting room full it answers [QueueFull] without
    waiting, and only counts the rejection; the environment of a blocked call
    is consulted in neither case. *)
Theorem acquire_admission q ctx now wait :
  ctx_err ctx now = None →
  (q_slots q < MaxInFlight (q_config q) →
   ProviderQueue_Acquire q (Some ctx) now wait =
     (Ok new_lease, now, q_add_active (q_set_slots q (q_slots q + 1)) 1)) ∧
  (MaxInFlight (q_config q) ≤ q_slots q → MaxWaiting (q_config q) ≤ q_waiting q →
   ProviderQueue_Acquire q (Some ctx) now wait =
     (Err (ProviderQueue_failure q QueueFull), now, q_add_rejected q)).
Proof.
  intros Hctx. unfold ProviderQueue_Acquire, contextFailure, tryAcquire, slots_send, reserveWaiting.
  rewrite Hctx. split.
  - intros Hs. by rewrite (proj2 (Z.ltb_lt _ _) Hs).
  - intros Hs Hw. by rewrite (proj2 (Z.ltb_ge _ _) Hs), (proj2 (Z.leb_le _ _) Hw).
Qed.

(** The three quantities an [Acquire] may leave behind. *)
Definition q_occupancy (q : ProviderQueue) : Z * Z * Z := (q_slots q, q_active q, q_waiting q).

(** A call that had to wait leaks nothing. Whatever the environment did to
    the queue meanwhile and whichever branch of the [select] fired, a refused
    call gives back its place in the waiting room and holds no slot, and a
    granted one holds exactly one slot and one active count. *)
Theorem acquire_conserves q ctx now wait r t q' :
  ctx_err ctx now = None → MaxInFlight (q_config q) ≤ q_slots q →
  q_waiting q < MaxWaiting (q_config q) →
  let '(_, _, qe) := wait (q_add_waiting q 1) in
  0 ≤ q_slots qe →
  ProviderQueue_Acquire q (Some ctx) now wait = (r, t, q') →
  let '(s, a, w) := q_occupancy qe in
  q_occupancy q' = match r with
                   | Ok _ => (s + 1, a + 1, w - 1)
                   | Err _ => (s, a, w - 1)
                   end ∧ now ≤ t.
Proof.
  intros Hctx Hs Hw. destruct (wait _) as [[ev t1] qe] eqn:Ewait. cbn.
  intros Hqe. unfold ProviderQueue_Acquire, contextFailure, tryAcquire, reserveWaiting, reserve_cas.
  unfold q_occupancy. unfold slots_send at 1. rewrite Hctx, (proj2 (Z.ltb_ge _ _) Hs), (proj2 (Z.leb_gt _ _) Hw).
  rewrite Z.eqb_refl, Ewait. unfold Acquire_select.
  assert (∀ q0 t0, contextFailure q0 ctx t0 = (None, q0) ∨
     ∃ f q1, contextFailure q0 ctx t0 = (Some f, q1) ∧ (q_slots q1, q_active q1, q_waiting q1) = (q_slots q0, q_active q0, q_waiting q0)) as Hcf.
  { intros q0 t0. unfold contextFailure. destruct (ctx_err ctx t0) as [[]|]; eauto. }
  destruct ev.
  - unfold slots_send. destruct (_ <? _).
    + edestruct Hcf as [->|(f & q1 & -> & Ho)]; intros [= <- <- <-]; cbn.
      * split; [f_equal|]; lia.
      * injection Ho as Hos Hoa How. unfold slots_recv. rewrite Hos. cbn.
        rewrite (proj2 (Z.ltb_lt _ _)) by lia. cbn. rewrite Hoa, How.
        split; [repeat f_equal|]; lia.
    + intros [= <- <- <-]. cbn. split; [f_equal|]; lia.
  - intros [= <- <- <-]. cbn. split; [f_equal|]; lia.
  - edestruct Hcf as [->|(f & q1 & -> & Ho)]; intros [= <- <- <-]; cbn;
      [|injection Ho as -> -> ->]; split; try f_equal; lia.
Qed.

(** [Release] gives back one slot and one active count the first time and
    does nothing afterwards. *)
Theorem release_once lease q :
  lease_released lease = false → 0 < q_slots q →
  let '(ok, lease', q') := QueueLease_Release lease q in
  ok = true ∧ q_occupancy q' = (q_slots q - 1, q_active q - 1, q_waiting q) ∧
  QueueLease_Release lease' q' = (false, lease', q').
Proof.
  intros Hl Hs. unfold QueueLease_Release. rewrite Hl. unfold slots_recv. cbn.
  rewrite (proj2 (Z.ltb_lt _ _) Hs). cbn. auto.
Qed.

(** ** Concurrent use

    The program counter of a caller: where in [Acquire] or [Release] it is. Each
    step is one channel or atomic operation. *)

Inductive QueuePC :=
| AtTry                     (* before the non-blocking send of [tryAcquire] *)
| Tried                     (* sent; before [active.Add(1)] *)
| AtReserve                 (* before [waiting.Load()] *)
| Loaded (current : Z)      (* before the compare-and-swap *)
| Refused                   (* before [rejected.Add(1)] *)
| Blocked                   (* in the [select] *)
| SentBlocked               (* its send was chosen; before [contextFailure] *)
| GivingBack                (* the context had failed; before [<-queue.slots] *)
| Granting                  (* before [active.Add(1)] *)
| Expired                   (* the timer was chosen; before [timedOut.Add(1)] *)
| Leaving (leased : bool)   (* before the deferred [waiting.Add(-1)] *)
| Leased                    (* holds an unreleased lease *)
| Releasing                 (* [released] is set; before [active.Add(-1)] *)
| Draining                  (* before [<-lease.queue.slots] *)
| Finished.

Inductive qlocal : ProviderQueue → QueuePC → ProviderQueue → QueuePC → Prop :=
| ql_canceled q ctx now f q' :
    contextFailure q ctx now = (Some f, q') → qlocal q AtTry q' Finished
| ql_try q q' : slots_send q = Some q' → qlocal q AtTry q' Tried
| ql_tried q : qlocal q Tried (q_add_active q 1) Leased
| ql_busy q : slots_send q = None → qlocal q AtTry q AtReserve
| ql_load q :
    q_waiting q < MaxWaiting (q_config q) → qlocal q AtReserve q (Loaded (q_waiting q))
| ql_load_full q : MaxWaiting (q_config q) ≤ q_waiting q → qlocal q AtReserve q Refused
| ql_refused q : qlocal q Refused (q_add_rejected q) Finished
| ql_cas q c q' : reserve_cas q c = Some q' → qlocal q (Loaded c) q' Blocked
| ql_cas_lost q c : reserve_cas q c = None → qlocal q (Loaded c) q AtReserve
| ql_select_slot q q' : slots_send q = Some q' → qlocal q Blocked q' SentBlocked
| ql_sent_ok q ctx now : contextFailure q ctx now = (None, q) → qlocal q SentBlocked q Granting
| ql_sent_canceled q ctx now f q' :
    contextFailure q ctx now = (Some f, q') → qlocal q SentBlocked q' GivingBack
| ql_give_back q q' : slots_recv q = Some q' → qlocal q GivingBack q' (Leaving false)
| ql_grant q : qlocal q Granting (q_add_active q 1) (Leaving true)
| ql_select_timer q : qlocal q Blocked q Expired
| ql_expired q : qlocal q Expired (q_add_timedOut q) (Leaving false)
| ql_select_done q ctx now f q' :
    contextFailure q ctx now = (Some f, q') → qlocal q Blocked q' (Leaving false)
| ql_leave q (leased : bool) :
    qlocal q (Leaving leased) (q_add_waiting q (-1)) (if leased then Leased else Finished)
| ql_release q : qlocal q Leased q Releasing
| ql_releasing q : qlocal q Releasing (q_add_active q (-1)) Draining
| ql_drain q q' : slots_recv q = Some q' → qlocal q Draining q' Finished.

Record QSys := { qsys_queue : ProviderQueue; qsys_callers : list QueuePC }.

Inductive qstep : QSys → QSys → Prop :=
| qs_call q cs :
    qstep {| qsys_queue := q; qsys_callers := cs |}
          {| qsys_queue := q; qsys_callers := cs ++ [AtTry] |}
| qs_local q cs i pc q' pc' :
    cs !! i = Some pc → qlocal q pc q' pc' →
    qstep {| qsys_queue := q; qsys_callers := cs |}
          {| qsys_queue := q'; qsys_callers := <[i := pc']> cs |}.

(** What a caller holds at each point. *)
Definition holds_slot (pc : QueuePC) : Z :=
  match pc with
  | Tried | SentBlocked | GivingBack | Granting | Leaving true | Leased | Releasing | Draining => 1
  | _ => 0
  end.
Definition holds_active (pc : QueuePC) : Z :=
  match pc with Leaving true | Leased | Releasing => 1 | _ => 0 end.
Definition holds_place (pc : QueuePC) : Z :=
  match pc with
  | Blocked | SentBlocked | GivingBack | Granting | Expired | Leaving _ => 1
  | _ => 0
  end.
Definition load_in_range (config : QueueConfig) (pc : QueuePC) : Prop :=
  match pc with Loaded c => c < MaxWaiting config | _ => True end.

Record qsys_ok (config : QueueConfig) (s : QSys) : Prop := {
  qok_config : q_config (qsys_queue s) = config;
  qok_slots : q_slots (qsys_queue s) = sumZ holds_slot (qsys_callers s);
  qok_active : q_active (qsys_queue s) = sumZ holds_active (qsys_callers s);
  qok_waiting : q_waiting (qsys_queue s) = sumZ holds_place (qsys_callers s);
  qok_max_slots : q_slots (qsys_queue s) ≤ MaxInFlight config;
  qok_max_waiting : q_waiting (qsys_queue s) ≤ MaxWaiting config;
  qok_loaded : ∀ pc, pc ∈ qsys_callers s → load_in_range config pc;
}.

(** A local step moves the counters exactly as the holdings of its caller. *)
Lemma qlocal_moves config q pc q' pc' :
  qlocal q pc q' pc' → q_config q = config → load_in_range config pc →
  q_slots q ≤ MaxInFlight config → q_waiting q ≤ MaxWaiting config →
  q_config q' = config ∧ load_in_range config pc' ∧
  q_slots q' = q_slots q - holds_slot pc + holds_slot pc' ∧
  q_active q' = q_active q - holds_active pc + holds_active pc' ∧
  q_waiting q' = q_waiting q - holds_place pc + holds_place pc' ∧
  q_slots q' ≤ MaxInFlight config ∧ q_waiting q' ≤ MaxWaiting config.
Proof.
  intros Hstep <- Hl Hs Hw.
  assert (∀ ctx now f q1, contextFailure q ctx now = (Some f, q1) →
     q_config q1 = q_config q ∧ q_occupancy q1 = q_occupancy q) as Hcf.
  { intros ctx now f q1. unfold contextFailure.
    destruct (ctx_err ctx now) as [[]|]; intros [= <- <-]; done. }
  unfold q_occupancy in Hcf.
  destruct Hstep; unfold slots_send, slots_recv, reserve_cas in *; cbn in *;
    repeat match goal with
    | H : contextFailure _ _ _ = (Some _, _) |- _ => apply Hcf in H as [-> [= -> -> ->]]
    | H : (if ?b then _ else _) = Some _ |- _ => destruct b eqn:?; [injection H as <-|done]
    | b : bool |- _ => destruct b
    end; cbn in *; repeat split; try done; lia.
Qed.

Lemma qsys_ok_step config s s' : qsys_ok config s → qstep s s' → qsys_ok config s'.
Proof.
  intros [Hc Hsl Hac Hwa Hms Hmw Hld] Hstep. destruct Hstep as [q cs|q cs i pc q' pc' Hi Hstep]; cbn in *.
  - constructor; cbn; rewrite ?sumZ_snoc; cbn; rewrite ?Z.add_0_r; try done.
    intros pc [H| ->%list_elem_of_singleton]%elem_of_app; [by apply Hld | done].
  - destruct (qlocal_moves config _ _ _ _ Hstep) as (? & ? & ? & ? & ? & ? & ?); try done.
    { apply Hld. by eapply list_elem_of_lookup_2. }
    constructor; cbn; rewrite ?(sumZ_insert _ _ _ _ _ Hi); try done; try lia.
    intros pc1 [->|H']%elem_of_insert_inv; [done | by apply Hld].
Qed.

Lemma qsys_ok_reachable id config q0 s :
  NewProviderQueue id config = Ok q0 →
  rtc qstep {| qsys_queue := q0; qsys_callers := [] |} s → qsys_ok config s.
Proof.
  unfold NewProviderQueue. case_match; [done|]. destruct (QueueConfig_Validate config) eqn:Hv; [done|].
  intros [= <-]. apply invariant_rtc; [apply qsys_ok_step|].
  assert (1 ≤ MaxInFlight config ∧ 0 ≤ MaxWaiting config).
  { unfold QueueConfig_Validate in Hv. repeat case_match; try done. lia. }
  constructor; cbn; try done; try lia. intros ? ?%elem_of_nil. done.
Qed.

Lemma holdings_order pc : 0 ≤ holds_active pc ≤ holds_slot pc ∧ 0 ≤ holds_place pc.
Proof. destruct pc as [| | | | | | | | | |[]| | | |]; cbn; lia. Qed.

(** The leases in the hands of callers. *)
Definition unreleased (pc : QueuePC) : Z := match pc with Leased => 1 | _ => 0 end.

(** C10: the limits of the queue hold under any interleaving of any number of
    callers: never more than [MaxInFlight] leases, never more than
    [MaxWaiting] callers in the waiting room, [active] never negative nor above
    the slots taken; the receives in [Release] and in the canceled [Acquire]
    never block; and once every caller is through, the queue is empty. *)
Theorem queue_limits id config q0 s :
  NewProviderQueue id config = Ok q0 →
  rtc qstep {| qsys_queue := q0; qsys_callers := [] |} s →
  let q := qsys_queue s in
  sumZ unreleased (qsys_callers s) ≤ q_active q ∧
  q_active q ≤ q_slots q ≤ MaxInFlight config ∧ 0 ≤ q_active q ∧
  0 ≤ q_waiting q ≤ MaxWaiting config ∧
  (∀ pc, pc ∈ qsys_callers s → pc = Draining ∨ pc = GivingBack → slots_recv q ≠ None) ∧
  ((∀ pc, pc ∈ qsys_callers s → pc = Finished) → q_occupancy q = (0, 0, 0)).
Proof.
  intros Hnew Hreach. destruct (qsys_ok_reachable _ _ _ _ Hnew Hreach)
    as [Hc Hsl Hac Hwa Hms Hmw _]. cbn.
  assert (sumZ holds_active (qsys_callers s) ≤ sumZ holds_slot (qsys_callers s))
    by (apply sumZ_le; intros; apply holdings_order).
  assert (0 ≤ sumZ holds_place (qsys_callers s))
    by (apply sumZ_nonneg; intros; apply holdings_order).
  assert (0 ≤ sumZ holds_active (qsys_callers s))
    by (apply sumZ_nonneg; intros; apply holdings_order).
  assert (sumZ unreleased (qsys_callers s) ≤ sumZ holds_active (qsys_callers s))
    by (apply sumZ_le; intros [| | | | | | | | | |[]| | | |]; cbn; lia).
  repeat split; try lia.
  - intros pc [i Hi]%list_elem_of_lookup_1 Hpc. unfold slots_recv.
    pose proof (sumZ_lookup_le holds_slot _ _ _ ltac:(intros x; pose proof (holdings_order x); lia) Hi).
    rewrite (proj2 (Z.ltb_lt _ _)); [done|]. destruct Hpc as [-> | ->]; cbn in *; lia.
  - intros Hfin. unfold q_occupancy. rewrite Hsl, Hac, Hwa.
    by rewrite !sumZ_zero by (intros pc ->%Hfin; done).
Qed.

(** ** Concrete instances *)

Definition demo_queue_config : QueueConfig :=
  {| MaxInFlight := 1; MaxWaiting := 1; WaitTimeout := second |}.

Definition demo_queue (slots active waiting : Z) : ProviderQueue :=
  {| q_providerID := "p"; q_config := demo_queue_config; q_slots := slots; q_active := active;
     q_waiting := waiting; q_rejected := 0; q_timedOut := 0; q_canceled := 0 |}.

Lemma acquire_admission_witness :
  ProviderQueue_Acquire (demo_queue 1 1 1) (Some ctx_background) 5 (λ q, (WaitSlot, 6, q)) =
    (Err (ProviderQueue_failure (demo_queue 1 1 1) QueueFull), 5, q_add_rejected (demo_queue 1 1 1)).
Proof.
  exact (proj2 (acquire_admission (demo_queue 1 1 1) ctx_background 5 (λ q, (WaitSlot, 6, q)) eq_refl)
    ltac:(done) ltac:(done)).
Defined.

(** The holder of the only slot releases it while the call waits. *)
Definition demo_wait (q : ProviderQueue) : WaitEvent * Time * ProviderQueue :=
  (WaitSlot, 6, snd (QueueLease_Release new_lease q)).

Lemma acquire_conserves_witness :
  ProviderQueue_Acquire (demo_queue 1 1 0) (Some ctx_background) 5 demo_wait =
    (Ok new_lease, 6, demo_queue 1 1 0) ∧
  q_occupancy (demo_queue 1 1 0) = (0 + 1, 0 + 1, 1 - 1).
Proof.
  split; [reflexivity|].
  exact (proj1 (acquire_conserves (demo_queue 1 1 0) ctx_background 5 demo_wait (Ok new_lease) 6
    (demo_queue 1 1 0) eq_refl ltac:(done) ltac:(done) ltac:(done) eq_refl)).
Defined.

Lemma release_once_witness :
  q_occupancy (snd (QueueLease_Release new_lease (demo_queue 1 1 1))) = (0, 0, 1).
Proof. exact (proj1 (proj2 (release_once new_lease (demo_queue 1 1 1) eq_refl ltac:(done)))). Defined.

Lemma queue_limits_witness :
  sumZ unreleased [Leased] ≤ q_active (demo_queue 1 1 0) ∧ q_slots (demo_queue 1 1 0) ≤ 1.
Proof.
  assert (rtc qstep {| qsys_queue := demo_queue 0 0 0; qsys_callers := [] |}
            {| qsys_queue := demo_queue 1 1 0; qsys_callers := [Leased] |}) as Hreach.
  { eapply rtc_l; [apply qs_call|].
    eapply rtc_l; [eapply (qs_local _ _ 0 AtTry _ Tried); [done|by apply ql_try]|].
    eapply rtc_l; [eapply (qs_local _ _ 0 Tried _ Leased); [done|apply ql_tried]|].
    apply rtc_refl. }
  destruct (queue_limits " p " demo_queue_config (demo_queue 0 0 0) _ ltac:(done) Hreach)
    as (H1 & H2 & _).
  split; [exact H1 | exact (proj2 H2)].
Defined.
