(* ===== verification/Registry.v ===== *)
(** * The per-provider registries of breakers and queues

    Models [src/internal/reliability/breaker_registry.go] and the registry part
    of [src/internal/reliability/queue.go]. The registries hold pointers and
    [ReuseProvider] makes two registries (of two runtime snapshots) point to one
    instance, so the instances live in a heap and a registry maps a provider to
    a location of it. A nil registry is [None]. *)

From S2P Require Import Prelude Failure Breaker Queue.

(** ** Registries in general

    The three constructors of the package run the same loop over the configured
    provider identifiers; it is written once, over what they allocate. *)

Record RegistryOf := { reg_at : gmap string nat; reg_ids : list string }.

Section registry.
Context {Config E Obj : Type} (make : string → Config → result E Obj).
Context (e_empty : nat → E) (e_duplicated e_missing : string → E) (e_none : E).
Context (name_of : Obj → string).

Fixpoint registry_loop (configs : gmap string Config) (index : nat) (providerIDs : list string)
    (heap : list Obj) (registry : RegistryOf) : result E (list Obj * RegistryOf) :=
  match providerIDs with
  | [] => Ok (heap, registry)
  | configuredID :: rest =>
      let providerID := TrimSpace configuredID in
      if (providerID =? "")%string then Err (e_empty index)
      else match reg_at registry !! providerID with
      | Some _ => Err (e_duplicated providerID)
      | None =>
          match configs !! providerID with
          | None => Err (e_missing providerID)
          | Some config =>
              match make providerID config with
              | Err e => Err e
              | Ok obj =>
                  registry_loop configs (S index) rest (heap ++ [obj])
                    {| reg_at := <[providerID := length heap]> (reg_at registry);
                       reg_ids := reg_ids registry ++ [providerID] |}
              end
          end
      end
  end.

Definition registry_finish (r : result E (list Obj * RegistryOf))
  : result E (list Obj * RegistryOf) :=
  match r with
  | Err e => Err e
  | Ok (heap, registry) =>
      if bool_decide (reg_at registry = ∅) then Err e_none
      else Ok (heap, {| reg_at := reg_at registry; reg_ids := sort_Strings (reg_ids registry) |})
  end.

Definition new_registry (providerIDs : list string) (configs : gmap string Config)
    (heap : list Obj) : result E (list Obj * RegistryOf) :=
  registry_finish (registry_loop configs 0 providerIDs heap {| reg_at := ∅; reg_ids := [] |}).

(** The one configuration for all of [New...Registry], by trimmed identifier. *)
Definition same_configs (providerIDs : list string) (config : Config) : gmap string Config :=
  foldl (λ m id, <[TrimSpace id := config]> m) ∅ providerIDs.

(** A well-formed registry: the identifiers are listed once each, and each
    names an instance of the heap that carries the name. *)
Record registry_wf (heap : list Obj) (registry : RegistryOf) : Prop := {
  rwf_nodup : NoDup (reg_ids registry);
  rwf_ids : ∀ k, k ∈ reg_ids registry ↔ is_Some (reg_at registry !! k);
  rwf_named : ∀ k l, reg_at registry !! k = Some l → ∃ o, heap !! l = Some o ∧ name_of o = k;
}.

Lemma registry_wf_inj heap registry k1 k2 l :
  registry_wf heap registry →
  reg_at registry !! k1 = Some l → reg_at registry !! k2 = Some l → k1 = k2.
Proof.
  intros [_ _ Hn] H1 H2. apply Hn in H1 as (o1 & ? & <-), H2 as (o2 & ? & <-). congruence.
Qed.

Hypothesis make_named : ∀ k c o, make k c = Ok o → trimmed k → name_of o = k.

(** What the loop has allocated so far. *)
Definition allocated (configs : gmap string Config) (heap0 heap : list Obj)
    (registry : RegistryOf) : Prop :=
  ∀ k l, reg_at registry !! k = Some l → (length heap0 ≤ l)%nat ∧
    ∃ c o, configs !! k = Some c ∧ heap !! l = Some o ∧ make k c = Ok o.

Lemma registry_loop_spec configs ids index heap0 heap registry heap' registry' :
  registry_wf heap registry → allocated configs heap0 heap registry → heap0 `prefix_of` heap →
  registry_loop configs index ids heap registry = Ok (heap', registry') →
  registry_wf heap' registry' ∧ allocated configs heap0 heap' registry' ∧
  heap0 `prefix_of` heap' ∧
  (∀ k, k ∈ reg_ids registry' ↔ k ∈ reg_ids registry ∨ k ∈ map TrimSpace ids).
Proof.
  revert index heap registry. induction ids as [|id ids IH]; intros index heap registry Hwf Hal Hpre;
    cbn.
  { intros [= <- <-]. split; [done|]. split; [done|]. split; [done|]. intros k. rewrite elem_of_nil. tauto. }
  case_match; [done|]. destruct (reg_at registry !! TrimSpace id) eqn:Hnew; [done|].
  destruct (configs !! TrimSpace id) as [c|] eqn:Hc; [|done].
  destruct (make _ c) as [o|] eqn:Ho; [|done]. intros Hloop.
  destruct Hwf as [Hnd Hids Hnm].
  apply IH in Hloop as (? & ? & ? & Hin); [|constructor|..]; cbn in *.
  - split; [done|]. split; [done|]. split; [done|]. intros k. rewrite Hin, elem_of_app, !elem_of_cons, elem_of_nil. tauto.
  - apply NoDup_app. split; [done|]. split; [|apply NoDup_singleton].
    intros x Hx ->%list_elem_of_singleton. apply Hids in Hx as [? Hx]. congruence.
  - intros k. rewrite elem_of_app, list_elem_of_singleton, Hids, lookup_insert_is_Some.
    destruct (decide (TrimSpace id = k)) as [<-|]; split; intros; intuition eauto; congruence.
  - intros k l. rewrite lookup_insert_Some. intros [[<- <-]|[_ Hk]].
    + exists o. rewrite list_lookup_middle by done. split; [done|]. eapply make_named; [done | apply trimmed_TrimSpace].
    + apply Hnm in Hk as (o' & Ho' & ?). exists o'. split; [by apply lookup_app_l_Some | done].
  - intros k l. cbn. rewrite lookup_insert_Some. intros [[<- <-]|[_ Hk]].
    + split; [by apply prefix_length|]. exists c, o. split; [done|]. split; [by apply list_lookup_middle | done].
    + apply Hal in Hk as (? & c' & o' & ? & Ho' & ?). split; [done|]. exists c', o'.
      split; [done|]. split; [by apply lookup_app_l_Some | done].
  - by apply prefix_app_r.
Qed.

(** What every constructor guarantees: a well-formed registry over exactly the
    trimmed identifiers given, sorted, whose instances are new in the heap
    and were built from their own provider's configuration. *)
Lemma new_registry_spec ids configs heap heap' registry :
  new_registry ids configs heap = Ok (heap', registry) →
  registry_wf heap' registry ∧ Sorted string_le (reg_ids registry) ∧
  allocated configs heap heap' registry ∧ heap `prefix_of` heap' ∧
  (∀ k, k ∈ reg_ids registry ↔ k ∈ map TrimSpace ids) ∧ reg_ids registry ≠ [].
Proof.
  unfold new_registry, registry_finish. destruct (registry_loop _ _ _ _ _) as [[h r]|] eqn:Hloop; [|done].
  case_bool_decide as Hne; [done|]. intros [= <- <-].
  apply (registry_loop_spec _ _ _ heap) in Hloop as ([Hnd Hids Hnm] & Hal & Hpre & Hin); try done.
  - pose proof (sort_Strings_perm (reg_ids r)) as Hp. repeat split; cbn.
    + by rewrite Hp.
    + rewrite Hp. apply Hids.
    + rewrite Hp. apply Hids.
    + done.
    + apply sort_Strings_sorted.
    + by eapply Hal.
    + by eapply Hal.
    + done.
    + rewrite Hp, Hin. set_solver.
    + rewrite Hp, Hin. set_solver.
    + intros Hnil. apply Hne, map_eq. intros k. rewrite lookup_empty.
      destruct (reg_at r !! k) eqn:Ek; [|done].
      assert (k ∈ sort_Strings (reg_ids r)) as Hk by (rewrite Hp; apply Hids; eauto).
      rewrite Hnil in Hk. by apply elem_of_nil in Hk.
  - constructor; cbn; [constructor| |].
    + intros k. rewrite lookup_empty, elem_of_nil. split; [done | by intros [? ?]].
    + intros k l. by rewrite lookup_empty.
Qed.

(** [ReuseProvider]: the entry of [registry] is redirected to the instance of
    [previous] when both exist and are configured alike. *)
Definition reuse_provider (same_config : Obj → Obj → bool) (heap : list Obj)
    (registry : option RegistryOf) (providerID : string) (previous : option RegistryOf)
  : bool * option RegistryOf :=
  let providerID := TrimSpace providerID in
  match registry, previous with
  | Some r, Some p =>
      match reg_at r !! providerID, reg_at p !! providerID with
      | Some current, Some existing =>
          match heap !! current, heap !! existing with
          | Some c, Some e =>
              if same_config c e
              then (true, Some {| reg_at := <[providerID := existing]> (reg_at r);
                                  reg_ids := reg_ids r |})
              else (false, registry)
          | _, _ => (false, registry)
          end
      | _, _ => (false, registry)
      end
  | _, _ => (false, registry)
  end.

Lemma reuse_provider_wf same heap r id p ok r' :
  registry_wf heap r → registry_wf heap p →
  reuse_provider same heap (Some r) id (Some p) = (ok, Some r') → registry_wf heap r'.
Proof.
  intros [Hnd Hids Hnm] [_ _ Hnp]. unfold reuse_provider.
  repeat case_match; intros [= <- <-]; try done. constructor; cbn; [done| |].
  - intros k. rewrite Hids, lookup_insert_is_Some.
    destruct (decide (TrimSpace id = k)) as [<-|]; naive_solver.
  - intros k l. rewrite lookup_insert_Some. intros [[<- <-]|[_ Hk]]; [by apply Hnp | by apply Hnm].
Qed.
End registry.

Arguments registry_wf {Obj} name_of heap registry.

(** ** Breakers *)

Abbreviation BreakerRegistry := RegistryOf (only parsing).
Abbreviation BreakerHeap := (list Breaker) (only parsing).

Definition NewBreakerRegistryWithConfigs (providerIDs : list string)
    (configs : gmap string BreakerConfig) (heap : BreakerHeap)
  : result BreakerError (BreakerHeap * BreakerRegistry) :=
  new_registry NewBreaker breaker_provider_empty breaker_provider_duplicated
    breaker_config_missing breaker_registry_empty providerIDs configs heap.

Definition NewBreakerRegistry (providerIDs : list string) (config : BreakerConfig)
    (heap : BreakerHeap) : result BreakerError (BreakerHeap * BreakerRegistry) :=
  match BreakerConfig_Validate config with
  | Some e => Err e
  | None => NewBreakerRegistryWithConfigs providerIDs (same_configs providerIDs config) heap
  end.

(** The breaker a registry names, and the method calls through it. *)
Definition breaker_at (heap : BreakerHeap) (registry : option BreakerRegistry)
    (providerID : string) : option (nat * Breaker) :=
  r ← registry; l ← reg_at r !! TrimSpace providerID; b ← heap !! l; Some (l, b).

Definition BreakerRegistry_Allow (registry : option BreakerRegistry) (providerID : string)
    (now : Time) (heap : BreakerHeap) : result Failure (nat * Permit) * BreakerHeap :=
  match breaker_at heap registry providerID with
  | None =>
      (Err (f_with_cause (new_failure CategoryLocalValidation (TrimSpace providerID))
              (ESentinel ErrUnknownBreakerProvider)), heap)
  | Some (l, b) =>
      match Breaker_Allow b now with
      | (Ok permit, b') => (Ok (l, permit), <[l := b']> heap)
      | (Err failure, b') => (Err failure, <[l := b']> heap)
      end
  end.

Definition BreakerRegistry_Snapshot (registry : option BreakerRegistry) (providerID : string)
    (now : Time) (heap : BreakerHeap) : option BreakerSnapshot * BreakerHeap :=
  match breaker_at heap registry providerID with
  | None => (None, heap)
  | Some (l, b) => let '(s, b') := Breaker_Snapshot b now in (Some s, <[l := b']> heap)
  end.

(** Every listed identifier has its breaker ([rwf_ids]), so none is skipped. *)
Fixpoint breaker_snapshots (registry : BreakerRegistry) (ids : list string) (now : Time)
    (heap : BreakerHeap) : list BreakerSnapshot * BreakerHeap :=
  match ids with
  | [] => ([], heap)
  | id :: rest =>
      match reg_at registry !! id ≫= λ l, b ← heap !! l; Some (l, b) with
      | Some (l, b) =>
          let '(s, b') := Breaker_Snapshot b now in
          let '(ss, heap) := breaker_snapshots registry rest now (<[l := b']> heap) in
          (s :: ss, heap)
      | None => breaker_snapshots registry rest now heap
      end
  end.

Definition BreakerRegistry_Snapshots (registry : option BreakerRegistry) (now : Time)
    (heap : BreakerHeap) : list BreakerSnapshot * BreakerHeap :=
  match registry with
  | None => ([], heap)
  | Some r => breaker_snapshots r (reg_ids r) now heap
  end.

Definition same_breaker_config (current existing : Breaker) : bool :=
  bool_decide (br_config current = br_config existing).

Definition BreakerRegistry_ReuseProvider (heap : BreakerHeap)
  : option BreakerRegistry → string → option BreakerRegistry → bool * option BreakerRegistry :=
  reuse_provider same_breaker_config heap.

(** [NewBreakerRegistryFromBreakers]: given instances, [None] for nil. *)
Inductive FromBreakersError :=
| breaker_nil (index : nat) | from_duplicated (providerID : string) | from_empty.

Fixpoint from_breakers_loop (index : nat) (configured : list (option nat)) (now : Time)
    (heap : BreakerHeap) (registry : BreakerRegistry)
  : result FromBreakersError BreakerRegistry * BreakerHeap :=
  match configured with
  | [] => (Ok registry, heap)
  | entry :: rest =>
      match entry ≫= λ l, b ← heap !! l; Some (l, b) with
      | None => (Err (breaker_nil index), heap)
      | Some (l, b) =>
          let '(snapshot, b') := Breaker_Snapshot b now in
          let heap := <[l := b']> heap in
          let providerID := bs_ProviderID snapshot in
          match reg_at registry !! providerID with
          | Some _ => (Err (from_duplicated providerID), heap)
          | None =>
              from_breakers_loop (S index) rest now heap
                {| reg_at := <[providerID := l]> (reg_at registry);
                   reg_ids := reg_ids registry ++ [providerID] |}
          end
      end
  end.

Definition NewBreakerRegistryFromBreakers (configured : list (option nat)) (now : Time)
    (heap : BreakerHeap) : result FromBreakersError BreakerRegistry * BreakerHeap :=
  match from_breakers_loop 0 configured now heap {| reg_at := ∅; reg_ids := [] |} with
  | (Err e, heap) => (Err e, heap)
  | (Ok registry, heap) =>
      if bool_decide (reg_at registry = ∅) then (Err from_empty, heap)
      else (Ok {| reg_at := reg_at registry; reg_ids := sort_Strings (reg_ids registry) |}, heap)
  end.

(** ** Queues *)

Abbreviation QueueRegistry := RegistryOf (only parsing).
Abbreviation QueueHeap := (list ProviderQueue) (only parsing).

Definition NewQueueRegistryWithConfigs (providerIDs : list string)
    (configs : gmap string QueueConfig) (heap : QueueHeap)
  : result QueueError (QueueHeap * QueueRegistry) :=
  new_registry NewProviderQueue queue_provider_empty queue_provider_duplicated
    queue_config_missing queue_registry_empty providerIDs configs heap.

Definition NewQueueRegistry (providerIDs : list string) (config : QueueConfig)
    (heap : QueueHeap) : result QueueError (QueueHeap * QueueRegistry) :=
  match QueueConfig_Validate config with
  | Some e => Err e
  | None => NewQueueRegistryWithConfigs providerIDs (same_configs providerIDs config) heap
  end.

Definition queue_at (heap : QueueHeap) (registry : QueueRegistry) (providerID : string)
  : option (nat * ProviderQueue) :=
  l ← reg_at registry !! TrimSpace providerID; q ← heap !! l; Some (l, q).

(** [wait] is the environment of the queue while the call is blocked in it. *)
Definition QueueRegistry_Acquire (registry : QueueRegistry) (ctx : option Ctx)
    (providerID : string) (now : Time)
    (wait : ProviderQueue → WaitEvent * Time * ProviderQueue) (heap : QueueHeap)
  : result Failure (nat * QueueLease) * Time * QueueHeap :=
  match queue_at heap registry providerID with
  | None =>
      (Err (f_with_queue (new_failure CategoryQueue (TrimSpace providerID)) QueueUnknownProvider),
       now, heap)
  | Some (l, q) =>
      match ProviderQueue_Acquire q ctx now wait with
      | (Ok lease, now', q') => (Ok (l, lease), now', <[l := q']> heap)
      | (Err failure, now', q') => (Err failure, now', <[l := q']> heap)
      end
  end.

Definition QueueRegistry_Snapshot (registry : QueueRegistry) (providerID : string)
    (heap : QueueHeap) : option QueueSnapshot :=
  '(_, q) ← queue_at heap registry providerID; Some (ProviderQueue_Snapshot q).

Definition QueueRegistry_Snapshots (registry : QueueRegistry) (heap : QueueHeap)
  : list QueueSnapshot :=
  omap (λ id, l ← reg_at registry !! id; q ← heap !! l; Some (ProviderQueue_Snapshot q))
    (reg_ids registry).

Definition same_queue_config (current existing : ProviderQueue) : bool :=
  bool_decide (q_config current = q_config existing).

Definition QueueRegistry_ReuseProvider (heap : QueueHeap)
  : option QueueRegistry → string → option QueueRegistry → bool * option QueueRegistry :=
  reuse_provider same_queue_config heap.

(** ** Properties *)

Lemma NewBreaker_named k c b : NewBreaker k c = Ok b → trimmed k → br_providerID b = k.
Proof. intros Hb Hk. by apply NewBreaker_ok in Hb as (_ & _ & _ & _ & _ & _ & _ & ->). Qed.

Lemma NewProviderQueue_named k c q : NewProviderQueue k c = Ok q → trimmed k → q_providerID q = k.
Proof.
  unfold NewProviderQueue. case_match; [done|]. case_match; [done|]. by intros [= <-].
Qed.

Lemma same_configs_lookup {Config} ids (c : Config) k :
  k ∈ map TrimSpace ids → same_configs ids c !! k = Some c.
Proof.
  unfold same_configs. intros Hk.
  assert (∀ m : gmap string Config, m !! k = Some c ∨ k ∈ map TrimSpace ids →
    foldl (λ m id, <[TrimSpace id := c]> m) m ids !! k = Some c) as Hgen; [|apply Hgen; auto].
  clear Hk. induction ids as [|id ids IH]; cbn; intros m.
  { rewrite elem_of_nil. tauto. }
  rewrite elem_of_cons. intros H. apply IH. rewrite lookup_insert.
  case_decide; [by left | naive_solver].
Qed.

(** The breaker registry is built right: exactly the trimmed identifiers
    given, each once, in order; each with a breaker of its own, freshly
    allocated, closed, named after it and configured as asked; the breakers
    that existed are not touched. *)
Theorem breaker_registry_built ids config heap heap' registry :
  NewBreakerRegistry ids config heap = Ok (heap', registry) →
  heap `prefix_of` heap' ∧ Sorted string_le (reg_ids registry) ∧ NoDup (reg_ids registry) ∧
  (∀ k, k ∈ reg_ids registry ↔ k ∈ map TrimSpace ids) ∧
  (∀ k, k ∈ map TrimSpace ids → ∃ l b,
     reg_at registry !! k = Some l ∧ (length heap ≤ l)%nat ∧ heap' !! l = Some b ∧
     br_providerID b = k ∧ br_config b = config ∧ br_state b = StateClosed ∧
     (∀ k', reg_at registry !! k' = Some l → k' = k)).
Proof.
  unfold NewBreakerRegistry. destruct (BreakerConfig_Validate config); [done|]. intros Hnew.
  destruct (new_registry_spec NewBreaker _ _ _ _ br_providerID NewBreaker_named _ _ _ _ _ Hnew)
    as (Hwf & Hsort & Hal & Hpre & Hids & _).
  split; [done|]. split; [done|]. split; [apply Hwf|]. split; [done|].
  intros k Hk. pose proof Hk as Hk'. apply Hids, Hwf in Hk' as [l Hl].
  destruct (Hal _ _ Hl) as (Hfresh & c & b & Hc & Hb & Hmake).
  rewrite same_configs_lookup in Hc by done. injection Hc as <-.
  destruct (NewBreaker_ok _ _ _ Hmake) as (_ & Hcfg & Hst & _ & _ & _ & _ & Hid).
  exists l, b. repeat split; auto.
  - apply Hwf in Hl as (b' & ? & ?). congruence.
  - intros k' Hl'. by eapply registry_wf_inj.
Qed.

(** Providers are isolated. Through a well-formed registry, [Allow] for one
    provider behaves exactly as its breaker's [Allow] and leaves the breaker of
    every other provider as it was; for an unknown provider (or a nil registry)
    nothing changes and the failure names it. *)
Theorem breaker_registry_isolated heap r id now :
  registry_wf br_providerID heap r →
  let '(res, heap') := BreakerRegistry_Allow (Some r) id now heap in
  (∀ k, TrimSpace k ≠ TrimSpace id → breaker_at heap' (Some r) k = breaker_at heap (Some r) k) ∧
  match breaker_at heap (Some r) id with
  | Some (l, b) =>
      breaker_at heap' (Some r) id = Some (l, snd (Breaker_Allow b now)) ∧
      res = match fst (Breaker_Allow b now) with Ok p => Ok (l, p) | Err f => Err f end
  | None => heap' = heap ∧ ∃ f, res = Err f ∧ f_ProviderID f = TrimSpace id ∧
              SignalsFor (Some f) = no_signals
  end.
Proof.
  intros Hwf. unfold BreakerRegistry_Allow.
  destruct (breaker_at heap (Some r) id) as [[l b]|] eqn:Hb.
  - assert (reg_at r !! TrimSpace id = Some l ∧ heap !! l = Some b) as [Hl Hlb].
    { unfold breaker_at in Hb. cbn in Hb. destruct (reg_at r !! _) as [l'|]; [|done].
      cbn in Hb. destruct (heap !! l') eqn:E; [|done]. cbn in Hb. naive_solver. }
    assert (∀ b', (∀ k, TrimSpace k ≠ TrimSpace id →
        breaker_at (<[l:=b']> heap) (Some r) k = breaker_at heap (Some r) k) ∧
      breaker_at (<[l:=b']> heap) (Some r) id = Some (l, b')) as Hupd.
    { intros b'. split.
      - intros k Hne. unfold breaker_at. cbn. destruct (reg_at r !! TrimSpace k) as [l'|] eqn:Hk; [|done]. cbn.
        rewrite list_lookup_insert_ne; [done|]. intros <-.
        by apply Hne; eapply registry_wf_inj.
      - unfold breaker_at. cbn. rewrite Hl. cbn. rewrite list_lookup_insert_eq; [done|].
        by eapply lookup_lt_Some. }
    destruct (Breaker_Allow b now) as [[p|f] b'] eqn:Ha; cbn; split; (apply Hupd || (split; [apply Hupd | done])).
  - split; [auto|]. split; [done|]. eexists. done.
Qed.

(** [ReuseProvider] makes the new registry share the previous instance: it
    answers true exactly when both have the provider with equal configurations,
    from then on both registries name one breaker, so that what one does to it
    the other sees; the entries of the other providers stay. *)
Theorem breaker_reuse_shares heap r id p ok r' :
  registry_wf br_providerID heap r → registry_wf br_providerID heap p →
  BreakerRegistry_ReuseProvider heap (Some r) id (Some p) = (ok, r') →
  (ok = true ↔ ∃ lc c le e, breaker_at heap (Some r) id = Some (lc, c) ∧
     breaker_at heap (Some p) id = Some (le, e) ∧ br_config c = br_config e) ∧
  (ok = true → ∀ heap1, breaker_at heap1 r' id = breaker_at heap1 (Some p) id) ∧
  (∀ heap1 k, ok = false ∨ TrimSpace k ≠ TrimSpace id →
     breaker_at heap1 r' k = breaker_at heap1 (Some r) k).
Proof.
  intros Hr Hp. unfold BreakerRegistry_ReuseProvider, reuse_provider.
  destruct (reg_at r !! TrimSpace id) as [lc|] eqn:Hlc;
    [|intros [= <- <-]; unfold breaker_at; cbn; rewrite Hlc; naive_solver].
  destruct (reg_at p !! TrimSpace id) as [le|] eqn:Hle;
    [|intros [= <- <-]; unfold breaker_at; cbn; rewrite Hle; naive_solver].
  destruct (rwf_named _ _ _ Hr _ _ Hlc) as (c & Hc & _).
  destruct (rwf_named _ _ _ Hp _ _ Hle) as (e & He & _).
  assert (breaker_at heap (Some r) id = Some (lc, c)) as ->
    by (unfold breaker_at; cbn; rewrite Hlc; cbn; by rewrite Hc).
  assert (breaker_at heap (Some p) id = Some (le, e)) as ->
    by (unfold breaker_at; cbn; rewrite Hle; cbn; by rewrite He).
  rewrite Hc, He. unfold same_breaker_config. case_bool_decide as Hcfg; intros [= <- <-].
  - split; [naive_solver|]. split.
    + intros _ heap1. unfold breaker_at. cbn. by rewrite lookup_insert_eq, Hle.
    + intros heap1 k [?|Hne]; [done|]. unfold breaker_at. cbn. by rewrite lookup_insert_ne by auto.
  - split; [naive_solver|]. split; [done|]. auto.
Qed.

(** The queue registry: same construction, and [Acquire] is the named
    queue's [Acquire]; an unknown provider is refused with no effect. *)
Theorem queue_registry_built ids config heap heap' registry :
  NewQueueRegistry ids config heap = Ok (heap', registry) →
  heap `prefix_of` heap' ∧ Sorted string_le (reg_ids registry) ∧ NoDup (reg_ids registry) ∧
  (∀ id, TrimSpace id ∈ map TrimSpace ids → ∃ l q,
     queue_at heap' registry id = Some (l, q) ∧ (length heap ≤ l)%nat ∧
     q_providerID q = TrimSpace id ∧ q_config q = config ∧ q_occupancy q = (0, 0, 0)) ∧
  (∀ id, TrimSpace id ∉ map TrimSpace ids → queue_at heap' registry id = None).
Proof.
  unfold NewQueueRegistry. destruct (QueueConfig_Validate config); [done|]. intros Hnew.
  destruct (new_registry_spec NewProviderQueue _ _ _ _ q_providerID NewProviderQueue_named _ _ _ _ _ Hnew)
    as (Hwf & Hsort & Hal & Hpre & Hids & _).
  split; [done|]. split; [done|]. split; [apply Hwf|]. split.
  - intros id Hk. pose proof Hk as Hk'. apply Hids, Hwf in Hk' as [l Hl].
    destruct (Hal _ _ Hl) as (Hfresh & c & q & Hc & Hq & Hmake).
    rewrite same_configs_lookup in Hc by done. injection Hc as <-.
    exists l, q. unfold queue_at. rewrite Hl. cbn. rewrite Hq.
    pose proof (NewProviderQueue_named _ _ _ Hmake (trimmed_TrimSpace id)).
    unfold NewProviderQueue in Hmake. case_match; [done|]. case_match; [done|].
    by injection Hmake as <-.
  - intros id Hid. unfold queue_at. destruct (reg_at registry !! TrimSpace id) as [l|] eqn:Hl; [|done].
    exfalso. apply Hid, Hids, Hwf. eauto.
Qed.

(** ** Concrete instances *)

Definition demo_ids : list string := ["b"; " a "]%string.
Definition demo_breakers : BreakerHeap * BreakerRegistry :=
  match NewBreakerRegistry demo_ids demo_config [] with Ok r => r | Err _ => ([], {| reg_at := ∅; reg_ids := [] |}) end.
(** A second registry with the same configurations, in the same heap. *)
Definition demo_breakers2 : BreakerHeap * BreakerRegistry :=
  match NewBreakerRegistry demo_ids demo_config demo_breakers.1 with
  | Ok r => r | Err _ => ([], {| reg_at := ∅; reg_ids := [] |}) end.

Lemma demo_breakers_wf : registry_wf br_providerID demo_breakers.1 demo_breakers.2.
Proof.
  apply (new_registry_spec NewBreaker breaker_provider_empty breaker_provider_duplicated
    breaker_config_missing breaker_registry_empty br_providerID NewBreaker_named demo_ids
    (same_configs demo_ids demo_config) []).
  reflexivity.
Qed.

Lemma demo_breakers2_wf : registry_wf br_providerID demo_breakers2.1 demo_breakers2.2.
Proof.
  apply (new_registry_spec NewBreaker breaker_provider_empty breaker_provider_duplicated
    breaker_config_missing breaker_registry_empty br_providerID NewBreaker_named demo_ids
    (same_configs demo_ids demo_config) demo_breakers.1).
  reflexivity.
Qed.

Lemma demo_breakers_wf2 : registry_wf br_providerID demo_breakers2.1 demo_breakers.2.
Proof.
  destruct demo_breakers_wf as [Hnd Hids Hnm]. constructor; [done|done|].
  intros k l Hk. destruct (Hnm _ _ Hk) as (o & Ho & <-). exists o. split; [|done].
  assert (demo_breakers2.1 = demo_breakers.1 ++ drop 2 demo_breakers2.1) as -> by reflexivity.
  by apply lookup_app_l_Some.
Qed.

Lemma breaker_registry_built_witness :
  reg_ids demo_breakers.2 = ["a"; "b"]%string ∧ NoDup (reg_ids demo_breakers.2).
Proof.
  split; [reflexivity|].
  exact (proj1 (proj2 (proj2 (breaker_registry_built demo_ids demo_config [] _ demo_breakers.2 eq_refl)))).
Defined.

Lemma breaker_registry_isolated_witness :
  breaker_at (snd (BreakerRegistry_Allow (Some demo_breakers.2) "a " 5 demo_breakers.1))
    (Some demo_breakers.2) "b" = breaker_at demo_breakers.1 (Some demo_breakers.2) "b".
Proof.
  exact (proj1 (breaker_registry_isolated demo_breakers.1 demo_breakers.2 "a " 5 demo_breakers_wf)
    "b"%string ltac:(vm_compute; discriminate)).
Defined.

Lemma breaker_reuse_shares_witness :
  breaker_at demo_breakers2.1
    (snd (BreakerRegistry_ReuseProvider demo_breakers2.1 (Some demo_breakers2.2) "a" (Some demo_breakers.2)))
    "a" = breaker_at demo_breakers2.1 (Some demo_breakers.2) "a".
Proof.
  exact (proj1 (proj2 (breaker_reuse_shares demo_breakers2.1 demo_breakers2.2 "a" demo_breakers.2 true _
    demo_breakers2_wf demo_breakers_wf2 eq_refl)) eq_refl demo_breakers2.1).
Defined.

Definition demo_queues : QueueHeap * QueueRegistry :=
  match NewQueueRegistry demo_ids demo_queue_config [] with
  | Ok r => r | Err _ => ([], {| reg_at := ∅; reg_ids := [] |}) end.

Lemma queue_registry_built_witness :
  ∃ l q, queue_at demo_queues.1 demo_queues.2 " b" = Some (l, q) ∧ q_occupancy q = (0, 0, 0).
Proof.
  destruct (proj1 (proj2 (proj2 (proj2 (queue_registry_built demo_ids demo_queue_config [] _
    demo_queues.2 eq_refl)))) " b"%string) as (l & q & H1 & _ & _ & _ & H2);
    [vm_compute; left | exists l, q; split; [exact H1 | exact H2]].
Defined.
