(* ===== verification/KeySelector.v ===== *)
(** * Selection of a provider's API key

    Models [src/internal/reliability/keyselector.go]. A selector keeps the keys
    of one provider and a rotating cursor; [ReuseProvider] makes the registries
    of two runtime snapshots share one selector, so the selectors live in a
    heap. A select holds the read lock throughout and a completion the write
    lock, so both are atomic; the compare-and-swap of [Complete] comes before
    its lock. *)

From S2P Require Import Prelude Failure Registry.

(** ** Data *)

Definition maximumKeysPerProvider : Z := 1000.

Definition key_id_first (c : ascii) : bool :=
  let b := byte_of c in
  ((65 <=? b) && (b <=? 90)) || ((97 <=? b) && (b <=? 122)) || ((48 <=? b) && (b <=? 57)).
Definition key_id_rest (c : ascii) : bool :=
  key_id_first c || (byte_of c =? 46) || (byte_of c =? 95) || (byte_of c =? 45).

(** [^[A-Za-z0-9][A-Za-z0-9._-]{0,63}$] *)
Definition providerKeyIDPattern (s : string) : bool :=
  match list_ascii_of_string s with
  | [] => false
  | c :: l => key_id_first c && forallb key_id_rest l && (length l <=? 63)%nat
  end.

Record ProviderKey := { pk_ID : string; pk_Secret : string }.
Record ProviderKeySet := { pks_ProviderID : string; pks_Keys : list ProviderKey }.

Inductive ProviderKeyState := ProviderKeyAvailable | ProviderKeyCooling | ProviderKeyDisabled.

Record ProviderKeySnapshot := {
  pksn_ProviderID : string;
  pksn_KeyID : string;
  pksn_State : ProviderKeyState;
  pksn_CooldownUntil : Time;
}.

Record providerKeyEntry := {
  ke_id : string;
  ke_secret : string;
  ke_disabled : bool;
  ke_cooldownUntil : Time;
  ke_stateVersion : Z;
}.

Record providerKeySelector := {
  ks_providerID : string;
  ks_keys : list providerKeyEntry;
  ks_next : Z;
}.

(** The selection's pointer to its selector is a location of the heap. *)
Record ProviderKeySelection := {
  sel_selector : nat;
  sel_index : nat;
  sel_keyID : string;
  sel_stateVersion : Z;
  sel_completed : bool;
}.

Abbreviation SelectorHeap := (list providerKeySelector) (only parsing).
Abbreviation ProviderKeyRegistry := RegistryOf (only parsing).

(** ** Construction *)

Inductive KeyError :=
| key_provider_empty (index : nat)
| key_provider_duplicated (providerID : string)
| key_registry_empty
| key_set_unknown_provider (index : nat) (providerID : string)
| key_set_duplicated (providerID : string)
| key_set_empty (providerID : string)
| key_set_too_large (providerID : string)
| key_id_invalid (providerID : string) (index : nat)
| key_id_duplicated (providerID keyID : string)
| key_secret_empty (providerID keyID : string)
| key_provider_without_keys (providerID : string).

Fixpoint selector_keys (providerID : string) (index : nat) (configured : list ProviderKey)
    (seen : gset string) (keys : list providerKeyEntry) : result KeyError (list providerKeyEntry) :=
  match configured with
  | [] => Ok keys
  | key :: rest =>
      let keyID := TrimSpace (pk_ID key) in
      if negb (providerKeyIDPattern keyID) then Err (key_id_invalid providerID index)
      else if bool_decide (keyID ∈ seen) then Err (key_id_duplicated providerID keyID)
      else
        let secret := TrimSpace (pk_Secret key) in
        if (secret =? "")%string then Err (key_secret_empty providerID keyID)
        else selector_keys providerID (S index) rest ({[keyID]} ∪ seen)
               (keys ++ [{| ke_id := keyID; ke_secret := secret; ke_disabled := false;
                            ke_cooldownUntil := time_zero; ke_stateVersion := 0 |}])
  end.

Definition newProviderKeySelector (providerID : string) (configured : list ProviderKey)
  : result KeyError providerKeySelector :=
  if bool_decide (configured = []) then Err (key_set_empty providerID)
  else if Z.of_nat (length configured) >? maximumKeysPerProvider
  then Err (key_set_too_large providerID)
  else
    keys ← selector_keys providerID 0 configured ∅ [];
    Ok {| ks_providerID := providerID; ks_keys := keys; ks_next := 0 |}.

#[export] Instance ProviderKey_eq_dec : EqDecision ProviderKey.
Proof. solve_decision. Defined.

Fixpoint expected_providers (index : nat) (providerIDs : list string) (expected : list string)
  : result KeyError (list string) :=
  match providerIDs with
  | [] => Ok expected
  | id :: rest =>
      let providerID := TrimSpace id in
      if (providerID =? "")%string then Err (key_provider_empty index)
      else if bool_decide (providerID ∈ expected) then Err (key_provider_duplicated providerID)
      else expected_providers (S index) rest (expected ++ [providerID])
  end.

Fixpoint key_sets_loop (expected : list string) (index : nat) (configured : list ProviderKeySet)
    (heap : SelectorHeap) (registry : ProviderKeyRegistry)
  : result KeyError (SelectorHeap * ProviderKeyRegistry) :=
  match configured with
  | [] => Ok (heap, registry)
  | set :: rest =>
      let providerID := TrimSpace (pks_ProviderID set) in
      if negb (bool_decide (providerID ∈ expected))
      then Err (key_set_unknown_provider index providerID)
      else match reg_at registry !! providerID with
      | Some _ => Err (key_set_duplicated providerID)
      | None =>
          match newProviderKeySelector providerID (pks_Keys set) with
          | Err e => Err e
          | Ok selector =>
              key_sets_loop expected (S index) rest (heap ++ [selector])
                {| reg_at := <[providerID := length heap]> (reg_at registry);
                   reg_ids := reg_ids registry ++ [providerID] |}
          end
      end
  end.

(** The last check ranges over a map: with several providers without keys the
    one reported is unspecified; here it is the first of [providerIDs]. *)
Definition newProviderKeyRegistry (providerIDs : list string) (configured : list ProviderKeySet)
    (heap : SelectorHeap) : result KeyError (SelectorHeap * ProviderKeyRegistry) :=
  expected ← expected_providers 0 providerIDs [];
  if bool_decide (expected = []) then Err key_registry_empty
  else
    '(heap, registry) ← key_sets_loop expected 0 configured heap {| reg_at := ∅; reg_ids := [] |};
    match filter (λ id, reg_at registry !! id = None) expected with
    | id :: _ => Err (key_provider_without_keys id)
    | [] => Ok (heap, {| reg_at := reg_at registry; reg_ids := sort_Strings (reg_ids registry) |})
    end.

(** ** Selection *)

Definition key_usable (now : Time) (excluded : gset string) (key : providerKeyEntry) : bool :=
  negb (bool_decide (ke_id key ∈ excluded)) && negb (ke_disabled key) &&
  negb (time_before now (ke_cooldownUntil key)).

Definition newProviderKeySelection (l : nat) (index : nat) (key : providerKeyEntry)
  : ProviderKeySelection :=
  {| sel_selector := l; sel_index := index; sel_keyID := ke_id key;
     sel_stateVersion := ke_stateVersion key; sel_completed := false |}.

Fixpoint preferred_scan (keys : list providerKeyEntry) (index : nat) (preferredKeyID : string)
    (now : Time) (excluded : gset string) : option nat :=
  match keys with
  | [] => None
  | key :: rest =>
      if (ke_id key =? preferredKeyID)%string && key_usable now excluded key then Some index
      else preferred_scan rest (S index) preferredKeyID now excluded
  end.

(** [int((start + uint64(offset)) % uint64(len(selector.keys)))] *)
Definition rotation_index (start : Z) (offset n : nat) : nat :=
  Z.to_nat (wrap_uint64 (start + Z.of_nat offset) mod Z.of_nat n).

(** The loop over the offsets: the index it returns, or the earliest end of a
    cooldown it has seen. *)
Fixpoint select_scan (keys : list providerKeyEntry) (now : Time) (excluded : gset string)
    (start : Z) (offsets : list nat) (earliestCooldown : Time) : nat + Time :=
  match offsets with
  | [] => inr earliestCooldown
  | offset :: rest =>
      let index := rotation_index start offset (length keys) in
      match keys !! index with
      | None => inr earliestCooldown (* never: the index is reduced *)
      | Some key =>
          if bool_decide (ke_id key ∈ excluded) then
            select_scan keys now excluded start rest earliestCooldown
          else if ke_disabled key then
            select_scan keys now excluded start rest earliestCooldown
          else if time_before now (ke_cooldownUntil key) then
            select_scan keys now excluded start rest
              (if time_is_zero earliestCooldown ||
                  time_before (ke_cooldownUntil key) earliestCooldown
               then ke_cooldownUntil key else earliestCooldown)
          else inl index
      end
  end.

Definition ks_set_next (s : providerKeySelector) (n : Z) : providerKeySelector :=
  {| ks_providerID := ks_providerID s; ks_keys := ks_keys s; ks_next := n |}.
Definition ks_set_keys (s : providerKeySelector) (keys : list providerKeyEntry)
  : providerKeySelector :=
  {| ks_providerID := ks_providerID s; ks_keys := keys; ks_next := ks_next s |}.

Definition exhausted_failure (providerID : string) (now earliestCooldown : Time) : Failure :=
  let failure := new_failure CategoryKeyExhausted providerID in
  if time_is_zero earliestCooldown then failure
  else f_with_retry_after failure (time_sub earliestCooldown now) true.

(** [selectKey] on the selector found at location [l]. *)
Definition selector_select (l : nat) (s : providerKeySelector) (providerID preferredKeyID : string)
    (excluded : gset string) (now : Time)
  : result Failure ProviderKeySelection * providerKeySelector :=
  let rotate :=
    let start := ks_next s in
    let s' := ks_set_next s (wrap_uint64 (start + 1)) in
    match select_scan (ks_keys s) now excluded start (seq 0 (length (ks_keys s))) time_zero with
    | inl index =>
        match ks_keys s !! index with
        | Some key => (Ok (newProviderKeySelection l index key), s')
        | None => (Err (exhausted_failure providerID now time_zero), s') (* never *)
        end
    | inr earliest => (Err (exhausted_failure providerID now earliest), s')
    end in
  if (preferredKeyID =? "")%string then rotate
  else match preferred_scan (ks_keys s) 0 preferredKeyID now excluded with
  | Some index =>
      match ks_keys s !! index with
      | Some key => (Ok (newProviderKeySelection l index key), s)
      | None => rotate (* never *)
      end
  | None => rotate
  end.

Definition selectKey (registry : ProviderKeyRegistry) (providerID preferredKeyID : string)
    (excluded : gset string) (now : Time) (heap : SelectorHeap)
  : result Failure ProviderKeySelection * SelectorHeap :=
  let providerID := TrimSpace providerID in
  match reg_at registry !! providerID with
  | None => (Err (new_failure CategoryKeyExhausted providerID), heap)
  | Some l =>
      match heap !! l with
      | None => (Err (new_failure CategoryKeyExhausted providerID), heap)
      | Some s =>
          let '(r, s') := selector_select l s providerID preferredKeyID excluded now in
          (r, <[l := s']> heap)
      end
  end.

Definition Select (registry : ProviderKeyRegistry) (providerID : string) :=
  selectKey registry providerID "" ∅.
Definition SelectPreferred (registry : ProviderKeyRegistry) (providerID keyID : string) :=
  selectKey registry providerID (TrimSpace keyID) ∅.

(** ** Completion *)

Definition ke_set (key : providerKeyEntry) (disabled : bool) (cooldownUntil : Time) (version : Z)
  : providerKeyEntry :=
  {| ke_id := ke_id key; ke_secret := ke_secret key; ke_disabled := disabled;
     ke_cooldownUntil := cooldownUntil; ke_stateVersion := version |}.

(** The [switch] of [Complete] on the selected key; [now] is read in the
    rate-limit case only. *)
Definition key_complete (key : providerKeyEntry) (version : Z) (failure : option Failure)
    (now : Time) : providerKeyEntry :=
  match failure with
  | None =>
      if negb (ke_disabled key) && (ke_stateVersion key =? version)
      then ke_set key (ke_disabled key) time_zero (ke_stateVersion key) else key
  | Some f =>
      if bool_decide (f_Category f = CategoryKeyUnauthorized)
      then ke_set key true time_zero (wrap_uint64 (ke_stateVersion key + 1))
      else if bool_decide (f_Category f = CategoryUpstreamRateLimit) && negb (ke_disabled key) then
        let cooldown := if f_RetryAfterSet f then f_RetryAfter f else defaultProviderKeyCooldown in
        let cooldown := if cooldown >? maximumRetryAfter then maximumRetryAfter else cooldown in
        let cooldownUntil := time_add now cooldown in
        ke_set key (ke_disabled key)
          (if time_after cooldownUntil (ke_cooldownUntil key) then cooldownUntil
           else ke_cooldownUntil key)
          (wrap_uint64 (ke_stateVersion key + 1))
      else key
  end.

Definition selector_complete (s : providerKeySelector) (index : nat) (version : Z)
    (failure : option Failure) (now : Time) : providerKeySelector :=
  ks_set_keys s (alter (λ key, key_complete key version failure now) index (ks_keys s)).

Definition sel_set_completed (selection : ProviderKeySelection) : ProviderKeySelection :=
  {| sel_selector := sel_selector selection; sel_index := sel_index selection;
     sel_keyID := sel_keyID selection; sel_stateVersion := sel_stateVersion selection;
     sel_completed := true |}.

Definition Selection_Complete (selection : ProviderKeySelection) (failure : option Failure)
    (now : Time) (heap : SelectorHeap) : bool * ProviderKeySelection * SelectorHeap :=
  if sel_completed selection then (false, selection, heap)
  else
    (true, sel_set_completed selection,
     alter (λ s, selector_complete s (sel_index selection) (sel_stateVersion selection) failure now)
       (sel_selector selection) heap).

Definition Selection_ProviderID (selection : ProviderKeySelection) (heap : SelectorHeap) : string :=
  match heap !! sel_selector selection with Some s => ks_providerID s | None => "" end.

Definition Selection_Secret (selection : ProviderKeySelection) (heap : SelectorHeap) : string :=
  match heap !! sel_selector selection with
  | None => ""
  | Some s => match ks_keys s !! sel_index selection with
              | Some key => ke_secret key
              | None => ""
              end
  end.

(** ** Snapshots and sharing *)

Definition key_snapshot (providerID : string) (now : Time) (key : providerKeyEntry)
  : ProviderKeySnapshot :=
  let '(state, until) :=
    if ke_disabled key then (ProviderKeyDisabled, time_zero)
    else if time_before now (ke_cooldownUntil key)
    then (ProviderKeyCooling, ke_cooldownUntil key)
    else (ProviderKeyAvailable, time_zero) in
  {| pksn_ProviderID := providerID; pksn_KeyID := ke_id key; pksn_State := state;
     pksn_CooldownUntil := until |}.

Definition KeyRegistry_Snapshots (registry : ProviderKeyRegistry) (now : Time)
    (heap : SelectorHeap) : list ProviderKeySnapshot :=
  concat (map (λ id,
    match reg_at registry !! id ≫= λ l, heap !! l with
    | Some s => map (key_snapshot id now) (ks_keys s)
    | None => []
    end) (reg_ids registry)).

Definition sameProviderKeys (first second : providerKeySelector) : bool :=
  bool_decide (map (λ k, (ke_id k, ke_secret k)) (ks_keys first) =
               map (λ k, (ke_id k, ke_secret k)) (ks_keys second)).

Definition KeyRegistry_ReuseProvider (heap : SelectorHeap)
  : option ProviderKeyRegistry → string → option ProviderKeyRegistry →
    bool * option ProviderKeyRegistry :=
  reuse_provider sameProviderKeys heap.

(** ** What a select returns *)

(** The end of the cooldown a key is waiting for, when that is all it lacks. *)
Definition cooling_until (now : Time) (excluded : gset string) (key : providerKeyEntry) : option Time :=
  if bool_decide (ke_id key ∈ excluded) || ke_disabled key then None
  else if time_before now (ke_cooldownUntil key) then Some (ke_cooldownUntil key) else None.

Lemma usable_not_cooling now excluded key :
  key_usable now excluded key = true → cooling_until now excluded key = None.
Proof. unfold key_usable, cooling_until. go_cases. Qed.

(** [t] is the earliest of the cooldowns of [keys], zero when there is none. *)
Definition earliest_of (now : Time) (excluded : gset string) (keys : list providerKeyEntry)
    (t : Time) : Prop :=
  (t = time_zero ∧ ∀ key, key ∈ keys → cooling_until now excluded key = None) ∨
  ((∃ key, key ∈ keys ∧ cooling_until now excluded key = Some t) ∧
   ∀ key u, key ∈ keys → cooling_until now excluded key = Some u → t ≤ u).

Lemma preferred_scan_usable keys index id now excluded i :
  preferred_scan keys index id now excluded = Some i →
  ∃ key, keys !! (i - index)%nat = Some key ∧ (index ≤ i)%nat ∧
    ke_id key = id ∧ key_usable now excluded key = true.
Proof.
  revert index. induction keys as [|key keys IH]; intros index; cbn; [done|].
  destruct (_ && _) eqn:E.
  - intros [= <-]. apply andb_true_iff in E as [E1%String.eqb_eq E2].
    exists key. rewrite Nat.sub_diag. auto.
  - intros (k & Hk & Hi & Hid & Hu)%IH. exists k.
    replace (i - index)%nat with (S (i - S index)) by lia. split; [done|]. split; [lia | done].
Qed.

Lemma preferred_scan_none keys index id now excluded key :
  preferred_scan keys index id now excluded = None → key ∈ keys → ke_id key = id →
  key_usable now excluded key = false.
Proof.
  revert index. induction keys as [|k keys IH]; intros index; cbn; [by intros _ ?%elem_of_nil|].
  destruct (_ && _) eqn:E; [done|]. intros Hs [->|Hin]%elem_of_cons Hid; [|by eapply IH].
  rewrite Hid, String.eqb_refl in E. done.
Qed.

(** The offset that reaches key [i]. *)
Lemma rotation_hits start n i :
  0 ≤ start → start + Z.of_nat n ≤ two64 → (i < n)%nat →
  rotation_index start (Z.to_nat ((Z.of_nat i - start) mod Z.of_nat n)) n = i.
Proof.
  intros Hs Hw Hlt. pose proof (Z.mod_pos_bound (Z.of_nat i - start) (Z.of_nat n) ltac:(lia)).
  unfold rotation_index. rewrite Z2Nat.id by lia. rewrite wrap_uint64_id by lia.
  rewrite Zplus_mod_idemp_r. replace (start + (Z.of_nat i - start)) with (Z.of_nat i) by lia.
  rewrite Z.mod_small by lia. apply Nat2Z.id.
Qed.

Section scan.
Context (keys : list providerKeyEntry) (now : Time) (excluded : gset string) (start : Z).

Definition scanned (offsets : list nat) (key : providerKeyEntry) : Prop :=
  ∃ o, o ∈ offsets ∧ keys !! rotation_index start o (length keys) = Some key.

Lemma select_scan_usable offsets t i :
  select_scan keys now excluded start offsets t = inl i →
  ∃ key, keys !! i = Some key ∧ key_usable now excluded key = true.
Proof.
  revert t. induction offsets as [|o offsets IH]; intros t; cbn; [done|].
  destruct (keys !! rotation_index _ _ _) as [key|] eqn:Hk; [|done].
  destruct (bool_decide _) eqn:E1; [apply IH|]. destruct (ke_disabled key) eqn:E2; [apply IH|].
  destruct (time_before _ _) eqn:E3; [apply IH|]. intros [= <-].
  exists key. unfold key_usable. by rewrite E1, E2, E3.
Qed.

Hypothesis Hnow : 0 ≤ now.
Hypothesis Hkeys : keys ≠ [].

Lemma rotation_index_lt o : (rotation_index start o (length keys) < length keys)%nat.
Proof.
  unfold rotation_index. destruct keys as [|k l]; [done|]. cbn [length].
  pose proof (Z.mod_pos_bound (wrap_uint64 (start + Z.of_nat o)) (Z.of_nat (S (length l)))). lia.
Qed.

(** When the scan fails, nothing it saw is usable and the time it reports is
    the earliest cooldown it saw, or the one it was given. *)
Lemma select_scan_fails offsets t e :
  0 ≤ t → select_scan keys now excluded start offsets t = inr e →
  (∀ key, scanned offsets key → key_usable now excluded key = false) ∧
  (e = t ∨ ∃ key, scanned offsets key ∧ cooling_until now excluded key = Some e) ∧
  (t ≠ 0 → e ≤ t ∧ e ≠ 0) ∧
  (∀ key u, scanned offsets key → cooling_until now excluded key = Some u → e ≠ 0 ∧ e ≤ u).
Proof.
  revert t. induction offsets as [|o offsets IH]; intros t Ht; cbn.
  { intros [= <-]. split; [by intros key (? & ?%elem_of_nil & _)|]. split; [auto|]. split; [lia|].
    by intros key u (? & ?%elem_of_nil & _). }
  pose proof (rotation_index_lt o) as Hlt. apply lookup_lt_is_Some in Hlt as [key Hk].
  rewrite Hk.
  assert (scanned (o :: offsets) key) as Hthis by (exists o; split; [left|done]).
  assert (∀ k, scanned offsets k → scanned (o :: offsets) k) as Hmore
    by (intros k (o' & ? & ?); exists o'; split; [by right|done]).
  assert (∀ k, scanned (o :: offsets) k → k = key ∨ scanned offsets k) as Hcons.
  { intros k (o' & [->|?]%elem_of_cons & ?); [left; congruence | right; by exists o']. }
  assert (cooling_until now excluded key = None → key_usable now excluded key = false →
     select_scan keys now excluded start offsets t = inr e →
     (∀ key, scanned (o :: offsets) key → key_usable now excluded key = false) ∧
     (e = t ∨ ∃ key, scanned (o :: offsets) key ∧ cooling_until now excluded key = Some e) ∧
     (t ≠ 0 → e ≤ t ∧ e ≠ 0) ∧
     (∀ key u, scanned (o :: offsets) key → cooling_until now excluded key = Some u → e ≠ 0 ∧ e ≤ u))
    as Hskip.
  { intros Hc Hu Hs. destruct (IH t Ht Hs) as (H1 & H2 & H3 & H4). split; [|split; [|split]].
    - intros k [->|?]%Hcons; auto.
    - destruct H2 as [|(k & ? & ?)]; eauto.
    - done.
    - intros k u [->|?]%Hcons; [congruence | eauto]. }
  unfold key_usable, cooling_until in Hskip.
  destruct (bool_decide (ke_id key ∈ excluded)) eqn:E1; [by apply Hskip|].
  destruct (ke_disabled key) eqn:E2; [by apply Hskip|].
  destruct (time_before now (ke_cooldownUntil key)) eqn:E3; [|done].
  assert (cooling_until now excluded key = Some (ke_cooldownUntil key)) as Hcool
    by (unfold cooling_until; by rewrite E1, E2, E3).
  assert (key_usable now excluded key = false) as Hun by (unfold key_usable; by rewrite E1, E2, E3).
  unfold time_before in *. apply Z.ltb_lt in E3. intros Hs.
  set (t' := if _ || _ then _ else t) in *.
  assert (0 < t' ∧ t' ≤ ke_cooldownUntil key ∧ (t ≠ 0 → t' ≤ t) ∧ (t' = t ∨ t' = ke_cooldownUntil key))
    as (Ht0 & Ht1 & Ht2 & Ht3).
  { subst t'. unfold time_is_zero, time_zero. go_cases. }
  destruct (IH t' ltac:(lia) Hs) as (H1 & H2 & H3 & H4). split; [|split; [|split]].
  - intros k [->|?]%Hcons; auto.
  - destruct H2 as [->|(k & ? & ?)]; [|eauto]. destruct Ht3 as [|Ht3]; [by left|]. right.
    exists key. by rewrite Ht3.
  - intros ?. specialize (H3 ltac:(lia)). lia.
  - intros k u [->|?]%Hcons Hcu; [|eauto]. rewrite Hcool in Hcu. injection Hcu as <-.
    specialize (H3 ltac:(lia)). lia.
Qed.

(** One round of the cursor visits every key, as long as the 64-bit cursor does
    not come round within it. *)
Lemma rotation_covers key :
  0 ≤ start → start + Z.of_nat (length keys) ≤ two64 → key ∈ keys →
  scanned (seq 0 (length keys)) key.
Proof.
  intros Hs Hw [i Hi]%list_elem_of_lookup_1. pose proof (lookup_lt_Some _ _ _ Hi) as Hlt.
  pose proof (Z.mod_pos_bound (Z.of_nat i - start) (Z.of_nat (length keys)) ltac:(lia)).
  exists (Z.to_nat ((Z.of_nat i - start) mod Z.of_nat (length keys))).
  split; [apply elem_of_seq; lia|]. by rewrite rotation_hits.
Qed.
End scan.

Lemma selector_select_err l s p pref excluded now f s' :
  selector_select l s p pref excluded now = (Err f, s') → f_Category f = CategoryKeyExhausted.
Proof.
  unfold selector_select, exhausted_failure. repeat case_match; intros [= <- _]; done.
Qed.

Lemma selector_select_ok l s p pref excluded now sel s' :
  selector_select l s p pref excluded now = (Ok sel, s') →
  ks_keys s' = ks_keys s ∧
  ∃ key, ks_keys s !! sel_index sel = Some key ∧ sel = newProviderKeySelection l (sel_index sel) key ∧
    key_usable now excluded key = true.
Proof.
  unfold selector_select.
  assert (∀ s1, (match select_scan (ks_keys s) now excluded (ks_next s)
                   (seq 0 (length (ks_keys s))) time_zero with
     | inl index => match ks_keys s !! index with
        | Some key => (Ok (newProviderKeySelection l index key), s1)
        | None => (Err (exhausted_failure p now time_zero), s1) end
     | inr earliest => (Err (exhausted_failure p now earliest), s1)
     end) = (Ok sel, s') → ks_keys s1 = ks_keys s → ks_keys s' = ks_keys s ∧
     ∃ key, ks_keys s !! sel_index sel = Some key ∧ sel = newProviderKeySelection l (sel_index sel) key ∧
     key_usable now excluded key = true) as Hrot.
  { intros s1. destruct (select_scan _ _ _ _ _ _) as [i|] eqn:Hscan; [|done].
    apply select_scan_usable in Hscan as (key & Hk & Hu). rewrite Hk. intros [= <- <-] ?.
    split; [done|]. exists key. done. }
  destruct (pref =? "")%string; [intros H; by eapply Hrot|].
  destruct (preferred_scan _ _ _ _ _) as [i|] eqn:Hp; [|intros H; by eapply Hrot].
  destruct (ks_keys s !! i) as [key|] eqn:Hk; [|intros H; by eapply Hrot].
  intros [= <- <-]. split; [done|]. exists key. split; [done|]. split; [done|].
  apply preferred_scan_usable in Hp as (k & Hk' & _ & _ & ?). rewrite Nat.sub_0_r in Hk'. congruence.
Qed.

(** A selection is of a usable key. Whatever was preferred or excluded and
    wherever the cursor stands, the key returned is one of this provider's, is
    not disabled, not excluded and not in a cooldown at that instant; the
    selection carries its identifier, secret and the version of its state; and
    no key's state changes. *)
Theorem select_picks_usable registry p pref excluded now heap sel heap' :
  selectKey registry p pref excluded now heap = (Ok sel, heap') →
  ∃ l s s' key,
    reg_at registry !! TrimSpace p = Some l ∧ heap !! l = Some s ∧ heap' = <[l := s']> heap ∧
    ks_keys s' = ks_keys s ∧ sel_selector sel = l ∧
    ks_keys s !! sel_index sel = Some key ∧ sel_keyID sel = ke_id key ∧
    Selection_Secret sel heap' = ke_secret key ∧ sel_stateVersion sel = ke_stateVersion key ∧
    ke_id key ∉ excluded ∧ ke_disabled key = false ∧ ke_cooldownUntil key ≤ now.
Proof.
  unfold selectKey. destruct (reg_at registry !! _) as [l|]; [|done].
  destruct (heap !! l) as [s|] eqn:Hl; [|done].
  destruct (selector_select l s _ _ _ _) as [r s'] eqn:Hsel. intros [= -> <-].
  apply selector_select_ok in Hsel as (Hks & key & Hk & -> & Hu). cbn in *.
  exists l, s, s', key. unfold Selection_Secret. cbn.
  rewrite list_lookup_insert_eq by (by eapply lookup_lt_Some). rewrite Hks, Hk.
  unfold key_usable, time_before in Hu. rewrite !andb_true_iff, !negb_true_iff in Hu.
  destruct Hu as [[Hex%bool_decide_eq_false ?] ?]. repeat split; try done. lia.
Qed.

Lemma select_failure l s p pref excluded now :
  ks_keys s ≠ [] → 0 ≤ ks_next s → ks_next s + Z.of_nat (length (ks_keys s)) ≤ two64 → 0 ≤ now →
  match fst (selector_select l s p pref excluded now) with
  | Ok _ => ∃ key, key ∈ ks_keys s ∧ key_usable now excluded key = true
  | Err f =>
      (∀ key, key ∈ ks_keys s → key_usable now excluded key = false) ∧
      f_Category f = CategoryKeyExhausted ∧ f_ProviderID f = p ∧
      ∃ t, earliest_of now excluded (ks_keys s) t ∧
           f_RetryAfterSet f = negb (time_is_zero t) ∧
           f_RetryAfter f = (if time_is_zero t then 0 else time_sub t now)
  end.
Proof.
  intros Hne Hs Hw Hnow.
  destruct (selector_select l s p pref excluded now) as [[sel|f] s'] eqn:Hsel; cbn.
  { apply selector_select_ok in Hsel as (_ & key & Hk & _ & Hu).
    exists key. split; [by eapply list_elem_of_lookup_2 | done]. }
  assert (∃ e, select_scan (ks_keys s) now excluded (ks_next s)
     (seq 0 (length (ks_keys s))) time_zero = inr e ∧ f = exhausted_failure p now e) as (e & He & ->).
  { revert Hsel. unfold selector_select.
    destruct (select_scan _ _ _ _ _ _) as [i|e] eqn:Hscan.
    - apply select_scan_usable in Hscan as (key & Hk & Hu). rewrite Hk.
      destruct (pref =? "")%string; [done|].
      destruct (preferred_scan _ _ _ _ _) as [j|] eqn:Hp; [|done].
      apply preferred_scan_usable in Hp as (k & Hk' & _). rewrite Nat.sub_0_r in Hk'. by rewrite Hk'.
    - intros Hsel. exists e. split; [done|].
      destruct (pref =? "")%string; [by injection Hsel|].
      destruct (preferred_scan _ _ _ _ _) as [j|] eqn:Hp; [|by injection Hsel].
      destruct (ks_keys s !! j); [done | by injection Hsel]. }
  destruct (select_scan_fails _ _ _ _ Hnow Hne _ _ _ (Z.le_refl 0) He) as (H1 & H2 & _ & H4).
  pose proof (rotation_covers (ks_keys s) (ks_next s)) as Hcov.
  split; [intros key Hk; apply H1, Hcov; auto|].
  assert (earliest_of now excluded (ks_keys s) e) as Hearly.
  { destruct H2 as [->|(key & (o & _ & Hk) & Hc)].
    - left. split; [done|]. intros key Hk. destruct (cooling_until _ _ _) as [u|] eqn:Hc; [|done].
      by destruct (H4 key u (Hcov key Hs Hw Hk) Hc).
    - right. split; [exists key; split; [by eapply list_elem_of_lookup_2 | done]|].
      intros k u Hin Hcu. by apply (H4 k u); auto. }
  unfold exhausted_failure. split; [by case_match|]. split; [by case_match|].
  exists e. split; [done|]. by case_match.
Qed.

(** Selection is complete: it fails exactly when every key is disabled,
    excluded or in a cooldown, and then reports the time to the earliest end
    of a cooldown among the keys that are neither disabled nor excluded
    ([RetryAfterSet] is false when there is none, so that only exhausted but
    recovering key sets are retried). *)
Theorem select_exhausted_exact l s p pref excluded now :
  ks_keys s ≠ [] → 0 ≤ ks_next s → ks_next s + Z.of_nat (length (ks_keys s)) ≤ two64 → 0 ≤ now →
  match fst (selector_select l s p pref excluded now) with
  | Ok _ => ∃ key, key ∈ ks_keys s ∧ key_usable now excluded key = true
  | Err f =>
      (∀ key, key ∈ ks_keys s → key_usable now excluded key = false) ∧
      f_Category f = CategoryKeyExhausted ∧ f_ProviderID f = p ∧
      ∃ t, earliest_of now excluded (ks_keys s) t ∧
           f_RetryAfterSet f = negb (time_is_zero t) ∧
           f_RetryAfter f = (if time_is_zero t then 0 else time_sub t now)
  end.
Proof. apply select_failure. Qed.

(** Waiting the reported time is enough. After a failed select with
    [RetryAfterSet], a select on the same keys at least [RetryAfter] later
    succeeds (a cooldown is at most 24 hours, far from the limit of
    [Duration]). *)
Theorem exhausted_wait_recovers l s p pref excluded now f s' later :
  ks_keys s ≠ [] → 0 ≤ ks_next s → ks_next s + 1 + Z.of_nat (length (ks_keys s)) ≤ two64 → 0 ≤ now →
  (∀ key, key ∈ ks_keys s → ke_cooldownUntil key ≤ now + maximumRetryAfter) →
  selector_select l s p pref excluded now = (Err f, s') →
  f_RetryAfterSet f = true → now + f_RetryAfter f ≤ later →
  0 < f_RetryAfter f ∧ is_ok (fst (selector_select l s' p pref excluded later)) = true.
Proof.
  intros Hne Hs Hw Hnow Hmax Hsel Hset Hlater.
  pose proof (select_failure l s p pref excluded now Hne Hs ltac:(lia) Hnow) as Hf.
  rewrite Hsel in Hf. cbn in Hf. destruct Hf as (Hun & _ & _ & t & Ht & Hs1 & Hd).
  rewrite Hset in Hs1. symmetry in Hs1. apply negb_true_iff in Hs1. rewrite Hs1 in Hd.
  destruct Ht as [[-> _]|[(key & Hin & Hc) _]]; [done|].
  pose proof (Hmax _ Hin) as Hm. unfold cooling_until in Hc.
  destruct (bool_decide (ke_id key ∈ excluded)) eqn:E1; [done|].
  destruct (ke_disabled key) eqn:E2; [done|]. cbn in Hc.
  destruct (time_before now (ke_cooldownUntil key)) eqn:E3; [|done]. injection Hc as <-.
  assert (f_RetryAfter f = ke_cooldownUntil key - now) as Hra.
  { rewrite Hd. unfold time_sub, maximumRetryAfter, hour, minute, second, int64_min, int64_max,
      time_before in *. lia. }
  unfold time_before in E3. split; [lia|].
  assert (ks_keys s' = ks_keys s ∧ 0 ≤ ks_next s' ≤ ks_next s + 1) as [Hks Hn].
  { revert Hsel. unfold selector_select.
    assert (wrap_uint64 (ks_next s + 1) = ks_next s + 1) as Hwrap.
    { apply wrap_uint64_id. destruct (ks_keys s); [done|]. cbn in Hw. lia. }
    rewrite Hwrap. repeat case_match; intros [= _ <-]; cbn; (split; [done | lia]). }
  pose proof (select_failure l s' p pref excluded later ltac:(by rewrite Hks) ltac:(lia)
    ltac:(rewrite Hks; lia) ltac:(lia)) as Hf2.
  destruct (fst (selector_select l s' p pref excluded later)); [done|].
  destruct Hf2 as (Hun2 & _). rewrite Hks in Hun2. specialize (Hun2 _ Hin).
  unfold key_usable, time_before in Hun2. rewrite E1, E2 in Hun2. cbn in Hun2.
  rewrite (proj2 (Z.ltb_ge _ _)) in Hun2 by lia. done.
Qed.

(** ** Rotation *)

Fixpoint select_times (n : nat) (l : nat) (s : providerKeySelector) (p : string) (now : Time)
  : list (option nat) :=
  match n with
  | O => []
  | S n' =>
      let '(r, s') := selector_select l s p "" ∅ now in
      match r with Ok sel => Some (sel_index sel) | Err _ => None end :: select_times n' l s' p now
  end.

Lemma select_rotates l s p now :
  ks_keys s ≠ [] → (∀ key, key ∈ ks_keys s → key_usable now ∅ key = true) →
  ∃ key, ks_keys s !! rotation_index (ks_next s) 0 (length (ks_keys s)) = Some key ∧
  selector_select l s p "" ∅ now =
    (Ok (newProviderKeySelection l (rotation_index (ks_next s) 0 (length (ks_keys s))) key),
     ks_set_next s (wrap_uint64 (ks_next s + 1))).
Proof.
  intros Hne Hall. pose proof (rotation_index_lt _ (ks_next s) Hne 0) as Hlt.
  apply lookup_lt_is_Some in Hlt as [key Hk]. exists key. split; [done|].
  assert (key_usable now ∅ key = true) as Hu by (by apply Hall; eapply list_elem_of_lookup_2).
  unfold key_usable in Hu. rewrite !andb_true_iff, !negb_true_iff in Hu. destruct Hu as [[E1 E2] E3].
  unfold selector_select. cbn [String.eqb].
  destruct (length (ks_keys s)) as [|n] eqn:Hn; [by destruct (ks_keys s)|].
  cbn [seq select_scan]. rewrite Hn, Hk, E1, E2, E3, Hk. done.
Qed.

(** Rotation is fair. With every key usable, [length keys] consecutive
    selects return each key exactly once, wherever the cursor stands (short of
    its 64-bit limit), in rotating order. *)
Theorem rotation_fair l s p now :
  ks_keys s ≠ [] → (∀ key, key ∈ ks_keys s → key_usable now ∅ key = true) →
  0 ≤ ks_next s → ks_next s + Z.of_nat (length (ks_keys s)) ≤ two64 →
  let n := length (ks_keys s) in
  select_times n l s p now = map (λ o, Some (rotation_index (ks_next s) o n)) (seq 0 n) ∧
  map (λ o, rotation_index (ks_next s) o n) (seq 0 n) ≡ₚ seq 0 n.
Proof.
  intros Hne Hall Hs Hw n. split.
  - assert (∀ k s0, ks_keys s0 = ks_keys s → 0 ≤ ks_next s0 →
      ks_next s0 + Z.of_nat k ≤ two64 →
      select_times k l s0 p now = map (λ o, Some (rotation_index (ks_next s0) o n)) (seq 0 k)) as Hgen.
    { induction k as [|k IH]; intros s0 Hk Hs0 Hw0; [done|].
      destruct (select_rotates l s0 p now) as (key & _ & Hsel); [by rewrite Hk..|].
      cbn [select_times]. rewrite Hsel, Hk. cbn [seq map]. f_equal.
      destruct (decide (k = 0%nat)) as [->|Hk0]; [done|].
      rewrite IH by (cbn; rewrite ?wrap_uint64_id by lia; done || lia).
      cbn [ks_next ks_set_next]. rewrite wrap_uint64_id by lia.
      rewrite <-seq_shift, map_map. apply map_ext. intros o. f_equal. unfold rotation_index.
      by replace (ks_next s0 + 1 + Z.of_nat o) with (ks_next s0 + Z.of_nat (S o)) by lia. }
    by apply Hgen.
  - apply Permutation_sym, submseteq_length_Permutation; [|by rewrite length_map].
    apply NoDup_submseteq; [apply NoDup_seq|]. intros i Hi%elem_of_seq.
    apply list_elem_of_fmap. exists (Z.to_nat ((Z.of_nat i - ks_next s) mod Z.of_nat n)).
    pose proof (Z.mod_pos_bound (Z.of_nat i - ks_next s) (Z.of_nat n) ltac:(lia)).
    split; [|apply elem_of_seq; lia]. symmetry. apply rotation_hits; subst n; lia.
Qed.

(** ** What a completion does to the key *)

Record Completion := {
  co_version : Z;
  co_failure : option Failure;
  co_now : Time;
}.

Definition run_completion (key : providerKeyEntry) (c : Completion) : providerKeyEntry :=
  key_complete key (co_version c) (co_failure c) (co_now c).

(** The cooldown a rate-limit failure asks for. *)
Definition asked_cooldown (f : Failure) : Duration :=
  Z.min (if f_RetryAfterSet f then f_RetryAfter f else defaultProviderKeyCooldown) maximumRetryAfter.

Lemma key_complete_keeps key v f now :
  0 ≤ ke_stateVersion key < two64 - 1 → v < ke_stateVersion key →
  let key' := key_complete key v f now in
  ke_id key' = ke_id key ∧ ke_secret key' = ke_secret key ∧
  ke_stateVersion key ≤ ke_stateVersion key' ≤ ke_stateVersion key + 1 ∧
  (ke_disabled key' = true ∨ ke_disabled key' = false ∧ ke_disabled key = false ∧
    ke_cooldownUntil key ≤ ke_cooldownUntil key').
Proof.
  intros Hv Hlt. unfold key_complete, time_after, time_add, time_zero.
  rewrite !wrap_uint64_id by lia. rewrite (proj2 (Z.eqb_neq _ _)) by lia. rewrite andb_false_r.
  destruct f as [f|]; cbn -[Z.gtb]; [|destruct (ke_disabled key); intuition lia].
  case_bool_decide; cbn -[Z.gtb]; [intuition lia|].
  case_bool_decide; cbn -[Z.gtb]; [|destruct (ke_disabled key); intuition lia].
  destruct (ke_disabled key) eqn:Hd; cbn -[Z.gtb]; rewrite ?Hd; [intuition lia|].
  repeat split; auto; try lia. right. repeat split. go_cases.
Qed.

(** C11: a rate limit outlives stale successes. Once a key has been put in
    cooldown by a 429 at instant [t], no completions of selections made before
    it (their version is at most the key's then), however many, in whatever
    order and with whatever outcomes, shorten the cooldown: the key stays
    disabled or unavailable until [t] plus the asked delay, capped at 24
    hours. *)
Theorem cooldown_survives_stale key v f t cs :
  ke_disabled key = false → f_Category f = CategoryUpstreamRateLimit →
  0 ≤ ke_stateVersion key → ke_stateVersion key + Z.of_nat (length cs) < two64 - 2 →
  (∀ c, c ∈ cs → co_version c ≤ ke_stateVersion key) →
  let key' := fold_left run_completion cs (key_complete key v (Some f) t) in
  ke_disabled key' = true ∨ t + asked_cooldown f ≤ ke_cooldownUntil key'.
Proof.
  intros Hd Hf Hv0 Hlen Hcs.
  set (key1 := key_complete key v (Some f) t).
  assert (ke_stateVersion key1 = ke_stateVersion key + 1 ∧
    t + asked_cooldown f ≤ ke_cooldownUntil key1 ) as [Hv1 Hc1].
  { unfold key1, key_complete. rewrite Hf, Hd. cbn -[Z.gtb]. rewrite wrap_uint64_id by lia.
    rewrite (bool_decide_false (_ = CategoryKeyUnauthorized)), bool_decide_true by done. cbn -[Z.gtb].
    split; [done|]. unfold asked_cooldown, time_after, time_add.
    set (d := if f_RetryAfterSet f then _ else _). destruct (d >? maximumRetryAfter) eqn:E1;
      destruct (ke_cooldownUntil key <? _) eqn:E2; lia. }
  assert (∀ cs k, (∀ c, c ∈ cs → co_version c < ke_stateVersion k) → 0 ≤ ke_stateVersion k →
    ke_stateVersion k + Z.of_nat (length cs) < two64 - 1 →
    ke_disabled k = true ∨ t + asked_cooldown f ≤ ke_cooldownUntil k →
    ke_disabled (fold_left run_completion cs k) = true ∨
    t + asked_cooldown f ≤ ke_cooldownUntil (fold_left run_completion cs k)) as Hgen.
  { clear. intros cs. induction cs as [|c cs IH]; intros k Hc H0 Hl Hk; [done|]. cbn in *.
    assert (co_version c < ke_stateVersion k) as Hcv by (apply Hc; left).
    destruct (key_complete_keeps k (co_version c) (co_failure c) (co_now c) ltac:(lia) Hcv)
      as (_ & _ & Hv & Hk').
    apply IH.
    - intros c' Hin. assert (co_version c' < ke_stateVersion k) by (apply Hc; by right).
      unfold run_completion. lia.
    - unfold run_completion. lia.
    - unfold run_completion. lia.
    - unfold run_completion. destruct Hk' as [|(_ & ? & ?)]; [by left|].
      destruct Hk; [congruence|]. right. lia. }
  intros key'. apply Hgen; [|lia|lia|by right]. intros c Hc. specialize (Hcs _ Hc). lia.
Qed.

(** A 401 disables the key for good: no sequence of completions, whatever
    selections they settle, makes a disabled key selectable again; the key's
    identity and secret never change. *)
Theorem disabled_forever key cs now excluded :
  let key' := fold_left run_completion cs key in
  ke_id key' = ke_id key ∧ ke_secret key' = ke_secret key ∧
  (ke_disabled key = true → key_usable now excluded key' = false) ∧
  (∀ v f t, f_Category f = CategoryKeyUnauthorized →
     key_usable now excluded (fold_left run_completion cs (key_complete key v (Some f) t)) = false).
Proof.
  assert (∀ cs key, ke_id (fold_left run_completion cs key) = ke_id key ∧
    ke_secret (fold_left run_completion cs key) = ke_secret key ∧
    (ke_disabled key = true → ke_disabled (fold_left run_completion cs key) = true)) as Hgen.
  { clear. intros cs. induction cs as [|c cs IH]; intros key; [done|]. cbn.
    destruct (IH (run_completion key c)) as (-> & -> & Hd).
    unfold run_completion, key_complete in *. repeat case_match; cbn in *; auto. }
  assert (∀ key, ke_disabled key = true → key_usable now excluded key = false) as Hdis.
  { intros k Hk. unfold key_usable. rewrite Hk. by rewrite andb_false_r. }
  cbn. destruct (Hgen cs key) as (-> & -> & Hd). split; [done|]. split; [done|]. split; [auto|].
  intros v f t Hf. apply Hdis. apply Hgen. unfold key_complete. by rewrite Hf.
Qed.

(** [Complete] settles a selection once, and touches only the selected key
    of its own selector. *)
Theorem selection_settles_once sel f t heap s key :
  sel_completed sel = false → heap !! sel_selector sel = Some s →
  ks_keys s !! sel_index sel = Some key →
  let '(ok, sel', heap') := Selection_Complete sel f t heap in
  ok = true ∧ (∀ f2 t2, Selection_Complete sel' f2 t2 heap' = (false, sel', heap')) ∧
  (∀ l, l ≠ sel_selector sel → heap' !! l = heap !! l) ∧
  ∃ s', heap' !! sel_selector sel = Some s' ∧ ks_next s' = ks_next s ∧
    ks_keys s' !! sel_index sel = Some (key_complete key (sel_stateVersion sel) f t) ∧
    ∀ i, i ≠ sel_index sel → ks_keys s' !! i = ks_keys s !! i.
Proof.
  intros Hc Hs Hk. unfold Selection_Complete. rewrite Hc. split; [done|]. split; [done|].
  split; [intros l Hl; by rewrite list_lookup_alter_ne|].
  eexists. rewrite list_lookup_alter_eq, Hs. split; [done|]. cbn. split; [done|].
  rewrite list_lookup_alter_eq, Hk. split; [done|]. intros i Hi. by rewrite list_lookup_alter_ne by auto.
Qed.

(** ** Concrete instances *)

Definition demo_key (id : string) (disabled : bool) (until : Time) : providerKeyEntry :=
  {| ke_id := id; ke_secret := "s-" ++ id; ke_disabled := disabled; ke_cooldownUntil := until;
     ke_stateVersion := 0 |}.

Definition demo_selector (keys : list providerKeyEntry) : providerKeySelector :=
  {| ks_providerID := "p"; ks_keys := keys; ks_next := 1 |}.

Definition demo_cooling : providerKeySelector :=
  demo_selector [demo_key "a" false 50; demo_key "b" true 0; demo_key "c" false 40].
Definition demo_usable : providerKeySelector :=
  demo_selector [demo_key "a" false 0; demo_key "b" false 5; demo_key "c" false 7].
Definition demo_key_registry : ProviderKeyRegistry :=
  {| reg_at := {[ "p"%string := 0%nat ]}; reg_ids := ["p"%string] |}.

Definition demo_excluded : gset string := {["b"%string]}.

Definition demo_429 (d : Duration) : Failure :=
  f_with_retry_after (new_failure CategoryUpstreamRateLimit "p") d true.

Lemma select_picks_usable_witness :
  ∃ sel s key, fst (selectKey demo_key_registry "p" "c" demo_excluded 9 [demo_usable]) = Ok sel ∧
    ks_keys s !! sel_index sel = Some key ∧ ke_disabled key = false.
Proof.
  destruct (select_picks_usable demo_key_registry "p" "c" demo_excluded 9 [demo_usable]
    (newProviderKeySelection 0 2 (demo_key "c" false 7)) [demo_usable] ltac:(vm_compute; reflexivity))
    as (l & s & s' & key & _ & _ & _ & _ & _ & Hk & _ & _ & _ & _ & Hd & _).
  exists (newProviderKeySelection 0 2 (demo_key "c" false 7)), s, key.
  split; [vm_compute; reflexivity|]. split; [exact Hk | exact Hd].
Defined.

Lemma select_exhausted_exact_witness :
  ∃ f s', selector_select 0 demo_cooling "p" "" ∅ 9 = (Err f, s') ∧ f_RetryAfter f = 31 ∧
    ∀ key, key ∈ ks_keys demo_cooling → key_usable 9 ∅ key = false.
Proof.
  eexists _, _. split; [vm_compute; reflexivity|]. split; [reflexivity|].
  exact (proj1 (select_exhausted_exact 0 demo_cooling "p" "" ∅ 9 ltac:(discriminate) ltac:(done)
    ltac:(done) ltac:(done))).
Defined.

Lemma exhausted_wait_recovers_witness :
  ∃ f s', selector_select 0 demo_cooling "p" "" ∅ 9 = (Err f, s') ∧
    is_ok (fst (selector_select 0 s' "p" "" ∅ 40)) = true.
Proof.
  eexists _, _. split; [vm_compute; reflexivity|].
  refine (proj2 (exhausted_wait_recovers 0 demo_cooling "p" "" ∅ 9 (exhausted_failure "p" 9 40) _ 40
    _ _ _ _ _ _ _ _)); try done.
  intros key Hk. repeat (apply elem_of_cons in Hk as [->|Hk]; [vm_compute; discriminate|]).
  by apply elem_of_nil in Hk.
Defined.

Lemma rotation_fair_witness :
  select_times 3 0 demo_usable "p" 9 = [Some 1%nat; Some 2%nat; Some 0%nat].
Proof.
  refine (proj1 (rotation_fair 0 demo_usable "p" 9 _ _ _ _)); try done.
  intros key Hk. repeat (apply elem_of_cons in Hk as [->|Hk]; [reflexivity|]).
  by apply elem_of_nil in Hk.
Defined.

Lemma cooldown_survives_stale_witness :
  ke_disabled (fold_left run_completion [{| co_version := 0; co_failure := None; co_now := 9 |}]
    (key_complete (demo_key "a" false 0) 0 (Some (demo_429 second)) 5)) = true ∨
  5 + asked_cooldown (demo_429 second) ≤
  ke_cooldownUntil (fold_left run_completion [{| co_version := 0; co_failure := None; co_now := 9 |}]
    (key_complete (demo_key "a" false 0) 0 (Some (demo_429 second)) 5)).
Proof.
  refine (cooldown_survives_stale (demo_key "a" false 0) 0 (demo_429 second) 5 _ _ _ _ _ _); try done.
  intros c [->|Hc]%elem_of_cons; [done | by apply elem_of_nil in Hc].
Defined.

Lemma selection_settles_once_witness :
  let sel := newProviderKeySelection 0 0 (demo_key "a" false 0) in
  fst (fst (Selection_Complete sel None 5 [demo_usable])) = true.
Proof.
  exact (proj1 (selection_settles_once (newProviderKeySelection 0 0 (demo_key "a" false 0)) None 5
    [demo_usable] demo_usable _ eq_refl eq_refl eq_refl)).
Defined.
