(* ===== verification/Binary64.v ===== *)
(** * float64

    The conversions between integers and [float64] that the program makes, over
    the kernel's binary64 floats, and the facts its users need: small integers
    are exact, and the order of floats is the order of their integer parts. *)

From Stdlib Require Import Floats.
From S2P Require Import Prelude.

Open Scope Z_scope.

(** ** Conversions between integers and float64 *)

(** [float64(n)] rounds to nearest. *)
Definition float_of_int (z : Z) : float := SF2Prim (binary_normalize prec emax z 0 false).

(** [time.Duration(f)] drops the fraction. A value with no 64-bit integer part
    (NaN, infinities, out of range) converts as on amd64, to the minimum. *)
Definition int_part (m : positive) (e : Z) : Z :=
  if 0 <=? e then Zpos m * 2 ^ e else Zpos m / 2 ^ (- e).
Definition int_of_float (f : float) : Z :=
  match Prim2SF f with
  | S754_zero _ => 0
  | S754_finite s m e =>
      let v := if s then - int_part m e else int_part m e in
      if is_int64 v then v else int64_min
  | S754_infinity _ | S754_nan => int64_min
  end.

(** ** The value of a finite float

    [m * 2^e] as an integer multiple of [2^-1074], the smallest positive
    float. *)

Definition scaled (m : positive) (e : Z) : Z := Zpos m * 2 ^ (e + 1074).

Lemma int_part_scaled m e : -1074 ≤ e → int_part m e = scaled m e / 2 ^ 1074.
Proof.
  intros He. unfold int_part, scaled. destruct (0 <=? e) eqn:E.
  - apply Z.leb_le in E. rewrite Z.pow_add_r, Z.mul_assoc by lia. by rewrite Z.div_mul.
  - apply Z.leb_gt in E. replace 1074 with ((e + 1074) + - e) at 2 by lia.
    rewrite (Z.pow_add_r 2 (e + 1074)) by lia. rewrite (Z.mul_comm (2 ^ (e + 1074))).
    rewrite Z.div_mul_cancel_r; [done| |]; apply Z.pow_nonzero; lia.
Qed.

Lemma digits2_pos_bounds m :
  2 ^ (Zpos (digits2_pos m) - 1) ≤ Zpos m < 2 ^ Zpos (digits2_pos m).
Proof.
  induction m as [m IH|m IH|]; cbn [digits2_pos]; [| |done].
  all: replace (Zpos (Pos.succ (digits2_pos m)) - 1) with (Z.succ (Zpos (digits2_pos m) - 1)) by lia.
  all: rewrite Pos2Z.inj_succ, !Z.pow_succ_r by lia; lia.
Qed.

Lemma digits2_pos_unique m d :
  2 ^ (d - 1) ≤ Zpos m < 2 ^ d → Zpos (digits2_pos m) = d.
Proof.
  intros [Hl Hu]. pose proof (digits2_pos_bounds m) as [Hl' Hu'].
  assert (0 ≤ d) by (destruct (Z.le_gt_cases 0 d); [done | rewrite Z.pow_neg_r in Hu by lia; lia]).
  assert (d - 1 < Zpos (digits2_pos m)) by (apply (Z.pow_lt_mono_r_iff 2); lia).
  assert (Zpos (digits2_pos m) - 1 < d) by (apply (Z.pow_lt_mono_r_iff 2); lia).
  lia.
Qed.

Lemma fexp_eq x : fexp prec emax x = Z.max (x - 53) (-1074).
Proof. reflexivity. Qed.

(** ** Order *)

(** Of two positive floats in canonical form the one with the larger exponent
    is the larger. *)
Lemma scaled_lt_exponent m1 e1 m2 e2 :
  canonical_mantissa prec emax m1 e1 = true → canonical_mantissa prec emax m2 e2 = true →
  e1 < e2 → scaled m1 e1 < scaled m2 e2.
Proof.
  unfold canonical_mantissa. rewrite !Z.eqb_eq, !fexp_eq. intros H1 H2 Hlt.
  pose proof (digits2_pos_bounds m1) as [_ Hu]. pose proof (digits2_pos_bounds m2) as [Hl _].
  unfold scaled.
  apply Z.lt_le_trans with (2 ^ 53 * 2 ^ (e1 + 1074)).
  - apply Z.mul_lt_mono_pos_r; [apply Z.pow_pos_nonneg; lia|].
    eapply Z.lt_le_trans; [exact Hu|]. apply Z.pow_le_mono_r; lia.
  - apply Z.le_trans with (2 ^ 52 * 2 ^ (e2 + 1074)).
    + rewrite <-!Z.pow_add_r by lia. apply Z.pow_le_mono_r; lia.
    + apply Z.mul_le_mono_nonneg_r; [apply Z.pow_nonneg; lia|].
      eapply Z.le_trans; [|exact Hl]. apply Z.pow_le_mono_r; lia.
Qed.

Lemma SFltb_false_scaled m1 e1 m2 e2 :
  canonical_mantissa prec emax m1 e1 = true → canonical_mantissa prec emax m2 e2 = true →
  SFltb (S754_finite false m1 e1) (S754_finite false m2 e2) = false →
  scaled m2 e2 ≤ scaled m1 e1.
Proof.
  intros H1 H2. unfold SFltb, SFcompare. destruct (Z.compare_spec e1 e2) as [->|Hlt|Hgt]; [|done|].
  - change (Pos.compare_cont Eq m1 m2) with (m1 ?= m2)%positive.
    destruct (Pos.compare_spec m1 m2) as [->| |]; [done|done|].
    intros _. unfold scaled. apply Z.mul_le_mono_nonneg_r; [apply Z.pow_nonneg; lia | lia].
  - intros _. by apply Z.lt_le_incl, scaled_lt_exponent.
Qed.

(** ** Exact integers *)

(** A positive integer of at most 53 bits converts to the float of its value. *)
Lemma normalize_exact p :
  Zpos p < 2 ^ 53 →
  ∃ m e, binary_normalize prec emax (Zpos p) 0 false = S754_finite false m e ∧
    SpecFloat.valid_binary prec emax (S754_finite false m e) = true ∧ scaled m e = Zpos p * 2 ^ 1074.
Proof.
  intros Hp. pose proof (digits2_pos_bounds p) as [Hl Hu].
  set (d := digits2_pos p) in *.
  assert (Zpos d ≤ 53) as Hd by (apply Z.lt_succ_r; replace (Z.succ 53) with (53 + 1) by lia;
    assert (Zpos d - 1 < 53) by (apply (Z.pow_lt_mono_r_iff 2); lia); lia).
  assert (∃ m, shl_align p 0 (fexp prec emax (Zpos d + 0)) = (m, Zpos d - 53) ∧
            Zpos m = Zpos p * 2 ^ (53 - Zpos d)) as (m & Hm & Hv).
  { rewrite fexp_eq. replace (Z.max _ _) with (Zpos d - 53) by lia. unfold shl_align.
    rewrite Z.sub_0_r. destruct (Zpos d - 53) as [|q|q] eqn:E; [|lia|].
    - exists p. split; [done|]. replace (53 - Zpos d) with 0 by lia. lia.
    - exists (Pos.iter xO p q). split; [done|]. replace (53 - Zpos d) with (Zpos q) by lia.
      change (Pos.iter xO p q) with (shift_pos q p). rewrite shift_pos_correct.
      change (Z.pow_pos 2 q) with (2 ^ Zpos q). lia. }
  assert (Zpos (digits2_pos m) = 53) as Hdm.
  { apply digits2_pos_unique. rewrite Hv. split.
    - change (2 ^ (53 - 1)) with (2 ^ 52). replace 52 with ((Zpos d - 1) + (53 - Zpos d)) by lia.
      rewrite Z.pow_add_r by lia. apply Z.mul_le_mono_nonneg_r; [apply Z.pow_nonneg; lia | lia].
    - replace 53 with (Zpos d + (53 - Zpos d)) at 2 by lia.
      rewrite Z.pow_add_r by lia. apply Z.mul_lt_mono_pos_r; [apply Z.pow_pos_nonneg; lia | lia]. }
  assert (∀ l, shr_fexp prec emax (Zpos m) (Zpos d - 53) l =
     (shr_record_of_loc (Zpos m) l, Zpos d - 53)) as Hshr.
  { intros l. unfold shr_fexp, Zdigits2. rewrite Hdm, fexp_eq.
    replace (Z.max _ _ - _) with 0 by lia. done. }
  exists m, (Zpos d - 53). split; [|split].
  - cbn [binary_normalize]. unfold binary_round. fold d. rewrite Hm. unfold binary_round_aux.
    rewrite Hshr. cbn [shr_record_of_loc shr_m loc_of_shr_record round_nearest_even].
    rewrite Hshr. cbn [shr_record_of_loc shr_m]. 
    by rewrite (proj2 (Z.leb_le _ _)) by (unfold emax, prec; lia).
  - unfold SpecFloat.valid_binary, SpecFloat.bounded, canonical_mantissa. rewrite Hdm, fexp_eq.
    rewrite (proj2 (Z.eqb_eq _ _)) by lia. apply Z.leb_le. unfold emax, prec. lia.
  - unfold scaled. rewrite Hv, <-Z.mul_assoc, <-Z.pow_add_r by lia. repeat f_equal. lia.
Qed.

Lemma float_of_int_exact p :
  Zpos p < 2 ^ 53 →
  ∃ m e, Prim2SF (float_of_int (Zpos p)) = S754_finite false m e ∧
    canonical_mantissa prec emax m e = true ∧ scaled m e = Zpos p * 2 ^ 1074.
Proof.
  intros Hp. destruct (normalize_exact p Hp) as (m & e & Hn & Hv & Hs). exists m, e.
  unfold float_of_int. rewrite Hn, Prim2SF_SF2Prim by done. split; [done|]. split; [|done].
  unfold SpecFloat.valid_binary, SpecFloat.bounded in Hv. by apply andb_true_iff in Hv as [? _].
Qed.

(** A float that is not above the float of [z] has an integer part of at most
    [z]. *)
Lemma int_of_float_le f z :
  0 < z < 2 ^ 53 → (float_of_int z <? f)%float = false → int_of_float f ≤ z.
Proof.
  intros [Hz Hmax]. destruct z as [|p|]; [lia| |lia].
  destruct (float_of_int_exact p Hmax) as (m & e & Hp & Hc & Hs).
  rewrite FloatAxioms.ltb_spec, Hp. unfold int_of_float.
  pose proof (Prim2SF_valid f) as Hv.
  destruct (Prim2SF f) as [s|s| |s mf ef]; try (unfold int64_min; lia).
  destruct (is_int64 _); [|unfold int64_min; lia].
  unfold SpecFloat.valid_binary, SpecFloat.bounded in Hv. apply andb_true_iff in Hv as [Hcf _].
  assert (-1074 ≤ ef) by (unfold canonical_mantissa in Hcf; rewrite Z.eqb_eq, fexp_eq in Hcf; lia).
  rewrite int_part_scaled by done. pose proof (Z.pow_pos_nonneg 2 1074 ltac:(lia) ltac:(lia)).
  destruct s; intros Hlt.
  - assert (0 ≤ scaled mf ef / 2 ^ 1074); [|lia]. apply Z.div_pos; [|done].
    apply Z.mul_nonneg_nonneg; [lia | apply Z.pow_nonneg; lia].
  - apply (SFltb_false_scaled m e) in Hlt; [|done|done]. apply Z.div_le_upper_bound; lia.
Qed.

(** ** Decimal literals

    [strconv.ParseFloat] of [M * 10^E]: the nearest float, ties to even; a value
    beyond the largest float is an error, one below the smallest is zero. *)

(** [num / denom] with at least 70 significant bits, the last one standing for
    everything that was cut off; [binary_normalize] rounds it once. *)
Definition float_of_ratio (num denom : Z) : float :=
  let k := 70 + Z.log2 denom - Z.log2 num in
  let num := num * 2 ^ Z.max 0 k in
  let denom := denom * 2 ^ Z.max 0 (- k) in
  let sticky := if num mod denom =? 0 then 0 else 1 in
  SF2Prim (binary_normalize prec emax (2 * (num / denom) + sticky) (- k - 1) false).

(** Exponents that are out of range whatever the digits are not computed. *)
Definition float_of_decimal (neg : bool) (mantissa exponent : Z) : option float :=
  let signed (f : float) := (if neg then - f else f)%float in
  if mantissa =? 0 then Some (signed 0%float)
  else if 400 <? exponent then None
  else if exponent + Z.log2 mantissa <? -1100 then Some (signed 0%float)
  else
    let f := float_of_ratio (mantissa * 10 ^ Z.max 0 exponent) (10 ^ Z.max 0 (- exponent)) in
    if (f =? infinity)%float then None else Some (signed f).

Example decimals :
  (float_of_decimal false 20000000000000001 (-16), float_of_decimal false 2 (-324),
   float_of_decimal false 18 307) = (Some 2%float, Some 0%float, None).
Proof. vm_compute. reflexivity. Qed.
