(* ===== verification/Duration.v ===== *)
(** * Durations as text

    [time.ParseDuration] of Go, and the durations of a configuration that keep a
    fallback when they are left out ([durationOverride] of
    [src/internal/config/routing.go], [optionalDuration] of
    [src/internal/controlplane/document.go]). *)

From Stdlib Require Import Floats.
From S2P Require Import Prelude Encoding Json JsonWrite Binary64.

Open Scope Z_scope.

(** ** Reading *)

Definition two63 : Z := 2 ^ 63.

(** [leadingInt]: the digits at the front as an unsigned 64-bit integer. *)
Fixpoint leadingInt (x : Z) (l : list Z) : option (Z * list Z) :=
  match l with
  | c :: r =>
      if is_digit_byte c then
        if two63 / 10 <? x then None
        else
          let x := x * 10 + (c - 48) in
          if two63 <? x then None else leadingInt x r
      else Some (x, l)
  | [] => Some (x, [])
  end.

(** [leadingFraction]: the digits after the point, without those that do not fit, and
    the power of ten they count in. *)
Fixpoint leadingFraction (x : Z) (scale : float) (overflow : bool) (l : list Z) : Z * float * list Z :=
  match l with
  | c :: r =>
      if is_digit_byte c then
        if overflow then leadingFraction x scale true r
        else if (two63 - 1) / 10 <? x then leadingFraction x scale true r
        else
          let y := x * 10 + (c - 48) in
          if two63 <? y then leadingFraction x scale true r
          else leadingFraction y (scale * 10)%float false r
      else (x, scale, l)
  | [] => (x, scale, [])
  end.

(** The letters of a unit: up to the next point or digit. *)
Definition unit_byte (c : Z) : bool := negb (c =? 46) && negb (is_digit_byte c).
Fixpoint leading_unit (l : list Z) : list Z * list Z :=
  match l with
  | c :: r => if unit_byte c then let '(u, r) := leading_unit r in (c :: u, r) else ([], l)
  | [] => ([], [])
  end.

(** [unitMap]; the micro sign and the Greek letter are written in UTF-8. *)
Definition duration_unit (u : list Z) : option Z :=
  match u with
  | [110; 115] => Some 1
  | [117; 115] | [0xC2; 0xB5; 115] | [0xCE; 0xBC; 115] => Some 1000
  | [109; 115] => Some 1000000
  | [115] => Some 1000000000
  | [109] => Some 60000000000
  | [104] => Some 3600000000000
  | _ => None
  end.

(** What follows the whole number: the fraction and its scale; [None] without any
    digit before and after the point. *)
Definition duration_fraction (pre : bool) (l : list Z) : option (Z * float * list Z) :=
  match l with
  | 46 :: r =>
      let '(f, scale, r') := leadingFraction 0 1%float false r in
      if pre || negb (length r =? length r')%nat then Some (f, scale, r') else None
  | _ => if pre then Some (0, 1%float, l) else None
  end.

(** One number with its unit, in nanoseconds. *)
Definition duration_item (l : list Z) : option (Z * list Z) :=
  match l with
  | c :: _ =>
      if negb ((c =? 46) || is_digit_byte c) then None
      else
        '(v, r) ← leadingInt 0 l;
        '(f, scale, r) ← duration_fraction (negb (length l =? length r)%nat) r;
        let '(u, r) := leading_unit r in
        unit ← (if bool_decide (u = []) then None else duration_unit u);
        if two63 / unit <? v then None
        else
          let v := v * unit in
          let v :=
            if 0 <? f then wrap_uint64 (v + int_of_float (float_of_int f * (float_of_int unit / scale))%float) else v in
          if (0 <? f) && (two63 <? v) then None else Some (v, r)
  | [] => None
  end.

Fixpoint duration_items (fuel : nat) (d : Z) (l : list Z) : option Z :=
  match fuel, l with
  | _, [] => Some d
  | S fuel, _ =>
      '(v, r) ← duration_item l;
      let d := wrap_uint64 (d + v) in
      if two63 <? d then None else duration_items fuel d r
  | O, _ => None
  end.

Definition ParseDuration (s : string) : option Duration :=
  let l := bytes_of s in
  let '(neg, l) := match l with 45 :: r => (true, r) | 43 :: r => (false, r) | _ => (false, l) end in
  if bool_decide (l = [48]) then Some 0
  else if bool_decide (l = []) then None
  else
    d ← duration_items (length l) 0 l;
    if neg then Some (wrap_int64 (- d)) else if two63 - 1 <? d then None else Some d.

Example parse_examples :
  map ParseDuration
    ["1h15m30.918273645s"; "-1.5h"; "0"; "100ms"; "2us"; ".5s"; "1.s"; "";  "3"; "s"; "1 s"; "1d"; ".s"; "9223372036854775807ns";
     "9223372036854775808ns"; "-9223372036854775808ns"; "2562048h"]%string
  = [Some 4530918273645; Some (-5400000000000); Some 0; Some 100000000; Some 2000; Some 500000000; Some 1000000000;
     None; None; None; None; None; None; Some 9223372036854775807; None; Some (-9223372036854775808); None].
Proof. vm_compute. reflexivity. Qed.

(** ** Durations of a configuration *)

(** [durationOverride] and [optionalDuration]: the fallback for an empty text, else a
    positive duration. *)
Definition durationOverride (raw : string) (fallback : Duration) : option Duration :=
  let raw := TrimSpace raw in
  if (raw =? "")%string then Some fallback
  else
    value ← ParseDuration raw;
    if value <=? 0 then None else Some value.

(** ** Facts *)

(** Every item takes a byte, so the length is fuel enough. *)
Lemma leadingInt_shorter x l v r : leadingInt x l = Some (v, r) → (length r ≤ length l)%nat.
Proof.
  revert x. induction l as [|c l IH]; intros x; cbn; [by intros [= _ <-]|].
  destruct (is_digit_byte c); [|by intros [= _ <-]]. do 2 (case_match; [done|]). intros ?%IH. lia.
Qed.

Lemma leadingFraction_shorter x sc o l : (length (leadingFraction x sc o l).2 ≤ length l)%nat.
Proof.
  revert x sc o. induction l as [|c l IH]; intros x sc o; cbn; [lia|].
  destruct (is_digit_byte c); [|cbn; lia]. repeat case_match; (etrans; [apply IH|lia]).
Qed.

Lemma leading_unit_shorter l : length l = (length (leading_unit l).1 + length (leading_unit l).2)%nat.
Proof.
  induction l as [|c l IH]; [done|]. cbn. destruct (unit_byte c); [|done].
  destruct (leading_unit l) as [u r]. cbn in *. lia.
Qed.

Lemma duration_item_shorter l v r : duration_item l = Some (v, r) → (length r < length l)%nat.
Proof.
  unfold duration_item. destruct l as [|c l]; [done|]. destruct (negb _); [done|].
  intros ([v1 r1] & H1 & ([[f sc] r2] & H2 & H3)%bind_Some)%bind_Some.
  apply leadingInt_shorter in H1.
  assert (length r2 ≤ length r1)%nat as H2'.
  { unfold duration_fraction in H2. destruct (negb _) eqn:E.
    - repeat case_match; simplify_eq; cbn; try lia.
      all: match goal with H : leadingFraction _ _ _ ?l = (_, _, ?r) |- _ =>
             pose proof (leadingFraction_shorter 0 1%float false l) as Hs; rewrite H in Hs; cbn in Hs; lia end.
    - repeat case_match; simplify_eq; cbn.
      all: match goal with H : leadingFraction _ _ _ ?l = (_, _, ?r) |- _ =>
             pose proof (leadingFraction_shorter 0 1%float false l) as Hs; rewrite H in Hs; cbn in Hs; lia end. }
  pose proof (leading_unit_shorter r2) as Hu. destruct (leading_unit r2) as [u r3]. cbn in Hu.
  case_bool_decide as Hne; [done|]. destruct u as [|b u]; [done|]. cbn [length] in Hu.
  cbn [mbind option_bind] in H3. apply bind_Some in H3 as (unit & _ & H3). repeat case_match; simplify_eq; lia.
Qed.

(** More fuel than bytes changes nothing: [ParseDuration] decides every text. *)
Lemma duration_items_fuel n m d l :
  (length l ≤ n)%nat → (length l ≤ m)%nat → duration_items n d l = duration_items m d l.
Proof.
  revert m d l. induction n as [|n IH]; intros m d l Hn Hm.
  { destruct l; [by destruct m|cbn in Hn; lia]. }
  destruct l as [|c l]; [by destruct m|]. destruct m as [|m]; [cbn in Hm; lia|].
  cbn [duration_items]. destruct (duration_item (c :: l)) as [[v r]|] eqn:Hi; [|done]. cbn [mbind option_bind].
  apply duration_item_shorter in Hi. case_match; [done|]. apply IH; cbn in *; lia.
Qed.

(** A positive number of a unit, written in decimal, is read as that number of units. *)
Lemma leadingInt_app ds x l :
  Forall (λ c, is_digit_byte c = true) ds → 0 ≤ x →
  (match l with c :: _ => is_digit_byte c = false | [] => True end) →
  foldl (λ x c, x * 10 + (c - 48)) x ds ≤ two63 →
  leadingInt x (ds ++ l) = Some (foldl (λ x c, x * 10 + (c - 48)) x ds, l).
Proof.
  intros Hds. revert x. induction Hds as [|c ds Hc Hds IH]; intros x Hx Hl Hmax; cbn.
  { destruct l as [|c l]; [done|]. cbn. by rewrite Hl. }
  cbn in Hmax. rewrite Hc.
  assert (0 ≤ x * 10 + (c - 48)) as Hx' by (unfold is_digit_byte in Hc; lia).
  assert (∀ y, 0 ≤ y → y ≤ foldl (λ x c, x * 10 + (c - 48)) y ds) as Hmono.
  { clear -Hds. induction Hds as [|c ds Hc Hds IH]; intros y Hy; cbn; [lia|].
    unfold is_digit_byte in Hc. etrans; [|apply IH; lia]. lia. }
  pose proof (Hmono _ Hx'). rewrite (proj2 (Z.ltb_ge _ _)).
  2: { unfold is_digit_byte in Hc. apply Z.div_le_lower_bound; lia. }
  rewrite (proj2 (Z.ltb_ge _ _)) by lia. by apply IH.
Qed.

Lemma durationOverride_positive raw fallback d :
  0 < fallback → durationOverride raw fallback = Some d → 0 < d.
Proof.
  unfold durationOverride. intros Hf. destruct (_ =? "")%string; [by intros [= <-]|].
  intros (v & _ & Hv)%bind_Some. destruct (Z.leb_spec v 0); [done|]. by injection Hv as <-.
Qed.
