(* ===== verification/Retry.v ===== *)
(** * Retry policies

    Models [src/internal/reliability/retry.go] and
    [src/internal/reliability/retry_registry.go]. The back-off is computed in
    [float64], here the kernel's binary64 floats; [policy.random] is an
    argument. *)

From Stdlib Require Import Floats.
From S2P Require Import Prelude Failure Binary64.

Open Scope Z_scope.

(** ** Configuration *)

Definition maximumRetryAttempts : Z := 10.
Definition minimumRetryBackoff : Duration := 10 * millisecond.
Definition maximumRetryBackoff : Duration := 30 * second.
Definition minimumRequestTimeout : Duration := second.
Definition maximumRequestTimeout : Duration := 5 * minute.
Definition minimumAttemptTimeout : Duration := 100 * millisecond.

Record RetryConfig := {
  rc_MaxAttempts : Z;
  rc_InitialBackoff : Duration;
  rc_MaxBackoff : Duration;
  rc_BackoffMultiplier : float;
  rc_JitterRatio : float;
  rc_RequestTimeout : Duration;
  rc_AttemptTimeout : Duration;
}.

Definition DefaultRetryConfig : RetryConfig :=
  {| rc_MaxAttempts := 3; rc_InitialBackoff := 100 * millisecond; rc_MaxBackoff := 2 * second;
     rc_BackoffMultiplier := 2%float; rc_JitterRatio := 0.2%float;
     rc_RequestTimeout := 45 * second; rc_AttemptTimeout := 20 * second |}.

Inductive RetryError :=
| retry_attempts_range
| retry_initial_range
| retry_max_range
| retry_multiplier_range
| retry_jitter_range
| retry_request_timeout_range
| retry_attempt_timeout_range
| retry_provider_empty (index : nat)
| retry_provider_duplicated (providerID : string)
| retry_config_missing (providerID : string)
| retry_timeouts_differ
| retry_config_invalid (providerID : string) (cause : RetryError)
| retry_registry_empty.

Definition RetryConfig_Validate (config : RetryConfig) : option RetryError :=
  if (rc_MaxAttempts config <? 1) || (maximumRetryAttempts <? rc_MaxAttempts config)
  then Some retry_attempts_range
  else if (rc_InitialBackoff config <? minimumRetryBackoff) ||
          (maximumRetryBackoff <? rc_InitialBackoff config)
  then Some retry_initial_range
  else if (rc_MaxBackoff config <? rc_InitialBackoff config) ||
          (maximumRetryBackoff <? rc_MaxBackoff config)
  then Some retry_max_range
  else if (rc_BackoffMultiplier config <? 1)%float || (10 <? rc_BackoffMultiplier config)%float
  then Some retry_multiplier_range
  else if (rc_JitterRatio config <? 0)%float || (1 <? rc_JitterRatio config)%float
  then Some retry_jitter_range
  else if (rc_RequestTimeout config <? minimumRequestTimeout) ||
          (maximumRequestTimeout <? rc_RequestTimeout config)
  then Some retry_request_timeout_range
  else if (rc_AttemptTimeout config <? minimumAttemptTimeout) ||
          (rc_RequestTimeout config <? rc_AttemptTimeout config)
  then Some retry_attempt_timeout_range
  else None.

(** ** Policies

    A policy is its configuration; [random] is an argument of [Backoff]. *)

Definition NewRetryPolicy (config : RetryConfig) : result RetryError RetryConfig :=
  match RetryConfig_Validate config with Some e => Err e | None => Ok config end.

Abbreviation RetryPolicy := RetryConfig (only parsing).

Definition RequestContext (policy : RetryPolicy) (ctx : Ctx) (now : Time) : Ctx :=
  ctx_with_timeout ctx now (rc_RequestTimeout policy).
Definition AttemptContext (policy : RetryPolicy) (ctx : Ctx) (now : Time) : Ctx :=
  ctx_with_timeout ctx now (rc_AttemptTimeout policy).

(** A nil policy has no timeout. *)
Definition RetryPolicy_RequestTimeout (policy : option RetryPolicy) : Duration :=
  match policy with Some p => rc_RequestTimeout p | None => 0 end.
Definition RetryPolicy_AttemptTimeout (policy : option RetryPolicy) : Duration :=
  match policy with Some p => rc_AttemptTimeout p | None => 0 end.

Definition ShouldRetry (policy : RetryPolicy) (failure : option Failure) (attempt : Z) : bool :=
  match failure with
  | None => false
  | Some f =>
      if rc_MaxAttempts policy <=? attempt then false
      else
        let signals := SignalsFor (Some f) in
        sig_Retry signals || sig_SwitchKey signals
  end.

(** The loop of [Backoff] with [steps] turns left. *)
Fixpoint backoff_delay (multiplier maxBackoff delay : float) (steps : nat) : float :=
  match steps with
  | O => delay
  | S steps' =>
      let delay := (delay * multiplier)%float in
      if (maxBackoff <=? delay)%float then maxBackoff
      else backoff_delay multiplier maxBackoff delay steps'
  end.

Definition Backoff (policy : RetryPolicy) (failure : option Failure) (attempt : Z)
    (random : float) : Duration :=
  match failure with
  | None => 0
  | Some f =>
      if sig_SwitchKey (SignalsFor (Some f)) then 0
      else if bool_decide (f_Category f = CategoryKeyExhausted) then f_RetryAfter f
      else
        let maxBackoff := float_of_int (rc_MaxBackoff policy) in
        let delay := backoff_delay (rc_BackoffMultiplier policy) maxBackoff
                       (float_of_int (rc_InitialBackoff policy)) (Z.to_nat (attempt - 1)) in
        let jitter := (1 + (2 * random - 1) * rc_JitterRatio policy)%float in
        let delay := (delay * jitter)%float in
        if (maxBackoff <? delay)%float then rc_MaxBackoff policy else int_of_float delay
  end.

(** [Wait]: the answer, and the instant at which it is given. [timer_first]
    settles the [select] when the timer fires at the very instant of the
    cancellation. *)
Definition Wait (ctx : Ctx) (now : Time) (delay : Duration) (timer_first : bool) : bool * Time :=
  match ctx_err ctx now with
  | Some _ => (false, now)
  | None =>
      if delay <=? 0 then (true, now)
      else if match ctx_deadline ctx with
              | Some deadline => time_sub deadline now <=? delay
              | None => false
              end then (false, now)
      else
        let fires := time_add now delay in
        match ctx_cancel_at ctx with
        | Some c =>
            if (c <? fires) || ((c =? fires) && negb timer_first) then (false, c)
            else (true, fires)
        | None => (true, fires)
        end
  end.

(** ** The registry of policies

    The policies are immutable, so the registry maps to them directly. *)

Record RetryRegistry := {
  rr_policies : gmap string RetryPolicy;
  rr_providerIDs : list string;
  rr_requestTimeout : Duration;
}.

Fixpoint retry_registry_loop (configs : gmap string RetryConfig) (index : nat)
    (providerIDs : list string) (registry : RetryRegistry) : result RetryError RetryRegistry :=
  match providerIDs with
  | [] => Ok registry
  | configuredID :: rest =>
      let providerID := TrimSpace configuredID in
      if (providerID =? "")%string then Err (retry_provider_empty index)
      else match rr_policies registry !! providerID with
      | Some _ => Err (retry_provider_duplicated providerID)
      | None =>
          match configs !! providerID with
          | None => Err (retry_config_missing providerID)
          | Some config =>
              if negb (rr_requestTimeout registry =? 0) &&
                 negb (rc_RequestTimeout config =? rr_requestTimeout registry)
              then Err retry_timeouts_differ
              else match NewRetryPolicy config with
              | Err e => Err (retry_config_invalid providerID e)
              | Ok policy =>
                  retry_registry_loop configs (S index) rest
                    {| rr_policies := <[providerID := policy]> (rr_policies registry);
                       rr_providerIDs := rr_providerIDs registry ++ [providerID];
                       rr_requestTimeout :=
                         if rr_requestTimeout registry =? 0 then rc_RequestTimeout config
                         else rr_requestTimeout registry |}
              end
          end
      end
  end.

Definition NewRetryRegistry (providerIDs : list string) (configs : gmap string RetryConfig)
  : result RetryError RetryRegistry :=
  registry ← retry_registry_loop configs 0 providerIDs
    {| rr_policies := ∅; rr_providerIDs := []; rr_requestTimeout := 0 |};
  if bool_decide (size (rr_policies registry) = 0%nat) then Err retry_registry_empty
  else Ok {| rr_policies := rr_policies registry;
             rr_providerIDs := sort_Strings (rr_providerIDs registry);
             rr_requestTimeout := rr_requestTimeout registry |}.

Definition ForProvider (registry : option RetryRegistry) (providerID : string)
  : option RetryPolicy :=
  r ← registry; rr_policies r !! TrimSpace providerID.

Definition RetryRegistry_RequestContext (registry : RetryRegistry) (ctx : Ctx) (now : Time) : Ctx :=
  ctx_with_timeout ctx now (rr_requestTimeout registry).

Definition RetryRegistry_RequestTimeout (registry : option RetryRegistry) : Duration :=
  match registry with Some r => rr_requestTimeout r | None => 0 end.

(** ** Properties *)

Lemma RetryConfig_Validate_bounds config :
  RetryConfig_Validate config = None →
  1 ≤ rc_MaxAttempts config ≤ maximumRetryAttempts ∧
  minimumRetryBackoff ≤ rc_InitialBackoff config ≤ rc_MaxBackoff config ∧
  rc_MaxBackoff config ≤ maximumRetryBackoff ∧
  minimumRequestTimeout ≤ rc_RequestTimeout config ≤ maximumRequestTimeout ∧
  minimumAttemptTimeout ≤ rc_AttemptTimeout config ≤ rc_RequestTimeout config.
Proof. unfold RetryConfig_Validate. repeat case_match; try done. lia. Qed.

(** The back-off never exceeds [MaxBackoff]. For a valid policy, whatever
    the failure, the attempt number and the random draw (jitter included, and
    whatever the floating-point rounding does), the delay of a retried failure
    is at most [MaxBackoff]; a failure that switches the key is retried at
    once, and an exhausted key set after exactly the reported time. *)
Theorem backoff_bounded policy f attempt random :
  RetryConfig_Validate policy = None →
  (sig_SwitchKey (SignalsFor (Some f)) = true → Backoff policy (Some f) attempt random = 0) ∧
  (f_Category f = CategoryKeyExhausted → Backoff policy (Some f) attempt random = f_RetryAfter f) ∧
  (f_Category f ≠ CategoryKeyExhausted → Backoff policy (Some f) attempt random ≤ rc_MaxBackoff policy).
Proof.
  intros Hv. apply RetryConfig_Validate_bounds in Hv as (_ & Hi & Hm & _).
  unfold Backoff. split; [by intros ->|].
  destruct (sig_SwitchKey _) eqn:Hsw.
  - split; [|intros _; unfold minimumRetryBackoff, millisecond in *; lia].
    intros Hf. apply SwitchKey_categories in Hsw. intuition congruence.
  - split; [intros ->; done|]. intros Hf. rewrite bool_decide_false by done.
    destruct (float_of_int (rc_MaxBackoff policy) <? _)%float eqn:Hlt; [done|].
    apply int_of_float_le; [|done].
    unfold minimumRetryBackoff, maximumRetryBackoff, millisecond, second in *. lia.
Qed.

(** With the default policy and no jitter the delays double from 100ms and stop
    at 2s. *)
Lemma default_backoff_schedule :
  map (λ n, Backoff DefaultRetryConfig (Some (new_failure CategoryNetwork "p")) n 0.5%float)
    [1; 2; 3; 4; 5; 6; 7] =
  map (Z.mul millisecond) [100; 200; 400; 800; 1600; 2000; 2000].
Proof. vm_compute. reflexivity. Qed.

(** Retries are bounded and only for failures whose signals ask for one: no
    attempt beyond [MaxAttempts] is ever started by [ShouldRetry], and client
    errors, local errors, cancellations and the end of the budget are final. *)
Theorem should_retry_exact policy f attempt :
  ShouldRetry policy (Some f) attempt = true ↔
  attempt < rc_MaxAttempts policy ∧
  (f_Category f = CategoryKeyUnauthorized ∨ f_Category f = CategoryKeyForbidden ∨
   f_Category f = CategoryUpstreamRateLimit ∨ f_Category f = CategoryNetwork ∨
   (f_Category f = CategoryTimeout ∧ f_Timeout f = Some TimeoutUpstream) ∨
   (f_Category f = CategoryUpstream5xx ∧ breakerHTTPStatus (f_StatusCode f) = true) ∨
   (f_Category f = CategoryKeyExhausted ∧ 0 < f_RetryAfter f)).
Proof.
  unfold ShouldRetry. destruct (rc_MaxAttempts policy <=? attempt) eqn:Ha.
  { split; [done|]. lia. }
  apply Z.leb_gt in Ha. unfold SignalsFor.
  destruct (f_Category f) eqn:Hc; cbn; try (rewrite ?Z.ltb_lt; intuition congruence).
  - destruct (breakerHTTPStatus _); cbn; intuition congruence.
  - case_bool_decide; cbn; intuition congruence.
  - rewrite orb_false_r, Z.ltb_lt. intuition congruence.
Qed.

(** [Wait] respects the request. It answers true only after exactly the
    delay asked (at once when there is none) and then the context was alive
    when the wait began, was not cancelled in the meantime and has budget left
    after it; it answers false only when the context is over, is cancelled
    during the wait, or could not outlive it, in which case no time is spent
    on a wait whose retry could not run. *)
Theorem wait_respects_context ctx now delay tf ok t :
  Wait ctx now delay tf = (ok, t) → delay < int64_max →
  now ≤ t ∧
  (ok = true → t = now + Z.max 0 delay ∧ ctx_err ctx now = None ∧
     (0 < delay → (∀ d, ctx_deadline ctx = Some d → t < d) ∧
                  (∀ c, ctx_cancel_at ctx = Some c → t ≤ c))) ∧
  (ok = false → ctx_err ctx t ≠ None ∨
     (t = now ∧ 0 < delay ∧ ∃ d, ctx_deadline ctx = Some d ∧ d - now ≤ delay)).
Proof.
  unfold Wait, time_add. intros HW Hmax. destruct (ctx_err ctx now) eqn:He.
  { injection HW as <- <-. split; [done|]. split; [done|]. intros _. left. congruence. }
  destruct (delay <=? 0) eqn:Hd.
  { injection HW as <- <-. repeat split; try done; lia. }
  destruct (match ctx_deadline ctx with Some _ => _ | None => _ end) eqn:Hdl.
  { injection HW as <- <-. split; [done|]. split; [done|]. intros _. right.
    destruct (ctx_deadline ctx) as [d|]; [|done]. split; [done|]. split; [lia|]. exists d.
    split; [done|]. unfold time_sub, int64_max, int64_min in *. lia. }
  assert (∀ d, ctx_deadline ctx = Some d → now + delay < d) as Hdead.
  { intros d Hd'. rewrite Hd' in Hdl. unfold time_sub, int64_max, int64_min in *. lia. }
  assert (∀ c, ctx_cancel_at ctx = Some c → now < c) as Hcan.
  { intros c Hc. unfold ctx_err in He. rewrite Hc in He.
    destruct (ctx_deadline ctx) as [d|]; [specialize (Hdead _ eq_refl)|]; repeat case_match; lia || done. }
  clear He. unfold ctx_err. destruct (ctx_cancel_at ctx) as [c|].
  - destruct ((c <? now + delay) || _) eqn:Hc; injection HW as <- <-.
    + specialize (Hcan _ eq_refl). split; [lia|]. split; [done|]. intros _. left.
      destruct (ctx_deadline ctx) as [d|].
      * specialize (Hdead _ eq_refl). rewrite (proj2 (Z.ltb_lt c d)), (proj2 (Z.leb_le c c)) by lia. done.
      * by rewrite (proj2 (Z.leb_le c c)).
    + split; [lia|]. split; [|done]. intros _. repeat split; try done; try lia.
      intros c' [= <-]. lia.
  - injection HW as <- <-. split; [lia|]. split; [|done]. intros _. repeat split; done || lia.
Qed.

(** ** The registry *)

Record retry_registry_ok (configs : gmap string RetryConfig) (r : RetryRegistry) : Prop := {
  rrok_policy : ∀ k p, rr_policies r !! k = Some p →
    configs !! k = Some p ∧ RetryConfig_Validate p = None ∧
    rc_RequestTimeout p = rr_requestTimeout r;
  rrok_zero : rr_requestTimeout r = 0 → rr_policies r = ∅;
}.

Definition retry_registry_start : RetryRegistry :=
  {| rr_policies := ∅; rr_providerIDs := []; rr_requestTimeout := 0 |}.

Lemma retry_registry_start_ok configs : retry_registry_ok configs retry_registry_start.
Proof. constructor; [|done]. cbn. intros k p Hk. by apply lookup_empty_Some in Hk. Qed.

Lemma retry_registry_loop_ok configs index ids r r' :
  retry_registry_ok configs r → retry_registry_loop configs index ids r = Ok r' →
  retry_registry_ok configs r' ∧
  (∀ k, is_Some (rr_policies r' !! k) ↔ is_Some (rr_policies r !! k) ∨ k ∈ map TrimSpace ids).
Proof.
  revert index r. induction ids as [|id ids IH]; intros index r [Hp Hz]; cbn.
  { intros [= <-]. split; [done|]. intros k. rewrite elem_of_nil. tauto. }
  case_match; [done|]. destruct (rr_policies r !! _) eqn:Hk; [done|].
  destruct (configs !! _) as [c|] eqn:Hc; [|done].
  destruct (_ && _) eqn:Ht; [done|]. unfold NewRetryPolicy.
  destruct (RetryConfig_Validate c) eqn:Hv; [done|].
  pose proof (RetryConfig_Validate_bounds c Hv) as (_ & _ & _ & Hr & _).
  unfold minimumRequestTimeout, second in Hr.
  intros (Hok & Hin)%IH.
  - split; [done|]. intros k. rewrite Hin. cbn. rewrite lookup_insert_is_Some, elem_of_cons.
    destruct (decide (TrimSpace id = k)) as [<-|]; intuition congruence.
  - apply andb_false_iff in Ht. rewrite !negb_false_iff in Ht. constructor; cbn.
    + intros k p. rewrite lookup_insert_Some. intros [[<- <-]|[_ Hk']].
      * split; [done|]. split; [done|]. destruct (rr_requestTimeout r =? 0) eqn:E; [done|]. lia.
      * destruct (Hp _ _ Hk') as (? & ? & ?). split; [done|]. split; [done|].
        destruct (rr_requestTimeout r =? 0) eqn:E; [|done].
        rewrite (Hz ltac:(lia)) in Hk'. by rewrite lookup_empty in Hk'.
    + destruct (rr_requestTimeout r =? 0) eqn:E; lia.
Qed.

Lemma retry_registry_spec ids configs r :
  NewRetryRegistry ids configs = Ok r →
  (∀ id p, ForProvider (Some r) id = Some p →
     configs !! TrimSpace id = Some p ∧ RetryConfig_Validate p = None ∧
     rc_RequestTimeout p = RetryRegistry_RequestTimeout (Some r) ∧
     rc_AttemptTimeout p ≤ RetryRegistry_RequestTimeout (Some r)) ∧
  (∀ id, is_Some (ForProvider (Some r) id) ↔ TrimSpace id ∈ map TrimSpace ids) ∧
  minimumRequestTimeout ≤ RetryRegistry_RequestTimeout (Some r) ≤ maximumRequestTimeout.
Proof.
  unfold NewRetryRegistry. intros (r0 & Hloop & Hr)%result_bind_ok.
  destruct (retry_registry_loop_ok configs 0 ids _ _ (retry_registry_start_ok configs) Hloop)
    as [[Hp Hz] Hin].
  destruct (bool_decide _) eqn:Hsz; [done|]. injection Hr as <-. cbn.
  apply bool_decide_eq_false in Hsz. split; [|split].
  - intros id p Hid. destruct (Hp _ _ Hid) as (? & Hv & ?). repeat split; auto.
    apply RetryConfig_Validate_bounds in Hv. lia.
  - intros id. rewrite Hin. cbn. rewrite lookup_empty. split; [intros [[? ?]|?]; done | by right].
  - destruct (map_choose (rr_policies r0)) as (k & p & Hk).
    { intros Hnil. apply Hsz. by rewrite Hnil, map_size_empty. }
    destruct (Hp _ _ Hk) as (_ & Hv & <-). apply RetryConfig_Validate_bounds in Hv. lia.
Qed.

Lemma retry_registry_facts ids configs r :
  NewRetryRegistry ids configs = Ok r →
  (∀ id p, ForProvider (Some r) id = Some p → RetryConfig_Validate p = None) ∧
  rr_requestTimeout r ≤ maximumRequestTimeout.
Proof.
  intros Hnew. destruct (retry_registry_spec _ _ _ Hnew) as (Hp & _ & Hmax).
  split; [intros id p Hid; by apply (Hp id p) | apply Hmax].
Qed.

(** A retry registry holds a valid policy for exactly the configured
    providers, and all share the registry's request timeout, so that one
    request has one total budget whichever candidates it tries. *)
Theorem retry_registry_built ids configs r :
  NewRetryRegistry ids configs = Ok r →
  (∀ id p, ForProvider (Some r) id = Some p →
     configs !! TrimSpace id = Some p ∧ RetryConfig_Validate p = None ∧
     rc_RequestTimeout p = RetryRegistry_RequestTimeout (Some r) ∧
     rc_AttemptTimeout p ≤ RetryRegistry_RequestTimeout (Some r)) ∧
  (∀ id, is_Some (ForProvider (Some r) id) ↔ TrimSpace id ∈ map TrimSpace ids) ∧
  minimumRequestTimeout ≤ RetryRegistry_RequestTimeout (Some r) ≤ maximumRequestTimeout.
Proof. apply retry_registry_spec. Qed.

(** ** Concrete instances *)

Lemma backoff_bounded_witness :
  Backoff DefaultRetryConfig (Some (new_failure CategoryNetwork "p")) 3 0.9%float ≤ 2 * second.
Proof.
  exact (proj2 (proj2 (backoff_bounded DefaultRetryConfig (new_failure CategoryNetwork "p") 3 0.9%float
    ltac:(vm_compute; reflexivity))) ltac:(discriminate)).
Defined.

Lemma wait_respects_context_witness :
  ctx_err {| ctx_deadline := Some 100; ctx_cancel_at := Some 7 |} 7 ≠ None ∨
  (7 = 5 ∧ 0 < 10 ∧ ∃ d, Some 100 = Some d ∧ d - 5 ≤ 10).
Proof.
  exact (proj2 (proj2 (wait_respects_context {| ctx_deadline := Some 100; ctx_cancel_at := Some 7 |}
    5 10 true false 7 eq_refl ltac:(done))) eq_refl).
Defined.

Definition demo_retry_configs : gmap string RetryConfig := {[ "p"%string := DefaultRetryConfig ]}.
Definition demo_retry : RetryRegistry :=
  {| rr_policies := {[ "p"%string := DefaultRetryConfig ]}; rr_providerIDs := ["p"%string];
     rr_requestTimeout := 45 * second |}.

Lemma retry_registry_built_witness :
  is_Some (ForProvider (Some demo_retry) "p ") ∧
  RetryRegistry_RequestTimeout (Some demo_retry) ≤ maximumRequestTimeout.
Proof.
  destruct (retry_registry_built [" p"%string] demo_retry_configs demo_retry
    ltac:(vm_compute; reflexivity)) as (_ & H1 & H2).
  split; [apply (H1 "p "%string); vm_compute; left | exact (proj2 H2)].
Defined.
