(* ===== verification/Routing.v ===== *)
(** * Capabilities and the router

    Models [src/internal/provider/capability.go], the protocol table of
    [src/internal/provider/catalog.go] and [src/internal/routing/router.go].
    Go ranges over maps in an unspecified order: where [normalizeCapabilities]
    does so and may fail, the error it reports is one of several; the model
    takes the configured map as the list of its entries in the order ranged
    over. *)

From S2P Require Import Prelude Failure.

(** ** Capabilities of the protocols *)

Definition SupportedProtocols : list string :=
  ["openai-compatible"; "openai"; "anthropic"; "gemini"; "azure-openai"; "dashscope"; "cohere";
   "ollama"; "mistral"; "deepseek"; "xai"; "zhipu"; "groq"; "nvidia"; "together"; "bedrock";
   "cloudflare"]%string.

Definition SupportedProtocol `{Unicode} (protocol : string) : bool :=
  bool_decide (ToLower (TrimSpace protocol) ∈ SupportedProtocols).

Inductive Capability :=
| CapabilityText
| CapabilityImage
| CapabilityAudio
| CapabilityFile
| CapabilityTools
| CapabilityStructured
| CapabilityEmbedding.

#[export] Instance Capability_eq_dec : EqDecision Capability.
Proof. solve_decision. Defined.

Definition capability_name (c : Capability) : string :=
  match c with
  | CapabilityText => "text" | CapabilityImage => "image" | CapabilityAudio => "audio"
  | CapabilityFile => "file" | CapabilityTools => "tools"
  | CapabilityStructured => "structured" | CapabilityEmbedding => "embedding"
  end.

Definition all_capabilities : list Capability :=
  [CapabilityText; CapabilityImage; CapabilityAudio; CapabilityFile; CapabilityTools;
   CapabilityStructured; CapabilityEmbedding].

Definition parse_capability (name : string) : option Capability :=
  head (filter (λ c, capability_name c = name) all_capabilities).

Definition image_protocols : list string :=
  ["openai-compatible"; "openai"; "anthropic"; "gemini"; "cohere"; "azure-openai"; "ollama";
   "mistral"; "xai"; "zhipu"; "groq"; "nvidia"; "together"; "bedrock"; "cloudflare"]%string.
Definition audio_protocols : list string :=
  ["openai-compatible"; "openai"; "azure-openai"; "gemini"; "cloudflare"]%string.
Definition file_protocols : list string :=
  ["openai-compatible"; "openai"; "azure-openai"; "anthropic"; "gemini"; "bedrock";
   "cloudflare"]%string.
Definition tools_protocols : list string :=
  ["openai-compatible"; "openai"; "anthropic"; "gemini"; "azure-openai"; "dashscope"; "cohere";
   "ollama"; "mistral"; "deepseek"; "xai"; "zhipu"; "groq"; "nvidia"; "together"; "bedrock";
   "cloudflare"]%string.
Definition embedding_protocols : list string :=
  ["openai-compatible"; "openai"; "azure-openai"; "mistral"; "xai"; "zhipu"; "groq"; "nvidia";
   "together"; "ollama"; "gemini"]%string.

Definition ProtocolSupportsCapability `{Unicode} (protocol : string) (capability : Capability) : bool :=
  let protocol := ToLower (TrimSpace protocol) in
  match capability with
  | CapabilityText | CapabilityStructured => SupportedProtocol protocol
  | CapabilityImage => bool_decide (protocol ∈ image_protocols)
  | CapabilityAudio => bool_decide (protocol ∈ audio_protocols)
  | CapabilityFile => bool_decide (protocol ∈ file_protocols)
  | CapabilityTools => bool_decide (protocol ∈ tools_protocols)
  | CapabilityEmbedding => bool_decide (protocol ∈ embedding_protocols)
  end.

Definition ProtocolSupportsStream `{Unicode} (protocol : string) : bool :=
  SupportedProtocol (ToLower (TrimSpace protocol)).

(** ** Routing data *)

Definition route_id_first (c : ascii) : bool :=
  let b := byte_of c in ((97 <=? b) && (b <=? 122)) || ((48 <=? b) && (b <=? 57)).
Definition route_id_rest (c : ascii) : bool :=
  route_id_first c || (byte_of c =? 46) || (byte_of c =? 95) || (byte_of c =? 45).

(** [^[a-z0-9][a-z0-9._-]{0,63}$] *)
Definition identifierPattern (s : string) : bool :=
  match list_ascii_of_string s with
  | [] => false
  | c :: l => route_id_first c && forallb route_id_rest l && (length l <=? 63)%nat
  end.

Record Provider := {
  pv_ID : string;
  pv_Type : string;
  pv_BaseURL : string;
  pv_Models : list string;
  pv_ModelCapabilities : list (string * list string);
}.

Record Target := { tg_ProviderID : string; tg_UpstreamModel : string }.

#[export] Instance Target_eq_dec : EqDecision Target.
Proof. solve_decision. Defined.

Record Rule := { rule_Model : string; rule_Candidates : list Target }.

Record RouteDefinition := { def_Providers : list Provider; def_Rules : list Rule }.

Record Candidate := {
  cd_ProviderID : string;
  cd_UpstreamModel : string;
  cd_Priority : Z;
}.

Record Plan := { plan_RequestedModel : string; plan_Candidates : list Candidate }.

Definition Plan_Primary (p : Plan) : option Candidate := head (plan_Candidates p).

Record routeProvider := {
  rp_id : string;
  rp_models : list string;
  rp_capabilities : gmap string (list Capability);
}.

(** A nil [defaultTargets] is the empty list: validated targets are never
    empty. *)
Record Router := {
  rt_providers : gmap string routeProvider;
  rt_exact : gmap string (list Target);
  rt_defaultTargets : list Target;
}.

Inductive RouteError :=
| route_no_provider
| route_provider_id (index : nat)
| route_provider_type (id type : string)
| route_provider_duplicated (id : string)
| route_models_empty (id : string)
| route_model_empty_value (id : string)
| route_model_duplicated (id model : string)
| route_caps_empty_model (id : string)
| route_caps_unsupported_model (id model : string)
| route_caps_duplicated_model (id model : string)
| route_caps_empty (id model : string)
| route_cap_not_carried (id model : string) (capability : Capability)
| route_cap_duplicated (id model : string) (capability : Capability)
| route_cap_unknown (id model name : string)
| route_caps_incomplete (id model : string)
| route_rule_empty_model (index : nat)
| route_targets_empty (model : string)
| route_target_unknown (model : string) (index : nat) (provider : string)
| route_target_model (model : string) (index : nat) (upstream : string)
| route_default_twice
| route_duplicated (model : string)
| route_no_route.

(** ** Validation of the providers *)

Fixpoint normalizeModels_loop (id : string) (configured models : list string)
  : result RouteError (list string) :=
  match configured with
  | [] => Ok models
  | configuredModel :: rest =>
      let model := TrimSpace configuredModel in
      if (model =? "")%string then Err (route_model_empty_value id)
      else if bool_decide (model ∈ models) then Err (route_model_duplicated id model)
      else normalizeModels_loop id rest (models ++ [model])
  end.

Definition normalizeModels (id : string) (configured : list string) : result RouteError (list string) :=
  if bool_decide (configured = []) then Err (route_models_empty id)
  else models ← normalizeModels_loop id configured []; Ok (sort_Strings models).

Definition providerSupports (provider : routeProvider) (model : string) : bool :=
  existsb (λ supported, (supported =? "*")%string || (supported =? model)%string) (rp_models provider).

Section unicode.
Context `{Unicode}.

Fixpoint capability_set_loop (id model protocol : string) (configured : list string)
    (set : list Capability) : result RouteError (list Capability) :=
  match configured with
  | [] => Ok set
  | name :: rest =>
      let name := ToLower (TrimSpace name) in
      match parse_capability name with
      | None => Err (route_cap_unknown id model name)
      | Some capability =>
          if negb (ProtocolSupportsCapability protocol capability)
          then Err (route_cap_not_carried id model capability)
          else if bool_decide (capability ∈ set) then Err (route_cap_duplicated id model capability)
          else capability_set_loop id model protocol rest (set ++ [capability])
      end
  end.

Definition normalizeCapabilitySet (id model protocol : string) (configured : list string)
  : result RouteError (list Capability) :=
  if bool_decide (configured = []) then Err (route_caps_empty id model)
  else
    set ← capability_set_loop id model protocol configured [];
    if bool_decide (CapabilityText ∈ set) || bool_decide (CapabilityEmbedding ∈ set) then Ok set
    else Err (route_caps_incomplete id model).

Fixpoint normalizeCapabilities_loop (id : string) (models : list string) (protocol : string)
    (configured : list (string * list string)) (capabilities : gmap string (list Capability))
  : result RouteError (gmap string (list Capability)) :=
  match configured with
  | [] => Ok capabilities
  | (configuredModel, values) :: rest =>
      let model := TrimSpace configuredModel in
      if (model =? "")%string then Err (route_caps_empty_model id)
      else if negb (bool_decide (model ∈ models)) && negb (bool_decide ("*"%string ∈ models))
      then Err (route_caps_unsupported_model id model)
      else match capabilities !! model with
      | Some _ => Err (route_caps_duplicated_model id model)
      | None =>
          match normalizeCapabilitySet id model protocol values with
          | Err e => Err e
          | Ok set => normalizeCapabilities_loop id models protocol rest (<[model := set]> capabilities)
          end
      end
  end.

Definition default_capabilities (models : list string) (capabilities : gmap string (list Capability))
  : gmap string (list Capability) :=
  foldl (λ m model, match m !! model with
                    | Some _ => m
                    | None => <[model := [CapabilityText]]> m
                    end) capabilities models.

Definition normalizeCapabilities (id : string) (models : list string) (protocol : string)
    (configured : list (string * list string)) : result RouteError (gmap string (list Capability)) :=
  capabilities ← normalizeCapabilities_loop id models protocol configured ∅;
  Ok (default_capabilities models capabilities).

Fixpoint validateProviders_loop (index : nat) (configured : list Provider)
    (providers : gmap string routeProvider) : result RouteError (gmap string routeProvider) :=
  match configured with
  | [] => Ok providers
  | p :: rest =>
      let id := TrimSpace (pv_ID p) in
      let type := TrimSpace (pv_Type p) in
      if negb (identifierPattern id) then Err (route_provider_id index)
      else if negb (SupportedProtocol type) then Err (route_provider_type id type)
      else match providers !! id with
      | Some _ => Err (route_provider_duplicated id)
      | None =>
          match normalizeModels id (pv_Models p) with
          | Err e => Err e
          | Ok models =>
              match normalizeCapabilities id models type (pv_ModelCapabilities p) with
              | Err e => Err e
              | Ok capabilities =>
                  validateProviders_loop (S index) rest
                    (<[id := {| rp_id := id; rp_models := models;
                                rp_capabilities := capabilities |}]> providers)
              end
          end
      end
  end.

Definition validateProviders (configured : list Provider)
  : result RouteError (gmap string routeProvider) :=
  match configured with
  | [] => Err route_no_provider
  | _ => validateProviders_loop 0 configured ∅
  end.
End unicode.

(** ** Validation of the rules *)

(** Two targets have one identity exactly when both fields agree: a model name
    is free, but a provider identifier holds no zero byte. *)
Fixpoint validateTargets_loop (index : nat) (configured : list Target) (routeModel : string)
    (providers : gmap string routeProvider) (targets : list Target)
  : result RouteError (list Target) :=
  match configured with
  | [] => Ok targets
  | target :: rest =>
      let target := {| tg_ProviderID := TrimSpace (tg_ProviderID target);
                       tg_UpstreamModel := TrimSpace (tg_UpstreamModel target) |} in
      match providers !! tg_ProviderID target with
      | None => Err (route_target_unknown routeModel index (tg_ProviderID target))
      | Some provider =>
          let resolvedModel :=
            if (tg_UpstreamModel target =? "")%string then routeModel
            else tg_UpstreamModel target in
          let resolvedModel :=
            if (routeModel =? "*")%string && (tg_UpstreamModel target =? "")%string then "*"%string
            else resolvedModel in
          if negb (providerSupports provider resolvedModel)
          then Err (route_target_model routeModel index resolvedModel)
          else validateTargets_loop (S index) rest routeModel providers
                 (if bool_decide (target ∈ targets) then targets else targets ++ [target])
      end
  end.

(** The last check of the code (no usable target) never fires: a first target
    is never a duplicate. *)
Definition validateTargets (configured : list Target) (routeModel : string)
    (providers : gmap string routeProvider) : result RouteError (list Target) :=
  if bool_decide (configured = []) then Err (route_targets_empty routeModel)
  else
    targets ← validateTargets_loop 0 configured routeModel providers [];
    if bool_decide (targets = []) then Err (route_targets_empty routeModel) else Ok targets.

Fixpoint New_loop (index : nat) (rules : list Rule) (router : Router) : result RouteError Router :=
  match rules with
  | [] => Ok router
  | rule :: rest =>
      let model := TrimSpace (rule_Model rule) in
      if (model =? "")%string then Err (route_rule_empty_model index)
      else match validateTargets (rule_Candidates rule) model (rt_providers router) with
      | Err e => Err e
      | Ok targets =>
          if (model =? "*")%string then
            if negb (bool_decide (rt_defaultTargets router = [])) then Err route_default_twice
            else New_loop (S index) rest
                   {| rt_providers := rt_providers router; rt_exact := rt_exact router;
                      rt_defaultTargets := targets |}
          else match rt_exact router !! model with
          | Some _ => Err (route_duplicated model)
          | None =>
              New_loop (S index) rest
                {| rt_providers := rt_providers router;
                   rt_exact := <[model := targets]> (rt_exact router);
                   rt_defaultTargets := rt_defaultTargets router |}
          end
      end
  end.

Definition New `{Unicode} (definition : RouteDefinition) : result RouteError Router :=
  providers ← validateProviders (def_Providers definition);
  router ← New_loop 0 (def_Rules definition)
             {| rt_providers := providers; rt_exact := ∅; rt_defaultTargets := [] |};
  if bool_decide (rt_exact router = ∅) && bool_decide (rt_defaultTargets router = [])
  then Err route_no_route else Ok router.

(** ** Planning *)

Definition providerSupportsCapabilities (provider : routeProvider) (model : string)
    (required : list Capability) : bool :=
  let available :=
    match rp_capabilities provider !! model with
    | Some set => set
    | None => default [] (rp_capabilities provider !! "*"%string)
    end in
  forallb (λ c, bool_decide (c ∈ available)) required.

(** The zero [routeProvider], which reading an absent map entry gives. *)
Definition zero_provider : routeProvider :=
  {| rp_id := ""; rp_models := []; rp_capabilities := ∅ |}.

Definition target_provider (r : Router) (target : Target) : routeProvider :=
  default zero_provider (rt_providers r !! tg_ProviderID target).

Definition target_model (requestedModel : string) (target : Target) : string :=
  if (tg_UpstreamModel target =? "")%string then requestedModel else tg_UpstreamModel target.

Fixpoint plan_loop (r : Router) (requestedModel : string) (required : list Capability)
    (priority : Z) (targets : list Target) (candidates : list Candidate) (modelAvailable : bool)
  : list Candidate * bool :=
  match targets with
  | [] => (candidates, modelAvailable)
  | target :: rest =>
      let provider := target_provider r target in
      let upstreamModel := target_model requestedModel target in
      if negb (providerSupports provider upstreamModel) then
        plan_loop r requestedModel required (priority + 1) rest candidates modelAvailable
      else if negb (providerSupportsCapabilities provider upstreamModel required) then
        plan_loop r requestedModel required (priority + 1) rest candidates true
      else
        plan_loop r requestedModel required (priority + 1) rest
          (candidates ++ [{| cd_ProviderID := rp_id provider; cd_UpstreamModel := upstreamModel;
                             cd_Priority := priority |}]) true
  end.

Definition route_targets (r : Router) (requestedModel : string) : list Target :=
  match default [] (rt_exact r !! requestedModel) with
  | [] => rt_defaultTargets r
  | targets => targets
  end.

Definition Router_Plan (r : Router) (requestedModel : string) (required : list Capability)
  : result Sentinel Plan :=
  let requestedModel := TrimSpace requestedModel in
  if (requestedModel =? "")%string then Err ErrNoRoute
  else match route_targets r requestedModel with
  | [] => Err ErrNoRoute
  | targets =>
      match plan_loop r requestedModel required 0 targets [] false with
      | ([], true) => Err ErrCapabilityUnavailable
      | ([], false) => Err ErrNoRoute
      | (candidates, _) =>
          Ok {| plan_RequestedModel := requestedModel; plan_Candidates := candidates |}
      end
  end.

Definition Router_Models (r : option Router) : list string :=
  match r with
  | None => []
  | Some r => sort_Strings (map fst (map_to_list (rt_exact r)))
  end.

(** ** What validation guarantees *)

(** The model a target was checked against. *)
Definition checked_model (routeModel : string) (target : Target) : string :=
  if (tg_UpstreamModel target =? "")%string then routeModel else tg_UpstreamModel target.

Definition target_ok (providers : gmap string routeProvider) (routeModel : string) (target : Target)
  : Prop :=
  ∃ p, providers !! tg_ProviderID target = Some p ∧
    providerSupports p (checked_model routeModel target) = true.

Definition targets_ok (providers : gmap string routeProvider) (routeModel : string)
    (targets : list Target) : Prop :=
  NoDup targets ∧ Forall (target_ok providers routeModel) targets.

Record provider_ok (id : string) (p : routeProvider) : Prop := {
  pok_id : rp_id p = id;
  pok_pattern : identifierPattern id = true;
  pok_models : rp_models p ≠ [] ∧ NoDup (rp_models p) ∧ Sorted string_le (rp_models p);
  pok_covered : ∀ m, m ∈ rp_models p → is_Some (rp_capabilities p !! m);
  pok_caps : ∀ m set, rp_capabilities p !! m = Some set →
    NoDup set ∧ (CapabilityText ∈ set ∨ CapabilityEmbedding ∈ set) ∧
    (m ∈ rp_models p ∨ "*"%string ∈ rp_models p);
}.

Record router_ok (r : Router) : Prop := {
  rok_providers : ∀ id p, rt_providers r !! id = Some p → provider_ok id p;
  rok_exact : ∀ m targets, rt_exact r !! m = Some targets →
    targets ≠ [] ∧ m ≠ "*"%string ∧ m ≠ ""%string ∧ trimmed m ∧
    targets_ok (rt_providers r) m targets;
  rok_default : targets_ok (rt_providers r) "*" (rt_defaultTargets r);
}.

Lemma checked_model_resolved routeModel target :
  (if (routeModel =? "*")%string && (tg_UpstreamModel target =? "")%string then "*"%string
   else if (tg_UpstreamModel target =? "")%string then routeModel else tg_UpstreamModel target) =
  checked_model routeModel target.
Proof.
  unfold checked_model. destruct (String.eqb_spec routeModel "*") as [->|]; cbn; [|done].
  by destruct (_ =? "")%string.
Qed.

Lemma NoDup_snoc {A} (l : list A) x : NoDup l → x ∉ l → NoDup (l ++ [x]).
Proof.
  intros Hl Hx. apply NoDup_app. split; [done|]. split; [|apply NoDup_singleton].
  by intros y Hy ->%list_elem_of_singleton.
Qed.

Lemma validateTargets_loop_ok index configured m providers targets targets' :
  targets_ok providers m targets →
  validateTargets_loop index configured m providers targets = Ok targets' →
  targets_ok providers m targets'.
Proof.
  revert index targets. induction configured as [|t configured IH]; intros index targets Hok; cbn.
  { by intros [= <-]. }
  set (t' := Build_Target _ _). destruct (providers !! _) as [p|] eqn:Hp; [|done].
  pose proof (checked_model_resolved m t') as Hres. cbn in Hres. rewrite Hres.
  destruct (providerSupports p _) eqn:Hs; [|done]. cbn. apply IH.
  destruct Hok as [Hnd Hall]. case_bool_decide as Hin; [done|]. split; [by apply NoDup_snoc|].
  apply Forall_app. split; [done|]. constructor; [|done]. by exists p.
Qed.

Lemma validateTargets_ok configured m providers targets :
  validateTargets configured m providers = Ok targets →
  targets ≠ [] ∧ targets_ok providers m targets.
Proof.
  unfold validateTargets. destruct (bool_decide _); [done|].
  intros (ts & Hts & H)%result_bind_ok. case_bool_decide; [done|]. injection H as <-.
  split; [done|]. eapply validateTargets_loop_ok; [|done]. split; constructor.
Qed.

Lemma New_loop_ok index rules r r' :
  router_ok r → New_loop index rules r = Ok r' → router_ok r' ∧ rt_providers r' = rt_providers r.
Proof.
  revert index r. induction rules as [|rule rules IH]; intros index r Hok; cbn.
  { by intros [= <-]. }
  destruct (String.eqb_spec (TrimSpace (rule_Model rule)) "") as [|Hne]; [done|].
  destruct (validateTargets _ _ _) as [targets|] eqn:Ht; [|done].
  apply validateTargets_ok in Ht as [Hnil Hts]. destruct Hok as [Hp He Hd].
  destruct (String.eqb_spec (TrimSpace (rule_Model rule)) "*") as [Hstar|Hns].
  - rewrite Hstar in Hts. case_bool_decide; [|done]. cbn.
    intros (Hok & Hpr)%IH; [done|]. by constructor.
  - destruct (rt_exact r !! _) eqn:Hx; [done|]. intros (Hok & Hpr)%IH; [done|].
    constructor; cbn; [done| |done]. intros m ts. rewrite lookup_insert_Some.
    intros [[<- <-]|[_ Hm]]; [|by apply He]. repeat split; try done; [apply trimmed_TrimSpace|apply Hts..].
Qed.

Lemma normalizeModels_ok id configured models :
  normalizeModels id configured = Ok models →
  models ≠ [] ∧ NoDup models ∧ Sorted string_le models.
Proof.
  unfold normalizeModels. case_bool_decide as Hnil; [done|].
  intros (ms & Hloop & [= <-])%result_bind_ok.
  assert (NoDup ms ∧ (length ms = length configured)%nat) as [Hnd Hlen].
  { assert (∀ c acc, NoDup acc → normalizeModels_loop id c acc = Ok ms →
      NoDup ms ∧ (length ms = length acc + length c)%nat) as Hgen;
      [|apply (Hgen configured []); [constructor|done]].
    clear. induction c as [|m c IH]; intros acc Hacc; cbn; [intros [= <-]; split; [done|lia]|].
    case_match; [done|]. case_bool_decide; [done|].
    intros [? Hl]%IH; [|by apply NoDup_snoc]. split; [done|]. rewrite Hl, length_app. cbn. lia. }
  pose proof (sort_Strings_perm ms) as Hp. split; [|split].
  - intros Hz. apply Permutation_length in Hp. rewrite Hz, Hlen in Hp. by destruct configured.
  - by rewrite Hp.
  - apply sort_Strings_sorted.
Qed.

Section validation.
Context `{Unicode}.

Lemma normalizeCapabilitySet_ok id model protocol configured set :
  normalizeCapabilitySet id model protocol configured = Ok set →
  NoDup set ∧ (CapabilityText ∈ set ∨ CapabilityEmbedding ∈ set) ∧
  Forall (λ c, ProtocolSupportsCapability protocol c = true) set.
Proof.
  unfold normalizeCapabilitySet. case_bool_decide; [done|].
  intros (s & Hloop & Hs)%result_bind_ok.
  assert (NoDup s ∧ Forall (λ c, ProtocolSupportsCapability protocol c = true) s) as [Hnd Hall].
  { assert (∀ c acc, NoDup acc → Forall (λ c, ProtocolSupportsCapability protocol c = true) acc →
      capability_set_loop id model protocol c acc = Ok s →
      NoDup s ∧ Forall (λ c, ProtocolSupportsCapability protocol c = true) s) as Hgen;
      [|apply (Hgen configured []); [constructor|constructor|done]].
    clear. induction c as [|n c IH]; intros acc Hacc Hall; cbn; [by intros [= <-]|].
    destruct (parse_capability _) as [cap|]; [|done].
    destruct (ProtocolSupportsCapability protocol cap) eqn:Hc; [|done]. cbn.
    case_bool_decide; [done|]. intros [? ?]%IH; [done|by apply NoDup_snoc|].
    apply Forall_app. split; [done|]. by constructor. }
  destruct (bool_decide _ || bool_decide _) eqn:Hor; [|done]. injection Hs as <-.
  rewrite orb_true_iff, !bool_decide_eq_true in Hor. done.
Qed.

Lemma normalizeCapabilities_ok id models protocol configured capabilities :
  normalizeCapabilities id models protocol configured = Ok capabilities →
  (∀ m, m ∈ models → is_Some (capabilities !! m)) ∧
  (∀ m set, capabilities !! m = Some set →
     NoDup set ∧ (CapabilityText ∈ set ∨ CapabilityEmbedding ∈ set) ∧
     (m ∈ models ∨ "*"%string ∈ models)).
Proof.
  unfold normalizeCapabilities. intros (caps & Hloop & [= <-])%result_bind_ok.
  set (good m set := NoDup set ∧ (CapabilityText ∈ set ∨ CapabilityEmbedding ∈ set) ∧
     (m ∈ models ∨ "*"%string ∈ models)).
  assert (∀ m set, caps !! m = Some set → good m set) as Hcaps.
  { assert (∀ c (acc : gmap string (list Capability)),
      (∀ m set, acc !! m = Some set → good m set) →
      normalizeCapabilities_loop id models protocol c acc = Ok caps →
      ∀ m set, caps !! m = Some set → good m set) as Hgen;
      [|apply (Hgen configured ∅); [intros m set Hm; by apply lookup_empty_Some in Hm | done]].
    clear Hloop. induction c as [|[n vs] c IH]; intros acc Hacc; cbn; [by intros [= <-]|].
    case_match; [done|]. destruct (negb _ && negb _) eqn:Hin; [done|].
    destruct (acc !! _) eqn:Hl; [done|]. destruct (normalizeCapabilitySet _ _ _ _) as [set|] eqn:Hs; [|done].
    apply IH. intros m set'. rewrite lookup_insert_Some. intros [[<- <-]|[_ Hm]]; [|by apply Hacc].
    apply normalizeCapabilitySet_ok in Hs as (? & ? & _). split; [done|]. split; [done|].
    rewrite andb_false_iff, !negb_false_iff, !bool_decide_eq_true in Hin. done. }
  assert (∀ ms (acc : gmap string (list Capability)),
    (∀ m, m ∈ ms → m ∈ models) → (∀ m set, acc !! m = Some set → good m set) →
    (∀ m, m ∈ ms ∨ is_Some (acc !! m) → is_Some (default_capabilities ms acc !! m)) ∧
    (∀ m set, default_capabilities ms acc !! m = Some set → good m set)) as Hdef;
    [|destruct (Hdef models caps) as [H1 H2]; auto].
  clear Hcaps Hloop. unfold default_capabilities.
  induction ms as [|m0 ms IH]; intros acc Hms Hacc; cbn.
  { split; [|done]. intros m [Hm|Hm]; [by apply elem_of_nil in Hm | done]. }
  destruct (acc !! m0) eqn:Hm0.
  - destruct (IH acc) as [H1 H2]; [intros; apply Hms; by right | done|]. split; [|done].
    intros m [[->|Hm]%elem_of_cons|Hm]; apply H1; eauto.
  - destruct (IH (<[m0 := [CapabilityText]]> acc)) as [H1 H2].
    + intros; apply Hms; by right.
    + intros m set. rewrite lookup_insert_Some. intros [[<- <-]|[_ Hm]]; [|by apply Hacc].
      split; [apply NoDup_singleton|]. split; [left; left|]. left. apply Hms. left.
    + split; [|done]. intros m Hm. apply H1. rewrite lookup_insert_is_Some, elem_of_cons in *.
      destruct (decide (m0 = m)); intuition congruence.
Qed.

Lemma validateProviders_ok configured providers :
  validateProviders configured = Ok providers →
  ∀ id p, providers !! id = Some p → provider_ok id p.
Proof.
  assert (∀ index c (acc : gmap string routeProvider),
    (∀ id p, acc !! id = Some p → provider_ok id p) →
    validateProviders_loop index c acc = Ok providers →
    ∀ id p, providers !! id = Some p → provider_ok id p) as Hgen.
  { intros index c. revert index. induction c as [|pv c IH]; intros index acc Hacc; cbn; [by intros [= <-]|].
    destruct (identifierPattern _) eqn:Hid; [|done]. destruct (SupportedProtocol _); [|done]. cbn.
    destruct (acc !! _) eqn:Hl; [done|].
    destruct (normalizeModels _ _) as [models|] eqn:Hm; [|done].
    destruct (normalizeCapabilities _ _ _ _) as [caps|] eqn:Hc; [|done].
    apply IH. intros id p. rewrite lookup_insert_Some. intros [[<- <-]|[_ Hp]]; [|by apply Hacc].
    apply normalizeModels_ok in Hm. apply normalizeCapabilities_ok in Hc as [? ?]. by constructor. }
  destruct configured; [done|]. apply Hgen. intros id pr Hp. by apply lookup_empty_Some in Hp.
Qed.

Lemma New_router_ok definition r : New definition = Ok r → router_ok r.
Proof.
  unfold New. intros (providers & Hp & (r0 & Hr & Hfin)%result_bind_ok)%result_bind_ok.
  destruct (_ && _); [done|]. injection Hfin as <-.
  apply New_loop_ok in Hr as [? _]; [done|]. constructor; cbn.
  - by apply (validateProviders_ok _ _ Hp).
  - intros m ts Hm. by apply lookup_empty_Some in Hm.
  - split; constructor.
Qed.

(** A router that [New] accepts is sound: every provider has a valid
    identifier, distinct sorted models, and for each model a duplicate-free
    capability set with text or embedding; every rule has a trimmed model and a
    non-empty, duplicate-free list of targets whose providers exist and support
    the model the target resolves to (a wildcard target without a model needs a
    provider that supports every model). *)
Theorem New_sound definition r :
  New definition = Ok r →
  router_ok r ∧ (rt_exact r ≠ ∅ ∨ rt_defaultTargets r ≠ []).
Proof.
  intros Hnew. split; [by eapply New_router_ok|].
  unfold New in Hnew. apply result_bind_ok in Hnew as (p & _ & (r0 & _ & Hfin)%result_bind_ok).
  destruct (bool_decide (rt_exact r0 = ∅)) eqn:H1, (bool_decide (rt_defaultTargets r0 = [])) eqn:H2;
    cbn in Hfin; injection Hfin as <- || done;
    rewrite ?bool_decide_eq_true, ?bool_decide_eq_false in *; auto.
Qed.
End validation.

(** ** What a plan contains *)

(** The candidates a list of targets stands for: one for each target whose
    provider has the required capabilities, in order, numbered by the position
    of its target. *)
Definition candidate_of (r : Router) (model : string) (required : list Capability) (i : nat)
    (target : Target) : option Candidate :=
  if providerSupportsCapabilities (target_provider r target) (target_model model target) required
  then Some {| cd_ProviderID := tg_ProviderID target; cd_UpstreamModel := target_model model target;
               cd_Priority := Z.of_nat i |}
  else None.

Fixpoint candidates_of (r : Router) (model : string) (required : list Capability) (i : nat)
    (targets : list Target) : list Candidate :=
  match targets with
  | [] => []
  | target :: rest =>
      match candidate_of r model required i target with
      | Some c => c :: candidates_of r model required (S i) rest
      | None => candidates_of r model required (S i) rest
      end
  end.

(** The abstract plan: no route without targets; no candidate means that the
    capabilities are not to be had. *)
Definition plan_spec (r : Router) (model : string) (required : list Capability)
  : result Sentinel Plan :=
  if (model =? "")%string then Err ErrNoRoute
  else match route_targets r model with
  | [] => Err ErrNoRoute
  | targets =>
      match candidates_of r model required 0 targets with
      | [] => Err ErrCapabilityUnavailable
      | candidates => Ok {| plan_RequestedModel := model; plan_Candidates := candidates |}
      end
  end.

(** In a sound router a routed target always finds its provider, with the model
    it resolves to. *)
Lemma route_target_supported r m target :
  router_ok r → target ∈ route_targets r m →
  rp_id (target_provider r target) = tg_ProviderID target ∧
  providerSupports (target_provider r target) (target_model m target) = true.
Proof.
  intros [Hp He Hd] Hin.
  assert (∃ rm, target_ok (rt_providers r) rm target ∧ (rm = m ∨ rm = "*"%string)) as (rm & Hok & Hrm).
  { unfold route_targets in Hin. destruct (rt_exact r !! m) as [[|t ts]|] eqn:Hx; cbn in Hin.
    - exists "*"%string. split; [|by right]. destruct Hd as [_ Hd]. by eapply Forall_forall in Hd.
    - exists m. split; [|by left]. destruct (He _ _ Hx) as (_ & _ & _ & _ & _ & Hall).
      by eapply Forall_forall in Hall.
    - exists "*"%string. split; [|by right]. destruct Hd as [_ Hd]. by eapply Forall_forall in Hd. }
  destruct Hok as (p & Hl & Hs). unfold target_provider. rewrite Hl. cbn.
  split; [apply Hp, Hl|]. unfold target_model, checked_model in *.
  destruct (tg_UpstreamModel target =? "")%string; [|done]. destruct Hrm as [->|Hstar]; [done|].
  rewrite Hstar in Hs. unfold providerSupports in *. apply existsb_exists in Hs as (x & Hx & Hs).
  apply existsb_exists. exists x. split; [done|]. rewrite orb_true_iff in *. tauto.
Qed.

Lemma plan_loop_spec r m required i targets candidates available :
  (∀ t, t ∈ targets → rp_id (target_provider r t) = tg_ProviderID t ∧
     providerSupports (target_provider r t) (target_model m t) = true) →
  plan_loop r m required (Z.of_nat i) targets candidates available =
    (candidates ++ candidates_of r m required i targets,
     available || negb (bool_decide (targets = []))).
Proof.
  revert i candidates available. induction targets as [|t targets IH]; intros i cs av Hall; cbn.
  { by rewrite app_nil_r, orb_false_r. }
  destruct (Hall t) as [Hid Hsup]; [left|]. rewrite Hsup. cbn.
  replace (Z.of_nat i + 1) with (Z.of_nat (S i)) by lia.
  assert (∀ t, t ∈ targets → rp_id (target_provider r t) = tg_ProviderID t ∧
     providerSupports (target_provider r t) (target_model m t) = true) as Hrest
    by (intros; apply Hall; by right).
  unfold candidate_of. destruct (providerSupportsCapabilities _ _ _); cbn; rewrite IH by done; cbn.
  - by rewrite Hid, <-app_assoc, !orb_true_r.
  - by rewrite orb_true_r.
Qed.

Section plan.
Context `{Unicode}.

(** C24: planning implements its specification. For a router built by [New], the
    plan of a model is the exact route's targets, or the default route's when
    it has none, restricted to the providers that have every required
    capability, in the configured order and with the position as priority. In
    particular no target is ever lost for its model: [ErrNoRoute] means that
    there is no route at all, [ErrCapabilityUnavailable] that no target has the
    capabilities. *)
Theorem plan_refines_spec definition r requested required :
  New definition = Ok r → Router_Plan r requested required = plan_spec r (TrimSpace requested) required.
Proof.
  intros Hnew. apply New_router_ok in Hnew as Hok. unfold Router_Plan, plan_spec.
  destruct (_ =? "")%string; [done|].
  pose proof (plan_loop_spec r (TrimSpace requested) required 0 (route_targets r (TrimSpace requested))
    [] false (λ t Ht, route_target_supported r _ t Hok Ht)) as Hloop.
  destruct (route_targets r (TrimSpace requested)) as [|t ts]; [done|].
  change (Z.of_nat 0) with 0 in Hloop. rewrite Hloop. cbn [app negb orb].
  rewrite bool_decide_false by done. cbn [negb orb].
  by destruct (candidates_of _ _ _ _ _).
Qed.

Lemma candidates_of_sound r m required i targets c :
  c ∈ candidates_of r m required i targets →
  ∃ j target, targets !! j = Some target ∧ candidate_of r m required (i + j) target = Some c.
Proof.
  revert i. induction targets as [|t targets IH]; intros i; cbn; [by intros ?%elem_of_nil|].
  assert (c ∈ candidates_of r m required (S i) targets →
    ∃ j target, (t :: targets) !! j = Some target ∧ candidate_of r m required (i + j) target = Some c)
    as Hrest.
  { intros (j & u & Hj & Hc)%IH. exists (S j), u. split; [done|].
    by replace (i + S j)%nat with (S i + j)%nat by lia. }
  destruct (candidate_of r m required i t) eqn:Hc; [|apply Hrest].
  intros [->|Hin]%elem_of_cons; [|by apply Hrest]. exists 0%nat, t. by rewrite Nat.add_0_r.
Qed.

(** Every candidate of a plan is usable: its provider exists, supports the
    upstream model, and has each required capability for that model; the
    upstream model is never empty and the priority points to the target it
    comes from. *)
Theorem plan_candidates_usable definition r requested required p c :
  New definition = Ok r → Router_Plan r requested required = Ok p → c ∈ plan_Candidates p →
  plan_RequestedModel p = TrimSpace requested ∧
  ∃ pv target, rt_providers r !! cd_ProviderID c = Some pv ∧
    providerSupports pv (cd_UpstreamModel c) = true ∧
    providerSupportsCapabilities pv (cd_UpstreamModel c) required = true ∧
    cd_UpstreamModel c ≠ ""%string ∧ 0 ≤ cd_Priority c ∧
    route_targets r (TrimSpace requested) !! Z.to_nat (cd_Priority c) = Some target ∧
    tg_ProviderID target = cd_ProviderID c.
Proof.
  intros Hnew Hplan Hc. rewrite (plan_refines_spec definition) in Hplan by done.
  apply New_router_ok in Hnew as Hok. unfold plan_spec in Hplan.
  destruct (String.eqb_spec (TrimSpace requested) "") as [|Hne]; [done|].
  destruct (route_targets r (TrimSpace requested)) as [|t ts] eqn:Ht; [done|]. rewrite <-Ht in Hplan.
  assert (p = {| plan_RequestedModel := TrimSpace requested;
    plan_Candidates := candidates_of r (TrimSpace requested) required 0 (route_targets r (TrimSpace requested)) |})
    as -> by (by destruct (candidates_of _ _ _ _ _); simplify_eq). cbn in *.
  split; [done|]. apply candidates_of_sound in Hc as (j & target & Hj & Hc).
  destruct (route_target_supported r (TrimSpace requested) target Hok) as [Hid Hs].
  { by eapply list_elem_of_lookup_2. }
  unfold candidate_of in Hc. destruct (providerSupportsCapabilities _ _ _) eqn:Hcap; [|done].
  injection Hc as <-. cbn. rewrite Nat2Z.id, <-Ht.
  unfold target_provider in *. destruct (rt_providers r !! tg_ProviderID target) as [pv|] eqn:Hpv;
    cbn in *; [|done].
  exists pv, target. repeat split; try done; [|lia].
  unfold target_model. destruct (String.eqb_spec (tg_UpstreamModel target) ""); done.
Qed.
End plan.

(** ** Concrete instances *)

Definition demo_provider : Provider :=
  {| pv_ID := "a"; pv_Type := "openai"; pv_BaseURL := ""; pv_Models := ["m2"; "m1"];
     pv_ModelCapabilities := [("m1", ["text"; "tools"])] |}.
Definition demo_definition : RouteDefinition :=
  {| def_Providers := [demo_provider];
     def_Rules := [{| rule_Model := "fast";
                      rule_Candidates := [{| tg_ProviderID := "a"; tg_UpstreamModel := "m2" |};
                                          {| tg_ProviderID := " a"; tg_UpstreamModel := "m1" |}] |}] |}.

Definition demo_router : Router :=
  match @New demo_unicode demo_definition with
  | Ok r => r
  | Err _ => {| rt_providers := ∅; rt_exact := ∅; rt_defaultTargets := [] |}
  end.

Definition demo_candidate : Candidate :=
  {| cd_ProviderID := "a"; cd_UpstreamModel := "m1"; cd_Priority := 1 |}.
Definition demo_plan : Plan :=
  {| plan_RequestedModel := "fast"; plan_Candidates := [demo_candidate] |}.

Lemma New_sound_witness : rt_exact demo_router ≠ ∅ ∨ rt_defaultTargets demo_router ≠ [].
Proof. exact (proj2 (@New_sound demo_unicode demo_definition demo_router ltac:(vm_compute; reflexivity))). Defined.

Lemma plan_refines_spec_witness :
  plan_spec demo_router "fast" [CapabilityTools] = Ok demo_plan ∧
  Router_Plan demo_router " fast" [CapabilityTools] = plan_spec demo_router "fast" [CapabilityTools].
Proof.
  split; [vm_compute; reflexivity|].
  exact (@plan_refines_spec demo_unicode demo_definition demo_router " fast" [CapabilityTools]
    ltac:(vm_compute; reflexivity)).
Defined.

Lemma plan_candidates_usable_witness :
  plan_RequestedModel demo_plan = TrimSpace " fast".
Proof.
  exact (proj1 (@plan_candidates_usable demo_unicode demo_definition demo_router " fast"
    [CapabilityTools] demo_plan demo_candidate ltac:(vm_compute; reflexivity)
    ltac:(vm_compute; reflexivity) ltac:(left))).
Defined.
