(* ===== verification/ChatContent.v ===== *)
(** * The content of chat messages

    Models [src/internal/provider/chat_content.go]: the content of a message is a
    string or an array of parts; each part is checked and brought into one form.
    The strict variant, for adapters that translate, refuses what it does not
    know. *)

From S2P Require Import Prelude Encoding Json Failure Sse.

(** [ErrInvalidRequest] itself, and wrapped with a message; an unsupported
    capability is always wrapped. *)
Definition invalid_request : GoErr := ESentinel ErrInvalidRequest.
Definition invalid_because : GoErr := EWrap (ESentinel ErrInvalidRequest).
Definition unsupported : GoErr := EWrap (ESentinel ErrUnsupportedCapability).

Definition absent (raw : string) : bool := (raw =? "")%string || (raw =? "null")%string.

(** [unknownFields]: the names of a JSON object that are not known, in order. *)
Definition unknownFields (fields : RawMap) (known : list string) : list string :=
  match fields with
  | None => []
  | Some m => sort_Strings (List.filter (λ name, negb (existsb (String.eqb name) known)) (map fst (map_to_list m)))
  end.

(** ** Base64 and data URLs

    [base64.StdEncoding]: quanta of four characters of the alphabet, the last one
    padded; line breaks are skipped. *)

Definition std_b64_char (c : Z) : bool :=
  ((65 <=? c) && (c <=? 90)) || ((97 <=? c) && (c <=? 122)) || ((48 <=? c) && (c <=? 57)) ||
  (c =? 43) || (c =? 47).

Fixpoint std_b64_quanta (l : list Z) : bool :=
  match l with
  | [] => true
  | [a; b; c; d] =>
      std_b64_char a && std_b64_char b &&
      ((std_b64_char c && (std_b64_char d || (d =? 61))) || ((c =? 61) && (d =? 61)))
  | a :: b :: c :: d :: rest =>
      std_b64_char a && std_b64_char b && std_b64_char c && std_b64_char d && std_b64_quanta rest
  | _ => false
  end.

Definition validBase64 (encoded : string) : bool :=
  std_b64_quanta (List.filter (λ c, negb (is_newline c)) (bytes_of encoded)).

(** [strings.Cut] at a character. *)
Fixpoint Cut (sep : ascii) (s : string) : option (string * string) :=
  match s with
  | EmptyString => None
  | String c rest =>
      if (c =? sep)%char then Some (""%string, rest)
      else '(before, after) ← Cut sep rest; Some (String c before, after)
  end.

Definition HasSuffix (s suffix : string) : bool :=
  let n := String.length s in let k := String.length suffix in
  (k <=? n)%nat && (String.substring (n - k) k s =? suffix)%string.
Definition TrimPrefix (s prefix : string) : string :=
  if HasPrefix s prefix
  then String.substring (String.length prefix) (String.length s - String.length prefix) s else s.
Definition TrimSuffix (s suffix : string) : string :=
  if HasSuffix s suffix then String.substring 0 (String.length s - String.length suffix) s else s.

(** The media type and the encoded data. *)
Definition parseDataURL (raw : string) : option (string * string) :=
  '(prefix, encoded) ← Cut "," raw;
  if negb (HasPrefix prefix "data:") || negb (HasSuffix prefix ";base64") then None
  else
    let mediaType := TrimSuffix (TrimPrefix prefix "data:") ";base64" in
    if (mediaType =? "")%string then None
    else if negb (validBase64 encoded) then None
    else Some (mediaType, encoded).

Definition base64Image (raw : string) : result GoErr (string * string) :=
  match parseDataURL raw with
  | Some image => Ok image
  | None => if HasPrefix (TrimSpace raw) "data:" then Err invalid_request else Err unsupported
  end.

(** ** Parts *)

(** [chatContentPart]: the fields that go with each [Type]. *)
Inductive chatContentPart :=
| TextPart (text : string)
| ImagePart (url detail : string)
| AudioPart (data format : string)
| FilePart (data id name : string).

Record ImageURL := { iu_URL : string; iu_Detail : string }.
Record InputAudio := { au_Data : string; au_Format : string }.
Record FileInput := { fi_Data : string; fi_ID : string; fi_Name : string }.
Record PartFields := {
  pf_Type : string;
  pf_Text : string;
  pf_Image : ImageURL;
  pf_Audio : InputAudio;
  pf_File : FileInput;
}.

Definition decode_image : decoder ImageURL := λ i raw,
  ms ← struct_members raw;
  url ← field "url" decode_string (iu_URL i) ms;
  detail ← field "detail" decode_string (iu_Detail i) ms;
  Some {| iu_URL := url; iu_Detail := detail |}.

Definition decode_audio : decoder InputAudio := λ a raw,
  ms ← struct_members raw;
  data ← field "data" decode_string (au_Data a) ms;
  format ← field "format" decode_string (au_Format a) ms;
  Some {| au_Data := data; au_Format := format |}.

Definition decode_file : decoder FileInput := λ f raw,
  ms ← struct_members raw;
  data ← field "file_data" decode_string (fi_Data f) ms;
  id ← field "file_id" decode_string (fi_ID f) ms;
  name ← field "filename" decode_string (fi_Name f) ms;
  Some {| fi_Data := data; fi_ID := id; fi_Name := name |}.

Definition decode_part (raw : string) : option PartFields :=
  ms ← struct_members raw;
  type ← field "type" decode_string ""%string ms;
  text ← field "text" decode_string ""%string ms;
  image ← field "image_url" decode_image {| iu_URL := ""; iu_Detail := "" |} ms;
  audio ← field "input_audio" decode_audio {| au_Data := ""; au_Format := "" |} ms;
  file ← field "file" decode_file {| fi_Data := ""; fi_ID := ""; fi_Name := "" |} ms;
  Some {| pf_Type := type; pf_Text := text; pf_Image := image; pf_Audio := audio; pf_File := file |}.

(** The fields a part may have, and those of the object nested in it. *)
Definition known_part_fields (partType : string) : list string :=
  if (partType =? "text")%string || (partType =? "input_text")%string then ["type"; "text"]%string
  else if (partType =? "image_url")%string || (partType =? "input_audio")%string || (partType =? "file")%string
  then ["type"%string; partType] else ["type"]%string.

Definition nested_fields (partType : string) : option (list string) :=
  if (partType =? "image_url")%string then Some ["url"; "detail"]%string
  else if (partType =? "input_audio")%string then Some ["data"; "format"]%string
  else if (partType =? "file")%string then Some ["file_data"; "file_id"; "filename"]%string
  else None.

Definition rejectUnknownContentFields (encoded partType : string) : option GoErr :=
  match decode_raw_map None encoded with
  | None | Some None => Some invalid_request
  | Some (Some fields) =>
      match unknownFields (Some fields) (known_part_fields partType) with
      | _ :: _ => Some unsupported
      | [] =>
          match nested_fields partType with
          | None => None
          | Some known =>
              match decode_raw_map None (raw_lookup (Some fields) partType) with
              | None | Some None => Some invalid_request
              | Some (Some nested) =>
                  match unknownFields (Some nested) known with _ :: _ => Some unsupported | [] => None end
              end
          end
      end
  end.

Section content.
Context `{Unicode}.

(** The checks on the fields of a part. *)
Definition content_part (part : PartFields) : result GoErr chatContentPart :=
  let partType := pf_Type part in
  if (partType =? "text")%string || (partType =? "input_text")%string then Ok (TextPart (pf_Text part))
  else if (partType =? "image_url")%string then
    let url := iu_URL (pf_Image part) in
    if (TrimSpace url =? "")%string then Err invalid_request
    else
      let detail := ToLower (TrimSpace (iu_Detail (pf_Image part))) in
      if negb (existsb (String.eqb detail) [""; "auto"; "low"; "high"]%string) then Err invalid_request
      else Ok (ImagePart url detail)
  else if (partType =? "input_audio")%string then
    let format := ToLower (TrimSpace (au_Format (pf_Audio part))) in
    let data := au_Data (pf_Audio part) in
    if (TrimSpace data =? "")%string || negb (existsb (String.eqb format) ["wav"; "mp3"]%string) ||
       negb (validBase64 data)
    then Err invalid_request else Ok (AudioPart data format)
  else if (partType =? "file")%string then
    let data := TrimSpace (fi_Data (pf_File part)) in
    let id := TrimSpace (fi_ID (pf_File part)) in
    if Bool.eqb (data =? "")%string (id =? "")%string then Err invalid_request
    else if negb (data =? "")%string && negb (isSome (parseDataURL data)) then Err invalid_request
    else Ok (FilePart data id (TrimSpace (fi_Name (pf_File part))))
  else Err unsupported.

Definition decode_content_part (rejectUnknown : bool) (encoded : string) : result GoErr chatContentPart :=
  match decode_part encoded with
  | None => Err invalid_request
  | Some part =>
      match (if rejectUnknown then rejectUnknownContentFields encoded (pf_Type part) else None) with
      | Some e => Err e
      | None => content_part part
      end
  end.

(** The first error in order. *)
Fixpoint collect_parts (rejectUnknown : bool) (encoded : list string) : result GoErr (list chatContentPart) :=
  match encoded with
  | [] => Ok []
  | e :: rest => part ← decode_content_part rejectUnknown e; parts ← collect_parts rejectUnknown rest;
                 Ok (part :: parts)
  end.

Definition decodeContentParts (raw : string) (rejectUnknown : bool) : result GoErr (list chatContentPart) :=
  let raw := TrimSpace raw in
  if absent raw then Err invalid_request
  else if isSome (strip quote_byte raw) then
    match decode_string "" raw with
    | None => Err invalid_request
    | Some text => Ok [TextPart text]
    end
  else
    match decode_slice ""%string decode_raw nil_slice raw with
    | None => Err invalid_request
    | Some encoded =>
        if bool_decide (sl_elems encoded = []) then Err invalid_request
        else collect_parts rejectUnknown (sl_elems encoded)
    end.

Definition decodeContent (raw : string) : result GoErr (list chatContentPart) := decodeContentParts raw false.
Definition decodeNativeContent (raw : string) : result GoErr (list chatContentPart) := decodeContentParts raw true.

(** [textContent]: the text of all parts. *)
Fixpoint join_text (parts : list chatContentPart) : result GoErr string :=
  match parts with
  | [] => Ok ""%string
  | TextPart text :: rest => more ← join_text rest; Ok (text ++ more)%string
  | _ :: _ => Err unsupported
  end.

Definition textContent (raw : string) : result GoErr string :=
  parts ← decodeNativeContent raw; join_text parts.

Definition rejectNativeImageDetail (detail : string) : option GoErr :=
  if (detail =? "")%string || (detail =? "auto")%string then None else Some unsupported.
End content.
