(* ===== verification/ChatRequest.v ===== *)
(** * Chat requests

    Models [src/internal/provider/chat_request.go] and
    [src/internal/provider/chat_tools.go]: reading the request of a client, the
    rules its tools and tool calls obey, the capabilities it needs from a
    provider, and what a native adapter refuses. The JSON bodies written for
    compatible upstreams are not modelled. *)

From Stdlib Require Import Floats.
From S2P Require Import Prelude Encoding Json Binary64 Failure Sse ChatContent Routing.

Open Scope Z_scope.

(** ** Numbers

    [*float64]: the literal's value rounded to the nearest float. *)

Fixpoint digits_from (v n : Z) (l : list Z) : Z * Z * list Z :=
  match l with
  | b :: r => if (48 <=? b) && (b <=? 57) then digits_from (v * 10 + (b - 48)) (n + 1) r else (v, n, l)
  | [] => (v, n, [])
  end.

(** Sign, digits and exponent of a number literal. *)
Definition number_parts (raw : string) : bool * Z * Z :=
  let l := bytes_of raw in
  let '(neg, l) := match l with 45 :: r => (true, r) | _ => (false, l) end in
  let '(whole, _, l) := digits_from 0 0 l in
  let '(mantissa, decimals, l) :=
    match l with 46 :: r => digits_from whole 0 r | _ => (whole, 0, l) end in
  let exponent :=
    match l with
    | _ :: 45 :: r => - (digits_from 0 0 r).1.1
    | _ :: 43 :: r | _ :: r => (digits_from 0 0 r).1.1
    | [] => 0
    end in
  (neg, mantissa, exponent - decimals).

Definition decode_float : decoder float := λ old raw,
  raw ← value_text raw;
  if (raw =? "null")%string then Some old
  else
    _ ← skip_number raw;
    let '(neg, mantissa, exponent) := number_parts raw in float_of_decimal neg mantissa exponent.

(** ** Data *)

Record ChatFunctionDefinition := {
  fd_Name : string;
  fd_Description : string;
  fd_Parameters : string;
  fd_Strict : option bool;
}.
Record ChatTool := { tool_Type : string; tool_Function : ChatFunctionDefinition }.

Record ChatFunctionCall := { fc_Name : string; fc_Arguments : string }.
Record ChatToolCall := { tc_ID : string; tc_Type : string; tc_Function : ChatFunctionCall }.

Record ChatMessage := {
  msg_Role : string;
  msg_Content : string;
  msg_Name : string;
  msg_ToolCallID : string;
  msg_ToolCalls : list ChatToolCall;
  msg_extraFields : list string;
}.

Record ChatRequest := {
  cq_Model : string;
  cq_Messages : list ChatMessage;
  cq_Stream : bool;
  cq_MaxTokens : option Z;
  cq_MaxCompletionTokens : option Z;
  cq_Temperature : option float;
  cq_TopP : option float;
  cq_Stop : string;
  cq_Tools : list ChatTool;
  cq_ToolChoice : string;
  cq_ParallelToolCalls : option bool;
  cq_ResponseFormat : string;
  cq_Seed : option Z;
  cq_FrequencyPenalty : option float;
  cq_PresencePenalty : option float;
  cq_N : option Z;
  cq_Logprobs : option bool;
  cq_TopLogprobs : option Z;
  cq_ReasoningEffort : string;
  cq_rawBody : string;
  cq_extraFields : list string;
}.

(** ** Decoding *)

Definition no_definition : ChatFunctionDefinition :=
  {| fd_Name := ""; fd_Description := ""; fd_Parameters := ""; fd_Strict := None |}.
Definition no_tool : ChatTool := {| tool_Type := ""; tool_Function := no_definition |}.
Definition no_function : ChatFunctionCall := {| fc_Name := ""; fc_Arguments := "" |}.
Definition no_tool_call : ChatToolCall := {| tc_ID := ""; tc_Type := ""; tc_Function := no_function |}.

Definition decode_definition : decoder ChatFunctionDefinition := λ d raw,
  ms ← struct_members raw;
  name ← field "name" decode_string (fd_Name d) ms;
  description ← field "description" decode_string (fd_Description d) ms;
  parameters ← field "parameters" decode_raw (fd_Parameters d) ms;
  strict ← field "strict" (decode_ptr false decode_bool) (fd_Strict d) ms;
  Some {| fd_Name := name; fd_Description := description; fd_Parameters := parameters; fd_Strict := strict |}.

Definition decode_tool : decoder ChatTool := λ t raw,
  ms ← struct_members raw;
  type ← field "type" decode_string (tool_Type t) ms;
  function ← field "function" decode_definition (tool_Function t) ms;
  Some {| tool_Type := type; tool_Function := function |}.

Definition decode_function : decoder ChatFunctionCall := λ f raw,
  ms ← struct_members raw;
  name ← field "name" decode_string (fc_Name f) ms;
  arguments ← field "arguments" decode_string (fc_Arguments f) ms;
  Some {| fc_Name := name; fc_Arguments := arguments |}.

Definition decode_tool_call : decoder ChatToolCall := λ c raw,
  ms ← struct_members raw;
  id ← field "id" decode_string (tc_ID c) ms;
  type ← field "type" decode_string (tc_Type c) ms;
  function ← field "function" decode_function (tc_Function c) ms;
  Some {| tc_ID := id; tc_Type := type; tc_Function := function |}.

(** A message while it is decoded: its tool calls are a slice. *)
Record MessageFields := {
  mf_Role : string;
  mf_Content : string;
  mf_Name : string;
  mf_ToolCallID : string;
  mf_ToolCalls : Slice ChatToolCall;
}.
Definition no_message : MessageFields :=
  {| mf_Role := ""; mf_Content := ""; mf_Name := ""; mf_ToolCallID := ""; mf_ToolCalls := nil_slice |}.

Definition decode_message : decoder MessageFields := λ m raw,
  ms ← struct_members raw;
  role ← field "role" decode_string (mf_Role m) ms;
  content ← field "content" decode_raw (mf_Content m) ms;
  name ← field "name" decode_string (mf_Name m) ms;
  id ← field "tool_call_id" decode_string (mf_ToolCallID m) ms;
  calls ← field "tool_calls" (decode_slice no_tool_call decode_tool_call) (mf_ToolCalls m) ms;
  Some {| mf_Role := role; mf_Content := content; mf_Name := name; mf_ToolCallID := id;
          mf_ToolCalls := calls |}.

Definition message_of (extra : list string) (m : MessageFields) : ChatMessage :=
  {| msg_Role := mf_Role m; msg_Content := mf_Content m; msg_Name := mf_Name m;
     msg_ToolCallID := mf_ToolCallID m; msg_ToolCalls := sl_elems (mf_ToolCalls m);
     msg_extraFields := extra |}.

Definition known_fields : list string :=
  ["model"; "messages"; "stream"; "max_tokens"; "max_completion_tokens"; "temperature"; "top_p"; "stop";
   "tools"; "tool_choice"; "parallel_tool_calls"; "response_format"; "seed"; "frequency_penalty";
   "presence_penalty"; "n"; "logprobs"; "top_logprobs"; "reasoning_effort"]%string.
Definition known_message_fields : list string :=
  ["role"; "content"; "name"; "tool_call_id"; "tool_calls"]%string.

(** [json.Unmarshal(body, &request)], with the messages as they are decoded. *)
Definition json_request (body : string) (extra : list string) : option (ChatRequest * list MessageFields) :=
  ms ← struct_members body;
  model ← field "model" decode_string ""%string ms;
  messages ← field "messages" (decode_slice no_message decode_message) nil_slice ms;
  stream ← field "stream" decode_bool false ms;
  maxTokens ← field "max_tokens" (decode_ptr 0 decode_int) None ms;
  maxCompletion ← field "max_completion_tokens" (decode_ptr 0 decode_int) None ms;
  temperature ← field "temperature" (decode_ptr 0%float decode_float) None ms;
  topP ← field "top_p" (decode_ptr 0%float decode_float) None ms;
  stop ← field "stop" decode_raw ""%string ms;
  tools ← field "tools" (decode_slice no_tool decode_tool) nil_slice ms;
  choice ← field "tool_choice" decode_raw ""%string ms;
  parallel ← field "parallel_tool_calls" (decode_ptr false decode_bool) None ms;
  format ← field "response_format" decode_raw ""%string ms;
  seed ← field "seed" (decode_ptr 0 decode_int) None ms;
  frequency ← field "frequency_penalty" (decode_ptr 0%float decode_float) None ms;
  presence ← field "presence_penalty" (decode_ptr 0%float decode_float) None ms;
  n ← field "n" (decode_ptr 0 decode_int) None ms;
  logprobs ← field "logprobs" (decode_ptr false decode_bool) None ms;
  topLogprobs ← field "top_logprobs" (decode_ptr 0 decode_int) None ms;
  effort ← field "reasoning_effort" decode_string ""%string ms;
  Some ({| cq_Model := model; cq_Messages := []; cq_Stream := stream; cq_MaxTokens := maxTokens;
           cq_MaxCompletionTokens := maxCompletion; cq_Temperature := temperature; cq_TopP := topP;
           cq_Stop := stop; cq_Tools := sl_elems tools; cq_ToolChoice := choice;
           cq_ParallelToolCalls := parallel; cq_ResponseFormat := format; cq_Seed := seed;
           cq_FrequencyPenalty := frequency; cq_PresencePenalty := presence; cq_N := n;
           cq_Logprobs := logprobs; cq_TopLogprobs := topLogprobs; cq_ReasoningEffort := effort;
           cq_rawBody := body; cq_extraFields := extra |}, sl_elems messages).

Definition with_messages (r : ChatRequest) (model : string) (messages : list ChatMessage) : ChatRequest :=
  let 'Build_ChatRequest _ _ stream maxTokens maxCompletion temperature topP stop tools choice parallel
         format seed frequency presence n logprobs topLogprobs effort raw extra := r in
  Build_ChatRequest model messages stream maxTokens maxCompletion temperature topP stop tools choice
    parallel format seed frequency presence n logprobs topLogprobs effort raw extra.

(** ** Checks *)

Definition decodeStop (raw : string) : result GoErr (list string) :=
  let raw := TrimSpace raw in
  if absent raw then Ok []
  else if isSome (strip quote_byte raw) then
    match decode_string "" raw with Some value => Ok [value] | None => Err invalid_request end
  else
    match decode_slice ""%string decode_string nil_slice raw with
    | Some values => Ok (sl_elems values)
    | None => Err invalid_request
    end.

Definition validateJSONObject (raw : string) (allowEmpty : bool) : bool :=
  let raw := TrimSpace raw in
  if allowEmpty && absent raw then true
  else if negb (isSome (strip "{" raw)) then false
  else match decode_raw_map None raw with Some (Some _) => true | _ => false end.

Definition validateJSONStringObject (value : string) : bool :=
  let raw := TrimSpace value in
  validateJSONObject (if (raw =? "")%string then "{}"%string else raw) false.

Definition toolArgumentsObject (arguments : string) : result GoErr string :=
  let arguments := TrimSpace arguments in
  if (arguments =? "")%string then Ok "{}"%string
  else if validateJSONStringObject arguments then Ok arguments else Err invalid_request.

Record toolChoice := { choice_Mode : string; choice_Name : string }.
Definition no_choice_mode : toolChoice := {| choice_Mode := ""; choice_Name := "" |}.

Definition decode_choice_object (raw : string) : option (string * string) :=
  ms ← struct_members raw;
  type ← field "type" decode_string ""%string ms;
  name ← field "function" (λ old raw, ms ← struct_members raw; field "name" decode_string old ms) ""%string ms;
  Some (type, name).

Record responseFormat := {
  rf_Type : string;
  rf_Name : string;
  rf_Description : string;
  rf_Schema : string;
  rf_Strict : option bool;
}.
Definition plain_format (type : string) : responseFormat :=
  {| rf_Type := type; rf_Name := ""; rf_Description := ""; rf_Schema := ""; rf_Strict := None |}.

(** Type and [json_schema] of a response format; the type of the schema is not
    read. *)
Definition decode_schema : decoder responseFormat := λ s raw,
  ms ← struct_members raw;
  name ← field "name" decode_string (rf_Name s) ms;
  description ← field "description" decode_string (rf_Description s) ms;
  schema ← field "schema" decode_raw (rf_Schema s) ms;
  strict ← field "strict" (decode_ptr false decode_bool) (rf_Strict s) ms;
  Some {| rf_Type := ""; rf_Name := name; rf_Description := description; rf_Schema := schema;
          rf_Strict := strict |}.

Definition decode_format (raw : string) : option (string * responseFormat) :=
  ms ← struct_members raw;
  type ← field "type" decode_string ""%string ms;
  schema ← field "json_schema" decode_schema (plain_format "") ms;
  Some (type, schema).

Section checks.
Context `{Unicode}.

Definition decodeToolChoice (raw : string) : result GoErr toolChoice :=
  let raw := TrimSpace raw in
  if absent raw then Ok no_choice_mode
  else if isSome (strip quote_byte raw) then
    match decode_string "" raw with
    | None => Err invalid_request
    | Some mode =>
        let mode := ToLower (TrimSpace mode) in
        if existsb (String.eqb mode) ["none"; "auto"; "required"]%string
        then Ok {| choice_Mode := mode; choice_Name := "" |} else Err invalid_because
    end
  else
    match decode_choice_object raw with
    | None => Err invalid_because
    | Some (type, name) =>
        if negb (TrimSpace type =? "function")%string || (TrimSpace name =? "")%string
        then Err invalid_because
        else Ok {| choice_Mode := "function"; choice_Name := TrimSpace name |}
    end.

Definition decodeResponseFormat (raw : string) : result GoErr responseFormat :=
  let raw := TrimSpace raw in
  if absent raw then Ok (plain_format "")
  else
    match decode_format raw with
    | None => Err invalid_request
    | Some (type, schema) =>
        let type := ToLower (TrimSpace type) in
        if (type =? "text")%string || (type =? "json_object")%string then Ok (plain_format type)
        else if (type =? "json_schema")%string then
          if (TrimSpace (rf_Name schema) =? "")%string then Err invalid_because
          else if negb (validateJSONObject (rf_Schema schema) false) then Err invalid_because
          else Ok {| rf_Type := type; rf_Name := TrimSpace (rf_Name schema);
                     rf_Description := rf_Description schema; rf_Schema := rf_Schema schema;
                     rf_Strict := rf_Strict schema |}
        else Err invalid_because
    end.

(** *** Tools *)

Definition valid_tool (tool : ChatTool) : bool :=
  (TrimSpace (tool_Type tool) =? "function")%string &&
  negb (TrimSpace (fd_Name (tool_Function tool)) =? "")%string &&
  validateJSONObject (fd_Parameters (tool_Function tool)) true.

(** The names, each once. *)
Fixpoint tool_names (tools : list ChatTool) (names : gset string) : option (gset string) :=
  match tools with
  | [] => Some names
  | tool :: rest =>
      let name := fd_Name (tool_Function tool) in
      if valid_tool tool && negb (bool_decide (name ∈ names)) then tool_names rest ({[name]} ∪ names) else None
  end.

Definition valid_tool_call (call : ChatToolCall) : bool :=
  negb (TrimSpace (tc_ID call) =? "")%string && (TrimSpace (tc_Type call) =? "function")%string &&
  negb (TrimSpace (fc_Name (tc_Function call)) =? "")%string &&
  validateJSONStringObject (fc_Arguments (tc_Function call)).

Fixpoint add_calls (calls : list ChatToolCall) (pending : gset string) : option (gset string) :=
  match calls with
  | [] => Some pending
  | call :: rest =>
      if valid_tool_call call && negb (bool_decide (tc_ID call ∈ pending))
      then add_calls rest ({[tc_ID call]} ∪ pending) else None
  end.

(** [priorToolName] over the messages before, the latest first. *)
Fixpoint priorToolName (before : list ChatMessage) (toolCallID : string) : string :=
  match before with
  | [] => ""
  | message :: rest =>
      match List.find (λ call, (tc_ID call =? toolCallID)%string) (msg_ToolCalls message) with
      | Some call => fc_Name (tc_Function call)
      | None => priorToolName rest toolCallID
      end
  end.

(** One message: which calls are pending after it. *)
Definition check_message (before : list ChatMessage) (message : ChatMessage) (pending : gset string)
  : option (gset string) :=
  let tool := (msg_Role message =? "tool")%string in
  if negb (msg_ToolCallID message =? "")%string && negb tool then None
  else if tool && (TrimSpace (msg_ToolCallID message) =? "")%string then None
  else if negb (bool_decide (msg_ToolCalls message = [])) && negb (msg_Role message =? "assistant")%string then None
  else
    pending ← add_calls (msg_ToolCalls message) pending;
    if negb tool then Some pending
    else if negb (bool_decide (msg_ToolCallID message ∈ pending)) then None
    else
      let name := priorToolName before (msg_ToolCallID message) in
      if negb (msg_Name message =? "")%string && ((name =? "")%string || negb (name =? msg_Name message)%string)
      then None else Some (pending ∖ {[msg_ToolCallID message]}).

Fixpoint check_messages (before messages : list ChatMessage) (pending : gset string) : option (gset string) :=
  match messages with
  | [] => Some pending
  | message :: rest => pending ← check_message before message pending; check_messages (message :: before) rest pending
  end.

Definition validateToolRequest (request : ChatRequest) : option GoErr :=
  match tool_names (cq_Tools request) ∅ with
  | None => Some invalid_because
  | Some names =>
      match decodeToolChoice (cq_ToolChoice request) with
      | Err e => Some e
      | Ok choice =>
          let mode := choice_Mode choice in
          if negb (mode =? "")%string && negb (mode =? "none")%string && bool_decide (cq_Tools request = [])
          then Some invalid_because
          else if (mode =? "function")%string && negb (bool_decide (choice_Name choice ∈ names))
          then Some invalid_because
          else match check_messages [] (cq_Messages request) ∅ with
               | Some _ => None
               | None => Some invalid_because
               end
      end
  end.

(** *** Generation *)

Definition positive_int (value : option Z) : bool := match value with Some v => negb (v <? 1) | None => true end.
Definition within (low high : float) (value : option float) : bool :=
  match value with Some v => negb ((v <? low) || (high <? v))%float | None => true end.

(** All errors are the same sentinel with another message. *)
Definition validateGenerationFields (request : ChatRequest) : option GoErr :=
  if positive_int (cq_MaxTokens request) && positive_int (cq_MaxCompletionTokens request) &&
     positive_int (cq_N request) && within 0 2 (cq_Temperature request) && within 0 1 (cq_TopP request) &&
     within (-2) 2 (cq_FrequencyPenalty request) && within (-2) 2 (cq_PresencePenalty request) &&
     match cq_TopLogprobs request with
     | Some top => negb ((top <? 0) || (20 <? top)) && bool_decide (cq_Logprobs request = Some true)
     | None => true
     end
  then None else Some invalid_because.

(** ** Reading a request

    [None] is a panic: an index out of range in [encodedMessages]. *)

Fixpoint attach_extra (messages : list MessageFields) (encoded : list RawMap) : option (list ChatMessage) :=
  match messages, encoded with
  | [], _ => Some []
  | m :: messages, fields :: encoded =>
      rest ← attach_extra messages encoded;
      Some (message_of (unknownFields fields known_message_fields) m :: rest)
  | _ :: _, [] => None
  end.

Definition first_err (checks : list (option GoErr)) : option GoErr := head (omap id checks).

Definition check_request (request : ChatRequest) : option GoErr :=
  first_err
    [match decodeStop (cq_Stop request) with Err e => Some e | Ok _ => None end;
     validateToolRequest request;
     match decodeResponseFormat (cq_ResponseFormat request) with Err e => Some e | Ok _ => None end;
     validateGenerationFields request].

Definition ParseChatRequest (body : string) : option (result GoErr ChatRequest) :=
  match decode_raw_map None body with
  | None | Some None => Some (Err invalid_request)
  | Some (Some fields) =>
      match json_request body (unknownFields (Some fields) known_fields) with
      | None => Some (Err invalid_request)
      | Some (request, messages) =>
          match
            match fields !! "messages"%string with
            | Some raw => decode_slice None decode_raw_map nil_slice raw
            | None => Some nil_slice
            end
          with
          | None => Some (Err invalid_request)
          | Some encoded =>
              messages ← attach_extra messages (sl_elems encoded);
              let request := with_messages request (cq_Model request) messages in
              Some (match check_request request with Some e => Err e | None => Ok request end)
          end
      end
  end.

(** ** Capabilities *)

Definition part_capability (part : chatContentPart) : option Capability :=
  match part with
  | TextPart _ => None
  | ImagePart _ _ => Some CapabilityImage
  | AudioPart _ _ => Some CapabilityAudio
  | FilePart _ _ _ => Some CapabilityFile
  end.

Definition uses_tools (message : ChatMessage) : bool :=
  (msg_Role message =? "tool")%string || negb (bool_decide (msg_ToolCalls message = [])) ||
  negb (msg_ToolCallID message =? "")%string.

Definition tool_only (message : ChatMessage) : bool :=
  absent (TrimSpace (msg_Content message)) && negb (bool_decide (msg_ToolCalls message = [])).

(** What one message requires. *)
Definition message_capabilities (message : ChatMessage) : result GoErr (list Capability) :=
  let tools := if uses_tools message then [CapabilityTools] else [] in
  if tool_only message then Ok tools
  else parts ← decodeContent (msg_Content message); Ok (tools ++ omap part_capability parts).

Fixpoint messages_capabilities (messages : list ChatMessage) : result GoErr (list Capability) :=
  match messages with
  | [] => Ok []
  | m :: rest => c ← message_capabilities m; cs ← messages_capabilities rest; Ok (c ++ cs)
  end.

Definition capability_order : list Capability :=
  [CapabilityText; CapabilityImage; CapabilityAudio; CapabilityFile; CapabilityTools; CapabilityStructured].

Definition RequiredCapabilities (request : ChatRequest) : result GoErr (list Capability) :=
  format ← decodeResponseFormat (cq_ResponseFormat request);
  used ← messages_capabilities (cq_Messages request);
  let tools := if negb (bool_decide (cq_Tools request = [])) || valuePresent (cq_ToolChoice request)
               then [CapabilityTools] else [] in
  let structured := if (rf_Type format =? "json_object")%string || (rf_Type format =? "json_schema")%string
                    then [CapabilityStructured] else [] in
  let required := CapabilityText :: tools ++ structured ++ used in
  Ok (List.filter (λ c, bool_decide (c ∈ required)) capability_order).

(** ** Native adapters *)

Record nativeRequestSupport := {
  sup_tools : bool;
  sup_structured : bool;
  sup_seed : bool;
  sup_penalties : bool;
  sup_candidates : bool;
  sup_logprobs : bool;
  sup_reasoning : bool;
  sup_developer : bool;
  sup_messageName : bool;
  sup_toolName : bool;
}.

(** [true]: the field is used and not supported. *)
Definition support_missing (s : nativeRequestSupport) (request : ChatRequest) : bool :=
  let effort := ToLower (TrimSpace (cq_ReasoningEffort request)) in
  (negb (bool_decide (cq_Tools request = [])) || valuePresent (cq_ToolChoice request)) && negb (sup_tools s) ||
  valuePresent (cq_ResponseFormat request) && negb (sup_structured s) ||
  isSome (cq_Seed request) && negb (sup_seed s) ||
  (isSome (cq_FrequencyPenalty request) || isSome (cq_PresencePenalty request)) && negb (sup_penalties s) ||
  match cq_N request with Some n => negb (n =? 1) | None => false end && negb (sup_candidates s) ||
  (bool_decide (cq_Logprobs request = Some true) || isSome (cq_TopLogprobs request)) && negb (sup_logprobs s) ||
  negb (effort =? "")%string && negb (effort =? "none")%string && negb (sup_reasoning s).

Definition support_validate (s : nativeRequestSupport) (request : ChatRequest) : option GoErr :=
  if support_missing s request then Some unsupported else None.

Definition role_supported (s : nativeRequestSupport) (role : string) : bool :=
  existsb (String.eqb role) ["system"; "user"; "assistant"]%string ||
  (role =? "developer")%string && sup_developer s || (role =? "tool")%string && sup_tools s.

Definition native_message (s : nativeRequestSupport) (message : ChatMessage) : bool :=
  let role := msg_Role message in
  bool_decide (msg_extraFields message = []) && role_supported s role &&
  ((bool_decide (msg_ToolCalls message = []) && (msg_ToolCallID message =? "")%string) || sup_tools s) &&
  ((msg_Name message =? "")%string || sup_messageName s || (role =? "tool")%string && sup_toolName s).

Definition decodeChatRequest (request : ChatRequest) (modelOverride : string) : result GoErr ChatRequest :=
  let model := TrimSpace (if (modelOverride =? "")%string then cq_Model request else modelOverride) in
  if (model =? "")%string || bool_decide (cq_Messages request = []) then Err invalid_request
  else Ok (with_messages request model (cq_Messages request)).

Definition decodeNativeChatRequest (request : ChatRequest) (modelOverride : string) (s : nativeRequestSupport)
  : result GoErr ChatRequest :=
  request ← decodeChatRequest request modelOverride;
  if negb (bool_decide (cq_extraFields request = [])) then Err unsupported
  else match support_validate s request with
       | Some e => Err e
       | None => if forallb (native_message s) (cq_Messages request) then Ok request else Err unsupported
       end.

Definition is_instruction (message : ChatMessage) : bool :=
  (msg_Role message =? "system")%string || (msg_Role message =? "developer")%string.

Fixpoint leading_instructions (started : bool) (messages : list ChatMessage) : bool :=
  match messages with
  | [] => true
  | m :: rest =>
      if is_instruction m then negb started && leading_instructions started rest
      else leading_instructions true rest
  end.

Definition requireLeadingInstructions (request : ChatRequest) : option GoErr :=
  if leading_instructions false (cq_Messages request) then None else Some unsupported.
End checks.

Definition hasAnyField (fields names : list string) : bool :=
  existsb (λ field, existsb (String.eqb field) names) fields.
Definition HasField (message : ChatMessage) (name : string) : bool := hasAnyField (msg_extraFields message) [name].

Definition requestedMaxTokens (request : ChatRequest) (fallback : Z) : Z :=
  match cq_MaxCompletionTokens request, cq_MaxTokens request with
  | Some n, _ => n
  | None, Some n => n
  | None, None => fallback
  end.

(** ** Tool calls and their answers *)

Definition answers (message : ChatMessage) (x : string) : Prop :=
  msg_Role message = "tool"%string ∧ msg_ToolCallID message = x.

(** The call of identifier [x] that is not answered yet, over the messages before,
    the latest first. *)
Fixpoint open_call (before : list ChatMessage) (x : string) : option ChatToolCall :=
  match before with
  | [] => None
  | m :: rest =>
      match List.find (λ call, (tc_ID call =? x)%string) (msg_ToolCalls m) with
      | Some call => Some call
      | None =>
          if (msg_Role m =? "tool")%string && (msg_ToolCallID m =? x)%string then None else open_call rest x
      end
  end.

Lemma open_call_name before x call :
  open_call before x = Some call → priorToolName before x = fc_Name (tc_Function call).
Proof.
  induction before as [|m rest IH]; [done|]. cbn.
  destruct (List.find _ (msg_ToolCalls m)); [by intros [= <-]|]. by destruct (_ && _).
Qed.

(** By position: issued by an earlier message, and not answered in between. *)
Lemma open_call_position pre x call :
  open_call (rev pre) x = Some call →
  ∃ j m, pre !! j = Some m ∧ call ∈ msg_ToolCalls m ∧ tc_ID call = x ∧
    ∀ k m', (j < k)%nat → pre !! k = Some m' → ¬ answers m' x.
Proof.
  induction pre as [|m pre IH] using rev_ind; [done|]. rewrite rev_app_distr. cbn [rev app open_call].
  destruct (List.find _ (msg_ToolCalls m)) as [c|] eqn:Hf.
  - intros [= ->]. apply List.find_some in Hf as [Hin Hid%String.eqb_eq].
    exists (length pre), m. rewrite lookup_app_r, Nat.sub_diag by lia. split_and!; try done.
    + by apply list_elem_of_In.
    + intros k m' Hk Hm'. apply lookup_lt_Some in Hm'. rewrite length_app in Hm'. cbn in Hm'. lia.
  - destruct (_ && _) eqn:Hans; [done|]. intros Ho. destruct (IH Ho) as (j & m' & Hj & Hin & Hid & Hno).
    exists j, m'. split_and!; try done; [by apply lookup_app_l_Some|].
    intros k m'' Hk Hm''. destruct (decide (k < length pre)%nat).
    + rewrite lookup_app_l in Hm'' by done. by eapply Hno.
    + assert (k = length pre) as ->.
      { apply lookup_lt_Some in Hm''. rewrite length_app in Hm''. cbn in Hm''. lia. }
      rewrite lookup_app_r, Nat.sub_diag in Hm'' by lia. injection Hm'' as <-. intros [Hr Hi].
      rewrite Hr, Hi, !String.eqb_refl in Hans. done.
Qed.

Lemma add_calls_spec calls pending pending' :
  add_calls calls pending = Some pending' →
  Forall (λ c, valid_tool_call c = true) calls ∧
  ∀ x, x ∈ pending' ↔ x ∈ pending ∨ isSome (List.find (λ c, (tc_ID c =? x)%string) calls) = true.
Proof.
  revert pending. induction calls as [|c calls IH]; intros pending; cbn.
  - intros [= <-]. split; [constructor|]. intros x. intuition discriminate.
  - destruct (valid_tool_call c && _) eqn:Hc; [|done]. apply andb_true_iff in Hc as [Hv _].
    intros (Hall & Hx)%IH. split; [by constructor|]. intros x. rewrite Hx.
    destruct (String.eqb_spec (tc_ID c) x) as [<-|Hne]; cbn; set_solver.
Qed.

(** The answer of a tool message to the call it names. *)
Definition answer_ok (before : list ChatMessage) (message : ChatMessage) : Prop :=
  Forall (λ c, valid_tool_call c = true) (msg_ToolCalls message) ∧
  (msg_ToolCalls message ≠ [] → msg_Role message = "assistant"%string) ∧
  (msg_ToolCallID message ≠ ""%string → msg_Role message = "tool"%string) ∧
  (msg_Role message = "tool"%string →
   ∃ call, open_call before (msg_ToolCallID message) = Some call ∧
     (msg_Name message = ""%string ∨ msg_Name message = fc_Name (tc_Function call))).

Definition pending_ok (before : list ChatMessage) (pending : gset string) : Prop :=
  ∀ x, x ∈ pending → ∃ call, open_call before x = Some call.

Lemma check_message_ok before message pending pending' :
  pending_ok before pending → check_message before message pending = Some pending' →
  answer_ok before message ∧ pending_ok (message :: before) pending'.
Proof.
  intros Hp. unfold check_message.
  destruct (negb (msg_ToolCallID message =? "")%string && _) eqn:Hid; [done|].
  destruct ((msg_Role message =? "tool")%string && _) eqn:Hno; [done|].
  destruct (negb (bool_decide _) && _) eqn:Hcalls; [done|].
  intros (added & Hadd & Hc)%bind_Some. apply add_calls_spec in Hadd as [Hall Hadd].
  assert (msg_ToolCalls message ≠ [] → msg_Role message = "assistant"%string) as Hrole.
  { intros Hne. rewrite bool_decide_false in Hcalls by done. cbn in Hcalls.
    by apply negb_false_iff, String.eqb_eq in Hcalls. }
  assert (msg_ToolCallID message ≠ ""%string → msg_Role message = "tool"%string) as Htool.
  { intros Hne%String.eqb_neq. rewrite Hne in Hid. by apply negb_false_iff, String.eqb_eq in Hid. }
  destruct (String.eqb_spec (msg_Role message) "tool") as [Hr|Hr]; cbn [negb] in Hc.
  - assert (msg_ToolCalls message = []) as Hnil.
    { destruct (msg_ToolCalls message); [done|]. specialize (Hrole ltac:(done)). congruence. }
    destruct (bool_decide (_ ∈ added)) eqn:Hin; cbn in Hc; [|done]. apply bool_decide_eq_true in Hin.
    apply Hadd in Hin as [Hin|Hin]; [|by rewrite Hnil in Hin].
    destruct (Hp _ Hin) as (call & Hopen). pose proof (open_call_name _ _ _ Hopen) as Hname.
    destruct (_ && (_ || _)) eqn:Hn in Hc; [done|]. injection Hc as <-. split.
    + split_and!; try done. intros _. exists call. split; [done|]. rewrite Hname in Hn.
      destruct (String.eqb_spec (msg_Name message) ""); [by left|]. right. cbn in Hn.
      apply orb_false_iff in Hn as [_ Hn]. by apply negb_false_iff, String.eqb_eq in Hn.
    + intros x [Hx Hne]%elem_of_difference. apply Hadd in Hx as [Hx|Hx]; [|by rewrite Hnil in Hx].
      cbn. rewrite Hnil. cbn. rewrite (proj2 (String.eqb_neq _ x)) by set_solver.
      rewrite andb_false_r. by apply Hp.
  - injection Hc as <-. split; [split_and!; try done; by intros ?|]. intros x Hx. cbn.
    destruct (List.find _ (msg_ToolCalls message)) as [c|] eqn:Hf; [by eexists|].
    rewrite (proj2 (String.eqb_neq _ _)) by done. apply Hp. apply Hadd in Hx as [|Hx]; [done|]. by rewrite Hf in Hx.
Qed.

Lemma check_messages_ok before messages pending pending' :
  pending_ok before pending → check_messages before messages pending = Some pending' →
  ∀ pre m post, messages = pre ++ m :: post → answer_ok (rev pre ++ before) m.
Proof.
  revert before pending. induction messages as [|message rest IH]; intros before pending Hp.
  - intros _ pre m post Heq. by destruct pre.
  - cbn. intros (p & Hm & Hrest)%bind_Some pre m post Heq.
    destruct (check_message_ok _ _ _ _ Hp Hm) as [Hok Hp'].
    destruct pre as [|m' pre]; injection Heq as <- Heq; [done|]. cbn [rev]. rewrite <-app_assoc.
    by eapply IH.
Qed.

Lemma tool_names_spec tools names all :
  tool_names tools names = Some all →
  Forall (λ t, valid_tool t = true) tools ∧
  NoDup (map (λ t, fd_Name (tool_Function t)) tools) ∧
  (∀ t, t ∈ tools → fd_Name (tool_Function t) ∉ names) ∧
  (∀ x, x ∈ all ↔ x ∈ names ∨ ∃ t, t ∈ tools ∧ fd_Name (tool_Function t) = x).
Proof.
  revert names. induction tools as [|t tools IH]; intros names; cbn.
  - intros [= <-]. split_and!; [constructor|constructor|intros t Ht; by apply not_elem_of_nil in Ht|].
    intros x. split; [by left|]. intros [?|(t & Ht & _)]; [done|]. by apply not_elem_of_nil in Ht.
  - destruct (valid_tool t && _) eqn:Ht; [|done]. apply andb_true_iff in Ht as [Hv Hn].
    apply negb_true_iff, bool_decide_eq_false in Hn. intros (Hall & Hdup & Hnot & Hx)%IH.
    split_and!.
    + by constructor.
    + constructor; [|done]. intros Hin. apply list_elem_of_fmap in Hin as (t' & Heq & Hin).
      apply (Hnot t' Hin). rewrite <-Heq. set_solver.
    + intros t' [->|Hin]%elem_of_cons; [done|]. specialize (Hnot t' Hin). set_solver.
    + intros x. rewrite Hx. split.
      * intros [Hin|(t' & Hin & <-)]; [|right; exists t'; split; [by right | done]].
        apply elem_of_union in Hin as [Hin|Hin]; [|by left]. apply elem_of_singleton in Hin as ->.
        right. exists t. split; [by left | done].
      * intros [Hin|(t' & [->|Hin]%elem_of_cons & <-)]; [left; set_solver|left; set_solver|].
        right. by exists t'.
Qed.

(** ** What an accepted request satisfies *)

Section accepted.
Context `{Unicode}.

Lemma parsed_checked body r :
  ParseChatRequest body = Some (Ok r) → check_request r = None.
Proof.
  unfold ParseChatRequest. destruct (decode_raw_map None body) as [[fields|]|]; try done.
  destruct (json_request _ _) as [[request messages]|]; [|done].
  destruct (match fields !! _ with Some _ => _ | None => _ end) as [encoded|]; [|done].
  intros (ms & _ & Hr)%bind_Some. cbn in Hr. destruct (check_request _) eqn:Hc in Hr; [done|].
  injection Hr as <-. done.
Qed.

Lemma first_err_none checks : first_err checks = None → Forall (λ c, c = None) checks.
Proof.
  unfold first_err. induction checks as [|[e|] checks IH]; cbn; [done|done|]. intros Hc. by constructor; auto.
Qed.

Lemma validateToolRequest_ok r :
  validateToolRequest r = None →
  (∃ names, tool_names (cq_Tools r) ∅ = Some names ∧
     ∃ choice, decodeToolChoice (cq_ToolChoice r) = Ok choice ∧
       (choice_Mode choice ≠ ""%string → choice_Mode choice ≠ "none"%string → cq_Tools r ≠ []) ∧
       (choice_Mode choice = "function"%string → choice_Name choice ∈ names)) ∧
  ∃ pending, check_messages [] (cq_Messages r) ∅ = Some pending.
Proof.
  unfold validateToolRequest. destruct (tool_names _ _) as [names|]; [|done].
  destruct (decodeToolChoice _) as [choice|]; [|done].
  cbn zeta. destruct (negb _ && negb _ && _) eqn:Hmode; [done|].
  destruct ((_ =? "function")%string && _) eqn:Hname; [done|].
  destruct (check_messages _ _ _) as [pending|]; [|done]. intros _. split; [|by eexists].
  exists names. split; [done|]. exists choice. split; [done|]. split.
  - intros H1%String.eqb_neq H2%String.eqb_neq. rewrite H1, H2 in Hmode. cbn in Hmode.
    by apply bool_decide_eq_false in Hmode.
  - intros Hm. rewrite Hm in Hname. cbn in Hname. apply negb_false_iff in Hname.
    by apply bool_decide_eq_true in Hname.
Qed.

(** C15: a request that is accepted is well formed, whatever the client sent. Its tools
    are functions with distinct names and an object for parameters; a named
    [tool_choice] is one of them; every tool message answers, once, a call that an
    earlier assistant message made and that no message in between answered, under
    the name that was called; token limits and counts are positive and the
    sampling parameters within their ranges. *)
Theorem parsed_request_valid body r :
  ParseChatRequest body = Some (Ok r) →
  (Forall (λ t, valid_tool t = true) (cq_Tools r) ∧
   NoDup (map (λ t, fd_Name (tool_Function t)) (cq_Tools r))) ∧
  (∃ choice, decodeToolChoice (cq_ToolChoice r) = Ok choice ∧
     (choice_Mode choice = "function"%string →
        ∃ t, t ∈ cq_Tools r ∧ fd_Name (tool_Function t) = choice_Name choice)) ∧
  (∀ i m, cq_Messages r !! i = Some m → msg_Role m = "tool"%string →
     ∃ j m' call, (j < i)%nat ∧ cq_Messages r !! j = Some m' ∧ msg_Role m' = "assistant"%string ∧
       call ∈ msg_ToolCalls m' ∧ tc_ID call = msg_ToolCallID m ∧
       (msg_Name m = ""%string ∨ msg_Name m = fc_Name (tc_Function call)) ∧
       ∀ k m'', (j < k < i)%nat → cq_Messages r !! k = Some m'' → ¬ answers m'' (msg_ToolCallID m)) ∧
  (∀ n, cq_MaxTokens r = Some n ∨ cq_MaxCompletionTokens r = Some n ∨ cq_N r = Some n → 1 ≤ n) ∧
  (within 0 2 (cq_Temperature r) = true ∧ within 0 1 (cq_TopP r) = true ∧
   within (-2) 2 (cq_FrequencyPenalty r) = true ∧ within (-2) 2 (cq_PresencePenalty r) = true).
Proof.
  intros Hc%parsed_checked. unfold check_request in Hc. apply first_err_none in Hc.
  apply Forall_cons in Hc as [_ Hc]. apply Forall_cons in Hc as [Htools Hc].
  apply Forall_cons in Hc as [_ Hc]. apply Forall_cons in Hc as [Hgen _].
  apply validateToolRequest_ok in Htools as [(names & Hn & choice & Hch & _ & Hfun) (pending & Hms)].
  apply tool_names_spec in Hn as (Hall & Hdup & _ & Hin).
  unfold validateGenerationFields in Hgen. destruct (_ && _) eqn:Hg in Hgen; [|done].
  rewrite !andb_true_iff in Hg. destruct Hg as [[[[[[[G1 G2] G3] G4] G5] G6] G7] _].
  assert (∀ o n, positive_int o = true → o = Some n → 1 ≤ n) as Hpos.
  { intros o n Ho ->. cbn in Ho. apply negb_true_iff, Z.ltb_ge in Ho. done. }
  split; [done|]. split; [|split; [|split; [|done]]].
  - exists choice. split; [done|]. intros Hf%Hfun%Hin. by destruct Hf as [Hf|Hf]; [set_solver|].
  - intros i m Hi Hr.
    assert (∀ k mk, cq_Messages r !! k = Some mk → answer_ok (rev (take k (cq_Messages r))) mk) as Hans.
    { intros k mk Hk. apply take_drop_middle in Hk. rewrite <-(app_nil_r (rev _)).
      eapply (check_messages_ok [] _ ∅); [|done|done]. intros x Hx. set_solver. }
    destruct (Hans i m Hi) as (_ & _ & _ & Htool). destruct (Htool Hr) as (call & Hopen & Hname).
    apply open_call_position in Hopen as (j & m' & Hj & Hcall & Hid & Hno).
    apply lookup_take_Some in Hj as [Hj Hlt]. exists j, m', call. split_and!; try done.
    + destruct (Hans j m' Hj) as (_ & Hrole & _). apply Hrole. intros Hnil. rewrite Hnil in Hcall.
      by apply not_elem_of_nil in Hcall.
    + intros k m'' [Hk1 Hk2] Hk. apply (Hno k m''); [done|]. by rewrite lookup_take_lt.
  - intros n [Hn|[Hn|Hn]]; [apply (Hpos _ _ G1 Hn)|apply (Hpos _ _ G2 Hn)|apply (Hpos _ _ G3 Hn)].
Qed.
End accepted.

(** ** When reading panics *)

(** How many elements decoding a value into a slice gives. *)
Definition slice_count (raw : string) : option nat :=
  if is_null raw then Some 0%nat else length <$> json_array raw.

Lemma decode_elems_length {A} (zero : A) d old raws l :
  decode_elems zero d old raws = Some l → length l = length raws.
Proof.
  revert old l. induction raws as [|raw raws IH]; intros old l; cbn; [by intros [= <-]|].
  intros (a & _ & (l' & Hl & [= <-])%bind_Some)%bind_Some. cbn. f_equal. by eapply IH.
Qed.

Lemma decode_slice_count {A} (zero : A) d old raw s :
  decode_slice zero d old raw = Some s → slice_count raw = Some (length (sl_elems s)).
Proof.
  unfold decode_slice, slice_count. destruct (is_null raw); [by intros [= <-]|].
  intros (raws & Hr & Hs)%bind_Some. rewrite Hr. cbn. destruct raws as [|raw' raws]; [by injection Hs as <-|].
  apply bind_Some in Hs as (l & Hl & [= <-]). apply decode_elems_length in Hl. cbn [sl_elems]. by rewrite Hl.
Qed.

(** The last member of a name. *)
Definition last_member (name : string) (ms : list (string * string)) : option string :=
  foldl (λ acc m, if decide (m.1 = name) then Some m.2 else acc) None ms.

Lemma lookup_members (ms : list (string * string)) (name : string) :
  foldl (λ (m : gmap string string) f, <[f.1 := f.2]> m) ∅ ms !! name = last_member name ms.
Proof.
  induction ms as [|f ms IH] using rev_ind; [done|]. unfold last_member in *. rewrite !foldl_snoc.
  destruct (decide (f.1 = name)) as [->|]; [by rewrite lookup_insert_eq | by rewrite lookup_insert_ne].
Qed.

Lemma field_slice_count {A} (zero : A) d name ms s :
  (∀ m, m ∈ ms → folded m.1 = folded name → m.1 = name) →
  field name (decode_slice zero d) nil_slice ms = Some s →
  match last_member name ms with
  | Some raw => slice_count raw = Some (length (sl_elems s))
  | None => sl_elems s = []
  end.
Proof.
  revert s. induction ms as [|f ms IH] using rev_ind; intros s Hms; [by intros [= <-]|].
  unfold field, last_member in *. rewrite !foldl_snoc. case_bool_decide as Hf.
  - intros (s' & Hs' & Hs)%bind_Some. apply decode_slice_count in Hs.
    by rewrite decide_True by (apply Hms; [apply elem_of_app; right; by apply list_elem_of_singleton | done]).
  - intros Hs. rewrite decide_False by congruence.
    apply IH; [|done]. intros m Hm. apply Hms. apply elem_of_app. by left.
Qed.

Lemma attach_extra_total messages encoded :
  (length messages ≤ length encoded)%nat → ∃ ms, attach_extra messages encoded = Some ms.
Proof.
  revert encoded. induction messages as [|m messages IH]; intros [|e encoded] Hlen; cbn in *;
    [by eexists|by eexists|lia|]. destruct (IH encoded ltac:(lia)) as (ms & ->). by eexists.
Qed.

Section panics.
Context `{Unicode}.

(** A request body makes the parser panic only by a member that spells [messages]
    in other letters: struct fields are matched in any case, the map of raw
    members is asked for exactly [messages], and the second is indexed by the
    positions of the first. Without such a member the parser always answers; with
    one, it can panic. *)
Theorem parse_panics_on_case body :
  ((∀ ms m, json_object body = Some ms → m ∈ ms → folded m.1 = folded "messages" → m.1 = "messages"%string) →
   ∃ answer, ParseChatRequest body = Some answer) ∧
  ParseChatRequest (text "{'Messages':[{'role':'user','content':'hi'}]}") = None.
Proof.
  split; [|vm_compute; reflexivity]. intros Hcase. unfold ParseChatRequest.
  destruct (decode_raw_map None body) as [[fields|]|] eqn:Hmap; [|by eexists..].
  destruct (json_request _ _) as [[request messages]|] eqn:Hreq; [|by eexists].
  unfold decode_raw_map in Hmap. destruct (is_null body) eqn:Hnull; [done|].
  apply bind_Some in Hmap as (ms & Hms & [= Hf]). specialize (Hcase ms).
  unfold json_request, struct_members in Hreq. rewrite Hnull, Hms in Hreq. cbn [mbind option_bind] in Hreq.
  destruct (field "model" _ _ ms); [|done]. cbn [mbind option_bind] in Hreq.
  destruct (field "messages" (decode_slice no_message decode_message) nil_slice ms) as [sl|] eqn:Hs; [|done].
  cbn [mbind option_bind] in Hreq.
  assert (messages = sl_elems sl) as ->.
  { repeat (match type of Hreq with context [mbind _ (field ?n ?d ?o ms)] => destruct (field n d o ms) end;
      [|done]; cbn [mbind option_bind] in Hreq). by injection Hreq as _ <-. }
  apply field_slice_count in Hs; [|by intros m Hm; apply Hcase].
  rewrite <-Hf. cbn [default]. change (default ∅ None) with (∅ : gmap string string). rewrite lookup_members.
  destruct (last_member "messages" ms) as [raw|].
  - destruct (decode_slice None decode_raw_map nil_slice raw) as [encoded|] eqn:Henc; [|by eexists].
    apply decode_slice_count in Henc. destruct (attach_extra_total (sl_elems sl) (sl_elems encoded)) as (l & ->).
    { apply Nat.eq_le_incl. rewrite Hs in Henc. by injection Henc. }
    cbn. by eexists.
  - rewrite Hs. cbn. by eexists.
Qed.
End panics.

(** ** Concrete instances *)

Definition demo_body : string := text
  "{'model':'fast','max_tokens':5,'temperature':0.5,
    'tools':[{'type':'function','function':{'name':'f','parameters':{}}}],'tool_choice':'auto',
    'messages':[{'role':'user','content':'hi'},
      {'role':'assistant','tool_calls':[{'id':'a','type':'function','function':{'name':'f','arguments':''}}]},
      {'role':'tool','tool_call_id':'a','name':'f','content':'x'}]}".

Definition demo_unicode : Unicode := λ s, s.

Definition demo_request : ChatRequest := Eval vm_compute in
  match @ParseChatRequest demo_unicode demo_body with
  | Some (Ok r) => r
  | _ => Build_ChatRequest "" [] false None None None None "" [] "" None "" None None None None None None "" "" []
  end.

Lemma demo_body_parses : @ParseChatRequest demo_unicode demo_body = Some (Ok demo_request).
Proof. vm_compute. reflexivity. Qed.

Lemma parsed_request_valid_witness :
  within 0 2 (cq_Temperature demo_request) = true ∧ length (cq_Messages demo_request) = 3%nat.
Proof.
  destruct (@parsed_request_valid demo_unicode demo_body demo_request demo_body_parses)
    as (_ & _ & _ & _ & H & _). exact (conj H eq_refl).
Defined.

Lemma demo_members_case ms m :
  json_object demo_body = Some ms → m ∈ ms → folded m.1 = folded "messages" → m.1 = "messages"%string.
Proof.
  intros Hms Hm. assert (Forall (λ m, folded m.1 = folded "messages" → m.1 = "messages"%string) ms) as Hall.
  { revert Hms. destruct (json_object demo_body) as [l|] eqn:Hl; [|done]. intros [= ->].
    assert (Some ms = Some (default [] (json_object demo_body))) as [= ->] by by rewrite Hl.
    apply (bool_decide_unpack _). vm_compute. exact I. }
  by apply (proj1 (Forall_forall _ _) Hall).
Qed.

Lemma parse_panics_on_case_witness : ∃ answer, @ParseChatRequest demo_unicode demo_body = Some answer.
Proof. exact (proj1 (@parse_panics_on_case demo_unicode demo_body) demo_members_case). Defined.

Example requests_refused :
  map (λ b, option_map is_ok (@ParseChatRequest demo_unicode (text b)))
    ["{'messages':[{'role':'tool','tool_call_id':'a'}]}"; "{'tool_choice':'auto'}"; "{'n':0}"; "{'temperature':2.5}";
     "{'top_logprobs':3}"; "{'stop':[1]}"; "{'response_format':{'type':'xml'}}"; "[]"; "{'temperature':1e400}"] =
  replicate 9 (Some false).
Proof. vm_compute. reflexivity. Qed.
