(* ===== verification/FloatText.v ===== *)
(** * Floats as JSON

    What [encoding/json] writes for a [float64]: the shortest decimal that is read
    back as the same float, in the fixed form for magnitudes between 1e-6 and 1e21,
    with an exponent otherwise. *)

From Stdlib Require Import Floats.
From S2P Require Import Prelude Encoding Json JsonWrite Binary64 ChatRequest.

Open Scope Z_scope.

(** ** The digits *)

(** A positive float as a fraction. *)
Definition fraction (m : positive) (e : Z) : Z * Z := (Zpos m * 2 ^ Z.max 0 e, 2 ^ Z.max 0 (- e)).

(** Whether 10^x is at most the fraction. *)
Definition pow10_le (x : Z) (q : Z * Z) : bool := 10 ^ Z.max 0 x * q.2 <=? q.1 * 10 ^ Z.max 0 (- x).

(** The decimal exponent of the first digit: the estimate from the binary exponent is
    one too small at most. *)
Definition exponent10 (m : positive) (e : Z) : Z :=
  let x := (Z.log2 (Zpos m) + e) * 30103 / 100000 in
  if pow10_le (x + 1) (fraction m e) then x + 1 else if pow10_le x (fraction m e) then x else x - 1.

(** The two decimals of [n] digits around the float, as integers that count 10^k; the
    nearer one first, of two equally near ones the even one. *)
Definition candidates10 (m : positive) (e : Z) (n : Z) : list (Z * Z) :=
  let k := exponent10 m e - (n - 1) in
  let '(num, denom) := fraction m e in
  let num := num * 10 ^ Z.max 0 (- k) in
  let denom := denom * 10 ^ Z.max 0 k in
  let q := num / denom in
  let r := num mod denom in
  if (2 * r <? denom) || ((2 * r =? denom) && Z.even q) then [(q, k); (q + 1, k)] else [(q + 1, k); (q, k)].

(** Without the zeros at the end. *)
Fixpoint trim_decimal (fuel : nat) (d : Z * Z) : Z * Z :=
  match fuel with
  | S fuel => if d.1 mod 10 =? 0 then trim_decimal fuel (d.1 / 10, d.2 + 1) else d
  | O => d
  end.

(** ** The text *)

Definition zeros (n : Z) : list Z := replicate (Z.to_nat n) 48.

(** [%f] and [%e] of the digits [ds], of which the point comes after the first [dp]. *)
Definition fixed_form (ds : list Z) (dp : Z) : list Z :=
  let n := Z.of_nat (length ds) in
  if dp <=? 0 then 48 :: 46 :: zeros (- dp) ++ ds
  else if n <=? dp then ds ++ zeros (dp - n)
  else take (Z.to_nat dp) ds ++ 46 :: drop (Z.to_nat dp) ds.

Definition exponent_form (ds : list Z) (dp : Z) : list Z :=
  let e := dp - 1 in
  take 1 ds ++ (if 1 <? Z.of_nat (length ds) then 46 :: drop 1 ds else []) ++ 101 :: (if e <? 0 then 45 else 43) ::
  decimal_digits 20 (Z.abs e) [].

(** Whether the number is outside the range of the fixed form, 1e-6 to 1e21. *)
Definition needs_exponent (f : float) : bool := ((abs f <? 0x1.0c6f7a0b5ed8dp-20) || negb (abs f <? 1e21))%float.

Definition decimal_text (f : float) (d : Z * Z) : string :=
  let '(z, k) := trim_decimal 20 d in
  let ds := decimal_digits 20 z [] in
  let dp := Z.of_nat (length ds) + k in
  string_of_bytes ((if (f <? 0)%float then [45] else []) ++
    (if needs_exponent f then exponent_form ds dp else fixed_form ds dp)).

(** The text is a number that is read as [f]. *)
Definition reads_back (f : float) (t : string) : bool :=
  bool_decide (skip_flat t = Some ""%string) && bool_decide (t ≠ "null"%string) &&
  match decode_float 0%float t with
  | Some g => match SFcompare (Prim2SF g) (Prim2SF f) with Some Eq => true | _ => false end
  | None => false
  end.

Fixpoint shortest (fuel : nat) (f : float) (m : positive) (e : Z) (n : Z) : option string :=
  match fuel with
  | O => None
  | S fuel =>
      match filter (λ t, reads_back f t = true) (map (decimal_text f) (candidates10 m e n)) with
      | t :: _ => Some t
      | [] => shortest fuel f m e (n + 1)
      end
  end.

(** [None] for what has no JSON text (NaN and the infinities); seventeen digits
    distinguish all floats. *)
Definition encode_float (f : float) : option string :=
  match Prim2SF f with
  | S754_zero s => Some (if s then "-0" else "0")%string
  | S754_finite _ m e => shortest 17 f m e 1
  | S754_infinity _ | S754_nan => None
  end.

Example encoded_floats :
  map encode_float
    [0; -0; 1; -1.5; 0.1; 0.2; 2; 100; 1e20; 1e21; 1e23; 1e-6; 1e-7; 1.25e-10; 0x1p-44; 0x1p-1074; 0x1.fffffffffffffp1023;
     0.30000000000000004; 123456789.125; nan; infinity]%float
  = map Some ["0"; "-0"; "1"; "-1.5"; "0.1"; "0.2"; "2"; "100"; "100000000000000000000"; "1e+21"; "1e+23"; "0.000001"; "1e-7";
     "1.25e-10"; "5.684341886080802e-14"; "5e-324"; "1.7976931348623157e+308"; "0.30000000000000004"; "123456789.125"]%string ++ [None; None].
Proof. vm_compute. reflexivity. Qed.

(** ** What is written is read back *)

Lemma SFcompare_finite x s m e : SFcompare x (S754_finite s m e) = Some Eq → x = S754_finite s m e.
Proof.
  destruct x as [b|b| |b m' e']; cbn; [by destruct s|by destruct b| done|].
  destruct b, s; try done; destruct (Z.compare_spec e' e) as [->| |]; try done.
  - destruct (Pos.compare_cont Eq m' m) eqn:Hm; try done. apply Pos.compare_eq in Hm. by subst.
  - destruct (Pos.compare_cont Eq m' m) eqn:Hm; try done. apply Pos.compare_eq in Hm. by subst.
Qed.

Lemma reads_back_spec f s m e t :
  Prim2SF f = S754_finite s m e → reads_back f t = true →
  skip_flat t = Some ""%string ∧ t ≠ "null"%string ∧ decode_float 0%float t = Some f.
Proof.
  intros Hf. unfold reads_back. rewrite !andb_true_iff, !bool_decide_eq_true, Hf. intros [[Hs Hn] Hd].
  split; [done|]. split; [done|]. destruct (decode_float _ t) as [g|]; [|done]. f_equal.
  apply Prim2SF_inj. rewrite Hf. destruct (SFcompare _ _) as [[]|] eqn:Hc; try done. by apply SFcompare_finite.
Qed.

Lemma shortest_reads fuel f m e n t : shortest fuel f m e n = Some t → reads_back f t = true.
Proof.
  revert n. induction fuel as [|fuel IH]; intros n; [done|]. cbn [shortest].
  destruct (filter _ _) as [|u l] eqn:Hl; [apply IH|]. intros [= <-].
  assert (u ∈ u :: l) as Hu by left. rewrite <-Hl in Hu. by apply list_elem_of_filter in Hu as [? _].
Qed.

(** A number that is written is a flat value, and read back whatever the variable held. *)
Lemma encode_float_back f t :
  encode_float f = Some t →
  skip_flat t = Some ""%string ∧ is_null t = false ∧ ∀ old, decode_float old t = Some f.
Proof.
  intros Ht.
  assert (skip_flat t = Some ""%string ∧ t ≠ "null"%string ∧ decode_float 0%float t = Some f) as (Hs & Hn & Hd).
  { unfold encode_float in Ht. destruct (Prim2SF f) as [s|s| |s m e] eqn:Hf; [|done|done|].
    - assert (f = if s then (-0)%float else 0%float) as -> by (apply Prim2SF_inj; rewrite Hf; by destruct s).
      injection Ht as <-. destruct s; vm_compute; done.
    - apply shortest_reads in Ht. by apply (reads_back_spec f s m e). }
  assert (value_text t = Some t) as Hv.
  { by destruct (value_at_text maxNestingDepth t (value_at_flat _ _ Hs) ltac:(done)). }
  assert (∀ old, decode_float old t = decode_float 0%float t) as Hold.
  { intros old. unfold decode_float. rewrite Hv. cbn [mbind option_bind].
    destruct (String.eqb_spec t "null") as [|_]; [done|]. done. }
  split; [done|]. split; [|intros old; by rewrite Hold].
  unfold is_null. rewrite Hv. apply bool_decide_eq_false. congruence.
Qed.

Lemma encode_float_value d f t : encode_float f = Some t → value_at d t.
Proof. intros Ht%encode_float_back. apply value_at_flat. apply Ht. Qed.
