(* ===== verification/Transport.v ===== *)
(** * Calls of an upstream over HTTP

    Models [src/internal/provider/transport.go]: one request is sent, its answer is
    read up to a limit, its status and its media type are checked, and what is wrong
    becomes an error the retry policy can classify. [net/http] itself is a parameter:
    it answers a request with an error or with a status, two headers and a body.
    [mime.ParseMediaType] is written out. *)

From S2P Require Import Prelude Failure Encoding Json JsonWrite ChatContent Sse.

(** ** Media types

    [mime.ParseMediaType], without the values of the parameters it answers: the media
    type, or [None] on an error. *)

Definition is_tspecial (c : ascii) : bool :=
  existsb (Ascii.eqb c) (quote_byte :: list_ascii_of_string "()<>@,;:\/[]?=").

Definition is_token_char (c : ascii) : bool :=
  (32 <? byte_of c) && (byte_of c <? 127) && negb (is_tspecial c).

Fixpoint consumeToken (l : list ascii) : list ascii * list ascii :=
  match l with
  | c :: r => if is_token_char c then let '(token, rest) := consumeToken r in (c :: token, rest) else ([], l)
  | [] => ([], [])
  end.

(** After the opening quote: the value and what follows the closing quote. *)
Fixpoint consume_quoted (l : list ascii) : option (list ascii * list ascii) :=
  match l with
  | [] => None
  | c :: r =>
      if (c =? quote_byte)%char then Some ([], r)
      else
        match r with
        | d :: r' =>
            if (c =? "\")%char && is_tspecial d
            then '(value, rest) ← consume_quoted r'; Some (d :: value, rest)
            else if (c =? carriage_return)%char || (c =? newline)%char then None
            else '(value, rest) ← consume_quoted r; Some (c :: value, rest)
        | [] => None
        end
  end.

(** [None]: no value and nothing consumed. *)
Definition consumeValue (l : list ascii) : option (list ascii * list ascii) :=
  match l with
  | [] => None
  | c :: r =>
      if (c =? quote_byte)%char then consume_quoted r
      else match consumeToken l with ([], _) => None | value => Some value end
  end.

Definition skip_spaces (l : list ascii) : list ascii := trim_front false l.

Definition consume_char (c : ascii) (l : list ascii) : option (list ascii) :=
  match l with d :: r => if (d =? c)%char then Some r else None | [] => None end.

Definition consumeMediaParam `{Unicode} (l : list ascii) : option (string * list ascii * list ascii) :=
  rest ← consume_char ";" (skip_spaces l);
  let '(param, rest) := consumeToken (skip_spaces rest) in
  if bool_decide (param = []) then None
  else
    rest ← consume_char "=" (skip_spaces rest);
    '(value, rest) ← consumeValue (skip_spaces rest);
    Some (ToLower (string_of_list_ascii param), value, rest).

(** Every round takes at least the semicolon. *)
Fixpoint media_params `{Unicode} (fuel : nat) (params : gmap string (list ascii)) (l : list ascii) : bool :=
  match fuel with
  | O => false
  | S fuel =>
      let l := skip_spaces l in
      if bool_decide (l = []) then true
      else
        match consumeMediaParam l with
        | None => (TrimSpace (string_of_list_ascii l) =? ";")%string
        | Some (key, value, rest) =>
            match params !! key with
            | Some old => bool_decide (old = value) && media_params fuel params rest
            | None => media_params fuel (<[key := value]> params) rest
            end
        end
  end.

Definition checkMediaType (mediaType : string) : bool :=
  match consumeToken (list_ascii_of_string mediaType) with
  | ([], _) => false
  | (_, []) => true
  | (_, c :: rest) =>
      (c =? "/")%char && match consumeToken rest with ([], _) => false | (_, rest) => bool_decide (rest = []) end
  end.

Definition ParseMediaType `{Unicode} (v : string) : option string :=
  let '(base, params) := match Cut ";" v with Some (base, rest) => (base, String ";" rest) | None => (v, ""%string) end in
  let mediaType := TrimSpace (ToLower base) in
  if checkMediaType mediaType && media_params (S (String.length params)) ∅ (list_ascii_of_string params)
  then Some mediaType else None.

(** [strings.EqualFold]. A media type that has been parsed is ASCII. *)
Definition EqualFold (a b : string) : bool := bool_decide (folded a = folded b).

(** ** Configuration *)

Definition maxResponseBodyBytes : Z := 8388608.
Definition maximumHTTPConnections : Z := 10000.

Record HTTPConfig := {
  hc_MaxIdleConnections : Z; hc_MaxIdleConnectionsPerHost : Z; hc_MaxConnectionsPerHost : Z;
}.
#[export] Instance HTTPConfig_eq_dec : EqDecision HTTPConfig.
Proof. solve_decision. Defined.

Definition DefaultHTTPConfig : HTTPConfig :=
  {| hc_MaxIdleConnections := 100; hc_MaxIdleConnectionsPerHost := 20; hc_MaxConnectionsPerHost := 20 |}.

Definition HTTPConfig_Validate (config : HTTPConfig) : bool :=
  negb ((hc_MaxIdleConnections config <? 1) || (maximumHTTPConnections <? hc_MaxIdleConnections config)) &&
  negb ((hc_MaxIdleConnectionsPerHost config <? 1) ||
        (hc_MaxIdleConnections config <? hc_MaxIdleConnectionsPerHost config)) &&
  negb ((hc_MaxConnectionsPerHost config <? 1) || (maximumHTTPConnections <? hc_MaxConnectionsPerHost config)) &&
  negb (hc_MaxConnectionsPerHost config <? hc_MaxIdleConnectionsPerHost config).

(** ** Error codes *)

Definition decode_number : decoder string := λ old raw,
  raw ← value_text raw;
  if (raw =? "null")%string then Some old
  else
    let literal := if isSome (strip quote_byte raw) then unquote_literal raw else raw in
    match skip_number literal with
    | Some rest => if (rest =? "")%string then Some literal else None
    | None => None
    end.

Definition code_char (b : Z) : bool := ((97 <=? b) && (b <=? 122)) || ((48 <=? b) && (b <=? 57)).
Definition underscore : ascii := "_".

(** The loop of [normalizeErrorCode] over the code points of [l]; [written] is what the
    builder holds, the last byte first. *)
Fixpoint normalize_loop (fuel : nat) (written : list ascii) (lastWasSeparator : bool) (l : list Z) : list ascii :=
  match fuel, l with
  | S fuel, b :: rest =>
      let '(written, lastWasSeparator) :=
        if code_char b then (byte_ascii b :: written, false)
        else if (0 <? len written) && negb lastWasSeparator then (underscore :: written, true)
        else (written, lastWasSeparator) in
      if 128 <=? len written then written
      else normalize_loop fuel written lastWasSeparator (drop ((rune_size b rest).1 - 1) rest)
  | _, _ => written
  end.

Fixpoint trim_underscores (l : list ascii) : list ascii :=
  match l with c :: r => if (c =? underscore)%char then trim_underscores r else l | [] => [] end.

Definition normalizeErrorCode `{Unicode} (code : string) : string :=
  let code := ToLower (TrimSpace code) in
  string_of_list_ascii
    (trim_underscores (rev (trim_underscores (normalize_loop (String.length code) [] false (bytes_of code))))).

(** The code one field holds: a string that is not blank, or a number. *)
Definition error_code `{Unicode} (raw : string) : option string :=
  let text := default ""%string (decode_string ""%string raw) in
  let number := default ""%string (decode_number ""%string raw) in
  if negb (TrimSpace text =? "")%string then Some (normalizeErrorCode text)
  else if negb (number =? "")%string then Some (normalizeErrorCode number)
  else None.

Definition firstErrorCode `{Unicode} (fields : RawMap) : string :=
  default ""%string
    (head (omap (λ name, error_code (raw_lookup fields name)) ["code"; "type"; "status"]%string)).

Definition responseErrorCode `{Unicode} (body : string) : string :=
  match decode_raw_map None body with
  | None => ""
  | Some envelope =>
      let nested :=
        match envelope with
        | Some fields =>
            match fields !! "error"%string with
            | Some raw => match decode_raw_map None raw with Some details => firstErrorCode details | None => "" end
            | None => ""
            end
        | None => ""
        end in
      if (nested =? "")%string then firstErrorCode envelope else nested
  end.

(** ** Requests *)

(** Header names in canonical form, with the one value each has here. *)
Abbreviation Header := (gmap string string).

Record HTTPRequest := { rq_URL : string; rq_Header : Header; rq_Body : string }.

(** The answer of [client.Do]: the status, the values of Retry-After and Content-Type,
    and the body. *)
Record HTTPResponse := { rs_StatusCode : Z; rs_RetryAfter : string; rs_ContentType : string; rs_Body : Reader }.

(** [http.NewRequestWithContext] accepts a URL, and [client.Do] answers a request.
    Redirects are not followed ([CheckRedirect]). *)
Class HTTPClient := {
  http_NewRequest : string → bool;
  http_Do : HTTPRequest → result GoErr HTTPResponse;
}.

Definition newJSONPostRequest `{HTTPClient} (endpoint requestID body : string) (headers : Header)
    : result GoErr HTTPRequest :=
  if http_NewRequest endpoint then
    let header := <["Content-Type" := "application/json"]> headers in
    Ok {| rq_URL := endpoint; rq_Body := body;
          rq_Header := if (requestID =? "")%string then header else <["X-Request-Id" := requestID]> header |}
  else Err (EWrap (EOther "invalid URL")).

Definition is_eof (e : GoErr) : bool := match e with ESentinel io_EOF => true | _ => false end.

(** [io.ReadAll(io.LimitReader(body, limit))]: the first [limit] bytes; the error of the
    body is met when it comes before them, or together with the last of them. *)
Definition read_limited (limit : Z) (body : Reader) : result GoErr (list ascii) :=
  let data := content body in
  let failed := negb (is_eof (rd_end body)) in
  if (limit <? len data) || ((limit =? len data) && negb (rd_eager body && failed)) then Ok (take (Z.to_nat limit) data)
  else if failed then Err (rd_end body) else Ok data.

Definition readBody (body : Reader) : result GoErr string :=
  match read_limited (maxResponseBodyBytes + 1) body with
  | Err e => Err (EWrap e)
  | Ok data =>
      if maxResponseBodyBytes <? len data then Err (ESentinel ErrResponseTooLarge)
      else Ok (string_of_list_ascii data)
  end.

Definition success_status (status : Z) : bool := (200 <=? status) && (status <? 300).

Section transport.
Context `{Unicode} `{HTTPClient}.

(** The error made of an answer that is not a success. *)
Definition status_error (response : HTTPResponse) (body : string) : GoErr :=
  EHTTP {| http_StatusCode := rs_StatusCode response; http_RetryAfter := rs_RetryAfter response;
           http_Code := responseErrorCode body |}.

Definition media_type_is (accepted : list string) (response : HTTPResponse) : bool :=
  match ParseMediaType (rs_ContentType response) with
  | Some mediaType => existsb (EqualFold mediaType) accepted
  | None => false
  end.

Definition post (endpoint requestID body : string) (headers : Header) : result GoErr string :=
  match newJSONPostRequest endpoint requestID body headers with
  | Err e => Err e
  | Ok request =>
      match http_Do request with
      | Err e => Err (EWrap e)
      | Ok response =>
          match readBody (rs_Body response) with
          | Err e => Err e
          | Ok responseBody =>
              if negb (success_status (rs_StatusCode response)) then Err (status_error response responseBody)
              else if negb (media_type_is ["application/json"%string] response) || negb (json_valid responseBody)
              then Err (ESentinel ErrInvalidResponse)
              else Ok responseBody
          end
      end
  end.

Definition postStreamTypes (endpoint requestID body : string) (headers : Header) (acceptedTypes : list string)
    : result GoErr Reader :=
  match newJSONPostRequest endpoint requestID body headers with
  | Err e => Err e
  | Ok request =>
      if bool_decide (acceptedTypes = []) then Err (ESentinel ErrInvalidStream)
      else
        let request :=
          {| rq_URL := rq_URL request; rq_Body := rq_Body request;
             rq_Header := <["Accept" := String.concat ", " acceptedTypes]> (rq_Header request) |} in
        match http_Do request with
        | Err e => Err (EWrap e)
        | Ok response =>
            if negb (success_status (rs_StatusCode response)) then
              match readBody (rs_Body response) with
              | Err e => Err e
              | Ok responseBody => Err (status_error response responseBody)
              end
            else if negb (media_type_is acceptedTypes response) then Err (ESentinel ErrInvalidStream)
            else Ok (rs_Body response)
        end
  end.

Definition postStream (endpoint requestID body : string) (headers : Header) : result GoErr Reader :=
  postStreamTypes endpoint requestID body headers ["text/event-stream"%string].
End transport.

Example media_types :
  let H : Unicode := λ s, s in
  map ParseMediaType
    ["application/json"; " Text/Event-Stream ; charset=utf-8"; "application/json;"; "application/json; a=1; A=2";
     "application/json; a=1 ;A=1"; "application json"; "a/b;c"; "a/"; ""]%string =
  [Some "application/json"; Some "text/event-stream"; Some "application/json"; None; Some "application/json"; None;
   None; None; None]%string.
Proof. vm_compute. reflexivity. Qed.

Example error_codes :
  let H : Unicode := λ s, s in
  map responseErrorCode
    [text "{'error':{'code':'Rate Limit--Exceeded!'}}"; text "{'error':{'code':null,'type':''},'status':429}";
     text "{'error':'x','code':'  '}"; text "[1]"; text "{'code':'__a__'}"] =
  ["rate_limit_exceeded"; "429"; ""; ""; "a"]%string.
Proof. vm_compute. reflexivity. Qed.

(** ** Reading *)

Lemma readBody_ok body s :
  readBody body = Ok s ↔
  is_eof (rd_end body) = true ∧ len (content body) ≤ maxResponseBodyBytes ∧ s = string_of_list_ascii (content body).
Proof.
  unfold readBody, read_limited, maxResponseBodyBytes. set (data := content body).
  assert (len (take (Z.to_nat (8388608 + 1)) data) = Z.min (8388608 + 1) (len data)) as Htake.
  { unfold len. rewrite length_take. lia. }
  destruct (Z.ltb_spec (8388608 + 1) (len data)); cbn [orb].
  { rewrite Htake. destruct (Z.ltb_spec 8388608 (Z.min (8388608 + 1) (len data))); [split; [done|lia]|lia]. }
  destruct (is_eof (rd_end body)) eqn:He; cbn [negb].
  - rewrite andb_false_r. cbn [negb andb]. rewrite andb_true_r.
    destruct (Z.eqb_spec (8388608 + 1) (len data)) as [Hl|Hl].
    + rewrite Htake. destruct (Z.ltb_spec 8388608 (Z.min (8388608 + 1) (len data))); [split; [done|lia]|lia].
    + destruct (Z.ltb_spec 8388608 (len data)); [lia|]. split; [by intros [= <-]|by intros (_ & _ & ->)].
  - destruct (_ && _) eqn:Hb.
    + apply andb_true_iff in Hb as [Hl%Z.eqb_eq _]. rewrite Htake.
      destruct (Z.ltb_spec 8388608 (Z.min (8388608 + 1) (len data))); [split; [done|naive_solver]|lia].
    + split; [done|naive_solver].
Qed.

(** ** Codes are bounded and stable *)

Definition code_letter (c : ascii) : bool := code_char (byte_of c) || (c =? underscore)%char.

(** No two separators in a row. *)
Fixpoint single_separators (l : list ascii) : bool :=
  match l with
  | c :: ((d :: _) as r) => negb ((c =? underscore)%char && (d =? underscore)%char) && single_separators r
  | _ => true
  end.

Record code_shape (s : string) : Prop := {
  cs_short : str_len s ≤ 128;
  cs_letters : Forall (λ c, code_letter c = true) (list_ascii_of_string s);
  cs_single : single_separators (list_ascii_of_string s) = true;
  cs_first : head (list_ascii_of_string s) ≠ Some underscore;
  cs_last : last (list_ascii_of_string s) ≠ Some underscore;
}.

Record written_ok (w : list ascii) (lastWasSeparator : bool) : Prop := {
  wo_letters : Forall (λ c, code_letter c = true) w;
  wo_single : single_separators w = true;
  wo_head : head w = Some underscore → lastWasSeparator = true;
}.

Lemma code_char_ascii b : code_char b = true → byte_of (byte_ascii b) = b ∧ byte_ascii b ≠ underscore.
Proof.
  intros Hb. assert (is_byte b) as Hr by (unfold code_char, is_byte in *; lia). split; [by apply byte_of_ascii|].
  intros Heq. apply (f_equal byte_of) in Heq. rewrite byte_of_ascii in Heq by done. subst b. by vm_compute in Hb.
Qed.

Lemma single_cons2 c d w :
  single_separators (c :: d :: w) =
  negb ((c =? underscore)%char && (d =? underscore)%char) && single_separators (d :: w).
Proof. done. Qed.

Lemma single_cons c w :
  c ≠ underscore ∨ head w ≠ Some underscore → single_separators w = true → single_separators (c :: w) = true.
Proof.
  intros Hc Hw. destruct w as [|d w]; [done|]. rewrite single_cons2, Hw, andb_true_r.
  destruct (Ascii.eqb_spec c underscore), (Ascii.eqb_spec d underscore); cbn; try done. subst. by destruct Hc.
Qed.

Lemma normalize_loop_ok fuel w sep l :
  written_ok w sep → len w < 128 →
  len (normalize_loop fuel w sep l) ≤ 128 ∧ ∃ sep', written_ok (normalize_loop fuel w sep l) sep'.
Proof.
  revert w sep l. induction fuel as [|fuel IH]; intros w sep l Hw Hlen; [cbn; split; [lia|by exists sep]|].
  destruct l as [|b l]; [cbn; split; [lia|by exists sep]|]. cbn [normalize_loop].
  assert (∀ w' sep', written_ok w' sep' → len w' ≤ len w + 1 →
    len (if 128 <=? len w' then w' else normalize_loop fuel w' sep' (drop ((rune_size b l).1 - 1) l)) ≤ 128 ∧
    ∃ s, written_ok (if 128 <=? len w' then w' else normalize_loop fuel w' sep' (drop ((rune_size b l).1 - 1) l)) s)
    as Hgo.
  { intros w' sep' Hw' Hl. destruct (Z.leb_spec 128 (len w')); [split; [lia|by exists sep']|]. by apply IH. }
  destruct Hw as [Hf Hs Hh]. destruct (code_char b) eqn:Hb.
  - apply code_char_ascii in Hb as Hb'. destruct Hb' as [Hbyte Hne]. apply Hgo; [|unfold len; cbn; lia]. split.
    + apply Forall_cons. split; [|done]. unfold code_letter. by rewrite Hbyte, Hb.
    + apply single_cons; [by left|done].
    + cbn. congruence.
  - destruct ((0 <? len w) && negb sep) eqn:Hsep; [|by apply Hgo; [|lia]].
    apply andb_true_iff in Hsep as [_ Hsep%negb_true_iff]. subst sep. apply Hgo; [|unfold len; cbn; lia]. split.
    + by apply Forall_cons.
    + apply single_cons; [|done]. right. intros Hu. by specialize (Hh Hu).
    + done.
Qed.

Lemma single_tail c w : single_separators (c :: w) = true → single_separators w = true.
Proof. destruct w; [done|]. by intros [_ Hw]%andb_true_iff. Qed.

Lemma trim_underscores_suffix l : ∃ p, l = p ++ trim_underscores l.
Proof.
  induction l as [|c l [p IH]]; [by exists []|]. cbn. destruct (c =? underscore)%char; [|by exists []].
  exists (c :: p). cbn. congruence.
Qed.

Lemma trim_underscores_head l : head (trim_underscores l) ≠ Some underscore.
Proof.
  induction l as [|c l IH]; [done|]. cbn. destruct (Ascii.eqb_spec c underscore); [done|]. cbn. congruence.
Qed.

Lemma single_app_r l k : single_separators (l ++ k) = true → single_separators k = true.
Proof. induction l as [|c l IH]; [done|]. cbn [app]. intros Hs%single_tail. by apply IH. Qed.

Lemma single_snoc l c :
  single_separators (l ++ [c]) = true ↔
  single_separators l = true ∧ (c ≠ underscore ∨ last l ≠ Some underscore).
Proof.
  induction l as [|d l IH]; [cbn; split; [by split; [|right]|done]|]. destruct l as [|e l].
  - cbn. destruct (Ascii.eqb_spec d underscore), (Ascii.eqb_spec c underscore); cbn; subst; try naive_solver.
  - change ((d :: e :: l) ++ [c]) with (d :: e :: (l ++ [c])). rewrite !single_cons2.
    change (e :: (l ++ [c])) with ((e :: l) ++ [c]).
    rewrite !andb_true_iff, IH. change (last (d :: e :: l)) with (last (e :: l)). tauto.
Qed.

Lemma single_rev l : single_separators l = true → single_separators (rev l) = true.
Proof.
  induction l as [|c l IH]; [done|]. intros Hs. cbn [rev]. apply single_snoc.
  split; [by apply IH, (single_tail c)|]. destruct (decide (c = underscore)) as [->|]; [right|by left].
  destruct l as [|d l]; [done|]. cbn [rev]. rewrite last_snoc. rewrite single_cons2 in Hs.
  intros [= ->]. done.
Qed.

Lemma normalizeErrorCode_shape `{Unicode} code : code_shape (normalizeErrorCode code).
Proof.
  unfold normalizeErrorCode. set (c := ToLower _). set (w := normalize_loop _ _ _ _).
  assert (len w ≤ 128 ∧ ∃ sep, written_ok w sep) as [Hlen (sep & [Hf Hs _])]
    by (apply normalize_loop_ok; [by split|done]).
  clearbody w. destruct (trim_underscores_suffix w) as [p Hp]. set (x := trim_underscores w) in *.
  destruct (trim_underscores_suffix (rev x)) as [q Hq]. set (y := trim_underscores (rev x)) in *.
  assert (single_separators x = true) as Hsx by (rewrite Hp in Hs; by apply single_app_r in Hs).
  assert (Forall (λ c, code_letter c = true) x) as Hfx by (rewrite Hp in Hf; by apply Forall_app in Hf as [_ Hf]).
  apply single_rev in Hsx. rewrite Hq in Hsx. apply single_app_r in Hsx.
  apply Forall_rev in Hfx. rewrite Hq in Hfx. apply Forall_app in Hfx as [_ Hfy].
  split; unfold str_len; rewrite ?list_ascii_of_string_of_list_ascii; try done.
  - rewrite length_string_of_list. assert (length y ≤ length w)%nat; [|unfold len in Hlen; lia].
    apply (f_equal length) in Hp, Hq. rewrite !length_app in Hp, Hq. rewrite length_rev in Hq. lia.
  - apply trim_underscores_head.
  - intros Hl. apply (trim_underscores_head w). fold x. rewrite <-(rev_involutive x), Hq, rev_app_distr.
    destruct y as [|a y'] using rev_ind; [done|]. rewrite last_snoc in Hl. by rewrite rev_app_distr.
Qed.

Lemma firstErrorCode_shape `{Unicode} fields : firstErrorCode fields = ""%string ∨ code_shape (firstErrorCode fields).
Proof.
  unfold firstErrorCode. destruct (head (omap _ _)) as [code|] eqn:Hc; [|by left]. right. cbn.
  assert (code ∈ omap (λ name, error_code (raw_lookup fields name)) ["code"; "type"; "status"]%string) as Hin
    by (destruct (omap _ _) as [|c l]; [done|]; injection Hc as ->; apply elem_of_cons; by left).
  apply list_elem_of_omap in Hin as (name & _ & Hname). unfold error_code in Hname.
  destruct (negb _); [injection Hname as <-; apply normalizeErrorCode_shape|].
  destruct (negb _); [injection Hname as <-; apply normalizeErrorCode_shape|done].
Qed.

Lemma responseErrorCode_shape `{Unicode} body : responseErrorCode body = ""%string ∨ code_shape (responseErrorCode body).
Proof.
  unfold responseErrorCode. destruct (decode_raw_map None body) as [envelope|]; [|by left].
  match goal with |- context [if (?n =? "")%string then _ else _] => set (nested := n) end.
  assert (nested = ""%string ∨ code_shape nested) as Hn
    by (unfold nested; repeat case_match; auto using firstErrorCode_shape).
  destruct (nested =? "")%string; [apply firstErrorCode_shape|done].
Qed.

Section post_facts.
Context `{Unicode} `{HTTPClient}.

Lemma readBody_no_status body h : readBody body ≠ Err (EHTTP h).
Proof. unfold readBody. by repeat case_match. Qed.

Lemma media_type_one accepted response :
  media_type_is [accepted] response = true ↔
  ∃ mediaType, ParseMediaType (rs_ContentType response) = Some mediaType ∧ EqualFold mediaType accepted = true.
Proof.
  unfold media_type_is. destruct (ParseMediaType _) as [m|]; cbn [existsb]; [rewrite orb_false_r|]; naive_solver.
Qed.

(** What [post] makes of an answer. *)
Definition judge (response : HTTPResponse) : result GoErr string :=
  match readBody (rs_Body response) with
  | Err e => Err e
  | Ok responseBody =>
      if negb (success_status (rs_StatusCode response)) then Err (status_error response responseBody)
      else if negb (media_type_is ["application/json"%string] response) || negb (json_valid responseBody)
      then Err (ESentinel ErrInvalidResponse)
      else Ok responseBody
  end.

Lemma judge_ok response answer :
  judge response = Ok answer ↔
  success_status (rs_StatusCode response) = true ∧ media_type_is ["application/json"%string] response = true ∧
  readBody (rs_Body response) = Ok answer ∧ json_valid answer = true.
Proof.
  unfold judge. destruct (readBody _) as [data|e]; [|naive_solver].
  destruct (success_status _), (media_type_is _ _), (json_valid data) eqn:Hv; cbn; split;
    intros; destruct_and?; simplify_eq; try done; congruence.
Qed.

Lemma judge_http response h :
  judge response = Err (EHTTP h) →
  success_status (rs_StatusCode response) = false ∧ ∃ data, EHTTP h = status_error response data.
Proof.
  unfold judge. destruct (readBody _) as [data|e] eqn:Hread.
  - destruct (success_status _); cbn [negb]; [by destruct (_ || _)|]. intros [= Heq]. split; [done|]. exists data.
    by rewrite <-Heq.
  - intros [= ->]. by apply readBody_no_status in Hread.
Qed.

Lemma post_judge endpoint requestID body headers :
  (∃ e, post endpoint requestID body headers = Err e ∧ (∀ h, e ≠ EHTTP h) ∧
     ∀ request response, newJSONPostRequest endpoint requestID body headers = Ok request → http_Do request ≠ Ok response) ∨
  ∃ request response, newJSONPostRequest endpoint requestID body headers = Ok request ∧ http_Do request = Ok response ∧
    post endpoint requestID body headers = judge response.
Proof.
  unfold post. destruct (newJSONPostRequest _ _ _ _) as [request|e] eqn:Hreq.
  - destruct (http_Do request) as [response|e] eqn:Hdo; [right; by exists request, response|left].
    eexists. split_and!; [done|done|]. congruence.
  - left. exists e. split_and!; [done| |done]. intros h ->. unfold newJSONPostRequest in Hreq. by destruct (http_NewRequest _).
Qed.
End post_facts.

(** ** Theorems *)

(** [post] hands on a body exactly when the upstream was reached, answered with a
    success and with JSON by its media type and by its bytes, and the body ended within
    8 MiB; an HTTP error carries the status of an answer that was no success, its
    Retry-After header, and a code of at most 128 letters, digits and single
    separators whatever the upstream wrote. *)
Theorem post_answers `{Unicode} `{HTTPClient} endpoint requestID body headers :
  (∀ answer, post endpoint requestID body headers = Ok answer ↔
     ∃ request response,
       newJSONPostRequest endpoint requestID body headers = Ok request ∧ http_Do request = Ok response ∧
       200 ≤ rs_StatusCode response < 300 ∧
       (∃ mediaType, ParseMediaType (rs_ContentType response) = Some mediaType ∧ EqualFold mediaType "application/json" = true) ∧
       is_eof (rd_end (rs_Body response)) = true ∧ len (content (rs_Body response)) ≤ maxResponseBodyBytes ∧
       answer = string_of_list_ascii (content (rs_Body response)) ∧ json_valid answer = true) ∧
  (∀ h, post endpoint requestID body headers = Err (EHTTP h) →
     ∃ request response, http_Do request = Ok response ∧ http_StatusCode h = rs_StatusCode response ∧
       ¬ (200 ≤ http_StatusCode h < 300) ∧ http_RetryAfter h = rs_RetryAfter response ∧
       (http_Code h = ""%string ∨ code_shape (http_Code h))).
Proof.
  assert (∀ s, success_status s = true ↔ 200 ≤ s < 300) as Hsucc by (intros s; unfold success_status; lia).
  destruct (post_judge endpoint requestID body headers) as [(e & -> & Hne & Hno) | (request & response & Hreq & Hdo & ->)].
  { split; [|intros h [= ->]; by destruct (Hne h)]. intros answer. split; [done|].
    intros (request & response & Hreq & Hdo & _). by destruct (Hno _ _ Hreq Hdo). }
  split.
  - intros answer. rewrite judge_ok, Hsucc, media_type_one, readBody_ok. split.
    + intros (? & ? & (? & ? & ?) & ?). by exists request, response.
    + intros (? & ? & Hreq' & Hdo' & Hrest). rewrite Hreq in Hreq'. injection Hreq' as <-.
      rewrite Hdo in Hdo'. injection Hdo' as <-. naive_solver.
  - intros h (Hs & data & Heq)%judge_http. injection Heq as ->. exists request, response. cbn.
    split_and!; [done|done| |done|apply responseErrorCode_shape]. rewrite <-Hsucc. by rewrite Hs.
Qed.

(** ** Concrete instances *)

Example ascii_only : Unicode := λ s, s.
Example demo_response (status : Z) (contentType body : string) : HTTPResponse :=
  {| rs_StatusCode := status; rs_RetryAfter := "3"; rs_ContentType := contentType;
     rs_Body := {| rd_buf := []; rd_err := None; rd_chunks := [list_ascii_of_string body]; rd_end := ESentinel io_EOF;
                   rd_eager := false |} |}.

Lemma post_answers_witness :
  let client (response : HTTPResponse) := {| http_NewRequest := λ _, true; http_Do := λ _, Ok response |} in
  let limited := demo_response 429 "text/plain" (text "{'error':{'code':'Rate limit!'}}") in
  @post ascii_only (client (demo_response 200 "Application/JSON; charset=utf-8" "[1]")) "u" "" "{}" ∅ = Ok "[1]"%string ∧
  ∃ h, @post ascii_only (client limited) "u" "" "{}" ∅ = Err (EHTTP h) ∧ http_Code h = "rate_limit"%string ∧
    (http_Code h = ""%string ∨ code_shape (http_Code h)).
Proof.
  intros client limited. split; [vm_compute; reflexivity|].
  assert (@post ascii_only (client limited) "u" "" "{}" ∅ =
    Err (EHTTP {| http_StatusCode := 429; http_RetryAfter := "3"; http_Code := "rate_limit" |})) as Hpost
    by (vm_compute; reflexivity).
  eexists. split_and!; [exact Hpost|reflexivity|].
  destruct (proj2 (@post_answers ascii_only (client limited) "u" "" "{}" ∅) _ Hpost) as (? & ? & _ & _ & _ & _ & Hcode).
  exact Hcode.
Defined.
