(* ===== verification/Compatible.v ===== *)
(** * Upstreams that speak the protocol of OpenAI

    Models [src/internal/provider/compatible.go], [azure.go], [cloudflare.go],
    [endpoint.go] and the request bodies of [chat_request.go]: where an adapter sends
    its requests, what it sends, and which answers it lets through. The URLs of
    [net/url] are a parameter. *)

From S2P Require Import Prelude Failure Encoding Json JsonWrite JsonTree JsonSame Routing ChatContent Sse Binary64 ChatRequest Transport.

Record ChatInput := { ci_RequestID : string; ci_Request : ChatRequest; ci_ModelOverride : string }.

(** ** Request bodies *)

(** [json.Marshal] of a [map[string]json.RawMessage]. *)
Definition encode_raw_map (m : gmap string string) : option string :=
  fields ← mapM (λ f : string * string, t ← encode_raw f.2; Some (f.1, t)) (sort_members (map_to_list m));
  Some (encode_object fields).

(** [json.Unmarshal] into a map that must not become nil. *)
Definition decode_object (raw : string) : option (gmap string string) := m ← decode_raw_map None raw; m.

Definition compatibleRequestBody (input : ChatInput) : result GoErr string :=
  let body := cq_rawBody (ci_Request input) in
  if (ci_ModelOverride input =? "")%string then Ok body
  else
    match decode_object body with
    | None => Err invalid_request
    | Some payload =>
        let model := TrimSpace (ci_ModelOverride input) in
        if (model =? "")%string then Err invalid_request
        else
          match encode_raw_map (<["model" := encode_string model]> payload) with
          | Some mapped => Ok mapped
          | None => Err invalid_request
          end
    end.

(** The options of a streaming request that asks for the usage. *)
Definition stream_options (raw : string) : option string :=
  let raw := TrimSpace raw in
  options ← (if absent raw then Some ∅ else decode_object raw);
  encode_raw_map (<["include_usage" := "true"]> options).

Definition compatibleStreamRequestBody (input : ChatInput) (includeUsage : bool) : result GoErr string :=
  match compatibleRequestBody input with
  | Err e => Err e
  | Ok body =>
      match decode_object body with
      | None => Err invalid_request
      | Some payload =>
          let payload := <["stream" := "true"]> payload in
          let payload :=
            if includeUsage
            then options ← stream_options (raw_lookup (Some payload) "stream_options");
                 Some (<["stream_options" := options]> payload)
            else Some payload in
          match payload ≫= encode_raw_map with
          | Some streamBody => Ok streamBody
          | None => Err invalid_request
          end
      end
  end.

(** ** Answers *)

Definition validateResponseToolCalls (calls : list ChatToolCall) : bool :=
  forallb (λ call,
    negb (TrimSpace (tc_ID call) =? "")%string && (TrimSpace (tc_Type call) =? "function")%string &&
    negb (TrimSpace (fc_Name (tc_Function call)) =? "")%string &&
    validateJSONStringObject (fc_Arguments (tc_Function call))) calls &&
  bool_decide (NoDup (map tc_ID calls)).

Definition is_string (raw : string) : bool := isSome (decode_string ""%string raw).

(** The payloads of a message: whether each that is present is well formed, and
    whether there is one. *)
Definition message_payloads (message : RawMap) : list (bool * bool) :=
  let field := raw_lookup message in
  [(valuePresent (field "content"%string), is_string (field "content"%string));
   (valuePresent (field "tool_calls"%string),
    match decode_slice no_tool_call decode_tool_call nil_slice (field "tool_calls"%string) with
    | Some calls => negb (bool_decide (sl_elems calls = [])) && validateResponseToolCalls (sl_elems calls)
    | None => false
    end);
   (valuePresent (field "function_call"%string),
    match decode_function no_function (field "function_call"%string) with
    | Some call => negb (TrimSpace (fc_Name call) =? "")%string && validateJSONStringObject (fc_Arguments call)
    | None => false
    end);
   (valuePresent (field "refusal"%string), is_string (field "refusal"%string))].

Definition validateCompatibleMessagePayload (message : RawMap) : bool :=
  forallb (λ p : bool * bool, negb p.1 || p.2) (message_payloads message) && existsb fst (message_payloads message).

Record ResponseEnvelope := { re_Error : string; re_Choices : list string }.

(** A choice is the text of its message. *)
Definition decode_choice_message : decoder string := λ message raw,
  ms ← struct_members raw; field "message" decode_raw message ms.

Definition decode_response (body : string) : option ResponseEnvelope :=
  ms ← struct_members body;
  error ← field "error" decode_raw ""%string ms;
  choices ← field "choices" (decode_slice ""%string decode_choice_message) nil_slice ms;
  Some {| re_Error := error; re_Choices := sl_elems choices |}.

Definition valid_choice (raw : string) : bool :=
  match decode_raw_map None raw with
  | Some (Some message) =>
      bool_decide (decode_string ""%string (raw_lookup (Some message) "role") = Some "assistant"%string) &&
      validateCompatibleMessagePayload (Some message)
  | _ => false
  end.

Definition validateCompatibleChatResponse (body : string) : bool :=
  match decode_response body with
  | Some envelope =>
      negb (valuePresent (re_Error envelope)) && negb (bool_decide (re_Choices envelope = [])) &&
      forallb valid_choice (re_Choices envelope)
  | None => false
  end.

Example compatible_response_examples :
  map validateCompatibleChatResponse
    [text "{'choices':[{'message':{'role':'assistant','content':'hi'}}]}";
     text "{'choices':[{'message':{'role':'assistant','content':null}}]}";
     text "{'choices':[{'message':{'role':'user','content':'hi'}}]}";
     text "{'error':{},'choices':[{'message':{'role':'assistant','content':'hi'}}]}";
     text "{'choices':[]}";
     text "{'choices':[{'message':{'role':'assistant','tool_calls':[{'id':'a','type':'function','function':{'name':'f','arguments':'{}'}}]}}]}";
     text "{'choices':[{'message':{'role':'assistant','content':'','tool_calls':[{'id':'a','type':'function','function':{'name':'f','arguments':'1'}}]}}]}"]
  = [true; false; false; false; false; true; false].
Proof. vm_compute. reflexivity. Qed.

(** ** Endpoints *)

(** What the code reads and sets of a [url.URL]; whether it has a user. *)
Record URL := {
  url_Scheme : string; url_Host : string; url_User : bool; url_RawQuery : string; url_Fragment : string;
  url_Path : string; url_RawPath : string;
}.

Class NetURL := { url_Parse : string → option URL; url_String : URL → string; url_PathEscape : string → string }.

Definition with_path (u : URL) (path : string) : URL :=
  {| url_Scheme := url_Scheme u; url_Host := url_Host u; url_User := url_User u; url_RawQuery := url_RawQuery u;
     url_Fragment := url_Fragment u; url_Path := path; url_RawPath := "" |}.

Definition endpoint_error : GoErr := EOther "upstream base URL is invalid".

Definition parseBaseURL `{NetURL} (rawBaseURL : string) : result GoErr URL :=
  let baseURL := TrimSpace rawBaseURL in
  if (baseURL =? "")%string then Err endpoint_error
  else
    match url_Parse baseURL with
    | None => Err endpoint_error
    | Some parsed =>
        if negb ((url_Scheme parsed =? "http")%string || (url_Scheme parsed =? "https")%string) then Err endpoint_error
        else if (url_Host parsed =? "")%string then Err endpoint_error
        else if url_User parsed || negb (url_RawQuery parsed =? "")%string || negb (url_Fragment parsed =? "")%string
        then Err endpoint_error
        else Ok parsed
    end.

Definition slash : ascii := "/".

(** [strings.TrimRight(path, "/")] and [strings.TrimLeft]. *)
Fixpoint trim_slashes (l : list ascii) : list ascii :=
  match l with c :: r => if (c =? slash)%char then trim_slashes r else l | [] => [] end.
Definition TrimRightSlash (s : string) : string :=
  string_of_list_ascii (rev (trim_slashes (rev (list_ascii_of_string s)))).
Definition TrimSlash (s : string) : string :=
  string_of_list_ascii (trim_slashes (list_ascii_of_string (TrimRightSlash s))).

(** What each adapter makes of the path of its base URL. *)
Definition compatible_path (path : string) : string :=
  let basePath := TrimRightSlash path in
  if HasSuffix basePath "/chat/completions" then basePath
  else if (basePath =? "")%string then "/v1/chat/completions"
  else basePath ++ "/chat/completions".

Definition azure_path (path : string) : string :=
  let basePath := TrimRightSlash path in
  if HasSuffix basePath "/chat/completions" then basePath
  else if HasSuffix basePath "/openai/v1" then basePath ++ "/chat/completions"
  else basePath ++ "/openai/v1/chat/completions".

Definition cloudflare_path (path : string) : string :=
  let basePath := TrimRightSlash path in
  if HasSuffix basePath "/chat/completions" then basePath
  else if HasSuffix basePath "/ai/v1" then basePath ++ "/chat/completions"
  else basePath ++ "/ai/v1/chat/completions".

Definition fixed_path (path suffix : string) : string :=
  let basePath := TrimRightSlash path in
  let suffix := TrimSlash suffix in
  let fullSuffix := String slash suffix in
  if HasSuffix basePath fullSuffix then basePath
  else
    match Cut slash suffix with
    | Some (firstSegment, remaining) =>
        if negb (remaining =? "")%string && HasSuffix basePath (String slash firstSegment)
        then basePath ++ String slash remaining
        else basePath ++ fullSuffix
    | None => basePath ++ fullSuffix
    end.

Section endpoints.
Context `{NetURL}.

Definition endpoint_of (path : string → string) (rawBaseURL : string) : result GoErr string :=
  parsed ← parseBaseURL rawBaseURL; Ok (url_String (with_path parsed (path (url_Path parsed)))).

Definition fixedEndpoint (rawBaseURL suffix : string) : result GoErr string :=
  endpoint_of (λ path, fixed_path path suffix) rawBaseURL.

Definition compatibleChatEndpoint (protocol baseURL : string) : result GoErr string :=
  if (protocol =? "openai-compatible")%string then endpoint_of compatible_path baseURL
  else fixedEndpoint baseURL "chat/completions".

Definition azureChatEndpoint (rawBaseURL : string) : result GoErr string := endpoint_of azure_path rawBaseURL.
Definition cloudflareChatEndpoint (rawBaseURL : string) : result GoErr string := endpoint_of cloudflare_path rawBaseURL.

(** [strings.ContainsAny(model, "/?#")]. *)
Definition has_path_character (model : string) : bool :=
  existsb (λ c, existsb (Ascii.eqb c) ["/"; "?"; "#"]%char) (list_ascii_of_string model).

Definition modelEndpoint (rawBaseURL prefix model action : string) : result GoErr string :=
  parsed ← parseBaseURL rawBaseURL;
  let model := TrimSpace (TrimPrefix model (prefix ++ "/")) in
  if (model =? "")%string || has_path_character model then Err invalid_request
  else
    Ok (url_String (with_path parsed
          (TrimRightSlash (url_Path parsed) ++ "/" ++ prefix ++ "/" ++ url_PathEscape model ++ action))).
End endpoints.

(** ** Adapters *)

Record chatAdapter := { ad_endpoint : string; ad_protocol : string; ad_enforceStreamUsage : bool }.

Section adapters.
Context `{Unicode} `{NetURL} `{HTTPClient}.

Definition newCompatibleChatAdapterWithUsage (protocol baseURL : string) (enforceStreamUsage : bool)
    : result GoErr chatAdapter :=
  endpoint ← compatibleChatEndpoint protocol baseURL;
  Ok {| ad_endpoint := endpoint; ad_protocol := protocol; ad_enforceStreamUsage := enforceStreamUsage |}.

Definition newCompatibleChatAdapter (protocol baseURL : string) : result GoErr chatAdapter :=
  newCompatibleChatAdapterWithUsage protocol baseURL true.

Definition validateInput (adapter : chatAdapter) (input : ChatInput) : option GoErr :=
  match decodeChatRequest (ci_Request input) (ci_ModelOverride input) with
  | Err e => Some e
  | Ok request =>
      match RequiredCapabilities request with
      | Err e => Some e
      | Ok capabilities =>
          if forallb (ProtocolSupportsCapability (ad_protocol adapter)) capabilities then None else Some unsupported
      end
  end.

Definition bearer (apiKey : string) : Header := {["Authorization" := ("Bearer " ++ apiKey)%string]}.
Definition azure_key (apiKey : string) : Header := {["Api-Key" := apiKey]}.

(** Sending a body and checking the answer; the same in all three adapters. *)
Definition complete_at (endpoint : string) (input : ChatInput) (headers : Header) : result GoErr string :=
  body ← compatibleRequestBody input;
  responseBody ← post endpoint (ci_RequestID input) body headers;
  if validateCompatibleChatResponse responseBody then Ok responseBody else Err (ESentinel ErrInvalidResponse).

Definition open_stream_at (endpoint : string) (input : ChatInput) (includeUsage : bool) (headers : Header)
    : result GoErr ChatEventStream :=
  body ← compatibleStreamRequestBody input includeUsage;
  responseBody ← postStream endpoint (ci_RequestID input) body headers;
  newChatEventStream (Some responseBody).

Definition compatible_Complete (adapter : chatAdapter) (input : ChatInput) (apiKey : string) : result GoErr string :=
  match validateInput adapter input with
  | Some e => Err e
  | None =>
      let apiKey := TrimSpace apiKey in
      if (apiKey =? "")%string then Err invalid_request
      else complete_at (ad_endpoint adapter) input (bearer apiKey)
  end.

Definition compatible_OpenStream (adapter : chatAdapter) (input : ChatInput) (apiKey : string)
    : result GoErr ChatEventStream :=
  match validateInput adapter input with
  | Some e => Err e
  | None =>
      let apiKey := TrimSpace apiKey in
      if (apiKey =? "")%string then Err invalid_request
      else open_stream_at (ad_endpoint adapter) input (ad_enforceStreamUsage adapter) (bearer apiKey)
  end.

Definition azure_Complete (endpoint : string) (input : ChatInput) (apiKey : string) : result GoErr string :=
  complete_at endpoint input (azure_key (TrimSpace apiKey)).
Definition azure_OpenStream (endpoint : string) (input : ChatInput) (apiKey : string) : result GoErr ChatEventStream :=
  open_stream_at endpoint input true (azure_key (TrimSpace apiKey)).

Definition cloudflare_Complete (endpoint : string) (input : ChatInput) (apiKey : string) : result GoErr string :=
  complete_at endpoint input (bearer (TrimSpace apiKey)).
Definition cloudflare_OpenStream (endpoint : string) (input : ChatInput) (apiKey : string) : result GoErr ChatEventStream :=
  open_stream_at endpoint input true (bearer (TrimSpace apiKey)).
End adapters.

Example endpoint_paths :
  map compatible_path ["";"/";"/v1/";"/chat/completions"]%string =
    ["/v1/chat/completions"; "/v1/chat/completions"; "/v1/chat/completions"; "/chat/completions"]%string ∧
  map azure_path ["/"; "/openai/v1"; "/x"]%string =
    ["/openai/v1/chat/completions"; "/openai/v1/chat/completions"; "/x/openai/v1/chat/completions"]%string ∧
  map (λ p, fixed_path p "v1/messages/") [""; "/v1"; "/v1/messages/"]%string =
    ["/v1/messages"; "/v1/messages"; "/v1/messages"]%string.
Proof. vm_compute. done. Qed.

(** ** Maps of raw messages

    What is decoded from an object, and what is read of a map that was written. *)

Definition good_map (d : Z) (m : gmap string string) : Prop := ∀ k v, m !! k = Some v → utf8_Valid k = true ∧ value_at d v.

Lemma skip_value_at fuel d s r :
  skip_value fuel d s = Some r → d ≤ maxNestingDepth → value_at d (before s r) ∧ scan s = Some r.
Proof.
  intros Hs Hd. split; [|by eapply scan_complete].
  apply (proj1 (skip_scanned fuel)) in Hs as (p & c & -> & _ & _ & Hr & _). rewrite before_append. exists fuel.
  specialize (Hr ""%string I). by rewrite append_nil_r in Hr.
Qed.

Lemma members_good fuel d s r n fs :
  skip_members fuel d s = Some r → d ≤ maxNestingDepth → members n s = Some fs → Forall (good_member d) fs.
Proof.
  revert s n fs. induction fuel as [|fuel IH]; intros s n fs Hs Hd Hfs; [done|]. cbn [skip_members] in Hs.
  apply bind_Some in Hs as (v & Hk & (r1 & Hv & Hs)%bind_Some). destruct n as [|n]; [done|]. cbn [members] in Hfs.
  apply bind_Some in Hfs as (rest & (x & ->%strip_some & Hx)%bind_Some & Hfs). rewrite Hk in Hfs.
  cbn [mbind option_bind] in Hfs. destruct (skip_value_at _ _ _ _ Hv Hd) as [Hval Hscan]. rewrite Hscan in Hfs.
  cbn [mbind option_bind] in Hfs. pose proof (literal_utf8 _ _ Hx) as Hutf.
  destruct (strip "," (skip_ws r1)) as [r2|].
  - apply bind_Some in Hfs as (fs' & Hfs' & [= <-]). apply Forall_cons. split; [by split|]. by eapply IH.
  - injection Hfs as <-. by apply Forall_singleton.
Qed.

Lemma json_object_good d raw t fs :
  value_text raw = Some t → value_at d t → 1 ≤ d ≤ maxNestingDepth → json_object raw = Some fs →
  Forall (good_member (d - 1)) fs.
Proof.
  intros Ht (fuel & Hv) Hd. unfold json_object. rewrite Ht. cbn [mbind option_bind].
  intros (r & ->%strip_some & Hfs)%bind_Some. destruct fuel as [|fuel]; [done|]. cbn [skip_value] in Hv.
  rewrite strip_cons in Hv. destruct (Z.leb_spec d 0); [lia|].
  destruct (strip "}" (skip_ws r)); [by injection Hfs as <-|]. eapply members_good; [done|lia|done].
Qed.

Lemma foldl_insert_lookup (fs : list (string * string)) (m : gmap string string) k :
  NoDup fs.*1 → (∀ f, f ∈ fs → m !! f.1 = None) →
  foldl (λ m f, <[f.1 := f.2]> m) m fs !! k = match list_to_map (M := gmap string string) fs !! k with Some v => Some v | None => m !! k end.
Proof.
  revert m. induction fs as [|f fs IH]; intros m Hnd Hm; [done|]. cbn [fmap list_fmap] in Hnd.
  apply NoDup_cons in Hnd as [Hf Hnd]. cbn [foldl]. rewrite IH; [|done|].
  - cbn [list_to_map foldr]. destruct (decide (f.1 = k)) as [<-|Hne].
    + rewrite lookup_insert_eq. rewrite (proj1 (not_elem_of_list_to_map _ _)) by done. cbn. by rewrite lookup_insert_eq.
    + cbn. by rewrite !lookup_insert_ne.
  - intros g Hg. rewrite lookup_insert_ne; [apply Hm, elem_of_cons; by right|].
    intros Heq. apply Hf. rewrite Heq. by apply list_elem_of_fmap_2.
Qed.

Lemma foldl_insert_from (fs : list (string * string)) (m : gmap string string) k v :
  foldl (λ m f, <[f.1 := f.2]> m) m fs !! k = Some v → m !! k = Some v ∨ (k, v) ∈ fs.
Proof.
  revert m. induction fs as [|f fs IH]; intros m Hk; [by left|]. cbn [foldl] in Hk.
  destruct (IH _ Hk) as [Hm|Hin]; [|right; apply elem_of_cons; by right].
  apply lookup_insert_Some in Hm as [[<- <-]|[_ Hm]]; [|by left]. right. apply elem_of_cons. left. by destruct f.
Qed.

Lemma decode_object_good d raw t m :
  value_text raw = Some t → value_at d t → 1 ≤ d ≤ maxNestingDepth → decode_object raw = Some m → good_map (d - 1) m.
Proof.
  intros Ht Hv Hd. unfold decode_object, decode_raw_map. destruct (is_null raw); [done|].
  intros (o & (fs & Hfs & [= <-])%bind_Some & [= <-])%bind_Some k v Hk.
  apply json_object_good with (d := d) (t := t) in Hfs; [|done..].
  destruct (foldl_insert_from _ _ _ _ Hk) as [Hm|Hin]; [by rewrite lookup_empty in Hm|].
  rewrite Forall_forall in Hfs. by apply (Hfs (k, v)).
Qed.

Lemma decode_object_text raw m : decode_object raw = Some m → ∃ t, value_text raw = Some t ∧ value_at maxNestingDepth t.
Proof.
  unfold decode_object, decode_raw_map. destruct (is_null raw); [done|].
  intros (o & (fs & Hfs & _)%bind_Some & _)%bind_Some. unfold json_object in Hfs.
  apply bind_Some in Hfs as (t & Ht & _). exists t. split; [done|]. apply value_text_scan in Ht. by eexists.
Qed.

(** The members as they are written. *)
Lemma encode_fields_ok d (l : list (string * string)) :
  Forall (good_member d) l → d ≤ maxNestingDepth →
  ∃ fs, mapM (λ f : string * string, t ← encode_raw f.2; Some (f.1, t)) l = Some fs ∧
    Forall (good_member d) fs ∧ fs.*1 = l.*1 ∧
    ∀ k t, (k, t) ∈ fs ↔ ∃ v, (k, v) ∈ l ∧ encode_raw v = Some t.
Proof.
  intros Hl Hd. induction Hl as [|[k v] l [Hu Hv] Hl (fs & Hfs & Hgood & Hkeys & Hiff)].
  - exists []. split_and!; [done|done|done|]. intros k t. split; [by intros ?%not_elem_of_nil|].
    by intros (v & Hx%not_elem_of_nil & _).
  - cbn [fst snd] in Hu, Hv. destruct (encode_raw_value _ _ Hv Hd) as (t & Ht & Hvt). exists ((k, t) :: fs).
    cbn [mapM fst snd]. rewrite Ht. cbn [mbind option_bind]. rewrite Hfs.
    split_and!; [done|by apply Forall_cons|cbn; congruence|].
    intros k' t'. rewrite elem_of_cons, Hiff. split.
    + intros [[= -> ->]|(v' & Hv' & He)]; [exists v|exists v']; (split; [apply elem_of_cons|done]); auto.
    + intros (v' & [[= -> ->]|Hv']%elem_of_cons & He); [left; congruence|right; by exists v'].
Qed.

Lemma decode_object_encode fs :
  Forall (good_member (maxNestingDepth - 1)) fs → NoDup fs.*1 →
  ∃ m, decode_object (encode_object fs) = Some m ∧ ∀ k, m !! k = list_to_map (M := gmap string string) fs !! k.
Proof.
  intros Hfs Hnd. pose proof (struct_members_encode fs Hfs) as Hs. unfold struct_members in Hs.
  unfold decode_object, decode_raw_map. rewrite encode_object_not_null in Hs |- * by done. rewrite Hs.
  cbn [mbind option_bind default from_option]. eexists. split; [done|]. intros k.
  rewrite foldl_insert_lookup; [|done|intros f _; apply lookup_empty]. rewrite lookup_empty. by case_match.
Qed.

(** The text that is written is read as the same members, each rewritten. *)
Lemma encode_raw_map_ok d m :
  good_map d m → 0 ≤ d < maxNestingDepth →
  ∃ text, encode_raw_map m = Some text ∧ value_at (d + 1) text ∧
    ∃ m', decode_object text = Some m' ∧ ∀ k, m' !! k = m !! k ≫= encode_raw.
Proof.
  intros Hm Hd. unfold encode_raw_map. set (l := sort_members (map_to_list m)).
  assert (l ≡ₚ map_to_list m) as Hp by apply sort_members_perm.
  assert (Forall (good_member d) l) as Hl.
  { apply Forall_forall. intros [k v] Hin. rewrite Hp in Hin. by apply Hm, elem_of_map_to_list. }
  assert (NoDup l.*1) as Hnd by (rewrite Hp; apply NoDup_fst_map_to_list).
  assert (∀ k v, (k, v) ∈ l ↔ m !! k = Some v) as Hin by (intros k v; by rewrite Hp, elem_of_map_to_list).
  destruct (encode_fields_ok d l Hl ltac:(lia)) as (fs & -> & Hgood & Hkeys & Hfs).
  cbn [mbind option_bind]. exists (encode_object fs). split; [done|].
  split; [apply encode_object_value; [lia|]; by replace (d + 1 - 1) with d by lia|].
  destruct (decode_object_encode fs) as (m' & Hm' & Hlk); [|by rewrite Hkeys|].
  { eapply Forall_impl; [done|]. intros f [? ?]. split; [done|]. eapply value_at_weaken; [done|]. lia. }
  exists m'. split; [done|]. intros k. rewrite Hlk.
  destruct (list_to_map (M := gmap string string) fs !! k) as [t|] eqn:Hk.
  - apply elem_of_list_to_map in Hk; [|by rewrite Hkeys]. apply Hfs in Hk as (v & Hv%Hin & He). by rewrite Hv.
  - destruct (m !! k) as [v|] eqn:Hmk; [|done]. exfalso. apply Hin in Hmk.
    apply not_elem_of_list_to_map in Hk. apply Hk. rewrite Hkeys. by apply (list_elem_of_fmap_2 fst _ (k, v)).
Qed.

(** ** What is forwarded *)

(** The same JSON value, wherever the text has one (no duplicate keys in it). *)
Definition same_value (a b : string) : Prop := ∀ t, read_json a = Some t → read_json b = Some t.

Definition forwarded (a b : option string) : Prop :=
  match a, b with Some a, Some b => same_value a b | None, None => True | _, _ => False end.

Lemma forwarded_refl a : forwarded a a.
Proof. destruct a; [by intros t|done]. Qed.

Lemma forwarded_trans a b c : forwarded a b → forwarded b c → forwarded a c.
Proof. destruct a, b, c; try done. intros Hab Hbc t Ht. by apply Hbc, Hab. Qed.

Lemma good_insert d k v m : utf8_Valid k = true → value_at d v → good_map d m → good_map d (<[k := v]> m).
Proof. intros Hk Hv Hm k' v' [[<- <-]|[_ Hin]]%lookup_insert_Some; [done|by apply Hm]. Qed.

Lemma true_value d : value_at d "true".
Proof. by apply value_at_flat. Qed.

(** Writing a map forwards its members. *)
Lemma encode_raw_map_forwards d m :
  good_map d m → 0 ≤ d < maxNestingDepth →
  ∃ text, encode_raw_map m = Some text ∧ value_at (d + 1) text ∧
    ∃ m', decode_object text = Some m' ∧ good_map d m' ∧ ∀ k, forwarded (m !! k) (m' !! k).
Proof.
  intros Hm Hd. destruct (encode_raw_map_ok d m Hm Hd) as (text & Htext & Hv & m' & Hm' & Hk).
  exists text. split_and!; [done..|]. exists m'. split_and!; [done| |].
  - replace d with (d + 1 - 1) by lia. eapply decode_object_good; [|exact Hv|lia|exact Hm'].
    apply value_at_text in Hv; [by destruct Hv|lia].
  - intros k. rewrite Hk. destruct (m !! k) as [v|] eqn:Hv'; [|done]. cbn. destruct (Hm k v Hv') as [_ Hval].
    destruct (encode_raw_value _ _ Hval ltac:(lia)) as (t & Ht & _). rewrite Ht. cbn.
    intros x Hx. by eapply read_json_encode_raw.
Qed.

Lemma decode_object_values raw m : decode_object raw = Some m → good_map (maxNestingDepth - 1) m.
Proof.
  intros Hm. destruct (decode_object_text _ _ Hm) as (t & Ht & Hv). by eapply decode_object_good.
Qed.

Lemma read_json_string s : utf8_Valid s = true → read_json (encode_string s) = Some (JString s).
Proof. intros Hs. by apply (read_json_encode (JString s)). Qed.

(** The members of the body that [compatibleRequestBody] makes. *)
Lemma compatibleRequestBody_spec input body new :
  compatibleRequestBody input = Ok body → decode_object body = Some new →
  ∃ old, decode_object (cq_rawBody (ci_Request input)) = Some old ∧
    (∀ k, k ≠ "model"%string ∨ ci_ModelOverride input = ""%string → forwarded (old !! k) (new !! k)) ∧
    (ci_ModelOverride input ≠ ""%string → utf8_Valid (TrimSpace (ci_ModelOverride input)) = true →
     read_json (raw_lookup (Some new) "model") = Some (JString (TrimSpace (ci_ModelOverride input)))).
Proof.
  unfold compatibleRequestBody. destruct (String.eqb_spec (ci_ModelOverride input) "") as [Hover|Hover].
  { intros [= <-] Hnew. exists new. split_and!; [done|intros; apply forwarded_refl|done]. }
  destruct (decode_object (cq_rawBody _)) as [payload|] eqn:Hp; [|done].
  destruct (_ =? _)%string; [done|]. set (model := TrimSpace (ci_ModelOverride input)).
  destruct (encode_raw_map _) as [mapped|] eqn:He; [|done]. intros [= <-] Hnew. exists payload.
  destruct (encode_raw_map_forwards (maxNestingDepth - 1) (<["model" := encode_string model]> payload))
    as (text & Htext & _ & m' & Hm' & _ & Hfwd); [|done|].
  { apply good_insert; [done|apply encode_string_value|by eapply decode_object_values]. }
  rewrite He in Htext. injection Htext as <-. rewrite Hnew in Hm'. injection Hm' as <-. split_and!; [done| |].
  - intros k [Hk|]; [|done]. specialize (Hfwd k). by rewrite lookup_insert_ne in Hfwd.
  - intros _ Hutf. specialize (Hfwd "model"%string). rewrite lookup_insert_eq in Hfwd. unfold raw_lookup.
    destruct (new !! "model"%string) as [t|]; [|done]. cbn. by apply Hfwd, read_json_string.
Qed.

(** The options that are sent with a streaming request. *)
Lemma stream_options_spec d raw text :
  raw = ""%string ∨ value_at d raw → 1 ≤ d < maxNestingDepth → stream_options raw = Some text →
  value_at d text ∧ ∃ old new,
    (if absent raw then Some ∅ else decode_object raw) = Some old ∧ decode_object text = Some new ∧
    forwarded (Some "true"%string) (new !! "include_usage"%string) ∧
    ∀ k, k ≠ "include_usage"%string → forwarded (old !! k) (new !! k).
Proof.
  intros Hraw Hd. unfold stream_options.
  assert (TrimSpace raw = raw) as -> by (destruct Hraw as [-> | Hv]; [done|by eapply value_trimmed]).
  intros (options & Ho & He)%bind_Some.
  assert (good_map (d - 1) options) as Hgood.
  { unfold absent in Ho. destruct (String.eqb_spec raw ""); cbn [orb] in Ho.
    { injection Ho as <-. intros k v Hk. by rewrite lookup_empty in Hk. }
    destruct Hraw as [|Hv]; [done|]. destruct (raw =? "null")%string.
    { injection Ho as <-. intros k v Hk. by rewrite lookup_empty in Hk. }
    eapply decode_object_good; [|exact Hv|lia|exact Ho]. apply value_at_text in Hv; [by destruct Hv|lia]. }
  destruct (encode_raw_map_forwards (d - 1) (<["include_usage" := "true"%string]> options))
    as (text' & Htext & Hv & new & Hnew & _ & Hfwd); [|lia|].
  { by apply good_insert; [|apply true_value|]. }
  rewrite He in Htext. injection Htext as <-. split; [by replace d with (d - 1 + 1) by lia|].
  exists options, new. split_and!; [done|done| |].
  - specialize (Hfwd "include_usage"%string). by rewrite lookup_insert_eq in Hfwd.
  - intros k Hk. specialize (Hfwd k). by rewrite lookup_insert_ne in Hfwd.
Qed.

(** The streaming body against the plain one. *)
Lemma compatibleStreamRequestBody_spec input includeUsage body :
  compatibleStreamRequestBody input includeUsage = Ok body →
  ∃ plain mid new, compatibleRequestBody input = Ok plain ∧ decode_object plain = Some mid ∧
    decode_object body = Some new ∧ read_json (raw_lookup (Some new) "stream") = Some (JBool true) ∧
    (∀ k, k ≠ "stream"%string → (k ≠ "stream_options"%string ∨ includeUsage = false) → forwarded (mid !! k) (new !! k)) ∧
    (includeUsage = true → ∃ options,
       stream_options (raw_lookup (Some mid) "stream_options") = Some options ∧
       forwarded (Some options) (new !! "stream_options"%string)).
Proof.
  unfold compatibleStreamRequestBody. destruct (compatibleRequestBody input) as [plain|]; [|done].
  destruct (decode_object plain) as [mid|] eqn:Hmid; [|done].
  pose proof (decode_object_values _ _ Hmid) as Hgood.
  assert (good_map (maxNestingDepth - 1) (<["stream" := "true"]> mid)) as Hstream
    by by apply good_insert; [|apply true_value|].
  assert (raw_lookup (Some (<["stream" := "true"]> mid)) "stream_options" = raw_lookup (Some mid) "stream_options") as ->
    by (unfold raw_lookup; by rewrite lookup_insert_ne).
  assert (∀ payload, good_map (maxNestingDepth - 1) payload → payload !! "stream"%string = Some "true"%string →
    encode_raw_map payload = Some body →
    ∃ new, decode_object body = Some new ∧ read_json (raw_lookup (Some new) "stream") = Some (JBool true) ∧
      ∀ k, forwarded (payload !! k) (new !! k)) as Hgo.
  { intros payload Hp Hs He. destruct (encode_raw_map_forwards _ _ Hp ltac:(done)) as (t & Ht & _ & new & Hnew & _ & Hfwd).
    rewrite He in Ht. injection Ht as <-. exists new. split_and!; [done| |done].
    specialize (Hfwd "stream"%string). rewrite Hs in Hfwd. unfold raw_lookup.
    destruct (new !! "stream"%string); [|done]. by apply Hfwd. }
  destruct includeUsage.
  - destruct (stream_options _) as [options|] eqn:Ho; [|done]. cbn [mbind option_bind].
    destruct (encode_raw_map _) as [b|] eqn:He; [|done]. intros [= ->].
    assert (value_at (maxNestingDepth - 1) options) as Hvo.
    { apply (stream_options_spec (maxNestingDepth - 1)) in Ho as [Hv _]; [done| |done]. unfold raw_lookup.
      destruct (mid !! "stream_options"%string) as [v|] eqn:Hv; [right; by apply Hgood in Hv as [_ Hv]|by left]. }
    apply Hgo in He as (new & Hnew & Hs & Hfwd); [|by apply good_insert|by rewrite lookup_insert_ne, lookup_insert_eq].
    exists plain, mid, new. split_and!; [done..| |].
    + intros k Hk [Hko|]; [|done]. specialize (Hfwd k). by rewrite !lookup_insert_ne in Hfwd.
    + intros _. exists options. split; [done|]. specialize (Hfwd "stream_options"%string). by rewrite lookup_insert_eq in Hfwd.
  - cbn [mbind option_bind]. destruct (encode_raw_map _) as [b|] eqn:He; [|done]. intros [= ->].
    apply Hgo in He as (new & Hnew & Hs & Hfwd); [|done|by rewrite lookup_insert_eq].
    exists plain, mid, new. split_and!; [done..| |done].
    intros k Hk _. specialize (Hfwd k). by rewrite lookup_insert_ne in Hfwd.
Qed.

(** ** Theorems *)

(** C36: A compatible upstream is sent the client's request: of the members of the JSON
    object only [model] (the model the route chose, when it chose one), [stream] (true)
    and, when the usage is asked for, [include_usage] (true) in [stream_options] are
    set; every other member is present exactly when the client sent it and is the same
    JSON value. *)
Theorem streamed_request_forwarded input includeUsage body :
  compatibleStreamRequestBody input includeUsage = Ok body →
  ∃ old mid new,
    decode_object (cq_rawBody (ci_Request input)) = Some old ∧ decode_object body = Some new ∧
    read_json (raw_lookup (Some new) "stream") = Some (JBool true) ∧
    (ci_ModelOverride input ≠ ""%string → utf8_Valid (TrimSpace (ci_ModelOverride input)) = true →
     read_json (raw_lookup (Some new) "model") = Some (JString (TrimSpace (ci_ModelOverride input)))) ∧
    (∀ k, k ≠ "stream"%string → (k = "model"%string → ci_ModelOverride input = ""%string) →
       (k = "stream_options"%string → includeUsage = false) → forwarded (old !! k) (new !! k)) ∧
    (includeUsage = true →
       forwarded (old !! "stream_options"%string) (mid !! "stream_options"%string) ∧
       ∃ options oldOptions newOptions,
         (if absent (raw_lookup (Some mid) "stream_options") then Some ∅
          else decode_object (raw_lookup (Some mid) "stream_options")) = Some oldOptions ∧
         decode_object options = Some newOptions ∧ forwarded (Some options) (new !! "stream_options"%string) ∧
         read_json (raw_lookup (Some newOptions) "include_usage") = Some (JBool true) ∧
         ∀ k, k ≠ "include_usage"%string → forwarded (oldOptions !! k) (newOptions !! k)).
Proof.
  intros (plain & mid & new & Hplain & Hmid & Hnew & Hs & Hfwd & Hopt)%compatibleStreamRequestBody_spec.
  destruct (compatibleRequestBody_spec _ _ _ Hplain Hmid) as (old & Hold & Hkeep & Hmodel).
  exists old, mid, new. split_and!; [done|done|done| | |].
  - intros Ho Hu. specialize (Hmodel Ho Hu). specialize (Hfwd "model"%string ltac:(done) ltac:(by left)).
    unfold raw_lookup in Hmodel |- *. destruct (mid !! "model"%string) as [v|]; [|done].
    destruct (new !! "model"%string) as [w|]; [|done]. by apply Hfwd.
  - intros k Hk Hm Hso. eapply forwarded_trans; [apply Hkeep|apply Hfwd; [done|]].
    + destruct (decide (k = "model"%string)); [right; auto|by left].
    + destruct (decide (k = "stream_options"%string)); [right; auto|by left].
  - intros Hu. split; [apply Hkeep; by left|]. destruct (Hopt Hu) as (options & Ho & Hf).
    apply (stream_options_spec (maxNestingDepth - 1)) in Ho as [_ (oo & no & Hoo & Hno & Hiu & Hrest)]; [| |done].
    + exists options, oo, no. split_and!; [done..| |done]. unfold raw_lookup.
      destruct (no !! "include_usage"%string) as [v|]; [|done]. by apply Hiu.
    + unfold raw_lookup. apply decode_object_values in Hmid.
      destruct (mid !! "stream_options"%string) as [v|] eqn:Hv; [right; by apply Hmid in Hv as [_ Hv]|by left].
Qed.

Example demo_input : ChatInput :=
  {| ci_RequestID := "r1"; ci_Request := demo_request; ci_ModelOverride := " gpt-x " |}.

Example demo_stream_body : string := text
  "{'max_tokens':5,'messages':[{'role':'user','content':'hi'},{'role':'assistant','tool_calls':[{'id':'a','type':'function','function':{'name':'f','arguments':''}}]},{'role':'tool','tool_call_id':'a','name':'f','content':'x'}],'model':'gpt-x','stream':true,'stream_options':{'include_usage':true},'temperature':0.5,'tool_choice':'auto','tools':[{'type':'function','function':{'name':'f','parameters':{}}}]}".

Lemma streamed_request_forwarded_witness :
  compatibleStreamRequestBody demo_input true = Ok demo_stream_body ∧
  ∃ old new, decode_object (cq_rawBody demo_request) = Some old ∧ decode_object demo_stream_body = Some new ∧
    read_json (raw_lookup (Some new) "model") = Some (JString "gpt-x") ∧
    forwarded (old !! "messages"%string) (new !! "messages"%string).
Proof.
  assert (compatibleStreamRequestBody demo_input true = Ok demo_stream_body) as Hbody by (vm_compute; reflexivity).
  split; [exact Hbody|].
  destruct (streamed_request_forwarded _ _ _ Hbody) as (old & mid & new & Hold & Hnew & _ & Hmodel & Hkeep & _).
  exists old, new. split; [exact Hold|]. split; [exact Hnew|]. split.
  - apply Hmodel; [done|vm_compute; reflexivity].
  - apply Hkeep; [done|done|done].
Defined.
