(* ===== verification/Embedding.v ===== *)
(** * Embeddings ([provider/embedding.go])

    Requests for embeddings and their answers: what is accepted, how it is brought
    through the reliability layer, and what the adapters that can embed send and let
    through. *)

From Stdlib Require Import Floats SpecFloat.
From S2P Require Import Prelude Failure Encoding Json JsonWrite JsonTree JsonSame JsonCodec Routing ChatContent Sse Binary64 FloatText ChatRequest Transport Compatible.

Open Scope Z_scope.

(** ** Requests *)

Definition maximumEmbeddingInputs : Z := 2048.

Record EmbeddingRequest := {
  er_Model : string;
  er_Input : string;
  er_EncodingFormat : string;
  er_Dimensions : option Z;
  er_User : string;
  er_rawBody : string;
}.

Record EmbeddingInput := { ei_RequestID : string; ei_Request : EmbeddingRequest; ei_ModelOverride : string }.

Definition decode_embedding (body : string) : option EmbeddingRequest :=
  ms ← struct_members body;
  model ← field "model" decode_string ""%string ms;
  input ← field "input" decode_raw ""%string ms;
  format ← field "encoding_format" decode_string ""%string ms;
  dimensions ← field "dimensions" (decode_ptr 0 decode_int) None ms;
  user ← field "user" decode_string ""%string ms;
  Some {| er_Model := model; er_Input := input; er_EncodingFormat := format; er_Dimensions := dimensions;
          er_User := user; er_rawBody := "" |}.

(** Slices of strings, of tokens and of lists of tokens. *)
Definition string_list (raw : string) : option (list string) := sl_elems <$> decode_slice ""%string decode_string nil_slice raw.
Definition token_list (raw : string) : option (list Z) := sl_elems <$> decode_slice 0 decode_int nil_slice raw.
Definition token_batches (raw : string) : option (list (list Z)) :=
  map sl_elems <$> (sl_elems <$> decode_slice nil_slice (decode_slice 0 decode_int) nil_slice raw).

Definition validEmbeddingInputShape (raw : string) : bool :=
  let raw := TrimSpace raw in
  if (raw =? "")%string || (raw =? "null")%string then false
  else
    match decode_string "" raw with
    | Some text => negb (text =? "")%string
    | None =>
        match string_list raw with
        | Some values =>
            negb (bool_decide (values = [])) && (Z.of_nat (length values) <=? maximumEmbeddingInputs) &&
            forallb (λ value, negb (value =? "")%string) values
        | None =>
            match token_list raw with
            | Some tokens => negb (bool_decide (tokens = []))
            | None =>
                match token_batches raw with
                | Some batches =>
                    negb (bool_decide (batches = [])) && (Z.of_nat (length batches) <=? maximumEmbeddingInputs) &&
                    forallb (λ batch, negb (bool_decide (batch = []))) batches
                | None => false
                end
            end
        end
    end.

(** The texts, and whether they came as a list. *)
Definition StringInputs (request : EmbeddingRequest) : result GoErr (list string * bool) :=
  match decode_string "" (er_Input request) with
  | Some text => if (text =? "")%string then Err invalid_request else Ok ([text], false)
  | None =>
      match string_list (er_Input request) with
      | Some [] => Err invalid_request
      | Some values => Ok (values, true)
      | None => Err unsupported
      end
  end.

Definition InputCount (request : EmbeddingRequest) : Z :=
  let input := er_Input request in
  match decode_string "" input, string_list input, token_list input, token_batches input with
  | Some _, _, _, _ => 1
  | None, Some values, _, _ => Z.of_nat (length values)
  | None, None, Some _, _ => 1
  | None, None, None, Some batches => Z.of_nat (length batches)
  | _, _, _, _ => 0
  end.

Section parse.
Context `{Unicode}.

Definition embedding_fields : list string := ["model"; "input"; "encoding_format"; "dimensions"; "user"]%string.

Definition with_body (body : string) (r : EmbeddingRequest) : EmbeddingRequest :=
  {| er_Model := er_Model r; er_Input := er_Input r; er_EncodingFormat := er_EncodingFormat r;
     er_Dimensions := er_Dimensions r; er_User := er_User r; er_rawBody := body |}.

Definition ParseEmbeddingRequest (body : string) : result GoErr EmbeddingRequest :=
  match decode_object body, decode_embedding body with
  | Some fields, Some request =>
      if negb (forallb (λ f : string * string, bool_decide (f.1 ∈ embedding_fields)) (map_to_list fields)) then Err unsupported
      else
        let format := ToLower (TrimSpace (er_EncodingFormat request)) in
        let request :=
          {| er_Model := TrimSpace (er_Model request); er_Input := er_Input request;
             er_EncodingFormat := if (format =? "")%string then "float" else format;
             er_Dimensions := er_Dimensions request; er_User := er_User request; er_rawBody := "" |} in
        if (er_Model request =? "")%string ||
           (negb (er_EncodingFormat request =? "float")%string && negb (er_EncodingFormat request =? "base64")%string) ||
           match er_Dimensions request with Some d => d <=? 0 | None => false end
        then Err invalid_request
        else
          match StringInputs request with
          | Err e => if errors_Is ErrUnsupportedCapability e
                     then if validEmbeddingInputShape (er_Input request) then Ok (with_body body request) else Err invalid_request
                     else Err e
          | Ok _ => if validEmbeddingInputShape (er_Input request) then Ok (with_body body request) else Err invalid_request
          end
  | _, _ => Err invalid_request
  end.

(** The request of the reliability layer, which knows chat requests only. *)
Definition ReliabilityRequest (request : EmbeddingRequest) : ChatRequest :=
  Build_ChatRequest (er_Model request)
    [{| msg_Role := "user"; msg_Content := String quote_byte ("embedding" ++ String quote_byte ""); msg_Name := ""; msg_ToolCallID := "";
        msg_ToolCalls := []; msg_extraFields := [] |}]
    false None None None None "" [] "" None "" None None None None None None "" (er_rawBody request) [].

Definition decodeEmbeddingInput (input : EmbeddingInput) : result GoErr EmbeddingRequest :=
  let r := ei_Request input in
  let model := if (ei_ModelOverride input =? "")%string then er_Model r else TrimSpace (ei_ModelOverride input) in
  if (model =? "")%string then Err invalid_request
  else Ok {| er_Model := model; er_Input := er_Input r; er_EncodingFormat := er_EncodingFormat r;
             er_Dimensions := er_Dimensions r; er_User := er_User r; er_rawBody := er_rawBody r |}.

Definition compatibleEmbeddingBody (input : EmbeddingInput) : result GoErr string :=
  request ← decodeEmbeddingInput input;
  match decode_object (er_rawBody request) with
  | None => Err invalid_request
  | Some payload =>
      match encode_raw_map (<["model" := encode_string (er_Model request)]> payload) with
      | Some body => Ok body
      | None => Err invalid_request
      end
  end.
End parse.

(** ** Answers *)

Record EmbeddingItem := { it_Object : string; it_Embedding : string; it_Index : Z }.
Definition no_item : EmbeddingItem := {| it_Object := ""; it_Embedding := ""; it_Index := 0 |}.

Definition decode_item : decoder EmbeddingItem := λ old raw,
  ms ← struct_members raw;
  object ← field "object" decode_string (it_Object old) ms;
  embedding ← field "embedding" decode_raw (it_Embedding old) ms;
  index ← field "index" decode_int (it_Index old) ms;
  Some {| it_Object := object; it_Embedding := embedding; it_Index := index |}.

(** The token counts are decoded, but not used. *)
Definition decode_counts : decoder (Z * Z) := λ old raw,
  ms ← struct_members raw;
  prompt ← field "prompt_tokens" decode_int old.1 ms;
  total ← field "total_tokens" decode_int old.2 ms;
  Some (prompt, total).

Record EmbeddingResponse := { ea_Object : string; ea_Data : list EmbeddingItem; ea_Model : string }.

Definition decode_embedding_response (body : string) : option EmbeddingResponse :=
  ms ← struct_members body;
  object ← field "object" decode_string ""%string ms;
  data ← field "data" (decode_slice no_item decode_item) nil_slice ms;
  model ← field "model" decode_string ""%string ms;
  _ ← field "usage" decode_counts (0, 0) ms;
  Some {| ea_Object := object; ea_Data := sl_elems data; ea_Model := model |}.

(** [base64.StdEncoding]: the alphabet ends in + and /, and the last quantum is padded. *)
Definition std_value (c : Z) : option Z :=
  if c =? 43 then Some 62 else if c =? 47 then Some 63
  else if (c =? 45) || (c =? 95) then None else b64_value c.

Definition unpadded (l : list Z) : list Z :=
  match rev l with
  | 61 :: 61 :: r => rev r
  | 61 :: r => rev r
  | _ => l
  end.

Definition StdDecodeString (s : string) : option (list Z) :=
  let l := List.filter (λ c, negb (is_newline c)) (bytes_of s) in
  if (length l mod 4 =? 0)%nat then values ← mapM std_value (unpadded l); b64_join values else None.

(** The dimensions of an embedding, as a list of numbers or as encoded 32-bit floats. *)
Definition embedding_dimensions (raw : string) : option Z :=
  match decode_slice 0%float decode_float nil_slice raw with
  | Some vector => if bool_decide (sl_elems vector = []) then None else Some (Z.of_nat (length (sl_elems vector)))
  | None =>
      match decode_string "" raw with
      | None => None
      | Some encoded =>
          if (encoded =? "")%string then None
          else
            match StdDecodeString encoded with
            | None => None
            | Some decoded =>
                let n := Z.of_nat (length decoded) in
                if (n =? 0) || negb (n mod 4 =? 0) then None else Some (n / 4)
            end
      end
  end.

Fixpoint check_items (expectedDimensions : option Z) (count : Z) (seen : gset Z) (items : list EmbeddingItem) : bool :=
  match items with
  | [] => true
  | item :: items =>
      if negb (it_Object item =? "embedding")%string || (it_Embedding item =? "")%string || (it_Index item <? 0) then false
      else if bool_decide (it_Index item ∈ seen) then false
      else if count <=? it_Index item then false
      else
        match embedding_dimensions (it_Embedding item) with
        | None => false
        | Some n =>
            match expectedDimensions with Some d => n =? d | None => true end &&
            check_items expectedDimensions count ({[it_Index item]} ∪ seen) items
        end
  end.

Definition validateEmbeddingResponseShape (body : string) (expected : Z) (expectedDimensions : option Z) : bool :=
  match decode_embedding_response body with
  | None => false
  | Some response =>
      let count := Z.of_nat (length (ea_Data response)) in
      (ea_Object response =? "list")%string && (0 <? count) && negb (TrimSpace (ea_Model response) =? "")%string &&
      ((expected <=? 0) || (count =? expected)) && check_items expectedDimensions count ∅ (ea_Data response)
  end.

(** ** Adapters *)

(** [strings.Replace(s, old, new, 1)]. *)
Fixpoint replace_first (s old new : string) : string :=
  if HasPrefix s old then (new ++ String.substring (String.length old) (String.length s - String.length old) s)%string
  else match s with String c rest => String c (replace_first rest old new) | EmptyString => ""%string end.

Section adapters.
Context `{Unicode} `{NetURL} `{HTTPClient}.

Definition embed_at (endpoint : string) (input : EmbeddingInput) (headers : Header) : result GoErr string :=
  request ← decodeEmbeddingInput input;
  body ← compatibleEmbeddingBody input;
  response ← post endpoint (ei_RequestID input) body headers;
  if validateEmbeddingResponseShape response (InputCount request) (er_Dimensions request)
  then Ok response else Err (ESentinel ErrInvalidResponse).

Definition compatible_Embed (adapter : chatAdapter) (input : EmbeddingInput) (apiKey : string) : result GoErr string :=
  embed_at (TrimSuffix (ad_endpoint adapter) "/chat/completions" ++ "/embeddings") input (bearer (TrimSpace apiKey)).

Definition azure_Embed (endpoint : string) (input : EmbeddingInput) (apiKey : string) : result GoErr string :=
  embed_at (replace_first endpoint "/chat/completions" "/embeddings") input (azure_key (TrimSpace apiKey)).

(** [embeddingBridge.Complete], around the [Embed] of an adapter. *)
Definition bridge_Complete (embed : EmbeddingInput → string → result GoErr string) (input : ChatInput) (apiKey : string)
    : result GoErr string :=
  request ← ParseEmbeddingRequest (cq_rawBody (ci_Request input));
  embed {| ei_RequestID := ci_RequestID input; ei_Request := request; ei_ModelOverride := ci_ModelOverride input |} apiKey.
End adapters.

Example embedding_examples :
  map (λ b, match @ParseEmbeddingRequest (λ s, s) (text b) with Ok r => Some (InputCount r) | Err _ => None end)
    ["{'model':' m ','input':'a'}"; "{'model':'m','input':['a','b'],'encoding_format':'BASE64'}"; "{'model':'m','input':[1,2,3]}";
     "{'model':'m','input':[[1],[2,3]],'dimensions':2}"; "{'model':'m','input':[]}"; "{'model':'m','input':['a','']}";
     "{'model':'m','input':[[1],[]]}"; "{'model':'m','input':'a','Input':'b'}"; "{'model':'m','input':'a','dimensions':0}"]%string =
    [Some 1; Some 2; Some 1; Some 2; None; None; None; None; None] ∧
  map (λ b, validateEmbeddingResponseShape (text b) 2 (Some 1))
    ["{'object':'list','model':'m','data':[{'object':'embedding','embedding':[0.5],'index':1},{'object':'embedding','embedding':'AAAAAA==','index':0}]}";
     "{'object':'list','model':'m','data':[{'object':'embedding','embedding':[0.5],'index':1},{'object':'embedding','embedding':[1],'index':1}]}";
     "{'object':'list','model':'m','data':[{'object':'embedding','embedding':[0.5,2],'index':1},{'object':'embedding','embedding':[1],'index':0}]}";
     "{'object':'list','model':'m','data':[{'object':'embedding','embedding':[0.5],'index':0}]}"]%string =
    [true; false; false; false].
Proof. vm_compute. done. Qed.

(** ** What is accepted *)

Lemma field_raw name ms t : field name decode_raw ""%string ms = Some t → t = ""%string ∨ ∃ d, value_at d t.
Proof.
  unfold field. enough (∀ acc, (∀ t, acc = Some t → t = ""%string ∨ ∃ d, value_at d t) → ∀ t,
    foldl (λ acc m, if bool_decide (folded m.1 = folded name) then a ← acc; decode_raw a m.2 else acc) acc ms = Some t →
    t = ""%string ∨ ∃ d, value_at d t) as H by (intros Ht; eapply H; [|exact Ht]; intros ? [= <-]; by left).
  induction ms as [|m ms IH]; intros acc Hacc s Hs; [by apply Hacc|]. cbn [foldl] in Hs. eapply IH; [|exact Hs].
  intros u Hu. case_bool_decide; [|by apply Hacc]. apply bind_Some in Hu as (a & _ & Hv%value_text_scan).
  right. exists maxNestingDepth. by exists (scan_fuel u).
Qed.

Record embedding_ok (r : EmbeddingRequest) : Prop := {
  eo_model : er_Model r ≠ ""%string ∧ TrimSpace (er_Model r) = er_Model r;
  eo_format : er_EncodingFormat r = "float"%string ∨ er_EncodingFormat r = "base64"%string;
  eo_dimensions : ∀ d, er_Dimensions r = Some d → 0 < d;
  eo_count : 1 ≤ InputCount r ≤ maximumEmbeddingInputs;
  eo_texts : ∀ texts many, StringInputs r = Ok (texts, many) →
    Z.of_nat (length texts) = InputCount r ∧ Forall (λ s, s ≠ ""%string) texts ∧ (many = false → length texts = 1%nat);
}.

Lemma shape_ok r :
  (er_Input r = ""%string ∨ ∃ d, value_at d (er_Input r)) → validEmbeddingInputShape (er_Input r) = true →
  1 ≤ InputCount r ≤ maximumEmbeddingInputs ∧
  ∀ texts many, StringInputs r = Ok (texts, many) →
    Z.of_nat (length texts) = InputCount r ∧ Forall (λ s, s ≠ ""%string) texts ∧ (many = false → length texts = 1%nat).
Proof.
  intros Hin. unfold validEmbeddingInputShape.
  assert (TrimSpace (er_Input r) = er_Input r) as -> by (destruct Hin as [->|[d Hv]]; [done|by eapply value_trimmed]).
  destruct (_ || _); [done|]. unfold InputCount, StringInputs, maximumEmbeddingInputs.
  destruct (decode_string "" (er_Input r)) as [t|].
  { destruct (String.eqb_spec t ""); [done|]. intros _. split; [lia|]. intros texts many [= <- <-]. split_and!; [done| |done].
    by apply Forall_singleton. }
  destruct (string_list (er_Input r)) as [values|].
  { intros ([Hne Hlen]%andb_true_iff & Hall)%andb_true_iff. apply negb_true_iff, bool_decide_eq_false in Hne.
    rewrite forallb_forall in Hall. unfold maximumEmbeddingInputs in Hlen. split.
    - apply Z.leb_le in Hlen. destruct values; [done|]. cbn in *. lia.
    - intros texts many. destruct values as [|v values]; [done|]. intros [= <- <-]. split_and!; [done| |done].
      apply Forall_forall. intros s Hs. apply list_elem_of_In, Hall, negb_true_iff in Hs. by apply String.eqb_neq. }
  destruct (token_list (er_Input r)); [intros _; split; [lia|done]|].
  destruct (token_batches (er_Input r)) as [batches|]; [|done].
  intros ([Hne Hlen]%andb_true_iff & _)%andb_true_iff. apply negb_true_iff, bool_decide_eq_false in Hne.
  apply Z.leb_le in Hlen. unfold maximumEmbeddingInputs in Hlen. split; [|done]. destruct batches; [done|]. cbn in *. lia.
Qed.

Section parsed.
Context `{Unicode}.

Lemma ParseEmbeddingRequest_ok body r : ParseEmbeddingRequest body = Ok r → embedding_ok r ∧ er_rawBody r = body ∧ is_Some (decode_object body).
Proof.
  unfold ParseEmbeddingRequest. destruct (decode_object body) as [fields|]; [|done]. destruct (decode_embedding body) as [q|] eqn:Hq; [|done].
  destruct (negb (forallb _ _)); [done|]. cbv zeta.
  match goal with |- context [StringInputs ?q] => set (request := q) end.
  destruct (_ || _) eqn:Hc; [done|]. apply orb_false_iff in Hc as [[Hm Hf]%orb_false_iff Hd].
  assert ((if validEmbeddingInputShape (er_Input request) then Ok (with_body body request) else Err invalid_request) = Ok r → embedding_ok r ∧
    er_rawBody r = body ∧ is_Some (Some fields)) as Hgo.
  { destruct (validEmbeddingInputShape (er_Input request)) eqn:Hs; [|done]. intros [= <-]. split; [|by eauto].
    destruct (shape_ok (with_body body request)) as [Hcount Htexts]; [|exact Hs|].
    { cbn. unfold decode_embedding in Hq. repeat (apply bind_Some in Hq as (? & ? & Hq)). injection Hq as <-. by eapply field_raw. }
    split; [|..|done|done].
    - split; [by apply String.eqb_neq|]. apply TrimSpace_idem.
    - apply andb_false_iff in Hf as [Hf|Hf]; apply negb_false_iff, String.eqb_eq in Hf; auto.
    - intros d Hd'. change (er_Dimensions (with_body body request)) with (er_Dimensions request) in Hd'. rewrite Hd' in Hd. lia. }
  destruct (StringInputs request) as [?|e]; [done|]. by destruct (errors_Is _ e).
Qed.

(** ** What is let through *)

Lemma embedding_dimensions_pos raw n : embedding_dimensions raw = Some n → 0 < n.
Proof.
  unfold embedding_dimensions. destruct (decode_slice _ _ _ raw) as [v|].
  { case_bool_decide as Hv; [done|]. intros [= <-]. destruct (sl_elems v); [done|]. cbn. lia. }
  destruct (decode_string "" raw) as [e|]; [|done]. destruct (_ =? _)%string; [done|]. destruct (StdDecodeString e) as [l|]; [|done].
  destruct (Z.eqb_spec (Z.of_nat (length l)) 0); [done|]. destruct (Z.eqb_spec (Z.of_nat (length l) mod 4) 0); [|done].
  intros [= <-]. cbn. apply Z.div_str_pos. split; [lia|]. apply Z.divide_pos_le; [lia|]. by apply Z.mod_divide.
Qed.

Definition item_ok (dimensions : option Z) (item : EmbeddingItem) : Prop :=
  ∃ n, embedding_dimensions (it_Embedding item) = Some n ∧ 0 < n ∧ ∀ d, dimensions = Some d → n = d.

Lemma check_items_ok dimensions count seen items :
  check_items dimensions count seen items = true →
  NoDup (map it_Index items) ∧ Forall (λ item, 0 ≤ it_Index item < count ∧ (it_Index item ∉ seen) ∧ item_ok dimensions item) items.
Proof.
  revert seen. induction items as [|i items IH]; intros seen; [by split; constructor|]. cbn [check_items].
  destruct (_ || _) eqn:Hc; [done|]. apply orb_false_iff in Hc as [_ Hneg]. case_bool_decide as Hseen; [done|].
  destruct (Z.leb_spec count (it_Index i)); [done|]. destruct (embedding_dimensions _) as [n|] eqn:Hn; [|done].
  intros [Hd Hrest]%andb_true_iff. apply IH in Hrest as [Hnd Hall]. rewrite Forall_forall in Hall. split.
  - cbn [map]. apply NoDup_cons. split; [|done]. intros (j & Hj & Hin)%list_elem_of_fmap. destruct (Hall j Hin) as (_ & Hns & _). set_solver.
  - apply Forall_cons. split.
    + split_and!; [lia|lia|done|]. exists n. split_and!; [done|by eapply embedding_dimensions_pos|]. intros d ->. by apply Z.eqb_eq.
    + apply Forall_forall. intros j Hin. destruct (Hall j Hin) as (? & Hns & ?). split_and!; [lia|lia|set_solver|done].
Qed.

(** Indices without duplicates, as many as there are positions, are all positions. *)
Lemma all_positions (l : list Z) : NoDup l → (∀ x, x ∈ l → 0 ≤ x < Z.of_nat (length l)) → l ≡ₚ seqZ 0 (Z.of_nat (length l)).
Proof.
  intros Hnd Hl. apply submseteq_length_Permutation.
  - apply NoDup_submseteq; [done|]. intros x Hx. apply elem_of_seqZ. specialize (Hl x Hx). lia.
  - rewrite length_seqZ. lia.
Qed.

Lemma validateEmbeddingResponseShape_ok body expected dimensions :
  validateEmbeddingResponseShape body expected dimensions = true → 0 < expected →
  ∃ answer, decode_embedding_response body = Some answer ∧ map it_Index (ea_Data answer) ≡ₚ seqZ 0 expected ∧
    Forall (item_ok dimensions) (ea_Data answer).
Proof.
  unfold validateEmbeddingResponseShape. destruct (decode_embedding_response body) as [answer|]; [|done].
  intros [[_ Hn]%andb_true_iff Hitems%check_items_ok]%andb_true_iff He.
  apply orb_true_iff in Hn as [Hn|Hn]; [lia|]. apply Z.eqb_eq in Hn. destruct Hitems as [Hnd Hall]. exists answer.
  rewrite Forall_forall in Hall. split_and!; [done| |].
  - rewrite <-Hn, <-(length_map it_Index (ea_Data answer)). apply all_positions; [done|].
    intros x (i & -> & Hi)%list_elem_of_fmap. rewrite length_map. by apply Hall.
  - apply Forall_forall. intros i Hi. by apply Hall.
Qed.

(** What is sent. *)
Lemma compatibleEmbeddingBody_forwards input body :
  compatibleEmbeddingBody input = Ok body →
  ∃ model old new, model = (if (ei_ModelOverride input =? "")%string then er_Model (ei_Request input) else TrimSpace (ei_ModelOverride input)) ∧ model ≠ ""%string ∧
    decode_object (er_rawBody (ei_Request input)) = Some old ∧ decode_object body = Some new ∧
    (utf8_Valid model = true → read_json (raw_lookup (Some new) "model") = Some (JString model)) ∧
    ∀ k, k ≠ "model"%string → forwarded (old !! k) (new !! k).
Proof.
  unfold compatibleEmbeddingBody, decodeEmbeddingInput.
  set (model := if (ei_ModelOverride input =? "")%string then er_Model (ei_Request input) else TrimSpace (ei_ModelOverride input)).
  destruct (String.eqb_spec model "") as [|Hm]; [done|]. cbn [mbind result_bind er_rawBody er_Model].
  destruct (decode_object (er_rawBody (ei_Request input))) as [payload|] eqn:Hp; [|done].
  destruct (encode_raw_map_forwards (maxNestingDepth - 1) (<["model" := encode_string model]> payload))
    as (text & Htext & _ & new & Hnew & _ & Hfwd); [|done|].
  { apply good_insert; [done|apply encode_string_value|by eapply decode_object_values]. }
  rewrite Htext. intros [= <-]. exists model, payload, new. split_and!; [done|done|done|done| |].
  - intros Hutf. specialize (Hfwd "model"%string). rewrite lookup_insert_eq in Hfwd. unfold raw_lookup.
    destruct (new !! "model"%string); [|done]. cbn. by apply Hfwd, read_json_string.
  - intros k Hk. specialize (Hfwd k). by rewrite lookup_insert_ne in Hfwd.
Qed.
End parsed.

(** ** The answers of the compatible adapters *)

Section answers.
Context `{Unicode} `{NetURL} `{HTTPClient}.

(** The upstream was sent the request of the client, with the model of the route. *)
Definition sent_as_asked (input : ChatInput) (body : string) : Prop :=
  ∃ model old new, decode_object (cq_rawBody (ci_Request input)) = Some old ∧ decode_object body = Some new ∧ model ≠ ""%string ∧
    (ci_ModelOverride input ≠ ""%string → model = TrimSpace (ci_ModelOverride input)) ∧
    (utf8_Valid model = true → read_json (raw_lookup (Some new) "model") = Some (JString model)) ∧
    ∀ k, k ≠ "model"%string → forwarded (old !! k) (new !! k).

(** C17: what a compatible upstream or Azure answers to a request for embeddings is let through
    only when it holds exactly one embedding for every input, under the position of the
    input, each with the dimensions that were asked for and none empty; and the upstream was
    sent the members of the client's JSON object, with only [model] set. *)
Theorem embeddings_complete embed adapter azure input apiKey response :
  embed = compatible_Embed adapter ∨ embed = azure_Embed azure →
  bridge_Complete embed input apiKey = Ok response →
  ∃ request endpoint headers body answer,
    ParseEmbeddingRequest (cq_rawBody (ci_Request input)) = Ok request ∧ embedding_ok request ∧
    post endpoint (ci_RequestID input) body headers = Ok response ∧ sent_as_asked input body ∧
    decode_embedding_response response = Some answer ∧
    map it_Index (ea_Data answer) ≡ₚ seqZ 0 (InputCount request) ∧
    Forall (item_ok (er_Dimensions request)) (ea_Data answer).
Proof.
  intros Hembed Hc. unfold bridge_Complete in Hc. apply result_bind_ok in Hc as (request & Hreq & Hc).
  destruct (ParseEmbeddingRequest_ok _ _ Hreq) as (Hok & Hraw & _).
  set (ei := {| ei_RequestID := ci_RequestID input; ei_Request := request; ei_ModelOverride := ci_ModelOverride input |}) in *.
  assert (∃ endpoint headers, embed_at endpoint ei headers = Ok response) as (endpoint & headers & He)
    by (destruct Hembed as [-> | ->]; eauto).
  unfold embed_at in He. apply result_bind_ok in He as (q & Hq & (body & Hb & (r & Hr & He)%result_bind_ok)%result_bind_ok).
  destruct (validateEmbeddingResponseShape _ _ _) eqn:Hv; [|done]. injection He as ->.
  assert (InputCount q = InputCount request ∧ er_Dimensions q = er_Dimensions request) as [Hn Hd].
  { unfold decodeEmbeddingInput in Hq. cbn zeta in Hq. destruct (_ =? "")%string in Hq; [done|]. by injection Hq as <-. }
  rewrite Hn, Hd in Hv. apply validateEmbeddingResponseShape_ok in Hv as (answer & Ha & Hp & Hi); [|destruct Hok; lia].
  exists request, endpoint, headers, body, answer. split_and!; try done.
  apply compatibleEmbeddingBody_forwards in Hb as (model & old & new & Hm & Hne & Ho & Hnew & Hmodel & Hkeep).
  exists model, old, new. cbn in Ho. rewrite Hraw in Ho. split_and!; try done. cbn in Hm. intros Hover.
  rewrite Hm. by destruct (String.eqb_spec (ci_ModelOverride input) "").
Qed.
End answers.

(** ** The native adapters *)

(** [float32(value)], in its 32 bits: rounded to the nearest float with 24 bits. *)
Definition float32_bits (f : float) : Z :=
  let sign (s : bool) := if s then 2147483648 else 0 in
  match Prim2SF f with
  | S754_zero s => sign s
  | S754_infinity s => sign s + 2139095040
  | S754_nan => 2143289344
  | S754_finite s m e =>
      match binary_round 24 128 s m e with
      | S754_finite s m e => sign s + (if Zpos m <? 8388608 then Zpos m else (e + 150) * 8388608 + (Zpos m - 8388608))
      | S754_infinity s => sign s + 2139095040
      | _ => sign s
      end
  end.

Definition le32 (w : Z) : list Z := [w mod 256; w / 256 mod 256; w / 65536 mod 256; w / 16777216 mod 256].

Definition std_char (v : Z) : Z := if v =? 62 then 43 else if v =? 63 then 47 else b64_char v.
Definition StdEncodeToString (l : list Z) : string :=
  let quanta := map std_char (b64_split l) in
  string_of_bytes (quanta ++ match (length l mod 3)%nat with 1%nat => [61; 61] | 2%nat => [61] | _ => [] end).

Definition encodeFloatVector (vector : list float) : string := StdEncodeToString (flat_map (λ f, le32 (float32_bits f)) vector).

(** [json.Marshal] of an embedding; [None]: a number without a text. *)
Definition encode_vector (format : string) (vector : list float) : option string :=
  if (format =? "base64")%string then Some (encode_string (encodeFloatVector vector)) else encode_array <$> mapM encode_float vector.

Definition encode_item (index : Z) (embedding : string) : string :=
  encode_object [("embedding", embedding); ("index", encode_int index); ("object", encode_string "embedding")]%string.

Definition token_usage (count : Z) : string :=
  encode_object [("prompt_tokens", encode_int count); ("total_tokens", encode_int count)]%string.

Definition encode_embeddings (model : string) (usage : option Z) (items : list string) : string :=
  encode_object ([("data"%string, encode_array (imap (λ i e, encode_item (Z.of_nat i) e) items)); ("model"%string, encode_string model);
                  ("object"%string, encode_string "list")] ++ opt_field "usage" (token_usage <$> usage)).

(** What both adapters make of the vectors of an upstream. *)
Definition convert_vectors (format model : string) (usage : option Z) (expected : nat) (vectors : list (list float))
    : result GoErr string :=
  if negb (bool_decide (length vectors = expected)) || existsb (λ v : list float, bool_decide (v = [])) vectors
  then Err (ESentinel ErrInvalidResponse)
  else
    match mapM (encode_vector format) vectors with
    | Some items => Ok (encode_embeddings model usage items)
    | None => Err (EOther "json: unsupported value")
    end.

Definition decode_vectors : decoder (Slice (Slice float)) := decode_slice nil_slice (decode_slice 0%float decode_float).
Definition vectors_of (s : Slice (Slice float)) : list (list float) := map sl_elems (sl_elems s).

Record OllamaEmbeddings := { oe_Model : string; oe_Embeddings : list (list float); oe_PromptEvalCount : Z }.

Definition decode_ollama_embeddings (body : string) : option OllamaEmbeddings :=
  ms ← struct_members body;
  model ← field "model" decode_string ""%string ms;
  vectors ← field "embeddings" decode_vectors nil_slice ms;
  count ← field "prompt_eval_count" decode_int 0 ms;
  Some {| oe_Model := model; oe_Embeddings := vectors_of vectors; oe_PromptEvalCount := count |}.

Definition ollama_embed_body (model : string) (dimensions : option Z) (values : list string) : string :=
  encode_object (opt_field "dimensions" (encode_int <$> dimensions) ++
                 [("input"%string, encode_array (map encode_string values)); ("model"%string, encode_string model)]).

Definition decode_values : decoder (Slice float) := λ old raw,
  ms ← struct_members raw; field "values" (decode_slice 0%float decode_float) old ms.
Definition decode_prompt_count : decoder Z := λ old raw,
  ms ← struct_members raw; field "promptTokenCount" decode_int old ms.

Definition decode_gemini_embeddings (body : string) : option (list (list float) * option Z) :=
  ms ← struct_members body;
  vectors ← field "embeddings" (decode_slice nil_slice decode_values) nil_slice ms;
  usage ← field "usageMetadata" (decode_ptr 0 decode_prompt_count) None ms;
  Some (vectors_of vectors, usage).

Definition gemini_embed_body (modelName : string) (dimensions : option Z) (values : list string) : string :=
  let item value := encode_object (
    [("content", encode_object [("parts", encode_array [encode_object [("text", encode_string value)]])]);
     ("model", encode_string modelName)]%string ++ opt_field "outputDimensionality" (encode_int <$> dimensions)) in
  encode_object [("requests"%string, encode_array (map item values))].

Section native.
Context `{Unicode} `{NetURL} `{HTTPClient}.

Definition ollama_Embed (endpoint : string) (input : EmbeddingInput) (apiKey : string) : result GoErr string :=
  request ← decodeEmbeddingInput input;
  '(values, _) ← StringInputs request;
  responseBody ← post (TrimSuffix endpoint "/api/chat" ++ "/api/embed") (ei_RequestID input)
    (ollama_embed_body (er_Model request) (er_Dimensions request) values) ∅;
  match decode_ollama_embeddings responseBody with
  | None => Err (ESentinel ErrInvalidResponse)
  | Some response =>
      convert_vectors (er_EncodingFormat request) (oe_Model response) (Some (oe_PromptEvalCount response)) (length values)
        (oe_Embeddings response)
  end.

Definition google_key (apiKey : string) : Header := {["X-Goog-Api-Key" := TrimSpace apiKey]}.

Definition gemini_Embed (baseURL : string) (input : EmbeddingInput) (apiKey : string) : result GoErr string :=
  request ← decodeEmbeddingInput input;
  '(values, _) ← StringInputs request;
  let body := gemini_embed_body ("models/" ++ TrimPrefix (er_Model request) "models/") (er_Dimensions request) values in
  endpoint ← modelEndpoint baseURL "models" (er_Model request) ":batchEmbedContents";
  responseBody ← post endpoint (ei_RequestID input) body (google_key apiKey);
  match decode_gemini_embeddings responseBody with
  | None => Err (ESentinel ErrInvalidResponse)
  | Some (vectors, usage) => convert_vectors (er_EncodingFormat request) (er_Model request) usage (length values) vectors
  end.
End native.

Example encoded_vectors :
  map (λ v, encodeFloatVector v) [[1]; [0.5; -2]; [0.1; 1e-45; 1e39]; [16777217]]%float =
    ["AACAPw=="; "AAAAPwAAAMA="; "zczMPQEAAAAAAIB/"; "AACASw=="]%string.
Proof. vm_compute. reflexivity. Qed.

(** ** What is written is read *)

Lemma std_char_value v : 0 ≤ v < 64 → std_value (std_char v) = Some v ∧ std_char v ≠ 61 ∧ is_newline (std_char v) = false ∧ 43 ≤ std_char v < 128.
Proof.
  intros Hv. enough (Forall (λ v, std_value (std_char v) = Some v ∧ std_char v ≠ 61 ∧ is_newline (std_char v) = false ∧ 43 ≤ std_char v < 128)
    (map Z.of_nat (seq 0 64))) as Hall.
  { rewrite Forall_forall in Hall. apply Hall, list_elem_of_fmap. exists (Z.to_nat v). split; [lia|]. apply elem_of_seq. lia. }
  apply (bool_decide_unpack _). vm_compute. exact I.
Qed.

Definition padding (l : list Z) : list Z := match (length l mod 3)%nat with 1%nat => [61; 61] | 2%nat => [61] | _ => [] end.

Lemma quanta_length l : (length (b64_split l ++ padding l) mod 4 = 0)%nat.
Proof.
  pose proof (b64_split_length l) as Hn. unfold EncodedLen in Hn. rewrite length_app. unfold padding.
  pose proof (Nat.div_mod_eq (length l) 3) as Hd. pose proof (Nat.mod_upper_bound (length l) 3 ltac:(done)) as Hu.
  set (q := (length l / 3)%nat) in *. assert (Z.of_nat (length l) / 3 = Z.of_nat q ∧ Z.of_nat (length l) mod 3 = Z.of_nat (length l mod 3)) as [Hq Hm].
  { unfold q. by rewrite Nat2Z.inj_div, Nat2Z.inj_mod. }
  rewrite Hq, Hm in Hn. clear Hq Hm. apply Nat.Div0.mod_divides. destruct (length l mod 3)%nat as [|[|[|?]]]; [| | |lia].
  - change ((Z.of_nat 0 * 8 + 5) / 6) with 0 in Hn. exists q. cbn [length]. lia.
  - change ((Z.of_nat 1 * 8 + 5) / 6) with 2 in Hn. exists (q + 1)%nat. cbn [length]. lia.
  - change ((Z.of_nat 2 * 8 + 5) / 6) with 3 in Hn. exists (q + 1)%nat. cbn [length]. lia.
Qed.

Lemma unpadded_quanta q l : Forall (λ c, c ≠ 61) q → unpadded (q ++ padding l) = q.
Proof.
  intros Hq. assert (∀ x r, rev q = x :: r → x ≠ 61) as Hlast.
  { intros x r Hr. rewrite Forall_forall in Hq. apply Hq. apply list_elem_of_In. rewrite in_rev, Hr. by left. }
  unfold unpadded, padding. assert (∀ k, k = [] ∨ k = [61] ∨ k = [61; 61] → 
    match rev (q ++ k) with 61 :: 61 :: r => rev r | 61 :: r => rev r | _ => q ++ k end = q) as Hk.
  { intros k Hk. rewrite rev_app_distr. destruct Hk as [-> | [-> | ->]]; cbn [rev app].
    - rewrite app_nil_r. destruct (rev q) as [|x r] eqn:Hr; [done|]. specialize (Hlast x r eq_refl). repeat case_match; congruence.
    - pose proof (rev_involutive q) as Hq'. destruct (rev q) as [|x r] eqn:Hr; [exact Hq'|]. specialize (Hlast x r eq_refl).
      rewrite <-Hq'. repeat case_match; congruence.
    - apply rev_involutive. }
  apply Hk. repeat case_match; auto.
Qed.

Lemma StdDecodeString_Encode l : Forall is_byte l → StdDecodeString (StdEncodeToString l) = Some l.
Proof.
  intros Hl. unfold StdDecodeString, StdEncodeToString. cbn zeta. fold (padding l).
  pose proof (b64_split_range _ Hl) as Hr. assert (Forall (λ c, c = 61 ∨ ∃ v, 0 ≤ v < 64 ∧ c = std_char v) (map std_char (b64_split l) ++ padding l)) as Hc.
  { apply Forall_app. split; [apply Forall_map; eapply Forall_impl; [exact Hr|]; cbn; eauto|].
    unfold padding. repeat case_match; repeat constructor. }
  assert (Forall (λ c, is_byte c ∧ is_newline c = false) (map std_char (b64_split l) ++ padding l)) as Hb.
  { eapply Forall_impl; [exact Hc|]. cbn. intros c [-> | (v & Hv & ->)]; [done|]. destruct (std_char_value v Hv) as (_ & _ & ? & ?).
    unfold is_byte. split; [lia|done]. }
  rewrite bytes_of_string_of_bytes by (eapply Forall_impl; [exact Hb|]; by intros ? []).
  assert (List.filter (λ c, negb (is_newline c)) (map std_char (b64_split l) ++ padding l) = map std_char (b64_split l) ++ padding l) as ->.
  { clear -Hb. induction Hb as [|c k [_ Hc] _ IH]; [done|]. cbn. by rewrite Hc, IH. }
  rewrite length_app, length_map, <-length_app, quanta_length. cbn [Nat.eqb].
  rewrite unpadded_quanta.
  - assert (mapM std_value (map std_char (b64_split l)) = Some (b64_split l)) as ->.
    { clear -Hr. induction Hr as [|v k Hv _ IH]; [done|]. cbn [map mapM]. destruct (std_char_value v Hv) as (-> & _). cbn. by rewrite IH. }
    cbn [mbind option_bind]. by apply b64_join_split.
  - apply Forall_map. eapply Forall_impl; [exact Hr|]. cbn. intros v Hv. by apply std_char_value.
Qed.

Lemma ascii_valid l : Forall (λ b, 0 ≤ b < 128) l → utf8_Valid (string_of_bytes l) = true.
Proof.
  intros Hl. rewrite utf8_Valid_bytes, bytes_of_string_of_bytes by (eapply Forall_impl; [exact Hl|]; unfold is_byte; intros; cbn in *; lia).
  induction Hl as [|b l Hb _ IH]; [done|]. rewrite (utf8_cons _ _ 1); [by rewrite drop_0|].
  unfold rune_size. rewrite (proj2 (Z.ltb_lt b 128)) by lia. done.
Qed.

Lemma StdEncodeToString_valid l : Forall is_byte l → utf8_Valid (StdEncodeToString l) = true.
Proof.
  intros Hl. apply ascii_valid, Forall_app. split.
  - apply Forall_map. eapply Forall_impl; [by apply b64_split_range|]. cbn. intros v Hv. destruct (std_char_value v Hv) as (_ & _ & _ & ?). lia.
  - repeat case_match; repeat constructor; lia.
Qed.

(** *** Embeddings *)

Lemma mapM_Forall2 {A B} (f : A → option B) l k : mapM f l = Some k → Forall2 (λ a b, f a = Some b) l k.
Proof. apply mapM_Some. Qed.

(** The text of an embedding: what its dimensions are, and its numbers when it is not encoded. *)
Definition embedding_of (format : string) (vector : list float) (raw : string) : Prop :=
  embedding_dimensions raw = Some (Z.of_nat (length vector)) ∧
  (format ≠ "base64"%string → ∃ stale, decode_slice 0%float decode_float nil_slice raw = Some (Build_Slice vector stale)) ∧
  (format = "base64"%string → decode_string "" raw = Some (encodeFloatVector vector)).

Lemma le32_bytes w : Forall is_byte (le32 w).
Proof. unfold le32, is_byte. repeat (apply Forall_cons; split); try done; apply Z.mod_pos_bound; lia. Qed.

Lemma vector_bytes vector :
  Forall is_byte (flat_map (λ f, le32 (float32_bits f)) vector) ∧
  length (flat_map (λ f, le32 (float32_bits f)) vector) = (4 * length vector)%nat.
Proof.
  induction vector as [|f v [IHb IHl]]; [done|]. cbn [flat_map]. split; [apply Forall_app; split; [apply le32_bytes|done]|].
  rewrite length_app, IHl. cbn. lia.
Qed.

Lemma encode_vector_ok depth format vector raw :
  1 ≤ depth ≤ maxNestingDepth → vector ≠ [] → encode_vector format vector = Some raw →
  value_at depth raw ∧ embedding_of format vector raw.
Proof.
  intros Hd Hne. unfold encode_vector, embedding_of. destruct (String.eqb_spec format "base64") as [->|Hf].
  - intros [= <-]. destruct (vector_bytes vector) as [Hb Hl].
    assert (decode_string "" (encode_string (encodeFloatVector vector)) = Some (encodeFloatVector vector)) as Hs
      by by apply decode_string_encode, StdEncodeToString_valid.
    split; [apply encode_string_value|]. split_and!; [|done|done]. unfold embedding_dimensions.
    assert (decode_slice 0%float decode_float nil_slice (encode_string (encodeFloatVector vector)) = None) as ->.
    { pose proof (encode_string_value maxNestingDepth (encodeFloatVector vector)) as Hv. unfold decode_slice.
      assert (is_null (encode_string (encodeFloatVector vector)) = false) as -> by by eapply is_null_starts.
      unfold json_array. apply value_at_text in Hv as [_ ->]; done. }
    rewrite Hs. unfold encodeFloatVector at 2. rewrite StdDecodeString_Encode by done. rewrite Hl.
    assert (encodeFloatVector vector ≠ ""%string) as Hne'.
    { intros He. assert (StdDecodeString (encodeFloatVector vector) = Some []) as H0 by by rewrite He.
      unfold encodeFloatVector in H0. rewrite StdDecodeString_Encode in H0 by done. injection H0 as H0.
      rewrite H0 in Hl. destruct vector; [done|]. cbn in Hl. lia. }
    apply String.eqb_neq in Hne'. rewrite Hne'. cbn zeta. destruct vector as [|f v]; [done|]. clear.
    replace (Z.of_nat (4 * length (f :: v))) with (Z.of_nat (length (f :: v)) * 4) by lia.
    rewrite Z_mod_mult, Z.div_mul by done. cbn [length]. by rewrite (proj2 (Z.eqb_neq _ 0)) by lia.
  - destruct (mapM encode_float vector) as [es|] eqn:Hes; [|done]. cbn. intros [= <-].
    apply mapM_Forall2 in Hes. assert (Forall2 (λ raw f, written 0%float decode_float (depth - 1) f raw) es vector) as Hw.
    { apply Forall2_flip. eapply Forall2_impl; [exact Hes|]. cbn. intros f e He. destruct (encode_float_back _ _ He) as (_ & ? & ?).
      split_and!; [by eapply encode_float_value|done|done]. }
    destruct (written_slice 0%float decode_float depth es vector Hd Hw) as (Hv & Hn & Hr).
    split; [done|]. split_and!; [|by eauto|done]. unfold embedding_dimensions. rewrite Hr. cbn [sl_elems].
    by rewrite bool_decide_false.
Qed.

(** For any object, so that nothing is computed of its text. *)
Lemma item_written depth object i e :
  1 ≤ depth ≤ maxNestingDepth → utf8_Valid object = true → in_int64 i → value_at (depth - 1) e →
  written no_item decode_item depth {| it_Object := object; it_Embedding := e; it_Index := i |}
    (encode_object [("embedding"%string, e); ("index"%string, encode_int i); ("object"%string, encode_string object)]).
Proof.
  intros Hd Ho Hi He. apply written_object; [done| |].
  - solve_good; [done|by apply encode_int_value|apply encode_string_value].
  - intros Hms. unfold decode_item. rewrite Hms. cbn [mbind option_bind it_Object it_Embedding it_Index no_item].
    step_field; [by apply encodes_string|]. step_field; [by eapply decode_raw_text; [exact He|lia]|].
    step_field; [by apply encodes_int|]. done.
Qed.

Lemma encode_string_decodes s : ∃ t, decode_string "" (encode_string s) = Some t.
Proof.
  pose proof (encode_string_value maxNestingDepth s) as Hv. apply value_at_text in Hv as [_ Hv]; [|done].
  unfold decode_string. rewrite Hv. cbn [mbind option_bind]. unfold encode_string at 1 2. destruct (_ =? _)%string; [by eexists|].
  rewrite strip_cons. cbn [isSome]. by eexists.
Qed.

(** The answer that is made is read as a list with the items in order. *)
Lemma encode_embeddings_read model usage items :
  Z.of_nat (length items) ≤ maximumEmbeddingInputs → Forall (value_at (maxNestingDepth - 3)) items → (∀ c, usage = Some c → in_int64 c) →
  ∃ answer, decode_embedding_response (encode_embeddings model usage items) = Some answer ∧ ea_Object answer = "list"%string ∧
    ea_Data answer = imap (λ i e, {| it_Object := "embedding"; it_Embedding := e; it_Index := Z.of_nat i |}) items.
Proof.
  intros Hlen Hv Hu. destruct (encode_string_decodes model) as (m & Hm).
  assert (written nil_slice (decode_slice no_item decode_item) (maxNestingDepth - 1)
    (Build_Slice (imap (λ i e, {| it_Object := "embedding"; it_Embedding := e; it_Index := Z.of_nat i |}) items) [])
    (encode_array (imap (λ i e, encode_item (Z.of_nat i) e) items))) as Hdata.
  { apply written_slice; [done|]. apply Forall2_same_length_lookup. rewrite !length_imap. split; [done|].
    intros i raw a Hraw Ha. rewrite list_lookup_imap in Hraw. rewrite list_lookup_imap in Ha. destruct (items !! i) as [e|] eqn:He; [|done].
    injection Hraw as <-. injection Ha as <-. apply item_written; [done|done| |].
    - apply lookup_lt_Some in He. unfold maximumEmbeddingInputs in Hlen. unfold in_int64, int64_min, int64_max. lia.
    - rewrite Forall_lookup in Hv. exact (Hv i e He). }
  assert (∀ c, usage = Some c → written (0, 0) decode_counts (maxNestingDepth - 1) (c, c) (token_usage c)) as Hcounts.
  { intros c Hc. apply Hu in Hc. unfold token_usage. apply written_object; [done| |].
    - solve_good; by apply encode_int_value.
    - intros Hms. unfold decode_counts. rewrite Hms. cbn [mbind option_bind fst snd].
      step_field; [by apply encodes_int|]. step_field; [by apply encodes_int|]. done. }
  pose proof (eq_refl : utf8_Valid "list" = true) as Hl. unfold encode_embeddings.
  generalize dependent "list"%string. intros list Hl.
  set (fields := _ ++ opt_field "usage" (token_usage <$> usage)).
  assert (Forall (good_member (maxNestingDepth - 1)) fields) as Hgood.
  { unfold fields. cbn [app]. apply good_cons; [done|apply Hdata|]. apply good_cons; [done|apply encode_string_value|].
    apply good_cons; [done|apply encode_string_value|]. rewrite <-(app_nil_r (opt_field _ _)). apply good_opt; [done| |apply good_nil].
    intros t (c & Hc & ->)%fmap_Some. by apply (Hcounts c). }
  unfold decode_embedding_response. rewrite struct_members_encode by done. unfold fields. cbn [mbind option_bind app].
  rewrite <-(app_nil_r (opt_field _ _)). eexists. split.
  - step_field; [by apply encodes_string|]. step_field; [apply Hdata|]. step_field; [exact Hm|].
    eapply bind_field; [|reflexivity]. find_field. instantiate (1 := match usage with Some c => (c, c) | None => (0, 0) end).
    destruct usage as [c|]; [|done]. by apply Hcounts.
  - done.
Qed.

(** *** What a field holds *)

Lemma field_holds {A} (P : A → Prop) name (d : decoder A) old ms a :
  (∀ old raw a, P old → d old raw = Some a → P a) → P old → field name d old ms = Some a → P a.
Proof.
  intros Hd Hold. unfold field. enough (∀ acc, (∀ a, acc = Some a → P a) → ∀ a,
    foldl (λ acc m, if bool_decide (folded m.1 = folded name) then a ← acc; d a m.2 else acc) acc ms = Some a → P a) as H
    by (apply H; by intros ? [= <-]).
  induction ms as [|m ms IH]; intros acc Hacc b Hb; [by apply Hacc|]. cbn [foldl] in Hb. eapply IH; [|exact Hb].
  intros c Hc. case_bool_decide; [|by apply Hacc]. apply bind_Some in Hc as (x & Hx & Hc). eapply Hd; [by apply Hacc|exact Hc].
Qed.

Lemma decode_int_range old raw z : in_int64 old → decode_int old raw = Some z → in_int64 z.
Proof.
  intros Ho Hz. unfold decode_int in Hz. apply bind_Some in Hz as (t & _ & Hz). destruct (_ =? _)%string; [by injection Hz as <-|].
  apply bind_Some in Hz as (_ & _ & (y & _ & Hz)%bind_Some). destruct (is_int64 y) eqn:Hi; [|done]. injection Hz as <-. by apply is_int64_spec.
Qed.

Lemma ollama_count_range body r : decode_ollama_embeddings body = Some r → in_int64 (oe_PromptEvalCount r).
Proof.
  unfold decode_ollama_embeddings. intros (ms & _ & (m & _ & (v & _ & (c & Hc & [= <-])%bind_Some)%bind_Some)%bind_Some)%bind_Some.
  eapply (field_holds in_int64); [apply decode_int_range| |exact Hc]. done.
Qed.

Lemma gemini_count_range body vectors usage : decode_gemini_embeddings body = Some (vectors, usage) → ∀ c, usage = Some c → in_int64 c.
Proof.
  unfold decode_gemini_embeddings. intros (ms & _ & (v & _ & (u & Hu & [= _ <-])%bind_Some)%bind_Some)%bind_Some.
  revert Hu. apply (field_holds (λ u, ∀ c, u = Some c → in_int64 c)); [|done].
  intros old raw a Ho Ha c ->. unfold decode_ptr in Ha. destruct (is_null raw); [done|].
  destruct (decode_prompt_count (default 0 old) raw) as [x|] eqn:Hx; [|done]. injection Ha as ->.
  unfold decode_prompt_count in Hx. apply bind_Some in Hx as (ms' & _ & Hx).
  eapply (field_holds in_int64); [apply decode_int_range| |exact Hx]. destruct old; [by apply Ho|done].
Qed.

(** ** The answers of the native adapters *)

Lemma convert_vectors_ok format model usage expected vectors response :
  convert_vectors format model usage expected vectors = Ok response → Z.of_nat expected ≤ maximumEmbeddingInputs →
  (∀ c, usage = Some c → in_int64 c) →
  length vectors = expected ∧ ∃ answer, decode_embedding_response response = Some answer ∧
    map it_Index (ea_Data answer) = seqZ 0 (Z.of_nat expected) ∧
    Forall2 (λ item vector, it_Object item = "embedding"%string ∧ vector ≠ [] ∧ embedding_of format vector (it_Embedding item)) (ea_Data answer) vectors.
Proof.
  unfold convert_vectors. destruct (_ || _) eqn:Hc; [done|]. apply orb_false_iff in Hc as [Hlen Hne].
  apply negb_false_iff, bool_decide_eq_true in Hlen. destruct (mapM _ vectors) as [items|] eqn:Hm; [|done].
  intros [= <-] Hexp Hu. split; [done|]. apply mapM_Forall2 in Hm.
  assert (∀ i e, items !! i = Some e → ∃ v, vectors !! i = Some v ∧ v ≠ [] ∧ value_at (maxNestingDepth - 3) e ∧ embedding_of format v e) as Hitems.
  { intros i e He. destruct (Forall2_lookup_r _ _ _ _ _ Hm He) as (v & Hv & Hev). exists v. split; [done|].
    assert (v ≠ []) as Hvn.
    { intros ->. assert (existsb (λ v : list float, bool_decide (v = [])) vectors = true) as Ht; [|congruence].
      apply existsb_exists. exists []. split; [|done]. apply list_elem_of_In. by eapply list_elem_of_lookup_2. }
    destruct (encode_vector_ok (maxNestingDepth - 3) _ _ _ ltac:(done) Hvn Hev). done. }
  pose proof (Forall2_length _ _ _ Hm) as Hl.
  destruct (encode_embeddings_read model usage items) as (answer & Ha & _ & Hd); [lia| |exact Hu|].
  { apply Forall_lookup. intros i e He. by destruct (Hitems i e He) as (v & _ & _ & ? & _). }
  exists answer. rewrite Hd. split_and!; [done| |].
  - apply list_eq. intros i. rewrite list_lookup_fmap, list_lookup_imap. destruct (decide (i < expected)%nat) as [Hi|Hi].
    + destruct (lookup_lt_is_Some_2 items i ltac:(lia)) as [e He]. rewrite He, lookup_seqZ_lt by lia. cbn. by f_equal.
    + rewrite (lookup_ge_None_2 items i) by lia. symmetry; apply lookup_seqZ_ge; lia.
  - apply Forall2_same_length_lookup. rewrite length_imap. split; [lia|]. intros i item v Hitem Hv.
    rewrite list_lookup_imap in Hitem. destruct (items !! i) as [e|] eqn:He; [|done]. injection Hitem as <-. cbn.
    destruct (Hitems i e He) as (v' & Hv' & Hne' & _ & Hof). rewrite Hv in Hv'. injection Hv' as <-. done.
Qed.

Section native_answers.
Context `{Unicode} `{NetURL} `{HTTPClient}.

(** C16: what Ollama or Gemini answers to a request for embeddings is rewritten so that a client
    reads what the upstream computed: one embedding for every text, in the order of the
    texts, as the upstream's numbers or, when the client asked for base64, as their 32-bit
    floats; an answer with another number of vectors or with an empty one is refused. *)
Theorem native_embeddings_complete input apiKey response embed :
  (∃ endpoint, embed = ollama_Embed endpoint) ∨ (∃ baseURL, embed = gemini_Embed baseURL) →
  bridge_Complete embed input apiKey = Ok response →
  ∃ request texts many upstream endpoint headers body vectors answer,
    ParseEmbeddingRequest (cq_rawBody (ci_Request input)) = Ok request ∧ embedding_ok request ∧
    StringInputs request = Ok (texts, many) ∧ post endpoint (ci_RequestID input) body headers = Ok upstream ∧
    ((∃ r, decode_ollama_embeddings upstream = Some r ∧ vectors = oe_Embeddings r) ∨
     (∃ usage, decode_gemini_embeddings upstream = Some (vectors, usage))) ∧
    length vectors = length texts ∧ decode_embedding_response response = Some answer ∧
    map it_Index (ea_Data answer) = seqZ 0 (InputCount request) ∧
    Forall2 (λ item vector, it_Object item = "embedding"%string ∧ vector ≠ [] ∧
      embedding_of (er_EncodingFormat request) vector (it_Embedding item)) (ea_Data answer) vectors.
Proof.
  intros Hembed Hc. unfold bridge_Complete in Hc. apply result_bind_ok in Hc as (request & Hreq & Hc).
  destruct (ParseEmbeddingRequest_ok _ _ Hreq) as (Hok & _).
  assert (∀ q, decodeEmbeddingInput {| ei_RequestID := ci_RequestID input; ei_Request := request; ei_ModelOverride := ci_ModelOverride input |} = Ok q →
    StringInputs q = StringInputs request ∧ er_EncodingFormat q = er_EncodingFormat request) as Hq.
  { intros q Hq. unfold decodeEmbeddingInput in Hq. cbn zeta in Hq. destruct (_ =? "")%string in Hq; [done|]. by injection Hq as <-. }
  destruct Hembed as [(endpoint & ->)|(baseURL & ->)].
  - unfold ollama_Embed in Hc. apply result_bind_ok in Hc as (q & [Hs Hf]%Hq & ([texts many] & Ht & (upstream & Hp & Hc)%result_bind_ok)%result_bind_ok).
    rewrite Hs in Ht. rewrite Hf in Hc. destruct (decode_ollama_embeddings upstream) as [r|] eqn:Hr; [|done].
    destruct (eo_texts _ Hok _ _ Ht) as (Hlen & _). pose proof (eo_count _ Hok) as Hcount.
    apply convert_vectors_ok in Hc as (Hl & answer & Ha & Hi & Hall); [|lia|].
    + exists request, texts, many, upstream. do 3 eexists. exists (oe_Embeddings r), answer. rewrite <-Hlen. eauto 12.
    + intros c [= <-]. by eapply ollama_count_range.
  - unfold gemini_Embed in Hc. apply result_bind_ok in Hc as (q & [Hs Hf]%Hq & ([texts many] & Ht & Hc)%result_bind_ok). cbv zeta in Hc.
    apply result_bind_ok in Hc as (endpoint & _ & (upstream & Hp & Hc)%result_bind_ok).
    rewrite Hs in Ht. rewrite Hf in Hc. destruct (decode_gemini_embeddings upstream) as [[vectors usage]|] eqn:Hr; [|done].
    destruct (eo_texts _ Hok _ _ Ht) as (Hlen & _). pose proof (eo_count _ Hok) as Hcount.
    apply convert_vectors_ok in Hc as (Hl & answer & Ha & Hi & Hall); [|lia|by eapply gemini_count_range].
    exists request, texts, many, upstream. do 3 eexists. exists vectors, answer. rewrite <-Hlen. eauto 12.
Qed.
End native_answers.

(** ** Concrete instances *)

#[local] Instance embedding_unicode : Unicode := λ s, s.
#[local] Instance embedding_urls : NetURL := {| url_Parse := λ _, None; url_String := λ _, ""%string; url_PathEscape := λ s, s |}.

(** An upstream that answers everything with one text. *)
Definition answering (body : string) : HTTPClient :=
  {| http_NewRequest := λ _, true; http_Do := λ _, Ok (demo_response 200 "application/json" body) |}.

Definition embedding_input : ChatInput :=
  {| ci_RequestID := "r";
     ci_Request := ReliabilityRequest (with_body (text "{'model':'fast','input':['a','b'],'dimensions':1}")
       {| er_Model := "fast"; er_Input := ""; er_EncodingFormat := ""; er_Dimensions := None; er_User := ""; er_rawBody := "" |});
     ci_ModelOverride := "m" |}.

Definition two_embeddings : string := text
  "{'object':'list','model':'m','data':[{'object':'embedding','embedding':[0.5],'index':1},{'object':'embedding','embedding':'AAAAAA==','index':0}]}".

Definition demo_embed := @compatible_Embed embedding_unicode (answering two_embeddings)
  {| ad_endpoint := "http://u/v1/chat/completions"; ad_protocol := "openai"; ad_enforceStreamUsage := true |}.

Lemma demo_embed_answers : @bridge_Complete embedding_unicode demo_embed embedding_input "key" = Ok two_embeddings.
Proof. vm_compute. reflexivity. Qed.

Lemma embeddings_complete_witness :
  ∃ answer, decode_embedding_response two_embeddings = Some answer ∧ map it_Index (ea_Data answer) ≡ₚ seqZ 0 2.
Proof.
  destruct (@embeddings_complete embedding_unicode (answering two_embeddings) demo_embed
    {| ad_endpoint := "http://u/v1/chat/completions"; ad_protocol := "openai"; ad_enforceStreamUsage := true |} "" embedding_input "key"
    two_embeddings (or_introl eq_refl) demo_embed_answers) as (request & _ & _ & _ & answer & Hr & _ & _ & _ & Ha & Hi & _).
  exists answer. split; [exact Ha|].
  assert (ParseEmbeddingRequest (cq_rawBody (ci_Request embedding_input)) =
    Ok {| er_Model := "fast"; er_Input := text "['a','b']"; er_EncodingFormat := "float"; er_Dimensions := Some 1; er_User := "";
          er_rawBody := cq_rawBody (ci_Request embedding_input) |}) as Hq by (vm_compute; reflexivity).
  rewrite Hq in Hr. injection Hr as <-. exact Hi.
Defined.

Definition ollama_upstream : string := text "{'model':'m','embeddings':[[0.5,-2],[1,0.25]],'prompt_eval_count':7}".
Definition ollama_answer : string := text
  "{'data':[{'embedding':[0.5,-2],'index':0,'object':'embedding'},{'embedding':[1,0.25],'index':1,'object':'embedding'}],'model':'m','object':'list','usage':{'prompt_tokens':7,'total_tokens':7}}".

Lemma ollama_embeds :
  @bridge_Complete embedding_unicode (@ollama_Embed embedding_unicode (answering ollama_upstream) "http://o/api/chat") embedding_input "" = Ok ollama_answer.
Proof. vm_compute. reflexivity. Qed.

Lemma native_embeddings_complete_witness :
  ∃ vectors answer, decode_embedding_response ollama_answer = Some answer ∧ length (ea_Data answer) = length vectors ∧
    Forall (λ v : list float, v ≠ []) vectors.
Proof.
  destruct (@native_embeddings_complete embedding_unicode embedding_urls (answering ollama_upstream) embedding_input "" ollama_answer _
    (or_introl (ex_intro _ "http://o/api/chat"%string eq_refl)) ollama_embeds)
    as (request & texts & many & upstream & endpoint & headers & body & vectors & answer & _ & _ & _ & _ & _ & _ & Ha & _ & Hall).
  exists vectors, answer. split; [exact Ha|]. split; [exact (Forall2_length _ _ _ Hall)|].
  clear Ha. induction Hall as [|i v l k (_ & Hv & _) _ IH]; constructor; [exact Hv|exact IH].
Defined.
