(* ===== verification/Attempt.v ===== *)
(** * Executing one candidate

    Models [src/internal/reliability/attempt.go] and the part of
    [src/internal/reliability/stream_attempt.go] that shares its structure: one
    attempt takes a breaker permit, a queue lease and a key, calls the upstream
    and settles all three; a loop retries within the policy.

    The program state is a [World] shared with the other goroutines of the
    process. Before each operation on it the environment may change it in any
    way ([env_other]); an attempt's own operations are written to a trace, on
    which the resource protocol is stated. Tracing spans are left out: they only
    report. *)

From Stdlib Require Import Floats.
From S2P Require Import Prelude Failure Breaker Queue Registry KeySelector Retry Routing.

Open Scope Z_scope.

(** ** Data *)

Inductive Authentication := AuthenticationAPIKey | AuthenticationNone.

#[export] Instance Authentication_eq_dec : EqDecision Authentication.
Proof. solve_decision. Defined.

(** What the adapter interfaces tell before a call: how it authenticates and
    whether it implements [StreamingAdapter]. The calls themselves are the
    environment's. *)
Record Adapter := { ad_Authentication : Authentication; ad_streaming : bool }.

Record ChatInput (Request : Type) := {
  ci_RequestID : string;
  ci_Request : Request;
  ci_ModelOverride : string;
}.
Arguments ci_ModelOverride {Request} _.

Record AttemptInput (Request : Type) := {
  in_RequestID : string;
  in_RequestedModel : string;
  in_Request : Request;
  in_Candidate : Candidate;
}.
Arguments in_RequestID {Request} _.
Arguments in_RequestedModel {Request} _.
Arguments in_Request {Request} _.
Arguments in_Candidate {Request} _.

(** [RetryPolicies], the interface a single policy and the registry of policies
    implement. *)
Record RetryPolicies := {
  rps_ForProvider : string → option RetryPolicy;
  rps_RequestContext : Ctx → Time → Ctx;
}.

Definition policy_policies (policy : RetryPolicy) : RetryPolicies :=
  {| rps_ForProvider := λ _, Some policy; rps_RequestContext := RequestContext policy |}.
Definition registry_policies (registry : RetryRegistry) : RetryPolicies :=
  {| rps_ForProvider := ForProvider (Some registry);
     rps_RequestContext := RetryRegistry_RequestContext registry |}.

(** The executor's dependencies; [NewAttemptExecutor] has checked that they are
    there. *)
Record AttemptExecutor := {
  ex_adapters : gmap string Adapter;
  ex_breakers : BreakerRegistry;
  ex_queues : QueueRegistry;
  ex_keys : option ProviderKeyRegistry;
  ex_retries : RetryPolicies;
}.

Definition KeyedProviderIDs (adapters : gmap string Adapter) : list string :=
  map fst (filter (λ e, ad_Authentication e.2 = AuthenticationAPIKey) (map_to_list adapters)).

Inductive ExecutorError :=
| executor_no_adapters | executor_no_breakers | executor_no_queues | executor_no_keys
| executor_no_retries.

(** A nil argument is [None]. *)
Definition NewAttemptExecutor (adapters : option (gmap string Adapter))
    (breakers : option BreakerRegistry) (queues : option QueueRegistry)
    (keys : option ProviderKeyRegistry) (retries : option RetryPolicies)
  : result ExecutorError AttemptExecutor :=
  match adapters with
  | None => Err executor_no_adapters
  | Some adapters =>
      match breakers with
      | None => Err executor_no_breakers
      | Some breakers =>
          match queues with
          | None => Err executor_no_queues
          | Some queues =>
              if bool_decide (keys = None) && negb (bool_decide (KeyedProviderIDs adapters = []))
              then Err executor_no_keys
              else match retries with
              | None => Err executor_no_retries
              | Some retries =>
                  Ok {| ex_adapters := adapters; ex_breakers := breakers; ex_queues := queues;
                        ex_keys := keys; ex_retries := retries |}
              end
          end
      end
  end.

(** ** The world and the environment *)

Record World := {
  w_tick : nat;
  w_now : Time;
  w_breakers : list Breaker;
  w_queues : list ProviderQueue;
  w_keys : list providerKeySelector;
}.

Definition w_set_now (w : World) (t : Time) : World :=
  {| w_tick := w_tick w; w_now := Z.max (w_now w) t; w_breakers := w_breakers w;
     w_queues := w_queues w; w_keys := w_keys w |}.
Definition w_set_breakers (w : World) (h : list Breaker) : World :=
  {| w_tick := w_tick w; w_now := w_now w; w_breakers := h; w_queues := w_queues w;
     w_keys := w_keys w |}.
Definition w_set_queues (w : World) (h : list ProviderQueue) : World :=
  {| w_tick := w_tick w; w_now := w_now w; w_breakers := w_breakers w; w_queues := h;
     w_keys := w_keys w |}.
Definition w_set_keys (w : World) (h : list providerKeySelector) : World :=
  {| w_tick := w_tick w; w_now := w_now w; w_breakers := w_breakers w; w_queues := w_queues w;
     w_keys := h |}.

(** What a call to the upstream gives: the body or the stream, the error, and
    the instant at which it returns. *)
Record CallResult (Payload : Type) := {
  cr_payload : Payload;
  cr_err : option GoErr;
  cr_at : Time;
}.
Arguments cr_payload {Payload} _.
Arguments cr_err {Payload} _.
Arguments cr_at {Payload} _.

(** Everything outside the executor. Each function takes the number of the
    consultation, so that it may answer differently every time. *)
Class Env (Request Body : Type) := {
  env_other : nat → World → World;
  env_wait : nat → ProviderQueue → WaitEvent * Time * ProviderQueue;
  env_complete : nat → string → Ctx → ChatInput Request → string → CallResult Body;
  env_random : nat → float;
  env_timer_first : nat → bool;
}.

(** The executor's own operations. *)
Inductive Event :=
| EvAllow (breaker : nat)
| EvSettle (breaker : nat) (failure : option Failure)
| EvAbandon (breaker : nat)
| EvAcquire (queue : nat)
| EvRelease (queue : nat)
| EvSelect (keyID : string)
| EvKeyComplete (keyID : string) (failure : option Failure)
| EvCall (providerID keyID : string) (deadline : option Time).

Record St := { st_world : World; st_events : list Event }.

Definition M (A : Type) : Type := St → A * St.
#[export] Instance M_ret : MRet M := λ A a st, (a, st).
#[export] Instance M_bind : MBind M := λ A B f m st, let '(a, st') := m st in f a st'.

(** ** Operations on the shared state *)

Section operations.
Context {Request Body : Type} `{Env Request Body}.

(** Other goroutines run; time does not go back. *)
Definition interfere (w : World) : World :=
  let w' := env_other (w_tick w) w in
  {| w_tick := S (w_tick w); w_now := Z.max (w_now w) (w_now w'); w_breakers := w_breakers w';
     w_queues := w_queues w'; w_keys := w_keys w' |}.

Definition op {A} (f : World → A * World) (events : A → list Event) : M A :=
  λ st,
    let '(a, w) := f (interfere (st_world st)) in
    (a, {| st_world := w; st_events := st_events st ++ events a |}).

Definition time_Now : M Time := op (λ w, (w_now w, w)) (λ _, []).

Definition breakers_Allow (ex : AttemptExecutor) (providerID : string)
  : M (result Failure (nat * Permit)) :=
  op (λ w, let '(r, h) := BreakerRegistry_Allow (Some (ex_breakers ex)) providerID (w_now w)
                            (w_breakers w) in
           (r, w_set_breakers w h))
     (λ r, match r with Ok (l, _) => [EvAllow l] | Err _ => [] end).

(** [Complete] and [Abandon] of a permit of the breaker at [l]; the flag is the
    permit's own, the breaker's part takes effect on the heap. *)
Definition permit_Complete (l : nat) (permit : Permit) (failure : option Failure)
  : M (bool * Permit) :=
  op (λ w, ((negb (p_completed permit), p_set_completed permit),
            w_set_breakers w
              (alter (λ b, snd (Permit_Complete permit failure b (w_now w))) l (w_breakers w))))
     (λ r, if fst r then [EvSettle l failure] else []).

Definition permit_Abandon (l : nat) (permit : Permit) : M (bool * Permit) :=
  op (λ w, ((negb (p_completed permit), p_set_completed permit),
            w_set_breakers w (alter (λ b, snd (Permit_Abandon permit b)) l (w_breakers w))))
     (λ r, if fst r then [EvAbandon l] else []).

Definition queues_Acquire (ex : AttemptExecutor) (ctx : Ctx) (providerID : string)
  : M (result Failure (nat * QueueLease)) :=
  op (λ w, let '(r, t, h) := QueueRegistry_Acquire (ex_queues ex) (Some ctx) providerID (w_now w)
                               (env_wait (w_tick w)) (w_queues w) in
           (r, w_set_now (w_set_queues w h) t))
     (λ r, match r with Ok (l, _) => [EvAcquire l] | Err _ => [] end).

Definition lease_Release (l : nat) (lease : QueueLease) : M (bool * QueueLease) :=
  op (λ w, ((negb (lease_released lease), {| lease_released := true |}),
            w_set_queues w (alter (λ q, snd (QueueLease_Release lease q)) l (w_queues w))))
     (λ r, if fst r then [EvRelease l] else []).

Definition keys_selectKey (registry : ProviderKeyRegistry) (providerID preferredKeyID : string)
    (excluded : gset string) : M (result Failure ProviderKeySelection) :=
  op (λ w, let '(r, h) := selectKey registry providerID preferredKeyID excluded (w_now w)
                            (w_keys w) in
           (r, w_set_keys w h))
     (λ r, match r with Ok sel => [EvSelect (sel_keyID sel)] | Err _ => [] end).

Definition key_Secret (sel : ProviderKeySelection) : M string :=
  op (λ w, (Selection_Secret sel (w_keys w), w)) (λ _, []).

Definition key_Complete (sel : ProviderKeySelection) (failure : option Failure)
  : M (bool * ProviderKeySelection) :=
  op (λ w, let '(ok, sel', h) := Selection_Complete sel failure (w_now w) (w_keys w) in
           ((ok, sel'), w_set_keys w h))
     (λ r, if fst r then [EvKeyComplete (sel_keyID sel) failure] else []).

Definition adapter_Complete (ctx : Ctx) (providerID keyID : string) (input : ChatInput Request)
    (apiKey : string) : M (CallResult Body) :=
  op (λ w, let r := env_complete (w_tick w) (TrimSpace providerID) ctx input apiKey in
           (r, w_set_now w (cr_at r)))
     (λ _, [EvCall providerID keyID (ctx_deadline ctx)]).

Definition retry_Wait (ctx : Ctx) (delay : Duration) : M bool :=
  op (λ w, let '(ok, t) := Wait ctx (w_now w) delay (env_timer_first (w_tick w)) in
           (ok, w_set_now w t))
     (λ _, []).

Definition random_Float64 : M float := op (λ w, (env_random (w_tick w), w)) (λ _, []).
End operations.

(** ** One attempt *)

(** [attemptOutcome] and [streamAttemptOutcome]. *)
Record Outcome (Payload : Type) := {
  o_Payload : option Payload;
  o_Failure : option Failure;
  o_KeyID : string;
  o_Attempted : bool;
  o_Duration : Duration;
}.
Arguments o_Payload {Payload} _.
Arguments o_Failure {Payload} _.
Arguments o_KeyID {Payload} _.
Arguments o_Attempted {Payload} _.
Arguments o_Duration {Payload} _.

(** An outcome that only has a failure. *)
Definition refused {Payload} (failure : option Failure) : Outcome Payload :=
  {| o_Payload := None; o_Failure := failure; o_KeyID := ""; o_Attempted := false;
     o_Duration := 0 |}.

Definition modelOverride {Request} (input : AttemptInput Request) : string :=
  let upstream := cd_UpstreamModel (in_Candidate input) in
  if (upstream =? in_RequestedModel input)%string then "" else upstream.

(** Whether an error of the call counts as an attempt on the upstream. *)
Definition err_attempted (err : option GoErr) : bool :=
  match err with
  | None => true
  | Some e => negb (errors_Is ErrInvalidRequest e) && negb (errors_Is ErrUnsupportedCapability e)
  end.

Definition sel_keyID_of (sel : option ProviderKeySelection) : string :=
  match sel with Some s => sel_keyID s | None => "" end.

Section attempt.
Context {Request Body : Type} `{Env Request Body, Unicode, HTTPDates}.
Context (ex : AttemptExecutor).

Definition unknown_adapter (candidate : Candidate) (attempt : Z) : Failure :=
  f_with_cause
    (f_with_position (new_failure CategoryLocalValidation (cd_ProviderID candidate))
       (cd_Priority candidate) attempt)
    (ESentinel ErrUnknownProvider).

(** The steps an attempt takes before its call, with the deferred [Abandon] and
    [Release] after it. [handed] tells when the outcome has taken the resources
    over, which only a prepared stream does. *)
Definition with_key {Payload} (candidate : Candidate) (attempt : Z) (adapter : Adapter)
    (preferredKeyID : string) (excludedKeyIDs : gset string) (l : nat) (permit : Permit)
    (use : option ProviderKeySelection → M (Outcome Payload * Permit))
  : M (Outcome Payload * Permit) :=
  match ex_keys ex with
  | Some keys =>
      if bool_decide (ad_Authentication adapter = AuthenticationAPIKey) then
        r ← keys_selectKey keys (cd_ProviderID candidate) preferredKeyID excludedKeyIDs;
        match r with
        | Err failure =>
            let failure := f_with_position failure (cd_Priority candidate) attempt in
            r ← permit_Complete l permit (Some failure);
            mret (refused (Some failure), snd r)
        | Ok selection => use (Some selection)
        end
      else use None
  | None => use None
  end.

Definition with_lease {Payload} (ctx : Ctx) (candidate : Candidate) (attempt : Z)
    (handed : Outcome Payload → bool) (l : nat) (permit : Permit)
    (use : nat → QueueLease → M (Outcome Payload * Permit)) : M (Outcome Payload * Permit) :=
  r ← queues_Acquire ex ctx (cd_ProviderID candidate);
  match r with
  | Err failure =>
      let failure := f_with_position failure (cd_Priority candidate) attempt in
      r ← permit_Complete l permit (Some failure);
      mret (refused (Some failure), snd r)
  | Ok (ql, lease) =>
      r ← use ql lease;
      if handed (fst r) then mret r
      else _ ← lease_Release ql lease; mret r
  end.

Definition with_permit {Payload} (candidate : Candidate) (attempt : Z)
    (handed : Outcome Payload → bool) (use : nat → Permit → M (Outcome Payload * Permit))
  : M (Outcome Payload) :=
  r ← breakers_Allow ex (cd_ProviderID candidate);
  match r with
  | Err failure => mret (refused (Some (f_with_position failure (cd_Priority candidate) attempt)))
  | Ok (l, permit) =>
      r ← use l permit;
      if handed (fst r) then mret (fst r)
      else _ ← permit_Abandon l (snd r); mret (fst r)
  end.

(** From the attempt context to the outcome. *)
Definition attempt_call (ctx : Ctx) (input : AttemptInput Request) (attempt : Z)
    (retry : RetryPolicy) (l : nat) (permit : Permit) (selectedKey : option ProviderKeySelection)
  : M (Outcome Body * Permit) :=
  let candidate := in_Candidate input in
  now ← time_Now;
  let attemptContext := AttemptContext retry ctx now in
  apiKey ← match selectedKey with Some sel => key_Secret sel | None => mret ""%string end;
  startedAt ← time_Now;
  call ← adapter_Complete attemptContext (cd_ProviderID candidate) (sel_keyID_of selectedKey)
           {| ci_RequestID := in_RequestID input; ci_Request := in_Request input;
              ci_ModelOverride := modelOverride input |} apiKey;
  finishedAt ← time_Now;
  let duration := time_sub finishedAt startedAt in
  now ← time_Now;
  let failure := FromProvider ctx now (cd_ProviderID candidate) (cd_Priority candidate)
                   attempt (cr_err call) in
  let failure := match selectedKey with
                 | Some sel => option_map (λ f, f_with_key f (sel_keyID sel)) failure
                 | None => failure
                 end in
  _ ← match selectedKey with
      | Some sel => r ← key_Complete sel failure; mret (fst r)
      | None => mret false
      end;
  r ← permit_Complete l permit failure;
  mret ({| o_Payload := Some (cr_payload call); o_Failure := failure;
           o_KeyID := sel_keyID_of selectedKey; o_Attempted := err_attempted (cr_err call);
           o_Duration := duration |}, snd r).

Definition executeOnce (ctx : Ctx) (input : AttemptInput Request) (retry : RetryPolicy)
    (attempt : Z) (preferredKeyID : string) (excludedKeyIDs : gset string) : M (Outcome Body) :=
  let candidate := in_Candidate input in
  match ex_adapters ex !! TrimSpace (cd_ProviderID candidate) with
  | None => mret (refused (Some (unknown_adapter candidate attempt)))
  | Some adapter =>
      with_permit candidate attempt (λ _, false) (λ l permit,
        with_lease ctx candidate attempt (λ _, false) l permit (λ _ _,
          with_key candidate attempt adapter preferredKeyID excludedKeyIDs l permit (λ sel,
            attempt_call ctx input attempt retry l permit sel)))
  end.

(** ** The retry loop *)

(** [AttemptResult] and [streamAttemptResult]; the identity of the candidate is
    the input's. *)
Record AttemptResult (Payload : Type) := {
  r_Payload : option Payload;
  r_KeyID : string;
  r_Attempts : Z;
  r_Trail : list AttemptRecord;
}.
Arguments r_Payload {Payload} _.
Arguments r_KeyID {Payload} _.
Arguments r_Attempts {Payload} _.
Arguments r_Trail {Payload} _.

Definition empty_result {Payload} : AttemptResult Payload :=
  {| r_Payload := None; r_KeyID := ""; r_Attempts := 0; r_Trail := [] |}.

Definition failureCategory (failure : option Failure) : option Category := option_map f_Category failure.
Definition failureStatus (failure : option Failure) : Z :=
  match failure with Some f => f_StatusCode f | None => 0 end.

(** The result after an outcome: the last key, and the record of a call that
    counts. *)
Definition record_outcome {Payload} (candidate : Candidate) (result : AttemptResult Payload)
    (outcome : Outcome Payload) : AttemptResult Payload :=
  let keyID := if (o_KeyID outcome =? "")%string then r_KeyID result else o_KeyID outcome in
  if o_Attempted outcome then
    {| r_Payload := r_Payload result; r_KeyID := keyID; r_Attempts := r_Attempts result + 1;
       r_Trail := r_Trail result ++
         [{| ar_ProviderID := cd_ProviderID candidate; ar_UpstreamModel := cd_UpstreamModel candidate;
             ar_KeyID := o_KeyID outcome; ar_Candidate := cd_Priority candidate;
             ar_Attempt := r_Attempts result + 1; ar_Duration := o_Duration outcome;
             ar_Category := failureCategory (o_Failure outcome);
             ar_StatusCode := failureStatus (o_Failure outcome) |}] |}
  else {| r_Payload := r_Payload result; r_KeyID := keyID; r_Attempts := r_Attempts result;
          r_Trail := r_Trail result |}.

Definition with_payload {Payload} (result : AttemptResult Payload) (p : option Payload)
  : AttemptResult Payload :=
  {| r_Payload := p; r_KeyID := r_KeyID result; r_Attempts := r_Attempts result;
     r_Trail := r_Trail result |}.

(** The failure of an outcome, completed with what the loop knows. *)
Definition describe_outcome {Payload} (result : AttemptResult Payload) (outcome : Outcome Payload)
    (failure : Failure) : Failure :=
  let failure := if o_Attempted outcome then failure
                 else f_with_attempt failure (r_Attempts result) in
  let failure := if (f_KeyID failure =? "")%string then f_with_key failure (r_KeyID result)
                 else failure in
  f_with_total failure (r_Attempts result).

Definition next_excluded {Payload} (excluded : gset string) (outcome : Outcome Payload)
    (failure : Failure) : gset string :=
  if sig_SwitchKey (SignalsFor (Some failure)) && negb (o_KeyID outcome =? "")%string &&
     (bool_decide (f_Category failure = CategoryKeyUnauthorized) ||
      bool_decide (f_Category failure = CategoryKeyForbidden))
  then {[o_KeyID outcome]} ∪ excluded else excluded.

Definition next_preferred {Payload} (preferred : string) (outcome : Outcome Payload)
    (failure : Failure) : string :=
  if sig_SwitchKey (SignalsFor (Some failure)) then ""
  else if (o_KeyID outcome =? "")%string then preferred else o_KeyID outcome.

(** The [for] loop of [Execute] and [prepareStream]. [once] is one attempt; the
    loop answers [None] only when the fuel is used up. *)
Fixpoint retry_loop {Payload} (once : Z → string → gset string → M (Outcome Payload))
    (ctx : Ctx) (candidate : Candidate) (retry : RetryPolicy) (fuel : nat)
    (result : AttemptResult Payload) (preferredKeyID : string) (excludedKeyIDs : gset string)
  : M (option (AttemptResult Payload * option Failure)) :=
  match fuel with
  | O => mret None
  | S fuel' =>
      outcome ← once (r_Attempts result + 1) preferredKeyID excludedKeyIDs;
      let result := record_outcome candidate result outcome in
      match o_Failure outcome with
      | None => mret (Some (with_payload result (o_Payload outcome), None))
      | Some failure =>
          let failure := describe_outcome result outcome failure in
          if negb (ShouldRetry retry (Some failure) (r_Attempts result))
          then mret (Some (result, Some failure))
          else
            random ← random_Float64;
            ok ← retry_Wait ctx (Backoff retry (Some failure) (r_Attempts result) random);
            if ok : bool then
              retry_loop once ctx candidate retry fuel' result
                (next_preferred preferredKeyID outcome failure)
                (next_excluded excludedKeyIDs outcome failure)
            else
              now ← time_Now;
              let failure :=
                match ctx_err ctx now with
                | Some e =>
                    default failure
                      (FromProvider ctx now (cd_ProviderID candidate) (cd_Priority candidate)
                         (r_Attempts result) (Some (ctx_GoErr e)))
                | None => failure
                end in
              mret (Some (result, Some (f_with_total failure (r_Attempts result))))
      end
  end.

Definition policy_missing (candidate : Candidate) : Failure :=
  f_with_cause
    (f_with_position (new_failure CategoryLocalValidation (cd_ProviderID candidate))
       (cd_Priority candidate) 0)
    (EOther "provider retry policy is not configured").

Definition Execute (fuel : nat) (ctx : Ctx) (input : AttemptInput Request)
  : M (option (AttemptResult Body * option Failure)) :=
  let candidate := in_Candidate input in
  match rps_ForProvider (ex_retries ex) (cd_ProviderID candidate) with
  | None => mret (Some (empty_result, Some (policy_missing candidate)))
  | Some retry =>
      retry_loop (executeOnce ctx input retry) ctx candidate retry fuel empty_result "" ∅
  end.
End attempt.

Arguments r_Payload {Payload} _.
Arguments r_KeyID {Payload} _.
Arguments r_Attempts {Payload} _.
Arguments r_Trail {Payload} _.

(** ** The resource protocol

    What an execution holds, read off its trace; [None] is a violation of the
    protocol. *)

Record Held := {
  held_permit : option nat;
  held_lease : option nat;
  held_key : option string;
}.

Definition holds_nothing : Held := {| held_permit := None; held_lease := None; held_key := None |}.

Definition hold (p q : option nat) (k : option string) : Held :=
  {| held_permit := p; held_lease := q; held_key := k |}.

(** A permit is taken first and settled once, before the lease goes back; the
    lease is taken under a permit; a key is selected under a lease and settled
    under both; and the upstream is called only with a permit, a lease and
    the key selected for the call. *)
Definition protocol_step (h : Held) (e : Event) : option Held :=
  match e, h with
  | EvAllow l, Build_Held None None None => Some (hold (Some l) None None)
  | EvSettle l _, Build_Held (Some l') q None =>
      if decide (l = l') then Some (hold None q None) else None
  | EvAbandon l, Build_Held (Some l') None None =>
      if decide (l = l') then Some holds_nothing else None
  | EvAcquire q, Build_Held (Some l) None None => Some (hold (Some l) (Some q) None)
  | EvRelease q, Build_Held None (Some q') None =>
      if decide (q = q') then Some holds_nothing else None
  | EvSelect k, Build_Held (Some l) (Some q) None => Some (hold (Some l) (Some q) (Some k))
  | EvCall _ k _, Build_Held (Some l) (Some q) key =>
      if decide (k = default "" key) then Some (hold (Some l) (Some q) key) else None
  | EvKeyComplete k _, Build_Held (Some l) (Some q) (Some k') =>
      if decide (k = k') then Some (hold (Some l) (Some q) None) else None
  | _, _ => None
  end.

Fixpoint replay (h : Held) (events : list Event) : option Held :=
  match events with
  | [] => Some h
  | e :: events' => h' ← protocol_step h e; replay h' events'
  end.

Lemma replay_app h es1 es2 : replay h (es1 ++ es2) = (h' ← replay h es1; replay h' es2).
Proof.
  revert h. induction es1 as [|e es1 IH]; intros h; cbn; [done|].
  destruct (protocol_step h e); cbn; [apply IH | done].
Qed.

(** Evaluate the protocol on a trace whose shape is known. *)
Ltac run_protocol := repeat (progress (cbn; rewrite ?decide_True by done)).

Definition is_call (e : Event) : Z := match e with EvCall _ _ _ => 1 | _ => 0 end.
Definition calls (events : list Event) : Z := sumZ is_call events.

(** Count the calls of a trace whose shape is known. *)
Ltac count_calls := 
  unfold calls; repeat first [rewrite sumZ_cons | rewrite sumZ_app | rewrite sumZ_nil]; cbn; lia.

(** ** Reasoning about computations

    [wp m st Q]: run from [st], [m] only appends to the trace and does not move
    the clock back, and its answer, the events it appends and the state it ends
    in satisfy [Q]. *)

Definition wp {A} (m : M A) (st : St) (Q : A → list Event → St → Prop) : Prop :=
  ∃ a es st', m st = (a, st') ∧ st_events st' = st_events st ++ es ∧
    w_now (st_world st) ≤ w_now (st_world st') ∧ Q a es st'.

Lemma wp_ret {A} (a : A) st Q : Q a [] st → wp (mret a) st Q.
Proof. intros HQ. exists a, [], st. rewrite app_nil_r. done. Qed.

Lemma wp_bind {A B} (m : M A) (f : A → M B) st Q :
  wp m st (λ a es st1, wp (f a) st1 (λ b es' st2, Q b (es ++ es') st2)) → wp (mbind f m) st Q.
Proof.
  intros (a & es & st1 & Hm & He & Hn & b & es' & st2 & Hf & He' & Hn' & HQ).
  exists b, (es ++ es'), st2. unfold mbind, M_bind. rewrite Hm. split; [done|].
  split; [by rewrite He', He, app_assoc|]. split; [lia | done].
Qed.

Lemma wp_mono {A} (m : M A) st (Q R : A → list Event → St → Prop) :
  wp m st Q →
  (∀ a es st', w_now (st_world st) ≤ w_now (st_world st') → Q a es st' → R a es st') → wp m st R.
Proof. intros (a & es & st' & ? & ? & ? & ?) HR. exists a, es, st'. auto. Qed.

(** [m] run from [st] answers [a], appending [es] and ending in [st']. *)
Definition runs {A} (m : M A) (st : St) (a : A) (es : list Event) (st' : St) : Prop :=
  m st = (a, st') ∧ st_events st' = st_events st ++ es.

Lemma wp_runs {A} (m : M A) st Q a es st' : wp m st Q → runs m st a es st' → Q a es st'.
Proof.
  intros (a1 & es1 & st1 & Hm & He & _ & HQ) [Hm' He']. rewrite Hm in Hm'.
  injection Hm' as <- <-. rewrite He in He'. apply app_inv_head in He' as <-. done.
Qed.

Section operation_specs.
Context {Request Body : Type} `{Env Request Body}.
Implicit Type Q : list Event → St → Prop.

Lemma wp_op {A} (f : World → A * World) events st (R : A → list Event → St → Prop) :
  (∀ w, w_now (st_world st) ≤ w_now w → w_now w ≤ w_now (snd (f w)) ∧
    ∀ st', st_world st' = snd (f w) → w_now w ≤ w_now (st_world st') →
      R (fst (f w)) (events (fst (f w))) st') →
  wp (op f events) st R.
Proof.
  intros HR. unfold op. destruct (HR (interfere (st_world st))) as [Hn HR']; [cbn; lia|].
  unfold wp. destruct (f (interfere (st_world st))) as [a w] eqn:Hf. cbn in *.
  eexists a, (events a), _. split; [done|]. cbn. split; [done|]. split; [lia|]. by apply HR'.
Qed.

(** Signals that ask for no further attempt on this candidate. *)
Definition final_failure (f : Failure) : Prop :=
  sig_Retry (SignalsFor (Some f)) = false ∧ sig_SwitchKey (SignalsFor (Some f)) = false.

Lemma wp_time_Now st (R : Time → list Event → St → Prop) :
  (∀ t st', w_now (st_world st) ≤ t → R t [] st') → wp time_Now st R.
Proof. intros HR. apply wp_op. intros w Hw. split; [done|]. intros st' _ _. by apply HR. Qed.

Lemma wp_time_Now_mono st (R : Time → list Event → St → Prop) :
  (∀ t st', w_now (st_world st) ≤ t → t = w_now (st_world st') → R t [] st') → wp time_Now st R.
Proof.
  intros HR. apply wp_op. intros w Hw. split; [done|]. intros st' Hst _. apply HR; [done|].
  by rewrite Hst.
Qed.

Lemma wp_breakers_Allow ex p st (R : result Failure (nat * Permit) → list Event → St → Prop) :
  (∀ l permit st', p_completed permit = false → R (Ok (l, permit)) [EvAllow l] st') →
  (∀ f st', final_failure f → R (Err f) [] st') →
  wp (breakers_Allow ex p) st R.
Proof.
  intros Hok Herr. apply wp_op. intros w _. unfold BreakerRegistry_Allow.
  destruct (breaker_at _ _ _) as [[l b]|]; cbn; [|split; [done|]; intros; by apply Herr].
  assert (∃ b', (∃ p', Breaker_Allow b (w_now w) = (Ok p', b') ∧ p_completed p' = false) ∨
     (∃ f, Breaker_Allow b (w_now w) = (Err f, b') ∧ f_Category f = CategoryBreaker)) as [b' Hb].
  { unfold Breaker_Allow. destruct (br_state _); [| |destruct (_ <? _)]; eauto 10. }
  destruct Hb as [(p' & -> & Hp)|(f & -> & Hf)]; cbn; (split; [done|]); intros st' _ _.
  - by apply Hok.
  - apply Herr. unfold final_failure, SignalsFor. by rewrite Hf.
Qed.

Lemma wp_permit_Complete l permit f st (R : bool * Permit → list Event → St → Prop) :
  (∀ st', R (negb (p_completed permit), p_set_completed permit)
     (if p_completed permit then [] else [EvSettle l f]) st') →
  wp (permit_Complete l permit f) st R.
Proof.
  intros HR. apply wp_op. intros w _. cbn. split; [done|]. intros st' _ _.
  specialize (HR st'). by destruct (p_completed permit).
Qed.

Lemma wp_permit_Abandon l permit st (R : bool * Permit → list Event → St → Prop) :
  (∀ st', R (negb (p_completed permit), p_set_completed permit)
     (if p_completed permit then [] else [EvAbandon l]) st') →
  wp (permit_Abandon l permit) st R.
Proof.
  intros HR. apply wp_op. intros w _. cbn. split; [done|]. intros st' _ _.
  specialize (HR st'). by destruct (p_completed permit).
Qed.

Lemma contextFailure_final q ctx now f q' :
  contextFailure q ctx now = (Some f, q') → final_failure f.
Proof. unfold contextFailure. destruct (ctx_err ctx now) as [[]|]; by intros [= <- <-]. Qed.

Lemma Acquire_final q ctx now wait r t q' :
  ProviderQueue_Acquire q (Some ctx) now wait = (r, t, q') →
  match r with Ok lease => lease = new_lease | Err f => final_failure f end.
Proof.
  unfold ProviderQueue_Acquire. destruct (contextFailure q ctx now) as [[f|] q1] eqn:Hc.
  { intros [= <- <- <-]. by eapply contextFailure_final. }
  unfold tryAcquire. destruct (slots_send q1); [by intros [= <- <- <-]|].
  destruct (reserveWaiting q1) as [[] q2]; [|by intros [= <- <- <-]].
  destruct (wait q2) as [[ev t1] q3]. unfold Acquire_select.
  destruct ev; [destruct (slots_send q3)| |]; try (by intros [= <- <- <-]).
  - destruct (contextFailure p ctx _) as [[f|] q4] eqn:Hc2; intros [= <- <- <-]; [|done].
    by eapply contextFailure_final.
  - destruct (contextFailure q3 ctx _) as [[f|] q4] eqn:Hc2; intros [= <- <- <-]; [|done].
    by eapply contextFailure_final.
Qed.

Lemma wp_queues_Acquire ex ctx p st (R : result Failure (nat * QueueLease) → list Event → St → Prop) :
  (∀ l st', R (Ok (l, new_lease)) [EvAcquire l] st') →
  (∀ f st', final_failure f → R (Err f) [] st') →
  wp (queues_Acquire ex ctx p) st R.
Proof.
  intros Hok Herr. apply wp_op. intros w _. unfold QueueRegistry_Acquire.
  destruct (queue_at _ _ _) as [[l q]|]; [|cbn; split; [lia|]; intros; by apply Herr].
  destruct (ProviderQueue_Acquire q (Some ctx) (w_now w) _) as [[r t] q'] eqn:Ha.
  apply Acquire_final in Ha. destruct r as [lease|f]; cbn; (split; [lia|]); intros st' _ _.
  - subst lease. apply Hok.
  - by apply Herr.
Qed.

Lemma wp_lease_Release l lease st (R : bool * QueueLease → list Event → St → Prop) :
  (∀ st', R (negb (lease_released lease), {| lease_released := true |})
     (if lease_released lease then [] else [EvRelease l]) st') →
  wp (lease_Release l lease) st R.
Proof.
  intros HR. apply wp_op. intros w _. cbn. split; [done|]. intros st' _ _.
  specialize (HR st'). by destruct (lease_released lease).
Qed.

Lemma wp_keys_selectKey r p pref excluded st (R : result Failure ProviderKeySelection → list Event → St → Prop) :
  (∀ sel st', sel_keyID sel ∉ excluded → sel_completed sel = false →
     R (Ok sel) [EvSelect (sel_keyID sel)] st') →
  (∀ f st', f_Category f = CategoryKeyExhausted → R (Err f) [] st') →
  wp (keys_selectKey r p pref excluded) st R.
Proof.
  intros Hok Herr. apply wp_op. intros w _. unfold selectKey.
  destruct (reg_at r !! _) as [l|]; cbn; [|split; [done|]; intros; by apply Herr].
  destruct (w_keys w !! l) as [s|]; cbn; [|split; [done|]; intros; by apply Herr].
  destruct (selector_select l s _ _ _ _) as [[sel|f] s'] eqn:Hs; cbn; (split; [done|]); intros st' _ _.
  - apply selector_select_ok in Hs as (_ & key & _ & -> & Hu). apply Hok; [|done]. cbn.
    unfold key_usable in Hu. rewrite !andb_true_iff, !negb_true_iff in Hu.
    by destruct Hu as [[Hex%bool_decide_eq_false _] _].
  - apply Herr. by eapply selector_select_err.
Qed.

Lemma wp_key_Secret sel st (R : string → list Event → St → Prop) :
  (∀ s st', R s [] st') → wp (key_Secret sel) st R.
Proof. intros HR. apply wp_op. intros w _. cbn. split; [done|]. intros st' _ _. apply HR. Qed.

Lemma wp_key_Complete sel f st (R : bool * ProviderKeySelection → list Event → St → Prop) :
  sel_completed sel = false →
  (∀ r st', R r [EvKeyComplete (sel_keyID sel) f] st') → wp (key_Complete sel f) st R.
Proof.
  intros Hs HR. apply wp_op. intros w _. unfold Selection_Complete. rewrite Hs. cbn.
  split; [done|]. intros st' _ _. apply HR.
Qed.

Lemma wp_random_Float64 st (R : float → list Event → St → Prop) :
  (∀ r st', w_now (st_world st) ≤ w_now (st_world st') → R r [] st') → wp random_Float64 st R.
Proof.
  intros HR. apply wp_op. intros w Hw. cbn. split; [done|]. intros st' Hst _. apply HR. rewrite Hst. cbn. lia.
Qed.

Lemma wp_adapter_Complete ctx p k input key st (R : CallResult Body → list Event → St → Prop) :
  (∀ tick st', R (env_complete tick (TrimSpace p) ctx input key) [EvCall p k (ctx_deadline ctx)] st') →
  wp (adapter_Complete ctx p k input key) st R.
Proof.
  intros HR. apply wp_op. intros w _. cbn. split; [lia|]. intros st' _ _. apply HR.
Qed.

(** A granted wait of some time advances the clock, to before the deadline. *)
Lemma wp_retry_Wait ctx delay st (R : bool → list Event → St → Prop) :
  (∀ ok st', w_now (st_world st) ≤ w_now (st_world st') → (ok = true → 0 < delay → w_now (st_world st) < w_now (st_world st') ∧
      ∀ d, ctx_deadline ctx = Some d → w_now (st_world st') < d) → R ok [] st') →
  wp (retry_Wait ctx delay) st R.
Proof.
  intros HR. apply wp_op. intros w Hw.
  destruct (Wait ctx (w_now w) delay (env_timer_first (w_tick w))) as [ok t] eqn:HW. cbn.
  split; [lia|]. intros st' Hst _. apply HR; rewrite Hst; cbn; [lia|]. intros -> Hd.
  unfold Wait, time_add in HW. destruct (ctx_err ctx (w_now w)); [done|].
  rewrite (proj2 (Z.leb_gt _ _) Hd) in HW.
  destruct (match ctx_deadline ctx with Some _ => _ | None => _ end) eqn:Hdl; [done|].
  assert (t = w_now w + delay) as ->.
  { destruct (ctx_cancel_at ctx); [destruct (_ || _)|]; simplify_eq; done. }
  split; [lia|]. intros d Hd'. rewrite Hd' in Hdl.
  assert (w_now w + delay < d); [|lia]. unfold time_sub, int64_max, int64_min in Hdl. lia.
Qed.
End operation_specs.

(** ** What one attempt guarantees *)

(** What is held after an execution with this failure and payload: a payload
    that is a prepared stream has taken the resources over. *)
Definition held_after {Payload} (held_by : Payload → Held) (failure : option Failure)
    (payload : option Payload) : Held :=
  match failure, payload with
  | None, Some p => held_by p
  | _, _ => holds_nothing
  end.

Record once_post {Payload} (held_by : Payload → Held) (good : Payload → Prop) (excluded : gset string)
    (o : Outcome Payload) (es : list Event) : Prop := {
  once_held : replay holds_nothing es = Some (held_after held_by (o_Failure o) (o_Payload o));
  once_calls : 0 ≤ calls es ≤ 1;
  once_attempted : o_Attempted o = true → calls es = 1;
  once_success : o_Failure o = None →
    o_Attempted o = true ∧ ∃ p, o_Payload o = Some p ∧ good p;
  once_key : o_KeyID o ≠ ""%string → o_KeyID o ∉ excluded;
  once_idle : o_Attempted o = false → ∀ f, o_Failure o = Some f →
    final_failure f ∨ calls es = 0 ∧ f_Category f = CategoryKeyExhausted;
}.

(** An error an adapter raises before it sends anything carries no timeout and
    no failure of its own. *)
Definition plain_local_error (err : option GoErr) : Prop :=
  ∀ e, err = Some e → err_attempted (Some e) = false →
    errors_Is context_DeadlineExceeded e = false ∧ errors_As_Failure e = None.

Lemma SignalsFor_position f c a : SignalsFor (Some (f_with_position f c a)) = SignalsFor (Some f).
Proof. reflexivity. Qed.

Lemma SignalsFor_key f k : SignalsFor (Some (f_with_key f k)) = SignalsFor (Some f).
Proof. reflexivity. Qed.

Section attempt_spec.
Context {Request Body : Type} `{Env Request Body, Unicode, HTTPDates}.
Context (ex : AttemptExecutor).

Lemma FromProvider_local_final ctx now p c a e f :
  err_attempted (Some e) = false → plain_local_error (Some e) →
  FromProvider ctx now p c a (Some e) = Some f → final_failure f.
Proof.
  intros Ha Hp. destruct (Hp e eq_refl Ha) as [Hd Hf]. unfold FromProvider. rewrite Hd, Hf.
  unfold err_attempted in Ha. rewrite andb_false_iff, !negb_false_iff in Ha.
  destruct (_ || _); [by intros [= <-]|]. destruct (bool_decide _); [by intros [= <-]|].
  destruct (errors_Is ErrUnsupportedCapability e); [by intros [= <-]|].
  destruct (errors_Is ErrUnsupportedResponse e); [by intros [= <-]|].
  destruct (errors_Is ErrInvalidRequest e); [by intros [= <-]|]. by destruct Ha.
Qed.

Lemma wp_with_key {Payload} candidate attempt adapter pref excluded l permit
    (use : option ProviderKeySelection → M (Outcome Payload * Permit)) st
    (R : Outcome Payload * Permit → list Event → St → Prop) :
  p_completed permit = false →
  (∀ sel st', (∀ s, sel = Some s → sel_keyID s ∉ excluded ∧ sel_completed s = false) →
     wp (use sel) st' (λ r es st2,
       R r (match sel with Some s => EvSelect (sel_keyID s) :: es | None => es end) st2)) →
  (∀ f st', f_Category f = CategoryKeyExhausted →
     R (refused (Some f), p_set_completed permit) [EvSettle l (Some f)] st') →
  wp (with_key ex candidate attempt adapter pref excluded l permit use) st R.
Proof.
  intros Hp Huse Hfail. unfold with_key.
  destruct (ex_keys ex) as [keys|]; [|by apply (Huse None)].
  case_bool_decide; [|by apply (Huse None)].
  apply wp_bind, wp_keys_selectKey.
  - intros sel st' Hex Hc. apply (Huse (Some sel)). by intros s [= <-].
  - intros f st' Hf. apply wp_bind, wp_permit_Complete. intros st2. rewrite Hp.
    apply wp_ret. cbn. by apply (Hfail (f_with_position f _ _)).
Qed.

Lemma wp_with_lease {Payload} ctx candidate attempt (handed : Outcome Payload → bool) l permit
    (use : nat → QueueLease → M (Outcome Payload * Permit)) st
    (R : Outcome Payload * Permit → list Event → St → Prop) :
  p_completed permit = false →
  (∀ ql st', wp (use ql new_lease) st' (λ r es st2, ∀ st3,
     R r (EvAcquire ql :: es ++ if handed r.1 then [] else [EvRelease ql]) st3)) →
  (∀ f st', final_failure f → R (refused (Some f), p_set_completed permit) [EvSettle l (Some f)] st') →
  wp (with_lease ex ctx candidate attempt handed l permit use) st R.
Proof.
  intros Hp Huse Hfail. unfold with_lease. apply wp_bind, wp_queues_Acquire.
  - intros ql st'. apply wp_bind. eapply wp_mono; [apply Huse|]. cbn.
    intros r es st2 _ HR. destruct (handed r.1).
    + apply wp_ret, HR.
    + apply wp_bind, wp_lease_Release. intros st3. apply wp_ret, HR.
  - intros f st' Hf. apply wp_bind, wp_permit_Complete. intros st2. rewrite Hp.
    apply wp_ret. cbn. by apply (Hfail (f_with_position f _ _)).
Qed.

Lemma wp_with_permit {Payload} candidate attempt (handed : Outcome Payload → bool)
    (use : nat → Permit → M (Outcome Payload * Permit)) st
    (R : Outcome Payload → list Event → St → Prop) :
  (∀ l permit st', p_completed permit = false → wp (use l permit) st' (λ r es st2, ∀ st3,
     R r.1 (EvAllow l :: es ++ if handed r.1 || p_completed r.2 then [] else [EvAbandon l]) st3)) →
  (∀ f st', final_failure f → R (refused (Some f)) [] st') →
  wp (with_permit ex candidate attempt handed use) st R.
Proof.
  intros Huse Hfail. unfold with_permit. apply wp_bind, wp_breakers_Allow.
  - intros l permit st' Hp. apply wp_bind. eapply wp_mono; [by apply Huse|]. cbn.
    intros r es st2 _ HR. destruct (handed r.1).
    + apply wp_ret. cbn in HR. apply HR.
    + apply wp_bind, wp_permit_Abandon. intros st3. apply wp_ret. rewrite app_nil_r. apply HR.
  - intros f st' Hf. apply wp_ret. by apply (Hfail (f_with_position f _ _)).
Qed.

(** The call itself: one call, then the key and the permit are settled with its
    outcome. *)
Lemma wp_attempt_call ctx input attempt retry l permit sel st
    (R : Outcome Body * Permit → list Event → St → Prop) :
  p_completed permit = false → (∀ s, sel = Some s → sel_completed s = false) →
  (∀ tick actx chat key t failure d duration st',
     let call := env_complete tick (TrimSpace (cd_ProviderID (in_Candidate input))) actx chat key in
     failure = option_map (λ f, match sel with Some s => f_with_key f (sel_keyID s) | None => f end)
       (FromProvider ctx t (cd_ProviderID (in_Candidate input)) (cd_Priority (in_Candidate input))
          attempt (cr_err call)) →
     R ({| o_Payload := Some (cr_payload call); o_Failure := failure; o_KeyID := sel_keyID_of sel;
           o_Attempted := err_attempted (cr_err call); o_Duration := duration |},
        p_set_completed permit)
       (EvCall (cd_ProviderID (in_Candidate input)) (sel_keyID_of sel) d ::
        match sel with Some s => [EvKeyComplete (sel_keyID s) failure] | None => [] end ++
        [EvSettle l failure]) st') →
  wp (attempt_call ctx input attempt retry l permit sel) st R.
Proof.
  intros Hp Hs HR. unfold attempt_call. apply wp_bind, wp_time_Now. intros t0 st0 _.
  apply wp_bind. assert (∀ (Q : string → list Event → St → Prop) st1, (∀ k st', Q k [] st') →
    wp match sel with Some s => key_Secret s | None => mret "" end st1 Q) as Hsecret.
  { intros Q st1 HQ. destruct sel; [by apply wp_key_Secret | apply wp_ret, HQ]. }
  apply Hsecret. intros key st1. apply wp_bind, wp_time_Now. intros t1 st2 _.
  apply wp_bind, wp_adapter_Complete. intros tick st3. apply wp_bind, wp_time_Now. intros t2 st4 _.
  apply wp_bind, wp_time_Now. intros t3 st5 _.
  set (failure := match sel with Some s => option_map _ _ | None => _ end).
  apply wp_bind. assert (∀ (Q : bool → list Event → St → Prop) st1,
    (∀ b st', Q b match sel with Some s => [EvKeyComplete (sel_keyID s) failure] | None => [] end st') →
    wp match sel with
       | Some s => r ← key_Complete s failure; mret (fst r) | None => mret false end st1 Q) as Hkey.
  { intros Q st6 HQ. destruct sel as [s|]; [|apply wp_ret, HQ].
    apply wp_bind, wp_key_Complete; [by apply Hs|]. intros r st7. apply wp_ret, HQ. }
  apply Hkey. intros b st6. apply wp_bind, wp_permit_Complete. intros st7. rewrite Hp.
  apply wp_ret. cbn. rewrite ?app_nil_r. eapply HR. subst failure.
  destruct sel; [done|]. by destruct (FromProvider _ _ _ _ _ _).
Qed.

(** One attempt keeps the protocol on every path. *)
Lemma executeOnce_spec ctx input retry attempt pref excluded st :
  (∀ tick p actx chat key, plain_local_error (cr_err (env_complete tick p actx chat key))) →
  wp (executeOnce ex ctx input retry attempt pref excluded) st
     (λ o es _, once_post (λ _, holds_nothing) (λ _, True) excluded o es).
Proof.
  intros Hlocal. unfold executeOnce.
  destruct (ex_adapters ex !! _) as [adapter|].
  2: { apply wp_ret. constructor; cbn; try done; eauto. by intros _ f [= <-]; left. }
  apply wp_with_permit.
  2: { intros f st' Hf. constructor; cbn; try done; eauto. by intros _ f' [= <-]; left. }
  intros l permit st0 Hp. apply wp_with_lease; [done| |].
  2: { intros f st' Hf st3. cbn. constructor; cbn; rewrite ?decide_True by done; eauto; try done.
       by intros _ f' [= <-]; left. }
  intros ql st1. apply wp_with_key; [done| |].
  2: { intros f st' Hf st3 st4. cbn -[replay calls]. constructor; try done.
       - run_protocol; done.
       - intros _ f' [= <-]. by right. }
  intros sel st2 Hsel. apply wp_attempt_call; [done| |].
  { intros s Hs. by apply Hsel. }
  cbn zeta. intros tick actx chat key t failure d duration st3 Hf st4 st5.
  set (call := env_complete _ _ _ _ _) in *. cbn [fst snd p_completed p_set_completed orb].
  assert (∀ es, calls (EvAllow l :: (EvAcquire ql :: match sel with
     | Some s => EvSelect (sel_keyID s) :: es | None => es end ++ [EvRelease ql]) ++ []) = calls es) as Hcalls.
  { intros es. rewrite app_nil_r. destruct sel; count_calls. }
  constructor; cbn [o_Payload o_Failure o_KeyID o_Attempted]; rewrite ?Hcalls.
  - unfold held_after. destruct failure, sel; run_protocol; done.
  - destruct sel; count_calls.
  - intros _. destruct sel; count_calls.
  - intros Hn. split; [|eauto]. rewrite Hf in Hn. destruct (cr_err call); [|done].
    destruct (FromProvider _ _ _ _ _ _) eqn:HF; [done|].
    by apply FromProvider_some in HF.
  - destruct sel as [s|]; cbn; [|done]. intros _. by apply Hsel.
  - intros Ha f Hff. left. rewrite Hf in Hff. destruct (cr_err call) as [e|] eqn:He; [|done].
    assert (plain_local_error (Some e)) as Hpl by (rewrite <-He; apply Hlocal).
    destruct (FromProvider _ _ _ _ _ _) as [f0|] eqn:HF; [|done]. cbn in Hff. injection Hff as <-.
    pose proof (FromProvider_local_final _ _ _ _ _ _ _ Ha Hpl HF) as Hfin. by destruct sel.
Qed.
End attempt_spec.

(** ** What the retry loop guarantees *)

Definition bad_key_record (r : AttemptRecord) : Prop :=
  ar_Category r = Some CategoryKeyUnauthorized ∨ ar_Category r = Some CategoryKeyForbidden.

(** The trail counts and numbers the attempts on one candidate, and no key that
    was refused (401, 403) is used again. *)
Record trail_ok (candidate : Candidate) (attempts : Z) (trail : list AttemptRecord) : Prop := {
  tok_length : attempts = Z.of_nat (length trail);
  tok_numbered : ∀ i r, trail !! i = Some r →
    ar_Attempt r = Z.of_nat i + 1 ∧ ar_ProviderID r = cd_ProviderID candidate ∧
    ar_UpstreamModel r = cd_UpstreamModel candidate ∧ ar_Candidate r = cd_Priority candidate;
  tok_keys : ∀ i j ri rj, (i < j)%nat → trail !! i = Some ri → trail !! j = Some rj →
    bad_key_record ri → ar_KeyID ri ≠ ""%string → ar_KeyID rj ≠ ar_KeyID ri;
}.

(** The state of the loop when it turns. *)
Record head_ok {Payload} (candidate : Candidate) (result : AttemptResult Payload)
    (excluded : gset string) : Prop := {
  hok_trail : trail_ok candidate (r_Attempts result) (r_Trail result);
  hok_failed : ∀ r, r ∈ r_Trail result → ar_Category r ≠ None;
  hok_excluded : ∀ r, r ∈ r_Trail result → bad_key_record r → ar_KeyID r ≠ ""%string →
    ar_KeyID r ∈ excluded;
  hok_payload : r_Payload result = None;
}.

Record loop_post {Payload} (held_by : Payload → Held) (good : Payload → Prop) (candidate : Candidate) (N : Z)
    (start res : AttemptResult Payload) (failure : option Failure) (es : list Event) : Prop := {
  lp_trail : trail_ok candidate (r_Attempts res) (r_Trail res);
  lp_attempts : r_Attempts start ≤ r_Attempts res ≤ N;
  lp_calls : r_Attempts res - r_Attempts start ≤ calls es ≤ N - r_Attempts start;
  lp_success : failure = None →
    (∃ p, r_Payload res = Some p ∧ good p) ∧
    ∃ before last, r_Trail res = before ++ [last] ∧ ar_Category last = None ∧
      ∀ r, r ∈ before → ar_Category r ≠ None;
  lp_failure : ∀ f, failure = Some f →
    f_TotalAttempts f = r_Attempts res ∧ r_Payload res = None ∧
    ∀ r, r ∈ r_Trail res → ar_Category r ≠ None;
  lp_held : replay holds_nothing es = Some (held_after held_by failure (r_Payload res));
}.

Lemma list_lookup_snoc_Some {A} (l : list A) x i y :
  (l ++ [x]) !! i = Some y → l !! i = Some y ∨ (i = length l ∧ y = x).
Proof.
  intros Hi. apply lookup_app_Some in Hi as [Hi|[Hlen Hi]]; [by left|]. right.
  apply list_lookup_singleton_Some in Hi as [? <-]. split; [lia | done].
Qed.

Section loop.
Context {Request Body : Type} `{Env Request Body, Unicode, HTTPDates}.
Context {Payload : Type} (held_by : Payload → Held) (good : Payload → Prop).
Context (once : Z → string → gset string → M (Outcome Payload)).
Context (ctx : Ctx) (candidate : Candidate) (retry : RetryPolicy) (d : Time).
Hypothesis once_ok : ∀ attempt pref excluded st,
  wp (once attempt pref excluded) st (λ o es _, once_post held_by good excluded o es).
Hypothesis deadline : ctx_deadline ctx = Some d.

Lemma record_outcome_attempts (result : AttemptResult Payload) o :
  r_Attempts (record_outcome candidate result o) =
  r_Attempts result + (if o_Attempted o then 1 else 0).
Proof. unfold record_outcome. destruct (o_Attempted o); cbn; lia. Qed.

Lemma record_outcome_trail (result : AttemptResult Payload) o excluded es :
  head_ok candidate result excluded → once_post held_by good excluded o es →
  trail_ok candidate (r_Attempts (record_outcome candidate result o))
    (r_Trail (record_outcome candidate result o)).
Proof.
  intros [[Hlen Hnum Hkeys] Hfail Hex _] Hpost. unfold record_outcome.
  destruct (o_Attempted o); [|done]. cbn. set (rec := Build_AttemptRecord _ _ _ _ _ _ _ _).
  constructor.
  - rewrite length_app. cbn. lia.
  - intros i r [Hi|[-> ->]]%list_lookup_snoc_Some; [by apply Hnum|]. cbn. repeat split; lia.
  - intros i j ri rj Hij Hi Hj Hb Hk.
    apply list_lookup_snoc_Some in Hj as [Hj|[-> ->]].
    + apply list_lookup_snoc_Some in Hi as [Hi|[-> ->]]; [by eapply Hkeys|].
      apply lookup_lt_Some in Hj. lia.
    + rewrite lookup_app_l in Hi by done. apply list_elem_of_lookup_2 in Hi. subst rec. cbn.
      specialize (Hex _ Hi Hb Hk). intros Heq. rewrite <-Heq in Hex, Hk.
      by apply (once_key _ _ _ _ _ Hpost Hk).
Qed.

(** When the loop turns again after a failed outcome. *)
Lemma next_head_ok result o f excluded es :
  head_ok candidate result excluded → once_post held_by good excluded o es → o_Failure o = Some f →
  let result' := record_outcome candidate result o in
  head_ok candidate result' (next_excluded excluded o (describe_outcome result' o f)).
Proof.
  intros Hhead Hpost Hf. cbn zeta.
  assert (∀ r, r ∈ r_Trail (record_outcome candidate result o) →
    r ∈ r_Trail result ∨ (ar_Category r = Some (f_Category f) ∧ ar_KeyID r = o_KeyID o)) as Hin.
  { intros r. unfold record_outcome. destruct (o_Attempted o); cbn; [|by left].
    rewrite elem_of_app, list_elem_of_singleton. intros [?| ->]; [by left|]. right. cbn.
    by rewrite Hf. }
  assert (f_Category (describe_outcome (record_outcome candidate result o) o f) = f_Category f) as Hcat.
  { unfold describe_outcome. destruct (o_Attempted o); cbn; by destruct (_ =? "")%string. }
  constructor.
  - by eapply record_outcome_trail.
  - intros r [?|[-> _]]%Hin; [by apply Hhead | done].
  - intros r [Hr|[Hc Hk]]%Hin Hb Hne.
    + pose proof (hok_excluded _ _ _ Hhead _ Hr Hb Hne). unfold next_excluded. case_match; set_solver.
    + unfold bad_key_record in Hb. rewrite Hc in Hb. unfold next_excluded.
      assert (sig_SwitchKey (SignalsFor (Some (describe_outcome (record_outcome candidate result o) o f)))
        = true) as ->.
      { apply SwitchKey_categories. rewrite Hcat. destruct Hb as [[= ->]|[= ->]]; auto. }
      rewrite Hk in Hne. rewrite (proj2 (String.eqb_neq _ _) Hne), Hcat. cbn.
      assert (bool_decide (f_Category f = CategoryKeyUnauthorized) ||
              bool_decide (f_Category f = CategoryKeyForbidden) = true) as ->.
      { rewrite orb_true_iff, !bool_decide_eq_true. destruct Hb as [[= ->]|[= ->]]; auto. }
      rewrite Hk. set_solver.
  - unfold record_outcome. destruct (o_Attempted o); apply Hhead.
Qed.

(** A failure that is retried without having counted as an attempt is an
    exhausted key set that recovers, and cost no call. *)
Lemma idle_retry result o f excluded es n :
  once_post held_by good excluded o es → o_Failure o = Some f → o_Attempted o = false →
  let f' := describe_outcome result o f in
  ShouldRetry retry (Some f') n = true →
  calls es = 0 ∧ f_Category f' = CategoryKeyExhausted ∧ 0 < f_RetryAfter f' ∧
  sig_SwitchKey (SignalsFor (Some f')) = false.
Proof.
  intros Hpost Hf Ha f' Hr.
  assert (SignalsFor (Some f') = SignalsFor (Some f) ∧ f_Category f' = f_Category f ∧
          f_RetryAfter f' = f_RetryAfter f) as (Hs & Hc & Hra).
  { subst f'. unfold describe_outcome. rewrite Ha. by destruct (_ =? "")%string. }
  unfold ShouldRetry in Hr. destruct (_ <=? _); [done|]. rewrite Hs in *.
  destruct (once_idle _ _ _ _ _ Hpost Ha f Hf) as [[Hn1 Hn2]|[Hn1 Hn2]].
  - rewrite Hn1, Hn2 in Hr. done.
  - rewrite Hc, Hra. unfold SignalsFor in *. rewrite Hn2 in *. cbn in *.
    split; [done|]. split; [done|]. split; [|done]. rewrite orb_false_r in Hr. lia.
Qed.

(** How long the loop can go on: attempts left, and nanoseconds left for the
    waits that cost no attempt. *)
Definition remaining (result : AttemptResult Payload) (now : Time) : Z :=
  (rc_MaxAttempts retry - r_Attempts result) + Z.max 0 (d - now).

Lemma failed_replay o excluded es f :
  once_post held_by good excluded o es → o_Failure o = Some f →
  replay holds_nothing es = Some holds_nothing.
Proof.
  intros Hpost Hf. rewrite (once_held _ _ _ _ _ Hpost). unfold held_after. by rewrite Hf.
Qed.

(** The outcome ends the loop with a failure. *)
Lemma loop_post_failed result o f excluded es failure :
  head_ok candidate result excluded → once_post held_by good excluded o es → o_Failure o = Some f →
  r_Attempts result < rc_MaxAttempts retry →
  f_TotalAttempts failure = r_Attempts (record_outcome candidate result o) →
  loop_post held_by good candidate (rc_MaxAttempts retry) result (record_outcome candidate result o)
    (Some failure) es.
Proof.
  intros Hhead Hpost Hf Hlt Htot.
  pose proof (next_head_ok result o f excluded es Hhead Hpost Hf) as Hnext. cbn zeta in Hnext.
  pose proof (once_calls _ _ _ _ _ Hpost) as Hc. pose proof (once_attempted _ _ _ _ _ Hpost) as Hc1.
  pose proof (record_outcome_attempts result o) as Ha.
  constructor.
  - apply Hnext.
  - destruct (o_Attempted o); lia.
  - destruct (o_Attempted o); [specialize (Hc1 eq_refl)|]; lia.
  - done.
  - intros f' [= <-]. split; [done|]. split; apply Hnext.
  - by eapply failed_replay.
Qed.

Lemma loop_post_success result o excluded es :
  head_ok candidate result excluded → once_post held_by good excluded o es → o_Failure o = None →
  r_Attempts result < rc_MaxAttempts retry →
  loop_post held_by good candidate (rc_MaxAttempts retry) result
    (with_payload (record_outcome candidate result o) (o_Payload o)) None es.
Proof.
  intros Hhead Hpost Hf Hlt.
  destruct (once_success _ _ _ _ _ Hpost Hf) as [Hatt (p & Hp & Hgood)].
  pose proof (once_attempted _ _ _ _ _ Hpost Hatt) as Hc1.
  pose proof (record_outcome_attempts result o) as Ha. rewrite Hatt in Ha.
  constructor; cbn [with_payload r_Payload r_Attempts r_Trail]; try lia.
  - by eapply record_outcome_trail.
  - intros _. split; [by exists p|]. unfold record_outcome. rewrite Hatt. cbn.
    eexists _, _. split; [done|]. cbn. rewrite Hf. split; [done|]. apply Hhead.
  - done.
  - rewrite (once_held _ _ _ _ _ Hpost). by rewrite Hf.
Qed.

(** One turn of the loop before the rest of it. *)
Lemma loop_post_turn result o f excluded es es' res failure :
  once_post held_by good excluded o es → o_Failure o = Some f →
  calls es = (if o_Attempted o then 1 else 0) →
  loop_post held_by good candidate (rc_MaxAttempts retry) (record_outcome candidate result o) res failure es' →
  loop_post held_by good candidate (rc_MaxAttempts retry) result res failure (es ++ es').
Proof.
  intros Hpost Hf Hc [H1' H2' H3' H4' H5' H6'].
  pose proof (record_outcome_attempts result o) as Ha.
  assert (calls (es ++ es') = calls es + calls es') as Hcs by apply sumZ_app.
  constructor; try done.
  - destruct (o_Attempted o); lia.
  - rewrite Hcs. destruct (o_Attempted o); lia.
  - by rewrite replay_app, (failed_replay _ _ _ _ Hpost Hf).
Qed.

Lemma retry_loop_spec fuel result preferred excluded st :
  head_ok candidate result excluded → r_Attempts result < rc_MaxAttempts retry →
  remaining result (w_now (st_world st)) < Z.of_nat fuel →
  wp (retry_loop once ctx candidate retry fuel result preferred excluded) st
    (λ r es _, ∃ res failure, r = Some (res, failure) ∧
       loop_post held_by good candidate (rc_MaxAttempts retry) result res failure es).
Proof.
  revert result preferred excluded st.
  induction fuel as [|fuel IH]; intros result preferred excluded st Hhead Hlt Hfuel.
  { unfold remaining in Hfuel. lia. }
  cbn [retry_loop]. apply wp_bind. eapply wp_mono; [apply once_ok|].
  intros o es st1 Hn1 Hpost. cbn beta.
  pose proof (record_outcome_attempts result o) as Ha.
  set (result' := record_outcome candidate result o) in *.
  destruct (o_Failure o) as [f|] eqn:Hf.
  2: { apply wp_ret. rewrite app_nil_r. eexists _, _. split; [done|]. by eapply loop_post_success. }
  set (f' := describe_outcome result' o f) in *.
  assert (f_TotalAttempts f' = r_Attempts result') as Htot
    by (unfold f', describe_outcome; destruct (o_Attempted o); by destruct (_ =? "")%string).
  destruct (ShouldRetry retry (Some f') (r_Attempts result')) eqn:Hretry; cbn [negb].
  2: { apply wp_ret. rewrite app_nil_r. eexists _, _. split; [done|]. by eapply loop_post_failed. }
  assert (r_Attempts result' < rc_MaxAttempts retry) as Hlt'
    by (unfold ShouldRetry in Hretry; destruct (_ <=? _) eqn:E; [done | lia]).
  apply wp_bind, wp_random_Float64. intros random st2 Hn2.
  apply wp_bind, wp_retry_Wait. intros ok st3 Hn3 Hwait. destruct ok.
  - eapply wp_mono; [apply IH|].
    + exact (next_head_ok result o f excluded es Hhead Hpost Hf).
    + done.
    + unfold remaining in *. destruct (o_Attempted o) eqn:Hatt; [lia|].
      destruct (idle_retry result' o f excluded es _ Hpost Hf Hatt Hretry) as (_ & Hk & Hra & Hsw).
      fold f' in Hk, Hra, Hsw.
      assert (Backoff retry (Some f') (r_Attempts result') random = f_RetryAfter f') as Hb.
      { unfold Backoff. by rewrite Hsw, Hk. }
      rewrite Hb in Hwait. destruct (Hwait eq_refl Hra) as [Hlater Hbefore].
      specialize (Hbefore _ deadline). lia.
    + cbn. intros r es' st4 _ (res & failure & -> & Hres). eexists _, _. split; [done|].
      apply (loop_post_turn result o f excluded es); [done|done| |done].
      destruct (o_Attempted o) eqn:Hatt; [by apply (once_attempted _ _ _ _ _ Hpost)|].
      by destruct (idle_retry result' o f excluded es _ Hpost Hf Hatt Hretry).
  - apply wp_bind, wp_time_Now. intros t st4 _. apply wp_ret. cbn. rewrite app_nil_r.
    eexists _, _. split; [done|]. by eapply loop_post_failed.
Qed.
End loop.

Section execute.
Context {Request Body : Type} `{Env Request Body, Unicode, HTTPDates}.
Context (ex : AttemptExecutor) (ctx : Ctx) (input : AttemptInput Request) (retry : RetryPolicy).
Context (d : Time) (fuel : nat) (st : St).

(** The setting of the theorems: a valid policy for the candidate, a request
    deadline, and fuel for the attempts and for each nanosecond left. *)
Record setting : Prop := {
  set_local : ∀ tick p actx chat key, plain_local_error (cr_err (env_complete tick p actx chat key));
  set_policy : rps_ForProvider (ex_retries ex) (cd_ProviderID (in_Candidate input)) = Some retry;
  set_valid : RetryConfig_Validate retry = None;
  set_deadline : ctx_deadline ctx = Some d;
  set_fuel : rc_MaxAttempts retry + Z.max 0 (d - w_now (st_world st)) < Z.of_nat fuel;
}.

Lemma empty_head_ok {Payload} candidate :
  head_ok candidate (@empty_result Payload) ∅.
Proof.
  constructor; cbn; try done; by intros r ?%elem_of_nil.
Qed.

Lemma Execute_spec :
  setting →
  wp (Execute ex fuel ctx input) st (λ r es _, ∃ res failure, r = Some (res, failure) ∧
    loop_post (λ _, holds_nothing) (λ _, True) (in_Candidate input) (rc_MaxAttempts retry) empty_result res failure es).
Proof.
  intros [Hlocal Hpol Hv Hd Hfuel]. unfold Execute. rewrite Hpol.
  apply RetryConfig_Validate_bounds in Hv as [Hmax _].
  eapply retry_loop_spec with (d := d); try done.
  - intros. by apply executeOnce_spec.
  - apply empty_head_ok.
  - cbn. lia.
  - unfold remaining. cbn. lia.
Qed.

(** Executing one candidate terminates and is bounded, whatever the breaker,
    the queue, the keys, the upstream and the other goroutines do: it answers
    with at most [MaxAttempts] counted attempts and at most [MaxAttempts] calls
    to the upstream, of which every attempt is one. Waits for an exhausted key
    set cost no attempt; they end with the request's deadline. *)
Theorem execute_terminates_bounded :
  setting →
  ∃ res failure es st', runs (Execute ex fuel ctx input) st (Some (res, failure)) es st' ∧
    0 ≤ r_Attempts res ≤ rc_MaxAttempts retry ∧
    r_Attempts res ≤ calls es ≤ rc_MaxAttempts retry.
Proof.
  intros Hset. destruct (Execute_spec Hset) as (r & es & st' & Hrun & Hes & _ & res & failure & -> & Hp).
  exists res, failure, es, st'. split; [done|].
  pose proof (lp_attempts _ _ _ _ _ _ _ _ Hp) as Ha. pose proof (lp_calls _ _ _ _ _ _ _ _ Hp) as Hc.
  cbn in *. lia.
Qed.

(** C3: nothing leaks. On every path of [Execute] (success, refusal by the
    breaker, the queue or the key selector, failure, retry, timeout,
    cancellation) each permit taken is settled exactly once, before its lease is
    released; each lease is released exactly once; each selected key is settled
    exactly once; and the upstream is only called under a permit and a lease,
    with the key selected for that call. *)
Theorem execute_releases_everything res failure es st' :
  setting → runs (Execute ex fuel ctx input) st (Some (res, failure)) es st' →
  replay holds_nothing es = Some holds_nothing.
Proof.
  intros Hset Hrun. apply (wp_runs _ _ _ _ _ _ (Execute_spec Hset)) in Hrun
    as (res' & failure' & [= <- <-] & Hp).
  rewrite (lp_held _ _ _ _ _ _ _ _ Hp). unfold held_after. by repeat case_match.
Qed.

(** The result tells what happened. The trail has one record per attempt,
    numbered from 1 and naming the candidate; a success comes with a body, its
    last record is the successful call and all before it failed; after a
    failure every record failed and [TotalAttempts] counts them. *)
Theorem execute_result_faithful res failure es st' :
  setting → runs (Execute ex fuel ctx input) st (Some (res, failure)) es st' →
  r_Attempts res = Z.of_nat (length (r_Trail res)) ∧
  (∀ i r, r_Trail res !! i = Some r →
     ar_Attempt r = Z.of_nat i + 1 ∧ ar_ProviderID r = cd_ProviderID (in_Candidate input)) ∧
  match failure with
  | None => (∃ body, r_Payload res = Some body) ∧
      ∃ before last, r_Trail res = before ++ [last] ∧ ar_Category last = None ∧
        ∀ r, r ∈ before → ar_Category r ≠ None
  | Some f => f_TotalAttempts f = r_Attempts res ∧ r_Payload res = None ∧
      ∀ r, r ∈ r_Trail res → ar_Category r ≠ None
  end.
Proof.
  intros Hset Hrun. apply (wp_runs _ _ _ _ _ _ (Execute_spec Hset)) in Hrun
    as (res' & failure' & [= <- <-] & [[Hl Hn _] _ _ Hs Hf _]).
  split; [done|]. split; [intros i r Hi; by destruct (Hn i r Hi) as (? & ? & _)|].
  destruct failure; [by apply Hf|]. destruct (Hs eq_refl) as [(b & Hb & _) Hrest]. eauto.
Qed.

(** A refused key is not tried again. Once an attempt of an execution has
    ended with 401 or 403 for a key, no later attempt of the same execution
    uses that key. *)
Theorem refused_key_not_reused res failure es st' i j ri rj :
  setting → runs (Execute ex fuel ctx input) st (Some (res, failure)) es st' →
  (i < j)%nat → r_Trail res !! i = Some ri → r_Trail res !! j = Some rj →
  ar_Category ri = Some CategoryKeyUnauthorized ∨ ar_Category ri = Some CategoryKeyForbidden →
  ar_KeyID ri ≠ ""%string → ar_KeyID rj ≠ ar_KeyID ri.
Proof.
  intros Hset Hrun. apply (wp_runs _ _ _ _ _ _ (Execute_spec Hset)) in Hrun
    as (res' & failure' & [= <- <-] & [[_ _ Hk] _ _ _ _ _]).
  intros. by eapply (Hk i j).
Qed.
End execute.

(** ** Concrete instances

    An upstream that refuses the key of the first call with 401 and then
    answers; nobody else touches the state. *)

Definition demo_401 : HTTPError := {| http_StatusCode := 401; http_RetryAfter := ""; http_Code := "" |}.

#[export] Instance demo_env : Env string string :=
  {| env_other := λ _ w, w;
     env_wait := λ _ q, (WaitTimer, 0, q);
     env_complete := λ tick _ _ _ key,
       {| cr_payload := ("answer" ++ key)%string;
          cr_err := if (tick <? 10)%nat then Some (EWrap (EHTTP demo_401)) else None;
          cr_at := Z.of_nat tick |};
     env_random := λ _, 0.5%float;
     env_timer_first := λ _, true |}.

Definition demo_executor : AttemptExecutor :=
  {| ex_adapters := {[ "p"%string := {| ad_Authentication := AuthenticationAPIKey; ad_streaming := true |} ]};
     ex_breakers := {| reg_at := {[ "p"%string := 0%nat ]}; reg_ids := ["p"%string] |};
     ex_queues := {| reg_at := {[ "p"%string := 0%nat ]}; reg_ids := ["p"%string] |};
     ex_keys := Some demo_key_registry;
     ex_retries := policy_policies DefaultRetryConfig |}.

Definition demo_world : World :=
  {| w_tick := 0; w_now := 9; w_breakers := [demo_breaker]; w_queues := [demo_queue 0 0 0];
     w_keys := [demo_usable] |}.
Definition demo_st : St := {| st_world := demo_world; st_events := [] |}.

Definition demo_ctx : Ctx := {| ctx_deadline := Some 40; ctx_cancel_at := None |}.
Definition demo_input : AttemptInput string :=
  {| in_RequestID := "r"; in_RequestedModel := "fast"; in_Request := "hello";
     in_Candidate := {| cd_ProviderID := "p"; cd_UpstreamModel := "m"; cd_Priority := 0 |} |}.

Definition demo_run := @Execute string string demo_env demo_unicode demo_dates demo_executor.

Definition demo_small := demo_run 40 demo_ctx demo_input demo_st.

Lemma demo_setting : @setting string string demo_env demo_executor demo_ctx demo_input
  DefaultRetryConfig 40 40 demo_st.
Proof.
  constructor; try done; try (vm_compute; reflexivity).
  intros tick p actx chat key e He Ha. cbn -[Nat.ltb] in He. destruct (tick <? 10)%nat; [|done].
  injection He as <-. done.
Qed.

Definition demo_answer := Eval vm_compute in demo_small.
Definition demo_result : AttemptResult string :=
  match demo_answer.1 with Some (res, _) => res | None => empty_result end.

Lemma demo_runs :
  @runs (option (AttemptResult string * option Failure)) (demo_run 40 demo_ctx demo_input) demo_st
    (Some (demo_result, None)) (st_events demo_answer.2) demo_answer.2.
Proof. split; vm_compute; reflexivity. Qed.

Lemma execute_terminates_bounded_witness :
  ∃ res failure es st', runs (demo_run 40 demo_ctx demo_input) demo_st (Some (res, failure)) es st' ∧
    0 ≤ r_Attempts res ≤ 3 ∧ r_Attempts res ≤ calls es ≤ 3.
Proof.
  exact (@execute_terminates_bounded string string demo_env demo_unicode demo_dates demo_executor
    demo_ctx demo_input DefaultRetryConfig 40 40 demo_st demo_setting).
Defined.

Lemma execute_releases_everything_witness :
  replay holds_nothing (st_events demo_answer.2) = Some holds_nothing.
Proof.
  exact (@execute_releases_everything string string demo_env demo_unicode demo_dates demo_executor
    demo_ctx demo_input DefaultRetryConfig 40 40 demo_st _ _ _ _ demo_setting demo_runs).
Defined.

Lemma execute_result_faithful_witness :
  r_Attempts demo_result = Z.of_nat (length (r_Trail demo_result)).
Proof.
  exact (proj1 (@execute_result_faithful string string demo_env demo_unicode demo_dates demo_executor
    demo_ctx demo_input DefaultRetryConfig 40 40 demo_st _ _ _ _ demo_setting demo_runs)).
Defined.

Definition demo_record (i : nat) : AttemptRecord :=
  match r_Trail demo_result !! i with
  | Some r => r
  | None => {| ar_ProviderID := ""; ar_UpstreamModel := ""; ar_KeyID := ""; ar_Candidate := 0;
               ar_Attempt := 0; ar_Duration := 0; ar_Category := None; ar_StatusCode := 0 |}
  end.

Lemma refused_key_not_reused_witness : ar_KeyID (demo_record 1) ≠ ar_KeyID (demo_record 0).
Proof.
  exact (@refused_key_not_reused string string demo_env demo_unicode demo_dates demo_executor
    demo_ctx demo_input DefaultRetryConfig 40 40 demo_st _ _ _ _ 0 1 (demo_record 0) (demo_record 1)
    demo_setting demo_runs ltac:(lia) eq_refl eq_refl (or_introl eq_refl) ltac:(discriminate)).
Defined.
