(* ===== verification/Construction.v ===== *)
(** * Construction of adapters

    Models [src/internal/provider/catalog.go] ([Resolve]), [factory.go],
    [registry.go] and the constructors of the adapters: from the vendor, protocol
    and base URL of the configuration to the adapter of a provider. Native adapters
    are their endpoints here; what they send is the environment's ([Env] of
    Attempt.v). An endpoint that the configuration accepts is one the factory
    accepts. *)

From S2P Require Import Prelude Failure Encoding Json Routing ChatContent Transport Attempt Compatible.

(** ** The catalog *)

Record Preset := { pr_Protocol : string; pr_BaseURL : string }.

Definition presets : gmap string Preset :=
  list_to_map
    [("custom", Build_Preset "openai-compatible" "");
     ("openai", Build_Preset "openai" "https://api.openai.com/v1");
     ("anthropic", Build_Preset "anthropic" "https://api.anthropic.com");
     ("google", Build_Preset "gemini" "https://generativelanguage.googleapis.com/v1beta");
     ("azure", Build_Preset "azure-openai" "");
     ("xai", Build_Preset "xai" "https://api.x.ai/v1");
     ("deepseek", Build_Preset "deepseek" "https://api.deepseek.com");
     ("alibaba", Build_Preset "dashscope" "https://dashscope.aliyuncs.com/api/v1");
     ("zhipu", Build_Preset "zhipu" "https://open.bigmodel.cn/api/paas/v4");
     ("mistral", Build_Preset "mistral" "https://api.mistral.ai/v1");
     ("groq", Build_Preset "groq" "https://api.groq.com/openai/v1");
     ("nvidia", Build_Preset "nvidia" "https://integrate.api.nvidia.com/v1");
     ("together", Build_Preset "together" "https://api.together.ai/v1");
     ("cohere", Build_Preset "cohere" "https://api.cohere.com/v2");
     ("ollama", Build_Preset "ollama" "http://localhost:11434");
     ("bedrock", Build_Preset "bedrock" "");
     ("cloudflare", Build_Preset "cloudflare" "")]%string.

Definition compatibleBaseURLs : gmap string string :=
  list_to_map
    [("openai", "https://api.openai.com/v1");
     ("google", "https://generativelanguage.googleapis.com/v1beta/openai");
     ("xai", "https://api.x.ai/v1");
     ("deepseek", "https://api.deepseek.com");
     ("alibaba", "https://dashscope.aliyuncs.com/compatible-mode/v1");
     ("zhipu", "https://open.bigmodel.cn/api/paas/v4");
     ("mistral", "https://api.mistral.ai/v1");
     ("groq", "https://api.groq.com/openai/v1");
     ("nvidia", "https://integrate.api.nvidia.com/v1");
     ("together", "https://api.together.ai/v1")]%string.

Inductive ResolveError :=
| resolve_vendor (vendor : string)
| resolve_no_protocol (vendor : string)
| resolve_protocol (protocol : string)
| resolve_custom_protocol
| resolve_vendor_protocol (vendor protocol : string)
| resolve_not_compatible (vendor : string)
| resolve_no_base_url (vendor : string)
| resolve_base_url (vendor : string).

(** The vendors whose address holds the deployment, so that none is guessed. *)
Definition deployed_vendor (vendor : string) : bool :=
  bool_decide (vendor ∈ ["custom"; "azure"; "bedrock"; "cloudflare"]%string).

(** The address used when none is configured; [None] where one is required. *)
Definition default_base_url (vendor protocol : string) (preset : Preset) : option string :=
  if deployed_vendor vendor then None
  else if (protocol =? "openai-compatible")%string then Some (default ""%string (compatibleBaseURLs !! vendor))
  else Some (pr_BaseURL preset).

Definition resolve_protocol_error (vendor protocol : string) (preset : Preset) : option ResolveError :=
  if (vendor =? "custom")%string && negb (protocol =? "openai-compatible")%string then Some resolve_custom_protocol
  else if negb (vendor =? "custom")%string && negb (protocol =? pr_Protocol preset)%string &&
          negb (protocol =? "openai-compatible")%string
  then Some (resolve_vendor_protocol vendor protocol)
  else if (protocol =? "openai-compatible")%string && negb (vendor =? "custom")%string &&
          negb (isSome (compatibleBaseURLs !! vendor))
  then Some (resolve_not_compatible vendor)
  else None.

Definition Resolve `{Unicode} `{NetURL} (vendor protocol configuredBaseURL : string) : result ResolveError Preset :=
  let vendor := ToLower (TrimSpace vendor) in
  let protocol := ToLower (TrimSpace protocol) in
  let configuredBaseURL := TrimSpace configuredBaseURL in
  match presets !! vendor with
  | None => Err (resolve_vendor vendor)
  | Some preset =>
      if (protocol =? "")%string then Err (resolve_no_protocol vendor)
      else if negb (SupportedProtocol protocol) then Err (resolve_protocol protocol)
      else
        match resolve_protocol_error vendor protocol preset with
        | Some e => Err e
        | None =>
            let baseURL :=
              if (configuredBaseURL =? "")%string then default_base_url vendor protocol preset
              else Some configuredBaseURL in
            match baseURL with
            | None => Err (resolve_no_base_url vendor)
            | Some baseURL =>
                if (baseURL =? "")%string then Err (resolve_no_base_url vendor)
                else
                  match parseBaseURL baseURL with
                  | Err _ => Err (resolve_base_url vendor)
                  | Ok _ => Ok {| pr_Protocol := protocol; pr_BaseURL := baseURL |}
                  end
            end
        end
  end.

(** ** The factory *)

Record AdapterConfig := {
  ac_ProviderID : string;
  ac_Protocol : string;
  ac_BaseURL : string;
  ac_HTTP : HTTPConfig;
  ac_DisableStreamUsage : bool;
}.

(** The implementations of the interface [Adapter], with the endpoint or base URL they
    keep. All of them implement [StreamingAdapter]. *)
Inductive ProviderAdapter :=
| anthropicAdapter (endpoint : string)
| geminiAdapter (baseURL : string)
| azureOpenAIAdapter (endpoint : string)
| dashScopeAdapter (endpoint : string)
| cohereAdapter (endpoint : string)
| ollamaAdapter (endpoint : string)
| bedrockAdapter (baseURL : string)
| cloudflareAdapter (endpoint : string)
| compatibleAdapter (adapter : chatAdapter).

Definition adapter_Authentication (adapter : ProviderAdapter) : Authentication :=
  match adapter with ollamaAdapter _ => AuthenticationNone | _ => AuthenticationAPIKey end.

(** Which adapters implement [EmbeddingAdapter]. *)
Definition embeds (adapter : ProviderAdapter) : bool :=
  match adapter with
  | compatibleAdapter _ | azureOpenAIAdapter _ | geminiAdapter _ | ollamaAdapter _ => true
  | _ => false
  end.

(** What the reliability layer sees of an adapter. *)
Definition adapter_view (adapter : ProviderAdapter) : Adapter :=
  {| ad_Authentication := adapter_Authentication adapter; ad_streaming := true |}.
(** The bridge of an embedding adapter passes the authentication on and does not
    stream. *)
Definition bridge_view (adapter : ProviderAdapter) : Adapter :=
  {| ad_Authentication := adapter_Authentication adapter; ad_streaming := false |}.

Inductive FactoryError :=
| factory_http
| factory_protocol (protocol : string)
| factory_endpoint (error : GoErr).

Definition compatible_protocols : list string :=
  ["openai-compatible"; "openai"; "mistral"; "deepseek"; "xai"; "zhipu"; "groq"; "nvidia"; "together"]%string.

Definition zero_http : HTTPConfig :=
  {| hc_MaxIdleConnections := 0; hc_MaxIdleConnectionsPerHost := 0; hc_MaxConnectionsPerHost := 0 |}.

Definition endpoint_adapter (make : string → ProviderAdapter) (endpoint : result GoErr string)
    : result FactoryError ProviderAdapter :=
  match endpoint with Ok e => Ok (make e) | Err e => Err (factory_endpoint e) end.

(** The constructors that keep the base URL only check it. *)
Definition checked_base `{NetURL} (baseURL : string) : result GoErr string :=
  match parseBaseURL baseURL with Ok _ => Ok baseURL | Err e => Err e end.

Section factory.
Context `{Unicode} `{NetURL}.

Definition NewAdapter (config : AdapterConfig) : result FactoryError ProviderAdapter :=
  let protocol := ToLower (TrimSpace (ac_Protocol config)) in
  let httpConfig := if bool_decide (ac_HTTP config = zero_http) then DefaultHTTPConfig else ac_HTTP config in
  let baseURL := ac_BaseURL config in
  if negb (HTTPConfig_Validate httpConfig) then Err factory_http
  else if (protocol =? "anthropic")%string then endpoint_adapter anthropicAdapter (fixedEndpoint baseURL "v1/messages")
  else if (protocol =? "gemini")%string then endpoint_adapter geminiAdapter (checked_base baseURL)
  else if (protocol =? "azure-openai")%string then endpoint_adapter azureOpenAIAdapter (azureChatEndpoint baseURL)
  else if (protocol =? "dashscope")%string
  then endpoint_adapter dashScopeAdapter (fixedEndpoint baseURL "services/aigc/text-generation/generation")
  else if (protocol =? "cohere")%string then endpoint_adapter cohereAdapter (fixedEndpoint baseURL "chat")
  else if (protocol =? "ollama")%string then endpoint_adapter ollamaAdapter (fixedEndpoint baseURL "api/chat")
  else if (protocol =? "bedrock")%string then endpoint_adapter bedrockAdapter (checked_base baseURL)
  else if (protocol =? "cloudflare")%string then endpoint_adapter cloudflareAdapter (cloudflareChatEndpoint baseURL)
  else if bool_decide (protocol ∈ compatible_protocols) then
    match newCompatibleChatAdapterWithUsage protocol baseURL (negb (ac_DisableStreamUsage config)) with
    | Ok adapter => Ok (compatibleAdapter adapter)
    | Err e => Err (factory_endpoint e)
    end
  else Err (factory_protocol protocol).

(** ** The registry of adapters *)

Record AdapterRegistry := { ar_adapters : gmap string ProviderAdapter; ar_ids : list string }.

Inductive AdapterRegistryError :=
| adapter_id_empty (index : nat)
| adapter_id_duplicated (providerID : string)
| adapter_config (providerID : string) (error : FactoryError)
| adapter_nil (providerID : string)
| adapter_none.

Fixpoint adapters_loop (index : nat) (configured : list AdapterConfig) (adapters : gmap string ProviderAdapter)
    : result AdapterRegistryError (gmap string ProviderAdapter) :=
  match configured with
  | [] => Ok adapters
  | config :: rest =>
      let providerID := TrimSpace (ac_ProviderID config) in
      if (providerID =? "")%string then Err (adapter_id_empty index)
      else if isSome (adapters !! providerID) then Err (adapter_id_duplicated providerID)
      else
        match NewAdapter config with
        | Err e => Err (adapter_config providerID e)
        | Ok adapter => adapters_loop (S index) rest (<[providerID := adapter]> adapters)
        end
  end.
End factory.

(** [NewAdapterRegistryFromAdapters] over the entries of the map in the order they are
    ranged over; [None] is a nil adapter. *)
Fixpoint given_adapters (configured : list (string * option ProviderAdapter)) (registry : AdapterRegistry)
    : result AdapterRegistryError AdapterRegistry :=
  match configured with
  | [] => Ok registry
  | (configuredID, adapter) :: rest =>
      let providerID := TrimSpace configuredID in
      if (providerID =? "")%string then Err (adapter_id_empty 0)
      else
        match adapter with
        | None => Err (adapter_nil providerID)
        | Some adapter =>
            if isSome (ar_adapters registry !! providerID) then Err (adapter_id_duplicated providerID)
            else
              given_adapters rest
                {| ar_adapters := <[providerID := adapter]> (ar_adapters registry);
                   ar_ids := ar_ids registry ++ [providerID] |}
        end
  end.

Definition NewAdapterRegistryFromAdapters (configured : list (string * option ProviderAdapter))
    : result AdapterRegistryError AdapterRegistry :=
  registry ← given_adapters configured {| ar_adapters := ∅; ar_ids := [] |};
  if bool_decide (ar_adapters registry = ∅) then Err adapter_none
  else Ok {| ar_adapters := ar_adapters registry; ar_ids := sort_Strings (ar_ids registry) |}.

(** The order in which Go ranges over a map. *)
Class MapOrder := map_order : ∀ {A}, gmap string A → list (string * A).
Class MapOrderLaw `{MapOrder} := map_order_perm : ∀ A (m : gmap string A), map_order m ≡ₚ map_to_list m.

Definition NewAdapterRegistry `{Unicode} `{NetURL} `{MapOrder} (configured : list AdapterConfig)
    : result AdapterRegistryError AdapterRegistry :=
  adapters ← adapters_loop 0 configured ∅;
  NewAdapterRegistryFromAdapters (map (λ e, (e.1, Some e.2)) (map_order adapters)).

(** A nil registry knows no provider. *)
Definition registry_Adapter (registry : option AdapterRegistry) (providerID : string) : option ProviderAdapter :=
  r ← registry; ar_adapters r !! TrimSpace providerID.

Definition ProviderIDs (registry : option AdapterRegistry) : list string :=
  match registry with Some r => ar_ids r | None => [] end.

Definition registry_KeyedProviderIDs (registry : option AdapterRegistry) : list string :=
  match registry with
  | None => []
  | Some r =>
      filter (λ id, (adapter_Authentication <$> ar_adapters r !! id) = Some AuthenticationAPIKey) (ar_ids r)
  end.

(** The registry of the bridges; [None] when no adapter embeds. *)
Definition EmbeddingRegistry `{MapOrder} (registry : AdapterRegistry)
    : result AdapterRegistryError (option AdapterRegistry) :=
  let adapters := filter (λ e, embeds e.2 = true) (ar_adapters registry) in
  if bool_decide (adapters = ∅) then Ok None
  else
    match NewAdapterRegistryFromAdapters (map (λ e, (e.1, Some e.2)) (map_order adapters)) with
    | Ok r => Ok (Some r)
    | Err e => Err e
    end.

Example resolve_examples : ∀ (u : Unicode) (n : NetURL),
  Resolve "unknown" "openai" "" = Err (resolve_vendor "unknown")
  ∧ Resolve "Azure" "azure-openai" "" = Err (resolve_no_base_url "azure")
  ∧ Resolve "anthropic" "openai-compatible" "" = Err (resolve_not_compatible "anthropic")
  ∧ Resolve "custom" "openai" "" = Err resolve_custom_protocol.
Proof. intros. split_and!; vm_compute; reflexivity. Qed.

(** ** What the factory accepts *)

Section factory_facts.
Context `{Unicode} `{NetURL}.

Definition http_of (config : AdapterConfig) : HTTPConfig :=
  if bool_decide (ac_HTTP config = zero_http) then DefaultHTTPConfig else ac_HTTP config.

Lemma endpoint_adapter_ok make e : is_ok (endpoint_adapter make e) = is_ok e.
Proof. by destruct e. Qed.

Lemma endpoint_of_ok path raw : is_ok (endpoint_of path raw) = is_ok (parseBaseURL raw).
Proof. unfold endpoint_of. by destruct (parseBaseURL raw). Qed.

Lemma checked_base_ok raw : is_ok (checked_base raw) = is_ok (parseBaseURL raw).
Proof. unfold checked_base. by destruct (parseBaseURL raw). Qed.

Lemma compatible_adapter_ok protocol raw b :
  is_ok (newCompatibleChatAdapterWithUsage protocol raw b) = is_ok (parseBaseURL raw).
Proof.
  unfold newCompatibleChatAdapterWithUsage, compatibleChatEndpoint, fixedEndpoint, endpoint_of.
  destruct (_ =? _)%string; by destruct (parseBaseURL raw).
Qed.

(** The factory fails exactly for connection limits that are not valid, protocols without
    an implementation, and base URLs that the boundary of the configuration rejects. *)
Lemma NewAdapter_ok_iff config :
  is_ok (NewAdapter config) =
  HTTPConfig_Validate (http_of config) && SupportedProtocol (ac_Protocol config) && is_ok (parseBaseURL (ac_BaseURL config)).
Proof.
  unfold NewAdapter, SupportedProtocol. fold (http_of config).
  generalize (ToLower (TrimSpace (ac_Protocol config))). intros p.
  destruct (HTTPConfig_Validate _); [|done]. cbn [negb andb].
  assert (∀ x, (p =? x)%string = true → x ∈ SupportedProtocols → bool_decide (p ∈ SupportedProtocols) = true) as Hin
    by (by intros x ->%String.eqb_eq ?; apply bool_decide_eq_true).
  repeat match goal with
  | |- context [if (p =? ?x)%string then _ else _] =>
      destruct (p =? x)%string eqn:?E;
      [rewrite (Hin x) by (done || (apply (bool_decide_eq_true_1 _); vm_compute; reflexivity));
       rewrite endpoint_adapter_ok; unfold fixedEndpoint, azureChatEndpoint, cloudflareChatEndpoint;
       rewrite ?endpoint_of_ok, ?checked_base_ok; done|]
  end.
  repeat match goal with E : (p =? _)%string = false |- _ => apply String.eqb_neq in E end.
  assert (bool_decide (p ∈ compatible_protocols) = bool_decide (p ∈ SupportedProtocols)) as ->.
  { apply bool_decide_ext. unfold compatible_protocols, SupportedProtocols. rewrite !elem_of_cons. tauto. }
  destruct (bool_decide _); [|done]. cbn [andb].
  rewrite <-(compatible_adapter_ok p (ac_BaseURL config) (negb (ac_DisableStreamUsage config))).
  by destruct (newCompatibleChatAdapterWithUsage _ _ _).
Qed.

(** The wire format an adapter speaks. *)
Definition speaks (protocol : string) (adapter : ProviderAdapter) : Prop :=
  match adapter with
  | anthropicAdapter _ => protocol = "anthropic"
  | geminiAdapter _ => protocol = "gemini"
  | azureOpenAIAdapter _ => protocol = "azure-openai"
  | dashScopeAdapter _ => protocol = "dashscope"
  | cohereAdapter _ => protocol = "cohere"
  | ollamaAdapter _ => protocol = "ollama"
  | bedrockAdapter _ => protocol = "bedrock"
  | cloudflareAdapter _ => protocol = "cloudflare"
  | compatibleAdapter a => protocol ∈ compatible_protocols ∧ ad_protocol a = protocol
  end%string.

Lemma NewAdapter_speaks config adapter :
  NewAdapter config = Ok adapter → speaks (ToLower (TrimSpace (ac_Protocol config))) adapter.
Proof.
  unfold NewAdapter. fold (http_of config).
  generalize (ToLower (TrimSpace (ac_Protocol config))). intros p.
  destruct (HTTPConfig_Validate _); [|done]. cbn [negb].
  repeat match goal with
  | |- (if (p =? ?x)%string then _ else _) = _ → _ =>
      destruct (String.eqb_spec p x) as [->|?];
      [match goal with |- endpoint_adapter _ ?e = _ → _ => destruct e; [by intros [= <-]|done] end|]
  end.
  case_bool_decide as Hin; [|done]. unfold newCompatibleChatAdapterWithUsage.
  destruct (compatibleChatEndpoint _ _); [|done]. cbn. by intros [= <-].
Qed.

(** A preset is an address the boundary accepts and a supported protocol. *)
Lemma Resolve_ok vendor protocol url preset :
  Resolve vendor protocol url = Ok preset →
  pr_Protocol preset = ToLower (TrimSpace protocol) ∧ SupportedProtocol (pr_Protocol preset) = true ∧
  is_ok (parseBaseURL (pr_BaseURL preset)) = true ∧
  (TrimSpace url = ""%string ∨ pr_BaseURL preset = TrimSpace url).
Proof.
  unfold Resolve. destruct (presets !! _) as [p|]; [|done].
  destruct (_ =? "")%string; [done|]. destruct (SupportedProtocol _) eqn:Hs; [|done]. cbn [negb].
  destruct (resolve_protocol_error _ _ _); [done|].
  destruct (String.eqb_spec (TrimSpace url) "") as [He|He].
  - destruct (default_base_url _ _ _) as [b|]; [|done]. destruct (_ =? "")%string; [done|].
    destruct (parseBaseURL b) eqn:Hp; [|done]. intros [= <-]. cbn. rewrite Hp. auto.
  - destruct (_ =? "")%string; [done|]. destruct (parseBaseURL (TrimSpace url)) eqn:Hp; [|done].
    intros [= <-]. cbn. rewrite Hp. auto.
Qed.

(** What the loader of the configuration accepts, the factory builds: for every vendor,
    protocol and address that [Resolve] lets through, and valid limits of connections,
    [NewAdapter] answers an adapter, and it speaks the protocol that was asked for. *)
Theorem resolved_constructs vendor protocol url preset config :
  Resolve vendor protocol url = Ok preset →
  ac_Protocol config = pr_Protocol preset → ac_BaseURL config = pr_BaseURL preset →
  HTTPConfig_Validate (http_of config) = true →
  ∃ adapter, NewAdapter config = Ok adapter ∧ speaks (ToLower (TrimSpace (pr_Protocol preset))) adapter.
Proof.
  intros (_ & Hs & Hu & _)%Resolve_ok Hp Hb Hh. pose proof (NewAdapter_ok_iff config) as Hok.
  rewrite Hp, Hb, Hs, Hu, Hh in Hok. destruct (NewAdapter config) as [adapter|] eqn:Hn; [|done].
  exists adapter. split; [done|]. rewrite <-Hp. by apply NewAdapter_speaks.
Qed.
End factory_facts.

(** ** What a registry holds *)

Section registry_facts.
Context `{Unicode} `{NetURL} `{MapOrderLaw}.

Definition adapter_ids (configured : list AdapterConfig) : list string := map (λ c, TrimSpace (ac_ProviderID c)) configured.

Record adapters_ok (configured : list AdapterConfig) (adapters : gmap string ProviderAdapter) : Prop := {
  ak_ids : ∀ k, is_Some (adapters !! k) ↔ k ∈ adapter_ids configured;
  ak_nodup : NoDup (adapter_ids configured);
  ak_made : ∀ c, c ∈ configured → ∃ a, adapters !! TrimSpace (ac_ProviderID c) = Some a ∧ NewAdapter c = Ok a;
  ak_keys : ∀ k, is_Some (adapters !! k) → trimmed k ∧ k ≠ ""%string;
}.

Lemma adapters_loop_ok index before configured adapters adapters' :
  adapters_ok before adapters → adapters_loop index configured adapters = Ok adapters' →
  adapters_ok (before ++ configured) adapters'.
Proof.
  revert index before adapters. induction configured as [|c configured IH]; intros index before adapters Hok; cbn.
  { intros [= <-]. by rewrite app_nil_r. }
  destruct (String.eqb_spec (TrimSpace (ac_ProviderID c)) "") as [|Hne]; [done|].
  destruct (adapters !! _) eqn:Hl; [done|]. cbn. destruct (NewAdapter c) as [a|] eqn:Hn; [|done].
  intros Hloop. apply (IH _ (before ++ [c])) in Hloop; [by rewrite <-app_assoc in Hloop|].
  destruct Hok as [Hids Hnd Hmade Hkeys].
  assert (TrimSpace (ac_ProviderID c) ∉ adapter_ids before) as Hfresh
    by (rewrite <-Hids, Hl; by intros []).
  assert (adapter_ids (before ++ [c]) = adapter_ids before ++ [TrimSpace (ac_ProviderID c)]) as Happ
    by (unfold adapter_ids; by rewrite map_app).
  constructor; rewrite ?Happ.
  - intros k. rewrite elem_of_app, lookup_insert_is_Some, Hids, list_elem_of_singleton.
    destruct (decide (TrimSpace (ac_ProviderID c) = k)); naive_solver.
  - by apply NoDup_snoc.
  - intros d [Hd| ->%list_elem_of_singleton]%elem_of_app.
    + destruct (Hmade d Hd) as (b & Hb & Hnb). exists b. split; [|done].
      rewrite lookup_insert_ne; [done|]. intros Heq. apply Hfresh. rewrite Heq.
      apply list_elem_of_fmap. eauto.
    + exists a. by rewrite lookup_insert_eq.
  - intros k. rewrite lookup_insert_is_Some. intros [<-|[_ Hk]]; [|by apply Hkeys].
    split; [apply trimmed_TrimSpace|done].
Qed.

Lemma given_adapters_ok l (m : gmap string ProviderAdapter) r :
  NoDup l.*1 → (∀ k a, (k, a) ∈ l → trimmed k ∧ k ≠ ""%string ∧ ar_adapters r !! k = None) →
  given_adapters (map (λ e, (e.1, Some e.2)) l) r =
  Ok {| ar_adapters := list_to_map l ∪ ar_adapters r; ar_ids := ar_ids r ++ l.*1 |}.
Proof.
  revert r. induction l as [|[k a] l IH]; intros r Hnd Hl; cbn [map given_adapters fst snd].
  { destruct r as [x y]. cbn. by rewrite map_empty_union, app_nil_r. }
  destruct (Hl k a) as (Ht & Hne & Hr); [left|]. unfold trimmed in Ht. rewrite Ht.
  destruct (String.eqb_spec k "") as [|_]; [done|]. rewrite Hr. cbn.
  cbn in Hnd. apply NoDup_cons in Hnd as [Hk Hnd]. rewrite IH; [| done |].
  - cbn. f_equal. f_equal; [|by rewrite <-app_assoc].
    rewrite <-insert_union_r; [by rewrite insert_union_l|].
    apply not_elem_of_list_to_map. done.
  - intros k' a' Hin. destruct (Hl k' a') as (? & ? & Hr'); [by right|]. split; [done|]. split; [done|].
    cbn. rewrite lookup_insert_ne; [done|]. intros <-. apply Hk. apply list_elem_of_fmap. by exists (k, a').
Qed.

(** Building from adapters that are already there keeps exactly them. *)
Lemma from_adapters_spec (m : gmap string ProviderAdapter) :
  (∀ k, is_Some (m !! k) → trimmed k ∧ k ≠ ""%string) → m ≠ ∅ →
  ∃ ids, NewAdapterRegistryFromAdapters (map (λ e, (e.1, Some e.2)) (map_order m)) =
         Ok {| ar_adapters := m; ar_ids := ids |} ∧
    Sorted string_le ids ∧ NoDup ids ∧ ∀ k, k ∈ ids ↔ is_Some (m !! k).
Proof.
  intros Hkeys Hm. pose proof (map_order_perm _ m) as Hperm.
  assert (NoDup (map_order m).*1) as Hnd.
  { rewrite Hperm. apply NoDup_fst_map_to_list. }
  assert (list_to_map (map_order m) = m) as Hmap.
  { rewrite (list_to_map_proper _ _ Hnd Hperm). apply list_to_map_to_list. }
  unfold NewAdapterRegistryFromAdapters.
  rewrite (given_adapters_ok _ m) by (done || (intros k a Hin; cbn; rewrite Hperm in Hin;
    apply elem_of_map_to_list in Hin; destruct (Hkeys k) as [? ?]; [by eexists|]; by rewrite lookup_empty)).
  cbn [mbind result_bind ar_adapters ar_ids]. rewrite Hmap, map_union_empty, bool_decide_eq_false_2 by done.
  eexists. split; [reflexivity|]. split; [apply sort_Strings_sorted|]. rewrite sort_Strings_perm. cbn. split; [done|].
  intros k. rewrite sort_Strings_perm, Hperm. cbn. rewrite list_elem_of_fmap. split.
  - intros ([k' a] & -> & Hin). apply elem_of_map_to_list in Hin. by eexists.
  - intros [a Ha]. exists (k, a). split; [done|]. by apply elem_of_map_to_list.
Qed.

(** A registry that is built holds one adapter for each configured provider, made by the
    factory from its configuration, and lists them in order. *)
Lemma NewAdapterRegistry_spec configured registry :
  NewAdapterRegistry configured = Ok registry →
  adapters_ok configured (ar_adapters registry) ∧ Sorted string_le (ar_ids registry) ∧ NoDup (ar_ids registry) ∧
  (∀ k, k ∈ ar_ids registry ↔ k ∈ adapter_ids configured).
Proof.
  unfold NewAdapterRegistry. intros (m & Hm & Hr)%result_bind_ok.
  assert (adapters_ok configured m) as Hok.
  { change configured with ([] ++ configured). eapply adapters_loop_ok; [|done].
    constructor; cbn; [|constructor|by intros c ?%elem_of_nil|].
    - intros k. rewrite lookup_empty. split; [by intros []|by intros ?%elem_of_nil].
    - intros k. rewrite lookup_empty. by intros []. }
  destruct (decide (m = ∅)) as [->|Hne].
  { unfold NewAdapterRegistryFromAdapters in Hr.
    assert (map_order (∅ : gmap string ProviderAdapter) = []) as Hempty by (apply Permutation_nil_r; rewrite map_order_perm; done).
    by rewrite Hempty in Hr. }
  destruct (from_adapters_spec m (ak_keys _ _ Hok) Hne) as (ids & Hids & Hs & Hnd & Hin).
  rewrite Hids in Hr. injection Hr as <-. cbn. split; [done|]. split; [done|]. split; [done|].
  intros k. rewrite Hin. apply Hok.
Qed.

Lemma registry_keyed_spec registry k :
  (∀ k, k ∈ ar_ids registry ↔ is_Some (ar_adapters registry !! k)) →
  k ∈ registry_KeyedProviderIDs (Some registry) ↔
  ∃ a, ar_adapters registry !! k = Some a ∧ adapter_Authentication a = AuthenticationAPIKey.
Proof.
  intros Hids. cbn. rewrite list_elem_of_filter, Hids, fmap_Some. split.
  - intros [(a & Ha & ->) _]. eauto.
  - intros (a & Ha & Hk). split; eauto.
Qed.

(** The bridges are those of the adapters that embed. *)
Lemma EmbeddingRegistry_spec registry :
  (∀ k, is_Some (ar_adapters registry !! k) → trimmed k ∧ k ≠ ""%string) →
  ∃ r, EmbeddingRegistry registry = Ok r ∧
    default ∅ (ar_adapters <$> r) = filter (λ e, embeds e.2 = true) (ar_adapters registry).
Proof.
  intros Hkeys. unfold EmbeddingRegistry. case_bool_decide as He.
  { exists None. cbn. by rewrite He. }
  destruct (from_adapters_spec (filter (λ e, embeds e.2 = true) (ar_adapters registry))) as (ids & Hr & _); [|done|].
  - intros k [a Ha]. apply map_lookup_filter_Some in Ha as [Ha _]. apply Hkeys. by eexists.
  - rewrite Hr. by eexists.
Qed.
End registry_facts.

(** ** A concrete factory *)

Definition demo_url : URL :=
  {| url_Scheme := "https"; url_Host := "api.example.com"; url_User := false; url_RawQuery := ""; url_Fragment := "";
     url_Path := "/v1"; url_RawPath := "" |}.
Definition demo_net : NetURL :=
  {| url_Parse := λ s, if (s =? "https://api.example.com/v1")%string then Some demo_url else None;
     url_String := λ u, (url_Scheme u ++ "://" ++ url_Host u ++ url_Path u)%string; url_PathEscape := λ s, s |}.

Lemma resolved_constructs_witness :
  ∃ adapter, @NewAdapter ascii_only demo_net
    {| ac_ProviderID := "p"; ac_Protocol := "openai-compatible"; ac_BaseURL := "https://api.example.com/v1";
       ac_HTTP := zero_http; ac_DisableStreamUsage := false |} = Ok adapter ∧
    speaks "openai-compatible" adapter.
Proof.
  apply (@resolved_constructs ascii_only demo_net "custom" "OpenAI-Compatible" " https://api.example.com/v1"
    {| pr_Protocol := "openai-compatible"; pr_BaseURL := "https://api.example.com/v1" |}); vm_compute; reflexivity.
Defined.
