(* ===== verification/ProviderConfig.v ===== *)
(** * Configuration of the providers

    Models [src/internal/config/routing.go]: the routing document of the environment
    is read strictly, every vendor is resolved to a protocol and an address, and the
    limits of each provider (circuit breaker, queue, retries, connections) are the
    defaults with its own settings laid over them. The settings of one provider have
    the same form in the documents of the control plane
    ([src/internal/controlplane/document.go]). *)

From Stdlib Require Import Floats.
From S2P Require Import Prelude Failure Encoding Json JsonCodec Breaker Queue Binary64 Duration Retry Routing ChatRequest Transport Attempt Compatible Construction.

Open Scope Z_scope.

(** ** Settings of one provider *)

Record BreakerSpec := {
  bs_FailureThreshold : option Z; bs_OpenDuration : string; bs_HalfOpenMaxProbes : option Z;
}.
Record QueueSpec := { qs_MaxInFlight : option Z; qs_MaxWaiting : option Z; qs_WaitTimeout : string }.
Record RetrySpec := {
  rs_MaxAttempts : option Z;
  rs_InitialBackoff : string;
  rs_MaxBackoff : string;
  rs_BackoffMultiplier : option float;
  rs_JitterRatio : option float;
  rs_RequestTimeout : string;
  rs_AttemptTimeout : string;
}.
Record HTTPSpec := {
  hs_MaxIdleConnections : option Z; hs_MaxIdleConnectionsPerHost : option Z; hs_MaxConnectionsPerHost : option Z;
}.
Record ProviderRuntimeSpec := {
  rt_Breaker : BreakerSpec; rt_Queue : QueueSpec; rt_Retry : RetrySpec; rt_HTTP : HTTPSpec;
}.

(** What a provider runs with, and the defaults of all of them. *)
Record ProviderRuntime := {
  run_Breaker : BreakerConfig; run_Queue : QueueConfig; run_Retry : RetryConfig; run_HTTP : HTTPConfig;
}.
Abbreviation ProviderDefaults := ProviderRuntime (only parsing).

(** ** Reading them *)

(** How a document is read: the one of the environment and a managed one with
    [DisallowUnknownFields], a stored one by [json.Unmarshal]. *)
Inductive Reading := bootstrap | managed | lenient.

(** Unless unknown members are skipped, every member has the name of a field. *)
Definition known_members (mode : Reading) (names : list string) (raw : string) : option (list (string * string)) :=
  ms ← struct_members raw;
  if match mode with
     | lenient => true
     | _ => forallb (λ m : string * string, existsb (λ name, bool_decide (folded m.1 = folded name)) names) ms
     end
  then Some ms else None.

Abbreviation decode_optional_int := (decode_ptr 0 decode_int).
Abbreviation decode_optional_float := (decode_ptr 0%float decode_float).

Definition decode_BreakerSpec (mode : Reading) : decoder BreakerSpec := λ b raw,
  ms ← known_members mode ["failure_threshold"; "open_duration"; "half_open_max_probes"]%string raw;
  threshold ← field "failure_threshold" decode_optional_int (bs_FailureThreshold b) ms;
  duration ← field "open_duration" decode_string (bs_OpenDuration b) ms;
  probes ← field "half_open_max_probes" decode_optional_int (bs_HalfOpenMaxProbes b) ms;
  Some {| bs_FailureThreshold := threshold; bs_OpenDuration := duration; bs_HalfOpenMaxProbes := probes |}.

Definition decode_QueueSpec (mode : Reading) : decoder QueueSpec := λ q raw,
  ms ← known_members mode ["max_in_flight"; "max_waiting"; "wait_timeout"]%string raw;
  inflight ← field "max_in_flight" decode_optional_int (qs_MaxInFlight q) ms;
  waiting ← field "max_waiting" decode_optional_int (qs_MaxWaiting q) ms;
  timeout ← field "wait_timeout" decode_string (qs_WaitTimeout q) ms;
  Some {| qs_MaxInFlight := inflight; qs_MaxWaiting := waiting; qs_WaitTimeout := timeout |}.

(** The document of the environment sets no timeout of whole requests. *)
Definition retry_fields (mode : Reading) : list string :=
  ["max_attempts"; "initial_backoff"; "max_backoff"; "backoff_multiplier"; "jitter_ratio"; "attempt_timeout"]%string ++
  match mode with bootstrap => [] | _ => ["request_timeout"%string] end.

Definition decode_RetrySpec (mode : Reading) : decoder RetrySpec := λ r raw,
  ms ← known_members mode (retry_fields mode) raw;
  attempts ← field "max_attempts" decode_optional_int (rs_MaxAttempts r) ms;
  initial ← field "initial_backoff" decode_string (rs_InitialBackoff r) ms;
  max ← field "max_backoff" decode_string (rs_MaxBackoff r) ms;
  multiplier ← field "backoff_multiplier" decode_optional_float (rs_BackoffMultiplier r) ms;
  jitter ← field "jitter_ratio" decode_optional_float (rs_JitterRatio r) ms;
  request ← field "request_timeout" decode_string (rs_RequestTimeout r) ms;
  attempt ← field "attempt_timeout" decode_string (rs_AttemptTimeout r) ms;
  Some {| rs_MaxAttempts := attempts; rs_InitialBackoff := initial; rs_MaxBackoff := max;
          rs_BackoffMultiplier := multiplier; rs_JitterRatio := jitter; rs_RequestTimeout := request;
          rs_AttemptTimeout := attempt |}.

Definition decode_HTTPSpec (mode : Reading) : decoder HTTPSpec := λ h raw,
  ms ← known_members mode ["max_idle_connections"; "max_idle_connections_per_host"; "max_connections_per_host"]%string raw;
  idle ← field "max_idle_connections" decode_optional_int (hs_MaxIdleConnections h) ms;
  perHost ← field "max_idle_connections_per_host" decode_optional_int (hs_MaxIdleConnectionsPerHost h) ms;
  conns ← field "max_connections_per_host" decode_optional_int (hs_MaxConnectionsPerHost h) ms;
  Some {| hs_MaxIdleConnections := idle; hs_MaxIdleConnectionsPerHost := perHost; hs_MaxConnectionsPerHost := conns |}.

Definition decode_ProviderRuntimeSpec (mode : Reading) : decoder ProviderRuntimeSpec := λ s raw,
  ms ← known_members mode ["breaker"; "queue"; "retry"; "http"]%string raw;
  breaker ← field "breaker" (decode_BreakerSpec mode) (rt_Breaker s) ms;
  queue ← field "queue" (decode_QueueSpec mode) (rt_Queue s) ms;
  retry ← field "retry" (decode_RetrySpec mode) (rt_Retry s) ms;
  http ← field "http" (decode_HTTPSpec mode) (rt_HTTP s) ms;
  Some {| rt_Breaker := breaker; rt_Queue := queue; rt_Retry := retry; rt_HTTP := http |}.

Definition no_breaker : BreakerSpec := Build_BreakerSpec None "" None.
Definition no_queue : QueueSpec := Build_QueueSpec None None "".
Definition no_retry : RetrySpec := Build_RetrySpec None "" "" None None "" "".
Definition no_http : HTTPSpec := Build_HTTPSpec None None None.
Definition no_runtime : ProviderRuntimeSpec := Build_ProviderRuntimeSpec no_breaker no_queue no_retry no_http.

(** [map[string][]provider.Capability]. *)
Definition decode_capabilities : decoder (gmap string (list string)) :=
  decode_map [] (λ _ raw, sl_elems <$> decode_slice ""%string decode_string nil_slice raw).

(** ** Laying settings over the defaults *)

Definition or_default {A} (setting : option A) (fallback : A) : A := default fallback setting.

(** The durations that are set, in the order they are parsed; the first that is not a
    positive duration is the error. *)
Inductive DurationField :=
| OpenDurationField | WaitTimeoutField | InitialBackoffField | MaxBackoffField | RequestTimeoutField | AttemptTimeoutField.

Inductive RuntimeError :=
| runtime_duration (field : DurationField)
| runtime_breaker (error : BreakerError)
| runtime_queue (error : QueueError)
| runtime_retry (error : RetryError)
| runtime_http.

Definition set_duration (field : DurationField) (raw : string) (fallback : Duration) : result RuntimeError Duration :=
  match durationOverride raw fallback with Some d => Ok d | None => Err (runtime_duration field) end.

Definition override_breaker (spec : BreakerSpec) (base : BreakerConfig) : result RuntimeError BreakerConfig :=
  duration ← set_duration OpenDurationField (bs_OpenDuration spec) (OpenDuration base);
  Ok {| FailureThreshold := or_default (bs_FailureThreshold spec) (FailureThreshold base);
        OpenDuration := duration;
        HalfOpenMaxProbes := or_default (bs_HalfOpenMaxProbes spec) (HalfOpenMaxProbes base) |}.

Definition override_queue (spec : QueueSpec) (base : QueueConfig) : result RuntimeError QueueConfig :=
  timeout ← set_duration WaitTimeoutField (qs_WaitTimeout spec) (WaitTimeout base);
  Ok {| MaxInFlight := or_default (qs_MaxInFlight spec) (MaxInFlight base);
        MaxWaiting := or_default (qs_MaxWaiting spec) (MaxWaiting base);
        WaitTimeout := timeout |}.

Definition override_retry (spec : RetrySpec) (base : RetryConfig) : result RuntimeError RetryConfig :=
  initial ← set_duration InitialBackoffField (rs_InitialBackoff spec) (rc_InitialBackoff base);
  max ← set_duration MaxBackoffField (rs_MaxBackoff spec) (rc_MaxBackoff base);
  request ← set_duration RequestTimeoutField (rs_RequestTimeout spec) (rc_RequestTimeout base);
  attempt ← set_duration AttemptTimeoutField (rs_AttemptTimeout spec) (rc_AttemptTimeout base);
  Ok {| rc_MaxAttempts := or_default (rs_MaxAttempts spec) (rc_MaxAttempts base);
        rc_InitialBackoff := initial; rc_MaxBackoff := max;
        rc_BackoffMultiplier := or_default (rs_BackoffMultiplier spec) (rc_BackoffMultiplier base);
        rc_JitterRatio := or_default (rs_JitterRatio spec) (rc_JitterRatio base);
        rc_RequestTimeout := request; rc_AttemptTimeout := attempt |}.

(** The checks at the end of both merges. *)
Definition validated_runtime (r : ProviderRuntime) : result RuntimeError ProviderRuntime :=
  match BreakerConfig_Validate (run_Breaker r) with
  | Some e => Err (runtime_breaker e)
  | None =>
      match QueueConfig_Validate (run_Queue r) with
      | Some e => Err (runtime_queue e)
      | None =>
          match RetryConfig_Validate (run_Retry r) with
          | Some e => Err (runtime_retry e)
          | None => if HTTPConfig_Validate (run_HTTP r) then Ok r else Err runtime_http
          end
      end
  end.

(** *** The environment's document: connections follow the queue *)

Definition follow_queue (spec : HTTPSpec) (maxInFlight : Z) (base : HTTPConfig) : HTTPConfig :=
  let conns := or_default (hs_MaxConnectionsPerHost spec) maxInFlight in
  {| hc_MaxIdleConnections :=
       or_default (hs_MaxIdleConnections spec)
         (if hc_MaxIdleConnections base <? maxInFlight then maxInFlight else hc_MaxIdleConnections base);
     hc_MaxIdleConnectionsPerHost :=
       match hs_MaxIdleConnectionsPerHost spec, hs_MaxConnectionsPerHost spec with
       | Some n, _ => n
       | None, Some conns => if conns <? maxInFlight then conns else maxInFlight
       | None, None => maxInFlight
       end;
     hc_MaxConnectionsPerHost := conns |}.

Definition resolveProviderRuntime (override : ProviderRuntimeSpec) (defaults : ProviderDefaults)
    : result RuntimeError ProviderRuntime :=
  breaker ← override_breaker (rt_Breaker override) (run_Breaker defaults);
  queue ← override_queue (rt_Queue override) (run_Queue defaults);
  retry ← override_retry (rt_Retry override) (run_Retry defaults);
  validated_runtime
    {| run_Breaker := breaker; run_Queue := queue; run_Retry := retry;
       run_HTTP := follow_queue (rt_HTTP override) (MaxInFlight queue) (run_HTTP defaults) |}.

Definition validateProviderDefaults (defaults : ProviderDefaults) : option RuntimeError :=
  match validated_runtime defaults with Ok _ => None | Err e => Some e end.

(** ** The document *)

Record routingProviderJSON := {
  rp_ID : string;
  rp_Type : string;
  rp_Vendor : string;
  rp_BaseURL : string;
  rp_Models : Slice string;
  rp_ModelCapabilities : gmap string (list string);
  rp_Runtime : ProviderRuntimeSpec;
}.
Record routingCandidateJSON := { rcd_Provider : string; rcd_UpstreamModel : string }.
Record routingRuleJSON := { rr_Model : string; rr_Candidates : Slice routingCandidateJSON }.

Definition decode_routing_provider : decoder routingProviderJSON := λ p raw,
  ms ← known_members bootstrap ["id"; "type"; "vendor"; "base_url"; "models"; "model_capabilities"; "runtime"]%string raw;
  id ← field "id" decode_string (rp_ID p) ms;
  type ← field "type" decode_string (rp_Type p) ms;
  vendor ← field "vendor" decode_string (rp_Vendor p) ms;
  url ← field "base_url" decode_string (rp_BaseURL p) ms;
  models ← field "models" (decode_slice ""%string decode_string) (rp_Models p) ms;
  capabilities ← field "model_capabilities" decode_capabilities (rp_ModelCapabilities p) ms;
  runtime ← field "runtime" (decode_ProviderRuntimeSpec bootstrap) (rp_Runtime p) ms;
  Some {| rp_ID := id; rp_Type := type; rp_Vendor := vendor; rp_BaseURL := url; rp_Models := models;
          rp_ModelCapabilities := capabilities; rp_Runtime := runtime |}.

Definition decode_routing_candidate : decoder routingCandidateJSON := λ c raw,
  ms ← known_members bootstrap ["provider"; "upstream_model"]%string raw;
  provider ← field "provider" decode_string (rcd_Provider c) ms;
  model ← field "upstream_model" decode_string (rcd_UpstreamModel c) ms;
  Some {| rcd_Provider := provider; rcd_UpstreamModel := model |}.

Definition decode_routing_rule : decoder routingRuleJSON := λ r raw,
  ms ← known_members bootstrap ["model"; "candidates"]%string raw;
  model ← field "model" decode_string (rr_Model r) ms;
  candidates ← field "candidates" (decode_slice (Build_routingCandidateJSON "" "") decode_routing_candidate)
                 (rr_Candidates r) ms;
  Some {| rr_Model := model; rr_Candidates := candidates |}.

Record routingJSON := { rj_Providers : list routingProviderJSON; rj_Routes : list routingRuleJSON }.

(** A text with another value behind the document is not one JSON value, so that reading
    it strictly includes [rejectTrailingJSON]. *)
Definition decode_routing (raw : string) : option routingJSON :=
  ms ← known_members bootstrap ["providers"; "routes"]%string raw;
  providers ← field "providers"
    (decode_slice (Build_routingProviderJSON "" "" "" "" nil_slice ∅ no_runtime) decode_routing_provider) nil_slice ms;
  routes ← field "routes" (decode_slice (Build_routingRuleJSON "" nil_slice) decode_routing_rule) nil_slice ms;
  Some {| rj_Providers := sl_elems providers; rj_Routes := sl_elems routes |}.

Record RoutingConfig := { rcf_Definition : RouteDefinition; rcf_Providers : gmap string ProviderRuntime }.

Inductive RoutingError :=
| routing_defaults (error : RuntimeError)
| routing_missing
| routing_too_large
| routing_not_an_object
| routing_provider (index : nat) (error : ResolveError)
| routing_runtime (index : nat) (error : RuntimeError).

Definition maximumRoutingJSONBytes : Z := 65536.

Section load.
Context `{Unicode} `{NetURL} `{MapOrder}.

Fixpoint load_providers (index : nat) (configured : list routingProviderJSON) (defaults : ProviderDefaults)
    (providers : list Provider) (runtimes : gmap string ProviderRuntime)
    : result RoutingError (list Provider * gmap string ProviderRuntime) :=
  match configured with
  | [] => Ok (providers, runtimes)
  | p :: rest =>
      match Resolve (rp_Vendor p) (rp_Type p) (rp_BaseURL p) with
      | Err e => Err (routing_provider index e)
      | Ok preset =>
          let providerID := TrimSpace (rp_ID p) in
          match resolveProviderRuntime (rp_Runtime p) defaults with
          | Err e => Err (routing_runtime index e)
          | Ok runtime =>
              load_providers (S index) rest defaults
                (providers ++ [{| pv_ID := providerID; pv_Type := pr_Protocol preset; pv_BaseURL := pr_BaseURL preset;
                                  pv_Models := sl_elems (rp_Models p);
                                  pv_ModelCapabilities := map_order (rp_ModelCapabilities p) |}])
                (<[providerID := runtime]> runtimes)
          end
      end
  end.

Definition load_rule (r : routingRuleJSON) : Rule :=
  {| rule_Model := rr_Model r;
     rule_Candidates := map (λ c, {| tg_ProviderID := rcd_Provider c; tg_UpstreamModel := rcd_UpstreamModel c |})
                            (sl_elems (rr_Candidates r)) |}.

(** [getenv] is the value of MODEL_VELO_ROUTING_JSON. *)
Definition LoadRouting (getenv : string) (defaults : ProviderDefaults) : result RoutingError RoutingConfig :=
  match validateProviderDefaults defaults with
  | Some e => Err (routing_defaults e)
  | None =>
      let raw := TrimSpace getenv in
      if (raw =? "")%string then Err routing_missing
      else if maximumRoutingJSONBytes <? str_len raw then Err routing_too_large
      else
        match decode_routing raw with
        | None => Err routing_not_an_object
        | Some document =>
            '(providers, runtimes) ← load_providers 0 (rj_Providers document) defaults [] ∅;
            Ok {| rcf_Definition := {| def_Providers := providers; def_Rules := map load_rule (rj_Routes document) |};
                  rcf_Providers := runtimes |}
        end
  end.
End load.

(** ** What a merge answers *)

Lemma set_duration_ok field raw fallback d :
  set_duration field raw fallback = Ok d ↔ durationOverride raw fallback = Some d.
Proof. unfold set_duration. destruct (durationOverride raw fallback); split; congruence. Qed.

(** The limits of a provider are within the bounds of their validations. *)
Definition runtime_ok (r : ProviderRuntime) : Prop :=
  BreakerConfig_Validate (run_Breaker r) = None ∧ QueueConfig_Validate (run_Queue r) = None ∧
  RetryConfig_Validate (run_Retry r) = None ∧ HTTPConfig_Validate (run_HTTP r) = true.

Lemma validated_runtime_ok r r' : validated_runtime r = Ok r' ↔ r' = r ∧ runtime_ok r.
Proof.
  unfold validated_runtime, runtime_ok.
  destruct (BreakerConfig_Validate _), (QueueConfig_Validate _), (RetryConfig_Validate _), (HTTPConfig_Validate _);
    split; first [by intros [= <-] | by intros [-> (? & ? & ? & ?)]].
Qed.

Lemma resolveProviderRuntime_ok override defaults r :
  resolveProviderRuntime override defaults = Ok r → runtime_ok r.
Proof.
  unfold resolveProviderRuntime. intros (b & _ & (q & _ & (t & _ & Hr)%result_bind_ok)%result_bind_ok)%result_bind_ok.
  by apply validated_runtime_ok in Hr as [-> ?].
Qed.

(** The settings that are not given stay as the defaults are. *)
Lemma resolve_defaults defaults :
  runtime_ok defaults →
  resolveProviderRuntime no_runtime defaults =
  Ok {| run_Breaker := run_Breaker defaults; run_Queue := run_Queue defaults; run_Retry := run_Retry defaults;
        run_HTTP := follow_queue no_http (MaxInFlight (run_Queue defaults)) (run_HTTP defaults) |}.
Proof.
  intros (Hb & Hq & Hr & Hh). destruct defaults as [b q t h]. cbn in Hb, Hq, Hr, Hh.
  assert (resolveProviderRuntime no_runtime (Build_ProviderRuntime b q t h) =
          validated_runtime (Build_ProviderRuntime b q t (follow_queue no_http (MaxInFlight q) h))) as ->
    by (destruct b, q, t; reflexivity).
  apply validated_runtime_ok. split; [done|]. split_and!; [done..|]. cbn.
  unfold HTTPConfig_Validate, follow_queue, no_http, or_default in *. cbn.
  assert (1 ≤ MaxInFlight q ≤ 10000) as Hn.
  { unfold QueueConfig_Validate, maximumQueueInFlight in Hq. destruct (_ || _) eqn:E; [done|]. lia. }
  unfold maximumHTTPConnections in *. destruct (hc_MaxIdleConnections h <? MaxInFlight q) eqn:E; lia.
Qed.

(** ** What is loaded *)

Section loaded.
Context `{Unicode} `{NetURL} `{MapOrderLaw}.

(** The configuration of the adapter of a loaded provider. *)
Definition adapter_config_of (p : Provider) (runtime : ProviderRuntime) : AdapterConfig :=
  {| ac_ProviderID := pv_ID p; ac_Protocol := pv_Type p; ac_BaseURL := pv_BaseURL p; ac_HTTP := run_HTTP runtime;
     ac_DisableStreamUsage := false |}.

Lemma HTTP_valid_not_zero h : HTTPConfig_Validate h = true → h ≠ zero_http.
Proof. by intros Hh ->. Qed.

Lemma loaded_constructs p runtime vendor protocol url preset :
  Resolve vendor protocol url = Ok preset → runtime_ok runtime →
  pv_Type p = pr_Protocol preset → pv_BaseURL p = pr_BaseURL preset →
  ∃ adapter, NewAdapter (adapter_config_of p runtime) = Ok adapter.
Proof.
  intros (_ & Hs & Hu & _)%Resolve_ok (_ & _ & _ & Hh) Ht Hb.
  pose proof (NewAdapter_ok_iff (adapter_config_of p runtime)) as Hok.
  unfold http_of in Hok. cbn [adapter_config_of ac_HTTP ac_Protocol ac_BaseURL] in Hok.
  rewrite bool_decide_eq_false_2 in Hok by (by apply HTTP_valid_not_zero).
  rewrite Hh, Ht, Hs, Hb, Hu in Hok. destruct (NewAdapter _) as [a|]; [by exists a|done].
Qed.

Definition provider_loaded (runtimes : gmap string ProviderRuntime) (p : Provider) : Prop :=
  trimmed (pv_ID p) ∧ SupportedProtocol (pv_Type p) = true ∧ is_Some (runtimes !! pv_ID p) ∧
  ∀ runtime, runtime_ok runtime → ∃ adapter, NewAdapter (adapter_config_of p runtime) = Ok adapter.

Lemma load_providers_ok index configured defaults providers runtimes providers' runtimes' :
  Forall (provider_loaded runtimes) providers → (∀ k r, runtimes !! k = Some r → runtime_ok r) →
  load_providers index configured defaults providers runtimes = Ok (providers', runtimes') →
  Forall (provider_loaded runtimes') providers' ∧ (∀ k r, runtimes' !! k = Some r → runtime_ok r) ∧
  map pv_ID providers' = map pv_ID providers ++ map (λ p, TrimSpace (rp_ID p)) configured.
Proof.
  revert index providers runtimes. induction configured as [|p configured IH]; intros index providers runtimes Hp Hr; cbn.
  { intros [= <- <-]. by rewrite app_nil_r. }
  destruct (Resolve _ _ _) as [preset|] eqn:Hres; [|done].
  destruct (resolveProviderRuntime _ _) as [runtime|] eqn:Hrun; [|done]. intros Hload.
  apply IH in Hload as (Hall & Hruns & Hids).
  - split; [done|]. split; [done|]. rewrite Hids, map_app, <-app_assoc. done.
  - apply Forall_app. split.
    + eapply Forall_impl; [done|]. intros q (? & ? & ? & ?). split_and!; try done.
      rewrite lookup_insert_is_Some. destruct (decide (TrimSpace (rp_ID p) = pv_ID q)); tauto.
    + repeat constructor; cbn; [apply trimmed_TrimSpace| | |].
      * by apply Resolve_ok in Hres as (_ & ? & _).
      * rewrite lookup_insert_eq. by eexists.
      * intros rt Hrt. by eapply loaded_constructs.
  - intros k r. rewrite lookup_insert_Some. intros [[_ <-]|[_ Hk]]; [|by eapply Hr].
    by eapply resolveProviderRuntime_ok.
Qed.

(** C35: what is loaded can be built. In a routing configuration that [LoadRouting] answers, the
    limits of every provider are within their bounds, every provider has them, and the
    factory of adapters accepts its protocol, its address and its limits. *)
Theorem LoadRouting_sound getenv defaults config :
  LoadRouting getenv defaults = Ok config →
  (∀ id runtime, rcf_Providers config !! id = Some runtime → runtime_ok runtime) ∧
  ∀ p, p ∈ def_Providers (rcf_Definition config) →
    SupportedProtocol (pv_Type p) = true ∧
    ∃ runtime adapter, rcf_Providers config !! pv_ID p = Some runtime ∧
      NewAdapter (adapter_config_of p runtime) = Ok adapter.
Proof.
  unfold LoadRouting. destruct (validateProviderDefaults defaults); [done|].
  destruct (_ =? "")%string; [done|]. destruct (_ <? _); [done|].
  destruct (decode_routing _) as [document|]; [|done]. intros ([ps rs] & Hload & [= <-])%result_bind_ok.
  apply load_providers_ok in Hload as (Hp & Hr & _); [|constructor|intros k r; by rewrite lookup_empty].
  split; [done|]. cbn. intros p Hin. rewrite Forall_forall in Hp.
  destruct (Hp p Hin) as (_ & Hs & [runtime Hrt] & Hc). split; [done|].
  destruct (Hc runtime) as [adapter Ha]; [by eapply Hr|]. eauto.
Qed.
End loaded.

(** ** A concrete document *)

Definition demo_order : MapOrder := λ A m, map_to_list m.
Definition demo_defaults : ProviderDefaults :=
  {| run_Breaker := DefaultBreakerConfig; run_Queue := DefaultQueueConfig; run_Retry := DefaultRetryConfig;
     run_HTTP := DefaultHTTPConfig |}.

Definition demo_routing : string :=
  text " {'providers':[{'id':' p ','vendor':'custom','type':'openai-compatible','base_url':'https://api.example.com/v1','models':['m','n'],'runtime':{'queue':{'max_in_flight':8},'retry':{'initial_backoff':'250ms'}}}],'routes':[{'model':'fast','candidates':[{'provider':'p','upstream_model':'m'}]}]}".

Definition demo_loaded : result RoutingError RoutingConfig :=
  @LoadRouting ascii_only demo_net demo_order demo_routing demo_defaults.

Example demo_loads :
  (λ c, (def_Rules (rcf_Definition c), (λ r, (rc_InitialBackoff (run_Retry r), run_HTTP r)) <$> rcf_Providers c !! "p"%string))
    <$> demo_loaded =
  Ok ([{| rule_Model := "fast"; rule_Candidates := [{| tg_ProviderID := "p"; tg_UpstreamModel := "m" |}] |}],
      Some (250 * millisecond,
            {| hc_MaxIdleConnections := 100; hc_MaxIdleConnectionsPerHost := 8; hc_MaxConnectionsPerHost := 8 |})).
Proof. vm_compute. reflexivity. Qed.

Lemma LoadRouting_sound_witness :
  ∃ config, demo_loaded = Ok config ∧
    ((∀ id runtime, rcf_Providers config !! id = Some runtime → runtime_ok runtime) ∧
     ∀ p, p ∈ def_Providers (rcf_Definition config) →
       @SupportedProtocol ascii_only (pv_Type p) = true ∧
       ∃ runtime adapter, rcf_Providers config !! pv_ID p = Some runtime ∧
         @NewAdapter ascii_only demo_net (adapter_config_of p runtime) = Ok adapter).
Proof.
  destruct demo_loaded as [config|] eqn:Hload; [|exfalso; revert Hload; vm_compute; discriminate].
  exists config. split; [reflexivity|].
  exact (@LoadRouting_sound ascii_only demo_net demo_order demo_routing demo_defaults config Hload).
Defined.
