(* ===== verification/Stream.v ===== *)
(** * Streaming attempts

    Models [src/internal/reliability/stream_attempt.go]. Preparing a stream is
    the retry loop of Attempt.v over an attempt that opens the stream and reads
    its first event; on success the permit, the lease and the key are handed
    over to a [PreparedStream], which gives them back when it finishes. The
    upstream event stream ([provider.ChatEventStream], see Sse.v) belongs to the
    environment. *)

From Stdlib Require Import Floats.
From S2P Require Import Prelude Failure Sse Breaker Queue Registry KeySelector Retry Routing Attempt.

Open Scope Z_scope.

(** ** The first event *)

(** What the goroutine that opens the stream and reads its first event sends
    back; the event counts only without an error. *)
Record FirstEventResult := {
  fe_event : ChatStreamEvent;
  fe_err : option GoErr;
  fe_completedAt : Time;
}.

(** The branch of the [select] that is taken. *)
Inductive FirstBranch := FirstReady | FirstDone | FirstTimer.

(** [openFirstStreamEvent] from its [select] on, run at instant [at_]: the first
    event, or the error after the upstream stream has been cancelled and
    closed. A [Done] branch is only taken when the context is over. *)
Definition openFirstStreamEvent (waitContext : Ctx) (deadline : Time) (branch : FirstBranch)
    (at_ : Time) (outcome : FirstEventResult) : result GoErr ChatStreamEvent :=
  match branch with
  | FirstReady =>
      match ctx_err waitContext at_ with
      | Some e => Err (ctx_GoErr e)
      | None =>
          if negb (time_before (fe_completedAt outcome) deadline)
          then Err (ESentinel context_DeadlineExceeded)
          else match fe_err outcome with
          | None =>
              if ev_Done (fe_event outcome) then Err (EWrap (ESentinel ErrInvalidStream))
              else Ok (fe_event outcome)
          | Some e =>
              if errors_Is io_EOF e then Err (EWrap (ESentinel ErrInvalidStream)) else Err e
          end
      end
  | FirstDone =>
      match ctx_err waitContext at_ with
      | Some e => Err (ctx_GoErr e)
      | None => Err (ESentinel context_DeadlineExceeded)
      end
  | FirstTimer => Err (ESentinel context_DeadlineExceeded)
  end.

(** ** Prepared streams *)

Record StreamTerminal := { term_failure : option Failure; term_duration : Duration }.

(** The permit and the lease come with the location of their breaker and
    queue; the upstream stream is named by its number in the environment. *)
Record PreparedStream := {
  ps_FirstEvent : ChatStreamEvent;
  ps_ProviderID : string;
  ps_UpstreamModel : string;
  ps_KeyID : string;
  ps_Candidate : Z;
  ps_Attempts : Z;
  ps_Fallbacks : Z;
  ps_CandidatesTried : Z;
  ps_Trail : list AttemptRecord;
  ps_stream : nat;
  ps_permit : nat * Permit;
  ps_lease : nat * QueueLease;
  ps_key : option ProviderKeySelection;
  ps_idleTime : Duration;
  ps_started : Time;
  ps_finished : bool;
  ps_done : bool;
  ps_terminal : option StreamTerminal;
}.

Definition ps_set_totals (s : PreparedStream) (attempts fallbacks tried : Z)
    (trail : list AttemptRecord) : PreparedStream :=
  {| ps_FirstEvent := ps_FirstEvent s; ps_ProviderID := ps_ProviderID s;
     ps_UpstreamModel := ps_UpstreamModel s; ps_KeyID := ps_KeyID s;
     ps_Candidate := ps_Candidate s; ps_Attempts := attempts; ps_Fallbacks := fallbacks;
     ps_CandidatesTried := tried; ps_Trail := trail; ps_stream := ps_stream s;
     ps_permit := ps_permit s; ps_lease := ps_lease s; ps_key := ps_key s;
     ps_idleTime := ps_idleTime s; ps_started := ps_started s; ps_finished := ps_finished s;
     ps_done := ps_done s; ps_terminal := ps_terminal s |}.

Definition ps_set_end (s : PreparedStream) (finished done : bool) (terminal : option StreamTerminal)
  : PreparedStream :=
  {| ps_FirstEvent := ps_FirstEvent s; ps_ProviderID := ps_ProviderID s;
     ps_UpstreamModel := ps_UpstreamModel s; ps_KeyID := ps_KeyID s;
     ps_Candidate := ps_Candidate s; ps_Attempts := ps_Attempts s; ps_Fallbacks := ps_Fallbacks s;
     ps_CandidatesTried := ps_CandidatesTried s; ps_Trail := ps_Trail s; ps_stream := ps_stream s;
     ps_permit := ps_permit s; ps_lease := ps_lease s; ps_key := ps_key s;
     ps_idleTime := ps_idleTime s; ps_started := ps_started s; ps_finished := finished;
     ps_done := done; ps_terminal := terminal |}.

(** What a prepared stream holds. *)
Definition stream_holds (s : PreparedStream) : Held :=
  hold (Some (fst (ps_permit s))) (Some (fst (ps_lease s))) (option_map sel_keyID (ps_key s)).

Definition currentAttempt (s : PreparedStream) : Z :=
  match last (ps_Trail s) with Some r => ar_Attempt r | None => ps_Attempts s end.

Definition describeFailure (s : PreparedStream) (failure : Failure) : Failure :=
  f_with_totals
    (f_with_identity failure (ps_ProviderID s) (ps_KeyID s) (ps_Candidate s) (currentAttempt s))
    (ps_Attempts s) (ps_Fallbacks s) (ps_Trail s).

(** ** Reading the rest of the stream *)

(** [next]: the raw outcome of reading the upstream stream, and the updated
    [done] flag. *)
Definition stream_next (s : PreparedStream) (event : ChatStreamEvent) (err : option GoErr)
  : ChatStreamEvent * option GoErr * PreparedStream :=
  match err with
  | Some e =>
      if errors_Is io_EOF e && negb (ps_done s)
      then ({| ev_Data := ""; ev_Done := false |}, Some (EWrap (ESentinel ErrInvalidStream)), s)
      else (event, err, s)
  | None =>
      (event, None,
       if ev_Done event then ps_set_end s (ps_finished s) true (ps_terminal s) else s)
  end.

(** The idle timer of [Next], armed at [since]: the loop over the activity
    signals that arrive before the outcome, which is ready at [ready]. It answers
    the instant at which the timer fires, if it does. [tie] settles a signal that
    comes at the very instant of the timer. *)
Fixpoint idle_fires (idle : Duration) (since : Time) (activity : list Time) (ready : Time)
    (tie : bool) : option Time :=
  let fires (t : Time) := (since + idle <? t) || ((since + idle =? t) && tie) in
  match activity with
  | [] => if fires ready then Some (since + idle) else None
  | t :: rest => if fires t then Some (since + idle) else idle_fires idle t rest ready tie
  end.

(** [Next] called at [now]. When the timer fires, the stream is cancelled and
    the outcome of the reader, which has then arrived, is dropped; it may have
    set the [done] flag. *)
Definition PreparedStream_Next (s : PreparedStream) (now : Time) (activity : list Time)
    (ready : Time) (tie : bool) (event : ChatStreamEvent) (err : option GoErr)
  : ChatStreamEvent * option GoErr * PreparedStream :=
  if ps_finished s then ({| ev_Data := ""; ev_Done := false |}, Some (ESentinel io_EOF), s)
  else if ps_idleTime s <=? 0 then stream_next s event err
  else
    match idle_fires (ps_idleTime s) now activity ready tie with
    | None => stream_next s event err
    | Some _ =>
        ({| ev_Data := ""; ev_Done := false |}, Some (EWrap (ESentinel context_DeadlineExceeded)),
         snd (stream_next s event err))
    end.

(** The last attempt of the trail with the result of the stream, once it is
    known. *)
Definition FinalAttempt (s : PreparedStream) : option AttemptRecord :=
  match last (ps_Trail s), ps_terminal s with
  | Some r, Some t =>
      Some {| ar_ProviderID := ar_ProviderID r; ar_UpstreamModel := ar_UpstreamModel r;
              ar_KeyID := ar_KeyID r; ar_Candidate := ar_Candidate r; ar_Attempt := ar_Attempt r;
              ar_Duration := if time_is_zero (ps_started s) then ar_Duration r
                             else term_duration t;
              ar_Category := failureCategory (term_failure t);
              ar_StatusCode := failureStatus (term_failure t) |}
  | _, _ => None
  end.

(** ** The environment of a stream *)

Class StreamEnv (Request : Type) := {
  env_open : nat → string → Ctx → ChatInput Request → string → FirstBranch * Time * FirstEventResult;
}.

Section stream.
Context {Request Body : Type} `{Env Request Body, StreamEnv Request, Unicode, HTTPDates}.

(** Open the stream and wait for its first event; the answer names the stream. *)
Definition open_stream (waitContext streamParent : Ctx) (providerID keyID : string)
    (input : ChatInput Request) (apiKey : string) (timeout : Duration)
  : M (nat * result GoErr ChatStreamEvent) :=
  op (λ w, let '(branch, t, outcome) := env_open (w_tick w) (TrimSpace providerID) streamParent
                                          input apiKey in
           let at_ := Z.max (w_now w) t in
           ((w_tick w,
             openFirstStreamEvent waitContext (time_add (w_now w) timeout) branch at_ outcome),
            w_set_now w at_))
     (λ _, [EvCall providerID keyID (ctx_deadline waitContext)]).

Context (ex : AttemptExecutor).

(** From the opening of the stream to the outcome. [key_Complete] on a nil
    selection does nothing. *)
Definition stream_call (ctx streamParent : Ctx) (input : AttemptInput Request) (attempt : Z)
    (retry : RetryPolicy) (l : nat) (permit : Permit) (ql : nat) (lease : QueueLease)
    (selectedKey : option ProviderKeySelection) : M (Outcome PreparedStream * Permit) :=
  let candidate := in_Candidate input in
  apiKey ← match selectedKey with Some sel => key_Secret sel | None => mret ""%string end;
  startedAt ← time_Now;
  opened ← open_stream ctx streamParent (cd_ProviderID candidate) (sel_keyID_of selectedKey)
             {| ci_RequestID := in_RequestID input; ci_Request := in_Request input;
                ci_ModelOverride := modelOverride input |} apiKey (rc_AttemptTimeout retry);
  finishedAt ← time_Now;
  let duration := time_sub finishedAt startedAt in
  now ← time_Now;
  let keyID := sel_keyID_of selectedKey in
  match snd opened with
  | Err err =>
      let failure := FromProvider ctx now (cd_ProviderID candidate) (cd_Priority candidate)
                       attempt (Some err) in
      let failure := match selectedKey with
                     | Some sel => option_map (λ f, f_with_key f (sel_keyID sel)) failure
                     | None => failure
                     end in
      _ ← match selectedKey with
          | Some sel => r ← key_Complete sel failure; mret (fst r)
          | None => mret false
          end;
      r ← permit_Complete l permit failure;
      mret ({| o_Payload := None; o_Failure := failure; o_KeyID := keyID;
               o_Attempted := err_attempted (Some err); o_Duration := duration |}, snd r)
  | Ok firstEvent =>
      mret ({| o_Payload := Some
                 {| ps_FirstEvent := firstEvent; ps_ProviderID := cd_ProviderID candidate;
                    ps_UpstreamModel := cd_UpstreamModel candidate; ps_KeyID := keyID;
                    ps_Candidate := cd_Priority candidate; ps_Attempts := 0; ps_Fallbacks := 0;
                    ps_CandidatesTried := 0; ps_Trail := []; ps_stream := fst opened;
                    ps_permit := (l, permit); ps_lease := (ql, lease); ps_key := selectedKey;
                    ps_idleTime := rc_AttemptTimeout retry; ps_started := startedAt;
                    ps_finished := false; ps_done := false; ps_terminal := None |};
               o_Failure := None; o_KeyID := keyID; o_Attempted := true;
               o_Duration := duration |}, permit)
  end.

Definition handed_off (o : Outcome PreparedStream) : bool :=
  match o_Payload o with Some _ => true | None => false end.

Definition prepareStreamOnce (ctx streamParent : Ctx) (input : AttemptInput Request)
    (retry : RetryPolicy) (attempt : Z) (preferredKeyID : string) (excludedKeyIDs : gset string)
  : M (Outcome PreparedStream) :=
  let candidate := in_Candidate input in
  match ex_adapters ex !! TrimSpace (cd_ProviderID candidate) with
  | None => mret (refused (Some (unknown_adapter candidate attempt)))
  | Some adapter =>
      if negb (ad_streaming adapter) then
        now ← time_Now;
        mret (refused (FromProvider ctx now (cd_ProviderID candidate) (cd_Priority candidate) attempt
                         (Some (ESentinel ErrUnsupportedCapability))))
      else
        with_permit ex candidate attempt handed_off (λ l permit,
          with_lease ex ctx candidate attempt handed_off l permit (λ ql lease,
            with_key ex candidate attempt adapter preferredKeyID excludedKeyIDs l permit (λ sel,
              stream_call ctx streamParent input attempt retry l permit ql lease sel)))
  end.

Definition nil_context (candidate : Candidate) : Failure :=
  f_with_cause
    (f_with_position (new_failure CategoryCanceled (cd_ProviderID candidate))
       (cd_Priority candidate) 0)
    (EOther "stream attempt context is nil").

(** [prepareStream]; on success the stream gets the totals of the loop. A nil
    context is [None]. *)
Definition prepareStream (fuel : nat) (ctx streamParent : option Ctx) (input : AttemptInput Request)
  : M (option (AttemptResult PreparedStream * option Failure)) :=
  let candidate := in_Candidate input in
  match ctx, streamParent with
  | Some ctx, Some streamParent =>
      match rps_ForProvider (ex_retries ex) (cd_ProviderID candidate) with
      | None => mret (Some (empty_result, Some (policy_missing candidate)))
      | Some retry =>
          r ← retry_loop (prepareStreamOnce ctx streamParent input retry) ctx candidate retry fuel
                empty_result "" ∅;
          mret (option_map (λ '(res, failure),
            (with_payload res (option_map (λ s, ps_set_totals s (r_Attempts res) (ps_Fallbacks s)
               (ps_CandidatesTried s) (r_Trail res)) (r_Payload res)), failure)) r)
      end
  | _, _ => mret (Some (empty_result, Some (nil_context candidate)))
  end.

(** [PrepareStream], the entry for a single candidate. *)
Definition PrepareStream (fuel : nat) (ctx : option Ctx) (input : AttemptInput Request)
  : M (option (option PreparedStream * option Failure)) :=
  r ← prepareStream fuel ctx ctx input;
  mret (option_map (λ '(res, failure),
    match failure with
    | Some f => (r_Payload res, Some (f_with_totals f (r_Attempts res) (f_Fallbacks f) (r_Trail res)))
    | None =>
        (option_map (λ s, ps_set_totals s (ps_Attempts s) (ps_Fallbacks s) 1 (ps_Trail s))
           (r_Payload res), None)
    end) r).

(** ** The end of a stream *)

(** [Finish]: the flag is set by a compare-and-swap, then the key and the
    breaker get the result and the slot is freed. *)
Definition Finish (s : PreparedStream) (failure : option Failure) : M (bool * PreparedStream) :=
  if ps_finished s then mret (false, s)
  else
    let failure := option_map (describeFailure s) failure in
    _ ← match ps_key s with
        | Some sel => r ← key_Complete sel failure; mret (fst r)
        | None => mret false
        end;
    _ ← permit_Complete (fst (ps_permit s)) (snd (ps_permit s)) failure;
    _ ← lease_Release (fst (ps_lease s)) (snd (ps_lease s));
    now ← time_Now;
    mret (true, ps_set_end s true (ps_done s)
                  (Some {| term_failure := failure; term_duration := time_sub now (ps_started s) |})).

(** [FinishError] and [Abort]; the error of the former is never nil here. *)
Definition FinishError (s : PreparedStream) (ctx : Ctx) (err : GoErr)
  : M (option Failure * PreparedStream) :=
  now ← time_Now;
  let failure := FromProvider ctx now (ps_ProviderID s) (ps_Candidate s) (currentAttempt s)
                   (Some err) in
  r ← Finish s failure;
  mret (if ps_finished s then failure else option_map (describeFailure s) failure, snd r).

Definition Abort (s : PreparedStream) (cause : option GoErr) : M (bool * PreparedStream) :=
  let cause := default (ESentinel context_Canceled) cause in
  Finish s (Some (f_with_cause (new_failure CategoryCanceled "") cause)).
End stream.

(** ** Properties of the first event *)

(** A stream is handed over only with a real first event. Opening succeeds
    only when the whole context is still alive, the reader finished before the
    attempt's deadline, without an error, and with an event that is not the end
    marker; whatever else happens (an empty stream, an early end, a late first
    event, a cancellation) it is an error, and an early end is a protocol
    error of the upstream. *)
Theorem first_event_checked ctx deadline branch t oc :
  (∀ ev, openFirstStreamEvent ctx deadline branch t oc = Ok ev ↔
     branch = FirstReady ∧ ctx_err ctx t = None ∧ fe_completedAt oc < deadline ∧
     fe_err oc = None ∧ ev_Done (fe_event oc) = false ∧ ev = fe_event oc) ∧
  (branch = FirstReady → ctx_err ctx t = None → fe_completedAt oc < deadline →
   (fe_err oc = None ∧ ev_Done (fe_event oc) = true ∨
    ∃ e, fe_err oc = Some e ∧ errors_Is io_EOF e = true) →
   openFirstStreamEvent ctx deadline branch t oc = Err (EWrap (ESentinel ErrInvalidStream))).
Proof.
  unfold openFirstStreamEvent, time_before. split.
  - intros ev. split.
    + intros Hok. destruct branch, (ctx_err ctx t); try done.
      destruct (fe_completedAt oc <? deadline) eqn:Hd; [|done]. cbn in Hok. apply Z.ltb_lt in Hd.
      destruct (fe_err oc) as [e|]; [by destruct (errors_Is io_EOF e)|].
      destruct (ev_Done (fe_event oc)); [done|]. by injection Hok as <-.
    + intros (-> & -> & Hd%Z.ltb_lt & -> & Hdone & ->). by rewrite Hd, Hdone.
  - intros -> -> Hd%Z.ltb_lt Hcase. rewrite Hd. cbn.
    destruct Hcase as [[-> ->]|(e & -> & ->)]; done.
Qed.

(** The idle limit of a stream. [Next] gives the outcome of the reader only if
    no two consecutive signs of life (the call, the activity signals, the
    outcome) are further apart than the idle limit; otherwise it reports a
    deadline error, which counts against the upstream, and the timer fired
    exactly one idle limit after the last sign of life. *)
Theorem next_idle_limit s now activity ready tie event err t :
  ps_finished s = false → 0 < ps_idleTime s →
  idle_fires (ps_idleTime s) now activity ready tie = t →
  match t with
  | None =>
      PreparedStream_Next s now activity ready tie event err = stream_next s event err ∧
      (∀ i a b, (now :: activity ++ [ready]) !! i = Some a →
         (now :: activity ++ [ready]) !! S i = Some b → b - a ≤ ps_idleTime s)
  | Some fired =>
      (PreparedStream_Next s now activity ready tie event err).1.2 =
        Some (EWrap (ESentinel context_DeadlineExceeded)) ∧
      ∃ i a b, (now :: activity ++ [ready]) !! i = Some a ∧
        (now :: activity ++ [ready]) !! S i = Some b ∧
        fired = a + ps_idleTime s ∧ fired ≤ b
  end.
Proof.
  intros Hf Hidle. unfold PreparedStream_Next. rewrite Hf, (proj2 (Z.leb_gt _ _) Hidle).
  generalize (ps_idleTime s) as idle. clear Hf Hidle. intros idle Ht. rewrite Ht.
  assert (match t with
    | None => ∀ i a b, (now :: activity ++ [ready]) !! i = Some a →
         (now :: activity ++ [ready]) !! S i = Some b → b - a ≤ idle
    | Some fired => ∃ i a b, (now :: activity ++ [ready]) !! i = Some a ∧
        (now :: activity ++ [ready]) !! S i = Some b ∧ fired = a + idle ∧ fired ≤ b end) as Hgap;
    [|by destruct t].
  revert now Ht. induction activity as [|x activity IH]; intros now Ht; cbn in Ht.
  - destruct (_ || _) eqn:E; subst t.
    + exists 0%nat, now, ready. cbn. repeat split; lia.
    + intros [|[|i]] a b; cbn; intros; simplify_eq; lia.
  - destruct (_ || _) eqn:E.
    + subst t. exists 0%nat, now, x. cbn. repeat split; lia.
    + specialize (IH x Ht). destruct t as [fired|].
      * destruct IH as (i & a & b & Ha & Hb & ?). by exists (S i), a, b.
      * intros [|i] a b; cbn; intros Ha Hb; [simplify_eq; lia | by apply (IH i)].
Qed.

(** ** The life of a stream *)

Section lifecycle.
Context {Request Body : Type} `{Env Request Body, StreamEnv Request, Unicode, HTTPDates}.
Context (ex : AttemptExecutor).

(** What the adapters raise, see [plain_local_error]. *)
Definition opens_plainly : Prop :=
  ∀ tick p actx chat key, plain_local_error (fe_err (snd (env_open tick p actx chat key))).

Lemma openFirst_plain wctx deadline branch t oc e :
  plain_local_error (fe_err oc) → openFirstStreamEvent wctx deadline branch t oc = Err e →
  plain_local_error (Some e).
Proof.
  intros Hp He. assert (fe_err oc = Some e ∨ err_attempted (Some e) = true) as [<-|Ha]; [|done|].
  - unfold openFirstStreamEvent in He. destruct branch, (ctx_err wctx t) as [[]|]; simplify_eq/=; auto.
    destruct (negb _); [simplify_eq; auto|]. destruct (fe_err oc) as [e'|].
    + destruct (errors_Is io_EOF e'); simplify_eq; auto.
    + destruct (ev_Done _); simplify_eq; auto.
  - intros e' [= <-] Ha'. congruence.
Qed.

Lemma wp_open_stream wctx parent p k input key timeout st
    (R : nat * result GoErr ChatStreamEvent → list Event → St → Prop) :
  opens_plainly →
  (∀ n deadline branch t oc st', plain_local_error (fe_err oc) →
     R (n, openFirstStreamEvent wctx deadline branch t oc) [EvCall p k (ctx_deadline wctx)] st') →
  wp (open_stream wctx parent p k input key timeout) st R.
Proof.
  intros Hplain HR. apply wp_op. intros w _.
  pose proof (Hplain (w_tick w) (TrimSpace p) parent input key) as Hoc.
  destruct (env_open _ _ _ _ _) as [[branch t] oc]. cbn.
  split; [lia|]. intros st' _ _. by apply HR.
Qed.

(** The permit, the lease and the key of a stream that may still be used. *)
Definition stream_fresh (s : PreparedStream) : Prop :=
  ps_finished s = false ∧ ps_terminal s = None ∧ p_completed (snd (ps_permit s)) = false ∧
  lease_released (snd (ps_lease s)) = false ∧
  ∀ sel, ps_key s = Some sel → sel_completed sel = false.

Lemma wp_stream_call ctx parent input attempt retry l permit ql lease sel st
    (R : Outcome PreparedStream * Permit → list Event → St → Prop) :
  opens_plainly → p_completed permit = false → lease_released lease = false →
  (∀ s, sel = Some s → sel_completed s = false) →
  (∀ s d dur st', stream_holds s = hold (Some l) (Some ql) (option_map sel_keyID sel) →
     stream_fresh s → ps_Fallbacks s = 0 → ps_Trail s = [] →
     R ({| o_Payload := Some s; o_Failure := None; o_KeyID := sel_keyID_of sel;
           o_Attempted := true; o_Duration := dur |}, permit)
       [EvCall (cd_ProviderID (in_Candidate input)) (sel_keyID_of sel) d] st') →
  (∀ e now d dur f st', plain_local_error (Some e) →
     (∃ f0, FromProvider ctx now (cd_ProviderID (in_Candidate input))
        (cd_Priority (in_Candidate input)) attempt (Some e) = Some f0 ∧
        f = match sel with Some s => f_with_key f0 (sel_keyID s) | None => f0 end) →
     R ({| o_Payload := None; o_Failure := Some f; o_KeyID := sel_keyID_of sel;
           o_Attempted := err_attempted (Some e); o_Duration := dur |}, p_set_completed permit)
       (EvCall (cd_ProviderID (in_Candidate input)) (sel_keyID_of sel) d ::
        match sel with Some s => [EvKeyComplete (sel_keyID s) (Some f)] | None => [] end ++
        [EvSettle l (Some f)]) st') →
  wp (stream_call ctx parent input attempt retry l permit ql lease sel) st R.
Proof.
  intros Hplain Hp Hl Hs Hok Herr. unfold stream_call. apply wp_bind.
  assert (∀ (Q : string → list Event → St → Prop) st1, (∀ k st', Q k [] st') →
    wp match sel with Some s => key_Secret s | None => mret "" end st1 Q) as Hsecret.
  { intros Q st1 HQ. destruct sel; [by apply wp_key_Secret | apply wp_ret, HQ]. }
  apply Hsecret. intros key st1. apply wp_bind, wp_time_Now. intros t1 st2 _.
  apply wp_bind, wp_open_stream; [done|]. intros n deadline branch t oc st3 Hoc.
  apply wp_bind, wp_time_Now. intros t2 st4 _. apply wp_bind, wp_time_Now. intros t3 st5 _.
  cbn [snd fst]. destruct (openFirstStreamEvent ctx deadline branch t oc) as [ev|e] eqn:Hopen.
  { apply wp_ret. cbn. by apply Hok. }
  pose proof (FromProvider_some ctx t3 (cd_ProviderID (in_Candidate input))
    (cd_Priority (in_Candidate input)) attempt e) as Hsome.
  destruct (FromProvider ctx t3 _ _ attempt (Some e)) as [f0|] eqn:HF; [|done].
  set (f := match sel with Some s => f_with_key f0 (sel_keyID s) | None => f0 end).
  assert (match sel with Some s => option_map (λ f, f_with_key f (sel_keyID s)) (Some f0)
          | None => Some f0 end = Some f) as -> by (unfold f; by destruct sel).
  apply wp_bind. assert (∀ (Q : bool → list Event → St → Prop) st1,
    (∀ b st', Q b match sel with Some s => [EvKeyComplete (sel_keyID s) (Some f)] | None => [] end st') →
    wp match sel with
       | Some s => r ← key_Complete s (Some f); mret (fst r) | None => mret false end st1 Q) as Hkey.
  { intros Q st6 HQ. destruct sel as [s|]; [|apply wp_ret, HQ].
    apply wp_bind, wp_key_Complete; [by apply Hs|]. intros r st7. apply wp_ret, HQ. }
  apply Hkey. intros b st6. apply wp_bind, wp_permit_Complete. intros st7. rewrite Hp.
  apply wp_ret. cbn. rewrite ?app_nil_r. apply (Herr e t3); eauto.
  by eapply openFirst_plain.
Qed.

(** One attempt to prepare a stream: as in [executeOnce_spec], except that on
    success the resources are with the stream. *)
Lemma prepareStreamOnce_spec ctx parent input retry attempt pref excluded st :
  opens_plainly →
  wp (prepareStreamOnce ex ctx parent input retry attempt pref excluded) st
     (λ o es _, once_post stream_holds stream_fresh excluded o es).
Proof.
  intros Hlocal. unfold prepareStreamOnce.
  destruct (ex_adapters ex !! _) as [adapter|].
  2: { apply wp_ret. constructor; cbn; try done. by intros _ f [= <-]; left. }
  destruct (ad_streaming adapter); cbn [negb].
  2: { apply wp_bind, wp_time_Now. intros t st1 _. apply wp_ret.
       pose proof (FromProvider_some ctx t (cd_ProviderID (in_Candidate input))
         (cd_Priority (in_Candidate input)) attempt (ESentinel ErrUnsupportedCapability)).
       destruct (FromProvider _ _ _ _ _ _) as [f|] eqn:HF; [|done].
       constructor; cbn; try done. intros _ f' [= <-]. left.
       eapply FromProvider_local_final; [..|exact HF]; [done|]. by intros e [= <-]. }
  apply wp_with_permit.
  2: { intros f st' Hf. constructor; cbn; try done. by intros _ f' [= <-]; left. }
  intros l permit st0 Hp. apply wp_with_lease; [done| |].
  2: { intros f st' Hf st3. cbn. constructor; cbn; rewrite ?decide_True by done; try done.
       by intros _ f' [= <-]; left. }
  intros ql st1. apply wp_with_key; [done| |].
  2: { intros f st' Hf st3 st4. cbn -[replay calls]. constructor; try done.
       - run_protocol; done.
       - intros _ f' [= <-]. by right. }
  intros sel st2 Hsel. apply wp_stream_call; [done|done|done| | |].
  { intros s Hs. by apply Hsel. }
  - intros s dl dur st3 Hh Hfresh _ _ st4 st5. cbn -[replay calls]. rewrite ?app_nil_r.
    constructor; cbn -[replay calls]; try done.
    + rewrite Hh. destruct sel; run_protocol; done.
    + destruct sel; count_calls.
    + intros _. destruct sel; count_calls.
    + intros _. split; [done|]. by exists s.
    + destruct sel; cbn; [|done]. intros _. by apply Hsel.
  - intros e now dl dur f st3 Hpl (f0 & HF & Hf) st4 st5.
    cbn -[replay calls]. rewrite ?app_nil_r. constructor; cbn -[replay calls]; try done.
    + destruct sel; run_protocol; done.
    + destruct sel; count_calls.
    + intros _. destruct sel; count_calls.
    + destruct sel; cbn; [|done]. intros _. by apply Hsel.
    + intros Ha f' [= <-]. left.
      assert (final_failure f0) as Hfin
        by (eapply FromProvider_local_final; [exact Ha | exact Hpl | exact HF]).
      subst f. by destruct sel.
Qed.

(** What [Finish] does with the resources of a stream. *)
Lemma Finish_spec s failure st :
  stream_fresh s →
  wp (Finish s failure) st (λ r es _, fst r = true ∧ ps_finished (snd r) = true ∧
    replay (stream_holds s) es = Some holds_nothing ∧ calls es = 0 ∧
    ps_Trail (snd r) = ps_Trail s ∧ ps_started (snd r) = ps_started s ∧
    ∃ d, ps_terminal (snd r) =
      Some {| term_failure := option_map (describeFailure s) failure; term_duration := d |}).
Proof.
  intros (Hfin & _ & Hp & Hl & Hk). unfold Finish. rewrite Hfin.
  set (f := option_map (describeFailure s) failure).
  apply wp_bind. assert (∀ (Q : bool → list Event → St → Prop) st1,
    (∀ b st', Q b match ps_key s with Some sel => [EvKeyComplete (sel_keyID sel) f] | None => [] end st') →
    wp match ps_key s with
       | Some sel => r ← key_Complete sel f; mret (fst r) | None => mret false end st1 Q) as Hkey.
  { intros Q st6 HQ. destruct (ps_key s) as [sel|]; [|apply wp_ret, HQ].
    apply wp_bind, wp_key_Complete; [by apply Hk|]. intros r st7. apply wp_ret, HQ. }
  apply Hkey. intros b st1. apply wp_bind, wp_permit_Complete. intros st2. rewrite Hp.
  apply wp_bind, wp_lease_Release. intros st3. rewrite Hl.
  apply wp_bind, wp_time_Now. intros t st4 _. apply wp_ret. cbn -[replay calls].
  split; [done|]. split; [done|]. split; [|split; [|split; [done|split; [done|by eexists]]]].
  - unfold stream_holds. destruct (ps_key s) as [sel|]; run_protocol; done.
  - destruct (ps_key s); count_calls.
Qed.
End lifecycle.

Section prepare.
Context {Request Body : Type} `{Env Request Body, StreamEnv Request, Unicode, HTTPDates}.
Context (ex : AttemptExecutor) (ctx parent : Ctx) (input : AttemptInput Request).
Context (retry : RetryPolicy) (d : Time) (fuel : nat) (st : St).

Record stream_setting : Prop := {
  sset_local : opens_plainly;
  sset_policy : rps_ForProvider (ex_retries ex) (cd_ProviderID (in_Candidate input)) = Some retry;
  sset_valid : RetryConfig_Validate retry = None;
  sset_deadline : ctx_deadline ctx = Some d;
  sset_fuel : rc_MaxAttempts retry + Z.max 0 (d - w_now (st_world st)) < Z.of_nat fuel;
}.

(** What preparing a stream answers. *)
Definition prepared_post (res : AttemptResult PreparedStream) (failure : option Failure)
    (es : list Event) : Prop :=
  0 ≤ r_Attempts res ≤ rc_MaxAttempts retry ∧
  r_Attempts res ≤ calls es ≤ rc_MaxAttempts retry ∧
  trail_ok (in_Candidate input) (r_Attempts res) (r_Trail res) ∧
  match failure with
  | None => ∃ s, r_Payload res = Some s ∧ stream_fresh s ∧
      replay holds_nothing es = Some (stream_holds s) ∧
      ps_Attempts s = r_Attempts res ∧ ps_Trail s = r_Trail res ∧
      ∃ before last, r_Trail res = before ++ [last] ∧ ar_Category last = None
  | Some f => r_Payload res = None ∧ f_TotalAttempts f = r_Attempts res ∧
      replay holds_nothing es = Some holds_nothing
  end.

Lemma prepareStream_spec :
  stream_setting →
  wp (prepareStream ex fuel (Some ctx) (Some parent) input) st (λ r es _,
    ∃ res failure, r = Some (res, failure) ∧ prepared_post res failure es).
Proof.
  intros [Hlocal Hpol Hv Hd Hfuel]. unfold prepareStream. rewrite Hpol.
  apply RetryConfig_Validate_bounds in Hv as [Hmax _].
  apply wp_bind. eapply wp_mono.
  { eapply (retry_loop_spec stream_holds stream_fresh _ ctx _ retry d).
    - intros. by apply prepareStreamOnce_spec.
    - done.
    - apply empty_head_ok.
    - cbn. lia.
    - unfold remaining. cbn. lia. }
  cbn beta. intros r es st1 _ (res & failure & -> & [Ht Ha Hc Hs Hf Hh]).
  apply wp_ret. cbn in *. rewrite app_nil_r. eexists _, _. split; [done|].
  split; [cbn; lia|]. split; [cbn; lia|]. split; [done|]. destruct failure as [f|].
  - destruct (Hf f eq_refl) as (Htot & Hp & _). cbn. rewrite Hp. by rewrite Hh, Hp.
  - destruct (Hs eq_refl) as [(s & Hp & Hfresh) (before & last & Htr & Hlast & _)]. cbn. rewrite Hp.
    rewrite Hp in Hh. exists (ps_set_totals s (r_Attempts res) (ps_Fallbacks s) (ps_CandidatesTried s)
      (r_Trail res)). repeat split; try done; try apply Hfresh. by exists before, last.
Qed.

(** Preparing a stream terminates and is bounded like [Execute]; and the
    resources have exactly one owner: after a failure nothing is held, after a
    success the permit, the lease and the key of the last attempt are held, by
    the stream that is returned, and those of the earlier attempts have been
    given back. *)
Theorem prepare_stream_owns :
  stream_setting →
  ∃ res failure es st', runs (prepareStream ex fuel (Some ctx) (Some parent) input) st
      (Some (res, failure)) es st' ∧
    r_Attempts res ≤ calls es ≤ rc_MaxAttempts retry ∧
    match failure with
    | None => ∃ s, r_Payload res = Some s ∧ stream_fresh s ∧
        replay holds_nothing es = Some (stream_holds s) ∧
        ps_Attempts s = r_Attempts res ∧ ps_Trail s = r_Trail res
    | Some f => r_Payload res = None ∧ f_TotalAttempts f = r_Attempts res ∧
        replay holds_nothing es = Some holds_nothing
    end.
Proof.
  intros Hset. destruct (prepareStream_spec Hset)
    as (r & es & st' & Hrun & Hes & _ & res & failure & -> & Ha & Hc & Ht & Hm).
  exists res, failure, es, st'. split; [done|]. split; [done|].
  destruct failure; [done|]. destruct Hm as (s & ? & ? & ? & ? & ? & _). by exists s.
Qed.

(** C6: the life of a stream leaks nothing and is told truthfully. Preparing a
    stream and finishing it, whatever was read in between and with whatever
    result, settles its key and its permit and releases its slot, each exactly
    once and without another call; a second [Finish] does nothing; and the last
    attempt of the trail, which is only available then, carries the result of
    the stream instead of that of its opening. *)
Theorem stream_lifecycle res s es st' failure b s' es' st2 :
  stream_setting →
  runs (prepareStream ex fuel (Some ctx) (Some parent) input) st (Some (res, None)) es st' →
  r_Payload res = Some s → runs (Finish s failure) st' (b, s') es' st2 →
  b = true ∧ replay holds_nothing (es ++ es') = Some holds_nothing ∧ calls es' = 0 ∧
  (∀ f st3, Finish s' f st3 = ((false, s'), st3)) ∧
  FinalAttempt s = None ∧
  ∃ r, FinalAttempt s' = Some r ∧ ar_Category r = failureCategory failure ∧
    ar_Attempt r = r_Attempts res ∧ ar_ProviderID r = cd_ProviderID (in_Candidate input).
Proof.
  intros Hset Hprep Hs Hfin.
  apply (wp_runs _ _ _ _ _ _ (prepareStream_spec Hset)) in Hprep
    as (res0 & f0 & [= <- <-] & _ & _ & Ht & s0 & Hs0 & Hfresh & Hr & _ & Htr & before & last & Hlast & _).
  rewrite Hs in Hs0. injection Hs0 as <-.
  apply (wp_runs _ _ _ _ _ _ (Finish_spec s failure st' Hfresh)) in Hfin
    as (Hb & Hf & Hr' & Hc & Htrail & Hstart & dur & Hterm). cbn in *.
  split; [done|]. split; [by rewrite replay_app, Hr|]. split; [done|].
  split; [intros f st3; unfold Finish; by rewrite Hf|].
  assert (list.last (ps_Trail s) = Some last) as Hl by (rewrite Htr, Hlast; apply last_snoc).
  split; [unfold FinalAttempt; destruct Hfresh as (_ & -> & _); by rewrite Hl|].
  unfold FinalAttempt. rewrite Htrail, Hl, Hterm. eexists. split; [done|]. cbn.
  destruct Ht as [Hlen Hnum _]. rewrite Hlast, length_app in Hlen. cbn in Hlen.
  destruct (Hnum (length before) last) as (Hatt & Hprov & _).
  { rewrite Hlast. by apply list_lookup_middle. }
  split; [by destruct failure|]. split; [lia | done].
Qed.
End prepare.

(** ** Concrete instances *)

#[export] Instance demo_stream_env : StreamEnv string :=
  {| env_open := λ tick _ _ _ _,
       (FirstReady, 11,
        {| fe_event := {| ev_Data := "{}"; ev_Done := false |};
           fe_err := if (tick <? 10)%nat then Some (EHTTP demo_401) else None;
           fe_completedAt := 10 |}) |}.

Definition demo_prepare :=
  @prepareStream string string demo_env demo_stream_env demo_unicode demo_dates demo_executor 40
    (Some demo_ctx) (Some ctx_background) demo_input.

Lemma demo_stream_setting : @stream_setting string demo_stream_env demo_executor demo_ctx demo_input
  DefaultRetryConfig 40 40 demo_st.
Proof.
  constructor; try done; try (vm_compute; reflexivity).
  intros tick p actx chat key e He Ha. cbn -[Nat.ltb] in He. destruct (tick <? 10)%nat; [|done].
  injection He as <-. done.
Qed.

Definition demo_prepared := Eval vm_compute in demo_prepare demo_st.
Definition demo_stream_result : AttemptResult PreparedStream :=
  match demo_prepared.1 with Some (res, _) => res | None => empty_result end.

Lemma demo_prepare_runs :
  @runs (option (AttemptResult PreparedStream * option Failure)) demo_prepare demo_st
    (Some (demo_stream_result, None)) (st_events demo_prepared.2) demo_prepared.2.
Proof. split; vm_compute; reflexivity. Qed.

Definition demo_stream : PreparedStream :=
  match r_Payload demo_stream_result with
  | Some s => s
  | None =>
      {| ps_FirstEvent := {| ev_Data := ""; ev_Done := false |}; ps_ProviderID := "";
         ps_UpstreamModel := ""; ps_KeyID := ""; ps_Candidate := 0; ps_Attempts := 0;
         ps_Fallbacks := 0; ps_CandidatesTried := 0; ps_Trail := []; ps_stream := 0;
         ps_permit := (0%nat, closed_permit demo_breaker); ps_lease := (0%nat, new_lease);
         ps_key := None; ps_idleTime := 0; ps_started := 0; ps_finished := false; ps_done := false;
         ps_terminal := None |}
  end.

Definition demo_finish_failure : option Failure := Some (new_failure CategoryNetwork "").
Definition demo_finished := Eval vm_compute in
  @Finish string string demo_env demo_stream demo_finish_failure demo_prepared.2.
Definition demo_finish_events : list Event :=
  drop (length (st_events demo_prepared.2)) (st_events demo_finished.2).

Lemma first_event_checked_witness :
  openFirstStreamEvent demo_ctx 20 FirstReady 11
    {| fe_event := {| ev_Data := ""; ev_Done := true |}; fe_err := None; fe_completedAt := 10 |} =
  Err (EWrap (ESentinel ErrInvalidStream)).
Proof.
  apply (proj2 (first_event_checked demo_ctx 20 FirstReady 11
    {| fe_event := {| ev_Data := ""; ev_Done := true |}; fe_err := None; fe_completedAt := 10 |}));
    [reflexivity | reflexivity | done | left; split; reflexivity].
Defined.

Lemma next_idle_limit_witness :
  (PreparedStream_Next (ps_set_end demo_stream false false None) 5 [6; 7] (8 + 30 * second) false
     {| ev_Data := "{}"; ev_Done := false |} None).1.2 =
  Some (EWrap (ESentinel context_DeadlineExceeded)).
Proof.
  exact (proj1 (next_idle_limit (ps_set_end demo_stream false false None) 5 [6; 7] (8 + 30 * second) false
    {| ev_Data := "{}"; ev_Done := false |} None (Some (7 + 20 * second)) eq_refl ltac:(vm_compute; reflexivity)
    ltac:(vm_compute; reflexivity))).
Defined.

Lemma prepare_stream_owns_witness :
  ∃ res failure es st', runs demo_prepare demo_st (Some (res, failure)) es st' ∧
    r_Attempts res ≤ calls es ≤ 3.
Proof.
  destruct (@prepare_stream_owns string string demo_env demo_stream_env demo_unicode demo_dates
    demo_executor demo_ctx ctx_background demo_input DefaultRetryConfig 40 40 demo_st
    demo_stream_setting) as (res & failure & es & st' & Hrun & Hc & _).
  exists res, failure, es, st'. split; [exact Hrun | exact Hc].
Defined.

Lemma stream_lifecycle_witness :
  replay holds_nothing (st_events demo_prepared.2 ++ demo_finish_events) = Some holds_nothing.
Proof.
  exact (proj1 (proj2 (@stream_lifecycle string string demo_env demo_stream_env demo_unicode demo_dates
    demo_executor demo_ctx ctx_background demo_input DefaultRetryConfig 40 40 demo_st
    demo_stream_result demo_stream (st_events demo_prepared.2) demo_prepared.2 demo_finish_failure
    true (snd (fst demo_finished)) demo_finish_events (snd demo_finished)
    demo_stream_setting demo_prepare_runs eq_refl
    ltac:(split; vm_compute; reflexivity)))).
Defined.
