(* ===== verification/Orchestrator.v ===== *)
(** * Trying the candidates of a plan

    Models [src/internal/reliability/orchestrator.go]. [Execute] and
    [OpenStream] run the same loop over the candidates, one with
    [AttemptExecutor.Execute], the other with [prepareStream]; the loop is
    written once. *)

From Stdlib Require Import Floats.
From S2P Require Import Prelude Failure Breaker Queue Registry KeySelector Retry Routing Attempt Stream.

Open Scope Z_scope.

Record ExecutionInput (Request : Type) := {
  xin_RequestID : string;
  xin_Request : Request;
  xin_Plan : Plan;
}.
Arguments xin_RequestID {Request} _.
Arguments xin_Request {Request} _.
Arguments xin_Plan {Request} _.

Record ExecutionResult (Payload : Type) := {
  x_Payload : option Payload;
  x_ProviderID : string;
  x_UpstreamModel : string;
  x_KeyID : string;
  x_Attempts : Z;
  x_Fallbacks : Z;
  x_CandidatesTried : Z;
  x_Trail : list AttemptRecord;
}.
Arguments x_Payload {Payload} _.
Arguments x_ProviderID {Payload} _.
Arguments x_UpstreamModel {Payload} _.
Arguments x_KeyID {Payload} _.
Arguments x_Attempts {Payload} _.
Arguments x_Fallbacks {Payload} _.
Arguments x_CandidatesTried {Payload} _.
Arguments x_Trail {Payload} _.

Inductive OrchestratorError := orchestrator_no_executor | orchestrator_no_retries.

Record Orchestrator := { orc_attempts : AttemptExecutor; orc_retries : RetryPolicies }.

Definition NewOrchestrator (attempts : option AttemptExecutor) (retries : option RetryPolicies)
  : result OrchestratorError Orchestrator :=
  match attempts with
  | None => Err orchestrator_no_executor
  | Some attempts =>
      match retries with
      | None => Err orchestrator_no_retries
      | Some retries => Ok {| orc_attempts := attempts; orc_retries := retries |}
      end
  end.

Definition no_route : Failure :=
  f_with_cause (new_failure CategoryLocalValidation "") (ESentinel ErrNoRoute).

Section orchestrator.
Context {Request Body : Type} `{Env Request Body, StreamEnv Request, Unicode, HTTPDates}.

(** The loop, with the totals so far. [execute] runs one candidate; [None] is
    only answered when it ran out of fuel. The end of the list is not reached
    from a plan with candidates. *)
Fixpoint candidate_loop {Payload}
    (execute : Candidate → M (option (AttemptResult Payload * option Failure)))
    (executionContext : Ctx) (candidates : list Candidate) (index totalAttempts fallbacks : Z)
    (trail : list AttemptRecord) (lastFailure : option Failure)
  : M (option (result Failure (ExecutionResult Payload))) :=
  match candidates with
  | [] => mret (Some (Err (f_with_totals (default no_route lastFailure) totalAttempts fallbacks trail)))
  | candidate :: rest =>
      r ← execute candidate;
      match r with
      | None => mret None
      | Some (attemptResult, failure) =>
          let totalAttempts := totalAttempts + r_Attempts attemptResult in
          let trail := trail ++ r_Trail attemptResult in
          match failure with
          | None =>
              mret (Some (Ok {| x_Payload := r_Payload attemptResult;
                                x_ProviderID := cd_ProviderID candidate;
                                x_UpstreamModel := cd_UpstreamModel candidate;
                                x_KeyID := r_KeyID attemptResult; x_Attempts := totalAttempts;
                                x_Fallbacks := fallbacks; x_CandidatesTried := index + 1;
                                x_Trail := trail |}))
          | Some failure =>
              let failure := f_with_totals failure totalAttempts fallbacks trail in
              now ← time_Now;
              match ctx_err executionContext now with
              | Some e =>
                  let failure :=
                    default failure
                      (FromProvider executionContext now (cd_ProviderID candidate)
                         (cd_Priority candidate) (f_Attempt failure) (Some (ctx_GoErr e))) in
                  mret (Some (Err (f_with_totals failure totalAttempts fallbacks trail)))
              | None =>
                  if negb (sig_Fallback (SignalsFor (Some failure))) || bool_decide (rest = [])
                  then mret (Some (Err failure))
                  else candidate_loop execute executionContext rest (index + 1) totalAttempts
                         (fallbacks + 1) trail (Some failure)
              end
          end
      end
  end.

Definition attempt_input (input : ExecutionInput Request) (candidate : Candidate)
  : AttemptInput Request :=
  {| in_RequestID := xin_RequestID input;
     in_RequestedModel := plan_RequestedModel (xin_Plan input);
     in_Request := xin_Request input; in_Candidate := candidate |}.

Context (orchestrator : Orchestrator).

Definition Orchestrator_Execute (fuel : nat) (ctx : Ctx) (input : ExecutionInput Request)
  : M (option (result Failure (ExecutionResult Body))) :=
  let candidates := plan_Candidates (xin_Plan input) in
  if bool_decide (candidates = []) then mret (Some (Err no_route))
  else
    now ← time_Now;
    let executionContext := rps_RequestContext (orc_retries orchestrator) ctx now in
    candidate_loop
      (λ candidate, Execute (orc_attempts orchestrator) fuel executionContext
                      (attempt_input input candidate))
      executionContext candidates 0 0 0 [] None.

(** The stream keeps the client's own context; the totals go to the stream. *)
Definition OpenStream (fuel : nat) (ctx : Ctx) (input : ExecutionInput Request)
  : M (option (result Failure PreparedStream)) :=
  let candidates := plan_Candidates (xin_Plan input) in
  if bool_decide (candidates = []) then mret (Some (Err no_route))
  else
    now ← time_Now;
    let executionContext := rps_RequestContext (orc_retries orchestrator) ctx now in
    r ← candidate_loop
          (λ candidate, prepareStream (orc_attempts orchestrator) fuel (Some executionContext)
                          (Some ctx) (attempt_input input candidate))
          executionContext candidates 0 0 0 [] None;
    mret (r ← r;
          match r with
          | Err failure => Some (Err failure)
          | Ok x =>
              s ← x_Payload x;
              Some (Ok (ps_set_totals s (x_Attempts x) (x_Fallbacks x) (x_CandidatesTried x)
                          (x_Trail x)))
          end).
End orchestrator.

(** ** What the loop guarantees

    The runs of the candidates in order, as the loop sees them. *)

Definition policy_max (rps : RetryPolicies) (candidate : Candidate) : Z :=
  match rps_ForProvider rps (cd_ProviderID candidate) with
  | Some retry => rc_MaxAttempts retry
  | None => 0
  end.

(** [RetryPolicies] as the orchestrator relies on it: valid policies, and a
    request context with a timeout of at most [budget]. *)
Record policies_ok (rps : RetryPolicies) (budget : Duration) : Prop := {
  pok_valid : ∀ p retry, rps_ForProvider rps p = Some retry → RetryConfig_Validate retry = None;
  pok_budget : ∀ ctx now, ∃ t, t ≤ budget ∧ rps_RequestContext rps ctx now = ctx_with_timeout ctx now t;
}.

Lemma registry_policies_ok ids configs r :
  NewRetryRegistry ids configs = Ok r → policies_ok (registry_policies r) maximumRequestTimeout.
Proof.
  intros Hnew. apply retry_registry_facts in Hnew as (Hp & Hmax). constructor.
  - intros p retry Hr. by apply (Hp p retry).
  - intros ctx now. exists (rr_requestTimeout r). split; [apply Hmax | done].
Qed.

Lemma policy_policies_ok config policy :
  NewRetryPolicy config = Ok policy → policies_ok (policy_policies policy) maximumRequestTimeout.
Proof.
  unfold NewRetryPolicy. destruct (RetryConfig_Validate config) eqn:Hv; [done|]. intros [= <-].
  constructor; [by intros p retry [= <-]|]. intros ctx now. exists (rc_RequestTimeout config).
  split; [|done]. apply RetryConfig_Validate_bounds in Hv. apply Hv.
Qed.

(** What the loop learns from one candidate. *)
Record Report (Payload : Type) := {
  rep_candidate : Candidate;
  rep_result : AttemptResult Payload;
  rep_failure : option Failure;
}.
Arguments rep_candidate {Payload} _.
Arguments rep_result {Payload} _.
Arguments rep_failure {Payload} _.

Definition report_attempts {Payload} (rs : list (Report Payload)) : Z :=
  sumZ (λ r, r_Attempts (rep_result r)) rs.
Definition report_trail {Payload} (rs : list (Report Payload)) : list AttemptRecord :=
  concat (map (λ r, r_Trail (rep_result r)) rs).

(** The candidate failed in a way that lets the next one be tried. *)
Definition falls_back {Payload} (r : Report Payload) : Prop :=
  ∃ f, rep_failure r = Some f ∧ sig_Fallback (SignalsFor (Some f)) = true.

(** [answer] is the right summary of having tried [before] and then [last], of
    [candidates]. *)
Record summary_of {Payload} (candidates : list Candidate) (before : list (Report Payload))
    (last : Report Payload) (answer : result Failure (ExecutionResult Payload)) : Prop := {
  so_order : map rep_candidate (before ++ [last]) `prefix_of` candidates;
  so_fallbacks : Forall falls_back before;
  so_trails : Forall (λ r, trail_ok (rep_candidate r) (r_Attempts (rep_result r))
                             (r_Trail (rep_result r))) (before ++ [last]);
  so_answer : match answer with
    | Ok x => rep_failure last = None ∧ x_Payload x = r_Payload (rep_result last) ∧
        x_ProviderID x = cd_ProviderID (rep_candidate last) ∧
        x_UpstreamModel x = cd_UpstreamModel (rep_candidate last) ∧
        x_KeyID x = r_KeyID (rep_result last) ∧
        x_Attempts x = report_attempts (before ++ [last]) ∧
        x_Trail x = report_trail (before ++ [last]) ∧
        x_Fallbacks x = Z.of_nat (length before) ∧
        x_CandidatesTried x = Z.of_nat (length before) + 1
    | Err f => ∃ f0, rep_failure last = Some f0 ∧
        f_TotalAttempts f = report_attempts (before ++ [last]) ∧
        f_Trail f = report_trail (before ++ [last]) ∧
        f_Fallbacks f = Z.of_nat (length before) ∧
        (SignalsFor (Some f) = no_signals ∨
         SignalsFor (Some f) = SignalsFor (Some f0) ∧
           (sig_Fallback (SignalsFor (Some f0)) = false ∨
            map rep_candidate (before ++ [last]) = candidates))
    end;
}.

(** What one candidate guarantees the loop. *)
Record candidate_post {Payload} (held_by : Payload → Held) (good : Payload → Prop)
    (max : Candidate → Z) (c : Candidate) (res : AttemptResult Payload) (failure : option Failure)
    (es : list Event) : Prop := {
  cp_trail : trail_ok c (r_Attempts res) (r_Trail res);
  cp_calls : r_Attempts res ≤ calls es ≤ max c;
  cp_held : replay holds_nothing es = Some (held_after held_by failure (r_Payload res));
  cp_success : failure = None → ∃ p, r_Payload res = Some p ∧ good p;
}.

Record orchestrated {Payload} (held_by : Payload → Held) (good : Payload → Prop)
    (max : Candidate → Z) (candidates : list Candidate)
    (answer : result Failure (ExecutionResult Payload)) (es : list Event) : Prop := {
  oc_summary : ∃ before last, summary_of candidates before last answer;
  oc_calls : calls es ≤ sumZ max candidates;
  oc_attempts : match answer with Ok x => x_Attempts x | Err f => f_TotalAttempts f end ≤ calls es;
  oc_held : replay holds_nothing es = Some
    match answer with Ok x => held_after held_by None (x_Payload x) | Err _ => holds_nothing end;
  oc_success : ∀ x, answer = Ok x → ∃ p, x_Payload x = Some p ∧ good p;
}.

Section loop_spec.
Context {Request Body : Type} `{Env Request Body, Unicode, HTTPDates}.
Context {Payload : Type} (held_by : Payload → Held) (good : Payload → Prop) (max : Candidate → Z).
Context (execute : Candidate → M (option (AttemptResult Payload * option Failure))) (ctx : Ctx) (t0 : Time).
Hypothesis max_nonneg : ∀ c, 0 ≤ max c.
Hypothesis execute_ok : ∀ c st, t0 ≤ w_now (st_world st) →
  wp (execute c) st (λ r es _, ∃ res failure, r = Some (res, failure) ∧
    candidate_post held_by good max c res failure es).

Lemma report_attempts_snoc (rs : list (Report Payload)) r :
  report_attempts (rs ++ [r]) = report_attempts rs + r_Attempts (rep_result r).
Proof. unfold report_attempts. by rewrite sumZ_snoc. Qed.

Lemma report_trail_snoc (rs : list (Report Payload)) r :
  report_trail (rs ++ [r]) = report_trail rs ++ r_Trail (rep_result r).
Proof. unfold report_trail. rewrite map_app, concat_app. cbn. by rewrite app_nil_r. Qed.

Lemma SignalsFor_totals f a b c : SignalsFor (Some (f_with_totals f a b c)) = SignalsFor (Some f).
Proof. reflexivity. Qed.

(** The loop from the middle: [before] has been tried. *)
Lemma candidate_loop_spec all (before : list (Report Payload)) rest f0 es0 st :
  rest ≠ [] → all = map rep_candidate before ++ rest → Forall falls_back before →
  Forall (λ r, trail_ok (rep_candidate r) (r_Attempts (rep_result r)) (r_Trail (rep_result r))) before →
  t0 ≤ w_now (st_world st) →
  replay holds_nothing es0 = Some holds_nothing →
  report_attempts before ≤ calls es0 ≤ sumZ max (map rep_candidate before) →
  wp (candidate_loop execute ctx rest (Z.of_nat (length before)) (report_attempts before)
        (Z.of_nat (length before)) (report_trail before) f0) st
     (λ r es _, ∃ answer, r = Some answer ∧ orchestrated held_by good max all answer (es0 ++ es)).
Proof.
  revert before f0 es0 st. induction rest as [|c rest IH];
    intros before f0 es0 st Hne Hall Hfb Htr Ht Hr0 Hc0; [done|].
  cbn [candidate_loop]. apply wp_bind. eapply wp_mono; [by apply execute_ok|].
  cbn beta. intros r es st1 Hn1 (res & failure & -> & [Htrail Hcalls Hheld Hsucc]).
  set (rep := {| rep_candidate := c; rep_result := res; rep_failure := failure |}).
  assert (report_attempts before + r_Attempts res = report_attempts (before ++ [rep])) as Hat
    by (by rewrite report_attempts_snoc).
  assert (report_trail before ++ r_Trail res = report_trail (before ++ [rep])) as Htrl
    by (by rewrite report_trail_snoc).
  assert (map rep_candidate (before ++ [rep]) = map rep_candidate before ++ [c]) as Hmap
    by (by rewrite map_app).
  assert (map rep_candidate (before ++ [rep]) `prefix_of` all) as Hpre
    by (rewrite Hmap, Hall; exists rest; by rewrite <-app_assoc).
  assert (Forall (λ r, trail_ok (rep_candidate r) (r_Attempts (rep_result r)) (r_Trail (rep_result r)))
    (before ++ [rep])) as Htrs by (apply Forall_app; split; [done | by constructor]).
  assert (calls (es0 ++ es) = calls es0 + calls es) as Hce by apply sumZ_app.
  assert (sumZ max (map rep_candidate (before ++ [rep])) = sumZ max (map rep_candidate before) + max c)
    as Hmx by (rewrite Hmap; apply sumZ_snoc).
  assert (sumZ max (map rep_candidate before) + max c ≤ sumZ max all) as Hle.
  { rewrite Hall, sumZ_app, sumZ_cons. pose proof (sumZ_nonneg max rest max_nonneg). lia. }
  rewrite Hat, Htrl. destruct failure as [f|].
  2: { apply wp_ret. rewrite app_nil_r. eexists. split; [done|]. constructor; cbn.
       - exists before, rep. constructor; try done.
       - lia.
       - rewrite <-Hat. lia.
       - by rewrite replay_app, Hr0.
       - intros x [= <-]. by apply Hsucc. }
  apply wp_bind, wp_time_Now_mono. intros t st2 Hn2 Hn2'.
  assert (∀ f', f_TotalAttempts f' = report_attempts (before ++ [rep]) →
    f_Trail f' = report_trail (before ++ [rep]) → f_Fallbacks f' = Z.of_nat (length before) →
    (SignalsFor (Some f') = no_signals ∨ SignalsFor (Some f') = SignalsFor (Some f) ∧
       (sig_Fallback (SignalsFor (Some f)) = false ∨ rest = [])) →
    orchestrated held_by good max all (Err f') (es0 ++ es)) as Hstop.
  { intros f' Hta Htl Hfbs Hsig. constructor; cbn.
    - exists before, rep. constructor; try done. exists f. repeat split; try done.
      destruct Hsig as [|[? [?|Hnil]]]; auto. right. split; [done|]. right.
      by rewrite Hmap, Hall, Hnil.
    - lia.
    - rewrite Hta, <-Hat. lia.
    - by rewrite replay_app, Hr0.
    - done. }
  destruct (ctx_err ctx t) as [e|] eqn:Hctx.
  { apply wp_ret. rewrite !app_nil_r. eexists. split; [done|]. apply Hstop; try done.
    left. pose proof (FromProvider_some ctx t (cd_ProviderID c) (cd_Priority c)
      (f_Attempt (f_with_totals f (report_attempts (before ++ [rep])) (Z.of_nat (length before))
        (report_trail (before ++ [rep])))) (ctx_GoErr e)) as Hsome.
    pose proof (client_end_signals ctx t (cd_ProviderID c) (cd_Priority c)
      (f_Attempt (f_with_totals f (report_attempts (before ++ [rep])) (Z.of_nat (length before))
        (report_trail (before ++ [rep])))) (ctx_GoErr e) ltac:(left; congruence)) as Hno.
    destruct (FromProvider _ _ _ _ _ _) as [f1|]; [|done]. by rewrite SignalsFor_totals. }
  rewrite SignalsFor_totals. destruct (sig_Fallback (SignalsFor (Some f))) eqn:Hfbk; cbn [negb orb].
  2: { apply wp_ret. rewrite !app_nil_r. eexists. split; [done|]. apply Hstop; try done. by right; auto. }
  case_bool_decide as Hnil.
  { apply wp_ret. rewrite !app_nil_r. eexists. split; [done|]. apply Hstop; try done. by right; auto. }
  replace (Z.of_nat (length before) + 1) with (Z.of_nat (length (before ++ [rep])))
    by (rewrite length_app; cbn; lia).
  eapply wp_mono; [apply (IH (before ++ [rep]) _ (es0 ++ es)); try done|].
  - by rewrite Hmap, Hall, <-app_assoc.
  - apply Forall_app. split; [done|]. constructor; [|done]. by exists f.
  - lia.
  - by rewrite replay_app, Hr0.
  - rewrite <-Hat. lia.
  - cbn. intros r es' st3 _ (answer & -> & Hans). exists answer. split; [done|].
    by rewrite app_assoc.
Qed.
End loop_spec.

Section orchestrator_spec.
Context {Request Body : Type} `{Env Request Body, StreamEnv Request, Unicode, HTTPDates}.
Context (orc : Orchestrator) (ctx : Ctx) (input : ExecutionInput Request) (fuel : nat) (st : St).

Abbreviation ex := (orc_attempts orc).

(** The setting of the theorems: valid policies and a bounded request timeout;
    fuel for the attempts on one candidate and for each nanosecond of the request
    budget, which is the timeout or what the client's own deadline leaves. *)
Record orchestration : Prop := {
  or_local : ∀ tick p actx chat key, plain_local_error (cr_err (env_complete tick p actx chat key));
  or_open : opens_plainly;
  or_valid : ∀ p retry, rps_ForProvider (ex_retries ex) p = Some retry → RetryConfig_Validate retry = None;
  or_fuel : ∃ timeout budget, policies_ok (orc_retries orc) timeout ∧
    (timeout ≤ budget ∨ ∃ d, ctx_deadline ctx = Some d ∧ d - w_now (st_world st) ≤ budget) ∧
    maximumRetryAttempts + Z.max 0 budget < Z.of_nat fuel;
}.

Definition candidates : list Candidate := plan_Candidates (xin_Plan input).

Lemma policy_max_range c : orchestration → 0 ≤ policy_max (ex_retries ex) c ≤ maximumRetryAttempts.
Proof.
  intros Hor. unfold policy_max. destruct (rps_ForProvider _ _) as [retry|] eqn:Hr;
    [|unfold maximumRetryAttempts; lia].
  apply (or_valid Hor), RetryConfig_Validate_bounds in Hr as [? _]. lia.
Qed.

Lemma policy_max_sum cs :
  orchestration → sumZ (policy_max (ex_retries ex)) cs ≤ maximumRetryAttempts * Z.of_nat (length cs).
Proof.
  intros Hor. induction cs as [|c cs IH]; [rewrite sumZ_nil; cbn; lia|].
  rewrite sumZ_cons. cbn [length]. pose proof (policy_max_range c Hor). lia.
Qed.

(** The execution context of a request made at [t0]: its deadline, and that the
    fuel covers what is left of it. *)
Lemma execution_context_deadline t0 :
  orchestration → w_now (st_world st) ≤ t0 →
  ∃ d, ctx_deadline (rps_RequestContext (orc_retries orc) ctx t0) = Some d ∧
    ∀ now, t0 ≤ now → maximumRetryAttempts + Z.max 0 (d - now) < Z.of_nat fuel.
Proof.
  intros Hor Ht. destruct (or_fuel Hor) as (timeout & budget & [_ Hb] & Hbud & Hfuel).
  destruct (Hb ctx t0) as (t & Htm & ->). eexists. split; [done|]. intros now Hnow.
  destruct Hbud as [|(d & -> & Hd)]; unfold time_add; [destruct (ctx_deadline ctx)|]; lia.
Qed.

Lemma no_policy_post {Payload} held_by good c :
  candidate_post held_by good (policy_max (ex_retries ex)) c (@empty_result Payload)
    (Some (policy_missing c)) [] ∨ is_Some (rps_ForProvider (ex_retries ex) (cd_ProviderID c)).
Proof.
  destruct (rps_ForProvider (ex_retries ex) (cd_ProviderID c)) eqn:Hp; [by right; eauto|left].
  constructor; cbn; try done.
  unfold policy_max. rewrite Hp. unfold calls. rewrite sumZ_nil. lia.
Qed.

Lemma Execute_candidate t0 c st' :
  orchestration → w_now (st_world st) ≤ t0 → t0 ≤ w_now (st_world st') →
  wp (Execute ex fuel (rps_RequestContext (orc_retries orc) ctx t0) (attempt_input input c)) st'
    (λ r es _, ∃ res failure, r = Some (res, failure) ∧
       candidate_post (λ _, holds_nothing) (λ _, True) (policy_max (ex_retries ex)) c res failure es).
Proof.
  intros Hor Ht Ht'. destruct (execution_context_deadline t0 Hor Ht) as (d & Hd & Hfuel).
  pose proof (policy_max_range c Hor) as Hmax.
  destruct (rps_ForProvider (ex_retries ex) (cd_ProviderID c)) as [retry|] eqn:Hp.
  - eapply wp_mono; [apply (Execute_spec _ _ _ retry d)|].
    + constructor; [apply Hor | done | by eapply (or_valid Hor) | done |].
      specialize (Hfuel _ Ht'). unfold policy_max in Hmax. rewrite Hp in Hmax. lia.
    + cbn. intros r es st2 _ (res & failure & -> & [H1' H2' H3' H4' H5' H6']).
      eexists _, _. split; [done|]. constructor; try done.
      * unfold policy_max. rewrite Hp. cbn in H3'. lia.
      * intros Hf. by destruct (H4' Hf) as [? _].
  - unfold Execute. cbn. rewrite Hp. apply wp_ret. eexists _, _. split; [done|].
    destruct (@no_policy_post Body (λ _, holds_nothing) (λ _, True) c) as [|[? ?]]; [done|congruence].
Qed.

Lemma prepare_candidate t0 c st' :
  orchestration → w_now (st_world st) ≤ t0 → t0 ≤ w_now (st_world st') →
  wp (prepareStream ex fuel (Some (rps_RequestContext (orc_retries orc) ctx t0)) (Some ctx)
        (attempt_input input c)) st'
    (λ r es _, ∃ res failure, r = Some (res, failure) ∧
       candidate_post stream_holds stream_fresh (policy_max (ex_retries ex)) c res failure es).
Proof.
  intros Hor Ht Ht'. destruct (execution_context_deadline t0 Hor Ht) as (d & Hd & Hfuel).
  pose proof (policy_max_range c Hor) as Hmax.
  destruct (rps_ForProvider (ex_retries ex) (cd_ProviderID c)) as [retry|] eqn:Hp.
  - eapply wp_mono; [apply (prepareStream_spec _ _ _ _ retry d)|].
    + constructor; [apply Hor | done | by eapply (or_valid Hor) | done |].
      specialize (Hfuel _ Ht'). unfold policy_max in Hmax. rewrite Hp in Hmax. lia.
    + cbn. intros r es st2 _ (res & failure & -> & Ha & Hc & Htr & Hm).
      eexists _, _. split; [done|]. destruct failure as [f|].
      * destruct Hm as (Hpay & _ & Hh). constructor; try done.
        unfold policy_max. rewrite Hp. lia.
      * destruct Hm as (s & Hpay & Hfresh & Hh & _). constructor; try done.
        -- unfold policy_max. rewrite Hp. lia.
        -- by rewrite Hh, Hpay.
        -- intros _. by exists s.
  - unfold prepareStream. cbn. rewrite Hp. apply wp_ret. eexists _, _. split; [done|].
    destruct (@no_policy_post PreparedStream stream_holds stream_fresh c) as [|[? ?]]; [done|congruence].
Qed.

Lemma Orchestrator_Execute_spec :
  orchestration → candidates ≠ [] →
  wp (Orchestrator_Execute orc fuel ctx input) st (λ r es _, ∃ answer, r = Some answer ∧
    orchestrated (λ _, holds_nothing) (λ _, True) (policy_max (ex_retries ex)) candidates answer es).
Proof.
  intros Hor Hne. unfold Orchestrator_Execute. fold candidates. rewrite bool_decide_false by done.
  apply wp_bind, wp_time_Now_mono. intros t0 st1 Ht0 Hst1.
  eapply wp_mono.
  - apply (candidate_loop_spec (λ _, holds_nothing) (λ _, True) (policy_max (ex_retries ex)) _ _ t0
      (λ c, proj1 (policy_max_range c Hor)) (λ c st' Ht', Execute_candidate t0 c st' Hor Ht0 Ht')
      candidates [] candidates None []); try done. lia.
  - cbn. intros r es st2 _ (answer & -> & Hans). by exists answer.
Qed.

Lemma OpenStream_spec :
  orchestration → candidates ≠ [] →
  wp (OpenStream orc fuel ctx input) st (λ r es _, ∃ answer, r = Some answer ∧
    ∃ x, orchestrated stream_holds stream_fresh (policy_max (ex_retries ex)) candidates x es ∧
    match answer, x with
    | Ok s, Ok x => ∃ s0, x_Payload x = Some s0 ∧
        s = ps_set_totals s0 (x_Attempts x) (x_Fallbacks x) (x_CandidatesTried x) (x_Trail x)
    | Err f, Err f' => f = f'
    | _, _ => False
    end).
Proof.
  intros Hor Hne. unfold OpenStream. fold candidates. rewrite bool_decide_false by done.
  apply wp_bind, wp_time_Now_mono. intros t0 st1 Ht0 Hst1. apply wp_bind.
  eapply wp_mono.
  - apply (candidate_loop_spec stream_holds stream_fresh (policy_max (ex_retries ex)) _ _ t0
      (λ c, proj1 (policy_max_range c Hor)) (λ c st' Ht', prepare_candidate t0 c st' Hor Ht0 Ht')
      candidates [] candidates None []); try done. lia.
  - cbn. intros r es st2 _ (answer & -> & Hans). apply wp_ret. cbn. rewrite app_nil_r.
    destruct answer as [x|f]; cbn.
    + destruct (oc_success _ _ _ _ _ _ Hans x eq_refl) as (s0 & Hs0 & _). rewrite Hs0. cbn.
      eexists. split; [done|]. exists (Ok x). split; [done|]. by exists s0.
    + eexists. split; [done|]. by exists (Err f).
Qed.

(** C4: a request terminates with bounded work. Whatever the upstreams, the other
    goroutines and the clock do, executing a plan answers; the candidates are
    tried in the plan's order, each at most once and only after every earlier one
    has failed in a way that allows a fallback; the upstream calls never exceed
    the policies' attempts over the whole plan; and nothing is left held. *)
Theorem orchestrator_terminates_bounded :
  orchestration → candidates ≠ [] →
  ∃ answer es st', runs (Orchestrator_Execute orc fuel ctx input) st (Some answer) es st' ∧
    calls es ≤ sumZ (policy_max (ex_retries ex)) candidates ∧
    calls es ≤ maximumRetryAttempts * Z.of_nat (length candidates) ∧
    replay holds_nothing es = Some holds_nothing ∧
    ∃ before last, map rep_candidate (before ++ [last]) `prefix_of` candidates ∧
      Forall falls_back before ∧ summary_of candidates before last answer.
Proof.
  intros Hor Hne. destruct (Orchestrator_Execute_spec Hor Hne)
    as (r & es & st' & Hrun & Hes & _ & answer & -> & [(before & last & Hsum) Hc _ Hh _]).
  exists answer, es, st'. split; [done|]. split; [done|]. split; [|split].
  - eapply Z.le_trans; [exact Hc|]. by apply policy_max_sum.
  - rewrite Hh. destruct answer as [x|f]; [|done]. cbn. by destruct (x_Payload x).
  - exists before, last. split; [apply Hsum|]. split; [apply Hsum | done].
Qed.

(** The answer of a request is the answer of the candidate that gave it, with
    the totals of all candidates tried. On success that candidate succeeded:
    identity and key are its own, attempts and trail are those of every
    candidate tried, in order, and the fallbacks are one less than the candidates
    tried. *)
Theorem orchestrator_success_summary x es st' :
  orchestration → candidates ≠ [] →
  runs (Orchestrator_Execute orc fuel ctx input) st (Some (Ok x)) es st' →
  (∃ body, x_Payload x = Some body) ∧
  ∃ (before : list (Report Body)) (last : Report Body), map rep_candidate (before ++ [last]) `prefix_of` candidates ∧
    Forall falls_back before ∧ rep_failure last = None ∧
    x_ProviderID x = cd_ProviderID (rep_candidate last) ∧
    x_UpstreamModel x = cd_UpstreamModel (rep_candidate last) ∧
    x_Trail x = report_trail (before ++ [last]) ∧
    x_Attempts x = report_attempts (before ++ [last]) ∧ x_Attempts x ≤ calls es ∧
    x_Fallbacks x = Z.of_nat (length before) ∧ x_CandidatesTried x = x_Fallbacks x + 1.
Proof.
  intros Hor Hne Hrun. apply (wp_runs _ _ _ _ _ _ (Orchestrator_Execute_spec Hor Hne)) in Hrun
    as (answer & [= <-] & [(before & last & [Ho Hfb _ Ha]) _ Hatt _ Hs]).
  destruct (Hs x eq_refl) as (b & Hb & _). split; [by exists b|]. exists before, last.
  destruct Ha as (? & ? & ? & ? & ? & ? & ? & ? & ?). repeat split; try done. lia.
Qed.


(** Opening a stream is the same orchestration: it terminates within the same
    bounds, and the stream that comes out holds exactly the resources still
    taken, is fresh, and carries the totals of all candidates tried. *)
Theorem open_stream_owns :
  orchestration → candidates ≠ [] →
  ∃ answer es st', runs (OpenStream orc fuel ctx input) st (Some answer) es st' ∧
    calls es ≤ sumZ (policy_max (ex_retries ex)) candidates ∧
    match answer with
    | Ok s => stream_fresh s ∧ replay holds_nothing es = Some (stream_holds s) ∧
        ps_Attempts s ≤ calls es ∧ ps_CandidatesTried s = ps_Fallbacks s + 1
    | Err f => replay holds_nothing es = Some holds_nothing ∧ f_TotalAttempts f ≤ calls es
    end.
Proof.
  intros Hor Hne. destruct (OpenStream_spec Hor Hne)
    as (r & es & st' & Hrun & Hes & _ & answer & -> & x & [(before & last & Hsum) Hc Hatt Hh Hs] & Hm).
  exists answer, es, st'. split; [done|]. split; [done|].
  destruct answer as [s|f], x as [x|f']; try done.
  - destruct Hm as (s0 & Hs0 & ->). destruct (Hs x eq_refl) as (s1 & Hs1 & Hfresh).
    rewrite Hs0 in Hs1. injection Hs1 as <-. rewrite Hs0 in Hh. split; [apply Hfresh|].
    split; [done|]. split; [done|]. destruct Hsum as [_ _ _ Ha]. cbn in *. lia.
  - subst f'. done.
Qed.
End orchestrator_spec.

(** ** Concrete instances

    The plan has two candidates on the provider of the attempts' examples. The
    first set of runs answers with its first candidate; in the second every
    upstream call fails with 503 and both candidates are used up. *)

Definition demo_orchestrator : Orchestrator :=
  {| orc_attempts := demo_executor; orc_retries := policy_policies DefaultRetryConfig |}.

Definition demo_request : ExecutionInput string :=
  {| xin_RequestID := "r"; xin_Request := "hello";
     xin_Plan := {| plan_RequestedModel := "fast";
       plan_Candidates := [ {| cd_ProviderID := "p"; cd_UpstreamModel := "m"; cd_Priority := 0 |};
                            {| cd_ProviderID := "p"; cd_UpstreamModel := "n"; cd_Priority := 1 |} ] |} |}.

Definition demo_503 : HTTPError := {| http_StatusCode := 503; http_RetryAfter := ""; http_Code := "" |}.

Definition down_env : Env string string :=
  {| env_other := λ _ w, w;
     env_wait := λ _ q, (WaitTimer, 0, q);
     env_complete := λ tick _ _ _ _,
       {| cr_payload := ""; cr_err := Some (EHTTP demo_503); cr_at := Z.of_nat tick |};
     env_random := λ _, 0.5%float;
     env_timer_first := λ _, true |}.

Lemma demo_policies_ok : policies_ok (policy_policies DefaultRetryConfig) maximumRequestTimeout.
Proof. by apply (policy_policies_ok DefaultRetryConfig). Qed.

Lemma demo_orchestration : @orchestration string string demo_env demo_stream_env demo_orchestrator
  demo_ctx 60 demo_st.
Proof.
  constructor; try apply demo_setting; try apply demo_stream_setting.
  - intros p retry [= <-]. vm_compute. reflexivity.
  - exists maximumRequestTimeout, 31. split; [apply demo_policies_ok|]. split; [|by vm_compute].
    right. exists 40. split; [done|]. by vm_compute.
Qed.

Lemma down_orchestration : @orchestration string string down_env demo_stream_env demo_orchestrator
  demo_ctx 60 demo_st.
Proof.
  destruct demo_orchestration as [_ Ho Hv Hf]. constructor; try done.
  intros tick p actx chat key e [= <-] Ha. done.
Qed.

Definition demo_orchestrate :=
  @Orchestrator_Execute string string demo_env demo_unicode demo_dates demo_orchestrator 60 demo_ctx
    demo_request.
Definition demo_orchestrated := Eval vm_compute in demo_orchestrate demo_st.

Definition down_orchestrate :=
  @Orchestrator_Execute string string down_env demo_unicode demo_dates demo_orchestrator 60 demo_ctx
    demo_request.

Definition demo_summary : ExecutionResult string :=
  match demo_orchestrated.1 with
  | Some (Ok x) => x
  | _ => {| x_Payload := None; x_ProviderID := ""; x_UpstreamModel := ""; x_KeyID := "";
            x_Attempts := 0; x_Fallbacks := 0; x_CandidatesTried := 0; x_Trail := [] |}
  end.


Lemma demo_orchestrate_runs :
  @runs (option (result Failure (ExecutionResult string))) demo_orchestrate demo_st
    (Some (Ok demo_summary)) (st_events demo_orchestrated.2) demo_orchestrated.2.
Proof. split; vm_compute; reflexivity. Qed.


Lemma orchestrator_terminates_bounded_witness :
  ∃ (answer : result Failure (ExecutionResult string)) es st',
    runs down_orchestrate demo_st (Some answer) es st' ∧ calls es ≤ 6.
Proof.
  destruct (@orchestrator_terminates_bounded string string down_env demo_stream_env demo_unicode
    demo_dates demo_orchestrator demo_ctx demo_request 60 demo_st down_orchestration
    ltac:(discriminate)) as (answer & es & st' & Hrun & Hc & _).
  exact (ex_intro _ answer (ex_intro _ es (ex_intro _ st' (conj Hrun Hc)))).
Defined.

Lemma orchestrator_success_summary_witness : x_CandidatesTried demo_summary = x_Fallbacks demo_summary + 1.
Proof.
  destruct (@orchestrator_success_summary string string demo_env demo_stream_env demo_unicode
    demo_dates demo_orchestrator demo_ctx demo_request 60 demo_st demo_summary _ _ demo_orchestration
    ltac:(discriminate) demo_orchestrate_runs) as (_ & before & last & Hs).
  exact (proj2 (proj2 (proj2 (proj2 (proj2 (proj2 (proj2 (proj2 (proj2 Hs))))))))).
Defined.


Lemma open_stream_owns_witness : ∃ answer es st',
  runs (@OpenStream string string demo_env demo_stream_env demo_unicode demo_dates demo_orchestrator
    60 demo_ctx demo_request) demo_st (Some answer) es st' ∧ calls es ≤ 6.
Proof.
  destruct (@open_stream_owns string string demo_env demo_stream_env demo_unicode demo_dates
    demo_orchestrator demo_ctx demo_request 60 demo_st demo_orchestration ltac:(discriminate))
    as (answer & es & st' & Hrun & Hc & _).
  exact (ex_intro _ answer (ex_intro _ es (ex_intro _ st' (conj Hrun Hc)))).
Defined.
