(* ===== verification/Gateway.v ===== *)
(** * Runtime snapshots

    Models [src/internal/gateway/runtime.go]: a snapshot is one configuration, wired
    completely; the manager publishes snapshots through one pointer, and a request
    keeps the snapshot it began with. *)

From S2P Require Import Prelude Failure Breaker Queue Registry KeySelector Retry Routing Attempt Compatible Construction Stream Orchestrator.

(** ** Snapshots *)

Record ProviderStateIdentity := { psi_Breaker : string; psi_Queue : string; psi_Keys : string }.

(** Nil pointers are [None]. *)
Record Snapshot := {
  sn_CacheNamespace : string;
  sn_Routes : option Router;
  sn_Chat : option Orchestrator;
  sn_Embeddings : option Orchestrator;
  sn_Breakers : option BreakerRegistry;
  sn_Queues : option QueueRegistry;
  sn_Keys : option ProviderKeyRegistry;
  sn_ProviderStates : gmap string ProviderStateIdentity;
}.

Inductive GatewayError :=
| gateway_incomplete_dependencies
| gateway_executor (error : ExecutorError)
| gateway_orchestrator (error : OrchestratorError)
| gateway_embeddings (error : AdapterRegistryError)
| gateway_no_manager
| gateway_incomplete_snapshot.

Definition newOrchestrator (adapters : option (gmap string Adapter)) (breakers : option BreakerRegistry)
    (queues : option QueueRegistry) (keys : option ProviderKeyRegistry) (retries : option RetryPolicies)
    : result GatewayError Orchestrator :=
  match NewAttemptExecutor adapters breakers queues keys retries with
  | Err e => Err (gateway_executor e)
  | Ok attempts =>
      match NewOrchestrator (Some attempts) retries with
      | Err e => Err (gateway_orchestrator e)
      | Ok orchestrator => Ok orchestrator
      end
  end.

Definition chat_adapters (adapters : AdapterRegistry) : gmap string Adapter := adapter_view <$> ar_adapters adapters.
Definition embedding_adapters (adapters : AdapterRegistry) : gmap string Adapter := bridge_view <$> ar_adapters adapters.

Definition embedding_orchestrator `{MapOrder} (adapters : AdapterRegistry) (breakers : option BreakerRegistry)
    (queues : option QueueRegistry) (keys : option ProviderKeyRegistry) (retries : option RetryPolicies)
    : result GatewayError (option Orchestrator) :=
  match EmbeddingRegistry adapters with
  | Err e => Err (gateway_embeddings e)
  | Ok None => Ok None
  | Ok (Some embedding) => Some <$> newOrchestrator (Some (embedding_adapters embedding)) breakers queues keys retries
  end.

Definition NewSnapshot `{MapOrder} (adapters : option AdapterRegistry) (routes : option Router)
    (breakers : option BreakerRegistry) (queues : option QueueRegistry) (keys : option ProviderKeyRegistry)
    (retries : option RetryPolicies) : result GatewayError Snapshot :=
  match adapters, routes, breakers, queues, retries with
  | Some registry, Some _, Some _, Some _, Some _ =>
      chat ← newOrchestrator (Some (chat_adapters registry)) breakers queues keys retries;
      embeddings ← embedding_orchestrator registry breakers queues keys retries;
      Ok {| sn_CacheNamespace := ""; sn_Routes := routes; sn_Chat := Some chat; sn_Embeddings := embeddings;
            sn_Breakers := breakers; sn_Queues := queues; sn_Keys := keys; sn_ProviderStates := ∅ |}
  | _, _, _, _, _ => Err gateway_incomplete_dependencies
  end.

Definition snapshot_complete (snapshot : option Snapshot) : bool :=
  match snapshot with Some s => isSome (sn_Routes s) && isSome (sn_Chat s) | None => false end.

(** ** The manager

    The pointer to the current snapshot; what a manager that was made holds is never
    nil. *)

Record Manager := { mg_current : Snapshot }.

Definition NewManager (initial : option Snapshot) : result GatewayError Manager :=
  match initial with
  | Some s => if snapshot_complete initial then Ok {| mg_current := s |} else Err gateway_incomplete_snapshot
  | None => Err gateway_incomplete_snapshot
  end.

Definition Current (manager : option Manager) : option Snapshot := mg_current <$> manager.

Definition Replace (manager : option Manager) (next : option Snapshot) : result GatewayError () * option Manager :=
  match manager with
  | None => (Err gateway_no_manager, None)
  | Some m =>
      match next with
      | Some s => if snapshot_complete next then (Ok (), Some {| mg_current := s |}) else (Err gateway_incomplete_snapshot, manager)
      | None => (Err gateway_incomplete_snapshot, manager)
      end
  end.

(** ** Facts *)

Lemma newOrchestrator_ok adapters breakers queues keys retries orchestrator :
  newOrchestrator adapters breakers queues keys retries = Ok orchestrator →
  adapters = Some (ex_adapters (orc_attempts orchestrator)) ∧ breakers = Some (ex_breakers (orc_attempts orchestrator)) ∧
  queues = Some (ex_queues (orc_attempts orchestrator)) ∧ keys = ex_keys (orc_attempts orchestrator) ∧
  retries = Some (ex_retries (orc_attempts orchestrator)) ∧ retries = Some (orc_retries orchestrator).
Proof.
  unfold newOrchestrator, NewAttemptExecutor, NewOrchestrator. repeat case_match; intros; simplify_eq; done.
Qed.

(** A snapshot that is wired is complete, and its parts are those it was given. *)
Lemma NewSnapshot_ok `{MapOrder} adapters routes breakers queues keys retries snapshot :
  NewSnapshot adapters routes breakers queues keys retries = Ok snapshot →
  snapshot_complete (Some snapshot) = true ∧
  sn_Routes snapshot = routes ∧ sn_Breakers snapshot = breakers ∧ sn_Queues snapshot = queues ∧ sn_Keys snapshot = keys ∧
  ∃ chat, sn_Chat snapshot = Some chat ∧ Some (ex_breakers (orc_attempts chat)) = breakers ∧
    Some (ex_queues (orc_attempts chat)) = queues ∧ ex_keys (orc_attempts chat) = keys ∧
    Some (ex_retries (orc_attempts chat)) = retries ∧ Some (orc_retries chat) = retries ∧
    Some (ex_adapters (orc_attempts chat)) = chat_adapters <$> adapters.
Proof.
  unfold NewSnapshot. destruct adapters as [a|], routes as [r|], breakers as [b|], queues as [q|], retries as [t|]; try done.
  intros (chat & Hchat & (emb & _ & [= <-])%result_bind_ok)%result_bind_ok.
  apply newOrchestrator_ok in Hchat as (? & ? & ? & ? & ? & ?). cbn. split_and!; try done. exists chat. split_and!; congruence.
Qed.
