(* ===== verification/Document.v ===== *)
(** * Runtime documents

    Models [src/internal/controlplane/document.go]: from a document that lists
    providers and routes to a snapshot: the router, the adapters, and for every provider
    a circuit breaker, a queue, a retry policy and keys. Mutable state of the previous
    snapshot (an open breaker, a busy queue, a disabled key) is kept for the providers
    whose configuration is the same, which fingerprints decide. The instances of all
    snapshots live in the heaps of the [World] of Attempt.v. *)

From Stdlib Require Import Floats.
From S2P Require Import Prelude Failure Encoding Json JsonWrite Breaker Queue Registry KeySelector Retry Routing Transport Attempt Compatible Construction ProviderConfig Stream Orchestrator Gateway.

Open Scope Z_scope.

(** ** Data

    A map of Go is a [gmap]; nil and empty slices and maps are not told apart: a document
    that is built has no empty list where that would matter. *)

Definition RuntimeSchemaVersion : Z := 1.

Record ProviderKeySpec := { ky_ID : string; ky_Secret : string }.
Record ProviderSpec := {
  ps_ID : string;
  ps_Protocol : string;
  ps_BaseURL : string;
  ps_Models : list string;
  ps_ModelCapabilities : gmap string (list string);
  ps_Keys : list ProviderKeySpec;
  ps_Runtime : ProviderRuntimeSpec;
}.
Record CandidateSpec := { cs_Provider : string; cs_UpstreamModel : string }.
Record RouteSpec := { rs_Model : string; rs_Candidates : list CandidateSpec }.
Record RuntimeDocument := {
  rd_SchemaVersion : Z;
  rd_Providers : list ProviderSpec;
  rd_Routes : list RouteSpec;
}.

Record Builder := { bd_Defaults : ProviderDefaults; bd_EnforceStreamUsage : bool }.

Inductive BuildError :=
| build_schema_version
| build_providers
| build_routes
| build_runtime (index : nat) (error : RuntimeError)
| build_router (error : RouteError)
| build_adapters (error : AdapterRegistryError)
| build_breakers (error : BreakerError)
| build_queues (error : QueueError)
| build_retries (error : RetryError)
| build_keys (error : KeyError)
| build_snapshot (error : GatewayError).

(** ** The limits of a provider

    Unlike the document of the environment, the connections do not follow the queue. *)

Definition override_http (spec : HTTPSpec) (base : HTTPConfig) : HTTPConfig :=
  {| hc_MaxIdleConnections := or_default (hs_MaxIdleConnections spec) (hc_MaxIdleConnections base);
     hc_MaxIdleConnectionsPerHost := or_default (hs_MaxIdleConnectionsPerHost spec) (hc_MaxIdleConnectionsPerHost base);
     hc_MaxConnectionsPerHost := or_default (hs_MaxConnectionsPerHost spec) (hc_MaxConnectionsPerHost base) |}.

Definition runtime (builder : Builder) (spec : ProviderRuntimeSpec) : result RuntimeError ProviderRuntime :=
  let defaults := bd_Defaults builder in
  breaker ← override_breaker (rt_Breaker spec) (run_Breaker defaults);
  queue ← override_queue (rt_Queue spec) (run_Queue defaults);
  retry ← override_retry (rt_Retry spec) (run_Retry defaults);
  validated_runtime
    {| run_Breaker := breaker; run_Queue := queue; run_Retry := retry;
       run_HTTP := override_http (rt_HTTP spec) (run_HTTP defaults) |}.

(** ** Fingerprints *)

(** What is hashed: every part behind its length. *)
Fixpoint fingerprint_text (parts : list string) : string :=
  match parts with
  | [] => ""
  | part :: rest => encode_int (str_len part) +:+ String ":" (part +:+ fingerprint_text rest)
  end.

Definition stateFingerprint (parts : list string) : string := hex_encode (Sum256 (fingerprint_text parts)).

Section unicode.
Context `{Unicode}.

Definition breaker_parts (spec : ProviderSpec) (breaker : BreakerConfig) : list string :=
  [ToLower (TrimSpace (ps_Protocol spec)); TrimSpace (ps_BaseURL spec); encode_int (FailureThreshold breaker);
   encode_int (OpenDuration breaker); encode_int (HalfOpenMaxProbes breaker)].
Definition queue_parts (queue : QueueConfig) : list string :=
  [encode_int (MaxInFlight queue); encode_int (MaxWaiting queue); encode_int (WaitTimeout queue)].
Definition key_parts (spec : ProviderSpec) : list string :=
  concat (map (λ key, [TrimSpace (ky_ID key); TrimSpace (ky_Secret key)]) (ps_Keys spec)).

Definition providerStateIdentity (spec : ProviderSpec) (r : ProviderRuntime) : ProviderStateIdentity :=
  {| psi_Breaker := stateFingerprint (breaker_parts spec (run_Breaker r));
     psi_Queue := stateFingerprint (queue_parts (run_Queue r));
     psi_Keys := match ps_Keys spec with [] => "" | _ => stateFingerprint (key_parts spec) end |}.

(** ** What a document configures *)

Record Configured := {
  cf_Providers : list Provider;
  cf_Adapters : list AdapterConfig;
  cf_Breakers : gmap string BreakerConfig;
  cf_Queues : gmap string QueueConfig;
  cf_Retries : gmap string RetryConfig;
  cf_KeySets : list ProviderKeySet;
  cf_States : gmap string ProviderStateIdentity;
}.
Definition nothing_configured : Configured := Build_Configured [] [] ∅ ∅ ∅ [] ∅.

Definition key_set (providerID : string) (keys : list ProviderKeySpec) : list ProviderKeySet :=
  match keys with
  | [] => []
  | _ => [{| pks_ProviderID := providerID;
             pks_Keys := map (λ k, {| pk_ID := TrimSpace (ky_ID k); pk_Secret := ky_Secret k |}) keys |}]
  end.

Context `{NetURL} `{MapOrder}.

(** One round of the loop over the providers. *)
Definition configure (builder : Builder) (candidate : ProviderSpec) (r : ProviderRuntime) (c : Configured) : Configured :=
  let providerID := TrimSpace (ps_ID candidate) in
  {| cf_Providers := cf_Providers c ++
       [{| pv_ID := providerID; pv_Type := ToLower (TrimSpace (ps_Protocol candidate));
           pv_BaseURL := TrimSpace (ps_BaseURL candidate); pv_Models := ps_Models candidate;
           pv_ModelCapabilities := map_order (ps_ModelCapabilities candidate) |}];
     cf_Adapters := cf_Adapters c ++
       [{| ac_ProviderID := providerID; ac_Protocol := ps_Protocol candidate; ac_BaseURL := ps_BaseURL candidate;
           ac_HTTP := run_HTTP r; ac_DisableStreamUsage := negb (bd_EnforceStreamUsage builder) |}];
     cf_Breakers := <[providerID := run_Breaker r]> (cf_Breakers c);
     cf_Queues := <[providerID := run_Queue r]> (cf_Queues c);
     cf_Retries := <[providerID := run_Retry r]> (cf_Retries c);
     cf_KeySets := cf_KeySets c ++ key_set providerID (ps_Keys candidate);
     cf_States := <[providerID := providerStateIdentity candidate r]> (cf_States c) |}.

Fixpoint configure_all (builder : Builder) (index : nat) (providers : list ProviderSpec) (c : Configured)
    : result BuildError Configured :=
  match providers with
  | [] => Ok c
  | candidate :: rest =>
      match runtime builder (ps_Runtime candidate) with
      | Err e => Err (build_runtime index e)
      | Ok r => configure_all builder (S index) rest (configure builder candidate r c)
      end
  end.

Definition rule_of (route : RouteSpec) : Rule :=
  {| rule_Model := rs_Model route;
     rule_Candidates := map (λ c, {| tg_ProviderID := cs_Provider c; tg_UpstreamModel := cs_UpstreamModel c |})
                            (rs_Candidates route) |}.

(** ** Keeping state *)

Record Registries := {
  rg_breakers : option BreakerRegistry; rg_queues : option QueueRegistry; rg_keys : option ProviderKeyRegistry;
}.

Definition reuse_one (previous : Snapshot) (w : World) (entry : string * ProviderStateIdentity) (r : Registries)
    : Registries :=
  let '(providerID, identity) := entry in
  match sn_ProviderStates previous !! providerID with
  | None => r
  | Some existing =>
      {| rg_breakers :=
           if (psi_Breaker identity =? psi_Breaker existing)%string
           then (BreakerRegistry_ReuseProvider (w_breakers w) (rg_breakers r) providerID (sn_Breakers previous)).2
           else rg_breakers r;
         rg_queues :=
           if (psi_Queue identity =? psi_Queue existing)%string
           then (QueueRegistry_ReuseProvider (w_queues w) (rg_queues r) providerID (sn_Queues previous)).2
           else rg_queues r;
         rg_keys :=
           if negb (psi_Keys identity =? "")%string && (psi_Keys identity =? psi_Keys existing)%string
           then (KeyRegistry_ReuseProvider (w_keys w) (rg_keys r) providerID (sn_Keys previous)).2
           else rg_keys r |}
  end.

Definition reuseProviderStates (current : gmap string ProviderStateIdentity) (previous : option Snapshot) (w : World)
    (r : Registries) : Registries :=
  match previous with
  | None => r
  | Some previous => foldl (λ r entry, reuse_one previous w entry r) r (map_order current)
  end.

(** ** Building *)

Definition lift_error {E E' A} (f : E → E') (r : result E A) : result E' A :=
  match r with Ok a => Ok a | Err e => Err (f e) end.

(** The keys of the providers that authenticate; none when no provider does. *)
Definition build_key_registry (adapters : AdapterRegistry) (keySets : list ProviderKeySet) (heap : SelectorHeap)
    : result BuildError (SelectorHeap * option ProviderKeyRegistry) :=
  match registry_KeyedProviderIDs (Some adapters) with
  | [] => Ok (heap, None)
  | ids => '(heap, keys) ← lift_error build_keys (newProviderKeyRegistry ids keySets heap); Ok (heap, Some keys)
  end.

(** The registries of a configuration, with the world in which their instances were
    made. *)
Definition build_registries (c : Configured) (w : World)
    : result BuildError (AdapterRegistry * RetryRegistry * Registries * World) :=
  let providerIDs := map pv_ID (cf_Providers c) in
  adapters ← lift_error build_adapters (NewAdapterRegistry (cf_Adapters c));
  '(bh, breakers) ← lift_error build_breakers (NewBreakerRegistryWithConfigs providerIDs (cf_Breakers c) (w_breakers w));
  '(qh, queues) ← lift_error build_queues (NewQueueRegistryWithConfigs providerIDs (cf_Queues c) (w_queues w));
  retries ← lift_error build_retries (NewRetryRegistry providerIDs (cf_Retries c));
  '(kh, keys) ← build_key_registry adapters (cf_KeySets c) (w_keys w);
  Ok (adapters, retries, {| rg_breakers := Some breakers; rg_queues := Some queues; rg_keys := keys |},
      w_set_keys (w_set_queues (w_set_breakers w bh) qh) kh).

Definition document_error (document : RuntimeDocument) : option BuildError :=
  if negb (rd_SchemaVersion document =? RuntimeSchemaVersion) then Some build_schema_version
  else
    let providers := Z.of_nat (length (rd_Providers document)) in
    let routes := Z.of_nat (length (rd_Routes document)) in
    if (providers =? 0) || (100 <? providers) then Some build_providers
    else if (routes =? 0) || (10000 <? routes) then Some build_routes else None.

Definition with_states (s : Snapshot) (states : gmap string ProviderStateIdentity) : Snapshot :=
  {| sn_CacheNamespace := sn_CacheNamespace s; sn_Routes := sn_Routes s; sn_Chat := sn_Chat s;
     sn_Embeddings := sn_Embeddings s; sn_Breakers := sn_Breakers s; sn_Queues := sn_Queues s; sn_Keys := sn_Keys s;
     sn_ProviderStates := states |}.

(** The world only grows; when building fails, what was allocated is garbage. *)
Definition build (builder : Builder) (document : RuntimeDocument) (previous : option Snapshot) (w : World)
    : result BuildError (Snapshot * World) :=
  match document_error document with
  | Some e => Err e
  | None =>
      c ← configure_all builder 0 (rd_Providers document) nothing_configured;
      routes ← lift_error build_router
                 (New {| def_Providers := cf_Providers c; def_Rules := map rule_of (rd_Routes document) |});
      '(adapters, retries, registries, w') ← build_registries c w;
      let r := reuseProviderStates (cf_States c) previous w' registries in
      snapshot ← lift_error build_snapshot
                   (NewSnapshot (Some adapters) (Some routes) (rg_breakers r) (rg_queues r) (rg_keys r)
                      (Some (registry_policies retries)));
      Ok (with_states snapshot (cf_States c), w')
  end.

Definition Build (builder : Builder) (document : RuntimeDocument) (w : World) : result BuildError (Snapshot * World) :=
  build builder document None w.
End unicode.

(** ** Fingerprints distinguish configurations *)

Definition no_colon (s : string) : Prop := ":"%char ∉ list_ascii_of_string s.

Lemma cut_colon s t r q :
  no_colon s → no_colon t → (s +:+ String ":" r) = (t +:+ String ":" q) → s = t ∧ r = q.
Proof.
  unfold no_colon. revert t. induction s as [|c s IH]; intros t Hs Ht; destruct t as [|d t].
  - rewrite !append_nil. intros [=]. done.
  - rewrite append_nil, append_cons. intros [= <- _]. exfalso. apply Ht. cbn. left.
  - rewrite append_nil, append_cons. intros [= -> _]. exfalso. apply Hs. cbn. left.
  - rewrite !append_cons. cbn [list_ascii_of_string] in Hs, Ht. rewrite not_elem_of_cons in Hs, Ht.
    intros [= -> H]. destruct (IH t) as [-> ->]; tauto.
Qed.

Lemma same_length_append (s t r q : string) :
  str_len s = str_len t → (s +:+ r) = (t +:+ q) → s = t ∧ r = q.
Proof.
  unfold str_len. revert t. induction s as [|c s IH]; intros [|d t]; cbn; try lia.
  - rewrite !append_nil. done.
  - rewrite !append_cons. intros Hl [= -> H]. destruct (IH t) as [-> ->]; [lia|done|done].
Qed.

Lemma encode_int_no_colon z : 0 ≤ z → no_colon (encode_int z).
Proof.
  intros Hz. unfold encode_int, no_colon. rewrite (proj2 (Z.ltb_ge z 0)) by lia.
  assert (∀ fuel z acc, 0 ≤ z → Forall (λ b, 48 ≤ b < 58) acc → Forall (λ b, 48 ≤ b < 58) (decimal_digits fuel z acc)) as Hd.
  { induction fuel as [|fuel IH]; intros y acc Hy Hacc; [done|]. cbn. destruct (Z.ltb_spec y 10).
    - constructor; [lia|done].
    - apply IH; [apply Z.div_pos; lia|]. constructor; [|done]. pose proof (Z.mod_pos_bound y 10 ltac:(lia)). lia. }
  specialize (Hd 20%nat z [] Hz ltac:(constructor)). revert Hd. generalize (decimal_digits 20 z []). intros l Hl.
  unfold string_of_bytes. rewrite list_ascii_of_string_of_list_ascii. intros Hin%list_elem_of_fmap.
  destruct Hin as (b & Hb & Hbl). rewrite Forall_forall in Hl. specialize (Hl b Hbl).
  assert (byte_of ":"%char = b) as Hc by (rewrite Hb; apply byte_of_ascii; unfold is_byte; lia).
  vm_compute in Hc. lia.
Qed.

Lemma encode_int_inj z y : in_int64 z → in_int64 y → encode_int z = encode_int y → z = y.
Proof.
  intros Hz Hy Heq. pose proof (decode_int_encode z 0 Hz) as H1. pose proof (decode_int_encode y 0 Hy) as H2. congruence.
Qed.

(** Lengths of strings are 64-bit integers. *)
Definition go_string (s : string) : Prop := str_len s ≤ int64_max.

Lemma fingerprint_text_inj parts parts' :
  Forall go_string parts → Forall go_string parts' → fingerprint_text parts = fingerprint_text parts' → parts = parts'.
Proof.
  assert (∀ p rest, fingerprint_text (p :: rest) ≠ ""%string) as Hne.
  { intros p rest. cbn. destruct (encode_int _); [by rewrite append_nil|by rewrite append_cons]. }
  assert (∀ p, go_string p → in_int64 (str_len p)) as H64.
  { intros p Hp. pose proof (str_len_nonneg p). unfold in_int64, go_string, int64_min, int64_max in *. lia. }
  intros Hp. revert parts'. induction Hp as [|p parts Hp Hps IH]; intros parts' Hp' Heq.
  { destruct parts' as [|p' rest]; [done|]. symmetry in Heq. by apply Hne in Heq. }
  destruct parts' as [|p' parts']; [by apply Hne in Heq|]. apply Forall_cons in Hp' as [Hp'1 Hp'2]. cbn in Heq.
  apply cut_colon in Heq as [Hlen Heq]; [|apply encode_int_no_colon, str_len_nonneg..].
  apply encode_int_inj in Hlen; [|by apply H64..]. apply same_length_append in Heq as [-> Heq]; [|done].
  f_equal. by apply IH.
Qed.

(** No collision between two texts that are hashed. *)
Definition hashed_apart (s t : string) : Prop := Sum256 s = Sum256 t → s = t.

Lemma stateFingerprint_inj parts parts' :
  Forall go_string parts → Forall go_string parts' → hashed_apart (fingerprint_text parts) (fingerprint_text parts') →
  stateFingerprint parts = stateFingerprint parts' → parts = parts'.
Proof.
  intros Hp Hp' Hh Heq. apply fingerprint_text_inj; [done|done|]. apply Hh. by apply hex_encode_inj.
Qed.

(** ** Registries of a snapshot *)

(** What [ReuseProvider] does in one registry for all providers at once: the location of
    a provider is that of the previous registry when it is wanted, known there, and the
    two instances are configured alike. *)
Section reuse_all.
Context {Obj A : Type} (same : Obj → Obj → bool) (heap : list Obj) (previous : option RegistryOf)
  (want : string → A → bool).

Definition reuse_if (r : option RegistryOf) (entry : string * A) : option RegistryOf :=
  if want entry.1 entry.2 then (reuse_provider same heap r entry.1 previous).2 else r.

Definition kept_location (k : string) (a : A) (l : nat) : nat :=
  if want k a then
    match previous ≫= (λ p, reg_at p !! k) with
    | Some le =>
        match heap !! l, heap !! le with
        | Some c, Some e => if same c e then le else l
        | _, _ => l
        end
    | None => l
    end
  else l.

Lemma reuse_none entries : foldl reuse_if None entries = None.
Proof.
  induction entries as [|[k a] entries IH]; [done|]. cbn [foldl]. unfold reuse_if at 2. cbn [fst snd].
  unfold reuse_provider. by destruct (want k a).
Qed.

Lemma reuse_if_spec r k a :
  trimmed k →
  ∃ r', reuse_if (Some r) (k, a) = Some r' ∧ reg_ids r' = reg_ids r ∧
    ∀ j, reg_at r' !! j = (if decide (j = k) then kept_location k a <$> reg_at r !! k else reg_at r !! j).
Proof.
  intros Hk. unfold trimmed in Hk. unfold reuse_if, kept_location, reuse_provider. cbn [fst snd]. rewrite Hk.
  assert (∃ r', Some r = Some r' ∧ reg_ids r' = reg_ids r ∧
    ∀ j, reg_at r' !! j = (if decide (j = k) then (λ l : nat, l) <$> reg_at r !! k else reg_at r !! j)) as Hsame.
  { exists r. split; [done|]. split; [done|]. intros j. case_decide as Hj; [subst j|done]. by destruct (reg_at r !! k). }
  destruct (want k a); [|exact Hsame].
  destruct previous as [p|]; cbn [mbind option_bind]; [|exact Hsame].
  destruct (reg_at r !! k) as [l|] eqn:Hl.
  2: { exists r. split; [by destruct (reg_at p !! k)|]. split; [done|]. intros j. by case_decide as Hj; [subst j|]. }
  destruct (reg_at p !! k) as [le|]; [|exact Hsame].
  destruct (heap !! l) as [c|] eqn:Hc; [|cbn [fmap option_fmap option_map] in *; rewrite Hc; exact Hsame].
  cbn [fmap option_fmap option_map] in *. rewrite Hc. destruct (heap !! le) as [e|]; [|exact Hsame].
  destruct (same c e); [|exact Hsame].
  eexists. split; [done|]. split; [done|]. intros j. cbn. case_decide as Hj.
  - subst j. by rewrite lookup_insert_eq.
  - by rewrite lookup_insert_ne by auto.
Qed.

Lemma reuse_all_spec entries r :
  NoDup entries.*1 → Forall trimmed entries.*1 →
  ∃ r', foldl reuse_if (Some r) entries = Some r' ∧ reg_ids r' = reg_ids r ∧
    (∀ k, k ∉ entries.*1 → reg_at r' !! k = reg_at r !! k) ∧
    (∀ k a, (k, a) ∈ entries → reg_at r' !! k = kept_location k a <$> reg_at r !! k).
Proof.
  revert r. induction entries as [|[k a] entries IH]; intros r; cbn [foldl fmap list_fmap fst].
  { intros _ _. exists r. split_and!; [done|done|done|]. by intros k a ?%elem_of_nil. }
  rewrite NoDup_cons, Forall_cons. intros [Hk Hnd] [Ht Hts].
  destruct (reuse_if_spec r k a Ht) as (r1 & Hr1 & Hids1 & Hat1). rewrite Hr1.
  destruct (IH r1 Hnd Hts) as (r' & Hr' & Hids & Hout & Hin). exists r'. split; [done|]. split; [congruence|]. split.
  - intros j. rewrite not_elem_of_cons. intros [Hj1 Hj2]. rewrite Hout, Hat1 by done. by case_decide.
  - intros j b [[= -> ->]|Hjb]%elem_of_cons.
    + rewrite Hout, Hat1 by done. by rewrite decide_True by done.
    + rewrite (Hin _ _ Hjb), Hat1. rewrite decide_False; [done|]. intros ->. apply Hk.
      apply list_elem_of_fmap. by exists (k, b).
Qed.

(** Every location names an instance of the provider, when both registries are sound. *)
Lemma kept_location_named (name_of : Obj → string) r k a l :
  registry_wf name_of heap r → (∀ p, previous = Some p → registry_wf name_of heap p) → reg_at r !! k = Some l →
  ∃ o, heap !! kept_location k a l = Some o ∧ name_of o = k.
Proof.
  intros Hr Hp Hl. destruct (rwf_named _ _ _ Hr _ _ Hl) as (c & Hc & Hn). unfold kept_location.
  destruct (want k a); [|by eauto]. destruct previous as [p|]; [|by eauto]. cbn.
  destruct (reg_at p !! k) as [le|] eqn:Hle; [|by eauto].
  destruct (rwf_named _ _ _ (Hp p eq_refl) _ _ Hle) as (e & He & Hne). rewrite Hc, He.
  destruct (same c e); eauto.
Qed.
End reuse_all.

Lemma registry_wf_mono {Obj} (name_of : Obj → string) heap heap' r :
  heap `prefix_of` heap' → registry_wf name_of heap r → registry_wf name_of heap' r.
Proof.
  intros Hp [Hnd Hids Hnm]. constructor; [done|done|]. intros k l (o & Ho & ?)%Hnm. exists o. split; [|done].
  by eapply prefix_lookup_Some.
Qed.

(** *** The registry of keys *)

Lemma expected_providers_spec index ids acc expected :
  NoDup acc → expected_providers index ids acc = Ok expected → NoDup expected ∧ expected = acc ++ map TrimSpace ids.
Proof.
  revert index acc. induction ids as [|id ids IH]; intros index acc Hacc; cbn.
  { intros [= <-]. by rewrite app_nil_r. }
  case_match; [done|]. case_bool_decide as Hin; [done|]. intros (Hnd & ->)%IH; [|by apply NoDup_snoc].
  split; [done|]. by rewrite <-app_assoc.
Qed.

Definition selector_made (set : ProviderKeySet) (s : providerKeySelector) : Prop :=
  newProviderKeySelector (TrimSpace (pks_ProviderID set)) (pks_Keys set) = Ok s.

Lemma selector_made_named set s : selector_made set s → ks_providerID s = TrimSpace (pks_ProviderID set).
Proof.
  unfold selector_made, newProviderKeySelector. case_bool_decide; [done|]. case_match; [done|].
  intros (keys & _ & [= <-])%result_bind_ok. done.
Qed.

Record key_registry_ok (sets : list ProviderKeySet) (heap0 heap : SelectorHeap) (r : ProviderKeyRegistry) : Prop := {
  kr_wf : registry_wf ks_providerID heap r;
  kr_prefix : heap0 `prefix_of` heap;
  kr_made : ∀ k l, reg_at r !! k = Some l → (length heap0 ≤ l)%nat ∧
    ∃ set s, set ∈ sets ∧ TrimSpace (pks_ProviderID set) = k ∧ heap !! l = Some s ∧ selector_made set s;
}.

Lemma key_sets_loop_ok expected index sets0 sets heap0 heap r heap' r' :
  key_registry_ok sets0 heap0 heap r → key_sets_loop expected index sets heap r = Ok (heap', r') →
  key_registry_ok (sets0 ++ sets) heap0 heap' r'.
Proof.
  revert index sets0 heap r. induction sets as [|set sets IH]; intros index sets0 heap r Hok; cbn.
  { intros [= <- <-]. by rewrite app_nil_r. }
  destruct (negb _); [done|]. destruct (reg_at r !! _) eqn:Hnew; [done|].
  destruct (newProviderKeySelector _ _) as [s|] eqn:Hs; [|done]. intros Hloop.
  apply (IH _ (sets0 ++ [set])) in Hloop; [by rewrite <-app_assoc in Hloop|].
  destruct Hok as [[Hnd Hids Hnm] Hpre Hmade]. constructor; [constructor| |]; cbn.
  - apply NoDup_snoc; [done|]. intros [? Hx]%Hids. congruence.
  - intros k. rewrite elem_of_app, list_elem_of_singleton, Hids, lookup_insert_is_Some.
    destruct (decide (TrimSpace (pks_ProviderID set) = k)) as [<-|]; split; intros; intuition eauto; congruence.
  - intros k l. rewrite lookup_insert_Some. intros [[<- <-]|[_ Hk]].
    + exists s. rewrite list_lookup_middle by done. split; [done|]. by apply (selector_made_named set).
    + apply Hnm in Hk as (o & Ho & ?). exists o. split; [by apply lookup_app_l_Some|done].
  - by apply prefix_app_r.
  - intros k l. rewrite lookup_insert_Some. intros [[<- <-]|[_ Hk]].
    + split; [by apply prefix_length|]. exists set, s. split; [set_solver|]. split; [done|].
      split; [by apply list_lookup_middle|done].
    + destruct (Hmade _ _ Hk) as (? & set' & s' & ? & ? & Hl & ?). split; [done|]. exists set', s'.
      split; [set_solver|]. split; [done|]. split; [by apply lookup_app_l_Some|done].
Qed.

Lemma newProviderKeyRegistry_spec ids sets heap heap' r :
  newProviderKeyRegistry ids sets heap = Ok (heap', r) →
  key_registry_ok sets heap heap' r ∧ ∀ k, k ∈ map TrimSpace ids → is_Some (reg_at r !! k).
Proof.
  unfold newProviderKeyRegistry. intros (expected & Hexp & Hr)%result_bind_ok.
  apply expected_providers_spec in Hexp as [_ ->]; [|constructor]. case_bool_decide; [done|].
  apply result_bind_ok in Hr as ([h0 r0] & Hloop & Hr).
  destruct (filter _ _) as [|id l] eqn:Hf; [|done]. injection Hr as <- <-.
  apply (key_sets_loop_ok _ _ [] _ heap) in Hloop as [[Hnd Hids Hnm] Hpre Hmade].
  - split.
    + constructor; [constructor|done|done]; cbn; [by rewrite sort_Strings_perm| |done].
      intros k. rewrite sort_Strings_perm. apply Hids.
    + intros k Hk. cbn. destruct (reg_at r0 !! k) eqn:Hl; [by eexists|]. exfalso.
      assert (k ∈ filter (λ id, reg_at r0 !! id = None) ([] ++ map TrimSpace ids)) as Hin
        by (by apply list_elem_of_filter). rewrite Hf in Hin. by apply elem_of_nil in Hin.
  - constructor; [constructor| |]; cbn; [constructor| | |done|].
    + intros k. rewrite lookup_empty, elem_of_nil. split; [done|by intros []].
    + intros k l. by rewrite lookup_empty.
    + intros k l. by rewrite lookup_empty.
Qed.

(** ** What the loop over the providers configures *)

Section configured.
Context `{Unicode} `{NetURL} `{MapOrderLaw}.

Definition spec_id (p : ProviderSpec) : string := TrimSpace (ps_ID p).

Definition configure_pairs (builder : Builder) (pairs : list (ProviderSpec * ProviderRuntime)) (c : Configured) : Configured :=
  foldl (λ c pr, configure builder pr.1 pr.2 c) c pairs.

Definition runs (builder : Builder) (pr : ProviderSpec * ProviderRuntime) : Prop := runtime builder (ps_Runtime pr.1) = Ok pr.2.

Lemma configure_all_spec builder index providers c c' :
  configure_all builder index providers c = Ok c' →
  ∃ pairs, map fst pairs = providers ∧ Forall (runs builder) pairs ∧ c' = configure_pairs builder pairs c.
Proof.
  revert index c. induction providers as [|p providers IH]; intros index c; cbn.
  { intros [= <-]. by exists []. }
  destruct (runtime builder _) as [r|] eqn:Hr; [|done]. intros (pairs & <- & Hall & ->)%IH.
  exists ((p, r) :: pairs). split; [done|]. split; [by constructor|done].
Qed.

Lemma configure_pairs_ids builder pairs c :
  map pv_ID (cf_Providers (configure_pairs builder pairs c)) = map pv_ID (cf_Providers c) ++ map (λ pr, spec_id pr.1) pairs ∧
  map ac_ProviderID (cf_Adapters (configure_pairs builder pairs c)) =
    map ac_ProviderID (cf_Adapters c) ++ map (λ pr, spec_id pr.1) pairs.
Proof.
  revert c. induction pairs as [|[p r] pairs IH]; intros c; cbn [map fst]; [by rewrite !app_nil_r|].
  change (configure_pairs builder ((p, r) :: pairs) c) with (configure_pairs builder pairs (configure builder p r c)).
  destruct (IH (configure builder p r c)) as [-> ->]. cbn. by rewrite !map_app, <-!app_assoc.
Qed.

(** The entries of one provider. *)
Definition configured_for (c : Configured) (p : ProviderSpec) (r : ProviderRuntime) : Prop :=
  cf_Breakers c !! spec_id p = Some (run_Breaker r) ∧ cf_Queues c !! spec_id p = Some (run_Queue r) ∧
  cf_Retries c !! spec_id p = Some (run_Retry r) ∧ cf_States c !! spec_id p = Some (providerStateIdentity p r).

Lemma configure_pairs_other builder pairs c k :
  k ∉ map (λ pr, spec_id pr.1) pairs →
  let c' := configure_pairs builder pairs c in
  cf_Breakers c' !! k = cf_Breakers c !! k ∧ cf_Queues c' !! k = cf_Queues c !! k ∧
  cf_Retries c' !! k = cf_Retries c !! k ∧ cf_States c' !! k = cf_States c !! k.
Proof.
  revert c. induction pairs as [|[p r] pairs IH]; intros c; [done|]. cbn [map fst]. rewrite not_elem_of_cons. intros [Hk Hks].
  cbn zeta. change (configure_pairs builder ((p, r) :: pairs) c) with (configure_pairs builder pairs (configure builder p r c)).
  destruct (IH (configure builder p r c) Hks) as (-> & -> & -> & ->). cbn.
  by rewrite !lookup_insert_ne by auto.
Qed.

Lemma configure_pairs_for builder pairs c p r :
  NoDup (map (λ pr, spec_id pr.1) pairs) → (p, r) ∈ pairs → configured_for (configure_pairs builder pairs c) p r.
Proof.
  revert c. induction pairs as [|[p0 r0] pairs IH]; intros c; [by intros _ ?%elem_of_nil|].
  cbn [map fst]. rewrite NoDup_cons. intros [Hk Hnd] [[= -> ->]|Hin]%elem_of_cons.
  - change (configure_pairs builder ((p0, r0) :: pairs) c) with (configure_pairs builder pairs (configure builder p0 r0 c)).
    destruct (configure_pairs_other builder pairs (configure builder p0 r0 c) (spec_id p0) Hk) as (H1' & H2' & H3' & H4').
    unfold configured_for. rewrite H1', H2', H3', H4'. cbn. unfold spec_id. by rewrite !lookup_insert_eq.
  - by apply (IH (configure builder p0 r0 c)).
Qed.

Lemma configure_pairs_states builder pairs c k :
  is_Some (cf_States (configure_pairs builder pairs c) !! k) ↔ is_Some (cf_States c !! k) ∨ k ∈ map (λ pr, spec_id pr.1) pairs.
Proof.
  revert c. induction pairs as [|[p r] pairs IH]; intros c; cbn [map fst].
  { rewrite elem_of_nil. cbn. tauto. }
  change (configure_pairs builder ((p, r) :: pairs) c) with (configure_pairs builder pairs (configure builder p r c)).
  rewrite IH, elem_of_cons. cbn. rewrite lookup_insert_is_Some. unfold spec_id.
  destruct (decide (TrimSpace (ps_ID p) = k)); intuition congruence.
Qed.

Lemma configure_pairs_keys builder pairs c :
  cf_KeySets (configure_pairs builder pairs c) =
  cf_KeySets c ++ concat (map (λ pr, key_set (spec_id pr.1) (ps_Keys pr.1)) pairs).
Proof.
  revert c. induction pairs as [|[p r] pairs IH]; intros c; cbn [map concat fst]; [by rewrite app_nil_r|].
  change (configure_pairs builder ((p, r) :: pairs) c) with (configure_pairs builder pairs (configure builder p r c)).
  rewrite IH. cbn. by rewrite <-app_assoc.
Qed.

Lemma runtime_ok_built builder spec r : runtime builder spec = Ok r → runtime_ok r.
Proof.
  unfold runtime. intros (b & _ & (q & _ & (t & _ & Hr)%result_bind_ok)%result_bind_ok)%result_bind_ok.
  by apply validated_runtime_ok in Hr as [-> ?].
Qed.

(** The providers of a router are those of its definition. *)
Lemma validateProviders_ids configured providers k :
  validateProviders configured = Ok providers → is_Some (providers !! k) → k ∈ map (λ p, TrimSpace (pv_ID p)) configured.
Proof.
  assert (∀ index c (acc : gmap string routeProvider),
    validateProviders_loop index c acc = Ok providers → is_Some (providers !! k) →
    is_Some (acc !! k) ∨ k ∈ map (λ p, TrimSpace (pv_ID p)) c) as Hgen.
  { intros index c. revert index. induction c as [|pv c IH]; intros index acc; cbn; [intros [= <-]; by left|].
    destruct (negb _); [done|]. destruct (negb _); [done|]. destruct (acc !! _); [done|].
    destruct (normalizeModels _ _); [|done]. destruct (normalizeCapabilities _ _ _ _); [|done].
    intros Hloop Hk. destruct (IH _ _ Hloop Hk) as [Hin|Hin]; [|right; by right].
    rewrite lookup_insert_is_Some in Hin. rewrite elem_of_cons.
    destruct (decide (TrimSpace (pv_ID pv) = k)); intuition. }
  intros Hv Hk. destruct configured as [|p c]; [done|].
  destruct (Hgen 0%nat (p :: c) ∅) as [[? Hx]|Hin]; [done|done| |done]. by rewrite lookup_empty in Hx.
Qed.

Lemma New_providers definition r k :
  New definition = Ok r → is_Some (rt_providers r !! k) → k ∈ map (λ p, TrimSpace (pv_ID p)) (def_Providers definition).
Proof.
  unfold New. intros (providers & Hp & (r0 & Hr & Hfin)%result_bind_ok)%result_bind_ok.
  destruct (_ && _); [done|]. injection Hfin as <-. intros Hk.
  assert (rt_providers r0 = providers) as Heq.
  { assert (∀ rules i r1 r2, New_loop i rules r1 = Ok r2 → rt_providers r2 = rt_providers r1) as Hl.
    { induction rules as [|rule rules IH]; intros i r1 r2; cbn; [by intros [= <-]|].
      repeat (case_match; try done); intros Hloop; by apply IH in Hloop. }
    by apply Hl in Hr. }
  rewrite Heq in Hk. by eapply validateProviders_ids.
Qed.
End configured.

(** ** What is built *)

Section built.
Context `{Unicode} `{NetURL} `{MapOrderLaw}.

(** The parts of a build that answered a snapshot. *)
Record built (builder : Builder) (document : RuntimeDocument) (previous : option Snapshot) (w : World)
    (snapshot : Snapshot) (w' : World) := {
  bt_pairs : list (ProviderSpec * ProviderRuntime);
  bt_c : Configured;
  bt_routes : Router;
  bt_adapters : AdapterRegistry;
  bt_breakers : BreakerRegistry;
  bt_queues : QueueRegistry;
  bt_retries : RetryRegistry;
  bt_keys : option ProviderKeyRegistry;
  bt_fst : map fst bt_pairs = rd_Providers document;
  bt_runs : Forall (runs builder) bt_pairs;
  bt_configured : bt_c = configure_pairs builder bt_pairs nothing_configured;
  bt_router : New {| def_Providers := cf_Providers bt_c; def_Rules := map rule_of (rd_Routes document) |} = Ok bt_routes;
  bt_registry : NewAdapterRegistry (cf_Adapters bt_c) = Ok bt_adapters;
  bt_breakers_new : NewBreakerRegistryWithConfigs (map pv_ID (cf_Providers bt_c)) (cf_Breakers bt_c) (w_breakers w) =
    Ok (w_breakers w', bt_breakers);
  bt_queues_new : NewQueueRegistryWithConfigs (map pv_ID (cf_Providers bt_c)) (cf_Queues bt_c) (w_queues w) =
    Ok (w_queues w', bt_queues);
  bt_retries_new : NewRetryRegistry (map pv_ID (cf_Providers bt_c)) (cf_Retries bt_c) = Ok bt_retries;
  bt_keys_new : build_key_registry bt_adapters (cf_KeySets bt_c) (w_keys w) = Ok (w_keys w', bt_keys);
  bt_reused : Registries;
  bt_reuse : bt_reused = reuseProviderStates (cf_States bt_c) previous w'
    {| rg_breakers := Some bt_breakers; rg_queues := Some bt_queues; rg_keys := bt_keys |};
  bt_snapshot : ∃ s, NewSnapshot (Some bt_adapters) (Some bt_routes) (rg_breakers bt_reused) (rg_queues bt_reused)
      (rg_keys bt_reused) (Some (registry_policies bt_retries)) = Ok s ∧ snapshot = with_states s (cf_States bt_c);
}.

Lemma lift_error_ok {E E' A} (f : E → E') (r : result E A) a : lift_error f r = Ok a ↔ r = Ok a.
Proof. destruct r; cbn; split; congruence. Qed.

Lemma build_built builder document previous w snapshot w' :
  build builder document previous w = Ok (snapshot, w') → inhabited (built builder document previous w snapshot w').
Proof.
  unfold build. destruct (document_error document); [done|].
  intros (c & Hc & (routes & Hr%lift_error_ok & ([[[adapters retries] registries] w1] & Hreg & Hs)%result_bind_ok)%result_bind_ok)%result_bind_ok.
  apply configure_all_spec in Hc as (pairs & Hfst & Hruns & Hcp).
  unfold build_registries in Hreg.
  apply result_bind_ok in Hreg as (adapters' & Ha%lift_error_ok & Hreg).
  apply result_bind_ok in Hreg as ([bh breakers] & Hb%lift_error_ok & Hreg).
  apply result_bind_ok in Hreg as ([qh queues] & Hq%lift_error_ok & Hreg).
  apply result_bind_ok in Hreg as (retries' & Ht%lift_error_ok & Hreg).
  apply result_bind_ok in Hreg as ([kh keys] & Hk & Hreg). injection Hreg as -> -> <- <-.
  apply result_bind_ok in Hs as (s & Hs%lift_error_ok & [= <- <-]).
  econstructor. by eapply (Build_built _ _ _ _ _ _ pairs c routes adapters breakers queues retries keys);
    [..|eexists; split; [exact Hs|done]].
Qed.

Lemma reuse_components states previous w r :
  let r' := foldl (λ r entry, reuse_one previous w entry r) r states in
  let want f := λ (k : string) (a : ProviderStateIdentity), match sn_ProviderStates previous !! k with Some e => f a e | None => false end in
  rg_breakers r' = foldl (reuse_if same_breaker_config (w_breakers w) (sn_Breakers previous)
                            (want (λ a e, (psi_Breaker a =? psi_Breaker e)%string))) (rg_breakers r) states ∧
  rg_queues r' = foldl (reuse_if same_queue_config (w_queues w) (sn_Queues previous)
                          (want (λ a e, (psi_Queue a =? psi_Queue e)%string))) (rg_queues r) states ∧
  rg_keys r' = foldl (reuse_if sameProviderKeys (w_keys w) (sn_Keys previous)
                        (want (λ a e, negb (psi_Keys a =? "")%string && (psi_Keys a =? psi_Keys e)%string))) (rg_keys r) states.
Proof.
  cbv zeta. revert r. induction states as [|[k a] states IH]; intros r; [done|]. cbn [foldl].
  destruct (IH (reuse_one previous w (k, a) r)) as (-> & -> & ->).
  unfold reuse_one, reuse_if. cbn [fst snd]. by destruct (sn_ProviderStates previous !! k).
Qed.
End built.

(** The registries of a snapshot are sound: every entry names an instance of its provider
    in the heaps. *)
Record snapshot_sound (s : Snapshot) (w : World) : Prop := {
  ss_breakers : ∀ r, sn_Breakers s = Some r → registry_wf br_providerID (w_breakers w) r;
  ss_queues : ∀ r, sn_Queues s = Some r → registry_wf q_providerID (w_queues w) r;
  ss_keys : ∀ r, sn_Keys s = Some r → registry_wf ks_providerID (w_keys w) r;
}.

(** Building only adds instances. *)
Record world_grows (w w' : World) : Prop := {
  wg_breakers : w_breakers w `prefix_of` w_breakers w';
  wg_queues : w_queues w `prefix_of` w_queues w';
  wg_keys : w_keys w `prefix_of` w_keys w';
}.

Lemma snapshot_sound_grows s w w' : world_grows w w' → snapshot_sound s w → snapshot_sound s w'.
Proof. intros [H1 H2 H3] [S1 S2 S3]. constructor; intros r Hr; eapply registry_wf_mono; eauto. Qed.

Section facts.
Context `{Unicode} `{NetURL} `{MapOrderLaw}.
Context {builder : Builder} {document : RuntimeDocument} {previous : option Snapshot} {w w' : World} {snapshot : Snapshot}.
Context (B : built builder document previous w snapshot w').
Context (Hprev : ∀ p, previous = Some p → snapshot_sound p w).

Abbreviation c := (bt_c _ _ _ _ _ _ B).
Abbreviation pairs := (bt_pairs _ _ _ _ _ _ B).

Lemma built_ids :
  map TrimSpace (map pv_ID (cf_Providers c)) = map spec_id (rd_Providers document) ∧
  adapter_ids (cf_Adapters c) = map spec_id (rd_Providers document) ∧
  map (λ p, TrimSpace (pv_ID p)) (cf_Providers c) = map spec_id (rd_Providers document).
Proof.
  rewrite (bt_configured _ _ _ _ _ _ B), <-(bt_fst _ _ _ _ _ _ B).
  destruct (configure_pairs_ids builder pairs nothing_configured) as [H1' H2']. cbn [nothing_configured cf_Providers cf_Adapters map app] in H1', H2'.
  assert (map TrimSpace (map (λ pr : ProviderSpec * ProviderRuntime, spec_id pr.1) pairs) = map spec_id (map fst pairs)) as Ht.
  { rewrite !map_map. apply map_ext. intros pr. unfold spec_id. apply TrimSpace_idem. }
  split_and!.
  - by rewrite H1', Ht.
  - unfold adapter_ids. rewrite <-(map_map ac_ProviderID TrimSpace). by rewrite H2', Ht.
  - rewrite <-(map_map pv_ID TrimSpace). by rewrite H1', Ht.
Qed.

Lemma built_adapters_ok : adapters_ok (cf_Adapters c) (ar_adapters (bt_adapters _ _ _ _ _ _ B)).
Proof. apply (NewAdapterRegistry_spec _ _ (bt_registry _ _ _ _ _ _ B)). Qed.

Lemma built_nodup : NoDup (map spec_id (rd_Providers document)).
Proof. destruct built_ids as (_ & <- & _). apply built_adapters_ok. Qed.

Lemma built_for p r : (p, r) ∈ pairs → configured_for c p r.
Proof.
  intros Hin. rewrite (bt_configured _ _ _ _ _ _ B). apply configure_pairs_for; [|done].
  pose proof built_nodup as Hnd. rewrite <-(bt_fst _ _ _ _ _ _ B), map_map in Hnd. exact Hnd.
Qed.

Lemma built_pair p : p ∈ rd_Providers document → ∃ r, (p, r) ∈ pairs ∧ runtime builder (ps_Runtime p) = Ok r.
Proof.
  rewrite <-(bt_fst _ _ _ _ _ _ B). intros ([p' r] & -> & Hin)%list_elem_of_fmap. exists r. split; [done|].
  pose proof (bt_runs _ _ _ _ _ _ B) as Hr. rewrite Forall_forall in Hr. apply (Hr _ Hin).
Qed.

Lemma built_breakers : 
  let r := bt_breakers _ _ _ _ _ _ B in
  registry_wf br_providerID (w_breakers w') r ∧ allocated NewBreaker (cf_Breakers c) (w_breakers w) (w_breakers w') r ∧
  w_breakers w `prefix_of` w_breakers w' ∧ ∀ k, k ∈ reg_ids r ↔ k ∈ map spec_id (rd_Providers document).
Proof.
  cbv zeta. destruct built_ids as (Hids & _). rewrite <-Hids.
  destruct (new_registry_spec NewBreaker _ _ _ _ br_providerID NewBreaker_named _ _ _ _ _ (bt_breakers_new _ _ _ _ _ _ B))
    as (? & _ & ? & ? & ? & _). done.
Qed.

Lemma built_queues : 
  let r := bt_queues _ _ _ _ _ _ B in
  registry_wf q_providerID (w_queues w') r ∧ allocated NewProviderQueue (cf_Queues c) (w_queues w) (w_queues w') r ∧
  w_queues w `prefix_of` w_queues w' ∧ ∀ k, k ∈ reg_ids r ↔ k ∈ map spec_id (rd_Providers document).
Proof.
  cbv zeta. destruct built_ids as (Hids & _). rewrite <-Hids.
  destruct (new_registry_spec NewProviderQueue _ _ _ _ q_providerID NewProviderQueue_named _ _ _ _ _ (bt_queues_new _ _ _ _ _ _ B))
    as (? & _ & ? & ? & ? & _). done.
Qed.

Lemma built_keys :
  w_keys w `prefix_of` w_keys w' ∧
  (∀ r, bt_keys _ _ _ _ _ _ B = Some r → key_registry_ok (cf_KeySets c) (w_keys w) (w_keys w') r) ∧
  ∀ k a, ar_adapters (bt_adapters _ _ _ _ _ _ B) !! k = Some a → adapter_Authentication a = AuthenticationAPIKey →
    ∃ r, bt_keys _ _ _ _ _ _ B = Some r ∧ is_Some (reg_at r !! k).
Proof.
  pose proof (bt_keys_new _ _ _ _ _ _ B) as Hk. unfold build_key_registry in Hk.
  destruct (NewAdapterRegistry_spec _ _ (bt_registry _ _ _ _ _ _ B)) as (Hok & _ & _ & Hids).
  assert (∀ k a, ar_adapters (bt_adapters _ _ _ _ _ _ B) !! k = Some a → adapter_Authentication a = AuthenticationAPIKey →
    k ∈ registry_KeyedProviderIDs (Some (bt_adapters _ _ _ _ _ _ B)) ∧ trimmed k) as Hin.
  { intros k a Ha Hauth. split.
    - apply registry_keyed_spec; [|by eauto]. intros j. by rewrite Hids, (ak_ids _ _ Hok).
    - apply (ak_keys _ _ Hok k). by eexists. }
  destruct (registry_KeyedProviderIDs _) as [|id ids] eqn:He.
  - injection Hk as -> <-. split; [done|]. split; [done|]. intros k a Ha Hauth.
    destruct (Hin k a Ha Hauth) as [Hn _]. by apply elem_of_nil in Hn.
  - apply result_bind_ok in Hk as ([heap keys] & Hnew%lift_error_ok & [= <- <-]).
    apply newProviderKeyRegistry_spec in Hnew as [Hkr Hall]. split; [apply Hkr|]. split; [by intros r [= <-]|].
    intros k a Ha Hauth. destruct (Hin k a Ha Hauth) as [Hn Ht]. exists keys. split; [done|].
    apply Hall. unfold trimmed in Ht. rewrite <-Ht. by apply list_elem_of_fmap_2.
Qed.

Lemma built_grows : world_grows w w'.
Proof. constructor; [apply built_breakers|apply built_queues|apply built_keys]. Qed.

(** The entries the states are kept for: one for each provider, in the order of the map. *)
Lemma built_entries :
  let entries := map_order (cf_States c) in
  NoDup entries.*1 ∧ Forall trimmed entries.*1 ∧ ∀ k a, (k, a) ∈ entries ↔ cf_States c !! k = Some a.
Proof.
  cbv zeta. pose proof (map_order_perm _ (cf_States c)) as Hp. split_and!.
  - rewrite Hp. apply NoDup_fst_map_to_list.
  - rewrite Forall_forall. intros k Hk. rewrite Hp in Hk. apply list_elem_of_fmap in Hk as ([k' a] & -> & Hin).
    apply elem_of_map_to_list in Hin.
    assert (is_Some (cf_States c !! k')) as Hs by by eexists.
    rewrite (bt_configured _ _ _ _ _ _ B), configure_pairs_states in Hs. cbn in Hs. rewrite lookup_empty in Hs.
    destruct Hs as [[? [=]]|Hs]. apply list_elem_of_fmap in Hs as (pr & -> & _). apply trimmed_TrimSpace.
  - intros k a. rewrite Hp. apply elem_of_map_to_list.
Qed.
End facts.

(** ** Completeness of what is built *)

Lemma reused_wf {Obj A} (same : Obj → Obj → bool) (name_of : Obj → string) (heap : list Obj) (prev : option RegistryOf)
    (want : string → A → bool) entries r :
  registry_wf name_of heap r → (∀ p, prev = Some p → registry_wf name_of heap p) →
  NoDup entries.*1 → Forall trimmed entries.*1 →
  ∃ r', foldl (reuse_if same heap prev want) (Some r) entries = Some r' ∧ registry_wf name_of heap r' ∧
    reg_ids r' = reg_ids r ∧
    ∀ k a, (k, a) ∈ entries → reg_at r' !! k = kept_location same heap prev want k a <$> reg_at r !! k.
Proof.
  intros Hr Hp Hnd Ht. destruct (reuse_all_spec same heap prev want entries r Hnd Ht) as (r' & Hr' & Hids & Hout & Hin).
  exists r'. split; [done|]. split; [|done].
  assert (∀ k, k ∉ entries.*1 ∨ ∃ a, (k, a) ∈ entries) as Hcase.
  { intros k. destruct (decide (k ∈ entries.*1)) as [Hk|]; [right|by left].
    apply list_elem_of_fmap in Hk as ([k' a] & -> & Hk). by exists a. }
  constructor.
  - rewrite Hids. apply Hr.
  - intros k. rewrite Hids, (rwf_ids _ _ _ Hr). destruct (Hcase k) as [Hk|[a Hk]].
    + by rewrite (Hout k Hk).
    + rewrite (Hin k a Hk). by rewrite fmap_is_Some.
  - intros k l. destruct (Hcase k) as [Hk|[a Hk]].
    + rewrite (Hout k Hk). apply Hr.
    + rewrite (Hin k a Hk). intros (l0 & Hl0 & ->)%fmap_Some. by eapply (kept_location_named same heap prev want name_of).
Qed.

(** Whether the identity of a provider was the same in the previous snapshot. *)
Definition same_state (same : ProviderStateIdentity → ProviderStateIdentity → bool) (p : Snapshot) (k : string)
    (a : ProviderStateIdentity) : bool :=
  match sn_ProviderStates p !! k with Some e => same a e | None => false end.
Definition same_breaker_state (a e : ProviderStateIdentity) : bool := (psi_Breaker a =? psi_Breaker e)%string.
Definition same_queue_state (a e : ProviderStateIdentity) : bool := (psi_Queue a =? psi_Queue e)%string.
Definition same_keys_state (a e : ProviderStateIdentity) : bool :=
  negb (psi_Keys a =? "")%string && (psi_Keys a =? psi_Keys e)%string.

(** The location of the instance a provider gets: that of the previous snapshot if its
    state is kept, else the new one. *)
Definition location {Obj} (same : Obj → Obj → bool) (heap : list Obj) (part : Snapshot → option RegistryOf)
    (same_id : ProviderStateIdentity → ProviderStateIdentity → bool) (previous : option Snapshot) (k : string)
    (a : ProviderStateIdentity) (l : nat) : nat :=
  match previous with
  | None => l
  | Some p => kept_location same heap (part p) (same_state same_id p) k a l
  end.

Section complete.
Context `{Unicode} `{NetURL} `{MapOrderLaw}.
Context {builder : Builder} {document : RuntimeDocument} {previous : option Snapshot} {w w' : World} {snapshot : Snapshot}.
Context (B : built builder document previous w snapshot w').
Context (Hprev : ∀ p, previous = Some p → snapshot_sound p w).

Abbreviation c := (bt_c _ _ _ _ _ _ B).
Abbreviation reused := (bt_reused _ _ _ _ _ _ B).

Lemma previous_sound p : previous = Some p → snapshot_sound p w'.
Proof. intros Hp. eapply snapshot_sound_grows; [by eapply built_grows|]. by apply Hprev. Qed.

(** One registry after the reuse. *)
Lemma reused_registry {Obj} (same : Obj → Obj → bool) (name_of : Obj → string) (heap : list Obj)
    (part : Snapshot → option RegistryOf) same_id r final :
  registry_wf name_of heap r →
  (∀ p q, previous = Some p → part p = Some q → registry_wf name_of heap q) →
  final = match previous with
          | None => Some r
          | Some p => foldl (reuse_if same heap (part p) (same_state same_id p)) (Some r) (map_order (cf_States c))
          end →
  ∃ r', final = Some r' ∧ registry_wf name_of heap r' ∧ reg_ids r' = reg_ids r ∧
    ∀ k a, cf_States c !! k = Some a → reg_at r' !! k = location same heap part same_id previous k a <$> reg_at r !! k.
Proof.
  intros Hr Hp ->. unfold location. destruct previous as [p|].
  - destruct (built_entries B) as (Hnd & Ht & Hin).
    destruct (reused_wf same name_of heap (part p) (same_state same_id p) _ r Hr (λ q, Hp p q eq_refl) Hnd Ht)
      as (r' & -> & Hwf & Hids & Hat).
    exists r'. split_and!; try done. intros k a Ha. apply Hat. by apply Hin.
  - exists r. split_and!; try done. intros k a _. by destruct (reg_at r !! k).
Qed.

Lemma reused_breakers :
  ∃ r, rg_breakers reused = Some r ∧ registry_wf br_providerID (w_breakers w') r ∧
    reg_ids r = reg_ids (bt_breakers _ _ _ _ _ _ B) ∧
    ∀ k a, cf_States c !! k = Some a →
      reg_at r !! k = location same_breaker_config (w_breakers w') sn_Breakers same_breaker_state previous k a <$>
                      reg_at (bt_breakers _ _ _ _ _ _ B) !! k.
Proof.
  apply reused_registry; [apply built_breakers|by intros p q Hp Hq; apply (ss_breakers _ _ (previous_sound p Hp))|].
  rewrite (bt_reuse _ _ _ _ _ _ B). unfold reuseProviderStates. destruct previous as [p|]; [|done].
  by destruct (reuse_components (map_order (cf_States c)) p w' {| rg_breakers := Some (bt_breakers _ _ _ _ _ _ B);
    rg_queues := Some (bt_queues _ _ _ _ _ _ B); rg_keys := bt_keys _ _ _ _ _ _ B |}) as (Hb & _).
Qed.

Lemma reused_queues :
  ∃ r, rg_queues reused = Some r ∧ registry_wf q_providerID (w_queues w') r ∧
    reg_ids r = reg_ids (bt_queues _ _ _ _ _ _ B) ∧
    ∀ k a, cf_States c !! k = Some a →
      reg_at r !! k = location same_queue_config (w_queues w') sn_Queues same_queue_state previous k a <$>
                      reg_at (bt_queues _ _ _ _ _ _ B) !! k.
Proof.
  apply reused_registry; [apply built_queues|by intros p q Hp Hq; apply (ss_queues _ _ (previous_sound p Hp))|].
  rewrite (bt_reuse _ _ _ _ _ _ B). unfold reuseProviderStates. destruct previous as [p|]; [|done].
  by destruct (reuse_components (map_order (cf_States c)) p w' {| rg_breakers := Some (bt_breakers _ _ _ _ _ _ B);
    rg_queues := Some (bt_queues _ _ _ _ _ _ B); rg_keys := bt_keys _ _ _ _ _ _ B |}) as (_ & Hq & _).
Qed.

Lemma reused_keys r0 :
  bt_keys _ _ _ _ _ _ B = Some r0 →
  ∃ r, rg_keys reused = Some r ∧ registry_wf ks_providerID (w_keys w') r ∧ reg_ids r = reg_ids r0 ∧
    ∀ k a, cf_States c !! k = Some a →
      reg_at r !! k = location sameProviderKeys (w_keys w') sn_Keys same_keys_state previous k a <$> reg_at r0 !! k.
Proof.
  intros Hr0. destruct (built_keys B) as (_ & Hok & _).
  apply reused_registry; [apply (kr_wf _ _ _ _ (Hok r0 Hr0))|by intros p q Hp Hq; apply (ss_keys _ _ (previous_sound p Hp))|].
  rewrite (bt_reuse _ _ _ _ _ _ B). unfold reuseProviderStates. destruct previous as [p|]; [|done].
  by destruct (reuse_components (map_order (cf_States c)) p w' {| rg_breakers := Some (bt_breakers _ _ _ _ _ _ B);
    rg_queues := Some (bt_queues _ _ _ _ _ _ B); rg_keys := bt_keys _ _ _ _ _ _ B |}) as (_ & _ & ->); cbn; rewrite Hr0.
Qed.

Lemma reused_no_keys : bt_keys _ _ _ _ _ _ B = None → rg_keys reused = None.
Proof.
  intros Hn. rewrite (bt_reuse _ _ _ _ _ _ B). unfold reuseProviderStates. destruct previous as [p|]; [|done].
  destruct (reuse_components (map_order (cf_States c)) p w' {| rg_breakers := Some (bt_breakers _ _ _ _ _ _ B);
    rg_queues := Some (bt_queues _ _ _ _ _ _ B); rg_keys := bt_keys _ _ _ _ _ _ B |}) as (_ & _ & ->). cbn. rewrite Hn.
  apply reuse_none.
Qed.

Lemma built_sound : snapshot_sound snapshot w'.
Proof.
  destruct (bt_snapshot _ _ _ _ _ _ B) as (s & (_ & _ & Hb & Hq & Hk & _)%NewSnapshot_ok & ->).
  destruct reused_breakers as (rb & Hrb & Hwb & _). destruct reused_queues as (rq & Hrq & Hwq & _).
  constructor; cbn; intros r; rewrite ?Hb, ?Hq, ?Hk.
  - rewrite Hrb. by intros [= <-].
  - rewrite Hrq. by intros [= <-].
  - destruct (bt_keys _ _ _ _ _ _ B) as [r0|] eqn:Hr0.
    + destruct (reused_keys r0 Hr0) as (r' & -> & ? & _). by intros [= <-].
    + by rewrite reused_no_keys.
Qed.
End complete.

(** The instance of a provider in the previous snapshot whose state is kept: the provider
    was there, with the same identity, and the instance is configured like the new
    one. *)
Definition kept_from {Obj} (same : Obj → Obj → bool) (heap : list Obj) (part : Snapshot → option RegistryOf)
    (same_id : ProviderStateIdentity → ProviderStateIdentity → bool) (previous : option Snapshot) (k : string)
    (a : ProviderStateIdentity) (new : Obj) (l : nat) (o : Obj) : Prop :=
  ∃ p e reg, previous = Some p ∧ sn_ProviderStates p !! k = Some e ∧ same_id a e = true ∧ part p = Some reg ∧
    reg_at reg !! k = Some l ∧ heap !! l = Some o ∧ same new o = true.

Lemma location_cases {Obj} (same : Obj → Obj → bool) (heap : list Obj) part same_id previous k a l new :
  heap !! l = Some new →
  let l' := location same heap part same_id previous k a l in
  (∃ o, kept_from same heap part same_id previous k a new l' o) ∨
  (l' = l ∧ ∀ l2 o2, ¬ kept_from same heap part same_id previous k a new l2 o2).
Proof.
  intros Hl. cbv zeta. unfold location, kept_from. destruct previous as [p|].
  2: { right. split; [done|]. by intros l2 o2 (? & ? & ? & [=] & _). }
  unfold kept_location, same_state. destruct (sn_ProviderStates p !! k) as [e|] eqn:He.
  2: { right. split; [done|]. intros l2 o2 (? & ? & ? & [= <-] & Hs & _). congruence. }
  destruct (same_id a e) eqn:Hsame.
  2: { right. split; [done|]. intros l2 o2 (? & ? & ? & [= <-] & Hs & Hid & _). congruence. }
  destruct (part p) as [reg|] eqn:Hreg; cbn.
  2: { right. split; [done|]. intros l2 o2 (? & ? & ? & [= <-] & _ & _ & Hr & _). congruence. }
  destruct (reg_at reg !! k) as [le|] eqn:Hle.
  2: { right. split; [done|]. intros l2 o2 (? & ? & ? & [= <-] & _ & _ & Hr & Ha & _). congruence. }
  rewrite Hl. destruct (heap !! le) as [o|] eqn:Ho.
  2: { right. split; [done|]. intros l2 o2 (? & ? & ? & [= <-] & _ & _ & Hr & Ha & Hh & _). congruence. }
  destruct (same new o) eqn:Hs.
  - left. exists o, p, e, reg. done.
  - right. split; [done|]. intros l2 o2 (? & ? & ? & [= <-] & _ & _ & Hr & Ha & Hh & Hs'). congruence.
Qed.

(** The instance a provider gets: that of the previous snapshot, in the state it is in, or
    a new one when there is none to keep. *)
Definition instance_for {Obj Config E} (make : string → Config → result E Obj) (same : Obj → Obj → bool)
    (heap0 heap : list Obj) part same_id (previous : option Snapshot) (k : string) (a : ProviderStateIdentity)
    (config : Config) (l : nat) (o : Obj) : Prop :=
  ∃ new, make k config = Ok new ∧
    (kept_from same heap part same_id previous k a new l o ∨
     (length heap0 ≤ l)%nat ∧ o = new ∧ ∀ l o, ¬ kept_from same heap part same_id previous k a new l o).

Lemma location_instance {Obj Config E} (make : string → Config → result E Obj) same heap0 heap part same_id previous k a config l new :
  heap !! l = Some new → make k config = Ok new → (length heap0 ≤ l)%nat →
  ∃ o, heap !! location same heap part same_id previous k a l = Some o ∧
    instance_for make same heap0 heap part same_id previous k a config (location same heap part same_id previous k a l) o.
Proof.
  intros Hl Hmake Hfresh. destruct (location_cases same heap part same_id previous k a l new Hl) as [(o & Hk)|(Hl' & Hno)].
  - exists o. split; [by destruct Hk as (? & ? & ? & _ & _ & _ & _ & _ & ? & _)|]. exists new. split; [done|]. by left.
  - rewrite Hl'. exists new. split; [done|]. exists new. split; [done|]. by right.
Qed.

(** What the orchestrator of a snapshot needs of a provider: an adapter, a circuit
    breaker, a queue, a valid retry policy, and keys when the adapter authenticates. *)
Definition serves (s : Snapshot) (w : World) (id : string) : Prop :=
  ∃ chat adapter breaker queue policy,
    sn_Chat s = Some chat ∧
    let ex := orc_attempts chat in
    ex_adapters ex !! TrimSpace id = Some adapter ∧
    breaker_at (w_breakers w) (Some (ex_breakers ex)) id = Some breaker ∧
    queue_at (w_queues w) (ex_queues ex) id = Some queue ∧
    rps_ForProvider (ex_retries ex) id = Some policy ∧ RetryConfig_Validate policy = None ∧
    (ad_Authentication adapter = AuthenticationAPIKey →
     ∃ keys l selector, ex_keys ex = Some keys ∧ reg_at keys !! TrimSpace id = Some l ∧
       w_keys w !! l = Some selector ∧ ks_providerID selector = TrimSpace id).

Section theorems.
Context `{Unicode} `{NetURL} `{MapOrderLaw}.

Lemma built_serves builder document previous w snapshot w' (B : built builder document previous w snapshot w') id :
  (∀ p, previous = Some p → snapshot_sound p w) → trimmed id → id ∈ map spec_id (rd_Providers document) →
  serves snapshot w' id.
Proof.
  intros Hprev Ht Hid. unfold trimmed in Ht.
  destruct (bt_snapshot _ _ _ _ _ _ B) as (s & (_ & _ & Hb & Hq & Hk & chat & Hchat & Heb & Heq & Hek & Her & _ & Hea)%NewSnapshot_ok & ->).
  destruct (reused_breakers B Hprev) as (rb & Hrb & Hwb & Hidb & _).
  destruct (reused_queues B Hprev) as (rq & Hrq & Hwq & Hidq & _).
  destruct (built_breakers B) as (_ & _ & _ & Hinb). destruct (built_queues B) as (_ & _ & _ & Hinq).
  rewrite Hrb in Heb. rewrite Hrq in Heq. injection Heb as Heb. injection Heq as Heq. injection Her as Her. injection Hea as Hea.
  pose proof Hid as Hida. destruct (built_ids B) as (Hpv & Hac & _). rewrite <-Hac in Hida.
  rewrite <-(ak_ids _ _ (built_adapters_ok B)) in Hida. destruct Hida as [a Ha].
  assert (is_Some (reg_at rb !! id)) as [lb Hlb] by (apply (rwf_ids _ _ _ Hwb); rewrite Hidb; by apply Hinb).
  assert (is_Some (reg_at rq !! id)) as [lq Hlq] by (apply (rwf_ids _ _ _ Hwq); rewrite Hidq; by apply Hinq).
  destruct (rwf_named _ _ _ Hwb _ _ Hlb) as (b & Hlb' & _). destruct (rwf_named _ _ _ Hwq _ _ Hlq) as (q & Hlq' & _).
  destruct (retry_registry_spec _ _ _ (bt_retries_new _ _ _ _ _ _ B)) as (Hpol & Hpolid & _).
  assert (is_Some (ForProvider (Some (bt_retries _ _ _ _ _ _ B)) id)) as [policy Hpo] by (apply Hpolid; by rewrite Hpv, Ht).
  exists chat, (adapter_view a), (lb, b), (lq, q), policy. split; [done|]. cbv zeta. rewrite Heb, Heq, Her, Hea, Hek. split_and!.
  - unfold chat_adapters. by rewrite Ht, lookup_fmap, Ha.
  - unfold breaker_at. cbn. rewrite Ht, Hlb. cbn. by rewrite Hlb'.
  - unfold queue_at. rewrite Ht, Hlq. cbn. by rewrite Hlq'.
  - done.
  - by apply (Hpol id policy).
  - cbn. intros Hauth. destruct (built_keys B) as (_ & _ & Hkeys). destruct (Hkeys id a Ha Hauth) as (r0 & Hr0 & Hsome).
    destruct (reused_keys B Hprev r0 Hr0) as (rk & Hrk & Hwk & Hidk & _).
    assert (is_Some (reg_at rk !! id)) as [lk Hlk].
    { destruct (built_keys B) as (_ & Hkr & _). apply (rwf_ids _ _ _ Hwk). rewrite Hidk.
      by apply (rwf_ids _ _ _ (kr_wf _ _ _ _ (Hkr r0 Hr0))). }
    destruct (rwf_named _ _ _ Hwk _ _ Hlk) as (sel & Hsel & Hname).
    exists rk, lk, sel. rewrite Ht. split_and!; [by rewrite Hrk|done|done|done].
Qed.

(** C18: what is built is complete. A snapshot that is built has a router and an orchestrator,
    its registries name instances of their providers, and the instances of running snapshots
    stay where they are; and for every plan its router makes, each candidate finds what an
    attempt needs: adapter, circuit breaker, queue, a valid retry policy and, if it
    authenticates, keys. So no attempt fails for a provider the snapshot does not know. *)
Theorem build_complete builder document previous w snapshot w' :
  build builder document previous w = Ok (snapshot, w') → (∀ p, previous = Some p → snapshot_sound p w) →
  snapshot_complete (Some snapshot) = true ∧ snapshot_sound snapshot w' ∧ world_grows w w' ∧
  ∀ routes model required plan candidate, sn_Routes snapshot = Some routes →
    Router_Plan routes model required = Ok plan → candidate ∈ plan_Candidates plan →
    serves snapshot w' (cd_ProviderID candidate).
Proof.
  intros [B]%build_built Hprev. split_and!.
  - by destruct (bt_snapshot _ _ _ _ _ _ B) as (s & (? & _)%NewSnapshot_ok & ->).
  - by apply (built_sound B).
  - apply (built_grows B).
  - intros routes model required plan candidate Hroutes Hplan Hin.
    destruct (bt_snapshot _ _ _ _ _ _ B) as (s & (_ & Hr & _)%NewSnapshot_ok & Hs). rewrite Hs in Hroutes. cbn in Hroutes.
    rewrite Hr in Hroutes. injection Hroutes as <-.
    destruct (plan_candidates_usable _ _ _ _ _ _ (bt_router _ _ _ _ _ _ B) Hplan Hin) as (_ & pv & target & Hpv & _).
    assert (cd_ProviderID candidate ∈ map spec_id (rd_Providers document)) as Hid.
    { destruct (built_ids B) as (_ & _ & <-). apply (New_providers _ _ _ (bt_router _ _ _ _ _ _ B)). by eexists. }
    apply (built_serves _ _ _ _ _ _ B); [done| |done].
    apply list_elem_of_fmap in Hid as (p & -> & _). apply trimmed_TrimSpace.
Qed.

(** The keys of a provider come from its own settings. *)
Lemma built_key_set builder document previous w snapshot w' (B : built builder document previous w snapshot w') p set :
  p ∈ rd_Providers document → set ∈ cf_KeySets (bt_c _ _ _ _ _ _ B) → TrimSpace (pks_ProviderID set) = spec_id p →
  set ∈ key_set (spec_id p) (ps_Keys p).
Proof.
  intros Hp Hset Hid. rewrite (bt_configured _ _ _ _ _ _ B), configure_pairs_keys in Hset. cbn [nothing_configured cf_KeySets app] in Hset.
  apply list_elem_of_In, in_concat in Hset as (sets & Hsets & Hset).
  apply list_elem_of_In, list_elem_of_fmap in Hsets as ([p' r'] & -> & Hin'). apply list_elem_of_In in Hset. cbn [fst] in Hset.
  assert (p' ∈ rd_Providers document) as Hp' by (rewrite <-(bt_fst _ _ _ _ _ _ B); apply list_elem_of_fmap; by exists (p', r')).
  assert (spec_id p' = spec_id p) as Heq.
  { rewrite <-Hid. unfold key_set in Hset. destruct (ps_Keys p'); [by apply elem_of_nil in Hset|].
    apply list_elem_of_singleton in Hset as ->. exact (eq_sym (TrimSpace_idem (ps_ID p'))). }
  assert (p' = p) as <-; [|done].
  pose proof (built_nodup B) as Hnd. apply list_elem_of_lookup in Hp as [i Hi]. apply list_elem_of_lookup in Hp' as [j Hj].
  assert (i = j) as <-; [|congruence]. eapply (NoDup_lookup _ i j (spec_id p) Hnd); rewrite list_lookup_fmap; [by rewrite Hi|by rewrite Hj, <-Heq].
Qed.

(** C19: reconfiguring keeps the state of what stays as it was. For every provider of the
    document the snapshot holds a circuit breaker, a queue and, where there are keys, a key
    selector; each is the instance of the previous snapshot, in the state it is in, if that
    had the provider with the same fingerprint and configuration; otherwise it is new. *)
Theorem build_keeps_state builder document previous w snapshot w' p :
  build builder document previous w = Ok (snapshot, w') → (∀ s, previous = Some s → snapshot_sound s w) →
  p ∈ rd_Providers document →
  ∃ r, runtime builder (ps_Runtime p) = Ok r ∧
    let id := spec_id p in
    let a := providerStateIdentity p r in
    (∃ lb b, breaker_at (w_breakers w') (sn_Breakers snapshot) id = Some (lb, b) ∧
       instance_for NewBreaker same_breaker_config (w_breakers w) (w_breakers w') sn_Breakers same_breaker_state previous id a
         (run_Breaker r) lb b) ∧
    (∃ reg lq q, sn_Queues snapshot = Some reg ∧ queue_at (w_queues w') reg id = Some (lq, q) ∧
       instance_for NewProviderQueue same_queue_config (w_queues w) (w_queues w') sn_Queues same_queue_state previous id a
         (run_Queue r) lq q) ∧
    ∀ reg lk, sn_Keys snapshot = Some reg → reg_at reg !! id = Some lk →
      ∃ set sel, set ∈ key_set id (ps_Keys p) ∧ w_keys w' !! lk = Some sel ∧
        instance_for newProviderKeySelector sameProviderKeys (w_keys w) (w_keys w') sn_Keys same_keys_state previous id a
          (pks_Keys set) lk sel.
Proof.
  intros [B]%build_built Hprev Hp. destruct (built_pair B p Hp) as (r & Hin & Hr).
  destruct (built_for B p r Hin) as (Hcb & Hcq & _ & Hst). exists r. split; [done|]. cbv zeta.
  destruct (bt_snapshot _ _ _ _ _ _ B) as (s & (_ & _ & Hb & Hq & Hk & _)%NewSnapshot_ok & ->). cbn [sn_Breakers sn_Queues sn_Keys with_states].
  assert (spec_id p ∈ map spec_id (rd_Providers document)) as Hid by by apply list_elem_of_fmap_2.
  assert (TrimSpace (spec_id p) = spec_id p) as Ht by apply TrimSpace_idem. split_and!.
  - destruct (reused_breakers B Hprev) as (rb & Hrb & _ & _ & Hat). destruct (built_breakers B) as (Hwf & Hal & _ & Hids).
    apply Hids, (rwf_ids _ _ _ Hwf) in Hid as [l Hl]. destruct (Hal _ _ Hl) as (Hfresh & c0 & bn & Hc0 & Hbn & Hmake).
    rewrite Hcb in Hc0. injection Hc0 as <-.
    destruct (location_instance NewBreaker same_breaker_config (w_breakers w) (w_breakers w') sn_Breakers same_breaker_state previous
      _ (providerStateIdentity p r) _ l bn Hbn Hmake Hfresh) as (o & Ho & Hinst).
    eexists _, o. split; [|exact Hinst]. rewrite Hb, Hrb. unfold breaker_at. cbn. rewrite Ht, (Hat _ _ Hst), Hl. cbn. by rewrite Ho.
  - destruct (reused_queues B Hprev) as (rq & Hrq & _ & _ & Hat). destruct (built_queues B) as (Hwf & Hal & _ & Hids).
    apply Hids, (rwf_ids _ _ _ Hwf) in Hid as [l Hl]. destruct (Hal _ _ Hl) as (Hfresh & c0 & qn & Hc0 & Hqn & Hmake).
    rewrite Hcq in Hc0. injection Hc0 as <-.
    destruct (location_instance NewProviderQueue same_queue_config (w_queues w) (w_queues w') sn_Queues same_queue_state previous
      _ (providerStateIdentity p r) _ l qn Hqn Hmake Hfresh) as (o & Ho & Hinst).
    eexists rq, _, o. split; [by rewrite Hq|]. split; [|exact Hinst]. unfold queue_at. rewrite Ht, (Hat _ _ Hst), Hl. cbn. by rewrite Ho.
  - intros reg lk Hreg Hlk. rewrite Hk in Hreg. destruct (bt_keys _ _ _ _ _ _ B) as [r0|] eqn:Hr0.
    2: { by rewrite (reused_no_keys B Hprev Hr0) in Hreg. }
    destruct (reused_keys B Hprev r0 Hr0) as (rk & Hrk & _ & _ & Hat). rewrite Hrk in Hreg. injection Hreg as <-.
    rewrite (Hat _ _ Hst) in Hlk. apply fmap_Some in Hlk as (l & Hl & ->).
    destruct (built_keys B) as (_ & Hkr & _). destruct (kr_made _ _ _ _ (Hkr r0 Hr0) _ _ Hl) as (Hfresh & set & new & Hset & Hsid & Hnew & Hmade).
    unfold selector_made in Hmade. rewrite Hsid in Hmade. exists set.
    destruct (location_instance newProviderKeySelector sameProviderKeys (w_keys w) (w_keys w') sn_Keys same_keys_state previous
      _ (providerStateIdentity p r) _ l new Hnew Hmade Hfresh) as (o & Ho & Hinst).
    exists o. split; [by apply (built_key_set _ _ _ _ _ _ B)|]. split; [done|exact Hinst].
Qed.
End theorems.

(** ** A concrete document and its change *)

Definition demo_spec (url : string) (inflight : option Z) : ProviderSpec :=
  {| ps_ID := "p"; ps_Protocol := "openai-compatible"; ps_BaseURL := url; ps_Models := ["m"%string];
     ps_ModelCapabilities := ∅; ps_Keys := [{| ky_ID := "k"; ky_Secret := "s" |}];
     ps_Runtime := {| rt_Breaker := no_breaker; rt_Queue := Build_QueueSpec inflight None ""; rt_Retry := no_retry; rt_HTTP := no_http |} |}.
Definition demo_document (inflight : option Z) : RuntimeDocument :=
  {| rd_SchemaVersion := 1; rd_Providers := [demo_spec "https://api.example.com/v1" inflight];
     rd_Routes := [{| rs_Model := "fast"; rs_Candidates := [{| cs_Provider := "p"; cs_UpstreamModel := "m" |}] |}] |}.
Definition demo_builder : Builder := {| bd_Defaults := demo_defaults; bd_EnforceStreamUsage := true |}.
Definition demo_empty_world : World := {| w_tick := 0; w_now := 0; w_breakers := []; w_queues := []; w_keys := [] |}.

Abbreviation demo_builds := (@build ascii_only demo_net demo_order demo_builder).

Definition from_ok {E A} (d : A) (r : result E A) : A := match r with Ok a => a | Err _ => d end.
Lemma from_ok_eq {E A} (d : A) (r : result E A) : is_ok r = true → r = Ok (from_ok d r).
Proof. by destruct r. Qed.

Definition no_snapshot : Snapshot * World := (Build_Snapshot "" None None None None None None ∅, demo_empty_world).
Definition demo_first : Snapshot * World := from_ok no_snapshot (demo_builds (demo_document None) None demo_empty_world).

(** The circuit breaker has opened since. *)
Definition demo_used_world : World :=
  w_set_breakers demo_first.2 (map (λ b, Breaker_open b 7) (w_breakers demo_first.2)).
Definition demo_second : Snapshot * World :=
  from_ok no_snapshot (demo_builds (demo_document (Some 9)) (Some demo_first.1) demo_used_world).

#[local] Instance demo_order_law : @MapOrderLaw demo_order.
Proof. by intros A m. Qed.

Lemma demo_first_ok : demo_builds (demo_document None) None demo_empty_world = Ok demo_first.
Proof. apply from_ok_eq. vm_compute. reflexivity. Qed.
Lemma demo_second_ok : demo_builds (demo_document (Some 9)) (Some demo_first.1) demo_used_world = Ok demo_second.
Proof. apply from_ok_eq. vm_compute. reflexivity. Qed.

(** The open circuit breaker stays, the queue with another limit is new. *)
Example demo_kept :
  (λ e, (e.1, br_state e.2)) <$> breaker_at (w_breakers demo_second.2) (sn_Breakers demo_second.1) "p" = Some (0%nat, StateOpen)
  ∧ (λ e, (e.1, MaxInFlight (q_config e.2))) <$> (sn_Queues demo_second.1 ≫= λ r, queue_at (w_queues demo_second.2) r "p") = Some (1%nat, 9).
Proof. split; vm_compute; reflexivity. Qed.

Lemma demo_first_sound s : Some demo_first.1 = Some s → snapshot_sound s demo_used_world.
Proof.
  intros [= <-].
  assert (demo_builds (demo_document None) None demo_empty_world = Ok (demo_first.1, demo_first.2)) as Hok
    by (rewrite <-surjective_pairing; apply demo_first_ok).
  destruct (@build_built ascii_only demo_net demo_order _ _ _ _ _ _ Hok) as [B].
  destruct (@built_sound ascii_only demo_net demo_order demo_order_law _ _ _ _ _ _ B) as [H1 H2 H3]; [by intros p [=]|].
  constructor; [|done|done]. cbn. intros r Hr. destruct (H1 r Hr) as [Hnd Hids Hnm]. constructor; [done|done|].
  intros k l (o & Ho & Hn)%Hnm. exists (Breaker_open o 7). split; [|done]. by rewrite list_lookup_fmap, Ho.
Qed.

Lemma build_complete_witness :
  snapshot_complete (Some demo_second.1) = true ∧ snapshot_sound demo_second.1 demo_second.2 ∧
  world_grows demo_used_world demo_second.2 ∧
  ∀ routes model required plan candidate, sn_Routes demo_second.1 = Some routes →
    Router_Plan routes model required = Ok plan → candidate ∈ plan_Candidates plan →
    serves demo_second.1 demo_second.2 (cd_ProviderID candidate).
Proof.
  apply (@build_complete ascii_only demo_net demo_order demo_order_law demo_builder (demo_document (Some 9)) (Some demo_first.1)
    demo_used_world demo_second.1 demo_second.2); [|exact demo_first_sound].
  rewrite <-surjective_pairing. exact demo_second_ok.
Defined.

Lemma build_keeps_state_witness :
  ∃ r lb b, @runtime demo_builder (ps_Runtime (demo_spec "https://api.example.com/v1" (Some 9))) = Ok r ∧
    breaker_at (w_breakers demo_second.2) (sn_Breakers demo_second.1) "p" = Some (lb, b) ∧
    instance_for NewBreaker same_breaker_config (w_breakers demo_used_world) (w_breakers demo_second.2) sn_Breakers
      same_breaker_state (Some demo_first.1) "p" (@providerStateIdentity ascii_only (demo_spec "https://api.example.com/v1" (Some 9)) r)
      (run_Breaker r) lb b.
Proof.
  destruct (@build_keeps_state ascii_only demo_net demo_order demo_order_law demo_builder (demo_document (Some 9)) (Some demo_first.1)
    demo_used_world demo_second.1 demo_second.2 (demo_spec "https://api.example.com/v1" (Some 9))) as (r & Hr & (lb & b & Hb & Hi) & _).
  - rewrite <-surjective_pairing. exact demo_second_ok.
  - exact demo_first_sound.
  - left.
  - exists r, lb, b. split; [exact Hr|]. split; [exact Hb|exact Hi].
Defined.

(** Equal fingerprints mean equal configurations: unless two texts collide under SHA-256,
    two providers have the same identity for their circuit breakers exactly when protocol,
    address and limits are the same, and for their keys when identifiers and secrets are,
    in order. *)
Theorem identity_faithful `{Unicode} s1 r1 s2 r2 :
  let parts1 := breaker_parts s1 (run_Breaker r1) in
  let parts2 := breaker_parts s2 (run_Breaker r2) in
  Forall go_string (parts1 ++ parts2 ++ key_parts s1 ++ key_parts s2) →
  hashed_apart (fingerprint_text parts1) (fingerprint_text parts2) →
  hashed_apart (fingerprint_text (key_parts s1)) (fingerprint_text (key_parts s2)) →
  (same_breaker_state (providerStateIdentity s1 r1) (providerStateIdentity s2 r2) = true ↔ parts1 = parts2) ∧
  (ps_Keys s1 ≠ [] → ps_Keys s2 ≠ [] →
   same_keys_state (providerStateIdentity s1 r1) (providerStateIdentity s2 r2) = true ↔ key_parts s1 = key_parts s2).
Proof.
  cbv zeta. rewrite !Forall_app. intros (Hp1 & Hp2 & Hk1 & Hk2) Hb Hk. split.
  - unfold same_breaker_state, providerStateIdentity. cbn [psi_Breaker]. rewrite String.eqb_eq. split; [|by intros ->].
    by apply stateFingerprint_inj.
  - intros Hn1 Hn2. unfold same_keys_state, providerStateIdentity. cbn [psi_Keys].
    destruct (ps_Keys s1) as [|k1 l1] eqn:E1; [done|]. destruct (ps_Keys s2) as [|k2 l2] eqn:E2; [done|].
    rewrite andb_true_iff, negb_true_iff, String.eqb_eq, String.eqb_neq. split.
    + intros [_ Heq]. by apply stateFingerprint_inj.
    + intros ->. split; [|done]. intros Hempty. unfold stateFingerprint in Hempty.
      apply (f_equal String.length) in Hempty. rewrite digest_length in Hempty. done.
Qed.

Lemma identity_faithful_witness :
  let s1 := demo_spec "https://api.example.com/v1" None in
  let s2 := demo_spec "https://api.example.com/v2" None in
  let id s := @providerStateIdentity ascii_only s demo_defaults in
  (same_breaker_state (id s1) (id s2) = true ↔
   @breaker_parts ascii_only s1 DefaultBreakerConfig = @breaker_parts ascii_only s2 DefaultBreakerConfig) ∧
  (ps_Keys s1 ≠ [] → ps_Keys s2 ≠ [] → same_keys_state (id s1) (id s2) = true ↔ key_parts s1 = key_parts s2).
Proof.
  cbv zeta. apply (@identity_faithful ascii_only (demo_spec "https://api.example.com/v1" None) demo_defaults
    (demo_spec "https://api.example.com/v2" None) demo_defaults).
  - repeat constructor; vm_compute; discriminate.
  - intros Heq. exfalso. revert Heq. vm_compute. discriminate.
  - intros _. reflexivity.
Defined.
