(* ===== verification/DocumentJson.v ===== *)
(** * Managed configuration documents as JSON ([controlplane/document.go])

    What [json.Marshal] writes for a document and what its decoders read; a document
    that is written is read back as it was. Decoders are for documents that were
    written, in which no member is named twice. *)

From Stdlib Require Import Floats.
From S2P Require Import Prelude Encoding Json JsonWrite JsonTree JsonCodec Routing ChatRequest FloatText ProviderConfig Document.

Open Scope Z_scope.

(** ** Writing *)

Definition encode_BreakerSpec (b : BreakerSpec) : string :=
  encode_object (
    opt_field "failure_threshold" (encode_int <$> bs_FailureThreshold b) ++
    opt_field "open_duration" (nonempty_string (bs_OpenDuration b)) ++
    opt_field "half_open_max_probes" (encode_int <$> bs_HalfOpenMaxProbes b) ++ []).

Definition encode_QueueSpec (q : QueueSpec) : string :=
  encode_object (
    opt_field "max_in_flight" (encode_int <$> qs_MaxInFlight q) ++
    opt_field "max_waiting" (encode_int <$> qs_MaxWaiting q) ++
    opt_field "wait_timeout" (nonempty_string (qs_WaitTimeout q)) ++ []).

(** [json.Marshal] fails for what is not a number. *)
Definition encode_optional_float (o : option float) : option (option string) :=
  match o with None => Some None | Some f => t ← encode_float f; Some (Some t) end.

Definition encode_RetrySpec (r : RetrySpec) : option string :=
  multiplier ← encode_optional_float (rs_BackoffMultiplier r);
  jitter ← encode_optional_float (rs_JitterRatio r);
  Some (encode_object (
    opt_field "max_attempts" (encode_int <$> rs_MaxAttempts r) ++
    opt_field "initial_backoff" (nonempty_string (rs_InitialBackoff r)) ++
    opt_field "max_backoff" (nonempty_string (rs_MaxBackoff r)) ++
    opt_field "backoff_multiplier" multiplier ++
    opt_field "jitter_ratio" jitter ++
    opt_field "request_timeout" (nonempty_string (rs_RequestTimeout r)) ++
    opt_field "attempt_timeout" (nonempty_string (rs_AttemptTimeout r)) ++ [])).

Definition encode_HTTPSpec (h : HTTPSpec) : string :=
  encode_object (
    opt_field "max_idle_connections" (encode_int <$> hs_MaxIdleConnections h) ++
    opt_field "max_idle_connections_per_host" (encode_int <$> hs_MaxIdleConnectionsPerHost h) ++
    opt_field "max_connections_per_host" (encode_int <$> hs_MaxConnectionsPerHost h) ++ []).

Definition encode_ProviderRuntimeSpec (s : ProviderRuntimeSpec) : option string :=
  retry ← encode_RetrySpec (rt_Retry s);
  Some (encode_object [("breaker", encode_BreakerSpec (rt_Breaker s)); ("queue", encode_QueueSpec (rt_Queue s));
                       ("retry", retry); ("http", encode_HTTPSpec (rt_HTTP s))]%string).

Definition encode_ProviderKeySpec (k : ProviderKeySpec) : string :=
  encode_object (("id"%string, encode_string (ky_ID k)) :: opt_field "secret" (nonempty_string (ky_Secret k)) ++ []).

Definition encode_strings (l : list string) : string := encode_array (map encode_string l).

(** A map or slice with [omitempty] is left out when it is empty. *)
Definition omit_empty {A} (l : list A) (t : string) : option string := match l with [] => None | _ => Some t end.

Definition encode_capabilities (m : gmap string (list string)) : string :=
  encode_object (map_members (encode_strings <$> m)).

Definition encode_ProviderSpec (p : ProviderSpec) : option string :=
  runtime ← encode_ProviderRuntimeSpec (ps_Runtime p);
  Some (encode_object (
    ("id"%string, encode_string (ps_ID p)) :: ("protocol"%string, encode_string (ps_Protocol p)) ::
    ("base_url"%string, encode_string (ps_BaseURL p)) :: ("models"%string, encode_strings (ps_Models p)) ::
    opt_field "model_capabilities"
      (omit_empty (map_to_list (ps_ModelCapabilities p)) (encode_capabilities (ps_ModelCapabilities p))) ++
    opt_field "keys" (omit_empty (ps_Keys p) (encode_array (map encode_ProviderKeySpec (ps_Keys p)))) ++
    [("runtime"%string, runtime)])).

Definition encode_CandidateSpec (c : CandidateSpec) : string :=
  encode_object (("provider"%string, encode_string (cs_Provider c)) ::
                 opt_field "upstream_model" (nonempty_string (cs_UpstreamModel c)) ++ []).

Definition encode_RouteSpec (r : RouteSpec) : string :=
  encode_object [("model", encode_string (rs_Model r));
                 ("candidates", encode_array (map encode_CandidateSpec (rs_Candidates r)))]%string.

Definition encode_document (document : RuntimeDocument) : option string :=
  providers ← mapM encode_ProviderSpec (rd_Providers document);
  Some (encode_object [("schema_version", encode_int (rd_SchemaVersion document));
                       ("providers", encode_array providers);
                       ("routes", encode_array (map encode_RouteSpec (rd_Routes document)))]%string).

(** ** Reading *)

Definition decode_ProviderKeySpec (mode : Reading) : decoder ProviderKeySpec := λ k raw,
  ms ← known_members mode ["id"; "secret"]%string raw;
  id ← field "id" decode_string (ky_ID k) ms;
  secret ← field "secret" decode_string (ky_Secret k) ms;
  Some {| ky_ID := id; ky_Secret := secret |}.

Definition no_key : ProviderKeySpec := Build_ProviderKeySpec "" "".
Definition no_provider : ProviderSpec := Build_ProviderSpec "" "" "" [] ∅ [] no_runtime.
Definition no_candidate : CandidateSpec := Build_CandidateSpec "" "".
Definition blank_route : RouteSpec := Build_RouteSpec "" [].
Definition no_document : RuntimeDocument := Build_RuntimeDocument 0 [] [].

Definition decode_ProviderSpec (mode : Reading) : decoder ProviderSpec := λ p raw,
  ms ← known_members mode ["id"; "protocol"; "base_url"; "models"; "model_capabilities"; "keys"; "runtime"]%string raw;
  id ← field "id" decode_string (ps_ID p) ms;
  protocol ← field "protocol" decode_string (ps_Protocol p) ms;
  url ← field "base_url" decode_string (ps_BaseURL p) ms;
  models ← field "models" (decode_list ""%string decode_string) (ps_Models p) ms;
  capabilities ← field "model_capabilities" decode_capabilities (ps_ModelCapabilities p) ms;
  keys ← field "keys" (decode_list no_key (decode_ProviderKeySpec mode)) (ps_Keys p) ms;
  runtime ← field "runtime" (decode_ProviderRuntimeSpec mode) (ps_Runtime p) ms;
  Some {| ps_ID := id; ps_Protocol := protocol; ps_BaseURL := url; ps_Models := models;
          ps_ModelCapabilities := capabilities; ps_Keys := keys; ps_Runtime := runtime |}.

Definition decode_CandidateSpec (mode : Reading) : decoder CandidateSpec := λ c raw,
  ms ← known_members mode ["provider"; "upstream_model"]%string raw;
  provider ← field "provider" decode_string (cs_Provider c) ms;
  model ← field "upstream_model" decode_string (cs_UpstreamModel c) ms;
  Some {| cs_Provider := provider; cs_UpstreamModel := model |}.

Definition decode_RouteSpec (mode : Reading) : decoder RouteSpec := λ r raw,
  ms ← known_members mode ["model"; "candidates"]%string raw;
  model ← field "model" decode_string (rs_Model r) ms;
  candidates ← field "candidates" (decode_list no_candidate (decode_CandidateSpec mode)) (rs_Candidates r) ms;
  Some {| rs_Model := model; rs_Candidates := candidates |}.

Definition decode_document (mode : Reading) : decoder RuntimeDocument := λ d raw,
  ms ← known_members mode ["schema_version"; "providers"; "routes"]%string raw;
  version ← field "schema_version" decode_int (rd_SchemaVersion d) ms;
  providers ← field "providers" (decode_list no_provider (decode_ProviderSpec mode)) (rd_Providers d) ms;
  routes ← field "routes" (decode_list blank_route (decode_RouteSpec mode)) (rd_Routes d) ms;
  Some {| rd_SchemaVersion := version; rd_Providers := providers; rd_Routes := routes |}.

(** ** What is written is read back *)

Definition named (names : list string) (fields : list (string * string)) : Prop := Forall (λ f, f.1 ∈ names) fields.

Lemma named_nil names : named names [].
Proof. by apply Forall_nil. Qed.
Lemma named_cons names n t fields : n ∈ names → named names fields → named names ((n, t) :: fields).
Proof. by constructor. Qed.
Lemma named_opt names n o fields : n ∈ names → named names fields → named names (opt_field n o ++ fields).
Proof. intros. by destruct o; [constructor|]. Qed.

Ltac solve_named := repeat first [apply named_nil | apply named_cons; [set_solver|] | apply named_opt; [set_solver|]].

Lemma known_of mode names fields raw :
  named names fields → struct_members raw = Some fields → known_members mode names raw = Some fields.
Proof.
  intros Hn Hs. unfold known_members. rewrite Hs. cbn [mbind option_bind].
  assert (forallb (λ m : string * string, existsb (λ name, bool_decide (folded m.1 = folded name)) names) fields = true) as ->;
    [|by destruct mode].
  apply forallb_forall. intros m Hm%list_elem_of_In. apply existsb_exists. exists m.1.
  unfold named in Hn. rewrite Forall_forall in Hn. split; [by apply list_elem_of_In, Hn|]. by apply bool_decide_eq_true.
Qed.

Lemma written_known {A} (zero : A) mode names (d : decoder A) depth a fields :
  1 ≤ depth ≤ maxNestingDepth → named names fields → Forall (good_member (depth - 1)) fields →
  (known_members mode names (encode_object fields) = Some fields → d zero (encode_object fields) = Some a) →
  written zero d depth a (encode_object fields).
Proof. intros Hd Hn Hg Hdec. apply written_object; [done|done|]. intros Hs. by apply Hdec, known_of. Qed.

Definition utf8_text (s : string) : Prop := utf8_Valid s = true.
Definition int_typed (o : option Z) : Prop := ∀ z, o = Some z → in_int64 z.

(** What Go's types and the reading of JSON promise of a document: 64-bit integers and
    UTF-8. *)
Record spec_typed (s : ProviderRuntimeSpec) : Prop := {
  st_ints : Forall int_typed
    [bs_FailureThreshold (rt_Breaker s); bs_HalfOpenMaxProbes (rt_Breaker s); qs_MaxInFlight (rt_Queue s);
     qs_MaxWaiting (rt_Queue s); rs_MaxAttempts (rt_Retry s); hs_MaxIdleConnections (rt_HTTP s);
     hs_MaxIdleConnectionsPerHost (rt_HTTP s); hs_MaxConnectionsPerHost (rt_HTTP s)];
  st_texts : Forall utf8_text
    [bs_OpenDuration (rt_Breaker s); qs_WaitTimeout (rt_Queue s); rs_InitialBackoff (rt_Retry s); rs_MaxBackoff (rt_Retry s);
     rs_RequestTimeout (rt_Retry s); rs_AttemptTimeout (rt_Retry s)];
}.

Definition key_typed (k : ProviderKeySpec) : Prop := utf8_text (ky_ID k) ∧ utf8_text (ky_Secret k).

Record provider_typed (p : ProviderSpec) : Prop := {
  pt_texts : Forall utf8_text [ps_ID p; ps_Protocol p; ps_BaseURL p];
  pt_models : Forall utf8_text (ps_Models p);
  pt_capabilities : ∀ k l, ps_ModelCapabilities p !! k = Some l → utf8_text k ∧ Forall utf8_text l;
  pt_keys : Forall key_typed (ps_Keys p);
  pt_runtime : spec_typed (ps_Runtime p);
}.

Definition route_typed (r : RouteSpec) : Prop :=
  utf8_text (rs_Model r) ∧ Forall (λ c, utf8_text (cs_Provider c) ∧ utf8_text (cs_UpstreamModel c)) (rs_Candidates r).

Record document_typed (d : RuntimeDocument) : Prop := {
  dt_version : in_int64 (rd_SchemaVersion d);
  dt_providers : Forall provider_typed (rd_Providers d);
  dt_routes : Forall route_typed (rd_Routes d);
}.

Lemma int_value depth o : int_typed o → ∀ t, (encode_int <$> o) = Some t → value_at depth t.
Proof. intros Ho. apply fmap_value. intros z Hz. by apply encode_int_value, Ho. Qed.

Create HintDb codec.
#[local] Hint Resolve int_value nonempty_value encodes_ptr_int encodes_nonempty encodes_string encode_string_value : codec.

Section Codec.
Context (mode : Reading).
Hypothesis Hmode : mode ≠ bootstrap.

Lemma BreakerSpec_written depth b :
  1 ≤ depth ≤ maxNestingDepth → int_typed (bs_FailureThreshold b) → int_typed (bs_HalfOpenMaxProbes b) → utf8_text (bs_OpenDuration b) →
  written no_breaker (decode_BreakerSpec mode) depth b (encode_BreakerSpec b).
Proof.
  intros Hd Hf Hp Ho. destruct b as [f o p]. cbn in *.
  apply (written_known _ mode ["failure_threshold"; "open_duration"; "half_open_max_probes"]%string); [done|solve_named|solve_good; eauto with codec|].
  intros Hms. unfold decode_BreakerSpec. rewrite Hms. cbn [mbind option_bind bs_FailureThreshold bs_OpenDuration bs_HalfOpenMaxProbes no_breaker].
  do 3 (step_field; [eauto with codec|]). done.
Qed.

Lemma QueueSpec_written depth q :
  1 ≤ depth ≤ maxNestingDepth → int_typed (qs_MaxInFlight q) → int_typed (qs_MaxWaiting q) → utf8_text (qs_WaitTimeout q) →
  written no_queue (decode_QueueSpec mode) depth q (encode_QueueSpec q).
Proof.
  intros Hd Hf Hp Ho. destruct q as [f o p]. cbn in *.
  apply (written_known _ mode ["max_in_flight"; "max_waiting"; "wait_timeout"]%string); [done|solve_named|solve_good; eauto with codec|].
  intros Hms. unfold decode_QueueSpec. rewrite Hms. cbn [mbind option_bind qs_MaxInFlight qs_MaxWaiting qs_WaitTimeout no_queue].
  do 3 (step_field; [eauto with codec|]). done.
Qed.

Lemma optional_float_back o t :
  encode_optional_float o = Some t →
  encodes decode_optional_float None t o ∧ ∀ depth s, t = Some s → value_at depth s.
Proof.
  destruct o as [f|]; cbn; [|by intros [= <-]]. intros (s & Hs & [= <-])%bind_Some.
  pose proof (encode_float_back _ _ Hs) as (_ & Hn & Hd). split; [by apply decode_ptr_some|].
  intros depth _ [= <-]. by apply (encode_float_value _ f).
Qed.

Lemma RetrySpec_written depth r t :
  1 ≤ depth ≤ maxNestingDepth → int_typed (rs_MaxAttempts r) →
  Forall utf8_text [rs_InitialBackoff r; rs_MaxBackoff r; rs_RequestTimeout r; rs_AttemptTimeout r] →
  encode_RetrySpec r = Some t → written no_retry (decode_RetrySpec mode) depth r t.
Proof.
  intros Hd Hi Hs. destruct r as [n i x m j q a]. cbn [rs_MaxAttempts rs_InitialBackoff rs_MaxBackoff rs_RequestTimeout rs_AttemptTimeout] in *.
  rewrite !Forall_cons in Hs. destruct Hs as (? & ? & ? & ? & _). unfold encode_RetrySpec.
  cbn [rs_MaxAttempts rs_InitialBackoff rs_MaxBackoff rs_BackoffMultiplier rs_JitterRatio rs_RequestTimeout rs_AttemptTimeout].
  intros (tm & [Hm Hmv]%optional_float_back & (tj & [Hj Hjv]%optional_float_back & [= <-])%bind_Some)%bind_Some.
  apply (written_known _ mode (retry_fields mode)); [done| |solve_good; eauto with codec|].
  - destruct mode; [done|..]; unfold retry_fields; cbn [app]; solve_named.
  - intros Hms. unfold decode_RetrySpec. rewrite Hms.
    cbn [mbind option_bind rs_MaxAttempts rs_InitialBackoff rs_MaxBackoff rs_BackoffMultiplier rs_JitterRatio rs_RequestTimeout rs_AttemptTimeout no_retry].
    do 7 (step_field; [eauto with codec|]). done.
Qed.

Lemma HTTPSpec_written depth h :
  1 ≤ depth ≤ maxNestingDepth → int_typed (hs_MaxIdleConnections h) → int_typed (hs_MaxIdleConnectionsPerHost h) →
  int_typed (hs_MaxConnectionsPerHost h) → written no_http (decode_HTTPSpec mode) depth h (encode_HTTPSpec h).
Proof.
  intros Hd Hf Hp Ho. destruct h as [f o p]. cbn in *.
  apply (written_known _ mode ["max_idle_connections"; "max_idle_connections_per_host"; "max_connections_per_host"]%string);
    [done|solve_named|solve_good; eauto with codec|].
  intros Hms. unfold decode_HTTPSpec. rewrite Hms.
  cbn [mbind option_bind hs_MaxIdleConnections hs_MaxIdleConnectionsPerHost hs_MaxConnectionsPerHost no_http].
  do 3 (step_field; [eauto with codec|]). done.
Qed.

Lemma runtime_written depth s t :
  2 ≤ depth ≤ maxNestingDepth → spec_typed s → encode_ProviderRuntimeSpec s = Some t →
  written no_runtime (decode_ProviderRuntimeSpec mode) depth s t.
Proof.
  intros Hd [Hi Ht] (rt & Hr & [= <-])%bind_Some. rewrite !Forall_cons in Hi. rewrite !Forall_cons in Ht.
  destruct Hi as (? & ? & ? & ? & ? & ? & ? & ? & _), Ht as (? & ? & ? & ? & ? & ? & _).
  pose proof (BreakerSpec_written (depth - 1) (rt_Breaker s) ltac:(lia) ltac:(done) ltac:(done) ltac:(done)) as HB.
  pose proof (QueueSpec_written (depth - 1) (rt_Queue s) ltac:(lia) ltac:(done) ltac:(done) ltac:(done)) as HQ.
  pose proof (RetrySpec_written (depth - 1) (rt_Retry s) rt ltac:(lia) ltac:(done) ltac:(by repeat constructor) Hr) as HR.
  pose proof (HTTPSpec_written (depth - 1) (rt_HTTP s) ltac:(lia) ltac:(done) ltac:(done) ltac:(done)) as HH.
  apply (written_known _ mode ["breaker"; "queue"; "retry"; "http"]%string); [lia|solve_named|solve_good; [apply HB|apply HQ|apply HR|apply HH]|].
  intros Hms. unfold decode_ProviderRuntimeSpec. rewrite Hms. cbn [mbind option_bind rt_Breaker rt_Queue rt_Retry rt_HTTP no_runtime].
  step_field; [by eapply encodes_of|]. step_field; [by eapply encodes_of|]. step_field; [by eapply encodes_of|].
  step_field; [by eapply encodes_of|]. by destruct s.
Qed.

Lemma key_written depth k :
  1 ≤ depth ≤ maxNestingDepth → key_typed k →
  written no_key (decode_ProviderKeySpec mode) depth k (encode_ProviderKeySpec k).
Proof.
  intros Hd [Hi Hs]. destruct k as [i s]. cbn in Hi, Hs.
  apply (written_known _ mode ["id"; "secret"]%string); [done|solve_named|solve_good; eauto with codec|].
  intros Hms. unfold decode_ProviderKeySpec. rewrite Hms. cbn [mbind option_bind ky_ID ky_Secret no_key].
  do 2 (step_field; [eauto with codec|]). done.
Qed.

Lemma encodes_omitted {A} (l : list A) {B} (zero : B) (d : decoder B) depth b t :
  (l = [] → b = zero) → written zero d depth b t →
  encodes d zero (omit_empty l t) b ∧ ∀ s, omit_empty l t = Some s → value_at depth s.
Proof. intros Hl Hw. destruct l; cbn; [by rewrite Hl|]. split; [apply Hw|]. intros s [= <-]. apply Hw. Qed.

Lemma capabilities_written depth m :
  2 ≤ depth ≤ maxNestingDepth → (∀ k l, m !! k = Some l → utf8_text k ∧ Forall utf8_text l) →
  written ∅ decode_capabilities depth m (encode_capabilities m).
Proof.
  intros Hd Hm. apply written_map; [lia| |by rewrite dom_fmap_L]. intros k l Hl.
  destruct (Hm k l Hl) as [Hk Ht]. split; [done|]. exists (encode_strings l). rewrite lookup_fmap, Hl. split; [done|].
  apply (written_strings (depth - 1)); [lia|done].
Qed.

Lemma Forall2_map_l_same {A B} (P : B → A → Prop) (f : A → B) l : (∀ a, a ∈ l → P (f a) a) → Forall2 P (map f l) l.
Proof.
  induction l as [|a l IH]; intros Hl; [constructor|]. constructor; [apply Hl; by left|]. apply IH. intros b Hb. apply Hl. by right.
Qed.

Lemma provider_written depth p t :
  4 ≤ depth ≤ maxNestingDepth → provider_typed p → encode_ProviderSpec p = Some t →
  written no_provider (decode_ProviderSpec mode) depth p t.
Proof.
  intros Hd [Ht Hm Hc Hk Hr] (rt & Hrt & [= <-])%bind_Some. rewrite !Forall_cons in Ht. destruct Ht as (? & ? & ? & _).
  pose proof (written_strings (depth - 1) (ps_Models p) ltac:(lia) Hm) as HM.
  pose proof (capabilities_written (depth - 1) (ps_ModelCapabilities p) ltac:(lia) Hc) as HC.
  pose proof (runtime_written (depth - 1) (ps_Runtime p) rt ltac:(lia) Hr Hrt) as HR.
  assert (written [] (decode_list no_key (decode_ProviderKeySpec mode)) (depth - 1) (ps_Keys p)
            (encode_array (map encode_ProviderKeySpec (ps_Keys p)))) as HK.
  { apply written_list; [lia|]. apply Forall2_map_l_same. intros k Hin. rewrite Forall_forall in Hk.
    apply key_written; [lia|by apply Hk]. }
  destruct (encodes_omitted (map_to_list (ps_ModelCapabilities p)) _ _ _ _ _ (λ H, proj1 (map_to_list_empty_iff _) H) HC) as [Hce Hcv].
  destruct (encodes_omitted (ps_Keys p) _ _ _ _ _ (λ H, H) HK) as [Hke Hkv].
  apply (written_known _ mode ["id"; "protocol"; "base_url"; "models"; "model_capabilities"; "keys"; "runtime"]%string); [lia|solve_named| |].
  { solve_good; eauto with codec; [apply HM|apply HR]. }
  intros Hms. unfold decode_ProviderSpec. rewrite Hms.
  cbn [mbind option_bind ps_ID ps_Protocol ps_BaseURL ps_Models ps_ModelCapabilities ps_Keys ps_Runtime no_provider].
  do 3 (step_field; [eauto with codec|]). step_field; [by eapply encodes_of|].
  do 2 (step_field; [done|]). step_field; [by eapply encodes_of|]. by destruct p.
Qed.

Lemma candidate_written depth c :
  1 ≤ depth ≤ maxNestingDepth → utf8_text (cs_Provider c) → utf8_text (cs_UpstreamModel c) →
  written no_candidate (decode_CandidateSpec mode) depth c (encode_CandidateSpec c).
Proof.
  intros Hd Hp Hm. destruct c as [p m]. cbn in Hp, Hm.
  apply (written_known _ mode ["provider"; "upstream_model"]%string); [done|solve_named|solve_good; eauto with codec|].
  intros Hms. unfold decode_CandidateSpec. rewrite Hms. cbn [mbind option_bind cs_Provider cs_UpstreamModel no_candidate].
  do 2 (step_field; [eauto with codec|]). done.
Qed.

Lemma route_written depth r :
  3 ≤ depth ≤ maxNestingDepth → route_typed r → written blank_route (decode_RouteSpec mode) depth r (encode_RouteSpec r).
Proof.
  intros Hd [Hm Hc].
  assert (written [] (decode_list no_candidate (decode_CandidateSpec mode)) (depth - 1) (rs_Candidates r)
            (encode_array (map encode_CandidateSpec (rs_Candidates r)))) as HC.
  { apply written_list; [lia|]. apply Forall2_map_l_same. intros c Hin. rewrite Forall_forall in Hc.
    destruct (Hc c Hin). apply candidate_written; [lia|done|done]. }
  apply (written_known _ mode ["model"; "candidates"]%string); [lia|solve_named|solve_good; [eauto with codec|apply HC]|].
  intros Hms. unfold decode_RouteSpec. rewrite Hms. cbn [mbind option_bind rs_Model rs_Candidates blank_route].
  step_field; [eauto with codec|]. step_field; [by eapply encodes_of|]. by destruct r.
Qed.

Lemma document_written depth d t :
  6 ≤ depth ≤ maxNestingDepth → document_typed d → encode_document d = Some t →
  written no_document (decode_document mode) depth d t.
Proof.
  intros Hd [Hv Hp Hr] (ps & Hps%mapM_Some & [= <-])%bind_Some.
  assert (written [] (decode_list no_provider (decode_ProviderSpec mode)) (depth - 1) (rd_Providers d) (encode_array ps)) as HP.
  { apply written_list; [lia|]. clear -Hd Hmode Hp Hps. revert Hp. induction Hps as [|p t l ts Ht _ IH]; [constructor|].
    intros [Hp Hl]%Forall_cons. constructor; [|by apply IH]. apply provider_written; [lia|done|done]. }
  assert (written [] (decode_list blank_route (decode_RouteSpec mode)) (depth - 1) (rd_Routes d)
            (encode_array (map encode_RouteSpec (rd_Routes d)))) as HR.
  { apply written_list; [lia|]. apply Forall2_map_l_same. intros r Hin. rewrite Forall_forall in Hr.
    apply route_written; [lia|by apply Hr]. }
  apply (written_known _ mode ["schema_version"; "providers"; "routes"]%string); [lia|solve_named| |].
  { solve_good; [by apply encode_int_value|apply HP|apply HR]. }
  intros Hms. unfold decode_document. rewrite Hms. cbn [mbind option_bind rd_SchemaVersion rd_Providers rd_Routes no_document].
  step_field; [by apply encodes_int|]. do 2 (step_field; [by eapply encodes_of|]). by destruct d.
Qed.

End Codec.

(** A document that is written is read back, strictly and not. *)
Lemma document_roundtrip mode d t :
  mode ≠ bootstrap → document_typed d → encode_document d = Some t → decode_document mode no_document t = Some d.
Proof. intros Hm Hd Ht. by apply (document_written mode Hm maxNestingDepth d t). Qed.
