(* ===== verification/Usage.v ===== *)
(** * Usage events

    Models [src/internal/usage/event.go]: the event with its validation, and the
    reading of an upstream's usage data, with the amounts of money of
    [src/internal/usage/pricing.go] it needs. The JSON texts are read as
    [encoding/json] reads them (Json.v), the amounts as [big.Rat] (BigRat.v). *)

From S2P Require Import Prelude Encoding Json BigRat.

(** ** Data *)

Definition SchemaVersion : Z := 2.
Definition minimumSchemaVersion : Z := 1.
Definition maximumRawUsageBytes : Z := 65536.
Definition maximumTokenCount : Z := 1000000000.
Definition maximumUsageCaveatLen : nat := 256.

Definition StatusSuccess : string := "success".
Definition StatusCacheHit : string := "cache_hit".
Definition StatusFailed : string := "failed".
Definition StatusCanceled : string := "cancelled".
Definition StatusStreamCompleted : string := "stream_completed".
Definition StatusStreamInterrupted : string := "stream_interrupted".

Definition UsageSourceUnknown : string := "unknown".
Definition UsageSourceProvider : string := "provider".
Definition UsageSourceCacheReplay : string := "cache_replay".

Record InputTokenDetails := {
  itd_Text : Z;
  itd_Audio : Z;
  itd_Image : Z;
  itd_CachedRead : Z;
  itd_CachedWrite : Z;
}.

Record OutputTokenDetails := {
  otd_Text : Z;
  otd_Audio : Z;
  otd_Reasoning : Z;
  otd_AcceptedPrediction : Z;
  otd_RejectedPrediction : Z;
}.

Record ReportedCost := {
  cost_InputNanoUSD : option Z;
  cost_OutputNanoUSD : option Z;
  cost_TotalNanoUSD : Z;
  cost_Currency : string;
}.

Record TokenUsage := {
  tu_Input : Z;
  tu_Output : Z;
  tu_Total : Z;
  tu_InputDetails : option InputTokenDetails;
  tu_OutputDetails : option OutputTokenDetails;
  tu_ReportedCost : option ReportedCost;
  tu_Raw : string;
}.

Record UsageEvent := {
  e_SchemaVersion : Z;
  e_EventID : string;
  e_RequestID : string;
  e_TenantID : string;
  e_APIKeyID : string;
  e_RequestedModel : string;
  e_ProviderID : string;
  e_UpstreamModel : string;
  e_CacheStatus : string;
  e_Stream : bool;
  e_Attempts : Z;
  e_Retries : Z;
  e_Fallbacks : Z;
  e_Usage : option TokenUsage;
  e_UsageSource : string;
  e_UsageCaveat : string;
  e_FinishReason : string;
  e_Status : string;
  e_ErrorCategory : string;
  e_ErrorCode : string;
  e_StartedAt : Time;
  e_EndedAt : Time;
  e_LatencyMS : Z;
  e_FirstTokenMS : option Z;
}.

Inductive UsageError := usage_error (message : string) | usage_schema_version (version : Z).

(** ** JSON

    The struct types the package unmarshals into. A raw message that the object
    does not have is the empty string. *)

Record Choice := {
  ch_FinishReason : option string;
  ch_Delta : string;
  ch_Message : string;
}.

Record Envelope := { env_Usage : string; env_Choices : list Choice }.

Record providerInputDetails := {
  pid_Text : option Z;
  pid_Audio : option Z;
  pid_Image : option Z;
  pid_Cached : option Z;
  pid_CachedRead : option Z;
  pid_CachedWrite : option Z;
  pid_CacheReadInput : option Z;
  pid_CacheWrite : option Z;
  pid_CacheCreation : option Z;
}.

Record providerOutputDetails := {
  pod_Text : option Z;
  pod_Audio : option Z;
  pod_Reasoning : option Z;
  pod_Thoughts : option Z;
  pod_AcceptedPrediction : option Z;
  pod_RejectedPrediction : option Z;
}.

Record UsageFields := {
  uf_PromptTokens : option Z;
  uf_CompletionTokens : option Z;
  uf_InputTokens : option Z;
  uf_OutputTokens : option Z;
  uf_TotalTokens : option Z;
  uf_CacheReadInputTokens : option Z;
  uf_CacheWriteInputTokens : option Z;
  uf_CacheCreationTokens : option Z;
  uf_PromptDetails : option providerInputDetails;
  uf_InputDetails : option providerInputDetails;
  uf_CompletionDetails : option providerOutputDetails;
  uf_OutputDetails : option providerOutputDetails;
  uf_Cost : string;
}.

Record CostFields := { cf_Input : string; cf_Output : string; cf_Total : string; cf_Currency : string }.

Definition no_choice : Choice := {| ch_FinishReason := None; ch_Delta := ""; ch_Message := "" |}.

Definition decode_choice : decoder Choice := λ c raw,
  ms ← struct_members raw;
  reason ← field "finish_reason" (decode_ptr ""%string decode_string) (ch_FinishReason c) ms;
  delta ← field "delta" decode_raw (ch_Delta c) ms;
  message ← field "message" decode_raw (ch_Message c) ms;
  Some {| ch_FinishReason := reason; ch_Delta := delta; ch_Message := message |}.

Definition json_envelope (payload : string) : option Envelope :=
  ms ← struct_members payload;
  usage ← field "usage" decode_raw ""%string ms;
  choices ← field "choices" (decode_slice no_choice decode_choice) nil_slice ms;
  Some {| env_Usage := usage; env_Choices := sl_elems choices |}.

(** A field of type [*int64]. *)
Definition count (name : string) : option Z → list (string * string) → option (option Z) :=
  field name (decode_ptr 0 decode_int).

Definition decode_input_details : decoder providerInputDetails := λ d raw,
  ms ← struct_members raw;
  t ← count "text_tokens" (pid_Text d) ms;
  a ← count "audio_tokens" (pid_Audio d) ms;
  i ← count "image_tokens" (pid_Image d) ms;
  c ← count "cached_tokens" (pid_Cached d) ms;
  cr ← count "cached_read_tokens" (pid_CachedRead d) ms;
  cw ← count "cached_write_tokens" (pid_CachedWrite d) ms;
  cri ← count "cache_read_input_tokens" (pid_CacheReadInput d) ms;
  w ← count "cache_write_input_tokens" (pid_CacheWrite d) ms;
  cc ← count "cache_creation_input_tokens" (pid_CacheCreation d) ms;
  Some {| pid_Text := t; pid_Audio := a; pid_Image := i; pid_Cached := c; pid_CachedRead := cr;
          pid_CachedWrite := cw; pid_CacheReadInput := cri; pid_CacheWrite := w; pid_CacheCreation := cc |}.

Definition decode_output_details : decoder providerOutputDetails := λ d raw,
  ms ← struct_members raw;
  t ← count "text_tokens" (pod_Text d) ms;
  a ← count "audio_tokens" (pod_Audio d) ms;
  r ← count "reasoning_tokens" (pod_Reasoning d) ms;
  th ← count "thoughts_tokens" (pod_Thoughts d) ms;
  ap ← count "accepted_prediction_tokens" (pod_AcceptedPrediction d) ms;
  rp ← count "rejected_prediction_tokens" (pod_RejectedPrediction d) ms;
  Some {| pod_Text := t; pod_Audio := a; pod_Reasoning := r; pod_Thoughts := th;
          pod_AcceptedPrediction := ap; pod_RejectedPrediction := rp |}.

Definition no_input_details : providerInputDetails :=
  Build_providerInputDetails None None None None None None None None None.
Definition no_output_details : providerOutputDetails :=
  Build_providerOutputDetails None None None None None None.

Definition json_usage (raw : string) : option UsageFields :=
  let input := decode_ptr no_input_details decode_input_details in
  let output := decode_ptr no_output_details decode_output_details in
  ms ← struct_members raw;
  prompt ← count "prompt_tokens" None ms;
  completion ← count "completion_tokens" None ms;
  i ← count "input_tokens" None ms;
  o ← count "output_tokens" None ms;
  total ← count "total_tokens" None ms;
  cri ← count "cache_read_input_tokens" None ms;
  cwi ← count "cache_write_input_tokens" None ms;
  cc ← count "cache_creation_input_tokens" None ms;
  pd ← field "prompt_tokens_details" input None ms;
  id ← field "input_tokens_details" input None ms;
  cd ← field "completion_tokens_details" output None ms;
  od ← field "output_tokens_details" output None ms;
  cost ← field "cost" decode_raw ""%string ms;
  Some {| uf_PromptTokens := prompt; uf_CompletionTokens := completion; uf_InputTokens := i;
          uf_OutputTokens := o; uf_TotalTokens := total; uf_CacheReadInputTokens := cri;
          uf_CacheWriteInputTokens := cwi; uf_CacheCreationTokens := cc; uf_PromptDetails := pd;
          uf_InputDetails := id; uf_CompletionDetails := cd; uf_OutputDetails := od; uf_Cost := cost |}.

Definition json_cost (raw : string) : option CostFields :=
  ms ← struct_members raw;
  input ← field "input_cost" decode_raw ""%string ms;
  output ← field "output_cost" decode_raw ""%string ms;
  total ← field "total_cost" decode_raw ""%string ms;
  currency ← field "currency" decode_string ""%string ms;
  Some {| cf_Input := input; cf_Output := output; cf_Total := total; cf_Currency := currency |}.

(** ** Amounts of money

    [pricing.go]: decimal USD to whole nano-USD. *)

Definition roundedRat (num : Z) (denom : positive) : Z := Z.quot (num + Z.quot (Z.pos denom) 2) (Z.pos denom).

(** [Rat.Mul] by 10^9; the result is in lowest terms. *)
Definition rat_scale (num : Z) (denom : positive) : Z * positive :=
  let num := num * 1000000000 in
  let g := Z.gcd num (Z.pos denom) in
  (num / g, Z.to_pos (Z.pos denom / g)).

Definition parseUSD (raw : string) : option Z :=
  let raw := TrimSpace raw in
  if (raw =? "")%string || HasPrefix raw "-" || HasPrefix raw "+" then None
  else
    match rat_SetString raw with
    | None => None
    | Some (num, denom) =>
        if num <? 0 then None
        else
          let '(num, denom) := rat_scale num denom in
          let rounded := roundedRat num denom in
          if negb (is_int64 rounded) then None else Some rounded
    end.

(** [tokenCost] and [safeAdd] compute with unbounded integers. *)
Definition safeAdd (left right : Z) : option Z :=
  if is_int64 (left + right) then Some (left + right) else None.

(** The items of all caveats, without repetition, in the order they come. *)
Definition add_caveat_item (joined : list string) (item : string) : list string :=
  let item := TrimSpace item in
  if (item =? "")%string then joined
  else if bool_decide (item ∈ joined) then joined
  else joined ++ [item].

Definition caveat_items (caveats : list string) : list string :=
  foldl add_caveat_item [] (concat (map (Split ",") caveats)).

Definition joinCaveats (caveats : list string) : string :=
  let result := String.concat "," (caveat_items caveats) in
  if Z.of_nat maximumUsageCaveatLen <? str_len result
  then take_string maximumUsageCaveatLen result else result.

(** ** Reading an upstream response *)

Definition invalidTokenCount (count : Z) : bool := (count <? 0) || (maximumTokenCount <? count).

Fixpoint firstTokenCount (values : list (option Z)) : option Z :=
  match values with
  | [] => None
  | Some v :: _ => Some v
  | None :: rest => firstTokenCount rest
  end.

Definition tokenValue (value : option Z) : Z := default 0 value.

Definition input_counts (d : InputTokenDetails) : list Z :=
  [itd_Text d; itd_Audio d; itd_Image d; itd_CachedRead d; itd_CachedWrite d].
Definition output_counts (d : OutputTokenDetails) : list Z :=
  [otd_Text d; otd_Audio d; otd_Reasoning d; otd_AcceptedPrediction d; otd_RejectedPrediction d].

Definition invalidInputDetails (d : InputTokenDetails) : bool := existsb invalidTokenCount (input_counts d).
Definition invalidOutputDetails (d : OutputTokenDetails) : bool :=
  existsb invalidTokenCount (output_counts d).

Definition mergeInputDetails (first second : option providerInputDetails) (directRead directWrite : option Z)
  : option InputTokenDetails :=
  let details := match first with Some d => Some d | None => second end in
  match details, directRead, directWrite with
  | None, None, None => None
  | _, _, _ =>
      let result :=
        match details with
        | None => {| itd_Text := 0; itd_Audio := 0; itd_Image := 0; itd_CachedRead := 0;
                     itd_CachedWrite := 0 |}
        | Some d =>
            {| itd_Text := tokenValue (pid_Text d); itd_Audio := tokenValue (pid_Audio d);
               itd_Image := tokenValue (pid_Image d);
               itd_CachedRead :=
                 tokenValue (firstTokenCount [pid_CachedRead d; pid_Cached d; pid_CacheReadInput d]);
               itd_CachedWrite :=
                 tokenValue (firstTokenCount [pid_CachedWrite d; pid_CacheWrite d; pid_CacheCreation d]) |}
        end in
      let result :=
        {| itd_Text := itd_Text result; itd_Audio := itd_Audio result; itd_Image := itd_Image result;
           itd_CachedRead := default (itd_CachedRead result) directRead;
           itd_CachedWrite := default (itd_CachedWrite result) directWrite |} in
      if invalidInputDetails result then None else Some result
  end.

Definition mergeOutputDetails (first second : option providerOutputDetails) : option OutputTokenDetails :=
  match match first with Some d => Some d | None => second end with
  | None => None
  | Some d =>
      let result :=
        {| otd_Text := tokenValue (pod_Text d); otd_Audio := tokenValue (pod_Audio d);
           otd_Reasoning := tokenValue (firstTokenCount [pod_Reasoning d; pod_Thoughts d]);
           otd_AcceptedPrediction := tokenValue (pod_AcceptedPrediction d);
           otd_RejectedPrediction := tokenValue (pod_RejectedPrediction d) |} in
      if invalidOutputDetails result then None else Some result
  end.

(** What [parseResponseMetadata] answers. *)
Record responseMetadata := {
  md_usage : option TokenUsage;
  md_usageCaveat : string;
  md_finishReason : string;
  md_hasChunk : bool;
}.

Definition no_metadata : responseMetadata :=
  {| md_usage := None; md_usageCaveat := ""; md_finishReason := ""; md_hasChunk := false |}.

Definition first_char (s : string) : option ascii := head (list_ascii_of_string s).
Definition last_char (s : string) : option ascii := last (list_ascii_of_string s).

Definition jsonObjectPresent (raw : string) : bool :=
  let raw := TrimSpace raw in
  (1 <? str_len raw) && HasPrefix raw "{" && bool_decide (last_char raw = Some "}"%char).

Section json.
Context `{UnicodeUpper}.

Definition parseUSDJSON (raw : string) : option Z :=
  let raw := TrimSpace raw in
  if (raw =? "")%string || (raw =? "null")%string then None
  else
    value ← (if bool_decide (first_char raw = Some "034"%char) then decode_string "" raw else Some raw);
    parseUSD value.

Definition parseReportedCost (raw : string) : option ReportedCost :=
  let raw := TrimSpace raw in
  if (raw =? "")%string || (raw =? "null")%string then None
  else if negb (HasPrefix raw "{")
  then
    total ← parseUSDJSON raw;
    Some {| cost_InputNanoUSD := None; cost_OutputNanoUSD := None; cost_TotalNanoUSD := total;
            cost_Currency := "USD" |}
  else
    reported ← json_cost raw;
    let input := parseUSDJSON (cf_Input reported) in
    let output := parseUSDJSON (cf_Output reported) in
    total ← match parseUSDJSON (cf_Total reported) with
            | Some total => Some total
            | None =>
                match input, output with
                | None, None => None
                | _, _ => safeAdd (default 0 input) (default 0 output)
                end
            end;
    let currency := ToUpper (TrimSpace (cf_Currency reported)) in
    let currency := if (currency =? "")%string then "USD"%string else currency in
    if negb (currency =? "USD")%string then None
    else Some {| cost_InputNanoUSD := input; cost_OutputNanoUSD := output; cost_TotalNanoUSD := total;
                 cost_Currency := currency |}.

Definition input_details_present (f : UsageFields) : bool :=
  isSome (uf_PromptDetails f) || isSome (uf_InputDetails f) || isSome (uf_CacheReadInputTokens f) ||
  isSome (uf_CacheWriteInputTokens f) || isSome (uf_CacheCreationTokens f).

(** The usage of decoded fields, and the caveats about what had to be dropped. *)
Definition usage_of_fields (f : UsageFields) (input output : option Z) (total : Z)
  : TokenUsage * string :=
  let inputDetails :=
    mergeInputDetails (uf_PromptDetails f) (uf_InputDetails f) (uf_CacheReadInputTokens f)
      (firstTokenCount [uf_CacheWriteInputTokens f; uf_CacheCreationTokens f]) in
  let caveat :=
    if input_details_present f && negb (isSome inputDetails)
    then joinCaveats [""%string; "provider_input_details_invalid"%string] else ""%string in
  let outputDetails := mergeOutputDetails (uf_CompletionDetails f) (uf_OutputDetails f) in
  let caveat :=
    if (isSome (uf_CompletionDetails f) || isSome (uf_OutputDetails f)) && negb (isSome outputDetails)
    then joinCaveats [caveat; "provider_output_details_invalid"%string] else caveat in
  let cost := parseReportedCost (uf_Cost f) in
  let costRaw := TrimSpace (uf_Cost f) in
  let caveat :=
    if negb (costRaw =? "")%string && negb (costRaw =? "null")%string && negb (isSome cost)
    then joinCaveats [caveat; "provider_cost_invalid"%string] else caveat in
  ({| tu_Input := default 0 input; tu_Output := default 0 output; tu_Total := total;
      tu_InputDetails := inputDetails; tu_OutputDetails := outputDetails; tu_ReportedCost := cost;
      tu_Raw := "" |}, caveat).

Definition tu_with_raw (u : TokenUsage) (raw : string) : TokenUsage :=
  {| tu_Input := tu_Input u; tu_Output := tu_Output u; tu_Total := tu_Total u;
     tu_InputDetails := tu_InputDetails u; tu_OutputDetails := tu_OutputDetails u;
     tu_ReportedCost := tu_ReportedCost u; tu_Raw := raw |}.

Definition parseTokenUsage (raw : string) : option TokenUsage * string :=
  if maximumRawUsageBytes <? str_len raw then (None, "provider_usage_oversized"%string)
  else
    match json_usage raw with
    | None => (None, "provider_usage_invalid"%string)
    | Some f =>
        let input := firstTokenCount [uf_PromptTokens f; uf_InputTokens f] in
        let output := firstTokenCount [uf_CompletionTokens f; uf_OutputTokens f] in
        match input, output, uf_TotalTokens f with
        | None, None, None => (None, "provider_usage_missing_tokens"%string)
        | _, _, total =>
            let total := default (wrap_int64 (default 0 input + default 0 output)) total in
            if invalidTokenCount (default 0 input) || invalidTokenCount (default 0 output) ||
               invalidTokenCount total
            then (None, "provider_usage_invalid_tokens"%string)
            else
              let '(usage, caveat) := usage_of_fields f input output total in
              match json_compact raw with
              | Some compact => (Some (tu_with_raw usage compact), caveat)
              | None => (Some usage, joinCaveats [caveat; "provider_usage_raw_omitted"%string])
              end
        end
    end.

Definition observe_choice (metadata : responseMetadata) (choice : Choice) : responseMetadata :=
  let reason := TrimSpace (default "" (ch_FinishReason choice)) in
  let kept := negb (reason =? "")%string && (str_len reason <=? 64) in
  {| md_usage := md_usage metadata;
     md_usageCaveat :=
       if negb (reason =? "")%string && negb kept
       then joinCaveats [md_usageCaveat metadata; "provider_finish_reason_omitted"%string]
       else md_usageCaveat metadata;
     md_finishReason := if kept then reason else md_finishReason metadata;
     md_hasChunk :=
       md_hasChunk metadata || jsonObjectPresent (ch_Delta choice) || jsonObjectPresent (ch_Message choice) |}.

Definition parseResponseMetadata (payload : string) : responseMetadata :=
  match json_envelope payload with
  | None => no_metadata
  | Some envelope =>
      let metadata := foldl observe_choice no_metadata (env_Choices envelope) in
      let raw := TrimSpace (env_Usage envelope) in
      if (raw =? "")%string || (raw =? "null")%string then metadata
      else
        let '(usage, caveat) := parseTokenUsage (env_Usage envelope) in
        {| md_usage := usage;
           md_usageCaveat := joinCaveats [md_usageCaveat metadata; caveat];
           md_finishReason := md_finishReason metadata; md_hasChunk := md_hasChunk metadata |}
  end.
End json.

(** ** Validation *)

Definition validRequiredText (value : string) (maximum : Z) : bool :=
  bool_decide (value = TrimSpace value) && (0 <? str_len value) && (str_len value <=? maximum).

Definition validCacheStatus (status : string) : bool :=
  (status =? "bypass")%string || (status =? "miss")%string || (status =? "hit")%string.

Definition validUsageStatus (status : string) : bool :=
  existsb (String.eqb status) [StatusSuccess; StatusCacheHit; StatusFailed; StatusCanceled;
    StatusStreamCompleted; StatusStreamInterrupted].

Definition failedStatus (status : string) : bool :=
  (status =? StatusFailed)%string || (status =? StatusCanceled)%string ||
  (status =? StatusStreamInterrupted)%string.

Definition negative (value : option Z) : bool := match value with Some v => v <? 0 | None => false end.

Definition reported_cost_invalid (c : ReportedCost) : bool :=
  negb (cost_Currency c =? "USD")%string || (cost_TotalNanoUSD c <? 0) ||
  negative (cost_InputNanoUSD c) || negative (cost_OutputNanoUSD c).

(** [opt p o]: [o] is set and [p] holds of it. *)
Definition opt {A} (p : A → bool) (o : option A) : bool := match o with Some a => p a | None => false end.

Definition TokenUsage_validate (usage : TokenUsage) : option UsageError :=
  first_error
    [(invalidTokenCount (tu_Input usage) || invalidTokenCount (tu_Output usage) ||
        invalidTokenCount (tu_Total usage), usage_error "usage token counts are invalid");
     (opt invalidInputDetails (tu_InputDetails usage),
        usage_error "usage input token details are invalid");
     (opt invalidOutputDetails (tu_OutputDetails usage),
        usage_error "usage output token details are invalid");
     ((maximumRawUsageBytes <? str_len (tu_Raw usage)) ||
        (0 <? str_len (tu_Raw usage)) && negb (json_valid (tu_Raw usage)),
        usage_error "usage raw data is invalid");
     (opt reported_cost_invalid (tu_ReportedCost usage), usage_error "usage reported cost is invalid")].

Definition inferredUsageSource (event : UsageEvent) : string :=
  match e_Usage event with
  | None => UsageSourceUnknown
  | Some _ =>
      if (e_Status event =? StatusCacheHit)%string then UsageSourceCacheReplay else UsageSourceProvider
  end.

(** [Duration.Milliseconds]. *)
Definition Milliseconds (d : Duration) : Z := Z.quot d millisecond.

Definition Event_Validate (event : UsageEvent) : option UsageError :=
  let hit := (e_Status event =? StatusCacheHit)%string in
  let source := e_UsageSource event in
  match
    first_error
      [((e_SchemaVersion event <? minimumSchemaVersion) || (SchemaVersion <? e_SchemaVersion event),
          usage_schema_version (e_SchemaVersion event));
       (negb (validRequiredText (e_EventID event) 64), usage_error "usage event ID is invalid");
       (negb (validRequiredText (e_RequestID event) 128), usage_error "usage request ID is invalid");
       (negb (validRequiredText (e_TenantID event) 128), usage_error "usage tenant ID is invalid");
       ((2 <=? e_SchemaVersion event) && negb (validRequiredText (e_APIKeyID event) 64),
          usage_error "usage API key ID is invalid");
       (negb (validRequiredText (e_RequestedModel event) 200),
          usage_error "usage requested model is invalid");
       ((100 <? str_len (e_ProviderID event)) || (200 <? str_len (e_UpstreamModel event)),
          usage_error "usage route metadata is too long");
       (negb (validCacheStatus (e_CacheStatus event)), usage_error "usage cache status is invalid");
       ((e_Attempts event <? 0) || (e_Retries event <? 0) || (e_Fallbacks event <? 0),
          usage_error "usage reliability counters must not be negative");
       (negb (validUsageStatus (e_Status event)), usage_error "usage status is invalid");
       ((64 <? str_len (e_ErrorCategory event)) || (100 <? str_len (e_ErrorCode event)),
          usage_error "usage error metadata is too long");
       ((64 <? str_len (e_FinishReason event)) ||
          (Z.of_nat maximumUsageCaveatLen <? str_len (e_UsageCaveat event)),
          usage_error "usage response metadata is too long");
       (time_is_zero (e_StartedAt event) || time_is_zero (e_EndedAt event) ||
          time_before (e_EndedAt event) (e_StartedAt event),
          usage_error "usage timestamps are invalid");
       (e_LatencyMS event <? 0, usage_error "usage latency must not be negative");
       (negb (e_LatencyMS event =? Milliseconds (time_sub (e_EndedAt event) (e_StartedAt event))),
          usage_error "usage latency does not match timestamps");
       (opt (λ t, (t <? 0) || (e_LatencyMS event <? t)) (e_FirstTokenMS event),
          usage_error "usage first token latency is invalid");
       (negb (source =? UsageSourceUnknown)%string && negb (source =? UsageSourceProvider)%string &&
          negb (source =? UsageSourceCacheReplay)%string, usage_error "usage source is invalid");
       (negb (isSome (e_Usage event)) && negb (source =? UsageSourceUnknown)%string,
          usage_error "usage source requires token data");
       (isSome (e_Usage event) && (source =? UsageSourceUnknown)%string && (2 <=? e_SchemaVersion event),
          usage_error "usage token data requires a source");
       ((source =? UsageSourceCacheReplay)%string && negb hit,
          usage_error "cache replay usage requires a cache hit");
       (hit && (e_Stream event || negb (e_CacheStatus event =? "hit")%string ||
          isSome (e_Usage event) && negb (source =? UsageSourceCacheReplay)%string),
          usage_error "usage cache hit metadata is inconsistent");
       (negb hit && (e_CacheStatus event =? "hit")%string,
          usage_error "usage cache status is inconsistent");
       ((e_Status event =? StatusStreamCompleted)%string && negb (e_Stream event),
          usage_error "stream completion requires a stream request");
       ((e_Status event =? StatusStreamInterrupted)%string && negb (e_Stream event),
          usage_error "stream interruption requires a stream request");
       (isSome (e_FirstTokenMS event) && negb (e_Stream event),
          usage_error "first token latency requires a stream request");
       (failedStatus (e_Status event) &&
          ((e_ErrorCategory event =? "")%string || (e_ErrorCode event =? "")%string),
          usage_error "usage failure metadata is required")]
  with
  | Some e => Some e
  | None => match e_Usage event with Some usage => TokenUsage_validate usage | None => None end
  end.

Definition e_with_source (event : UsageEvent) (source : string) : UsageEvent :=
  let 'Build_UsageEvent version id request tenant key model provider upstream cache stream attempts
         retries fallbacks usage _ caveat reason status category code started ended latency first := event in
  Build_UsageEvent version id request tenant key model provider upstream cache stream attempts
    retries fallbacks usage source caveat reason status category code started ended latency first.

(** ** What is read from an upstream is valid *)

Lemma joinCaveats_length caveats : str_len (joinCaveats caveats) ≤ Z.of_nat maximumUsageCaveatLen.
Proof.
  unfold joinCaveats. destruct (Z.ltb_spec (Z.of_nat maximumUsageCaveatLen)
    (str_len (String.concat "," (caveat_items caveats)))); [apply str_len_take | done].
Qed.

Lemma invalidTokenCount_false n : invalidTokenCount n = false ↔ 0 ≤ n ≤ maximumTokenCount.
Proof. unfold invalidTokenCount. rewrite orb_false_iff, !Z.ltb_ge. lia. Qed.

Lemma roundedRat_nonneg num denom : 0 ≤ num → 0 ≤ roundedRat num denom.
Proof.
  intros Hn. unfold roundedRat. apply Z.quot_pos; [|lia].
  pose proof (Z.quot_pos (Z.pos denom) 2). lia.
Qed.

Lemma rat_scale_nonneg num denom : 0 ≤ num → 0 ≤ (rat_scale num denom).1.
Proof.
  intros Hn. unfold rat_scale. cbn. apply Z.div_pos; [lia|].
  pose proof (Z.gcd_nonneg (num * 1000000000) (Z.pos denom)).
  assert (Z.gcd (num * 1000000000) (Z.pos denom) ≠ 0); [|lia].
  intros Hz. apply Z.gcd_eq_0 in Hz. lia.
Qed.

Lemma parseUSD_range raw n : parseUSD raw = Some n → 0 ≤ n ≤ int64_max.
Proof.
  unfold parseUSD. destruct (_ || _); [done|]. destruct (rat_SetString _) as [[num denom]|]; [|done].
  destruct (Z.ltb_spec num 0); [done|]. pose proof (rat_scale_nonneg num denom) as Hs.
  destruct (rat_scale num denom) as [num' denom']. cbn in Hs.
  destruct (is_int64 _) eqn:Hi; [|done]. intros [= <-]. apply is_int64_spec in Hi.
  pose proof (roundedRat_nonneg num' denom'). destruct Hi. lia.
Qed.

Lemma mergeInputDetails_valid a b c d details :
  mergeInputDetails a b c d = Some details → invalidInputDetails details = false.
Proof.
  unfold mergeInputDetails. intros Hm.
  destruct (match a with Some d => Some d | None => b end), c, d; try done;
    destruct (invalidInputDetails _) eqn:Hi in Hm; simplify_eq; done.
Qed.

Lemma mergeOutputDetails_valid a b details :
  mergeOutputDetails a b = Some details → invalidOutputDetails details = false.
Proof.
  unfold mergeOutputDetails. destruct (match a with Some d => Some d | None => b end); [|done].
  cbn zeta. destruct (invalidOutputDetails _) eqn:Hi; [done|]. by intros [= <-].
Qed.

Lemma not_negative o : (∀ v, o = Some v → 0 ≤ v) → negative o = false.
Proof. destruct o as [v|]; cbn; [|done]. intros Ho. apply Z.ltb_ge. by apply Ho. Qed.

Section json_facts.
Context `{UnicodeUpper}.

Lemma parseUSDJSON_nonneg raw n : parseUSDJSON raw = Some n → 0 ≤ n.
Proof.
  unfold parseUSDJSON. destruct (_ || _); [done|]. intros Hp.
  apply bind_Some in Hp as (value & _ & Hp). apply parseUSD_range in Hp. lia.
Qed.

Lemma parseReportedCost_valid raw c : parseReportedCost raw = Some c → reported_cost_invalid c = false.
Proof.
  unfold parseReportedCost. destruct (_ || _); [done|]. destruct (negb (HasPrefix _ _)).
  { intros Hp. apply bind_Some in Hp as (total & Ht & [= <-]). apply parseUSDJSON_nonneg in Ht.
    unfold reported_cost_invalid. cbn. rewrite !orb_false_r. by apply Z.ltb_ge. }
  intros Hp. apply bind_Some in Hp as (reported & _ & Hp). apply bind_Some in Hp as (total & Ht & Hp).
  destruct (negb (_ =? "USD")%string) eqn:Hc; [done|]. injection Hp as <-.
  unfold reported_cost_invalid. cbn. rewrite Hc. cbn.
  rewrite !not_negative by (intros v Hv; by eapply parseUSDJSON_nonneg). rewrite !orb_false_r.
  apply Z.ltb_ge. destruct (parseUSDJSON (cf_Total reported)) as [t|] eqn:Htot.
  { injection Ht as <-. by eapply parseUSDJSON_nonneg. }
  assert (∀ raw, 0 ≤ default 0 (parseUSDJSON raw)) as Hd.
  { intros r. destruct (parseUSDJSON r) as [v|] eqn:Hr; cbn; [by eapply parseUSDJSON_nonneg | done]. }
  pose proof (Hd (cf_Input reported)). pose proof (Hd (cf_Output reported)). unfold safeAdd in Ht.
  destruct (parseUSDJSON (cf_Input reported)), (parseUSDJSON (cf_Output reported)); try done;
    cbn in *; destruct (is_int64 _); simplify_eq; lia.
Qed.

Lemma usage_of_fields_facts f input output total :
  let '(u, caveat) := usage_of_fields f input output total in
  tu_Input u = default 0 input ∧ tu_Output u = default 0 output ∧ tu_Total u = total ∧
  opt invalidInputDetails (tu_InputDetails u) = false ∧
  opt invalidOutputDetails (tu_OutputDetails u) = false ∧
  opt reported_cost_invalid (tu_ReportedCost u) = false ∧ tu_Raw u = ""%string ∧
  str_len caveat ≤ Z.of_nat maximumUsageCaveatLen.
Proof.
  unfold usage_of_fields. cbn -[joinCaveats maximumUsageCaveatLen]. repeat split.
  - destruct (mergeInputDetails _ _ _ _) eqn:Hm; [by apply mergeInputDetails_valid in Hm | done].
  - destruct (mergeOutputDetails _ _) eqn:Hm; [by apply mergeOutputDetails_valid in Hm | done].
  - destruct (parseReportedCost _) eqn:Hm; [by apply parseReportedCost_valid in Hm | done].
  - repeat case_match; try apply joinCaveats_length; by vm_compute.
Qed.

(** A usage that is read passes the validation of the event it goes into. *)
Lemma parseTokenUsage_valid raw :
  let '(usage, caveat) := parseTokenUsage raw in
  str_len caveat ≤ Z.of_nat maximumUsageCaveatLen ∧
  match usage with Some u => TokenUsage_validate u = None | None => True end.
Proof.
  unfold parseTokenUsage. destruct (Z.ltb_spec maximumRawUsageBytes (str_len raw)); [by vm_compute|].
  destruct (json_usage raw) as [f|]; [|by vm_compute]. cbn zeta.
  set (input := firstTokenCount _). set (output := firstTokenCount [_; uf_OutputTokens f]).
  assert (∀ total,
    let '(usage, caveat) :=
      if invalidTokenCount (default 0 input) || invalidTokenCount (default 0 output) ||
         invalidTokenCount total
      then (None, "provider_usage_invalid_tokens"%string)
      else
        let '(usage, caveat) := usage_of_fields f input output total in
        match json_compact raw with
        | Some compact => (Some (tu_with_raw usage compact), caveat)
        | None => (Some usage, joinCaveats [caveat; "provider_usage_raw_omitted"%string])
        end in
    str_len caveat ≤ Z.of_nat maximumUsageCaveatLen ∧
    match usage with Some u => TokenUsage_validate u = None | None => True end) as Hgo.
  { intros total. destruct (_ || _) eqn:Hinv; [by vm_compute|].
    pose proof (usage_of_fields_facts f input output total) as Hf.
    destruct (usage_of_fields f input output total) as [u caveat].
    destruct Hf as (Hi & Ho & Ht & Hid & Hod & Hrc & Hraw & Hcav).
    destruct (json_compact raw) as [compact|] eqn:Hcomp.
    - destruct (json_compact_ok _ _ Hcomp) as [Hcv Hcl].
      split; [done|]. apply first_error_none. repeat constructor; cbn;
        rewrite ?Hi, ?Ho, ?Ht, ?Hcv, ?andb_false_r, ?orb_false_r; try done.
      apply Z.ltb_ge. lia.
    - split; [apply joinCaveats_length|]. apply first_error_none. repeat constructor; cbn;
        rewrite ?Hi, ?Ho, ?Ht, ?Hraw; done. }
  destruct input as [i|]; [apply Hgo|]. destruct output as [o|]; [apply Hgo|].
  destruct (uf_TotalTokens f) as [t|]; [apply Hgo | by vm_compute].
Qed.

Record metadata_ok (md : responseMetadata) : Prop := {
  mo_usage : ∀ u, md_usage md = Some u → TokenUsage_validate u = None;
  mo_caveat : str_len (md_usageCaveat md) ≤ Z.of_nat maximumUsageCaveatLen;
  mo_reason : str_len (md_finishReason md) ≤ 64;
}.

Lemma observe_choice_ok md choice : metadata_ok md → metadata_ok (observe_choice md choice).
Proof.
  intros [Hu Hc Hr]. unfold observe_choice. constructor; cbn -[joinCaveats maximumUsageCaveatLen].
  - done.
  - destruct (_ && _); [apply joinCaveats_length | done].
  - destruct (_ && _) eqn:Hk; [|done]. apply andb_true_iff in Hk as [_ Hk]. by apply Z.leb_le.
Qed.

Lemma parseResponseMetadata_ok payload : metadata_ok (parseResponseMetadata payload).
Proof.
  assert (metadata_ok no_metadata) as Hno by (constructor; [done | by vm_compute..]).
  unfold parseResponseMetadata. destruct (json_envelope payload) as [envelope|]; [|done].
  assert (metadata_ok (foldl observe_choice no_metadata (env_Choices envelope))) as Hm.
  { generalize no_metadata, Hno. induction (env_Choices envelope) as [|ch chs IH]; [done|].
    intros md Hmd. apply IH. by apply observe_choice_ok. }
  destruct (_ || _); [done|]. pose proof (parseTokenUsage_valid (env_Usage envelope)) as Hp.
  destruct (parseTokenUsage _) as [usage caveat]. destruct Hp as [_ Hp]. destruct Hm as [_ _ Hr].
  constructor; cbn -[joinCaveats maximumUsageCaveatLen]; [|apply joinCaveats_length | done].
  intros u ->. done.
Qed.
End json_facts.
