(* ===== verification/UsageJson.v ===== *)
(** * Usage events as JSON

    [Event.Marshal] and [Decode] of [src/internal/usage/event.go]: the text of an
    event is what travels through the outbox table and the Redis stream. An event
    that is written is read back unchanged, except that its raw usage data comes
    back compact and escaped for HTML. *)

From S2P Require Import Prelude Encoding Json JsonWrite JsonCodec BigRat Calendar Usage.

(** ** Writing *)

Definition encode_time (t : Time) : option string :=
  s ← format_RFC3339Nano t; Some (String quote_byte (s +:+ String quote_byte "")).

Definition encode_InputTokenDetails (d : InputTokenDetails) : string :=
  encode_object
    (opt_field "text" (nonzero_int (itd_Text d)) ++ opt_field "audio" (nonzero_int (itd_Audio d)) ++
     opt_field "image" (nonzero_int (itd_Image d)) ++ opt_field "cached_read" (nonzero_int (itd_CachedRead d)) ++
     opt_field "cached_write" (nonzero_int (itd_CachedWrite d)) ++ []).

Definition encode_OutputTokenDetails (d : OutputTokenDetails) : string :=
  encode_object
    (opt_field "text" (nonzero_int (otd_Text d)) ++ opt_field "audio" (nonzero_int (otd_Audio d)) ++
     opt_field "reasoning" (nonzero_int (otd_Reasoning d)) ++
     opt_field "accepted_prediction" (nonzero_int (otd_AcceptedPrediction d)) ++
     opt_field "rejected_prediction" (nonzero_int (otd_RejectedPrediction d)) ++ []).

Definition encode_ReportedCost (c : ReportedCost) : string :=
  encode_object
    (opt_field "input_nano_usd" (encode_int <$> cost_InputNanoUSD c) ++
     opt_field "output_nano_usd" (encode_int <$> cost_OutputNanoUSD c) ++
     [("total_nano_usd", encode_int (cost_TotalNanoUSD c)); ("currency", encode_string (cost_Currency c))]).

(** [omitempty] of a raw message. *)
Definition encode_optional_raw (raw : string) : option (option string) :=
  if (raw =? "")%string then Some None else Some <$> encode_raw raw.

Definition encode_TokenUsage (u : TokenUsage) : option string :=
  raw ← encode_optional_raw (tu_Raw u);
  Some (encode_object
    ([("input", encode_int (tu_Input u)); ("output", encode_int (tu_Output u));
      ("total", encode_int (tu_Total u))] ++
     opt_field "input_details" (encode_InputTokenDetails <$> tu_InputDetails u) ++
     opt_field "output_details" (encode_OutputTokenDetails <$> tu_OutputDetails u) ++
     opt_field "reported_cost" (encode_ReportedCost <$> tu_ReportedCost u) ++
     opt_field "raw" raw ++ [])).

Definition encode_optional_usage (usage : option TokenUsage) : option (option string) :=
  match usage with None => Some None | Some u => Some <$> encode_TokenUsage u end.

(** [json.Marshal] of an event; [None] when a time or the raw usage data cannot
    be written. *)
Definition encode_event (event : UsageEvent) : option string :=
  usage ← encode_optional_usage (e_Usage event);
  started ← encode_time (e_StartedAt event);
  ended ← encode_time (e_EndedAt event);
  Some (encode_object
    ([("schema_version", encode_int (e_SchemaVersion event)); ("event_id", encode_string (e_EventID event));
      ("request_id", encode_string (e_RequestID event)); ("tenant_id", encode_string (e_TenantID event))] ++
     opt_field "api_key_id" (nonempty_string (e_APIKeyID event)) ++
     ("requested_model", encode_string (e_RequestedModel event)) ::
     opt_field "provider_id" (nonempty_string (e_ProviderID event)) ++
     opt_field "upstream_model" (nonempty_string (e_UpstreamModel event)) ++
     ("cache_status", encode_string (e_CacheStatus event)) :: ("stream", encode_bool (e_Stream event)) ::
     ("attempts", encode_int (e_Attempts event)) :: ("retries", encode_int (e_Retries event)) ::
     ("fallbacks", encode_int (e_Fallbacks event)) ::
     opt_field "usage" usage ++ opt_field "usage_source" (nonempty_string (e_UsageSource event)) ++
     opt_field "usage_caveat" (nonempty_string (e_UsageCaveat event)) ++
     opt_field "finish_reason" (nonempty_string (e_FinishReason event)) ++
     ("status", encode_string (e_Status event)) ::
     opt_field "error_category" (nonempty_string (e_ErrorCategory event)) ++
     opt_field "error_code" (nonempty_string (e_ErrorCode event)) ++
     ("started_at", started) :: ("ended_at", ended) :: ("latency_ms", encode_int (e_LatencyMS event)) ::
     opt_field "first_token_ms" (encode_int <$> e_FirstTokenMS event) ++ [])).

Definition Marshal (event : UsageEvent) : result UsageError string :=
  match Event_Validate event with
  | Some e => Err e
  | None =>
      match encode_event event with
      | Some payload => Ok payload
      | None => Err (usage_error "marshal usage event")
      end
  end.

(** ** Reading *)

(** [Time.UnmarshalJSON]. *)
Definition decode_time : decoder Time := λ old raw,
  raw ← value_text raw;
  if (raw =? "null")%string then Some old
  else if isSome (strip quote_byte raw)
       then parse_RFC3339 (String.substring 1 (String.length raw - 2) raw) else None.

Definition decode_InputTokenDetails : decoder InputTokenDetails := λ d raw,
  ms ← struct_members raw;
  t ← field "text" decode_int (itd_Text d) ms;
  a ← field "audio" decode_int (itd_Audio d) ms;
  i ← field "image" decode_int (itd_Image d) ms;
  r ← field "cached_read" decode_int (itd_CachedRead d) ms;
  w ← field "cached_write" decode_int (itd_CachedWrite d) ms;
  Some {| itd_Text := t; itd_Audio := a; itd_Image := i; itd_CachedRead := r; itd_CachedWrite := w |}.

Definition decode_OutputTokenDetails : decoder OutputTokenDetails := λ d raw,
  ms ← struct_members raw;
  t ← field "text" decode_int (otd_Text d) ms;
  a ← field "audio" decode_int (otd_Audio d) ms;
  r ← field "reasoning" decode_int (otd_Reasoning d) ms;
  ap ← field "accepted_prediction" decode_int (otd_AcceptedPrediction d) ms;
  rp ← field "rejected_prediction" decode_int (otd_RejectedPrediction d) ms;
  Some {| otd_Text := t; otd_Audio := a; otd_Reasoning := r; otd_AcceptedPrediction := ap;
          otd_RejectedPrediction := rp |}.

Definition decode_ReportedCost : decoder ReportedCost := λ c raw,
  ms ← struct_members raw;
  i ← field "input_nano_usd" (decode_ptr 0 decode_int) (cost_InputNanoUSD c) ms;
  o ← field "output_nano_usd" (decode_ptr 0 decode_int) (cost_OutputNanoUSD c) ms;
  t ← field "total_nano_usd" decode_int (cost_TotalNanoUSD c) ms;
  cur ← field "currency" decode_string (cost_Currency c) ms;
  Some {| cost_InputNanoUSD := i; cost_OutputNanoUSD := o; cost_TotalNanoUSD := t; cost_Currency := cur |}.

Definition zero_input : InputTokenDetails := Build_InputTokenDetails 0 0 0 0 0.
Definition zero_output : OutputTokenDetails := Build_OutputTokenDetails 0 0 0 0 0.
Definition zero_cost : ReportedCost := Build_ReportedCost None None 0 "".
Definition zero_usage : TokenUsage := Build_TokenUsage 0 0 0 None None None "".

Definition decode_TokenUsage : decoder TokenUsage := λ u raw,
  ms ← struct_members raw;
  i ← field "input" decode_int (tu_Input u) ms;
  o ← field "output" decode_int (tu_Output u) ms;
  t ← field "total" decode_int (tu_Total u) ms;
  id ← field "input_details" (decode_ptr zero_input decode_InputTokenDetails) (tu_InputDetails u) ms;
  od ← field "output_details" (decode_ptr zero_output decode_OutputTokenDetails) (tu_OutputDetails u) ms;
  c ← field "reported_cost" (decode_ptr zero_cost decode_ReportedCost) (tu_ReportedCost u) ms;
  r ← field "raw" decode_raw (tu_Raw u) ms;
  Some {| tu_Input := i; tu_Output := o; tu_Total := t; tu_InputDetails := id; tu_OutputDetails := od;
          tu_ReportedCost := c; tu_Raw := r |}.

Definition json_event (payload : string) : option UsageEvent :=
  ms ← struct_members payload;
  version ← field "schema_version" decode_int 0 ms;
  id ← field "event_id" decode_string ""%string ms;
  request ← field "request_id" decode_string ""%string ms;
  tenant ← field "tenant_id" decode_string ""%string ms;
  key ← field "api_key_id" decode_string ""%string ms;
  model ← field "requested_model" decode_string ""%string ms;
  provider ← field "provider_id" decode_string ""%string ms;
  upstream ← field "upstream_model" decode_string ""%string ms;
  cache ← field "cache_status" decode_string ""%string ms;
  stream ← field "stream" decode_bool false ms;
  attempts ← field "attempts" decode_int 0 ms;
  retries ← field "retries" decode_int 0 ms;
  fallbacks ← field "fallbacks" decode_int 0 ms;
  usage ← field "usage" (decode_ptr zero_usage decode_TokenUsage) None ms;
  source ← field "usage_source" decode_string ""%string ms;
  caveat ← field "usage_caveat" decode_string ""%string ms;
  reason ← field "finish_reason" decode_string ""%string ms;
  status ← field "status" decode_string ""%string ms;
  category ← field "error_category" decode_string ""%string ms;
  code ← field "error_code" decode_string ""%string ms;
  started ← field "started_at" decode_time 0 ms;
  ended ← field "ended_at" decode_time 0 ms;
  latency ← field "latency_ms" decode_int 0 ms;
  first ← field "first_token_ms" (decode_ptr 0 decode_int) None ms;
  Some (Build_UsageEvent version id request tenant key model provider upstream cache stream attempts
    retries fallbacks usage source caveat reason status category code started ended latency first).

Definition Decode (payload : string) : result UsageError UsageEvent :=
  match json_event payload with
  | None => Err (usage_error "decode usage event JSON")
  | Some event =>
      let event :=
        if (e_SchemaVersion event =? 1) && (e_UsageSource event =? "")%string
        then e_with_source event (inferredUsageSource event) else event in
      match Event_Validate event with
      | Some e => Err e
      | None => Ok event
      end
  end.

(** ** What is written is read back *)

Lemma time_char_plain c :
  (is_digit c || (c =? "-")%char || (c =? "T")%char || (c =? ":")%char || (c =? ".")%char || (c =? "Z")%char) = true →
  plain_byte (byte_of c) = true.
Proof.
  unfold plain_byte, is_digit. pose proof (byte_of_range c) as Hr. unfold is_byte in Hr.
  rewrite !orb_true_iff, !Ascii.eqb_eq. intros [[[[[Hd| ->]| ->]| ->]| ->]| ->]; [lia|done..].
Qed.

Lemma plain_string_read s t :
  Forall (λ c, plain_byte (byte_of c) = true) (list_ascii_of_string s) →
  skip_str (s +:+ String quote_byte t) = Some t.
Proof.
  induction s as [|c s IH]; [done|]. cbn [list_ascii_of_string]. intros [Hc Hs]%Forall_cons.
  rewrite append_cons. rewrite <-(byte_ascii_of c). rewrite plain_byte_read by done. by apply IH.
Qed.

Lemma digit_char_plain n : 0 ≤ n < 10 → plain_byte (byte_of (digit_char n)) = true.
Proof.
  intros Hn. unfold digit_char, byte_of. rewrite N_ascii_embedding by lia. rewrite Z2N.id by lia.
  unfold plain_byte. lia.
Qed.

Lemma digits2_plain n : 0 ≤ n < 100 → Forall (λ c, plain_byte (byte_of c) = true) (digits2 n).
Proof. intros Hn. unfold digits2. repeat constructor; apply digit_char_plain; divide. Qed.

Lemma format_plain t s :
  format_RFC3339Nano t = Some s → Forall (λ c, plain_byte (byte_of c) = true) (list_ascii_of_string s).
Proof.
  unfold format_RFC3339Nano. pose proof (civil_year (t / day)) as Hc.
  destruct (civil (t / day)) as [y yday]. destruct Hc as [_ Hy].
  destruct (month_of_facts (y + 1) yday Hy) as (Hm & _ & Hmd & Hmd'). revert Hm Hmd Hmd'.
  generalize (month_of (is_leap (y + 1)) yday), (yday - month_offset (is_leap (y + 1)) yday + 1).
  intros m mday Hm Hmd Hmd'. destruct (_ || _) eqn:Hrange; [done|]. intros <-%(inj Some).
  rewrite list_ascii_of_string_of_list_ascii. destruct (clock_parts t) as (Hh & Hmin & Hsec & Hn & _).
  apply orb_false_iff in Hrange as [Hlo Hhi]. destruct (year_digits (y + 1)) as (Hc & Hc' & _); [lia|].
  assert (Forall (λ c, plain_byte (byte_of c) = true) (format_fraction (t mod second))) as Hf.
  { unfold format_fraction. pose proof (trim_zeros_digits (t mod second)) as Hds.
    destruct (trim_zeros _); [done|]. constructor; [done|]. apply Forall_map.
    eapply Forall_impl; [done|]. intros. by apply digit_char_plain. }
  repeat (apply Forall_app; split); try (apply digits2_plain; lia); try done; by repeat constructor.
Qed.

Lemma encode_time_ok t s d :
  encode_time t = Some s → value_at d s ∧ ∀ old, encodes decode_time old (Some s) t.
Proof.
  unfold encode_time. intros (f & Hf & [= <-])%bind_Some.
  assert (∀ d, value_at d (String quote_byte (f +:+ String quote_byte ""))) as Hv.
  { intros d'. apply value_at_flat. cbn [skip_flat]. change ((quote_byte =? quote_byte)%char) with true. cbv iota.
    by apply plain_string_read, (format_plain t). }
  split; [done|]. intros old. cbn [encodes]. unfold decode_time.
  destruct (value_at_text maxNestingDepth _ (Hv _) ltac:(done)) as [_ ->].
  cbn [mbind option_bind]. destruct (String.eqb_spec (String quote_byte (f +:+ String quote_byte "")) "null"); [done|].
  rewrite strip_cons. cbn [isSome]. rewrite substring_literal. by apply parse_format.
Qed.

Lemma token_int64 n : invalidTokenCount n = false → in_int64 n.
Proof. rewrite invalidTokenCount_false. unfold in_int64, maximumTokenCount, int64_min, int64_max. lia. Qed.

Lemma input_counts_int64 d : invalidInputDetails d = false → Forall in_int64 (input_counts d).
Proof.
  unfold invalidInputDetails. intros Hd. rewrite Forall_forall. intros n Hn%list_elem_of_In.
  apply token_int64. destruct (invalidTokenCount n) eqn:Hi; [|done].
  assert (existsb invalidTokenCount (input_counts d) = true) by (apply existsb_exists; eauto). congruence.
Qed.

Lemma output_counts_int64 d : invalidOutputDetails d = false → Forall in_int64 (output_counts d).
Proof.
  unfold invalidOutputDetails. intros Hd. rewrite Forall_forall. intros n Hn%list_elem_of_In.
  apply token_int64. destruct (invalidTokenCount n) eqn:Hi; [|done].
  assert (existsb invalidTokenCount (output_counts d) = true) by (apply existsb_exists; eauto). congruence.
Qed.

Lemma InputTokenDetails_written d depth :
  invalidInputDetails d = false → 1 ≤ depth ≤ maxNestingDepth →
  written zero_input decode_InputTokenDetails depth d (encode_InputTokenDetails d).
Proof.
  intros Hd%input_counts_int64 Hdep. destruct d as [t a i r w]. unfold input_counts in Hd. cbn in Hd.
  rewrite !Forall_cons in Hd. destruct Hd as (? & ? & ? & ? & ? & _). apply written_object; [done| |].
  - solve_good; by apply nonzero_value.
  - unfold decode_InputTokenDetails. read_struct Hms. cbn [itd_Text itd_Audio itd_Image itd_CachedRead itd_CachedWrite zero_input].
    do 5 (step_field; [by apply encodes_nonzero|]). done.
Qed.

Lemma OutputTokenDetails_written d depth :
  invalidOutputDetails d = false → 1 ≤ depth ≤ maxNestingDepth →
  written zero_output decode_OutputTokenDetails depth d (encode_OutputTokenDetails d).
Proof.
  intros Hd%output_counts_int64 Hdep. destruct d as [t a r ap rp]. unfold output_counts in Hd. cbn in Hd.
  rewrite !Forall_cons in Hd. destruct Hd as (? & ? & ? & ? & ? & _). apply written_object; [done| |].
  - solve_good; by apply nonzero_value.
  - unfold decode_OutputTokenDetails. read_struct Hms.
    cbn [otd_Text otd_Audio otd_Reasoning otd_AcceptedPrediction otd_RejectedPrediction zero_output].
    do 5 (step_field; [by apply encodes_nonzero|]). done.
Qed.

(** The 64-bit integers of a reported cost. *)
Definition cost_typed (c : ReportedCost) : Prop :=
  in_int64 (cost_TotalNanoUSD c) ∧
  (∀ z, cost_InputNanoUSD c = Some z → in_int64 z) ∧ (∀ z, cost_OutputNanoUSD c = Some z → in_int64 z).

Lemma ReportedCost_written c depth :
  reported_cost_invalid c = false → cost_typed c → 1 ≤ depth ≤ maxNestingDepth →
  written zero_cost decode_ReportedCost depth c (encode_ReportedCost c).
Proof.
  intros Hc (Ht & Hi & Ho) Hdep. destruct c as [i o t cur]. cbn in Ht, Hi, Ho.
  unfold reported_cost_invalid in Hc. cbn in Hc. rewrite !orb_false_iff, negb_false_iff, String.eqb_eq in Hc.
  destruct Hc as [[[-> _] _] _]. apply written_object; [done| |].
  - solve_good; [apply fmap_value..| |].
    + intros z Hz. by apply encode_int_value, Hi.
    + intros z Hz. by apply encode_int_value, Ho.
    + by apply encode_int_value.
    + apply encode_string_value.
  - unfold decode_ReportedCost. read_struct Hms.
    cbn [cost_InputNanoUSD cost_OutputNanoUSD cost_TotalNanoUSD cost_Currency zero_cost].
    step_field; [by apply encodes_ptr_int|]. step_field; [by apply encodes_ptr_int|].
    step_field; [by apply encodes_int|]. step_field; [by apply encodes_string|]. done.
Qed.

(** What becomes of raw usage data that is written. *)
Definition marshaled_raw (raw : string) : string := html_escape (drop_ws false false raw).

Lemma encode_optional_raw_ok raw depth :
  raw = ""%string ∨ value_at depth raw → depth ≤ maxNestingDepth →
  ∃ o, encode_optional_raw raw = Some o ∧ (∀ t, o = Some t → value_at depth t) ∧
    encodes decode_raw "" o (marshaled_raw raw).
Proof.
  intros Hraw Hd. unfold encode_optional_raw. destruct (String.eqb_spec raw "") as [->|Hne].
  { by exists None. }
  destruct Hraw as [|Hv]; [done|]. destruct (encode_raw_value _ _ Hv Hd) as (t & Ht & Hvt).
  exists (Some t). rewrite Ht. split; [done|]. split; [by intros ? [= <-]|]. cbn.
  rewrite (decode_raw_text _ _ _ Hvt Hd). unfold encode_raw, json_compact in Ht.
  destruct (json_valid raw); [|done]. by injection Ht as <-.
Qed.

Lemma TokenUsage_written u depth :
  TokenUsage_validate u = None → (∀ c, tu_ReportedCost u = Some c → cost_typed c) →
  tu_Raw u = ""%string ∨ value_at (depth - 1) (tu_Raw u) → 2 ≤ depth ≤ maxNestingDepth →
  ∃ t, encode_TokenUsage u = Some t ∧
    written zero_usage decode_TokenUsage depth (tu_with_raw u (marshaled_raw (tu_Raw u))) t.
Proof.
  intros Hv%first_error_none Hcost Hraw Hdep. rewrite !Forall_cons in Hv. cbn [fst] in Hv.
  destruct Hv as (Hcounts & Hin & Hout & _ & Hrep & _). rewrite !orb_false_iff in Hcounts.
  destruct Hcounts as [[Hi Ho] Ht]. apply token_int64 in Hi, Ho, Ht.
  destruct (encode_optional_raw_ok (tu_Raw u) (depth - 1) Hraw ltac:(lia)) as (o & Hro & Hrv & Hrd).
  unfold encode_TokenUsage. rewrite Hro. cbn [mbind option_bind]. eexists. split; [done|].
  destruct (encodes_written zero_input decode_InputTokenDetails (depth - 1) (tu_InputDetails u)
    encode_InputTokenDetails) as [Hid Hidv].
  { intros d Hd. rewrite Hd in Hin. apply InputTokenDetails_written; [done|lia]. }
  destruct (encodes_written zero_output decode_OutputTokenDetails (depth - 1) (tu_OutputDetails u)
    encode_OutputTokenDetails) as [Hod Hodv].
  { intros d Hd. rewrite Hd in Hout. apply OutputTokenDetails_written; [done|lia]. }
  destruct (encodes_written zero_cost decode_ReportedCost (depth - 1) (tu_ReportedCost u)
    encode_ReportedCost) as [Hrc Hrcv].
  { intros c Hc. rewrite Hc in Hrep. apply ReportedCost_written; [done|by apply Hcost|lia]. }
  destruct u as [i ou t id od rc raw]. cbn in *. apply written_object; [lia| |].
  - solve_good; try done; by apply encode_int_value.
  - unfold decode_TokenUsage. read_struct Hms.
    cbn [tu_Input tu_Output tu_Total tu_InputDetails tu_OutputDetails tu_ReportedCost tu_Raw zero_usage].
    do 3 (step_field; [by apply encodes_int|]). do 4 (step_field; [done|]). done.
Qed.

(** ** Events *)

Definition e_with_usage (event : UsageEvent) (usage : option TokenUsage) : UsageEvent :=
  let 'Build_UsageEvent version id request tenant key model provider upstream cache stream attempts
         retries fallbacks _ source caveat reason status category code started ended latency first := event in
  Build_UsageEvent version id request tenant key model provider upstream cache stream attempts
    retries fallbacks usage source caveat reason status category code started ended latency first.

(** An event with another text of its raw usage data. *)
Definition e_with_raw (raw : string) (event : UsageEvent) : UsageEvent :=
  e_with_usage event ((λ u, tu_with_raw u raw) <$> e_Usage event).

Definition raw_of (event : UsageEvent) : string := default ""%string (tu_Raw <$> e_Usage event).

(** Raw usage data that can be written: none, or a value that nests two levels less
    than the decoder accepts. *)
Definition raw_ok (raw : string) : Prop := raw = ""%string ∨ value_at (maxNestingDepth - 2) raw.

(** The event as it comes back. *)
Definition marshaled (event : UsageEvent) : UsageEvent := e_with_raw (marshaled_raw (raw_of event)) event.

(** What the types of Go and the sources of an event promise: 64-bit integers,
    UTF-8, times of the years that JSON can write, raw data that can be written. *)
Record writable (event : UsageEvent) : Prop := {
  w_ints : Forall in_int64 [e_Attempts event; e_Retries event; e_Fallbacks event];
  w_cost : ∀ u c, e_Usage event = Some u → tu_ReportedCost u = Some c → cost_typed c;
  w_text : Forall (λ s, utf8_Valid s = true)
    [e_EventID event; e_RequestID event; e_TenantID event; e_APIKeyID event; e_RequestedModel event;
     e_ProviderID event; e_UpstreamModel event; e_UsageCaveat event; e_FinishReason event;
     e_ErrorCategory event; e_ErrorCode event];
  w_started : in_range (e_StartedAt event);
  w_ended : in_range (e_EndedAt event);
  w_raw : raw_ok (raw_of event);
}.

(** What validation says about the fields that are written. *)
Record checked (event : UsageEvent) : Prop := {
  c_version : in_int64 (e_SchemaVersion event);
  c_cache : utf8_Valid (e_CacheStatus event) = true;
  c_status : utf8_Valid (e_Status event) = true;
  c_source : utf8_Valid (e_UsageSource event) = true ∧ e_UsageSource event ≠ ""%string;
  c_latency : in_int64 (e_LatencyMS event);
  c_first : ∀ t, e_FirstTokenMS event = Some t → in_int64 t;
  c_usage : ∀ u, e_Usage event = Some u → TokenUsage_validate u = None;
}.

Lemma one_of_utf8 s l :
  existsb (String.eqb s) l = true → forallb utf8_Valid l = true → utf8_Valid s = true.
Proof. intros (x & Hx & <-%String.eqb_eq)%existsb_exists Hl. by apply (proj1 (forallb_forall _ _) Hl). Qed.

Lemma Event_Validate_checked event : Event_Validate event = None → checked event.
Proof.
  unfold Event_Validate. cbn zeta. destruct (first_error _) eqn:Hf; [done|]. intros Hu.
  rewrite first_error_none in Hf.
  pose proof (Forall_lookup_1 _ _ 0 _ Hf eq_refl) as Hver.
  pose proof (Forall_lookup_1 _ _ 7 _ Hf eq_refl) as Hcache.
  pose proof (Forall_lookup_1 _ _ 9 _ Hf eq_refl) as Hstatus.
  pose proof (Forall_lookup_1 _ _ 13 _ Hf eq_refl) as Hl0.
  pose proof (Forall_lookup_1 _ _ 14 _ Hf eq_refl) as Hl.
  pose proof (Forall_lookup_1 _ _ 15 _ Hf eq_refl) as Hfirst.
  pose proof (Forall_lookup_1 _ _ 16 _ Hf eq_refl) as Hsrc.
  cbn [fst] in *. clear Hf.
  apply negb_false_iff in Hl, Hcache, Hstatus. apply Z.eqb_eq in Hl. apply Z.ltb_ge in Hl0.
  assert (0 ≤ e_LatencyMS event ≤ int64_max) as Hlat.
  { split; [done|]. rewrite Hl. unfold Milliseconds, time_sub, millisecond, int64_min, int64_max.
    Z.to_euclidean_division_equations. lia. }
  split.
  - unfold minimumSchemaVersion, SchemaVersion in Hver. unfold in_int64, int64_min, int64_max. lia.
  - unfold validCacheStatus in Hcache. rewrite !orb_true_iff, !String.eqb_eq in Hcache.
    by destruct Hcache as [[-> | ->] | ->].
  - by eapply one_of_utf8.
  - rewrite !andb_false_iff, !negb_false_iff, !String.eqb_eq in Hsrc.
    by destruct Hsrc as [[-> | ->] | ->].
  - unfold in_int64, int64_min, int64_max in *. lia.
  - intros t Ht. rewrite Ht in Hfirst. cbn in Hfirst. unfold in_int64, int64_min, int64_max in *. lia.
  - intros u Hu'. by rewrite Hu' in Hu.
Qed.

Lemma optional_usage_ok event :
  writable event → checked event →
  ∃ o, encode_optional_usage (e_Usage event) = Some o ∧
    (∀ t, o = Some t → value_at (maxNestingDepth - 1) t) ∧
    encodes (decode_ptr zero_usage decode_TokenUsage) None o (e_Usage (marshaled event)).
Proof.
  intros Hw Hc. pose proof (w_cost _ Hw) as Hcost. pose proof (w_raw _ Hw) as Hraw.
  pose proof (c_usage _ Hc) as Hu. unfold marshaled, e_with_raw, raw_of in *.
  destruct event as [version id request tenant key model provider upstream cache stream attempts
    retries fallbacks usage source caveat reason status category code started ended latency first].
  cbn [e_Usage e_with_usage] in *.
  destruct usage as [u|]; [|by exists None].
  cbn [fmap option_fmap option_map default from_option Datatypes.id] in *.
  destruct (TokenUsage_written u (maxNestingDepth - 1)) as (t & Ht & Hv & Hn & Hd).
  { by apply Hu. } { intros c. by apply Hcost. } { exact Hraw. } { done. }
  exists (Some t). cbn [encode_optional_usage]. rewrite Ht. split; [done|].
  split; [by intros ? [= <-]|]. by apply decode_ptr_some.
Qed.

Lemma encode_time_total t d :
  in_range t → ∃ s, encode_time t = Some s ∧ value_at d s ∧ encodes decode_time 0 (Some s) t.
Proof.
  intros (f & Hf)%format_total. assert (encode_time t = Some (String quote_byte (f +:+ String quote_byte ""))) as Ht
    by (unfold encode_time; by rewrite Hf).
  eexists. split; [done|]. destruct (encode_time_ok _ _ d Ht). auto.
Qed.

(** The text of a valid event is written, and is read as the event. *)
Lemma json_event_encode event :
  writable event → checked event →
  ∃ payload, encode_event event = Some payload ∧ json_event payload = Some (marshaled event).
Proof.
  intros Hw Hc. destruct (optional_usage_ok event Hw Hc) as (o & Ho & Hov & Hod).
  destruct (encode_time_total (e_StartedAt event) (maxNestingDepth - 1) (w_started _ Hw)) as (st & Hst & Hstv & Hstd).
  destruct (encode_time_total (e_EndedAt event) (maxNestingDepth - 1) (w_ended _ Hw)) as (en & Hen & Henv & Hend).
  unfold encode_event. rewrite Ho, Hst, Hen. cbn [mbind option_bind]. eexists. split; [done|].
  destruct Hw as [Hints _ Htext _ _ _]. rewrite !Forall_cons in Hints. rewrite !Forall_cons in Htext.
  destruct Hints as (? & ? & ? & _). destruct Htext as (? & ? & ? & ? & ? & ? & ? & ? & ? & ? & ? & _).
  destruct Hc as [? ? ? [? _] ? ? _].
  match goal with |- context [encode_object ?l] => set (ms := l) end. assert (struct_members (encode_object ms) = Some ms) as Hms.
  { apply struct_members_encode. subst ms. cbn [app].
    solve_good; first [assumption | apply encode_string_value | apply encode_bool_value | apply nonempty_value
      | apply encode_int_value; assumption | apply fmap_value; intros; apply encode_int_value; auto]. }
  unfold json_event. rewrite Hms. cbn [mbind option_bind]. subst ms. cbn [app].
  step_field; [by apply encodes_int|]. do 3 (step_field; [by apply encodes_string|]).
  step_field; [by apply encodes_nonempty|]. step_field; [by apply encodes_string|].
  do 2 (step_field; [by apply encodes_nonempty|]). step_field; [by apply encodes_string|].
  step_field; [apply encodes_bool|]. do 3 (step_field; [by apply encodes_int|]).
  step_field; [done|]. do 3 (step_field; [by apply encodes_nonempty|]). step_field; [by apply encodes_string|].
  do 2 (step_field; [by apply encodes_nonempty|]). do 2 (step_field; [done|]).
  step_field; [by apply encodes_int|]. step_field; [by apply encodes_ptr_int|]. by destruct event.
Qed.

(** Validation of an event with another raw text: only its length matters. *)
Lemma e_with_raw_valid raw event :
  raw_ok raw → Event_Validate event = None →
  Event_Validate (e_with_raw raw event) =
    match e_Usage event with
    | Some _ => if maximumRawUsageBytes <? str_len raw
                then Some (usage_error "usage raw data is invalid") else None
    | None => None
    end.
Proof.
  intros Hraw Hv. unfold e_with_raw.
  destruct event as [version id request tenant key model provider upstream cache stream attempts
    retries fallbacks usage source caveat reason status category code started ended latency first].
  cbn [e_Usage e_with_usage]. destruct usage as [u|]; [|done]. cbn [fmap option_fmap option_map].
  unfold Event_Validate in Hv |- *. cbn zeta in *. cbn [e_Usage] in *.
  match goal with |- match ?x with _ => _ end = _ => match type of Hv with match ?y with _ => _ end = _ =>
    change x with y end end.
  destruct (first_error _); [done|]. destruct u as [ui uo ut uid uod rc old].
  unfold TokenUsage_validate in Hv |- *. cbn [tu_with_raw tu_Input tu_Output tu_Total tu_InputDetails
    tu_OutputDetails tu_ReportedCost tu_Raw first_error] in *.
  destruct (_ || _) in Hv |- *; [done|]. destruct (opt _ uid); [done|]. destruct (opt _ uod); [done|].
  destruct (_ || _) in Hv; [done|]. destruct (opt _ rc); [done|].
  destruct (maximumRawUsageBytes <? str_len raw); [done|]. cbn [orb].
  destruct Hraw as [->|Hr]; [done|]. destruct (value_at_text _ _ Hr ltac:(done)) as [Hjv _].
  by rewrite Hjv, andb_false_r.
Qed.

Lemma marshaled_raw_ok raw : raw_ok raw → raw_ok (marshaled_raw raw).
Proof.
  intros [->|Hv]; [by left|]. right. destruct (encode_raw_value _ _ Hv ltac:(done)) as (x & Hx & Hxv).
  unfold encode_raw, json_compact in Hx. destruct (json_valid raw); [|done]. by injection Hx as <-.
Qed.

(** C33: The payload of a valid event is decoded into the event it was made of, unless
    escaping has made its raw usage data too long. *)
Theorem Marshal_Decode event :
  writable event → Event_Validate event = None →
  ∃ payload, Marshal event = Ok payload ∧
    Decode payload =
      if maximumRawUsageBytes <? str_len (marshaled_raw (raw_of event))
      then Err (usage_error "usage raw data is invalid") else Ok (marshaled event).
Proof.
  intros Hw Hv. pose proof (Event_Validate_checked _ Hv) as Hc.
  destruct (json_event_encode event Hw Hc) as (payload & He & Hd).
  exists payload. unfold Marshal. rewrite Hv, He. split; [done|]. unfold Decode. rewrite Hd.
  assert ((e_UsageSource (marshaled event) =? "")%string = false) as ->.
  { apply String.eqb_neq. pose proof (proj2 (c_source _ Hc)). by destruct event. }
  rewrite andb_false_r. unfold marshaled at 1. rewrite e_with_raw_valid by (try apply marshaled_raw_ok; try apply Hw; done).
  unfold raw_of. destruct (e_Usage event) as [u|]; [|done]. cbn [fmap option_fmap option_map default from_option Datatypes.id].
  by destruct (maximumRawUsageBytes <? _).
Qed.

(** Writing an event again changes nothing: the relay and the worker, which decode
    and write it anew, pass on the same text. *)
Lemma marshaled_raw_idem raw : marshaled_raw (marshaled_raw raw) = marshaled_raw raw.
Proof.
  unfold marshaled_raw. rewrite (drop_ws_escape false false (drop_ws false false raw)) by apply drop_ws_idem.
  apply html_escape_idem.
Qed.

Lemma raw_of_with_raw raw event : e_Usage event ≠ None → raw_of (e_with_raw raw event) = raw.
Proof.
  unfold raw_of, e_with_raw.
  destruct event as [version id request tenant key model provider upstream cache stream attempts
    retries fallbacks usage source caveat reason status category code started ended latency first].
  cbn. by destruct usage.
Qed.

Lemma e_with_raw_twice raw raw' event : e_with_raw raw (e_with_raw raw' event) = e_with_raw raw event.
Proof.
  unfold e_with_raw.
  destruct event as [version id request tenant key model provider upstream cache stream attempts
    retries fallbacks usage source caveat reason status category code started ended latency first].
  cbn. by destruct usage as [[]|].
Qed.

Lemma e_with_raw_none raw event : e_Usage event = None → e_with_raw raw event = event.
Proof. unfold e_with_raw. intros Hu. rewrite Hu. destruct event. cbn in *. by subst. Qed.

Lemma marshaled_idem event : marshaled (marshaled event) = marshaled event.
Proof.
  unfold marshaled at 1 3. unfold marshaled. destruct (e_Usage event) as [u|] eqn:Hu.
  - rewrite raw_of_with_raw by congruence. by rewrite e_with_raw_twice, marshaled_raw_idem.
  - by rewrite !(e_with_raw_none _ event).
Qed.

Lemma e_with_raw_writable raw event : raw_ok raw → writable event → writable (e_with_raw raw event).
Proof.
  intros Hraw [Hi Hc Ht Hs He Hr]. unfold e_with_raw.
  destruct event as [version id request tenant key model provider upstream cache stream attempts
    retries fallbacks usage source caveat reason status category code started ended latency first].
  constructor; cbn in *; try done.
  - destruct usage as [u|]; [|done]. intros ? c [= <-]. exact (Hc u c eq_refl).
  - unfold raw_of. cbn. destruct usage as [u|]; [exact Hraw|by left].
Qed.

Lemma marshaled_writable event : writable event → writable (marshaled event).
Proof. intros Hw. apply e_with_raw_writable; [apply marshaled_raw_ok, Hw|done]. Qed.

Lemma Decode_valid payload event : Decode payload = Ok event → Event_Validate event = None.
Proof.
  unfold Decode. destruct (json_event payload) as [e|]; [|done]. cbv zeta. generalize
    (if (e_SchemaVersion e =? 1) && (e_UsageSource e =? "")%string
     then e_with_source e (inferredUsageSource e) else e). intros e'.
  destruct (Event_Validate e') eqn:Hv; [done|]. by intros [= <-].
Qed.

(** What was decoded from a written payload is written as the same payload. *)
Lemma Decode_Marshal event payload decoded :
  writable event → Marshal event = Ok payload → Decode payload = Ok decoded →
  decoded = marshaled event ∧ writable decoded ∧
  ∃ payload', Marshal decoded = Ok payload' ∧ Decode payload' = Ok decoded.
Proof.
  intros Hw Hm Hd. assert (Event_Validate event = None) as Hv.
  { unfold Marshal in Hm. by destruct (Event_Validate event). }
  assert (decoded = marshaled event) as ->.
  { pose proof (Event_Validate_checked _ Hv) as Hc. destruct (json_event_encode event Hw Hc) as (p & He & Hj).
    unfold Marshal in Hm. rewrite Hv, He in Hm. injection Hm as <-. unfold Decode in Hd. rewrite Hj in Hd.
    assert ((e_UsageSource (marshaled event) =? "")%string = false) as Hs.
    { apply String.eqb_neq. pose proof (proj2 (c_source _ Hc)). by destruct event. }
    rewrite Hs, andb_false_r in Hd. destruct (Event_Validate (marshaled event)); [done|]. by injection Hd as <-. }
  pose proof (marshaled_writable _ Hw) as Hw'. split; [done|]. split; [done|].
  apply Decode_valid in Hd.
  pose proof (Event_Validate_checked _ Hd) as Hc. destruct (json_event_encode _ Hw' Hc) as (p & He & Hj).
  exists p. unfold Marshal, Decode. rewrite Hd, He, Hj. split; [done|].
  assert ((e_UsageSource (marshaled (marshaled event)) =? "")%string = false) as ->.
  { apply String.eqb_neq. pose proof (proj2 (c_source _ Hc)). rewrite marshaled_idem. done. }
  by rewrite andb_false_r, marshaled_idem, Hd.
Qed.

(** ** Examples *)

Fixpoint repeat_string (n : nat) (s : string) : string :=
  match n with O => "" | S n => s +:+ repeat_string n s end.

(** Usage data of an upstream: eleven thousand [<] in a string. *)
Definition wide_raw : string :=
  text ("{'prompt_tokens':3,'completion_tokens':4,'x':'" +:+ repeat_string (110 * 100) "<" +:+ "'}").

Definition wide_usage : TokenUsage := Build_TokenUsage 3 4 7 None None None wide_raw.

Definition demo_event (usage : option TokenUsage) : UsageEvent :=
  {| e_SchemaVersion := 2; e_EventID := "use_1"; e_RequestID := "r"; e_TenantID := "t"; e_APIKeyID := "k";
     e_RequestedModel := "m<é>"; e_ProviderID := "p"; e_UpstreamModel := ""; e_CacheStatus := "bypass";
     e_Stream := false; e_Attempts := 1; e_Retries := 0; e_Fallbacks := 0; e_Usage := usage;
     e_UsageSource := match usage with Some _ => UsageSourceProvider | None => UsageSourceUnknown end; e_UsageCaveat := "";
     e_FinishReason := "stop"; e_Status := StatusSuccess; e_ErrorCategory := ""; e_ErrorCode := "";
     e_StartedAt := 63871286400 * second; e_EndedAt := 63871286400 * second + 120 * millisecond;
     e_LatencyMS := 120; e_FirstTokenMS := None |}.

Example wide_usage_read `{UnicodeUpper} : parseTokenUsage wide_raw = (Some wide_usage, ""%string).
Proof. vm_compute. reflexivity. Qed.

Definition small_usage : TokenUsage :=
  Build_TokenUsage 3 4 7 (Some (Build_InputTokenDetails 1 0 0 2 0)) None
    (Some (Build_ReportedCost (Some 5) None 9 "USD")) (text "{'a' : '<'}").

Lemma demo_event_writable usage :
  (∀ u, usage = Some u → (∀ c, tu_ReportedCost u = Some c → cost_typed c) ∧
     raw_ok (tu_Raw u)) → writable (demo_event usage).
Proof.
  intros Hu. constructor.
  - repeat constructor; vm_compute; discriminate.
  - intros u c Hx. by apply Hu.
  - apply (bool_decide_unpack _). vm_compute. exact I.
  - split; vm_compute; [discriminate|done].
  - split; vm_compute; [discriminate|done].
  - unfold raw_of. cbn. destruct usage as [u|]; [by apply (Hu u)|by left].
Qed.

Lemma small_usage_writable : writable (demo_event (Some small_usage)).
Proof.
  apply demo_event_writable. intros u [= <-]. split.
  - intros c [= <-]. split; [split; vm_compute; discriminate|]. split; [|done].
    intros z [= <-]. split; vm_compute; discriminate.
  - right. exists 10%nat. vm_compute. reflexivity.
Qed.

Lemma Marshal_Decode_witness :
  ∃ payload, Marshal (demo_event (Some small_usage)) = Ok payload ∧
    Decode payload = Ok (demo_event (Some (tu_with_raw small_usage (text "{'a':'\u003c'}")))).
Proof.
  destruct (Marshal_Decode (demo_event (Some small_usage)) small_usage_writable) as (payload & Hm & Hd).
  - vm_compute. reflexivity.
  - exists payload. split; [exact Hm|]. rewrite Hd. vm_compute. reflexivity.
Defined.
