(* ===== verification/Collector.v ===== *)
(** * Collecting the usage event of a request

    Models [src/internal/usage/collector.go] with [newEvent] of [event.go]. The
    mutex makes every method atomic; random event identifiers and the clock are
    arguments. The collector's promise: the event it closes is one that its own
    validation accepts, and it is closed once. *)

From S2P Require Import Prelude Json BigRat Calendar Usage.

(** ** The collector

    On a nil collector the methods do nothing; a collector here is not nil. *)

Record NewEventInput := {
  ni_RequestID : string;
  ni_TenantID : string;
  ni_APIKeyID : string;
  ni_RequestedModel : string;
  ni_Stream : bool;
  ni_StartedAt : Time;
}.

Record UsageOutcome := {
  uo_Status : string;
  uo_ErrorCategory : string;
  uo_ErrorCode : string;
  uo_EndedAt : Time;
}.

Record Collector := { col_event : UsageEvent; col_finalized : bool }.

Record PendingEvent := {
  pe_EventID : string;
  pe_RequestID : string;
  pe_TenantID : string;
  pe_APIKeyID : string;
  pe_RequestedModel : string;
  pe_Stream : bool;
  pe_StartedAt : Time;
}.

(** [or_now t now] is [t], or the time read when [t] is the zero time. *)
Definition or_now (t now : Time) : Time := if time_is_zero t then now else t.

(** [eventID] is what [generateEventID] drew. *)
Definition newEvent (input : NewEventInput) (eventID : option string) (now : Time)
  : result UsageError UsageEvent :=
  match eventID with
  | None => Err (usage_error "generate usage event ID")
  | Some eventID =>
      let event :=
        {| e_SchemaVersion := SchemaVersion; e_EventID := eventID;
           e_RequestID := TrimSpace (ni_RequestID input); e_TenantID := TrimSpace (ni_TenantID input);
           e_APIKeyID := TrimSpace (ni_APIKeyID input);
           e_RequestedModel := TrimSpace (ni_RequestedModel input); e_ProviderID := "";
           e_UpstreamModel := ""; e_CacheStatus := "bypass"; e_Stream := ni_Stream input;
           e_Attempts := 0; e_Retries := 0; e_Fallbacks := 0; e_Usage := None;
           e_UsageSource := UsageSourceUnknown; e_UsageCaveat := ""; e_FinishReason := "";
           e_Status := ""; e_ErrorCategory := ""; e_ErrorCode := "";
           e_StartedAt := or_now (ni_StartedAt input) now; e_EndedAt := time_zero; e_LatencyMS := 0;
           e_FirstTokenMS := None |} in
      match
        first_error
          [(negb (validRequiredText (e_RequestID event) 128), usage_error "usage request ID is invalid");
           (negb (validRequiredText (e_TenantID event) 128), usage_error "usage tenant ID is invalid");
           (negb (validRequiredText (e_APIKeyID event) 64), usage_error "usage API key ID is invalid");
           (negb (validRequiredText (e_RequestedModel event) 200),
              usage_error "usage requested model is invalid")]
      with
      | Some e => Err e
      | None => Ok event
      end
  end.

Definition NewCollector (input : NewEventInput) (eventID : option string) (now : Time)
  : result UsageError Collector :=
  event ← newEvent input eventID now; Ok {| col_event := event; col_finalized := false |}.

Definition Pending (c : Collector) : PendingEvent :=
  let event := col_event c in
  {| pe_EventID := e_EventID event; pe_RequestID := e_RequestID event; pe_TenantID := e_TenantID event;
     pe_APIKeyID := e_APIKeyID event; pe_RequestedModel := e_RequestedModel event;
     pe_Stream := e_Stream event; pe_StartedAt := e_StartedAt event |}.

Definition col_update (c : Collector) (event : UsageEvent) : Collector :=
  {| col_event := event; col_finalized := col_finalized c |}.

Definition SetCacheStatus `{Unicode} (status : string) (c : Collector) : Collector :=
  let status := ToLower (TrimSpace status) in
  if negb (col_finalized c) && negb (status =? "")%string
  then
    let 'Build_UsageEvent version id request tenant key model provider upstream _ stream attempts
           retries fallbacks usage source caveat reason st category code started ended latency first :=
      col_event c in
    col_update c
      (Build_UsageEvent version id request tenant key model provider upstream status stream attempts
         retries fallbacks usage source caveat reason st category code started ended latency first)
  else c.

Definition SetRoute (providerID upstreamModel : string) (attempts retries fallbacks : Z)
    (c : Collector) : Collector :=
  if col_finalized c then c
  else
    let 'Build_UsageEvent version id request tenant key model _ _ cache stream _ _ _ usage source
           caveat reason status category code started ended latency first := col_event c in
    col_update c
      (Build_UsageEvent version id request tenant key model providerID upstreamModel cache stream
         attempts retries fallbacks usage source caveat reason status category code started ended
         latency first).

(** The latency of the first token: [now] is read when no time is given. *)
Definition first_token (event : UsageEvent) (stream hasChunk : bool) (observedAt now : Time) : option Z :=
  match e_FirstTokenMS event with
  | Some t => Some t
  | None =>
      if stream && hasChunk
      then Some (Z.max 0 (Milliseconds (time_sub (or_now observedAt now) (e_StartedAt event))))
      else None
  end.

Definition observe `{UnicodeUpper} (payload : string) (stream : bool)
    (observedAt now : Time) (c : Collector) : Collector :=
  let metadata := parseResponseMetadata payload in
  if col_finalized c then c
  else
    let event := col_event c in
    let 'Build_UsageEvent version id request tenant key model provider upstream cache isStream attempts
           retries fallbacks usage source caveat reason status category code started ended latency _ :=
      event in
    let '(usage, caveat) :=
      match md_usage metadata, usage with
      | Some usage, _ => (Some usage, md_usageCaveat metadata)
      | None, None =>
          (None, if (md_usageCaveat metadata =? "")%string then caveat else md_usageCaveat metadata)
      | None, Some usage => (Some usage, caveat)
      end in
    let reason := if (md_finishReason metadata =? "")%string then reason else md_finishReason metadata in
    col_update c
      (Build_UsageEvent version id request tenant key model provider upstream cache isStream attempts
         retries fallbacks usage source caveat reason status category code started ended latency
         (first_token event stream (md_hasChunk metadata) observedAt now)).

Definition ObserveResponse `{UnicodeUpper} (payload : string) (c : Collector) : Collector :=
  observe payload false time_zero time_zero c.

Definition ObserveStreamResponse `{UnicodeUpper} (payload : string)
    (observedAt now : Time) (c : Collector) : Collector :=
  observe payload true observedAt now c.

(** The event with the outcome in it. *)
Definition e_close (event : UsageEvent) (outcome : UsageOutcome) (endedAt : Time) : UsageEvent :=
  let 'Build_UsageEvent version id request tenant key model provider upstream cache stream attempts
         retries fallbacks usage source caveat reason _ _ _ started _ _ first := event in
  Build_UsageEvent version id request tenant key model provider upstream cache stream attempts
    retries fallbacks usage source
    (match usage with
     | None => if (caveat =? "")%string then "provider_usage_unavailable"%string else caveat
     | Some _ => caveat
     end) reason
    (uo_Status outcome) (uo_ErrorCategory outcome) (uo_ErrorCode outcome) started endedAt
    (Milliseconds (time_sub endedAt started)) first.

Definition Finalize (outcome : UsageOutcome) (now : Time) (c : Collector)
  : option UsageEvent * Collector :=
  if col_finalized c then (None, c)
  else
    let endedAt := or_now (uo_EndedAt outcome) now in
    let endedAt := if time_before endedAt (e_StartedAt (col_event c)) then e_StartedAt (col_event c)
                   else endedAt in
    let event := e_close (col_event c) outcome endedAt in
    let event := e_with_source event (inferredUsageSource event) in
    (Some event, {| col_event := event; col_finalized := true |}).


(** ** The event that is collected is valid *)

Inductive CollectorOp :=
| OpCacheStatus (status : string)
| OpRoute (providerID upstreamModel : string) (attempts retries fallbacks : Z)
| OpResponse (payload : string)
| OpStreamResponse (payload : string) (observedAt now : Time).

Section collector.
Context `{Unicode, UnicodeUpper}.

Definition run_op (c : Collector) (op : CollectorOp) : Collector :=
  match op with
  | OpCacheStatus status => SetCacheStatus status c
  | OpRoute p m attempts retries fallbacks => SetRoute p m attempts retries fallbacks c
  | OpResponse payload => ObserveResponse payload c
  | OpStreamResponse payload observedAt now => ObserveStreamResponse payload observedAt now c
  end.

(** The operations for which an event stays valid: known cache states, names of a
    route that fit an event (the configuration does not bound them), counters that are not
    negative, stream data for a stream, observed before [endedAt]. *)
Definition op_ok (stream : bool) (endedAt : Time) (op : CollectorOp) : Prop :=
  match op with
  | OpCacheStatus status =>
      ToLower (TrimSpace status) = ""%string ∨ validCacheStatus (ToLower (TrimSpace status)) = true
  | OpRoute p m attempts retries fallbacks =>
      str_len p ≤ 100 ∧ str_len m ≤ 200 ∧ 0 ≤ attempts ∧ 0 ≤ retries ∧ 0 ≤ fallbacks
  | OpResponse _ => True
  | OpStreamResponse _ observedAt now => stream = true ∧ or_now observedAt now ≤ endedAt
  end.

(** What the event looks like while it is collected. *)
Record collecting (stream : bool) (endedAt : Time) (c : Collector) : Prop := {
  cg_open : col_finalized c = false;
  cg_version : e_SchemaVersion (col_event c) = SchemaVersion;
  cg_id : validRequiredText (e_EventID (col_event c)) 64 = true;
  cg_request : validRequiredText (e_RequestID (col_event c)) 128 = true;
  cg_tenant : validRequiredText (e_TenantID (col_event c)) 128 = true;
  cg_key : validRequiredText (e_APIKeyID (col_event c)) 64 = true;
  cg_model : validRequiredText (e_RequestedModel (col_event c)) 200 = true;
  cg_route : str_len (e_ProviderID (col_event c)) ≤ 100 ∧ str_len (e_UpstreamModel (col_event c)) ≤ 200;
  cg_cache : validCacheStatus (e_CacheStatus (col_event c)) = true;
  cg_stream : e_Stream (col_event c) = stream;
  cg_counters : 0 ≤ e_Attempts (col_event c) ∧ 0 ≤ e_Retries (col_event c) ∧ 0 ≤ e_Fallbacks (col_event c);
  cg_usage : ∀ u, e_Usage (col_event c) = Some u → TokenUsage_validate u = None;
  cg_caveat : str_len (e_UsageCaveat (col_event c)) ≤ Z.of_nat maximumUsageCaveatLen;
  cg_reason : str_len (e_FinishReason (col_event c)) ≤ 64;
  cg_started : 0 < e_StartedAt (col_event c);
  cg_first : ∀ t, e_FirstTokenMS (col_event c) = Some t → stream = true ∧ 0 ≤ t ∧
    t ≤ Z.max 0 (Milliseconds (time_sub endedAt (e_StartedAt (col_event c))));
}.

Lemma Milliseconds_mono a b t : a ≤ b → Milliseconds (time_sub a t) ≤ Milliseconds (time_sub b t).
Proof. intros Hab. unfold Milliseconds, time_sub. apply Z.quot_le_mono; [done|]. lia. Qed.

Lemma newEvent_collecting input id now c endedAt :
  NewCollector input (Some id) now = Ok c → validRequiredText id 64 = true →
  0 < or_now (ni_StartedAt input) now → collecting (ni_Stream input) endedAt c.
Proof.
  unfold NewCollector, newEvent. cbn zeta. destruct (first_error _) eqn:Hf; [done|]. cbn.
  intros [= <-] Hid Hst. apply first_error_none in Hf. rewrite !Forall_cons in Hf. cbn in Hf.
  destruct Hf as (Hr & Ht & Hk & Hm & _). rewrite negb_false_iff in *.
  constructor; cbn; try done; lia.
Qed.

Lemma observe_collecting payload isStream observedAt now stream endedAt c :
  (isStream = true → stream = true ∧ or_now observedAt now ≤ endedAt) →
  collecting stream endedAt c → collecting stream endedAt (observe payload isStream observedAt now c).
Proof.
  intros Hop [Hopen]. unfold observe. rewrite Hopen. pose proof (parseResponseMetadata_ok payload) as [Hmu Hmc Hmr].
  destruct c as [[] fin]. cbn in *. destruct (md_usage _) as [u|] eqn:Hu; [|destruct e_Usage as [u|]];
    (constructor; cbn in *; try done; try (by destruct (_ =? "")%string)).
  all: try (intros v [= <-]; by apply Hmu).
  all: intros t; unfold first_token; cbn; destruct e_FirstTokenMS; [by apply cg_first0|].
  all: destruct isStream; cbn; [|done]; destruct (md_hasChunk _); [|done]; intros [= <-].
  all: destruct (Hop eq_refl) as [-> Hle]; split; [done|]; split; [lia|].
  all: pose proof (Milliseconds_mono _ _ e_StartedAt Hle); lia.
Qed.

Lemma run_op_collecting stream endedAt c op :
  op_ok stream endedAt op → collecting stream endedAt c → collecting stream endedAt (run_op c op).
Proof.
  destruct op as [status|p m a r f|payload|payload observedAt now]; cbn; intros Hop Hc.
  - unfold SetCacheStatus. rewrite (cg_open _ _ _ Hc). cbn.
    destruct (String.eqb_spec (ToLower (TrimSpace status)) ""); cbn; [done|].
    destruct Hop as [|Hop]; [done|]. destruct Hc, c as [[] fin]. by constructor.
  - unfold SetRoute. rewrite (cg_open _ _ _ Hc). destruct Hc, c as [[] fin]. constructor; cbn in *; try done; lia.
  - by apply observe_collecting.
  - by apply observe_collecting.
Qed.

Lemma run_ops_collecting stream endedAt ops c :
  Forall (op_ok stream endedAt) ops → collecting stream endedAt c →
  collecting stream endedAt (foldl run_op c ops).
Proof.
  intros Hops. revert c. induction Hops as [|op ops Hop Hops IH]; [done|].
  intros c Hc. apply IH. by apply run_op_collecting.
Qed.

(** The outcomes with which an event is valid: a known status that fits the cache state
    and the kind of request, and the reason of a failure. The handlers leave this domain
    when a cached answer cannot be represented (ChatProtocol.v) and when the client of a
    request for embeddings is gone (EmbeddingHandler.v). *)
Record outcome_ok (stream : bool) (cacheStatus : string) (outcome : UsageOutcome) : Prop := {
  oo_status : validUsageStatus (uo_Status outcome) = true;
  oo_category : str_len (uo_ErrorCategory outcome) ≤ 64;
  oo_code : str_len (uo_ErrorCode outcome) ≤ 100;
  oo_failed : failedStatus (uo_Status outcome) = true →
    uo_ErrorCategory outcome ≠ ""%string ∧ uo_ErrorCode outcome ≠ ""%string;
  oo_hit : uo_Status outcome = StatusCacheHit ↔ cacheStatus = "hit"%string;
  oo_hit_stream : uo_Status outcome = StatusCacheHit → stream = false;
  oo_stream : uo_Status outcome = StatusStreamCompleted ∨ uo_Status outcome = StatusStreamInterrupted →
    stream = true;
}.

Lemma Milliseconds_nonneg d : 0 ≤ d → 0 ≤ Milliseconds d.
Proof. intros Hd. unfold Milliseconds. by apply Z.quot_pos. Qed.

Lemma eqb_false_of (a b : string) : a ≠ b → (a =? b)%string = false.
Proof. apply String.eqb_neq. Qed.

Lemma finalize_valid stream outcome now c :
  let ended := or_now (uo_EndedAt outcome) now in
  collecting stream ended c → outcome_ok stream (e_CacheStatus (col_event c)) outcome →
  ∃ event c', Finalize outcome now c = (Some event, c') ∧ col_finalized c' = true ∧
    col_event c' = event ∧ Event_Validate event = None ∧ e_Status event = uo_Status outcome.
Proof.
  intros ended Hc [Hst Hcat Hcode Hfail Hhit Hhs Hstr]. unfold Finalize. rewrite (cg_open _ _ _ Hc).
  fold ended. set (t := if time_before _ _ then _ else _).
  assert (e_StartedAt (col_event c) ≤ t ∧ (ended ≤ t)) as [Ht1 Ht2].
  { subst t. unfold time_before. destruct (Z.ltb_spec ended (e_StartedAt (col_event c))); lia. }
  assert (Z.max 0 (Milliseconds (time_sub ended (e_StartedAt (col_event c)))) ≤
    Milliseconds (time_sub t (e_StartedAt (col_event c)))) as Hms.
  { apply Z.max_lub; [|by apply Milliseconds_mono]. apply Milliseconds_nonneg.
    unfold time_sub, int64_min, int64_max. lia. }
  eexists _, _. split; [done|]. cbn -[e_close inferredUsageSource Event_Validate].
  split; [done|]. split; [done|]. split; [|by destruct c as [[] fin]].
  destruct Hc as [_ Hv Hid Hrq Htn Hk Hmd [Hp Hum] Hcs Hs [Ha [Hr Hf]] Hu Hcv Hrs Hpos Hft].
  clearbody t. destruct c as [[] fin]. cbn in *. subst.
  unfold Event_Validate. cbn -[first_error Z.ltb Milliseconds time_sub str_len].
  rewrite (proj2 (first_error_none _)); [destruct e_Usage; [by apply Hu | done]|].
  assert (∀ status b, (uo_Status outcome = status → b = true) →
    (uo_Status outcome =? status)%string && negb b = false) as Hneg.
  { intros status b Hb. destruct (String.eqb_spec (uo_Status outcome) status) as [Heq|]; [|done].
    by rewrite (Hb Heq). }
  assert ((e_CacheStatus =? "hit")%string = (uo_Status outcome =? StatusCacheHit)%string) as Hhit'.
  { apply eq_bool_prop_intro. rewrite !Is_true_true, !String.eqb_eq. by symmetry. }
  unfold validUsageStatus in *. rewrite Hid, Hrq, Htn, Hk, Hmd, Hcs, Hst, Hhit'. unfold inferredUsageSource.
  cbn [negb andb Usage.e_Usage Usage.e_Status].
  repeat (apply Forall_cons; split); try apply Forall_nil; cbn [fst];
    rewrite ?andb_false_r, ?orb_false_iff, ?Z.ltb_ge; try done; try lia;
    try (by destruct e_Usage, (String.eqb_spec (uo_Status outcome) StatusCacheHit)).
  - split; [done|]. destruct e_Usage; [done|]. by destruct (_ =? "")%string.
  - unfold time_is_zero, time_zero. rewrite !Z.eqb_neq. lia.
  - destruct e_FirstTokenMS as [f|]; [|done]. destruct (Hft f eq_refl) as (_ & ? & ?). cbn.
    rewrite orb_false_iff, !Z.ltb_ge. lia.
  - destruct (String.eqb_spec (uo_Status outcome) StatusCacheHit) as [Heq|]; [|done].
    rewrite (Hhs Heq). by destruct e_Usage.
  - apply Hneg. by auto.
  - apply Hneg. by auto.
  - destruct e_FirstTokenMS as [f|]; [|done]. by destruct (Hft f eq_refl) as (-> & _).
  - destruct (failedStatus _) eqn:Hfs; [|done]. destruct (Hfail eq_refl) as [? ?]. cbn.
    by rewrite !eqb_false_of by done.
Qed.

Lemma Finalize_closes outcome now c event c' :
  Finalize outcome now c = (Some event, c') → col_event c' = event ∧ col_finalized c' = true.
Proof. unfold Finalize. destruct (col_finalized c); [done|]. by intros [= <- <-]. Qed.

Lemma run_op_closed c op : col_finalized c = true → run_op c op = c.
Proof.
  intros Hc. destruct op; cbn; unfold SetCacheStatus, SetRoute, ObserveResponse, ObserveStreamResponse, observe;
    by rewrite Hc.
Qed.

(** C39: what is collected can be stored. From a collector created with an identifier
    that fits and a start, after any operations within [op_ok] (known cache states, names
    of a route and counters that fit, stream data for a stream and not after its end) and
    with whatever payloads the upstream sent, valid or not, an outcome within [outcome_ok]
    (a known status that fits the cache state and the kind of request, a failure with its
    category and code) closes an event that has this status and passes the validation that
    [Marshal], the outbox and the decoder apply. *)
Theorem collected_event_valid input id started c ops outcome now :
  NewCollector input (Some id) started = Ok c → validRequiredText id 64 = true →
  0 < or_now (ni_StartedAt input) started →
  Forall (op_ok (ni_Stream input) (or_now (uo_EndedAt outcome) now)) ops →
  outcome_ok (ni_Stream input) (e_CacheStatus (col_event (foldl run_op c ops))) outcome →
  ∃ event c', Finalize outcome now (foldl run_op c ops) = (Some event, c') ∧
    Event_Validate event = None ∧ e_Status event = uo_Status outcome.
Proof.
  intros Hnew Hid Hst Hops Hout.
  pose proof (newEvent_collecting _ _ _ _ (or_now (uo_EndedAt outcome) now) Hnew Hid Hst) as Hc.
  apply (run_ops_collecting _ _ ops) in Hc; [|done].
  destruct (finalize_valid _ _ _ _ Hc Hout) as (event & c' & ? & _ & _ & ? & ?). by exists event, c'.
Qed.

(** An event is closed once. After [Finalize] has answered an event, no later
    call changes it, and no later [Finalize] answers one. *)
Theorem collector_closes_once outcome now c event c' :
  Finalize outcome now c = (Some event, c') →
  ∀ ops, foldl run_op c' ops = c' ∧ col_event c' = event ∧
    ∀ outcome' now', Finalize outcome' now' (foldl run_op c' ops) = (None, c').
Proof.
  intros Hf ops. apply Finalize_closes in Hf as [He Hfin].
  assert (foldl run_op c' ops = c') as Hops.
  { induction ops as [|op ops IH]; [done|]. cbn. by rewrite run_op_closed. }
  rewrite Hops. repeat split; [done|]. intros. unfold Finalize. by rewrite Hfin.
Qed.
End collector.

(** ** Concrete instances

    A stream: a route, a chunk at 2 ms, and the usage in a last message. *)

#[export] Instance demo_upper : UnicodeUpper := λ s, s.
#[export] Instance demo_lower : Unicode := λ s, s.

Definition demo_event_input : NewEventInput :=
  {| ni_RequestID := "req"; ni_TenantID := "tenant"; ni_APIKeyID := "key"; ni_RequestedModel := "fast";
     ni_Stream := true; ni_StartedAt := 5 * millisecond |}.

Definition demo_collector : Collector :=
  match NewCollector demo_event_input (Some "use_1"%string) 0 with
  | Ok c => c
  | Err _ => {| col_event := e_with_source (Build_UsageEvent 0 "" "" "" "" "" "" "" "" false 0 0 0 None ""
                  "" "" "" "" "" 0 0 0 None) ""; col_finalized := true |}
  end.

Definition demo_ops : list CollectorOp :=
  [OpCacheStatus " MISS "; OpRoute "p" "m" 2 1 0; OpStreamResponse (text "{'choices':[{'delta':{},'finish_reason':'stop'}]}") (7 * millisecond) 0;
   OpStreamResponse "junk" time_zero (8 * millisecond); OpStreamResponse (text "{'usage':{'prompt_tokens':3,'completion_tokens':4,'cache_read_input_tokens': 1,'cost':0.5}}") (8 * millisecond) 0].

Definition demo_outcome : UsageOutcome :=
  {| uo_Status := StatusStreamCompleted; uo_ErrorCategory := ""; uo_ErrorCode := "";
     uo_EndedAt := 9 * millisecond |}.

Definition demo_closed := Eval vm_compute in Finalize demo_outcome 0 (foldl run_op demo_collector demo_ops).
Definition demo_usage_event : UsageEvent := default (col_event demo_collector) demo_closed.1.

Lemma demo_ops_ok : Forall (op_ok true (9 * millisecond)) demo_ops.
Proof. repeat constructor; try (by right); vm_compute; try done; by intros. Qed.

Lemma demo_cache_status : e_CacheStatus (col_event (foldl run_op demo_collector demo_ops)) = "miss"%string.
Proof. vm_compute. reflexivity. Qed.

Lemma demo_outcome_ok :
  outcome_ok true (e_CacheStatus (col_event (foldl run_op demo_collector demo_ops))) demo_outcome.
Proof. rewrite demo_cache_status. by constructor. Qed.

Lemma demo_finalized :
  Finalize demo_outcome 0 (foldl run_op demo_collector demo_ops) = (Some demo_usage_event, demo_closed.2).
Proof. vm_compute. reflexivity. Qed.

Lemma collected_event_valid_witness :
  ∃ event c', Finalize demo_outcome 0 (foldl run_op demo_collector demo_ops) = (Some event, c') ∧
    Event_Validate event = None ∧ e_Status event = StatusStreamCompleted.
Proof.
  exact (collected_event_valid demo_event_input "use_1" 0 demo_collector demo_ops demo_outcome 0
    eq_refl eq_refl eq_refl demo_ops_ok demo_outcome_ok).
Defined.

Lemma collector_closes_once_witness :
  Finalize demo_outcome 0 (foldl run_op demo_closed.2 demo_ops) = (None, demo_closed.2).
Proof.
  exact (proj2 (proj2 (collector_closes_once demo_outcome 0 (foldl run_op demo_collector demo_ops)
    demo_usage_event demo_closed.2 demo_finalized demo_ops)) demo_outcome 0).
Defined.
