(* ===== verification/Pricing.v ===== *)
(** * Pricing of usage

    Models [src/internal/usage/pricing.go]: the catalogue of prices built from
    the configuration, the choice of the entry that applies to an event, and the
    quotation in nano-USD. The syntax of fractions and of RFC 3339 times is the
    standard library's and is a parameter. *)

From S2P Require Import Prelude Json BigRat Calendar Usage.

(** ** Data *)

Definition CostSourceProvider : string := "provider_reported".
Definition CostSourceCatalog : string := "catalog".
Definition CostSourceCache : string := "cache".

Record CostSnapshot := {
  cs_InputNanoUSD : option Z;
  cs_OutputNanoUSD : option Z;
  cs_TotalNanoUSD : Z;
  cs_Currency : string;
  cs_Source : string;
  cs_PricingVersion : string;
  cs_Caveat : string;
}.

Record CostResult := { cr_Snapshot : option CostSnapshot; cr_Caveat : string }.

(** [optionalRate] is an [option]. *)
Record tokenRates := {
  rate_input : Z;
  rate_output : Z;
  rate_cachedRead : option Z;
  rate_cachedWrite : option Z;
  rate_audioInput : option Z;
  rate_audioOutput : option Z;
  rate_imageInput : option Z;
  rate_reasoningOutput : option Z;
}.

Record priceEntry := {
  pe_providerID : string;
  pe_model : string;
  pe_version : string;
  pe_from : Time;
  pe_until : Time;
  pe_rates : tokenRates;
}.

(** The key joins provider and model with a byte that neither contains; here
    it is the pair. *)
Abbreviation PricingCatalog := (gmap (string * string) (list priceEntry)).

(** [config.UsagePrice]. *)
Record UsagePrice := {
  up_ProviderID : string;
  up_Model : string;
  up_Version : string;
  up_EffectiveFrom : string;
  up_EffectiveUntil : string;
  up_InputUSDPerMillion : string;
  up_OutputUSDPerMillion : string;
  up_CachedReadUSDPerMillion : string;
  up_CachedWriteUSDPerMillion : string;
  up_AudioInputUSDPerMillion : string;
  up_AudioOutputUSDPerMillion : string;
  up_ImageInputUSDPerMillion : string;
  up_ReasoningOutputUSDPerMillion : string;
}.

Inductive PriceError :=
| price_entry (index : nat) (message : string)
| price_overlap.

(** [time.Unix(0, 0)] and 9999-12-31T23:59:59Z, in nanoseconds since year 1. *)
Definition unix_epoch : Time := 62135596800 * second.
Definition end_of_time : Time := 315537897599 * second.

(** ** Building the catalogue *)

Definition contains_any (bad : list ascii) (s : string) : bool :=
  existsb (λ c, bool_decide (c ∈ bad)) (list_ascii_of_string s).

Definition validPriceName (value : string) (maximum : Z) : bool :=
  bool_decide (value = TrimSpace value) && (0 <? str_len value) && (str_len value <=? maximum) &&
  negb (contains_any ["000"; "013"; "010"; "009"]%char value).

Section parse.

Definition parseRequiredRate (raw name : string) : result string Z :=
  if (TrimSpace raw =? "")%string then Err (name ++ " is required")%string
  else match parseUSD raw with
       | None => Err (name ++ " is invalid")%string
       | Some rate => Ok rate
       end.

Definition parseOptionalRate (raw name : string) : result string (option Z) :=
  if (TrimSpace raw =? "")%string then Ok None
  else match parseUSD raw with
       | None => Err (name ++ " is invalid")%string
       | Some rate => Ok (Some rate)
       end.

Definition parse_time (raw : string) (unset : Time) (message : string) : result string Time :=
  if (TrimSpace raw =? "")%string then Ok unset
  else match parse_RFC3339 (TrimSpace raw) with
       | None => Err message
       | Some t => Ok t
       end.

Definition parsePriceEntry (candidate : UsagePrice) : result string priceEntry :=
  let providerID := TrimSpace (up_ProviderID candidate) in
  let model := TrimSpace (up_Model candidate) in
  let version := TrimSpace (up_Version candidate) in
  if negb (validPriceName providerID 100) then Err "provider is invalid"%string
  else if negb (validPriceName model 200) then Err "model is invalid"%string
  else if negb (validPriceName version 100) then Err "version is invalid"%string
  else
    from ← parse_time (up_EffectiveFrom candidate) unix_epoch "effective_from must be RFC3339";
    until ← parse_time (up_EffectiveUntil candidate) end_of_time "effective_until must be RFC3339";
    if negb (time_after until from) then Err "effective_until must be after effective_from"%string
    else
      input ← parseRequiredRate (up_InputUSDPerMillion candidate) "input_usd_per_million";
      output ← parseRequiredRate (up_OutputUSDPerMillion candidate) "output_usd_per_million";
      cachedRead ← parseOptionalRate (up_CachedReadUSDPerMillion candidate) "cached_read_usd_per_million";
      cachedWrite ← parseOptionalRate (up_CachedWriteUSDPerMillion candidate) "cached_write_usd_per_million";
      audioInput ← parseOptionalRate (up_AudioInputUSDPerMillion candidate) "audio_input_usd_per_million";
      audioOutput ← parseOptionalRate (up_AudioOutputUSDPerMillion candidate) "audio_output_usd_per_million";
      imageInput ← parseOptionalRate (up_ImageInputUSDPerMillion candidate) "image_input_usd_per_million";
      reasoningOutput ← parseOptionalRate (up_ReasoningOutputUSDPerMillion candidate)
                          "reasoning_output_usd_per_million";
      Ok {| pe_providerID := providerID; pe_model := model; pe_version := version; pe_from := from;
            pe_until := until;
            pe_rates := {| rate_input := input; rate_output := output; rate_cachedRead := cachedRead;
                           rate_cachedWrite := cachedWrite; rate_audioInput := audioInput;
                           rate_audioOutput := audioOutput; rate_imageInput := imageInput;
                           rate_reasoningOutput := reasoningOutput |} |}.

Fixpoint parse_entries (index : nat) (configured : list UsagePrice) (entries : PricingCatalog)
  : result PriceError PricingCatalog :=
  match configured with
  | [] => Ok entries
  | candidate :: rest =>
      match parsePriceEntry candidate with
      | Err message => Err (price_entry index message)
      | Ok entry =>
          let key := (pe_providerID entry, pe_model entry) in
          parse_entries (S index) rest (<[key := default [] (entries !! key) ++ [entry]]> entries)
      end
  end.
End parse.

(** [slices.SortFunc] by start. It is not stable, but entries with the same start
    overlap and are refused below, whatever their order. *)
Definition starts_before (a b : priceEntry) : Prop := pe_from a ≤ pe_from b.
#[export] Instance starts_before_dec : RelDecision starts_before.
Proof. intros a b. unfold starts_before. apply _. Defined.
#[export] Instance starts_before_total : Total starts_before.
Proof. intros a b. unfold starts_before. lia. Qed.
#[export] Instance starts_before_trans : Transitive starts_before.
Proof. intros a b c. unfold starts_before. lia. Qed.

Definition sort_entries (entries : list priceEntry) : list priceEntry := merge_sort starts_before entries.

(** Does an entry start before its predecessor has ended? *)
Fixpoint overlapping (entries : list priceEntry) : bool :=
  match entries with
  | a :: ((b :: _) as rest) => time_before (pe_from b) (pe_until a) || overlapping rest
  | _ => false
  end.

(** The iteration order of the map shows only in which key an error names. *)
Definition NewPricingCatalog (configured : list UsagePrice)
  : result PriceError PricingCatalog :=
  match parse_entries 0 configured ∅ with
  | Err e => Err e
  | Ok entries =>
      let catalog := fmap sort_entries entries in
      if existsb (λ kv, overlapping kv.2) (map_to_list catalog) then Err price_overlap else Ok catalog
  end.

Definition Empty (catalog : option PricingCatalog) : bool :=
  match catalog with None => true | Some entries => bool_decide (entries = ∅) end.

(** ** Looking an entry up

    [sort.Search]: the least index in [0..n] from which the predicate holds,
    by bisection of [i..j]. *)
Fixpoint search_loop (fuel : nat) (f : nat → bool) (i j : nat) : nat :=
  match fuel with
  | O => i
  | S fuel =>
      if (i <? j)%nat
      then let h := ((i + j) / 2)%nat in
           if negb (f h) then search_loop fuel f (S h) j else search_loop fuel f i h
      else i
  end.

Definition Search (n : nat) (f : nat → bool) : nat := search_loop n f 0 n.

Definition entry_after (entries : list priceEntry) (at_ : Time) (index : nat) : bool :=
  match entries !! index with Some e => time_after (pe_from e) at_ | None => true end.

(** The last entry that has started, when it has not ended. *)
Definition lookup_entries (entries : list priceEntry) (at_ : Time) : option priceEntry :=
  match Search (length entries) (entry_after entries at_) with
  | O => None
  | S index =>
      entry ← entries !! index;
      if time_before at_ (pe_until entry) then Some entry else None
  end.

(** The keys in the order they are tried. *)
Definition lookup_keys (providerID upstreamModel requestedModel : string) : list (string * string) :=
  let models := [TrimSpace upstreamModel; TrimSpace requestedModel; "*"%string] in
  let providers := [TrimSpace providerID; "*"%string] in
  provider ← providers; model ← filter (λ m, m ≠ ""%string) models; [(provider, model)].

Fixpoint first_priced (catalog : PricingCatalog) (keys : list (string * string)) (at_ : Time)
  : option priceEntry :=
  match keys with
  | [] => None
  | key :: rest =>
      match lookup_entries (default [] (catalog !! key)) at_ with
      | Some entry => Some entry
      | None => first_priced catalog rest at_
      end
  end.

Definition catalog_lookup (catalog : option PricingCatalog)
    (providerID upstreamModel requestedModel : string) (at_ : Time) : option priceEntry :=
  catalog ← catalog; first_priced catalog (lookup_keys providerID upstreamModel requestedModel) at_.

(** ** Quotation *)

Definition rateOr (optional : option Z) (fallback : Z) : Z := default fallback optional.

(** [tokens] at [nanoUSDPerMillion], rounded half up; [None] when it does not fit. *)
Definition tokenCost (tokens nanoUSDPerMillion : Z) : option Z :=
  if (tokens =? 0) || (nanoUSDPerMillion =? 0) then Some 0
  else
    let numerator := Z.quot (tokens * nanoUSDPerMillion + 500000) 1000000 in
    if is_int64 numerator then Some numerator else None.

Definition cost_overflow : string := "cost_overflow".

Fixpoint sum_token_costs_loop (components : list (Z * Z)) (total : Z) : Z * string :=
  match components with
  | [] => (total, ""%string)
  | (tokens, rate) :: rest =>
      match tokenCost tokens rate with
      | None => (0, cost_overflow)
      | Some cost =>
          match safeAdd total cost with
          | None => (0, cost_overflow)
          | Some total => sum_token_costs_loop rest total
          end
      end
  end.

Definition sumTokenCosts (components : list (Z * Z)) : Z * string := sum_token_costs_loop components 0.

(** The whole count at the base rate. *)
Definition plain_cost (tokens rate : Z) : Z * string :=
  match tokenCost tokens rate with Some cost => (cost, ""%string) | None => (0, cost_overflow) end.

Definition quoteInput (usage : TokenUsage) (rates : tokenRates) : Z * string :=
  match tu_InputDetails usage with
  | None => plain_cost (tu_Input usage) (rate_input rates)
  | Some details =>
      let special := wrap_int64 (itd_CachedRead details + itd_CachedWrite details +
                                 itd_Audio details + itd_Image details) in
      if tu_Input usage <? special
      then (default 0 (tokenCost (tu_Input usage) (rate_input rates)), "input_token_details_overlap"%string)
      else
        sumTokenCosts
          [(wrap_int64 (tu_Input usage - special), rate_input rates);
           (itd_CachedRead details, rateOr (rate_cachedRead rates) (rate_input rates));
           (itd_CachedWrite details, rateOr (rate_cachedWrite rates) (rate_input rates));
           (itd_Audio details, rateOr (rate_audioInput rates) (rate_input rates));
           (itd_Image details, rateOr (rate_imageInput rates) (rate_input rates))]
  end.

Definition quoteOutput (usage : TokenUsage) (rates : tokenRates) : Z * string :=
  match tu_OutputDetails usage with
  | None => plain_cost (tu_Output usage) (rate_output rates)
  | Some details =>
      let special := wrap_int64 (otd_Audio details + otd_Reasoning details) in
      if tu_Output usage <? special
      then (default 0 (tokenCost (tu_Output usage) (rate_output rates)),
            "output_token_details_overlap"%string)
      else
        sumTokenCosts
          [(wrap_int64 (tu_Output usage - special), rate_output rates);
           (otd_Audio details, rateOr (rate_audioOutput rates) (rate_output rates));
           (otd_Reasoning details, rateOr (rate_reasoningOutput rates) (rate_output rates))]
  end.

Definition unpriced (caveats : list string) : CostResult :=
  {| cr_Snapshot := None; cr_Caveat := joinCaveats caveats |}.

Definition Quote (catalog : option PricingCatalog) (event : UsageEvent) : CostResult :=
  let retryCaveat :=
    if (1 <? e_Attempts event) || (0 <? e_Retries event) || (0 <? e_Fallbacks event)
    then "cost_excludes_unreported_failed_attempts"%string else ""%string in
  if (e_Status event =? StatusCacheHit)%string
  then
    {| cr_Snapshot := Some {| cs_InputNanoUSD := Some 0; cs_OutputNanoUSD := Some 0;
         cs_TotalNanoUSD := 0; cs_Currency := "USD"; cs_Source := CostSourceCache;
         cs_PricingVersion := "cache-v1"; cs_Caveat := "" |};
       cr_Caveat := "" |}
  else
    match e_Usage event with
    | None => unpriced [e_UsageCaveat event; "cost_unknown_without_usage"%string; retryCaveat]
    | Some usage =>
        match tu_ReportedCost usage with
        | Some reported =>
            {| cr_Snapshot := Some {| cs_InputNanoUSD := cost_InputNanoUSD reported;
                 cs_OutputNanoUSD := cost_OutputNanoUSD reported;
                 cs_TotalNanoUSD := cost_TotalNanoUSD reported; cs_Currency := cost_Currency reported;
                 cs_Source := CostSourceProvider; cs_PricingVersion := "provider-reported";
                 cs_Caveat := joinCaveats [e_UsageCaveat event; retryCaveat] |};
               cr_Caveat := "" |}
        | None =>
            match catalog_lookup catalog (e_ProviderID event) (e_UpstreamModel event)
                    (e_RequestedModel event) (e_StartedAt event) with
            | None => unpriced [e_UsageCaveat event; "pricing_not_found"%string; retryCaveat]
            | Some entry =>
                let '(inputCost, inputCaveat) := quoteInput usage (pe_rates entry) in
                let '(outputCost, outputCaveat) := quoteOutput usage (pe_rates entry) in
                if (inputCaveat =? cost_overflow)%string || (outputCaveat =? cost_overflow)%string
                then unpriced [e_UsageCaveat event; cost_overflow; retryCaveat]
                else
                  match safeAdd inputCost outputCost with
                  | None => unpriced [e_UsageCaveat event; cost_overflow; retryCaveat]
                  | Some total =>
                      {| cr_Snapshot := Some {| cs_InputNanoUSD := Some inputCost;
                           cs_OutputNanoUSD := Some outputCost; cs_TotalNanoUSD := total;
                           cs_Currency := "USD"; cs_Source := CostSourceCatalog;
                           cs_PricingVersion := pe_version entry;
                           cs_Caveat := joinCaveats [e_UsageCaveat event; inputCaveat; outputCaveat;
                                                     retryCaveat] |};
                         cr_Caveat := "" |}
                  end
            end
        end
    end.

(** ** The catalogue that is built *)

Definition entry_ok (e : priceEntry) : Prop := pe_from e < pe_until e.
Definition entry_at (t : Time) (e : priceEntry) : Prop := pe_from e ≤ t < pe_until e.
#[export] Instance entry_at_dec t e : Decision (entry_at t e).
Proof. unfold entry_at. apply _. Defined.

Definition option_nonneg (o : option Z) : Prop := 0 ≤ default 0 o.

Record rates_ok (r : tokenRates) : Prop := {
  ro_base : 0 ≤ rate_input r ∧ 0 ≤ rate_output r;
  ro_special : Forall option_nonneg [rate_cachedRead r; rate_cachedWrite r; rate_audioInput r;
    rate_audioOutput r; rate_imageInput r; rate_reasoningOutput r];
}.

(** In every key the windows are proper, in order and do not overlap, and every
    entry is filed under its own provider and model. *)
Record catalog_ok (catalog : PricingCatalog) : Prop := {
  ct_windows : ∀ key entries, catalog !! key = Some entries →
    ∀ i j a b, (i < j)%nat → entries !! i = Some a → entries !! j = Some b → pe_until a ≤ pe_from b;
  ct_entries : ∀ key entries e, catalog !! key = Some entries → e ∈ entries →
    entry_ok e ∧ key = (pe_providerID e, pe_model e) ∧ rates_ok (pe_rates e);
}.

Section build.

Lemma parseRequiredRate_nonneg raw name rate : parseRequiredRate raw name = Ok rate → 0 ≤ rate.
Proof.
  unfold parseRequiredRate. destruct (_ =? _)%string; [done|]. destruct (parseUSD raw) eqn:Hp; [|done].
  intros [= <-]. apply parseUSD_range in Hp. lia.
Qed.

Lemma parseOptionalRate_nonneg raw name rate : parseOptionalRate raw name = Ok rate → option_nonneg rate.
Proof.
  unfold parseOptionalRate. destruct (_ =? _)%string; [by intros [= <-]|].
  destruct (parseUSD raw) eqn:Hp; [|done]. intros [= <-]. apply parseUSD_range in Hp. unfold option_nonneg.
  cbn. lia.
Qed.

Lemma parsePriceEntry_ok candidate e : parsePriceEntry candidate = Ok e → entry_ok e ∧ rates_ok (pe_rates e).
Proof.
  unfold parsePriceEntry. do 3 (destruct (negb _); [done|]). intros Hp.
  apply result_bind_ok in Hp as (from & _ & Hp). apply result_bind_ok in Hp as (until & _ & Hp).
  destruct (negb (time_after _ _)) eqn:Hw; [done|].
  apply result_bind_ok in Hp as (input & Hi & Hp). apply result_bind_ok in Hp as (output & Ho & Hp).
  do 6 (apply result_bind_ok in Hp as (? & ?%parseOptionalRate_nonneg & Hp)). injection Hp as <-.
  apply parseRequiredRate_nonneg in Hi, Ho. unfold time_after in Hw. rewrite negb_false_iff, Z.ltb_lt in Hw.
  split; [done|]. split; [done|]. by repeat constructor.
Qed.

(** Every entry gathered is good and filed under its key. *)
Definition gathered (entries : PricingCatalog) : Prop :=
  ∀ key l e, entries !! key = Some l → e ∈ l →
    entry_ok e ∧ key = (pe_providerID e, pe_model e) ∧ rates_ok (pe_rates e).

Lemma parse_entries_gathered configured index entries entries' :
  parse_entries index configured entries = Ok entries' → gathered entries → gathered entries'.
Proof.
  revert index entries. induction configured as [|c cs IH]; cbn; intros index entries; [by intros [= <-]|].
  destruct (parsePriceEntry c) as [e|] eqn:He; [|done]. intros Hp Hg. apply IH in Hp; [done|].
  apply parsePriceEntry_ok in He as [He Hr]. intros key l e' Hk He'.
  destruct (decide (key = (pe_providerID e, pe_model e))) as [->|Hne].
  - rewrite lookup_insert_eq in Hk. injection Hk as <-. apply elem_of_app in He' as [He'|He'].
    + destruct (entries !! _) as [l|] eqn:Hl in He'; cbn in He'; [by apply (Hg _ l)|].
      by apply elem_of_nil in He'.
    + apply list_elem_of_singleton in He' as ->. done.
  - rewrite lookup_insert_ne in Hk by done. by apply (Hg _ l).
Qed.

Lemma not_overlapping_ordered l :
  overlapping l = false → Forall entry_ok l →
  ∀ i j a b, (i < j)%nat → l !! i = Some a → l !! j = Some b → pe_until a ≤ pe_from b.
Proof.
  induction l as [|x l IH]; [done|]. intros Ho Hok i j a b Hij Ha Hb.
  apply Forall_cons in Hok as [Hx Hok]. assert (overlapping l = false) as Ho'.
  { destruct l; [done|]. cbn in Ho. by apply orb_false_iff in Ho as [_ ?]. }
  destruct j as [|j]; [lia|]. cbn in Hb. destruct i as [|i]; [|by apply (IH Ho' Hok i j a b); [lia|..]].
  injection Ha as <-. destruct l as [|y l]; [done|]. cbn in Ho. apply orb_false_iff in Ho as [Hxy _].
  unfold time_before in Hxy. apply Z.ltb_ge in Hxy. destruct j as [|j]; [by injection Hb as <-|].
  assert (pe_until y ≤ pe_from b) by (apply (IH Ho' Hok 0%nat (S j)); [lia|done..]).
  apply Forall_cons in Hok as [Hy _]. unfold entry_ok in Hy. lia.
Qed.

Lemma NewPricingCatalog_spec configured catalog :
  NewPricingCatalog configured = Ok catalog → catalog_ok catalog.
Proof.
  unfold NewPricingCatalog. destruct (parse_entries _ _ _) as [entries|] eqn:Hp; [|done].
  destruct (existsb _ _) eqn:He; [done|]. intros [= <-].
  apply parse_entries_gathered in Hp; [|by intros ? ? ? ?%lookup_empty_Some].
  assert (∀ key l, (sort_entries <$> entries) !! key = Some l → ∃ l0, entries !! key = Some l0 ∧ l ≡ₚ l0) as Hl.
  { intros key l. rewrite lookup_fmap, fmap_Some. intros (l0 & Hl0 & ->). exists l0. split; [done|].
    apply merge_sort_Permutation. }
  assert (∀ key l e, (sort_entries <$> entries) !! key = Some l → e ∈ l →
    entry_ok e ∧ key = (pe_providerID e, pe_model e) ∧ rates_ok (pe_rates e)) as Hents.
  { intros key l e Hk Hin. destruct (Hl _ _ Hk) as (l0 & Hl0 & Hperm). rewrite Hperm in Hin. by apply (Hp _ l0). }
  split; [|done]. intros key l Hk. apply not_overlapping_ordered.
  - assert (In (key, l) (map_to_list (sort_entries <$> entries))) as Hin
      by (by apply list_elem_of_In, elem_of_map_to_list).
    destruct (overlapping l) eqn:Ho; [|done]. rewrite <-He. symmetry. apply existsb_exists. by exists (key, l).
  - apply Forall_forall. intros e Hin. by apply (Hents _ _ _ Hk).
Qed.
End build.

(** ** The bisection finds the entry that applies *)

Lemma search_loop_spec f n : (∀ i j, (i ≤ j < n)%nat → f i = true → f j = true) →
  ∀ fuel i j, (j - i ≤ fuel)%nat → (i ≤ j ≤ n)%nat →
  (∀ k, (k < i)%nat → f k = false) → (∀ k, (j ≤ k < n)%nat → f k = true) →
  let r := search_loop fuel f i j in
  (i ≤ r ≤ j)%nat ∧ (∀ k, (k < r)%nat → f k = false) ∧ (∀ k, (r ≤ k < n)%nat → f k = true).
Proof.
  intros Hmono fuel. induction fuel as [|fuel IH]; intros i j Hf Hij Hlo Hhi; cbn -[Nat.div Nat.ltb].
  { assert (i = j) as -> by lia. repeat split; try done; lia. }
  destruct (Nat.ltb_spec i j); [|assert (i = j) as -> by lia; repeat split; try done; lia].
  assert (i ≤ (i + j) / 2 < j)%nat as Hh.
  { split; [apply Nat.div_le_lower_bound; lia | apply Nat.Div0.div_lt_upper_bound; lia]. }
  destruct (f ((i + j) / 2)%nat) eqn:Hfh; cbn [negb].
  - destruct (IH i ((i + j) / 2)%nat) as (? & ? & ?); try done; try lia; [|by repeat split; try lia].
    intros k Hk. apply (Hmono ((i + j) / 2)%nat); [lia | done].
  - destruct (IH (S ((i + j) / 2)) j) as (? & ? & ?); try done; try lia; [|by repeat split; try lia].
    intros k Hk. destruct (f k) eqn:Hfk; [|done].
    destruct (Nat.le_gt_cases j k); [lia|].
    rewrite (Hmono k ((i + j) / 2)%nat) in Hfh; [done | lia | done].
Qed.

Lemma Search_spec n f : (∀ i j, (i ≤ j < n)%nat → f i = true → f j = true) →
  (Search n f ≤ n)%nat ∧ (∀ k, (k < Search n f)%nat → f k = false) ∧
  (∀ k, (Search n f ≤ k < n)%nat → f k = true).
Proof.
  intros Hmono. destruct (search_loop_spec f n Hmono n 0 n) as (? & ? & ?); try lia.
  unfold Search. repeat split; [lia | done..].
Qed.

Section windows.
Context (entries : list priceEntry).
Hypothesis windows : ∀ i j a b, (i < j)%nat → entries !! i = Some a → entries !! j = Some b →
  pe_until a ≤ pe_from b.
Hypothesis proper : ∀ e, e ∈ entries → entry_ok e.

Lemma entry_after_mono t i j :
  (i ≤ j < length entries)%nat → entry_after entries t i = true → entry_after entries t j = true.
Proof.
  intros Hij. unfold entry_after, time_after.
  destruct (lookup_lt_is_Some_2 entries i) as [a Ha]; [lia|].
  destruct (lookup_lt_is_Some_2 entries j) as [b Hb]; [lia|]. rewrite Ha, Hb, !Z.ltb_lt.
  destruct (decide (i = j)) as [->|]; [by simplify_eq|].
  pose proof (windows i j a b ltac:(lia) Ha Hb).
  pose proof (proper a (list_elem_of_lookup_2 _ _ _ Ha)). unfold entry_ok in *. lia.
Qed.

(** At most one window contains an instant. *)
Lemma entry_at_unique t i j a b :
  entries !! i = Some a → entries !! j = Some b → entry_at t a → entry_at t b → i = j.
Proof.
  unfold entry_at. intros Ha Hb Hta Htb. destruct (Nat.lt_trichotomy i j) as [Hij|[|Hij]]; [|done|].
  - pose proof (windows _ _ _ _ Hij Ha Hb). lia.
  - pose proof (windows _ _ _ _ Hij Hb Ha). lia.
Qed.

Lemma filter_unique {A} (P : A → Prop) `{∀ x, Decision (P x)} (l : list A) i x :
  l !! i = Some x → P x → (∀ j y, l !! j = Some y → P y → j = i) → filter P l = [x].
Proof.
  revert i. induction l as [|y l IH]; intros i Hi Hx Huniq; [done|]. destruct i as [|i]; cbn in Hi.
  - injection Hi as ->. rewrite filter_cons_True by done. f_equal.
    assert (∀ z, z ∈ l → ¬ P z) as Hno.
    { intros z Hz Hp. apply list_elem_of_lookup_1 in Hz as [k Hk]. by specialize (Huniq (S k) z Hk Hp). }
    clear -Hno. induction l as [|z l IH]; [done|]. rewrite filter_cons_False by (apply Hno; left).
    apply IH. intros w Hw. apply Hno. by right.
  - rewrite filter_cons_False; [|intros Hy; by specialize (Huniq 0%nat y eq_refl Hy)].
    apply (IH i); [done..|]. intros j z Hj Hz. specialize (Huniq (S j) z Hj Hz). lia.
Qed.

Lemma filter_none {A} (P : A → Prop) `{∀ x, Decision (P x)} (l : list A) :
  (∀ x, x ∈ l → ¬ P x) → filter P l = [].
Proof.
  induction l as [|x l IH]; intros Hno; [done|]. rewrite filter_cons_False by (apply Hno; left).
  apply IH. intros y Hy. apply Hno. by right.
Qed.

(** The bisection answers what a scan of all entries would. *)
Lemma lookup_entries_spec t : lookup_entries entries t = head (filter (entry_at t) entries).
Proof.
  destruct (Search_spec (length entries) (entry_after entries t)) as (Hle & Hlo & Hhi).
  { intros i j. apply entry_after_mono. }
  unfold lookup_entries. destruct (Search _ _) as [|r].
  { rewrite filter_none; [done|]. intros e He Hat. apply list_elem_of_lookup_1 in He as [k Hk].
    pose proof (lookup_lt_Some _ _ _ Hk). specialize (Hhi k ltac:(lia)).
    unfold entry_after, time_after in Hhi. rewrite Hk, Z.ltb_lt in Hhi. unfold entry_at in Hat. lia. }
  destruct (lookup_lt_is_Some_2 entries r) as [e He]; [lia|]. rewrite He. cbn.
  assert (pe_from e ≤ t) as Hfrom.
  { specialize (Hlo r ltac:(lia)). unfold entry_after, time_after in Hlo. by rewrite He, Z.ltb_ge in Hlo. }
  unfold time_before. destruct (Z.ltb_spec t (pe_until e)) as [Hu|Hu].
  { rewrite (filter_unique _ _ r e); [done..|]. intros j y Hj Hy. by eapply entry_at_unique. }
  rewrite filter_none; [done|]. intros y Hy Hat. apply list_elem_of_lookup_1 in Hy as [k Hk].
  pose proof (lookup_lt_Some _ _ _ Hk). unfold entry_at in Hat.
  destruct (Nat.lt_trichotomy k r) as [Hkr|[->|Hkr]].
  - pose proof (windows _ _ _ _ Hkr Hk He). lia.
  - simplify_eq. lia.
  - specialize (Hhi k ltac:(lia)). unfold entry_after, time_after in Hhi. rewrite Hk, Z.ltb_lt in Hhi. lia.
Qed.
End windows.

Lemma head_app {A} (l k : list A) : head (l ++ k) = match head l with Some x => Some x | None => head k end.
Proof. by destruct l. Qed.

(** All entries under the keys, in the order of the keys. *)
Definition filed (catalog : PricingCatalog) (keys : list (string * string)) : list priceEntry :=
  concat (map (λ key, default [] (catalog !! key)) keys).

Lemma first_priced_spec catalog keys t :
  catalog_ok catalog → first_priced catalog keys t = head (filter (entry_at t) (filed catalog keys)).
Proof.
  intros [Hw He]. induction keys as [|key keys IH]; [done|]. unfold filed. cbn [map concat first_priced].
  rewrite filter_app, head_app, IH. fold (filed catalog keys).
  destruct (catalog !! key) as [l|] eqn:Hl; cbn [default]; [|done].
  rewrite lookup_entries_spec; [done | by apply (Hw key) |].
  intros e Hin. by apply (He _ _ _ Hl).
Qed.

(** ** What is charged *)

(** [tokens * rate / 10^6], rounded half up, without any bound. *)
Definition exact_cost (part : Z * Z) : Z := (part.1 * part.2 + 500000) / 1000000.

Lemma exact_cost_nearest t r : 2 * Z.abs (1000000 * exact_cost (t, r) - t * r) ≤ 1000000.
Proof.
  unfold exact_cost. cbn. pose proof (Z.div_mod (t * r + 500000) 1000000).
  pose proof (Z.mod_pos_bound (t * r + 500000) 1000000). lia.
Qed.

Definition part_ok (part : Z * Z) : Prop := 0 ≤ part.1 ∧ 0 ≤ part.2.

Lemma exact_cost_nonneg part : part_ok part → 0 ≤ exact_cost part.
Proof. intros [? ?]. unfold exact_cost. apply Z.div_pos; nia. Qed.

Lemma tokenCost_exact t r :
  part_ok (t, r) → tokenCost t r = if is_int64 (exact_cost (t, r)) then Some (exact_cost (t, r)) else None.
Proof.
  intros [Ht Hr]. cbn in *. unfold tokenCost, exact_cost. cbn [fst snd].
  destruct (Z.eqb_spec t 0) as [->|]; cbn [orb]; [done|].
  destruct (Z.eqb_spec r 0) as [->|]; [by rewrite Z.mul_0_r|].
  rewrite Z.quot_div_nonneg by nia. done.
Qed.

Definition parts_cost (parts : list (Z * Z)) : Z := sumZ exact_cost parts.

Lemma parts_cost_nonneg parts : Forall part_ok parts → 0 ≤ parts_cost parts.
Proof.
  unfold parts_cost. induction 1 as [|p ps Hp Hps IH]; [rewrite sumZ_nil; done|].
  rewrite sumZ_cons. apply exact_cost_nonneg in Hp. lia.
Qed.

(** A cost that does not fit is reported as such. *)
Definition charged (cost : Z) : Z * string := if is_int64 cost then (cost, ""%string) else (0, cost_overflow).

Lemma is_int64_false z : is_int64 z = false ↔ ¬ in_int64 z.
Proof. rewrite <-is_int64_spec. by destruct (is_int64 z). Qed.

Lemma charged_large cost : int64_max < cost → charged cost = (0, cost_overflow).
Proof.
  intros Hc. unfold charged. by rewrite (proj2 (is_int64_false cost)) by (unfold in_int64; lia).
Qed.

Lemma sum_token_costs_loop_spec parts total :
  Forall part_ok parts → 0 ≤ total ≤ int64_max →
  sum_token_costs_loop parts total = charged (total + parts_cost parts).
Proof.
  intros Hp. revert total. induction Hp as [|[t r] ps Hp Hps IH]; intros total Ht.
  { cbn. unfold parts_cost, charged. rewrite sumZ_nil, Z.add_0_r.
    by rewrite (proj2 (is_int64_spec total)) by (unfold in_int64, int64_min; lia). }
  pose proof (exact_cost_nonneg _ Hp). pose proof (parts_cost_nonneg _ Hps). unfold parts_cost in *.
  cbn [sum_token_costs_loop]. rewrite sumZ_cons, tokenCost_exact by done.
  destruct (is_int64 (exact_cost (t, r))) eqn:Hc.
  2: { apply is_int64_false in Hc. rewrite charged_large; [done|].
       unfold in_int64, int64_min in Hc. lia. }
  unfold safeAdd. destruct (is_int64 (total + exact_cost (t, r))) eqn:Hs.
  - apply is_int64_spec in Hs. rewrite IH by (unfold in_int64 in Hs; lia). f_equal. lia.
  - apply is_int64_false in Hs. rewrite charged_large; [done|]. unfold in_int64, int64_min in Hs. lia.
Qed.

(** The parts a count is priced in: the special tokens at their own rates and
    the rest at the base rate; all at the base rate when the details claim more
    tokens than there are. *)
Definition input_special (d : InputTokenDetails) : Z :=
  itd_CachedRead d + itd_CachedWrite d + itd_Audio d + itd_Image d.
Definition output_special (d : OutputTokenDetails) : Z := otd_Audio d + otd_Reasoning d.

Definition input_overlap (u : TokenUsage) : bool :=
  match tu_InputDetails u with Some d => tu_Input u <? input_special d | None => false end.
Definition output_overlap (u : TokenUsage) : bool :=
  match tu_OutputDetails u with Some d => tu_Output u <? output_special d | None => false end.

Definition input_parts (u : TokenUsage) (r : tokenRates) : list (Z * Z) :=
  match tu_InputDetails u with
  | Some d =>
      if input_overlap u then [(tu_Input u, rate_input r)]
      else [(tu_Input u - input_special d, rate_input r);
            (itd_CachedRead d, rateOr (rate_cachedRead r) (rate_input r));
            (itd_CachedWrite d, rateOr (rate_cachedWrite r) (rate_input r));
            (itd_Audio d, rateOr (rate_audioInput r) (rate_input r));
            (itd_Image d, rateOr (rate_imageInput r) (rate_input r))]
  | None => [(tu_Input u, rate_input r)]
  end.

Definition output_parts (u : TokenUsage) (r : tokenRates) : list (Z * Z) :=
  match tu_OutputDetails u with
  | Some d =>
      if output_overlap u then [(tu_Output u, rate_output r)]
      else [(tu_Output u - output_special d, rate_output r);
            (otd_Audio d, rateOr (rate_audioOutput r) (rate_output r));
            (otd_Reasoning d, rateOr (rate_reasoningOutput r) (rate_output r))]
  | None => [(tu_Output u, rate_output r)]
  end.

(** What is charged on the overlap branch. *)
Definition charged_overlap (cost : Z) (caveat : string) : Z * string :=
  (if is_int64 cost then cost else 0, caveat).

Section quoted.
Context (u : TokenUsage) (r : tokenRates).
Hypothesis valid : TokenUsage_validate u = None.
Hypothesis rates : rates_ok r.

Lemma valid_counts :
  0 ≤ tu_Input u ≤ maximumTokenCount ∧ 0 ≤ tu_Output u ≤ maximumTokenCount ∧
  (∀ d, tu_InputDetails u = Some d → Forall (λ n, 0 ≤ n ≤ maximumTokenCount) (input_counts d)) ∧
  (∀ d, tu_OutputDetails u = Some d → Forall (λ n, 0 ≤ n ≤ maximumTokenCount) (output_counts d)).
Proof.
  unfold TokenUsage_validate in valid. apply first_error_none in valid. rewrite !Forall_cons in valid.
  destruct valid as (Hc & Hi & Ho & _ & _). cbn [fst] in *.
  rewrite !orb_false_iff, !invalidTokenCount_false in Hc. destruct Hc as [[? ?] _].
  assert (∀ l, existsb invalidTokenCount l = false → Forall (λ n, 0 ≤ n ≤ maximumTokenCount) l) as Hex.
  { induction l as [|n l IH]; cbn; [constructor|]. rewrite orb_false_iff, invalidTokenCount_false.
    intros [? ?]. constructor; auto. }
  repeat split; try lia; intros d Hd; rewrite Hd in *; by apply Hex.
Qed.

Lemma rateOr_nonneg o base : option_nonneg o → 0 ≤ base → 0 ≤ rateOr o base.
Proof. unfold option_nonneg, rateOr. by destruct o. Qed.

Lemma input_parts_ok : Forall part_ok (input_parts u r).
Proof.
  destruct valid_counts as (Hi & _ & Hd & _). destruct rates as [[Hb _] Hs]. rewrite !Forall_cons in Hs.
  destruct Hs as (? & ? & ? & ? & ? & ? & _). unfold input_parts, input_overlap.
  destruct (tu_InputDetails u) as [d|]; [|by repeat constructor; cbn; lia].
  specialize (Hd d eq_refl). unfold input_counts in Hd. rewrite !Forall_cons in Hd.
  destruct Hd as (? & ? & ? & ? & ? & _). destruct (Z.ltb_spec (tu_Input u) (input_special d));
    repeat constructor; cbn; try lia; by apply rateOr_nonneg.
Qed.

Lemma output_parts_ok : Forall part_ok (output_parts u r).
Proof.
  destruct valid_counts as (_ & Ho & _ & Hd). destruct rates as [[_ Hb] Hs]. rewrite !Forall_cons in Hs.
  destruct Hs as (? & ? & ? & ? & ? & ? & _). unfold output_parts, output_overlap.
  destruct (tu_OutputDetails u) as [d|]; [|by repeat constructor; cbn; lia].
  specialize (Hd d eq_refl). unfold output_counts in Hd. rewrite !Forall_cons in Hd.
  destruct Hd as (? & ? & ? & ? & ? & _). destruct (Z.ltb_spec (tu_Output u) (output_special d));
    repeat constructor; cbn; try lia; by apply rateOr_nonneg.
Qed.

Lemma parts_cost_single p : parts_cost [p] = exact_cost p.
Proof. unfold parts_cost. rewrite sumZ_cons, sumZ_nil. lia. Qed.

Lemma plain_cost_spec t rate : part_ok (t, rate) → plain_cost t rate = charged (exact_cost (t, rate)).
Proof. intros Hp. unfold plain_cost, charged. rewrite tokenCost_exact by done. by destruct (is_int64 _). Qed.

Lemma quoteInput_spec :
  quoteInput u r =
  if input_overlap u then charged_overlap (parts_cost (input_parts u r)) "input_token_details_overlap"
  else charged (parts_cost (input_parts u r)).
Proof.
  pose proof input_parts_ok as Hp. destruct valid_counts as (Hi & _ & Hd & _).
  unfold quoteInput, input_parts, input_overlap in *. unfold maximumTokenCount in *.
  destruct (tu_InputDetails u) as [d|].
  2: { rewrite parts_cost_single. apply plain_cost_spec. by apply Forall_inv in Hp. }
  specialize (Hd d eq_refl). unfold input_counts in Hd. rewrite !Forall_cons in Hd.
  destruct Hd as (? & ? & ? & ? & ? & _). fold (input_special d).
  rewrite (wrap_int64_id (input_special d)) by (unfold in_int64, int64_min, int64_max, input_special; lia).
  destruct (Z.ltb_spec (tu_Input u) (input_special d)).
  - apply Forall_inv in Hp. rewrite parts_cost_single. unfold charged_overlap.
    rewrite tokenCost_exact by done. by destruct (is_int64 _).
  - unfold sumTokenCosts. rewrite wrap_int64_id
      by (unfold in_int64, int64_min, int64_max, input_special in *; lia).
    by rewrite sum_token_costs_loop_spec.
Qed.

Lemma quoteOutput_spec :
  quoteOutput u r =
  if output_overlap u then charged_overlap (parts_cost (output_parts u r)) "output_token_details_overlap"
  else charged (parts_cost (output_parts u r)).
Proof.
  pose proof output_parts_ok as Hp. destruct valid_counts as (_ & Ho & _ & Hd).
  unfold quoteOutput, output_parts, output_overlap in *. unfold maximumTokenCount in *.
  destruct (tu_OutputDetails u) as [d|].
  2: { rewrite parts_cost_single. apply plain_cost_spec. by apply Forall_inv in Hp. }
  specialize (Hd d eq_refl). unfold output_counts in Hd. rewrite !Forall_cons in Hd.
  destruct Hd as (? & ? & ? & ? & ? & _). fold (output_special d).
  rewrite (wrap_int64_id (output_special d)) by (unfold in_int64, int64_min, int64_max, output_special; lia).
  destruct (Z.ltb_spec (tu_Output u) (output_special d)).
  - apply Forall_inv in Hp. rewrite parts_cost_single. unfold charged_overlap.
    rewrite tokenCost_exact by done. by destruct (is_int64 _).
  - unfold sumTokenCosts. rewrite wrap_int64_id
      by (unfold in_int64, int64_min, int64_max, output_special in *; lia).
    by rewrite sum_token_costs_loop_spec.
Qed.
End quoted.

Lemma Event_Validate_usage event u :
  Event_Validate event = None → e_Usage event = Some u → TokenUsage_validate u = None.
Proof. unfold Event_Validate. intros Hv Hu. rewrite Hu in Hv. by destruct (first_error _). Qed.

Lemma filed_rates catalog keys e : catalog_ok catalog → e ∈ filed catalog keys → rates_ok (pe_rates e).
Proof.
  intros [_ He] Hin. unfold filed in Hin. apply list_elem_of_In, in_concat in Hin as (l & Hl & Hin).
  apply in_map_iff in Hl as (key & <- & _). destruct (catalog !! key) as [l|] eqn:Hl; [|done].
  by apply (He key l e Hl), list_elem_of_In.
Qed.

Lemma head_filter {A} (P : A → Prop) `{∀ x, Decision (P x)} l x :
  head (filter P l) = Some x → x ∈ l ∧ P x.
Proof.
  destruct (filter P l) as [|y k] eqn:Hf; [done|]. intros [= ->].
  assert (x ∈ filter P l) as Hx by (rewrite Hf; left). by apply list_elem_of_filter in Hx as [? ?].
Qed.

Lemma catalog_lookup_rates catalog p u r t e :
  catalog_ok catalog → catalog_lookup (Some catalog) p u r t = Some e → rates_ok (pe_rates e).
Proof.
  intros Hc. unfold catalog_lookup. cbn. rewrite first_priced_spec by done.
  intros [Hin _]%head_filter. by eapply filed_rates.
Qed.

Section properties.

(** Looking a price up by bisection is the declarative choice. In a catalogue
    that was built from a configuration, the entry that applies is the first, in
    the order provider-and-model, provider-and-requested-model,
    provider-and-any, any-and-model, ..., whose window contains the instant; and
    there is none exactly when no such window exists. *)
Theorem price_lookup_exact configured catalog providerID upstreamModel requestedModel at_ :
  NewPricingCatalog configured = Ok catalog →
  catalog_lookup (Some catalog) providerID upstreamModel requestedModel at_ =
  head (filter (entry_at at_) (filed catalog (lookup_keys providerID upstreamModel requestedModel))).
Proof. intros Hc%NewPricingCatalog_spec. by apply first_priced_spec. Qed.

(** C40: the quotation is exact. For a valid event priced from the catalogue, the
    cost that is stored is the sum, in unbounded integers, of the cost of every
    part (the special tokens at their rates, the rest at the base rate, each
    rounded to the nearest nano-USD) whenever that sum fits in 64 bits; it is
    never a wrapped number. When it does not fit, no cost is stored, unless
    inconsistent details were ignored. *)
Theorem quote_exact configured catalog event u entry :
  NewPricingCatalog configured = Ok catalog → Event_Validate event = None →
  e_Status event ≠ StatusCacheHit → e_Usage event = Some u → tu_ReportedCost u = None →
  catalog_lookup (Some catalog) (e_ProviderID event) (e_UpstreamModel event) (e_RequestedModel event)
    (e_StartedAt event) = Some entry →
  let i := parts_cost (input_parts u (pe_rates entry)) in
  let o := parts_cost (output_parts u (pe_rates entry)) in
  (in_int64 (i + o) → ∃ s, cr_Snapshot (Quote (Some catalog) event) = Some s ∧
     cs_InputNanoUSD s = Some i ∧ cs_OutputNanoUSD s = Some o ∧ cs_TotalNanoUSD s = i + o ∧
     cs_PricingVersion s = pe_version entry) ∧
  (¬ in_int64 (i + o) → input_overlap u = false → output_overlap u = false →
     cr_Snapshot (Quote (Some catalog) event) = None).
Proof.
  intros Hcat%NewPricingCatalog_spec Hv Hst Hu Hrep Hl. pose proof (Event_Validate_usage _ _ Hv Hu) as Hvu.
  pose proof (catalog_lookup_rates _ _ _ _ _ _ Hcat Hl) as Hrates.
  pose proof (parts_cost_nonneg _ (input_parts_ok u _ Hvu Hrates)) as Hi.
  pose proof (parts_cost_nonneg _ (output_parts_ok u _ Hvu Hrates)) as Ho.
  cbn zeta. unfold Quote. rewrite (proj2 (String.eqb_neq _ _)) by done. rewrite Hu, Hrep, Hl.
  rewrite quoteInput_spec, quoteOutput_spec by done.
  set (i := parts_cost (input_parts _ _)) in *. set (o := parts_cost (output_parts _ _)) in *.
  unfold charged, charged_overlap. split.
  - intros Hfit. unfold in_int64, int64_min, int64_max in Hfit.
    rewrite !(proj2 (is_int64_spec _)) by (unfold in_int64, int64_min, int64_max; lia).
    destruct (input_overlap u), (output_overlap u); cbn -[safeAdd]; unfold safeAdd;
      rewrite (proj2 (is_int64_spec (i + o))) by done; by eexists.
  - intros Hbig Hio Hoo. rewrite Hio, Hoo. apply is_int64_false in Hbig. cbn -[safeAdd].
    destruct (is_int64 i), (is_int64 o); try done. cbn -[safeAdd]. unfold safeAdd. by rewrite Hbig.
Qed.
End properties.

(** ** Concrete instances *)

Definition demo_price (from until input : string) : UsagePrice :=
  {| up_ProviderID := "p"; up_Model := "m"; up_Version := "v1"; up_EffectiveFrom := from;
     up_EffectiveUntil := until; up_InputUSDPerMillion := input; up_OutputUSDPerMillion := "3";
     up_CachedReadUSDPerMillion := "1/2"; up_CachedWriteUSDPerMillion := "";
     up_AudioInputUSDPerMillion := ""; up_AudioOutputUSDPerMillion := "";
     up_ImageInputUSDPerMillion := ""; up_ReasoningOutputUSDPerMillion := "" |}.

Definition demo_prices : list UsagePrice :=
  [demo_price "2030-01-01T00:00:00Z" "" "9000000000"; demo_price "" "2030-01-01T00:00:00Z" "3"].

Definition demo_catalog : PricingCatalog := Eval vm_compute in
  match NewPricingCatalog demo_prices with Ok c => c | Err _ => ∅ end.

Lemma demo_catalog_built : NewPricingCatalog demo_prices = Ok demo_catalog.
Proof. vm_compute. reflexivity. Qed.

Definition priced_usage (input cached audio : Z) : TokenUsage :=
  {| tu_Input := input; tu_Output := 20; tu_Total := input;
     tu_InputDetails := Some {| itd_Text := 0; itd_Audio := audio; itd_Image := 0;
                                itd_CachedRead := cached; itd_CachedWrite := 0 |};
     tu_OutputDetails := None; tu_ReportedCost := None; tu_Raw := "" |}.

Definition priced_event (usage : TokenUsage) (at_ : Time) : UsageEvent :=
  {| e_SchemaVersion := 2; e_EventID := "use_1"; e_RequestID := "r"; e_TenantID := "t"; e_APIKeyID := "k";
     e_RequestedModel := "fast"; e_ProviderID := "p"; e_UpstreamModel := "m"; e_CacheStatus := "miss";
     e_Stream := false; e_Attempts := 1; e_Retries := 0; e_Fallbacks := 0; e_Usage := Some usage;
     e_UsageSource := UsageSourceProvider; e_UsageCaveat := ""; e_FinishReason := "";
     e_Status := StatusSuccess; e_ErrorCategory := ""; e_ErrorCode := ""; e_StartedAt := at_;
     e_EndedAt := at_; e_LatencyMS := 0; e_FirstTokenMS := None |}.

Definition in_2025 : Time := 63871286400 * second.
Definition in_2031 : Time := 64060588800 * second.
Definition demo_priced : UsageEvent := priced_event (priced_usage 10 4 0) in_2025.

Definition demo_entry : priceEntry := Eval vm_compute in
  match catalog_lookup (Some demo_catalog) "p" "m" "fast" in_2025 with
  | Some e => e
  | None => {| pe_providerID := ""; pe_model := ""; pe_version := ""; pe_from := 0; pe_until := 0;
               pe_rates := {| rate_input := 0; rate_output := 0; rate_cachedRead := None;
                              rate_cachedWrite := None; rate_audioInput := None;
                              rate_audioOutput := None; rate_imageInput := None;
                              rate_reasoningOutput := None |} |}
  end.

Lemma price_lookup_exact_witness :
  catalog_lookup (Some demo_catalog) "p" "m" "fast" in_2025 =
  head (filter (entry_at in_2025) (filed demo_catalog (lookup_keys "p" "m" "fast"))).
Proof.
  exact (price_lookup_exact demo_prices demo_catalog "p" "m" "fast" in_2025
    demo_catalog_built).
Defined.

Lemma demo_lookup : catalog_lookup (Some demo_catalog) "p" "m" "fast" in_2025 = Some demo_entry.
Proof. vm_compute. reflexivity. Qed.

Lemma demo_priced_valid : Event_Validate demo_priced = None.
Proof. vm_compute. reflexivity. Qed.

Definition demo_cost : Z :=
  parts_cost (input_parts (priced_usage 10 4 0) (pe_rates demo_entry)) +
  parts_cost (output_parts (priced_usage 10 4 0) (pe_rates demo_entry)).

Lemma demo_cost_80000 : demo_cost = 80000.
Proof. vm_compute. reflexivity. Qed.

Lemma demo_cost_fits : in_int64 demo_cost.
Proof. rewrite demo_cost_80000. split; vm_compute; discriminate. Qed.

Lemma quote_exact_witness :
  ∃ s, cr_Snapshot (Quote (Some demo_catalog) demo_priced) = Some s ∧ cs_TotalNanoUSD s = demo_cost.
Proof.
  destruct (proj1 (quote_exact demo_prices demo_catalog demo_priced
    (priced_usage 10 4 0) demo_entry demo_catalog_built demo_priced_valid ltac:(discriminate) eq_refl
    eq_refl demo_lookup) demo_cost_fits) as (s & Hs & _ & _ & Ht & _).
  exact (ex_intro _ s (conj Hs Ht)).
Defined.

(** The last clause of [quote_exact] is needed: when the details claim more tokens
    than the count and the cost at the base rate does not fit, the overflow is
    dropped and the input is charged nothing. *)
Theorem overlap_overflow_uncharged :
  let event := priced_event (priced_usage maximumTokenCount maximumTokenCount 1) in_2031 in
  Event_Validate event = None ∧
  option_map cs_InputNanoUSD (cr_Snapshot (Quote (Some demo_catalog) event)) = Some (Some 0) ∧
  option_map (λ entry, rate_input (pe_rates entry)) (catalog_lookup (Some demo_catalog) "p" "m" "fast" in_2031)
    = Some 9000000000000000000 ∧
  int64_max < exact_cost (maximumTokenCount, 9000000000000000000).
Proof. repeat split; vm_compute; reflexivity. Qed.
