(* ===== verification/UsageStore.v ===== *)
(** * The store of usage events

    Models [src/internal/usage/store.go] and [src/internal/usage/maintenance.go],
    and the tables of [src/internal/postgres/models.go] they write: a stored event
    is a row whose cost is quoted when it is stored and again when it is repriced;
    the row of the outbox goes in the same transaction that stores the event.

    A table is a map by its primary key. The database answers a statement or a
    transaction in one of three ways ([DbAnswer]); in what order it finds rows that
    an [ORDER BY] does not tell apart, and how it orders texts, are parameters. *)

From S2P Require Import Prelude Encoding Json JsonWrite BigRat Calendar Usage UsageJson Pricing.

(** ** The database *)

(** A statement is applied and reported so, refused, or applied although the
    answer is lost and the client sees an error. *)
Inductive DbAnswer := Applied | Refused | AnswerLost.

#[export] Instance DbAnswer_eq_dec : EqDecision DbAnswer.
Proof. solve_decision. Defined.

(** What became of the state: [f] of it, or nothing. *)
Definition after {S} (answer : DbAnswer) (f : S → S) (s : S) : S :=
  match answer with Refused => s | _ => f s end.
Definition db_failed (answer : DbAnswer) : bool := bool_decide (answer ≠ Applied).

(** The order in which rows are found. *)
Class Scan := {
  scan : ∀ {A}, gmap string A → list (string * A);
  scan_perm : ∀ {A} (m : gmap string A), scan m ≡ₚ map_to_list m;
}.

(** The order of texts. *)
Class Collation := {
  collate : relation string;
  collate_dec :: RelDecision collate;
  collate_order :: TotalOrder collate;
}.

(** [postgres.UsageOutbox]. *)
Inductive OutboxState := UsageOutboxPending | UsageOutboxReady | UsageOutboxPublished.

#[export] Instance OutboxState_eq_dec : EqDecision OutboxState.
Proof. solve_decision. Defined.

Record UsageOutbox := {
  ob_EventID : string;
  ob_RequestID : string;
  ob_TenantID : string;
  ob_APIKeyID : string;
  ob_RequestedModel : string;
  ob_Stream : bool;
  ob_State : OutboxState;
  ob_Payload : option string;
  ob_StartedAt : Time;
  ob_CreatedAt : Time;
  ob_UpdatedAt : Time;
  ob_PublishedAt : option Time;
}.

(** [postgres.UsageEvent]. *)
Record UsageRow := {
  ur_EventID : string;
  ur_RedisEntryID : string;
  ur_SchemaVersion : Z;
  ur_RequestID : string;
  ur_TenantID : string;
  ur_APIKeyID : string;
  ur_RequestedModel : string;
  ur_ProviderID : string;
  ur_UpstreamModel : string;
  ur_CacheStatus : string;
  ur_Stream : bool;
  ur_Attempts : Z;
  ur_Retries : Z;
  ur_Fallbacks : Z;
  ur_UsageSource : string;
  ur_UsageCaveat : string;
  ur_InputTokens : option Z;
  ur_OutputTokens : option Z;
  ur_TotalTokens : option Z;
  ur_InputText : option Z;
  ur_InputAudio : option Z;
  ur_InputImage : option Z;
  ur_CachedRead : option Z;
  ur_CachedWrite : option Z;
  ur_OutputText : option Z;
  ur_OutputAudio : option Z;
  ur_Reasoning : option Z;
  ur_AcceptedPrediction : option Z;
  ur_RejectedPrediction : option Z;
  ur_RawUsage : string;
  ur_InputCostNanoUSD : option Z;
  ur_OutputCostNanoUSD : option Z;
  ur_TotalCostNanoUSD : option Z;
  ur_CostCurrency : string;
  ur_CostSource : string;
  ur_PricingVersion : string;
  ur_CostCaveat : string;
  ur_FinishReason : string;
  ur_Status : string;
  ur_ErrorCategory : string;
  ur_ErrorCode : string;
  ur_StartedAt : Time;
  ur_EndedAt : Time;
  ur_LatencyMS : Z;
  ur_FirstTokenMS : option Z;
  ur_ProcessedAt : Time;
}.

(** The two tables. *)
Record UsageDB := { db_outbox : gmap string UsageOutbox; db_events : gmap string UsageRow }.

(** ** Rows *)

(** [int16(v)]. *)
Definition wrap_int16 (z : Z) : Z := (z + 32768) mod 65536 - 32768.

Definition usageRecord (pricing : option PricingCatalog) (entryID : string) (event : UsageEvent)
    (processedAt : Time) : UsageRow :=
  let cost := Quote pricing event in
  let snapshot := cr_Snapshot cost in
  let usage := e_Usage event in
  let input := usage ≫= tu_InputDetails in
  let output := usage ≫= tu_OutputDetails in
  {| ur_EventID := e_EventID event;
     ur_RedisEntryID := entryID;
     ur_SchemaVersion := wrap_int16 (e_SchemaVersion event);
     ur_RequestID := e_RequestID event;
     ur_TenantID := e_TenantID event;
     ur_APIKeyID := e_APIKeyID event;
     ur_RequestedModel := e_RequestedModel event;
     ur_ProviderID := e_ProviderID event;
     ur_UpstreamModel := e_UpstreamModel event;
     ur_CacheStatus := e_CacheStatus event;
     ur_Stream := e_Stream event;
     ur_Attempts := e_Attempts event;
     ur_Retries := e_Retries event;
     ur_Fallbacks := e_Fallbacks event;
     ur_UsageSource := e_UsageSource event;
     ur_UsageCaveat := e_UsageCaveat event;
     ur_InputTokens := tu_Input <$> usage;
     ur_OutputTokens := tu_Output <$> usage;
     ur_TotalTokens := tu_Total <$> usage;
     ur_InputText := itd_Text <$> input;
     ur_InputAudio := itd_Audio <$> input;
     ur_InputImage := itd_Image <$> input;
     ur_CachedRead := itd_CachedRead <$> input;
     ur_CachedWrite := itd_CachedWrite <$> input;
     ur_OutputText := otd_Text <$> output;
     ur_OutputAudio := otd_Audio <$> output;
     ur_Reasoning := otd_Reasoning <$> output;
     ur_AcceptedPrediction := otd_AcceptedPrediction <$> output;
     ur_RejectedPrediction := otd_RejectedPrediction <$> output;
     ur_RawUsage := default ""%string (tu_Raw <$> usage);
     ur_InputCostNanoUSD := snapshot ≫= cs_InputNanoUSD;
     ur_OutputCostNanoUSD := snapshot ≫= cs_OutputNanoUSD;
     ur_TotalCostNanoUSD := cs_TotalNanoUSD <$> snapshot;
     ur_CostCurrency := default ""%string (cs_Currency <$> snapshot);
     ur_CostSource := default ""%string (cs_Source <$> snapshot);
     ur_PricingVersion := default ""%string (cs_PricingVersion <$> snapshot);
     ur_CostCaveat := default (cr_Caveat cost) (cs_Caveat <$> snapshot);
     ur_FinishReason := e_FinishReason event;
     ur_Status := e_Status event;
     ur_ErrorCategory := e_ErrorCategory event;
     ur_ErrorCode := e_ErrorCode event;
     ur_StartedAt := e_StartedAt event;
     ur_EndedAt := e_EndedAt event;
     ur_LatencyMS := e_LatencyMS event;
     ur_FirstTokenMS := e_FirstTokenMS event;
     ur_ProcessedAt := processedAt |}.

Definition int64Value (value : option Z) : Z := default 0 value.
Definition anyInt64 (values : list (option Z)) : bool := existsb isSome values.

(** The tokens of a row, as [eventFromRow] and the queries read them. *)
Definition row_has_tokens (row : UsageRow) : bool :=
  isSome (ur_TotalTokens row) || isSome (ur_InputTokens row) || isSome (ur_OutputTokens row).

Definition row_input_details (row : UsageRow) : option InputTokenDetails :=
  if anyInt64 [ur_InputText row; ur_InputAudio row; ur_InputImage row; ur_CachedRead row; ur_CachedWrite row]
  then Some {| itd_Text := int64Value (ur_InputText row); itd_Audio := int64Value (ur_InputAudio row);
               itd_Image := int64Value (ur_InputImage row); itd_CachedRead := int64Value (ur_CachedRead row);
               itd_CachedWrite := int64Value (ur_CachedWrite row) |}
  else None.

Definition row_output_details (row : UsageRow) : option OutputTokenDetails :=
  if anyInt64 [ur_OutputText row; ur_OutputAudio row; ur_Reasoning row; ur_AcceptedPrediction row;
               ur_RejectedPrediction row]
  then Some {| otd_Text := int64Value (ur_OutputText row); otd_Audio := int64Value (ur_OutputAudio row);
               otd_Reasoning := int64Value (ur_Reasoning row);
               otd_AcceptedPrediction := int64Value (ur_AcceptedPrediction row);
               otd_RejectedPrediction := int64Value (ur_RejectedPrediction row) |}
  else None.

(** What the raw usage data of a row says. *)
Definition stored_raw `{UnicodeUpper} (raw : string) : option TokenUsage :=
  let raw := TrimSpace raw in if (raw =? "")%string then None else (parseTokenUsage raw).1.

Definition row_usage `{UnicodeUpper} (row : UsageRow) : option TokenUsage :=
  if row_has_tokens row then
    let parsed := stored_raw (ur_RawUsage row) in
    Some {| tu_Input := int64Value (ur_InputTokens row); tu_Output := int64Value (ur_OutputTokens row);
            tu_Total := int64Value (ur_TotalTokens row); tu_InputDetails := row_input_details row;
            tu_OutputDetails := row_output_details row; tu_ReportedCost := parsed ≫= tu_ReportedCost;
            tu_Raw := default ""%string (tu_Raw <$> parsed) |}
  else None.

Definition eventFromRow `{UnicodeUpper} (row : UsageRow) : UsageEvent :=
  {| e_SchemaVersion := ur_SchemaVersion row; e_EventID := ur_EventID row; e_RequestID := ur_RequestID row;
     e_TenantID := ur_TenantID row; e_APIKeyID := ur_APIKeyID row; e_RequestedModel := ur_RequestedModel row;
     e_ProviderID := ur_ProviderID row; e_UpstreamModel := ur_UpstreamModel row;
     e_CacheStatus := ur_CacheStatus row; e_Stream := ur_Stream row; e_Attempts := ur_Attempts row;
     e_Retries := ur_Retries row; e_Fallbacks := ur_Fallbacks row; e_Usage := row_usage row;
     e_UsageSource := ur_UsageSource row; e_UsageCaveat := ur_UsageCaveat row;
     e_FinishReason := ur_FinishReason row; e_Status := ur_Status row;
     e_ErrorCategory := ur_ErrorCategory row; e_ErrorCode := ur_ErrorCode row;
     e_StartedAt := ur_StartedAt row; e_EndedAt := ur_EndedAt row; e_LatencyMS := ur_LatencyMS row;
     e_FirstTokenMS := ur_FirstTokenMS row |}.

(** ** Storing *)

Record storeEntry := { se_entryID : string; se_event : UsageEvent }.

(** [INSERT ... ON CONFLICT (event_id) DO NOTHING] of several rows: the table and
    the number of rows inserted. *)
Definition insert_event (acc : gmap string UsageRow * Z) (row : UsageRow) : gmap string UsageRow * Z :=
  match acc.1 !! ur_EventID row with
  | Some _ => acc
  | None => (<[ur_EventID row := row]> acc.1, acc.2 + 1)
  end.

Definition insert_events (events : gmap string UsageRow) (rows : list UsageRow) : gmap string UsageRow * Z :=
  foldl insert_event (events, 0) rows.

Definition delete_keys {A} (ids : list string) (m : gmap string A) : gmap string A :=
  foldl (λ m id, delete id m) m ids.

Inductive StoreError := SInvalid (e : UsageError) | SDatabase | SParameters (message : string).

(** [putBatch]: the numbers of events stored and already there. *)
Definition putBatch (pricing : option PricingCatalog) (now : Time) (entries : list storeEntry)
    (answer : DbAnswer) (db : UsageDB) : result StoreError (Z * Z) * UsageDB :=
  match entries with
  | [] => (Ok (0, 0), db)
  | _ =>
      match list_find (λ entry, Event_Validate (se_event entry) ≠ None) entries with
      | Some (_, entry) => (Err (SInvalid (default (usage_error "") (Event_Validate (se_event entry)))), db)
      | None =>
          let records := map (λ entry, usageRecord pricing (se_entryID entry) (se_event entry) now) entries in
          let eventIDs := map (λ entry, e_EventID (se_event entry)) entries in
          let '(events, stored) := insert_events (db_events db) records in
          let db' := after answer (λ db, {| db_outbox := delete_keys eventIDs (db_outbox db);
                                            db_events := events |}) db in
          if db_failed answer then (Err SDatabase, db')
          else (Ok (stored, Z.of_nat (length entries) - stored), db')
      end
  end.

Definition Put (pricing : option PricingCatalog) (now : Time) (entryID : string) (event : UsageEvent)
    (answer : DbAnswer) (db : UsageDB) : result StoreError bool * UsageDB :=
  match putBatch pricing now [{| se_entryID := entryID; se_event := event |}] answer db with
  | (Ok (stored, duplicates), db) => (Ok ((stored =? 0) && (duplicates =? 1)), db)
  | (Err e, db) => (Err e, db)
  end.

(** ** Retention *)

Definition by_key {A} (key : A → Z) (a b : A) : Prop := key a ≤ key b.
#[export] Instance by_key_dec {A} (key : A → Z) : RelDecision (by_key key) := λ a b, decide (key a ≤ key b).

(** [ORDER BY] an instant; rows that are equal in it stay as they were found. *)
Definition order_by {A} (key : A → Z) (l : list A) : list A := merge_sort (by_key key) l.

(** The ids of the rows that ended before an instant, oldest first. *)
Definition expired_ids `{Scan} (before : Time) (limit : Z) (events : gmap string UsageRow) : list string :=
  take (Z.to_nat limit)
    (map fst (order_by (λ r, ur_EndedAt r.2) (filter (λ r, ur_EndedAt r.2 < before) (scan events)))).

Definition DeleteExpired `{Scan} (before : Time) (limit : Z) (read : bool) (answer : DbAnswer)
    (events : gmap string UsageRow) : result StoreError Z * gmap string UsageRow :=
  if time_is_zero before || (limit <? 1) || (10000 <? limit)
  then (Err (SParameters "usage cleanup parameters are invalid"), events)
  else if negb read then (Err SDatabase, events)
  else
    match expired_ids before limit events with
    | [] => (Ok 0, events)
    | ids =>
        let events' := after answer (delete_keys ids) events in
        if db_failed answer then (Err SDatabase, events') else (Ok (Z.of_nat (length ids)), events')
    end.

(** What the surroundings do in a round: whether the read succeeds, how the
    deletion is answered, whether the context is done after it. *)
Record CleanupRound := { cu_read : bool; cu_answer : DbAnswer; cu_done : bool }.

(** [DeleteExpiredUntilIdle]: [None] when the fuel runs out. *)
Fixpoint DeleteExpiredUntilIdle `{Scan} (fuel : nat) (rounds : nat → CleanupRound) (before : Time)
    (batchSize total : Z) (events : gmap string UsageRow)
  : option ((Z * option StoreError) * gmap string UsageRow) :=
  match fuel with
  | O => None
  | S fuel =>
      let round := rounds O in
      match DeleteExpired before batchSize (cu_read round) (cu_answer round) events with
      | (Err e, events) => Some ((total, Some e), events)
      | (Ok deleted, events) =>
          let total := total + deleted in
          if deleted <? batchSize then Some ((total, None), events)
          else if cu_done round then Some ((total, Some SDatabase), events)
          else DeleteExpiredUntilIdle fuel (λ n, rounds (S n)) before batchSize total events
      end
  end.

(** ** Cursors *)

Definition unix_epoch : Time := 62135596800 * second.
Definition UnixNano (t : Time) : Z := wrap_int64 (t - unix_epoch).
Definition time_Unix_nanos (n : Z) : Time := unix_epoch + n.

Record listCursor := { lc_StartedAt : Z; lc_EventID : string }.

Definition encodeListCursor (row : UsageRow) : string :=
  EncodeToString (encode_object
    [("started_at"%string, encode_int (UnixNano (ur_StartedAt row)));
     ("event_id"%string, encode_string (ur_EventID row))]).

Definition json_cursor (payload : string) : option listCursor :=
  ms ← struct_members payload;
  started ← field "started_at" decode_int 0 ms;
  id ← field "event_id" decode_string ""%string ms;
  Some {| lc_StartedAt := started; lc_EventID := id |}.

(** [None]: the cursor is invalid. *)
Definition decodeListCursor (encoded : string) : option listCursor :=
  payload ← DecodeString encoded;
  if 256 <? str_len payload then None
  else
    cursor ← json_cursor payload;
    if (lc_StartedAt cursor <=? 0) || negb (validRequiredText (lc_EventID cursor) 64) then None
    else Some cursor.

(** ** Repricing *)

Record RepriceParams := {
  rp_TenantID : string;
  rp_Start : Time;
  rp_End : Time;
  rp_ProviderID : string;
  rp_Model : string;
  rp_MissingOnly : bool;
  rp_Limit : Z;
  rp_Cursor : string;
}.

Record RepriceResult := { rr_Matched : Z; rr_Priced : Z; rr_Unknown : Z; rr_NextCursor : string }.

Section order.
Context `{Collation}.

(** The order [started_at, event_id], and its strict part behind a cursor. *)
Definition row_le (a b : string * UsageRow) : Prop :=
  ur_StartedAt a.2 < ur_StartedAt b.2 ∨
  (ur_StartedAt a.2 = ur_StartedAt b.2 ∧ collate (ur_EventID a.2) (ur_EventID b.2)).

#[export] Instance row_le_dec : RelDecision row_le.
Proof. intros a b. pose proof collate_dec. unfold row_le. apply _. Defined.

Definition beyond (startedAt : Time) (eventID : string) (row : UsageRow) : Prop :=
  startedAt < ur_StartedAt row ∨
  (ur_StartedAt row = startedAt ∧ collate eventID (ur_EventID row) ∧ eventID ≠ ur_EventID row).

#[export] Instance beyond_dec t id row : Decision (beyond t id row).
Proof. pose proof collate_dec. unfold beyond. apply _. Defined.
End order.

Definition optional_match (wanted actual : string) : bool := (wanted =? "")%string || (actual =? wanted)%string.

Definition reprice_matches (params : RepriceParams) (row : UsageRow) : bool :=
  (rp_Start params <=? ur_StartedAt row) && (ur_StartedAt row <? rp_End params) &&
  optional_match (rp_TenantID params) (ur_TenantID row) &&
  optional_match (rp_ProviderID params) (ur_ProviderID row) &&
  optional_match (rp_Model params) (ur_RequestedModel row) &&
  (negb (rp_MissingOnly params) || negb (isSome (ur_TotalCostNanoUSD row))).

Definition with_costs (row : UsageRow) (input output total : option Z)
    (currency source version caveat : string) : UsageRow :=
  {| ur_EventID := ur_EventID row; ur_RedisEntryID := ur_RedisEntryID row;
     ur_SchemaVersion := ur_SchemaVersion row; ur_RequestID := ur_RequestID row;
     ur_TenantID := ur_TenantID row; ur_APIKeyID := ur_APIKeyID row;
     ur_RequestedModel := ur_RequestedModel row; ur_ProviderID := ur_ProviderID row;
     ur_UpstreamModel := ur_UpstreamModel row; ur_CacheStatus := ur_CacheStatus row;
     ur_Stream := ur_Stream row; ur_Attempts := ur_Attempts row; ur_Retries := ur_Retries row;
     ur_Fallbacks := ur_Fallbacks row; ur_UsageSource := ur_UsageSource row;
     ur_UsageCaveat := ur_UsageCaveat row; ur_InputTokens := ur_InputTokens row;
     ur_OutputTokens := ur_OutputTokens row; ur_TotalTokens := ur_TotalTokens row;
     ur_InputText := ur_InputText row; ur_InputAudio := ur_InputAudio row;
     ur_InputImage := ur_InputImage row; ur_CachedRead := ur_CachedRead row;
     ur_CachedWrite := ur_CachedWrite row; ur_OutputText := ur_OutputText row;
     ur_OutputAudio := ur_OutputAudio row; ur_Reasoning := ur_Reasoning row;
     ur_AcceptedPrediction := ur_AcceptedPrediction row;
     ur_RejectedPrediction := ur_RejectedPrediction row; ur_RawUsage := ur_RawUsage row;
     ur_InputCostNanoUSD := input; ur_OutputCostNanoUSD := output; ur_TotalCostNanoUSD := total;
     ur_CostCurrency := currency; ur_CostSource := source; ur_PricingVersion := version;
     ur_CostCaveat := caveat; ur_FinishReason := ur_FinishReason row; ur_Status := ur_Status row;
     ur_ErrorCategory := ur_ErrorCategory row; ur_ErrorCode := ur_ErrorCode row;
     ur_StartedAt := ur_StartedAt row; ur_EndedAt := ur_EndedAt row; ur_LatencyMS := ur_LatencyMS row;
     ur_FirstTokenMS := ur_FirstTokenMS row; ur_ProcessedAt := ur_ProcessedAt row |}.

(** [costUpdates]: all the cost columns. *)
Definition costUpdates (cost : CostSnapshot) (row : UsageRow) : UsageRow :=
  with_costs row (cs_InputNanoUSD cost) (cs_OutputNanoUSD cost) (Some (cs_TotalNanoUSD cost))
    (cs_Currency cost) (cs_Source cost) (cs_PricingVersion cost) (cs_Caveat cost).

(** The update of a row that has no price: only the caveat. *)
Definition caveat_update (caveat : string) (row : UsageRow) : UsageRow :=
  with_costs row (ur_InputCostNanoUSD row) (ur_OutputCostNanoUSD row) (ur_TotalCostNanoUSD row)
    (ur_CostCurrency row) (ur_CostSource row) (ur_PricingVersion row) caveat.

Section reprice.
Context `{UnicodeUpper} `{Scan} `{Collation}.

Definition reprice_row (pricing : option PricingCatalog) (row : UsageRow) : UsageRow :=
  let cost := Quote pricing (eventFromRow row) in
  match cr_Snapshot cost with
  | None => caveat_update (cr_Caveat cost) row
  | Some snapshot => costUpdates snapshot row
  end.

Definition is_priced (pricing : option PricingCatalog) (row : UsageRow) : bool :=
  isSome (cr_Snapshot (Quote pricing (eventFromRow row))).

(** [UPDATE ... WHERE event_id = ?]. *)
Definition update_event (pricing : option PricingCatalog) (events : gmap string UsageRow)
    (row : string * UsageRow) : gmap string UsageRow :=
  alter (λ _, reprice_row pricing row.2) row.1 events.

(** The rows that match, behind the cursor, in order. *)
Definition selected (params : RepriceParams) (cursor : option listCursor) (row : UsageRow) : bool :=
  reprice_matches params row &&
  match cursor with
  | Some c => bool_decide (beyond (time_Unix_nanos (lc_StartedAt c)) (lc_EventID c) row)
  | None => true
  end.

Definition reprice_rows (params : RepriceParams) (cursor : option listCursor)
    (events : gmap string UsageRow) : list (string * UsageRow) :=
  merge_sort row_le (filter (λ r, selected params cursor r.2 = true) (scan events)).

Definition reprice_params (params : RepriceParams) : RepriceParams :=
  {| rp_TenantID := TrimSpace (rp_TenantID params); rp_Start := rp_Start params; rp_End := rp_End params;
     rp_ProviderID := TrimSpace (rp_ProviderID params); rp_Model := TrimSpace (rp_Model params);
     rp_MissingOnly := rp_MissingOnly params;
     rp_Limit := if rp_Limit params =? 0 then 1000 else rp_Limit params; rp_Cursor := rp_Cursor params |}.

Definition reprice_error (params : RepriceParams) : option StoreError :=
  first_error
    [((rp_Limit params <? 1) || (10000 <? rp_Limit params),
        SParameters "usage reprice limit must be between 1 and 10000");
     (time_is_zero (rp_Start params) || time_is_zero (rp_End params) ||
        negb (time_after (rp_End params) (rp_Start params)), SParameters "usage reprice time range is invalid");
     (10 * 365 * 24 * hour <? time_sub (rp_End params) (rp_Start params),
        SParameters "usage reprice time range exceeds ten years");
     ((128 <? str_len (rp_TenantID params)) || (100 <? str_len (rp_ProviderID params)) ||
        (200 <? str_len (rp_Model params)), SParameters "usage reprice filter is too long");
     (512 <? str_len (rp_Cursor params), SParameters "usage reprice cursor is invalid")].

Definition Reprice (params : RepriceParams) (pricing : option PricingCatalog) (read : bool)
    (answer : DbAnswer) (events : gmap string UsageRow)
  : result StoreError RepriceResult * gmap string UsageRow :=
  let params := reprice_params params in
  match reprice_error params with
  | Some e => (Err e, events)
  | None =>
      match (if (TrimSpace (rp_Cursor params) =? "")%string then Some None
             else Some <$> decodeListCursor (TrimSpace (rp_Cursor params))) with
      | None => (Err (SParameters "usage reprice cursor is invalid"), events)
      | Some cursor =>
          if negb read then (Err SDatabase, events)
          else
            let limit := Z.to_nat (rp_Limit params) in
            let found := take (limit + 1) (reprice_rows params cursor events) in
            let hasMore := (limit <? length found)%nat in
            let rows := if hasMore then take limit found else found in
            let priced := Z.of_nat (length (filter (λ r, is_priced pricing r.2 = true) rows)) in
            let events' := after answer (λ events, foldl (update_event pricing) events rows) events in
            if db_failed answer then (Err SDatabase, events')
            else
              (Ok {| rr_Matched := Z.of_nat (length rows); rr_Priced := priced;
                     rr_Unknown := Z.of_nat (length rows) - priced;
                     rr_NextCursor :=
                       match hasMore, last rows with
                       | true, Some row => encodeListCursor row.2
                       | _, _ => ""
                       end |}, events')
      end
  end.
End reprice.

(** ** Facts *)

Lemma delete_keys_lookup {A} ids (m : gmap string A) id :
  delete_keys ids m !! id = if bool_decide (id ∈ ids) then None else m !! id.
Proof.
  unfold delete_keys. revert m. induction ids as [|x ids IH]; intros m; [done|]. cbn [foldl]. rewrite IH.
  destruct (decide (id ∈ ids)).
  - by rewrite !bool_decide_true by (try apply elem_of_cons; auto).
  - rewrite bool_decide_false by done. destruct (decide (id = x)) as [->|Hne].
    + rewrite lookup_delete_eq. by rewrite bool_decide_true by (apply elem_of_cons; auto).
    + rewrite lookup_delete_ne by done. rewrite bool_decide_false; [done|]. rewrite elem_of_cons. tauto.
Qed.

Record inserted (events events' : gmap string UsageRow) (rows : list UsageRow) (stored : Z) : Prop := {
  ins_kept : ∀ id row, events !! id = Some row → events' !! id = Some row;
  ins_new : ∀ row, row ∈ rows → is_Some (events' !! ur_EventID row);
  ins_only : ∀ id row, events' !! id = Some row →
    events !! id = Some row ∨ (row ∈ rows ∧ ur_EventID row = id);
  ins_count : Z.of_nat (size events') = Z.of_nat (size events) + stored;
  ins_bound : 0 ≤ stored ≤ Z.of_nat (length rows);
}.

Lemma insert_events_inserted events rows :
  inserted events (insert_events events rows).1 rows (insert_events events rows).2.
Proof.
  unfold insert_events.
  enough (∀ rows acc, inserted events acc.1 rows acc.2 → ∀ more,
    inserted events (foldl insert_event acc more).1 (rows ++ more) (foldl insert_event acc more).2) as Hgo.
  { apply (Hgo [] (events, 0)). split; cbn; eauto; try lia. intros row Hr. by apply not_elem_of_nil in Hr. }
  intros done acc Hacc more. revert done acc Hacc. induction more as [|row more IH]; intros done acc Hacc; cbn [foldl].
  { by rewrite app_nil_r. }
  replace (done ++ row :: more) with ((done ++ [row]) ++ more) by by rewrite <-app_assoc.
  apply IH. destruct Hacc as [Hk Hn Ho Hc Hb]. unfold insert_event.
  destruct (acc.1 !! ur_EventID row) as [old|] eqn:Hl; cbn [fst snd].
  - split; [done| | |done|rewrite length_app; cbn; lia].
    + intros r [Hr|Hr%list_elem_of_singleton]%elem_of_app; [by apply Hn|subst r; eauto].
    + intros id r Hr. rewrite elem_of_app. destruct (Ho _ _ Hr) as [|[]]; auto.
  - split.
    + intros id r Hr. rewrite lookup_insert_ne; [by apply Hk|]. intros <-. apply Hk in Hr. congruence.
    + intros r [Hr|Hr%list_elem_of_singleton]%elem_of_app.
      * destruct (decide (ur_EventID row = ur_EventID r)) as [->|]; [rewrite lookup_insert_eq; eauto|].
        rewrite lookup_insert_ne by done. by apply Hn.
      * subst r. rewrite lookup_insert_eq. eauto.
    + intros id r Hr. rewrite elem_of_app, list_elem_of_singleton.
      destruct (decide (ur_EventID row = id)) as [<-|].
      * rewrite lookup_insert_eq in Hr. injection Hr as <-. auto.
      * rewrite lookup_insert_ne in Hr by done. destruct (Ho _ _ Hr) as [|[]]; auto.
    + rewrite map_size_insert_None by done. lia.
    + rewrite length_app. cbn. lia.
Qed.

Lemma insert_events_present events rows :
  (∀ row, row ∈ rows → is_Some (events !! ur_EventID row)) → insert_events events rows = (events, 0).
Proof.
  unfold insert_events. induction rows as [|row rows IH]; [done|]. intros Hall. cbn [foldl].
  unfold insert_event at 2. cbn [fst]. destruct (Hall row (list_elem_of_here _ _)) as [old ->].
  apply IH. intros r Hr. apply Hall. by apply list_elem_of_further.
Qed.

Definition all_valid (entries : list storeEntry) : Prop :=
  Forall (λ entry, Event_Validate (se_event entry) = None) entries.

Definition entry_ids (entries : list storeEntry) : list string := map (λ entry, e_EventID (se_event entry)) entries.
Definition entry_rows (pricing : option PricingCatalog) (now : Time) (entries : list storeEntry) : list UsageRow :=
  map (λ entry, usageRecord pricing (se_entryID entry) (se_event entry) now) entries.

Lemma putBatch_valid pricing now entries answer db :
  all_valid entries → entries ≠ [] →
  putBatch pricing now entries answer db =
    let events := insert_events (db_events db) (entry_rows pricing now entries) in
    let db' := after answer (λ db, {| db_outbox := delete_keys (entry_ids entries) (db_outbox db);
                                      db_events := events.1 |}) db in
    (if db_failed answer then Err SDatabase
     else Ok (events.2, Z.of_nat (length entries) - events.2), db').
Proof.
  intros Hv Hne. unfold putBatch. destruct entries as [|e es]; [done|].
  assert (list_find (λ entry, Event_Validate (se_event entry) ≠ None) (e :: es) = None) as ->.
  { apply list_find_None. eapply Forall_impl; [done|]. cbn. tauto. }
  unfold entry_rows, entry_ids. destruct (insert_events _ _) as [events stored]. cbn [fst snd].
  by destruct (db_failed answer).
Qed.

(** The rows of a batch among the stored events. *)
Lemma insert_batch pricing now entries events :
  let acc := insert_events events (entry_rows pricing now entries) in
  (∀ id row, events !! id = Some row → acc.1 !! id = Some row) ∧
  (∀ id, id ∈ entry_ids entries → is_Some (acc.1 !! id)) ∧
  (∀ id, id ∉ entry_ids entries → acc.1 !! id = events !! id) ∧
  (∀ id row, acc.1 !! id = Some row → events !! id = Some row ∨ row ∈ entry_rows pricing now entries) ∧
  Z.of_nat (size acc.1) = Z.of_nat (size events) + acc.2 ∧ 0 ≤ acc.2 ≤ Z.of_nat (length entries).
Proof.
  cbv zeta. destruct (insert_events_inserted events (entry_rows pricing now entries)) as [Hk Hn Ho Hc Hb].
  set (acc := insert_events _ _) in *. unfold entry_rows in Hb. rewrite length_map in Hb. split_and!; [done| | | |lia|lia|lia].
  - intros id (entry & -> & He)%list_elem_of_fmap.
    apply (Hn (usageRecord pricing (se_entryID entry) (se_event entry) now)).
    apply list_elem_of_fmap. by exists entry.
  - intros id Hid. destruct (acc.1 !! id) as [row|] eqn:Hl.
    + destruct (Ho _ _ Hl) as [->|[Hr <-]]; [done|]. exfalso. apply Hid.
      apply list_elem_of_fmap in Hr as (entry & -> & He). apply list_elem_of_fmap. by exists entry.
    + destruct (events !! id) eqn:Hd; [|done]. apply Hk in Hd. congruence.
  - intros id row Hr. destruct (Ho _ _ Hr) as [|[]]; auto.
Qed.

(** A batch that is stored is stored exactly once. Every event of the batch has
    a row and none is left in the outbox; rows that were there stay as they are, new
    rows are the records of the batch; the rest of the outbox is untouched; and
    stored and duplicate events add up to the batch. A batch the database refuses
    changes nothing. *)
Theorem putBatch_exactly_once pricing now entries answer db :
  all_valid entries → entries ≠ [] →
  let '(r, db') := putBatch pricing now entries answer db in
  (answer = Refused → r = Err SDatabase ∧ db' = db) ∧
  (answer = AnswerLost → r = Err SDatabase) ∧
  (answer ≠ Refused →
     (∀ id, id ∈ entry_ids entries → is_Some (db_events db' !! id) ∧ db_outbox db' !! id = None) ∧
     (∀ id, id ∉ entry_ids entries →
        db_outbox db' !! id = db_outbox db !! id ∧ db_events db' !! id = db_events db !! id) ∧
     (∀ id row, db_events db !! id = Some row → db_events db' !! id = Some row) ∧
     (∀ id row, db_events db' !! id = Some row →
        db_events db !! id = Some row ∨ row ∈ entry_rows pricing now entries)) ∧
  (answer = Applied → ∃ stored, r = Ok (stored, Z.of_nat (length entries) - stored) ∧
     Z.of_nat (size (db_events db')) = Z.of_nat (size (db_events db)) + stored ∧
     0 ≤ stored ≤ Z.of_nat (length entries)).
Proof.
  intros Hv Hne. rewrite putBatch_valid by done. cbv zeta.
  destruct (insert_batch pricing now entries (db_events db)) as (Hk & Hmine & Hother & Ho & Hc & Hb).
  set (events := insert_events _ _) in *.
  destruct answer; cbn [after db_failed bool_decide decide]; (split; [|split; [|split]]); try done;
    try (intros _; cbn [db_events db_outbox]; split_and!;
      [intros id Hid; rewrite delete_keys_lookup, bool_decide_true by done; auto
      |intros id Hid; rewrite delete_keys_lookup, bool_decide_false by done; auto
      |done
      |done]).
  intros _. exists events.2. cbn. auto.
Qed.

(** Storing is idempotent. When the answer to a batch got lost, or its events
    are delivered again, storing them again reports only duplicates and leaves the
    stored events as they are, whatever the prices and the time are by then. *)
Theorem putBatch_again pricing now pricing' now' entries entries' answer db :
  all_valid entries → answer ≠ Refused → all_valid entries' →
  (∀ id, id ∈ entry_ids entries' → id ∈ entry_ids entries) →
  let db' := (putBatch pricing now entries answer db).2 in
  (putBatch pricing' now' entries' Applied db').1 = Ok (0, Z.of_nat (length entries')) ∧
  db_events (putBatch pricing' now' entries' Applied db').2 = db_events db'.
Proof.
  intros Hv Ha Hv' Hids. cbv zeta.
  destruct (decide (entries' = [])) as [->|Hne']; [done|].
  assert (entries ≠ []) as Hne.
  { intros ->. destruct entries' as [|e es]; [done|]. specialize (Hids _ (list_elem_of_here _ _)).
    by apply not_elem_of_nil in Hids. }
  rewrite !putBatch_valid by done. cbn [fst snd].
  destruct (insert_events_inserted (db_events db) (entry_rows pricing now entries)) as [_ Hn _ _ _].
  rewrite insert_events_present.
  - cbn. split; [|by destruct answer]. do 2 f_equal. lia.
  - intros row (entry & -> & Hentry)%list_elem_of_fmap.
    assert (e_EventID (se_event entry) ∈ entry_ids entries) as Hid.
    { apply Hids, list_elem_of_fmap. by exists entry. }
    apply list_elem_of_fmap in Hid as (old & Hid & Hold). cbn [ur_EventID usageRecord]. rewrite Hid.
    assert (is_Some ((insert_events (db_events db) (entry_rows pricing now entries)).1 !! e_EventID (se_event old))) as Hs.
    { apply (Hn (usageRecord pricing (se_entryID old) (se_event old) now)). apply list_elem_of_fmap. by exists old. }
    destruct answer; [exact Hs|done|exact Hs].
Qed.

(** ** Retention *)

Lemma order_by_perm {A} key (l : list A) : order_by key l ≡ₚ l.
Proof. apply merge_sort_Permutation. Qed.

Definition expired (before : Time) (row : UsageRow) : Prop := ur_EndedAt row < before.
#[export] Instance expired_dec before row : Decision (expired before row) := decide (ur_EndedAt row < before).

(** The rows that are kept. *)
Definition kept_events (before : Time) (events : gmap string UsageRow) : gmap string UsageRow :=
  filter (λ r, ¬ expired before r.2) events.

Section retention.
Context `{Scan}.

Lemma scan_elem {A} (m : gmap string A) id a : (id, a) ∈ scan m ↔ m !! id = Some a.
Proof. by rewrite scan_perm, elem_of_map_to_list. Qed.

Lemma scan_keys {A} (m : gmap string A) : NoDup (scan m).*1.
Proof. rewrite scan_perm. apply NoDup_fst_map_to_list. Qed.

Lemma expired_all before events :
  map fst (order_by (λ r, ur_EndedAt r.2) (filter (λ r, ur_EndedAt r.2 < before) (scan events))) ≡ₚ
  (map_to_list (filter (λ r, expired before r.2) events)).*1.
Proof.
  rewrite order_by_perm, scan_perm. apply fmap_Permutation, NoDup_Permutation.
  - apply NoDup_filter, NoDup_map_to_list.
  - apply NoDup_map_to_list.
  - intros [id row]. rewrite list_elem_of_filter, !elem_of_map_to_list, map_lookup_filter_Some. cbn. tauto.
Qed.

Definition expired_count (before : Time) (events : gmap string UsageRow) : nat :=
  size (filter (λ r, expired before r.2) events).

Record expired_batch (before : Time) (limit : Z) (events : gmap string UsageRow) (ids : list string) : Prop := {
  eb_length : length ids = Nat.min (Z.to_nat limit) (expired_count before events);
  eb_expired : ∀ id, id ∈ ids → ∃ row, events !! id = Some row ∧ expired before row;
  eb_nodup : NoDup ids;
  eb_all : (expired_count before events ≤ Z.to_nat limit)%nat →
    ∀ id row, events !! id = Some row → expired before row → id ∈ ids;
}.

Lemma expired_ids_batch before limit events : expired_batch before limit events (expired_ids before limit events).
Proof.
  pose proof (expired_all before events) as Hp. unfold expired_ids.
  set (all := map fst _) in *.
  assert (length all = expired_count before events) as Hlen.
  { rewrite Hp, length_fmap. unfold expired_count. by rewrite length_map_to_list. }
  assert (∀ id, id ∈ all ↔ ∃ row, events !! id = Some row ∧ expired before row) as Hin.
  { intros id. rewrite Hp, list_elem_of_fmap. split.
    - intros ([id' row] & -> & Hr%elem_of_map_to_list). apply map_lookup_filter_Some in Hr as []. eauto.
    - intros (row & Hr & He). exists (id, row). split; [done|].
      by apply elem_of_map_to_list, map_lookup_filter_Some. }
  assert (NoDup all) as Hnd by (rewrite Hp; apply NoDup_fst_map_to_list).
  split.
  - rewrite length_take. by rewrite Hlen.
  - intros id (i & Hi & _)%elem_of_take. apply Hin. by apply list_elem_of_lookup_2 in Hi.
  - eapply sublist_NoDup; [done|]. apply sublist_take.
  - intros Hle id row Hr He. rewrite take_ge by lia. apply Hin. eauto.
Qed.

Lemma delete_keys_size {A} ids (m : gmap string A) :
  NoDup ids → (∀ id, id ∈ ids → is_Some (m !! id)) → (size (delete_keys ids m) + length ids = size m)%nat.
Proof.
  unfold delete_keys. revert m. induction ids as [|id ids IH]; intros m Hnd Hin; cbn [foldl length]; [lia|].
  apply NoDup_cons in Hnd as [Hid Hnd].
  destruct (Hin id (list_elem_of_here _ _)) as [a Ha].
  specialize (IH (delete id m) Hnd). rewrite map_size_delete_Some in IH by eauto.
  assert (size m ≠ 0%nat) by (rewrite map_size_non_empty_iff; intros ->; by rewrite lookup_empty in Ha).
  specialize (IH ltac:(intros x Hx; rewrite lookup_delete_ne by (by intros <-); apply Hin; by apply list_elem_of_further)). lia.
Qed.

(** What any round of cleaning up guarantees: only expired rows go. *)
Record cleaned (before : Time) (events events' : gmap string UsageRow) : Prop := {
  cl_subset : ∀ id row, events' !! id = Some row → events !! id = Some row;
  cl_kept : ∀ id row, events !! id = Some row → ¬ expired before row → events' !! id = Some row;
}.

Lemma cleaned_refl before events : cleaned before events events.
Proof. by split. Qed.

Lemma cleaned_trans before e1 e2 e3 : cleaned before e1 e2 → cleaned before e2 e3 → cleaned before e1 e3.
Proof. intros [S1 K1] [S2 K2]. split; intros id row Hr; [auto|]. intros He. by apply K2; [apply K1|]. Qed.

Lemma delete_batch_cleaned before limit events :
  cleaned before events (delete_keys (expired_ids before limit events) events).
Proof.
  destruct (expired_ids_batch before limit events) as [_ Hexp _ _]. split; intros id row.
  - rewrite delete_keys_lookup. by case_bool_decide.
  - intros Hr He. rewrite delete_keys_lookup. case_bool_decide as Hid; [|done].
    destruct (Hexp _ Hid) as (row' & Hr' & He'). congruence.
Qed.

Lemma DeleteExpired_cleaned before limit read answer events :
  cleaned before events (DeleteExpired before limit read answer events).2.
Proof.
  unfold DeleteExpired. destruct (_ || _); [apply cleaned_refl|]. destruct read; [|apply cleaned_refl].
  pose proof (delete_batch_cleaned before limit events) as Hc.
  destruct (expired_ids before limit events) as [|id ids]; [apply cleaned_refl|].
  destruct answer; cbn; [exact Hc|apply cleaned_refl|exact Hc].
Qed.

(** A successful round deletes as many rows as it says; fewer than the batch only
    when none is left. *)
Lemma DeleteExpired_ok before limit read answer events deleted events' :
  DeleteExpired before limit read answer events = (Ok deleted, events') →
  (size events' + Z.to_nat deleted = size events)%nat ∧ 0 ≤ deleted ≤ limit ∧ 1 ≤ limit ∧
  (deleted < limit → ∀ id row, events' !! id = Some row → ¬ expired before row).
Proof.
  unfold DeleteExpired. destruct (_ || _) eqn:Hparams; [done|]. destruct read; [|done].
  destruct (expired_ids_batch before limit events) as [Hlen Hexp Hnd Hall].
  assert (1 ≤ limit) by lia. set (ids := expired_ids before limit events) in *.
  assert (∀ id row, Z.of_nat (length ids) < limit → delete_keys ids events !! id = Some row → ¬ expired before row) as Hnone.
  { intros id row Hlt. rewrite delete_keys_lookup. case_bool_decide as Hid; [done|]. intros Hr He.
    apply Hid. eapply Hall; [lia|done|done]. }
  pose proof (delete_keys_size ids events Hnd) as Hsize.
  intros Hres. assert (deleted = Z.of_nat (length ids) ∧ events' = delete_keys ids events) as [-> ->].
  { clearbody ids. destruct ids as [|id ids]; [by injection Hres as <- <-|].
    destruct answer; [by injection Hres as <- <-|done|done]. }
  split; [rewrite Nat2Z.id; apply Hsize; intros id Hid; destruct (Hexp _ Hid) as (? & ? & _); eauto|].
  split; [rewrite Hlen; lia|]. split; [done|]. intros Hlt id row. by apply Hnone.
Qed.

(** Cleaning up ends, whatever the database answers and however often it is
    interrupted: as many rounds as there are rows, and one, are enough. It only
    deletes rows that ended before the instant, and never another one; the number
    reported are rows that are gone; and when it reports no error, no such row is
    left. *)
Theorem cleanup_terminates fuel rounds before batchSize events :
  (size events < fuel)%nat →
  ∃ deleted error events',
    DeleteExpiredUntilIdle fuel rounds before batchSize 0 events = Some ((deleted, error), events') ∧
    cleaned before events events' ∧
    deleted ≤ Z.of_nat (size events) - Z.of_nat (size events') ∧
    (error = None → events' = kept_events before events ∧
       deleted = Z.of_nat (size events) - Z.of_nat (size events')).
Proof.
  enough (∀ total, (size events < fuel)%nat → ∃ deleted error events',
    DeleteExpiredUntilIdle fuel rounds before batchSize total events = Some ((total + deleted, error), events') ∧
    cleaned before events events' ∧ deleted ≤ Z.of_nat (size events) - Z.of_nat (size events') ∧
    (error = None → (∀ id row, events' !! id = Some row → ¬ expired before row) ∧
       deleted = Z.of_nat (size events) - Z.of_nat (size events'))) as Hgo.
  { intros Hf. destruct (Hgo 0 Hf) as (deleted & error & events' & Hr & Hc & Hd & Hn).
    exists deleted, error, events'. rewrite Hr. split_and!; [done|done|done|]. intros He.
    destruct (Hn He) as [Hnone Hdel]. split; [|done]. destruct Hc as [Hs Hk]. apply map_eq. intros id.
    apply option_eq. intros row. unfold kept_events. rewrite map_lookup_filter_Some. cbn. naive_solver. }
  revert rounds events. induction fuel as [|fuel IH]; intros rounds events total Hf; [lia|]. cbn [DeleteExpiredUntilIdle].
  set (round := rounds O). pose proof (DeleteExpired_cleaned before batchSize (cu_read round) (cu_answer round) events) as Hc.
  destruct (DeleteExpired before batchSize (cu_read round) (cu_answer round) events) as [[deleted|e] events1] eqn:Hd; cbn in Hc.
  - apply DeleteExpired_ok in Hd as (Hsize & Hb & Hlim & Hnone). destruct (Z.ltb_spec deleted batchSize).
    { exists deleted, None, events1. split_and!; [done|done|lia|]. intros _. split; [by apply Hnone|lia]. }
    destruct (cu_done round).
    { exists deleted, (Some SDatabase), events1. split_and!; [done|done|lia|done]. }
    destruct (IH (λ n, rounds (S n)) events1 (total + deleted) ltac:(lia)) as (d & error & events' & -> & Hc' & Hd' & Hn').
    exists (deleted + d), error, events'. split; [by rewrite Z.add_assoc|].
    split; [by eapply cleaned_trans|]. split; [lia|]. intros He. destruct (Hn' He). split; [done|lia].
  - exists 0, (Some e), events1. split; [by rewrite Z.add_0_r|]. split; [done|]. split; [|done].
    assert (size events1 ≤ size events)%nat; [|lia].
    destruct Hc as [Hs _]. apply map_subseteq_size. apply map_subseteq_spec. exact Hs.
Qed.
End retention.

(** ** Cursors *)

(** The bytes of an event id that JSON writes as they are. *)
Definition plain_id (id : string) : Prop := forallb (λ b, (b <? 0x80) && html_safe b) (bytes_of id) = true.

Lemma escape_plain n l :
  forallb (λ b, (b <? 0x80) && html_safe b) l = true → (length l ≤ n)%nat →
  escape_bytes n l = l ∧ forallb snd (runes n l) = true.
Proof.
  revert n. induction l as [|b l IH]; intros [|n]; cbn [forallb length]; try done; [lia|].
  rewrite !andb_true_iff. intros [[Hb Hs] Hl] Hn. destruct (IH n Hl ltac:(lia)) as [He Hr].
  cbn [escape_bytes runes forallb]. unfold escape_ascii. rewrite Hb, Hs, He. split; [done|].
  unfold rune_size. rewrite Hb. cbn. by rewrite drop_0.
Qed.

Lemma decimal_digits_length n z acc : (length (decimal_digits n z acc) ≤ n + length acc)%nat.
Proof.
  revert z acc. induction n as [|n IH]; intros z acc; cbn; [lia|]. destruct (z <? 10); cbn; [lia|].
  specialize (IH (z / 10) (48 + z mod 10 :: acc)). cbn in IH. lia.
Qed.

Lemma encode_int_length z : (String.length (encode_int z) ≤ 21)%nat.
Proof.
  unfold encode_int. destruct (z <? 0); cbn [String.length]; rewrite length_string_of_bytes;
    [pose proof (decimal_digits_length 20 (- z) [])|pose proof (decimal_digits_length 20 z [])]; cbn in *; lia.
Qed.

Lemma encodeListCursor_ne row : encodeListCursor row ≠ ""%string.
Proof.
  unfold encodeListCursor. intros Hs. apply (f_equal String.length) in Hs.
  pose proof (EncodeToString_len (encode_object [("started_at"%string, encode_int (UnixNano (ur_StartedAt row)));
    ("event_id"%string, encode_string (ur_EventID row))])) as Hl. unfold EncodedLen, str_len in Hl.
  rewrite Hs in Hl. unfold encode_object in Hl. cbn [String.length] in Hl. divide.
Qed.

Lemma UnixNano_range t : in_int64 (UnixNano t).
Proof. apply wrap_int64_range. Qed.

(** A cursor leads back to the row it was made for: its id, and the instant it
    started, for rows that started between 1970 and 2262. *)
Theorem cursor_roundtrip row :
  plain_id (ur_EventID row) → validRequiredText (ur_EventID row) 64 = true →
  0 < ur_StartedAt row - unix_epoch ≤ int64_max →
  ∃ c, decodeListCursor (encodeListCursor row) = Some c ∧
    lc_EventID c = ur_EventID row ∧ time_Unix_nanos (lc_StartedAt c) = ur_StartedAt row.
Proof.
  intros Hplain Hid Ht.
  assert (UnixNano (ur_StartedAt row) = ur_StartedAt row - unix_epoch) as Hn.
  { apply wrap_int64_id. unfold in_int64, int64_min, int64_max in *. lia. }
  destruct (escape_plain (String.length (ur_EventID row)) (bytes_of (ur_EventID row)) Hplain) as [He Hu];
    [by rewrite length_bytes_of|].
  exists {| lc_StartedAt := UnixNano (ur_StartedAt row); lc_EventID := ur_EventID row |}.
  split; [|split; [done|unfold time_Unix_nanos; cbn [lc_StartedAt]; rewrite Hn; lia]].
  unfold decodeListCursor, encodeListCursor. rewrite DecodeString_EncodeToString. cbn [mbind option_bind].
  set (ms := [_; _]).
  assert (str_len (encode_object ms) ≤ 256) as Hlen.
  { subst ms. unfold str_len, encode_object. cbn [encode_members]. unfold encode_member. cbn [fst snd].
    do 4 (cbn [String.length]; rewrite ?length_append).
    pose proof (encode_int_length (UnixNano (ur_StartedAt row))).
    assert (String.length (encode_string (ur_EventID row)) = String.length (ur_EventID row) + 2)%nat as ->.
    { unfold encode_string. rewrite He, string_of_bytes_of_string. cbn [String.length]. rewrite length_append. cbn. lia. }
    change (String.length (encode_string "started_at")) with 12%nat.
    change (String.length (encode_string "event_id")) with 10%nat. cbn [String.length].
    unfold validRequiredText, str_len in Hid. lia. }
  destruct (Z.ltb_spec 256 (str_len (encode_object ms))); [lia|].
  assert (json_cursor (encode_object ms) =
    Some {| lc_StartedAt := UnixNano (ur_StartedAt row); lc_EventID := ur_EventID row |}) as ->.
  { unfold json_cursor. rewrite struct_members_encode.
    - cbn [mbind option_bind]. subst ms.
      eapply bind_field; [find_field; apply encodes_int, UnixNano_range|].
      eapply bind_field; [find_field; by apply encodes_string|]. done.
    - subst ms. solve_good; [apply encode_int_value, UnixNano_range|apply encode_string_value]. }
  cbn [mbind option_bind lc_StartedAt lc_EventID]. rewrite Hid, Hn.
  destruct (Z.leb_spec (ur_StartedAt row - unix_epoch) 0); [lia|]. done.
Qed.

(** ** Rows read back *)

Section rows.
Context `{UnicodeUpper} `{Scan} `{Collation}.

(** The raw usage data of an event says what the event says: the cost that the
    upstream reported is the one in the raw data. *)
Definition raw_consistent (u : TokenUsage) : Prop :=
  (tu_Raw u = ""%string ∧ tu_ReportedCost u = None) ∨
  (tu_Raw u ≠ ""%string ∧ TrimSpace (tu_Raw u) = tu_Raw u ∧
   ∃ u' caveat, parseTokenUsage (tu_Raw u) = (Some u', caveat) ∧
     tu_Raw u' = tu_Raw u ∧ tu_ReportedCost u' = tu_ReportedCost u).

Lemma eventFromRow_usageRecord pricing entryID event now :
  1 ≤ e_SchemaVersion event ≤ 2 → (∀ u, e_Usage event = Some u → raw_consistent u) →
  eventFromRow (usageRecord pricing entryID event now) = event.
Proof.
  intros Hver Hraw. unfold eventFromRow.
  assert (row_usage (usageRecord pricing entryID event now) = e_Usage event) as ->.
  { unfold row_usage, row_has_tokens, row_input_details, row_output_details. cbn -[stored_raw].
    destruct (e_Usage event) as [[i o t id od rc raw]|]; [|done]. specialize (Hraw _ eq_refl). cbn -[stored_raw] in *.
    assert ((stored_raw raw ≫= tu_ReportedCost) = rc ∧ default ""%string (tu_Raw <$> stored_raw raw) = raw) as [-> ->].
    { unfold stored_raw. destruct Hraw as [[Hr Hc]|(Hne & Ht & u' & caveat & Hp & Hr & Hc)];
        cbn [tu_Raw tu_ReportedCost] in *; [by subst|]. rewrite Ht.
      apply String.eqb_neq in Hne. rewrite Hne, Hp. cbn. by rewrite Hr, Hc. }
    by destruct id as [[]|], od as [[]|]. }
  destruct event. cbn in *. f_equal. unfold wrap_int16. rewrite Z.mod_small; lia.
Qed.

Lemma Event_Validate_version event : Event_Validate event = None → 1 ≤ e_SchemaVersion event ≤ 2.
Proof.
  unfold Event_Validate. cbn zeta. destruct (first_error _) eqn:Hf; [done|]. intros _.
  rewrite first_error_none in Hf. pose proof (Forall_lookup_1 _ _ 0 _ Hf eq_refl) as Hv. cbn [fst] in Hv.
  unfold minimumSchemaVersion, SchemaVersion in Hv. lia.
Qed.

(** Repricing agrees with pricing. A row read back is the event it stores, and
    repricing it with a catalogue gives the row that storing the event with this
    catalogue gives; the prices in force when it was stored change nothing. *)
Theorem reprice_is_price pricing pricing' entryID event now :
  Event_Validate event = None → (∀ u, e_Usage event = Some u → raw_consistent u) →
  eventFromRow (usageRecord pricing entryID event now) = event ∧
  (is_priced pricing' (usageRecord pricing entryID event now) = true →
     reprice_row pricing' (usageRecord pricing entryID event now) = usageRecord pricing' entryID event now) ∧
  reprice_row pricing (usageRecord pricing entryID event now) = usageRecord pricing entryID event now.
Proof.
  intros Hv Hraw.
  assert (∀ p, eventFromRow (usageRecord p entryID event now) = event) as Heq.
  { intros p. apply eventFromRow_usageRecord; [by apply Event_Validate_version|done]. }
  split; [done|]. unfold is_priced, reprice_row. rewrite Heq. split.
  - destruct (cr_Snapshot (Quote pricing' event)) as [s|] eqn:Hs; [|done]. intros _.
    unfold usageRecord at 2. cbv zeta. rewrite Hs. done.
  - destruct (cr_Snapshot (Quote pricing event)) as [s|] eqn:Hs.
    + unfold usageRecord. cbv zeta. by rewrite Hs.
    + unfold usageRecord. cbv zeta. by rewrite Hs.
Qed.

(** What one call of [Reprice] works on. *)
Definition reprice_cursor (params : RepriceParams) : option (option listCursor) :=
  if (TrimSpace (rp_Cursor params) =? "")%string then Some None
  else Some <$> decodeListCursor (TrimSpace (rp_Cursor params)).

Lemma reprice_rows_elem params cursor events id row :
  (id, row) ∈ reprice_rows params cursor events ↔ events !! id = Some row ∧ selected params cursor row = true.
Proof. unfold reprice_rows. rewrite merge_sort_Permutation, list_elem_of_filter, scan_elem. cbn. tauto. Qed.

Lemma reprice_rows_keys params cursor events : NoDup (reprice_rows params cursor events).*1.
Proof.
  unfold reprice_rows. rewrite merge_sort_Permutation.
  eapply sublist_NoDup; [apply (scan_keys events)|]. apply (fmap_sublist fst), sublist_filter.
Qed.

Lemma update_events_lookup pricing rows events id :
  NoDup rows.*1 → (∀ k r, (k, r) ∈ rows → events !! k = Some r) →
  foldl (update_event pricing) events rows !! id =
    if bool_decide (id ∈ rows.*1) then reprice_row pricing <$> events !! id else events !! id.
Proof.
  revert events. induction rows as [|[k r] rows IH]; intros events Hnd Hin; [done|]. cbn [foldl].
  cbn [fmap list_fmap fst] in Hnd. apply NoDup_cons in Hnd as [Hk Hnd].
  assert (events !! k = Some r) as Hkr by (apply Hin, list_elem_of_here).
  rewrite IH; [|done|].
  - unfold update_event. cbn [fst snd fmap list_fmap]. destruct (decide (id = k)) as [->|Hne].
    + rewrite bool_decide_false by done. rewrite bool_decide_true by apply list_elem_of_here.
      by rewrite lookup_alter_eq, Hkr.
    + rewrite lookup_alter_ne by done. case_bool_decide as Hid.
      * by rewrite bool_decide_true by by apply list_elem_of_further.
      * rewrite bool_decide_false; [done|]. rewrite elem_of_cons. tauto.
  - intros k' r' Hr'. unfold update_event. rewrite lookup_alter_ne.
    + apply Hin. by apply list_elem_of_further.
    + intros <-. apply Hk. apply list_elem_of_fmap. by exists (k, r').
Qed.

(** A call of [Reprice] that is answered works on the first rows that match
    behind the cursor, in the order of the instants they started at and of their
    ids; it quotes each of them again and no other row changes; the counts add up to
    these rows; and there is a next cursor, that of the last of them, exactly when
    matching rows remain. A call the database refuses changes nothing. *)
Theorem Reprice_spec params pricing cursor answer events :
  let p := reprice_params params in
  let rows := reprice_rows p cursor events in
  let page := take (Z.to_nat (rp_Limit p)) rows in
  reprice_error p = None → reprice_cursor p = Some cursor →
  let '(r, events') := Reprice params pricing true answer events in
  (answer = Refused → r = Err SDatabase ∧ events' = events) ∧
  (answer ≠ Refused → ∀ id, events' !! id =
     if bool_decide (id ∈ page.*1) then reprice_row pricing <$> events !! id else events !! id) ∧
  (answer = Applied → ∃ res, r = Ok res ∧
     rr_Matched res = Z.of_nat (length page) ∧ rr_Priced res + rr_Unknown res = rr_Matched res ∧
     0 ≤ rr_Priced res ≤ rr_Matched res ∧
     (rr_NextCursor res ≠ ""%string → ∃ row, last page = Some row ∧ rr_NextCursor res = encodeListCursor row.2) ∧
     (rr_NextCursor res = ""%string ↔ rows = page)).
Proof.
  cbv zeta. intros He Hc. unfold Reprice. rewrite He. unfold reprice_cursor in Hc. rewrite Hc. cbn [negb].
  set (p := reprice_params params) in *. set (rows := reprice_rows p cursor events).
  set (n := Z.to_nat (rp_Limit p)).
  assert (1 ≤ n)%nat as Hn.
  { unfold reprice_error in He. apply first_error_none in He. apply Forall_cons in He as [He _]. cbn [fst] in He. lia. }
  assert ((if (n <? length (take (n + 1) rows))%nat then take n (take (n + 1) rows) else take (n + 1) rows) = take n rows) as Hpage.
  { destruct (Nat.ltb_spec n (length (take (n + 1) rows))) as [Hl|Hl].
    - rewrite take_take. f_equal. lia.
    - rewrite length_take in Hl. rewrite !take_ge by lia. done. }
  rewrite Hpage. set (page := take n rows).
  assert (NoDup page.*1 ∧ ∀ k r, (k, r) ∈ page → events !! k = Some r) as [Hnd Hin].
  { split.
    - eapply sublist_NoDup; [apply (reprice_rows_keys p cursor events)|]. apply (fmap_sublist fst), sublist_take.
    - intros k r (i & Hi & _)%elem_of_take. apply list_elem_of_lookup_2 in Hi.
      by apply reprice_rows_elem in Hi as []. }
  pose proof (update_events_lookup pricing page events) as Hup.
  assert (∀ id, foldl (update_event pricing) events page !! id =
    if bool_decide (id ∈ page.*1) then reprice_row pricing <$> events !! id else events !! id) as Hup'
    by (intros id; by apply Hup).
  assert (length (filter (λ r, is_priced pricing r.2 = true) page) ≤ length page)%nat as Hpl by apply length_filter.
  destruct answer; cbn [after db_failed]; (split; [|split]); try done.
  intros _. eexists. split; [done|]. cbn [rr_Matched rr_Priced rr_Unknown rr_NextCursor].
  split; [done|]. split; [lia|]. split; [lia|].
  destruct (Nat.ltb_spec n (length (take (n + 1) rows))) as [Hl|Hl]; rewrite length_take in Hl.
  - assert (length page = n) as Hlen by (subst page; rewrite length_take; lia).
    destruct (last page) as [row|] eqn:Hlast.
    + split; [eauto|]. split; [by intros ?%encodeListCursor_ne|]. intros Heq. exfalso. rewrite <-Heq in Hlen. lia.
    + apply last_None in Hlast. rewrite Hlast in Hlen. cbn in Hlen. lia.
  - split; [done|]. split; [|done]. intros _. subst page. rewrite take_ge by lia. done.
Qed.
End rows.

(** ** Examples *)

#[export] Instance string_le_order : TotalOrder string_le.
Proof.
  split; [split; [split|]|].
  - intros s. unfold string_le, String.leb. destruct (String.compare s s) eqn:Hc; try done.
    pose proof (String.compare_antisym s s) as Ha. rewrite Hc in Ha. done.
  - exact string_le_trans.
  - exact string_le_antisymm.
  - intros a b. unfold strict. destruct (decide (a = b)); [auto|].
    destruct (string_le_total a b) as [Hab|Hab]; [left|right; right]; (split; [done|]);
      intros Hba; by pose proof (string_le_antisymm _ _ Hab Hba); subst.
Qed.

#[local] Instance bytewise : Collation :=
  {| collate := string_le; collate_dec := string_le_dec; collate_order := string_le_order |}.
#[local] Instance key_order : Scan := {| scan := λ A m, map_to_list m; scan_perm := λ A m, reflexivity _ |}.
#[local] Instance no_unicode : UnicodeUpper := λ s, s.

Definition stored_usage : TokenUsage :=
  Build_TokenUsage 3 4 7 None None None (text "{'prompt_tokens':3,'completion_tokens':4}").

Definition stored_event (id : string) (at_ : Time) : UsageEvent :=
  {| e_SchemaVersion := 2; e_EventID := id; e_RequestID := "r"; e_TenantID := "t"; e_APIKeyID := "k";
     e_RequestedModel := "fast"; e_ProviderID := "p"; e_UpstreamModel := "m"; e_CacheStatus := "bypass";
     e_Stream := false; e_Attempts := 1; e_Retries := 0; e_Fallbacks := 0; e_Usage := Some stored_usage;
     e_UsageSource := UsageSourceProvider; e_UsageCaveat := ""; e_FinishReason := "stop";
     e_Status := StatusSuccess; e_ErrorCategory := ""; e_ErrorCode := ""; e_StartedAt := at_;
     e_EndedAt := at_ + second; e_LatencyMS := 1000; e_FirstTokenMS := None |}.

Definition demo_time : Time := 63871286400 * second.
Definition demo_row (id : string) (at_ : Time) : UsageRow := usageRecord None "1-0" (stored_event id at_) demo_time.
Definition demo_events : gmap string UsageRow :=
  list_to_map (map (λ r, (ur_EventID r, r))
    [demo_row "use_a" demo_time; demo_row "use_b" (demo_time + 1); demo_row "use_c" (demo_time + 1)]).
Definition demo_entries : list storeEntry :=
  [{| se_entryID := "5-0"; se_event := stored_event "use_c" demo_time |};
   {| se_entryID := "6-0"; se_event := stored_event "use_d" demo_time |}].
Definition demo_db : UsageDB := {| db_outbox := ∅; db_events := demo_events |}.

Lemma demo_entries_valid : all_valid demo_entries.
Proof. repeat constructor; vm_compute; reflexivity. Qed.

Lemma putBatch_exactly_once_witness :
  (putBatch None demo_time demo_entries Applied demo_db).1 = Ok (1, 1) ∧
  is_Some (db_events (putBatch None demo_time demo_entries Applied demo_db).2 !! "use_d"%string).
Proof.
  pose proof (putBatch_exactly_once None demo_time demo_entries Applied demo_db demo_entries_valid ltac:(done)) as Hp.
  assert ((putBatch None demo_time demo_entries Applied demo_db).1 = Ok (1, 1)) as Hr by (vm_compute; reflexivity).
  split; [exact Hr|]. destruct (putBatch None demo_time demo_entries Applied demo_db) as [r db'].
  destruct Hp as (_ & _ & Hp & _). destruct (Hp ltac:(done)) as (Hs & _).
  apply (Hs "use_d"%string). apply (bool_decide_unpack _). vm_compute. exact I.
Defined.

Lemma putBatch_again_witness :
  (putBatch None 0 demo_entries Applied (putBatch None demo_time demo_entries AnswerLost demo_db).2).1 = Ok (0, 2).
Proof.
  exact (proj1 (putBatch_again None demo_time None 0 demo_entries demo_entries AnswerLost demo_db
    demo_entries_valid ltac:(done) demo_entries_valid (λ id Hid, Hid))).
Defined.

Lemma cleanup_terminates_witness :
  ∃ deleted error events',
    DeleteExpiredUntilIdle 4 (λ _, {| cu_read := true; cu_answer := Applied; cu_done := false |})
      (demo_time + second + 1) 1 0 demo_events = Some ((deleted, error), events') ∧
    cleaned (demo_time + second + 1) demo_events events'.
Proof.
  assert (size demo_events < 4)%nat as Hsize by (apply (bool_decide_unpack _); vm_compute; exact I).
  destruct (cleanup_terminates 4 (λ _, {| cu_read := true; cu_answer := Applied; cu_done := false |})
    (demo_time + second + 1) 1 demo_events Hsize) as (deleted & error & events' & Hr & Hc & _).
  exists deleted, error, events'. split; [exact Hr|exact Hc].
Defined.

Lemma cursor_roundtrip_witness :
  ∃ c, decodeListCursor (encodeListCursor (demo_row "use_b" demo_time)) = Some c ∧ lc_EventID c = "use_b"%string ∧
    time_Unix_nanos (lc_StartedAt c) = demo_time.
Proof.
  apply (cursor_roundtrip (demo_row "use_b" demo_time)); [vm_compute; reflexivity|vm_compute; reflexivity|].
  split; vm_compute; [reflexivity|discriminate].
Defined.

Lemma stored_usage_consistent u : e_Usage (stored_event "use_a" demo_time) = Some u → raw_consistent u.
Proof.
  intros [= <-]. right. split; [done|]. split; [by vm_compute|].
  exists stored_usage, ""%string. split; [by vm_compute|done].
Qed.

Lemma reprice_is_price_witness :
  Event_Validate (stored_event "use_a" demo_time) = None ∧
  eventFromRow (demo_row "use_a" demo_time) = stored_event "use_a" demo_time.
Proof.
  assert (Event_Validate (stored_event "use_a" demo_time) = None) as Hv by (vm_compute; reflexivity).
  split; [exact Hv|].
  exact (proj1 (reprice_is_price None None "1-0" (stored_event "use_a" demo_time) demo_time Hv
    stored_usage_consistent)).
Defined.

Definition demo_reprice : RepriceParams :=
  {| rp_TenantID := "t"; rp_Start := demo_time; rp_End := demo_time + hour; rp_ProviderID := ""; rp_Model := "";
     rp_MissingOnly := true; rp_Limit := 2; rp_Cursor := "" |}.

Lemma Reprice_spec_witness :
  ∃ res, (Reprice demo_reprice None true Applied demo_events).1 = Ok res ∧ rr_Matched res = 2 ∧
    rr_NextCursor res = encodeListCursor (demo_row "use_b" (demo_time + 1)).
Proof.
  assert (reprice_error (reprice_params demo_reprice) = None) as He by (vm_compute; reflexivity).
  assert (reprice_cursor (reprice_params demo_reprice) = Some None) as Hc by (vm_compute; reflexivity).
  pose proof (Reprice_spec demo_reprice None None Applied demo_events He Hc) as Hs.
  assert ((Reprice demo_reprice None true Applied demo_events).1 =
    Ok {| rr_Matched := 2; rr_Priced := 0; rr_Unknown := 2;
          rr_NextCursor := encodeListCursor (demo_row "use_b" (demo_time + 1)) |}) as Hr by (vm_compute; reflexivity).
  destruct (Reprice demo_reprice None true Applied demo_events) as [r events'].
  destruct Hs as (_ & _ & Hs). destruct (Hs eq_refl) as (res & Hres & _). exists res.
  split; [exact Hres|]. cbn in Hr. rewrite Hr in Hres. injection Hres as <-. split; reflexivity.
Defined.
