(* ===== verification/UsageQuery.v ===== *)
(** * Queries on stored usage

    Models [src/internal/usage/query.go]: filters, pages of records, totals, groups
    and series over the rows of UsageStore.v. SQL's aggregates are written out: a sum
    of no rows is 0, a sum that does not fit the field it is scanned into is an
    error. The average of a column, a float the database computes, and the label of a
    bucket of time in a time zone are parameters, as is the table of zones. *)

From S2P Require Import Prelude Encoding Json JsonWrite BigRat Calendar Usage UsageJson Pricing UsageStore.

(** ** Filters *)

Definition defaultQueryWindow : Duration := 30 * 24 * hour.
Definition maximumQueryWindow : Duration := 366 * 24 * hour.
Definition defaultPageLimit : Z := 50.
Definition maximumPageLimit : Z := 200.
Definition maximumGroups : nat := Z.to_nat 1000.

Record QueryFilter := {
  qf_Start : Time;
  qf_End : Time;
  qf_Model : string;
  qf_ProviderID : string;
  qf_APIKeyID : string;
  qf_RequestID : string;
  qf_Status : string;
  qf_CacheStatus : string;
  qf_Stream : option bool;
}.

Record ListParams := { lp_Filter : QueryFilter; lp_Limit : Z; lp_Cursor : string; lp_IncludeRaw : bool }.

Inductive QueryError := QInvalid (message : string) | QDatabase.

Definition NormalizeQueryFilter (filter : QueryFilter) (now : Time) : result QueryError QueryFilter :=
  let end_ := if time_is_zero (qf_End filter) then now else qf_End filter in
  let start := if time_is_zero (qf_Start filter) then time_add end_ (- defaultQueryWindow) else qf_Start filter in
  let filter :=
    {| qf_Start := start; qf_End := end_; qf_Model := TrimSpace (qf_Model filter);
       qf_ProviderID := TrimSpace (qf_ProviderID filter); qf_APIKeyID := TrimSpace (qf_APIKeyID filter);
       qf_RequestID := TrimSpace (qf_RequestID filter); qf_Status := qf_Status filter;
       qf_CacheStatus := TrimSpace (qf_CacheStatus filter); qf_Stream := qf_Stream filter |} in
  match
    first_error
      [(negb (time_after end_ start), "end must be after start"%string);
       (maximumQueryWindow <? time_sub end_ start, "time range exceeds 366 days"%string);
       ((200 <? str_len (qf_Model filter)) || (100 <? str_len (qf_ProviderID filter)) ||
          (64 <? str_len (qf_APIKeyID filter)) || (128 <? str_len (qf_RequestID filter)) ||
          (16 <? str_len (qf_CacheStatus filter)), "filter is too long"%string);
       (negb (qf_Status filter =? "")%string && negb (validUsageStatus (qf_Status filter)),
          "status is unsupported"%string)]
  with
  | Some message => Err (QInvalid message)
  | None => Ok filter
  end.

(** [baseQuery]: the rows of a filter. *)
Definition base_matches (filter : QueryFilter) (row : UsageRow) : bool :=
  (qf_Start filter <=? ur_StartedAt row) && (ur_StartedAt row <? qf_End filter) &&
  optional_match (qf_Model filter) (ur_RequestedModel row) &&
  optional_match (qf_ProviderID filter) (ur_ProviderID row) &&
  optional_match (qf_APIKeyID filter) (ur_APIKeyID row) &&
  optional_match (qf_RequestID filter) (ur_RequestID row) &&
  optional_match (qf_Status filter) (ur_Status row) &&
  optional_match (qf_CacheStatus filter) (ur_CacheStatus row) &&
  match qf_Stream filter with Some stream => Bool.eqb (ur_Stream row) stream | None => true end.

(** [filteredQuery] and [platformQuery]: the test of the rows, or an error. *)
Definition filteredQuery (tenantID : string) (filter : QueryFilter) : result QueryError (UsageRow → bool) :=
  let tenantID := TrimSpace tenantID in
  if (tenantID =? "")%string then Err (QInvalid "tenant is required")
  else Ok (λ row, base_matches filter row && (ur_TenantID row =? tenantID)%string).

Definition platformQuery (tenantID : string) (filter : QueryFilter) : result QueryError (UsageRow → bool) :=
  let tenantID := TrimSpace tenantID in
  if 64 <? str_len tenantID then Err (QInvalid "tenant filter is too long")
  else Ok (λ row, base_matches filter row && optional_match tenantID (ur_TenantID row)).

(** ** Money *)

Definition pad_left (width : nat) (l : list ascii) : list ascii :=
  replicate (width - length l) "0"%char ++ l.

(** [%09d]. *)
Definition sprintf_09d (n : Z) : list ascii :=
  if n <? 0 then "-"%char :: pad_left 8 (list_ascii_of_string (encode_int (- n)))
  else pad_left 9 (list_ascii_of_string (encode_int n)).

(** [strings.TrimRight(s, "0")]. *)
Fixpoint trim_right_zeros (l : list ascii) : list ascii :=
  match l with
  | [] => []
  | c :: l =>
      match trim_right_zeros l with
      | [] => if (c =? "0")%char then [] else [c]
      | l => c :: l
      end
  end.

Definition formatUSD (nanoUSD : Z) : string :=
  let whole := Z.quot nanoUSD 1000000000 in
  let fraction := Z.rem nanoUSD 1000000000 in
  if fraction =? 0 then encode_int whole
  else string_of_list_ascii
         (trim_right_zeros (list_ascii_of_string (encode_int whole) ++ "."%char :: sprintf_09d fraction)).

(** ** Records *)

Record TokenView := {
  tv_Input : Z;
  tv_Output : Z;
  tv_Total : Z;
  tv_InputDetails : option InputTokenDetails;
  tv_OutputDetails : option OutputTokenDetails;
  tv_Raw : string;
}.

Record CostView := {
  cv_InputNanoUSD : option Z;
  cv_OutputNanoUSD : option Z;
  cv_TotalNanoUSD : Z;
  cv_TotalUSD : string;
  cv_Currency : string;
  cv_Source : string;
  cv_PricingVersion : string;
  cv_Caveat : string;
}.

(** [Record]. *)
Record UsageRecord := {
  rc_SchemaVersion : Z;
  rc_EventID : string;
  rc_RequestID : string;
  rc_APIKeyID : string;
  rc_RequestedModel : string;
  rc_ProviderID : string;
  rc_UpstreamModel : string;
  rc_CacheStatus : string;
  rc_Stream : bool;
  rc_Attempts : Z;
  rc_Retries : Z;
  rc_Fallbacks : Z;
  rc_Usage : option TokenView;
  rc_UsageSource : string;
  rc_UsageCaveat : string;
  rc_Cost : option CostView;
  rc_CostCaveat : string;
  rc_FinishReason : string;
  rc_Status : string;
  rc_ErrorCategory : string;
  rc_ErrorCode : string;
  rc_StartedAt : Time;
  rc_EndedAt : Time;
  rc_LatencyMS : Z;
  rc_FirstTokenMS : option Z;
}.

Definition token_view (row : UsageRow) (includeRaw : bool) : option TokenView :=
  if row_has_tokens row
  then Some {| tv_Input := int64Value (ur_InputTokens row); tv_Output := int64Value (ur_OutputTokens row);
               tv_Total := int64Value (ur_TotalTokens row); tv_InputDetails := row_input_details row;
               tv_OutputDetails := row_output_details row;
               tv_Raw := if includeRaw && json_valid (ur_RawUsage row) then ur_RawUsage row else "" |}
  else None.

Definition cost_view (row : UsageRow) : option CostView :=
  (λ total,
    {| cv_InputNanoUSD := ur_InputCostNanoUSD row; cv_OutputNanoUSD := ur_OutputCostNanoUSD row;
       cv_TotalNanoUSD := total; cv_TotalUSD := formatUSD total; cv_Currency := ur_CostCurrency row;
       cv_Source := ur_CostSource row; cv_PricingVersion := ur_PricingVersion row;
       cv_Caveat := ur_CostCaveat row |}) <$> ur_TotalCostNanoUSD row.

Definition recordFromRow (row : UsageRow) (includeRaw : bool) : UsageRecord :=
  {| rc_SchemaVersion := ur_SchemaVersion row; rc_EventID := ur_EventID row; rc_RequestID := ur_RequestID row;
     rc_APIKeyID := ur_APIKeyID row; rc_RequestedModel := ur_RequestedModel row;
     rc_ProviderID := ur_ProviderID row; rc_UpstreamModel := ur_UpstreamModel row;
     rc_CacheStatus := ur_CacheStatus row; rc_Stream := ur_Stream row; rc_Attempts := ur_Attempts row;
     rc_Retries := ur_Retries row; rc_Fallbacks := ur_Fallbacks row; rc_Usage := token_view row includeRaw;
     rc_UsageSource := ur_UsageSource row; rc_UsageCaveat := ur_UsageCaveat row; rc_Cost := cost_view row;
     rc_CostCaveat := ur_CostCaveat row; rc_FinishReason := ur_FinishReason row; rc_Status := ur_Status row;
     rc_ErrorCategory := ur_ErrorCategory row; rc_ErrorCode := ur_ErrorCode row;
     rc_StartedAt := ur_StartedAt row; rc_EndedAt := ur_EndedAt row; rc_LatencyMS := ur_LatencyMS row;
     rc_FirstTokenMS := ur_FirstTokenMS row |}.

(** ** Pages *)

Section lists.
Context `{Scan} `{Collation}.

(** [ORDER BY started_at DESC, event_id DESC]. *)
Definition row_ge (a b : string * UsageRow) : Prop := row_le b a.
#[export] Instance row_ge_dec : RelDecision row_ge := λ a b, row_le_dec b a.

(** Behind a cursor, on the way to older rows. *)
Definition cursor_before (startedAt : Time) (eventID : string) (row : UsageRow) : Prop :=
  ur_StartedAt row < startedAt ∨
  (ur_StartedAt row = startedAt ∧ collate (ur_EventID row) eventID ∧ ur_EventID row ≠ eventID).
#[export] Instance cursor_before_dec t id row : Decision (cursor_before t id row).
Proof. pose proof collate_dec. unfold cursor_before. apply _. Defined.

Definition behind_cursor (cursor : option listCursor) (row : UsageRow) : bool :=
  match cursor with
  | Some c => bool_decide (cursor_before (time_Unix_nanos (lc_StartedAt c)) (lc_EventID c) row)
  | None => true
  end.

Definition list_rows (test : UsageRow → bool) (cursor : option listCursor) (events : gmap string UsageRow)
  : list (string * UsageRow) :=
  merge_sort row_ge (filter (λ r, test r.2 && behind_cursor cursor r.2 = true) (scan events)).

Definition listRows (test : UsageRow → bool) (requestedLimit : Z) (encodedCursor : string) (read : bool)
    (events : gmap string UsageRow) : result QueryError (list UsageRow * bool) :=
  let limit := if requestedLimit =? 0 then defaultPageLimit else requestedLimit in
  if (limit <? 1) || (maximumPageLimit <? limit) then Err (QInvalid "limit must be between 1 and 200")
  else
    match (if (encodedCursor =? "")%string then Some None else Some <$> decodeListCursor encodedCursor) with
    | None => Err (QInvalid "cursor is invalid")
    | Some cursor =>
        if negb read then Err QDatabase
        else
          let limit := Z.to_nat limit in
          let rows := (take (limit + 1) (list_rows test cursor events)).*2 in
          let hasMore := (limit <? length rows)%nat in
          Ok (if hasMore then take limit rows else rows, hasMore)
    end.

Definition next_cursor (rows : list UsageRow) (hasMore : bool) : string :=
  match hasMore, last rows with true, Some row => encodeListCursor row | _, _ => "" end.

Definition Store_List (tenantID : string) (params : ListParams) (now : Time) (read : bool) (events : gmap string UsageRow)
  : result QueryError (list UsageRecord * string) :=
  filter ← NormalizeQueryFilter (lp_Filter params) now;
  test ← filteredQuery tenantID filter;
  '(rows, hasMore) ← listRows test (lp_Limit params) (lp_Cursor params) read events;
  Ok (map (λ row, recordFromRow row (lp_IncludeRaw params)) rows, next_cursor rows hasMore).

(** The records of a platform list carry their tenant. *)
Definition PlatformList (tenantID : string) (params : ListParams) (now : Time) (read : bool)
    (events : gmap string UsageRow) : result QueryError (list (string * UsageRecord) * string) :=
  filter ← NormalizeQueryFilter (lp_Filter params) now;
  test ← platformQuery tenantID filter;
  '(rows, hasMore) ← listRows test (lp_Limit params) (lp_Cursor params) read events;
  Ok (map (λ row, (ur_TenantID row, recordFromRow row (lp_IncludeRaw params))) rows, next_cursor rows hasMore).
End lists.

(** ** Totals *)

Definition total_of (l : list Z) : Z := foldr Z.add 0 l.
Definition sum_column (f : UsageRow → option Z) (rows : list UsageRow) : Z := total_of (omap f rows).
Definition count_rows (p : UsageRow → bool) (rows : list UsageRow) : Z :=
  Z.of_nat (length (filter (λ row, p row = true) rows)).

Definition status_in (statuses : list string) (row : UsageRow) : bool := existsb (String.eqb (ur_Status row)) statuses.
Definition cache_hit_row (row : UsageRow) : bool := (ur_Status row =? "cache_hit")%string.

Definition successful : list string := ["success"; "cache_hit"; "stream_completed"]%string.
Definition unsuccessful : list string := ["failed"; "cancelled"; "stream_interrupted"]%string.

Record AggregateRow (F : Type) := {
  ag_GroupValue : string;
  ag_Requests : Z;
  ag_SuccessfulRequests : Z;
  ag_FailedRequests : Z;
  ag_CacheHits : Z;
  ag_StreamedRequests : Z;
  ag_InputTokens : Z;
  ag_UncachedInputTokens : Z;
  ag_InputTextTokens : Z;
  ag_InputAudioTokens : Z;
  ag_InputImageTokens : Z;
  ag_CachedReadTokens : Z;
  ag_CachedWriteTokens : Z;
  ag_OutputTokens : Z;
  ag_OutputTextTokens : Z;
  ag_OutputAudioTokens : Z;
  ag_ReasoningTokens : Z;
  ag_AcceptedPrediction : Z;
  ag_RejectedPrediction : Z;
  ag_TotalTokens : Z;
  ag_BilledTokens : Z;
  ag_CacheSavedTokens : Z;
  ag_KnownCostRequests : Z;
  ag_TotalCostNanoUSD : Z;
  ag_AverageLatencyMS : F;
  ag_AverageFirstTokenMS : F;
  ag_Attempts : Z;
  ag_Retries : Z;
  ag_Fallbacks : Z;
}.

Record Totals (F : Type) := {
  tt_Requests : Z;
  tt_SuccessfulRequests : Z;
  tt_FailedRequests : Z;
  tt_CacheHits : Z;
  tt_StreamedRequests : Z;
  tt_InputTokens : Z;
  tt_UncachedInputTokens : Z;
  tt_InputTextTokens : Z;
  tt_InputAudioTokens : Z;
  tt_InputImageTokens : Z;
  tt_CachedReadTokens : Z;
  tt_CachedWriteTokens : Z;
  tt_OutputTokens : Z;
  tt_OutputTextTokens : Z;
  tt_OutputAudioTokens : Z;
  tt_ReasoningTokens : Z;
  tt_AcceptedPrediction : Z;
  tt_RejectedPrediction : Z;
  tt_TotalTokens : Z;
  tt_BilledTokens : Z;
  tt_CacheSavedTokens : Z;
  tt_KnownCostRequests : Z;
  tt_UnknownCostRequests : Z;
  tt_TotalCostNanoUSD : Z;
  tt_TotalCostUSD : string;
  tt_AverageLatencyMS : F;
  tt_AverageFirstTokenMS : F;
  tt_Attempts : Z;
  tt_Retries : Z;
  tt_Fallbacks : Z;
}.

(** The integer columns of a row of totals, which are scanned into [int64]. *)
Definition aggregate_integers {F} (row : AggregateRow F) : list Z :=
  map (λ f, f row)
    [@ag_Requests F; @ag_SuccessfulRequests F; @ag_FailedRequests F; @ag_CacheHits F; @ag_StreamedRequests F;
     @ag_InputTokens F; @ag_UncachedInputTokens F; @ag_InputTextTokens F; @ag_InputAudioTokens F;
     @ag_InputImageTokens F; @ag_CachedReadTokens F; @ag_CachedWriteTokens F; @ag_OutputTokens F;
     @ag_OutputTextTokens F; @ag_OutputAudioTokens F; @ag_ReasoningTokens F; @ag_AcceptedPrediction F;
     @ag_RejectedPrediction F; @ag_TotalTokens F; @ag_BilledTokens F; @ag_CacheSavedTokens F;
     @ag_KnownCostRequests F; @ag_TotalCostNanoUSD F; @ag_Attempts F; @ag_Retries F; @ag_Fallbacks F].

Section totals.
Context {F : Type} (average : list Z → F).

(** The columns of [aggregateColumns] over some rows. *)
Definition aggregate_values (group : string) (rows : list UsageRow) : AggregateRow F :=
  {| ag_GroupValue := group;
     ag_Requests := Z.of_nat (length rows);
     ag_SuccessfulRequests := count_rows (status_in successful) rows;
     ag_FailedRequests := count_rows (status_in unsuccessful) rows;
     ag_CacheHits := count_rows cache_hit_row rows;
     ag_StreamedRequests := count_rows ur_Stream rows;
     ag_InputTokens := sum_column ur_InputTokens rows;
     ag_UncachedInputTokens :=
       sum_column (λ row, Some (Z.max (int64Value (ur_InputTokens row) - int64Value (ur_CachedRead row)
                                       - int64Value (ur_CachedWrite row)) 0)) rows;
     ag_InputTextTokens := sum_column ur_InputText rows;
     ag_InputAudioTokens := sum_column ur_InputAudio rows;
     ag_InputImageTokens := sum_column ur_InputImage rows;
     ag_CachedReadTokens := sum_column ur_CachedRead rows;
     ag_CachedWriteTokens := sum_column ur_CachedWrite rows;
     ag_OutputTokens := sum_column ur_OutputTokens rows;
     ag_OutputTextTokens := sum_column ur_OutputText rows;
     ag_OutputAudioTokens := sum_column ur_OutputAudio rows;
     ag_ReasoningTokens := sum_column ur_Reasoning rows;
     ag_AcceptedPrediction := sum_column ur_AcceptedPrediction rows;
     ag_RejectedPrediction := sum_column ur_RejectedPrediction rows;
     ag_TotalTokens := sum_column ur_TotalTokens rows;
     ag_BilledTokens := sum_column ur_TotalTokens (filter (λ row, cache_hit_row row = false) rows);
     ag_CacheSavedTokens := sum_column ur_TotalTokens (filter (λ row, cache_hit_row row = true) rows);
     ag_KnownCostRequests := count_rows (λ row, isSome (ur_TotalCostNanoUSD row)) rows;
     ag_TotalCostNanoUSD := sum_column ur_TotalCostNanoUSD rows;
     ag_AverageLatencyMS := average (map ur_LatencyMS rows);
     ag_AverageFirstTokenMS := average (omap ur_FirstTokenMS rows);
     ag_Attempts := sum_column (λ row, Some (ur_Attempts row)) rows;
     ag_Retries := sum_column (λ row, Some (ur_Retries row)) rows;
     ag_Fallbacks := sum_column (λ row, Some (ur_Fallbacks row)) rows |}.

(** Scanned into the struct: an error when an integer does not fit. *)
Definition aggregate (group : string) (rows : list UsageRow) : option (AggregateRow F) :=
  let row := aggregate_values group rows in
  if forallb is_int64 (aggregate_integers row) then Some row else None.

Definition totalsFromAggregate (row : AggregateRow F) : Totals F :=
  {| tt_Requests := ag_Requests _ row; tt_SuccessfulRequests := ag_SuccessfulRequests _ row;
     tt_FailedRequests := ag_FailedRequests _ row; tt_CacheHits := ag_CacheHits _ row;
     tt_StreamedRequests := ag_StreamedRequests _ row; tt_InputTokens := ag_InputTokens _ row;
     tt_UncachedInputTokens := ag_UncachedInputTokens _ row; tt_InputTextTokens := ag_InputTextTokens _ row;
     tt_InputAudioTokens := ag_InputAudioTokens _ row; tt_InputImageTokens := ag_InputImageTokens _ row;
     tt_CachedReadTokens := ag_CachedReadTokens _ row; tt_CachedWriteTokens := ag_CachedWriteTokens _ row;
     tt_OutputTokens := ag_OutputTokens _ row; tt_OutputTextTokens := ag_OutputTextTokens _ row;
     tt_OutputAudioTokens := ag_OutputAudioTokens _ row; tt_ReasoningTokens := ag_ReasoningTokens _ row;
     tt_AcceptedPrediction := ag_AcceptedPrediction _ row; tt_RejectedPrediction := ag_RejectedPrediction _ row;
     tt_TotalTokens := ag_TotalTokens _ row; tt_BilledTokens := ag_BilledTokens _ row;
     tt_CacheSavedTokens := ag_CacheSavedTokens _ row; tt_KnownCostRequests := ag_KnownCostRequests _ row;
     tt_UnknownCostRequests := wrap_int64 (ag_Requests _ row - ag_KnownCostRequests _ row);
     tt_TotalCostNanoUSD := ag_TotalCostNanoUSD _ row; tt_TotalCostUSD := formatUSD (ag_TotalCostNanoUSD _ row);
     tt_AverageLatencyMS := ag_AverageLatencyMS _ row; tt_AverageFirstTokenMS := ag_AverageFirstTokenMS _ row;
     tt_Attempts := ag_Attempts _ row; tt_Retries := ag_Retries _ row; tt_Fallbacks := ag_Fallbacks _ row |}.

(** ** Groups *)

Record Group := { gr_Value : string; gr_Totals : Totals F }.
Record Summary := { sm_Totals : Totals F; sm_Groups : list Group; sm_GroupsTruncated : bool }.

(** [groupColumn]: the column of the rows. *)
Definition groupColumn `{Unicode} (group : string) (allowTenant : bool) : result QueryError (UsageRow → string) :=
  let group := ToLower (TrimSpace group) in
  if (group =? "tenant")%string && allowTenant then Ok ur_TenantID
  else if (group =? "model")%string then Ok ur_RequestedModel
  else if (group =? "provider")%string then Ok ur_ProviderID
  else if (group =? "status")%string then Ok ur_Status
  else if (group =? "cache")%string then Ok ur_CacheStatus
  else if (group =? "api_key")%string then Ok ur_APIKeyID
  else Err (QInvalid "group_by is unsupported").

(** [GROUP BY] a label, [ORDER BY] it: each label with its rows. *)
Definition grouped `{Collation} (label : UsageRow → string) (rows : list UsageRow) : list (string * list UsageRow) :=
  map (λ value, (value, filter (λ row, label row = value) rows))
    (merge_sort collate (remove_dups (map label rows))).

Definition aggregate_groups (groups : list (string * list UsageRow)) : result QueryError (list (AggregateRow F)) :=
  match mapM (λ g, aggregate g.1 g.2) groups with Some rows => Ok rows | None => Err QDatabase end.

Definition group_of (row : AggregateRow F) : Group :=
  {| gr_Value := if (ag_GroupValue _ row =? "")%string then "unknown" else ag_GroupValue _ row;
     gr_Totals := totalsFromAggregate row |}.

(** [first] and [second]: whether the two queries are answered. *)
Definition summaryFromQuery `{Unicode} `{Collation} (rows : list UsageRow) (groupBy : string) (allowTenantGroup : bool)
    (first second : bool) : result QueryError Summary :=
  match (if first then aggregate "" rows else None) with
  | None => Err QDatabase
  | Some total =>
      let totals := totalsFromAggregate total in
      if (TrimSpace groupBy =? "")%string
      then Ok {| sm_Totals := totals; sm_Groups := []; sm_GroupsTruncated := false |}
      else
        column ← groupColumn groupBy allowTenantGroup;
        if negb second then Err QDatabase
        else
          found ← aggregate_groups (take (maximumGroups + 1) (grouped column rows));
          let truncated := (maximumGroups <? length found)%nat in
          Ok {| sm_Totals := totals;
                sm_Groups := map group_of (if truncated then take maximumGroups found else found);
                sm_GroupsTruncated := truncated |}
  end.

(** ** Series *)

Record SeriesPoint := { sp_Bucket : string; sp_Totals : Totals F }.

(** The unit an interval is cut into, as the database's [date_trunc] names it. *)
Definition seriesExpression `{Unicode} (interval : string) : result QueryError string :=
  let interval := ToLower (TrimSpace interval) in
  if (interval =? "")%string || (interval =? "day")%string then Ok "day"%string
  else if existsb (String.eqb interval) ["hour"; "week"; "month"; "year"]%string then Ok interval
  else Err (QInvalid "interval is unsupported").

(** [bucket]: the label of an instant for a unit and a zone. *)
Definition seriesFromQuery `{Collation} (bucket : string → string → Time → string) (rows : list UsageRow)
    (unit timezone : string) (read : bool) : result QueryError (list SeriesPoint) :=
  if negb read then Err QDatabase
  else
    found ← aggregate_groups (grouped (λ row, bucket unit timezone (ur_StartedAt row)) rows);
    Ok (map (λ row, {| sp_Bucket := ag_GroupValue _ row; sp_Totals := totalsFromAggregate row |}) found).

Context `{Scan} `{Collation} `{Unicode}.

Definition matching (test : UsageRow → bool) (events : gmap string UsageRow) : list UsageRow :=
  filter (λ row, test row = true) (scan events).*2.

Definition Store_Summary (tenantID : string) (filter : QueryFilter) (groupBy : string) (now : Time)
    (first second : bool) (events : gmap string UsageRow) : result QueryError Summary :=
  filter ← NormalizeQueryFilter filter now;
  test ← filteredQuery tenantID filter;
  summaryFromQuery (matching test events) groupBy false first second.

Definition PlatformSummary (tenantID : string) (filter : QueryFilter) (groupBy : string) (now : Time)
    (first second : bool) (events : gmap string UsageRow) : result QueryError Summary :=
  filter ← NormalizeQueryFilter filter now;
  test ← platformQuery tenantID filter;
  summaryFromQuery (matching test events) groupBy true first second.

(** [zone_known]: [time.LoadLocation] finds the zone. *)
Definition Series (zone_known : string → bool) (bucket : string → string → Time → string) (tenantID : string)
    (filter : QueryFilter) (interval timezone : string) (now : Time) (read : bool) (events : gmap string UsageRow)
  : result QueryError (list SeriesPoint) :=
  filter ← NormalizeQueryFilter filter now;
  unit ← seriesExpression interval;
  let timezone := if (TrimSpace timezone =? "")%string then "UTC"%string else TrimSpace timezone in
  if negb (zone_known timezone) then Err (QInvalid "timezone is invalid")
  else
    test ← filteredQuery tenantID filter;
    seriesFromQuery bucket (matching test events) unit timezone read.

Definition PlatformSeries (zone_known : string → bool) (bucket : string → string → Time → string) (tenantID : string)
    (filter : QueryFilter) (interval timezone : string) (now : Time) (read : bool) (events : gmap string UsageRow)
  : result QueryError (list SeriesPoint) :=
  filter ← NormalizeQueryFilter filter now;
  unit ← seriesExpression interval;
  let timezone := if (TrimSpace timezone =? "")%string then "UTC"%string else TrimSpace timezone in
  if negb (zone_known timezone) then Err (QInvalid "timezone is invalid")
  else
    test ← platformQuery tenantID filter;
    seriesFromQuery bucket (matching test events) unit timezone read.
End totals.

(** ** All pages *)

Section pages.
Context `{Scan} `{Collation}.

(** A client that follows the cursors: the rows of all pages, while the fuel lasts. *)
Fixpoint walk (fuel : nat) (test : UsageRow → bool) (limit : Z) (cursor : string) (events : gmap string UsageRow)
  : option (list UsageRow) :=
  match fuel with
  | O => None
  | S fuel =>
      match listRows test limit cursor true events with
      | Err _ => None
      | Ok (rows, hasMore) =>
          if (next_cursor rows hasMore =? "")%string then Some rows
          else rest ← walk fuel test limit (next_cursor rows hasMore) events; Some (rows ++ rest)
      end
  end.

(** The rows stand under their ids, and a cursor leads back to each that matches. *)
Definition cursor_leads_back (row : UsageRow) : Prop :=
  ∃ c, decodeListCursor (encodeListCursor row) = Some c ∧ lc_EventID c = ur_EventID row ∧
    time_Unix_nanos (lc_StartedAt c) = ur_StartedAt row.

Definition listable (test : UsageRow → bool) (events : gmap string UsageRow) : Prop :=
  ∀ id row, events !! id = Some row → ur_EventID row = id ∧ (test row = true → cursor_leads_back row).

Lemma list_rows_elem test cursor events id row :
  (id, row) ∈ list_rows test cursor events ↔
  events !! id = Some row ∧ test row = true ∧ behind_cursor cursor row = true.
Proof.
  unfold list_rows. rewrite merge_sort_Permutation, list_elem_of_filter, scan_elem. cbn.
  rewrite andb_true_iff. tauto.
Qed.

Lemma list_rows_nodup test cursor events : NoDup (list_rows test cursor events).*1.
Proof.
  unfold list_rows. rewrite merge_sort_Permutation.
  eapply sublist_NoDup; [apply (scan_keys events)|]. apply (fmap_sublist fst), sublist_filter.
Qed.

#[local] Instance row_ge_trans : Transitive row_ge.
Proof.
  intros a b c. unfold row_ge, row_le. destruct collate_order as [[[_ Htr] _] _].
  intros [H1|[H1 H1']] [H2|[H2 H2']]; [left; lia..|]. right. split; [lia|]. by etrans.
Qed.

#[local] Instance row_ge_total : Total row_ge.
Proof.
  intros a b. unfold row_ge, row_le. destruct collate_order as [_ Htot].
  destruct (Z.lt_trichotomy (ur_StartedAt a.2) (ur_StartedAt b.2)) as [|[E|]]; [by right; left| |by left; left].
  destruct (Htot (ur_EventID a.2) (ur_EventID b.2)) as [Hs|[Hs|Hs]].
  - right. right. split; [done|]. apply Hs.
  - left. right. split; [done|]. rewrite Hs. destruct collate_order as [[[Hr _] _] _]. apply Hr.
  - left. right. split; [done|]. apply Hs.
Qed.

Lemma list_rows_sorted test cursor events : StronglySorted row_ge (list_rows test cursor events).
Proof. apply (StronglySorted_merge_sort row_ge). Qed.

Lemma row_ge_antisym (events : gmap string UsageRow) id1 row1 id2 row2 :
  (∀ id row, events !! id = Some row → ur_EventID row = id) →
  events !! id1 = Some row1 → events !! id2 = Some row2 →
  row_ge (id1, row1) (id2, row2) → row_ge (id2, row2) (id1, row1) → (id1, row1) = (id2, row2).
Proof.
  intros Hk H1 H2 Ha Hb. unfold row_ge, row_le in *. cbn in *.
  destruct collate_order as [[_ Hanti] _].
  destruct Ha as [Ha|[Ha Ha']], Hb as [Hb|[Hb Hb']]; try lia.
  assert (ur_EventID row1 = ur_EventID row2) as E by by apply Hanti.
  rewrite (Hk _ _ H1), (Hk _ _ H2) in E. subst id2. congruence.
Qed.

(** The rows behind a row of the list are those after it. *)
Lemma list_rows_behind test (events : gmap string UsageRow) k id row :
  (∀ id row, events !! id = Some row → ur_EventID row = id) →
  list_rows test None events !! k = Some (id, row) →
  ∀ c, lc_EventID c = ur_EventID row → time_Unix_nanos (lc_StartedAt c) = ur_StartedAt row →
  list_rows test (Some c) events = drop (S k) (list_rows test None events).
Proof.
  intros Hkey Hrow c Hid Hat. set (L := list_rows test None events) in *.
  pose proof (list_rows_nodup test None events) as Hnd. fold L in Hnd.
  pose proof (list_rows_sorted test None events) as Hsort. fold L in Hsort.
  assert (NoDup L) as HndL by by apply NoDup_fmap_1 in Hnd.
  assert (∀ x, x ∈ L → events !! x.1 = Some x.2 ∧ test x.2 = true) as HL.
  { intros [i r] Hx. apply list_rows_elem in Hx as (? & ? & _). done. }
  assert (∀ x, x ∈ drop (S k) L ↔ x ∈ L ∧ cursor_before (ur_StartedAt row) (ur_EventID row) x.2) as Hdrop.
  { intros [i r]. rewrite <-(take_drop_middle _ _ _ Hrow) in Hsort, HndL.
    apply StronglySorted_app in Hsort as (Hcross & _ & Hs2). apply StronglySorted_inv in Hs2 as [_ Hge].
    rewrite Forall_forall in Hge.
    apply NoDup_app in HndL as (_ & Hdisj & Hnd2). apply NoDup_cons in Hnd2 as [Hnotin _].
    destruct (HL _ (list_elem_of_lookup_2 _ _ _ Hrow)) as [Hev _]. cbn in Hev.
    split.
    - intros Hx. assert ((i, r) ∈ L) as HxL by (rewrite <-(take_drop (S k) L); apply elem_of_app; by right).
      split; [done|]. destruct (HL _ HxL) as [Hevx _]. cbn in *.
      specialize (Hge _ Hx). unfold row_ge, row_le in Hge. cbn in Hge. destruct Hge as [|[Hst Hc]]; [by left|].
      right. split_and!; [done|done|]. rewrite (Hkey _ _ Hev), (Hkey _ _ Hevx). intros ->.
      rewrite Hev in Hevx. injection Hevx as ->. done.
    - intros [HxL Hb]. rewrite <-(take_drop_middle _ _ _ Hrow) in HxL. apply elem_of_app in HxL as [Ht|[Heq|Hd]%elem_of_cons].
      + exfalso. assert (row_ge (i, r) (id, row)) as Hg by (apply Hcross; [done|by left]).
        assert ((i, r) ∈ L) as HxL by (rewrite <-(take_drop k L); apply elem_of_app; by left).
        destruct (HL _ HxL) as [Hevx _]. cbn in *. unfold cursor_before in Hb. unfold row_ge, row_le in Hg. cbn in Hg.
        destruct Hb as [Hb|(Hb & Hc & Hne)], Hg as [Hg|[Hg Hg']]; try lia.
        apply Hne. destruct collate_order as [[_ Hanti] _]. by apply Hanti.
      + exfalso. injection Heq as -> ->. unfold cursor_before in Hb. cbn in Hb. destruct Hb as [|(_ & _ & Hb)]; [lia|done].
      + done. }
  apply (StronglySorted_unique_strong row_ge).
  - intros [i1 r1] [i2 r2] H1 H2 Ha Hb. apply list_rows_elem in H1 as (H1 & _). apply Hdrop in H2 as [H2 _].
    apply HL in H2 as [H2 _]. by eapply row_ge_antisym.
  - apply list_rows_sorted.
  - eapply StronglySorted_app_1_r. by rewrite (take_drop (S k) L).
  - apply NoDup_Permutation.
    + pose proof (list_rows_nodup test (Some c) events) as Hn. by apply NoDup_fmap_1 in Hn.
    + eapply sublist_NoDup; [exact HndL|]. apply sublist_drop.
    + intros [i r]. rewrite Hdrop. unfold L. rewrite !list_rows_elem. cbn [behind_cursor snd].
      rewrite bool_decide_eq_true, Hid, Hat. tauto.
Qed.

Lemma page_cut {A} (n : nat) (l : list A) :
  (if (n <? length (take (n + 1) l))%nat then take n (take (n + 1) l) else take (n + 1) l) = take n l ∧
  (n <? length (take (n + 1) l))%nat = (n <? length l)%nat.
Proof.
  rewrite length_take. destruct (Nat.ltb_spec n (length l)) as [Hl|Hl].
  - destruct (Nat.ltb_spec n (Nat.min (n + 1) (length l))); [|lia]. split; [|done]. rewrite take_take. f_equal. lia.
  - destruct (Nat.ltb_spec n (Nat.min (n + 1) (length l))); [lia|]. split; [|done]. by rewrite !take_ge by lia.
Qed.

Lemma listRows_ext test test' limit encoded read events :
  (∀ row, test row = test' row) → listRows test limit encoded read events = listRows test' limit encoded read events.
Proof.
  intros Htest. unfold listRows, list_rows.
  assert (∀ cursor, filter (λ r : string * UsageRow, test r.2 && behind_cursor cursor r.2 = true) (scan events) =
    filter (λ r : string * UsageRow, test' r.2 && behind_cursor cursor r.2 = true) (scan events)) as E.
  { intros cursor. apply list_filter_iff. intros r. by rewrite Htest. }
  destruct (_ || _); [done|]. destruct (if (encoded =? "")%string then _ else _); [|done]. by rewrite E.
Qed.

Definition page_limit (limit : Z) : nat := Z.to_nat (if limit =? 0 then defaultPageLimit else limit).

Lemma listRows_page test limit encoded cursor events :
  0 ≤ limit ≤ maximumPageLimit →
  (if (encoded =? "")%string then Some None else Some <$> decodeListCursor encoded) = Some cursor →
  listRows test limit encoded true events =
    Ok (take (page_limit limit) (list_rows test cursor events).*2,
        (page_limit limit <? length (list_rows test cursor events).*2)%nat) ∧
  (1 ≤ page_limit limit)%nat.
Proof.
  intros Hl Hc. unfold listRows, page_limit, maximumPageLimit, defaultPageLimit in *. rewrite Hc. cbv zeta.
  set (n := if limit =? 0 then 50 else limit).
  assert (1 ≤ n ≤ 200) as Hn by (unfold n; destruct (Z.eqb_spec limit 0); lia).
  assert ((n <? 1) || (200 <? n) = false) as -> by lia. cbn [negb]. split; [|lia].
  destruct (page_cut (Z.to_nat n) (list_rows test cursor events).*2) as [Hp Hm].
  rewrite fmap_take, Hm. rewrite Hm in Hp. by rewrite Hp.
Qed.

Lemma walk_from test limit events fuel k encoded cursor :
  listable test events → 0 ≤ limit ≤ maximumPageLimit →
  (if (encoded =? "")%string then Some None else Some <$> decodeListCursor encoded) = Some cursor →
  list_rows test cursor events = drop k (list_rows test None events) →
  (length (list_rows test None events) < fuel + k)%nat → (k ≤ length (list_rows test None events))%nat →
  walk fuel test limit encoded events = Some (drop k (list_rows test None events)).*2.
Proof.
  intros Hlist Hlimit. set (L := list_rows test None events). revert k encoded cursor.
  induction fuel as [|fuel IH]; intros k encoded cursor Hc Hrows Hfuel Hk; [lia|]. cbn [walk].
  destruct (listRows_page test limit encoded cursor events Hlimit Hc) as [-> Hn]. cbv zeta. rewrite Hrows.
  set (n := page_limit limit) in *. rewrite length_fmap, length_drop. unfold next_cursor.
  destruct (Nat.ltb_spec n (length L - k)) as [Hmore|Hmore].
  - assert (∃ id row, L !! (k + n - 1)%nat = Some (id, row)) as (id & row & Hrow).
    { destruct (lookup_lt_is_Some_2 L (k + n - 1)%nat ltac:(lia)) as [[id row] Hr]. eauto. }
    assert (last (take n (drop k L).*2) = Some row) as ->.
    { rewrite last_lookup, length_take, length_fmap, length_drop, lookup_take_lt by lia.
      rewrite list_lookup_fmap, lookup_drop. replace (k + Nat.pred (Nat.min n (length L - k)))%nat with (k + n - 1)%nat by lia.
      by rewrite Hrow. }
    destruct (String.eqb_spec (encodeListCursor row) "") as [E|Hne]; [by apply encodeListCursor_ne in E|].
    pose proof (list_elem_of_lookup_2 _ _ _ Hrow) as Hin. apply list_rows_elem in Hin as (Hev & Htest & _).
    destruct (Hlist _ _ Hev) as [Hkey Hback]. destruct (Hback Htest) as (c & Hdec & Hid & Hat).
    rewrite (IH (k + n)%nat (encodeListCursor row) (Some c)).
    + cbn [mbind option_bind]. f_equal. rewrite <-(take_drop n (drop k L).*2) at 2. rewrite <-fmap_drop, drop_drop. done.
    + destruct (String.eqb_spec (encodeListCursor row) ""); [done|]. by rewrite Hdec.
    + unfold L. rewrite (list_rows_behind test events (k + n - 1) id row) by (done || by intros i r Hi; apply Hlist).
      f_equal. lia.
    + lia.
    + lia.
  - cbn. rewrite take_ge; [done|]. rewrite length_fmap, length_drop. lia.
Qed.

(** C34: following the cursors shows everything once. Whatever the limit of the pages,
    a client that starts without a cursor and follows those it is given, while
    nothing changes, ends after boundedly many pages and has seen each row of its
    query exactly once, the newest first. *)
Theorem pages_complete test limit events :
  listable test events → 0 ≤ limit ≤ maximumPageLimit →
  ∃ rows, walk (S (length (list_rows test None events))) test limit "" events = Some rows ∧
    NoDup (map ur_EventID rows) ∧
    (∀ row, row ∈ rows ↔ test row = true ∧ ∃ id, events !! id = Some row) ∧
    StronglySorted (λ a b, ur_StartedAt b ≤ ur_StartedAt a) rows.
Proof.
  intros Hlist Hlimit. exists (list_rows test None events).*2. split_and!.
  - rewrite (walk_from test limit events _ 0 "" None) by (done || lia). by rewrite drop_0.
  - assert (map ur_EventID (list_rows test None events).*2 = (list_rows test None events).*1) as ->.
    { change (map ur_EventID) with (fmap (M:=list) ur_EventID). rewrite <-list_fmap_compose. apply list_fmap_ext.
      intros i [id row] Hi. apply list_elem_of_lookup_2, list_rows_elem in Hi as (Hev & _). by apply Hlist. }
    apply list_rows_nodup.
  - intros row. rewrite list_elem_of_fmap. split.
    + intros ([id r] & -> & Hin). apply list_rows_elem in Hin as (? & ? & _). cbn. eauto.
    + intros (Ht & id & Hev). exists (id, row). split; [done|]. apply list_rows_elem. done.
  - pose proof (list_rows_sorted test None events) as Hs. induction Hs as [|x l _ IH Hx]; cbn; constructor; [done|].
    apply Forall_fmap. eapply Forall_impl; [exact Hx|]. intros y. unfold row_ge, row_le. cbn. lia.
Qed.
End pages.

(** ** Totals add up *)

(** Every integer column is the sum of a value of each row. *)
Definition per_row (p : UsageRow → bool) (row : UsageRow) : Z := if p row then 1 else 0.
Definition value_when (p : UsageRow → bool) (f : UsageRow → option Z) (row : UsageRow) : Z :=
  if p row then int64Value (f row) else 0.

Definition row_columns : list (UsageRow → Z) :=
  [λ _, 1; per_row (status_in successful); per_row (status_in unsuccessful); per_row cache_hit_row; per_row ur_Stream;
   λ row, int64Value (ur_InputTokens row);
   λ row, Z.max (int64Value (ur_InputTokens row) - int64Value (ur_CachedRead row) - int64Value (ur_CachedWrite row)) 0;
   λ row, int64Value (ur_InputText row); λ row, int64Value (ur_InputAudio row); λ row, int64Value (ur_InputImage row);
   λ row, int64Value (ur_CachedRead row); λ row, int64Value (ur_CachedWrite row);
   λ row, int64Value (ur_OutputTokens row); λ row, int64Value (ur_OutputText row);
   λ row, int64Value (ur_OutputAudio row); λ row, int64Value (ur_Reasoning row);
   λ row, int64Value (ur_AcceptedPrediction row); λ row, int64Value (ur_RejectedPrediction row);
   λ row, int64Value (ur_TotalTokens row); value_when (λ row, negb (cache_hit_row row)) ur_TotalTokens;
   value_when cache_hit_row ur_TotalTokens; per_row (λ row, isSome (ur_TotalCostNanoUSD row));
   λ row, int64Value (ur_TotalCostNanoUSD row); ur_Attempts; ur_Retries; ur_Fallbacks].

Definition column_total (rows : list UsageRow) (f : UsageRow → Z) : Z := total_of (map f rows).

Lemma total_of_app l k : total_of (l ++ k) = total_of l + total_of k.
Proof. unfold total_of. induction l as [|x l IH]; cbn; lia. Qed.

#[export] Instance total_of_perm : Proper ((≡ₚ) ==> (=)) total_of.
Proof. intros l k Hp. unfold total_of. induction Hp; cbn; lia. Qed.

Lemma sum_column_total f rows : sum_column f rows = column_total rows (λ row, int64Value (f row)).
Proof.
  unfold sum_column, column_total, total_of. induction rows as [|r rows IH]; [done|]. cbn.
  destruct (f r); cbn; rewrite IH; lia.
Qed.

Lemma count_rows_total p rows : count_rows p rows = column_total rows (per_row p).
Proof.
  unfold count_rows, column_total, total_of, per_row. induction rows as [|r rows IH]; [done|]. cbn [map foldr].
  destruct (p r) eqn:Hp; [rewrite filter_cons_True by done|rewrite filter_cons_False by congruence]; cbn [length]; lia.
Qed.

Lemma sum_filter_total p b f rows :
  sum_column f (filter (λ row, p row = b) rows) = column_total rows (value_when (λ row, Bool.eqb (p row) b) f).
Proof.
  rewrite sum_column_total. unfold column_total, total_of, value_when. induction rows as [|r rows IH]; [done|].
  cbn [map foldr]. destruct (p r) eqn:Hp, b;
    [rewrite filter_cons_True by done|rewrite filter_cons_False by congruence
    |rewrite filter_cons_False by congruence|rewrite filter_cons_True by done]; cbn; lia.
Qed.

Lemma column_total_ext rows f g : (∀ row, f row = g row) → column_total rows f = column_total rows g.
Proof. intros Hfg. unfold column_total. f_equal. by apply map_ext. Qed.

Section totals_facts.
Context {F : Type} (average : list Z → F).

Lemma aggregate_columns group rows :
  aggregate_integers (aggregate_values average group rows) = map (column_total rows) row_columns.
Proof.
  unfold aggregate_integers, row_columns. cbn [map aggregate_values ag_Requests ag_SuccessfulRequests
    ag_FailedRequests ag_CacheHits ag_StreamedRequests ag_InputTokens ag_UncachedInputTokens ag_InputTextTokens
    ag_InputAudioTokens ag_InputImageTokens ag_CachedReadTokens ag_CachedWriteTokens ag_OutputTokens
    ag_OutputTextTokens ag_OutputAudioTokens ag_ReasoningTokens ag_AcceptedPrediction ag_RejectedPrediction
    ag_TotalTokens ag_BilledTokens ag_CacheSavedTokens ag_KnownCostRequests ag_TotalCostNanoUSD ag_Attempts
    ag_Retries ag_Fallbacks].
  rewrite !sum_filter_total, !count_rows_total, !sum_column_total.
  apply (f_equal2 cons).
  { unfold column_total, total_of. clear. induction rows as [|r rows IH]; cbn [length map foldr]; lia. }
  do 25 (apply (f_equal2 cons); [apply column_total_ext; intros row; unfold value_when; by destruct (cache_hit_row row)|]).
  done.
Qed.

Lemma grouped_total `{Collation} label rows f :
  total_of (map (λ g, column_total g.2 f) (grouped label rows)) = column_total rows f.
Proof.
  unfold grouped. rewrite map_map. cbn [snd]. rewrite merge_sort_Permutation.
  set (vs := remove_dups (map label rows)).
  assert (NoDup vs) as Hnd by apply NoDup_remove_dups.
  assert (∀ row, row ∈ rows → label row ∈ vs) as Hin.
  { intros row Hr. apply elem_of_remove_dups. by apply list_elem_of_fmap_2. }
  clearbody vs. induction rows as [|r rows IH]; cbn [filter].
  { clear. unfold column_total, total_of. induction vs as [|v vs IH]; [done|]. cbn in *. lia. }
  assert (∀ v, column_total (filter (λ row, label row = v) (r :: rows)) f =
    (if decide (label r = v) then f r else 0) + column_total (filter (λ row, label row = v) rows) f) as Hcons.
  { intros v. rewrite filter_cons. by destruct (decide (label r = v)). }
  erewrite (map_ext (λ v, column_total (filter (λ row, label row = v) (r :: rows)) f)) by exact Hcons.
  assert (∀ l (g h : string → Z), total_of (map (λ v, g v + h v) l) = total_of (map g l) + total_of (map h l)) as Hadd.
  { clear. intros l g h. unfold total_of. induction l as [|x l IHl]; cbn; lia. }
  rewrite Hadd, IH by (intros row Hr; apply Hin; by right).
  change (column_total (r :: rows) f) with (f r + column_total rows f). f_equal.
  specialize (Hin r (list_elem_of_here _ _)). clear -Hnd Hin. unfold total_of.
  induction Hnd as [|v vs Hv _ IH]; [by apply not_elem_of_nil in Hin|]. cbn.
  destruct (decide (label r = v)) as [E|Hne]; [subst v|].
  - assert (foldr Z.add 0 (map (λ v0, if decide (label r = v0) then f r else 0) vs) = 0) as ->; [|lia].
    clear IH Hin. induction vs as [|w vs IHv]; [done|]. rewrite not_elem_of_cons in Hv. destruct Hv as [Hw Hv]. cbn.
    rewrite decide_False by done. by rewrite IHv.
  - apply elem_of_cons in Hin as [|Hin]; [done|]. rewrite IH by done. lia.
Qed.

(** The integer columns of totals. *)
Definition totals_columns (t : Totals F) : list Z :=
  map (λ f, f t)
    [@tt_Requests F; @tt_SuccessfulRequests F; @tt_FailedRequests F; @tt_CacheHits F; @tt_StreamedRequests F;
     @tt_InputTokens F; @tt_UncachedInputTokens F; @tt_InputTextTokens F; @tt_InputAudioTokens F;
     @tt_InputImageTokens F; @tt_CachedReadTokens F; @tt_CachedWriteTokens F; @tt_OutputTokens F;
     @tt_OutputTextTokens F; @tt_OutputAudioTokens F; @tt_ReasoningTokens F; @tt_AcceptedPrediction F;
     @tt_RejectedPrediction F; @tt_TotalTokens F; @tt_BilledTokens F; @tt_CacheSavedTokens F;
     @tt_KnownCostRequests F; @tt_TotalCostNanoUSD F; @tt_Attempts F; @tt_Retries F; @tt_Fallbacks F].

Lemma aggregate_totals group rows row :
  aggregate average group rows = Some row →
  row = aggregate_values average group rows ∧
  totals_columns (totalsFromAggregate row) = map (column_total rows) row_columns.
Proof.
  unfold aggregate. destruct (forallb _ _); [|done]. intros [= <-]. split; [done|].
  rewrite <-(aggregate_columns group rows). done.
Qed.

(** Columns of several totals, added up one by one. *)
Definition add_columns (columns : list (list Z)) : list Z :=
  foldr (zip_with Z.add) (replicate (length row_columns) 0) columns.

Lemma add_columns_total (groups : list (string * list UsageRow)) :
  add_columns (map (λ g, map (column_total g.2) row_columns) groups) =
  map (λ f, total_of (map (λ g, column_total g.2 f) groups)) row_columns.
Proof.
  unfold add_columns. induction groups as [|g groups IH]; [done|]. cbn [map foldr]. rewrite IH. clear IH.
  induction row_columns as [|f fs IH]; [done|]. cbn [map zip_with]. by rewrite IH.
Qed.

Lemma column_total_add rows f g h :
  (∀ row, f row = g row + h row) → column_total rows f = column_total rows g + column_total rows h.
Proof.
  intros Hfg. unfold column_total, total_of. induction rows as [|r rows IH]; [done|]. cbn [map foldr].
  rewrite IH, Hfg. lia.
Qed.

Lemma column_total_nonneg rows f : (∀ row, 0 ≤ f row) → 0 ≤ column_total rows f.
Proof. intros Hf. unfold column_total, total_of. induction rows as [|r rows IH]; cbn; [lia|]. specialize (Hf r). lia. Qed.

Lemma valid_status row :
  validUsageStatus (ur_Status row) = true →
  1 = per_row (status_in successful) row + per_row (status_in unsuccessful) row.
Proof.
  intros Hv. unfold per_row, status_in. apply existsb_exists in Hv as (s & Hin & ->%String.eqb_eq).
  repeat (destruct Hin as [<-|Hin]; [reflexivity|]). done.
Qed.

Lemma aggregate_sums group rows row :
  aggregate average group rows = Some row →
  let t := totalsFromAggregate row in
  tt_Requests _ t = tt_KnownCostRequests _ t + tt_UnknownCostRequests _ t ∧
  tt_TotalTokens _ t = tt_BilledTokens _ t + tt_CacheSavedTokens _ t ∧
  0 ≤ tt_UncachedInputTokens _ t ∧
  (Forall (λ row, validUsageStatus (ur_Status row) = true) rows →
     tt_Requests _ t = tt_SuccessfulRequests _ t + tt_FailedRequests _ t).
Proof.
  intros Hagg. pose proof Hagg as Hrange. unfold aggregate in Hrange.
  destruct (forallb is_int64 _) eqn:Hr; [|done]. clear Hrange.
  destruct (aggregate_totals _ _ _ Hagg) as [-> _]. cbv zeta.
  cbn [totalsFromAggregate aggregate_values tt_Requests tt_KnownCostRequests tt_UnknownCostRequests tt_TotalTokens
    tt_BilledTokens tt_CacheSavedTokens tt_UncachedInputTokens tt_SuccessfulRequests tt_FailedRequests ag_Requests
    ag_KnownCostRequests ag_TotalTokens ag_BilledTokens ag_CacheSavedTokens ag_UncachedInputTokens
    ag_SuccessfulRequests ag_FailedRequests].
  split_and!.
  - rewrite wrap_int64_id; [lia|]. rewrite aggregate_columns in Hr. unfold row_columns in Hr. cbn [map forallb] in Hr.
    assert (column_total rows (λ _, 1) = Z.of_nat (length rows)) as E.
    { clear. unfold column_total, total_of. induction rows as [|r rows IH]; cbn [length map foldr]; lia. }
    apply andb_true_iff in Hr as [Hr _]. rewrite E in Hr. apply is_int64_spec in Hr.
    assert (0 ≤ count_rows (λ row, isSome (ur_TotalCostNanoUSD row)) rows ≤ Z.of_nat (length rows)).
    { unfold count_rows. pose proof (length_filter (λ row, isSome (ur_TotalCostNanoUSD row) = true) rows). lia. }
    unfold in_int64, int64_min, int64_max in *. lia.
  - rewrite !sum_filter_total, sum_column_total. apply column_total_add. intros row. unfold value_when.
    destruct (cache_hit_row row); cbn; lia.
  - rewrite sum_column_total. apply column_total_nonneg. intros row. cbn. lia.
  - intros Hv. rewrite !count_rows_total. clear Hagg Hr. unfold column_total, total_of.
    induction Hv as [|r rows Hr _ IH]; [done|]. cbn [length map foldr]. pose proof (valid_status r Hr). lia.
Qed.

(** The numbers of a dashboard add up. When a summary is grouped and not cut off,
    each of its integer totals is the sum of that total over the groups; the requests
    are those of known and of unknown cost, and those that succeeded and that failed;
    the tokens are those billed and those a cache saved; and the tokens not read from
    a cache are never negative. *)
Theorem summary_adds_up `{Unicode} `{Collation} rows groupBy allowTenant summary :
  summaryFromQuery average rows groupBy allowTenant true true = Ok summary →
  TrimSpace groupBy ≠ ""%string → sm_GroupsTruncated summary = false →
  let t := sm_Totals summary in
  totals_columns t = add_columns (map (λ g, totals_columns (gr_Totals g)) (sm_Groups summary)) ∧
  tt_Requests _ t = tt_KnownCostRequests _ t + tt_UnknownCostRequests _ t ∧
  tt_TotalTokens _ t = tt_BilledTokens _ t + tt_CacheSavedTokens _ t ∧
  0 ≤ tt_UncachedInputTokens _ t ∧
  (Forall (λ row, validUsageStatus (ur_Status row) = true) rows →
     tt_Requests _ t = tt_SuccessfulRequests _ t + tt_FailedRequests _ t).
Proof.
  intros Hs Hne Htr. cbv zeta. unfold summaryFromQuery in Hs.
  destruct (aggregate average "" rows) as [total|] eqn:Hagg; [|done].
  destruct (String.eqb_spec (TrimSpace groupBy) ""); [done|].
  destruct (groupColumn groupBy allowTenant) as [label|]; [|done]. cbn [negb] in Hs.
  cbn [mbind result_bind] in Hs. unfold aggregate_groups in Hs.
  destruct (mapM _ _) as [found|] eqn:Hm; [|done]. cbn [mbind result_bind] in Hs. injection Hs as <-.
  cbn [sm_Totals sm_Groups sm_GroupsTruncated] in *. rewrite Htr. apply Nat.ltb_ge in Htr.
  assert (Forall2 (λ g row, aggregate average g.1 g.2 = Some row) (grouped label rows) found) as Hf.
  { apply mapM_Some in Hm. pose proof (Forall2_length _ _ _ Hm) as Hlen. rewrite length_take in Hlen.
    rewrite take_ge in Hm by lia. exact Hm. }
  clear Hm Htr. destruct (aggregate_totals _ _ _ Hagg) as [Htot Hcols].
  assert (map (λ g, totals_columns (gr_Totals g)) (map group_of found) =
    map (λ g, map (column_total g.2) row_columns) (grouped label rows)) as ->.
  { rewrite map_map. clear -Hf. induction Hf as [|g row gs found Hg _ IH]; [done|].
    apply (f_equal2 cons); [|exact IH]. exact (proj2 (aggregate_totals _ _ _ Hg)). }
  split; [|by eapply aggregate_sums].
  rewrite Hcols, add_columns_total. apply map_ext. intros f. by rewrite grouped_total.
Qed.
End totals_facts.

(** ** Who sees what *)

Section isolation.
Context `{Scan} `{Collation}.

Lemma optional_match_empty s : optional_match "" s = true.
Proof. done. Qed.

(** What a page of one tenant holds. *)
Lemma listRows_sound test limit encoded read events rows hasMore :
  listRows test limit encoded read events = Ok (rows, hasMore) →
  (length rows ≤ 200)%nat ∧ ∀ row, row ∈ rows → test row = true ∧ ∃ id, events !! id = Some row.
Proof.
  unfold listRows, maximumPageLimit. set (n := if limit =? 0 then defaultPageLimit else limit).
  destruct ((n <? 1) || (200 <? n)) eqn:Hn; [done|].
  destruct (if (encoded =? "")%string then _ else _) as [cursor|]; [|done]. destruct read; [|done]. cbn [negb].
  set (L := list_rows test cursor events). intros [= <- <-].
  assert (∀ row, row ∈ (take (Z.to_nat n + 1) L).*2 → test row = true ∧ ∃ id, events !! id = Some row) as Hin.
  { intros row ([id r] & -> & Hr)%list_elem_of_fmap. apply elem_of_take in Hr as (i & Hi & _).
    apply list_elem_of_lookup_2, list_rows_elem in Hi as (? & ? & _). cbn. eauto. }
  destruct (Nat.ltb_spec (Z.to_nat n) (length (take (Z.to_nat n + 1) L).*2)) as [Hl|Hl].
  - split; [rewrite length_take; lia|]. intros row Hr. apply Hin. apply elem_of_take in Hr as (i & Hi & _).
    by apply list_elem_of_lookup_2 in Hi.
  - split; [lia|done].
Qed.

(** A tenant sees only its own requests. Every record of a list is the record of a
    stored row of the tenant that asked, within the time range and the other
    conditions of its filter, and a list has at most 200 of them; a platform list for
    one tenant shows the same rows. *)
Theorem list_isolated tenantID params now read events records next :
  Store_List tenantID params now read events = Ok (records, next) →
  (length records ≤ 200)%nat ∧ TrimSpace tenantID ≠ ""%string ∧
  ∃ filter, NormalizeQueryFilter (lp_Filter params) now = Ok filter ∧
    qf_Start filter < qf_End filter ∧ time_sub (qf_End filter) (qf_Start filter) ≤ maximumQueryWindow ∧
    (∀ record, record ∈ records → ∃ id row, events !! id = Some row ∧
       record = recordFromRow row (lp_IncludeRaw params) ∧ ur_TenantID row = TrimSpace tenantID ∧
       qf_Start filter ≤ ur_StartedAt row < qf_End filter ∧ base_matches filter row = true) ∧
    (str_len (TrimSpace tenantID) ≤ 64 →
       PlatformList tenantID params now read events =
         Ok (map (λ record, (TrimSpace tenantID, record)) records, next)).
Proof.
  unfold Store_List, PlatformList. intros Hl. apply result_bind_ok in Hl as (filter & Hf & Hl).
  apply result_bind_ok in Hl as (test & Ht & Hl). apply result_bind_ok in Hl as ([rows hasMore] & Hr & Hl).
  injection Hl as <- <-. unfold filteredQuery in Ht.
  destruct (String.eqb_spec (TrimSpace tenantID) "") as [|Hne]; [done|]. injection Ht as <-.
  destruct (listRows_sound _ _ _ _ _ _ _ Hr) as [Hlen Hin].
  assert (qf_Start filter < qf_End filter ∧ time_sub (qf_End filter) (qf_Start filter) ≤ maximumQueryWindow) as [Hse Hwin].
  { unfold NormalizeQueryFilter in Hf. destruct (first_error _) eqn:He; [done|].
    rewrite first_error_none in He. pose proof (Forall_lookup_1 _ _ 0 _ He eq_refl) as H1'.
    pose proof (Forall_lookup_1 _ _ 1 _ He eq_refl) as H2'. injection Hf as <-. cbn in *.
    unfold time_after in H1'. lia. }
  split; [by rewrite length_map|]. split; [done|]. exists filter. split_and!; [done|done|done| |].
  - intros record (row & -> & Hrow)%list_elem_of_fmap. destruct (Hin _ Hrow) as [Htest [id Hev]].
    apply andb_true_iff in Htest as [Hb Htn%String.eqb_eq]. exists id, row. split_and!; [done|done|done| | |done];
      unfold base_matches in Hb; rewrite !andb_true_iff in Hb; lia.
  - intros Hlen64. rewrite Hf. cbn [mbind result_bind]. unfold platformQuery.
    replace (64 <? str_len (TrimSpace tenantID)) with false by lia. cbn [mbind result_bind].
    assert (∀ row, (base_matches filter row && optional_match (TrimSpace tenantID) (ur_TenantID row)) =
      (base_matches filter row && (ur_TenantID row =? TrimSpace tenantID)%string)) as Hsame.
    { intros row. unfold optional_match. destruct (String.eqb_spec (TrimSpace tenantID) ""); [done|]. done. }
    rewrite (listRows_ext _ _ _ _ _ _ Hsame), Hr. cbn [mbind result_bind]. f_equal. f_equal. rewrite map_map.
    apply list_fmap_ext. intros i row Hi. apply list_elem_of_lookup_2 in Hi. destruct (Hin _ Hi) as [Htest _].
    apply andb_true_iff in Htest as [_ Htn%String.eqb_eq]. by rewrite Htn.
Qed.
End isolation.

(** ** Examples *)

Section query_examples.
#[local] Existing Instances bytewise key_order.
#[local] Instance no_unicode_lower : Unicode := λ s, s.

Example formatUSD_examples :
  map formatUSD [0; 1; 1500000000; 12000000000; 120] = ["0"; "0.000000001"; "1.5"; "12"; "0.00000012"]%string.
Proof. vm_compute. reflexivity. Qed.

Definition any_row (row : UsageRow) : bool := true.

Lemma demo_listable : listable any_row demo_events.
Proof.
  intros id row Hl. apply elem_of_map_to_list in Hl. revert Hl.
  assert (map_to_list demo_events ≡ₚ
    [("use_a"%string, demo_row "use_a" demo_time); ("use_b"%string, demo_row "use_b" (demo_time + 1));
     ("use_c"%string, demo_row "use_c" (demo_time + 1))]) as ->.
  { unfold demo_events. apply map_to_list_to_map. apply (bool_decide_unpack _). vm_compute. exact I. }
  rewrite !elem_of_cons. intros [[= -> ->]|[[= -> ->]|[[= -> ->]|[]%not_elem_of_nil]]];
    (split; [reflexivity|]; intros _; apply cursor_roundtrip;
     [vm_compute; reflexivity|vm_compute; reflexivity|split; vm_compute; [reflexivity|discriminate]]).
Qed.

Lemma pages_complete_witness :
  ∃ rows, walk 4 any_row 2 "" demo_events = Some rows ∧ map ur_EventID rows = ["use_c"; "use_b"; "use_a"]%string ∧
    NoDup (map ur_EventID rows).
Proof.
  destruct (pages_complete any_row 2 demo_events demo_listable ltac:(unfold maximumPageLimit; lia)) as (rows & Hw & Hnd & _).
  assert (S (length (list_rows any_row None demo_events)) = 4%nat) as E by (vm_compute; reflexivity).
  rewrite E in Hw. exists rows. split; [exact Hw|]. split; [|exact Hnd].
  assert (option_map (map ur_EventID) (walk 4 any_row 2 "" demo_events) = Some ["use_c"; "use_b"; "use_a"]%string) as Hids
    by (vm_compute; reflexivity).
  rewrite Hw in Hids. injection Hids as Hids. exact Hids.
Defined.

Definition demo_query : ListParams :=
  {| lp_Filter := {| qf_Start := demo_time; qf_End := demo_time + hour; qf_Model := ""; qf_ProviderID := " p";
       qf_APIKeyID := ""; qf_RequestID := ""; qf_Status := "success"; qf_CacheStatus := ""; qf_Stream := Some false |};
     lp_Limit := 2; lp_Cursor := ""; lp_IncludeRaw := true |}.

Lemma list_isolated_witness :
  ∃ records next, Store_List "t " demo_query demo_time true demo_events = Ok (records, next) ∧
    (length records ≤ 200)%nat ∧ map rc_EventID records = ["use_c"; "use_b"]%string.
Proof.
  destruct (Store_List "t " demo_query demo_time true demo_events) as [[records next]|e] eqn:Hl.
  - exists records, next. split; [reflexivity|].
    split; [exact (proj1 (list_isolated _ _ _ _ _ _ _ Hl))|].
    assert (match Store_List "t " demo_query demo_time true demo_events with
            | Ok r => map rc_EventID r.1 | Err _ => [] end = ["use_c"; "use_b"]%string) as Hids by (vm_compute; reflexivity).
    rewrite Hl in Hids. exact Hids.
  - exfalso. assert (is_ok (Store_List "t " demo_query demo_time true demo_events) = true) as Hok by (vm_compute; reflexivity).
    rewrite Hl in Hok. discriminate.
Defined.

Definition no_average (l : list Z) : unit := tt.
Definition demo_summary_rows : list UsageRow := [demo_row "use_a" demo_time; demo_row "use_b" (demo_time + 1)].

Lemma summary_adds_up_witness :
  ∃ summary, summaryFromQuery no_average demo_summary_rows "model" false true true = Ok summary ∧
    tt_Requests _ (sm_Totals summary) = tt_KnownCostRequests _ (sm_Totals summary) + tt_UnknownCostRequests _ (sm_Totals summary).
Proof.
  destruct (summaryFromQuery no_average demo_summary_rows "model" false true true) as [summary|e] eqn:Hs.
  - exists summary. split; [reflexivity|].
    assert (sm_GroupsTruncated summary = false) as Htr.
    { assert (match summaryFromQuery no_average demo_summary_rows "model" false true true with
        | Ok s => sm_GroupsTruncated s | Err _ => true end = false) as Ht by (vm_compute; reflexivity).
      rewrite Hs in Ht. exact Ht. }
    exact (proj1 (proj2 (summary_adds_up no_average demo_summary_rows "model" false summary Hs ltac:(vm_compute; discriminate) Htr))).
  - exfalso. assert (is_ok (summaryFromQuery no_average demo_summary_rows "model" false true true) = true) as Hok
      by (vm_compute; reflexivity).
    rewrite Hs in Hok. discriminate.
Defined.
End query_examples.
