(* ===== verification/Outbox.v ===== *)
(** * The outbox of usage events

    Models the emitter of [src/internal/usage/outbox.go]: it records the beginning
    and the end of a request in the table [usage_outbox], in batches that concurrent
    requests share. The relay is in Relay.v.

    The payload column is a [jsonb]: what is read back is PostgreSQL's text of the
    same value, a parameter with this law ([Jsonb]). *)

From S2P Require Import Prelude Encoding Json JsonWrite BigRat Calendar Usage UsageJson Pricing UsageStore.

(** ** The payload column *)

(** [jsonb]: the text that is read back for a text that was stored, or [None] for
    a text the column refuses. It denotes the same event: all members but the raw
    usage data, which may be another text of the same value. *)
Class Jsonb := {
  jsonb : string → option string;
  jsonb_event : ∀ payload text event,
    jsonb payload = Some text → json_event payload = Some event →
    ∃ raw, json_event text = Some (e_with_raw raw event) ∧
      (raw_ok (raw_of event) → raw_ok raw);
}.

(** ** Lifecycles *)

Record PendingEvent := {
  pe_EventID : string;
  pe_RequestID : string;
  pe_TenantID : string;
  pe_APIKeyID : string;
  pe_RequestedModel : string;
  pe_Stream : bool;
  pe_StartedAt : Time;
}.

Definition validatePendingEvent (event : PendingEvent) : option UsageError :=
  first_error
    [(negb (validRequiredText (pe_EventID event) 64), usage_error "pending usage event ID is invalid");
     (negb (validRequiredText (pe_RequestID event) 128), usage_error "pending usage request ID is invalid");
     (negb (validRequiredText (pe_TenantID event) 128), usage_error "pending usage tenant ID is invalid");
     (negb (validRequiredText (pe_APIKeyID event) 64), usage_error "pending usage API key ID is invalid");
     (negb (validRequiredText (pe_RequestedModel event) 200), usage_error "pending usage model is invalid");
     (time_is_zero (pe_StartedAt event), usage_error "pending usage start time is required")].

(** What is sent to the goroutine that writes: the columns of a row, and whether it
    finishes the lifecycle. The columns that the database layer fills are zero. *)
Record durableWrite := { dw_record : UsageOutbox; dw_ready : bool }.

Definition new_row (id request tenant key model : string) (stream : bool) (state : OutboxState)
    (payload : option string) (started : Time) : UsageOutbox :=
  {| ob_EventID := id; ob_RequestID := request; ob_TenantID := tenant; ob_APIKeyID := key;
     ob_RequestedModel := model; ob_Stream := stream; ob_State := state; ob_Payload := payload;
     ob_StartedAt := started; ob_CreatedAt := 0; ob_UpdatedAt := 0; ob_PublishedAt := None |}.

(** [Begin] and [Emit], up to the channel. *)
Definition Begin (pending : PendingEvent) : result UsageError durableWrite :=
  match validatePendingEvent pending with
  | Some e => Err e
  | None =>
      Ok {| dw_record := new_row (pe_EventID pending) (pe_RequestID pending) (pe_TenantID pending)
              (pe_APIKeyID pending) (pe_RequestedModel pending) (pe_Stream pending) UsageOutboxPending None
              (pe_StartedAt pending);
            dw_ready := false |}
  end.

Definition Emit (event : UsageEvent) : result UsageError durableWrite :=
  payload ← Marshal event;
  Ok {| dw_record := new_row (e_EventID event) (e_RequestID event) (e_TenantID event) (e_APIKeyID event)
          (e_RequestedModel event) (e_Stream event) UsageOutboxReady (Some payload) (e_StartedAt event);
        dw_ready := true |}.

(** ** The table *)

Abbreviation Outbox := (gmap string UsageOutbox).

(** A row as it is inserted: the layer sets both times. *)
Definition stamped (now : Time) (row : UsageOutbox) : UsageOutbox :=
  {| ob_EventID := ob_EventID row; ob_RequestID := ob_RequestID row; ob_TenantID := ob_TenantID row;
     ob_APIKeyID := ob_APIKeyID row; ob_RequestedModel := ob_RequestedModel row; ob_Stream := ob_Stream row;
     ob_State := ob_State row; ob_Payload := ob_Payload row; ob_StartedAt := ob_StartedAt row;
     ob_CreatedAt := now; ob_UpdatedAt := now; ob_PublishedAt := ob_PublishedAt row |}.

(** The columns an upsert or an update assigns. *)
Definition assigned (payload : option string) (state : OutboxState) (published : option Time) (now : Time)
    (row : UsageOutbox) : UsageOutbox :=
  {| ob_EventID := ob_EventID row; ob_RequestID := ob_RequestID row; ob_TenantID := ob_TenantID row;
     ob_APIKeyID := ob_APIKeyID row; ob_RequestedModel := ob_RequestedModel row; ob_Stream := ob_Stream row;
     ob_State := state; ob_Payload := payload; ob_StartedAt := ob_StartedAt row;
     ob_CreatedAt := ob_CreatedAt row; ob_UpdatedAt := now; ob_PublishedAt := published |}.

(** [INSERT ... ON CONFLICT (event_id) DO NOTHING]. *)
Definition insert_pending (now : Time) (outbox : Outbox) (row : UsageOutbox) : Outbox :=
  match outbox !! ob_EventID row with
  | Some _ => outbox
  | None => <[ob_EventID row := stamped now row]> outbox
  end.

(** [INSERT ... ON CONFLICT (event_id) DO UPDATE SET payload, state, published_at,
    updated_at]. *)
Definition upsert_ready (now : Time) (outbox : Outbox) (row : UsageOutbox) : Outbox :=
  <[ob_EventID row :=
      match outbox !! ob_EventID row with
      | Some old => assigned (ob_Payload row) (ob_State row) (ob_PublishedAt row) now old
      | None => stamped now row
      end]> outbox.

Section emitter.
Context `{Jsonb}.

Definition with_payload (row : UsageOutbox) (payload : option string) : UsageOutbox :=
  new_row (ob_EventID row) (ob_RequestID row) (ob_TenantID row) (ob_APIKeyID row) (ob_RequestedModel row)
    (ob_Stream row) (ob_State row) payload (ob_StartedAt row).

(** The payload as the column stores it; [None]: the column refuses it. *)
Definition stored_row (row : UsageOutbox) : option UsageOutbox :=
  match ob_Payload row with
  | None => Some row
  | Some payload => text ← jsonb payload; Some (with_payload row (Some text))
  end.

(** One statement; it fails as a whole. A statement that would update a row twice is
    refused by the database. *)
Definition writePending (now : Time) (records : list UsageOutbox) (answer : DbAnswer) (outbox : Outbox)
  : bool * Outbox :=
  match records with
  | [] => (true, outbox)
  | _ => (negb (db_failed answer), after answer (λ o, foldl (insert_pending now) o records) outbox)
  end.

Definition writeReady (now : Time) (records : list UsageOutbox) (answer : DbAnswer) (outbox : Outbox)
  : bool * Outbox :=
  match records with
  | [] => (true, outbox)
  | _ =>
      match mapM stored_row records with
      | None => (false, outbox)
      | Some rows =>
          if bool_decide (NoDup (map ob_EventID rows))
          then (negb (db_failed answer), after answer (λ o, foldl (upsert_ready now) o rows) outbox)
          else (false, outbox)
      end
  end.

(** How the two statements of a batch are answered, and when they run. *)
Record BatchEnv := { be_pending_at : Time; be_pending : DbAnswer; be_ready_at : Time; be_ready : DbAnswer }.

(** [writeBatch]: the answer that each request of the batch is sent. *)
Definition writeBatch (env : BatchEnv) (batch : list durableWrite) (outbox : Outbox) : list bool * Outbox :=
  let pending := map dw_record (filter (λ w, dw_ready w = false) batch) in
  let ready := map dw_record (filter (λ w, dw_ready w = true) batch) in
  let '(pendingOk, outbox) := writePending (be_pending_at env) pending (be_pending env) outbox in
  let '(readyOk, outbox) := writeReady (be_ready_at env) ready (be_ready env) outbox in
  (map (λ w, if dw_ready w then readyOk else pendingOk) batch, outbox).
End emitter.

(** ** The emitter's goroutine

    Requests send their writes over a channel of [durableEmitterQueueSize]; each
    waits for its answer. The goroutine takes writes out of the channel into a batch
    and writes the batch. [em_answers] is what has been sent back, by ticket. *)

Definition durableEmitterBatchSize : nat := 100.
Definition durableEmitterQueueSize : nat := 4096.

Record EmitterState := {
  em_queue : list (nat * durableWrite);
  em_batch : list (nat * durableWrite);
  em_closed : bool;
  em_done : bool;
  em_answers : gmap nat bool;
  em_outbox : Outbox;
}.

Inductive EnqueueResult := Enqueued | EmitterClosed | QueueFull.

(** [enqueue], up to the point where the write is in the channel or the attempt is
    given up. *)
Definition enqueue (ticket : nat) (write : durableWrite) (s : EmitterState) : EnqueueResult * EmitterState :=
  if em_closed s || em_done s then (EmitterClosed, s)
  else if (length (em_queue s) <? durableEmitterQueueSize)%nat
  then (Enqueued, {| em_queue := em_queue s ++ [(ticket, write)]; em_batch := em_batch s;
                     em_closed := em_closed s; em_done := em_done s; em_answers := em_answers s;
                     em_outbox := em_outbox s |})
  else (QueueFull, s).

Definition Close (s : EmitterState) : EmitterState :=
  {| em_queue := em_queue s; em_batch := em_batch s; em_closed := true; em_done := em_done s;
     em_answers := em_answers s; em_outbox := em_outbox s |}.

Section goroutine.
Context `{Jsonb}.

(** One receive of [run] or [collect]: the next write joins the batch. *)
Definition receive (s : EmitterState) : EmitterState :=
  {| em_queue := drop 1 (em_queue s); em_batch := em_batch s ++ take 1 (em_queue s);
     em_closed := em_closed s; em_done := em_done s; em_answers := em_answers s; em_outbox := em_outbox s |}.

(** The batch is written and its requests are answered. *)
Definition run_batch (env : BatchEnv) (s : EmitterState) : EmitterState :=
  let '(answers, outbox) := writeBatch env (map snd (em_batch s)) (em_outbox s) in
  {| em_queue := em_queue s; em_batch := []; em_closed := em_closed s; em_done := em_done s;
     em_answers := foldl (λ m a, <[a.1 := a.2]> m) (em_answers s) (zip (map fst (em_batch s)) answers);
     em_outbox := outbox |}.

(** [collect] while stopping: all that is there, up to a batch. *)
Definition collect_stopping (s : EmitterState) : EmitterState :=
  Nat.iter (Nat.min (length (em_queue s)) durableEmitterBatchSize) receive s.

(** [drain]: while stopping, batches are collected as long as writes are there. *)
Fixpoint drain (fuel : nat) (envs : nat → BatchEnv) (s : EmitterState) : option EmitterState :=
  match fuel with
  | O => None
  | S fuel =>
      match em_queue s with
      | [] => Some {| em_queue := []; em_batch := em_batch s; em_closed := em_closed s; em_done := true;
                      em_answers := em_answers s; em_outbox := em_outbox s |}
      | _ :: _ => drain fuel (λ n, envs (S n)) (run_batch (envs O) (collect_stopping s))
      end
  end.

(** Requests send and the emitter is closed at any time. [run] receives a first
    write and [collect] further ones, until the batch is full, its timer fires or the
    emitter is stopped; or [run], between two batches, sees the emitter stopped and
    drains. *)
Inductive emitter_step : EmitterState → EmitterState → Prop :=
| step_enqueue ticket write s s' :
    em_answers s !! ticket = None → ticket ∉ (em_batch s ++ em_queue s).*1 →
    enqueue ticket write s = (Enqueued, s') → emitter_step s s'
| step_close s : emitter_step s (Close s)
| step_receive s :
    em_done s = false → em_queue s ≠ [] → (length (em_batch s) < durableEmitterBatchSize)%nat →
    emitter_step s (receive s)
| step_batch env s :
    em_done s = false → em_batch s ≠ [] → emitter_step s (run_batch env s)
| step_drain fuel envs s s' :
    em_closed s = true → em_done s = false → em_batch s = [] → drain fuel envs s = Some s' →
    emitter_step s s'.
End goroutine.

(** ** The emitter answers every request *)

Section emitter_facts.
Context `{Jsonb}.

Lemma writeBatch_length env batch outbox : length (writeBatch env batch outbox).1 = length batch.
Proof. unfold writeBatch. destruct (writePending _ _ _ _), (writeReady _ _ _ _). cbn. by rewrite length_map. Qed.

Lemma record_answers (l : list (nat * bool)) (m : gmap nat bool) t :
  is_Some (foldl (λ m a, <[a.1 := a.2]> m) m l !! t) ↔ is_Some (m !! t) ∨ t ∈ l.*1.
Proof.
  revert m. induction l as [|[u b] l IH]; intros m; cbn [foldl fmap list_fmap fst].
  - rewrite elem_of_nil. tauto.
  - rewrite IH, elem_of_cons, lookup_insert_is_Some. cbn. destruct (decide (u = t)); naive_solver.
Qed.

(** The requests that wait for an answer, and those that have one. *)
Definition waiting (s : EmitterState) (t : nat) : Prop := t ∈ (em_batch s ++ em_queue s).*1.
Definition answered (s : EmitterState) (t : nat) : Prop := is_Some (em_answers s !! t).

Lemma receive_waiting s : em_batch (receive s) ++ em_queue (receive s) = em_batch s ++ em_queue s.
Proof. cbn. by rewrite <-app_assoc, take_drop. Qed.

Lemma run_batch_answers env s t :
  waiting (run_batch env s) t ∨ answered (run_batch env s) t ↔ waiting s t ∨ answered s t.
Proof.
  unfold run_batch. pose proof (writeBatch_length env (map snd (em_batch s)) (em_outbox s)) as Hlen.
  destruct (writeBatch env _ _) as [answers outbox]. cbn in Hlen.
  unfold waiting, answered. cbn [em_queue em_batch em_answers app]. rewrite record_answers, fst_zip.
  - rewrite fmap_app, elem_of_app. change (map fst (em_batch s)) with ((em_batch s).*1). tauto.
  - rewrite Hlen, !length_map. done.
Qed.

Lemma collect_stopping_spec s :
  let s' := collect_stopping s in
  em_batch s' ++ em_queue s' = em_batch s ++ em_queue s ∧
  em_answers s' = em_answers s ∧ em_closed s' = em_closed s ∧
  (em_queue s ≠ [] → length (em_queue s') < length (em_queue s))%nat.
Proof.
  cbv zeta. unfold collect_stopping.
  assert (∀ n, let s' := Nat.iter n receive s in
    em_batch s' ++ em_queue s' = em_batch s ++ em_queue s ∧ em_answers s' = em_answers s ∧
    em_closed s' = em_closed s ∧ em_queue s' = drop n (em_queue s)) as Hn.
  { intros n. cbv zeta. induction n as [|n (IH1 & IH2 & IH3 & IH4)]; [done|]. rewrite Nat.iter_succ.
    rewrite receive_waiting. split_and!; [done|done|done|]. cbn [receive em_queue]. rewrite IH4, drop_drop.
    by rewrite Nat.add_1_r. }
  destruct (Hn (Nat.min (length (em_queue s)) durableEmitterBatchSize)) as (H1 & H2 & H3 & H4).
  split_and!; [done|done|done|]. intros Hq. rewrite H4, length_drop.
  destruct (em_queue s); [done|]. unfold durableEmitterBatchSize. cbn [length]. lia.
Qed.

Lemma drain_total fuel envs s : (length (em_queue s) < fuel)%nat → ∃ s', drain fuel envs s = Some s'.
Proof.
  revert envs s. induction fuel as [|fuel IH]; intros envs s Hf; [lia|]. cbn [drain].
  destruct (em_queue s) as [|w queue] eqn:Hq; [by eexists|]. apply IH.
  destruct (collect_stopping_spec s) as (_ & _ & _ & Hlt). rewrite Hq in Hlt.
  unfold run_batch. destruct (writeBatch _ _ _). cbn [em_queue]. specialize (Hlt ltac:(done)). cbn in *. lia.
Qed.

Lemma drain_answers fuel envs s s' :
  em_batch s = [] → drain fuel envs s = Some s' →
  em_done s' = true ∧ em_closed s' = em_closed s ∧ em_batch s' ++ em_queue s' = [] ∧
  ∀ t, waiting s t ∨ answered s t ↔ answered s' t.
Proof.
  revert envs s. induction fuel as [|fuel IH]; intros envs s Hb; [done|]. cbn [drain].
  destruct (em_queue s) as [|w queue] eqn:Hq.
  { intros [= <-]. cbn. rewrite Hb. split_and!; [done|done|done|]. intros t. unfold waiting, answered.
    rewrite Hq, Hb. cbn. rewrite elem_of_nil. tauto. }
  destruct (collect_stopping_spec s) as (H1 & H2 & H3 & _).
  intros (Hd & Hcl & Hq' & Ht)%IH; [|by unfold run_batch; destruct (writeBatch _ _ _)].
  split_and!; [done| |done|].
  - rewrite Hcl. unfold run_batch. by destruct (writeBatch _ _ _).
  - intros t. rewrite <-Ht, run_batch_answers. unfold waiting, answered. by rewrite H1, H2.
Qed.

Definition settled (s : EmitterState) : Prop := em_done s = true → em_batch s ++ em_queue s = [].

Lemma emitter_step_kept s s' :
  emitter_step s s' → settled s →
  settled s' ∧ ∀ t, waiting s t ∨ answered s t → waiting s' t ∨ answered s' t.
Proof.
  unfold settled.
  intros [ticket write s0 s0' _ _ He|s0|s0 Hd Hq Hl|env s0 Hd Hq|fuel envs s0 s0' Hc Hd Hb Hr] Hinv.
  - unfold enqueue in He. destruct (em_closed s0 || em_done s0) eqn:Hc; [done|].
    apply orb_false_iff in Hc as [Hc Hdn]. destruct (_ <? _)%nat; [|done]. injection He as <-.
    unfold waiting, answered. cbn. split; [congruence|]. intros t [Ht|Ht]; [|by right]. left.
    rewrite app_assoc, fmap_app, elem_of_app. by left.
  - unfold waiting, answered. cbn. auto.
  - split; [rewrite receive_waiting; done|]. intros t. unfold waiting, answered. by rewrite receive_waiting.
  - split; [unfold run_batch; destruct (writeBatch _ _ _); cbn; congruence|].
    intros t. by rewrite run_batch_answers.
  - apply drain_answers in Hr as (Hdn & Hcl & Hq & Ht); [|done]. split; [done|].
    intros t Hs. right. by apply Ht.
Qed.

(** No request waits for ever. Whatever the goroutine, the requests and the
    closing of the emitter do and in whatever order, a write that was accepted is
    still on its way or has been answered, and once the emitter is done all have
    been; and an emitter that is closed can always finish: between two batches it
    drains its queue in at most one round more than there are writes, answers every
    one of them, and then refuses every new one. *)
Theorem emitter_answers_all s s' envs :
  settled s → rtc emitter_step s s' →
  (∀ t, waiting s t ∨ answered s t → waiting s' t ∨ answered s' t) ∧
  (em_done s' = true → ∀ t, waiting s t ∨ answered s t → answered s' t) ∧
  (em_closed s' = true → em_done s' = false → em_batch s' = [] → ∃ s'',
     drain (S (length (em_queue s'))) envs s' = Some s'' ∧ em_done s'' = true ∧
     (∀ t, waiting s t ∨ answered s t → answered s'' t) ∧
     ∀ ticket write, enqueue ticket write s'' = (EmitterClosed, s'')).
Proof.
  intros Hinv Hsteps.
  assert (settled s' ∧ ∀ t, waiting s t ∨ answered s t → waiting s' t ∨ answered s' t) as [Hinv' Ht].
  { induction Hsteps as [|s s1 s' Hstep _ IH]; [done|].
    destruct (emitter_step_kept _ _ Hstep Hinv) as (Hinv1 & H1). destruct (IH Hinv1) as [? H2]. auto. }
  split; [done|]. split.
  - intros Hd t Hs. destruct (Ht t Hs) as [Hin|]; [|done]. unfold waiting in Hin. rewrite (Hinv' Hd) in Hin.
    by apply elem_of_nil in Hin.
  - intros Hc Hd Hb. destruct (drain_total (S (length (em_queue s'))) envs s' ltac:(lia)) as (s'' & Hr).
    exists s''. split; [done|]. apply drain_answers in Hr as (Hdn & Hcl & Hq & Ht'); [|done].
    split_and!; [done| |].
    + intros t Hs. apply Ht'. by apply Ht.
    + intros ticket write. unfold enqueue. by rewrite Hcl, Hc.
Qed.
End emitter_facts.

(** ** What a row goes through

    A row keeps its identity for as long as it is in the table, and never returns
    to the state of a request that has not ended. *)

Record row_kept (a b : UsageOutbox) : Prop := {
  rk_id : ob_EventID b = ob_EventID a;
  rk_request : ob_RequestID b = ob_RequestID a;
  rk_tenant : ob_TenantID b = ob_TenantID a;
  rk_key : ob_APIKeyID b = ob_APIKeyID a;
  rk_model : ob_RequestedModel b = ob_RequestedModel a;
  rk_stream : ob_Stream b = ob_Stream a;
  rk_started : ob_StartedAt b = ob_StartedAt a;
  rk_state : ob_State a ≠ UsageOutboxPending → ob_State b ≠ UsageOutboxPending;
}.

#[export] Instance row_kept_preorder : PreOrder row_kept.
Proof. split; [intros a; by constructor|]. intros a b c [] []. constructor; try congruence. auto. Qed.

Definition outbox_le (o o' : Outbox) : Prop :=
  ∀ id row, o !! id = Some row → ∃ row', o' !! id = Some row' ∧ row_kept row row'.

#[export] Instance outbox_le_preorder : PreOrder outbox_le.
Proof.
  split; [intros a id row; by exists row|]. intros a b c Hab Hbc id row (row1 & H1 & Hk1)%Hab.
  destruct (Hbc _ _ H1) as (row2 & H2 & Hk2). exists row2. split; [done|]. by etrans.
Qed.

(** The rows stand under their ids. *)
Definition keyed (o : Outbox) : Prop := ∀ id row, o !! id = Some row → ob_EventID row = id.

Lemma insert_row_le (o : Outbox) id row :
  (∀ old, o !! id = Some old → row_kept old row) → outbox_le o (<[id := row]> o).
Proof.
  intros Hr k old Hk. destruct (decide (k = id)) as [->|Hne].
  - exists row. rewrite lookup_insert_eq. auto.
  - exists old. by rewrite lookup_insert_ne.
Qed.

Lemma insert_row_keyed (o : Outbox) id row : ob_EventID row = id → keyed o → keyed (<[id := row]> o).
Proof. intros Hr Hk k r. rewrite lookup_insert_Some. intros [[<- <-]|[_ Hl]]; [done|by apply Hk]. Qed.

Lemma after_cases {S} answer (f : S → S) s :
  after answer f s = s ∧ answer = Refused ∨ after answer f s = f s ∧ answer ≠ Refused.
Proof. destruct answer; cbn; auto. Qed.

Lemma assigned_kept payload state published now row :
  state ≠ UsageOutboxPending → row_kept row (assigned payload state published now row).
Proof. by constructor. Qed.

Lemma insert_pending_le now o row : outbox_le o (insert_pending now o row).
Proof. unfold insert_pending. destruct (o !! _) eqn:Hl; [done|]. apply insert_row_le. congruence. Qed.

Lemma insert_pending_keyed now o row : keyed o → keyed (insert_pending now o row).
Proof. unfold insert_pending. destruct (o !! _) eqn:Hl; [done|]. by apply insert_row_keyed. Qed.

Lemma insert_pending_there now o row : is_Some (insert_pending now o row !! ob_EventID row).
Proof. unfold insert_pending. destruct (o !! _) eqn:Hl; [by rewrite Hl|]. rewrite lookup_insert_eq. eauto. Qed.

Lemma upsert_ready_le now o row : ob_State row ≠ UsageOutboxPending → outbox_le o (upsert_ready now o row).
Proof. intros Hs. apply insert_row_le. intros old ->. by apply assigned_kept. Qed.

Lemma upsert_ready_keyed now o row : keyed o → keyed (upsert_ready now o row).
Proof.
  intros Hk. apply insert_row_keyed; [|done]. destruct (o !! _) as [old|] eqn:Hl; [|done]. by apply Hk in Hl.
Qed.

(** A property that every step of a fold keeps. *)
Lemma foldl_kept {A B} (P : A → Prop) (f : A → B → A) (l : list B) a :
  P a → (∀ a b, b ∈ l → P a → P (f a b)) → P (foldl f a l).
Proof.
  revert a. induction l as [|b l IH]; intros a Ha Hf; [done|]. cbn [foldl]. apply IH.
  - apply Hf; [by left|done].
  - intros x y Hy. apply Hf. by right.
Qed.

Lemma foldl_outbox_le {B} (f : Outbox → B → Outbox) l o :
  (∀ o b, b ∈ l → outbox_le o (f o b)) → outbox_le o (foldl f o l).
Proof.
  intros Hf. apply (foldl_kept (outbox_le o)); [done|]. intros a b Hb Ha. etrans; [exact Ha|]. by apply Hf.
Qed.

Section writes.
Context `{Jsonb}.

(** What requests send. *)
Definition sent (write : durableWrite) : Prop :=
  (∃ pending, Begin pending = Ok write) ∨ (∃ event, Emit event = Ok write).

Lemma Emit_sent event write :
  Emit event = Ok write →
  dw_ready write = true ∧ ob_EventID (dw_record write) = e_EventID event ∧
  ob_State (dw_record write) = UsageOutboxReady ∧
  ∃ payload, Marshal event = Ok payload ∧ ob_Payload (dw_record write) = Some payload.
Proof. unfold Emit. destruct (Marshal event) as [payload|]; [|done]. intros [= <-]. cbn. split_and!; [done..|]. by exists payload. Qed.

Lemma Begin_sent pending write :
  Begin pending = Ok write → dw_ready write = false ∧ ob_EventID (dw_record write) = pe_EventID pending.
Proof. unfold Begin. destruct (validatePendingEvent pending); [done|]. by intros [= <-]. Qed.

Lemma sent_ready write : sent write → dw_ready write = true →
  ob_State (dw_record write) = UsageOutboxReady ∧ is_Some (ob_Payload (dw_record write)).
Proof.
  intros [[p Hp]|[e He]] Hr.
  - apply Begin_sent in Hp as [Hp _]. congruence.
  - apply Emit_sent in He as (_ & _ & Hs & payload & _ & Hp). rewrite Hp. eauto.
Qed.

Lemma stored_row_spec row row' :
  stored_row row = Some row' → ob_EventID row' = ob_EventID row ∧ ob_State row' = ob_State row ∧
  (∀ payload, ob_Payload row = Some payload → ∃ text, jsonb payload = Some text ∧ ob_Payload row' = Some text).
Proof.
  unfold stored_row. destruct (ob_Payload row) as [payload|] eqn:Hp; cbn.
  - destruct (jsonb payload) as [text|] eqn:Hj; cbn; [|done]. intros [= <-]. cbn. split_and!; [done|done|].
    intros ? [= <-]. eauto.
  - intros [= <-]. split_and!; [done|done|congruence].
Qed.

(** Ready rows of distinct ids are all there after an upsert of several. *)
Lemma upsert_all now rows o :
  NoDup (map ob_EventID rows) → Forall (λ row, ob_State row ≠ UsageOutboxPending) rows →
  let o' := foldl (upsert_ready now) o rows in
  outbox_le o o' ∧ (keyed o → keyed o') ∧
  ∀ row, row ∈ rows → ∃ row', o' !! ob_EventID row = Some row' ∧ ob_State row' = ob_State row ∧
    ob_Payload row' = ob_Payload row.
Proof.
  intros Hnd Hst. cbv zeta. split; [|split].
  - apply foldl_outbox_le. intros o1 b Hb. apply upsert_ready_le. by apply (proj1 (Forall_forall _ _) Hst).
  - intros Hk. apply (foldl_kept keyed); [done|]. intros a b _. apply upsert_ready_keyed.
  - revert o Hnd Hst. induction rows as [|r rows IH]; intros o Hnd Hst row Hr; [by apply not_elem_of_nil in Hr|].
    cbn [foldl map] in *. apply NoDup_cons in Hnd as [Hnotin Hnd]. apply Forall_cons in Hst as [Hs Hst].
    apply elem_of_cons in Hr as [->|Hr]; [|by apply IH].
    clear IH. apply (foldl_kept (λ o', ∃ row', o' !! ob_EventID r = Some row' ∧
      ob_State row' = ob_State r ∧ ob_Payload row' = ob_Payload r)).
    + unfold upsert_ready. rewrite lookup_insert_eq. destruct (o !! _); by eexists.
    + intros a b Hb (row' & Hl & Hrest). exists row'. split; [|done]. unfold upsert_ready.
      rewrite lookup_insert_ne; [done|]. intros Heq. apply Hnotin. rewrite <-Heq. by apply list_elem_of_fmap_2.
Qed.

Lemma stored_rows_ready rows rows' :
  mapM stored_row rows = Some rows' → Forall (λ row, ob_State row ≠ UsageOutboxPending) rows →
  Forall (λ row, ob_State row ≠ UsageOutboxPending) rows'.
Proof.
  intros Hm%mapM_Some Hst. induction Hm as [|x y l l' Hxy _ IH]; [done|]. apply Forall_cons in Hst as [Hx Hst].
  apply stored_row_spec in Hxy as (_ & Hs & _). constructor; [by rewrite Hs|by apply IH].
Qed.

Lemma sent_ready_rows batch :
  Forall sent batch →
  Forall (λ row, ob_State row ≠ UsageOutboxPending) (map dw_record (filter (λ w, dw_ready w = true) batch)).
Proof.
  intros Hsent. apply Forall_forall. intros row (w & -> & Hw)%list_elem_of_fmap.
  apply list_elem_of_filter in Hw as [Hr Hw]. pose proof (proj1 (Forall_forall _ _) Hsent _ Hw) as Hs.
  by rewrite (proj1 (sent_ready _ Hs Hr)).
Qed.

Lemma writePending_spec now rows answer o :
  let '(ok, o') := writePending now rows answer o in
  outbox_le o o' ∧ (keyed o → keyed o') ∧
  (ok = true → ∀ row, row ∈ rows → is_Some (o' !! ob_EventID row)).
Proof.
  unfold writePending. destruct rows as [|r rows].
  { split_and!; [done|done|]. intros _ row Hr. by apply not_elem_of_nil in Hr. }
  set (l := r :: rows). clearbody l. split; [|split].
  - destruct (after_cases answer (λ o, foldl (insert_pending now) o l) o) as [[-> _]|[-> _]]; [done|].
    apply foldl_outbox_le. intros. apply insert_pending_le.
  - intros Hk. destruct (after_cases answer (λ o, foldl (insert_pending now) o l) o) as [[-> _]|[-> _]]; [done|].
    apply (foldl_kept keyed); [done|]. intros ? ? _. apply insert_pending_keyed.
  - intros Hok row Hr. destruct answer; [|done|done]. cbn [after].
    apply list_elem_of_lookup in Hr as [i Hi]. rewrite <-(take_drop_middle _ _ _ Hi), foldl_app. cbn [foldl].
    destruct (insert_pending_there now (foldl (insert_pending now) o (take i l)) row) as [x Hx].
    destruct (foldl_outbox_le (insert_pending now) (drop (S i) l) _ (λ o b _, insert_pending_le now o b) _ _ Hx)
      as (y & Hy & _). eauto.
Qed.

Lemma writeReady_spec now rows answer o :
  Forall (λ row, ob_State row ≠ UsageOutboxPending) rows →
  let '(ok, o') := writeReady now rows answer o in
  outbox_le o o' ∧ (keyed o → keyed o') ∧
  (ok = true → ∀ row, row ∈ rows → ∃ row', o' !! ob_EventID row = Some row' ∧
     ob_State row' = ob_State row ∧
     ∀ payload, ob_Payload row = Some payload → ∃ text, jsonb payload = Some text ∧ ob_Payload row' = Some text).
Proof.
  intros Hst. unfold writeReady. destruct rows as [|r rows].
  { split_and!; [done|done|]. intros _ row Hr. by apply not_elem_of_nil in Hr. }
  set (l := r :: rows) in *. clearbody l. destruct (mapM stored_row l) as [rows'|] eqn:Hm; [|done].
  case_bool_decide as Hnd; [|done].
  pose proof (stored_rows_ready _ _ Hm Hst) as Hst'. apply mapM_Some in Hm.
  destruct (upsert_all now rows' o Hnd Hst') as (Hle & Hk & Hthere).
  split; [|split].
  - by destruct (after_cases answer (λ o, foldl (upsert_ready now) o rows') o) as [[-> _]|[-> _]].
  - intros Hko. destruct (after_cases answer (λ o, foldl (upsert_ready now) o rows') o) as [[-> _]|[-> _]]; auto.
  - intros Hok row Hr. destruct answer; [|done|done]. cbn [after].
    apply list_elem_of_lookup in Hr as [i Hi]. destruct (Forall2_lookup_l _ _ _ _ _ Hm Hi) as (row1 & Hi' & Hsr).
    apply stored_row_spec in Hsr as (Hid & Hs & Hp). destruct (Hthere row1) as (row' & Hl & Hs' & Hp').
    { by eapply list_elem_of_lookup_2. }
    exists row'. rewrite <-Hid, Hs', Hp'. auto.
Qed.
End writes.

Section durable.
Context `{Jsonb}.

(** The row of an event: what is read from it is the event, with its raw usage data
    as the column gives it back. *)
Definition row_of_event (row : UsageOutbox) (event : UsageEvent) : Prop :=
  ob_State row ≠ UsageOutboxPending ∧
  ∃ text raw, ob_Payload row = Some text ∧ json_event text = Some (e_with_raw raw event) ∧
    (raw_ok (raw_of event) → raw_ok raw).

Lemma Marshal_total event :
  writable event → Event_Validate event = None → ∃ payload, Marshal event = Ok payload.
Proof.
  intros Hw Hv. destruct (json_event_encode event Hw (Event_Validate_checked _ Hv)) as (p & He & _).
  exists p. unfold Marshal. by rewrite Hv, He.
Qed.

Lemma marshaled_text event payload text :
  writable event → Marshal event = Ok payload → jsonb payload = Some text →
  ∃ raw, json_event text = Some (e_with_raw raw event) ∧ (raw_ok (raw_of event) → raw_ok raw).
Proof.
  intros Hw Hm Ht. assert (Event_Validate event = None) as Hv.
  { unfold Marshal in Hm. by destruct (Event_Validate event). }
  destruct (json_event_encode event Hw (Event_Validate_checked _ Hv)) as (p & He & Hj).
  unfold Marshal in Hm. rewrite Hv, He in Hm. injection Hm as <-.
  destruct (jsonb_event _ _ _ Ht Hj) as (raw & Hr & Hok). unfold marshaled in Hr, Hok.
  rewrite e_with_raw_twice in Hr. exists raw. split; [done|]. intros Hr0. apply Hok.
  destruct (e_Usage event) as [u|] eqn:Hu; [rewrite raw_of_with_raw by congruence; by apply marshaled_raw_ok|].
  rewrite e_with_raw_none by done. done.
Qed.

(** What a request is told is on disk, is. A batch is answered request by
    request; a request whose answer is good has its row in the table, with its event
    as the payload and ready to be published if it was the end of the request; and a
    batch neither loses a row nor reopens a request that has ended, whatever the
    database does to its two statements. *)
Theorem writeBatch_durable env batch outbox :
  Forall sent batch → keyed outbox →
  let '(answers, outbox') := writeBatch env batch outbox in
  length answers = length batch ∧ outbox_le outbox outbox' ∧ keyed outbox' ∧
  (∀ i write, batch !! i = Some write → answers !! i = Some true →
     is_Some (outbox' !! ob_EventID (dw_record write))) ∧
  (∀ i write event, batch !! i = Some write → answers !! i = Some true → Emit event = Ok write →
     writable event → ∃ row, outbox' !! e_EventID event = Some row ∧
       ob_State row = UsageOutboxReady ∧ row_of_event row event).
Proof.
  intros Hsent Hkeyed. pose proof (writeBatch_length env batch outbox) as Hlen. unfold writeBatch in *.
  set (pending := map dw_record (filter (λ w, dw_ready w = false) batch)) in *.
  set (ready := map dw_record (filter (λ w, dw_ready w = true) batch)) in *.
  pose proof (writePending_spec (be_pending_at env) pending (be_pending env) outbox) as HP.
  destruct (writePending _ _ _ _) as [pok o1]. destruct HP as (Hle1 & Hk1 & Hp1).
  assert (Forall (λ row, ob_State row ≠ UsageOutboxPending) ready) as Hst by by apply sent_ready_rows.
  pose proof (writeReady_spec (be_ready_at env) ready (be_ready env) o1 Hst) as HR.
  destruct (writeReady _ _ _ _) as [rok o2]. destruct HR as (Hle2 & Hk2 & Hp2). cbn [fst] in Hlen.
  assert (∀ i write, batch !! i = Some write →
    map (λ w, if dw_ready w then rok else pok) batch !! i = Some true →
    (if dw_ready write then rok else pok) = true) as Hans.
  { intros i write Hi Ha. rewrite list_lookup_fmap, Hi in Ha. by injection Ha. }
  split_and!; [done|by etrans|by auto| |].
  - intros i write Hi Ha. specialize (Hans _ _ Hi Ha). apply list_elem_of_lookup_2 in Hi.
    destruct (dw_ready write) eqn:Hr.
    + destruct (Hp2 Hans (dw_record write)) as (row & Hl & _); [|eauto].
      apply list_elem_of_fmap. exists write. split; [done|]. by apply list_elem_of_filter.
    + destruct (Hp1 Hans (dw_record write)) as (row & Hl).
      { apply list_elem_of_fmap. exists write. split; [done|]. by apply list_elem_of_filter. }
      destruct (Hle2 _ _ Hl) as (row' & Hl' & _). eauto.
  - intros i write event Hi Ha He Hw. specialize (Hans _ _ Hi Ha). apply list_elem_of_lookup_2 in Hi.
    destruct (Emit_sent _ _ He) as (Hr & Hid & Hs & payload & Hm & Hpl). rewrite Hr in Hans.
    destruct (Hp2 Hans (dw_record write)) as (row & Hl & Hrs & Htext).
    { apply list_elem_of_fmap. exists write. split; [done|]. by apply list_elem_of_filter. }
    destruct (Htext _ Hpl) as (text & Hj & Hrp). exists row. rewrite <-Hid. split; [done|].
    rewrite Hrs, Hs. split; [done|]. split; [by rewrite Hrs, Hs|].
    destruct (marshaled_text _ _ _ Hw Hm Hj) as (raw & Hraw & Hok). exists text, raw. auto.
Qed.
End durable.


(** ** Examples *)

Lemma e_with_raw_of event : e_with_raw (raw_of event) event = event.
Proof.
  unfold e_with_raw, raw_of.
  destruct event as [version id request tenant key model provider upstream cache stream attempts
    retries fallbacks usage source caveat reason status category code started ended latency first].
  cbn. by destruct usage as [[]|].
Qed.

(** A column that keeps the text. *)
Definition text_column : Jsonb.
Proof.
  refine {| jsonb := Some |}. intros payload text event [= <-] Hj. exists (raw_of event).
  by rewrite e_with_raw_of.
Defined.

Section outbox_examples.
#[local] Existing Instance text_column.

Definition demo_pending (id : string) : PendingEvent :=
  {| pe_EventID := id; pe_RequestID := "r"; pe_TenantID := "t"; pe_APIKeyID := "k"; pe_RequestedModel := "m<é>";
     pe_Stream := false; pe_StartedAt := 63871286400 * second |}.

Definition begin_write (id : string) : durableWrite :=
  match Begin (demo_pending id) with Ok w => w | Err _ => {| dw_record := new_row "" "" "" "" "" false UsageOutboxPending None 0; dw_ready := false |} end.
Definition emit_write (event : UsageEvent) : durableWrite :=
  match Emit event with Ok w => w | Err _ => {| dw_record := new_row "" "" "" "" "" false UsageOutboxPending None 0; dw_ready := true |} end.

Definition all_applied : BatchEnv :=
  {| be_pending_at := 63871286400 * second; be_pending := Applied; be_ready_at := 63871286401 * second; be_ready := Applied |}.

Definition demo_emitter (closed : bool) : EmitterState :=
  {| em_queue := [(1%nat, begin_write "use_1"); (2%nat, emit_write (demo_event (Some small_usage)))]; em_batch := [];
     em_closed := closed; em_done := false; em_answers := ∅; em_outbox := ∅ |}.

Lemma emitter_answers_all_witness :
  ∃ s'', drain 3 (λ _, all_applied) (demo_emitter true) = Some s'' ∧ answered s'' 2%nat.
Proof.
  destruct (emitter_answers_all (demo_emitter false) (demo_emitter true) (λ _, all_applied)) as (_ & _ & Hd).
  - intros [=].
  - apply rtc_once. exact (step_close (demo_emitter false)).
  - destruct (Hd eq_refl eq_refl eq_refl) as (s'' & Hr & _ & Ha & _). exists s''. split; [exact Hr|].
    apply Ha. left. unfold waiting. cbn. right. left.
Defined.

Lemma writeBatch_durable_witness :
  let r := writeBatch all_applied [begin_write "use_1"; emit_write (demo_event (Some small_usage))] ∅ in
  r.1 = [true; true] ∧ ∃ row, r.2 !! "use_1"%string = Some row ∧ ob_State row = UsageOutboxReady ∧
    row_of_event row (demo_event (Some small_usage)).
Proof.
  assert (Forall sent [begin_write "use_1"; emit_write (demo_event (Some small_usage))]) as Hsent.
  { constructor; [left; exists (demo_pending "use_1"); vm_compute; reflexivity|].
    constructor; [right; exists (demo_event (Some small_usage)); vm_compute; reflexivity|constructor]. }
  pose proof (writeBatch_durable all_applied [begin_write "use_1"; emit_write (demo_event (Some small_usage))] ∅
    Hsent ltac:(intros id row Hl; by rewrite lookup_empty in Hl)) as Hdur.
  assert ((writeBatch all_applied [begin_write "use_1"; emit_write (demo_event (Some small_usage))] ∅).1 = [true; true])
    as Ha by (vm_compute; reflexivity).
  cbv zeta. split; [exact Ha|].
  destruct (writeBatch _ _ _) as [answers outbox]. cbn [fst snd] in *. subst answers.
  destruct Hdur as (_ & _ & _ & _ & Hd).
  exact (Hd 1%nat _ (demo_event (Some small_usage)) eq_refl eq_refl ltac:(vm_compute; reflexivity) small_usage_writable).
Defined.
End outbox_examples.
