(* ===== verification/Relay.v ===== *)
(** * The relay from the outbox to the stream

    Models the relay of [src/internal/usage/outbox.go] and the emitter of
    [src/internal/usage/emitter.go]: finished events are appended to the Redis
    stream, lifecycles whose process has died are recovered, and events that the
    consumer has not stored are appended again. The stream is an interface with laws
    ([EventStream]), which the worker of Worker.v reads too. *)

From S2P Require Import Prelude Encoding Json JsonWrite BigRat Calendar Usage UsageJson Pricing UsageStore Outbox.

(** ** The stream *)

(** The stream and its consumer group, as far as the relay and the worker depend on
    them: the entries that are not deleted, by id, with the payload if they have one;
    and how often the group has been given those that it has not acknowledged. *)
Class EventStream (S : Type) := {
  stream_entries : S → gmap string (option string);
  stream_pending : S → gmap string Z;
  XAdd : string → S → string * S;
  XAdd_fresh : ∀ payload s,
    let '(id, s') := XAdd payload s in
    stream_entries s !! id = None ∧ stream_pending s !! id = None ∧
    stream_entries s' = <[id := Some payload]> (stream_entries s) ∧ stream_pending s' = stream_pending s;
}.


(** ** The relay *)

Inductive RelayError :=
| RelayDatabase
| RelayRedis
| RelayEncode (e : UsageError)
| RelayNoPayload (id : string)
| RelayDecode (id : string)
| RelayNoGroup.

Definition defaultOutboxRepublishPeriod : Duration := 30 * second.

Record OutboxRelay := {
  or_consumerGroup : string;
  or_batchSize : Z;
  or_pendingTimeout : Duration;
  or_republishAfter : Duration;
}.

Definition NewOutboxRelay (consumerGroup : string) (batchSize : Z) : result string OutboxRelay :=
  if (consumerGroup =? "")%string then Err "usage outbox relay requires a consumer group"%string
  else if (batchSize <=? 0) || (1000 <? batchSize) then Err "usage outbox relay batch size is invalid"%string
  else Ok {| or_consumerGroup := consumerGroup; or_batchSize := batchSize; or_pendingTimeout := 15 * minute;
             or_republishAfter := defaultOutboxRepublishPeriod |}.

Definition SetPendingTimeout (relay : OutboxRelay) (timeout : Duration) : result string OutboxRelay :=
  if timeout <? 5 * minute then Err "usage pending timeout must be at least five minutes"%string
  else Ok {| or_consumerGroup := or_consumerGroup relay; or_batchSize := or_batchSize relay;
             or_pendingTimeout := timeout; or_republishAfter := or_republishAfter relay |}.

(** A row of [XINFO GROUPS]. *)
Record GroupInfo := { gi_Name : string; gi_Pending : Z; gi_Lag : Z }.

(** What the database and Redis answer during one [Publish]: the instants it reads
    from the clock, whether each query succeeds, how each statement is answered, and
    whether each [XADD] is reported done. *)
Record RelayEnv := {
  re_now : nat → Time;
  re_read_pending : bool;
  re_recover : nat → DbAnswer;
  re_read_ready : bool;
  re_groups : option (list GroupInfo);
  re_read_published : bool;
  re_xadd : nat → DbAnswer;
  re_mark : DbAnswer;
}.

(** The event made up for a request whose process ended. *)
Definition recovered_event (record : UsageOutbox) (endedAt : Time) : UsageEvent :=
  {| e_SchemaVersion := SchemaVersion; e_EventID := ob_EventID record; e_RequestID := ob_RequestID record;
     e_TenantID := ob_TenantID record; e_APIKeyID := ob_APIKeyID record;
     e_RequestedModel := ob_RequestedModel record; e_ProviderID := ""; e_UpstreamModel := "";
     e_CacheStatus := "bypass"; e_Stream := ob_Stream record; e_Attempts := 0; e_Retries := 0;
     e_Fallbacks := 0; e_Usage := None; e_UsageSource := UsageSourceUnknown;
     e_UsageCaveat := "process_ended_before_usage_finalization"; e_FinishReason := "";
     e_Status := if ob_Stream record then StatusStreamInterrupted else StatusFailed;
     e_ErrorCategory := "gateway"; e_ErrorCode := "request_lifecycle_interrupted";
     e_StartedAt := ob_StartedAt record; e_EndedAt := endedAt;
     e_LatencyMS := Milliseconds (time_sub endedAt (ob_StartedAt record)); e_FirstTokenMS := None |}.

(** [ORDER BY published_at ASC]: rows without the instant come last. *)
Definition published_first (a b : UsageOutbox) : Prop :=
  match ob_PublishedAt a, ob_PublishedAt b with
  | Some x, Some y => x ≤ y
  | _, None => True
  | None, Some _ => False
  end.
#[export] Instance published_first_dec : RelDecision published_first.
Proof. intros a b. unfold published_first. destruct (ob_PublishedAt a), (ob_PublishedAt b); apply _. Defined.

Section relay.
Context `{Jsonb} `{Scan} {S : Type} `{EventStream S}.

(** The rows that satisfy a test, in an order, and the first of them, at most the batch. *)
Definition matching_rows (test : UsageOutbox → bool) (le : relation UsageOutbox) `{!RelDecision le}
    (outbox : Outbox) : list UsageOutbox :=
  merge_sort le (filter (λ row, test row = true) (scan outbox).*2).

Definition outbox_rows (relay : OutboxRelay) (test : UsageOutbox → bool) (le : relation UsageOutbox)
    `{!RelDecision le} (outbox : Outbox) : list UsageOutbox :=
  take (Z.to_nat (or_batchSize relay)) (matching_rows test le outbox).

Definition in_state (state : OutboxState) (row : UsageOutbox) : bool := bool_decide (ob_State row = state).

Definition stale_pending (cutoff : Time) (row : UsageOutbox) : bool :=
  in_state UsageOutboxPending row && (ob_UpdatedAt row <=? cutoff).

Definition stale_published (before : Time) (row : UsageOutbox) : bool :=
  in_state UsageOutboxPublished row &&
  match ob_PublishedAt row with None => true | Some at_ => at_ <=? before end.

(** [UPDATE ... SET payload, state WHERE event_id = ? AND state = 'pending'] and the
    number of rows it affected. *)
Definition recover_row (now : Time) (text : string) (id : string) (outbox : Outbox) : Outbox * Z :=
  match outbox !! id with
  | Some row =>
      if in_state UsageOutboxPending row
      then (<[id := assigned (Some text) UsageOutboxReady (ob_PublishedAt row) now row]> outbox, 1)
      else (outbox, 0)
  | None => (outbox, 0)
  end.

(** [recoverPending], from the rows it has read. *)
Fixpoint recover_rows (env : RelayEnv) (i : nat) (records : list UsageOutbox) (recovered : Z) (outbox : Outbox)
  : result RelayError Z * Outbox :=
  match records with
  | [] => (Ok recovered, outbox)
  | record :: records =>
      let now := re_now env (1 + i) in
      match Marshal (recovered_event record now) with
      | Err e => (Err (RelayEncode e), outbox)
      | Ok payload =>
          match jsonb payload with
          | None => (Err RelayDatabase, outbox)
          | Some text =>
              let '(outbox', affected) := recover_row now text (ob_EventID record) outbox in
              let outbox' := after (re_recover env i) (λ _, outbox') outbox in
              if db_failed (re_recover env i) then (Err RelayDatabase, outbox')
              else recover_rows env (1 + i) records (recovered + affected) outbox'
          end
      end
  end.

Definition recoverPending (relay : OutboxRelay) (env : RelayEnv) (outbox : Outbox) : result RelayError Z * Outbox :=
  let cutoff := re_now env 0 - or_pendingTimeout relay in
  if re_read_pending env
  then recover_rows env 0 (outbox_rows relay (stale_pending cutoff) (by_key ob_UpdatedAt) outbox) 0 outbox
  else (Err RelayDatabase, outbox).

(** [RedisEmitter.Emit]: the payload is written anew and appended. *)
Definition redis_Emit (answer : DbAnswer) (event : UsageEvent) (s : S) : result RelayError string * S :=
  match Marshal event with
  | Err e => (Err (RelayEncode e), s)
  | Ok payload =>
      let '(id, s') := XAdd payload s in
      (if db_failed answer then Err RelayRedis else Ok id, after answer (λ _, s') s)
  end.

(** The loop of [publishRecords]: the ids of the rows that were appended. *)
Fixpoint append_records (env : RelayEnv) (i : nat) (records : list UsageOutbox) (s : S)
  : result RelayError (list string) * S :=
  match records with
  | [] => (Ok [], s)
  | record :: records =>
      match ob_Payload record with
      | None => (Err (RelayNoPayload (ob_EventID record)), s)
      | Some payload =>
          match Decode payload with
          | Err _ => (Err (RelayDecode (ob_EventID record)), s)
          | Ok event =>
              match redis_Emit (re_xadd env i) event s with
              | (Err e, s) => (Err e, s)
              | (Ok _, s) =>
                  match append_records env (1 + i) records s with
                  | (Ok ids, s) => (Ok (ob_EventID record :: ids), s)
                  | (Err e, s) => (Err e, s)
                  end
              end
          end
      end
  end.

(** [UPDATE ... SET state = 'published', published_at = ? WHERE event_id IN ?]. *)
Definition mark_published (now : Time) (ids : list string) (outbox : Outbox) : Outbox :=
  foldl (λ o id, alter (λ row, assigned (ob_Payload row) UsageOutboxPublished (Some now) now row) id o) outbox ids.

Definition publishRecords (env : RelayEnv) (now : Time) (records : list UsageOutbox) (outbox : Outbox) (s : S)
  : result RelayError Z * Outbox * S :=
  match append_records env 0 records s with
  | (Err e, s) => (Err e, outbox, s)
  | (Ok [], s) => (Ok 0, outbox, s)
  | (Ok ids, s) =>
      let outbox := after (re_mark env) (mark_published now ids) outbox in
      if db_failed (re_mark env) then (Err RelayDatabase, outbox, s)
      else (Ok (Z.of_nat (length ids)), outbox, s)
  end.

Definition consumerCaughtUp (relay : OutboxRelay) (groups : option (list GroupInfo)) : result RelayError bool :=
  match groups with
  | None => Err RelayRedis
  | Some groups =>
      match list_find (λ g, gi_Name g = or_consumerGroup relay) groups with
      | Some (_, g) => Ok ((gi_Pending g =? 0) && (gi_Lag g =? 0))
      | None => Err RelayNoGroup
      end
  end.

(** [Publish]. The last reading of the clock is the one of the update. *)
Definition Publish (relay : OutboxRelay) (env : RelayEnv) (outbox : Outbox) (s : S)
  : result RelayError Z * Outbox * S :=
  match recoverPending relay env outbox with
  | (Err e, outbox) => (Err e, outbox, s)
  | (Ok recovered, outbox) =>
      let now := re_now env (2 + Z.to_nat (or_batchSize relay)) in
      if negb (re_read_ready env) then (Err RelayDatabase, outbox, s)
      else
        match outbox_rows relay (in_state UsageOutboxReady) (by_key ob_UpdatedAt) outbox with
        | (_ :: _) as records => publishRecords env now records outbox s
        | [] =>
            match consumerCaughtUp relay (re_groups env) with
            | Err e => (Err e, outbox, s)
            | Ok false => (Ok 0, outbox, s)
            | Ok true =>
                if negb (re_read_published env) then (Err RelayDatabase, outbox, s)
                else
                  let republishBefore :=
                    re_now env (1 + Z.to_nat (or_batchSize relay)) - or_republishAfter relay in
                  publishRecords env now
                    (outbox_rows relay (stale_published republishBefore) published_first outbox) outbox s
            end
        end
  end.
End relay.
(** ** What the relay does *)

Section relay_facts.
Context `{Jsonb} `{Scan} {S : Type} `{EventStream S}.

Lemma matching_elem test le `{!RelDecision le} o row :
  row ∈ matching_rows test le o ↔ test row = true ∧ ∃ id, o !! id = Some row.
Proof.
  unfold matching_rows. rewrite merge_sort_Permutation, list_elem_of_filter, list_elem_of_fmap.
  apply and_iff_compat_l. setoid_rewrite scan_perm. split.
  - intros (kv & -> & Hkv). exists kv.1. apply elem_of_map_to_list. by destruct kv.
  - intros (id & Hl). exists (id, row). split; [done|]. by apply elem_of_map_to_list.
Qed.

Lemma outbox_rows_in relay test le `{!RelDecision le} o row :
  row ∈ outbox_rows relay test le o → test row = true ∧ ∃ id, o !! id = Some row.
Proof.
  intros Hr. apply (matching_elem test le). unfold outbox_rows in Hr. apply elem_of_take in Hr as (i & Hi & _).
  by apply list_elem_of_lookup_2 in Hi.
Qed.

Lemma matching_nodup test le `{!RelDecision le} o :
  keyed o → NoDup (map ob_EventID (matching_rows test le o)).
Proof.
  intros Hk. unfold matching_rows. rewrite merge_sort_Permutation.
  assert (map ob_EventID (scan o).*2 = (scan o).*1) as E.
  { change (map ob_EventID) with (fmap (M:=list) ob_EventID). rewrite <-list_fmap_compose.
    apply list_fmap_ext. intros i kv Hi. apply list_elem_of_lookup_2 in Hi. rewrite scan_perm in Hi.
    destruct kv as [k row]. apply elem_of_map_to_list in Hi. by apply Hk in Hi. }
  eapply (sublist_NoDup _ (map ob_EventID (scan o).*2)).
  - rewrite E, (scan_perm o). apply NoDup_fst_map_to_list.
  - apply (fmap_sublist ob_EventID), sublist_filter.
Qed.

Lemma rows_nodup relay test le `{!RelDecision le} o :
  keyed o → NoDup (map ob_EventID (outbox_rows relay test le o)).
Proof.
  intros Hk. pose proof (matching_nodup test le o Hk) as Hnd. unfold outbox_rows.
  rewrite <-(take_drop (Z.to_nat (or_batchSize relay)) (matching_rows _ _ _)), map_app in Hnd.
  by apply NoDup_app in Hnd as [Hnd _].
Qed.

Lemma recover_row_le now text id o :
  outbox_le o (recover_row now text id o).1 ∧ (keyed o → keyed (recover_row now text id o).1).
Proof.
  unfold recover_row. destruct (o !! id) as [row|] eqn:Hl; [|done]. destruct (in_state _ row) eqn:Hp; [|done].
  split.
  - apply insert_row_le. intros old Ho. assert (old = row) as -> by congruence. by apply assigned_kept.
  - intros Hk. apply insert_row_keyed; [|done]. exact (Hk _ _ Hl).
Qed.

Lemma recover_rows_le env i records n o :
  outbox_le o (recover_rows env i records n o).2 ∧ (keyed o → keyed (recover_rows env i records n o).2).
Proof.
  revert i n o. induction records as [|record records IH]; intros i n o; cbn [recover_rows]; [done|].
  destruct (Marshal _) as [payload|]; [|done]. destruct (jsonb payload) as [text|]; [|done].
  destruct (recover_row_le (re_now env (1 + i)) text (ob_EventID record) o) as [Hle Hk].
  destruct (recover_row _ _ _ _) as [o1 affected]. cbn [fst] in *.
  assert (outbox_le o (after (re_recover env i) (λ _, o1) o) ∧
    (keyed o → keyed (after (re_recover env i) (λ _, o1) o))) as [Hle' Hk'] by by destruct (re_recover env i).
  destruct (db_failed _); [done|]. destruct (IH (1 + i)%nat (n + affected) (after (re_recover env i) (λ _, o1) o)) as [IH1 IH2].
  split; [by etrans|auto].
Qed.

Lemma recoverPending_le relay env o :
  outbox_le o (recoverPending relay env o).2 ∧ (keyed o → keyed (recoverPending relay env o).2).
Proof. unfold recoverPending. destruct (re_read_pending env); [|done]. apply recover_rows_le. Qed.

Definition published_at (now : Time) (row : UsageOutbox) : UsageOutbox :=
  assigned (ob_Payload row) UsageOutboxPublished (Some now) now row.

Lemma mark_published_lookup now ids o id :
  mark_published now ids o !! id =
    (if decide (id ∈ ids) then published_at now <$> o !! id else o !! id).
Proof.
  unfold mark_published. change (λ row, assigned _ _ _ _ row) with (published_at now).
  revert o. induction ids as [|x ids IH]; intros o; [done|]. cbn [foldl]. rewrite IH.
  destruct (decide (id = x)) as [->|Hne].
  - rewrite lookup_alter_eq. rewrite (decide_True (P := x ∈ x :: ids)) by by left.
    destruct (decide (x ∈ ids)); [|done]. by destruct (o !! x).
  - rewrite lookup_alter_ne by done. destruct (decide (id ∈ ids)) as [Hin|Hin].
    + by rewrite decide_True by by right.
    + by rewrite decide_False by by rewrite elem_of_cons; intros [].
Qed.

Lemma mark_published_le now ids o :
  outbox_le o (mark_published now ids o) ∧ (keyed o → keyed (mark_published now ids o)).
Proof.
  split.
  - apply foldl_outbox_le. intros o1 id _ k row Hk. destruct (decide (k = id)) as [->|Hne].
    + rewrite lookup_alter_eq, Hk. cbn. eexists. split; [done|]. by apply assigned_kept.
    + rewrite lookup_alter_ne by done. by exists row.
  - intros Hk. apply (foldl_kept keyed); [done|]. intros a id _ Ha k row. rewrite lookup_alter_Some.
    intros [(<- & y & Hy & ->)|[_ Hl]]; [by apply Ha in Hy|by apply Ha].
Qed.

(** A row never becomes published by recovering. *)
Lemma recover_rows_published env i records n o id row :
  (recover_rows env i records n o).2 !! id = Some row → ob_State row = UsageOutboxPublished → o !! id = Some row.
Proof.
  revert i n o. induction records as [|record records IH]; intros i n o; cbn [recover_rows]; [done|].
  destruct (Marshal _) as [payload|]; [|done]. destruct (jsonb payload) as [text|]; [|done].
  destruct (recover_row _ _ _ _) as [o1 affected] eqn:Hr.
  assert (∀ id row, after (re_recover env i) (λ _, o1) o !! id = Some row →
    ob_State row = UsageOutboxPublished → o !! id = Some row) as Hone.
  { clear -Hr. intros id row Hl Hs. destruct (after_cases (re_recover env i) (λ _, o1) o) as [[E _]|[E _]];
      rewrite E in Hl; [done|]. unfold recover_row in Hr. destruct (o !! ob_EventID record) as [old|] eqn:Ho.
    - destruct (in_state _ old); injection Hr as <- <-; [|done]. apply lookup_insert_Some in Hl as [[_ <-]|[_ Hl]]; done.
    - by injection Hr as <- <-. }
  destruct (db_failed _); [apply Hone|]. intros Hl Hs. eapply Hone; [|done]. by eapply IH.
Qed.

Lemma recoverPending_published relay env o id row :
  (recoverPending relay env o).2 !! id = Some row → ob_State row = UsageOutboxPublished → o !! id = Some row.
Proof. unfold recoverPending. destruct (re_read_pending env); [|done]. apply recover_rows_published. Qed.

(** What the stream is given for a row. *)
Definition relayed (row : UsageOutbox) (entry : option string) : Prop :=
  ∃ text event payload, ob_Payload row = Some text ∧ Decode text = Ok event ∧
    Marshal event = Ok payload ∧ entry = Some payload.

(** What appending has done to the stream, from the rows it read. *)
Record appended (records : list UsageOutbox) (s s' : S) : Prop := {
  ap_kept : ∀ id entry, stream_entries s !! id = Some entry → stream_entries s' !! id = Some entry;
  ap_new : ∀ id entry, stream_entries s' !! id = Some entry →
    stream_entries s !! id = Some entry ∨ ∃ record, record ∈ records ∧ relayed record entry;
  ap_pending : stream_pending s' = stream_pending s;
}.

Definition delivered (record : UsageOutbox) (s s' : S) : Prop :=
  ∃ id entry, stream_entries s !! id = None ∧ stream_entries s' !! id = Some entry ∧ relayed record entry.

Lemma redis_Emit_appended answer event row text s :
  ob_Payload row = Some text → Decode text = Ok event →
  let '(r, s') := redis_Emit answer event s in
  appended [row] s s' ∧ (∀ id, r = Ok id → delivered row s s').
Proof.
  intros Hp Hd. unfold redis_Emit. destruct (Marshal event) as [payload|] eqn:Hm.
  2:{ split; [by split; auto|done]. }
  pose proof (XAdd_fresh payload s) as Hf. destruct (XAdd payload s) as [eid s1]. destruct Hf as (Hn & Hn' & He & Hpd).
  assert (relayed row (Some payload)) as Hrel by (exists text, event, payload; done).
  destruct (after_cases answer (λ _, s1) s) as [[-> ->]|[-> Ha]].
  { split; [by split; auto|done]. }
  split; [split|].
  - intros id entry Hid. rewrite He, lookup_insert_ne; [done|congruence].
  - intros id entry. rewrite He, lookup_insert_Some. intros [[_ <-]|[_ Hid]]; [|by left].
    right. exists row. split; [by left|done].
  - done.
  - intros id _. exists eid, (Some payload). rewrite He, lookup_insert_eq. done.
Qed.

Lemma appended_trans records records' s s1 s' :
  appended records s s1 → appended records' s1 s' → appended (records ++ records') s s'.
Proof.
  intros [K1 N1 P1] [K2 N2 P2]. split; [by eauto| |congruence].
  intros id entry [Hid|(r & Hr & Hrel)]%N2.
  - destruct (N1 _ _ Hid) as [|(r & Hr & Hrel)]; [by left|]. right. exists r. rewrite elem_of_app. auto.
  - right. exists r. rewrite elem_of_app. auto.
Qed.

Lemma append_records_appended env i records s :
  let '(r, s') := append_records env i records s in
  appended records s s' ∧
  (∀ ids, r = Ok ids → ids = map ob_EventID records ∧ ∀ record, record ∈ records → delivered record s s').
Proof.
  revert i s. induction records as [|record records IH]; intros i s; cbn [append_records].
  { split; [by split; auto|]. intros ids [= <-]. split; [done|]. intros record Hr. by apply not_elem_of_nil in Hr. }
  assert (appended (record :: records) s s) as Hsame by by split; auto.
  destruct (ob_Payload record) as [text|] eqn:Hp; [|done].
  destruct (Decode text) as [event|] eqn:Hd; [|done].
  pose proof (redis_Emit_appended (re_xadd env i) event record text s Hp Hd) as Hemit.
  destruct (redis_Emit _ event s) as [[id|e] s1]; destruct Hemit as [Ha Hdel].
  2:{ split; [|done]. destruct Ha as [K N P]. split; [done| |done]. intros k entry [|(r & ->%list_elem_of_singleton & Hrel)]%N;
        [by left|]. right. exists record. split; [by left|done]. }
  specialize (IH (1 + i)%nat s1). destruct (append_records env (1 + i) records s1) as [[ids|e] s2].
  - destruct IH as [Ha2 Hok]. split; [by apply (appended_trans [record] records _ s1)|].
    intros ids' [= <-]. destruct (Hok ids eq_refl) as [-> Hall]. split; [done|].
    intros r [->|Hr]%elem_of_cons.
    + destruct (Hdel id eq_refl) as (k & entry & Hk & Hk' & Hrel). exists k, entry.
      split_and!; [done|by apply (ap_kept _ _ _ Ha2)|done].
    + destruct (Hall r Hr) as (k & entry & Hk & Hk' & Hrel). exists k, entry. split_and!; [|done|done].
      destruct (stream_entries s !! k) eqn:E; [|done]. apply (ap_kept _ _ _ Ha) in E. congruence.
  - destruct IH as [Ha2 _]. split; [by apply (appended_trans [record] records _ s1)|done].
Qed.

(** The table after publishing: some rows became published, and the events of those
    rows are in the stream. *)
Lemma publishRecords_spec env now records o s :
  keyed o → (∀ record, record ∈ records → ∃ id, o !! id = Some record) →
  let '(r, o', s') := publishRecords env now records o s in
  outbox_le o o' ∧ keyed o' ∧ appended records s s' ∧
  (∀ id, o' !! id = o !! id ∨
     ∃ row, o !! id = Some row ∧ o' !! id = Some (published_at now row) ∧ delivered row s s').
Proof.
  intros Hk Hin. unfold publishRecords. pose proof (append_records_appended env 0 records s) as Ha.
  destruct (append_records env 0 records s) as [[ids|e] s']; destruct Ha as [Ha Hok].
  2:{ split_and!; auto. done. }
  destruct (Hok ids eq_refl) as [-> Hdel]. clear Hok.
  assert (∀ o', o' = after (re_mark env) (mark_published now (map ob_EventID records)) o →
    outbox_le o o' ∧ keyed o' ∧ (∀ id, o' !! id = o !! id ∨
     ∃ row, o !! id = Some row ∧ o' !! id = Some (published_at now row) ∧ delivered row s s')) as Hgo.
  { intros o' ->. destruct (after_cases (re_mark env) (mark_published now (map ob_EventID records)) o) as [[-> _]|[-> _]].
    { split_and!; auto. done. }
    destruct (mark_published_le now (map ob_EventID records) o) as [Hle Hk']. split_and!; [done|by apply Hk'|].
    intros id. rewrite mark_published_lookup. destruct (decide _) as [Hid|]; [|by left].
    apply list_elem_of_fmap in Hid as (record & -> & Hr). destruct (Hin _ Hr) as (id & Hl).
    rewrite (Hk _ _ Hl), Hl. right. exists record. auto. }
  destruct (map ob_EventID records) as [|x ids]; [split_and!; auto; done|].
  destruct (Hgo _ eq_refl) as (Hle & Hk' & Hrows). destruct (db_failed _); split_and!; auto.
Qed.

(** What the relay publishes was appended. Whatever Redis and the database answer
    at each point, [Publish] loses no row and reopens none; it takes nothing out of
    the stream; every entry it adds is the payload of an event decoded from a row
    that has ended; and a row it marks as published has its event in the stream, in
    an entry that was not there before. *)
Theorem Publish_safe relay env o s :
  keyed o →
  let '(r, o', s') := Publish relay env o s in
  outbox_le o o' ∧ keyed o' ∧
  (∀ id entry, stream_entries s !! id = Some entry → stream_entries s' !! id = Some entry) ∧
  (∀ id entry, stream_entries s' !! id = Some entry → stream_entries s !! id = Some entry ∨
     ∃ event_id row, o' !! event_id = Some row ∧ ob_State row ≠ UsageOutboxPending ∧ relayed row entry) ∧
  (∀ id row, o' !! id = Some row → ob_State row = UsageOutboxPublished →
     o !! id = Some row ∨ delivered row s s').
Proof.
  intros Hk. unfold Publish. destruct (recoverPending_le relay env o) as [Hle1 Hk1].
  pose proof (recoverPending_published relay env o) as Hpub.
  destruct (recoverPending relay env o) as [[n|e] o1]; cbn [snd] in *; specialize (Hk1 Hk).
  2:{ split_and!; auto. }
  assert (∀ now records, (∀ record, record ∈ records → ob_State record ≠ UsageOutboxPending ∧
      ∃ id, o1 !! id = Some record) →
    let '(r, o', s') := publishRecords env now records o1 s in
    outbox_le o o' ∧ keyed o' ∧
    (∀ id entry, stream_entries s !! id = Some entry → stream_entries s' !! id = Some entry) ∧
    (∀ id entry, stream_entries s' !! id = Some entry → stream_entries s !! id = Some entry ∨
       ∃ event_id row, o' !! event_id = Some row ∧ ob_State row ≠ UsageOutboxPending ∧ relayed row entry) ∧
    (∀ id row, o' !! id = Some row → ob_State row = UsageOutboxPublished →
       o !! id = Some row ∨ delivered row s s')) as Hgo.
  { intros now records Hrec.
    pose proof (publishRecords_spec env now records o1 s Hk1 (λ r Hr, proj2 (Hrec r Hr))) as Hspec.
    destruct (publishRecords env now records o1 s) as [[r o'] s']. destruct Hspec as (Hle & Hk' & [Ka Na Pa] & Hrows).
    split_and!; [by etrans|done|done| |].
    - intros id entry [|(record & Hr & Hrel)]%Na; [by left|]. right. destruct (Hrec _ Hr) as [Hst (k & Hl)].
      destruct (Hrows k) as [E|(row & E & E' & _)].
      + exists k, record. by rewrite E.
      + rewrite Hl in E. injection E as <-. exists k, (published_at now record). done.
    - intros id row Hl Hst. destruct (Hrows id) as [E|(row' & E & E' & Hdel)].
      + rewrite E in Hl. left. by apply Hpub.
      + rewrite E' in Hl. injection Hl as <-. by right. }
  assert (outbox_le o o1 ∧ keyed o1 ∧
    (∀ id entry, stream_entries s !! id = Some entry → stream_entries s !! id = Some entry) ∧
    (∀ id entry, stream_entries s !! id = Some entry → stream_entries s !! id = Some entry ∨
       ∃ event_id row, o1 !! event_id = Some row ∧ ob_State row ≠ UsageOutboxPending ∧ relayed row entry) ∧
    (∀ id row, o1 !! id = Some row → ob_State row = UsageOutboxPublished →
       o !! id = Some row ∨ delivered row s s)) as Hstay by by split_and!; auto.
  destruct (negb (re_read_ready env)); [done|].
  destruct (outbox_rows relay (in_state UsageOutboxReady) (by_key ob_UpdatedAt) o1) as [|r records] eqn:Hrows.
  - destruct (consumerCaughtUp relay (re_groups env)) as [[]|e]; [|done|done].
    destruct (negb (re_read_published env)); [done|]. apply Hgo. intros record Hr.
    apply outbox_rows_in in Hr as [Ht Hl]. split; [|done]. unfold stale_published, in_state in Ht.
    apply andb_true_iff in Ht as [Ht%bool_decide_eq_true _]. by rewrite Ht.
  - apply Hgo. intros record Hr. rewrite <-Hrows in Hr. apply outbox_rows_in in Hr as [Ht Hl]. split; [|done].
    apply bool_decide_eq_true in Ht. by rewrite Ht.
Qed.

(** ** Lifecycles that are recovered *)

Definition pending_of (row : UsageOutbox) : PendingEvent :=
  {| pe_EventID := ob_EventID row; pe_RequestID := ob_RequestID row; pe_TenantID := ob_TenantID row;
     pe_APIKeyID := ob_APIKeyID row; pe_RequestedModel := ob_RequestedModel row; pe_Stream := ob_Stream row;
     pe_StartedAt := ob_StartedAt row |}.

(** A row that [Begin] has made, of UTF-8 texts and an instant that JSON can write. *)
Record begun (row : UsageOutbox) : Prop := {
  bg_valid : validatePendingEvent (pending_of row) = None;
  bg_text : Forall (λ s, utf8_Valid s = true)
    [ob_EventID row; ob_RequestID row; ob_TenantID row; ob_APIKeyID row; ob_RequestedModel row];
  bg_started : in_range (ob_StartedAt row);
}.

Lemma recovered_writable row now : begun row → in_range now → writable (recovered_event row now).
Proof.
  intros [_ Ht Hs] Hn. constructor; cbn; [ |done| |done|done|by left].
  - by repeat constructor.
  - pose proof (Forall_lookup_1 _ _ 0 _ Ht eq_refl). pose proof (Forall_lookup_1 _ _ 1 _ Ht eq_refl).
    pose proof (Forall_lookup_1 _ _ 2 _ Ht eq_refl). pose proof (Forall_lookup_1 _ _ 3 _ Ht eq_refl).
    pose proof (Forall_lookup_1 _ _ 4 _ Ht eq_refl). by repeat constructor.
Qed.

Lemma recovered_valid row now :
  begun row → ob_StartedAt row ≤ now → Event_Validate (recovered_event row now) = None.
Proof.
  intros [Hv _ [Hs _]] Hn. unfold validatePendingEvent in Hv. rewrite first_error_none in Hv.
  pose proof (Forall_lookup_1 _ _ 0 _ Hv eq_refl) as H1'. pose proof (Forall_lookup_1 _ _ 1 _ Hv eq_refl) as H2'.
  pose proof (Forall_lookup_1 _ _ 2 _ Hv eq_refl) as H3'. pose proof (Forall_lookup_1 _ _ 3 _ Hv eq_refl) as H4'.
  pose proof (Forall_lookup_1 _ _ 4 _ Hv eq_refl) as H5'. pose proof (Forall_lookup_1 _ _ 5 _ Hv eq_refl) as H6'.
  cbn [fst pending_of pe_EventID pe_RequestID pe_TenantID pe_APIKeyID pe_RequestedModel pe_StartedAt] in *. clear Hv.
  assert (0 ≤ Milliseconds (time_sub now (ob_StartedAt row))) as Hms.
  { unfold Milliseconds, time_sub, millisecond, int64_min, int64_max. apply Z.quot_pos; lia. }
  unfold time_is_zero, time_zero in H6'.
  unfold Event_Validate. cbn zeta.
  cbn [recovered_event e_SchemaVersion e_EventID e_RequestID e_TenantID e_APIKeyID e_RequestedModel e_ProviderID
    e_UpstreamModel e_CacheStatus e_Stream e_Attempts e_Retries e_Fallbacks e_Usage e_UsageSource e_UsageCaveat
    e_FinishReason e_Status e_ErrorCategory e_ErrorCode e_StartedAt e_EndedAt e_LatencyMS e_FirstTokenMS].
  rewrite H1', H2', H3', H4', H5', andb_false_r. unfold time_is_zero, time_zero, time_before. rewrite H6'.
  assert ((now =? 0) = false) as -> by lia. assert ((now <? ob_StartedAt row) = false) as -> by lia.
  assert ((Milliseconds (time_sub now (ob_StartedAt row)) <? 0) = false) as -> by lia. rewrite Z.eqb_refl.
  by destruct (ob_Stream row).
Qed.

Lemma recovered_marshal row now :
  begun row → ob_StartedAt row ≤ now → in_range now →
  ∃ payload, Marshal (recovered_event row now) = Ok payload ∧
    (∀ text, jsonb payload = Some text → Decode text = Ok (recovered_event row now)).
Proof.
  intros Hb Hle Hr. pose proof (recovered_valid _ _ Hb Hle) as Hv.
  pose proof (recovered_writable _ _ Hb Hr) as Hw.
  destruct (Marshal_total _ Hw Hv) as (payload & Hm). exists payload. split; [done|]. intros text Ht.
  destruct (marshaled_text _ _ _ Hw Hm Ht) as (raw & Hj & _). rewrite e_with_raw_none in Hj by done.
  unfold Decode. rewrite Hj. cbv zeta. rewrite andb_comm. cbn [recovered_event e_UsageSource String.eqb UsageSourceUnknown].
  by rewrite andb_false_l, Hv.
Qed.

(** What recovering makes of a row. *)
Definition recovered_row (record : UsageOutbox) (now : Time) (row : UsageOutbox) : Prop :=
  ob_State row = UsageOutboxReady ∧ row_kept record row ∧
  ∃ text, ob_Payload row = Some text ∧ Decode text = Ok (recovered_event record now).

(** The column takes what is written for the rows. *)
Definition takes_recovered (records : list UsageOutbox) : Prop :=
  ∀ record now payload, record ∈ records → Marshal (recovered_event record now) = Ok payload → is_Some (jsonb payload).

Lemma recover_rows_all env i records n o :
  (∀ j, re_recover env j = Applied) →
  (∀ j record, record ∈ records → ob_StartedAt record ≤ re_now env j ∧ in_range (re_now env j)) →
  takes_recovered records → NoDup (map ob_EventID records) →
  (∀ record, record ∈ records → begun record ∧ ob_State record = UsageOutboxPending ∧
     o !! ob_EventID record = Some record) →
  ∃ o', recover_rows env i records n o = (Ok (n + Z.of_nat (length records)), o') ∧
    (∀ id, id ∉ map ob_EventID records → o' !! id = o !! id) ∧
    (∀ j record, records !! j = Some record → ∃ row, o' !! ob_EventID record = Some row ∧
       recovered_row record (re_now env (1 + i + j)) row).
Proof.
  intros Ha Hclock. revert i n o. induction records as [|record records IH]; intros i n o Htake Hnd Hrows.
  { exists o. cbn. rewrite Z.add_0_r. split_and!; [done|done|]. intros j record. by rewrite lookup_nil. }
  cbn [map] in Hnd. apply NoDup_cons in Hnd as [Hnotin Hnd].
  destruct (Hrows record (list_elem_of_here _ _)) as (Hb & Hst & Hl).
  destruct (Hclock (1 + i)%nat record (list_elem_of_here _ _)) as [Hle Hr].
  destruct (recovered_marshal record _ Hb Hle Hr) as (payload & Hm & Hd).
  destruct (Htake record _ _ (list_elem_of_here _ _) Hm) as (text & Ht).
  cbn [recover_rows]. rewrite Hm, Ht. unfold recover_row. rewrite Hl.
  unfold in_state. rewrite bool_decide_true by done. rewrite Ha. cbn [after db_failed bool_decide decide].
  set (row := assigned _ _ _ _ record). set (o1 := <[_ := row]> o).
  destruct (IH (λ j r Hin, Hclock j r (list_elem_of_further _ _ _ Hin)) (1 + i)%nat (n + 1) o1)
    as (o' & He & Hother & Hmine).
  - intros r now p Hin. apply Htake. by right.
  - done.
  - intros r Hin. destruct (Hrows r) as (? & ? & ?); [by right|]. split_and!; [done|done|].
    unfold o1. rewrite lookup_insert_ne; [done|]. intros E. apply Hnotin. rewrite E. by apply list_elem_of_fmap_2.
  - exists o'. unfold db_failed. rewrite bool_decide_false by by intros []. rewrite He. split_and!.
    + f_equal. f_equal. cbn [length]. lia.
    + intros id Hid. cbn [map] in Hid. rewrite not_elem_of_cons in Hid. destruct Hid as [Hne Hid].
      rewrite (Hother _ Hid). unfold o1. by rewrite lookup_insert_ne.
    + intros [|j] r Hj.
      * injection Hj as <-. exists row. rewrite (Hother _ Hnotin). unfold o1. rewrite lookup_insert_eq.
        split; [done|]. split; [done|]. split; [by apply assigned_kept|]. exists text. split; [done|].
        rewrite Nat.add_0_r. by apply Hd.
      * destruct (Hmine j r Hj) as (row' & Hl' & Hrec). exists row'. split; [done|].
        by replace (1 + i + Datatypes.S j)%nat with (1 + (1 + i) + j)%nat by lia.
Qed.

(** A request whose process died is accounted for. When the database answers, the
    clock is sane and the column takes the text, recovering turns each of the oldest
    stale lifecycles, up to a batch, into a ready row whose payload decodes to the
    event of an interrupted request, with the row's own identity; and touches no
    other row. *)
Theorem stale_recovered relay env o :
  keyed o → re_read_pending env = true → (∀ j, re_recover env j = Applied) →
  let records := outbox_rows relay (stale_pending (re_now env 0 - or_pendingTimeout relay)) (by_key ob_UpdatedAt) o in
  (∀ j record, record ∈ records →
     begun record ∧ ob_StartedAt record ≤ re_now env j ∧ in_range (re_now env j)) →
  takes_recovered records →
  ∃ o', recoverPending relay env o = (Ok (Z.of_nat (length records)), o') ∧
    (∀ id, id ∉ map ob_EventID records → o' !! id = o !! id) ∧
    (∀ j record, records !! j = Some record → ∃ row, o' !! ob_EventID record = Some row ∧
       recovered_row record (re_now env (1 + j)) row).
Proof.
  intros Hk Hread Ha. cbv zeta. intros Hrec Htake. unfold recoverPending. rewrite Hread.
  set (records := outbox_rows _ _ _ _) in *.
  destruct (recover_rows_all env 0 records 0 o Ha) as (o' & He & Hother & Hmine).
  - intros j record Hr. by destruct (Hrec j record Hr) as (_ & ? & ?).
  - done.
  - by apply rows_nodup.
  - intros record Hr. destruct (Hrec 0%nat record Hr) as (Hb & _). split; [done|].
    apply outbox_rows_in in Hr as [Ht (id & Hl)]. apply andb_true_iff in Ht as [Ht _].
    apply bool_decide_eq_true in Ht. split; [done|]. by rewrite (Hk _ _ Hl).
  - exists o'. auto.
Qed.

(** ** What publishing achieves *)

Definition readable (row : UsageOutbox) : Prop := ∃ entry, relayed row entry.

(** A row whose event fits, as the column gives it back, can be published. *)
Lemma row_readable row event text raw :
  writable event → Event_Validate event = None →
  ob_Payload row = Some text → json_event text = Some (e_with_raw raw event) → raw_ok raw →
  str_len raw ≤ maximumRawUsageBytes → readable row.
Proof.
  intros Hw Hv Hp Hj Hraw Hlen. pose proof (Event_Validate_checked _ Hv) as Hc.
  assert (Event_Validate (e_with_raw raw event) = None) as Hv'.
  { rewrite e_with_raw_valid by done. destruct (e_Usage event); [|done].
    by replace (maximumRawUsageBytes <? str_len raw) with false by lia. }
  destruct (Marshal_total _ (e_with_raw_writable _ _ Hraw Hw) Hv') as (payload & Hm).
  exists (Some payload), text, (e_with_raw raw event), payload. split_and!; [done| |done|done].
  unfold Decode. rewrite Hj. cbv zeta.
  assert ((e_UsageSource (e_with_raw raw event) =? "")%string = false) as ->.
  { apply String.eqb_neq. pose proof (proj2 (c_source _ Hc)). by destruct event. }
  by rewrite andb_false_r, Hv'.
Qed.

(** Everything answers. *)
Record good_env (env : RelayEnv) : Prop := {
  ge_pending : re_read_pending env = true;
  ge_recover : ∀ i, re_recover env i = Applied;
  ge_ready : re_read_ready env = true;
  ge_xadd : ∀ i, re_xadd env i = Applied;
  ge_mark : re_mark env = Applied;
}.

Lemma append_records_total env i records s :
  (∀ j, re_xadd env j = Applied) → (∀ record, record ∈ records → readable record) →
  ∃ ids s', append_records env i records s = (Ok ids, s').
Proof.
  intros Hx. revert i s. induction records as [|record records IH]; intros i s Hr; cbn [append_records]; [eauto|].
  destruct (Hr record (list_elem_of_here _ _)) as (entry & text & event & payload & -> & -> & Hm & _).
  unfold redis_Emit. rewrite Hm. destruct (XAdd payload s) as [id s1]. rewrite Hx. cbn [after db_failed bool_decide decide].
  unfold db_failed. rewrite bool_decide_false by by intros [].
  destruct (IH (1 + i)%nat s1) as (ids & s' & ->); [|eauto]. intros r Hin. apply Hr. by right.
Qed.

Definition ready_ids (o : Outbox) : gset string := dom (filter (λ kv, ob_State kv.2 = UsageOutboxReady) o).

Lemma ready_ids_elem o id : id ∈ ready_ids o ↔ ∃ row, o !! id = Some row ∧ ob_State row = UsageOutboxReady.
Proof. unfold ready_ids. rewrite elem_of_dom. unfold is_Some. setoid_rewrite map_lookup_filter_Some. done. Qed.

Lemma mark_published_ready now ids o : ready_ids (mark_published now ids o) = ready_ids o ∖ list_to_set ids.
Proof.
  apply set_eq. intros id. rewrite elem_of_difference, elem_of_list_to_set, !ready_ids_elem, mark_published_lookup.
  destruct (decide (id ∈ ids)); [|naive_solver]. split; [|naive_solver].
  intros (row & (old & _ & ->)%fmap_Some & [=]).
Qed.

(** How many rows a page of the outbox has. *)
Lemma ready_rows_length relay o :
  keyed o → length (outbox_rows relay (in_state UsageOutboxReady) (by_key ob_UpdatedAt) o) =
    Nat.min (Z.to_nat (or_batchSize relay)) (size (ready_ids o)).
Proof.
  intros Hk. unfold outbox_rows. rewrite length_take. f_equal.
  pose proof (matching_nodup (in_state UsageOutboxReady) (by_key ob_UpdatedAt) o Hk) as Hnd.
  rewrite <-(length_map ob_EventID), <-(size_list_to_set (C:=gset string) _ Hnd). f_equal.
  apply set_eq. intros id. rewrite elem_of_list_to_set, ready_ids_elem, list_elem_of_fmap.
  setoid_rewrite matching_elem. unfold in_state. setoid_rewrite bool_decide_eq_true. split.
  - intros (row & -> & Hs & k & Hl). rewrite (Hk _ _ Hl). eauto.
  - intros (row & Hl & Hs). exists row. rewrite (Hk _ _ Hl). eauto.
Qed.

(** What is ready gets published. When everything answers, no lifecycle is stale
    and the ready rows can be read, [Publish] publishes a full batch of them, or all
    if they are fewer, the oldest first: it reports their number, that many rows
    fewer are ready, each row either stays as it is or is marked published with its
    event in the stream, and the batch was appended in order. *)
Theorem Publish_delivers relay env o s :
  keyed o → good_env env → 0 < or_batchSize relay →
  (∀ id row, o !! id = Some row → stale_pending (re_now env 0 - or_pendingTimeout relay) row = false) →
  (∀ id row, o !! id = Some row → ob_State row = UsageOutboxReady → readable row) →
  ready_ids o ≠ ∅ →
  let count := Nat.min (Z.to_nat (or_batchSize relay)) (size (ready_ids o)) in
  ∃ o' s', Publish relay env o s = (Ok (Z.of_nat count), o', s') ∧ (0 < count)%nat ∧
    size (ready_ids o') = (size (ready_ids o) - count)%nat ∧
    (∀ id, o' !! id = o !! id ∨
       ∃ row now, o !! id = Some row ∧ o' !! id = Some (published_at now row) ∧ delivered row s s') ∧
    (∃ ids, append_records env 0 (outbox_rows relay (in_state UsageOutboxReady) (by_key ob_UpdatedAt) o) s =
       (Ok ids, s') ∧ StronglySorted (by_key ob_UpdatedAt)
         (outbox_rows relay (in_state UsageOutboxReady) (by_key ob_UpdatedAt) o)).
Proof.
  intros Hk Henv Hb Hstale Hread Hne. cbv zeta.
  unfold Publish, recoverPending. rewrite (ge_pending _ Henv).
  assert (outbox_rows relay (stale_pending (re_now env 0 - or_pendingTimeout relay)) (by_key ob_UpdatedAt) o = []) as ->.
  { destruct (outbox_rows _ _ _ o) as [|row rows] eqn:E; [done|].
    destruct (outbox_rows_in relay (stale_pending (re_now env 0 - or_pendingTimeout relay)) (by_key ob_UpdatedAt) o row)
      as [Ht (id & Hl)]; [rewrite E; by left|]. rewrite (Hstale _ _ Hl) in Ht. done. }
  cbn [recover_rows]. rewrite (ge_ready _ Henv). cbn [negb].
  pose proof (ready_rows_length relay o Hk) as Hlen. pose proof (rows_nodup relay (in_state UsageOutboxReady) (by_key ob_UpdatedAt) o Hk) as Hnd.
  assert (0 < size (ready_ids o))%nat as Hpos.
  { apply Nat.neq_0_lt_0. intros E. apply Hne. by apply leibniz_equiv, size_empty_iff. }
  set (records := outbox_rows relay (in_state UsageOutboxReady) (by_key ob_UpdatedAt) o) in *.
  assert (∀ record, record ∈ records → ob_State record = UsageOutboxReady ∧ ∃ id, o !! id = Some record) as Hin.
  { intros record Hr. apply outbox_rows_in in Hr as [Ht Hl]. split; [|done]. by apply bool_decide_eq_true in Ht. }
  destruct (append_records_total env 0 records s (ge_xadd _ Henv)) as (ids & s' & Happ).
  { intros record Hr. destruct (Hin _ Hr) as [Hs (id & Hl)]. by eapply Hread. }
  pose proof (publishRecords_spec env (re_now env (2 + Z.to_nat (or_batchSize relay))) records o s Hk
    (λ r Hr, proj2 (Hin r Hr))) as Hspec.
  pose proof (append_records_appended env 0 records s) as Hids. rewrite Happ in Hids.
  destruct Hids as [_ Hids]. destruct (Hids _ eq_refl) as [-> _].
  assert (publishRecords env (re_now env (2 + Z.to_nat (or_batchSize relay))) records o s =
    (Ok (Z.of_nat (length records)), mark_published (re_now env (2 + Z.to_nat (or_batchSize relay))) (map ob_EventID records) o, s')) as E.
  { unfold publishRecords. rewrite Happ, (ge_mark _ Henv). cbn [after]. unfold db_failed.
    rewrite bool_decide_false by by intros []. rewrite <-(length_map ob_EventID).
    destruct records; [cbn in Hlen; lia|done]. }
  rewrite E in Hspec. destruct Hspec as (_ & _ & _ & Hrows).
  exists (mark_published (re_now env (2 + Z.to_nat (or_batchSize relay))) (map ob_EventID records) o), s'.
  split_and!.
  - rewrite <-Hlen. destruct records; [cbn in Hlen; lia|done].
  - lia.
  - rewrite mark_published_ready, size_difference.
    + rewrite (size_list_to_set _ Hnd), length_map. lia.
    + intros id. rewrite elem_of_list_to_set, list_elem_of_fmap, ready_ids_elem.
      intros (record & -> & Hr). destruct (Hin _ Hr) as [Hs (id & Hl)]. exists record. by rewrite (Hk _ _ Hl).
  - intros id. destruct (Hrows id) as [|(row & ? & ? & ?)]; [by left|]. right. eauto.
  - exists (map ob_EventID records). split; [done|]. unfold records, outbox_rows.
    eapply StronglySorted_app_1_l. rewrite take_drop. apply StronglySorted_merge_sort.
    + intros a b c. unfold by_key. lia.
    + intros a b. unfold by_key. lia.
Qed.

(** ** A row that cannot be read *)

Definition ended_kept (o o' : Outbox) : Prop :=
  ∀ id row, o !! id = Some row → ob_State row ≠ UsageOutboxPending → o' !! id = Some row.

Lemma recover_row_ended now text id o : ended_kept o (recover_row now text id o).1.
Proof.
  unfold recover_row. destruct (o !! id) as [old|] eqn:Ho; [|by intros ???].
  destruct (in_state _ old) eqn:Hs; [|by intros ???]. apply bool_decide_eq_true in Hs.
  intros k row Hl Hst. cbn [fst]. rewrite lookup_insert_ne; [done|]. intros <-. congruence.
Qed.

Lemma recoverPending_ended relay env o : ended_kept o (recoverPending relay env o).2.
Proof.
  unfold recoverPending. destruct (re_read_pending env); [|by intros ???].
  generalize (outbox_rows relay (stale_pending (re_now env 0 - or_pendingTimeout relay)) (by_key ob_UpdatedAt) o).
  intros records. generalize 0%nat 0. revert o. induction records as [|record records IH]; intros o i n; [by intros ???|].
  cbn [recover_rows]. destruct (Marshal _) as [payload|]; [|by intros ???].
  destruct (jsonb payload) as [text|]; [|by intros ???].
  pose proof (recover_row_ended (re_now env (1 + i)) text (ob_EventID record) o) as Hone.
  destruct (recover_row _ _ _ _) as [o1 affected]. cbn [fst] in Hone.
  assert (ended_kept o (after (re_recover env i) (λ _, o1) o)) as Hone'.
  { destruct (after_cases (re_recover env i) (λ _, o1) o) as [[-> _]|[-> _]]; [by intros ???|done]. }
  destruct (db_failed _); [done|]. intros k row Hl Hst. apply IH; [|done]. by apply Hone'.
Qed.

Lemma append_records_unreadable env i records s row text e :
  row ∈ records → ob_Payload row = Some text → Decode text = Err e →
  ∃ e' s', append_records env i records s = (Err e', s').
Proof.
  intros Hin Hp Hd. revert i s Hin. induction records as [|r records IH]; intros i s Hin; [by apply not_elem_of_nil in Hin|].
  cbn [append_records]. apply elem_of_cons in Hin as [<-|Hin]; [rewrite Hp, Hd; eauto|].
  destruct (ob_Payload r) as [t|]; [|eauto]. destruct (Decode t) as [event|]; [|eauto].
  destruct (redis_Emit _ event s) as [[id|e'] s1]; [|eauto].
  destruct (IH (1 + i)%nat s1 Hin) as (e' & s2 & ->). eauto.
Qed.

Lemma too_wide event text raw :
  Event_Validate event = None → e_Usage event ≠ None → json_event text = Some (e_with_raw raw event) → raw_ok raw →
  maximumRawUsageBytes < str_len raw → Decode text = Err (usage_error "usage raw data is invalid").
Proof.
  intros Hv Hu Hj Hraw Hlen. pose proof (Event_Validate_checked _ Hv) as Hc. unfold Decode. rewrite Hj. cbv zeta.
  assert ((e_UsageSource (e_with_raw raw event) =? "")%string = false) as ->.
  { apply String.eqb_neq. pose proof (proj2 (c_source _ Hc)). by destruct event. }
  rewrite andb_false_r, e_with_raw_valid by done. destruct (e_Usage event) as [u|]; [|done].
  by replace (maximumRawUsageBytes <? str_len raw) with true by lia.
Qed.

(** One event can block the relay. The emitter accepts every valid event; but
    when escaping, or PostgreSQL's spacing, has made its raw usage data longer than
    64 KiB, the row cannot be decoded, and as long as it is among the oldest ready
    rows [Publish] fails, whatever everything else answers, and marks nothing: each
    row that has ended stays exactly as it is, so that the same rows are tried again
    the next time. *)
Theorem relay_blocked relay env o s row event text raw :
  writable event → Event_Validate event = None → e_Usage event ≠ None →
  ob_Payload row = Some text → json_event text = Some (e_with_raw raw event) → raw_ok raw →
  maximumRawUsageBytes < str_len raw →
  row ∈ outbox_rows relay (in_state UsageOutboxReady) (by_key ob_UpdatedAt) (recoverPending relay env o).2 →
  (∃ write, Emit event = Ok write) ∧
  let '(r, o', s') := Publish relay env o s in
  (∃ e, r = Err e) ∧ ended_kept o o'.
Proof.
  intros Hw Hv Hu Hp Hj Hraw Hlen Hrow. split.
  { destruct (Marshal_total _ Hw Hv) as (payload & Hm). unfold Emit. rewrite Hm. by eexists. }
  pose proof (too_wide _ _ _ Hv Hu Hj Hraw Hlen) as Hd.
  pose proof (recoverPending_ended relay env o) as Hkept. unfold Publish.
  destruct (recoverPending relay env o) as [[n|e] o1]; cbn [snd] in *; [|by eauto].
  destruct (negb (re_read_ready env)); [by eauto|].
  destruct (outbox_rows relay (in_state UsageOutboxReady) (by_key ob_UpdatedAt) o1) as [|r records];
    [by apply not_elem_of_nil in Hrow|].
  unfold publishRecords.
  destruct (append_records_unreadable env 0 (r :: records) s row text _ Hrow Hp Hd) as (e & s' & ->). eauto.
Qed.
End relay_facts.

(** ** Examples *)

(** A stream that numbers its entries by the first free text. *)
Definition list_stream : EventStream (gmap string (option string) * gmap string Z).
Proof.
  refine {| stream_entries := fst; stream_pending := snd;
    XAdd := λ payload s, let id := fresh (dom s.1 ∪ dom s.2) in (id, (<[id := Some payload]> s.1, s.2)) |}.
  intros payload s. cbv zeta. pose proof (is_fresh (dom s.1 ∪ dom s.2)) as Hf. rewrite not_elem_of_union in Hf.
  destruct Hf as [H1 H2]. apply not_elem_of_dom in H1, H2. done.
Defined.

Section relay_examples.
#[local] Existing Instances text_column key_order list_stream.

Definition demo_relay : OutboxRelay :=
  {| or_consumerGroup := "g"; or_batchSize := 2; or_pendingTimeout := 15 * minute; or_republishAfter := 30 * second |}.

Definition demo_now : Time := 63871286400 * second.

Definition quiet_env : RelayEnv :=
  {| re_now := λ _, demo_now + hour; re_read_pending := true; re_recover := λ _, Applied; re_read_ready := true;
     re_groups := Some [{| gi_Name := "g"; gi_Pending := 0; gi_Lag := 0 |}]; re_read_published := true;
     re_xadd := λ _, Applied; re_mark := Applied |}.

Definition ready_row (id : string) (event : UsageEvent) : UsageOutbox :=
  stamped demo_now (dw_record (emit_write event)).

Definition ready_outbox : Outbox := {["use_1"%string := ready_row "use_1" (demo_event (Some small_usage))]}.
Definition pending_outbox : Outbox := {["use_9"%string := stamped demo_now (dw_record (begin_write "use_9"))]}.

(** The row of an event with this payload. *)
Definition text_row (text : string) : UsageOutbox :=
  stamped demo_now (new_row "use_1" "r" "t" "k" "m<é>" false UsageOutboxReady (Some text) demo_now).
Definition text_outbox (text : string) : Outbox := {["use_1"%string := text_row text]}.
Definition empty_stream : gmap string (option string) * gmap string Z := (∅, ∅).

Lemma singleton_keyed id row : ob_EventID row = id → keyed {[id := row]}.
Proof. intros Hid k r Hl. apply lookup_singleton_Some in Hl as [<- <-]. exact Hid. Qed.

Lemma Publish_safe_witness :
  let '(r, o', s') := Publish demo_relay quiet_env ready_outbox empty_stream in
  r = Ok 1 ∧ ∀ id row, o' !! id = Some row → ob_State row = UsageOutboxPublished →
    ready_outbox !! id = Some row ∨ delivered row empty_stream s'.
Proof.
  pose proof (Publish_safe demo_relay quiet_env ready_outbox empty_stream
    (singleton_keyed "use_1" (ready_row "use_1" (demo_event (Some small_usage))) ltac:(vm_compute; reflexivity))) as Hs.
  assert ((Publish demo_relay quiet_env ready_outbox empty_stream).1.1 = Ok 1) as Hr by (vm_compute; reflexivity).
  destruct (Publish demo_relay quiet_env ready_outbox empty_stream) as [[r o'] s'].
  destruct Hs as (_ & _ & _ & _ & Hp). split; [exact Hr|exact Hp].
Defined.

Lemma ready_row_readable : readable (ready_row "use_1" (demo_event (Some small_usage))).
Proof.
  set (text0 := default ""%string (ob_Payload (ready_row "use_1" (demo_event (Some small_usage))))).
  exists (Some text0), text0, (demo_event (Some (tu_with_raw small_usage (text "{'a':'\u003c'}")))), text0.
  split_and!; vm_compute; reflexivity.
Qed.

Lemma Publish_delivers_witness :
  ∃ o' s', Publish demo_relay quiet_env ready_outbox empty_stream = (Ok 1, o', s') ∧ size (ready_ids o') = 0%nat.
Proof.
  destruct (Publish_delivers demo_relay quiet_env ready_outbox empty_stream) as (o' & s' & Hr & _ & Hsize & _).
  - apply (singleton_keyed "use_1" (ready_row "use_1" (demo_event (Some small_usage)))). vm_compute. reflexivity.
  - constructor; try (vm_compute; reflexivity); intros i; vm_compute; reflexivity.
  - reflexivity.
  - intros id row Hl. unfold ready_outbox in Hl. apply lookup_singleton_Some in Hl as [_ <-]. vm_compute. reflexivity.
  - intros id row Hl _. unfold ready_outbox in Hl. apply lookup_singleton_Some in Hl as [_ <-]. exact ready_row_readable.
  - apply (bool_decide_unpack _). vm_compute. exact I.
  - exists o', s'. split; [exact Hr|]. rewrite Hsize. vm_compute. reflexivity.
Defined.

Lemma stale_recovered_witness :
  ∃ o' row, recoverPending demo_relay quiet_env pending_outbox = (Ok 1, o') ∧ o' !! "use_9"%string = Some row ∧
    recovered_row (stamped demo_now (dw_record (begin_write "use_9"))) (demo_now + hour) row.
Proof.
  assert (outbox_rows demo_relay (stale_pending (re_now quiet_env 0 - or_pendingTimeout demo_relay))
    (by_key ob_UpdatedAt) pending_outbox = [stamped demo_now (dw_record (begin_write "use_9"))]) as E
    by (vm_compute; reflexivity).
  destruct (stale_recovered demo_relay quiet_env pending_outbox) as (o' & Hr & _ & Hrows).
  - apply singleton_keyed. vm_compute. reflexivity.
  - vm_compute. reflexivity.
  - intros j. vm_compute. reflexivity.
  - rewrite E. intros j record ->%list_elem_of_singleton. split; [constructor|].
    + vm_compute. reflexivity.
    + apply (bool_decide_unpack _). vm_compute. exact I.
    + split; vm_compute; [discriminate|reflexivity].
    + split; [vm_compute; discriminate|]. split; vm_compute; [discriminate|reflexivity].
  - intros record now payload _ _. by exists payload.
  - rewrite E in Hr, Hrows. destruct (Hrows 0%nat _ eq_refl) as (row & Hl & Hrec).
    exists o', row. split; [exact Hr|]. split; [exact Hl|exact Hrec].
Defined.

Lemma wide_usage_writable : writable (demo_event (Some wide_usage)).
Proof.
  apply demo_event_writable. intros u [= <-]. split; [by intros c [=]|].
  right. exists 10%nat. vm_compute. reflexivity.
Qed.

Lemma text_page text :
  outbox_rows demo_relay (in_state UsageOutboxReady) (by_key ob_UpdatedAt)
    (recoverPending demo_relay quiet_env (text_outbox text)).2 = [text_row text].
Proof. vm_compute. reflexivity. Qed.

Lemma relay_blocked_witness :
  ∃ text, Marshal (demo_event (Some wide_usage)) = Ok text ∧
  let '(r, o', s') := Publish demo_relay quiet_env (text_outbox text) empty_stream in
  (∃ e, r = Err e) ∧ ended_kept (text_outbox text) o'.
Proof.
  assert (Event_Validate (demo_event (Some wide_usage)) = None) as Hv by (vm_compute; reflexivity).
  pose proof wide_usage_writable as Hw.
  destruct (json_event_encode _ Hw (Event_Validate_checked _ Hv)) as (text & He & Hj).
  exists text. split; [unfold Marshal; by rewrite Hv, He|].
  apply (relay_blocked demo_relay quiet_env (text_outbox text) empty_stream (text_row text)
    (demo_event (Some wide_usage)) text (marshaled_raw wide_raw) Hw Hv).
  - discriminate.
  - reflexivity.
  - exact Hj.
  - apply marshaled_raw_ok. exact (w_raw _ Hw).
  - vm_compute. reflexivity.
  - rewrite text_page. by apply list_elem_of_singleton.
Defined.
End relay_examples.
