(* ===== verification/Worker.v ===== *)
(** * The usage worker

    Models [src/internal/usage/worker.go]: the process that reads the stream, stores
    the events in batches, acknowledges what is stored, sets aside the entries that
    cannot be read, and in between runs the relay and the cleaning up.

    Redis, the database and the clock answer as an environment says; the consumer
    group is an interface with laws ([ConsumerGroup]), which extends the stream of
    Relay.v. The loop of [Run] is a step relation: the errors that end an iteration
    early are steps that leave the rest out. *)

From S2P Require Import Prelude Encoding Json JsonWrite BigRat Calendar Usage UsageJson Pricing UsageStore Outbox Relay.

(** ** The consumer group *)

(** A message as the client hands it over: its id, and the value of its field
    [payload] when that is a string. *)
Record Message := { m_ID : string; m_Payload : option string }.

(** [XREADGROUP] gives entries that the group has not been given, [XAUTOCLAIM] gives
    entries it has been given and not acknowledged, and counts the delivery; pending
    ids whose entry is gone may be dropped. [XACK] with [XDEL] forgets entries. *)
Class ConsumerGroup (S : Type) `{!EventStream S} := {
  XReadGroup : Z → S → list Message * S;
  XAutoClaim : string → Z → S → list Message * string * S;
  XAckDel : list string → S → S;
  read_entries : ∀ count s, stream_entries (XReadGroup count s).2 = stream_entries s;
  read_messages : ∀ count s m, m ∈ (XReadGroup count s).1 →
    stream_entries s !! m_ID m = Some (m_Payload m) ∧ stream_pending s !! m_ID m = None;
  read_pending : ∀ count s id, stream_pending (XReadGroup count s).2 !! id =
    if bool_decide (id ∈ map m_ID (XReadGroup count s).1) then Some 1 else stream_pending s !! id;
  claim_entries : ∀ start count s, stream_entries (XAutoClaim start count s).2 = stream_entries s;
  claim_messages : ∀ start count s m, m ∈ (XAutoClaim start count s).1.1 →
    stream_entries s !! m_ID m = Some (m_Payload m) ∧ is_Some (stream_pending s !! m_ID m);
  claim_pending : ∀ start count s id, stream_entries s !! id ≠ None →
    stream_pending (XAutoClaim start count s).2 !! id =
      if bool_decide (id ∈ map m_ID (XAutoClaim start count s).1.1)
      then (λ n, n + 1) <$> stream_pending s !! id else stream_pending s !! id;
  ackdel_entries : ∀ ids s, stream_entries (XAckDel ids s) = delete_keys ids (stream_entries s);
  ackdel_pending : ∀ ids s, stream_pending (XAckDel ids s) = delete_keys ids (stream_pending s);
}.

(** ** The worker *)

Definition maximumDeadLetterPayload : Z := 65536.

(** The settings the worker uses, of [config.Usage]. *)
Record WorkerConfig := {
  wc_StreamKey : string;
  wc_DeadLetterKey : string;
  wc_DeadLetterMaxLen : Z;
  wc_Group : string;
  wc_Consumer : string;
  wc_BatchSize : Z;
  wc_ReadBlock : Duration;
  wc_ClaimIdle : Duration;
  wc_MaxDeliveries : Z;
  wc_RetryBackoff : Duration;
  wc_WorkerTimeout : Duration;
  wc_RetentionDays : Z;
  wc_MaintenanceInterval : Duration;
  wc_MaintenanceBatch : Z;
  wc_PricingRefresh : Duration;
  wc_PendingTimeout : Duration;
}.

Definition NewWorker (settings : WorkerConfig) : option string :=
  first_error
    [(((wc_StreamKey settings =? "") || (wc_DeadLetterKey settings =? ""))%string,
        "usage worker requires stream keys"%string);
     (((wc_Group settings =? "") || (wc_Consumer settings =? ""))%string,
        "usage worker requires group and consumer names"%string);
     ((wc_DeadLetterMaxLen settings <=? 0) || (wc_BatchSize settings <=? 0) || (wc_MaxDeliveries settings <=? 0),
        "usage worker counts must be positive"%string);
     ((wc_ReadBlock settings <=? 0) || (wc_ClaimIdle settings <=? 0) || (wc_RetryBackoff settings <=? 0) ||
        (wc_WorkerTimeout settings <=? 0) || (wc_MaintenanceInterval settings <=? 0) ||
        (wc_PricingRefresh settings <=? 0) || (wc_PendingTimeout settings <? 5 * minute),
        "usage worker durations must be positive"%string);
     ((wc_RetentionDays settings <? 0) || (3650 <? wc_RetentionDays settings) ||
        (wc_MaintenanceBatch settings <=? 0) || (10000 <? wc_MaintenanceBatch settings),
        "usage worker maintenance configuration is invalid"%string)].

Record WorkerStats := {
  st_Read : Z;
  st_Claimed : Z;
  st_Stored : Z;
  st_Duplicates : Z;
  st_Failed : Z;
  st_DeadLettered : Z;
  st_Cleaned : Z;
  st_Relayed : Z;
}.

Definition no_stats : WorkerStats := Build_WorkerStats 0 0 0 0 0 0 0 0.

(** The counters are atomic 64-bit integers. *)
Definition stats_add (a b : WorkerStats) : WorkerStats :=
  let add f := wrap_int64 (f a + f b) in
  Build_WorkerStats (add st_Read) (add st_Claimed) (add st_Stored) (add st_Duplicates) (add st_Failed)
    (add st_DeadLettered) (add st_Cleaned) (add st_Relayed).

Definition count_read n := Build_WorkerStats n 0 0 0 0 0 0 0.
Definition count_claimed n := Build_WorkerStats 0 n 0 0 0 0 0 0.
Definition count_stored n d := Build_WorkerStats 0 0 n d 0 0 0 0.
Definition count_failed := Build_WorkerStats 0 0 0 0 1 0 0 0.
Definition count_dead := Build_WorkerStats 0 0 0 0 0 1 0 0.
Definition count_cleaned n := Build_WorkerStats 0 0 0 0 0 0 n 0.
Definition count_relayed n := Build_WorkerStats 0 0 0 0 0 0 0 n.

Record DeadLetter := { dl_source : string; dl_reason : string; dl_payload : string }.

Inductive WorkerError := WRedis | WAwaitingRedelivery | WPendingUnavailable.

(** What the worker works on. *)
Record WorkerState (S : Type) := {
  ws_db : UsageDB;
  ws_stream : S;
  ws_dead : list DeadLetter;
  ws_stats : WorkerStats;
}.
Arguments ws_db {S}. Arguments ws_stream {S}. Arguments ws_dead {S}. Arguments ws_stats {S}.

Definition with_db {S} (db : UsageDB) (w : WorkerState S) : WorkerState S :=
  {| ws_db := db; ws_stream := ws_stream w; ws_dead := ws_dead w; ws_stats := ws_stats w |}.
Definition with_stream {S} (s : S) (w : WorkerState S) : WorkerState S :=
  {| ws_db := ws_db w; ws_stream := s; ws_dead := ws_dead w; ws_stats := ws_stats w |}.
Definition with_dead {S} (dead : list DeadLetter) (w : WorkerState S) : WorkerState S :=
  {| ws_db := ws_db w; ws_stream := ws_stream w; ws_dead := dead; ws_stats := ws_stats w |}.
Definition count {S} (c : WorkerStats) (w : WorkerState S) : WorkerState S :=
  {| ws_db := ws_db w; ws_stream := ws_stream w; ws_dead := ws_dead w; ws_stats := stats_add (ws_stats w) c |}.

(** What happens during a batch: whether each pending query is answered, how each
    transaction on a dead letter is, and how many old letters it trims; whether the
    context of the batch has expired after each message; the prices and the time of
    storing, and how storing and acknowledging are answered. *)
Record ProcessEnv := {
  pv_query : nat → bool;
  pv_dead : nat → DbAnswer;
  pv_trim : nat → nat;
  pv_expired : nat → bool;
  pv_pricing : option PricingCatalog;
  pv_now : Time;
  pv_store : DbAnswer;
  pv_ack : DbAnswer;
}.

Section worker.
Context {S : Type} `{ConsumerGroup S}.

Definition deliveryCount (query : bool) (entryID : string) (s : S) : result WorkerError Z :=
  if negb query then Err WRedis
  else match stream_pending s !! entryID with Some n => Ok n | None => Err WPendingUnavailable end.

(** [XADD] with an approximate limit: at least as many entries as the limit stay. *)
Definition trimmed (limit : Z) (trim : nat) (letters : list DeadLetter) : list DeadLetter :=
  drop (Nat.min trim (length letters - Z.to_nat limit)) letters.

Definition handlePoison (config : WorkerConfig) (env : ProcessEnv) (i : nat) (message : Message) (reason : string)
    (w : WorkerState S) : option WorkerError * WorkerState S :=
  match deliveryCount (pv_query env i) (m_ID message) (ws_stream w) with
  | Err e => (Some e, w)
  | Ok deliveries =>
      if deliveries <? wc_MaxDeliveries config then (Some WAwaitingRedelivery, w)
      else
        let payload := default ""%string (m_Payload message) in
        let payload := if maximumDeadLetterPayload <? str_len payload
                       then substring 0 (Z.to_nat maximumDeadLetterPayload) payload else payload in
        let letter := {| dl_source := m_ID message; dl_reason := reason; dl_payload := payload |} in
        let w' := with_dead (trimmed (wc_DeadLetterMaxLen config) (pv_trim env i) (ws_dead w ++ [letter]))
                    (with_stream (XAckDel [m_ID message] (ws_stream w)) w) in
        let w := after (pv_dead env i) (λ _, w') w in
        if db_failed (pv_dead env i) then (Some WRedis, w) else (None, count count_dead w)
  end.

Definition recordEntryError (err : option WorkerError) (w : WorkerState S) : WorkerState S :=
  match err with None => w | Some _ => count count_failed w end.

(** The loop over the messages: the entries to store, or [None] when the context has
    expired. *)
Fixpoint decode_messages (config : WorkerConfig) (env : ProcessEnv) (i : nat) (messages : list Message)
    (entries : list storeEntry) (w : WorkerState S) : option (list storeEntry) * WorkerState S :=
  match messages with
  | [] => (Some entries, w)
  | message :: messages =>
      match m_Payload message with
      | None =>
          let '(err, w) := handlePoison config env i message "missing_payload" w in
          decode_messages config env (1 + i) messages entries (recordEntryError err w)
      | Some payload =>
          match Decode payload with
          | Err _ =>
              let '(err, w) := handlePoison config env i message "invalid_event" w in
              decode_messages config env (1 + i) messages entries (recordEntryError err w)
          | Ok event =>
              let entries := entries ++ [{| se_entryID := m_ID message; se_event := event |}] in
              if pv_expired env i then (None, w) else decode_messages config env (1 + i) messages entries w
          end
      end
  end.

Definition acknowledge (answer : DbAnswer) (entryIDs : list string) (w : WorkerState S) : bool * WorkerState S :=
  (negb (db_failed answer), after answer (λ w, with_stream (XAckDel entryIDs (ws_stream w)) w) w).

Definition processBatch (config : WorkerConfig) (env : ProcessEnv) (messages : list Message) (w : WorkerState S)
  : WorkerState S :=
  match decode_messages config env 0 messages [] w with
  | (None, w) => w
  | (Some [], w) => w
  | (Some entries, w) =>
      match putBatch (pv_pricing env) (pv_now env) entries (pv_store env) (ws_db w) with
      | (Err _, db) => count count_failed (with_db db w)
      | (Ok (stored, duplicates), db) =>
          let w := count (count_stored stored duplicates) (with_db db w) in
          let '(ok, w) := acknowledge (pv_ack env) (map se_entryID entries) w in
          if ok then w else count count_failed w
      end
  end.

(** [maintain]. *)
Definition maintain `{Scan} (config : WorkerConfig) (fuel : nat) (rounds : nat → CleanupRound) (now : Time)
    (w : WorkerState S) : option (WorkerState S) :=
  if wc_RetentionDays config =? 0 then Some w
  else
    let before := now - wc_RetentionDays config * day in
    match DeleteExpiredUntilIdle fuel rounds before (wc_MaintenanceBatch config) 0 (db_events (ws_db w)) with
    | None => None
    | Some ((deleted, error), events) =>
        let w := with_db {| db_outbox := db_outbox (ws_db w); db_events := events |} w in
        Some (match error with Some _ => count count_failed w | None => count (count_cleaned deleted) w end)
    end.

(** The call of the relay. *)
Definition run_relay `{Jsonb} `{Scan} (relay : OutboxRelay) (env : RelayEnv) (w : WorkerState S) : WorkerState S :=
  let '(r, outbox, s) := Publish relay env (db_outbox (ws_db w)) (ws_stream w) in
  let w := with_stream s (with_db {| db_outbox := outbox; db_events := db_events (ws_db w) |} w) in
  match r with Err _ => count count_failed w | Ok relayed => count (count_relayed relayed) w end.

(** One iteration of [Run] from the claim on, with [claimStart]; how the claim and
    the read are answered. The refresh of the prices changes what later batches are
    priced with ([pv_pricing]). *)
Definition claim_and_process (config : WorkerConfig) (claimed read : DbAnswer) (env : ProcessEnv) (claimStart : string)
    (w : WorkerState S) : string * WorkerState S :=
  let '(messages, nextClaimStart, s) := XAutoClaim claimStart (wc_BatchSize config) (ws_stream w) in
  let w := after claimed (with_stream s) w in
  if db_failed claimed then (claimStart, w)
  else
    match messages with
    | _ :: _ =>
        (nextClaimStart, processBatch config env messages (count (count_claimed (Z.of_nat (length messages))) w))
    | [] =>
        if negb (nextClaimStart =? "0-0")%string then (nextClaimStart, w)
        else
          let '(messages, s) := XReadGroup (wc_BatchSize config) (ws_stream w) in
          let w := after read (with_stream s) w in
          if db_failed read then (nextClaimStart, w)
          else (nextClaimStart, processBatch config env messages (count (count_read (Z.of_nat (length messages))) w))
    end.
End worker.

(** ** What processing a batch does *)

Section worker_facts.
Context {S : Type} `{ConsumerGroup S}.

Lemma delete_keys_get {A} (ids : list string) (m : gmap string A) id :
  delete_keys ids m !! id = if bool_decide (id ∈ ids) then None else m !! id.
Proof. apply delete_keys_lookup. Qed.

(** A message that cannot be read as an event. *)
Definition poison (m : Message) : Prop :=
  match m_Payload m with None => True | Some payload => ∀ event, Decode payload ≠ Ok event end.

Definition holds_event (m : Message) (event : UsageEvent) : Prop :=
  ∃ payload, m_Payload m = Some payload ∧ Decode payload = Ok event.

Lemma poison_or_event m : poison m ∨ ∃ event, holds_event m event.
Proof.
  unfold poison, holds_event. destruct (m_Payload m) as [payload|]; [|by left].
  destruct (Decode payload) as [event|] eqn:Hd; [right; by exists event, payload|by left].
Qed.

(** The poisonous messages of a list that were set aside. *)
Record set_aside (config : WorkerConfig) (messages : list Message) (w w' : WorkerState S) : Prop := {
  sa_db : ws_db w' = ws_db w;
  sa_entries : ∃ ids, stream_entries (ws_stream w') = delete_keys ids (stream_entries (ws_stream w)) ∧
    stream_pending (ws_stream w') = delete_keys ids (stream_pending (ws_stream w)) ∧
    (length ids ≤ length messages)%nat ∧
    (∃ letters k, ws_dead w' = drop k (ws_dead w ++ letters) ∧ map dl_source letters = ids ∧
      (Nat.min (Z.to_nat (wc_DeadLetterMaxLen config)) (length (ws_dead w ++ letters)) ≤ length (ws_dead w'))%nat) ∧
    ∀ id, id ∈ ids → ∃ m n, m ∈ messages ∧ m_ID m = id ∧ poison m ∧
      stream_pending (ws_stream w) !! id = Some n ∧ wc_MaxDeliveries config ≤ n;
}.

Lemma delete_keys_app {A} (xs ys : list string) (m : gmap string A) :
  delete_keys ys (delete_keys xs m) = delete_keys (xs ++ ys) m.
Proof. unfold delete_keys. by rewrite foldl_app. Qed.

Lemma set_aside_refl config messages w w' :
  ws_db w' = ws_db w → ws_stream w' = ws_stream w → ws_dead w' = ws_dead w → set_aside config messages w w'.
Proof.
  intros Hdb Hs Hd. split; [done|]. exists []. rewrite Hs. split_and!; [done|done|cbn; lia| |].
  - exists [], 0%nat. rewrite Hd, app_nil_r. split_and!; [done|done|lia].
  - intros id Hid. by apply not_elem_of_nil in Hid.
Qed.

Lemma set_aside_trans config ms1 ms2 w w1 w' :
  set_aside config ms1 w w1 → set_aside config ms2 w1 w' → set_aside config (ms1 ++ ms2) w w'.
Proof.
  intros [Hdb1 (ids1 & He1 & Hp1 & Hn1 & (l1 & k1 & Hd1 & Hm1 & Hl1) & Hw1)] [Hdb2 (ids2 & He2 & Hp2 & Hn2 & (l2 & k2 & Hd2 & Hm2 & Hl2) & Hw2)].
  split; [congruence|]. exists (ids1 ++ ids2). rewrite He2, He1, Hp2, Hp1, !delete_keys_app.
  split_and!; [done|done|rewrite !length_app; lia| |].
  - exists (l1 ++ l2), (Nat.min k1 (length (ws_dead w ++ l1)) + k2)%nat. rewrite Hd1 in Hd2, Hl2. split_and!.
    + rewrite Hd2, app_assoc. rewrite <-drop_drop.
      assert (drop (Nat.min k1 (length (ws_dead w ++ l1))) ((ws_dead w ++ l1) ++ l2) = drop k1 (ws_dead w ++ l1) ++ l2) as ->; [|done].
      rewrite drop_app_le by lia. f_equal. destruct (Nat.le_ge_cases k1 (length (ws_dead w ++ l1))).
      * by rewrite Nat.min_l.
      * rewrite Nat.min_r by done. by rewrite !drop_ge by lia.
    + rewrite map_app. congruence.
    + revert Hl1 Hl2. rewrite Hd1, !length_app, !length_drop, !length_app. lia.
  - intros id [Hid|Hid]%elem_of_app.
    + destruct (Hw1 _ Hid) as (m & n & Hm & Hrest). exists m, n. rewrite elem_of_app. auto.
    + destruct (Hw2 _ Hid) as (m & n & Hm & Hmid & Hpo & Hn & Hle). exists m, n. rewrite elem_of_app.
      rewrite Hp1, delete_keys_get in Hn. destruct (bool_decide _); [done|]. auto.
Qed.

Lemma count_fields c (w : WorkerState S) :
  ws_db (count c w) = ws_db w ∧ ws_stream (count c w) = ws_stream w ∧ ws_dead (count c w) = ws_dead w.
Proof. done. Qed.

Lemma handlePoison_set_aside config env i m reason w :
  poison m →
  let '(err, w') := handlePoison config env i m reason w in set_aside config [m] w (recordEntryError err w').
Proof.
  intros Hpo. unfold handlePoison, deliveryCount. destruct (negb (pv_query env i)); [by apply set_aside_refl|].
  destruct (stream_pending (ws_stream w) !! m_ID m) as [n|] eqn:Hn; [|by apply set_aside_refl].
  destruct (n <? wc_MaxDeliveries config) eqn:Hle; [by apply set_aside_refl|]. apply Z.ltb_ge in Hle.
  set (letter := Build_DeadLetter _ _ _). set (w1 := with_dead _ _).
  assert (set_aside config [m] w w1) as Hset.
  { split; [done|]. exists [m_ID m]. cbn. rewrite ackdel_entries, ackdel_pending. split_and!; [done|done|done| |].
    - exists [letter], (Nat.min (pv_trim env i) (length (ws_dead w ++ [letter]) - Z.to_nat (wc_DeadLetterMaxLen config))).
      split_and!; [done|done|]. unfold trimmed. rewrite length_drop. lia.
    - intros id ->%list_elem_of_singleton. exists m, n. rewrite list_elem_of_singleton. auto. }
  destruct (pv_dead env i); cbn [after db_failed bool_decide decide].
  - destruct Hset as [Hdb He]. split; [exact Hdb|exact He].
  - by apply set_aside_refl.
  - destruct Hset as [Hdb He]. split; [exact Hdb|exact He].
Qed.

(** The entries to store are those of the messages that hold an event. *)
Definition entries_of (messages : list Message) : list storeEntry :=
  omap (λ m, match m_Payload m with
             | Some payload => match Decode payload with
                               | Ok event => Some {| se_entryID := m_ID m; se_event := event |}
                               | Err _ => None end
             | None => None end) messages.

Lemma decode_messages_spec config env i messages entries w :
  let '(r, w') := decode_messages config env i messages entries w in
  set_aside config messages w w' ∧ (∀ all, r = Some all → all = entries ++ entries_of messages).
Proof.
  revert i entries w. induction messages as [|m messages IH]; intros i entries w; cbn [decode_messages].
  { split; [by apply set_aside_refl|]. intros all [= <-]. by rewrite app_nil_r. }
  assert (∀ reason, poison m → entries_of (m :: messages) = entries_of messages →
    let '(r, w') := let '(err, w) := handlePoison config env i m reason w in
      decode_messages config env (1 + i) messages entries (recordEntryError err w) in
    set_aside config (m :: messages) w w' ∧
    (∀ all, r = Some all → all = entries ++ entries_of (m :: messages))) as Hpoison.
  { intros reason Hpo ->. pose proof (handlePoison_set_aside config env i m reason w Hpo) as Hset.
    destruct (handlePoison _ _ _ _ _ _) as [err w1]. specialize (IH (1 + i)%nat entries (recordEntryError err w1)).
    destruct (decode_messages _ _ _ _ _ _) as [r w2]. destruct IH as [IH1 IH2]. split; [|done].
    by apply (set_aside_trans config [m] messages _ (recordEntryError err w1)). }
  destruct (m_Payload m) as [payload|] eqn:Hp.
  2:{ apply Hpoison; unfold poison, entries_of; cbn; by rewrite Hp. }
  destruct (Decode payload) as [event|e] eqn:Hd.
  2:{ apply Hpoison; unfold poison, entries_of; cbn; rewrite Hp; [intros ev; congruence|by rewrite Hd]. }
  destruct (pv_expired env i); [split; [by apply set_aside_refl|done]|].
  specialize (IH (1 + i)%nat (entries ++ [{| se_entryID := m_ID m; se_event := event |}]) w).
  destruct (decode_messages _ _ _ _ _ _) as [r w2]. destruct IH as [IH1 IH2]. split.
  - apply (set_aside_trans config [m] messages _ w); [by apply set_aside_refl|done].
  - intros all Hr. rewrite (IH2 _ Hr), <-app_assoc. f_equal. unfold entries_of. cbn. by rewrite Hp, Hd.
Qed.

Lemma entries_of_elem messages entry :
  entry ∈ entries_of messages ↔ ∃ m, m ∈ messages ∧ m_ID m = se_entryID entry ∧ holds_event m (se_event entry).
Proof.
  unfold entries_of, holds_event. rewrite list_elem_of_omap. split.
  - intros (m & Hm & He). exists m. destruct (m_Payload m) as [payload|]; [|done].
    destruct (Decode payload) as [event|] eqn:Hd; [|done]. injection He as <-. cbn. eauto.
  - intros (m & Hm & Hid & payload & Hp & Hd). exists m. rewrite Hp, Hd, Hid. split; [done|]. by destruct entry.
Qed.

Lemma entries_of_valid messages : all_valid (entries_of messages).
Proof.
  apply Forall_forall. intros entry (m & _ & _ & payload & _ & Hd)%entries_of_elem. by apply Decode_valid in Hd.
Qed.

(** The transaction that stores a batch. *)
Record batch_stored (env : ProcessEnv) (entries : list storeEntry) (db db' : UsageDB) : Prop := {
  bs_kept : ∀ id row, db_events db !! id = Some row → db_events db' !! id = Some row;
  bs_new : ∀ id row, db_events db' !! id = Some row → db_events db !! id = Some row ∨
    ∃ entry, entry ∈ entries ∧ id = e_EventID (se_event entry) ∧
      row = usageRecord (pv_pricing env) (se_entryID entry) (se_event entry) (pv_now env);
  bs_outbox : ∀ id, db_outbox db' !! id = db_outbox db !! id ∨
    (db_outbox db' !! id = None ∧ is_Some (db_events db' !! id));
}.

Lemma putBatch_stored env entries answer db :
  all_valid entries → entries ≠ [] →
  let '(r, db') := putBatch (pv_pricing env) (pv_now env) entries answer db in
  batch_stored env entries db db' ∧
  (answer ≠ Refused → ∀ id, id ∈ entry_ids entries → is_Some (db_events db' !! id) ∧ db_outbox db' !! id = None) ∧
  (answer = Applied ↔ ∃ stored, r = Ok stored).
Proof.
  intros Hv Hne. rewrite putBatch_valid by done. cbv zeta.
  destruct (insert_batch (pv_pricing env) (pv_now env) entries (db_events db)) as (Hk & Hmine & Hother & Ho & _).
  set (events := insert_events _ _) in *.
  assert (batch_stored env entries db {| db_outbox := delete_keys (entry_ids entries) (db_outbox db); db_events := events.1 |}) as Hst.
  { split; cbn; [done| |].
    - intros id row Hr. destruct (Ho _ _ Hr) as [|Hin]; [by left|].
      destruct (decide (id ∈ entry_ids entries)) as [Hid|Hid]; [|left; by rewrite <-Hother].
      destruct (db_events db !! id) as [old|] eqn:Hold; [apply Hk in Hold; left; congruence|].
      right. apply list_elem_of_fmap in Hin as (entry & -> & He). exists entry. split_and!; [done| |done].
      destruct (insert_events_inserted (db_events db) (entry_rows (pv_pricing env) (pv_now env) entries)) as [_ _ Ho' _ _].
      fold events in Ho'. destruct (Ho' _ _ Hr) as [|[_ E]]; [congruence|]. by rewrite <-E.
    - intros id. rewrite delete_keys_get. case_bool_decide as Hid; [|by left]. right. auto. }
  assert (∀ id, id ∈ entry_ids entries → is_Some (events.1 !! id) ∧
    delete_keys (entry_ids entries) (db_outbox db) !! id = None) as Hgone.
  { intros id Hid. split; [by apply Hmine|]. by rewrite delete_keys_get, bool_decide_true. }
  destruct answer; cbn [after db_failed bool_decide decide]; unfold db_failed; cbn.
  - split_and!; [done|done|split; eauto].
  - split_and!; [by split; auto|done|split; [done|by intros []]].
  - split_and!; [done|done|split; [done|by intros []]].
Qed.

Lemma batch_stored_refl env entries db : batch_stored env entries db db.
Proof. split; auto. Qed.

Lemma processBatch_cases config env messages w :
  let w' := processBatch config env messages w in
  ∃ w1, set_aside config messages w w1 ∧
    batch_stored env (entries_of messages) (ws_db w) (ws_db w') ∧
    (ws_stream w' = ws_stream w1 ∨
     (∀ id, id ∈ entry_ids (entries_of messages) → is_Some (db_events (ws_db w') !! id)) ∧
       ws_stream w' = XAckDel (map se_entryID (entries_of messages)) (ws_stream w1)).
Proof.
  cbv zeta. unfold processBatch. pose proof (decode_messages_spec config env 0 messages [] w) as Hd.
  destruct (decode_messages config env 0 messages [] w) as [r w1]. destruct Hd as [Hset Hall]. exists w1.
  split; [done|]. pose proof (sa_db _ _ _ _ Hset) as Hdb.
  destruct r as [all|]; [|rewrite Hdb; split; [apply batch_stored_refl|by left]].
  specialize (Hall all eq_refl). cbn in Hall.
  destruct all as [|e es]; [rewrite Hdb; split; [apply batch_stored_refl|by left]|].
  assert (entries_of messages ≠ []) as Hne by by rewrite <-Hall.
  pose proof (putBatch_stored env (entries_of messages) (pv_store env) (ws_db w) (entries_of_valid _) Hne) as Hput.
  rewrite Hall, Hdb. destruct (putBatch _ _ (entries_of messages) _ _) as [[[stored duplicates]|e'] db'];
    destruct Hput as (Hst & Hmine & Hiff); [|by split; [|left]].
  assert (pv_store env = Applied) as Happ by (apply Hiff; eauto).
  unfold acknowledge. destruct (pv_ack env); cbn; (split; [done|]);
    [right|left; done|right]; (split; [intros id Hid; apply Hmine; [congruence|done]|done]).
Qed.

(** C32: nothing is acknowledged before it is safe. Whatever fails on the way, a batch
    keeps the stored events as they are, adds only the records of its own events,
    takes a row out of the outbox only when its event is stored; and an entry leaves
    the stream only when the event it holds is stored, or, if it holds none, when it
    has been delivered as often as the settings ask. *)
Theorem processBatch_safe config env messages w :
  let w' := processBatch config env messages w in
  (∀ id row, db_events (ws_db w) !! id = Some row → db_events (ws_db w') !! id = Some row) ∧
  (∀ id row, db_events (ws_db w') !! id = Some row → db_events (ws_db w) !! id = Some row ∨
     ∃ m event, m ∈ messages ∧ holds_event m event ∧ id = e_EventID event ∧
       row = usageRecord (pv_pricing env) (m_ID m) event (pv_now env)) ∧
  (∀ id, db_outbox (ws_db w') !! id = db_outbox (ws_db w) !! id ∨
     (db_outbox (ws_db w') !! id = None ∧ is_Some (db_events (ws_db w') !! id))) ∧
  (∀ id, stream_entries (ws_stream w') !! id = stream_entries (ws_stream w) !! id ∨
     stream_entries (ws_stream w') !! id = None ∧ ∃ m, m ∈ messages ∧ m_ID m = id ∧
       ((∃ event, holds_event m event ∧ is_Some (db_events (ws_db w') !! e_EventID event)) ∨
        (poison m ∧ ∃ n, stream_pending (ws_stream w) !! id = Some n ∧ wc_MaxDeliveries config ≤ n))).
Proof.
  destruct (processBatch_cases config env messages w) as (w1 & Hset & [Hk Hn Ho] & Hs). cbv zeta in *.
  set (w' := processBatch config env messages w) in *.
  destruct (sa_entries _ _ _ _ Hset) as (ids & He & Hp & _ & _ & Hw).
  split_and!; [done| |done|].
  - intros id row Hr. destruct (Hn _ _ Hr) as [|(entry & (m & Hm & Hid & Hev)%entries_of_elem & -> & ->)]; [by left|].
    right. exists m, (se_event entry). by rewrite Hid.
  - assert (∀ id, stream_entries (ws_stream w1) !! id = stream_entries (ws_stream w) !! id ∨
      stream_entries (ws_stream w1) !! id = None ∧ ∃ m, m ∈ messages ∧ m_ID m = id ∧ poison m ∧
        ∃ n, stream_pending (ws_stream w) !! id = Some n ∧ wc_MaxDeliveries config ≤ n) as Haside.
    { intros id. rewrite He, delete_keys_get. case_bool_decide as Hid; [|by left]. right. split; [done|].
      destruct (Hw _ Hid) as (m & n & ?). naive_solver. }
    assert (∀ id, stream_entries (ws_stream w1) !! id = stream_entries (ws_stream w) !! id ∨
      stream_entries (ws_stream w1) !! id = None ∧ ∃ m, m ∈ messages ∧ m_ID m = id ∧
       ((∃ event, holds_event m event ∧ is_Some (db_events (ws_db w') !! e_EventID event)) ∨
        (poison m ∧ ∃ n, stream_pending (ws_stream w) !! id = Some n ∧ wc_MaxDeliveries config ≤ n))) as Haside'.
    { intros id. destruct (Haside id) as [|(? & m & ? & ? & ? & ?)]; [by left|]. right. split; [done|]. eauto 10. }
    intros id. destruct Hs as [->|[Hstored ->]]; [by apply Haside'|].
    rewrite ackdel_entries, delete_keys_get. case_bool_decide as Hid; [|by apply Haside'].
    right. split; [done|]. apply list_elem_of_fmap in Hid as (entry & -> & Hentry).
    pose proof Hentry as (m & Hm & Hmid & Hev)%entries_of_elem. exists m. split_and!; [done|done|]. left.
    exists (se_event entry). split; [done|]. apply Hstored. apply list_elem_of_fmap. by exists entry.
Qed.

(** Everything answers during the batch. *)
Record good_process (env : ProcessEnv) : Prop := {
  gp_query : ∀ i, pv_query env i = true;
  gp_dead : ∀ i, pv_dead env i = Applied;
  gp_expired : ∀ i, pv_expired env i = false;
  gp_store : pv_store env = Applied;
  gp_ack : pv_ack env = Applied;
}.

Lemma db_applied : db_failed Applied = false.
Proof. reflexivity. Qed.

Lemma handlePoison_good config env i m reason w n :
  good_process env → stream_pending (ws_stream w) !! m_ID m = Some n → wc_MaxDeliveries config ≤ n →
  stream_entries (ws_stream (handlePoison config env i m reason w).2) !! m_ID m = None.
Proof.
  intros Hg Hn Hle. unfold handlePoison, deliveryCount. rewrite (gp_query _ Hg), Hn. cbn [negb].
  apply Z.ltb_ge in Hle. rewrite Hle, (gp_dead _ Hg), db_applied. cbn. rewrite ackdel_entries, delete_keys_get.
  by rewrite bool_decide_true by by left.
Qed.

Lemma set_aside_gone config messages w w' id :
  set_aside config messages w w' → stream_entries (ws_stream w) !! id = None →
  stream_entries (ws_stream w') !! id = None.
Proof.
  intros Hset Hid. destruct (sa_entries _ _ _ _ Hset) as (ids & -> & _). rewrite delete_keys_get, Hid.
  by destruct (bool_decide _).
Qed.

Lemma set_aside_pending config messages w w' id :
  set_aside config messages w w' →
  stream_pending (ws_stream w') !! id = stream_pending (ws_stream w) !! id ∨ stream_entries (ws_stream w') !! id = None.
Proof.
  intros Hset. destruct (sa_entries _ _ _ _ Hset) as (ids & -> & -> & _). rewrite !delete_keys_get.
  destruct (bool_decide _); auto.
Qed.

Lemma decode_messages_good config env i messages entries w :
  good_process env →
  let '(r, w') := decode_messages config env i messages entries w in
  is_Some r ∧ ∀ m n, m ∈ messages → poison m → stream_pending (ws_stream w) !! m_ID m = Some n →
    wc_MaxDeliveries config ≤ n → stream_entries (ws_stream w') !! m_ID m = None.
Proof.
  intros Hg. revert i entries w. induction messages as [|m messages IH]; intros i entries w; cbn [decode_messages].
  { split; [eauto|]. intros m n Hm. by apply not_elem_of_nil in Hm. }
  assert (∀ reason, poison m →
    let '(r, w') := let '(err, w) := handlePoison config env i m reason w in
      decode_messages config env (1 + i) messages entries (recordEntryError err w) in
    is_Some r ∧ ∀ m' n, m' ∈ m :: messages → poison m' → stream_pending (ws_stream w) !! m_ID m' = Some n →
      wc_MaxDeliveries config ≤ n → stream_entries (ws_stream w') !! m_ID m' = None) as Hpoison.
  { intros reason Hpo. pose proof (handlePoison_set_aside config env i m reason w Hpo) as Hset.
    pose proof (λ n, handlePoison_good config env i m reason w n Hg) as Hgood.
    destruct (handlePoison _ _ _ _ _ _) as [err w1]. cbn [snd] in Hgood.
    set (w2 := recordEntryError err w1) in *.
    assert (ws_stream w2 = ws_stream w1) as Hsame by by destruct err.
    specialize (IH (1 + i)%nat entries w2).
    pose proof (decode_messages_spec config env (1 + i) messages entries w2) as Hspec.
    destruct (decode_messages _ _ _ _ _ _) as [r w3]. destruct IH as [IH1 IH2], Hspec as [Hset2 _]. split; [done|].
    intros m' n [->|Hm']%elem_of_cons Hpo' Hn Hle.
    - apply (set_aside_gone _ _ _ _ _ Hset2). rewrite Hsame. by eapply Hgood.
    - destruct (set_aside_pending _ _ _ _ (m_ID m') Hset) as [E|E].
      + apply (IH2 _ n Hm' Hpo'); [by rewrite E|done].
      + by apply (set_aside_gone _ _ _ _ _ Hset2). }
  destruct (m_Payload m) as [payload|] eqn:Hp.
  2:{ apply Hpoison. unfold poison. by rewrite Hp. }
  destruct (Decode payload) as [event|e] eqn:Hd.
  2:{ apply Hpoison. unfold poison. rewrite Hp. intros ev. congruence. }
  rewrite (gp_expired _ Hg). specialize (IH (1 + i)%nat (entries ++ [{| se_entryID := m_ID m; se_event := event |}]) w).
  destruct (decode_messages _ _ _ _ _ _) as [r w2]. destruct IH as [IH1 IH2]. split; [done|].
  intros m' n [->|Hm']%elem_of_cons Hpo; [|by apply IH2]. exfalso. unfold poison in Hpo. rewrite Hp in Hpo. by apply (Hpo event).
Qed.

(** A batch settles. When everything answers, every message of a batch that holds
    an event is stored, leaves the outbox, and leaves the stream; one that holds none
    leaves the stream as a dead letter once it has been delivered often enough, and
    stays until then. *)
Theorem processBatch_settles config env messages w :
  good_process env → NoDup (map m_ID messages) →
  (∀ m, m ∈ messages → stream_entries (ws_stream w) !! m_ID m = Some (m_Payload m)) →
  Z.of_nat (length messages) ≤ wc_DeadLetterMaxLen config →
  let w' := processBatch config env messages w in
  ∀ m, m ∈ messages →
    (∀ event, holds_event m event →
       is_Some (db_events (ws_db w') !! e_EventID event) ∧ db_outbox (ws_db w') !! e_EventID event = None ∧
       stream_entries (ws_stream w') !! m_ID m = None) ∧
    (poison m → ∀ n, stream_pending (ws_stream w) !! m_ID m = Some n →
       if wc_MaxDeliveries config <=? n
       then stream_entries (ws_stream w') !! m_ID m = None ∧
         ∃ letter, letter ∈ ws_dead w' ∧ dl_source letter = m_ID m
       else stream_entries (ws_stream w') !! m_ID m = Some (m_Payload m)).
Proof.
  intros Hg Hnd Hentry Hlimit. cbv zeta. unfold processBatch.
  pose proof (decode_messages_spec config env 0 messages [] w) as Hd.
  pose proof (decode_messages_good config env 0 messages [] w Hg) as Hgood.
  destruct (decode_messages config env 0 messages [] w) as [r w1]. destruct Hd as [Hset Hall], Hgood as [[all ->] Hgood].
  specialize (Hall all eq_refl). cbn in Hall. pose proof (sa_db _ _ _ _ Hset) as Hdb.
  destruct (sa_entries _ _ _ _ Hset) as (ids & He & _ & Hlen & (letters & k & Hdead & Hids & Hkeep) & Hw).
  assert (∀ m n, m ∈ messages → poison m → stream_pending (ws_stream w) !! m_ID m = Some n →
    (if wc_MaxDeliveries config <=? n
     then stream_entries (ws_stream w1) !! m_ID m = None ∧ ∃ letter, letter ∈ ws_dead w1 ∧ dl_source letter = m_ID m
     else stream_entries (ws_stream w1) !! m_ID m = Some (m_Payload m))) as Hpoison.
  { intros m n Hm Hpo Hn. destruct (wc_MaxDeliveries config <=? n) eqn:Hle.
    - apply Z.leb_le in Hle. pose proof (Hgood m n Hm Hpo Hn Hle) as Hgone. split; [done|].
      rewrite He, delete_keys_get in Hgone. case_bool_decide as Hid; [|rewrite (Hentry m Hm) in Hgone; done].
      rewrite <-Hids in Hid. apply list_elem_of_fmap in Hid as (letter & Hsrc & Hl). exists letter. split; [|done].
      rewrite Hdead. assert (length letters = length ids) as Hll by by rewrite <-Hids, length_map.
      rewrite Hdead, !length_drop, length_app in Hkeep. destruct (Nat.le_ge_cases k (length (ws_dead w))).
      + rewrite drop_app_le by lia. apply elem_of_app. by right.
      + destruct letters as [|l0 ls]; [by apply not_elem_of_nil in Hl|]. cbn in *.
        assert (k = length (ws_dead w)) as -> by lia. by rewrite drop_app_length.
    - apply Z.leb_gt in Hle. rewrite He, delete_keys_get, bool_decide_false; [by apply Hentry|].
      intros Hid. destruct (Hw _ Hid) as (m' & n' & _ & _ & _ & Hn' & Hle'). rewrite Hn in Hn'. injection Hn' as <-. lia. }
  assert (∀ m event, m ∈ messages → holds_event m event → {| se_entryID := m_ID m; se_event := event |} ∈ all) as Hin.
  { intros m event Hm Hev. rewrite Hall. apply entries_of_elem. by exists m. }
  destruct all as [|e es].
  { intros m Hm. split; [|by intros Hpo n; apply Hpoison]. intros event Hev. by apply (Hin _ _ Hm), not_elem_of_nil in Hev. }
  set (all := e :: es) in *. assert (all ≠ []) as Hne by done. clearbody all.
  pose proof (putBatch_stored env all (pv_store env) (ws_db w1) ltac:(rewrite Hall; apply entries_of_valid) Hne) as Hput.
  destruct (putBatch _ _ all _ _) as [r db']. destruct Hput as (_ & Hstored & Hiff).
  destruct (proj1 Hiff (gp_store _ Hg)) as [[stored duplicates] ->].
  unfold acknowledge. rewrite (gp_ack _ Hg), db_applied. cbn.
  intros m Hm. rewrite ackdel_entries, delete_keys_get. split.
  - intros event Hev. specialize (Hin m event Hm Hev).
    destruct (Hstored ltac:(by rewrite (gp_store _ Hg)) (e_EventID event)) as [H1' H2'].
    { apply list_elem_of_fmap. by exists {| se_entryID := m_ID m; se_event := event |}. }
    split_and!; [done|done|]. rewrite bool_decide_true; [done|]. apply list_elem_of_fmap.
    by exists {| se_entryID := m_ID m; se_event := event |}.
  - intros Hpo n Hn. rewrite bool_decide_false; [by apply Hpoison|].
    intros (entry & Hid & Hen)%list_elem_of_fmap. rewrite Hall in Hen.
    apply entries_of_elem in Hen as (m' & Hm' & Hid' & payload & Hp & Hd).
    assert (m' = m) as ->.
    { apply list_elem_of_lookup in Hm as [i Hi], Hm' as [j Hj].
      assert (i = j) as ->; [|congruence]. apply (NoDup_lookup _ _ _ (m_ID m) Hnd).
      - change (map m_ID messages) with (m_ID <$> messages). by rewrite list_lookup_fmap, Hi.
      - change (map m_ID messages) with (m_ID <$> messages). rewrite list_lookup_fmap, Hj. cbn. by rewrite Hid', Hid. }
    unfold poison in Hpo. rewrite Hp in Hpo. by apply (Hpo (se_event entry)).
Qed.
End worker_facts.

(** ** The pipeline, statement by statement

    The emitter, the relay, the workers and the repricing of [model-velo-admin] are separate
    processes; what they have in common is the database. Each of their statements is one
    step, in whatever order the processes issue them. Retention deletes what ended before
    [cutoff], the latest instant that any of its runs was given. *)

(** A row with other costs, or the same. *)
Definition same_but_cost (row row' : UsageRow) : Prop :=
  ∃ input output total currency source version caveat,
    row' = with_costs row input output total currency source version caveat.

#[export] Instance same_but_cost_preorder : PreOrder same_but_cost.
Proof.
  split.
  - intros []. by do 7 eexists.
  - intros a b c (?&?&?&?&?&?&?&->) (?&?&?&?&?&?&?&->). by do 7 eexists.
Qed.

Section statements.
Context `{Jsonb} `{Scan} (cutoff : Time).

Inductive db_statement : UsageDB → UsageDB → Prop :=
| st_pending now row db :
    db_statement db {| db_outbox := insert_pending now (db_outbox db) row; db_events := db_events db |}
| st_ready now row db :
    ob_State row ≠ UsageOutboxPending →
    db_statement db {| db_outbox := upsert_ready now (db_outbox db) row; db_events := db_events db |}
| st_recover now text id db :
    db_statement db {| db_outbox := (recover_row now text id (db_outbox db)).1; db_events := db_events db |}
| st_publish now ids db :
    db_statement db {| db_outbox := mark_published now ids (db_outbox db); db_events := db_events db |}
| st_store pricing now entries answer db :
    all_valid entries → db_statement db (putBatch pricing now entries answer db).2
(** [DELETE ... WHERE event_id IN ?] of retention, for rows that were read as expired. *)
| st_cleanup ids db :
    (∀ id row, id ∈ ids → db_events db !! id = Some row → expired cutoff row) →
    db_statement db {| db_outbox := db_outbox db; db_events := delete_keys ids (db_events db) |}
(** [UPDATE ... SET] the columns of the cost [WHERE event_id = ?] of repricing. *)
| st_reprice id input output total currency source version caveat db :
    db_statement db {| db_outbox := db_outbox db;
      db_events := alter (λ row, with_costs row input output total currency source version caveat) id (db_events db) |}.

(** The table [db_outbox] changes by statements, the events stay. *)
Definition outbox_statements (o o' : Outbox) : Prop :=
  ∀ events, rtc db_statement {| db_outbox := o; db_events := events |} {| db_outbox := o'; db_events := events |}.

#[export] Instance outbox_statements_preorder : PreOrder outbox_statements.
Proof. split; [intros o e; reflexivity|]. intros a b c Hab Hbc e. exact (transitivity (Hab e) (Hbc e)). Qed.

Lemma outbox_statement o o' :
  (∀ events, db_statement {| db_outbox := o; db_events := events |} {| db_outbox := o'; db_events := events |}) →
  outbox_statements o o'.
Proof. intros Hst e. apply rtc_once, Hst. Qed.

Lemma foldl_statements {B} (f : Outbox → B → Outbox) l o :
  (∀ o b, b ∈ l → outbox_statements o (f o b)) → outbox_statements o (foldl f o l).
Proof.
  intros Hf. apply (foldl_kept (outbox_statements o)); [done|]. intros a b Hb Ha. etrans; [exact Ha|]. by apply Hf.
Qed.

Lemma after_statements answer (f : Outbox → Outbox) o :
  outbox_statements o (f o) → outbox_statements o (after answer f o).
Proof. intros Hf. by destruct (after_cases answer f o) as [[-> _]|[-> _]]. Qed.

Lemma writeBatch_statements env batch o : Forall sent batch → outbox_statements o (writeBatch env batch o).2.
Proof.
  intros Hsent. unfold writeBatch.
  set (pending := map dw_record _). set (ready := map dw_record (filter (λ w, dw_ready w = true) batch)).
  assert (outbox_statements o (writePending (be_pending_at env) pending (be_pending env) o).2) as H1.
  { unfold writePending. destruct pending as [|r l]; [done|]. apply after_statements, foldl_statements.
    intros o1 b _. apply outbox_statement. intros e. exact (st_pending _ b {| db_outbox := o1; db_events := e |}). }
  destruct (writePending _ _ _ _) as [ok o1]. cbn [snd] in H1. etrans; [exact H1|]. clear H1.
  assert (Forall (λ row, ob_State row ≠ UsageOutboxPending) ready) as Hst by by apply sent_ready_rows.
  assert (outbox_statements o1 (writeReady (be_ready_at env) ready (be_ready env) o1).2) as H2.
  { unfold writeReady. destruct ready as [|r l]; [done|]. destruct (mapM stored_row (r :: l)) as [rows|] eqn:Hm; [|done].
    case_bool_decide; [|done]. apply after_statements, foldl_statements. intros o2 b Hb.
    apply outbox_statement. intros e. apply (st_ready _ b {| db_outbox := o2; db_events := e |}).
    by apply (proj1 (Forall_forall _ _) (stored_rows_ready _ _ Hm Hst)). }
  by destruct (writeReady _ _ _ _).
Qed.

Context {S : Type} `{!EventStream S} `{!ConsumerGroup S}.

Lemma recover_rows_statements env i records n o : outbox_statements o (recover_rows env i records n o).2.
Proof.
  revert i n o. induction records as [|record records IH]; intros i n o; cbn [recover_rows]; [done|].
  destruct (Marshal _) as [payload|]; [|done]. destruct (jsonb payload) as [text|]; [|done].
  assert (outbox_statements o (recover_row (re_now env (1 + i)) text (ob_EventID record) o).1) as Hone.
  { apply outbox_statement. intros e. exact (st_recover _ _ _ {| db_outbox := o; db_events := e |}). }
  destruct (recover_row _ _ _ _) as [o1 affected]. cbn [fst] in Hone.
  assert (outbox_statements o (after (re_recover env i) (λ _, o1) o)) as Hone' by by apply after_statements.
  destruct (db_failed _); [done|]. etrans; [exact Hone'|apply IH].
Qed.

Lemma publishRecords_statements env now records o (s : S) : outbox_statements o (publishRecords env now records o s).1.2.
Proof.
  unfold publishRecords. destruct (append_records env 0 records s) as [[[|id ids]|e] s']; [done| |done].
  assert (outbox_statements o (after (re_mark env) (mark_published now (id :: ids)) o)) as Hm.
  { apply after_statements, outbox_statement. intros e. exact (st_publish _ _ {| db_outbox := o; db_events := e |}). }
  by destruct (db_failed _).
Qed.

Lemma Publish_statements relay env o (s : S) : outbox_statements o (Publish relay env o s).1.2.
Proof.
  unfold Publish. assert (outbox_statements o (recoverPending relay env o).2) as Hr.
  { unfold recoverPending. destruct (re_read_pending env); [apply recover_rows_statements|done]. }
  destruct (recoverPending relay env o) as [[n|e] o1]; [|done]. etrans; [exact Hr|].
  destruct (negb (re_read_ready env)); [done|]. destruct (outbox_rows relay _ _ o1).
  - destruct (consumerCaughtUp _ _) as [[]|]; [|done|done]. destruct (negb _); [done|].
    apply publishRecords_statements.
  - apply publishRecords_statements.
Qed.

Lemma handlePoison_db config env i m reason (w : WorkerState S) :
  ws_db (recordEntryError (handlePoison config env i m reason w).1 (handlePoison config env i m reason w).2) = ws_db w.
Proof.
  unfold handlePoison. destruct (deliveryCount _ _ _) as [n|]; [|done]. destruct (_ <? _); [done|].
  by destruct (pv_dead env i).
Qed.

Lemma processBatch_statements config env messages (w : WorkerState S) :
  rtc db_statement (ws_db w) (ws_db (processBatch config env messages w)).
Proof.
  unfold processBatch. pose proof (decode_messages_spec config env 0 messages [] w) as Hd.
  destruct (decode_messages _ _ _ _ _ _) as [[all|] w1]; destruct Hd as [Hset Hall];
    pose proof (sa_db _ _ _ _ Hset) as <-; [|done].
  specialize (Hall all eq_refl). cbn in Hall. destruct all as [|e es]; [done|].
  pose proof (st_store (pv_pricing env) (pv_now env) (e :: es) (pv_store env) (ws_db w1)
    ltac:(rewrite Hall; apply entries_of_valid)) as Hst.
  destruct (putBatch _ _ _ _ _) as [[[stored duplicates]|err] db']; cbn [snd] in Hst; [|by apply rtc_once].
  unfold acknowledge. destruct (pv_ack env); by apply rtc_once.
Qed.
Lemma claim_statements config claimed read env claimStart (w : WorkerState S) :
  rtc db_statement (ws_db w) (ws_db (claim_and_process config claimed read env claimStart w).2).
Proof.
  unfold claim_and_process. destruct (XAutoClaim _ _ _) as [[messages next] s].
  assert (ws_db (after claimed (with_stream s) w) = ws_db w) as Hc by by destruct claimed.
  destruct (db_failed claimed); [by rewrite <-Hc|]. destruct messages as [|m messages].
  - destruct (negb _); [by rewrite <-Hc|]. destruct (XReadGroup _ _) as [messages s'].
    assert (ws_db (after read (with_stream s') (after claimed (with_stream s) w)) = ws_db w) as Hr by by destruct read.
    destruct (db_failed read); [by rewrite <-Hr|]. rewrite <-Hr.
    exact (processBatch_statements config env messages (count (count_read (Z.of_nat (length messages))) _)).
  - rewrite <-Hc. exact (processBatch_statements config env (m :: messages) (count (count_claimed _) _)).
Qed.

(** A round of cleaning up is one statement. *)
Lemma cleaned_statement before o events events' :
  before ≤ cutoff → cleaned before events events' →
  db_statement {| db_outbox := o; db_events := events |} {| db_outbox := o; db_events := events' |}.
Proof.
  intros Hle [Hsub Hkept]. set (gone := (map_to_list (filter (λ r, events' !! r.1 = None) events)).*1).
  assert (∀ id, id ∈ gone ↔ is_Some (events !! id) ∧ events' !! id = None) as Hgone.
  { intros id. unfold gone. rewrite list_elem_of_fmap. split.
    - intros ([k row] & -> & [Hk Hn]%elem_of_map_to_list%map_lookup_filter_Some). cbn in *. eauto.
    - intros [[row Hr] Hn]. exists (id, row). split; [done|]. by apply elem_of_map_to_list, map_lookup_filter_Some. }
  clearbody gone. assert (events' = delete_keys gone events) as Hdel.
  { apply map_eq. intros id. rewrite delete_keys_lookup. case_bool_decide as Hid; [by apply Hgone|].
    destruct (events' !! id) as [row|] eqn:Hr; [by rewrite (Hsub _ _ Hr)|].
    destruct (events !! id) eqn:He; [|done]. exfalso. apply Hid, Hgone. eauto. }
  rewrite Hdel. apply (st_cleanup gone {| db_outbox := o; db_events := events |}). cbn [db_events]. intros id row [_ Hn]%Hgone Hr.
  destruct (decide (expired before row)) as [He|He]; [unfold expired in *; lia|]. rewrite (Hkept _ _ Hr He) in Hn. done.
Qed.

Lemma maintain_statements config fuel rounds now (w : WorkerState S) :
  (size (db_events (ws_db w)) < fuel)%nat →
  ∃ w', maintain config fuel rounds now w = Some w' ∧
    (now - wc_RetentionDays config * day ≤ cutoff → rtc db_statement (ws_db w) (ws_db w')).
Proof.
  intros Hf. unfold maintain. destruct (_ =? 0); [by exists w|]. cbv zeta.
  destruct (cleanup_terminates fuel rounds (now - wc_RetentionDays config * day) (wc_MaintenanceBatch config) (db_events (ws_db w)) Hf)
    as (deleted & error & events' & -> & Hc & _).
  eexists. split; [done|]. intros Hle. pose proof (cleaned_statement _ (db_outbox (ws_db w)) _ _ Hle Hc) as Hst.
  assert (ws_db w = {| db_outbox := db_outbox (ws_db w); db_events := db_events (ws_db w) |}) as -> by by destruct (ws_db w).
  destruct error; by apply rtc_once.
Qed.

Context `{UnicodeUpper} `{Collation}.

Lemma update_event_statement pricing o events id row :
  events !! id = Some row →
  db_statement {| db_outbox := o; db_events := events |} {| db_outbox := o; db_events := update_event pricing events (id, row) |}.
Proof.
  intros Hr. assert (same_but_cost row (reprice_row pricing row)) as (i & ou & t & c & so & v & k & Heq).
  { unfold reprice_row. destruct (cr_Snapshot _); by do 7 eexists. }
  assert (update_event pricing events (id, row) = alter (λ r, with_costs r i ou t c so v k) id events) as ->.
  { unfold update_event. cbn [fst snd]. rewrite Heq. apply map_eq. intros x. destruct (decide (x = id)) as [->|Hne].
    - by rewrite !lookup_alter_eq, Hr.
    - by rewrite !lookup_alter_ne by done. }
  exact (st_reprice id i ou t c so v k {| db_outbox := o; db_events := events |}).
Qed.

Lemma update_events_statements pricing o rows events :
  NoDup rows.*1 → (∀ k r, (k, r) ∈ rows → events !! k = Some r) →
  rtc db_statement {| db_outbox := o; db_events := events |} {| db_outbox := o; db_events := foldl (update_event pricing) events rows |}.
Proof.
  revert events. induction rows as [|[k r] rows IH]; intros events Hnd Hin; [done|]. cbn [foldl].
  cbn [fmap list_fmap fst] in Hnd. apply NoDup_cons in Hnd as [Hk Hnd].
  eapply rtc_l; [apply update_event_statement, Hin, list_elem_of_here|]. apply IH; [done|].
  intros k' r' Hr'. unfold update_event. rewrite lookup_alter_ne.
  - apply Hin. by apply list_elem_of_further.
  - intros <-. apply Hk. apply list_elem_of_fmap. by exists (k, r').
Qed.

Lemma Reprice_statements params pricing read answer o events :
  rtc db_statement {| db_outbox := o; db_events := events |}
    {| db_outbox := o; db_events := (Reprice params pricing read answer events).2 |}.
Proof.
  unfold Reprice. cbv zeta. destruct (reprice_error _); [done|]. destruct (if (_ =? "")%string then _ else _) as [cursor|]; [|done].
  destruct (negb read); [done|]. set (found := take _ _). set (rows := if (_ <? _)%nat then _ else _).
  assert (sublist rows (reprice_rows (reprice_params params) cursor events)) as Hsub.
  { unfold rows, found. destruct (_ <? _)%nat; [etrans; [apply sublist_take|]|]; apply sublist_take. }
  assert (rtc db_statement {| db_outbox := o; db_events := events |}
    {| db_outbox := o; db_events := after answer (λ events, foldl (update_event pricing) events rows) events |}) as Hrtc.
  { destruct (after_cases answer (λ events, foldl (update_event pricing) events rows) events) as [[-> _]|[-> _]]; [done|].
    apply update_events_statements.
    - eapply sublist_NoDup; [apply (reprice_rows_keys (reprice_params params) cursor events)|]. by apply (fmap_sublist fst).
    - intros k r Hr. apply (sublist_elem_of _ _ _ Hsub) in Hr || (eapply elem_of_sublist in Hr; [|exact Hsub]). by apply reprice_rows_elem in Hr as []. }
  by destruct (db_failed answer).
Qed.
End statements.

Section pipeline.
Context `{Jsonb} `{Scan} `{UnicodeUpper} `{Collation} {S : Type} `{!EventStream S} `{!ConsumerGroup S}.
Context (cutoff : Time).

(** C31: the emitter, the relay, the worker and the repricing change the database by statements
    of the pipeline only, whatever fails in between: a batch of the emitter and a run of the
    relay are sequences of statements on the outbox; a batch of the worker, and an iteration
    of its loop, store; a run of its retention ends, and deletes only rows that ended before
    its instant; repricing updates the columns of the cost. So whatever the order in which
    several processes run, what happens to the database is a sequence of such statements. *)
Theorem pipeline_refines env batch relay renv config penv messages claimed read claimStart fuel rounds now
    params pricing rread answer (w : WorkerState S) o :
  Forall sent batch →
  outbox_statements cutoff o (writeBatch env batch o).2 ∧
  outbox_statements cutoff (db_outbox (ws_db w)) (db_outbox (ws_db (run_relay relay renv w))) ∧
  rtc (db_statement cutoff) (ws_db w) (ws_db (run_relay relay renv w)) ∧
  rtc (db_statement cutoff) (ws_db w) (ws_db (processBatch config penv messages w)) ∧
  rtc (db_statement cutoff) (ws_db w) (ws_db (claim_and_process config claimed read penv claimStart w).2) ∧
  ((size (db_events (ws_db w)) < fuel)%nat → ∃ w', maintain config fuel rounds now w = Some w' ∧
     (now - wc_RetentionDays config * day ≤ cutoff → rtc (db_statement cutoff) (ws_db w) (ws_db w'))) ∧
  rtc (db_statement cutoff) (ws_db w)
    {| db_outbox := db_outbox (ws_db w); db_events := (Reprice params pricing rread answer (db_events (ws_db w))).2 |}.
Proof.
  intros Hsent. split; [by apply writeBatch_statements|].
  pose proof (Publish_statements cutoff relay renv (db_outbox (ws_db w)) (ws_stream w)) as Hp.
  assert (ws_db (run_relay relay renv w) = {| db_outbox := (Publish relay renv (db_outbox (ws_db w)) (ws_stream w)).1.2;
    db_events := db_events (ws_db w) |}) as ->.
  { unfold run_relay. by destruct (Publish _ _ _ _) as [[[] ?] ?]. }
  split_and!; [exact Hp| |apply processBatch_statements|apply claim_statements|apply maintain_statements|].
  - specialize (Hp (db_events (ws_db w))). by destruct (ws_db w).
  - pose proof (Reprice_statements cutoff params pricing rread answer (db_outbox (ws_db w)) (db_events (ws_db w))) as Hr.
    by destruct (ws_db w).
Qed.

Definition accounted (db : UsageDB) (id : string) : Prop :=
  is_Some (db_outbox db !! id) ∨ is_Some (db_events db !! id).

(** An event that was stored on the way, and was then old enough for retention. *)
Definition retired (db db' : UsageDB) (id : string) : Prop :=
  ∃ db1 row, rtc (db_statement cutoff) db db1 ∧ db_events db1 !! id = Some row ∧ expired cutoff row ∧
    rtc (db_statement cutoff) db1 db'.

(** What one statement does to a stored event and to a row of the outbox. *)
Record statement_kept (db db' : UsageDB) : Prop := {
  sk_events : ∀ id row, db_events db !! id = Some row →
    (∃ row', db_events db' !! id = Some row' ∧ same_but_cost row row') ∨ expired cutoff row;
  sk_outbox : ∀ id row, db_outbox db !! id = Some row →
    (∃ row', db_outbox db' !! id = Some row' ∧ row_kept row row') ∨ is_Some (db_events db' !! id);
}.

Lemma outbox_le_kept o o' events :
  outbox_le o o' → statement_kept {| db_outbox := o; db_events := events |} {| db_outbox := o'; db_events := events |}.
Proof.
  intros Hle. split; cbn; intros id row Hr; left; [by exists row|by apply Hle].
Qed.

Lemma outbox_same_kept o events events' :
  (∀ id row, events !! id = Some row → (∃ row', events' !! id = Some row' ∧ same_but_cost row row') ∨ expired cutoff row) →
  statement_kept {| db_outbox := o; db_events := events |} {| db_outbox := o; db_events := events' |}.
Proof. intros Hev. split; cbn; [done|]. intros id row Hr. left. by exists row. Qed.

Lemma db_statement_kept db db' : db_statement cutoff db db' → statement_kept db db'.
Proof.
  intros [now row [o e]|now row [o e] Hr|now text id [o e]|now ids [o e]|pricing now entries answer [o e] Hv
    |ids [o e] Hids|id input output total currency source version caveat [o e]].
  1-4: apply outbox_le_kept.
  - apply insert_pending_le.
  - by apply upsert_ready_le.
  - apply recover_row_le.
  - apply mark_published_le.
  - destruct (decide (entries = [])) as [->|Hne]; [by apply outbox_same_kept; intros id row Hr; left; exists row|].
    pose proof (putBatch_stored {| pv_query := λ _, true; pv_dead := λ _, Applied; pv_trim := λ _, 0%nat;
      pv_expired := λ _, false; pv_pricing := pricing; pv_now := now; pv_store := answer; pv_ack := Applied |}
      entries answer {| db_outbox := o; db_events := e |} Hv Hne) as Hput. cbn [pv_pricing pv_now] in Hput.
    destruct (putBatch pricing now entries answer _) as [r db1]. cbn [snd]. destruct Hput as ([Hk _ Ho] & _).
    split; intros id row Hr; [left; exists row; split; [by apply Hk|done]|].
    destruct (Ho id) as [E|[_ Hs]]; [|by right]. left. exists row. by rewrite E.
  - apply outbox_same_kept. intros id row Hr. destruct (decide (id ∈ ids)) as [Hid|Hid]; [right; by eapply Hids|].
    left. exists row. rewrite delete_keys_lookup, bool_decide_false by done. done.
  - apply outbox_same_kept. intros x row Hr. left. destruct (decide (x = id)) as [->|Hne].
    + rewrite lookup_alter_eq. cbn [db_events] in *. rewrite Hr. cbn [fmap option_fmap option_map]. eexists. split; [done|]. by do 7 eexists.
    + rewrite lookup_alter_ne by done. by exists row.
Qed.

Lemma retired_step db db1 db2 id : retired db db1 id → db_statement cutoff db1 db2 → retired db db2 id.
Proof. intros (d & row & ? & ? & ? & ?) ?. exists d, row. split_and!; try done. by eapply rtc_r. Qed.

Lemma stored_step db db1 db2 id :
  rtc (db_statement cutoff) db db1 → db_statement cutoff db1 db2 → is_Some (db_events db1 !! id) →
  is_Some (db_events db2 !! id) ∨ retired db db2 id.
Proof.
  intros Hr Hs [row Hrow]. destruct (db_statement_kept _ _ Hs) as [He _].
  destruct (He _ _ Hrow) as [(row' & Hrow' & _)|Hexp]; [left; eauto|right]. exists db1, row. split_and!; [done..|]. by apply rtc_once.
Qed.

(** C30: no event is lost, and none is in the table twice. From the moment an event has a row
    in the outbox, it has one there or among the stored events, whatever statements the
    emitter, the relay, the workers, their retention and the repricing issue and in whatever
    order, or else it was stored and had ended before the cutoff of the retention; a row of
    the outbox keeps its identity, and is not reopened, until its event is stored; and a
    stored event that did not end before the cutoff stays, as it was stored first but for
    the columns of its cost. *)
Theorem no_event_lost db db' :
  rtc (db_statement cutoff) db db' →
  (∀ id, accounted db id → accounted db' id ∨ retired db db' id) ∧
  (∀ id row, db_outbox db !! id = Some row →
     (∃ row', db_outbox db' !! id = Some row' ∧ row_kept row row') ∨ is_Some (db_events db' !! id) ∨ retired db db' id) ∧
  (∀ id row, db_events db !! id = Some row → ¬ expired cutoff row →
     ∃ row', db_events db' !! id = Some row' ∧ same_but_cost row row').
Proof.
  revert db'. apply (rtc_ind_r (λ db', _)).
  { split_and!; [by left|intros id row Hr; left; by exists row|intros id row Hr _; by exists row]. }
  intros db1 db2 Hsteps Hs (IHa & IHo & IHe). pose proof (db_statement_kept _ _ Hs) as [He Ho].
  pose proof (λ id, stored_step db db1 db2 id Hsteps Hs) as Hst. split_and!.
  - intros id [[[row Hr]|Hr]|Hr]%IHa; [| |right; by eapply retired_step].
    + left. destruct (Ho _ _ Hr) as [(row' & Hr' & _)|]; [left; eauto|by right].
    + destruct (Hst id Hr); [left; by right|by right].
  - intros id row [(row1 & Hr1 & Hk1)|[Hr|Hr]]%IHo; [|by right; apply Hst|right; right; by eapply retired_step].
    destruct (Ho _ _ Hr1) as [(row2 & Hr2 & Hk2)|]; [|right; by left]. left. exists row2. split; [done|]. by etrans.
  - intros id row Hr Hne. destruct (IHe _ _ Hr Hne) as (row1 & Hr1 & Hk1). destruct (He _ _ Hr1) as [(row2 & Hr2 & Hk2)|Hexp].
    + exists row2. split; [done|]. by etrans.
    + exfalso. apply Hne. destruct Hk1 as (?&?&?&?&?&?&?&->). exact Hexp.
Qed.

Lemma Quote_with_raw pricing raw event : Quote pricing (e_with_raw raw event) = Quote pricing event.
Proof.
  unfold e_with_raw.
  destruct event as [version id request tenant key model provider upstream cache stream attempts
    retries fallbacks usage source caveat reason status category code started ended latency first].
  by destruct usage as [[]|].
Qed.

(** What is stored is what was emitted. When the row of an event was relayed, the
    message that arrives holds that event, with its raw usage data compacted and
    escaped, or cannot be read because these exceed 64 KiB; whatever event it holds
    is that one, under the same id and at the same cost. *)
Theorem stored_is_emitted event row entry m pricing :
  writable event → Event_Validate event = None → row_of_event row event → relayed row entry → m_Payload m = entry →
  ∃ raw, (raw_ok (raw_of event) → raw_ok raw) ∧
    (if isSome (e_Usage event) && (maximumRawUsageBytes <? str_len (marshaled_raw raw)) then poison m
     else holds_event m (e_with_raw (marshaled_raw raw) event)) ∧
    (∀ held, holds_event m held → held = e_with_raw (marshaled_raw raw) event ∧
       e_EventID held = e_EventID event ∧ Quote pricing held = Quote pricing event).
Proof.
  intros Hw Hv (_ & text & raw & Hp & Hj & Hrok) (text' & decoded & payload & Hp' & Hd & Hm & ->) Hmsg.
  assert (text' = text) as -> by congruence. exists raw. split; [done|].
  pose proof (Event_Validate_checked _ Hv) as Hc. pose proof (w_raw _ Hw) as Hraw.
  assert (∀ r, (e_UsageSource (e_with_raw r event) =? "")%string = false) as Hsrc.
  { intros r. apply String.eqb_neq. pose proof (proj2 (c_source _ Hc)). by destruct event. }
  assert (∀ r p, json_event p = Some (e_with_raw r event) →
    Decode p = match Event_Validate (e_with_raw r event) with Some e => Err e | None => Ok (e_with_raw r event) end) as Hdec.
  { intros r p Hr. unfold Decode. rewrite Hr. cbv zeta. by rewrite Hsrc, andb_false_r. }
  rewrite (Hdec _ _ Hj) in Hd. destruct (Event_Validate (e_with_raw raw event)) eqn:Hv'; [done|]. injection Hd as <-.
  pose proof (e_with_raw_writable _ _ (Hrok Hraw) Hw) as Hw'.
  destruct (json_event_encode _ Hw' (Event_Validate_checked _ Hv')) as (p & He & Hjp).
  unfold Marshal in Hm. rewrite Hv', He in Hm. injection Hm as ->.
  assert (marshaled (e_with_raw raw event) = e_with_raw (marshaled_raw raw) event) as E.
  { unfold marshaled. destruct (e_Usage event) as [u|] eqn:Hu.
    - by rewrite raw_of_with_raw, e_with_raw_twice by congruence.
    - by rewrite !(e_with_raw_none _ event) by done. }
  rewrite E in Hjp. pose proof (Hdec _ _ Hjp) as Hdp.
  rewrite e_with_raw_valid in Hdp by (try apply marshaled_raw_ok; auto). split.
  - destruct (e_Usage event) as [u|]; cbn [isSome andb] in *.
    + destruct (maximumRawUsageBytes <? _); [|by exists payload]. unfold poison. rewrite Hmsg. intros ev. by rewrite Hdp.
    + by exists payload.
  - intros held (p' & Hp2 & Hd2). rewrite Hmsg in Hp2. injection Hp2 as <-. rewrite Hdp in Hd2.
    assert (held = e_with_raw (marshaled_raw raw) event) as ->.
    { destruct (e_Usage event); [destruct (_ <? _); [done|]|]; by injection Hd2. }
    split_and!; [done| |apply Quote_with_raw]. by destruct event.
Qed.
End pipeline.

(** ** Examples *)

(** Entries that satisfy a test, at most so many, as messages. *)
Definition pick (test : string → bool) (count : Z) (entries : gmap string (option string)) : list Message :=
  map (λ kv, {| m_ID := kv.1; m_Payload := kv.2 |})
    (take (Z.to_nat count) (filter (λ kv, test kv.1 = true) (map_to_list entries))).

Lemma pick_elem test count entries m :
  m ∈ pick test count entries → entries !! m_ID m = Some (m_Payload m) ∧ test (m_ID m) = true.
Proof.
  unfold pick. intros (kv & -> & Hkv)%list_elem_of_fmap. apply elem_of_take in Hkv as (i & Hi & _).
  apply list_elem_of_lookup_2, list_elem_of_filter in Hi as [Ht Hi]. cbn. split; [|done].
  apply elem_of_map_to_list. by destruct kv.
Qed.

Definition deliver (f : option Z → option Z) (ids : list string) (pending : gmap string Z) : gmap string Z :=
  foldl (λ m id, partial_alter f id m) pending (remove_dups ids).

Lemma deliver_lookup f ids pending id :
  deliver f ids pending !! id = if bool_decide (id ∈ ids) then f (pending !! id) else pending !! id.
Proof.
  unfold deliver. rewrite (bool_decide_ext _ (id ∈ remove_dups ids)) by by rewrite elem_of_remove_dups.
  pose proof (NoDup_remove_dups ids) as Hnd. revert pending.
  induction Hnd as [|x l Hx _ IH]; intros pending; cbn [foldl]; [done|]. rewrite IH.
  destruct (decide (id = x)) as [->|Hne].
  - rewrite bool_decide_false, bool_decide_true by (done || by left). by rewrite lookup_partial_alter_eq.
  - rewrite lookup_partial_alter_ne by done. rewrite (bool_decide_ext (id ∈ x :: l) (id ∈ l)); [done|].
    rewrite elem_of_cons. naive_solver.
Qed.

Definition list_group : @ConsumerGroup (gmap string (option string) * gmap string Z) list_stream.
Proof.
  refine (@Build_ConsumerGroup (gmap string (option string) * gmap string Z) list_stream
    (λ count s, let ms := pick (λ id, bool_decide (s.2 !! id = None)) count s.1 in
                (ms, (s.1, deliver (λ _, Some 1) (map m_ID ms) s.2)))
    (λ start count s, let ms := pick (λ id, bool_decide (is_Some (s.2 !! id))) count s.1 in
                (ms, "0-0"%string, (s.1, deliver (fmap (λ n, n + 1)) (map m_ID ms) s.2)))
    (λ ids s, (delete_keys ids s.1, delete_keys ids s.2)) _ _ _ _ _ _ _ _); cbn.
  - done.
  - intros count s m Hm. apply pick_elem in Hm as [? ?%bool_decide_eq_true]. done.
  - intros count s id. apply deliver_lookup.
  - done.
  - intros start count s m Hm. apply pick_elem in Hm as [? ?%bool_decide_eq_true]. done.
  - intros start count s id _. apply deliver_lookup.
  - done.
  - done.
Defined.

Section worker_examples.
#[local] Existing Instances text_column key_order bytewise no_unicode list_stream list_group.

Definition demo_config : WorkerConfig :=
  {| wc_StreamKey := "s"; wc_DeadLetterKey := "d"; wc_DeadLetterMaxLen := 100; wc_Group := "g"; wc_Consumer := "c";
     wc_BatchSize := 10; wc_ReadBlock := second; wc_ClaimIdle := second; wc_MaxDeliveries := 3;
     wc_RetryBackoff := second; wc_WorkerTimeout := second; wc_RetentionDays := 0; wc_MaintenanceInterval := second;
     wc_MaintenanceBatch := 100; wc_PricingRefresh := second; wc_PendingTimeout := 15 * minute |}.

Example demo_config_valid : NewWorker demo_config = None.
Proof. vm_compute. reflexivity. Qed.

Definition good_batch : ProcessEnv :=
  {| pv_query := λ _, true; pv_dead := λ _, Applied; pv_trim := λ _, 0%nat; pv_expired := λ _, false;
     pv_pricing := None; pv_now := demo_now; pv_store := Applied; pv_ack := Applied |}.

Lemma good_batch_good : good_process good_batch.
Proof. by split. Qed.

(** A message with an event and one with none, delivered three times. *)
Definition event_text : string := match Marshal (stored_event "use_1" demo_now) with Ok p => p | Err _ => "" end.
Definition demo_messages : list Message :=
  [{| m_ID := "1-0"; m_Payload := Some event_text |}; {| m_ID := "2-0"; m_Payload := Some "?"%string |}].
Definition demo_worker : WorkerState (gmap string (option string) * gmap string Z) :=
  {| ws_db := {| db_outbox := text_outbox event_text; db_events := ∅ |};
     ws_stream := ({["1-0"%string := Some event_text; "2-0"%string := Some "?"%string]},
                   {["1-0"%string := 1; "2-0"%string := 3]});
     ws_dead := []; ws_stats := no_stats |}.

Lemma demo_holds : holds_event {| m_ID := "1-0"; m_Payload := Some event_text |} (stored_event "use_1" demo_now).
Proof. exists event_text. split; [reflexivity|vm_compute; reflexivity]. Qed.

Lemma demo_poison : poison {| m_ID := "2-0"; m_Payload := Some "?"%string |}.
Proof. intros event. vm_compute. discriminate. Qed.

Lemma processBatch_settles_witness :
  let w' := processBatch demo_config good_batch demo_messages demo_worker in
  is_Some (db_events (ws_db w') !! "use_1"%string) ∧ ∃ letter, letter ∈ ws_dead w' ∧ dl_source letter = "2-0"%string.
Proof.
  assert (∀ m, m ∈ demo_messages → stream_entries (ws_stream demo_worker) !! m_ID m = Some (m_Payload m)) as Hentries.
  { intros m [->|[->|Hm%not_elem_of_nil]%elem_of_cons]%elem_of_cons; [vm_compute; reflexivity..|done]. }
  assert (NoDup (map m_ID demo_messages)) as Hnd by (apply (bool_decide_unpack _); vm_compute; exact I).
  pose proof (processBatch_settles demo_config good_batch demo_messages demo_worker good_batch_good Hnd Hentries
    ltac:(vm_compute; discriminate)) as Hs. cbv zeta in *. split.
  - destruct (Hs _ (list_elem_of_here _ _)) as [He _].
    exact (proj1 (He _ demo_holds)).
  - destruct (Hs _ (list_elem_of_further _ _ _ (list_elem_of_here _ _))) as [_ Hp].
    pose proof (Hp demo_poison 3 ltac:(vm_compute; reflexivity)) as Hd. exact (proj2 Hd).
Defined.

(** Retention of one day over three stored events, of which the first ended a day ago. *)
Definition demo_cutoff : Time := demo_time + second + 1.
Definition demo_retention : WorkerConfig :=
  {| wc_StreamKey := "s"; wc_DeadLetterKey := "d"; wc_DeadLetterMaxLen := 100; wc_Group := "g"; wc_Consumer := "c";
     wc_BatchSize := 10; wc_ReadBlock := second; wc_ClaimIdle := second; wc_MaxDeliveries := 3;
     wc_RetryBackoff := second; wc_WorkerTimeout := second; wc_RetentionDays := 1; wc_MaintenanceInterval := second;
     wc_MaintenanceBatch := 100; wc_PricingRefresh := second; wc_PendingTimeout := 15 * minute |}.
Definition demo_stored : WorkerState (gmap string (option string) * gmap string Z) :=
  {| ws_db := demo_db; ws_stream := ws_stream demo_worker; ws_dead := []; ws_stats := no_stats |}.
Definition demo_rounds (i : nat) : CleanupRound := {| cu_read := true; cu_answer := Applied; cu_done := false |}.

Lemma demo_maintained : ∃ w', maintain demo_retention 4 demo_rounds (demo_cutoff + day) demo_stored = Some w' ∧
  db_events (ws_db w') !! "use_a"%string = None ∧ rtc (db_statement demo_cutoff) (ws_db demo_stored) (ws_db w').
Proof.
  destruct (maintain_statements demo_cutoff demo_retention 4 demo_rounds (demo_cutoff + day) demo_stored) as (w' & Hw & Hr);
    [vm_compute; lia|].
  exists w'. split; [exact Hw|]. split; [|apply Hr; vm_compute; discriminate].
  assert ((λ w, db_events (ws_db w) !! "use_a"%string) <$> maintain demo_retention 4 demo_rounds (demo_cutoff + day) demo_stored =
    Some None) as Hg by (vm_compute; reflexivity).
  rewrite Hw in Hg. by injection Hg.
Qed.

Lemma pipeline_refines_witness :
  rtc (db_statement demo_cutoff) (ws_db demo_stored) (ws_db (run_relay demo_relay quiet_env demo_stored)) ∧
  ∃ w', maintain demo_retention 4 demo_rounds (demo_cutoff + day) demo_stored = Some w' ∧
    rtc (db_statement demo_cutoff) (ws_db demo_stored) (ws_db w').
Proof.
  destruct (pipeline_refines demo_cutoff all_applied [] demo_relay quiet_env demo_retention good_batch
    demo_messages Applied Applied "0-0" 4 demo_rounds (demo_cutoff + day)
    demo_reprice None true Applied demo_stored ∅ (List.Forall_nil _)) as (_ & _ & Hrelay & _ & _ & Hm & _).
  split; [exact Hrelay|]. destruct Hm as (w' & Hw & Hr); [vm_compute; lia|]. exists w'. split; [exact Hw|].
  apply Hr. vm_compute. discriminate.
Defined.

Lemma no_event_lost_witness :
  (accounted (ws_db (processBatch demo_config good_batch demo_messages demo_worker)) "use_1" ∨
   retired demo_cutoff (ws_db demo_worker) (ws_db (processBatch demo_config good_batch demo_messages demo_worker)) "use_1") ∧
  ∃ w' row, maintain demo_retention 4 demo_rounds (demo_cutoff + day) demo_stored = Some w' ∧
    db_events (ws_db w') !! "use_a"%string = None ∧ db_events (ws_db w') !! "use_c"%string = Some row.
Proof.
  split.
  - apply (proj1 (no_event_lost demo_cutoff _ _ (processBatch_statements demo_cutoff demo_config good_batch demo_messages demo_worker)) "use_1"%string).
    left. exists (text_row event_text). vm_compute. reflexivity.
  - destruct demo_maintained as (w' & Hw & Ha & Hr).
    destruct (proj2 (proj2 (no_event_lost demo_cutoff _ _ Hr)) "use_c"%string (demo_row "use_c" (demo_time + 1))) as (row & Hrow & _).
    + vm_compute. reflexivity.
    + unfold expired. vm_compute. discriminate.
    + exists w', row. split; [exact Hw|]. split; [exact Ha|exact Hrow].
Defined.

Lemma stored_usage_writable : writable (stored_event "use_1" demo_now).
Proof.
  constructor.
  - repeat constructor; vm_compute; discriminate.
  - intros u c [= <-] [=].
  - apply (bool_decide_unpack _). vm_compute. exact I.
  - split; vm_compute; [discriminate|done].
  - split; vm_compute; [discriminate|done].
  - right. exists 10%nat. vm_compute. reflexivity.
Qed.

Lemma stored_is_emitted_witness :
  ∃ raw, holds_event {| m_ID := "1-0"; m_Payload := Some event_text |}
    (e_with_raw (marshaled_raw raw) (stored_event "use_1" demo_now)) ∨ poison {| m_ID := "1-0"; m_Payload := Some event_text |}.
Proof.
  destruct (stored_is_emitted (stored_event "use_1" demo_now) (text_row event_text) (Some event_text)
    {| m_ID := "1-0"; m_Payload := Some event_text |} None stored_usage_writable) as (raw & _ & Hm & _).
  - vm_compute. reflexivity.
  - split; [discriminate|]. exists event_text, (raw_of (stored_event "use_1" demo_now)).
    split; [reflexivity|]. split; [vm_compute; reflexivity|auto].
  - exists event_text, (stored_event "use_1" demo_now), event_text.
    split_and!; vm_compute; reflexivity.
  - reflexivity.
  - exists raw. destruct (isSome _ && _); [by right|by left].
Defined.
End worker_examples.
