(* ===== verification/ControlStore.v ===== *)
(** * What the control plane stores ([controlplane/service.go])

    The versions of the runtime configuration, the managed prices and the audit log:
    the rows of [postgres/models.go], sealing and opening, secrets, and the transaction
    that stores a version. A statement is answered as the environment says; a
    transaction that fails changes nothing. *)

From S2P Require Import Prelude Failure Encoding Json JsonWrite JsonTree JsonSame JsonCodec Routing Attempt Construction Transport Compatible ProviderConfig Gateway Document DocumentJson Pricing UsageStore Outbox.

Open Scope Z_scope.

(** ** The cipher

    AES-GCM of the standard library: sealing and opening under a key of 32 bytes and a
    nonce of 12, with additional data. What was sealed opens. *)

Class AEAD := {
  aead_Seal : string → string → string → string → string;
  aead_Open : string → string → string → string → option string;
}.
Definition NonceSize : nat := 12.
Class AEADLaw `{AEAD} := aead_opens : ∀ key nonce plaintext data,
  String.length key = 32%nat → String.length nonce = NonceSize →
  aead_Open key nonce (aead_Seal key nonce plaintext data) data = Some plaintext.

Definition runtimeCipherAAD : string := "model-velo/runtime-config/v1".

(** ** Rows *)

Record RuntimeConfigVersion := {
  rc_ID : string;
  rc_Version : Z;
  rc_PublicDocument : string;
  rc_Ciphertext : string;
  rc_Nonce : string;
  rc_Active : bool;
  rc_CreatedBy : string;
  rc_CreatedAt : Time;
}.
Definition rc_deactivated (r : RuntimeConfigVersion) : RuntimeConfigVersion :=
  Build_RuntimeConfigVersion (rc_ID r) (rc_Version r) (rc_PublicDocument r) (rc_Ciphertext r) (rc_Nonce r) false
    (rc_CreatedBy r) (rc_CreatedAt r).

Record ManagedPricing := {
  mp_Version : Z; mp_Document : string; mp_UpdatedBy : string; mp_CreatedAt : Time;
}.

Record AuditLog := {
  al_ID : Z;
  al_PrincipalID : string;
  al_Action : string;
  al_ResourceType : string;
  al_ResourceID : string;
  al_RequestID : string;
  al_RemoteIP : string;
  al_BeforeJSON : option string;
  al_AfterJSON : option string;
  al_Outcome : string;
  al_CreatedAt : Time;
}.

(** The three tables; rows in the order in which they were inserted. *)
Record ControlDB := {
  cd_Runtime : list RuntimeConfigVersion;
  cd_Pricing : option ManagedPricing;
  cd_Audit : list AuditLog;
}.
Definition with_runtime (rows : list RuntimeConfigVersion) (db : ControlDB) : ControlDB :=
  Build_ControlDB rows (cd_Pricing db) (cd_Audit db).
Definition with_pricing (row : ManagedPricing) (db : ControlDB) : ControlDB :=
  Build_ControlDB (cd_Runtime db) (Some row) (cd_Audit db).
Definition with_audit (row : AuditLog) (db : ControlDB) : ControlDB :=
  Build_ControlDB (cd_Runtime db) (cd_Pricing db) (cd_Audit db ++ [row]).

Record AuditMeta := { am_PrincipalID : string; am_RequestID : string; am_RemoteIP : string }.

Inductive ControlError :=
| control_dependencies
| control_master_key
| ErrVersionConflict
| ErrNotConfigured
| control_read
| control_decrypt
| control_decode
| control_secret (provider key : string)
| control_build (error : BuildError)
| control_encode
| control_nonce
| control_deactivate
| control_row_id
| control_persist
| control_audit_incomplete
| control_audit
| control_commit
| control_gateway (error : GatewayError)
| control_prices (error : PriceError).

(** ** Views *)

Record RuntimeView := { rv_Version : Z; rv_Document : RuntimeDocument }.
Definition no_view : RuntimeView := Build_RuntimeView 0 no_document.

(** [uint64]: a number without sign, fraction and exponent. *)
Definition decode_uint64 : decoder Z := λ old raw,
  raw ← value_text raw;
  if (raw =? "null")%string then Some old
  else
    _ ← skip_number raw;
    z ← decimal 0 (bytes_of raw);
    if z <? 2 ^ 64 then Some z else None.

Definition encode_RuntimeView (view : RuntimeView) : option string :=
  document ← encode_document (rv_Document view);
  Some (encode_object [("version", encode_int (rv_Version view)); ("document", document)]%string).

Definition decode_RuntimeView : decoder RuntimeView := λ view raw,
  ms ← struct_members raw;
  version ← field "version" decode_uint64 (rv_Version view) ms;
  document ← field "document" (decode_document lenient) (rv_Document view) ms;
  Some {| rv_Version := version; rv_Document := document |}.

(** A copy through JSON. Its errors are ignored: what cannot be written is copied as the
    zero view; what was written is always read. *)
Definition cloneRuntimeView (view : RuntimeView) : RuntimeView :=
  match encode_RuntimeView view with
  | Some encoded => default no_view (decode_RuntimeView no_view encoded)
  | None => no_view
  end.

(** ** Secrets *)

(** The known secrets, by provider and key; a later key with the same name wins. *)
Definition secret_name (providerID keyID : string) : string := providerID +:+ String "000"%char keyID.

Definition known_secrets (current : RuntimeDocument) : gmap string string :=
  foldl (λ m p, foldl (λ m k, <[secret_name (ps_ID p) (ky_ID k) := ky_Secret k]> m) m (ps_Keys p)) ∅ (rd_Providers current).

Definition merge_key (existing : gmap string string) (providerID : string) (key : ProviderKeySpec)
    : result ControlError ProviderKeySpec :=
  let id := TrimSpace (ky_ID key) in
  let secret := if (ky_Secret key =? "")%string then default ""%string (existing !! secret_name providerID id)
                else ky_Secret key in
  if (secret =? "")%string then Err (control_secret providerID id) else Ok {| ky_ID := id; ky_Secret := secret |}.

Fixpoint each {E A B} (f : A → result E B) (l : list A) : result E (list B) :=
  match l with
  | [] => Ok []
  | a :: l => b ← f a; bs ← each f l; Ok (b :: bs)
  end.

Definition ps_with_keys (p : ProviderSpec) (keys : list ProviderKeySpec) : ProviderSpec :=
  Build_ProviderSpec (ps_ID p) (ps_Protocol p) (ps_BaseURL p) (ps_Models p) (ps_ModelCapabilities p) keys (ps_Runtime p).
Definition rd_with_providers (d : RuntimeDocument) (providers : list ProviderSpec) : RuntimeDocument :=
  Build_RuntimeDocument (rd_SchemaVersion d) providers (rd_Routes d).

Definition merge_provider (existing : gmap string string) (p : ProviderSpec) : result ControlError ProviderSpec :=
  keys ← each (merge_key existing (ps_ID p)) (ps_Keys p); Ok (ps_with_keys p keys).

Definition mergeRuntimeSecrets (next current : RuntimeDocument) : result ControlError RuntimeDocument :=
  providers ← each (merge_provider (known_secrets current)) (rd_Providers next); Ok (rd_with_providers next providers).

Definition without_secret (k : ProviderKeySpec) : ProviderKeySpec := {| ky_ID := ky_ID k; ky_Secret := "" |}.
Definition without_secrets (d : RuntimeDocument) : RuntimeDocument :=
  rd_with_providers d (map (λ p, ps_with_keys p (map without_secret (ps_Keys p))) (rd_Providers d)).

Definition redactRuntime (document : RuntimeDocument) : RuntimeDocument :=
  without_secrets (rv_Document (cloneRuntimeView {| rv_Version := 0; rv_Document := document |})).

(** ** Identifiers *)

Definition managedCacheNamespace (version : Z) : string := "managed-runtime-v" +:+ encode_int version.

(** A random UUID of version 4, from sixteen random bytes. *)
Definition randomID (value : list Z) : string :=
  let value := alter (λ b, Z.lor (Z.land b 0x0f) 0x40) 6%nat value in
  let value := alter (λ b, Z.lor (Z.land b 0x3f) 0x80) 8%nat value in
  let part i n := hex_encode (string_of_bytes (take n (drop i value))) in
  part 0%nat 4%nat +:+ String "-" (part 4%nat 2%nat +:+ String "-" (part 6%nat 2%nat +:+ String "-"
    (part 8%nat 2%nat +:+ String "-" (part 10%nat 6%nat)))).

(** ** Statements *)

(** How the statements of a transaction that stores a version are answered. The locked
    read may find nothing although a row is active: it waited for a transaction that
    then deactivated the row. *)
Record TxEnv := {
  te_read : bool;
  te_skipped : bool;
  te_nonce : option string;
  te_nonce_size : ∀ nonce, te_nonce = Some nonce → String.length nonce = NonceSize;
  te_deactivate : bool;
  te_row_id : option (list Z);
  te_now : Time;
  te_create : bool;
  te_audit_now : Time;
  te_audit_id : Z;
  te_audit : bool;
  te_commit : DbAnswer;
}.

(** The active row of the largest version. *)
Definition newer (best : option RuntimeConfigVersion) (r : RuntimeConfigVersion) : option RuntimeConfigVersion :=
  if rc_Active r && match best with Some b => rc_Version b <? rc_Version r | None => true end then Some r else best.
Definition active_row (rows : list RuntimeConfigVersion) : option RuntimeConfigVersion := foldl newer None rows.

Definition deactivate_rows (rows : list RuntimeConfigVersion) : list RuntimeConfigVersion :=
  map (λ r, if rc_Active r then rc_deactivated r else r) rows.

(** The unique indexes: identifiers, versions, and one active row. *)
Definition row_conflict (row r : RuntimeConfigVersion) : bool :=
  (rc_ID row =? rc_ID r)%string || (rc_Version row =? rc_Version r) || (rc_Active row && rc_Active r).

Definition create_row `{Jsonb} (accepted : bool) (row : RuntimeConfigVersion) (rows : list RuntimeConfigVersion)
    : option (list RuntimeConfigVersion) :=
  if accepted && isSome (jsonb (rc_PublicDocument row)) && negb (existsb (row_conflict row) rows)
  then Some (rows ++ [row]) else None.

Definition insert_audit `{Jsonb} (accepted : bool) (row : AuditLog) (db : ControlDB) : option ControlDB :=
  let stored text := match text with Some t => isSome (jsonb t) | None => true end in
  if accepted && stored (al_BeforeJSON row) && stored (al_AfterJSON row) &&
     negb (existsb (λ r, al_ID r =? al_ID row) (cd_Audit db))
  then Some (with_audit row db) else None.

(** [appendAudit] of the two texts that [nullableJSON] made. *)
Definition audit_row (id : Z) (now : Time) (meta : AuditMeta) (action resourceType resourceID : string)
    (before after : option string) (outcome : string) : AuditLog :=
  {| al_ID := id; al_PrincipalID := TrimSpace (am_PrincipalID meta); al_Action := TrimSpace action;
     al_ResourceType := TrimSpace resourceType; al_ResourceID := TrimSpace resourceID;
     al_RequestID := TrimSpace (am_RequestID meta); al_RemoteIP := TrimSpace (am_RemoteIP meta);
     al_BeforeJSON := before; al_AfterJSON := after; al_Outcome := TrimSpace outcome; al_CreatedAt := now |}.

Definition audit_incomplete (row : AuditLog) : bool :=
  (al_PrincipalID row =? "")%string || (al_Action row =? "")%string || (al_ResourceType row =? "")%string ||
  (al_RequestID row =? "")%string || (al_Outcome row =? "")%string.

Definition appendAudit `{Jsonb} (accepted : bool) (row : AuditLog) (db : ControlDB) : result ControlError ControlDB :=
  if audit_incomplete row then Err control_audit_incomplete
  else match insert_audit accepted row db with Some db => Ok db | None => Err control_audit end.

Definition or_error {A} (e : ControlError) (o : option A) : result ControlError A :=
  match o with Some a => Ok a | None => Err e end.

Section cipher.
Context `{AEAD} `{Jsonb}.

(** The nonce and what was sealed under it. *)
Definition seal (key plaintext : string) (nonce : option string) : result ControlError (string * string) :=
  nonce ← or_error control_nonce nonce;
  Ok (aead_Seal key nonce plaintext runtimeCipherAAD, nonce).

(** What was sealed is one JSON value, so that nothing follows the document. *)
Definition decrypt (key : string) (row : RuntimeConfigVersion) : result ControlError RuntimeDocument :=
  plaintext ← or_error control_decrypt (aead_Open key (rc_Nonce row) (rc_Ciphertext row) runtimeCipherAAD);
  or_error control_decode (decode_document managed no_document plaintext).

Definition lockedRuntime (key : string) (env : TxEnv) (rows : list RuntimeConfigVersion)
    : result ControlError (RuntimeConfigVersion * RuntimeDocument) :=
  if negb (te_read env) then Err control_read
  else match (if te_skipped env then None else active_row rows) with
       | None => Err ErrNotConfigured
       | Some row => document ← decrypt key row; Ok (row, document)
       end.

(** The version and document that an update starts from: version 0 when there is none. *)
Definition current_runtime (key : string) (env : TxEnv) (rows : list RuntimeConfigVersion)
    : result ControlError (Z * RuntimeDocument) :=
  match lockedRuntime key env rows with
  | Ok (row, document) => Ok (rc_Version row, document)
  | Err ErrNotConfigured => Ok (0, no_document)
  | Err e => Err e
  end.

(** The statements behind building: seal, deactivate, insert, audit. *)
Definition store_version (key : string) (env : TxEnv) (currentVersion : Z) (currentDocument merged : RuntimeDocument)
    (meta : AuditMeta) (db : ControlDB) : result ControlError (RuntimeView * ControlDB) :=
  let nextVersion := wrap_uint64 (currentVersion + 1) in
  plaintext ← or_error control_encode (encode_document merged);
  let public := redactRuntime merged in
  publicJSON ← or_error control_encode (encode_document public);
  '(ciphertext, nonce) ← seal key plaintext (te_nonce env);
  _ ← or_error control_deactivate (if te_deactivate env then Some () else None);
  rowID ← or_error control_row_id (te_row_id env);
  let row := {| rc_ID := randomID rowID; rc_Version := nextVersion; rc_PublicDocument := publicJSON;
                rc_Ciphertext := ciphertext; rc_Nonce := nonce; rc_Active := true;
                rc_CreatedBy := am_PrincipalID meta; rc_CreatedAt := te_now env |} in
  rows ← or_error control_persist (create_row (te_create env) row (deactivate_rows (cd_Runtime db)));
  before ← (if currentVersion =? 0 then Ok None
            else Some <$> or_error control_encode (encode_document (redactRuntime currentDocument)));
  db ← appendAudit (te_audit env)
         (audit_row (te_audit_id env) (te_audit_now env) meta "runtime.update" "runtime_config"
            (encode_int nextVersion) before (Some publicJSON) "success")
         (with_runtime rows db);
  Ok ({| rv_Version := nextVersion; rv_Document := public |}, db).

Context `{Unicode} `{NetURL} `{MapOrder}.

Definition with_namespace (s : Snapshot) (namespace : string) : Snapshot :=
  Build_Snapshot namespace (sn_Routes s) (sn_Chat s) (sn_Embeddings s) (sn_Breakers s) (sn_Queues s) (sn_Keys s)
    (sn_ProviderStates s).

(** The transaction of an update up to its commit: what it returns and leaves, or its
    error, which leaves the tables as they were. *)
Definition update_body (builder : Builder) (key : string) (env : TxEnv) (expected : Z) (document : RuntimeDocument)
    (meta : AuditMeta) (current : option Snapshot) (db : ControlDB) (w : World)
    : result ControlError (Snapshot * RuntimeView * ControlDB) * World :=
  match
    '(currentVersion, currentDocument) ← current_runtime key env (cd_Runtime db);
    if negb (expected =? currentVersion) then Err ErrVersionConflict
    else merged ← mergeRuntimeSecrets document currentDocument; Ok (currentVersion, currentDocument, merged)
  with
  | Err e => (Err e, w)
  | Ok (currentVersion, currentDocument, merged) =>
      match build builder merged current w with
      | Err e => (Err (control_build e), w)
      | Ok (snapshot, w) =>
          ('(view, db) ← store_version key env currentVersion currentDocument merged meta db;
           Ok (with_namespace snapshot (managedCacheNamespace (rv_Version view)), view, db), w)
      end
  end.

(** The transaction with its commit. *)
Definition update_transaction (builder : Builder) (key : string) (env : TxEnv) (expected : Z) (document : RuntimeDocument)
    (meta : AuditMeta) (current : option Snapshot) (db : ControlDB) (w : World)
    : result ControlError (Snapshot * RuntimeView) * ControlDB * World :=
  match update_body builder key env expected document meta current db w with
  | (Err e, w) => (Err e, db, w)
  | (Ok (snapshot, view, db'), w) =>
      match te_commit env with
      | Applied => (Ok (snapshot, view), db', w)
      | AnswerLost => (Err control_commit, db', w)
      | Refused => (Err control_commit, db, w)
      end
  end.
End cipher.

(** ** Copies and redaction *)

Lemma decode_uint64_encode z old : 0 ≤ z ≤ int64_max → decode_uint64 old (encode_int z) = Some z.
Proof.
  intros Hz. assert (in_int64 z) as Hi by (unfold in_int64, int64_min, int64_max in *; lia).
  destruct (encode_int_read z Hi) as (_ & Hnum & Hnull & Hd). unfold decode_uint64.
  destruct (value_at_text maxNestingDepth _ (encode_int_value _ z Hi) ltac:(done)) as [_ ->].
  cbn [mbind option_bind]. rewrite Hnull, Hnum. cbn [mbind option_bind].
  assert (strip "-" (encode_int z) = None) as Hs.
  { unfold encode_int. destruct (Z.ltb_spec z 0); [lia|].
    destruct (decimal_digits_spec 20 z []) as (b & ds & -> & Hb & _); [unfold int64_max in Hz; lia|lia|].
    rewrite string_of_bytes_cons. apply Forall_cons in Hb as [Hb%is_digit_ascii _].
    unfold strip. destruct (Ascii.eqb_spec (byte_ascii b) "-") as [Heq|]; [|done]. rewrite Heq in Hb. done. }
  rewrite Hs in Hd. rewrite Hd. cbn [mbind option_bind]. destruct (Z.ltb_spec z (2 ^ 64)); [done|]. unfold int64_max in Hz. lia.
Qed.

(** What can be stored: typed, and with settings that are numbers. *)
Definition storable (d : RuntimeDocument) : Prop := document_typed d ∧ is_Some (encode_document d).

Lemma cloneRuntimeView_id view :
  0 ≤ rv_Version view ≤ int64_max → storable (rv_Document view) → cloneRuntimeView view = view.
Proof.
  intros Hv [Hd [t Ht]]. unfold cloneRuntimeView, encode_RuntimeView. rewrite Ht. cbn [mbind option_bind].
  assert (in_int64 (rv_Version view)) as Hi by (unfold in_int64, int64_min, int64_max in *; lia).
  pose proof (document_written lenient ltac:(done) (maxNestingDepth - 1) _ _ ltac:(done) Hd Ht) as Hw.
  assert (written no_view decode_RuntimeView maxNestingDepth view
            (encode_object [("version"%string, encode_int (rv_Version view)); ("document"%string, t)])) as (_ & _ & ->); [|done].
  apply written_object; [done| |].
  - solve_good; [by apply encode_int_value|apply Hw].
  - unfold decode_RuntimeView. read_struct Hms. cbn [rv_Version rv_Document no_view].
    step_field; [by apply decode_uint64_encode|]. step_field; [by eapply encodes_of|]. by destruct view.
Qed.

Lemma encode_ProviderSpec_keys p keys :
  is_Some (encode_ProviderSpec p) → is_Some (encode_ProviderSpec (ps_with_keys p keys)).
Proof. unfold encode_ProviderSpec. cbn [ps_Runtime ps_with_keys]. destruct (encode_ProviderRuntimeSpec _); [by eexists|]. by intros [? [=]]. Qed.

Lemma encode_document_providers d ps :
  is_Some (encode_document d) → Forall2 (λ p q, ∃ keys, q = ps_with_keys p keys) (rd_Providers d) ps →
  is_Some (encode_document (rd_with_providers d ps)).
Proof.
  unfold encode_document. intros [t (l & Hl%mapM_Some & _)%bind_Some] Hps. cbn [rd_Providers rd_with_providers].
  assert (is_Some (mapM encode_ProviderSpec ps)) as [l' ->]; [|by eexists].
  apply mapM_is_Some. apply Forall_forall. intros q Hq. apply list_elem_of_lookup in Hq as [i Hi].
  destruct (Forall2_lookup_r _ _ _ _ _ Hps Hi) as (p & Hp & keys & ->). apply encode_ProviderSpec_keys.
  destruct (Forall2_lookup_l _ _ _ _ _ Hl Hp) as (s & _ & Hs). by eexists.
Qed.

Lemma provider_typed_keys p keys :
  provider_typed p → Forall key_typed keys → provider_typed (ps_with_keys p keys).
Proof. by intros [] Hk. Qed.

Lemma document_typed_providers d ps :
  document_typed d → Forall2 (λ p q, ∃ keys, q = ps_with_keys p keys ∧ Forall key_typed keys) (rd_Providers d) ps →
  document_typed (rd_with_providers d ps).
Proof.
  intros [Hv Hp Hr] Hps. split; [done| |done]. cbn. apply Forall_forall. intros q Hq. apply list_elem_of_lookup in Hq as [i Hi].
  destruct (Forall2_lookup_r _ _ _ _ _ Hps Hi) as (p & Hl & keys & -> & Hk). apply provider_typed_keys; [|done].
  rewrite Forall_forall in Hp. apply Hp. by eapply list_elem_of_lookup_2.
Qed.

Lemma storable_providers d ps :
  storable d → Forall2 (λ p q, ∃ keys, q = ps_with_keys p keys ∧ Forall key_typed keys) (rd_Providers d) ps →
  storable (rd_with_providers d ps).
Proof.
  intros [Ht He] Hps. split; [by apply document_typed_providers|]. apply encode_document_providers; [done|].
  eapply Forall2_impl; [done|]. intros p q (keys & ? & _). by exists keys.
Qed.

Lemma typed_key d p k : document_typed d → p ∈ rd_Providers d → k ∈ ps_Keys p → key_typed k.
Proof.
  intros [_ Hp _] Hin Hk. rewrite Forall_forall in Hp. destruct (Hp p Hin) as [_ _ _ Hks _]. rewrite Forall_forall in Hks. by apply Hks.
Qed.

Lemma without_secrets_storable d : storable d → storable (without_secrets d).
Proof.
  intros Hd. apply storable_providers; [done|].
  assert (∀ l, (∀ p, p ∈ l → p ∈ rd_Providers d) → Forall2 (λ p q, ∃ keys, q = ps_with_keys p keys ∧ Forall key_typed keys)
    l (map (λ p, ps_with_keys p (map without_secret (ps_Keys p))) l)) as Hl; [|by apply Hl].
  induction l as [|p l IH]; [constructor|]. intros Hin. constructor.
  - eexists. split; [done|]. apply Forall_forall. intros k (k' & -> & Hk')%list_elem_of_fmap.
    destruct (typed_key d p k' (proj1 Hd)) as [Hid _]; [apply Hin; by left|done|]. by split.
  - apply IH. intros q Hq. apply Hin. by right.
Qed.

Lemma redactRuntime_eq d : storable d → redactRuntime d = without_secrets d.
Proof. intros Hd. unfold redactRuntime. by rewrite cloneRuntimeView_id. Qed.

Lemma without_secrets_idem d : without_secrets (without_secrets d) = without_secrets d.
Proof.
  unfold without_secrets, rd_with_providers. cbn. f_equal. rewrite map_map. apply map_ext. intros p.
  unfold ps_with_keys. cbn. f_equal. rewrite map_map. by apply map_ext.
Qed.

(** ** Merging *)

Lemma each_ok {E A B} (f : A → result E B) l bs : each f l = Ok bs ↔ Forall2 (λ a b, f a = Ok b) l bs.
Proof.
  revert bs. induction l as [|a l IH]; intros bs; cbn [each].
  - split; [intros [= <-]; constructor|by inversion 1].
  - split.
    + intros (b & Hb & (bs' & Hbs' & [= <-])%result_bind_ok)%result_bind_ok. constructor; [done|]. by apply IH.
    + inversion 1 as [|? b ? bs' Hb Hl]; subst. rewrite Hb. cbn. rewrite (proj2 (IH bs') Hl). done.
Qed.

(** A known secret is one of the keys. *)
Lemma known_secrets_spec d name secret :
  known_secrets d !! name = Some secret →
  ∃ p k, p ∈ rd_Providers d ∧ k ∈ ps_Keys p ∧ name = secret_name (ps_ID p) (ky_ID k) ∧ secret = ky_Secret k.
Proof.
  unfold known_secrets.
  assert (∀ ps (m : gmap string string), foldl (λ m p, foldl (λ m k, <[secret_name (ps_ID p) (ky_ID k) := ky_Secret k]> m) m (ps_Keys p)) m ps !! name = Some secret →
    m !! name = Some secret ∨ ∃ p k, p ∈ ps ∧ k ∈ ps_Keys p ∧ name = secret_name (ps_ID p) (ky_ID k) ∧ secret = ky_Secret k) as Hps.
  { intros ps. induction ps as [|p ps IH]; intros m Hm; [by left|]. cbn [foldl] in Hm. apply IH in Hm as [Hm|(p' & k & ? & ? & ?)].
    - assert (∀ ks (m : gmap string string), foldl (λ m k, <[secret_name (ps_ID p) (ky_ID k) := ky_Secret k]> m) m ks !! name = Some secret →
        m !! name = Some secret ∨ ∃ k, k ∈ ks ∧ name = secret_name (ps_ID p) (ky_ID k) ∧ secret = ky_Secret k) as Hks.
      { intros ks. induction ks as [|k ks IHk]; intros m' Hm'; [by left|]. cbn [foldl] in Hm'. apply IHk in Hm' as [Hm'|(k' & ? & ?)].
        - apply lookup_insert_Some in Hm' as [[<- <-]|[_ ?]]; [right|by left]. exists k. split; [left|done].
        - right. exists k'. split; [by right|done]. }
      apply Hks in Hm as [Hm|(k & ? & ? & ?)]; [by left|]. right. exists p, k. split; [left|done].
    - right. exists p', k. split; [by right|done]. }
  intros Hm. apply Hps in Hm as [Hm|?]; [by rewrite lookup_empty in Hm|done].
Qed.

(** What a key becomes: its trimmed identifier, and its secret, or the known one. *)
Lemma merge_key_ok existing id k k' :
  merge_key existing id k = Ok k' →
  ky_ID k' = TrimSpace (ky_ID k) ∧ ky_Secret k' ≠ ""%string ∧
  (ky_Secret k' = ky_Secret k ∨ ky_Secret k = ""%string ∧ existing !! secret_name id (TrimSpace (ky_ID k)) = Some (ky_Secret k')).
Proof.
  unfold merge_key. destruct (String.eqb_spec (ky_Secret k) "") as [Hk|Hk].
  - destruct (String.eqb_spec (default ""%string (existing !! secret_name id (TrimSpace (ky_ID k)))) "") as [_|Hne]; [by intros [=]|].
    intros [= <-]. cbn [ky_ID ky_Secret]. split_and!; [done|done|]. right. split; [done|].
    by destruct (existing !! _) as [s|].
  - destruct (String.eqb_spec (ky_Secret k) ""); [by intros [=]|]. intros [= <-]. split_and!; [done|done|by left].
Qed.

Lemma Forall2_with_l {A B} (P : A → Prop) (R S : A → B → Prop) l k :
  Forall P l → (∀ a b, P a → R a b → S a b) → Forall2 R l k → Forall2 S l k.
Proof. intros Hl HS. induction 1; constructor; inversion Hl; subst; auto. Qed.

Lemma merge_storable document current merged :
  document_typed document → document_typed current → is_Some (encode_document merged) →
  mergeRuntimeSecrets document current = Ok merged → storable merged.
Proof.
  intros Hd Hc He (ps & Hps%each_ok & [= <-])%result_bind_ok. split; [|done]. apply document_typed_providers; [done|].
  eapply (Forall2_with_l _ _ _ _ _ (dt_providers _ Hd)); [|done]. intros p q Hp (keys & Hk%each_ok & [= <-])%result_bind_ok. exists keys. split; [done|].
  destruct Hp as [_ _ _ Hpk _]. clear -Hpk Hk Hc. revert Hpk.
  induction Hk as [|k k' ks ks' Hk _ IH]; [constructor|]. intros [[Hi Hs] Hks]%Forall_cons. constructor; [|by apply IH].
  destruct (merge_key_ok _ _ _ _ Hk) as (Hid & _ & Hsec).
  split; [rewrite Hid; by apply TrimSpace_utf8|]. destruct Hsec as [->|[_ Hsec]]; [done|].
  apply known_secrets_spec in Hsec as (p' & k'' & Hp' & Hk'' & _ & ->). by apply (typed_key current p').
Qed.

(** ** The versions that are stored *)

Section versions.
Context `{AEADLaw} `{Jsonb} `{Unicode} `{NetURL} `{MapOrder}.
Context (key : string).
Hypothesis key_size : String.length key = 32%nat.

(** What a row holds: a sealed document, and in the clear the same without its secrets. *)
Definition holds (row : RuntimeConfigVersion) (d : RuntimeDocument) : Prop :=
  decrypt key row = Ok d ∧ storable d ∧ encode_document (without_secrets d) = Some (rc_PublicDocument row).

Definition audited (row : RuntimeConfigVersion) (entry : AuditLog) : Prop :=
  al_ResourceID entry = encode_int (rc_Version row) ∧ al_PrincipalID entry = TrimSpace (rc_CreatedBy row) ∧
  al_AfterJSON entry = Some (rc_PublicDocument row).

Definition runtime_entries (db : ControlDB) : list AuditLog :=
  filter (λ entry, al_Action entry = "runtime.update"%string) (cd_Audit db).

(** Versions count up from 1, the last one alone is active, each opens, and each has its
    entry in the audit log, in order. *)
Record config_ok (db : ControlDB) : Prop := {
  co_versions : ∀ i row, cd_Runtime db !! i = Some row → rc_Version row = Z.of_nat (S i);
  co_active : ∀ i row, cd_Runtime db !! i = Some row → rc_Active row = bool_decide (S i = length (cd_Runtime db));
  co_holds : ∀ row, row ∈ cd_Runtime db → ∃ d, holds row d;
  co_audited : Forall2 audited (cd_Runtime db) (runtime_entries db);
}.

Definition version_of (db : ControlDB) : Z := Z.of_nat (length (cd_Runtime db)).

Lemma inactive_rows rows best : (∀ row, row ∈ rows → rc_Active row = false) → foldl newer best rows = best.
Proof.
  induction rows as [|r rows IH]; [done|]. intros Hr. cbn [foldl]. unfold newer at 2. rewrite (Hr r) by left. cbn [andb].
  apply IH. intros row Hrow. apply Hr. by right.
Qed.

Lemma active_last db : config_ok db → active_row (cd_Runtime db) = last (cd_Runtime db).
Proof.
  intros [_ Ha _ _]. destruct db as [rows pricing audit]. cbn [cd_Runtime] in *.
  destruct rows as [|r rows _] using rev_ind; [done|]. unfold active_row. rewrite foldl_app, last_snoc, (inactive_rows rows); cbn [foldl].
  - unfold newer. rewrite (Ha (length rows) r), bool_decide_true; [done|rewrite length_app; cbn; lia|].
    by rewrite lookup_app_r, Nat.sub_diag by lia.
  - intros row Hrow. apply list_elem_of_lookup in Hrow as [i Hi]. pose proof (lookup_lt_Some _ _ _ Hi).
    rewrite (Ha i row), bool_decide_false; [done|rewrite length_app; cbn; lia|by apply lookup_app_l_Some].
Qed.

(** The version an update starts from: the last one, or 0 when there is none or the
    locked read skipped it. *)
Lemma current_runtime_ok db env version document :
  config_ok db → current_runtime key env (cd_Runtime db) = Ok (version, document) →
  (version = version_of db ∧ ∃ row, last (cd_Runtime db) = Some row ∧ holds row document) ∨
  (version = 0 ∧ document = no_document ∧ (cd_Runtime db = [] ∨ te_skipped env = true)).
Proof.
  intros Hdb. unfold current_runtime, lockedRuntime. destruct (te_read env); [cbn [negb]|done].
  destruct (te_skipped env); [intros [= <- <-]; right; auto|]. rewrite (active_last db Hdb).
  destruct (last (cd_Runtime db)) as [row|] eqn:Hl; [|intros [= <- <-]; right; split_and!; [done..|left; by apply last_None]].
  destruct (co_holds _ Hdb row) as (d & Hd); [by apply last_Some_elem_of|]. rewrite (proj1 Hd). intros [= <- <-]. left.
  split; [|by exists row]. rewrite last_lookup in Hl. rewrite (co_versions _ Hdb _ _ Hl). unfold version_of.
  apply lookup_lt_Some in Hl. lia.
Qed.

Definition version_row (env : TxEnv) (version : Z) (meta : AuditMeta) (rowID : list Z) (publicJSON plaintext nonce : string)
    : RuntimeConfigVersion :=
  {| rc_ID := randomID rowID; rc_Version := version; rc_PublicDocument := publicJSON;
     rc_Ciphertext := aead_Seal key nonce plaintext runtimeCipherAAD; rc_Nonce := nonce; rc_Active := true;
     rc_CreatedBy := am_PrincipalID meta; rc_CreatedAt := te_now env |}.

(** What storing a version does when every statement succeeds. *)
Lemma store_version_ok env version current merged meta db view db' :
  store_version key env version current merged meta db = Ok (view, db') →
  let next := wrap_uint64 (version + 1) in
  ∃ plaintext publicJSON nonce rowID before,
    encode_document merged = Some plaintext ∧ encode_document (redactRuntime merged) = Some publicJSON ∧
    te_nonce env = Some nonce ∧ te_row_id env = Some rowID ∧
    let row := version_row env next meta rowID publicJSON plaintext nonce in
    let entry := audit_row (te_audit_id env) (te_audit_now env) meta "runtime.update" "runtime_config" (encode_int next)
                   before (Some publicJSON) "success" in
    existsb (row_conflict row) (deactivate_rows (cd_Runtime db)) = false ∧
    (version = 0 ∧ before = None ∨ version ≠ 0 ∧ before = encode_document (redactRuntime current)) ∧
    view = {| rv_Version := next; rv_Document := redactRuntime merged |} ∧
    db' = with_audit entry (with_runtime (deactivate_rows (cd_Runtime db) ++ [row]) db).
Proof.
  unfold store_version, or_error, seal. intros Hs. cbn zeta.
  apply result_bind_ok in Hs as (plaintext & Hp & Hs). destruct (encode_document merged) as [p|]; [injection Hp as ->|done].
  apply result_bind_ok in Hs as (publicJSON & Hj & Hs). destruct (encode_document (redactRuntime merged)) as [j|]; [injection Hj as ->|done].
  apply result_bind_ok in Hs as ([ct nonce] & Hn & Hs). destruct (te_nonce env) as [n|]; [cbn in Hn; injection Hn as <- ->|done].
  apply result_bind_ok in Hs as ([] & _ & Hs). apply result_bind_ok in Hs as (rowID & Hi & Hs).
  destruct (te_row_id env) as [i|]; [injection Hi as ->|done]. apply result_bind_ok in Hs as (rows & Hr & Hs).
  apply result_bind_ok in Hs as (before & Hb & Hs). apply result_bind_ok in Hs as (db1 & Ha & [= <- <-]).
  exists plaintext, publicJSON, nonce, rowID, before. do 4 (split; [done|]). unfold create_row in Hr. cbn [rc_PublicDocument] in Hr.
  destruct (_ && _ && _) eqn:Hc in Hr; [injection Hr as <-|done]. rewrite andb_true_iff, negb_true_iff in Hc. destruct Hc as [_ Hc].
  unfold appendAudit, insert_audit in Ha. destruct (audit_incomplete _); [done|]. destruct (_ && _) in Ha; [injection Ha as <-|done].
  split_and!; [done| |done|done].
  destruct (Z.eqb_spec version 0); [injection Hb as <-; by left|]. right. split; [done|].
  destruct (encode_document (redactRuntime current)); cbn in Hb; [by injection Hb as <-|done].
Qed.

Lemma deactivate_lookup rows i : deactivate_rows rows !! i = (λ r, if rc_Active r then rc_deactivated r else r) <$> rows !! i.
Proof. unfold deactivate_rows. by rewrite list_lookup_fmap. Qed.

Lemma holds_deactivated row d : holds row d → holds (rc_deactivated row) d.
Proof. done. Qed.

Lemma holds_functional row d d' : holds row d → holds row d' → d = d'.
Proof. intros [Hd _] [Hd' _]. congruence. Qed.

(** A row that is written opens as the document it was written for. *)
Lemma version_row_holds env version meta rowID plaintext publicJSON nonce merged :
  storable merged → te_nonce env = Some nonce → encode_document merged = Some plaintext →
  encode_document (redactRuntime merged) = Some publicJSON →
  holds (version_row env version meta rowID publicJSON plaintext nonce) merged.
Proof.
  intros Hm Hn Hp Hj. split_and!; [|done|by rewrite <-redactRuntime_eq].
  unfold decrypt. cbn [rc_Nonce rc_Ciphertext version_row].
  rewrite aead_opens by (done || by apply (te_nonce_size env)). cbn.
  by rewrite (document_roundtrip managed merged plaintext ltac:(done) (proj1 Hm) Hp).
Qed.

Lemma no_conflict_version row rows r : existsb (row_conflict row) rows = false → r ∈ rows → rc_Version row ≠ rc_Version r.
Proof.
  intros He Hr Hv. assert (existsb (row_conflict row) rows = true); [|congruence].
  apply existsb_exists. exists r. split; [by apply list_elem_of_In|]. unfold row_conflict. rewrite Hv, Z.eqb_refl. by rewrite orb_true_r.
Qed.

Lemma runtime_entries_app db entry rows :
  al_Action entry = "runtime.update"%string →
  runtime_entries (with_audit entry (with_runtime rows db)) = runtime_entries db ++ [entry].
Proof. intros Ha. unfold runtime_entries. cbn. rewrite filter_app. f_equal. by rewrite filter_cons_True. Qed.

(** One more version keeps the tables in order. *)
Lemma config_ok_next db env meta rowID plaintext publicJSON nonce merged before :
  config_ok db → version_of db < int64_max → storable merged →
  te_nonce env = Some nonce → encode_document merged = Some plaintext → encode_document (redactRuntime merged) = Some publicJSON →
  let next := version_of db + 1 in
  let row := version_row env next meta rowID publicJSON plaintext nonce in
  let entry := audit_row (te_audit_id env) (te_audit_now env) meta "runtime.update" "runtime_config" (encode_int next)
                 before (Some publicJSON) "success" in
  config_ok (with_audit entry (with_runtime (deactivate_rows (cd_Runtime db) ++ [row]) db)).
Proof.
  intros Hdb Hmax Hm Hn Hp Hj next row entry. destruct Hdb as [Hv Ha Hh Hau].
  assert (length (deactivate_rows (cd_Runtime db)) = length (cd_Runtime db)) as Hlen by apply length_map.
  assert (∀ i r, (deactivate_rows (cd_Runtime db) ++ [row]) !! i = Some r →
    (∃ r0, cd_Runtime db !! i = Some r0 ∧ r = (if rc_Active r0 then rc_deactivated r0 else r0)) ∨ (i = length (cd_Runtime db) ∧ r = row)) as Hcases.
  { intros i r [Hi|[Hi Hr]]%lookup_app_Some.
    - left. rewrite deactivate_lookup in Hi. apply fmap_Some in Hi as (r0 & ? & ->). by exists r0.
    - right. rewrite Hlen in Hi, Hr. apply list_lookup_singleton_Some in Hr as [? <-]. split; [lia|done]. }
  split; cbn [cd_Runtime with_audit with_runtime].
  - intros i r [(r0 & Hr0 & ->)|[-> ->]]%Hcases.
    + rewrite <-(Hv i r0 Hr0). by destruct (rc_Active r0).
    + cbn. unfold next, version_of. lia.
  - intros i r [(r0 & Hr0 & ->)|[-> ->]]%Hcases; rewrite length_app, Hlen; cbn [length].
    + apply lookup_lt_Some in Hr0. rewrite bool_decide_false by lia. by destruct (rc_Active r0) eqn:?.
    + rewrite bool_decide_true by lia. done.
  - intros r Hr. apply list_elem_of_lookup in Hr as [i [(r0 & Hr0 & ->)|[-> ->]]%Hcases].
    + destruct (Hh r0) as (d & Hd); [by eapply list_elem_of_lookup_2|]. exists d. by destruct (rc_Active r0).
    + exists merged. by apply version_row_holds.
  - rewrite runtime_entries_app by (vm_compute; reflexivity). apply Forall2_app.
    + unfold deactivate_rows. apply Forall2_fmap_l. eapply Forall2_impl; [exact Hau|].
      intros r a Hra. unfold compose. by destruct (rc_Active r).
    + constructor; [|constructor]. split_and!; [|done|done]. cbn [al_ResourceID entry audit_row rc_Version row version_row].
      apply (value_trimmed maxNestingDepth), encode_int_value. unfold in_int64, int64_min, next, version_of, int64_max in *. lia.
Qed.

Lemma no_document_typed : document_typed no_document.
Proof. split; [unfold in_int64, int64_min, int64_max; cbn; lia|by constructor|by constructor]. Qed.

(** The document a version starts from: what the last row holds, or the empty document. *)
Definition stored_document (db : ControlDB) (d : RuntimeDocument) : Prop :=
  match last (cd_Runtime db) with Some row => holds row d | None => d = no_document end.

Lemma stored_typed db d : stored_document db d → document_typed d.
Proof. unfold stored_document. case_match; [by intros (_ & [? _] & _)|]. intros ->. apply no_document_typed. Qed.

Lemma update_body_inv builder env expected document meta current db w snapshot view db' w' :
  update_body builder key env expected document meta current db w = (Ok (snapshot, view, db'), w') →
  ∃ stored merged s, current_runtime key env (cd_Runtime db) = Ok (expected, stored) ∧
    mergeRuntimeSecrets document stored = Ok merged ∧ build builder merged current w = Ok (s, w') ∧
    store_version key env expected stored merged meta db = Ok (view, db') ∧
    snapshot = with_namespace s (managedCacheNamespace (rv_Version view)).
Proof.
  unfold update_body. destruct (current_runtime key env (cd_Runtime db)) as [[version stored]|e] eqn:Hc; [|done].
  cbn [mbind result_bind]. destruct (Z.eqb_spec expected version) as [<-|]; cbn [negb]; [|done].
  destruct (mergeRuntimeSecrets document stored) as [merged|e] eqn:Hm; [|done]. cbn [mbind result_bind].
  destruct (build builder merged current w) as [[s w1]|e] eqn:Hb; [|done]. intros [= Hs <-].
  destruct (store_version _ _ _ _ _ _ _) as [[v db1]|e] eqn:Hst; [|done]. cbn in Hs. injection Hs as <- <- <-.
  by exists stored, merged, s.
Qed.

(** What a successful update has read and written. *)
Lemma update_body_ok builder env expected document meta current db w snapshot view db' w' :
  config_ok db → version_of db < int64_max → document_typed document →
  update_body builder key env expected document meta current db w = (Ok (snapshot, view, db'), w') →
  expected = version_of db ∧
  ∃ stored merged plaintext publicJSON nonce rowID before s,
    stored_document db stored ∧ mergeRuntimeSecrets document stored = Ok merged ∧ storable merged ∧
    encode_document merged = Some plaintext ∧ encode_document (redactRuntime merged) = Some publicJSON ∧
    te_nonce env = Some nonce ∧ te_row_id env = Some rowID ∧
    (expected = 0 ∧ before = None ∨ expected ≠ 0 ∧ before = encode_document (redactRuntime stored)) ∧
    view = {| rv_Version := version_of db + 1; rv_Document := without_secrets merged |} ∧
    build builder merged current w = Ok (s, w') ∧ snapshot = with_namespace s (managedCacheNamespace (version_of db + 1)) ∧
    let row := version_row env (version_of db + 1) meta rowID publicJSON plaintext nonce in
    let entry := audit_row (te_audit_id env) (te_audit_now env) meta "runtime.update" "runtime_config"
                   (encode_int (version_of db + 1)) before (Some publicJSON) "success" in
    db' = with_audit entry (with_runtime (deactivate_rows (cd_Runtime db) ++ [row]) db).
Proof.
  intros Hdb Hmax Hd (stored & merged & s & Hc & Hm & Hb & Hs & ->)%update_body_inv.
  apply store_version_ok in Hs as (plaintext & publicJSON & nonce & rowID & before & Hp & Hj & Hn & Hi & Hconf & Hbef & -> & ->).
  assert (expected = version_of db ∧ stored_document db stored) as [-> Hst].
  { destruct (current_runtime_ok _ _ _ _ Hdb Hc) as [(-> & row & Hl & Hrow)|(-> & -> & Hempty)].
    - split; [done|]. unfold stored_document. by rewrite Hl.
    - destruct (cd_Runtime db) as [|r rows] eqn:Hrows; [unfold version_of, stored_document; by rewrite Hrows|exfalso].
      destruct (deactivate_rows (r :: rows)) as [|r' rows'] eqn:Hdr; [done|].
      apply (no_conflict_version _ _ r') in Hconf; [|left]. apply Hconf. cbn [rc_Version version_row].
      pose proof (co_versions _ Hdb 0%nat r) as Hv. rewrite Hrows in Hv. specialize (Hv eq_refl).
      cbn in Hdr. injection Hdr as <- _. destruct (rc_Active r); cbn; rewrite Hv; vm_compute; reflexivity. }
  split; [done|].
  assert (storable merged) as Hms by (eapply merge_storable; [done|by eapply stored_typed|by eexists|done]).
  assert (wrap_uint64 (version_of db + 1) = version_of db + 1) as Hw.
  { unfold wrap_uint64. apply Z.mod_small. unfold version_of, int64_max, two64 in *. lia. }
  rewrite Hw. exists stored, merged, plaintext, publicJSON, nonce, rowID, before, s.
  split_and!; try done. by rewrite redactRuntime_eq.
Qed.

(** An update that is stored: it was made for the last version and becomes the next one,
    the only active row; what is sealed in the row is the document with every key's
    secret, given or kept; what the administrator sees of it, and what stands in the clear,
    has no secrets; and the snapshot is built from the sealed document. *)
Theorem update_commits builder env expected document meta current db w snapshot view db' w' :
  config_ok db → version_of db < int64_max → document_typed document →
  update_body builder key env expected document meta current db w = (Ok (snapshot, view, db'), w') →
  expected = version_of db ∧ version_of db' = version_of db + 1 ∧ config_ok db' ∧
  ∃ stored merged row s, stored_document db stored ∧ mergeRuntimeSecrets document stored = Ok merged ∧
    last (cd_Runtime db') = Some row ∧ active_row (cd_Runtime db') = Some row ∧ rc_Version row = version_of db' ∧ holds row merged ∧
    view = {| rv_Version := version_of db'; rv_Document := without_secrets merged |} ∧
    build builder merged current w = Ok (s, w') ∧ snapshot = with_namespace s (managedCacheNamespace (version_of db')).
Proof.
  intros Hdb Hmax Hd Hu.
  destruct (update_body_ok _ _ _ _ _ _ _ _ _ _ _ _ Hdb Hmax Hd Hu)
    as (-> & stored & merged & plaintext & publicJSON & nonce & rowID & before & s & Hst & Hm & Hms & Hp & Hj & Hn & Hi & _ & -> & Hb & -> & ->).
  pose proof (config_ok_next db env meta rowID plaintext publicJSON nonce merged before Hdb Hmax Hms Hn Hp Hj) as Hok.
  cbv zeta in *. set (db' := with_audit _ _) in *.
  assert (version_of db' = version_of db + 1) as Hv.
  { unfold version_of, db'. cbn. rewrite length_app. unfold deactivate_rows. rewrite length_map. cbn. lia. }
  split_and!; [done|done|done|]. exists stored, merged. eexists. exists s. rewrite Hv.
  rewrite (active_last _ Hok). unfold db'. cbn [cd_Runtime with_audit with_runtime]. rewrite last_snoc.
  split_and!; try done. by apply version_row_holds.
Qed.

End versions.

(** ** A concrete update *)

(** A cipher for examples: it opens what it sealed. *)
Definition plain_cipher : AEAD := {| aead_Seal := λ _ _ plaintext _, plaintext; aead_Open := λ _ _ text _, Some text |}.
Lemma plain_cipher_law : @AEADLaw plain_cipher.
Proof. by intros key nonce plaintext data. Qed.

Definition demo_key : string := "0123456789abcdef0123456789abcdef".
Lemma demo_nonce_size nonce : Some "abcdefghijkl"%string = Some nonce → String.length nonce = NonceSize.
Proof. by intros [= <-]. Qed.

Definition demo_tx_env (id : Z) : TxEnv :=
  {| te_read := true; te_skipped := false; te_nonce := Some "abcdefghijkl"%string; te_nonce_size := demo_nonce_size;
     te_deactivate := true; te_row_id := Some (replicate 16 id); te_now := 5; te_create := true; te_audit_now := 6;
     te_audit_id := id; te_audit := true; te_commit := Applied |}.
Definition demo_meta : AuditMeta := {| am_PrincipalID := "admin"; am_RequestID := "r1"; am_RemoteIP := "" |}.
Definition empty_tables : ControlDB := Build_ControlDB [] None [].

Lemma empty_tables_ok `{AEAD} key : config_ok key empty_tables.
Proof. split; cbn; [done|done|by intros row ?%elem_of_nil|constructor]. Qed.

(** The demonstration document with another secret. *)
Definition demo_secret (secret : string) : RuntimeDocument :=
  rd_with_providers (demo_document None)
    (map (λ p, ps_with_keys p [{| ky_ID := "k"; ky_Secret := secret |}]) (rd_Providers (demo_document None))).

Lemma demo_secret_typed secret : utf8_Valid secret = true → document_typed (demo_secret secret).
Proof.
  intros Hs. unfold demo_secret, demo_document, demo_spec. cbn. split; cbn.
  - unfold in_int64, int64_min, int64_max. lia.
  - constructor; [|constructor]. split; cbn; [by repeat constructor|by repeat constructor|by intros k l ?%lookup_empty_Some| |].
    + by repeat constructor.
    + split; cbn; [|by repeat constructor]. rewrite !Forall_cons. split_and!; try done.
  - by repeat constructor.
Qed.

Abbreviation demo_body := (@update_body plain_cipher text_column ascii_only demo_net demo_order demo_builder demo_key).
Definition demo_update (secret : string) : result ControlError (Snapshot * RuntimeView * ControlDB) * World :=
  demo_body (demo_tx_env 1) 0 (demo_secret secret) demo_meta None empty_tables demo_empty_world.

Lemma result_ok_ex {E A B} (r : result E A * B) : is_ok r.1 = true → ∃ a b, r = (Ok a, b).
Proof. destruct r as [[a|e] b]; [by exists a, b|done]. Qed.

Lemma demo_update_ok : ∃ s v db w, demo_update "s" = (Ok (s, v, db), w).
Proof. destruct (result_ok_ex (demo_update "s")) as ([[s v] db] & w & Hr); [vm_compute; reflexivity|]. by exists s, v, db, w. Qed.

Lemma update_commits_witness :
  ∃ s v db w, demo_update "s" = (Ok (s, v, db), w) ∧ rv_Version v = 1 ∧ @config_ok plain_cipher demo_key db.
Proof.
  destruct demo_update_ok as (s & v & db & w & Hok). exists s, v, db, w. split; [exact Hok|].
  destruct (@update_commits plain_cipher plain_cipher_law text_column ascii_only demo_net demo_order demo_key eq_refl
    demo_builder (demo_tx_env 1) 0 (demo_secret "s") demo_meta None empty_tables demo_empty_world s v db w)
    as (_ & Hv & Hdb & st & m & row & s0 & _ & _ & _ & _ & _ & _ & -> & _).
  - apply empty_tables_ok.
  - reflexivity.
  - apply demo_secret_typed. reflexivity.
  - exact Hok.
  - split; [exact Hv|exact Hdb].
Defined.
