(* ===== verification/ControlSecrets.v ===== *)
(** * Secrets stay sealed ([controlplane/service.go])

    An update of the runtime configuration is run twice, with documents and stored
    versions that differ in the texts of secrets only. Every part of the update, each
    guard included, is shown to treat the two alike, so that the answer of the update,
    view or error, and what it writes in the clear are the same. *)

From S2P Require Import Prelude Failure Encoding Registry Breaker Queue KeySelector Retry Routing Attempt Orchestrator Compatible Construction Transport ProviderConfig Gateway Document DocumentJson UsageStore Outbox ControlStore.

Open Scope Z_scope.

(** ** Outcomes that agree

    Both succeed, with related values, or both fail with the same error. *)

Definition same_outcome {E A B} (R : A → B → Prop) (r : result E A) (r' : result E B) : Prop :=
  match r, r' with
  | Ok a, Ok b => R a b
  | Err e, Err e' => e = e'
  | _, _ => False
  end.

Definition any {A B} (_ : A) (_ : B) : Prop := True.

Lemma same_bind {E A B C D} (R : A → B → Prop) (S : C → D → Prop) (m : result E A) (m' : result E B) f g :
  same_outcome R m m' → (∀ a b, R a b → same_outcome S (f a) (g b)) → same_outcome S (m ≫= f) (m' ≫= g).
Proof. destruct m, m'; cbn; auto; done. Qed.

Lemma same_refl {E A} (R : A → A → Prop) (m : result E A) : (∀ a, R a a) → same_outcome R m m.
Proof. by destruct m; cbn. Qed.

Lemma same_mono {E A B} (R S : A → B → Prop) (m : result E A) (m' : result E B) :
  same_outcome R m m' → (∀ a b, R a b → S a b) → same_outcome S m m'.
Proof. destruct m, m'; cbn; auto. Qed.

Lemma same_lift {E E' A B} (h : E → E') (R : A → B → Prop) (m : result E A) (m' : result E B) :
  same_outcome R m m' → same_outcome R (lift_error h m) (lift_error h m').
Proof. destruct m, m'; cbn; try done. by intros ->. Qed.

Lemma same_each {E A B A' B'} (R : A → A' → Prop) (S : B → B' → Prop) (f : A → result E B) (g : A' → result E B') l l' :
  Forall2 R l l' → (∀ a a', R a a' → same_outcome S (f a) (g a')) → same_outcome (Forall2 S) (each f l) (each g l').
Proof.
  intros Hl Hf. induction Hl as [|a a' l l' Ha _ IH]; [constructor|]. cbn [each].
  eapply same_bind; [by apply Hf|]. intros b b' Hb. eapply same_bind; [exact IH|]. intros bs bs' Hbs. by constructor.
Qed.

(** ** Documents that differ in secrets only

    Two secrets may differ, but both are blank, as the program judges it, or none is. *)

Definition blank_alike (s t : string) : Prop :=
  (s =? "")%string = (t =? "")%string ∧ (TrimSpace s =? "")%string = (TrimSpace t =? "")%string.

Definition key_alike (k k' : ProviderKeySpec) : Prop := ky_ID k = ky_ID k' ∧ blank_alike (ky_Secret k) (ky_Secret k').

Definition provider_alike (p p' : ProviderSpec) : Prop :=
  ∃ keys, p' = ps_with_keys p keys ∧ Forall2 key_alike (ps_Keys p) keys.

Definition alike (d d' : RuntimeDocument) : Prop :=
  ∃ providers, d' = rd_with_providers d providers ∧ Forall2 provider_alike (rd_Providers d) providers.

Lemma alike_refl d : alike d d.
Proof.
  exists (rd_Providers d). split; [by destruct d|]. apply Forall_Forall2_diag, Forall_forall. intros p _. exists (ps_Keys p).
  split; [by destruct p|]. apply Forall_Forall2_diag, Forall_forall. done.
Qed.

Lemma alike_public d d' : alike d d' → without_secrets d = without_secrets d'.
Proof.
  intros (ps & -> & Hps). unfold without_secrets, rd_with_providers. cbn. f_equal.
  induction Hps as [|p p' l l' (keys & -> & Hk) _ IH]; [done|]. cbn. f_equal; [|done].
  unfold ps_with_keys. cbn. f_equal. induction Hk as [|k k' ks ks' [Hid _] _ IHk]; [done|]. cbn. f_equal; [|done].
  unfold without_secret. by rewrite Hid.
Qed.

Lemma alike_encodes d d' : alike d d' → is_Some (encode_document d) → is_Some (encode_document d').
Proof.
  intros (ps & -> & Hps) Hd. apply encode_document_providers; [done|]. eapply Forall2_impl; [done|].
  intros p q (keys & -> & _). by exists keys.
Qed.

Lemma alike_encodes_back d d' : alike d d' → is_Some (encode_document d') → is_Some (encode_document d).
Proof.
  intros (ps & -> & Hps) Hd. replace d with (rd_with_providers (rd_with_providers d ps) (rd_Providers d)) by by destruct d.
  apply encode_document_providers; [done|]. cbn. apply Forall2_flip. eapply Forall2_impl; [done|].
  intros p q (keys & -> & _). exists (ps_Keys p). by destruct p.
Qed.

(** ** Merging *)

Definition secrets_alike (m m' : gmap string string) : Prop := ∀ name,
  match m !! name, m' !! name with
  | Some s, Some t => blank_alike s t
  | None, None => True
  | _, _ => False
  end.

Lemma secrets_alike_insert m m' name s t :
  secrets_alike m m' → blank_alike s t → secrets_alike (<[name := s]> m) (<[name := t]> m').
Proof.
  intros Hm Hs j. destruct (decide (name = j)) as [->|Hne]; [by rewrite !lookup_insert_eq|]. rewrite !lookup_insert_ne by done. apply Hm.
Qed.

Lemma known_alike d d' : alike d d' → secrets_alike (known_secrets d) (known_secrets d').
Proof.
  intros (ps & -> & Hps). unfold known_secrets. cbn [rd_Providers rd_with_providers].
  assert (secrets_alike ∅ ∅) as Hm by (intros name; by rewrite lookup_empty).
  revert Hm. generalize (∅ : gmap string string) at 2 4 as m'. generalize (∅ : gmap string string) as m.
  induction Hps as [|p p' l l' (keys & -> & Hk) _ IH]; intros m m' Hm; [done|]. cbn [foldl]. apply IH. cbn [ps_ID ps_Keys ps_with_keys].
  revert m m' Hm. induction Hk as [|k k' ks ks' [Hid Hsec] _ IHk]; intros m m' Hm; [done|]. cbn [foldl]. apply IHk.
  rewrite Hid. by apply secrets_alike_insert.
Qed.

Lemma merge_key_alike existing existing' id k k' :
  secrets_alike existing existing' → key_alike k k' →
  same_outcome key_alike (merge_key existing id k) (merge_key existing' id k').
Proof.
  intros He [Hid Hsec]. unfold merge_key. rewrite <-Hid.
  assert (blank_alike (if (ky_Secret k =? "")%string then default ""%string (existing !! secret_name id (TrimSpace (ky_ID k))) else ky_Secret k)
    (if (ky_Secret k' =? "")%string then default ""%string (existing' !! secret_name id (TrimSpace (ky_ID k))) else ky_Secret k')) as Hb.
  { rewrite <-(proj1 Hsec). destruct (ky_Secret k =? "")%string; [|done].
    specialize (He (secret_name id (TrimSpace (ky_ID k)))).
    destruct (existing !! _), (existing' !! _); [exact He|done|done|by split]. }
  cbv zeta. revert Hb. match goal with |- blank_alike ?s ?t → _ => generalize s t end. intros s t Hb.
  rewrite <-(proj1 Hb). by destruct (s =? "")%string.
Qed.

Lemma merge_alike document document' current current' :
  alike document document' → alike current current' →
  same_outcome alike (mergeRuntimeSecrets document current) (mergeRuntimeSecrets document' current').
Proof.
  intros (ps & -> & Hps) Hc%known_alike. unfold mergeRuntimeSecrets. cbn [rd_Providers rd_with_providers].
  eapply same_bind; [eapply same_each; [exact Hps|]|].
  - intros p p' (keys & -> & Hk). unfold merge_provider. cbn [ps_ID ps_Keys ps_with_keys].
    eapply same_bind; [eapply same_each; [exact Hk|]; intros k k' Hkk; by apply merge_key_alike|].
    intros ks ks' Hks. cbn. instantiate (1 := provider_alike). exists ks'. by split.
  - intros l l' Hl. exists l'. by split.
Qed.

(** ** Building *)

(** Two registries with the same identifiers. *)
Definition registry_alike (r r' : RegistryOf) : Prop :=
  reg_ids r = reg_ids r' ∧ ∀ k, isSome (reg_at r !! k) = isSome (reg_at r' !! k).

Lemma registry_alike_add r r' id (l l' : nat) :
  registry_alike r r' →
  registry_alike {| reg_at := <[id := l]> (reg_at r); reg_ids := reg_ids r ++ [id] |}
                 {| reg_at := <[id := l']> (reg_at r'); reg_ids := reg_ids r' ++ [id] |}.
Proof.
  intros [Hids Hat]. split; cbn; [by rewrite Hids|]. intros k.
  destruct (decide (id = k)) as [->|Hne]; [by rewrite !lookup_insert_eq|]. rewrite !lookup_insert_ne by done. apply Hat.
Qed.

Lemma registry_alike_empty r r' : registry_alike r r' → bool_decide (reg_at r = ∅) = bool_decide (reg_at r' = ∅).
Proof.
  intros [_ Hat]. apply bool_decide_ext. rewrite !map_empty. apply forall_proper. intros k. specialize (Hat k).
  by destruct (reg_at r !! k), (reg_at r' !! k).
Qed.

(** What a registry is made of, and whether it is made, do not depend on what was
    allocated before. *)
Lemma new_registry_alike {Config E Obj} (make : string → Config → result E Obj) e1 e2 e3 e4 ids configs heap heap' :
  same_outcome any (new_registry make e1 e2 e3 e4 ids configs heap) (new_registry make e1 e2 e3 e4 ids configs heap').
Proof.
  unfold new_registry.
  assert (same_outcome (λ x y, registry_alike x.2 y.2)
    (registry_loop make e1 e2 e3 configs 0 ids heap {| reg_at := ∅; reg_ids := [] |})
    (registry_loop make e1 e2 e3 configs 0 ids heap' {| reg_at := ∅; reg_ids := [] |})) as Hloop.
  { assert (registry_alike {| reg_at := ∅; reg_ids := [] |} {| reg_at := ∅; reg_ids := [] |}) as Hr by done.
    revert Hr. generalize {| reg_at := ∅; reg_ids := [] |} at 2 4 as r'. generalize {| reg_at := ∅; reg_ids := [] |} as r.
    revert heap heap'. generalize 0%nat as i.
    induction ids as [|id ids IH]; intros i heap heap' r r' Hr; [exact Hr|]. cbn [registry_loop].
    destruct (TrimSpace id =? "")%string; [done|]. pose proof (proj2 Hr (TrimSpace id)) as Hid.
    destruct (reg_at r !! TrimSpace id), (reg_at r' !! TrimSpace id); try done.
    destruct (configs !! TrimSpace id) as [c|]; [|done]. destruct (make (TrimSpace id) c); [|done].
    apply IH. by apply registry_alike_add. }
  unfold registry_finish. destruct (registry_loop _ _ _ _ _ _ _ heap _) as [[h r]|], (registry_loop _ _ _ _ _ _ _ heap' _) as [[h' r']|]; try done.
  cbn in Hloop. rewrite (registry_alike_empty _ _ Hloop). by destruct (bool_decide _).
Qed.

(** Keys of the selectors: their identifiers, and whether a secret is blank. *)
Definition pk_alike (k k' : ProviderKey) : Prop := pk_ID k = pk_ID k' ∧ blank_alike (pk_Secret k) (pk_Secret k').
Definition set_alike (s s' : ProviderKeySet) : Prop :=
  pks_ProviderID s = pks_ProviderID s' ∧ Forall2 pk_alike (pks_Keys s) (pks_Keys s').

Lemma selector_alike id keys keys' :
  Forall2 pk_alike keys keys' → same_outcome any (newProviderKeySelector id keys) (newProviderKeySelector id keys').
Proof.
  intros Hk. unfold newProviderKeySelector. rewrite <-(Forall2_length _ _ _ Hk).
  replace (bool_decide (keys' = [])) with (bool_decide (keys = [])) by (apply bool_decide_ext; by destruct Hk).
  destruct (bool_decide _); [done|]. destruct (_ >? _); [done|].
  assert (same_outcome any (selector_keys id 0 keys ∅ []) (selector_keys id 0 keys' ∅ [])) as Hs; [|by eapply same_bind].
  generalize 0%nat as i, (∅ : gset string) as seen. generalize (@nil providerKeyEntry) at 2 as acc'. generalize (@nil providerKeyEntry) as acc.
  induction Hk as [|k k' ks ks' [Hid [_ Hsec]] _ IH]; intros acc' acc i seen; [done|]. cbn [selector_keys]. rewrite <-Hid, <-Hsec.
  destruct (negb _); [done|]. destruct (bool_decide _); [done|]. destruct (_ =? "")%string; [done|]. apply IH.
Qed.

Lemma key_registry_alike ids sets sets' heap heap' :
  Forall2 set_alike sets sets' →
  same_outcome any (newProviderKeyRegistry ids sets heap) (newProviderKeyRegistry ids sets' heap').
Proof.
  intros Hs. unfold newProviderKeyRegistry. eapply same_bind; [by apply (same_refl eq)|]. intros expected ? <-.
  destruct (bool_decide _); [done|].
  assert (same_outcome (λ x y, registry_alike x.2 y.2) (key_sets_loop expected 0 sets heap {| reg_at := ∅; reg_ids := [] |})
    (key_sets_loop expected 0 sets' heap' {| reg_at := ∅; reg_ids := [] |})) as Hloop.
  { assert (registry_alike {| reg_at := ∅; reg_ids := [] |} {| reg_at := ∅; reg_ids := [] |}) as Hr by done.
    revert Hr. generalize {| reg_at := ∅; reg_ids := [] |} at 2 4 as r'. generalize {| reg_at := ∅; reg_ids := [] |} as r.
    revert heap heap'. generalize 0%nat as i.
    induction Hs as [|s s' l l' [Hid Hk] _ IH]; intros i heap heap' r r' Hr; [exact Hr|]. cbn [key_sets_loop]. rewrite <-Hid.
    destruct (negb _); [done|]. pose proof (proj2 Hr (TrimSpace (pks_ProviderID s))) as Hat.
    destruct (reg_at r !! _), (reg_at r' !! _); try done.
    pose proof (selector_alike (TrimSpace (pks_ProviderID s)) _ _ Hk) as Hsel.
    destruct (newProviderKeySelector _ (pks_Keys s)), (newProviderKeySelector _ (pks_Keys s')); try done.
    apply IH. by apply registry_alike_add. }
  eapply same_bind; [exact Hloop|]. intros [h r] [h' r'] [_ Hat]. cbn in Hat.
  replace (filter (λ id, reg_at r' !! id = None) expected) with (filter (λ id, reg_at r !! id = None) expected); [by destruct (filter _ _)|].
  apply list_filter_iff. intros k. specialize (Hat k). by destruct (reg_at r !! k), (reg_at r' !! k).
Qed.

Section build.
Context `{Unicode} `{NetURL} `{MapOrder}.

(** What two such documents configure: the same, but for the keys' secrets and the
    fingerprints. *)
Record configured_alike (c c' : Configured) : Prop := {
  ca_Providers : cf_Providers c = cf_Providers c';
  ca_Adapters : cf_Adapters c = cf_Adapters c';
  ca_Breakers : cf_Breakers c = cf_Breakers c';
  ca_Queues : cf_Queues c = cf_Queues c';
  ca_Retries : cf_Retries c = cf_Retries c';
  ca_KeySets : Forall2 set_alike (cf_KeySets c) (cf_KeySets c');
}.

Lemma configure_alike builder p p' r c c' :
  provider_alike p p' → configured_alike c c' → configured_alike (configure builder p r c) (configure builder p' r c').
Proof.
  intros (keys & -> & Hk) [Hp Ha Hb Hq Hr Hs]. split; cbn [configure cf_Providers cf_Adapters cf_Breakers cf_Queues cf_Retries
    cf_KeySets ps_with_keys ps_ID ps_Protocol ps_BaseURL ps_Models ps_ModelCapabilities ps_Keys]; try congruence.
  apply Forall2_app; [done|]. destruct Hk as [|k k' ks ks' Hk Hks]; [constructor|]. constructor; [|constructor].
  split; [done|]. cbn [pks_Keys]. assert (Forall2 key_alike (k :: ks) (k' :: ks')) as Hl by by constructor.
  clear -Hl. induction Hl as [|x y l l' [Hid Hsec] _ IH]; [constructor|]. constructor; [|done]. split; cbn; [by rewrite Hid|done].
Qed.

Lemma configure_all_alike builder providers providers' :
  Forall2 provider_alike providers providers' →
  same_outcome configured_alike (configure_all builder 0 providers nothing_configured) (configure_all builder 0 providers' nothing_configured).
Proof.
  intros Hp. assert (configured_alike nothing_configured nothing_configured) as Hc by (split; cbn; done || constructor).
  revert Hc. generalize nothing_configured at 2 4 as c'. generalize nothing_configured as c. generalize 0%nat as i.
  induction Hp as [|p p' l l' Hp _ IH]; intros i c c' Hc; [exact Hc|]. cbn [configure_all].
  assert (ps_Runtime p' = ps_Runtime p) as -> by by destruct Hp as (keys & -> & _).
  destruct (runtime builder (ps_Runtime p)) as [r|]; [|done]. apply IH. by apply configure_alike.
Qed.

(** The registries are there, or not, in both. *)
Definition registries_alike (r r' : Registries) : Prop :=
  isSome (rg_breakers r) = isSome (rg_breakers r') ∧ isSome (rg_queues r) = isSome (rg_queues r') ∧
  isSome (rg_keys r) = isSome (rg_keys r').

Lemma reuse_provider_present {Obj} (same : Obj → Obj → bool) heap registry id previous :
  isSome (reuse_provider same heap registry id previous).2 = isSome registry.
Proof. unfold reuse_provider. by repeat case_match. Qed.

Lemma reuse_present states previous w r : registries_alike (reuseProviderStates states previous w r) r.
Proof.
  unfold reuseProviderStates. destruct previous as [previous|]; [|done]. revert r.
  induction (map_order states) as [|[id identity] l IH]; intros r; [done|]. cbn [foldl].
  destruct (IH (reuse_one previous w (id, identity) r)) as (Hb & Hq & Hk). unfold registries_alike. rewrite Hb, Hq, Hk.
  unfold reuse_one. destruct (sn_ProviderStates previous !! id) as [existing|]; [|done]. cbn [rg_breakers rg_queues rg_keys].
  unfold BreakerRegistry_ReuseProvider, QueueRegistry_ReuseProvider, KeyRegistry_ReuseProvider.
  split_and!; case_match; by rewrite ?reuse_provider_present.
Qed.

Lemma orchestrator_alike adapters b b' q q' k k' retries :
  isSome b = isSome b' → isSome q = isSome q' → isSome k = isSome k' →
  same_outcome any (newOrchestrator adapters b q k retries) (newOrchestrator adapters b' q' k' retries).
Proof.
  intros Hb Hq Hk. unfold newOrchestrator, NewAttemptExecutor, NewOrchestrator.
  destruct adapters as [a|]; [|done]. destruct b, b'; try done. destruct q, q'; try done.
  assert (bool_decide (k = None) = bool_decide (k' = None)) as ->.
  { apply bool_decide_ext. by destruct k, k'. }
  destruct (_ && _); [done|]. by destruct retries.
Qed.

Lemma snapshot_alike adapters routes r r' retries :
  registries_alike r r' →
  same_outcome any (NewSnapshot adapters routes (rg_breakers r) (rg_queues r) (rg_keys r) retries)
    (NewSnapshot adapters routes (rg_breakers r') (rg_queues r') (rg_keys r') retries).
Proof.
  intros (Hb & Hq & Hk). unfold NewSnapshot.
  destruct adapters as [a|]; [|done]. destruct routes as [rt|]; [|done].
  destruct (rg_breakers r) as [b|], (rg_breakers r') as [b'|]; try done.
  destruct (rg_queues r) as [q|], (rg_queues r') as [q'|]; try done. destruct retries as [rs|]; [|done].
  eapply (same_bind any any); [by apply orchestrator_alike|]. intros chat chat' _.
  eapply (same_bind any any); [|done]. unfold embedding_orchestrator. destruct (EmbeddingRegistry a) as [[e|]|]; [|done|done].
  pose proof (orchestrator_alike (Some (embedding_adapters e)) (Some b) (Some b') (Some q) (Some q') (rg_keys r) (rg_keys r') (Some rs) eq_refl eq_refl Hk) as Ho.
  by destruct (newOrchestrator _ _ _ (rg_keys r) _), (newOrchestrator _ _ _ (rg_keys r') _).
Qed.

Lemma key_registries_alike adapters sets sets' heap heap' :
  Forall2 set_alike sets sets' →
  same_outcome (λ x y, isSome x.2 = isSome y.2) (build_key_registry adapters sets heap) (build_key_registry adapters sets' heap').
Proof.
  intros Hs. unfold build_key_registry. destruct (registry_KeyedProviderIDs _) as [|id ids]; [done|].
  eapply same_bind; [apply same_lift, (key_registry_alike (id :: ids) _ _ heap heap' Hs)|]. by intros [] [] _.
Qed.

Lemma registries_built_alike c c' w w' :
  configured_alike c c' →
  same_outcome (λ x y, x.1.1 = y.1.1 ∧ registries_alike x.1.2 y.1.2) (build_registries c w) (build_registries c' w').
Proof.
  intros [Hp Ha Hb Hq Hr Hs]. unfold build_registries. rewrite <-Hp, <-Ha, <-Hb, <-Hq, <-Hr.
  eapply same_bind; [by apply (same_refl eq)|]. intros adapters ? <-.
  eapply same_bind; [apply same_lift, new_registry_alike|]. intros [bh b] [bh' b'] _.
  eapply same_bind; [apply same_lift, new_registry_alike|]. intros [qh q] [qh' q'] _.
  eapply same_bind; [by apply (same_refl eq)|]. intros retries ? <-.
  eapply same_bind; [by apply key_registries_alike|]. intros [kh k] [kh' k'] Hk. by split.
Qed.

(** Building succeeds or fails alike, from whatever snapshot and in whatever world. *)
Lemma build_alike builder d d' current current' w w' :
  alike d d' → same_outcome any (build builder d current w) (build builder d' current' w').
Proof.
  intros (ps & -> & Hps). unfold build.
  assert (document_error (rd_with_providers d ps) = document_error d) as ->.
  { unfold document_error. cbn [rd_SchemaVersion rd_Providers rd_Routes rd_with_providers]. by rewrite (Forall2_length _ _ _ Hps). }
  destruct (document_error d); [done|]. cbn [rd_Providers rd_Routes rd_with_providers].
  eapply same_bind; [by apply configure_all_alike|]. intros c c' Hc. pose proof (ca_Providers _ _ Hc) as Hp. rewrite <-Hp.
  eapply same_bind; [by apply (same_refl eq)|]. intros routes ? <-.
  eapply same_bind; [by apply registries_built_alike|]. intros [[[a t] r] w1] [[[a' t'] r'] w1'] [Hat (Hb & Hq & Hk)].
  cbn in Hat, Hb, Hq, Hk. injection Hat as <- <-.
  eapply (same_bind any any); [|done]. apply same_lift, snapshot_alike.
  destruct (reuse_present (cf_States c) current w1 r) as (Hb1 & Hq1 & Hk1).
  destruct (reuse_present (cf_States c') current' w1' r') as (Hb2 & Hq2 & Hk2). unfold registries_alike. split_and!; congruence.
Qed.
End build.

(** ** Statements *)

Definition public_row (r : RuntimeConfigVersion) : string * Z * string * bool * string * Time :=
  (rc_ID r, rc_Version r, rc_PublicDocument r, rc_Active r, rc_CreatedBy r, rc_CreatedAt r).

(** What is not sealed. *)
Definition public_db (db : ControlDB) : list (string * Z * string * bool * string * Time) * option ManagedPricing * list AuditLog :=
  (public_row <$> cd_Runtime db, cd_Pricing db, cd_Audit db).

Lemma public_runtime db db' : public_db db = public_db db' → public_row <$> cd_Runtime db = public_row <$> cd_Runtime db'.
Proof. intros Hp. by injection Hp. Qed.

Lemma public_last db db' :
  public_db db = public_db db' → public_row <$> last (cd_Runtime db) = public_row <$> last (cd_Runtime db').
Proof. intros Hp%public_runtime. by rewrite <-!fmap_last, Hp. Qed.

Lemma deactivate_public rows rows' :
  public_row <$> rows = public_row <$> rows' → public_row <$> deactivate_rows rows = public_row <$> deactivate_rows rows'.
Proof.
  revert rows'. induction rows as [|r rows IH]; intros [|r' rows']; try done.
  cbn. intros [= ? ? ? Ha ? ? Hrows]. f_equal; [|exact (IH _ Hrows)].
  rewrite Ha. destruct (rc_Active r') eqn:Hact; unfold public_row; cbn; congruence.
Qed.

(** The unique indexes are over public columns. *)
Lemma row_conflict_public row row' r r' :
  public_row row = public_row row' → public_row r = public_row r' → row_conflict row r = row_conflict row' r'.
Proof. unfold public_row, row_conflict. intros [= -> -> _ -> _ _] [= -> -> _ -> _ _]. done. Qed.

Lemma create_row_alike `{Jsonb} accepted row row' rows rows' :
  public_row row = public_row row' → public_row <$> rows = public_row <$> rows' →
  same_outcome (λ l l', public_row <$> l = public_row <$> l')
    (or_error control_persist (create_row accepted row rows)) (or_error control_persist (create_row accepted row' rows')).
Proof.
  intros Hrow Hrows. unfold create_row.
  assert (existsb (row_conflict row) rows = existsb (row_conflict row') rows') as ->.
  { clear -Hrow Hrows. revert rows' Hrows. induction rows as [|r rows IH]; intros [|r' rows']; try done. cbn [existsb fmap list_fmap].
    intros [= ? ? ? ? ? ? Hrows]. rewrite (IH rows' Hrows). f_equal. apply row_conflict_public; [done|]. unfold public_row. congruence. }
  replace (rc_PublicDocument row') with (rc_PublicDocument row) by by injection Hrow.
  destruct (_ && _); [|done]. cbn. by rewrite !fmap_app, Hrows, !fmap_cons, Hrow.
Qed.

Lemma audit_alike `{Jsonb} accepted row db db' :
  public_db db = public_db db' →
  same_outcome (λ a b, public_db a = public_db b) (appendAudit accepted row db) (appendAudit accepted row db').
Proof.
  intros Hp. unfold appendAudit, insert_audit. destruct (audit_incomplete row); [done|].
  injection Hp as Hr Hpr Ha. rewrite <-Ha. destruct (_ && _); [|done]. unfold public_db. cbn. by rewrite Hr, Hpr, Ha.
Qed.

Section transaction.
Context `{AEAD} `{Jsonb} (key : string).
Hypothesis key_size : String.length key = 32%nat.

Lemma stored_storable db d row : stored_document key db d → last (cd_Runtime db) = Some row → storable d.
Proof. unfold stored_document. intros Hd Hl. rewrite Hl in Hd. by destruct Hd as (_ & ? & _). Qed.

(** The two versions that the updates start from. *)
Definition starts_alike (x y : Z * RuntimeDocument) : Prop :=
  x.1 = y.1 ∧ alike x.2 y.2 ∧ document_typed x.2 ∧ document_typed y.2 ∧ (x.1 ≠ 0 → storable x.2 ∧ storable y.2).

Lemma current_alike env db db' :
  config_ok key db → config_ok key db' → public_db db = public_db db' →
  (∀ d d', stored_document key db d → stored_document key db' d' → alike d d') →
  same_outcome starts_alike (current_runtime key env (cd_Runtime db)) (current_runtime key env (cd_Runtime db')).
Proof.
  intros Hdb Hdb' Hpub Hst. unfold current_runtime, lockedRuntime. destruct (te_read env); cbn [negb]; [|done].
  assert (starts_alike (0, no_document) (0, no_document)) as Hnone.
  { split_and!; cbn; [done|apply alike_refl|apply (no_document_typed key key_size)..|done]. }
  destruct (te_skipped env); [exact Hnone|]. rewrite (active_last key key_size db Hdb), (active_last key key_size db' Hdb').
  pose proof (public_last _ _ Hpub) as Hl.
  destruct (last (cd_Runtime db)) as [r|] eqn:Hr, (last (cd_Runtime db')) as [r'|] eqn:Hr'; try done.
  destruct (co_holds key _ Hdb r) as [d Hd]; [by apply last_Some_elem_of|].
  destruct (co_holds key _ Hdb' r') as [d' Hd']; [by apply last_Some_elem_of|].
  assert (stored_document key db d) as Hs by (unfold stored_document; by rewrite Hr).
  assert (stored_document key db' d') as Hs' by (unfold stored_document; by rewrite Hr').
  rewrite (proj1 Hd), (proj1 Hd'). cbn [mbind result_bind same_outcome]. split_and!; cbn [fst snd].
  - cbn in Hl. by injection Hl.
  - by apply Hst.
  - by eapply stored_typed.
  - by eapply stored_typed.
  - intros _. split; by eapply stored_storable.
Qed.

Lemma redact_alike d d' : alike d d' → storable d → storable d' → redactRuntime d = redactRuntime d'.
Proof. intros Ha Hd Hd'. rewrite !redactRuntime_eq by done. by apply alike_public. Qed.

Lemma store_alike env version current current' merged merged' meta db db' :
  starts_alike (version, current) (version, current') → alike merged merged' →
  (is_Some (encode_document merged) → storable merged ∧ storable merged') → public_db db = public_db db' →
  same_outcome (λ x y, x.1 = y.1 ∧ public_db x.2 = public_db y.2)
    (store_version key env version current merged meta db) (store_version key env version current' merged' meta db').
Proof.
  intros (_ & Hcur & _ & _ & Hcs) Hm Hms Hpub. cbn in Hcur, Hcs. unfold store_version.
  destruct (encode_document merged) as [plaintext|] eqn:He.
  2: { destruct (encode_document merged') eqn:He'; [|done].
       destruct (alike_encodes_back merged merged' Hm) as [t Ht]; [by eexists|congruence]. }
  destruct (alike_encodes merged merged' Hm) as [plaintext' ->]; [by eexists|]. cbn [or_error mbind result_bind].
  destruct (Hms ltac:(by eexists)) as [Hs Hs']. rewrite (redact_alike _ _ Hm Hs Hs').
  eapply same_bind; [by apply (same_refl eq)|]. intros publicJSON ? <-.
  eapply (same_bind (λ x y, x.2 = y.2)); [unfold seal; by destruct (te_nonce env)|]. intros [ct n] [ct' n'] Hn. cbn in Hn. subst n'.
  eapply same_bind; [by apply (same_refl eq)|]. intros [] [] _.
  eapply same_bind; [by apply (same_refl eq)|]. intros rowID ? <-.
  eapply same_bind; [apply create_row_alike; [done|by apply deactivate_public, public_runtime]|]. intros rows rows' Hrows. cbv beta in Hrows.
  eapply (same_bind eq).
  { destruct (Z.eqb_spec version 0) as [|Hv]; [done|]. destruct (Hcs Hv) as [Hc Hc'].
    rewrite (redact_alike _ _ Hcur Hc Hc'). by apply same_refl. }
  intros before ? <-. eapply same_bind; [apply audit_alike|by intros db1 db1' Hdb1].
  injection Hpub as _ Hpr Hal. unfold public_db. cbn. by rewrite Hrows, Hpr, Hal.
Qed.

Context `{Unicode} `{NetURL} `{MapOrder}.

Lemma update_body_alike builder env expected document document' meta current current' db db' w w' :
  config_ok key db → config_ok key db' → document_typed document → document_typed document' →
  alike document document' → public_db db = public_db db' →
  (∀ d d', stored_document key db d → stored_document key db' d' → alike d d') →
  same_outcome (λ x y, x.1.2 = y.1.2 ∧ public_db x.2 = public_db y.2)
    (update_body builder key env expected document meta current db w).1
    (update_body builder key env expected document' meta current' db' w').1.
Proof.
  intros Hdb Hdb' Hd Hd' Ha Hpub Hst. unfold update_body.
  pose proof (current_alike env _ _ Hdb Hdb' Hpub Hst) as Hc.
  destruct (current_runtime key env (cd_Runtime db)) as [[v cur]|], (current_runtime key env (cd_Runtime db')) as [[v' cur']|]; try done.
  pose proof Hc as (Hv & Hcur & Ht & Ht' & _). cbn in Hv, Hcur, Ht, Ht'. subst v'. cbn [mbind result_bind].
  destruct (negb _); [done|]. pose proof (merge_alike _ _ _ _ Ha Hcur) as Hm.
  destruct (mergeRuntimeSecrets document cur) as [m|] eqn:Em, (mergeRuntimeSecrets document' cur') as [m'|] eqn:Em'; try done.
  cbn in Hm. cbn [mbind result_bind]. pose proof (build_alike builder m m' current current' w w' Hm) as Hb.
  destruct (build builder m current w) as [[s w1]|e], (build builder m' current' w') as [[s' w1']|e']; try done; [|by cbn in Hb; subst].
  cbn [fst]. eapply same_bind; [apply store_alike; [done|done| |done]|by intros [v1 db1] [v1' db1'] [? ?]].
  intros Hsome. split; [exact (merge_storable _ _ _ Hd Ht Hsome Em)|].
  exact (merge_storable _ _ _ Hd' Ht' (alike_encodes _ _ Hm Hsome) Em').
Qed.

(** What an update answers: a view without secrets, or an error. *)
Definition public_answer (r : result ControlError (Snapshot * RuntimeView)) : result ControlError RuntimeView :=
  match r with Ok (_, view) => Ok view | Err e => Err e end.

(** C20: secrets stay sealed. Take two updates that differ in the texts of secrets only: the
    documents that are sent, and those that the last versions hold, are alike (where one
    gives a secret, so does the other, blank in both or in none), the tables are the same
    in the clear, and the statements are answered alike; the snapshots that run meanwhile
    and their state may be any. Then both are answered the same, whether with a view or
    with an error, and they leave the same in the clear: rows, prices and audit log. *)
Theorem secrets_sealed builder env expected document document' meta current current' db db' w w' :
  config_ok key db → config_ok key db' → document_typed document → document_typed document' →
  alike document document' → public_db db = public_db db' →
  (∀ d d', stored_document key db d → stored_document key db' d' → alike d d') →
  let run := update_transaction builder key env expected document meta current db w in
  let run' := update_transaction builder key env expected document' meta current' db' w' in
  public_answer run.1.1 = public_answer run'.1.1 ∧ public_db run.1.2 = public_db run'.1.2.
Proof.
  intros Hdb Hdb' Hd Hd' Ha Hpub Hst. unfold update_transaction.
  pose proof (update_body_alike builder env expected _ _ meta current current' _ _ w w' Hdb Hdb' Hd Hd' Ha Hpub Hst) as Hb.
  destruct (update_body _ _ _ _ document _ _ _ _) as [[[[s v] db1]|e] w1], (update_body _ _ _ _ document' _ _ _ _) as [[[[s' v'] db1']|e'] w1'];
    try done; cbn in Hb; [|by subst e'].
  destruct Hb as [<- Hb]. by destruct (te_commit env).
Qed.
End transaction.

(** ** A concrete pair of updates *)

Lemma demo_alike secret secret' : blank_alike secret secret' → alike (demo_secret secret) (demo_secret secret').
Proof.
  intros Hs. eexists. split; [reflexivity|]. unfold demo_secret. cbn [rd_Providers rd_with_providers].
  induction (rd_Providers (demo_document None)) as [|p l IH]; [constructor|]. cbn [map]. constructor; [|exact IH].
  eexists. split; [reflexivity|]. constructor; [by split|constructor].
Qed.

Definition demo_run (secret : string) : result ControlError (Snapshot * RuntimeView) * ControlDB * World :=
  @update_transaction plain_cipher text_column ascii_only demo_net demo_order demo_builder demo_key (demo_tx_env 1) 0
    (demo_secret secret) demo_meta None empty_tables demo_empty_world.

(** Two secrets, one view, one row and one entry in the clear; and two blank ones, one error. *)
Lemma secrets_sealed_witness :
  is_ok (demo_run "s").1.1 = true ∧ is_ok (demo_run " ").1.1 = false ∧
  length (cd_Runtime (demo_run "s").1.2) = 1%nat ∧
  (public_answer (demo_run "s").1.1 = public_answer (demo_run "other").1.1 ∧
   public_db (demo_run "s").1.2 = public_db (demo_run "other").1.2) ∧
  public_answer (demo_run " ").1.1 = public_answer (demo_run "  ").1.1.
Proof.
  assert (∀ secret secret', utf8_Valid secret = true → utf8_Valid secret' = true → blank_alike secret secret' →
    public_answer (demo_run secret).1.1 = public_answer (demo_run secret').1.1 ∧
    public_db (demo_run secret).1.2 = public_db (demo_run secret').1.2) as Hsame.
  { intros secret secret' Hv Hv' Hb.
    apply (@secrets_sealed plain_cipher text_column demo_key eq_refl ascii_only demo_net demo_order
      demo_builder (demo_tx_env 1) 0 (demo_secret secret) (demo_secret secret') demo_meta None None
      empty_tables empty_tables demo_empty_world demo_empty_world);
      [apply empty_tables_ok|apply empty_tables_ok|by apply demo_secret_typed|by apply demo_secret_typed|by apply demo_alike|reflexivity|].
    intros d d' -> ->. apply alike_refl. }
  split; [vm_compute; reflexivity|]. split; [vm_compute; reflexivity|]. split; [vm_compute; reflexivity|].
  split; [apply Hsame; vm_compute; auto|]. apply (Hsame " "%string "  "%string); vm_compute; auto.
Defined.
