(* ===== verification/ControlPlane.v ===== *)
(** * Publishing configurations ([controlplane/service.go])

    How an instance of the gateway brings what is stored into force: [UpdateRuntime] and
    [reloadRuntime], each a transaction or a read followed by steps that publish the
    snapshot and note its version, one after the other. In between, other updates, the
    watcher and other instances run; [step] interleaves them. *)

From S2P Require Import Prelude Failure Encoding Json JsonWrite JsonTree JsonCodec Routing Attempt Construction Transport Compatible ProviderConfig Gateway Document DocumentJson Pricing UsageStore Outbox ControlStore.
From stdpp Require Import relations.

Open Scope Z_scope.

(** ** An instance *)

(** What a call has still to do: compare and build what it read, publish a snapshot, note
    the view. *)
Inductive Task :=
| task_check (row : RuntimeConfigVersion)
| task_build (row : RuntimeConfigVersion)
| task_publish (snapshot : Snapshot) (view : RuntimeView)
| task_show (view : RuntimeView).

(** The service of one instance, the tables it shares with others, and the calls that are
    under way. *)
Record System := {
  sy_db : ControlDB;
  sy_world : World;
  sy_runtime : Manager;
  sy_view : RuntimeView;
  sy_present : bool;
  sy_tasks : list Task;
}.

Definition with_tables (db : ControlDB) (w : World) (s : System) : System :=
  Build_System db w (sy_runtime s) (sy_view s) (sy_present s) (sy_tasks s).
Definition with_tasks (tasks : list Task) (s : System) : System :=
  Build_System (sy_db s) (sy_world s) (sy_runtime s) (sy_view s) (sy_present s) tasks.
Definition with_current (m : Manager) (s : System) : System :=
  Build_System (sy_db s) (sy_world s) m (sy_view s) (sy_present s) (sy_tasks s).
Definition show (view : RuntimeView) (s : System) : System :=
  Build_System (sy_db s) (sy_world s) (sy_runtime s) view true (sy_tasks s).

Definition running (s : System) : Snapshot := mg_current (sy_runtime s).

Section service.
Context `{AEAD} `{Jsonb} `{Unicode} `{NetURL} `{MapOrder}.
Context (builder : Builder) (key : string).

(** [service.runtime.Replace]. *)
Definition publish (snapshot : Snapshot) (s : System) : result ControlError () * System :=
  match Replace (Some (sy_runtime s)) (Some snapshot) with
  | (Ok _, Some m) => (Ok (), with_current m s)
  | (Ok _, None) => (Ok (), s)
  | (Err e, _) => (Err (control_gateway e), s)
  end.

(** The active row as it is read outside of a transaction. *)
Definition read_active (answered : bool) (rows : list RuntimeConfigVersion) : result ControlError RuntimeConfigVersion :=
  if answered then or_error ErrNotConfigured (active_row rows) else Err control_read.

Definition is_current (row : RuntimeConfigVersion) (s : System) : bool := rv_Version (sy_view s) =? rc_Version row.

(** From a row to a snapshot and a view. *)
Definition rebuild (row : RuntimeConfigVersion) (s : System) : result ControlError (Snapshot * RuntimeView) * World :=
  match decrypt key row with
  | Err e => (Err e, sy_world s)
  | Ok document =>
      match build builder document (Some (running s)) (sy_world s) with
      | Err e => (Err (control_build e), sy_world s)
      | Ok (snapshot, w) =>
          (public ← or_error control_decode
                      (text ← jsonb (rc_PublicDocument row); decode_document lenient no_document text);
           Ok (with_namespace snapshot (managedCacheNamespace (rc_Version row)),
               {| rv_Version := rc_Version row; rv_Document := public |}), w)
      end
  end.

(** ** Calls that nothing interrupts *)

Definition UpdateRuntime (env : TxEnv) (expected : Z) (document : RuntimeDocument) (meta : AuditMeta) (s : System)
    : result ControlError RuntimeView * System :=
  let '(answer, db, w) := update_transaction builder key env expected document meta (Some (running s)) (sy_db s) (sy_world s) in
  let s := with_tables db w s in
  match answer with
  | Err e => (Err e, s)
  | Ok (snapshot, view) =>
      match publish snapshot s with
      | (Err e, s) => (Err e, s)
      | (Ok _, s) => (Ok (cloneRuntimeView view), show view s)
      end
  end.

Definition reloadRuntime (answered : bool) (s : System) : result ControlError () * System :=
  match read_active answered (cd_Runtime (sy_db s)) with
  | Err e => (Err e, s)
  | Ok row =>
      if is_current row s then (Ok (), s)
      else
        match rebuild row s with
        | (Err e, w) => (Err e, with_tables (sy_db s) w s)
        | (Ok (snapshot, view), w) =>
            match publish snapshot (with_tables (sy_db s) w s) with
            | (Err e, s) => (Err e, s)
            | (Ok _, s) => (Ok (), show view s)
            end
        end
  end.

(** [Runtime]: the view, copied. *)
Definition Runtime (s : System) : result ControlError RuntimeView :=
  if sy_present s then Ok (cloneRuntimeView (sy_view s)) else Err ErrNotConfigured.

(** ** Calls that run at the same time *)

(** Whoever updates, the transaction is the same; another instance has its own snapshot
    and world. *)
Inductive step (s : System) : System → Prop :=
| step_update env expected document meta snapshot view db w :
    document_typed document →
    update_transaction builder key env expected document meta (Some (running s)) (sy_db s) (sy_world s) = (Ok (snapshot, view), db, w) →
    step s (with_tasks (sy_tasks s ++ [task_publish snapshot view]) (with_tables db w s))
| step_update_failed env expected document meta e db w :
    document_typed document →
    update_transaction builder key env expected document meta (Some (running s)) (sy_db s) (sy_world s) = (Err e, db, w) →
    step s (with_tables db w s)
| step_elsewhere env expected document meta current world answer db w :
    document_typed document →
    update_transaction builder key env expected document meta current (sy_db s) world = (answer, db, w) →
    step s (with_tables db (sy_world s) s)
| step_read row :
    read_active true (cd_Runtime (sy_db s)) = Ok row → step s (with_tasks (sy_tasks s ++ [task_check row]) s)
| step_known row before after :
    sy_tasks s = before ++ task_check row :: after → is_current row s = true → step s (with_tasks (before ++ after) s)
| step_unknown row before after :
    sy_tasks s = before ++ task_check row :: after → is_current row s = false →
    step s (with_tasks (before ++ task_build row :: after) s)
| step_build row before after snapshot view w :
    sy_tasks s = before ++ task_build row :: after → rebuild row s = (Ok (snapshot, view), w) →
    step s (with_tasks (before ++ task_publish snapshot view :: after) (with_tables (sy_db s) w s))
| step_build_failed row before after e w :
    sy_tasks s = before ++ task_build row :: after → rebuild row s = (Err e, w) →
    step s (with_tasks (before ++ after) (with_tables (sy_db s) w s))
| step_publish snapshot view before after s' :
    sy_tasks s = before ++ task_publish snapshot view :: after → publish snapshot s = (Ok (), s') →
    step s (with_tasks (before ++ task_show view :: after) s')
| step_publish_refused snapshot view before after e s' :
    sy_tasks s = before ++ task_publish snapshot view :: after → publish snapshot s = (Err e, s') →
    step s (with_tasks (before ++ after) s')
| step_show view before after :
    sy_tasks s = before ++ task_show view :: after → step s (with_tasks (before ++ after) (show view s))
| step_traffic w :
    step s (with_tables (sy_db s) w s).

(** The steps of reloading alone: nobody updates. *)
Definition reload_step (s s' : System) : Prop := step s s' ∧ cd_Runtime (sy_db s') = cd_Runtime (sy_db s).
End service.

(** ** What is in force was stored *)

Section invariant.
Context `{AEADLaw} `{Jsonb} `{Unicode} `{NetURL} `{MapOrder}.
Context (builder : Builder) (key : string).
Hypothesis key_size : String.length key = 32%nat.

Definition grown (db db' : ControlDB) : Prop :=
  ∀ i r, cd_Runtime db !! i = Some r → ∃ r', cd_Runtime db' !! i = Some r' ∧ (r' = r ∨ r' = rc_deactivated r).

Lemma transaction_cases env expected document meta current db w answer db' w' :
  update_transaction builder key env expected document meta current db w = (answer, db', w') →
  (db' = db ∧ ∀ a, answer ≠ Ok a) ∨
  ∃ snapshot view, update_body builder key env expected document meta current db w = (Ok (snapshot, view, db'), w') ∧
    (answer = Ok (snapshot, view) ∨ answer = Err control_commit).
Proof.
  unfold update_transaction. destruct (update_body _ _ _ _ _ _ _ _ _) as [[[[s v] db1]|e] w1] eqn:Hb.
  - destruct (te_commit env); intros [= <- <- <-]; [right; eauto|by left|right; eauto].
  - intros [= <- <- <-]. by left.
Qed.

Lemma body_rows env expected document meta current db w snapshot view db' w' :
  update_body builder key env expected document meta current db w = (Ok (snapshot, view, db'), w') →
  ∃ row, cd_Runtime db' = deactivate_rows (cd_Runtime db) ++ [row].
Proof.
  intros (stored & merged & s & _ & _ & _ & Hs & _)%update_body_inv.
  apply store_version_ok in Hs as (? & ? & ? & ? & ? & _ & _ & _ & _ & _ & _ & _ & ->). by eexists.
Qed.

Lemma rows_grown db db' row : cd_Runtime db' = deactivate_rows (cd_Runtime db) ++ [row] → grown db db'.
Proof.
  intros Hr i r Hi. rewrite Hr. exists (if rc_Active r then rc_deactivated r else r).
  split; [|destruct (rc_Active r); auto]. apply lookup_app_l_Some. by rewrite deactivate_lookup, Hi.
Qed.

Lemma grown_refl db : grown db db.
Proof. intros i r Hi. exists r. auto. Qed.

(** A transaction leaves the rows, or adds one. *)
Lemma transaction_rows env expected document meta current db w answer db' w' :
  update_transaction builder key env expected document meta current db w = (answer, db', w') →
  grown db db' ∧ (db' = db ∧ (∀ a, answer ≠ Ok a) ∨ version_of db' = version_of db + 1).
Proof.
  intros [[-> Hn]|(s & v & Hb & _)]%transaction_cases; [split; [apply grown_refl|auto]|].
  destruct (body_rows _ _ _ _ _ _ _ _ _ _ _ Hb) as [row Hr]. split; [by eapply rows_grown|]. right.
  unfold version_of. rewrite Hr, length_app. unfold deactivate_rows. rewrite length_map. cbn. lia.
Qed.

Lemma transaction_keeps_ok env expected document meta current db w answer db' w' :
  config_ok key db → document_typed document → version_of db' ≤ int64_max →
  update_transaction builder key env expected document meta current db w = (answer, db', w') → config_ok key db'.
Proof.
  intros Hdb Hd Hmax Ht. pose proof (transaction_rows _ _ _ _ _ _ _ _ _ _ Ht) as [_ [[-> _]|Hv]]; [done|].
  apply transaction_cases in Ht as [[-> _]|(s & v & Hb & _)]; [done|].
  eapply update_commits in Hb; [by destruct Hb as (_ & _ & ? & _)|done|done|lia|done].
Qed.

(** A snapshot was built from what a stored version holds, and is named after it. *)
Definition built_from (db : ControlDB) (version : Z) (snapshot : Snapshot) : Prop :=
  ∃ i row d previous w w' s, cd_Runtime db !! i = Some row ∧ rc_Version row = version ∧ holds key row d ∧
    build builder d previous w = Ok (s, w') ∧ snapshot = with_namespace s (managedCacheNamespace version).

Definition task_ok (db : ControlDB) (t : Task) : Prop :=
  match t with
  | task_check row | task_build row =>
      ∃ i r, cd_Runtime db !! i = Some r ∧ rc_Version row = rc_Version r ∧ rc_Ciphertext row = rc_Ciphertext r ∧
        rc_Nonce row = rc_Nonce r
  | task_publish snapshot view => built_from db (rv_Version view) snapshot
  | task_show view => ∃ snapshot, built_from db (rv_Version view) snapshot
  end.

Record published_ok (initial : Snapshot) (s : System) : Prop := {
  po_config : config_ok key (sy_db s);
  po_running : running s = initial ∨ ∃ version, built_from (sy_db s) version (running s);
  po_view : sy_present s = true → ∃ snapshot, built_from (sy_db s) (rv_Version (sy_view s)) snapshot;
  po_tasks : ∀ t, t ∈ sy_tasks s → task_ok (sy_db s) t;
}.

Lemma built_grown db db' version snapshot : grown db db' → built_from db version snapshot → built_from db' version snapshot.
Proof.
  intros Hg (i & row & d & previous & w & w' & s & Hi & Hv & Hh & Hb & Hs). destruct (Hg i row Hi) as (row' & Hi' & Hr).
  exists i, row', d, previous, w, w', s. split_and!; try done; by destruct Hr as [-> | ->].
Qed.

Lemma task_grown db db' t : grown db db' → task_ok db t → task_ok db' t.
Proof.
  intros Hg. destruct t; cbn; [intros (i & r & Hi & Hv & Hc & Hn)..|by apply built_grown|intros [s ?]; exists s; by eapply built_grown].
  - destruct (Hg i r Hi) as (r' & Hi' & [-> | ->]); exists i; eexists; done.
  - destruct (Hg i r Hi) as (r' & Hi' & [-> | ->]); exists i; eexists; done.
Qed.

(** More rows keep everything but the new tasks in order. *)
Lemma published_grown initial s db w :
  published_ok initial s → grown (sy_db s) db → config_ok key db → published_ok initial (with_tables db w s).
Proof.
  intros [Hc Hr Hv Ht] Hg Hdb. split; cbn; [done| | |].
  - destruct Hr as [?|[v ?]]; [by left|right]. exists v. by eapply built_grown.
  - intros Hp. destruct (Hv Hp) as [sn ?]. exists sn. by eapply built_grown.
  - intros t Hin. eapply task_grown; [done|by apply Ht].
Qed.

Lemma published_tasks initial s tasks :
  published_ok initial s → (∀ t, t ∈ tasks → t ∈ sy_tasks s ∨ task_ok (sy_db s) t) → published_ok initial (with_tasks tasks s).
Proof. intros [Hc Hr Hv Ht] Hin. split; cbn; [done..|]. intros t [?|?]%Hin; [by apply Ht|done]. Qed.

Lemma publish_ok snapshot s s' : publish snapshot s = (Ok (), s') → s' = with_current {| mg_current := snapshot |} s.
Proof. unfold publish, Replace. destruct (snapshot_complete (Some snapshot)); [|done]. by intros [= <-]. Qed.

Lemma publish_refused snapshot s e s' : publish snapshot s = (Err e, s') → s' = s.
Proof. unfold publish, Replace. destruct (snapshot_complete (Some snapshot)); [done|]. by intros [= _ <-]. Qed.

(** What is rebuilt from a row is built from what the stored row of its version holds. *)
Lemma rebuild_ok row s snapshot view w :
  config_ok key (sy_db s) → task_ok (sy_db s) (task_build row) → rebuild builder key row s = (Ok (snapshot, view), w) →
  rv_Version view = rc_Version row ∧ built_from (sy_db s) (rc_Version row) snapshot.
Proof.
  intros Hdb (i & r & Hi & Hv & Hc & Hn). unfold rebuild. destruct (decrypt key row) as [d|] eqn:Hd; [|done].
  destruct (build _ _ _ _) as [[s0 w0]|] eqn:Hb; [|done]. intros [= Hp <-].
  apply result_bind_ok in Hp as (public & _ & [= <- <-]). split; [done|].
  destruct (co_holds _ _ Hdb r) as (d' & Hh); [by eapply list_elem_of_lookup_2|].
  assert (d' = d) as -> by (destruct Hh as [Hd' _]; unfold decrypt in *; rewrite Hc, Hn in Hd; congruence).
  exists i, r, d, (Some (running s)), (sy_world s), w0, s0. by rewrite <-Hv.
Qed.


Lemma active_stored db row : config_ok key db → active_row (cd_Runtime db) = Some row → cd_Runtime db !! Init.Nat.pred (length (cd_Runtime db)) = Some row ∧ rc_Version row = version_of db.
Proof.
  intros Hdb. rewrite (active_last key key_size db Hdb), last_lookup. intros Hl. split; [done|]. rewrite (co_versions _ _ Hdb _ _ Hl).
  apply lookup_lt_Some in Hl. unfold version_of. lia.
Qed.

Lemma step_versions s s' :
  step builder key s s' → version_of (sy_db s) ≤ version_of (sy_db s').
Proof.
  destruct 1 as [env expected document meta snapshot view db w _ Ht|env expected document meta e db w _ Ht
    |env expected document meta current world answer db w _ Ht|row _|row b a _ _|row b a _ _|row b a snapshot view w _ _|row b a e w _ _
    |snapshot view b a s' _ Hp|snapshot view b a e s' _ Hp|view b a _|w]; cbn; try lia.
  1-3: apply transaction_rows in Ht as [_ [[-> _]|?]]; lia.
  - apply publish_ok in Hp as ->. cbn. lia.
  - apply publish_refused in Hp as ->. lia.
Qed.

(** One step of whoever keeps it. *)
Lemma step_published initial s s' :
  step builder key s s' → version_of (sy_db s') ≤ int64_max → published_ok initial s → published_ok initial s'.
Proof.
  destruct 1 as [env expected document meta snapshot view db w Hd Ht|env expected document meta e db w Hd Ht
    |env expected document meta current world answer db w Hd Ht|row Hrow|row b a Htk _|row b a Htk _|row b a snapshot view w Htk Hb|row b a e w Htk _
    |snapshot view b a s' Htk Hp|snapshot view b a e s' Htk Hp|view b a Htk|w]; intros Hmax Hok; pose proof Hok as [Hc Hr Hv Hts]; cbn in Hmax.
  - pose proof (transaction_keeps_ok _ _ _ _ _ _ _ _ _ _ Hc Hd Hmax Ht) as Hdb.
    pose proof (transaction_rows _ _ _ _ _ _ _ _ _ _ Ht) as [Hg [[_ Hne]|Hver]]; [by destruct (Hne (snapshot, view))|].
    change (sy_tasks s) with (sy_tasks (with_tables db w s)). apply published_tasks; [by apply published_grown|].
    intros t [?| ->%list_elem_of_singleton]%elem_of_app; [by left|right]. cbn.
    apply transaction_cases in Ht as [[_ Hne]|(s0 & v0 & Hbody & [[= <- <-]|[=]])]; [by destruct (Hne (snapshot, view))|].
    eapply update_commits in Hbody as (_ & _ & _ & stored & merged & row & s1 & _ & _ & _ & Ha & Hrv & Hh & -> & Hbuild & ->); [|done|done|lia|done].
    cbn [rv_Version]. apply active_stored in Ha as [Hi _]; [|done]. eexists _, row, merged, _, _, _, s1. split_and!; done.
  - apply transaction_rows in Ht as Hg. destruct Hg as [Hg _]. apply published_grown; [done|done|].
    by eapply transaction_keeps_ok.
  - apply transaction_rows in Ht as Hg. destruct Hg as [Hg _]. apply published_grown; [done|done|].
    by eapply transaction_keeps_ok.
  - apply published_tasks; [done|]. intros t [?| ->%list_elem_of_singleton]%elem_of_app; [by left|right]. cbn.
    unfold read_active in Hrow. destruct (active_row _) eqn:Ha; [injection Hrow as <-|done]. apply active_stored in Ha as [Hi _]; [|done].
    eexists _, _. by split_and!.
  - apply published_tasks; [done|]. rewrite Htk. intros t Ht. left. set_solver.
  - apply published_tasks; [done|]. rewrite Htk. intros t Ht. rewrite elem_of_app, elem_of_cons in Ht.
    destruct Ht as [Ht|[ -> |Ht]]; [left; set_solver|right|left; set_solver]. apply (Hts (task_check row)). rewrite Htk. set_solver.
  - change (published_ok initial (with_tasks (b ++ task_publish snapshot view :: a) (with_tables (sy_db s) w s))).
    apply published_tasks; [by apply published_grown; [done|apply grown_refl|]|]. cbn. rewrite Htk. intros t Ht. rewrite elem_of_app, elem_of_cons in Ht.
    destruct Ht as [Ht|[ -> |Ht]]; [left; set_solver|right|left; set_solver]. cbn.
    apply rebuild_ok in Hb as [-> Hb]; [done|done|]. apply Hts. rewrite Htk. set_solver.
  - apply published_tasks; [by apply published_grown; [done|apply grown_refl|]|]. cbn. rewrite Htk. intros t Ht. left. set_solver.
  - apply publish_ok in Hp as ->. assert (task_ok (sy_db s) (task_publish snapshot view)) as Hb by (apply Hts; rewrite Htk; set_solver).
    split; cbn; [done|right; by eexists|done|]. intros t Ht. rewrite elem_of_app, elem_of_cons in Ht.
    destruct Ht as [Ht|[ -> |Ht]]; [apply Hts; rewrite Htk; set_solver|by exists snapshot|apply Hts; rewrite Htk; set_solver].
  - apply publish_refused in Hp as ->. apply published_tasks; [done|]. rewrite Htk. intros t Ht. left. set_solver.
  - assert (task_ok (sy_db s) (task_show view)) as Hb by (apply Hts; rewrite Htk; set_solver).
    split; cbn; [done|done|done|]. intros t Ht. apply Hts. rewrite Htk. set_solver.
  - apply published_grown; [done|apply grown_refl|done].
Qed.

(** C21: whatever interleaves, updates here and elsewhere, reloads, failures at any point, the
    versions stay in order, the last alone active and every one in the audit log; and what
    requests are served with is the snapshot the instance began with, or one that was
    built from the sealed document of a stored version and is named after it; so is what
    the administrator is shown. *)
Theorem published_versions s0 s :
  config_ok key (sy_db s0) → sy_present s0 = false → sy_tasks s0 = [] →
  rtc (step builder key) s0 s → version_of (sy_db s) ≤ int64_max → published_ok (running s0) s.
Proof.
  intros Hc Hp Ht Hr. revert s Hr.
  refine (rtc_ind_r (λ s, version_of (sy_db s) ≤ int64_max → published_ok (running s0) s) s0 _ _).
  - intros _. split; [done|by left|by rewrite Hp|]. rewrite Ht. by intros t ?%elem_of_nil.
  - intros s s' _ Hs IH Hmax. eapply step_published; [done|done|]. apply IH. apply step_versions in Hs. lia.
Qed.

(** ** Calls one after the other *)

(** The version that is shown is the one that is in force. *)
Definition in_step (s : System) : Prop :=
  sy_present s = true → sn_CacheNamespace (running s) = managedCacheNamespace (rv_Version (sy_view s)).

(** Calls that nothing interrupts keep what is shown and what is in force together; a
    reload that succeeds brings the last version into force, whoever stored it, and an
    update that succeeds its own. *)
Theorem uninterrupted_in_step s :
  config_ok key (sy_db s) → in_step s → (sy_present s = false → rv_Version (sy_view s) = 0) →
  (∀ answered s', reloadRuntime builder key answered s = (Ok (), s') →
     in_step s' ∧ sy_present s' = true ∧ rv_Version (sy_view s') = version_of (sy_db s) ∧ sy_db s' = sy_db s) ∧
  (∀ env expected document meta view s', document_typed document → version_of (sy_db s) < int64_max →
     UpdateRuntime builder key env expected document meta s = (Ok view, s') →
     in_step s' ∧ rv_Version (sy_view s') = version_of (sy_db s') ∧ expected = version_of (sy_db s) ∧
     version_of (sy_db s') = version_of (sy_db s) + 1).
Proof.
  intros Hdb Hin Habsent. split.
  - intros answered s'. unfold reloadRuntime, read_active. destruct answered; [|done].
    destruct (active_row (cd_Runtime (sy_db s))) as [row|] eqn:Ha; [cbn [or_error]|done].
    pose proof (active_stored _ _ Hdb Ha) as [Hi Hv]. unfold is_current. destruct (Z.eqb_spec (rv_Version (sy_view s)) (rc_Version row)) as [He|He].
    + intros [= <-]. apply lookup_lt_Some in Hi. destruct (sy_present s) eqn:Hp; [by rewrite <-Hv|].
      rewrite Habsent, Hv in He by done. unfold version_of in He. lia.
    + destruct (rebuild builder key row s) as [[[snapshot view]|e] w] eqn:Hb; [|done].
      assert (rv_Version view = rc_Version row ∧ sn_CacheNamespace snapshot = managedCacheNamespace (rc_Version row)) as [Hview Hns].
      { unfold rebuild in Hb. destruct (decrypt key row); [|done]. destruct (build _ _ _ _) as [[]|]; [|done]. injection Hb as Hb _.
        by apply result_bind_ok in Hb as (? & _ & [= <- <-]). }
      destruct (publish _ _) as [[[]|e] s1] eqn:Hp; [|done]. apply publish_ok in Hp as ->. intros [= <-]. cbn.
      split_and!; [|done|by rewrite Hview|done]. intros _. cbn. by rewrite Hview.
  - intros env expected document meta view s' Hd Hmax. unfold UpdateRuntime.
    destruct (update_transaction _ _ _ _ _ _ _ _ _) as [[[[snapshot v]|e] db] w] eqn:Ht; [|done].
    destruct (publish _ _) as [[[]|e] s1] eqn:Hp; [|done]. apply publish_ok in Hp as ->. intros [= <- <-]. cbn.
    apply transaction_cases in Ht as [[_ Hne]|(s0 & v0 & Hbody & [[= <- <-]|[=]])]; [by destruct (Hne (snapshot, v))|].
    eapply update_commits in Hbody as (He & Hver & _ & stored & merged & row & s1 & _ & _ & _ & _ & _ & _ & -> & _ & ->); [|done..].
    cbn. split_and!; [|done|done|done]. by intros _.
Qed.

(** ** Overlapping updates

    The commit of an update, its publication and the note of its version are separate
    steps. *)

(** Nobody reloads what is taken to be in force. *)
Definition settled (snapshot : Snapshot) (view : RuntimeView) (s : System) : Prop :=
  config_ok key (sy_db s) ∧ running s = snapshot ∧ sy_view s = view ∧ rv_Version view = version_of (sy_db s) ∧
  ∀ t, t ∈ sy_tasks s → ∃ row, t = task_check row ∧ rc_Version row = version_of (sy_db s).

Lemma settled_step snapshot view s s' : reload_step builder key s s' → settled snapshot view s → settled snapshot view s'.
Proof.
  intros [Hs Hrows] (Hc & Hr & Hv & Hver & Hts).
  assert (∀ t b a, sy_tasks s = b ++ t :: a → ∃ row, t = task_check row ∧ rc_Version row = version_of (sy_db s)) as Htask.
  { intros t b a Htk. apply Hts. rewrite Htk. set_solver. }
  destruct Hs as [env expected document meta sn v db w Hd Ht|env expected document meta e db w Hd Ht
    |env expected document meta current world answer db w Hd Ht|row Hrow|row b a Htk Hk|row b a Htk Hk|row b a sn v w Htk _|row b a e w Htk _
    |sn v b a s' Htk Hp|sn v b a e s' Htk Hp|v b a Htk|w]; cbn in Hrows.
  1-3: apply transaction_rows in Ht as [_ [[-> Hne]|Hn]]; [|unfold version_of in Hn; rewrite Hrows in Hn; lia].
  - by destruct (Hne (sn, v)).
  - done.
  - done.
  - unfold read_active in Hrow. destruct (active_row _) eqn:Ha; [injection Hrow as <-|done]. apply active_stored in Ha as [_ Hrv]; [|done].
    split_and!; try done. cbn. intros t [?| ->%list_elem_of_singleton]%elem_of_app; [by apply Hts|by eexists].
  - split_and!; try done. cbn. intros t Ht. apply Hts. rewrite Htk. set_solver.
  - destruct (Htask _ _ _ Htk) as (row' & [= <-] & Hrow). unfold is_current in Hk. rewrite Hv, Hver, Hrow in Hk. by apply Z.eqb_neq in Hk.
  - by destruct (Htask _ _ _ Htk) as (row' & [=] & _).
  - by destruct (Htask _ _ _ Htk) as (row' & [=] & _).
  - by destruct (Htask _ _ _ Htk) as (row' & [=] & _).
  - by destruct (Htask _ _ _ Htk) as (row' & [=] & _).
  - by destruct (Htask _ _ _ Htk) as (row' & [=] & _).
  - done.
Qed.

(** C22: two updates that overlap can leave the instance serving the older version for good.
    Both are committed; if the first publishes its snapshot after the second but notes its
    version before it, requests are served with the first version while the second, the
    stored one, is shown as in force; and as the watcher compares only the version that
    is shown, no reload ever changes that. *)
Theorem overlapping_updates_diverge s first second view1 view2 :
  config_ok key (sy_db s) → sy_tasks s = [task_publish first view1; task_publish second view2] →
  snapshot_complete (Some first) = true → snapshot_complete (Some second) = true → rv_Version view2 = version_of (sy_db s) →
  ∃ s', rtc (step builder key) s s' ∧ sy_db s' = sy_db s ∧ sy_tasks s' = [] ∧ running s' = first ∧ sy_view s' = view2 ∧
    ∀ s'', rtc (reload_step builder key) s' s'' → running s'' = first ∧ sy_view s'' = view2.
Proof.
  intros Hc Ht Hf Hs Hv.
  assert (∀ sn s0, snapshot_complete (Some sn) = true → publish sn s0 = (Ok (), with_current {| mg_current := sn |} s0)) as Hpub.
  { intros sn s0 Hsn. unfold publish, Replace. by rewrite Hsn. }
  exists (Build_System (sy_db s) (sy_world s) {| mg_current := first |} view2 true []). split_and!; [|done..|].
  - eapply rtc_l; [apply (step_publish builder key s second view2 [task_publish first view1] []); [exact Ht|by apply Hpub]|]. cbn.
    eapply rtc_l; [eapply (step_publish builder key _ first view1 [] [task_show view2]); [reflexivity|by apply Hpub]|]. cbn.
    eapply rtc_l; [eapply (step_show builder key _ view1 [] [task_show view2]); reflexivity|]. cbn.
    eapply rtc_l; [eapply (step_show builder key _ view2 [] []); reflexivity|]. cbn. apply rtc_refl.
  - intros s'' Hr.
    assert (settled first view2 (Build_System (sy_db s) (sy_world s) {| mg_current := first |} view2 true [])) as Hset.
    { split_and!; try done. cbn. by intros t ?%elem_of_nil. }
    assert (settled first view2 s'') as (_ & ? & ? & _); [|done].
    induction Hr as [|x y z Hxy _ IH]; [done|]. apply IH. by eapply settled_step.
Qed.
End invariant.

(** ** The calls are made of the steps *)

Section calls.
Context `{AEAD} `{Jsonb} `{Unicode} `{NetURL} `{MapOrder}.
Context (builder : Builder) (key : string).

Lemma publish_tasks snapshot tasks s :
  publish snapshot (with_tasks tasks s) = ((publish snapshot s).1, with_tasks tasks (publish snapshot s).2).
Proof. unfold publish, Replace. cbn [sy_runtime with_tasks]. by destruct (snapshot_complete (Some snapshot)). Qed.

Lemma publish_show_steps s snapshot view s' :
  publish snapshot s = (Ok (), s') →
  rtc (step builder key) (with_tasks (sy_tasks s ++ [task_publish snapshot view]) s) (show view s').
Proof.
  intros Hp. apply publish_ok in Hp as Hs'. subst s'.
  eapply rtc_l; [eapply (step_publish builder key _ snapshot view (sy_tasks s) []); [reflexivity|]|].
  { rewrite publish_tasks, Hp. reflexivity. }
  eapply rtc_l; [eapply (step_show builder key _ view (sy_tasks s) []); reflexivity|]. destruct s. cbn. rewrite app_nil_r. apply rtc_refl.
Qed.

Lemma publish_refused_steps s snapshot view e s' :
  publish snapshot s = (Err e, s') → rtc (step builder key) (with_tasks (sy_tasks s ++ [task_publish snapshot view]) s) s'.
Proof.
  intros Hp. apply publish_refused in Hp as Hs'. subst s'.
  eapply rtc_l; [eapply (step_publish_refused builder key _ snapshot view (sy_tasks s) [] e _); [reflexivity|]|].
  - rewrite publish_tasks, Hp. reflexivity.
  - destruct s. cbn. rewrite app_nil_r. apply rtc_refl.
Qed.

(** A call that is not interrupted is a run of the steps. *)
Lemma UpdateRuntime_steps env expected document meta s :
  document_typed document →
  rtc (step builder key) s (UpdateRuntime builder key env expected document meta s).2.
Proof.
  intros Hd. unfold UpdateRuntime. destruct (update_transaction _ _ _ _ _ _ _ _ _) as [[[[snapshot view]|e] db] w] eqn:Ht.
  - eapply rtc_l; [by eapply step_update|]. change (sy_tasks s) with (sy_tasks (with_tables db w s)).
    destruct (publish snapshot (with_tables db w s)) as [[[]|e] s1] eqn:Hp; [by apply publish_show_steps|by eapply publish_refused_steps].
  - apply rtc_once. by eapply step_update_failed.
Qed.

Lemma reloadRuntime_steps s : rtc (step builder key) s (reloadRuntime builder key true s).2.
Proof.
  unfold reloadRuntime. destruct (read_active true (cd_Runtime (sy_db s))) as [row|e] eqn:Hr; [|apply rtc_refl].
  assert (with_tasks (sy_tasks s ++ []) s = s) as Hnil by (destruct s; cbn; by rewrite app_nil_r).
  eapply rtc_l; [by eapply step_read|]. destruct (is_current row s) eqn:Hk.
  - eapply rtc_l; [eapply (step_known builder key _ row (sy_tasks s) []); [reflexivity|done]|].
    change (with_tasks (sy_tasks s ++ []) (with_tasks (sy_tasks s ++ [task_check row]) s)) with (with_tasks (sy_tasks s ++ []) s).
    rewrite Hnil. apply rtc_refl.
  - eapply rtc_l; [eapply (step_unknown builder key _ row (sy_tasks s) []); [reflexivity|done]|].
    destruct (rebuild builder key row s) as [[[snapshot view]|e] w] eqn:Hb.
    + eapply rtc_l; [eapply (step_build builder key _ row (sy_tasks s) []); [reflexivity|exact Hb]|]. cbn.
      pose proof (publish_show_steps (with_tables (sy_db s) w s) snapshot view) as Hps.
      pose proof (publish_refused_steps (with_tables (sy_db s) w s) snapshot view) as Hpr.
      destruct (publish snapshot (with_tables (sy_db s) w s)) as [[[]|e] s1] eqn:Hp; [by apply Hps|by eapply Hpr].
    + eapply rtc_l; [eapply (step_build_failed builder key _ row (sy_tasks s) [] e w); [reflexivity|exact Hb]|].
      destruct s. cbn. rewrite app_nil_r. apply rtc_refl.
Qed.
End calls.

(** ** Two concrete updates *)

Abbreviation demo_transaction := (@update_transaction plain_cipher text_column ascii_only demo_net demo_order demo_builder demo_key).
Abbreviation demo_step := (@step plain_cipher text_column ascii_only demo_net demo_order demo_builder demo_key).

Definition demo_start : System :=
  Build_System empty_tables demo_first.2 {| mg_current := demo_first.1 |} no_view false [].
Definition demo_commit1 : result ControlError (Snapshot * RuntimeView) * ControlDB * World :=
  demo_transaction (demo_tx_env 1) 0 (demo_secret "s") demo_meta (Some demo_first.1) empty_tables demo_first.2.
(** The second leaves the secret out, and so keeps it. *)
Definition demo_commit2 : result ControlError (Snapshot * RuntimeView) * ControlDB * World :=
  demo_transaction (demo_tx_env 2) 1 (demo_secret "") demo_meta (Some demo_first.1) demo_commit1.1.2 demo_commit1.2.

Lemma demo_commit1_eq :
  demo_transaction (demo_tx_env 1) 0 (demo_secret "s") demo_meta (Some demo_first.1) empty_tables demo_first.2 = demo_commit1.
Proof. reflexivity. Qed.
Lemma demo_commit2_eq :
  demo_transaction (demo_tx_env 2) 1 (demo_secret "") demo_meta (Some demo_first.1) demo_commit1.1.2 demo_commit1.2 = demo_commit2.
Proof. reflexivity. Qed.
#[local] Opaque demo_commit1 demo_commit2.

Definition commit_complete (c : result ControlError (Snapshot * RuntimeView) * ControlDB * World) (version : Z) : bool :=
  match c.1.1 with
  | Ok (snapshot, view) => snapshot_complete (Some snapshot) && (rv_Version view =? version) && (version_of c.1.2 =? version)
  | Err _ => false
  end.
Lemma commit_complete_ok c version :
  commit_complete c version = true → ∃ snapshot view, c = (Ok (snapshot, view), c.1.2, c.2) ∧
    snapshot_complete (Some snapshot) = true ∧ rv_Version view = version ∧ version_of c.1.2 = version.
Proof.
  destruct c as [[[[snapshot view]|] db] w]; [|done]. unfold commit_complete. cbn [fst snd].
  rewrite !andb_true_iff, !Z.eqb_eq. intros [[? ?] ?]. by exists snapshot, view.
Qed.

Lemma demo_commits1 : commit_complete demo_commit1 1 = true.
Proof. vm_compute. reflexivity. Qed.
Lemma demo_commits2 : commit_complete demo_commit2 2 = true.
Proof. vm_compute. reflexivity. Qed.

Lemma demo_commits_ok : config_ok (H := plain_cipher) demo_key demo_commit2.1.2.
Proof.
  destruct (commit_complete_ok _ _ demo_commits1) as (s1 & v1 & Hc1 & _ & _ & Hn1), (commit_complete_ok _ _ demo_commits2) as (s2 & v2 & Hc2 & _ & _ & Hn2).
  eapply (@transaction_keeps_ok plain_cipher plain_cipher_law text_column ascii_only demo_net demo_order demo_builder demo_key eq_refl
    (demo_tx_env 2) 1 (demo_secret "") demo_meta (Some demo_first.1)); [|by apply demo_secret_typed|by rewrite Hn2|exact (eq_trans demo_commit2_eq Hc2)].
  eapply (@transaction_keeps_ok plain_cipher plain_cipher_law text_column ascii_only demo_net demo_order demo_builder demo_key eq_refl
    (demo_tx_env 1) 0 (demo_secret "s") demo_meta (Some demo_first.1)); [apply empty_tables_ok|by apply demo_secret_typed|by rewrite Hn1|exact (eq_trans demo_commit1_eq Hc1)].
Qed.

(** Both are committed before either is published. *)
Lemma demo_overlap :
  ∃ s1 v1 s2 v2, let s := Build_System demo_commit2.1.2 demo_commit2.2 {| mg_current := demo_first.1 |} no_view false
                            [task_publish s1 v1; task_publish s2 v2] in
    rtc demo_step demo_start s ∧ snapshot_complete (Some s1) = true ∧ snapshot_complete (Some s2) = true ∧
    sn_CacheNamespace s1 ≠ sn_CacheNamespace s2 ∧ rv_Version v2 = version_of (sy_db s).
Proof.
  destruct (commit_complete_ok _ _ demo_commits1) as (s1 & v1 & Hc1 & Hs1 & Hv1 & Hn1), (commit_complete_ok _ _ demo_commits2) as (s2 & v2 & Hc2 & Hs2 & Hv2 & Hn2).
  exists s1, v1, s2, v2. cbv zeta. split_and!; [|done|done| |by rewrite Hv2].
  - eapply rtc_l; [eapply (step_update demo_builder demo_key demo_start (demo_tx_env 1) 0 (demo_secret "s") demo_meta); [by apply demo_secret_typed|exact Hc1]|].
    cbn. apply rtc_once.
    apply (step_update demo_builder demo_key (Build_System demo_commit1.1.2 demo_commit1.2 {| mg_current := demo_first.1 |} no_view false [task_publish s1 v1])
             (demo_tx_env 2) 1 (demo_secret "") demo_meta s2 v2 demo_commit2.1.2 demo_commit2.2); [by apply demo_secret_typed|exact (eq_trans demo_commit2_eq Hc2)].
  - assert (match demo_commit1.1.1, demo_commit2.1.1 with Ok (a, _), Ok (b, _) => bool_decide (sn_CacheNamespace a ≠ sn_CacheNamespace b) | _, _ => false end = true) as Hne
      by (vm_compute; reflexivity).
    rewrite Hc1, Hc2 in Hne. cbn in Hne. by apply bool_decide_eq_true in Hne.
Qed.

Lemma overlapping_updates_diverge_witness :
  ∃ s' first second view2, rtc demo_step demo_start s' ∧ sy_tasks s' = [] ∧ sn_CacheNamespace first ≠ sn_CacheNamespace second ∧
    running s' = first ∧ sy_view s' = view2 ∧ rv_Version view2 = version_of (sy_db s') ∧
    ∀ s'', rtc (@reload_step plain_cipher text_column ascii_only demo_net demo_order demo_builder demo_key) s' s'' →
      running s'' = first ∧ sy_view s'' = view2.
Proof.
  destruct demo_overlap as (s1 & v1 & s2 & v2 & Hr & Hs1 & Hs2 & Hne & Hv).
  destruct (@overlapping_updates_diverge plain_cipher plain_cipher_law text_column ascii_only demo_net demo_order demo_builder demo_key eq_refl
    (Build_System demo_commit2.1.2 demo_commit2.2 {| mg_current := demo_first.1 |} no_view false [task_publish s1 v1; task_publish s2 v2])
    s1 s2 v1 v2 demo_commits_ok eq_refl Hs1 Hs2 Hv) as (s' & Hs' & Hdb & Ht & Hrun & Hview & Hstuck).
  exists s', s1, s2, v2. split; [by etrans|]. rewrite Hdb. split; [exact Ht|]. split; [exact Hne|]. split; [exact Hrun|]. split; [exact Hview|]. split; [exact Hv|exact Hstuck].
Defined.

Lemma published_versions_witness :
  ∃ s, rtc demo_step demo_start s ∧ @published_ok plain_cipher ascii_only demo_net demo_order demo_builder demo_key demo_first.1 s.
Proof.
  destruct demo_overlap as (s1 & v1 & s2 & v2 & Hr & _ & _ & _ & Hv). eexists. split; [exact Hr|].
  apply (@published_versions plain_cipher plain_cipher_law text_column ascii_only demo_net demo_order demo_builder demo_key eq_refl demo_start);
    [apply empty_tables_ok|reflexivity|reflexivity|exact Hr|].
  cbn. destruct (commit_complete_ok _ _ demo_commits2) as (_ & _ & _ & _ & _ & Hn). rewrite Hn. done.
Defined.

(** A reload of an instance that has just started. *)
Definition demo_reloading : System :=
  Build_System demo_commit2.1.2 demo_commit2.2 {| mg_current := demo_first.1 |} no_view false [].
Lemma uninterrupted_in_step_witness :
  ∃ s', @reloadRuntime plain_cipher text_column ascii_only demo_net demo_order demo_builder demo_key true demo_reloading = (Ok (), s') ∧
    sn_CacheNamespace (running s') = "managed-runtime-v2"%string ∧ rv_Version (sy_view s') = 2.
Proof.
  destruct (@reloadRuntime plain_cipher text_column ascii_only demo_net demo_order demo_builder demo_key true demo_reloading) as [r s'] eqn:Hr.
  assert (r = Ok ()) as ->.
  { assert (is_ok (@reloadRuntime plain_cipher text_column ascii_only demo_net demo_order demo_builder demo_key true demo_reloading).1 = true) as Hok
      by (vm_compute; reflexivity). rewrite Hr in Hok. cbn in Hok. by destruct r as [[]|]. }
  exists s'. split; [reflexivity|].
  destruct (@uninterrupted_in_step plain_cipher plain_cipher_law text_column ascii_only demo_net demo_order demo_builder demo_key eq_refl demo_reloading demo_commits_ok)
    as [Hreload _]; [by intros [=]|reflexivity|].
  destruct (Hreload true s' Hr) as (Hin & Hp & Hv & _).
  destruct (commit_complete_ok _ _ demo_commits2) as (_ & _ & _ & _ & _ & Hn).
  rewrite (Hin Hp), Hv. cbn [sy_db demo_reloading]. rewrite Hn. split; reflexivity.
Defined.
