(* ===== verification/ControlPricing.v ===== *)
(** * Managed prices and the audit log ([controlplane/service.go])

    [UpdatePricing] and [reloadPricing], as calls that nothing interrupts and as steps
    that interleave; the pages of the audit log; construction and [Load]. The row of the
    prices is locked while a transaction changes it, but a row that does not exist yet
    cannot be locked, and [Save] writes it whether or not another transaction has inserted
    it since. *)

From S2P Require Import Prelude Failure Encoding Json JsonWrite JsonTree JsonCodec JsonSame BigRat Calendar Usage Routing Attempt Construction Transport Compatible ProviderConfig Gateway Document DocumentJson Pricing UsageStore Outbox ControlStore ControlPlane.
From stdpp Require Import relations sorting.

Open Scope Z_scope.

(** ** Prices as JSON *)

Definition encode_UsagePrice (p : UsagePrice) : string :=
  encode_object (
    ("provider"%string, encode_string (up_ProviderID p)) :: ("model"%string, encode_string (up_Model p)) ::
    ("version"%string, encode_string (up_Version p)) ::
    opt_field "effective_from" (nonempty_string (up_EffectiveFrom p)) ++
    opt_field "effective_until" (nonempty_string (up_EffectiveUntil p)) ++
    ("input_usd_per_million"%string, encode_string (up_InputUSDPerMillion p)) ::
    ("output_usd_per_million"%string, encode_string (up_OutputUSDPerMillion p)) ::
    opt_field "cached_read_usd_per_million" (nonempty_string (up_CachedReadUSDPerMillion p)) ++
    opt_field "cached_write_usd_per_million" (nonempty_string (up_CachedWriteUSDPerMillion p)) ++
    opt_field "audio_input_usd_per_million" (nonempty_string (up_AudioInputUSDPerMillion p)) ++
    opt_field "audio_output_usd_per_million" (nonempty_string (up_AudioOutputUSDPerMillion p)) ++
    opt_field "image_input_usd_per_million" (nonempty_string (up_ImageInputUSDPerMillion p)) ++
    opt_field "reasoning_output_usd_per_million" (nonempty_string (up_ReasoningOutputUSDPerMillion p)) ++ []).

(** [json.Marshal] of the prices; a nil slice is not told apart from an empty one. *)
Definition encode_prices (prices : list UsagePrice) : string := encode_array (map encode_UsagePrice prices).

Definition no_price : UsagePrice := Build_UsagePrice "" "" "" "" "" "" "" "" "" "" "" "" "".

Definition decode_UsagePrice : decoder UsagePrice := λ p raw,
  ms ← struct_members raw;
  provider ← field "provider" decode_string (up_ProviderID p) ms;
  model ← field "model" decode_string (up_Model p) ms;
  version ← field "version" decode_string (up_Version p) ms;
  from ← field "effective_from" decode_string (up_EffectiveFrom p) ms;
  until ← field "effective_until" decode_string (up_EffectiveUntil p) ms;
  input ← field "input_usd_per_million" decode_string (up_InputUSDPerMillion p) ms;
  output ← field "output_usd_per_million" decode_string (up_OutputUSDPerMillion p) ms;
  cached_read ← field "cached_read_usd_per_million" decode_string (up_CachedReadUSDPerMillion p) ms;
  cached_write ← field "cached_write_usd_per_million" decode_string (up_CachedWriteUSDPerMillion p) ms;
  audio_input ← field "audio_input_usd_per_million" decode_string (up_AudioInputUSDPerMillion p) ms;
  audio_output ← field "audio_output_usd_per_million" decode_string (up_AudioOutputUSDPerMillion p) ms;
  image_input ← field "image_input_usd_per_million" decode_string (up_ImageInputUSDPerMillion p) ms;
  reasoning ← field "reasoning_output_usd_per_million" decode_string (up_ReasoningOutputUSDPerMillion p) ms;
  Some (Build_UsagePrice provider model version from until input output cached_read cached_write audio_input audio_output
          image_input reasoning).

Definition decode_prices (raw : string) : option (list UsagePrice) := decode_list no_price decode_UsagePrice [] raw.

Definition price_texts (p : UsagePrice) : list string :=
  [up_ProviderID p; up_Model p; up_Version p; up_EffectiveFrom p; up_EffectiveUntil p; up_InputUSDPerMillion p;
   up_OutputUSDPerMillion p; up_CachedReadUSDPerMillion p; up_CachedWriteUSDPerMillion p; up_AudioInputUSDPerMillion p;
   up_AudioOutputUSDPerMillion p; up_ImageInputUSDPerMillion p; up_ReasoningOutputUSDPerMillion p].
Definition prices_typed (prices : list UsagePrice) : Prop := Forall (λ p, Forall utf8_text (price_texts p)) prices.

Create HintDb codec.
#[local] Hint Resolve nonempty_value encodes_nonempty encodes_string encode_string_value : codec.

Lemma UsagePrice_written depth p :
  1 ≤ depth ≤ maxNestingDepth → Forall utf8_text (price_texts p) →
  written no_price decode_UsagePrice depth p (encode_UsagePrice p).
Proof.
  intros Hd Ht. destruct p as [p1 p2 p3 p4 p5 p6 p7 p8 p9 p10 p11 p12 p13]. unfold price_texts in Ht. cbn in Ht. rewrite !Forall_cons in Ht.
  destruct Ht as (? & ? & ? & ? & ? & ? & ? & ? & ? & ? & ? & ? & ? & _). unfold encode_UsagePrice.
  apply written_object; [done|solve_good; eauto with codec|].
  unfold decode_UsagePrice. read_struct Hms. cbn [up_ProviderID up_Model up_Version up_EffectiveFrom up_EffectiveUntil
    up_InputUSDPerMillion up_OutputUSDPerMillion up_CachedReadUSDPerMillion up_CachedWriteUSDPerMillion up_AudioInputUSDPerMillion
    up_AudioOutputUSDPerMillion up_ImageInputUSDPerMillion up_ReasoningOutputUSDPerMillion no_price].
  do 13 (step_field; [eauto with codec|]). done.
Qed.

Lemma prices_roundtrip prices : prices_typed prices → decode_prices (encode_prices prices) = Some prices.
Proof.
  intros Hp. assert (written [] (decode_list no_price decode_UsagePrice) maxNestingDepth prices (encode_prices prices)) as (_ & _ & ?); [|done].
  apply written_list; [done|]. apply Forall2_map_l_same. intros p Hin. unfold prices_typed in Hp. rewrite Forall_forall in Hp.
  apply UsagePrice_written; [done|by apply Hp].
Qed.

(** ** An instance and its calls *)

Record PricingView := { pvw_Version : Z; pvw_Prices : list UsagePrice }.
Definition no_prices : PricingView := Build_PricingView 0 [].

(** A transaction that has read the row and will save the next one; a catalogue to
    publish; a view to note. *)
Inductive PriceTask :=
| price_save (locked : bool) (row : ManagedPricing) (entry : AuditLog) (catalog : PricingCatalog) (view : PricingView)
| price_publish (catalog : PricingCatalog) (view : PricingView)
| price_show (view : PricingView).

(** [pr_locked]: a transaction holds the row. *)
Record PriceSystem := {
  pr_db : ControlDB;
  pr_locked : bool;
  pr_catalog : PricingCatalog;
  pr_view : PricingView;
  pr_present : bool;
  pr_tasks : list PriceTask;
}.

Definition pr_with_db (db : ControlDB) (locked : bool) (s : PriceSystem) : PriceSystem :=
  Build_PriceSystem db locked (pr_catalog s) (pr_view s) (pr_present s) (pr_tasks s).
Definition pr_with_tasks (tasks : list PriceTask) (s : PriceSystem) : PriceSystem :=
  Build_PriceSystem (pr_db s) (pr_locked s) (pr_catalog s) (pr_view s) (pr_present s) tasks.
(** [Store.ReplacePricing] of a catalogue that is not nil. *)
Definition ReplacePricing (catalog : PricingCatalog) (s : PriceSystem) : PriceSystem :=
  Build_PriceSystem (pr_db s) (pr_locked s) catalog (pr_view s) (pr_present s) (pr_tasks s).
Definition pr_show (view : PricingView) (s : PriceSystem) : PriceSystem :=
  Build_PriceSystem (pr_db s) (pr_locked s) (pr_catalog s) view true (pr_tasks s).

Definition price_version (db : ControlDB) : Z := match cd_Pricing db with Some row => mp_Version row | None => 0 end.

Section pricing.
Context `{Unicode} `{Jsonb}.

(** What [before] is: the stored document, read and written again. *)
Definition before_prices (current : option ManagedPricing) : option string :=
  row ← current;
  text ← jsonb (mp_Document row);
  match read_json text with
  | Some JNull | None => None
  | Some t => Some (encode_tree t)
  end.

(** The part of the transaction before [Save]: read, compare, prepare. *)
Definition prepare_prices (answered : bool) (expected : Z) (prices : list UsagePrice) (catalog : PricingCatalog) (meta : AuditMeta)
    (now : Time) (auditID : Z) (auditNow : Time) (current : option ManagedPricing) : result ControlError PriceTask :=
  if negb answered then Err control_read
  else
    let currentVersion := match current with Some row => mp_Version row | None => 0 end in
    if negb (expected =? currentVersion) then Err ErrVersionConflict
    else
      let version := wrap_uint64 (currentVersion + 1) in
      let row := {| mp_Version := version; mp_Document := encode_prices prices; mp_UpdatedBy := am_PrincipalID meta;
                    mp_CreatedAt := match current with Some row => mp_CreatedAt row | None => now end |} in
      let entry := audit_row auditID auditNow meta "pricing.update" "pricing" (encode_int version) (before_prices current)
                     (Some (encode_prices prices)) "success" in
      Ok (price_save (isSome current) row entry catalog {| pvw_Version := version; pvw_Prices := prices |}).

(** [Save] updates the row, or inserts it, whatever is there by now; then the audit. *)
Definition save_prices (accepted audited : bool) (row : ManagedPricing) (entry : AuditLog) (db : ControlDB) : result ControlError ControlDB :=
  if accepted && isSome (jsonb (mp_Document row)) then appendAudit audited entry (with_pricing row db) else Err control_persist.

(** How the statements of one update are answered. *)
Record PriceEnv := {
  pe_read : bool; pe_now : Time; pe_audit_id : Z; pe_audit_now : Time; pe_save : bool; pe_audit : bool; pe_commit : DbAnswer;
}.

Definition UpdatePricing (env : PriceEnv) (expected : Z) (prices : list UsagePrice) (meta : AuditMeta) (s : PriceSystem)
    : result ControlError PricingView * PriceSystem :=
  match NewPricingCatalog prices with
  | Err e => (Err (control_prices e), s)
  | Ok catalog =>
      match prepare_prices (pe_read env) expected prices catalog meta (pe_now env) (pe_audit_id env) (pe_audit_now env) (cd_Pricing (pr_db s)) with
      | Ok (price_save _ row entry catalog view) =>
          match save_prices (pe_save env) (pe_audit env) row entry (pr_db s) with
          | Err e => (Err e, s)
          | Ok db =>
              match pe_commit env with
              | Applied => (Ok view, pr_show view (ReplacePricing catalog (pr_with_db db (pr_locked s) s)))
              | AnswerLost => (Err control_commit, pr_with_db db (pr_locked s) s)
              | Refused => (Err control_commit, s)
              end
          end
      | Ok _ => (Err control_commit, s)
      | Err e => (Err e, s)
      end
  end.

(** What a reload does with the row it read: nothing when its version is the one that is
    shown. *)
Definition load_prices (row : ManagedPricing) (s : PriceSystem) : result ControlError (option (PricingCatalog * PricingView)) :=
  if pvw_Version (pr_view s) =? mp_Version row then Ok None
  else
    prices ← or_error control_decode (text ← jsonb (mp_Document row); decode_prices text);
    match NewPricingCatalog prices with
    | Err e => Err (control_prices e)
    | Ok catalog => Ok (Some (catalog, {| pvw_Version := mp_Version row; pvw_Prices := prices |}))
    end.

Definition reloadPricing (answered : bool) (s : PriceSystem) : result ControlError () * PriceSystem :=
  if negb answered then (Err control_read, s)
  else match cd_Pricing (pr_db s) with
       | None => (Err ErrNotConfigured, s)
       | Some row =>
           match load_prices row s with
           | Err e => (Err e, s)
           | Ok None => (Ok (), s)
           | Ok (Some (catalog, view)) => (Ok (), pr_show view (ReplacePricing catalog s))
           end
       end.

Definition Pricing_view (s : PriceSystem) : result ControlError PricingView :=
  if pr_present s then Ok (pr_view s) else Err ErrNotConfigured.

(** ** Interleaving *)

Definition free (s : PriceSystem) (locked : bool) : bool := locked || negb (pr_locked s).

Inductive price_step (s : PriceSystem) : PriceSystem → Prop :=
| price_begin expected prices catalog meta now auditID auditNow task :
    NewPricingCatalog prices = Ok catalog →
    (isSome (cd_Pricing (pr_db s)) = true → pr_locked s = false) →
    prepare_prices true expected prices catalog meta now auditID auditNow (cd_Pricing (pr_db s)) = Ok task →
    price_step s (pr_with_tasks (pr_tasks s ++ [task])
                    (pr_with_db (pr_db s) (isSome (cd_Pricing (pr_db s)) || pr_locked s) s))
| price_commit locked row entry catalog view db before after :
    pr_tasks s = before ++ price_save locked row entry catalog view :: after → free s locked = true →
    save_prices true true row entry (pr_db s) = Ok db →
    price_step s (pr_with_tasks (before ++ price_publish catalog view :: after)
                    (pr_with_db db (if locked then false else pr_locked s) s))
| price_commit_lost locked row entry catalog view db before after :
    pr_tasks s = before ++ price_save locked row entry catalog view :: after → free s locked = true →
    save_prices true true row entry (pr_db s) = Ok db →
    price_step s (pr_with_tasks (before ++ after) (pr_with_db db (if locked then false else pr_locked s) s))
| price_rollback locked row entry catalog view before after :
    pr_tasks s = before ++ price_save locked row entry catalog view :: after →
    price_step s (pr_with_tasks (before ++ after) (pr_with_db (pr_db s) (if locked then false else pr_locked s) s))
| price_reload row catalog view :
    cd_Pricing (pr_db s) = Some row → load_prices row s = Ok (Some (catalog, view)) →
    price_step s (pr_with_tasks (pr_tasks s ++ [price_publish catalog view]) s)
| price_publishes catalog view before after :
    pr_tasks s = before ++ price_publish catalog view :: after →
    price_step s (pr_with_tasks (before ++ price_show view :: after) (ReplacePricing catalog s))
| price_shows view before after :
    pr_tasks s = before ++ price_show view :: after →
    price_step s (pr_with_tasks (before ++ after) (pr_show view s)).
End pricing.

(** ** Once there are prices, none are lost *)

Definition is_save (t : PriceTask) : bool := match t with price_save _ _ _ _ _ => true | _ => false end.

Definition price_entries (db : ControlDB) : list AuditLog :=
  filter (λ entry, al_Action entry = "pricing.update"%string) (cd_Audit db).

(** Versions that count up: [v], [v + 1], ... *)
Definition versions_from (v : Z) (n : nat) : list string := map (λ i, encode_int (v + Z.of_nat i)) (seq 0 n).

Lemma versions_from_snoc v n : versions_from v (S n) = versions_from v n ++ [encode_int (v + Z.of_nat n)].
Proof. unfold versions_from. by rewrite seq_S, map_app. Qed.

Section prices.
Context `{Unicode} `{Jsonb}.

Definition save_of_next (db : ControlDB) (t : PriceTask) : Prop :=
  match t with
  | price_save locked row entry catalog view =>
      locked = true ∧ mp_Version row = wrap_uint64 (price_version db + 1) ∧ pvw_Version view = mp_Version row ∧
      al_Action entry = "pricing.update"%string ∧ al_ResourceID entry = TrimSpace (encode_int (mp_Version row))
  | _ => True
  end.

(** There is a row, and at most one transaction holds it, to save the next version. *)
Record prices_ok (s : PriceSystem) : Prop := {
  pk_row : is_Some (cd_Pricing (pr_db s));
  pk_one : (length (filter is_save (pr_tasks s)) ≤ (if pr_locked s then 1 else 0))%nat;
  pk_next : ∀ t, t ∈ pr_tasks s → save_of_next (pr_db s) t;
}.

Lemma save_prices_ok row entry db db' :
  save_prices true true row entry db = Ok db' → db' = with_audit entry (with_pricing row db).
Proof.
  unfold save_prices, appendAudit, insert_audit. destruct (isSome _); [cbn|done].
  destruct (audit_incomplete entry); [done|]. by destruct (_ && _); [intros [= <-]|].
Qed.

Lemma prepare_ok expected prices catalog meta now id idNow current task :
  prepare_prices true expected prices catalog meta now id idNow current = Ok task →
  expected = match current with Some row => mp_Version row | None => 0 end ∧
  task = price_save (isSome current)
    {| mp_Version := wrap_uint64 (expected + 1); mp_Document := encode_prices prices; mp_UpdatedBy := am_PrincipalID meta;
       mp_CreatedAt := match current with Some row => mp_CreatedAt row | None => now end |}
    (audit_row id idNow meta "pricing.update" "pricing" (encode_int (wrap_uint64 (expected + 1))) (before_prices current)
       (Some (encode_prices prices)) "success")
    catalog {| pvw_Version := wrap_uint64 (expected + 1); pvw_Prices := prices |}.
Proof.
  unfold prepare_prices. cbn [negb]. destruct (Z.eqb_spec expected (match current with Some row => mp_Version row | None => 0 end)) as [->|];
    cbn [negb]; [|done]. by intros [= <-].
Qed.

Lemma save_gone before t after :
  (length (filter is_save (before ++ t :: after)) = length (filter is_save (before ++ after)) + (if is_save t then 1 else 0))%nat.
Proof.
  rewrite !filter_app, !length_app, filter_cons. destruct (decide (is_save t)) as [Ht|Ht].
  - apply Is_true_eq_true in Ht. rewrite Ht. cbn. lia.
  - destruct (is_save t); [by destruct Ht|]. lia.
Qed.

(** The one transaction that saves holds the row; what it saves is the next version. *)
Lemma the_save s locked row entry catalog view before after :
  prices_ok s → pr_tasks s = before ++ price_save locked row entry catalog view :: after →
  locked = true ∧ filter is_save (before ++ after) = [] ∧ mp_Version row = wrap_uint64 (price_version (pr_db s) + 1) ∧
  al_Action entry = "pricing.update"%string ∧ al_ResourceID entry = TrimSpace (encode_int (mp_Version row)).
Proof.
  intros [_ Hone Hnext] Htk.
  assert (save_of_next (pr_db s) (price_save locked row entry catalog view)) as (? & ? & _ & ? & ?) by (apply Hnext; rewrite Htk; set_solver).
  rewrite Htk, save_gone in Hone. cbn in Hone. split_and!; try done. apply length_zero_iff_nil. destruct (pr_locked s); lia.
Qed.

Lemma no_save ts t : filter is_save ts = [] → t ∈ ts → is_save t = false.
Proof.
  intros Hf Ht. destruct (is_save t) eqn:Hst; [|done].
  assert (t ∈ filter is_save ts) by (apply list_elem_of_filter; by rewrite Hst). rewrite Hf in *. set_solver.
Qed.

Lemma no_save_next db ts : filter is_save ts = [] → ∀ t, t ∈ ts → save_of_next db t.
Proof. intros Hf t Ht%(no_save _ _ Hf). by destruct t. Qed.

(** The tables after a save, with the row released and nothing else saving. *)
Lemma saved_ok s row entry catalog view before after tasks db :
  prices_ok s → pr_tasks s = before ++ price_save true row entry catalog view :: after →
  save_prices true true row entry (pr_db s) = Ok db → filter is_save tasks = [] →
  prices_ok (pr_with_tasks tasks (pr_with_db db false s)) ∧
  price_version db = wrap_uint64 (price_version (pr_db s) + 1) ∧
  ∃ entry, price_entries db = price_entries (pr_db s) ++ [entry] ∧
    al_ResourceID entry = TrimSpace (encode_int (wrap_uint64 (price_version (pr_db s) + 1))).
Proof.
  intros Hok Htk Hsave Hf. destruct (the_save _ _ _ _ _ _ _ _ Hok Htk) as (_ & _ & Hv & Ha & Hid).
  apply save_prices_ok in Hsave as ->. split; [|split; [done|]].
  - split; cbn; [by eexists|by rewrite Hf|by apply no_save_next].
  - exists entry. rewrite <-Hv. split; [|done]. unfold price_entries. cbn. rewrite filter_app. f_equal. by rewrite filter_cons_True.
Qed.

(** A step keeps it; a commit adds one entry, of the next version. *)
Lemma price_step_ok s s' :
  price_step s s' → prices_ok s →
  prices_ok s' ∧
  (price_version (pr_db s') = price_version (pr_db s) ∧ price_entries (pr_db s') = price_entries (pr_db s) ∨
   price_version (pr_db s') = wrap_uint64 (price_version (pr_db s) + 1) ∧
   ∃ entry, price_entries (pr_db s') = price_entries (pr_db s) ++ [entry] ∧
     al_ResourceID entry = TrimSpace (encode_int (wrap_uint64 (price_version (pr_db s) + 1)))).
Proof.
  intros Hs Hok. pose proof Hok as [[cur Hcur] Hone Hnext].
  destruct Hs as [expected prices catalog meta now id idNow task Hcat Hlock Hprep|locked row entry catalog view db b a Htk Hfree Hsave
    |locked row entry catalog view db b a Htk Hfree Hsave|locked row entry catalog view b a Htk|row catalog view _ _|catalog view b a Htk|view b a Htk].
  - split; [|by left]. rewrite Hcur in Hlock, Hprep. apply prepare_ok in Hprep as [-> ->]. rewrite Hlock in Hone by done.
    split; cbn -[wrap_uint64]; rewrite ?Hcur; [by eexists|cbn; rewrite filter_app, length_app; cbn in *; case_decide; cbn; lia|].
    intros t [Ht| ->%list_elem_of_singleton]%elem_of_app; [by apply Hnext|]. unfold save_of_next, price_version. by rewrite Hcur.
  - destruct (the_save _ _ _ _ _ _ _ _ Hok Htk) as (-> & Hf & _). destruct (saved_ok s row entry catalog view b a (b ++ price_publish catalog view :: a) db)
      as (? & ? & ?); [done..| |split; [done|by right]]. rewrite filter_app in Hf |- *. rewrite filter_cons_False; [done|by intros []].
  - destruct (the_save _ _ _ _ _ _ _ _ Hok Htk) as (-> & Hf & _).
    destruct (saved_ok s row entry catalog view b a (b ++ a) db) as (? & ? & ?); [done..|split; [done|by right]].
  - destruct (the_save _ _ _ _ _ _ _ _ Hok Htk) as (-> & Hf & _). split; [|by left].
    split; cbn; [by eexists|by rewrite Hf|by apply no_save_next].
  - split; [|by left]. split; cbn; [by eexists|rewrite filter_app, length_app; cbn; case_decide; cbn; done || lia|].
    by intros t [Ht| ->%list_elem_of_singleton]%elem_of_app; [apply Hnext|].
  - rewrite Htk, save_gone in Hone. cbn in Hone. split; [|by left]. split; cbn; [by eexists|rewrite save_gone; cbn; lia|].
    intros t Ht. rewrite elem_of_app, elem_of_cons in Ht. destruct Ht as [Ht|[ -> |Ht]]; [apply Hnext; rewrite Htk; set_solver|done|apply Hnext; rewrite Htk; set_solver].
  - rewrite Htk, save_gone in Hone. cbn in Hone. split; [|by left]. split; cbn; [by eexists|lia|].
    intros t Ht. apply Hnext. rewrite Htk. set_solver.
Qed.

(** C23: once there are prices, no update of them is lost. Whatever interleaves, at most one
    transaction at a time is about to save; each that is committed replaces the version
    its author had seen; and the audit log lists the versions one after the other, up to
    the stored one. *)
Theorem prices_in_sequence s0 s :
  prices_ok s0 → 0 ≤ price_version (pr_db s0) → rtc price_step s0 s →
  price_version (pr_db s0) + Z.of_nat (length (price_entries (pr_db s))) ≤ int64_max →
  prices_ok s ∧ ∃ n, price_version (pr_db s) = price_version (pr_db s0) + Z.of_nat n ∧
    al_ResourceID <$> price_entries (pr_db s) =
      (al_ResourceID <$> price_entries (pr_db s0)) ++ versions_from (price_version (pr_db s0) + 1) n.
Proof.
  intros Hok Hpos Hr. revert s Hr.
  refine (rtc_ind_r (λ s, price_version (pr_db s0) + Z.of_nat (length (price_entries (pr_db s))) ≤ int64_max → prices_ok s ∧
    ∃ n, price_version (pr_db s) = price_version (pr_db s0) + Z.of_nat n ∧
      al_ResourceID <$> price_entries (pr_db s) = (al_ResourceID <$> price_entries (pr_db s0)) ++ versions_from (price_version (pr_db s0) + 1) n) s0 _ _).
  { intros _. split; [done|]. exists 0%nat. rewrite app_nil_r. split; [lia|done]. }
  intros s s' _ Hs IH Hmax.
  assert (length (price_entries (pr_db s)) ≤ length (price_entries (pr_db s')))%nat as Hle.
  { destruct Hs as [| |? ? ? ? ? ? ? ? _ _ Hsave| | | |]; cbn; try lia.
    all: match goal with Hsv : save_prices _ _ _ _ _ = Ok _ |- _ => apply save_prices_ok in Hsv as -> end;
      unfold price_entries; cbn; rewrite filter_app, length_app; lia. }
  destruct IH as (Hoks & n & Hv & He); [lia|]. apply price_step_ok in Hs as [Hok' [[Hv' He']|(Hv' & entry & He' & Hid)]]; [| |done].
  - split; [done|]. exists n. by rewrite Hv', He'.
  - split; [done|]. apply (f_equal length) in He as Hlen. rewrite length_app, !length_fmap in Hlen. unfold versions_from in Hlen. rewrite length_map, length_seq in Hlen.
    rewrite He', length_app in Hmax. cbn in Hmax.
    assert (wrap_uint64 (price_version (pr_db s) + 1) = price_version (pr_db s0) + 1 + Z.of_nat n) as Hw.
    { unfold wrap_uint64. rewrite Z.mod_small; [lia|]. unfold two64, int64_max in *. lia. }
    exists (S n). rewrite Hv', Hw. split; [lia|]. rewrite He', fmap_app, He, <-app_assoc, versions_from_snoc. do 2 f_equal. cbn.
    rewrite Hid, Hw. f_equal. apply (value_trimmed maxNestingDepth), encode_int_value. unfold in_int64, int64_min, int64_max in *. lia.
Qed.
End prices.

(** ** The first prices *)

Section first.
Context `{Unicode} `{Jsonb}.

(** What a first update saves. *)
Definition first_row (prices : list UsagePrice) (meta : AuditMeta) (now : Time) : ManagedPricing :=
  {| mp_Version := 1; mp_Document := encode_prices prices; mp_UpdatedBy := am_PrincipalID meta; mp_CreatedAt := now |}.
Definition first_entry (prices : list UsagePrice) (meta : AuditMeta) (id : Z) (now : Time) : AuditLog :=
  audit_row id now meta "pricing.update" "pricing" "1" None (Some (encode_prices prices)) "success".
Definition first_view (prices : list UsagePrice) : PricingView := {| pvw_Version := 1; pvw_Prices := prices |}.

Lemma prepare_first prices catalog meta now id auditNow :
  prepare_prices true 0 prices catalog meta now id auditNow None =
  Ok (price_save false (first_row prices meta now) (first_entry prices meta id auditNow) catalog (first_view prices)).
Proof. reflexivity. Qed.

(** Two administrators that set prices for the first time can both succeed: no row exists
    that the first could lock, and [Save] of the second replaces what the first has
    inserted. Both are answered version 1; the first update is gone from the table; and
    the instance may keep charging by it, for a reload compares versions only. *)
Theorem first_prices_lost s prices1 catalog1 meta1 prices2 catalog2 meta2 now id1 id2 auditNow db1 db2 :
  cd_Pricing (pr_db s) = None → pr_locked s = false → pr_tasks s = [] →
  NewPricingCatalog prices1 = Ok catalog1 → NewPricingCatalog prices2 = Ok catalog2 →
  save_prices true true (first_row prices1 meta1 now) (first_entry prices1 meta1 id1 auditNow) (pr_db s) = Ok db1 →
  save_prices true true (first_row prices2 meta2 now) (first_entry prices2 meta2 id2 auditNow) db1 = Ok db2 →
  ∃ s', rtc price_step s s' ∧ pr_tasks s' = [] ∧
    cd_Pricing (pr_db s') = Some (first_row prices2 meta2 now) ∧
    cd_Audit (pr_db s') = cd_Audit (pr_db s) ++ [first_entry prices1 meta1 id1 auditNow; first_entry prices2 meta2 id2 auditNow] ∧
    pr_catalog s' = catalog1 ∧ pr_view s' = first_view prices1 ∧
    ∀ answered, (reloadPricing answered s').2 = s'.
Proof.
  intros Hnone Hlock Htasks Hc1 Hc2 Hs1 Hs2. exists (Build_PriceSystem db2 false catalog1 (first_view prices1) true []).
  apply save_prices_ok in Hs1 as Hdb1. apply save_prices_ok in Hs2 as Hdb2.
  split_and!; try done; [|by rewrite Hdb2|rewrite Hdb2, Hdb1; cbn; by rewrite <-app_assoc|].
  - destruct s as [db locked catalog view present tasks]. cbn in Hnone, Hlock, Htasks, Hs1. subst locked tasks.
    eapply rtc_l; [eapply (price_begin _ 0 prices1 catalog1 meta1 now id1 auditNow); cbn; [done|by rewrite Hnone|rewrite Hnone; apply prepare_first]|]. cbn. rewrite Hnone. cbn.
    eapply rtc_l; [eapply (price_begin _ 0 prices2 catalog2 meta2 now id2 auditNow); cbn; [done|by rewrite Hnone|rewrite Hnone; apply prepare_first]|]. cbn. rewrite Hnone. cbn.
    eapply rtc_l; [eapply (price_commit _ false _ _ catalog1 _ db1 []); cbn; [reflexivity|reflexivity|exact Hs1]|]. cbn.
    eapply rtc_l; [eapply (price_commit _ false _ _ catalog2 _ db2 [price_publish catalog1 (first_view prices1)]); cbn; [reflexivity|reflexivity|exact Hs2]|]. cbn.
    eapply rtc_l; [eapply (price_publishes _ catalog2 _ [price_publish catalog1 (first_view prices1)]); reflexivity|]. cbn.
    eapply rtc_l; [eapply (price_shows _ _ [price_publish catalog1 (first_view prices1)]); reflexivity|]. cbn.
    eapply rtc_l; [eapply (price_publishes _ catalog1 _ []); reflexivity|]. cbn.
    eapply rtc_l; [eapply (price_shows _ _ []); reflexivity|]. cbn. apply rtc_refl.
  - intros answered. unfold reloadPricing. destruct answered; [cbn [negb]|done]. rewrite Hdb2. reflexivity.
Qed.
End first.

(** ** The audit log *)

Record AuditPage := { ap_Items : list AuditLog; ap_NextCursor : Z }.

(** Newest first. *)
Definition newest_first (a b : AuditLog) : Prop := al_ID b ≤ al_ID a.
#[export] Instance newest_first_dec : RelDecision newest_first := λ a b, decide (al_ID b ≤ al_ID a).

Definition audit_rows (beforeID : Z) (entries : list AuditLog) : list AuditLog :=
  merge_sort newest_first (filter (λ e, beforeID = 0 ∨ al_ID e < beforeID) entries).

Definition audit_limit (limit : Z) : nat := Z.to_nat (if limit <=? 0 then 50 else if 200 <? limit then 200 else limit).

(** The texts of [jsonb] columns are read back as they are; a reader of an entry is the
    entry itself. *)
Definition Audit (answered : bool) (beforeID limit : Z) (db : ControlDB) : result ControlError AuditPage :=
  if negb answered then Err control_read
  else
    let n := audit_limit limit in
    let rows := take (n + 1) (audit_rows beforeID (cd_Audit db)) in
    Ok {| ap_Items := take n rows;
          ap_NextCursor := if bool_decide (n < length rows)%nat then default 0 (al_ID <$> rows !! (n - 1)%nat) else 0 |}.

(** Following the cursors. *)
Fixpoint audit_pages (fuel : nat) (beforeID limit : Z) (db : ControlDB) : list AuditLog :=
  match fuel with
  | O => []
  | S fuel =>
      match Audit true beforeID limit db with
      | Err _ => []
      | Ok page => ap_Items page ++ (if ap_NextCursor page =? 0 then [] else audit_pages fuel (ap_NextCursor page) limit db)
      end
  end.

#[export] Instance newest_first_total : Total newest_first.
Proof. intros a b. unfold newest_first. lia. Qed.
#[export] Instance newest_first_trans : Transitive newest_first.
Proof. intros a b c. unfold newest_first. lia. Qed.

Lemma audit_limit_pos limit : (1 ≤ audit_limit limit ≤ 200)%nat.
Proof. unfold audit_limit. destruct (Z.leb_spec limit 0); [lia|]. destruct (Z.ltb_spec 200 limit); lia. Qed.

(** Lists in order of distinct identifiers are what they contain. *)
Lemma sorted_entries_unique (l k : list AuditLog) :
  StronglySorted newest_first l → StronglySorted newest_first k → NoDup (al_ID <$> l) → l ≡ₚ k → l = k.
Proof.
  revert k. induction l as [|a l IH]; intros k Hl Hk Hnd Hp; [by apply Permutation_nil in Hp|].
  destruct k as [|b k]; [by apply Permutation_sym, Permutation_nil in Hp|].
  apply StronglySorted_inv in Hl as [Hl Ha], Hk as [Hk Hb]. cbn in Hnd. apply NoDup_cons in Hnd as [Hna Hnd].
  assert (a = b) as <-.
  { assert (a ∈ b :: k) as [->|Hin]%elem_of_cons by (rewrite <-Hp; left); [done|].
    assert (b ∈ a :: l) as [->|Hin']%elem_of_cons by (rewrite Hp; left); [done|exfalso].
    rewrite Forall_forall in Ha, Hb. specialize (Ha b Hin'). specialize (Hb a Hin). unfold newest_first in *.
    apply Hna. apply list_elem_of_fmap. exists b. split; [lia|done]. }
  f_equal. apply IH; [done|done|done|]. by apply Permutation_cons_inv in Hp.
Qed.

Lemma audit_rows_spec beforeID entries :
  StronglySorted newest_first (audit_rows beforeID entries) ∧
  audit_rows beforeID entries ≡ₚ filter (λ e, beforeID = 0 ∨ al_ID e < beforeID) entries.
Proof. split; [apply StronglySorted_merge_sort; apply _|apply merge_sort_Permutation]. Qed.

(** The rows behind a cursor are those that follow its row. *)
Lemma audit_rows_after beforeID entries pre e post :
  NoDup (al_ID <$> entries) → al_ID e ≠ 0 → audit_rows beforeID entries = pre ++ e :: post → audit_rows (al_ID e) entries = post.
Proof.
  intros Hnd He Hrows. destruct (audit_rows_spec beforeID entries) as [Hs Hp], (audit_rows_spec (al_ID e) entries) as [Hs' Hp'].
  rewrite Hrows in Hs, Hp.
  assert (NoDup (al_ID <$> pre ++ e :: post)) as Hnd'.
  { rewrite Hp. eapply sublist_NoDup; [exact Hnd|]. apply fmap_sublist, sublist_filter. }
  assert (∀ x, x ∈ pre ++ e :: post ↔ (beforeID = 0 ∨ al_ID x < beforeID) ∧ x ∈ entries) as Hin by (intros x; by rewrite Hp, list_elem_of_filter).
  apply StronglySorted_app in Hs as (Hpre & _ & Hpost). apply StronglySorted_inv in Hpost as [Hpost He']. rewrite Forall_forall in He'.
  rewrite fmap_app, fmap_cons in Hnd'. apply NoDup_app in Hnd' as (_ & Hdis & [Hne Hndp]%NoDup_cons).
  apply sorted_entries_unique; [done|done| |].
  - rewrite Hp'. eapply sublist_NoDup; [exact Hnd|]. apply fmap_sublist, sublist_filter.
  - apply NoDup_Permutation; [rewrite Hp'; apply NoDup_filter; by eapply NoDup_fmap_1|by eapply NoDup_fmap_1|].
    intros x. rewrite Hp', list_elem_of_filter. split.
    + intros [[?|Hlt] Hx]; [done|]. assert (al_ID x ≤ al_ID e) by lia.
      assert ((beforeID = 0 ∨ al_ID e < beforeID) ∧ e ∈ entries) as [Hb _] by (apply Hin; set_solver).
      assert (x ∈ pre ++ e :: post) as [Hx'|[->|?]%elem_of_cons]%elem_of_app by (apply Hin; split; [destruct Hb; [by left|right; lia]|done]); [|lia|done].
      exfalso. specialize (Hpre x e Hx' (list_elem_of_here _ _)). unfold newest_first in Hpre. lia.
    + intros Hx. assert (x ∈ pre ++ e :: post) as [Hb Hx']%Hin by set_solver. split; [right|done].
      specialize (He' x Hx). unfold newest_first in He'. assert (al_ID x ≠ al_ID e); [|lia]. intros Heq. apply Hne. rewrite <-Heq. by apply list_elem_of_fmap_2.
Qed.

Lemma sublist_NoDup_ids beforeID entries e : e ∈ audit_rows beforeID entries → e ∈ entries.
Proof. rewrite (proj2 (audit_rows_spec beforeID entries)), list_elem_of_filter. by intros []. Qed.

Lemma audit_pages_from fuel beforeID limit db :
  NoDup (al_ID <$> cd_Audit db) → (∀ e, e ∈ cd_Audit db → al_ID e ≠ 0) →
  (length (audit_rows beforeID (cd_Audit db)) < fuel)%nat →
  audit_pages fuel beforeID limit db = audit_rows beforeID (cd_Audit db).
Proof.
  intros Hnd Hid. revert beforeID. induction fuel as [|fuel IH]; intros beforeID Hf; [lia|].
  cbn [audit_pages Audit negb]. pose proof (audit_limit_pos limit) as Hl. set (n := audit_limit limit) in *.
  pose proof (sublist_NoDup_ids beforeID (cd_Audit db)) as Hsub.
  pose proof (λ pre e post, audit_rows_after beforeID (cd_Audit db) pre e post Hnd) as Hafter. revert Hf Hsub Hafter.
  generalize (audit_rows beforeID (cd_Audit db)). intros rows Hf Hsub Hafter. cbn [ap_Items ap_NextCursor].
  rewrite take_take, length_take. replace (n `min` (n + 1))%nat with n by lia. destruct (decide (n < length rows)%nat) as [Hlt|Hge].
  - rewrite bool_decide_true by lia. destruct (lookup_lt_is_Some_2 rows (n - 1)) as [e He]; [lia|].
    rewrite lookup_take_lt by lia. rewrite He. cbn [fmap option_fmap option_map from_option id].
    assert (al_ID e ≠ 0) as Hne by (apply Hid, Hsub; by eapply list_elem_of_lookup_2).
    destruct (Z.eqb_spec (al_ID e) 0); [done|].
    pose proof (take_drop_middle rows (n - 1) e He) as Hsplit. replace (S (n - 1)) with n in Hsplit by lia.
    rewrite IH; rewrite (Hafter _ _ _ Hne (eq_sym Hsplit)); [apply take_drop|]. rewrite length_drop. lia.
  - rewrite bool_decide_false by lia. rewrite Z.eqb_refl, app_nil_r. apply take_ge. lia.
Qed.

(** Following the cursors of the audit log shows every entry once, newest first, in pages
    of at most 200. *)
Theorem audit_pages_complete limit db :
  NoDup (al_ID <$> cd_Audit db) → (∀ e, e ∈ cd_Audit db → al_ID e ≠ 0) →
  audit_pages (S (length (cd_Audit db))) 0 limit db ≡ₚ cd_Audit db ∧
  StronglySorted newest_first (audit_pages (S (length (cd_Audit db))) 0 limit db) ∧
  ∀ answered beforeID page, Audit answered beforeID limit db = Ok page → (length (ap_Items page) ≤ 200)%nat.
Proof.
  intros Hnd Hid. destruct (audit_rows_spec 0 (cd_Audit db)) as [Hs Hp].
  assert (filter (λ e, 0 = 0 ∨ al_ID e < 0) (cd_Audit db) = cd_Audit db) as Hall.
  { clear. induction (cd_Audit db) as [|e l IH]; [done|]. rewrite filter_cons_True by auto. by rewrite IH. }
  rewrite Hall in Hp. rewrite audit_pages_from by (done || rewrite Hp; lia). split_and!; [done|done|].
  intros answered beforeID page. unfold Audit. destruct answered; [|done]. intros [= <-]. cbn. rewrite length_take.
  pose proof (audit_limit_pos limit). lia.
Qed.

(** ** Construction *)

(** The cipher is made from a key of 32 bytes, which never fails. *)
Definition NewService (database : bool) (current : option Manager) (pricing : option PriceSystem) (masterKey : string)
    : result ControlError (Manager * PriceSystem * string) :=
  match database, current, pricing with
  | true, Some m, Some p => if Nat.eqb (String.length masterKey) 32 then Ok (m, p, masterKey) else Err control_master_key
  | _, _, _ => Err control_dependencies
  end.

(** [Load]: what is not configured leaves what the environment configured in place. *)
Definition Load `{AEAD} `{Jsonb} `{Unicode} `{NetURL} `{MapOrder} (builder : Builder) (key : string) (answered priced : bool) (s : System) (p : PriceSystem)
    : result ControlError () * System * PriceSystem :=
  match reloadRuntime builder key answered s with
  | (Ok _, s) | (Err ErrNotConfigured, s) =>
      match reloadPricing priced p with
      | (Ok _, p) | (Err ErrNotConfigured, p) => (Ok (), s, p)
      | (Err e, p) => (Err e, s, p)
      end
  | (Err e, s) => (Err e, s, p)
  end.

(** ** Examples *)

Definition demo_price (rate : string) : UsagePrice :=
  Build_UsagePrice "p" "m" "v1" "" "" rate rate "" "" "" "" "" "".
Definition demo_prices_start : PriceSystem := Build_PriceSystem empty_tables false ∅ no_prices false [].

(** Both updates are accepted. *)
Lemma demo_saved rate id db :
  existsb (λ r, al_ID r =? id) (cd_Audit db) = false →
  @save_prices text_column true true (first_row [demo_price rate] demo_meta 1) (first_entry [demo_price rate] demo_meta id 2) db =
  Ok (with_audit (first_entry [demo_price rate] demo_meta id 2) (with_pricing (first_row [demo_price rate] demo_meta 1) db)).
Proof.
  intros He. unfold save_prices, appendAudit. cbn [andb]. change (isSome _) with true. cbv iota.
  change (audit_incomplete (first_entry [demo_price rate] demo_meta id 2)) with false. cbv iota. unfold insert_audit.
  cbn [cd_Audit with_pricing al_ID first_entry audit_row]. rewrite He. done.
Qed.

Lemma first_prices_lost_witness :
  ∃ s', rtc (@price_step text_column) demo_prices_start s' ∧
    cd_Pricing (pr_db s') = Some (first_row [demo_price "2"] demo_meta 1) ∧ pr_view s' = first_view [demo_price "1"].
Proof.
  destruct (NewPricingCatalog [demo_price "1"]) as [c1|] eqn:Hc1; [|vm_compute in Hc1; discriminate].
  destruct (NewPricingCatalog [demo_price "2"]) as [c2|] eqn:Hc2; [|vm_compute in Hc2; discriminate].
  pose proof (demo_saved "1" 7 empty_tables eq_refl) as Hs1.
  pose proof (demo_saved "2" 8 (with_audit (first_entry [demo_price "1"] demo_meta 7 2) (with_pricing (first_row [demo_price "1"] demo_meta 1) empty_tables)) eq_refl) as Hs2.
  destruct (@first_prices_lost text_column demo_prices_start [demo_price "1"] c1 demo_meta [demo_price "2"] c2 demo_meta 1 7 8 2 _ _
    eq_refl eq_refl eq_refl Hc1 Hc2 Hs1 Hs2) as (s' & Hr & _ & Hrow & _ & _ & Hview & _).
  exists s'. split; [exact Hr|]. split; [exact Hrow|exact Hview].
Defined.

(** A third version: a reload finds it and an update follows it. *)
Definition demo_priced : PriceSystem :=
  Build_PriceSystem (Build_ControlDB [] (Some (Build_ManagedPricing 3 "[]" "admin" 0)) []) false ∅ no_prices false [].
Definition next_row : ManagedPricing := Build_ManagedPricing 4 (encode_prices [demo_price "1"]) (am_PrincipalID demo_meta) 0.
Definition next_entry : AuditLog :=
  audit_row 7 2 demo_meta "pricing.update" "pricing" "4" (Some "[]"%string) (Some (encode_prices [demo_price "1"])) "success".
Definition next_view : PricingView := Build_PricingView 4 [demo_price "1"].

Lemma demo_next_saved :
  @save_prices text_column true true next_row next_entry (pr_db demo_priced) =
  Ok (with_audit next_entry (with_pricing next_row (pr_db demo_priced))).
Proof. vm_compute. reflexivity. Qed.

Lemma prices_in_sequence_witness :
  ∃ s', rtc (@price_step text_column) demo_priced s' ∧ prices_ok s' ∧ price_version (pr_db s') = 4.
Proof.
  assert (prices_ok demo_priced) as Hok by (split; cbn; [by eexists|done|by intros t ?%elem_of_nil]).
  destruct (NewPricingCatalog [demo_price "1"]) as [c|] eqn:Hc; [|vm_compute in Hc; discriminate].
  pose (s' := Build_PriceSystem (with_audit next_entry (with_pricing next_row (pr_db demo_priced))) false c next_view true []).
  assert (rtc (@price_step text_column) demo_priced s') as Hr.
  { eapply rtc_l; [eapply (@price_begin text_column demo_priced 3 [demo_price "1"] c demo_meta 0 7 2
      (price_save true next_row next_entry c next_view)); [exact Hc|reflexivity|reflexivity]|].
    eapply rtc_l; [eapply (@price_commit text_column _ true next_row next_entry c next_view _ [] []);
      [reflexivity|reflexivity|exact demo_next_saved]|].
    eapply rtc_l; [eapply (@price_publishes text_column _ c next_view [] []); reflexivity|].
    eapply rtc_l; [eapply (@price_shows text_column _ next_view [] []); reflexivity|]. apply rtc_refl. }
  exists s'. split; [exact Hr|]. split; [|reflexivity].
  refine (proj1 (@prices_in_sequence text_column demo_priced s' Hok (Zle_0_pos 3) Hr _)).
  assert (length (price_entries (pr_db s')) ≤ 1)%nat as Hle by (apply (length_filter _ [next_entry])).
  change (price_version (pr_db demo_priced)) with 3. clear - Hle. unfold int64_max. lia.
Defined.

Definition demo_entry (id : Z) : AuditLog := audit_row id 0 demo_meta "pricing.update" "pricing" "1" None None "success".
Lemma audit_pages_complete_witness :
  audit_pages 4 0 1 (Build_ControlDB [] None (map demo_entry [1; 2; 5])) ≡ₚ map demo_entry [1; 2; 5].
Proof.
  apply (audit_pages_complete 1 (Build_ControlDB [] None (map demo_entry [1; 2; 5]))).
  - apply (bool_decide_unpack _). vm_compute. exact I.
  - intros e He. cbn in He. set_solver.
Defined.
