(* ===== verification/PolicyIndex.v ===== *)
(** * The in-memory index of quota policies

    Models [src/internal/quota/policy_index.go] over the policy rows of
    [src/internal/postgres/models.go]. The index answers, without the database,
    whether any enabled policy concerns a tenant and a model. Its lock makes
    every method atomic; [Replace] builds the new maps aside. *)

From S2P Require Import Prelude.

(** ** Data *)

Record TenantQuotaPolicy := {
  qp_ID : string;
  qp_TenantID : string;
  qp_GatewayModel : string;
  qp_Period : string;
  qp_RequestLimit : option Z;
  qp_TokenLimit : option Z;
  qp_BudgetNanoUSD : option Z;
  qp_OveragePolicy : string;
  qp_Enabled : bool;
  qp_Version : Z;
  qp_CreatedBy : string;
  qp_UpdatedBy : string;
  qp_CreatedAt : Time;
  qp_UpdatedAt : Time;
}.

#[export] Instance TenantQuotaPolicy_eq_dec : EqDecision TenantQuotaPolicy.
Proof. solve_decision. Defined.

Record policyIndex := {
  ix_policies : gmap string TenantQuotaPolicy;
  ix_matches : gmap string (gmap string Z);
}.

Definition newPolicyIndex : policyIndex := {| ix_policies := ∅; ix_matches := ∅ |}.

(** ** Operations *)

Definition index_put (index : policyIndex) (policy : TenantQuotaPolicy) : policyIndex :=
  let policies := <[qp_ID policy := policy]> (ix_policies index) in
  if negb (qp_Enabled policy) then {| ix_policies := policies; ix_matches := ix_matches index |}
  else
    let models := default ∅ (ix_matches index !! qp_TenantID policy) in
    let models :=
      <[qp_GatewayModel policy := default 0 (models !! qp_GatewayModel policy) + 1]> models in
    {| ix_policies := policies; ix_matches := <[qp_TenantID policy := models]> (ix_matches index) |}.

(** [None] is the panic of a write to a nil map. *)
Definition index_remove (index : policyIndex) (policyID : string) : option policyIndex :=
  match ix_policies index !! policyID with
  | None => Some index
  | Some current =>
      let policies := delete policyID (ix_policies index) in
      if negb (qp_Enabled current)
      then Some {| ix_policies := policies; ix_matches := ix_matches index |}
      else
        match ix_matches index !! qp_TenantID current with
        | None => None
        | Some models =>
            let count := default 0 (models !! qp_GatewayModel current) - 1 in
            let models := <[qp_GatewayModel current := count]> models in
            let models := if count <=? 0 then delete (qp_GatewayModel current) models else models in
            Some {| ix_policies := policies;
                    ix_matches :=
                      if bool_decide (models = ∅) then delete (qp_TenantID current) (ix_matches index)
                      else <[qp_TenantID current := models]> (ix_matches index) |}
        end
  end.

Definition Replace (policies : list TenantQuotaPolicy) : policyIndex :=
  foldl index_put newPolicyIndex policies.

Definition Put (index : policyIndex) (policy : TenantQuotaPolicy) : option policyIndex :=
  index ← index_remove index (qp_ID policy); Some (index_put index policy).

Definition Has (index : policyIndex) (tenantID model : string) : bool :=
  let models := default ∅ (ix_matches index !! tenantID) in
  (0 <? default 0 (models !! model)) || (0 <? default 0 (models !! "*"%string)).

Definition HasPolicy (index : option policyIndex) (tenantID model : string) : bool :=
  match index with
  | None => false
  | Some index => Has index (TrimSpace tenantID) (TrimSpace model)
  end.

(** ** The counts are exact *)

Definition concerns (tenant model : string) (policy : TenantQuotaPolicy) : Prop :=
  qp_Enabled policy = true ∧ qp_TenantID policy = tenant ∧ qp_GatewayModel policy = model.
#[export] Instance concerns_dec t m p : Decision (concerns t m p).
Proof. unfold concerns. apply _. Defined.

Definition weight (tenant model : string) (policy : TenantQuotaPolicy) : Z :=
  if decide (concerns tenant model policy) then 1 else 0.

(** How many policies concern the tenant and the model. *)
Definition count_policies (tenant model : string) (policies : gmap string TenantQuotaPolicy) : Z :=
  sumZ (λ kv, weight tenant model kv.2) (map_to_list policies).

Definition match_count (index : policyIndex) (tenant model : string) : Z :=
  default 0 (default ∅ (ix_matches index !! tenant) !! model).

(** The index is what its policies say; entries that count nothing are gone. *)
Record index_ok (index : policyIndex) : Prop := {
  io_ids : ∀ id p, ix_policies index !! id = Some p → qp_ID p = id;
  io_counts : ∀ t m, match_count index t m = count_policies t m (ix_policies index);
  io_clean : ∀ t models, ix_matches index !! t = Some models →
    models ≠ ∅ ∧ ∀ m n, models !! m = Some n → 0 < n;
}.

Lemma weight_nonneg t m p : 0 ≤ weight t m p.
Proof. unfold weight. destruct (decide _); lia. Qed.

Lemma sumZ_perm {A} (w : A → Z) (l k : list A) : l ≡ₚ k → sumZ w l = sumZ w k.
Proof. induction 1; rewrite ?sumZ_cons in *; try lia. Qed.

Lemma count_insert_fresh t m id p policies :
  policies !! id = None →
  count_policies t m (<[id := p]> policies) = weight t m p + count_policies t m policies.
Proof.
  intros Hn. unfold count_policies. rewrite (sumZ_perm _ _ _ (map_to_list_insert _ _ _ Hn)).
  by rewrite sumZ_cons.
Qed.

Lemma count_delete t m id p policies :
  policies !! id = Some p →
  count_policies t m policies = weight t m p + count_policies t m (delete id policies).
Proof.
  intros Hp. rewrite <-(insert_delete_id policies id p) at 1 by done.
  apply count_insert_fresh. apply lookup_delete_eq.
Qed.

Lemma count_nonneg t m policies : 0 ≤ count_policies t m policies.
Proof. apply sumZ_nonneg. intros [? ?]. apply weight_nonneg. Qed.

Lemma count_pos t m policies :
  0 < count_policies t m policies ↔ ∃ id p, policies !! id = Some p ∧ concerns t m p.
Proof.
  split.
  - intros Hc. destruct (decide (Exists (λ kv, concerns t m kv.2) (map_to_list policies))) as [He|Hne].
    { apply Exists_exists in He as ([id p] & Hin & Hp). exists id, p.
      split; [by apply elem_of_map_to_list | done]. }
    exfalso. unfold count_policies in Hc. rewrite sumZ_zero in Hc; [lia|].
    intros kv Hkv. unfold weight. rewrite decide_False; [done|]. intros Hcon. apply Hne.
    apply Exists_exists. by exists kv.
  - intros (id & p & Hp & Hcon). rewrite (count_delete t m id p) by done.
    pose proof (count_nonneg t m (delete id policies)). unfold weight. rewrite decide_True by done. lia.
Qed.

Lemma match_count_update (matches : gmap string (gmap string Z)) (t : string) models (t' m' : string) :
  default 0 (default ∅ (<[t := models]> matches !! t') !! m') =
  if decide (t' = t) then default 0 (models !! m') else default 0 (default ∅ (matches !! t') !! m').
Proof.
  destruct (decide (t' = t)) as [->|]; [by rewrite lookup_insert_eq | by rewrite lookup_insert_ne].
Qed.

Lemma default_insert (models : gmap string Z) (m : string) n (m' : string) :
  default 0 (<[m := n]> models !! m') = if decide (m' = m) then n else default 0 (models !! m').
Proof. destruct (decide (m' = m)) as [->|]; [by rewrite lookup_insert_eq | by rewrite lookup_insert_ne]. Qed.

Lemma weight_concerns t m p :
  qp_Enabled p = true →
  weight t m p = if decide (t = qp_TenantID p) then if decide (m = qp_GatewayModel p) then 1 else 0 else 0.
Proof.
  intros He. unfold weight, concerns.
  destruct (decide (t = qp_TenantID p)), (decide (m = qp_GatewayModel p)), (decide _); naive_solver.
Qed.

Lemma weight_disabled t m p : qp_Enabled p = false → weight t m p = 0.
Proof. intros He. unfold weight, concerns. rewrite decide_False; [done|]. rewrite He. naive_solver. Qed.

(** Adding a policy under an identifier that is not in use. *)
Lemma index_put_ok index p :
  index_ok index → ix_policies index !! qp_ID p = None → index_ok (index_put index p).
Proof.
  intros [Hids Hc Hcl] Hn. unfold index_put. destruct (qp_Enabled p) eqn:He; cbn [negb].
  - split; cbn.
    + intros id q [[<- <-]|[_ Hq]]%lookup_insert_Some; [done | by apply Hids].
    + intros t m. unfold match_count in *. cbn. rewrite count_insert_fresh, weight_concerns by done.
      rewrite match_count_update. specialize (Hc t m). destruct (decide (t = qp_TenantID p)) as [->|]; [|lia].
      rewrite default_insert. destruct (decide (m = qp_GatewayModel p)) as [->|]; lia.
    + intros t models [[<- <-]|[_ Ht]]%lookup_insert_Some; [|by apply (Hcl t)].
      split; [by apply insert_non_empty|]. intros m n [[<- <-]|[_ Hm]]%lookup_insert_Some.
      * specialize (Hc (qp_TenantID p) (qp_GatewayModel p)). unfold match_count in Hc. rewrite Hc.
        pose proof (count_nonneg (qp_TenantID p) (qp_GatewayModel p) (ix_policies index)). lia.
      * destruct (ix_matches index !! _) as [models|] eqn:Ht; [|done].
        destruct (Hcl _ _ Ht) as [_ Hpos]. by apply (Hpos m).
  - split; cbn; [|intros t m|done].
    + intros id q [[<- <-]|[_ Hq]]%lookup_insert_Some; [done | by apply Hids].
    + rewrite count_insert_fresh, weight_disabled by done. apply Hc.
Qed.

(** Removing a policy never panics. *)
Lemma index_remove_ok index id :
  index_ok index → ∃ index', index_remove index id = Some index' ∧ index_ok index' ∧
    ix_policies index' = delete id (ix_policies index).
Proof.
  intros Hok. pose proof Hok as [Hids Hc Hcl]. unfold index_remove.
  destruct (ix_policies index !! id) as [p|] eqn:Hp.
  2: { exists index. split; [done|]. split; [done|]. by rewrite delete_id. }
  assert (∀ id' q, delete id (ix_policies index) !! id' = Some q → qp_ID q = id') as Hids'.
  { intros id' q [_ Hq]%lookup_delete_Some. by apply Hids. }
  destruct (qp_Enabled p) eqn:He; cbn [negb].
  2: { eexists. split; [done|]. split; [|done]. split; cbn; [done| |done]. intros t m.
       specialize (Hc t m). rewrite (count_delete t m id p), weight_disabled in Hc by done. done. }
  set (t0 := qp_TenantID p). set (m0 := qp_GatewayModel p).
  assert (0 < count_policies t0 m0 (ix_policies index)) as Hpos
    by (apply count_pos; by exists id, p).
  pose proof (Hc t0 m0) as Hc0. unfold match_count in Hc0.
  destruct (ix_matches index !! t0) as [models|] eqn:Ht; cbn in Hc0; [|rewrite lookup_empty in Hc0; cbn in Hc0; lia].
  destruct (Hcl _ _ Ht) as [_ Hmpos]. rewrite Hc0. eexists. split; [done|]. split; [|done].
  set (n := count_policies t0 m0 (ix_policies index)) in *.
  set (models' := if n - 1 <=? 0 then _ else _).
  assert (∀ m, default 0 (models' !! m) = if decide (m = m0) then n - 1 else default 0 (models !! m)) as Hm'.
  { intros m. subst models'. destruct (Z.leb_spec (n - 1) 0); [|apply default_insert].
    destruct (decide (m = m0)) as [->|Hne]; [rewrite lookup_delete_eq; cbn; lia|].
    by rewrite lookup_delete_ne, lookup_insert_ne by done. }
  assert (∀ m k, models' !! m = Some k → 0 < k) as Hm'pos.
  { intros m k. subst models'. destruct (Z.leb_spec (n - 1) 0).
    - intros [Hne Hk]%lookup_delete_Some. rewrite lookup_insert_ne in Hk by done. by apply Hmpos in Hk.
    - intros [[<- <-]|[_ Hk]]%lookup_insert_Some; [lia | by apply Hmpos in Hk]. }
  split; cbn -[match_count]; [done| |].
  - intros t m. pose proof (Hc t m) as Hct. rewrite (count_delete t m id p), weight_concerns in Hct by done.
    fold t0 m0 in Hct. unfold match_count in *. cbn.
    assert (default 0 (default ∅ ((if bool_decide (models' = ∅) then delete t0 (ix_matches index)
      else <[t0:=models']> (ix_matches index)) !! t) !! m) =
      if decide (t = t0) then default 0 (models' !! m)
      else default 0 (default ∅ (ix_matches index !! t) !! m)) as ->.
    { case_bool_decide as Hemp; [|apply match_count_update]. destruct (decide (t = t0)) as [->|].
      - rewrite lookup_delete_eq, Hemp. done.
      - by rewrite lookup_delete_ne. }
    destruct (decide (t = t0)) as [->|]; [|lia]. rewrite Hm'. rewrite Ht in Hct. cbn in Hct.
    destruct (decide (m = m0)) as [->|]; [|lia]. fold n in Hct. unfold n.
    rewrite (count_delete t0 m0 id p), weight_concerns by done. fold t0 m0. rewrite !decide_True by done. lia.
  - intros t ms. case_bool_decide as Hemp.
    + intros [_ Hms]%lookup_delete_Some. by apply (Hcl t).
    + intros [[<- <-]|[_ Hms]]%lookup_insert_Some; [done | by apply (Hcl t)].
Qed.

(** ** The index refines the set of rows it was told of *)

Inductive IndexOp :=
| IxReplace (rows : list TenantQuotaPolicy)
| IxPut (policy : TenantQuotaPolicy).

Definition run_index (index : policyIndex) (op : IndexOp) : option policyIndex :=
  match op with
  | IxReplace rows => Some (Replace rows)
  | IxPut policy => Put index policy
  end.

Fixpoint run_index_all (index : policyIndex) (ops : list IndexOp) : option policyIndex :=
  match ops with
  | [] => Some index
  | op :: ops => match run_index index op with Some index => run_index_all index ops | None => None end
  end.

(** The rows known after each operation. *)
Definition put_row (rows : gmap string TenantQuotaPolicy) (policy : TenantQuotaPolicy)
  : gmap string TenantQuotaPolicy := <[qp_ID policy := policy]> rows.
Definition known_rows (rows : gmap string TenantQuotaPolicy) (op : IndexOp)
  : gmap string TenantQuotaPolicy :=
  match op with
  | IxReplace policies => foldl put_row ∅ policies
  | IxPut policy => put_row rows policy
  end.

(** Rows of a table have distinct primary keys. *)
Definition op_rows_distinct (op : IndexOp) : Prop :=
  match op with IxReplace rows => NoDup (map qp_ID rows) | IxPut _ => True end.

Lemma foldl_put_ok rows index :
  NoDup (map qp_ID rows) → (∀ p, p ∈ rows → ix_policies index !! qp_ID p = None) → index_ok index →
  index_ok (foldl index_put index rows) ∧
  ix_policies (foldl index_put index rows) = foldl put_row (ix_policies index) rows.
Proof.
  revert index. induction rows as [|p rows IH]; [done|]. cbn. intros index Hnd Hfresh Hok.
  apply NoDup_cons in Hnd as [Hp Hnd].
  assert (ix_policies (index_put index p) = put_row (ix_policies index) p) as Hput
    by (unfold index_put; by destruct (negb _)).
  destruct (IH (index_put index p)) as [Hok' Heq].
  - done.
  - intros q Hq. rewrite Hput. unfold put_row. rewrite lookup_insert_ne.
    + apply Hfresh. by right.
    + intros Heq. apply Hp. rewrite Heq. apply list_elem_of_In, in_map. by apply list_elem_of_In.
  - apply index_put_ok; [done|]. apply Hfresh. left.
  - by rewrite Heq, Hput.
Qed.

Lemma newPolicyIndex_ok : index_ok newPolicyIndex.
Proof. split; cbn; [done | done | done]. Qed.

Lemma run_index_ok index op :
  index_ok index → op_rows_distinct op →
  ∃ index', run_index index op = Some index' ∧ index_ok index' ∧
    ix_policies index' = known_rows (ix_policies index) op.
Proof.
  intros Hok Hop. destruct op as [rows|p]; cbn in *.
  - eexists. split; [done|]. apply foldl_put_ok; [done | done | apply newPolicyIndex_ok].
  - destruct (index_remove_ok index (qp_ID p) Hok) as (index' & Hr & Hok' & Hp). unfold Put. rewrite Hr.
    cbn. eexists. split; [done|].
    split; [apply index_put_ok; [done|]; rewrite Hp; apply lookup_delete_eq|].
    transitivity (put_row (ix_policies index') p); [unfold index_put; by destruct (negb _)|].
    rewrite Hp. apply insert_delete_eq.
Qed.

Lemma run_index_all_ok index ops :
  index_ok index → Forall op_rows_distinct ops →
  ∃ index', run_index_all index ops = Some index' ∧ index_ok index' ∧
    ix_policies index' = foldl known_rows (ix_policies index) ops.
Proof.
  intros Hok Hops. revert index Hok. induction Hops as [|op ops Hop Hops IH]; intros index Hok; [by exists index|].
  cbn. destruct (run_index_ok index op Hok Hop) as (index1 & -> & Hok1 & <-). by apply IH.
Qed.

Lemma Has_spec index t m :
  index_ok index →
  Has index t m = true ↔
  ∃ id p, ix_policies index !! id = Some p ∧ (concerns t m p ∨ concerns t "*" p).
Proof.
  intros [_ Hc _]. unfold Has. rewrite orb_true_iff, !Z.ltb_lt.
  pose proof (Hc t m) as H1. pose proof (Hc t "*"%string) as H2. unfold match_count in *.
  rewrite H1, H2, !count_pos. naive_solver.
Qed.

(** The policy index is exact. After any sequence of loads and single updates
    from the empty index, no update panics, and [Has] says yes for a tenant and a
    model exactly when an enabled policy among the rows last told concerns the
    tenant, with this model or with any model. So a request skips the quota
    check only when no known policy applies to it. *)
Theorem policy_index_exact ops tenant model :
  Forall op_rows_distinct ops →
  ∃ index, run_index_all newPolicyIndex ops = Some index ∧
    (Has index tenant model = true ↔
     ∃ id p, foldl known_rows ∅ ops !! id = Some p ∧ qp_Enabled p = true ∧ qp_TenantID p = tenant ∧
       (qp_GatewayModel p = model ∨ qp_GatewayModel p = "*"%string)).
Proof.
  intros Hops. destruct (run_index_all_ok _ _ newPolicyIndex_ok Hops) as (index & Hrun & Hok & Hrows).
  exists index. split; [done|]. rewrite Has_spec, Hrows by done. unfold concerns. cbn. naive_solver.
Qed.

(** A refresh that read the rows before an update and replaces the index after it
    forgets the update until the next refresh. *)
Lemma refresh_forgets_update rows p :
  NoDup (map qp_ID rows) →
  (∀ q, q ∈ rows → qp_TenantID q ≠ qp_TenantID p) →
  ∃ index, run_index_all newPolicyIndex [IxReplace rows; IxPut p; IxReplace rows] = Some index ∧
    Has index (qp_TenantID p) (qp_GatewayModel p) = false.
Proof.
  intros Hnd Hq. eexists. split.
  { cbn [run_index_all run_index]. destruct (foldl_put_ok rows newPolicyIndex Hnd) as [Hok _];
      [done | apply newPolicyIndex_ok|].
    destruct (index_remove_ok _ (qp_ID p) Hok) as (i & Hr & _). unfold Put, Replace. by rewrite Hr. }
  destruct (foldl_put_ok rows newPolicyIndex Hnd) as [Hok Heq]; [done | apply newPolicyIndex_ok|].
  apply not_true_iff_false. intros (id & q & Hl & Hc)%Has_spec; [|done].
  unfold Replace in Hl. rewrite Heq in Hl. cbn in Hl.
  assert (∀ l (m : gmap string TenantQuotaPolicy), foldl put_row m l !! id = Some q → q ∈ l ∨ m !! id = Some q) as Hin.
  { induction l as [|x l IH]; cbn; intros m Hm; [by right|]. destruct (IH _ Hm) as [|Hm']; [left; by right|].
    unfold put_row in Hm'. apply lookup_insert_Some in Hm' as [[_ ->]|[_ ?]]; [left; left | by right]. }
  destruct (Hin _ _ Hl) as [Hr|?]; [|done]. apply (Hq q Hr). unfold concerns in Hc. naive_solver.
Qed.

(** ** Concrete instances *)

Definition demo_policy (id tenant model : string) (enabled : bool) : TenantQuotaPolicy :=
  {| qp_ID := id; qp_TenantID := tenant; qp_GatewayModel := model; qp_Period := "minute";
     qp_RequestLimit := Some 2; qp_TokenLimit := None; qp_BudgetNanoUSD := None;
     qp_OveragePolicy := "deny"; qp_Enabled := enabled; qp_Version := 1; qp_CreatedBy := "a";
     qp_UpdatedBy := "a"; qp_CreatedAt := 0; qp_UpdatedAt := 0 |}.

Definition demo_index_ops : list IndexOp :=
  [IxReplace [demo_policy "1" "t" "fast" true; demo_policy "2" "t" "slow" true];
   IxPut (demo_policy "1" "t" "fast" false); IxPut (demo_policy "3" "u" "*" true)].

Lemma demo_index_ops_distinct : Forall op_rows_distinct demo_index_ops.
Proof. repeat constructor; set_solver. Qed.

Lemma policy_index_exact_witness : ∃ index, run_index_all newPolicyIndex demo_index_ops = Some index ∧
  (Has index "t" "fast" = true ↔
   ∃ id p, foldl known_rows ∅ demo_index_ops !! id = Some p ∧ qp_Enabled p = true ∧ qp_TenantID p = "t"%string ∧
     (qp_GatewayModel p = "fast"%string ∨ qp_GatewayModel p = "*"%string)).
Proof. exact (policy_index_exact demo_index_ops "t" "fast" demo_index_ops_distinct). Defined.
