(* ===== verification/Quota.v ===== *)
(** * Tenant quotas

    Models [src/internal/quota/manager.go] over the rows of
    [src/internal/postgres/models.go]: the normalisation of policies, the
    windows, and the three transactions that move amounts between reserved and
    settled ([Reserve], [Settle], [ReapExpired]).

    The database is PostgreSQL behind gorm. It is an interface: [QuotaDB] names
    the statements the manager issues, [QuotaDBLaws] what the manager relies on
    (a statement that succeeds does what its SQL says to the three tables). Every
    statement may fail. The manager locks each window row before it changes it,
    so transactions are taken one after the other; one that fails is rolled
    back. *)

From S2P Require Import Prelude Routing BigRat Usage Pricing PolicyIndex Calendar.

(** ** Data *)

Definition QuotaPeriodMinute : string := "minute".
Definition QuotaPeriodHour : string := "hour".
Definition QuotaPeriodDay : string := "day".
Definition QuotaPeriodMonth : string := "month".

Definition QuotaOverageDeny : string := "deny".
Definition QuotaOverageAllow : string := "allow".
Definition QuotaOverageAlert : string := "alert".

Inductive QuotaReservationState := ReservationActive | ReservationSettled | ReservationEstimated.

#[export] Instance QuotaReservationState_eq_dec : EqDecision QuotaReservationState.
Proof. solve_decision. Defined.

Record QuotaWindow := {
  qw_PolicyID : string;
  qw_WindowStart : Time;
  qw_RequestsSettled : Z;
  qw_TokensSettled : Z;
  qw_CostSettled : Z;
  qw_RequestsReserved : Z;
  qw_TokensReserved : Z;
  qw_CostReserved : Z;
  qw_UpdatedAt : Time;
}.

Record QuotaReservation := {
  qr_ID : string;
  qr_GroupID : string;
  qr_PolicyID : string;
  qr_WindowStart : Time;
  qr_RequestsReserved : Z;
  qr_TokensReserved : Z;
  qr_CostReserved : Z;
  qr_RequestsActual : option Z;
  qr_TokensActual : option Z;
  qr_CostActual : option Z;
  qr_State : QuotaReservationState;
  qr_Exceeded : bool;
  qr_ExpiresAt : Time;
  qr_CreatedAt : Time;
  qr_SettledAt : option Time;
}.

Record PolicyInput := {
  pi_TenantID : string;
  pi_GatewayModel : string;
  pi_Period : string;
  pi_RequestLimit : option Z;
  pi_TokenLimit : option Z;
  pi_BudgetUSD : option string;
  pi_OveragePolicy : string;
  pi_Enabled : bool;
}.

Record ReserveInput := {
  ri_GroupID : string;
  ri_TenantID : string;
  ri_GatewayModel : string;
  ri_EstimatedInputTokens : Z;
  ri_EstimatedOutputTokens : Z;
  ri_Plan : Plan;
}.

Record QuotaDecision := {
  qd_ReservationID : string;
  qd_Exceeded : bool;
  qd_Alerts : list string;
  qd_AppliedPolicies : Z;
}.

Definition no_decision : QuotaDecision :=
  {| qd_ReservationID := ""; qd_Exceeded := false; qd_Alerts := []; qd_AppliedPolicies := 0 |}.

Inductive QuotaError :=
| ErrExceeded
| ErrCostUnknown
| ErrVersionConflict
| ErrInvalidPolicy
| ErrTenantNotFound
| quota_error (message : string).

(** ** Policies *)

Definition validLimit (value : option Z) : bool :=
  match value with None => true | Some v => (0 <? v) && (v <=? 1000000000000000) end.

(** The manager's own [parseUSD] refuses only what is not a fraction or is
    negative. *)
Definition budget_parseUSD (raw : string) : option Z :=
  match rat_SetString (TrimSpace raw) with
  | None => None
  | Some (num, denom) =>
      if num <? 0 then None
      else
        let '(num, denom) := rat_scale num denom in
        let rounded := roundedRat num denom in
        if negb (is_int64 rounded) then None else Some rounded
  end.

Definition valid_period (period : string) : bool :=
  existsb (String.eqb period) [QuotaPeriodMinute; QuotaPeriodHour; QuotaPeriodDay; QuotaPeriodMonth].
Definition valid_overage (overage : string) : bool :=
  existsb (String.eqb overage) [QuotaOverageDeny; QuotaOverageAllow; QuotaOverageAlert].

(** The row without identity, version and times. *)
Definition normalizePolicy (input : PolicyInput) : result QuotaError TenantQuotaPolicy :=
  let tenant := TrimSpace (pi_TenantID input) in
  let model := TrimSpace (pi_GatewayModel input) in
  let model := if (model =? "")%string then "*"%string else model in
  if negb (valid_period (pi_Period input)) then Err ErrInvalidPolicy
  else if negb (valid_overage (pi_OveragePolicy input)) then Err ErrInvalidPolicy
  else if (tenant =? "")%string || (200 <? str_len model) || negb (validLimit (pi_RequestLimit input)) ||
          negb (validLimit (pi_TokenLimit input)) then Err ErrInvalidPolicy
  else
    budget ← match pi_BudgetUSD input with
             | None => Ok None
             | Some raw =>
                 match budget_parseUSD raw with
                 | None => Err ErrInvalidPolicy
                 | Some budget => Ok (Some budget)
                 end
             end;
    match pi_RequestLimit input, pi_TokenLimit input, budget with
    | None, None, None => Err ErrInvalidPolicy
    | _, _, _ =>
        Ok {| qp_ID := ""; qp_TenantID := tenant; qp_GatewayModel := model; qp_Period := pi_Period input;
              qp_RequestLimit := pi_RequestLimit input; qp_TokenLimit := pi_TokenLimit input;
              qp_BudgetNanoUSD := budget; qp_OveragePolicy := pi_OveragePolicy input;
              qp_Enabled := pi_Enabled input; qp_Version := 0; qp_CreatedBy := ""; qp_UpdatedBy := "";
              qp_CreatedAt := time_zero; qp_UpdatedAt := time_zero |}
    end.

(** ** Windows and limits *)

Definition periodStart (at_ : Time) (period : string) : Time :=
  if (period =? QuotaPeriodMinute)%string then Truncate at_ minute
  else if (period =? QuotaPeriodHour)%string then Truncate at_ hour
  else if (period =? QuotaPeriodDay)%string then day_start at_
  else month_start at_.

(** Addition of [int64] that tells an overflow. *)
Definition add (left right : Z) : option Z :=
  if (0 <? right) && (int64_max - right <? left) then None
  else if (right <? 0) && (left <? int64_min - right) then None
  else Some (wrap_int64 (left + right)).

Definition exceedsLimit (limit : option Z) (settled reserved incoming : Z) : bool :=
  match limit with
  | None => false
  | Some limit =>
      match add settled reserved with
      | None => true
      | Some total =>
          match add total incoming with
          | None => true
          | Some total => limit <? total
          end
      end
  end.

Definition exceeds (policy : TenantQuotaPolicy) (window : QuotaWindow) (requests tokens cost : Z) : bool :=
  exceedsLimit (qp_RequestLimit policy) (qw_RequestsSettled window) (qw_RequestsReserved window) requests ||
  exceedsLimit (qp_TokenLimit policy) (qw_TokensSettled window) (qw_TokensReserved window) tokens ||
  exceedsLimit (qp_BudgetNanoUSD policy) (qw_CostSettled window) (qw_CostReserved window) cost.

(** ** The database *)

Record Tables := {
  tb_policies : gmap string TenantQuotaPolicy;
  tb_windows : gmap (string * Time) QuotaWindow;
  tb_reservations : gmap string QuotaReservation;
}.

Definition put_window (w : QuotaWindow) (t : Tables) : Tables :=
  {| tb_policies := tb_policies t;
     tb_windows := <[(qw_PolicyID w, qw_WindowStart w) := w]> (tb_windows t);
     tb_reservations := tb_reservations t |}.

Definition put_reservation (r : QuotaReservation) (t : Tables) : Tables :=
  {| tb_policies := tb_policies t; tb_windows := tb_windows t;
     tb_reservations := <[qr_ID r := r]> (tb_reservations t) |}.

(** The statements; [None] is the driver's error. *)
Class QuotaDB (DB : Type) := {
  db_tables : DB → Tables;
  db_count_group : DB → string → option Z;
  db_matching_policies : DB → string → string → option (list TenantQuotaPolicy);
  db_seed_window : QuotaWindow → DB → option DB;
  db_lock_window : DB → string → Time → option QuotaWindow;
  db_save_window : QuotaWindow → DB → option DB;
  db_create_reservation : QuotaReservation → DB → option DB;
  db_save_reservation : QuotaReservation → DB → option DB;
  db_group : DB → string → option (list QuotaReservation);
  db_expired : DB → Time → Z → option (list QuotaReservation);
}.

(** What a statement that succeeds has done: counting, selecting, [INSERT ... ON
    CONFLICT DO NOTHING], and saving a row under its primary key; reservations
    have unique identifiers. *)
Class QuotaDBLaws (DB : Type) `{QuotaDB DB} := {
  count_group_law db g n : db_count_group db g = Some n →
    (n = 0 ↔ ∀ id r, tb_reservations (db_tables db) !! id = Some r → qr_GroupID r ≠ g) ∧ 0 ≤ n;
  matching_law db tenant model ps : db_matching_policies db tenant model = Some ps →
    NoDup (map qp_ID ps) ∧ ∀ p, p ∈ ps ↔ tb_policies (db_tables db) !! qp_ID p = Some p ∧
      qp_TenantID p = tenant ∧ qp_Enabled p = true ∧ (qp_GatewayModel p = "*"%string ∨ qp_GatewayModel p = model);
  seed_law w db db' : db_seed_window w db = Some db' →
    db_tables db' =
      match tb_windows (db_tables db) !! (qw_PolicyID w, qw_WindowStart w) with
      | Some _ => db_tables db
      | None => put_window w (db_tables db)
      end;
  lock_law db p start w : db_lock_window db p start = Some w →
    tb_windows (db_tables db) !! (p, start) = Some w ∧ qw_PolicyID w = p ∧ qw_WindowStart w = start;
  save_window_law w db db' : db_save_window w db = Some db' → db_tables db' = put_window w (db_tables db);
  create_reservation_law r db db' : db_create_reservation r db = Some db' →
    tb_reservations (db_tables db) !! qr_ID r = None ∧ db_tables db' = put_reservation r (db_tables db);
  save_reservation_law r db db' : db_save_reservation r db = Some db' →
    db_tables db' = put_reservation r (db_tables db);
  group_law db g rs : db_group db g = Some rs →
    NoDup (map qr_ID rs) ∧ ∀ r, r ∈ rs ↔ tb_reservations (db_tables db) !! qr_ID r = Some r ∧ qr_GroupID r = g;
  expired_law db now limit rs : db_expired db now limit = Some rs → 0 ≤ limit →
    NoDup (map qr_ID rs) ∧ Z.of_nat (length rs) ≤ limit ∧
    ∀ r, r ∈ rs → tb_reservations (db_tables db) !! qr_ID r = Some r ∧ qr_State r = ReservationActive ∧
      qr_ExpiresAt r ≤ now;
}.

(** ** Transactions

    A body works on the database and on the variables it captures ([D]), and may
    fail. When it fails the database is rolled back; the captured variables keep
    what was written to them. *)

Definition Tx (D DB A : Type) : Type := D * DB → result QuotaError A * (D * DB).

#[export] Instance Tx_ret {D DB} : MRet (Tx D DB) := λ A a s, (Ok a, s).
#[export] Instance Tx_bind {D DB} : MBind (Tx D DB) := λ A B f m s,
  match m s with
  | (Ok a, s) => f a s
  | (Err e, s) => (Err e, s)
  end.

Definition fail {D DB A} (e : QuotaError) : Tx D DB A := λ s, (Err e, s).
Definition query {D DB A} (statement : DB → option A) (message : string) : Tx D DB A := λ s,
  match statement s.2 with
  | Some a => (Ok a, s)
  | None => (Err (quota_error message), s)
  end.
Definition exec {D DB} (statement : DB → option DB) (message : string) : Tx D DB unit := λ s,
  match statement s.2 with
  | Some db => (Ok tt, (s.1, db))
  | None => (Err (quota_error message), s)
  end.
Definition captured {D DB} (f : D → D) : Tx D DB unit := λ s, (Ok tt, (f s.1, s.2)).

Definition transaction {D DB A} (body : Tx D DB A) (d : D) (db : DB) : result QuotaError A * D * DB :=
  match body (d, db) with
  | (Ok a, (d, db')) => (Ok a, d, db')
  | (Err e, (d, _)) => (Err e, d, db)
  end.

(** Do [body] for every element, in order. *)
Fixpoint for_each {D DB A} (body : A → Tx D DB unit) (l : list A) : Tx D DB unit :=
  match l with
  | [] => mret tt
  | a :: l => _ ← body a; for_each body l
  end.

(** The [Quoter] interface. *)
Class Quoter := quote_event : UsageEvent → CostResult.

Definition qd_apply (d : QuotaDecision) : QuotaDecision :=
  {| qd_ReservationID := qd_ReservationID d; qd_Exceeded := qd_Exceeded d; qd_Alerts := qd_Alerts d;
     qd_AppliedPolicies := qd_AppliedPolicies d + 1 |}.
Definition qd_alert (alert : string) (d : QuotaDecision) : QuotaDecision :=
  {| qd_ReservationID := qd_ReservationID d; qd_Exceeded := qd_Exceeded d;
     qd_Alerts := qd_Alerts d ++ [alert]; qd_AppliedPolicies := qd_AppliedPolicies d |}.
Definition qd_exceed (d : QuotaDecision) : QuotaDecision :=
  {| qd_ReservationID := qd_ReservationID d; qd_Exceeded := true; qd_Alerts := qd_Alerts d;
     qd_AppliedPolicies := qd_AppliedPolicies d |}.

Section manager.
Context {DB : Type} `{QuotaDB DB, Quoter}.

Definition lockWindow {D} (policyID : string) (start now : Time) : Tx D DB QuotaWindow :=
  _ ← exec (db_seed_window
        {| qw_PolicyID := policyID; qw_WindowStart := start; qw_RequestsSettled := 0;
           qw_TokensSettled := 0; qw_CostSettled := 0; qw_RequestsReserved := 0; qw_TokensReserved := 0;
           qw_CostReserved := 0; qw_UpdatedAt := now |}) "create quota window";
  query (λ db, db_lock_window db policyID start) "lock quota window".

(** *** Estimates *)

Definition estimate_event (input : ReserveInput) (candidate : Candidate) (now : Time) : UsageEvent :=
  {| e_SchemaVersion := 0; e_EventID := ""; e_RequestID := ""; e_TenantID := ""; e_APIKeyID := "";
     e_RequestedModel := ri_GatewayModel input; e_ProviderID := cd_ProviderID candidate;
     e_UpstreamModel := cd_UpstreamModel candidate; e_CacheStatus := ""; e_Stream := false;
     e_Attempts := 0; e_Retries := 0; e_Fallbacks := 0;
     e_Usage := Some {| tu_Input := ri_EstimatedInputTokens input; tu_Output := ri_EstimatedOutputTokens input;
       tu_Total := wrap_int64 (ri_EstimatedInputTokens input + ri_EstimatedOutputTokens input);
       tu_InputDetails := None; tu_OutputDetails := None; tu_ReportedCost := None; tu_Raw := "" |};
     e_UsageSource := ""; e_UsageCaveat := ""; e_FinishReason := ""; e_Status := StatusSuccess;
     e_ErrorCategory := ""; e_ErrorCode := ""; e_StartedAt := now; e_EndedAt := time_zero;
     e_LatencyMS := 0; e_FirstTokenMS := None |}.

(** The dearest candidate, and whether every candidate has a price. *)
Definition estimateCost (input : ReserveInput) (now : Time) : Z * bool :=
  let candidates := plan_Candidates (ri_Plan input) in
  foldl (λ '(maximum, known) candidate,
    match cr_Snapshot (quote_event (estimate_event input candidate now)) with
    | None => (maximum, false)
    | Some s => (if maximum <? cs_TotalNanoUSD s then cs_TotalNanoUSD s else maximum, known)
    end) (0, bool_decide (candidates ≠ [])) candidates.

(** *** Reserve *)

(** The window with one more request reserved. *)
Definition qw_reserve (w : QuotaWindow) (tokens cost : Z) (now : Time) : QuotaWindow :=
  {| qw_PolicyID := qw_PolicyID w; qw_WindowStart := qw_WindowStart w;
     qw_RequestsSettled := qw_RequestsSettled w; qw_TokensSettled := qw_TokensSettled w;
     qw_CostSettled := qw_CostSettled w; qw_RequestsReserved := wrap_int64 (qw_RequestsReserved w + 1);
     qw_TokensReserved := tokens; qw_CostReserved := cost; qw_UpdatedAt := now |}.

Definition is_deny (policy : TenantQuotaPolicy) : bool := (qp_OveragePolicy policy =? QuotaOverageDeny)%string.

Definition reserve_cost (policy : TenantQuotaPolicy) (estimate : Z * bool) : Tx QuotaDecision DB Z :=
  match qp_BudgetNanoUSD policy with
  | None => mret 0
  | Some _ =>
      if negb (snd estimate)
      then
        if is_deny policy then fail ErrCostUnknown
        else _ ← captured (qd_alert (qp_ID policy ++ ":cost_unknown")); mret 0
      else mret (fst estimate)
  end.

Definition note_exceeded (policy : TenantQuotaPolicy) (exceeded : bool) : Tx QuotaDecision DB unit :=
  if exceeded
  then
    _ ← captured qd_exceed;
    if is_deny policy then fail ErrExceeded
    else if (qp_OveragePolicy policy =? QuotaOverageAlert)%string
    then captured (qd_alert (qp_ID policy ++ ":exceeded"))
    else mret tt
  else mret tt.

Context (reservationTTL : Duration).

Definition new_reservation (id group : string) (policy : TenantQuotaPolicy) (start now : Time)
    (tokens cost : Z) (exceeded : bool) : QuotaReservation :=
  {| qr_ID := id; qr_GroupID := group; qr_PolicyID := qp_ID policy; qr_WindowStart := start;
     qr_RequestsReserved := 1; qr_TokensReserved := tokens; qr_CostReserved := cost;
     qr_RequestsActual := None; qr_TokensActual := None; qr_CostActual := None;
     qr_State := ReservationActive; qr_Exceeded := exceeded; qr_ExpiresAt := time_add now reservationTTL;
     qr_CreatedAt := now; qr_SettledAt := None |}.

(** One policy of [Reserve]; [uuid] is what [randomUUID] draws for it. *)
Definition reserve_policy (group : string) (totalTokens : Z) (estimate : Z * bool) (now : Time)
    (uuid : string → option string) (policy : TenantQuotaPolicy) : Tx QuotaDecision DB unit :=
  _ ← captured qd_apply;
  let start := periodStart now (qp_Period policy) in
  window ← lockWindow (qp_ID policy) start now;
  cost ← reserve_cost policy estimate;
  let exceeded := exceeds policy window 1 totalTokens cost in
  _ ← note_exceeded policy exceeded;
  match add (qw_TokensReserved window) totalTokens with
  | None => fail (quota_error "quota reserved token counter overflow")
  | Some tokens =>
      match add (qw_CostReserved window) cost with
      | None => fail (quota_error "quota reserved cost counter overflow")
      | Some costs =>
          _ ← exec (db_save_window (qw_reserve window tokens costs now)) "update quota window";
          match uuid (qp_ID policy) with
          | None => fail (quota_error "generate quota reservation ID")
          | Some id =>
              exec (db_create_reservation
                      (new_reservation id group policy start now totalTokens cost exceeded))
                "create quota reservation"
          end
      end
  end.

Definition reserve_body (input : ReserveInput) (totalTokens : Z) (estimate : Z * bool) (now : Time)
    (uuid : string → option string) : Tx QuotaDecision DB unit :=
  existing ← query (λ db, db_count_group db (ri_GroupID input)) "check quota reservation";
  if 0 <? existing then mret tt
  else
    policies ← query (λ db, db_matching_policies db (ri_TenantID input) (ri_GatewayModel input))
                 "read quota policies";
    for_each (reserve_policy (ri_GroupID input) totalTokens estimate now uuid) policies.

Definition ri_trim (input : ReserveInput) : ReserveInput :=
  {| ri_GroupID := TrimSpace (ri_GroupID input); ri_TenantID := TrimSpace (ri_TenantID input);
     ri_GatewayModel := TrimSpace (ri_GatewayModel input);
     ri_EstimatedInputTokens := ri_EstimatedInputTokens input;
     ri_EstimatedOutputTokens := ri_EstimatedOutputTokens input; ri_Plan := ri_Plan input |}.

Definition Reserve (index : option policyIndex) (input : ReserveInput) (now : Time)
    (uuid : string → option string) (db : DB) : result QuotaError unit * QuotaDecision * DB :=
  let input := ri_trim input in
  if (ri_GroupID input =? "")%string || (ri_TenantID input =? "")%string ||
     (ri_GatewayModel input =? "")%string || (ri_EstimatedInputTokens input <? 0) ||
     (ri_EstimatedOutputTokens input <? 0)
  then (Err (quota_error "quota reservation input is invalid"), no_decision, db)
  else if negb (HasPolicy index (ri_TenantID input) (ri_GatewayModel input))
  then (Ok tt, no_decision, db)
  else
    match add (ri_EstimatedInputTokens input) (ri_EstimatedOutputTokens input) with
    | None => (Err (quota_error "quota token estimate overflow"), no_decision, db)
    | Some totalTokens =>
        let decision := {| qd_ReservationID := ri_GroupID input; qd_Exceeded := false; qd_Alerts := [];
                           qd_AppliedPolicies := 0 |} in
        transaction (reserve_body input totalTokens (estimateCost input now) now uuid) decision db
    end.

(** *** Settle *)

Definition actual (event : UsageEvent) (r : QuotaReservation) : Z * Z * Z :=
  (1,
   match e_Usage event with
   | Some usage => tu_Total usage
   | None => if 0 <? e_Attempts event then qr_TokensReserved r else 0
   end,
   match cr_Snapshot (quote_event event) with
   | Some s => cs_TotalNanoUSD s
   | None => if 0 <? e_Attempts event then qr_CostReserved r else 0
   end).

(** The reservation leaves the counters it is in; the actual amounts are settled. *)
Definition qw_settle (w : QuotaWindow) (r : QuotaReservation) (amounts : Z * Z * Z) (now : Time)
  : QuotaWindow :=
  let '(requests, tokens, cost) := amounts in
  let active := bool_decide (qr_State r = ReservationActive) in
  let settled x y := wrap_int64 (if active then x else x - y) in
  let reserved x y := if active then wrap_int64 (x - y) else x in
  {| qw_PolicyID := qw_PolicyID w; qw_WindowStart := qw_WindowStart w;
     qw_RequestsSettled := wrap_int64 (settled (qw_RequestsSettled w) (qr_RequestsReserved r) + requests);
     qw_TokensSettled := wrap_int64 (settled (qw_TokensSettled w) (qr_TokensReserved r) + tokens);
     qw_CostSettled := wrap_int64 (settled (qw_CostSettled w) (qr_CostReserved r) + cost);
     qw_RequestsReserved := reserved (qw_RequestsReserved w) (qr_RequestsReserved r);
     qw_TokensReserved := reserved (qw_TokensReserved w) (qr_TokensReserved r);
     qw_CostReserved := reserved (qw_CostReserved w) (qr_CostReserved r); qw_UpdatedAt := now |}.

Definition qr_finish (r : QuotaReservation) (state : QuotaReservationState) (amounts : Z * Z * Z)
    (now : Time) : QuotaReservation :=
  let '(requests, tokens, cost) := amounts in
  {| qr_ID := qr_ID r; qr_GroupID := qr_GroupID r; qr_PolicyID := qr_PolicyID r;
     qr_WindowStart := qr_WindowStart r; qr_RequestsReserved := qr_RequestsReserved r;
     qr_TokensReserved := qr_TokensReserved r; qr_CostReserved := qr_CostReserved r;
     qr_RequestsActual := Some requests; qr_TokensActual := Some tokens; qr_CostActual := Some cost;
     qr_State := state; qr_Exceeded := qr_Exceeded r; qr_ExpiresAt := qr_ExpiresAt r;
     qr_CreatedAt := qr_CreatedAt r; qr_SettledAt := Some now |}.

Definition settle_reservation {D} (event : UsageEvent) (now : Time) (r : QuotaReservation) : Tx D DB unit :=
  if bool_decide (qr_State r = ReservationSettled) then mret tt
  else
    window ← lockWindow (qr_PolicyID r) (qr_WindowStart r) now;
    let amounts := actual event r in
    _ ← exec (db_save_window (qw_settle window r amounts now)) "settle quota window";
    exec (db_save_reservation (qr_finish r ReservationSettled amounts now)) "settle quota reservation".

Definition Settle (groupID : string) (event : UsageEvent) (now : Time) (db : DB)
  : result QuotaError unit * DB :=
  let groupID := TrimSpace groupID in
  if (groupID =? "")%string then (Ok tt, db)
  else
    let '(r, _, db) :=
      transaction
        (reservations ← query (λ db, db_group db groupID) "read quota reservations";
         for_each (settle_reservation event now) reservations) tt db in
    (r, db).

(** *** ReapExpired *)

Definition qw_estimate (w : QuotaWindow) (r : QuotaReservation) (now : Time) : QuotaWindow :=
  {| qw_PolicyID := qw_PolicyID w; qw_WindowStart := qw_WindowStart w;
     qw_RequestsSettled := wrap_int64 (qw_RequestsSettled w + qr_RequestsReserved r);
     qw_TokensSettled := wrap_int64 (qw_TokensSettled w + qr_TokensReserved r);
     qw_CostSettled := wrap_int64 (qw_CostSettled w + qr_CostReserved r);
     qw_RequestsReserved := wrap_int64 (qw_RequestsReserved w - qr_RequestsReserved r);
     qw_TokensReserved := wrap_int64 (qw_TokensReserved w - qr_TokensReserved r);
     qw_CostReserved := wrap_int64 (qw_CostReserved w - qr_CostReserved r); qw_UpdatedAt := now |}.

Definition reap_reservation (now : Time) (r : QuotaReservation) : Tx Z DB unit :=
  window ← lockWindow (qr_PolicyID r) (qr_WindowStart r) now;
  _ ← exec (db_save_window (qw_estimate window r now)) "estimate expired quota window";
  _ ← exec (db_save_reservation
        (qr_finish r ReservationEstimated
           (qr_RequestsReserved r, qr_TokensReserved r, qr_CostReserved r) now))
        "estimate expired quota reservation";
  captured (λ processed, processed + 1).

Definition ReapExpired (limit : Z) (now : Time) (db : DB) : result QuotaError unit * Z * DB :=
  let limit := if (limit <=? 0) || (1000 <? limit) then 100 else limit in
  transaction
    (reservations ← query (λ db, db_expired db now limit) "read expired quota reservations";
     for_each (reap_reservation now) reservations) 0 db.
End manager.

(** ** Accounting

    The three dimensions, and what a reservation contributes to the reserved and
    to the settled counter of its window. *)

Inductive Dim := Requests | Tokens | Cost.

Definition w_settled (d : Dim) (w : QuotaWindow) : Z :=
  match d with
  | Requests => qw_RequestsSettled w | Tokens => qw_TokensSettled w | Cost => qw_CostSettled w
  end.
Definition w_reserved (d : Dim) (w : QuotaWindow) : Z :=
  match d with
  | Requests => qw_RequestsReserved w | Tokens => qw_TokensReserved w | Cost => qw_CostReserved w
  end.
Definition r_reserved (d : Dim) (r : QuotaReservation) : Z :=
  match d with
  | Requests => qr_RequestsReserved r | Tokens => qr_TokensReserved r | Cost => qr_CostReserved r
  end.
Definition r_actual (d : Dim) (r : QuotaReservation) : Z :=
  default 0 match d with
            | Requests => qr_RequestsActual r | Tokens => qr_TokensActual r | Cost => qr_CostActual r
            end.
Definition policy_limit (d : Dim) (p : TenantQuotaPolicy) : option Z :=
  match d with
  | Requests => qp_RequestLimit p | Tokens => qp_TokenLimit p | Cost => qp_BudgetNanoUSD p
  end.

Definition held (d : Dim) (r : QuotaReservation) : Z :=
  match qr_State r with ReservationActive => r_reserved d r | _ => 0 end.
Definition spent (d : Dim) (r : QuotaReservation) : Z :=
  match qr_State r with
  | ReservationActive => 0
  | ReservationSettled => r_actual d r
  | ReservationEstimated => r_reserved d r
  end.

Definition r_key (r : QuotaReservation) : string * Time := (qr_PolicyID r, qr_WindowStart r).
Definition w_key (w : QuotaWindow) : string * Time := (qw_PolicyID w, qw_WindowStart w).

(** The sum over the reservations of a window. *)
Definition total (key : string * Time) (f : QuotaReservation → Z) (rs : gmap string QuotaReservation) : Z :=
  sumZ (λ kv, if decide (r_key kv.2 = key) then f kv.2 else 0) (map_to_list rs).

(** Every counter of every window is the sum of the contributions of its
    reservations (modulo 2^64, as the counters are 64-bit), every reservation
    has its window, and counts as one request, reserved or settled. *)
Record accounted (t : Tables) : Prop := {
  ac_reservations : ∀ id r, tb_reservations t !! id = Some r →
    qr_ID r = id ∧ is_Some (tb_windows t !! r_key r) ∧
    held Requests r + spent Requests r = 1 ∧ 0 ≤ held Requests r ∧ 0 ≤ spent Requests r;
  ac_windows : ∀ key w, tb_windows t !! key = Some w → w_key w = key ∧ ∀ d,
    w_reserved d w = wrap_int64 (total key (held d) (tb_reservations t)) ∧
    w_settled d w = wrap_int64 (total key (spent d) (tb_reservations t));
}.

Definition no_tables : Tables := {| tb_policies := ∅; tb_windows := ∅; tb_reservations := ∅ |}.

Lemma no_tables_accounted : accounted no_tables.
Proof. by split. Qed.

Lemma wrap_wrap_add a b : wrap_int64 (wrap_int64 a + b) = wrap_int64 (a + b).
Proof.
  unfold wrap_int64. f_equal. replace (_ + _ + b - int64_min) with ((a - int64_min) mod two64 + b) by lia.
  rewrite Z.add_mod_idemp_l by (unfold two64; lia). f_equal. lia.
Qed.

Lemma total_insert key f rs r :
  total key f (<[qr_ID r := r]> rs) =
  total key f rs - (match rs !! qr_ID r with
                    | Some old => if decide (r_key old = key) then f old else 0
                    | None => 0
                    end) + (if decide (r_key r = key) then f r else 0).
Proof.
  unfold total. destruct (rs !! qr_ID r) as [old|] eqn:Hold.
  - rewrite <-(insert_delete_id rs (qr_ID r) old) at 2 by done. rewrite <-insert_delete_eq.
    rewrite !(sumZ_perm _ _ _ (map_to_list_insert _ _ _ (lookup_delete_eq _ _))), !sumZ_cons. cbn. lia.
  - rewrite (sumZ_perm _ _ _ (map_to_list_insert _ _ _ Hold)), sumZ_cons. cbn. lia.
Qed.

Lemma total_none key f rs :
  (∀ id r, rs !! id = Some r → r_key r ≠ key) → total key f rs = 0.
Proof.
  intros Hno. apply sumZ_zero. intros [id r] Hin%elem_of_map_to_list. cbn. by rewrite decide_False by eauto.
Qed.

(** One reservation changes, and its window with it. *)
Lemma account_move t w w' r :
  accounted t → tb_windows t !! r_key r = Some w → w_key w' = r_key r →
  (∀ old, tb_reservations t !! qr_ID r = Some old → r_key old = r_key r) →
  held Requests r + spent Requests r = 1 ∧ 0 ≤ held Requests r ∧ 0 ≤ spent Requests r →
  (∀ d, let old f := match tb_reservations t !! qr_ID r with Some o => f o | None => 0 end in
     w_reserved d w' = wrap_int64 (w_reserved d w + (held d r - old (held d))) ∧
     w_settled d w' = wrap_int64 (w_settled d w + (spent d r - old (spent d)))) →
  accounted (put_reservation r (put_window w' t)).
Proof.
  intros [Hrs Hws] Hw Hk Hold Hreq Hc. unfold put_window. fold (w_key w'). rewrite Hk. split; cbn.
  - intros id r' [[<- <-]|[_ Hr']]%lookup_insert_Some.
    + split; [done|]. split; [by rewrite lookup_insert_eq | done].
    + destruct (Hrs _ _ Hr') as (? & Hin & ?). split; [done|]. split; [|done].
      rewrite lookup_insert_is_Some. destruct (decide (r_key r = r_key r')); [by left | by right].
  - intros key w1 Hw1. assert (∀ f, total key f (<[qr_ID r := r]> (tb_reservations t)) =
      total key f (tb_reservations t) + if decide (r_key r = key)
        then f r - match tb_reservations t !! qr_ID r with Some o => f o | None => 0 end else 0) as Htot.
    { intros f. rewrite total_insert. destruct (tb_reservations t !! qr_ID r) as [old|]; [|destruct (decide _); lia].
      rewrite (Hold old eq_refl). destruct (decide _); lia. }
    apply lookup_insert_Some in Hw1 as [[<- <-]|[Hne Hw1]].
    + split; [done|]. intros d. rewrite !Htot, !decide_True by done. destruct (Hws _ _ Hw) as [_ Hwd].
      destruct (Hwd d) as [H1 H2]. destruct (Hc d) as [-> ->]. by rewrite H1, H2, !wrap_wrap_add.
    + destruct (Hws _ _ Hw1) as [? Hwd]. split; [done|]. intros d.
      rewrite !Htot, !decide_False by done. rewrite !Z.add_0_r. apply Hwd.
Qed.

(** An empty window is seeded where there was none. *)
Lemma account_seed t w :
  accounted t → tb_windows t !! w_key w = None → (∀ d, w_reserved d w = 0 ∧ w_settled d w = 0) →
  accounted (put_window w t).
Proof.
  intros [Hrs Hws] Hn H0. unfold put_window. fold (w_key w). split; cbn.
  - intros id r Hr. destruct (Hrs _ _ Hr) as (? & Hin & ?). split; [done|]. split; [|done].
    rewrite lookup_insert_is_Some. destruct (decide (w_key w = r_key r)); [by left | by right].
  - intros key w' [[<- <-]|[Hne Hw']]%lookup_insert_Some; [|by apply Hws]. split; [done|]. intros d.
    destruct (H0 d) as [-> ->]. rewrite !total_none; [done|..]; intros id r Hr Hk;
      destruct (Hrs _ _ Hr) as (_ & [? Hin] & _); rewrite Hk in Hin; congruence.
Qed.

(** ** Reasoning about transaction bodies

    When the body succeeds, the tables and the captured variables it leaves
    satisfy the postcondition. *)

Section bodies.
Context {DB : Type} `{QuotaDBLaws DB, Quoter} {D : Type}.

Definition tx {A} (m : Tx D DB A) (s : D * DB) (Q : A → D → Tables → Prop) : Prop :=
  match m s with (Ok a, (d, db)) => Q a d (db_tables db) | (Err _, _) => True end.

Lemma tx_ret {A} (a : A) s Q : Q a s.1 (db_tables s.2) → tx (mret a) s Q.
Proof. by destruct s. Qed.

Lemma tx_bind {A B} (m : Tx D DB A) (f : A → Tx D DB B) s Q :
  (∀ r s', m s = (Ok r, s') → tx (f r) s' Q) → tx (m ≫= f) s Q.
Proof.
  intros Hf. unfold tx, mbind, Tx_bind. destruct (m s) as [[a|e] s'] eqn:Hm; [|by destruct s'].
  by apply Hf.
Qed.

Lemma tx_mono {A} (m : Tx D DB A) s (Q Q' : A → D → Tables → Prop) :
  tx m s Q → (∀ a d t, Q a d t → Q' a d t) → tx m s Q'.
Proof. unfold tx. intros Hm Hi. destruct (m s) as [[a|] [d db]]; [by apply Hi | done]. Qed.

Lemma tx_then {A B} (m : Tx D DB A) (f : A → Tx D DB B) s (P : A → D → Tables → Prop) Q :
  tx m s P → (∀ a d db, P a d (db_tables db) → tx (f a) (d, db) Q) → tx (m ≫= f) s Q.
Proof.
  intros Hm Hf. apply tx_bind. intros a [d db] Ha. apply Hf. unfold tx in Hm. by rewrite Ha in Hm.
Qed.

Lemma tx_query {A} (statement : DB → option A) message s Q :
  (∀ a, statement s.2 = Some a → Q a s.1 (db_tables s.2)) → tx (query statement message) s Q.
Proof. unfold tx, query. destruct s as [d db]. destruct (statement _) eqn:Hs; [|done]. intros HQ. by apply HQ. Qed.

Lemma tx_exec (statement : DB → option DB) message s Q :
  (∀ db, statement s.2 = Some db → Q tt s.1 (db_tables db)) → tx (exec statement message) s Q.
Proof. unfold tx, exec. destruct s as [d db]. destruct (statement _) eqn:Hs; [|done]. intros HQ. by apply HQ. Qed.

Lemma tx_captured f s Q : Q tt (f s.1) (db_tables s.2) → tx (captured f) s Q.
Proof. by destruct s. Qed.

Lemma tx_captured_then {A} f (k : unit → Tx D DB A) d db Q :
  tx (k tt) (f d, db) Q → tx (captured f ≫= k) (d, db) Q.
Proof. done. Qed.

Lemma tx_transaction {A} (m : Tx D DB A) d db Q :
  tx m (d, db) Q →
  let '(r, d', db') := transaction m d db in
  match r with Ok a => Q a d' (db_tables db') | Err _ => db' = db end.
Proof. unfold tx, transaction. by destruct (m (d, db)) as [[a|e] [d' db']]. Qed.

(** An invariant that says what is left to do. *)
Lemma tx_for_each {A} (body : A → Tx D DB unit) (I : list A → D → Tables → Prop) l s :
  I l s.1 (db_tables s.2) →
  (∀ a l d db, I (a :: l) d (db_tables db) → tx (body a) (d, db) (λ _, I l)) →
  tx (for_each body l) s (λ _, I []).
Proof.
  revert s. induction l as [|a l IH]; intros [d db] Hi Hbody; cbn; [exact Hi|].
  eapply tx_then; [by apply Hbody|]. intros [] d' db' Hi'. by apply (IH (d', db')).
Qed.

(** Locking a window seeds it; nothing else changes. *)
Lemma tx_lockWindow policyID start now s :
  accounted (db_tables s.2) →
  tx (lockWindow policyID start now) s (λ w d t,
    accounted t ∧ d = s.1 ∧ tb_windows t !! (policyID, start) = Some w ∧ w_key w = (policyID, start) ∧
    tb_reservations t = tb_reservations (db_tables s.2) ∧ tb_policies t = tb_policies (db_tables s.2) ∧
    ∀ key w', tb_windows (db_tables s.2) !! key = Some w' → tb_windows t !! key = Some w').
Proof.
  intros Hac. unfold lockWindow. destruct s as [d db]. cbn [fst snd] in *.
  set (w0 := {| qw_PolicyID := policyID |}).
  eapply (tx_then _ _ _ (λ _ d' t, d' = d ∧ accounted t ∧
    tb_reservations t = tb_reservations (db_tables db) ∧ tb_policies t = tb_policies (db_tables db) ∧
    ∀ key w', tb_windows (db_tables db) !! key = Some w' → tb_windows t !! key = Some w')).
  - apply tx_exec. cbn [fst snd]. intros db' Hdb'. apply seed_law in Hdb'.
    destruct (tb_windows (db_tables db) !! _) as [w1|] eqn:Hw1; rewrite Hdb'; [done|].
    split; [done|]. split; [apply account_seed; [done | done | by intros []]|]. split; [done|]. split; [done|].
    intros key w' Hw'. cbn. rewrite lookup_insert_ne; [done|]. intros Heq. unfold w_key in Hw1. cbn in *. congruence.
  - intros [] d' db' (-> & Hac' & Hr & Hp & Hw). apply tx_query. cbn [fst snd]. intros w Hl.
    apply lock_law in Hl as (Hl & Hl1 & Hl2). unfold w_key. rewrite Hl1, Hl2. done.
Qed.
End bodies.

(** ** The operations keep the accounts *)

(** Equal numbers have equal wrap-arounds (without unfolding them). *)
Ltac same_wrap := apply (f_equal wrap_int64); cbn; lia.

Lemma counter_range t key w d :
  accounted t → tb_windows t !! key = Some w → wrap_int64 (w_reserved d w) = w_reserved d w ∧
    wrap_int64 (w_settled d w) = w_settled d w.
Proof.
  intros [_ Hws] Hw. destruct (Hws _ _ Hw) as [_ Hd]. destruct (Hd d) as [-> ->].
  split; apply wrap_int64_id, wrap_int64_range.
Qed.

Lemma some_if_ext {A} (P Q : Prop) `{Decision P, Decision Q} (a b : A) :
  (P ↔ Q) → Some (if bool_decide P then a else b) = Some (if bool_decide Q then a else b).
Proof. intros Hpq. by rewrite (bool_decide_ext P Q Hpq). Qed.

Section operations.
Context {DB : Type} `{QuotaDBLaws DB, Quoter}.

Lemma settle_reservation_spec {D} event now r (s : D * DB) :
  accounted (db_tables s.2) → tb_reservations (db_tables s.2) !! qr_ID r = Some r →
  tx (settle_reservation event now r) s (λ _ _ t, accounted t ∧
    tb_policies t = tb_policies (db_tables s.2) ∧
    tb_reservations t =
      if bool_decide (qr_State r = ReservationSettled) then tb_reservations (db_tables s.2)
      else <[qr_ID r := qr_finish r ReservationSettled (actual event r) now]>
             (tb_reservations (db_tables s.2))).
Proof.
  intros Hac Hr. unfold settle_reservation. case_bool_decide as Hst; [by apply (tx_ret tt s)|].
  eapply tx_then; [by apply tx_lockWindow|].
  intros w d db (Hac' & _ & Hw & Hwk & Hrs & Hps & _). rewrite <-Hrs, <-Hps. rewrite <-Hrs in Hr.
  apply tx_bind. intros [] s1 Hs1. unfold exec in Hs1. cbn in Hs1.
  destruct (db_save_window _ db) as [db1|] eqn:Hsave; [|done]. injection Hs1 as <-.
  apply tx_exec. cbn. intros db2 Hdb2. apply save_window_law in Hsave. apply save_reservation_law in Hdb2.
  rewrite Hdb2, Hsave. split; [|by destruct (actual event r) as [[]]].
  apply (account_move _ w); rewrite ?(eq_refl : r_key (qr_finish r _ (_, _, _) _) = r_key r);
    destruct (actual event r) as [[requests tokens] cost] eqn:Ha; cbn [qr_finish qr_ID].
  - done.
  - done.
  - done.
  - intros old Hold. rewrite Hr in Hold. by injection Hold as <-.
  - unfold held, spent, r_actual. cbn. unfold actual in Ha. injection Ha as <- _ _. lia.
  - intros dim. rewrite Hr. destruct (counter_range _ _ w dim Hac' Hw) as [Hcr Hcs].
    unfold held, spent. cbn [qr_State]. destruct (qr_State r) eqn:Hs; [|done|].
    + split; destruct dim; cbn; rewrite ?bool_decide_true by done; rewrite ?wrap_wrap_add; same_wrap.
    + split; [rewrite Z.sub_0_r, Z.add_0_r, Hcr; by destruct dim|].
      destruct dim; cbn; rewrite ?bool_decide_false by done; rewrite ?wrap_wrap_add; same_wrap.
Qed.

Lemma reap_reservation_spec now r (s : Z * DB) :
  accounted (db_tables s.2) → tb_reservations (db_tables s.2) !! qr_ID r = Some r →
  qr_State r = ReservationActive →
  tx (reap_reservation now r) s (λ _ n t, n = s.1 + 1 ∧ accounted t ∧
    tb_policies t = tb_policies (db_tables s.2) ∧
    tb_reservations t =
      <[qr_ID r := qr_finish r ReservationEstimated
                     (qr_RequestsReserved r, qr_TokensReserved r, qr_CostReserved r) now]>
        (tb_reservations (db_tables s.2))).
Proof.
  intros Hac Hr Hst. unfold reap_reservation. destruct (ac_reservations _ Hac _ _ Hr) as (_ & _ & Hreq).
  eapply tx_then; [by apply tx_lockWindow|].
  intros w d db (Hac' & -> & Hw & Hwk & Hrs & Hps & _). rewrite <-Hrs, <-Hps. rewrite <-Hrs in Hr.
  apply tx_bind. intros [] s1 Hs1. unfold exec in Hs1. cbn in Hs1.
  destruct (db_save_window _ db) as [db1|] eqn:Hsave; [|done]. injection Hs1 as <-.
  apply tx_bind. intros [] s2 Hs2. unfold exec in Hs2. cbn in Hs2.
  destruct (db_save_reservation _ db1) as [db2|] eqn:Hdb2; [|done]. injection Hs2 as <-.
  apply tx_captured. cbn. apply save_window_law in Hsave. apply save_reservation_law in Hdb2.
  rewrite Hdb2, Hsave. split; [done|]. split; [|done].
  apply (account_move _ w); [done | done | done | | |].
  - cbn. intros old Hold. rewrite Hr in Hold. by injection Hold as <-.
  - unfold held, spent, r_actual in *. cbn. rewrite Hst in Hreq. cbn in Hreq. lia.
  - intros dim. cbn. rewrite Hr. unfold held, spent. cbn. rewrite Hst.
    split; destruct dim; cbn; same_wrap.
Qed.

(** What [Settle] does to the reservations of its group. *)
Definition settled_row (event : UsageEvent) (now : Time) (r : QuotaReservation) : QuotaReservation :=
  if bool_decide (qr_State r = ReservationSettled) then r
  else qr_finish r ReservationSettled (actual event r) now.

Record settled_tables (group : string) (event : UsageEvent) (now : Time) (t t' : Tables) : Prop := {
  st_accounted : accounted t';
  st_policies : tb_policies t' = tb_policies t;
  st_rows : ∀ id, tb_reservations t' !! id =
    (λ r, if bool_decide (qr_GroupID r = group) then settled_row event now r else r) <$>
      tb_reservations t !! id;
}.

Lemma settled_row_id event now r : qr_ID (settled_row event now r) = qr_ID r.
Proof. unfold settled_row. case_bool_decide; [done|]. by destruct (actual event r) as [[]]. Qed.

Lemma settled_row_group event now r : qr_GroupID (settled_row event now r) = qr_GroupID r.
Proof. unfold settled_row. case_bool_decide; [done|]. by destruct (actual event r) as [[]]. Qed.

Lemma settled_row_twice event now event' now' r :
  settled_row event' now' (settled_row event now r) = settled_row event now r.
Proof.
  unfold settled_row at 1. rewrite bool_decide_true; [done|]. unfold settled_row.
  case_bool_decide; [done|]. by destruct (actual event r) as [[]].
Qed.

Lemma NoDup_map_cons {A B} (f : A → B) a l : NoDup (map f (a :: l)) → NoDup (map f l) ∧ ∀ b, b ∈ l → f b ≠ f a.
Proof.
  intros [Ha Hl]%NoDup_cons. split; [done|]. intros b Hb Heq. apply Ha. rewrite <-Heq.
  apply list_elem_of_In, in_map. by apply list_elem_of_In.
Qed.

Lemma settle_body_spec group event now (db : DB) :
  accounted (db_tables db) →
  tx (reservations ← query (λ db, db_group db group) "read quota reservations";
      for_each (settle_reservation event now) reservations) (tt, db)
    (λ _ _ t, settled_tables group event now (db_tables db) t).
Proof.
  intros Hac. set (t := db_tables db). apply tx_bind. intros rs s1 Hq. unfold query in Hq. cbn in Hq.
  destruct (db_group db group) as [rs'|] eqn:Hg; [|done]. injection Hq as -> <-.
  apply group_law in Hg as [Hnd Hin]. fold t in Hin.
  eapply tx_mono; [apply (tx_for_each _ (λ todo _ t', NoDup (map qr_ID todo) ∧
    (∀ r, r ∈ todo → tb_reservations t !! qr_ID r = Some r ∧ qr_GroupID r = group) ∧
    accounted t' ∧ tb_policies t' = tb_policies t ∧
    ∀ id, tb_reservations t' !! id =
      (λ r, if bool_decide (qr_GroupID r = group ∧ id ∉ map qr_ID todo) then settled_row event now r else r)
        <$> tb_reservations t !! id))|].
  - cbn [fst snd]. fold t. split; [done|]. split; [intros r Hr; by apply Hin|]. split; [done|]. split; [done|].
    intros id. destruct (tb_reservations t !! id) as [r|] eqn:Hr; [cbn|done].
    rewrite bool_decide_false; [done|]. intros [Hgr Hni]. apply Hni.
    destruct (ac_reservations _ Hac _ _ Hr) as [<- _]. apply list_elem_of_In, in_map, list_elem_of_In.
    by apply Hin.
  - intros r todo [] db' (Hnd' & Hin' & Hac' & Hps & Hrows).
    destruct (NoDup_map_cons _ _ _ Hnd') as [Hndt Hne]. destruct (Hin' r) as [Hr Hgr]; [left|].
    assert (tb_reservations (db_tables db') !! qr_ID r = Some r) as Hr'.
    { rewrite Hrows, Hr. cbn. rewrite bool_decide_false; [done|]. intros [_ Hni]. apply Hni. left. }
    eapply tx_mono; [by apply settle_reservation_spec|]. cbn [fst snd].
    intros _ _ t' (Hac1 & Hp1 & Hr1). split; [done|]. split; [intros q Hq; apply Hin'; by right|].
    split; [done|]. split; [by rewrite Hp1|]. intros id.
    assert (tb_reservations t' !! id = if decide (id = qr_ID r) then Some (settled_row event now r)
      else tb_reservations (db_tables db') !! id) as ->.
    { rewrite Hr1. unfold settled_row. case_bool_decide; destruct (decide (id = qr_ID r)) as [->|]; try done.
      - by rewrite lookup_insert_eq. - by rewrite lookup_insert_ne. }
    destruct (decide (id = qr_ID r)) as [->|Hid].
    + rewrite Hr. cbn. rewrite bool_decide_true; [done|]. split; [done|].
      intros Hi. apply list_elem_of_In, in_map_iff in Hi as (q & Heq & Hq). apply (Hne q); [|done].
      by apply list_elem_of_In.
    + rewrite Hrows. destruct (tb_reservations t !! id) as [q|]; [cbn|done]. apply some_if_ext.
      rewrite not_elem_of_cons. naive_solver.
  - cbn. intros _ _ t' (_ & _ & Hac' & Hps & Hrows). split; [done | done |]. intros id. rewrite Hrows.
    destruct (tb_reservations t !! id) as [q|]; [cbn|done]. apply some_if_ext. set_solver.
Qed.

(** What [ReapExpired] may do: some expired active reservations are settled at
    what they reserved. *)
Record reaped_tables (now : Time) (t t' : Tables) : Prop := {
  rp_accounted : accounted t';
  rp_policies : tb_policies t' = tb_policies t;
  rp_rows : ∀ id, tb_reservations t' !! id = tb_reservations t !! id ∨
    ∃ r, tb_reservations t !! id = Some r ∧ qr_State r = ReservationActive ∧ qr_ExpiresAt r ≤ now ∧
      tb_reservations t' !! id = Some (qr_finish r ReservationEstimated
        (qr_RequestsReserved r, qr_TokensReserved r, qr_CostReserved r) now);
}.

Lemma reap_body_spec limit now (db : DB) :
  0 ≤ limit → accounted (db_tables db) →
  tx (reservations ← query (λ db, db_expired db now limit) "read expired quota reservations";
      for_each (reap_reservation now) reservations) (0, db)
    (λ _ n t, 0 ≤ n ≤ limit ∧ reaped_tables now (db_tables db) t).
Proof.
  intros Hlimit Hac. set (t := db_tables db). apply tx_bind. intros rs s1 Hq. unfold query in Hq. cbn in Hq.
  destruct (db_expired db now limit) as [rs'|] eqn:Hg; [|done]. injection Hq as -> <-.
  apply expired_law in Hg as (Hnd & Hlen & Hin); [|done]. fold t in Hin.
  eapply tx_mono; [apply (tx_for_each _ (λ todo n t', NoDup (map qr_ID todo) ∧
    0 ≤ n ∧ n + Z.of_nat (length todo) ≤ limit ∧ reaped_tables now t t' ∧
    ∀ r, r ∈ todo → tb_reservations t !! qr_ID r = Some r ∧ qr_State r = ReservationActive ∧
      qr_ExpiresAt r ≤ now ∧ tb_reservations t' !! qr_ID r = Some r))|].
  - cbn [fst snd]. fold t. split; [done|]. split; [done|]. split; [lia|].
    split; [split; [done | done | by left]|]. intros r Hr. destruct (Hin r Hr) as (? & ? & ?). done.
  - intros r todo n db' (Hnd' & Hn & Hlen' & [Hac' Hps Hrows] & Hin').
    destruct (NoDup_map_cons _ _ _ Hnd') as [Hndt Hne]. destruct (Hin' r) as (Hr & Hst & Hex & Hr'); [left|].
    eapply tx_mono; [by apply reap_reservation_spec|]. cbn [fst snd length] in *.
    intros _ n' t' (-> & Hac1 & Hp1 & Hr1). split; [done|]. split; [lia|]. split; [lia|]. split.
    + split; [done | by rewrite Hp1 |]. intros id. rewrite Hr1. destruct (decide (id = qr_ID r)) as [->|Hid].
      * right. exists r. by rewrite lookup_insert_eq.
      * rewrite lookup_insert_ne by done. apply Hrows.
    + intros q Hq. destruct (Hin' q) as (? & ? & ? & ?); [by right|]. repeat split; [done..|].
      rewrite Hr1, lookup_insert_ne; [done|]. intros Heq. by apply (Hne q Hq).
  - cbn. intros _ n t' (_ & ? & ? & Hrp & _). split; [lia | done].
Qed.

(** ** Admission *)

Lemma add_exact l r :
  in_int64 l → in_int64 r → add l r = if is_int64 (l + r) then Some (l + r) else None.
Proof.
  unfold in_int64, add. intros Hl Hr. destruct (is_int64 (l + r)) eqn:Hi.
  - apply is_int64_spec in Hi. rewrite wrap_int64_id by done. unfold in_int64 in Hi.
    destruct (Z.ltb_spec 0 r), (Z.ltb_spec (int64_max - r) l), (Z.ltb_spec r 0), (Z.ltb_spec l (int64_min - r));
      cbn; try done; lia.
  - apply is_int64_false in Hi. unfold in_int64 in Hi.
    destruct (Z.ltb_spec 0 r), (Z.ltb_spec (int64_max - r) l), (Z.ltb_spec r 0), (Z.ltb_spec l (int64_min - r));
      cbn; try done; lia.
Qed.

Lemma exceedsLimit_exact limit settled reserved incoming :
  in_int64 settled → in_int64 reserved → in_int64 incoming →
  exceedsLimit (Some limit) settled reserved incoming = false → settled + reserved + incoming ≤ limit.
Proof.
  intros Hs Hr Hi. unfold exceedsLimit. rewrite add_exact by done.
  destruct (is_int64 (settled + reserved)) eqn:H1'; [|done]. apply is_int64_spec in H1'.
  rewrite add_exact by done. destruct (is_int64 (_ + incoming)); [|done]. by rewrite Z.ltb_ge.
Qed.

Lemma total_add key f g rs : total key (λ r, f r + g r) rs = total key f rs + total key g rs.
Proof.
  unfold total. induction (map_to_list rs) as [|kv l IH]; [done|]. rewrite !sumZ_cons, IH.
  destruct (decide _); lia.
Qed.

Lemma total_nonneg key f rs : (∀ id r, rs !! id = Some r → 0 ≤ f r) → 0 ≤ total key f rs.
Proof.
  intros Hf. unfold total.
  assert (∀ kv, kv ∈ map_to_list rs → 0 ≤ f kv.2) as Hl by (intros [id r] Hin%elem_of_map_to_list; by apply (Hf id)).
  induction (map_to_list rs) as [|kv l IH]; [done|]. rewrite sumZ_cons.
  assert (0 ≤ f kv.2) by (apply Hl; left). specialize (IH (λ kv' Hkv', Hl kv' (list_elem_of_further _ _ _ Hkv'))).
  destruct (decide _); lia.
Qed.

Lemma total_ext key f g rs : (∀ id r, rs !! id = Some r → f r = g r) → total key f rs = total key g rs.
Proof.
  intros Hfg. unfold total. apply sumZ_ext. intros [id r] Hin%elem_of_map_to_list. cbn.
  destruct (decide _); [by apply (Hfg id) | done].
Qed.

(** The requests of a window, reserved or settled. *)
Definition requests_in (key : string * Time) (t : Tables) : Z := total key (λ _, 1) (tb_reservations t).

Lemma requests_in_split key t :
  accounted t →
  0 ≤ total key (held Requests) (tb_reservations t) ∧ 0 ≤ total key (spent Requests) (tb_reservations t) ∧
  requests_in key t =
    total key (held Requests) (tb_reservations t) + total key (spent Requests) (tb_reservations t).
Proof.
  intros [Hrs _]. repeat split; [apply total_nonneg; intros id r Hr; by apply (Hrs id)..|].
  unfold requests_in. rewrite <-total_add. apply total_ext. intros id r Hr.
  destruct (Hrs id r Hr) as (_ & _ & ? & _). done.
Qed.

(** Admission under a policy that denies: in its window the requests, and the
    tokens and the cost settled and reserved, are within the limits. *)
Definition within_limits (p : TenantQuotaPolicy) (start : Time) (t : Tables) : Prop :=
  (∀ limit, qp_RequestLimit p = Some limit → requests_in (qp_ID p, start) t ≤ limit) ∧
  ∃ w, tb_windows t !! (qp_ID p, start) = Some w ∧
    ∀ d limit, d ≠ Requests → policy_limit d p = Some limit → w_settled d w + w_reserved d w ≤ limit.

Lemma requests_in_insert key t r :
  tb_reservations t !! qr_ID r = None →
  requests_in key (put_reservation r t) = requests_in key t + (if decide (r_key r = key) then 1 else 0).
Proof. intros Hn. unfold requests_in. cbn. rewrite total_insert, Hn. lia. Qed.

Context (ttl : Duration).

Lemma reserve_cost_spec p estimate (s : QuotaDecision * DB) :
  in_int64 estimate.1 →
  tx (reserve_cost p estimate) s (λ cost _ t, t = db_tables s.2 ∧ in_int64 cost).
Proof.
  intros Hest. destruct s as [d db]. unfold reserve_cost. destruct (qp_BudgetNanoUSD p); [|by apply (tx_ret 0)].
  destruct (negb estimate.2); [|by apply (tx_ret estimate.1)]. destruct (is_deny p); [done|].
  apply tx_captured_then. by apply (tx_ret 0).
Qed.

Lemma note_exceeded_spec p exceeded (s : QuotaDecision * DB) :
  tx (note_exceeded p exceeded) s (λ _ _ t, t = db_tables s.2 ∧ (is_deny p = true → exceeded = false)).
Proof.
  destruct s as [d db]. unfold note_exceeded. destruct exceeded; [|by apply (tx_ret tt)].
  apply tx_captured_then. destruct (is_deny p); [done|].
  case_match; [by apply tx_captured | by apply (tx_ret tt)].
Qed.

(** The window and the reservation that one policy adds. *)
Lemma admit_accounted t w p group start now totalTokens cost exceeded id tokens costs :
  accounted t → tb_windows t !! (qp_ID p, start) = Some w → tb_reservations t !! id = None →
  tokens = qw_TokensReserved w + totalTokens → costs = qw_CostReserved w + cost →
  in_int64 tokens → in_int64 costs →
  accounted (put_reservation (new_reservation ttl id group p start now totalTokens cost exceeded)
               (put_window (qw_reserve w tokens costs now) t)).
Proof.
  intros Hac Hw Hid -> -> Ht Hc. pose proof (proj1 (ac_windows _ Hac _ _ Hw)) as Hwk.
  apply (account_move _ w); [done | done | done | cbn; by rewrite Hid | unfold held, spent; cbn; lia |].
  intros d. cbn. rewrite Hid, Z.sub_0_r. destruct (counter_range _ _ w d Hac Hw) as [Hr Hs].
  unfold held, spent. cbn. rewrite Z.add_0_r, Hs.
  destruct d; cbn; rewrite ?wrap_int64_id by done; done.
Qed.

(** Within the limits before means within the limits after. *)
Lemma admit_within_limits t w p r w' totalTokens cost :
  let start := qr_WindowStart r in
  accounted t → tb_windows t !! (qp_ID p, start) = Some w → tb_reservations t !! qr_ID r = None →
  qr_PolicyID r = qp_ID p → w_key w' = (qp_ID p, start) →
  (∀ d, w_settled d w' = w_settled d w) → qw_TokensReserved w' = qw_TokensReserved w + totalTokens →
  qw_CostReserved w' = qw_CostReserved w + cost →
  in_int64 totalTokens → in_int64 cost → exceeds p w 1 totalTokens cost = false →
  requests_in (qp_ID p, start) t < int64_max →
  within_limits p start (put_reservation r (put_window w' t)).
Proof.
  intros start Hac Hw Hid Hrp Hwk Hset Htr Hcr Htok Hcost Hex Hsmall.
  assert (∀ d, in_int64 (w_reserved d w) ∧ in_int64 (w_settled d w)) as Hrange.
  { intros d. destruct (counter_range _ _ w d Hac Hw) as [<- <-]. split; apply wrap_int64_range. }
  unfold exceeds in Hex. rewrite !orb_false_iff in Hex. destruct Hex as [[HexR HexT] HexC]. split.
  - intros limit Hl. rewrite requests_in_insert by done.
    rewrite decide_True by (unfold r_key; by rewrite Hrp).
    rewrite Hl in HexR. apply exceedsLimit_exact in HexR; [|apply (Hrange Requests).. | done].
    destruct (requests_in_split (qp_ID p, start) _ Hac) as (Hh & Hsp & Hsum).
    destruct (ac_windows _ Hac _ _ Hw) as [_ Hcnt]. destruct (Hcnt Requests) as [Hc1 Hc2]. cbn in Hc1, Hc2.
    rewrite wrap_int64_id in Hc1, Hc2 by (unfold in_int64, int64_min; lia).
    unfold requests_in in *. cbn. lia.
  - exists w'. cbn. unfold w_key in Hwk. rewrite Hwk, lookup_insert_eq. split; [done|].
    intros d limit Hd Hl. destruct d; [done| |]; cbn in Hl.
    + rewrite Hl in HexT. apply exceedsLimit_exact in HexT; [|apply (Hrange Tokens).. | done].
      rewrite Hset. cbn. lia.
    + rewrite Hl in HexC. apply exceedsLimit_exact in HexC; [|apply (Hrange Cost).. | done].
      rewrite Hset. cbn. lia.
Qed.

(** What reserving under one policy has done. *)
Record policy_admitted (group : string) (totalTokens : Z) (now : Time) (p : TenantQuotaPolicy)
    (t t' : Tables) : Prop := {
  pa_accounted : accounted t';
  pa_policies : tb_policies t' = tb_policies t;
  pa_row : ∃ r, qr_GroupID r = group ∧ r_key r = (qp_ID p, periodStart now (qp_Period p)) ∧
    qr_State r = ReservationActive ∧ qr_TokensReserved r = totalTokens ∧
    tb_reservations t !! qr_ID r = None ∧ tb_reservations t' = <[qr_ID r := r]> (tb_reservations t);
  pa_others : ∀ key w, key ≠ (qp_ID p, periodStart now (qp_Period p)) →
    tb_windows t !! key = Some w → tb_windows t' !! key = Some w;
  pa_limits : is_deny p = true → requests_in (qp_ID p, periodStart now (qp_Period p)) t < int64_max →
    within_limits p (periodStart now (qp_Period p)) t';
}.

Lemma reserve_policy_spec group totalTokens estimate now uuid p (s : QuotaDecision * DB) :
  in_int64 totalTokens → in_int64 estimate.1 → accounted (db_tables s.2) →
  tx (reserve_policy ttl group totalTokens estimate now uuid p) s
    (λ _ _ t, policy_admitted group totalTokens now p (db_tables s.2) t).
Proof.
  intros Htok Hest Hac. destruct s as [d0 db0]. unfold reserve_policy. set (start := periodStart now (qp_Period p)).
  apply tx_captured_then. eapply tx_then; [by apply tx_lockWindow | cbn [fst snd] in *].
  intros w d db (Hac' & _ & Hw & Hwk & Hrs & Hps & Hkeep).
  eapply tx_then; [by apply reserve_cost_spec|]. cbn [fst snd]. intros cost d1 db1 [Ht1 Hcost].
  eapply tx_then; [apply note_exceeded_spec|]. cbn [fst snd]. intros [] d2 db2 [Ht2 Hex]. rewrite Ht1 in Ht2.
  assert (∀ d, in_int64 (w_reserved d w)) as Hrange.
  { intros dim. destruct (counter_range _ _ w dim Hac' Hw) as [<- _]. apply wrap_int64_range. }
  rewrite !add_exact by (done || apply (Hrange Tokens) || apply (Hrange Cost)).
  destruct (is_int64 (qw_TokensReserved w + totalTokens)) eqn:Hat; [|done].
  destruct (is_int64 (qw_CostReserved w + cost)) eqn:Hact; [|done].
  set (w' := qw_reserve w _ _ now). apply is_int64_spec in Hat, Hact.
  eapply (tx_then _ _ _ (λ _ _ t, t = put_window w' (db_tables db))).
  { apply tx_exec. cbn. intros db3 Hdb3. apply save_window_law in Hdb3. by rewrite Hdb3, Ht2. }
  intros [] d3 db3 Ht3. destruct (uuid (qp_ID p)) as [id|]; [|done].
  apply tx_exec. cbn [fst snd]. intros db4 [Hfresh ->]%create_reservation_law. rewrite Ht3 in *. cbn in Hfresh.
  split.
  - by apply (admit_accounted _ w).
  - done.
  - exists (new_reservation ttl id group p start now totalTokens cost (exceeds p w 1 totalTokens cost)).
    cbn. by rewrite <-Hrs.
  - intros key w1 Hne Hw1. cbn. unfold w_key in Hwk. rewrite ?Hwk, lookup_insert_ne by done. by apply Hkeep.
  - intros Hdeny Hsmall. apply (admit_within_limits (db_tables db) w p
      (new_reservation ttl id group p start now totalTokens cost (exceeds p w 1 totalTokens cost)) w'
      totalTokens cost); try done; cbn; auto.
    unfold requests_in in *. by rewrite Hrs.
Qed.

Definition p_key (now : Time) (p : TenantQuotaPolicy) : string * Time :=
  (qp_ID p, periodStart now (qp_Period p)).

(** Another policy's reservation does not touch this policy's window. *)
Lemma admitted_elsewhere group totalTokens now p q t t' :
  qp_ID p ≠ qp_ID q → policy_admitted group totalTokens now q t t' →
  requests_in (p_key now p) t' = requests_in (p_key now p) t ∧
  (within_limits p (periodStart now (qp_Period p)) t → within_limits p (periodStart now (qp_Period p)) t').
Proof.
  intros Hne [_ _ (r & _ & Hk & _ & _ & Hn & Hr) Ho _].
  assert (∀ key, key = p_key now p → requests_in key t' = requests_in key t) as Hreq.
  { intros key ->. unfold requests_in. rewrite Hr, total_insert, Hn, Hk, decide_False; [lia|].
    unfold p_key. by intros [= ? _]. }
  split; [by apply Hreq|]. intros [Hl (w & Hw & Hlim)]. split.
  - intros limit Hlimit. rewrite Hreq by done. by apply Hl.
  - exists w. split; [|done]. apply Ho; [|done]. by intros [= ? _].
Qed.

(** What is left to do and what has been done in the loop over the policies. *)
Record reserving (group : string) (totalTokens : Z) (now : Time) (t0 : Tables)
    (ps todo : list TenantQuotaPolicy) (t : Tables) : Prop := {
  rv_suffix : ∃ done_, ps = done_ ++ todo;
  rv_accounted : accounted t;
  rv_policies : tb_policies t = tb_policies t0;
  rv_rows : ∀ id r, tb_reservations t !! id = Some r →
    tb_reservations t0 !! id = Some r ∨ qr_GroupID r = group ∧ qr_State r = ReservationActive;
  rv_todo : ∀ p, p ∈ todo → requests_in (p_key now p) t = requests_in (p_key now p) t0;
  rv_done : ∀ p, p ∈ ps → p ∉ todo →
    (∃ id r, tb_reservations t !! id = Some r ∧ qr_GroupID r = group ∧ r_key r = p_key now p ∧
       qr_TokensReserved r = totalTokens) ∧
    (is_deny p = true → requests_in (p_key now p) t0 < int64_max →
       within_limits p (periodStart now (qp_Period p)) t);
}.

Lemma reserving_step group totalTokens now t0 ps q todo t t' :
  NoDup (map qp_ID ps) → reserving group totalTokens now t0 ps (q :: todo) t →
  policy_admitted group totalTokens now q t t' → reserving group totalTokens now t0 ps todo t'.
Proof.
  intros Hnd [[pre ->] Hac Hps Hrows Htodo Hdone] Hadm.
  assert (∀ p, p ∈ pre ++ q :: todo → p ≠ q → qp_ID p ≠ qp_ID q) as Hids.
  { intros p Hp Hne Heq. apply Hne. apply list_elem_of_lookup_1 in Hp as [i Hi].
    assert ((pre ++ q :: todo) !! length pre = Some q) as Hj by by apply list_lookup_middle.
    assert (i = length pre) as ->; [|by simplify_eq]. eapply NoDup_lookup; [exact Hnd| |].
    - by rewrite list_lookup_fmap, Hi.
    - rewrite list_lookup_fmap, Hj. cbn. by rewrite Heq. }
  assert (q ∉ todo) as Hq.
  { rewrite map_app in Hnd. apply NoDup_app in Hnd as (_ & _ & [Hq _]%NoDup_cons). intros Hin. apply Hq.
    apply list_elem_of_In, in_map. by apply list_elem_of_In. }
  pose proof Hadm as [Hac' Hps' (r & Hrg & Hrk & Hrs & Hrt & Hrn & Hr) _ Hlim]. split.
  - exists (pre ++ [q]). by rewrite <-app_assoc.
  - done.
  - by rewrite Hps'.
  - intros id r'. rewrite Hr. intros [[<- <-]|[_ Hr']]%lookup_insert_Some; [by right | by apply Hrows].
  - intros p Hp. rewrite <-Htodo by by right. eapply admitted_elsewhere; [|done].
    apply Hids; [set_solver | by intros ->].
  - intros p Hp Hnt. destruct (decide (p = q)) as [->|Hne].
    + split; [exists (qr_ID r), r; rewrite Hr; by rewrite lookup_insert_eq|].
      intros Hd Hs. apply Hlim; [done|]. fold (p_key now q). rewrite Htodo; [done | left].
    + destruct (Hdone p) as [(id & r' & Hr' & ?) Hw]; [done | by intros [?|?]%elem_of_cons|].
      destruct (admitted_elsewhere _ _ _ p q t t' (Hids p Hp Hne) Hadm) as [_ Hkeep].
      split; [|by eauto]. exists id, r'. split; [|done]. rewrite Hr, lookup_insert_ne; [done|]. congruence.
Qed.

(** What a reservation for a group that has none leaves behind. *)
Definition reserved_tables (input : ReserveInput) (totalTokens : Z) (now : Time) (t t' : Tables) : Prop :=
  accounted t' ∧ tb_policies t' = tb_policies t ∧
  ∀ p, tb_policies t !! qp_ID p = Some p → qp_TenantID p = ri_TenantID input → qp_Enabled p = true →
    (qp_GatewayModel p = "*"%string ∨ qp_GatewayModel p = ri_GatewayModel input) →
    (∃ id r, tb_reservations t' !! id = Some r ∧ qr_GroupID r = ri_GroupID input ∧
       r_key r = p_key now p ∧ qr_TokensReserved r = totalTokens) ∧
    (is_deny p = true → requests_in (p_key now p) t < int64_max →
       within_limits p (periodStart now (qp_Period p)) t').

Lemma reserve_body_spec input totalTokens estimate now uuid d (db : DB) :
  in_int64 totalTokens → in_int64 estimate.1 → accounted (db_tables db) →
  tx (reserve_body ttl input totalTokens estimate now uuid) (d, db) (λ _ _ t,
    accounted t ∧ tb_policies t = tb_policies (db_tables db) ∧
    ((∃ id r, tb_reservations (db_tables db) !! id = Some r ∧ qr_GroupID r = ri_GroupID input) →
       t = db_tables db) ∧
    ((∀ id r, tb_reservations (db_tables db) !! id = Some r → qr_GroupID r ≠ ri_GroupID input) →
       reserved_tables input totalTokens now (db_tables db) t)).
Proof.
  intros Htok Hest Hac. unfold reserve_body. apply tx_bind. intros n s1 Hq. unfold query in Hq. cbn in Hq.
  destruct (db_count_group _ _) as [n'|] eqn:Hn; [|done]. injection Hq as -> <-.
  apply count_group_law in Hn as [Hn Hn0]. destruct (Z.ltb_spec 0 n).
  { apply (tx_ret tt (d, db)). cbn. split; [done|]. split; [done|]. split; [done|].
    intros Hno. apply Hn in Hno. lia. }
  apply tx_bind. intros ps s2 Hq. unfold query in Hq. cbn in Hq.
  destruct (db_matching_policies _ _ _) as [ps'|] eqn:Hps; [|done]. injection Hq as -> <-.
  apply matching_law in Hps as [Hnd Hin]. set (t0 := db_tables db) in *.
  eapply tx_mono; [apply (tx_for_each _ (λ todo _ t, reserving (ri_GroupID input) totalTokens now t0 ps todo t))|].
  - cbn. fold t0. split; [by exists [] | done | done | intros id r Hr; by left | done | by intros p Hp Hnp].
  - intros q todo d1 db1 Hr. eapply tx_mono; [by apply reserve_policy_spec; [..|apply Hr]|].
    cbn. intros [] d' t' Hadm. by eapply reserving_step.
  - cbn. intros _ _ t [_ Hac' Hp' _ _ Hdone]. split; [done|]. split; [done|]. split.
    { intros (id & r & Hr & Hg). exfalso. assert (n = 0) as Hz by lia. by apply (proj1 Hn Hz id r). }
    intros _. split; [done|]. split; [done|]. intros p Hp Ht He Hm. apply Hdone; [|by intros ?%elem_of_nil].
    by apply Hin.
Qed.
End operations.

(** ** The quoter's promise

    A catalogue's quotation of usage without a reported cost fits in 64 bits. *)

Class QuoterLaws `{Quoter} := quoter_total event s :
  (∀ u, e_Usage event = Some u → tu_ReportedCost u = None) →
  cr_Snapshot (quote_event event) = Some s → in_int64 (cs_TotalNanoUSD s).

Definition catalog_quoter (catalog : option (gmap (string * string) (list priceEntry))) : Quoter :=
  Quote catalog.

#[export] Instance catalog_quoter_laws catalog : @QuoterLaws (catalog_quoter catalog).
Proof.
  intros event s Hrep. unfold quote_event, catalog_quoter, Quote. destruct (_ =? StatusCacheHit)%string.
  { intros [= <-]. by vm_compute. }
  destruct (e_Usage event) as [u|]; [|done]. rewrite (Hrep u) by done.
  destruct (catalog_lookup _ _ _ _ _); [|done].
  destruct (quoteInput _ _), (quoteOutput _ _). destruct (_ || _); [done|]. unfold safeAdd.
  destruct (is_int64 _) eqn:Hi; [|done]. intros [= <-]. by apply is_int64_spec.
Qed.

Lemma estimateCost_range `{QuoterLaws} input now : in_int64 (estimateCost input now).1.
Proof.
  unfold estimateCost. set (known := bool_decide _). clearbody known.
  assert (in_int64 0) as H0' by (by vm_compute). revert H0'. generalize 0 as maximum. revert known.
  induction (plan_Candidates (ri_Plan input)) as [|c cs IH]; intros known maximum Hm; [done|]. cbn [foldl].
  destruct (cr_Snapshot _) as [s|] eqn:Hs; [|by apply IH]. apply IH. destruct (_ <? _); [|done].
  eapply quoter_total; [|exact Hs]. by intros u [= <-].
Qed.

Lemma add_range l r t : add l r = Some t → in_int64 t.
Proof. unfold add. do 2 (destruct (_ && _); [done|]). intros [= <-]. apply wrap_int64_range. Qed.

(** ** Theorems *)

Inductive QuotaOp :=
| OpReserve (index : option policyIndex) (input : ReserveInput) (now : Time) (uuid : string → option string)
| OpSettle (group : string) (event : UsageEvent) (now : Time)
| OpReap (limit : Z) (now : Time).

Section theorems.
Context {DB : Type} `{QuotaDBLaws DB, QuoterLaws} (ttl : Duration).

Definition run_quota (db : DB) (op : QuotaOp) : DB :=
  match op with
  | OpReserve index input now uuid => (Reserve ttl index input now uuid db).2
  | OpSettle group event now => (Settle group event now db).2
  | OpReap limit now => (ReapExpired limit now db).2
  end.

Lemma Reserve_spec index input now uuid db :
  accounted (db_tables db) →
  let '(r, _, db') := Reserve ttl index input now uuid db in
  let input := ri_trim input in
  match r with
  | Err _ => db' = db
  | Ok _ =>
      HasPolicy index (ri_TenantID input) (ri_GatewayModel input) = false ∧ db' = db ∨
      accounted (db_tables db') ∧
      ((∃ id r, tb_reservations (db_tables db) !! id = Some r ∧ qr_GroupID r = ri_GroupID input) →
         db_tables db' = db_tables db) ∧
      ((∀ id r, tb_reservations (db_tables db) !! id = Some r → qr_GroupID r ≠ ri_GroupID input) →
         ∃ total, add (ri_EstimatedInputTokens input) (ri_EstimatedOutputTokens input) = Some total ∧
           reserved_tables input total now (db_tables db) (db_tables db'))
  end.
Proof.
  intros Hac. unfold Reserve. set (input' := ri_trim input). cbn zeta.
  destruct (_ || _) eqn:Hin; [done|].
  destruct (HasPolicy _ _ _) eqn:Hhas; cbn [negb]; [|by left]. destruct (add _ _) as [total|] eqn:Hadd; [|done].
  set (d := {| qd_ReservationID := _ |}).
  pose proof (tx_transaction _ d db _ (reserve_body_spec ttl input' total (estimateCost input' now) now uuid d db
    (add_range _ _ _ Hadd) (estimateCost_range input' now) Hac)) as Ht.
  destruct (transaction _ d db) as [[[[]|e] d'] db']; [|done]. right.
  destruct Ht as (Hac' & _ & Hold & Hnew). split; [done|]. split; [done|]. intros Hfresh.
  exists total. split; [done | by apply Hnew].
Qed.

Lemma Settle_spec group event now db :
  accounted (db_tables db) →
  let '(r, db') := Settle group event now db in
  match r with
  | Err _ => db' = db
  | Ok _ => TrimSpace group = ""%string ∧ db' = db ∨
      settled_tables (TrimSpace group) event now (db_tables db) (db_tables db')
  end.
Proof.
  intros Hac. unfold Settle. destruct (String.eqb_spec (TrimSpace group) ""); [by left|].
  pose proof (tx_transaction _ tt db _ (settle_body_spec (TrimSpace group) event now db Hac)) as Ht.
  destruct (transaction _ tt db) as [[[[]|e] d'] db']; [by right | done].
Qed.

Lemma ReapExpired_spec limit now db :
  accounted (db_tables db) →
  let '(r, n, db') := ReapExpired limit now db in
  match r with
  | Err _ => db' = db
  | Ok _ => 0 ≤ n ≤ 1000 ∧ reaped_tables now (db_tables db) (db_tables db')
  end.
Proof.
  intros Hac. unfold ReapExpired. set (limit' := if _ || _ then _ else _).
  assert (0 ≤ limit' ≤ 1000) as [Hl0 Hl].
  { subst limit'. destruct (Z.leb_spec limit 0), (Z.ltb_spec 1000 limit); cbn; lia. }
  pose proof (tx_transaction _ 0 db _ (reap_body_spec limit' now db Hl0 Hac)) as Ht.
  destruct (transaction _ 0 db) as [[[[]|e] d'] db']; [|done]. destruct Ht. split; [lia | done].
Qed.

Lemma run_quota_accounted db op : accounted (db_tables db) → accounted (db_tables (run_quota db op)).
Proof.
  intros Hac. destruct op as [index input now uuid|group event now|limit now]; cbn.
  - pose proof (Reserve_spec index input now uuid db Hac) as Hr.
    destruct (Reserve _ _ _ _ _ _) as [[[[]|e] d] db']; cbn in *; [|by subst].
    destruct Hr as [[_ ->]|[? _]]; done.
  - pose proof (Settle_spec group event now db Hac) as Hr.
    destruct (Settle _ _ _ _) as [[[]|e] db']; cbn in *; [|by subst]. destruct Hr as [[_ ->]|[]]; done.
  - pose proof (ReapExpired_spec limit now db Hac) as Hr.
    destruct (ReapExpired _ _ _) as [[[[]|e] n] db']; cbn in *; [|by subst]. by destruct Hr as [_ []].
Qed.

(** C29: the accounts always balance. After any sequence of reservations, settlements
    and reapings, whichever statements of the database fail and wherever in a
    transaction, the reserved and the settled requests, tokens and cost of every
    window are exactly the sums over its reservations: an active one counts as
    reserved, a settled one with its actual amounts, an expired one with its
    estimate. Nothing is lost or counted twice. *)
Theorem quota_accounting db ops :
  accounted (db_tables db) → accounted (db_tables (foldl run_quota db ops)).
Proof.
  revert db. induction ops as [|op ops IH]; [done|]. intros db Hac. cbn. by apply IH, run_quota_accounted.
Qed.

(** A quota that denies is enforced. When a reservation for a new group
    succeeds, every enabled policy for the tenant and the model has reserved the
    request's tokens in the window of the instant, and for every policy that
    denies, that window holds at most as many requests as the limit, counting
    those settled and those still running, and its settled and reserved tokens
    and cost are within their limits. *)
Theorem quota_denies index input now uuid db d db' :
  accounted (db_tables db) → Reserve ttl index input now uuid db = (Ok tt, d, db') →
  let i := ri_trim input in
  HasPolicy index (ri_TenantID i) (ri_GatewayModel i) = true →
  (∀ id r, tb_reservations (db_tables db) !! id = Some r → qr_GroupID r ≠ ri_GroupID i) →
  ∀ p, tb_policies (db_tables db) !! qp_ID p = Some p → qp_TenantID p = ri_TenantID i →
    qp_Enabled p = true → (qp_GatewayModel p = "*"%string ∨ qp_GatewayModel p = ri_GatewayModel i) →
  (∃ id r, tb_reservations (db_tables db') !! id = Some r ∧ qr_GroupID r = ri_GroupID i ∧
     r_key r = p_key now p) ∧
  (is_deny p = true → requests_in (p_key now p) (db_tables db) < int64_max →
     within_limits p (periodStart now (qp_Period p)) (db_tables db')).
Proof.
  intros Hac Hres i Hhas Hfresh p Hp Ht He Hm. pose proof (Reserve_spec index input now uuid db Hac) as Hr.
  rewrite Hres in Hr. cbn zeta in Hr. fold i in Hr. destruct Hr as [[Hno _]|(_ & _ & Hnew)]; [congruence|].
  destruct (Hnew Hfresh) as (total & _ & _ & _ & Hall). destruct (Hall p Hp Ht He Hm) as [(id & r & ? & ? & ? & _) ?].
  split; [by exists id, r | done].
Qed.

(** Settlement is exact and happens once. A settlement that succeeds gives every
    reservation of the group that was not settled its actual amounts, whether it
    was still active or already reaped, and leaves all others alone; settling the
    group again, with whatever event, changes no reservation and no counter; one
    that fails changes nothing. *)
Theorem settle_exactly_once group event now db r db' :
  accounted (db_tables db) → TrimSpace group ≠ ""%string → Settle group event now db = (r, db') →
  match r with
  | Err _ => db' = db
  | Ok _ =>
      settled_tables (TrimSpace group) event now (db_tables db) (db_tables db') ∧
      ∀ event' now' db'', Settle group event' now' db' = (Ok tt, db'') →
        tb_reservations (db_tables db'') = tb_reservations (db_tables db') ∧
        ∀ key w w'', tb_windows (db_tables db') !! key = Some w →
          tb_windows (db_tables db'') !! key = Some w'' →
          ∀ d, w_settled d w'' = w_settled d w ∧ w_reserved d w'' = w_reserved d w
  end.
Proof.
  intros Hac Hg Hs. pose proof (Settle_spec group event now db Hac) as Hspec. rewrite Hs in Hspec.
  destruct r as [[]|e]; [|done]. destruct Hspec as [[? _]|Hst]; [done|]. split; [done|].
  intros event' now' db'' Hs'. pose proof Hst as [Hac' _ Hrows].
  pose proof (Settle_spec group event' now' db' Hac') as Hspec. rewrite Hs' in Hspec.
  destruct Hspec as [[? _]|[Hac'' _ Hrows']]; [done|].
  assert (tb_reservations (db_tables db'') = tb_reservations (db_tables db')) as Heq.
  { apply map_eq. intros id. rewrite Hrows', Hrows. destruct (tb_reservations (db_tables db) !! id) as [q|]; [|done].
    cbn. f_equal. destruct (decide (qr_GroupID q = TrimSpace group)) as [Hq|Hq].
    - by rewrite (bool_decide_true _ Hq), settled_row_group, (bool_decide_true _ Hq), settled_row_twice.
    - by rewrite !(bool_decide_false _ Hq). }
  split; [done|]. intros key w w'' Hw Hw'' d. destruct (ac_windows _ Hac' _ _ Hw) as [_ Hd].
  destruct (ac_windows _ Hac'' _ _ Hw'') as [_ Hd'']. destruct (Hd d) as [-> ->], (Hd'' d) as [-> ->].
  by rewrite Heq.
Qed.
End theorems.

(** ** Concrete instances

    The tables themselves as a database whose statements never fail. *)

Section rows.
Context {A : Type} (id : A → string) (P : A → Prop) `{∀ a, Decision (P a)}.

(** The rows filed under their own key that satisfy [P]. *)
Definition rows (m : gmap string A) : list A :=
  map snd (filter (λ kv : string * A, id kv.2 = kv.1 ∧ P kv.2) (map_to_list m)).

Lemma rows_elem m a : a ∈ rows m ↔ m !! id a = Some a ∧ P a.
Proof.
  unfold rows. rewrite list_elem_of_In, in_map_iff. split.
  - intros ([k b] & <- & Hin). apply list_elem_of_In, list_elem_of_filter in Hin as [[Hk Hp] Hin].
    cbn in *. apply elem_of_map_to_list in Hin. by rewrite Hk.
  - intros [Hm Hp]. exists (id a, a). split; [done|]. apply list_elem_of_In, list_elem_of_filter.
    split; [done|]. by apply elem_of_map_to_list.
Qed.

Lemma rows_NoDup m : NoDup (map id (rows m)).
Proof.
  unfold rows. pose proof (NoDup_fst_map_to_list m) as Hnd.
  assert (∀ l : list (string * A), NoDup (l.*1) →
    NoDup (map id (map snd (filter (λ kv : string * A, id kv.2 = kv.1 ∧ P kv.2) l)))) as Hl; [|by apply Hl].
  induction l as [|[k a] l IH]; [constructor|]. intros [Hk Hl]%NoDup_cons.
  destruct (decide (id a = k ∧ P a)) as [[Hid Hp]|Hno].
  - rewrite filter_cons_True by done. cbn. apply NoDup_cons. split; [|by apply IH].
    intros Hin. apply Hk. apply list_elem_of_In, in_map_iff in Hin as (b & Hb & Hin).
    apply in_map_iff in Hin as ([k' b'] & <- & Hin).
    apply list_elem_of_In, list_elem_of_filter in Hin as [[Hk' _] Hin]. cbn in *.
    apply list_elem_of_fmap. exists (k', b'). cbn. split; [congruence | done].
  - rewrite filter_cons_False by done. by apply IH.
Qed.
End rows.

Definition matches_policy (tenant model : string) (p : TenantQuotaPolicy) : Prop :=
  qp_TenantID p = tenant ∧ qp_Enabled p = true ∧ (qp_GatewayModel p = "*"%string ∨ qp_GatewayModel p = model).
#[export] Instance matches_policy_dec t m p : Decision (matches_policy t m p).
Proof. unfold matches_policy. apply _. Defined.

Definition is_expired (now : Time) (r : QuotaReservation) : Prop :=
  qr_State r = ReservationActive ∧ qr_ExpiresAt r ≤ now.
#[export] Instance is_expired_dec now r : Decision (is_expired now r).
Proof. unfold is_expired. apply _. Defined.

#[export] Instance tables_db : QuotaDB Tables :=
  {| db_tables := λ t, t;
     db_count_group := λ t g,
       Some (Z.of_nat (length (filter (λ kv : string * QuotaReservation, qr_GroupID kv.2 = g)
                                 (map_to_list (tb_reservations t)))));
     db_matching_policies := λ t tenant model,
       Some (rows qp_ID (matches_policy tenant model) (tb_policies t));
     db_seed_window := λ w t,
       Some (match tb_windows t !! w_key w with Some _ => t | None => put_window w t end);
     db_lock_window := λ t p start,
       match tb_windows t !! (p, start) with
       | Some w => if decide (w_key w = (p, start)) then Some w else None
       | None => None
       end;
     db_save_window := λ w t, Some (put_window w t);
     db_create_reservation := λ r t,
       match tb_reservations t !! qr_ID r with Some _ => None | None => Some (put_reservation r t) end;
     db_save_reservation := λ r t, Some (put_reservation r t);
     db_group := λ t g, Some (rows qr_ID (λ r, qr_GroupID r = g) (tb_reservations t));
     db_expired := λ t now limit,
       Some (take (Z.to_nat limit) (rows qr_ID (is_expired now) (tb_reservations t))) |}.

Lemma tables_count_law t g :
  Z.of_nat (length (filter (λ kv : string * QuotaReservation, qr_GroupID kv.2 = g)
                      (map_to_list (tb_reservations t)))) = 0 ↔
  ∀ id r, tb_reservations t !! id = Some r → qr_GroupID r ≠ g.
Proof.
  split.
  - intros Hz id r Hr Hg.
    assert ((id, r) ∈ filter (λ kv : string * QuotaReservation, qr_GroupID kv.2 = g)
      (map_to_list (tb_reservations t))) as Hin
      by (apply list_elem_of_filter; split; [done | by apply elem_of_map_to_list]).
    destruct (filter _ _); [by apply elem_of_nil in Hin | cbn in Hz; lia].
  - intros Hno. rewrite filter_none; [done|]. intros [id r] Hin%elem_of_map_to_list. by apply (Hno id).
Qed.

#[export] Instance tables_db_laws : QuotaDBLaws Tables.
Proof.
  split; cbn.
  - intros t g n [= <-]. split; [apply tables_count_law | lia].
  - intros t tenant model ps [= <-]. split; [apply rows_NoDup|]. intros p. by rewrite rows_elem.
  - intros w t t' [= <-]. done.
  - intros t p start w Hw. destruct (tb_windows t !! _) as [w'|]; [|done].
    destruct (decide _) as [Hk|]; [|done]. injection Hw as <-. unfold w_key in Hk. by injection Hk as -> ->.
  - by intros w t t' [= <-].
  - intros r t t' Hr. destruct (tb_reservations t !! _); [done|]. by injection Hr as <-.
  - by intros r t t' [= <-].
  - intros t g rs [= <-]. split; [apply rows_NoDup|]. intros r. by rewrite rows_elem.
  - intros t now limit rs [= <-] Hl. set (all := rows _ _ _).
    assert (∀ r, r ∈ take (Z.to_nat limit) all → r ∈ all) as Hin.
    { intros r (i & Hi & _)%elem_of_take. by eapply list_elem_of_lookup_2. }
    split; [|split].
    + rewrite <-firstn_map. apply (sublist_NoDup _ (map qr_ID all)); [apply rows_NoDup | apply sublist_take].
    + rewrite length_take. lia.
    + intros r Hr. apply Hin, rows_elem in Hr as [? [? ?]]. done.
Qed.

(** A policy of two requests a minute, and two requests. *)
Definition demo_tables : Tables :=
  {| tb_policies := {[ "1"%string := demo_policy "1" "t" "fast" true ]}; tb_windows := ∅;
     tb_reservations := ∅ |}.

Lemma demo_tables_accounted : accounted demo_tables.
Proof. by split. Qed.

Definition demo_quoter : Quoter := catalog_quoter None.

Definition demo_index : policyIndex := Replace [demo_policy "1" "t" "fast" true].

Definition demo_reserve (group : string) : ReserveInput :=
  {| ri_GroupID := group; ri_TenantID := " t"; ri_GatewayModel := "fast"; ri_EstimatedInputTokens := 5;
     ri_EstimatedOutputTokens := 10; ri_Plan := {| plan_RequestedModel := "fast"; plan_Candidates := [] |} |}.

Definition demo_reserve_in (group : string) (t : Tables) :=
  @Reserve Tables tables_db demo_quoter minute (Some demo_index) (demo_reserve group) (90 * second)
    (λ p, Some (group ++ p)%string) t.

Definition demo_reserved : Tables := Eval vm_compute in (demo_reserve_in "g" demo_tables).2.

Lemma demo_reserve_ok :
  demo_reserve_in "g" demo_tables =
  (Ok tt, {| qd_ReservationID := "g"; qd_Exceeded := false; qd_Alerts := []; qd_AppliedPolicies := 1 |},
   demo_reserved).
Proof. vm_compute. reflexivity. Qed.

(** The third request of the minute is refused. *)
Example demo_third_refused :
  fst (fst (demo_reserve_in "k" (demo_reserve_in "h" demo_reserved).2)) = Err ErrExceeded.
Proof. vm_compute. reflexivity. Qed.

Definition demo_quota_ops : list QuotaOp :=
  [OpReserve (Some demo_index) (demo_reserve "g") (90 * second) (λ p, Some ("g" ++ p)%string);
   OpReap 10 (1000 * second); OpSettle "g" demo_priced (1001 * second)].

Lemma quota_accounting_witness :
  accounted (foldl (@run_quota Tables tables_db demo_quoter minute) demo_tables demo_quota_ops).
Proof.
  exact (@quota_accounting Tables tables_db tables_db_laws demo_quoter (catalog_quoter_laws None) minute
    demo_tables demo_quota_ops demo_tables_accounted).
Defined.

Lemma quota_denies_witness :
  within_limits (demo_policy "1" "t" "fast" true) (60 * second) demo_reserved.
Proof.
  exact (proj2 (@quota_denies Tables tables_db tables_db_laws demo_quoter (catalog_quoter_laws None) minute
    (Some demo_index) (demo_reserve "g") (90 * second) (λ p, Some ("g" ++ p)%string) demo_tables _
    demo_reserved demo_tables_accounted demo_reserve_ok eq_refl ltac:(done)
    (demo_policy "1" "t" "fast" true) eq_refl eq_refl eq_refl (or_intror eq_refl)) eq_refl eq_refl).
Defined.

Definition demo_settled : Tables := Eval vm_compute in
  (@Settle Tables tables_db demo_quoter "g" demo_priced (95 * second) demo_reserved).2.

Lemma demo_reserved_accounted : accounted demo_reserved.
Proof.
  pose proof (@run_quota_accounted Tables tables_db tables_db_laws demo_quoter (catalog_quoter_laws None) minute
    demo_tables (OpReserve (Some demo_index) (demo_reserve "g") (90 * second) (λ p, Some ("g" ++ p)%string))
    demo_tables_accounted) as Hac.
  change (accounted (demo_reserve_in "g" demo_tables).2) in Hac. by rewrite demo_reserve_ok in Hac.
Qed.

Lemma demo_settle_ok :
  @Settle Tables tables_db demo_quoter "g" demo_priced (95 * second) demo_reserved = (Ok tt, demo_settled).
Proof. vm_compute. reflexivity. Qed.

Lemma settle_exactly_once_witness :
  @settled_tables demo_quoter "g" demo_priced (95 * second) demo_reserved demo_settled.
Proof.
  exact (proj1 (@settle_exactly_once Tables tables_db tables_db_laws demo_quoter
    "g" demo_priced (95 * second) demo_reserved (Ok tt) demo_settled demo_reserved_accounted
    ltac:(discriminate) demo_settle_ok)).
Defined.
