(* ===== verification/Token.v ===== *)
(** * API key tokens

    Models [src/internal/apikey/token.go]: a token is
    [mvl_<locator>_<secret>], where locator and secret are the base64 of 12 and
    32 random bytes. The randomness ([crypto/rand]) is an argument, [None] its
    failure. *)

From S2P Require Import Prelude Encoding.

(** ** Data *)

Definition tokenNamespace : string := "mvl".
Definition locatorByteCount : Z := 12.
Definition secretByteCount : Z := 32.
Definition hashVersion : Z := 1.

Inductive TokenError := ErrInvalidToken | TokenFailed (message : string).

Record generatedToken := {
  gt_plaintext : string;
  gt_prefix : string;
  gt_lookupDigest : string;
  gt_keyHash : string;
  gt_hashVersion : Z;
}.

Record parsedToken := { pt_prefix : string; pt_secret : string }.

(** ** Operations *)

Definition digestPrefix (prefix : string) : string := Sum256 prefix.
Definition hashSecret (secret pepper : string) : string := hmac_sha256 pepper secret.

Definition randomText (random : option string) : option string := EncodeToString <$> random.

Definition generateToken (pepper : string) (random1 random2 : option string) :
    result TokenError generatedToken :=
  match randomText random1 with
  | None => Err (TokenFailed "generate API key locator")
  | Some locator =>
      match randomText random2 with
      | None => Err (TokenFailed "generate API key secret")
      | Some secret =>
          let prefix := (tokenNamespace ++ "_" ++ locator)%string in
          Ok {| gt_plaintext := (prefix ++ "_" ++ secret)%string; gt_prefix := prefix;
                gt_lookupDigest := digestPrefix prefix; gt_keyHash := hashSecret secret pepper;
                gt_hashVersion := hashVersion |}
      end
  end.

Definition validEncodedSize (value : string) (byteCount : Z) : bool :=
  match DecodeString value with
  | Some decoded => str_len decoded =? byteCount
  | None => false
  end.

(** [s[from:to]] for indices within the string. *)
Definition slice (s : string) (from to : Z) : string :=
  String.substring (Z.to_nat from) (Z.to_nat (to - from)) s.

Definition parseToken (value : string) : result TokenError parsedToken :=
  let namespace := (tokenNamespace ++ "_")%string in
  let locatorLength := EncodedLen locatorByteCount in
  let secretLength := EncodedLen secretByteCount in
  let wantLength := str_len namespace + locatorLength + 1 + secretLength in
  if negb (str_len value =? wantLength) || negb (HasPrefix value namespace) then Err ErrInvalidToken
  else
    let separator := str_len namespace + locatorLength in
    if negb (bool_decide (String.get (Z.to_nat separator) value = Some "_"%char)) then Err ErrInvalidToken
    else
      let locator := slice value (str_len namespace) separator in
      let secret := slice value (separator + 1) (str_len value) in
      if negb (validEncodedSize locator locatorByteCount) || negb (validEncodedSize secret secretByteCount)
      then Err ErrInvalidToken
      else Ok {| pt_prefix := (namespace ++ locator)%string; pt_secret := secret |}.

Definition verifyToken (token : parsedToken) (expectedHash : string) (version : Z) (pepper : string) : bool :=
  if negb (version =? hashVersion) || negb (str_len expectedHash =? 32) then false
  else bool_decide (hashSecret (pt_secret token) pepper = expectedHash).

(** ** Slices *)

Lemma String_length_app a b : String.length (a ++ b) = (String.length a + String.length b)%nat.
Proof. induction a as [|c a IH]; [done | exact (f_equal S IH)]. Qed.

Lemma string_app_nil a : (a ++ "")%string = a.
Proof. induction a as [|c a IH]; [done | exact (f_equal (String c) IH)]. Qed.

Lemma string_app_inj a b c : (a ++ b = a ++ c)%string → b = c.
Proof. induction a as [|x a IH]; [done|]. intros Heq. apply IH. change (String x (a ++ b) = String x (a ++ c)) in Heq. congruence. Qed.

Lemma str_len_app a b : str_len (a ++ b)%string = str_len a + str_len b.
Proof. unfold str_len. rewrite String_length_app. lia. Qed.

Lemma string_app_assoc (a b c : string) : ((a ++ b) ++ c = a ++ (b ++ c))%string.
Proof. induction a as [|x a IH]; [done | exact (f_equal (String x) IH)]. Qed.

Lemma prefix_spec p s : HasPrefix s p = true ↔ ∃ r, s = (p ++ r)%string.
Proof.
  unfold HasPrefix. revert s. induction p as [|c p IH]; intros s.
  { split; [intros _; exists s; reflexivity | by destruct s]. }
  destruct s as [|d s]; [split; [done | intros [? [=]]]|].
  cbn. destruct (Ascii.ascii_dec c d) as [->|Hne]; [|split; [done | intros [? [=]]; congruence]].
  rewrite IH. split; intros [r Hr]; exists r; [by rewrite Hr | exact (f_equal (λ s, match s with String _ s => s | "" => "" end)%string Hr)].
Qed.

Lemma substring_skip a b n m :
  n = String.length a → String.substring n m (a ++ b) = String.substring 0 m b.
Proof. intros ->. induction a as [|c a IH]; [done | apply IH]. Qed.

Lemma substring_all b c m : m = String.length b → String.substring 0 m (b ++ c) = b.
Proof. intros ->. induction b as [|x b IH]; [by destruct c | exact (f_equal (String x) IH)]. Qed.

(** The middle of three parts. *)
Lemma slice_app a b c from to :
  from = str_len a → to = str_len a + str_len b → slice (a ++ b ++ c) from to = b.
Proof.
  intros -> ->. unfold slice, str_len. rewrite (substring_skip a) by lia. apply substring_all. lia.
Qed.

Lemma get_app a c b n : n = String.length a → String.get n (a ++ String c b) = Some c.
Proof. intros ->. induction a as [|x a IH]; [done | apply IH]. Qed.

(** A string of known length splits at any place within it. *)
Lemma string_split s n : (n ≤ String.length s)%nat → ∃ a b, s = (a ++ b)%string ∧ String.length a = n.
Proof.
  revert n. induction s as [|c s IH]; intros n Hn; cbn in Hn.
  - exists ""%string, ""%string. cbn. split; [done | lia].
  - destruct n as [|n]; [by exists ""%string, (String c s)|].
    destruct (IH n) as (a & b & -> & <-); [lia|]. by exists (String c a), b.
Qed.

(** ** The tokens *)

(** On the parts in their places, parsing checks the separator and the parts. *)
Lemma parseToken_parts locator c secret :
  str_len locator = 16 → str_len secret = 43 →
  parseToken ("mvl_" ++ locator ++ String c secret) =
    if bool_decide (c = "_"%char) && validEncodedSize locator 12 && validEncodedSize secret 32
    then Ok {| pt_prefix := "mvl_" ++ locator; pt_secret := secret |} else Err ErrInvalidToken.
Proof.
  intros Hl Hs. set (value := ("mvl_" ++ locator ++ String c secret)%string).
  assert (str_len value = 64) as Hlen.
  { unfold value. rewrite !str_len_app. change (String c secret) with (String c "" ++ secret)%string.
    rewrite str_len_app, Hl, Hs. done. }
  unfold parseToken. change (str_len (tokenNamespace ++ "_")) with 4.
  change (EncodedLen locatorByteCount) with 16. change (EncodedLen secretByteCount) with 43.
  change (tokenNamespace ++ "_")%string with "mvl_"%string. cbn zeta.
  change locatorByteCount with 12. change secretByteCount with 32.
  rewrite Hlen. replace (HasPrefix value "mvl_") with true
    by (symmetry; apply prefix_spec; by exists (locator ++ String c secret)%string).
  assert (String.get (Z.to_nat (4 + 16)) value = Some c) as ->.
  { unfold value. rewrite <-string_app_assoc. apply get_app. rewrite String_length_app. unfold str_len in Hl. cbn. lia. }
  assert (slice value 4 (4 + 16) = locator) as ->
    by (apply (slice_app "mvl_"); change (str_len "mvl_") with 4; lia).
  assert (slice value (4 + 16 + 1) 64 = secret) as ->.
  { unfold value. replace ("mvl_" ++ locator ++ String c secret)%string
      with (("mvl_" ++ locator ++ String c "") ++ secret ++ "")%string
      by (rewrite !string_app_assoc, string_app_nil; done).
    apply slice_app; rewrite !str_len_app, Hl, ?Hs; done. }
  cbn. destruct (decide (c = "_"%char)) as [->|Hc].
  - rewrite !bool_decide_true by done. cbn. by destruct (validEncodedSize locator 12), (validEncodedSize secret 32).
  - rewrite !bool_decide_false by congruence. done.
Qed.

(** Anything accepted has these parts. *)
Lemma parseToken_shape value t :
  parseToken value = Ok t →
  ∃ locator c secret, value = ("mvl_" ++ locator ++ String c secret)%string ∧
    str_len locator = 16 ∧ str_len secret = 43.
Proof.
  unfold parseToken. change (str_len (tokenNamespace ++ "_")) with 4.
  change (EncodedLen locatorByteCount) with 16. change (EncodedLen secretByteCount) with 43. cbn zeta.
  destruct (negb (str_len value =? _) || _) eqn:Hlen; [done|]. intros _.
  apply orb_false_iff in Hlen as [Hlen%negb_false_iff%Z.eqb_eq Hpre%negb_false_iff].
  apply prefix_spec in Hpre as [r ->]. rewrite str_len_app in Hlen.
  change (str_len (tokenNamespace ++ "_")) with 4 in Hlen.
  destruct (string_split r 16) as (locator & rest & -> & Hl); [unfold str_len in Hlen; lia|].
  rewrite str_len_app in Hlen. destruct rest as [|c secret]; [unfold str_len in Hlen; cbn in Hlen; lia|].
  exists locator, c, secret. unfold str_len in *. cbn in Hlen. split; [done|]. lia.
Qed.

(** What parsing accepts, in full. *)
Lemma parseToken_spec value t :
  parseToken value = Ok t ↔
  ∃ locator, value = (pt_prefix t ++ "_" ++ pt_secret t)%string ∧
    pt_prefix t = ("mvl_" ++ locator)%string ∧
    str_len locator = 16 ∧ str_len (pt_secret t) = 43 ∧
    validEncodedSize locator 12 = true ∧ validEncodedSize (pt_secret t) 32 = true.
Proof.
  split.
  - intros Hp. destruct (parseToken_shape _ _ Hp) as (locator & c & secret & -> & Hl & Hs).
    rewrite parseToken_parts in Hp by done. destruct (bool_decide_reflect (c = "_"%char)) as [->|]; [|done].
    destruct (validEncodedSize locator 12) eqn:Hvl, (validEncodedSize secret 32) eqn:Hvs; try done.
    injection Hp as <-. cbn [pt_prefix pt_secret]. exists locator. rewrite string_app_assoc. done.
  - destruct t as [prefix secret]. cbn [pt_prefix pt_secret].
    intros (locator & -> & -> & Hl & Hs & Hvl & Hvs). rewrite string_app_assoc.
    change ("_" ++ secret)%string with (String "_" secret). rewrite parseToken_parts by done.
    by rewrite Hvl, Hvs.
Qed.

Lemma validEncodedSize_encode s n : str_len s = n → validEncodedSize (EncodeToString s) n = true.
Proof.
  intros Hn. unfold validEncodedSize. rewrite DecodeString_EncodeToString. by apply Z.eqb_eq.
Qed.

(** A generated token parses back, to its own digest and hash. *)
Lemma token_parses pepper locator secret :
  str_len locator = 12 → str_len secret = 32 →
  ∃ g t, generateToken pepper (Some locator) (Some secret) = Ok g ∧
    parseToken (gt_plaintext g) = Ok t ∧ pt_prefix t = gt_prefix g ∧
    gt_lookupDigest g = digestPrefix (pt_prefix t) ∧ gt_keyHash g = hashSecret (pt_secret t) pepper.
Proof.
  intros Hl Hs. eexists. exists {| pt_prefix := "mvl_" ++ EncodeToString locator; pt_secret := EncodeToString secret |}.
  split; [reflexivity|]. cbn [gt_plaintext gt_prefix gt_lookupDigest gt_keyHash pt_prefix pt_secret].
  split; [|done]. apply parseToken_spec. exists (EncodeToString locator). cbn [pt_prefix pt_secret].
  rewrite !EncodeToString_len, Hl, Hs, !validEncodedSize_encode by done. repeat split.
Qed.

(** Token round trip. A generated token parses back to its own prefix and to a
    secret that verifies against the stored hash, and its prefix has the stored
    lookup digest; conversely a text that parses is its prefix and its secret
    written around the separator, so no two texts parse to the same token. *)
Theorem token_roundtrip pepper locator secret :
  str_len locator = 12 → str_len secret = 32 →
  ∃ g t, generateToken pepper (Some locator) (Some secret) = Ok g ∧
    parseToken (gt_plaintext g) = Ok t ∧
    pt_prefix t = gt_prefix g ∧ digestPrefix (pt_prefix t) = gt_lookupDigest g ∧
    verifyToken t (gt_keyHash g) (gt_hashVersion g) pepper = true ∧
    ∀ value, parseToken value = Ok t → value = gt_plaintext g.
Proof.
  intros Hl Hs. destruct (token_parses pepper locator secret Hl Hs) as (g & t & Hg & Hp & Hpre & Hdig & Hhash).
  exists g, t. split_and!; try done.
  - unfold verifyToken. rewrite Hhash. unfold hashSecret at 1. rewrite hmac_sha256_len.
    unfold generateToken in Hg. cbn in Hg. injection Hg as <-. cbn. by rewrite bool_decide_true.
  - intros value (l & -> & _)%parseToken_spec. by apply parseToken_spec in Hp as (l' & -> & _).
Qed.

(** ** Concrete instances *)

Definition demo_locator : string := "0123456789ab".
Definition demo_secret : string := "the secret part of a demo token!".
Definition demo_pepper : string := "a pepper of at least 32 bytes, say".

Example demo_token :
  fmap gt_plaintext (generateToken demo_pepper (Some demo_locator) (Some demo_secret)) =
  Ok "mvl_MDEyMzQ1Njc4OWFi_dGhlIHNlY3JldCBwYXJ0IG9mIGEgZGVtbyB0b2tlbiE"%string.
Proof. vm_compute. reflexivity. Qed.

(** A token whose secret decodes to too few bytes, a newline standing for a character. *)
Example demo_newline_refused :
  parseToken (String.append "mvl_MDEyMzQ1Njc4OWFi_dGhlIHNlY3JldCBwYXJ0IG9mIGEgZGVtbyB0b2tlbi" (String "010" "")) =
  Err ErrInvalidToken.
Proof. vm_compute. reflexivity. Qed.

Lemma token_roundtrip_witness :
  ∃ g t, generateToken demo_pepper (Some demo_locator) (Some demo_secret) = Ok g ∧
    parseToken (gt_plaintext g) = Ok t ∧
    pt_prefix t = gt_prefix g ∧ digestPrefix (pt_prefix t) = gt_lookupDigest g ∧
    verifyToken t (gt_keyHash g) (gt_hashVersion g) demo_pepper = true ∧
    ∀ value, parseToken value = Ok t → value = gt_plaintext g.
Proof. exact (token_roundtrip demo_pepper demo_locator demo_secret eq_refl eq_refl). Defined.
