(* ===== verification/AuthSnapshot.v ===== *)
(** * Authentication snapshots

    Models [src/internal/apikey/snapshot.go] and the part of
    [src/internal/apikey/manager.go] that normalizes model grants: what a
    credential is worth at an instant, read from the database or from a cache,
    and the checks it must pass before it is used. *)

From S2P Require Import Prelude Encoding Token.

(** ** Data *)

Definition APIKeyActive : string := "active".
Definition APIKeyDisabled : string := "disabled".
Definition APIKeyRevoked : string := "revoked".
Definition TenantActive : string := "active".
Definition TenantDisabled : string := "disabled".

Definition authSnapshotVersion : Z := 1.

Record authSnapshot := {
  as_Version : Z;
  as_APIKeyID : string;
  as_TenantID : string;
  as_KeyPrefix : string;
  as_LookupDigest : string;
  as_KeyHash : string;
  as_HashVersion : Z;
  as_KeyStatus : string;
  as_KeyExpiresAt : option Time;
  as_LastUsedAt : option Time;
  as_TenantStatus : string;
  as_TenantVersion : Z;
  as_AllowedModels : list string;
  as_GeneratedAt : Time;
  as_CachedUntil : Time;
}.

#[export] Instance authSnapshot_eq_dec : EqDecision authSnapshot.
Proof. solve_decision. Defined.

Definition with_models (s : authSnapshot) (models : list string) : authSnapshot :=
  {| as_Version := as_Version s; as_APIKeyID := as_APIKeyID s; as_TenantID := as_TenantID s;
     as_KeyPrefix := as_KeyPrefix s; as_LookupDigest := as_LookupDigest s; as_KeyHash := as_KeyHash s;
     as_HashVersion := as_HashVersion s; as_KeyStatus := as_KeyStatus s;
     as_KeyExpiresAt := as_KeyExpiresAt s; as_LastUsedAt := as_LastUsedAt s;
     as_TenantStatus := as_TenantStatus s; as_TenantVersion := as_TenantVersion s;
     as_AllowedModels := models; as_GeneratedAt := as_GeneratedAt s; as_CachedUntil := as_CachedUntil s |}.

Definition with_cached_until (s : authSnapshot) (t : Time) : authSnapshot :=
  {| as_Version := as_Version s; as_APIKeyID := as_APIKeyID s; as_TenantID := as_TenantID s;
     as_KeyPrefix := as_KeyPrefix s; as_LookupDigest := as_LookupDigest s; as_KeyHash := as_KeyHash s;
     as_HashVersion := as_HashVersion s; as_KeyStatus := as_KeyStatus s;
     as_KeyExpiresAt := as_KeyExpiresAt s; as_LastUsedAt := as_LastUsedAt s;
     as_TenantStatus := as_TenantStatus s; as_TenantVersion := as_TenantVersion s;
     as_AllowedModels := as_AllowedModels s; as_GeneratedAt := as_GeneratedAt s; as_CachedUntil := t |}.

(** The identity a snapshot gives; the models it may use are [None] for an
    identity that was not authenticated. *)
Record Identity := {
  id_TenantID : string;
  id_APIKeyID : string;
  id_KeyPrefix : string;
  id_authorization : option (list string);
}.

Definition identity (s : authSnapshot) : Identity :=
  {| id_TenantID := as_TenantID s; id_APIKeyID := as_APIKeyID s; id_KeyPrefix := as_KeyPrefix s;
     id_authorization := Some (as_AllowedModels s) |}.

(** ** Model grants *)

Definition normalize_model (model : string) : option string :=
  let model := TrimSpace model in
  if (model =? "")%string || (200 <? RuneCountInString model) then None else Some model.

(** The set of the names, sorted; the map's iteration order does not matter. *)
Definition normalizeModels (models : list string) : result string (list string) :=
  match mapM normalize_model models with
  | None => Err "invalid API key input: model names must contain 1-200 characters"%string
  | Some unique => Ok (sort_Strings (elements (list_to_set unique : gset string)))
  end.

(** ** Validation *)

Definition valid_key_status (status : string) : bool :=
  (status =? APIKeyActive)%string || (status =? APIKeyDisabled)%string || (status =? APIKeyRevoked)%string.

Definition valid_tenant_status (status : string) : bool :=
  (status =? TenantActive)%string || (status =? TenantDisabled)%string.

Definition snapshot_malformed (s : authSnapshot) (expectedDigest : string) : bool :=
  negb (as_Version s =? authSnapshotVersion) ||
  (TrimSpace (as_APIKeyID s) =? "")%string || (TrimSpace (as_TenantID s) =? "")%string ||
  (TrimSpace (as_KeyPrefix s) =? "")%string ||
  negb (str_len (as_KeyHash s) =? 32) || negb (as_HashVersion s =? hashVersion) ||
  (as_TenantVersion s =? 0) || time_is_zero (as_GeneratedAt s) ||
  negb (as_LookupDigest s =? expectedDigest)%string ||
  negb (digestPrefix (as_KeyPrefix s) =? expectedDigest)%string.

(** The snapshot that is valid has its models normalized in place. *)
Definition snapshot_validate (s : authSnapshot) (expectedDigest : string) (now : Time)
    (requireCacheLifetime : bool) : result string authSnapshot :=
  if snapshot_malformed s expectedDigest then Err "authentication snapshot is invalid"%string
  else if negb (valid_key_status (as_KeyStatus s)) then
    Err "authentication snapshot key status is invalid"%string
  else if negb (valid_tenant_status (as_TenantStatus s)) then
    Err "authentication snapshot tenant status is invalid"%string
  else
    match normalizeModels (as_AllowedModels s) with
    | Err _ => Err "authentication snapshot model grants are invalid"%string
    | Ok models =>
        if requireCacheLifetime && (time_is_zero (as_CachedUntil s) || negb (time_after (as_CachedUntil s) now))
        then Err "authentication snapshot is expired"%string
        else Ok (with_models s models)
    end.

(** ** The database as a source

    The columns the query selects, and the two statements: the row of a lookup
    digest ([None] inside when there is none) and the model grants of a tenant,
    in order. [None] outside is the driver's error. *)

Record AuthRow := {
  ar_APIKeyID : string;
  ar_TenantID : string;
  ar_KeyPrefix : string;
  ar_LookupDigest : string;
  ar_KeyHash : string;
  ar_HashVersion : Z;
  ar_KeyStatus : string;
  ar_KeyExpiresAt : option Time;
  ar_LastUsedAt : option Time;
  ar_TenantStatus : string;
  ar_TenantVersion : Z;
}.

Class AuthRows (DB : Type) := {
  select_auth_row : DB → string → option (option AuthRow);
  select_grants : DB → string → option (list string);
}.

Inductive LoadError := errSnapshotNotFound | LoadFailed (message : string).

Definition row_snapshot (row : AuthRow) (models : list string) (now : Time) : authSnapshot :=
  {| as_Version := authSnapshotVersion; as_APIKeyID := ar_APIKeyID row; as_TenantID := ar_TenantID row;
     as_KeyPrefix := ar_KeyPrefix row; as_LookupDigest := ar_LookupDigest row; as_KeyHash := ar_KeyHash row;
     as_HashVersion := ar_HashVersion row; as_KeyStatus := ar_KeyStatus row;
     as_KeyExpiresAt := ar_KeyExpiresAt row; as_LastUsedAt := ar_LastUsedAt row;
     as_TenantStatus := ar_TenantStatus row; as_TenantVersion := ar_TenantVersion row;
     as_AllowedModels := models; as_GeneratedAt := now; as_CachedUntil := time_zero |}.

(** The answer and the number of queries made. *)
Definition source_Load `{AuthRows DB} (db : DB) (lookupDigest : string) (now : Time) :
    result LoadError authSnapshot * Z :=
  match select_auth_row db lookupDigest with
  | None => (Err (LoadFailed "read API key authentication snapshot"), 1)
  | Some None => (Err errSnapshotNotFound, 1)
  | Some (Some row) =>
      match select_grants db (ar_TenantID row) with
      | None => (Err (LoadFailed "read API key model grants"), 2)
      | Some models =>
          match snapshot_validate (row_snapshot row models now) lookupDigest now false with
          | Err e => (Err (LoadFailed e), 2)
          | Ok snapshot => (Ok snapshot, 2)
          end
      end
  end.

(** ** Facts *)

Lemma normalize_model_ok m m' :
  normalize_model m = Some m' → m' = TrimSpace m ∧ m' ≠ ""%string ∧ RuneCountInString m' ≤ 200.
Proof.
  unfold normalize_model. destruct (_ || _) eqn:Hc; [done|]. intros [= <-].
  apply orb_false_iff in Hc as [?%String.eqb_neq ?%Z.ltb_ge]. done.
Qed.

Lemma normalize_model_idem m m' : normalize_model m = Some m' → normalize_model m' = Some m'.
Proof.
  intros H. destruct (normalize_model_ok _ _ H) as (-> & Hne & Hlen). unfold normalize_model.
  rewrite TrimSpace_idem. replace (_ || _) with false; [done|].
  symmetry. apply orb_false_iff. split; [by apply String.eqb_neq | by apply Z.ltb_ge].
Qed.

Lemma normalizeModels_elem models models' m :
  normalizeModels models = Ok models' → m ∈ models' ↔ ∃ x, x ∈ models ∧ normalize_model x = Some m.
Proof.
  unfold normalizeModels. destruct (mapM _ models) as [u|] eqn:Hu; [|done]. intros [= <-].
  rewrite sort_Strings_perm, elem_of_elements, elem_of_list_to_set.
  apply mapM_Some in Hu. split.
  - intros (i & Hi)%list_elem_of_lookup. destruct (Forall2_lookup_r _ _ _ _ _ Hu Hi) as (x & Hx & ?).
    exists x. split; [by eapply list_elem_of_lookup_2 | done].
  - intros (x & (i & Hi)%list_elem_of_lookup & Hx). destruct (Forall2_lookup_l _ _ _ _ _ Hu Hi) as (y & Hy & ?).
    simplify_eq. by eapply list_elem_of_lookup_2.
Qed.

(** Normal grants are a set in order, and normalizing them again changes nothing. *)
Lemma normalizeModels_normal models models' :
  normalizeModels models = Ok models' →
  NoDup models' ∧ Sorted string_le models' ∧ Forall (λ m, normalize_model m = Some m) models'.
Proof.
  intros Hn. split; [|split].
  - unfold normalizeModels in Hn. destruct (mapM _ models); [|done]. injection Hn as <-.
    rewrite sort_Strings_perm. apply NoDup_elements.
  - unfold normalizeModels in Hn. destruct (mapM _ models); [|done]. injection Hn as <-.
    apply sort_Strings_sorted.
  - apply Forall_forall. intros m Hm. apply (normalizeModels_elem _ _ _ Hn) in Hm as (x & _ & Hx).
    by eapply normalize_model_idem.
Qed.

Lemma normalizeModels_idem models models' :
  normalizeModels models = Ok models' → normalizeModels models' = Ok models'.
Proof.
  intros Hn. destruct (normalizeModels_normal _ _ Hn) as (Hnd & Hs & Hall).
  unfold normalizeModels. replace (mapM normalize_model models') with (Some models').
  - f_equal. apply sort_Strings_unique; [done|]. by apply elements_list_to_set.
  - symmetry. apply mapM_Some. clear -Hall. by induction Hall; constructor.
Qed.

(** What a valid snapshot guarantees to the rest of the package. *)
Record snapshot_valid (digest : string) (s : authSnapshot) : Prop := {
  sv_digest : digestPrefix (as_KeyPrefix s) = digest;
  sv_lookup : as_LookupDigest s = digest;
  sv_hash : str_len (as_KeyHash s) = 32 ∧ as_HashVersion s = hashVersion;
  sv_key : valid_key_status (as_KeyStatus s) = true;
  sv_tenant : valid_tenant_status (as_TenantStatus s) = true;
  sv_models : NoDup (as_AllowedModels s) ∧ Sorted string_le (as_AllowedModels s) ∧
              Forall (λ m, normalize_model m = Some m) (as_AllowedModels s);
  sv_ids : TrimSpace (as_APIKeyID s) ≠ ""%string ∧ TrimSpace (as_TenantID s) ≠ ""%string;
}.

Lemma snapshot_validate_ok s digest now required s' :
  snapshot_validate s digest now required = Ok s' →
  snapshot_valid digest s' ∧ (∃ models, s' = with_models s models) ∧
  (required = true → now < as_CachedUntil s').
Proof.
  unfold snapshot_validate. destruct (snapshot_malformed s digest) eqn:Hm; [done|].
  destruct (valid_key_status _) eqn:Hk; [|done]. destruct (valid_tenant_status _) eqn:Ht; [|done]. cbn [negb].
  destruct (normalizeModels _) as [models|] eqn:Hn; [|done].
  destruct (required && _) eqn:Hr; [done|]. intros [= <-].
  unfold snapshot_malformed in Hm. rewrite !orb_false_iff, !negb_false_iff in Hm. destruct_and!.
  repeat match goal with
  | H : (_ =? _)%string = true |- _ => apply String.eqb_eq in H
  | H : (_ =? _)%string = false |- _ => apply String.eqb_neq in H
  | H : (_ =? _) = true |- _ => apply Z.eqb_eq in H
  end.
  split; [|split; [by exists models|]].
  - split; cbn; try done. by apply normalizeModels_normal in Hn.
  - intros ->. cbn in Hr |- *. apply orb_false_iff in Hr as [_ Hr%negb_false_iff].
    unfold time_after in Hr. lia.
Qed.

Lemma source_Load_ok `{AuthRows DB} (db : DB) digest now s n :
  source_Load db digest now = (Ok s, n) →
  snapshot_valid digest s ∧ as_CachedUntil s = time_zero ∧
  ∃ row models, select_auth_row db digest = Some (Some row) ∧ select_grants db (ar_TenantID row) = Some models ∧
    as_APIKeyID s = ar_APIKeyID row ∧ as_TenantID s = ar_TenantID row ∧ as_KeyHash s = ar_KeyHash row ∧
    as_KeyPrefix s = ar_KeyPrefix row ∧
    as_KeyStatus s = ar_KeyStatus row ∧ as_TenantStatus s = ar_TenantStatus row ∧
    as_KeyExpiresAt s = ar_KeyExpiresAt row ∧ normalizeModels models = Ok (as_AllowedModels s).
Proof.
  unfold source_Load. destruct (select_auth_row db digest) as [[row|]|] eqn:Hrow; try done.
  destruct (select_grants db (ar_TenantID row)) as [models|] eqn:Hg; [|done].
  destruct (snapshot_validate _ _ _ _) as [s'|] eqn:Hv; [|done]. intros [= -> <-].
  pose proof (snapshot_validate_ok _ _ _ _ _ Hv) as (Hok & (models' & ->) & _).
  split; [done|]. split; [done|]. exists row, models. repeat split; try done.
  unfold snapshot_validate in Hv. destruct (snapshot_malformed _ _); [done|].
  destruct (negb _); [done|]. destruct (negb _); [done|].
  change (as_AllowedModels (row_snapshot row models now)) with models in Hv.
  destruct (normalizeModels models); [|done]. cbn in Hv. by injection Hv as ->.
Qed.
