(* ===== verification/AuthL1.v ===== *)
(** * The in-memory credential cache

    Models [src/internal/apikey/cache_l1.go]: a map to the elements of a list
    kept in order of use, with two indexes from key and tenant identifiers to
    cache keys. Its mutex makes every method atomic. An element of
    [container/list] is a value with an identity; the entry it points to is never
    written after it is made. The order in which Go visits a map is an argument,
    any enumeration of the set. *)

From S2P Require Import Prelude Token AuthSnapshot.

(** ** Data *)

Record l1Entry := { le_cacheKey : string; le_snapshot : authSnapshot; le_expiresAt : Time }.

#[export] Instance l1Entry_eq_dec : EqDecision l1Entry.
Proof. solve_decision. Defined.

Record Element := { el_id : nat; el_Value : l1Entry }.

#[export] Instance Element_eq_dec : EqDecision Element.
Proof. solve_decision. Defined.

Abbreviation CacheIndex := (gmap string (gset string)).

Record l1Cache := {
  l1_maxEntries : Z;
  l1_ttl : Duration;
  l1_entries : gmap string Element;
  l1_keys : CacheIndex;
  l1_tenants : CacheIndex;
  l1_order : list Element;
  l1_next : nat;   (* the identity of the next element *)
}.

Definition newL1Cache (maxEntries : Z) (ttl : Duration) : l1Cache :=
  {| l1_maxEntries := maxEntries; l1_ttl := ttl; l1_entries := ∅; l1_keys := ∅; l1_tenants := ∅;
     l1_order := []; l1_next := 0 |}.

(** ** [container/list] *)

Definition list_Remove (e : Element) (l : list Element) : list Element :=
  List.filter (λ x, negb (el_id x =? el_id e)%nat) l.

Definition list_MoveToFront (e : Element) (l : list Element) : list Element :=
  if existsb (λ x, (el_id x =? el_id e)%nat) l then e :: list_Remove e l else l.

(** ** Indexes *)

Definition index_set (index : CacheIndex) (id : string) : gset string := default ∅ (index !! id).

Definition addCacheIndex (index : CacheIndex) (id cacheKey : string) : CacheIndex :=
  <[id := {[cacheKey]} ∪ index_set index id]> index.

Definition deleteCacheIndex (index : CacheIndex) (id cacheKey : string) : CacheIndex :=
  let cacheKeys := index_set index id ∖ {[cacheKey]} in
  if decide (cacheKeys = ∅) then delete id index else <[id := cacheKeys]> index.

(** ** Operations *)

Definition l1_remove (c : l1Cache) (element : option Element) : l1Cache :=
  match element with
  | None => c
  | Some element =>
      let entry := el_Value element in
      {| l1_maxEntries := l1_maxEntries c; l1_ttl := l1_ttl c;
         l1_entries := delete (le_cacheKey entry) (l1_entries c);
         l1_keys := deleteCacheIndex (l1_keys c) (as_APIKeyID (le_snapshot entry)) (le_cacheKey entry);
         l1_tenants := deleteCacheIndex (l1_tenants c) (as_TenantID (le_snapshot entry)) (le_cacheKey entry);
         l1_order := list_Remove element (l1_order c); l1_next := l1_next c |}
  end.

Inductive L1Result := L1Miss | L1Expired | L1Hit (snapshot : authSnapshot).

Definition l1_Get (c : l1Cache) (cacheKey : string) (now : Time) : L1Result * l1Cache :=
  match l1_entries c !! cacheKey with
  | None => (L1Miss, c)
  | Some element =>
      let entry := el_Value element in
      if negb (time_after (le_expiresAt entry) now) then (L1Expired, l1_remove c (Some element))
      else (L1Hit (le_snapshot entry),
            {| l1_maxEntries := l1_maxEntries c; l1_ttl := l1_ttl c; l1_entries := l1_entries c;
               l1_keys := l1_keys c; l1_tenants := l1_tenants c;
               l1_order := list_MoveToFront element (l1_order c); l1_next := l1_next c |})
  end.

Definition entry_expiry (ttl : Duration) (snapshot : authSnapshot) (now : Time) : Time :=
  let expiresAt := time_add now ttl in
  if negb (time_is_zero (as_CachedUntil snapshot)) && time_before (as_CachedUntil snapshot) expiresAt
  then as_CachedUntil snapshot else expiresAt.

(** Whether an entry was evicted. *)
Definition l1_Set (c : l1Cache) (cacheKey : string) (snapshot : authSnapshot) (now : Time) : bool * l1Cache :=
  let expiresAt := entry_expiry (l1_ttl c) snapshot now in
  let c := match l1_entries c !! cacheKey with
           | Some element => l1_remove c (Some element)
           | None => c
           end in
  let entry := {| le_cacheKey := cacheKey; le_snapshot := snapshot; le_expiresAt := expiresAt |} in
  let element := {| el_id := l1_next c; el_Value := entry |} in
  let c := {| l1_maxEntries := l1_maxEntries c; l1_ttl := l1_ttl c;
              l1_entries := <[cacheKey := element]> (l1_entries c);
              l1_keys := addCacheIndex (l1_keys c) (as_APIKeyID snapshot) cacheKey;
              l1_tenants := addCacheIndex (l1_tenants c) (as_TenantID snapshot) cacheKey;
              l1_order := element :: l1_order c; l1_next := S (l1_next c) |} in
  if Z.of_nat (length (l1_order c)) <=? l1_maxEntries c then (false, c)
  else (true, l1_remove c (last (l1_order c))).

(** The range over the live set [source]: a key that the body has deleted
    meanwhile is not visited. *)
Fixpoint deleteIndexed (source : l1Cache → gset string) (visit : list string) (c : l1Cache) (removed : Z) :
    Z * l1Cache :=
  match visit with
  | [] => (removed, c)
  | cacheKey :: visit =>
      if decide (cacheKey ∈ source c) then
        match l1_entries c !! cacheKey with
        | None => deleteIndexed source visit c removed
        | Some element => deleteIndexed source visit (l1_remove c (Some element)) (removed + 1)
        end
      else deleteIndexed source visit c removed
  end.

Definition l1_DeleteKey (visit : gset string → list string) (c : l1Cache) (keyID : string) : Z * l1Cache :=
  deleteIndexed (λ c, index_set (l1_keys c) keyID) (visit (index_set (l1_keys c) keyID)) c 0.

Definition l1_DeleteTenant (visit : gset string → list string) (c : l1Cache) (tenantID : string) : Z * l1Cache :=
  deleteIndexed (λ c, index_set (l1_tenants c) tenantID) (visit (index_set (l1_tenants c) tenantID)) c 0.

(** ** The abstract cache

    A list of entries, the most recently used first, each key once. *)

Definition has_key (key : string) (e : l1Entry) : bool := (le_cacheKey e =? key)%string.
Definition without (key : string) (l : list l1Entry) : list l1Entry := List.filter (λ e, negb (has_key key e)) l.

Definition lru_get (l : list l1Entry) (key : string) (now : Time) : L1Result * list l1Entry :=
  match List.find (has_key key) l with
  | None => (L1Miss, l)
  | Some e => if le_expiresAt e <=? now then (L1Expired, without key l)
              else (L1Hit (le_snapshot e), e :: without key l)
  end.

Definition lru_set (maxEntries : Z) (ttl : Duration) (l : list l1Entry) (key : string) (s : authSnapshot)
    (now : Time) : bool * list l1Entry :=
  let l := {| le_cacheKey := key; le_snapshot := s; le_expiresAt := entry_expiry ttl s now |} :: without key l in
  (maxEntries <? Z.of_nat (length l), take (Z.to_nat maxEntries) l).

Definition lru_delete (belongs : l1Entry → bool) (l : list l1Entry) : Z * list l1Entry :=
  (Z.of_nat (length (List.filter belongs l)), List.filter (λ e, negb (belongs e)) l).

Definition of_key (keyID : string) (e : l1Entry) : bool := (as_APIKeyID (le_snapshot e) =? keyID)%string.
Definition of_tenant (tenantID : string) (e : l1Entry) : bool := (as_TenantID (le_snapshot e) =? tenantID)%string.

(** ** The invariant *)

Definition e_key (e : Element) : string := le_cacheKey (el_Value e).
Definition e_keyID (e : Element) : string := as_APIKeyID (le_snapshot (el_Value e)).
Definition e_tenantID (e : Element) : string := as_TenantID (le_snapshot (el_Value e)).

(** An index holds the cache keys of the elements of each identifier, and no
    empty set. *)
Record index_of (f : Element → string) (index : CacheIndex) (order : list Element) : Prop := {
  io_set : ∀ id k, k ∈ index_set index id ↔ ∃ e, e ∈ order ∧ e_key e = k ∧ f e = id;
  io_clean : ∀ id s, index !! id = Some s → s ≠ ∅;
}.

Record l1_ok (c : l1Cache) : Prop := {
  lo_ids : NoDup (map el_id (l1_order c));
  lo_next : ∀ e, e ∈ l1_order c → (el_id e < l1_next c)%nat;
  lo_keys : NoDup (map e_key (l1_order c));
  lo_entries : ∀ k e, l1_entries c !! k = Some e ↔ e ∈ l1_order c ∧ e_key e = k;
  lo_key_index : index_of e_keyID (l1_keys c) (l1_order c);
  lo_tenant_index : index_of e_tenantID (l1_tenants c) (l1_order c);
}.

(** What the cache holds, in order of use. *)
Definition contents (c : l1Cache) : list l1Entry := map el_Value (l1_order c).

(** *** Lists *)

Lemma elem_of_filter_bool {A} (p : A → bool) (l : list A) x : x ∈ List.filter p l ↔ x ∈ l ∧ p x = true.
Proof. rewrite !list_elem_of_In. apply filter_In. Qed.

Lemma NoDup_map_filter {A B} (g : A → B) p (l : list A) : NoDup (map g l) → NoDup (map g (List.filter p l)).
Proof.
  induction l as [|x l IH]; cbn; [done|]. rewrite NoDup_cons. intros [Hx Hl].
  destruct (p x); cbn; [|auto]. apply NoDup_cons. split; [|auto].
  intros (y & Hy & [Hin _]%elem_of_filter_bool)%list_elem_of_fmap. apply Hx. rewrite Hy. by apply list_elem_of_fmap_2.
Qed.

Lemma NoDup_map_eq {A B} (g : A → B) (l : list A) x y :
  NoDup (map g l) → x ∈ l → y ∈ l → g x = g y → x = y.
Proof.
  induction l as [|z l IH]; cbn; [set_solver|]. rewrite NoDup_cons, !elem_of_cons. intros [Hz Hl].
  intros [->|Hx] [->|Hy] Hg; auto.
  - exfalso. apply Hz. rewrite Hg. by apply list_elem_of_fmap_2.
  - exfalso. apply Hz. rewrite <-Hg. by apply list_elem_of_fmap_2.
Qed.

Lemma filter_map_swap {A B} (g : A → B) p (l : list A) :
  List.filter p (map g l) = map g (List.filter (λ x, p (g x)) l).
Proof. induction l as [|x l IH]; cbn; [done|]. destruct (p (g x)); cbn; by rewrite IH. Qed.

Lemma filter_true {A} (p : A → bool) (l : list A) : (∀ x, x ∈ l → p x = true) → List.filter p l = l.
Proof.
  induction l as [|x l IH]; intros H; [done|]. cbn. rewrite (H x) by set_solver. f_equal. apply IH. set_solver.
Qed.

Lemma filter_false {A} (p : A → bool) (l : list A) : (∀ x, x ∈ l → p x = false) → List.filter p l = [].
Proof.
  induction l as [|x l IH]; intros H; [done|]. cbn. rewrite (H x) by set_solver. apply IH. set_solver.
Qed.

Lemma filter_filter_bool {A} (p q : A → bool) (l : list A) :
  List.filter p (List.filter q l) = List.filter (λ x, q x && p x) l.
Proof. induction l as [|x l IH]; cbn; [done|]. destruct (q x); cbn; [destruct (p x)|]; by rewrite IH. Qed.

Lemma filter_ext_elem {A} (p q : A → bool) (l : list A) :
  (∀ x, x ∈ l → p x = q x) → List.filter p l = List.filter q l.
Proof. intros H. apply filter_ext_in. intros x Hx%list_elem_of_In. auto. Qed.

(** *** Removing *)

Section remove.
Context (order : list Element) (e : Element).
Hypotheses (Hids : NoDup (map el_id order)) (Hkeys : NoDup (map e_key order)) (He : e ∈ order).

(** The element is the only one with its identity, and the only one with its key. *)
Lemma list_Remove_keys : list_Remove e order = List.filter (λ x, negb (e_key x =? e_key e)%string) order.
Proof using Hids Hkeys He.
  apply filter_ext_elem. intros x Hx. f_equal. apply eq_true_iff_eq. rewrite Nat.eqb_eq, String.eqb_eq. split.
  - intros Heq. f_equal. by eapply (NoDup_map_eq el_id).
  - intros Heq. f_equal. by eapply (NoDup_map_eq e_key).
Qed.

Lemma elem_of_Remove x : x ∈ list_Remove e order ↔ x ∈ order ∧ e_key x ≠ e_key e.
Proof using Hids Hkeys He.
  rewrite list_Remove_keys, elem_of_filter_bool, negb_true_iff, String.eqb_neq. done.
Qed.

Lemma index_of_delete f index :
  index_of f index order → index_of f (deleteCacheIndex index (f e) (e_key e)) (list_Remove e order).
Proof using Hids Hkeys He.
  intros [Hset Hclean]. unfold deleteCacheIndex. split.
  - intros id k. assert (index_set (if decide (index_set index (f e) ∖ {[e_key e]} = ∅)
        then delete (f e) index else <[f e := index_set index (f e) ∖ {[e_key e]}]> index) id =
      if decide (id = f e) then index_set index id ∖ {[e_key e]} else index_set index id) as ->.
    { destruct (decide (id = f e)) as [->|Hne].
      - destruct (decide _) as [Hemp|]; unfold index_set at 1.
        + by rewrite lookup_delete_eq.
        + by rewrite lookup_insert_eq.
      - unfold index_set at 2. destruct (decide _); unfold index_set.
        + by rewrite lookup_delete_ne.
        + by rewrite lookup_insert_ne. }
    setoid_rewrite elem_of_Remove. destruct (decide (id = f e)) as [->|Hne].
    + rewrite elem_of_difference, Hset, elem_of_singleton. naive_solver.
    + rewrite Hset. split; [|naive_solver]. intros (x & Hx & Hk & Hf). exists x. split; [|done]. split; [done|].
      intros Heq. apply Hne. rewrite <-Hf. f_equal. by eapply (NoDup_map_eq e_key).
  - intros id s Hs. destruct (decide _) as [Hemp|Hemp].
    + apply lookup_delete_Some in Hs as [_ Hs]. by eapply Hclean.
    + apply lookup_insert_Some in Hs as [[_ <-]|[_ Hs]]; [done | by eapply Hclean].
Qed.
End remove.

Lemma l1_remove_ok c e :
  l1_ok c → e ∈ l1_order c →
  l1_ok (l1_remove c (Some e)) ∧ contents (l1_remove c (Some e)) = without (e_key e) (contents c).
Proof.
  intros [Hids Hnext Hkeys Hent Hki Hti] He. split.
  - split; cbn.
    + by apply NoDup_map_filter.
    + intros x [Hx _]%elem_of_filter_bool. auto.
    + by apply NoDup_map_filter.
    + intros k x. rewrite lookup_delete_Some, Hent, elem_of_Remove by done.
      fold (e_key e). naive_solver.
    + by apply (index_of_delete _ _ Hids Hkeys He e_keyID).
    + by apply (index_of_delete _ _ Hids Hkeys He e_tenantID).
  - unfold contents, without. cbn. rewrite list_Remove_keys by done. by rewrite filter_map_swap.
Qed.

(** *** Adding *)

Lemma index_of_add f index order e :
  index_of f index order → index_of f (addCacheIndex index (f e) (e_key e)) (e :: order).
Proof.
  intros [Hset Hclean]. unfold addCacheIndex. split.
  - intros id k. destruct (decide (id = f e)) as [->|Hne].
    + unfold index_set at 1. rewrite lookup_insert_eq. cbn. rewrite elem_of_union, Hset, elem_of_singleton. set_solver.
    + unfold index_set at 1. rewrite lookup_insert_ne by done. fold (index_set index id). rewrite Hset. set_solver.
  - intros id s [[_ <-]|[_ Hs]]%lookup_insert_Some; [set_solver | by eapply Hclean].
Qed.

Lemma find_entry c k :
  l1_ok c → List.find (has_key k) (contents c) = el_Value <$> l1_entries c !! k.
Proof.
  intros Hok. destruct (l1_entries c !! k) as [e|] eqn:He.
  - apply (lo_entries _ Hok) in He as [He <-].
    destruct (List.find _ _) as [x|] eqn:Hf.
    + apply find_some in Hf as [Hin Hk]. apply list_elem_of_In, list_elem_of_fmap in Hin as (y & -> & Hy).
      unfold has_key in Hk. apply String.eqb_eq in Hk. cbn. do 2 f_equal.
      by eapply (NoDup_map_eq e_key); [apply (lo_keys _ Hok)|..].
    + exfalso.
      assert (In (el_Value e) (contents c)) as Hin by (by apply list_elem_of_In, list_elem_of_fmap_2).
      pose proof (find_none _ _ Hf _ Hin) as Hk. unfold has_key in Hk. apply String.eqb_neq in Hk. by apply Hk.
  - destruct (List.find _ _) as [x|] eqn:Hf; [|done]. exfalso.
    apply find_some in Hf as [Hin Hk]. apply list_elem_of_In, list_elem_of_fmap in Hin as (y & -> & Hy).
    unfold has_key in Hk. apply String.eqb_eq in Hk.
    assert (l1_entries c !! k = Some y) by (by apply (lo_entries _ Hok)). congruence.
Qed.

(** ** The operations refine the abstract cache *)

Lemma newL1Cache_ok maxEntries ttl : l1_ok (newL1Cache maxEntries ttl) ∧ contents (newL1Cache maxEntries ttl) = [].
Proof.
  split; [|done]. split; cbn; try constructor; try set_solver.
Qed.

(** Reordering keeps the invariant. *)
Lemma l1_reorder_ok c order :
  l1_ok c → order ≡ₚ l1_order c →
  l1_ok {| l1_maxEntries := l1_maxEntries c; l1_ttl := l1_ttl c; l1_entries := l1_entries c;
           l1_keys := l1_keys c; l1_tenants := l1_tenants c; l1_order := order; l1_next := l1_next c |}.
Proof.
  intros [Hids Hnext Hkeys Hent [Hki Hkc] [Hti Htc]] Hp. split; cbn.
  - by rewrite Hp.
  - intros e. rewrite Hp. auto.
  - by rewrite Hp.
  - intros k e. by rewrite Hp.
  - split; [|done]. intros id k. rewrite Hki. by setoid_rewrite Hp.
  - split; [|done]. intros id k. rewrite Hti. by setoid_rewrite Hp.
Qed.

Lemma MoveToFront_in e l : e ∈ l → list_MoveToFront e l = e :: list_Remove e l.
Proof.
  intros He. unfold list_MoveToFront. replace (existsb _ l) with true; [done|]. symmetry.
  apply existsb_exists. exists e. split; [by apply list_elem_of_In | apply Nat.eqb_refl].
Qed.

Lemma Remove_perm e l : NoDup (map el_id l) → e ∈ l → e :: list_Remove e l ≡ₚ l.
Proof.
  unfold list_Remove. induction l as [|x l IH]; [set_solver|]. cbn. rewrite NoDup_cons. intros [Hx Hl] He.
  destruct (Nat.eqb_spec (el_id x) (el_id e)) as [Heq|Hne]; cbn.
  - apply elem_of_cons in He as [->|He]; [|exfalso; apply Hx; rewrite Heq; by apply list_elem_of_fmap_2].
    constructor. rewrite filter_true; [done|]. intros y Hy. apply negb_true_iff, Nat.eqb_neq. intros Hye.
    apply Hx. rewrite <-Hye. by apply list_elem_of_fmap_2.
  - apply elem_of_cons in He as [->|He]; [done|]. rewrite Permutation_swap. by rewrite IH.
Qed.

Lemma l1_Get_refines c key now :
  l1_ok c →
  let r := l1_Get c key now in
  l1_ok r.2 ∧ (r.1, contents r.2) = lru_get (contents c) key now.
Proof.
  intros Hok. unfold l1_Get, lru_get. rewrite find_entry by done.
  destruct (l1_entries c !! key) as [e|] eqn:He; cbn [fmap option_fmap option_map]; [|done].
  apply (lo_entries _ Hok) in He as [He Hk]. cbn zeta. unfold time_after.
  rewrite <-Z.leb_antisym. destruct (le_expiresAt (el_Value e) <=? now).
  - destruct (l1_remove_ok c e Hok He) as [? Hc]. cbn [fst snd]. by rewrite Hc, Hk.
  - cbn [fst snd]. rewrite MoveToFront_in by done. split.
    + apply l1_reorder_ok, Remove_perm; [done | apply (lo_ids _ Hok) | done].
    + do 2 f_equal. unfold contents, without. cbn.
      rewrite list_Remove_keys by (done || apply Hok). rewrite Hk, filter_map_swap. done.
Qed.

(** Removing the last of the elements, whose keys are distinct. *)
Lemma without_last (l : list Element) e :
  NoDup (map e_key l) → last l = Some e →
  without (e_key e) (map el_Value l) = take (length l - 1) (map el_Value l).
Proof.
  intros Hnd (l' & ->)%last_Some. rewrite map_app, NoDup_app in Hnd. destruct Hnd as (_ & Hd & _).
  rewrite map_app, length_app. cbn. rewrite Nat.add_sub, take_app_length' by (by rewrite length_map).
  unfold without. rewrite List.filter_app. cbn. unfold has_key at 2. rewrite String.eqb_refl. cbn. rewrite app_nil_r.
  apply filter_true. intros x (y & -> & Hy)%list_elem_of_fmap. apply negb_true_iff, String.eqb_neq.
  intros Heq. apply (Hd (e_key y)); [by apply list_elem_of_fmap_2|]. set_solver.
Qed.

Lemma l1_add_ok c key s expiry :
  l1_ok c → l1_entries c !! key = None →
  let e := {| el_id := l1_next c;
              el_Value := {| le_cacheKey := key; le_snapshot := s; le_expiresAt := expiry |} |} in
  l1_ok {| l1_maxEntries := l1_maxEntries c; l1_ttl := l1_ttl c;
           l1_entries := <[key := e]> (l1_entries c);
           l1_keys := addCacheIndex (l1_keys c) (as_APIKeyID s) key;
           l1_tenants := addCacheIndex (l1_tenants c) (as_TenantID s) key;
           l1_order := e :: l1_order c; l1_next := S (l1_next c) |}.
Proof.
  intros [Hids Hnext Hkeys Hent Hki Hti] Hnone e. split; cbn.
  - apply NoDup_cons. split; [|done]. intros (x & Heq & Hx)%list_elem_of_fmap. apply Hnext in Hx. lia.
  - intros x [->|Hx]%elem_of_cons; cbn; [lia|]. apply Hnext in Hx. lia.
  - apply NoDup_cons. split; [|done]. intros (x & Heq & Hx)%list_elem_of_fmap.
    assert (l1_entries c !! key = Some x) by (by apply Hent). congruence.
  - intros k x. rewrite lookup_insert_Some, Hent, elem_of_cons. split.
    + intros [[<- <-]|[Hne [Hx <-]]]; [split; [by left | done] | split; [by right | done]].
    + intros [[->|Hx] <-]; [by left|]. right. split; [|done]. intros ->.
      assert (l1_entries c !! e_key x = Some x) by (by apply Hent). congruence.
  - by apply (index_of_add e_keyID _ _ e).
  - by apply (index_of_add e_tenantID _ _ e).
Qed.

Lemma without_fresh c key : l1_ok c → l1_entries c !! key = None → without key (contents c) = contents c.
Proof.
  intros Hok Hnone. apply filter_true. intros x (e & -> & He)%list_elem_of_fmap.
  apply negb_true_iff, String.eqb_neq. intros Heq.
  assert (l1_entries c !! key = Some e) by (by apply (lo_entries _ Hok)). congruence.
Qed.

Lemma l1_Set_refines c key s now :
  l1_ok c → 0 < l1_maxEntries c → Z.of_nat (length (l1_order c)) ≤ l1_maxEntries c →
  let r := l1_Set c key s now in
  l1_ok r.2 ∧ (r.1, contents r.2) = lru_set (l1_maxEntries c) (l1_ttl c) (contents c) key s now.
Proof.
  intros Hok Hmax Hlen. unfold l1_Set, lru_set.
  set (c0 := match l1_entries c !! key with Some element => l1_remove c (Some element) | None => c end).
  assert (l1_ok c0 ∧ contents c0 = without key (contents c) ∧ l1_entries c0 !! key = None ∧
          l1_maxEntries c0 = l1_maxEntries c) as (Hok0 & <- & Hnone & Hmax0).
  { unfold c0. destruct (l1_entries c !! key) as [e|] eqn:He.
    - apply (lo_entries _ Hok) in He as [He <-]. destruct (l1_remove_ok c e Hok He) as [? ->].
      split; [done|]. split; [done|]. split; [apply lookup_delete_eq | done].
    - by rewrite without_fresh. }
  pose proof (l1_add_ok c0 key s (entry_expiry (l1_ttl c) s now) Hok0 Hnone) as Hadd. cbn zeta in Hadd |- *.
  match type of Hadd with l1_ok ?c1 => set (c' := c1) in * end.
  assert (length (contents c0) ≤ length (l1_order c))%nat as Hle.
  { unfold c0. destruct (l1_entries c !! key); unfold contents; rewrite length_map; [|done].
    cbn. unfold list_Remove. apply filter_length_le. }
  assert (contents c' = {| le_cacheKey := key; le_snapshot := s; le_expiresAt := entry_expiry (l1_ttl c) s now |}
            :: contents c0) as Hc by done.
  assert (length (l1_order c') = S (length (contents c0))) as Hlc by (cbn; unfold contents; by rewrite length_map).
  change (l1_maxEntries c') with (l1_maxEntries c0). rewrite <-Hc, Hmax0.
  assert (length (contents c') = length (l1_order c')) as Hlc' by (unfold contents; by rewrite length_map).
  rewrite Hlc', Z.leb_antisym. destruct (Z.ltb_spec (l1_maxEntries c) (Z.of_nat (length (l1_order c')))) as [Hlt|Hge]; cbn [negb fst snd].
  - destruct (last (l1_order c')) as [e|] eqn:Hlast; [|by apply last_None in Hlast].
    assert (e ∈ l1_order c') as He by (apply last_Some in Hlast as [? ->]; set_solver).
    destruct (l1_remove_ok c' e Hadd He) as [Hr Hrc]. split; [done|]. f_equal. rewrite Hrc. unfold contents.
    rewrite (without_last _ _ (lo_keys _ Hadd) Hlast). f_equal. lia.
  - split; [done|]. f_equal. rewrite take_ge; [done|]. lia.
Qed.

(** Two filters of a list with distinct keys that drop one entry. *)
Lemma filter_without_length belongs (l : list Element) e :
  NoDup (map e_key l) → e ∈ l → belongs (el_Value e) = true →
  length (List.filter belongs (map el_Value l)) =
    S (length (List.filter belongs (without (e_key e) (map el_Value l)))).
Proof.
  unfold without. induction l as [|x l IH]; [set_solver|]. cbn [map]. rewrite NoDup_cons. intros [Hx Hl] He Hb.
  cbn [List.filter]. unfold has_key at 1. fold (e_key x).
  destruct (String.eqb_spec (e_key x) (e_key e)) as [Heq|Hne]; cbn [negb].
  - assert (x = e) as ->.
    { apply elem_of_cons in He as [->|He]; [done|]. exfalso. apply Hx. rewrite Heq. by apply list_elem_of_fmap_2. }
    rewrite Hb. cbn [length]. f_equal. f_equal. f_equal. symmetry. apply filter_true.
    intros y (z & -> & Hz)%list_elem_of_fmap. apply negb_true_iff, String.eqb_neq. intros Hk.
    apply Hx. fold (e_key z) in Hk. rewrite <-Hk. by apply list_elem_of_fmap_2.
  - apply elem_of_cons in He as [->|He]; [done|]. cbn [List.filter].
    destruct (belongs (el_Value x)); cbn [length]; by rewrite (IH Hl He Hb).
Qed.

Lemma filter_not_without belongs (l : list Element) e :
  NoDup (map e_key l) → e ∈ l → belongs (el_Value e) = true →
  List.filter (λ x, negb (belongs x)) (without (e_key e) (map el_Value l)) =
  List.filter (λ x, negb (belongs x)) (map el_Value l).
Proof.
  intros Hnd He Hb. unfold without. rewrite filter_filter_bool. apply filter_ext_elem.
  intros x (y & -> & Hy)%list_elem_of_fmap. unfold has_key. fold (e_key y).
  destruct (String.eqb_spec (e_key y) (e_key e)) as [Heq|]; [|done].
  assert (y = e) as -> by (by eapply (NoDup_map_eq e_key)). by rewrite Hb.
Qed.

Section deletes.
Context (f : Element → string) (proj : l1Cache → CacheIndex) (id : string) (belongs : l1Entry → bool).
Hypothesis Hproj : ∀ c, l1_ok c → index_of f (proj c) (l1_order c).
Hypothesis Hbelongs : ∀ e, belongs (el_Value e) = true ↔ f e = id.

Lemma deleteIndexed_refines visit c removed :
  l1_ok c → (∀ k, k ∈ index_set (proj c) id → k ∈ visit) →
  let r := deleteIndexed (λ c, index_set (proj c) id) visit c removed in
  l1_ok r.2 ∧
  r.1 = removed + Z.of_nat (length (List.filter belongs (contents c))) ∧
  contents r.2 = List.filter (λ e, negb (belongs e)) (contents c) ∧
  l1_maxEntries r.2 = l1_maxEntries c ∧ l1_ttl r.2 = l1_ttl c.
Proof using All.
  revert c removed. induction visit as [|k visit IH]; intros c removed Hok Hin; cbn [deleteIndexed].
  - assert (∀ x, x ∈ contents c → belongs x = false) as Hnone.
    { intros x (e & -> & He)%list_elem_of_fmap. destruct (belongs (el_Value e)) eqn:Hb; [|done].
      apply Hbelongs in Hb. exfalso. apply (not_elem_of_nil (e_key e)), Hin.
      apply (io_set _ _ _ (Hproj c Hok)). by exists e. }
    cbn zeta. cbn [fst snd]. rewrite (filter_true (λ e, negb (belongs e))) by (intros; by rewrite Hnone).
    rewrite (filter_false belongs) by done. cbn. split; [done|]. split; [lia | done].
  - destruct (decide (k ∈ index_set (proj c) id)) as [Hk|Hk].
    + apply (io_set _ _ _ (Hproj c Hok)) in Hk as (e & He & <- & Hf).
      rewrite (proj2 (lo_entries _ Hok (e_key e) e)) by done.
      destruct (l1_remove_ok c e Hok He) as [Hok' Hc'].
      assert (belongs (el_Value e) = true) as Hb by (by apply Hbelongs).
      destruct (IH (l1_remove c (Some e)) (removed + 1) Hok') as (? & -> & -> & -> & ->).
      { intros k' Hk'. pose proof (proj1 (io_set _ _ _ (Hproj _ Hok') _ _) Hk') as (x & Hx & <- & Hfx).
        cbn in Hx. apply elem_of_Remove in Hx as [Hx Hne]; try apply Hok; [|done].
        assert (e_key x ∈ e_key e :: visit) as Hv
          by (apply Hin, (io_set _ _ _ (Hproj c Hok)); by exists x).
        apply elem_of_cons in Hv as [?|?]; done. }
      rewrite Hc'. unfold contents. rewrite filter_not_without by (done || apply Hok).
      rewrite (filter_without_length belongs _ e) by (done || apply Hok).
      split; [done|]. split; [lia | done].
    + apply IH; [done|]. intros k' Hk'. apply Hin in Hk' as Hv. apply elem_of_cons in Hv as [->|?]; done.
Qed.
End deletes.

(** *** Sequences of operations *)

Inductive L1Op :=
| L1Get (key : string) (now : Time)
| L1Set (key : string) (s : authSnapshot) (now : Time)
| L1DeleteKey (visit : gset string → list string) (keyID : string)
| L1DeleteTenant (visit : gset string → list string) (tenantID : string).

Inductive L1Answer := AGot (r : L1Result) | ASet (evicted : bool) | ADeleted (n : Z).

(** A range visits every element. *)
Definition visits_all (op : L1Op) : Prop :=
  match op with
  | L1DeleteKey visit _ | L1DeleteTenant visit _ => ∀ s, visit s ≡ₚ elements s
  | _ => True
  end.

Definition l1_step (c : l1Cache) (op : L1Op) : L1Answer * l1Cache :=
  match op with
  | L1Get key now => let r := l1_Get c key now in (AGot r.1, r.2)
  | L1Set key s now => let r := l1_Set c key s now in (ASet r.1, r.2)
  | L1DeleteKey visit keyID => let r := l1_DeleteKey visit c keyID in (ADeleted r.1, r.2)
  | L1DeleteTenant visit tenantID => let r := l1_DeleteTenant visit c tenantID in (ADeleted r.1, r.2)
  end.

Definition lru_step (maxEntries : Z) (ttl : Duration) (l : list l1Entry) (op : L1Op) : L1Answer * list l1Entry :=
  match op with
  | L1Get key now => let r := lru_get l key now in (AGot r.1, r.2)
  | L1Set key s now => let r := lru_set maxEntries ttl l key s now in (ASet r.1, r.2)
  | L1DeleteKey _ keyID => let r := lru_delete (of_key keyID) l in (ADeleted r.1, r.2)
  | L1DeleteTenant _ tenantID => let r := lru_delete (of_tenant tenantID) l in (ADeleted r.1, r.2)
  end.

Fixpoint run {S : Type} (step : S → L1Op → L1Answer * S) (s : S) (ops : list L1Op) : list L1Answer * S :=
  match ops with
  | [] => ([], s)
  | op :: ops => let r := step s op in let rest := run step r.2 ops in (r.1 :: rest.1, rest.2)
  end.

(** The state of a cache in use. *)
Record l1_live (maxEntries : Z) (ttl : Duration) (c : l1Cache) : Prop := {
  ll_ok : l1_ok c;
  ll_max : l1_maxEntries c = maxEntries;
  ll_ttl : l1_ttl c = ttl;
  ll_bound : Z.of_nat (length (contents c)) ≤ maxEntries;
}.

Lemma l1_params_Get c key now :
  l1_maxEntries (l1_Get c key now).2 = l1_maxEntries c ∧ l1_ttl (l1_Get c key now).2 = l1_ttl c.
Proof. unfold l1_Get. repeat case_match; done. Qed.

Lemma l1_params_Set c key s now :
  l1_maxEntries (l1_Set c key s now).2 = l1_maxEntries c ∧ l1_ttl (l1_Set c key s now).2 = l1_ttl c.
Proof. unfold l1_Set, l1_remove. repeat case_match; simplify_eq/=; done. Qed.

Lemma lru_step_bound maxEntries ttl l op :
  0 < maxEntries → Z.of_nat (length l) ≤ maxEntries → Z.of_nat (length (lru_step maxEntries ttl l op).2) ≤ maxEntries.
Proof.
  intros Hmax Hl. destruct op as [key now|key s now|visit id|visit id]; cbn [lru_step snd].
  - unfold lru_get. destruct (List.find (has_key key) l) as [e|] eqn:Hf; [|done].
    assert (length (without key l) < length l)%nat.
    { apply find_some in Hf as [Hin Hk]. unfold without. induction l as [|x l IH]; [done|].
      cbn. destruct Hin as [->|Hin]; [rewrite Hk; cbn; pose proof (filter_length_le (λ e, negb (has_key key e)) l); lia|].
      specialize (IH ltac:(cbn in Hl; lia) Hin). destruct (negb _); cbn; lia. }
    destruct (_ <=? _); cbn; lia.
  - cbn zeta. cbn [snd]. unfold lru_set. cbn [snd]. rewrite length_take. lia.
  - cbn. pose proof (filter_length_le (λ e, negb (of_key id e)) l). lia.
  - cbn. pose proof (filter_length_le (λ e, negb (of_tenant id e)) l). lia.
Qed.

Lemma l1_step_refines maxEntries ttl c op :
  0 < maxEntries → l1_live maxEntries ttl c → visits_all op →
  l1_live maxEntries ttl (l1_step c op).2 ∧
  ((l1_step c op).1, contents (l1_step c op).2) = lru_step maxEntries ttl (contents c) op.
Proof.
  intros Hmax [Hok Hm Ht Hb] Hvisit.
  assert (l1_ok (l1_step c op).2 ∧ l1_maxEntries (l1_step c op).2 = maxEntries ∧ l1_ttl (l1_step c op).2 = ttl ∧
    ((l1_step c op).1, contents (l1_step c op).2) = lru_step maxEntries ttl (contents c) op)
    as (Hok' & Hm' & Ht' & Heq).
  { destruct op as [key now|key s now|visit id|visit id]; cbn [l1_step lru_step fst snd].
    - destruct (l1_Get_refines c key now Hok) as [? Heq]. destruct (l1_params_Get c key now) as [-> ->].
      rewrite <-Heq. done.
    - destruct (l1_Set_refines c key s now Hok) as [? Heq]; [lia | by rewrite Hm; unfold contents in Hb; rewrite length_map in Hb|].
      destruct (l1_params_Set c key s now) as [-> ->]. rewrite <-Hm, <-Ht, <-Heq. done.
    - destruct (deleteIndexed_refines e_keyID l1_keys id (of_key id)) with (visit := visit (index_set (l1_keys c) id))
        (c := c) (removed := 0) as (? & Hr & Hc & ? & ?); try done.
      { intros c' []. done. } { intros e. apply String.eqb_eq. }
      { intros k Hk. by rewrite (Hvisit _), elem_of_elements. }
      unfold l1_DeleteKey, lru_delete. rewrite Hr, Hc, Z.add_0_l. split_and!; (done || congruence).
    - destruct (deleteIndexed_refines e_tenantID l1_tenants id (of_tenant id)) with (visit := visit (index_set (l1_tenants c) id))
        (c := c) (removed := 0) as (? & Hr & Hc & ? & ?); try done.
      { intros c' []. done. } { intros e. apply String.eqb_eq. }
      { intros k Hk. by rewrite (Hvisit _), elem_of_elements. }
      unfold l1_DeleteTenant, lru_delete. rewrite Hr, Hc, Z.add_0_l. split_and!; (done || congruence). }
  split; [|done]. split; try done.
  pose proof (lru_step_bound maxEntries ttl (contents c) op Hmax Hb) as Hb'. by rewrite <-Heq in Hb'.
Qed.

Lemma l1_run_refines maxEntries ttl c ops :
  0 < maxEntries → l1_live maxEntries ttl c → Forall visits_all ops →
  l1_live maxEntries ttl (run l1_step c ops).2 ∧
  ((run l1_step c ops).1, contents (run l1_step c ops).2) = run (lru_step maxEntries ttl) (contents c) ops.
Proof.
  intros Hmax Hlive Hops. revert c Hlive. induction Hops as [|op ops Hop _ IH]; intros c Hlive; [done|].
  cbn [run]. destruct (l1_step_refines maxEntries ttl c op Hmax Hlive Hop) as [Hlive' Heq].
  destruct (IH _ Hlive') as [Hlive'' Heq']. rewrite <-Heq. cbn [fst snd] in Heq' |- *. rewrite <-Heq'. done.
Qed.

(** *** What the operations leave *)

Section live.
Context (maxEntries : Z) (ttl : Duration) (Hmax : 0 < maxEntries).

Lemma l1_Get_live c key now :
  l1_live maxEntries ttl c →
  l1_live maxEntries ttl (l1_Get c key now).2 ∧
  (∀ e, e ∈ contents (l1_Get c key now).2 → e ∈ contents c) ∧
  ∀ s, (l1_Get c key now).1 = L1Hit s →
    ∃ e, e ∈ contents c ∧ le_cacheKey e = key ∧ le_snapshot e = s ∧ now < le_expiresAt e.
Proof using Hmax.
  intros Hlive. destruct (l1_step_refines maxEntries ttl c (L1Get key now) Hmax Hlive I) as [Hl Heq].
  cbn [l1_step lru_step fst snd] in Hl, Heq. injection Heq as Hr Hc. split; [done|].
  unfold lru_get in Hr, Hc. destruct (List.find (has_key key) (contents c)) as [e|] eqn:Hf.
  - apply find_some in Hf as [Hin%list_elem_of_In Hk%String.eqb_eq].
    destruct (Z.leb_spec (le_expiresAt e) now).
    + cbn in Hr, Hc. rewrite Hr, Hc. split; [|done]. intros x [? _]%elem_of_filter_bool. done.
    + cbn in Hr, Hc. rewrite Hr, Hc. split.
      * intros x [->|[? _]%elem_of_filter_bool]%elem_of_cons; done.
      * intros s [= <-]. by exists e.
  - cbn in Hr, Hc. rewrite Hr, Hc. done.
Qed.

Lemma l1_Set_live c key s now :
  l1_live maxEntries ttl c →
  l1_live maxEntries ttl (l1_Set c key s now).2 ∧
  ∀ e, e ∈ contents (l1_Set c key s now).2 → e ∈ contents c ∨ (le_cacheKey e = key ∧ le_snapshot e = s).
Proof using Hmax.
  intros Hlive. destruct (l1_step_refines maxEntries ttl c (L1Set key s now) Hmax Hlive I) as [Hl Heq].
  cbn [l1_step lru_step fst snd] in Hl, Heq. injection Heq as _ Hc. split; [done|]. rewrite Hc.
  intros e (i & Hi & _)%elem_of_take. apply list_elem_of_lookup_2 in Hi.
  apply elem_of_cons in Hi as [->|[? _]%elem_of_filter_bool]; [by right | by left].
Qed.

Lemma l1_DeleteKey_live visit c keyID :
  (∀ s, visit s ≡ₚ elements s) → l1_live maxEntries ttl c →
  l1_live maxEntries ttl (l1_DeleteKey visit c keyID).2 ∧
  ∀ e, e ∈ contents (l1_DeleteKey visit c keyID).2 → e ∈ contents c ∧ as_APIKeyID (le_snapshot e) ≠ keyID.
Proof using Hmax.
  intros Hv Hlive. destruct (l1_step_refines maxEntries ttl c (L1DeleteKey visit keyID) Hmax Hlive Hv) as [Hl Heq].
  cbn [l1_step lru_step fst snd] in Hl, Heq. injection Heq as _ Hc. split; [done|]. rewrite Hc.
  intros e [He Hk%negb_true_iff%String.eqb_neq]%elem_of_filter_bool. done.
Qed.

Lemma l1_DeleteTenant_live visit c tenantID :
  (∀ s, visit s ≡ₚ elements s) → l1_live maxEntries ttl c →
  l1_live maxEntries ttl (l1_DeleteTenant visit c tenantID).2 ∧
  ∀ e, e ∈ contents (l1_DeleteTenant visit c tenantID).2 → e ∈ contents c ∧ as_TenantID (le_snapshot e) ≠ tenantID.
Proof using Hmax.
  intros Hv Hlive. destruct (l1_step_refines maxEntries ttl c (L1DeleteTenant visit tenantID) Hmax Hlive Hv) as [Hl Heq].
  cbn [l1_step lru_step fst snd] in Hl, Heq. injection Heq as _ Hc. split; [done|]. rewrite Hc.
  intros e [He Hk%negb_true_iff%String.eqb_neq]%elem_of_filter_bool. done.
Qed.
End live.

(** C27: The in-memory cache is an LRU cache. From an empty cache, under any
    sequence of reads, writes and deletions, whatever the order in which Go
    visits its maps, every answer (hit, miss or expiry; eviction; number
    deleted) and what remains, in order of use, are those of a list of at most
    [maxEntries] entries that drops the least recently used one. *)
Theorem l1_cache_is_lru maxEntries ttl ops :
  0 < maxEntries → Forall visits_all ops →
  let r := run l1_step (newL1Cache maxEntries ttl) ops in
  (r.1, contents r.2) = run (lru_step maxEntries ttl) [] ops ∧ l1_live maxEntries ttl r.2.
Proof.
  intros Hmax Hops. destruct (newL1Cache_ok maxEntries ttl) as [Hok Hc].
  destruct (l1_run_refines maxEntries ttl (newL1Cache maxEntries ttl) ops Hmax) as [Hlive Heq]; [|done|].
  - split; try done. cbn. lia.
  - rewrite <-Hc. done.
Qed.

(** ** Concrete instances *)

Definition demo_snapshot (id tenant prefix : string) : authSnapshot :=
  {| as_Version := 1; as_APIKeyID := id; as_TenantID := tenant; as_KeyPrefix := prefix;
     as_LookupDigest := digestPrefix prefix; as_KeyHash := hashSecret demo_secret demo_pepper;
     as_HashVersion := 1; as_KeyStatus := APIKeyActive; as_KeyExpiresAt := None; as_LastUsedAt := None;
     as_TenantStatus := TenantActive; as_TenantVersion := 1; as_AllowedModels := ["fast"%string];
     as_GeneratedAt := 5; as_CachedUntil := time_zero |}.

Definition demo_l1_ops : list L1Op :=
  [L1Set "a" (demo_snapshot "1" "t" "p") 0; L1Set "b" (demo_snapshot "2" "t" "q") 1; L1Get "a" 2;
   L1Set "c" (demo_snapshot "3" "u" "r") 3; L1Get "b" 4; L1Get "a" 60; L1DeleteTenant elements "t";
   L1Get "c" 500].

Lemma demo_l1_visits : Forall visits_all demo_l1_ops.
Proof. repeat (apply Forall_cons; split; [first [intros ?; reflexivity | exact I]|]). by apply Forall_nil. Qed.

(** The second entry is the least recently used when the third arrives. *)
Example demo_l1_answers :
  match (run l1_step (newL1Cache 2 100) demo_l1_ops).1 with
  | [ASet false; ASet false; AGot (L1Hit s); ASet true; AGot L1Miss; AGot (L1Hit _); ADeleted 1; AGot L1Expired] =>
      as_APIKeyID s = "1"%string
  | _ => False
  end.
Proof. vm_compute. reflexivity. Qed.

Lemma l1_cache_is_lru_witness :
  let r := run l1_step (newL1Cache 2 100) demo_l1_ops in
  (r.1, contents r.2) = run (lru_step 2 100) [] demo_l1_ops ∧ l1_live 2 100 r.2.
Proof. exact (l1_cache_is_lru 2 100 demo_l1_ops eq_refl demo_l1_visits). Defined.
