(* ===== verification/AuthCache.v ===== *)
(** * The credential store: two cache levels over the database

    Models [src/internal/apikey/cache.go]. A lookup asks the in-memory cache
    ([AuthL1.v]), then the shared cache, then the database; what the database
    answered is written to both caches only after the credential was verified
    ([Promote]). Invalidation takes the write lock, bumps the generation and
    deletes from both levels; a write back happens under the read lock and only
    when the generation is still the one its load began with.

    The sections under a lock, and the single calls outside, are operations of
    their own: the atomic steps of the relation of [AuthCoherence.v]. [load] and
    [Lookup] compose them the way one goroutine does. The metrics observer is
    left out. *)

From S2P Require Import Prelude Encoding Token AuthSnapshot AuthL1.

(** ** Interfaces *)

(** [encoding/json] on the snapshot; [None] is its error. *)
Class SnapshotCodec := {
  snapshot_marshal : authSnapshot → option string;
  snapshot_unmarshal : string → option authSnapshot;
}.

Class SnapshotCodecLaws `{SnapshotCodec} :=
  snapshot_codec_law s payload : snapshot_marshal s = Some payload → snapshot_unmarshal payload = Some s.

(** The [sharedAuthCache] interface. Reading answers [None] on an error and
    [Some None] on a miss; writing answers whether it succeeded. *)
Class sharedAuthCache (R : Type) := {
  sa_Load : R → string → option (option string);
  sa_Store : string → string → string → string → Duration → R → bool * R;
  sa_DeleteValue : string → R → bool * R;
  sa_InvalidateKey : string → R → bool * R;
  sa_InvalidateTenant : string → R → bool * R;
}.

(** What an implementation promises, about the entries it holds: cache key, key
    and tenant they were stored for, payload. An operation that fails may have
    been done or not. The promise is made to a client that stores the entry of a
    key always under the same cache key ([home]), for the same tenant ([owner])
    and for the same time. *)
Class SharedAuthLaws (R : Type) `{sharedAuthCache R} (home owner : string → string) (lifetime : Duration) := {
  sa_ok : R → Prop;
  sa_holds : R → string → string → string → string → Prop;
  sa_expires : R → R → Prop;
  sa_name : string → Prop;   (* the names of entries *)
  sa_load_law r k p : sa_ok r → sa_name k → sa_Load r k = Some (Some p) → ∃ kid tid, sa_holds r k kid tid p;
  sa_store_law r k kid tid p ttl : sa_ok r → k = home kid → tid = owner kid → ttl = lifetime →
    sa_ok (sa_Store k kid tid p ttl r).2 ∧
    ∀ k' kid' tid' p', sa_holds (sa_Store k kid tid p ttl r).2 k' kid' tid' p' →
      sa_holds r k' kid' tid' p' ∨ (k' = k ∧ kid' = kid ∧ tid' = tid ∧ p' = p);
  sa_delete_law r k : sa_ok r → sa_name k →
    sa_ok (sa_DeleteValue k r).2 ∧
    ∀ k' kid tid p, sa_holds (sa_DeleteValue k r).2 k' kid tid p → sa_holds r k' kid tid p;
  sa_invalidate_key_law r keyID : sa_ok r →
    sa_ok (sa_InvalidateKey keyID r).2 ∧
    ∀ k kid tid p, sa_holds (sa_InvalidateKey keyID r).2 k kid tid p →
      sa_holds r k kid tid p ∧ ((sa_InvalidateKey keyID r).1 = true → kid ≠ keyID);
  sa_invalidate_tenant_law r tenantID : sa_ok r →
    sa_ok (sa_InvalidateTenant tenantID r).2 ∧
    ∀ k kid tid p, sa_holds (sa_InvalidateTenant tenantID r).2 k kid tid p →
      sa_holds r k kid tid p ∧ ((sa_InvalidateTenant tenantID r).1 = true → tid ≠ tenantID);
  sa_expires_law r r' : sa_ok r → sa_expires r r' →
    sa_ok r' ∧ ∀ k kid tid p, sa_holds r' k kid tid p → sa_holds r k kid tid p;
}.

(** ** Data *)

(** The settings the store reads ([config.AuthCache]). *)
Record AuthCacheSettings := {
  ac_Enabled : bool;
  ac_L1MaxEntries : Z;
  ac_L1TTL : Duration;
  ac_L2TTL : Duration;
  ac_KeyPrefix : string;
  ac_InvalidationChannel : string;
}.

Record credentialStore := {
  cs_enabled : bool;
  cs_settings : AuthCacheSettings;
  cs_l1 : l1Cache;
  cs_generation : Z;   (* uint64 *)
}.

Inductive LoadSource := FromL1 | FromL2 | FromPostgres.

#[export] Instance LoadSource_eq_dec : EqDecision LoadSource.
Proof. solve_decision. Defined.

Inductive LookupError := LookupFailed (e : LoadError) | LookupCtx (e : CtxErr).

(** The two [sync.Once] are whether they have run. *)
Record cacheLoad := {
  cl_result : result LookupError authSnapshot;
  cl_source : LoadSource;
  cl_queries : Z;
  cl_generation : Z;
  cl_promoted : bool;
  cl_touched : bool;
}.

Definition newCredentialStore (settings : AuthCacheSettings) : credentialStore :=
  {| cs_enabled := ac_Enabled settings; cs_settings := settings;
     cs_l1 := newL1Cache (ac_L1MaxEntries settings) (ac_L1TTL settings); cs_generation := 0 |}.

Definition newRedisCredentialStore (settings : AuthCacheSettings) : result string credentialStore :=
  if negb (ac_Enabled settings) || (ac_L1MaxEntries settings <=? 0) ||
     (ac_L1TTL settings <=? 0) || (ac_L2TTL settings <? ac_L1TTL settings) ||
     (ac_KeyPrefix settings =? "")%string || (ac_InvalidationChannel settings =? "")%string
  then Err "authentication cache settings are invalid"%string
  else Ok (newCredentialStore settings).

Definition with_l1 (store : credentialStore) (l1 : l1Cache) : credentialStore :=
  {| cs_enabled := cs_enabled store; cs_settings := cs_settings store; cs_l1 := l1;
     cs_generation := cs_generation store |}.

Definition store_cacheKey (settings : AuthCacheSettings) (lookupDigest : string) : string :=
  (ac_KeyPrefix settings ++ ":snapshot:" ++ hex_encode lookupDigest)%string.

Definition setL1 (store : credentialStore) (cacheKey : string) (snapshot : authSnapshot) (now : Time) : credentialStore :=
  with_l1 store (l1_Set (cs_l1 store) cacheKey snapshot now).2.

(** ** Loading *)

Section operations.
Context {DB : Type} `{AuthRows DB} {R : Type} `{sharedAuthCache R} `{SnapshotCodec}.

(** *** The steps of [load] *)

(** The generation is read first, then the in-memory cache again. *)
Definition load_begin (store : credentialStore) (cacheKey : string) (now : Time) : Z * L1Result * credentialStore :=
  let r := l1_Get (cs_l1 store) cacheKey now in
  (cs_generation store, r.1, with_l1 store r.2).

Inductive SharedRead := SharedHit (snapshot : authSnapshot) | SharedInvalid | SharedMiss | SharedError.

Definition shared_read (r : R) (cacheKey lookupDigest : string) (now : Time) : SharedRead :=
  match sa_Load r cacheKey with
  | None => SharedError
  | Some None => SharedMiss
  | Some (Some payload) =>
      match snapshot_unmarshal payload with
      | None => SharedInvalid
      | Some snapshot =>
          match snapshot_validate snapshot lookupDigest now true with
          | Ok snapshot => SharedHit snapshot
          | Err _ => SharedInvalid
          end
      end
  end.

(** Under the read lock: a hit in the shared cache is copied down only when
    nothing was invalidated since the load began. *)
Definition copy_down (store : credentialStore) (generation : Z) (cacheKey : string) (snapshot : authSnapshot)
    (now : Time) : credentialStore :=
  if cs_generation store =? generation then setL1 store cacheKey snapshot now else store.

Definition loaded (result : result LookupError authSnapshot) (source : LoadSource) (queries generation : Z) : cacheLoad :=
  {| cl_result := result; cl_source := source; cl_queries := queries; cl_generation := generation;
     cl_promoted := false; cl_touched := false |}.

Definition load_source (db : DB) (lookupDigest : string) (now : Time) (generation : Z) : cacheLoad :=
  let '(result, queries) := source_Load db lookupDigest now in
  loaded (match result with Ok s => Ok s | Err e => Err (LookupFailed e) end) FromPostgres queries generation.

(** *** [load], as one goroutine runs it *)

Definition load (store : credentialStore) (r : R) (db : DB) (cacheKey lookupDigest : string) (now : Time) :
    cacheLoad * credentialStore * R :=
  let '(generation, l1, store) := load_begin store cacheKey now in
  match l1 with
  | L1Hit snapshot => (loaded (Ok snapshot) FromL1 0 generation, store, r)
  | _ =>
      match shared_read r cacheKey lookupDigest now with
      | SharedHit snapshot =>
          (loaded (Ok snapshot) FromL2 0 generation, copy_down store generation cacheKey snapshot now, r)
      | SharedInvalid => (load_source db lookupDigest now generation, store, (sa_DeleteValue cacheKey r).2)
      | SharedMiss | SharedError => (load_source db lookupDigest now generation, store, r)
      end
  end.

(** *** [Lookup]

    How the call joins the loads in flight ([golang.org/x/sync/singleflight]):
    it leads a load of its own, is given the result of one that was running, or
    its context ends first. *)
Inductive Flight := Leads | Joins (shared : cacheLoad) | GivesUp (e : CtxErr).

Definition Lookup (store : credentialStore) (r : R) (db : DB) (lookupDigest : string) (flight : Flight) (now : Time) :
    cacheLoad * bool * credentialStore * R :=
  let cacheKey := store_cacheKey (cs_settings store) lookupDigest in
  if negb (cs_enabled store) then (load_source db lookupDigest now 0, true, store, r)
  else
    let '(l1, c) := l1_Get (cs_l1 store) cacheKey now in
    let store := with_l1 store c in
    match l1 with
    | L1Hit snapshot => (loaded (Ok snapshot) FromL1 0 0, false, store, r)
    | _ =>
        match flight with
        | Leads => let '(load, store, r) := load store r db cacheKey lookupDigest now in (load, true, store, r)
        | Joins load => (load, false, store, r)
        | GivesUp e => (loaded (Err (LookupCtx e)) FromL1 0 0, false, store, r)
        end
    end.

(** *** [Promote]: under the read lock, once per load *)

Definition mark_promoted (load : cacheLoad) : cacheLoad :=
  {| cl_result := cl_result load; cl_source := cl_source load; cl_queries := cl_queries load;
     cl_generation := cl_generation load; cl_promoted := true; cl_touched := cl_touched load |}.

Definition Promote (store : credentialStore) (r : R) (cacheKey : string) (load : cacheLoad) (now : Time) :
    cacheLoad * credentialStore * R :=
  match cl_result load with
  | Err _ => (load, store, r)
  | Ok snapshot =>
      if negb (cs_enabled store) || negb (bool_decide (cl_source load = FromPostgres)) then (load, store, r)
      else if negb (cs_generation store =? cl_generation load) then (load, store, r)
      else if cl_promoted load then (load, store, r)
      else
        let ttl := ac_L2TTL (cs_settings store) in
        let snapshot := with_cached_until snapshot (time_add now ttl) in
        let r := match snapshot_marshal snapshot with
                 | Some payload => (sa_Store cacheKey (as_APIKeyID snapshot) (as_TenantID snapshot) payload ttl r).2
                 | None => r
                 end in
        (mark_promoted load, setL1 store cacheKey snapshot now, r)
  end.

(** *** Invalidation: under the write lock *)

Definition bump (store : credentialStore) (l1 : l1Cache) : credentialStore :=
  {| cs_enabled := cs_enabled store; cs_settings := cs_settings store; cs_l1 := l1;
     cs_generation := wrap_uint64 (cs_generation store + 1) |}.

(** The last component: whether the shared cache was invalidated. *)
Definition InvalidateKey (visit : gset string → list string) (store : credentialStore) (r : R) (keyID : string) :
    credentialStore * R * bool :=
  if negb (cs_enabled store) then (store, r, true)
  else
    let store := bump store (l1_DeleteKey visit (cs_l1 store) keyID).2 in
    let '(ok, r) := sa_InvalidateKey keyID r in (store, r, ok).

Definition InvalidateTenant (visit : gset string → list string) (store : credentialStore) (r : R) (tenantID : string) :
    credentialStore * R * bool :=
  if negb (cs_enabled store) then (store, r, true)
  else
    let store := bump store (l1_DeleteTenant visit (cs_l1 store) tenantID).2 in
    let '(ok, r) := sa_InvalidateTenant tenantID r in (store, r, ok).

(** A message of another process; an ill-formed one is dropped. *)
Record invalidationEvent := { ie_Version : Z; ie_EventID : string; ie_Scope : string; ie_ID : string }.

Definition invalidationVersion : Z := 1.

Definition handleInvalidation (visit : gset string → list string) (store : credentialStore) (r : R)
    (payload : option invalidationEvent) : credentialStore * R :=
  match payload with
  | None => (store, r)
  | Some event =>
      if negb (ie_Version event =? invalidationVersion) || (ie_EventID event =? "")%string || (ie_ID event =? "")%string
      then (store, r)
      else if (ie_Scope event =? "key")%string then
        (bump store (l1_DeleteKey visit (cs_l1 store) (ie_ID event)).2, (sa_InvalidateKey (ie_ID event) r).2)
      else if (ie_Scope event =? "tenant")%string then
        (bump store (l1_DeleteTenant visit (cs_l1 store) (ie_ID event)).2, (sa_InvalidateTenant (ie_ID event) r).2)
      else (store, r)
  end.
End operations.
