(* ===== verification/RedisAuth.v ===== *)
(** * The shared credential cache in Redis

    Models [src/internal/apikey/cache_redis.go] over an interface to a Redis
    server, and proves what the credential store relies on ([SharedAuthLaws] of
    [AuthCache.v]): an entry is found by the index of its key and by the index of
    its tenant as long as it lives. Subscribing and publishing are left out; they
    carry the events of [handleInvalidation]. *)

From S2P Require Import Prelude Token AuthSnapshot AuthCache.

(** ** The server

    The commands the cache sends, what they do to the data, and the clock by
    which keys expire. *)

Record RedisData := {
  rd_strings : gmap string (string * Time);
  rd_sets : gmap string (gset string * option Time);   (* [None]: no expiry *)
  rd_clock : Time;
}.

Inductive RedisCommand :=
| RSet (key value : string) (ttl : Duration)
| RSAdd (key : string) (members : list string)
| RExpire (key : string) (ttl : Duration)
| RDel (keys : list string).

Definition remove_all {A} (keys : list string) (m : gmap string A) : gmap string A :=
  filter (λ kv : string * A, kv.1 ∉ keys) m.

Definition redis_apply (d : RedisData) (c : RedisCommand) : RedisData :=
  match c with
  | RSet key value ttl =>
      {| rd_strings := <[key := (value, rd_clock d + ttl)]> (rd_strings d);
         rd_sets := delete key (rd_sets d); rd_clock := rd_clock d |}
  | RSAdd key members =>
      match rd_strings d !! key with
      | Some _ => d
      | None =>
          let '(old, deadline) := default (∅, None) (rd_sets d !! key) in
          {| rd_strings := rd_strings d;
             rd_sets := <[key := (list_to_set members ∪ old, deadline)]> (rd_sets d); rd_clock := rd_clock d |}
      end
  | RExpire key ttl =>
      {| rd_strings := alter (λ v : string * Time, (v.1, rd_clock d + ttl)) key (rd_strings d);
         rd_sets := alter (λ v : gset string * option Time, (v.1, Some (rd_clock d + ttl))) key (rd_sets d);
         rd_clock := rd_clock d |}
  | RDel keys =>
      {| rd_strings := remove_all keys (rd_strings d); rd_sets := remove_all keys (rd_sets d);
         rd_clock := rd_clock d |}
  end.

(** Reading answers [None] on an error; a transaction is all or nothing, and when
    it answers an error it may have been carried out. *)
Class RedisServer (T : Type) := {
  rd_data : T → RedisData;
  rd_Get : T → string → option (option string);
  rd_SMembers : T → string → option (list string);
  rd_Exec : list RedisCommand → T → bool * T;
}.

Class RedisServerLaws (T : Type) `{RedisServer T} := {
  rd_get_law t k o : rd_Get t k = Some o → o = fst <$> rd_strings (rd_data t) !! k;
  rd_smembers_law t k l : rd_SMembers t k = Some l →
    ∀ x, x ∈ l ↔ ∃ s, rd_sets (rd_data t) !! k = Some s ∧ x ∈ s.1;
  rd_exec_law cmds t :
    rd_data (rd_Exec cmds t).2 = foldl redis_apply (rd_data t) cmds ∨
    ((rd_Exec cmds t).1 = false ∧ rd_data (rd_Exec cmds t).2 = rd_data t);
}.

(** Time passes: what is overdue is gone. *)
Definition live_string (now : Time) (v : string * Time) : Prop := now < v.2.
Definition live_set (now : Time) (v : gset string * option Time) : Prop := ∀ t, v.2 = Some t → now < t.
#[export] Instance live_string_dec now v : Decision (live_string now v).
Proof. unfold live_string. apply _. Defined.
#[export] Instance live_set_dec now v : Decision (live_set now v).
Proof.
  refine (match v.2 as o return Decision (∀ t, o = Some t → now < t) with
          | Some t => match decide (now < t) with left Hl => left _ | right Hr => right _ end
          | None => left _
          end); [congruence | intros Hall; by apply Hr, Hall | done].
Defined.

Definition redis_tick (now : Time) (d : RedisData) : RedisData :=
  {| rd_strings := filter (λ kv : string * (string * Time), live_string now kv.2) (rd_strings d);
     rd_sets := filter (λ kv : string * (gset string * option Time), live_set now kv.2) (rd_sets d);
     rd_clock := now |}.

(** ** Operations *)

Section redisAuthCache.
Context {T : Type} `{RedisServer T} (prefix : string).

Definition keyIndex (keyID : string) : string := (prefix ++ ":key:" ++ keyID)%string.
Definition tenantIndex (tenantID : string) : string := (prefix ++ ":tenant:" ++ tenantID)%string.

Definition redis_Load (t : T) (cacheKey : string) : option (option string) := rd_Get t cacheKey.

Definition redis_Store (cacheKey keyID tenantID payload : string) (ttl : Duration) (t : T) : bool * T :=
  rd_Exec [RSet cacheKey payload ttl; RSet (keyIndex keyID) cacheKey ttl;
           RSAdd (tenantIndex tenantID) [cacheKey; keyIndex keyID]; RExpire (tenantIndex tenantID) ttl] t.

Definition redis_DeleteValue (cacheKey : string) (t : T) : bool * T := rd_Exec [RDel [cacheKey]] t.

Definition redis_InvalidateKey (keyID : string) (t : T) : bool * T :=
  match rd_Get t (keyIndex keyID) with
  | None => (false, t)
  | Some cacheKey =>
      let cacheKey := default ""%string cacheKey in
      let keys := [keyIndex keyID] ++ (if (cacheKey =? "")%string then [] else [cacheKey]) in
      rd_Exec [RDel keys] t
  end.

Definition redis_InvalidateTenant (tenantID : string) (t : T) : bool * T :=
  match rd_SMembers t (tenantIndex tenantID) with
  | None => (false, t)
  | Some keys => rd_Exec [RDel (keys ++ [tenantIndex tenantID])] t
  end.

#[export] Instance redisAuthCache : sharedAuthCache T :=
  {| sa_Load := redis_Load; sa_Store := redis_Store; sa_DeleteValue := redis_DeleteValue;
     sa_InvalidateKey := redis_InvalidateKey; sa_InvalidateTenant := redis_InvalidateTenant |}.
End redisAuthCache.

(** ** The indexes find what is alive *)

Section laws.
Context {T : Type} `{RedisServerLaws T} (prefix : string) (home owner : string → string) (lifetime : Duration).
Hypotheses (Hhome : ∀ kid, ∃ x, home kid = (prefix ++ ":snapshot:" ++ x)%string) (Hinj : Inj (=) (=) home).

Lemma names_distinct kid a b :
  home kid ≠ keyIndex prefix a ∧ home kid ≠ tenantIndex prefix b ∧ keyIndex prefix a ≠ tenantIndex prefix b.
Proof.
  destruct (Hhome kid) as [x ->]. unfold keyIndex, tenantIndex.
  split_and!; intros Heq%string_app_inj%(f_equal (String.get 1)); vm_compute in Heq; discriminate.
Qed.

Lemma home_ne_key kid a : home kid ≠ keyIndex prefix a.
Proof. by destruct (names_distinct kid a ""). Qed.
Lemma home_ne_tenant kid b : home kid ≠ tenantIndex prefix b.
Proof. by destruct (names_distinct kid "" b) as (_ & ? & _). Qed.
Lemma key_ne_tenant a b : keyIndex prefix a ≠ tenantIndex prefix b.
Proof. by destruct (names_distinct "" a b) as (_ & _ & ?). Qed.

Lemma keyIndex_inj a b : keyIndex prefix a = keyIndex prefix b → a = b.
Proof. unfold keyIndex. by intros ?%string_app_inj%string_app_inj. Qed.
Lemma tenantIndex_inj a b : tenantIndex prefix a = tenantIndex prefix b → a = b.
Proof. unfold tenantIndex. by intros ?%string_app_inj%string_app_inj. Qed.

Definition entry_name (k : string) : Prop := ∃ x, k = (prefix ++ ":snapshot:" ++ x)%string.

(** An entry alive until [dl] is named by the index of its key and is a member,
    with that index, of the index of its tenant, both alive at least as long. *)
Record data_ok (d : RedisData) : Prop := {
  do_entry : ∀ kid p dl, rd_strings d !! home kid = Some (p, dl) →
    dl ≤ rd_clock d + lifetime ∧
    (∃ dl', rd_strings d !! keyIndex prefix kid = Some (home kid, dl') ∧ dl ≤ dl') ∧
    (∃ ms dt, rd_sets d !! tenantIndex prefix (owner kid) = Some (ms, Some dt) ∧ dl ≤ dt ∧ home kid ∈ ms);
  do_index : ∀ kid v dl, rd_strings d !! keyIndex prefix kid = Some (v, dl) → v = home kid;
  do_members : ∀ tid ms dt x, rd_sets d !! tenantIndex prefix tid = Some (ms, dt) → x ∈ ms →
    ∃ kid, (x = home kid ∨ x = keyIndex prefix kid) ∧ home kid ∈ ms ∧ keyIndex prefix kid ∈ ms;
  do_tenant : ∀ tid, rd_strings d !! tenantIndex prefix tid = None;
  do_named : ∀ k v, entry_name k → rd_strings d !! k = Some v → ∃ kid, k = home kid;
}.

Definition data_holds (d : RedisData) (k kid tid p : string) : Prop :=
  k = home kid ∧ tid = owner kid ∧ ∃ dl, rd_strings d !! k = Some (p, dl).

Lemma remove_all_Some {A} keys (m : gmap string A) k v :
  remove_all keys m !! k = Some v ↔ m !! k = Some v ∧ k ∉ keys.
Proof. unfold remove_all. rewrite map_lookup_filter_Some. done. Qed.

(** Deleting keys keeps the invariant when, with the index of a key or an entry
    of a tenant's index, the entry itself goes. *)
Lemma delete_ok d keys :
  data_ok d →
  (∀ kid p dl, rd_strings d !! home kid = Some (p, dl) → home kid ∉ keys →
     keyIndex prefix kid ∉ keys ∧ tenantIndex prefix (owner kid) ∉ keys) →
  data_ok (redis_apply d (RDel keys)) ∧
  ∀ k kid tid p, data_holds (redis_apply d (RDel keys)) k kid tid p → data_holds d k kid tid p ∧ k ∉ keys.
Proof.
  intros [He Hi Hm Ht Hn] Hkeys. split.
  - split; cbn.
    + intros kid p dl [Hp Hgone]%remove_all_Some. destruct (He _ _ _ Hp) as (? & (dl' & ? & ?) & ms & dt & ? & ? & ?).
      destruct (Hkeys _ _ _ Hp Hgone). split; [done|]. split.
      * exists dl'. by rewrite remove_all_Some.
      * exists ms, dt. by rewrite remove_all_Some.
    + intros kid v dl [? _]%remove_all_Some. by eapply Hi.
    + intros tid ms dt x [? _]%remove_all_Some. by eapply Hm.
    + intros tid. apply eq_None_ne_Some. intros v [Hv _]%remove_all_Some. by rewrite Ht in Hv.
    + intros k v Hk [? _]%remove_all_Some. by eapply Hn.
  - intros k kid tid p (-> & -> & dl & [? ?]%remove_all_Some). split; [|done]. split; [done|]. split; [done|]. by exists dl.
Qed.

Lemma tick_ok d now :
  data_ok d → rd_clock d ≤ now →
  data_ok (redis_tick now d) ∧ ∀ k kid tid p, data_holds (redis_tick now d) k kid tid p → data_holds d k kid tid p.
Proof.
  intros [He Hi Hm Ht Hn] Hnow. split.
  - split; cbn.
    + intros kid p dl [Hp Hl]%map_lookup_filter_Some. unfold live_string in Hl. cbn in Hl.
      destruct (He _ _ _ Hp) as (? & (dl' & ? & ?) & ms & dt & ? & ? & ?). split; [lia|]. split.
      * exists dl'. rewrite map_lookup_filter_Some. unfold live_string. cbn. split; [split; [done | lia] | done].
      * exists ms, dt. rewrite map_lookup_filter_Some. split; [|done]. split; [done|].
        intros t [= <-]. lia.
    + intros kid v dl [? _]%map_lookup_filter_Some. by eapply Hi.
    + intros tid ms dt x [? _]%map_lookup_filter_Some. by eapply Hm.
    + intros tid. apply eq_None_ne_Some. intros v [Hv _]%map_lookup_filter_Some. by rewrite Ht in Hv.
    + intros k v Hk [? _]%map_lookup_filter_Some. by eapply Hn.
  - intros k kid tid p (-> & -> & dl & [? ?]%map_lookup_filter_Some). split; [done|]. split; [done|]. by exists dl.
Qed.

(** What the transaction of [Store] leaves. *)
Definition stored (d : RedisData) (kid p : string) : RedisData :=
  let deadline := rd_clock d + lifetime in
  {| rd_strings := <[keyIndex prefix kid := (home kid, deadline)]> (<[home kid := (p, deadline)]> (rd_strings d));
     rd_sets := <[tenantIndex prefix (owner kid) :=
                  (list_to_set [home kid; keyIndex prefix kid] ∪
                   fst (default (∅, None) (rd_sets d !! tenantIndex prefix (owner kid))), Some deadline)]>
                (delete (keyIndex prefix kid) (delete (home kid) (rd_sets d)));
     rd_clock := rd_clock d |}.

Lemma store_apply d kid p :
  data_ok d →
  foldl redis_apply d [RSet (home kid) p lifetime; RSet (keyIndex prefix kid) (home kid) lifetime;
    RSAdd (tenantIndex prefix (owner kid)) [home kid; keyIndex prefix kid];
    RExpire (tenantIndex prefix (owner kid)) lifetime] = stored d kid p.
Proof.
  intros Hd. pose proof (home_ne_tenant kid (owner kid)) as Hht. pose proof (key_ne_tenant kid (owner kid)) as Hkt.
  cbn [foldl redis_apply rd_strings rd_sets rd_clock].
  rewrite !lookup_insert_ne, (do_tenant _ Hd) by done. rewrite !lookup_delete_ne by done.
  destruct (default (∅, None) (rd_sets d !! tenantIndex prefix (owner kid))) as [old dt] eqn:Hold.
  cbn [rd_strings rd_sets rd_clock]. unfold stored. rewrite Hold. f_equal.
  - rewrite alter_id; [done|]. intros v. by rewrite !lookup_insert_ne, (do_tenant _ Hd) by done.
  - by rewrite alter_insert_eq.
Qed.

Lemma stored_ok d kid p :
  data_ok d → data_ok (stored d kid p) ∧
  ∀ k' kid' tid' p', data_holds (stored d kid p) k' kid' tid' p' →
    data_holds d k' kid' tid' p' ∨ (k' = home kid ∧ kid' = kid ∧ tid' = owner kid ∧ p' = p).
Proof.
  intros [He Hi Hm Ht Hn]. split.
  - split; cbn [stored rd_strings rd_sets rd_clock].
    + intros kid' p' dl [[? _]|[_ Hp]]%lookup_insert_Some; [by edestruct home_ne_key|].
      apply lookup_insert_Some in Hp as [[<-%Hinj [= <- <-]]|[Hne Hp]].
      * split; [lia|]. split; [exists (rd_clock d + lifetime); by rewrite lookup_insert_eq|].
        eexists _, _. rewrite lookup_insert_eq. split; [done|]. split; [done | set_solver].
      * destruct (He _ _ _ Hp) as (? & (dl' & Hx & ?) & ms & dt & Hs & ? & ?). split; [done|]. split.
        -- exists dl'. rewrite lookup_insert_ne by (intros <-%keyIndex_inj; done).
           by rewrite lookup_insert_ne by apply home_ne_key.
        -- destruct (decide (owner kid' = owner kid)) as [Ho|Ho].
           ++ eexists _, _. rewrite Ho, lookup_insert_eq. split; [done|]. split; [done|].
              rewrite <-Ho, Hs. set_solver.
           ++ exists ms, dt. rewrite lookup_insert_ne by (intros ?%tenantIndex_inj; done).
              by rewrite !lookup_delete_ne by (apply key_ne_tenant || apply home_ne_tenant).
    + intros kid' v dl [[<-%keyIndex_inj [= <- _]]|[_ Hp]]%lookup_insert_Some; [done|].
      apply lookup_insert_Some in Hp as [[? _]|[_ Hp]]; [by edestruct home_ne_key | by eapply Hi].
    + intros tid ms dt x [[<-%tenantIndex_inj [= <- _]]|[_ Hs]]%lookup_insert_Some Hx.
      * apply elem_of_union in Hx as [Hx|Hx].
        -- exists kid. cbn in Hx. set_solver.
        -- destruct (rd_sets d !! tenantIndex prefix (owner kid)) as [[old dt']|] eqn:Hold; [|set_solver].
           cbn in Hx |- *. destruct (Hm _ _ _ _ Hold Hx) as (kid' & ? & ? & ?). exists kid'. set_solver.
      * rewrite !lookup_delete_ne in Hs by (apply key_ne_tenant || apply home_ne_tenant). by eapply Hm.
    + intros tid. rewrite lookup_insert_ne by apply key_ne_tenant. by rewrite lookup_insert_ne by apply home_ne_tenant.
    + intros k v [x ->] [[Heq _]|[_ Hp]]%lookup_insert_Some.
      { exfalso. unfold keyIndex in Heq. apply string_app_inj, (f_equal (String.get 1)) in Heq. by vm_compute in Heq. }
      apply lookup_insert_Some in Hp as [[<- _]|[_ Hp]]; [by exists kid | eapply Hn; [by exists x | done]].
  - intros k' kid' tid' p' (-> & -> & dl & Hp). cbn in Hp.
    rewrite lookup_insert_ne in Hp by (intros Heq; symmetry in Heq; by apply home_ne_key in Heq).
    apply lookup_insert_Some in Hp as [[<-%Hinj [= <- _]]|[_ Hp]]; [by right|].
    left. split; [done|]. split; [done|]. by exists dl.
Qed.

Lemma exec_ok cmds (t : T) d' :
  data_ok (rd_data t) → d' = foldl redis_apply (rd_data t) cmds → data_ok d' → data_ok (rd_data (rd_Exec cmds t).2).
Proof. intros Hok -> Hd'. destruct (rd_exec_law cmds t) as [->|[_ ->]]; done. Qed.

(** Deleting keys one of which is a kept promise: what is gone when it succeeds. *)
Lemma delete_exec keys (t : T) :
  data_ok (rd_data t) →
  (∀ kid p dl, rd_strings (rd_data t) !! home kid = Some (p, dl) → home kid ∉ keys →
     keyIndex prefix kid ∉ keys ∧ tenantIndex prefix (owner kid) ∉ keys) →
  data_ok (rd_data (rd_Exec [RDel keys] t).2) ∧
  ∀ k kid tid p, data_holds (rd_data (rd_Exec [RDel keys] t).2) k kid tid p →
    data_holds (rd_data t) k kid tid p ∧ ((rd_Exec [RDel keys] t).1 = true → k ∉ keys).
Proof.
  intros Hok Hkeys. destruct (delete_ok _ keys Hok Hkeys) as [Hok' Hh].
  destruct (rd_exec_law [RDel keys] t) as [Heq|[Hf Heq]]; rewrite Heq; cbn [foldl].
  - split; [done|]. intros k kid tid p Hp. destruct (Hh _ _ _ _ Hp). done.
  - split; [done|]. intros k kid tid p Hp. split; [done | congruence].
Qed.

Lemma redis_InvalidateKey_law (t : T) keyID :
  data_ok (rd_data t) →
  data_ok (rd_data (redis_InvalidateKey prefix keyID t).2) ∧
  ∀ k kid tid p, data_holds (rd_data (redis_InvalidateKey prefix keyID t).2) k kid tid p →
    data_holds (rd_data t) k kid tid p ∧ ((redis_InvalidateKey prefix keyID t).1 = true → kid ≠ keyID).
Proof.
  intros Hok. unfold redis_InvalidateKey. destruct (rd_Get t (keyIndex prefix keyID)) as [o|] eqn:Hget.
  2: { cbn. split; [done|]. intros k kid tid p Hp. split; [done | discriminate]. }
  apply rd_get_law in Hget. set (keys := [keyIndex prefix keyID] ++ _).
  assert (∀ p dl, rd_strings (rd_data t) !! home keyID = Some (p, dl) → home keyID ∈ keys) as Hin.
  { intros p dl Hp. destruct (do_entry _ Hok _ _ _ Hp) as (_ & (dl' & Hidx & _) & _).
    unfold keys. rewrite Hget, Hidx. cbn. destruct (Hhome keyID) as [x Hx].
    destruct (String.eqb_spec (home keyID) "") as [Hemp|_]; [|set_solver].
    exfalso. rewrite Hx in Hemp. destruct prefix; discriminate Hemp. }
  destruct (delete_exec keys t Hok) as [Hok' Hh].
  { intros kid p dl Hp Hn. destruct (decide (kid = keyID)) as [->|Hne]; [by destruct Hn; eapply Hin|].
    assert (∀ y, y ∈ keys → y = keyIndex prefix keyID ∨ y = home keyID) as Hkeys.
    { intros y [->|Hy]%elem_of_cons; [by left|]. right. rewrite Hget in Hy.
      destruct (rd_strings _ !! _) as [[v dl']|] eqn:Hidx; [|by apply not_elem_of_nil in Hy]. cbn in Hy.
      destruct (v =? "")%string; [by apply not_elem_of_nil in Hy|].
      apply list_elem_of_singleton in Hy as ->. by eapply do_index. }
    split; intros Hy%Hkeys.
    - destruct Hy as [?%keyIndex_inj|Heq]; [done|]. symmetry in Heq. by apply home_ne_key in Heq.
    - destruct Hy as [Heq|Heq]; symmetry in Heq; [by apply key_ne_tenant in Heq | by apply home_ne_tenant in Heq]. }
  split; [done|]. intros k kid tid p Hp. destruct (Hh _ _ _ _ Hp) as [Hold Hnotin]. split; [done|].
  intros Hs ->. destruct Hold as (-> & _ & dl & Hstr). apply Hnotin; [done|]. by eapply Hin.
Qed.

Lemma redis_InvalidateTenant_law (t : T) tenantID :
  data_ok (rd_data t) →
  data_ok (rd_data (redis_InvalidateTenant prefix tenantID t).2) ∧
  ∀ k kid tid p, data_holds (rd_data (redis_InvalidateTenant prefix tenantID t).2) k kid tid p →
    data_holds (rd_data t) k kid tid p ∧ ((redis_InvalidateTenant prefix tenantID t).1 = true → tid ≠ tenantID).
Proof.
  intros Hok. unfold redis_InvalidateTenant. destruct (rd_SMembers t (tenantIndex prefix tenantID)) as [l|] eqn:Hget.
  2: { cbn. split; [done|]. intros k kid tid p Hp. split; [done | discriminate]. }
  pose proof (rd_smembers_law _ _ _ Hget) as Hl. set (keys := l ++ [tenantIndex prefix tenantID]).
  assert (∀ y, y ∈ l → ∃ kid, (y = home kid ∨ y = keyIndex prefix kid) ∧ home kid ∈ l) as Hmem.
  { intros y Hy. pose proof (proj1 (Hl y) Hy) as ([ms dt] & Hms & Hin).
    destruct (do_members _ Hok _ _ _ _ Hms Hin) as (kid & ? & ? & _). exists kid. split; [done|].
    apply Hl. by exists (ms, dt). }
  assert (∀ kid p dl, rd_strings (rd_data t) !! home kid = Some (p, dl) → owner kid = tenantID → home kid ∈ keys) as Hin.
  { intros kid p dl Hp <-. destruct (do_entry _ Hok _ _ _ Hp) as (_ & _ & ms & dt & Hms & _ & Hk).
    apply elem_of_app. left. apply Hl. by exists (ms, Some dt). }
  destruct (delete_exec keys t Hok) as [Hok' Hh].
  { intros kid p dl Hp Hn. unfold keys. rewrite !elem_of_app, !list_elem_of_singleton. split; intros [Hy|Heq].
    - destruct (Hmem _ Hy) as (kid' & [Heq|?%keyIndex_inj] & Hk).
      + symmetry in Heq. by apply home_ne_key in Heq.
      + subst kid'. apply Hn, elem_of_app. by left.
    - by apply key_ne_tenant in Heq.
    - destruct (Hmem _ Hy) as (kid' & [Heq|Heq] & _); symmetry in Heq;
        [by apply home_ne_tenant in Heq | by apply key_ne_tenant in Heq].
    - apply tenantIndex_inj in Heq. apply Hn. by eapply Hin. }
  split; [done|]. intros k kid tid p Hp. destruct (Hh _ _ _ _ Hp) as [Hold Hnotin]. split; [done|].
  intros Hs ->. destruct Hold as (-> & Ho & dl & Hstr). apply Hnotin; [done|]. by eapply Hin.
Qed.

(** The Redis cache keeps the promises of the interface. *)
#[export] Instance redis_laws : @SharedAuthLaws T (redisAuthCache prefix) home owner lifetime.
Proof.
  unshelve refine (@Build_SharedAuthLaws T (redisAuthCache prefix) home owner lifetime
    (λ t, data_ok (rd_data t)) (λ t, data_holds (rd_data t))
    (λ t t', ∃ now, rd_clock (rd_data t) ≤ now ∧ rd_data t' = redis_tick now (rd_data t))
    entry_name _ _ _ _ _ _).
  - intros t k p Hok Hname Hget%rd_get_law. destruct (rd_strings (rd_data t) !! k) as [[v dl]|] eqn:Hk; [|done].
    injection Hget as ->. destruct (do_named _ Hok _ _ Hname Hk) as [kid ->].
    exists kid, (owner kid). split; [done|]. split; [done|]. by exists dl.
  - intros t k kid tid p ttl Hok -> -> ->. cbn [sa_Store redisAuthCache]. unfold redis_Store.
    destruct (stored_ok (rd_data t) kid p Hok) as [Hok' Hh]. rewrite <-(store_apply _ _ _ Hok) in Hok', Hh.
    split; [by eapply exec_ok|]. intros k' kid' tid' p' Hp.
    match type of Hp with data_holds (rd_data (rd_Exec ?cmds t).2) _ _ _ _ =>
      destruct (rd_exec_law cmds t) as [Heq|[_ Heq]] end; rewrite Heq in Hp; [by apply Hh | by left].
  - intros t k Hok [x Hk]. cbn [sa_DeleteValue redisAuthCache]. unfold redis_DeleteValue.
    destruct (delete_exec [k] t Hok) as [? Hh].
    + intros kid p dl _ _. rewrite !list_elem_of_singleton. subst k. unfold keyIndex, tenantIndex.
      split; intros Heq%string_app_inj%(f_equal (String.get 1)); vm_compute in Heq; discriminate.
    + split; [done|]. intros k' kid tid p Hp. by destruct (Hh _ _ _ _ Hp).
  - intros t keyID Hok. by apply redis_InvalidateKey_law.
  - intros t tenantID Hok. by apply redis_InvalidateTenant_law.
  - intros t t' Hok (now & Hnow & Heq). rewrite Heq. by apply tick_ok.
Defined.

(** An empty server keeps them trivially. *)
Lemma empty_data_ok now : data_ok {| rd_strings := ∅; rd_sets := ∅; rd_clock := now |}.
Proof. by split. Qed.
End laws.

(** ** A server *)

#[export] Instance redis_data_server : RedisServer RedisData :=
  {| rd_data := λ d, d; rd_Get := λ d k, Some (fst <$> rd_strings d !! k);
     rd_SMembers := λ d k, Some (match rd_sets d !! k with Some s => elements s.1 | None => [] end);
     rd_Exec := λ cmds d, (true, foldl redis_apply d cmds) |}.

#[export] Instance redis_data_server_laws : RedisServerLaws RedisData.
Proof.
  split; cbn.
  - by intros t k o [= <-].
  - intros t k l [= <-] x. destruct (rd_sets t !! k) as [s|].
    + rewrite elem_of_elements. naive_solver.
    + split; [by intros ?%not_elem_of_nil | naive_solver].
  - by left.
Qed.
