(* ===== verification/AuthCoherence.v ===== *)
(** * The credential caches agree with the database

    The two cache levels of [AuthCache.v] and the database as a transition
    system: lookups, loads in flight, promotions, changes of rows, invalidations
    and expiries interleave freely. The system is one gateway process with its
    shared cache; an invalidation that another process asked for by a message is
    the same step as its own. *)

From S2P Require Import Prelude Encoding Token AuthSnapshot AuthL1 AuthCache RedisAuth.

(** ** The database

    The views of the database: the row of a digest, the grants of a tenant. *)

Class AuthRowsLaws (DB : Type) `{AuthRows DB} := {
  db_row : DB → string → option AuthRow;
  db_grants : DB → string → list string;
  select_row_law db digest o : select_auth_row db digest = Some o → db_row db digest = o;
  select_grants_law db tenant l : select_grants db tenant = Some l → db_grants db tenant = l;
}.

(** A row and a snapshot agree on everything that decides an authentication. *)
Record row_agrees (row : AuthRow) (grants : list string) (s : authSnapshot) : Prop := {
  ra_key : as_APIKeyID s = ar_APIKeyID row;
  ra_tenant : as_TenantID s = ar_TenantID row;
  ra_prefix : as_KeyPrefix s = ar_KeyPrefix row;
  ra_hash : as_KeyHash s = ar_KeyHash row;
  ra_status : as_KeyStatus s = ar_KeyStatus row;
  ra_expires : as_KeyExpiresAt s = ar_KeyExpiresAt row;
  ra_tenant_status : as_TenantStatus s = ar_TenantStatus row;
  ra_models : normalizeModels grants = Ok (as_AllowedModels s);
}.

Section coherence.
Context {DB : Type} `{AuthRowsLaws DB} {R : Type} `{sharedAuthCache R} (home owner : string → string)
  (settings : AuthCacheSettings) `{!SharedAuthLaws R home owner (ac_L2TTL settings)} `{SnapshotCodecLaws}.
Hypotheses (Henabled : ac_Enabled settings = true) (Hentries : 0 < ac_L1MaxEntries settings)
  (Hname : ∀ digest, sa_name (store_cacheKey settings digest)).

Definition agrees (db : DB) (s : authSnapshot) : Prop :=
  ∃ row, db_row db (as_LookupDigest s) = Some row ∧ row_agrees row (db_grants db (ar_TenantID row)) s.

(** A key has one digest and one tenant for ever. *)
Definition rows_stable (db : DB) : Prop :=
  ∀ digest row, db_row db digest = Some row →
    home (ar_APIKeyID row) = store_cacheKey settings digest ∧ owner (ar_APIKeyID row) = ar_TenantID row.

(** The rows that do not belong to [key] or [tenant] stay what they were, up to
    the time of their last use. *)
Definition changes_only (belongs : AuthRow → Prop) (db db' : DB) : Prop :=
  ∀ digest row, db_row db digest = Some row → ¬ belongs row →
    ∃ row', db_row db' digest = Some row' ∧
      ∀ s, row_agrees row (db_grants db (ar_TenantID row)) s → row_agrees row' (db_grants db' (ar_TenantID row')) s.

(** *** The system

    A load in flight: it has missed the in-memory cache; it has read the shared
    cache; it has read the database. [lg_epoch] is the number of invalidations
    before it began. *)

Inductive Stage := Missed | GotShared (snapshot : authSnapshot) | GotSource (load : cacheLoad).

Record Loading := { lg_digest : string; lg_generation : Z; lg_epoch : Z; lg_stage : Stage }.

Record AuthWorld := {
  w_db : DB;
  w_shared : R;
  w_store : credentialStore;
  w_loads : list Loading;
  w_dirty_keys : gset string;      (* changed in the database, not yet invalidated *)
  w_dirty_tenants : gset string;
  w_epoch : Z;                     (* invalidations so far *)
}.

Definition with_store (w : AuthWorld) (store : credentialStore) : AuthWorld :=
  {| w_db := w_db w; w_shared := w_shared w; w_store := store; w_loads := w_loads w;
     w_dirty_keys := w_dirty_keys w; w_dirty_tenants := w_dirty_tenants w; w_epoch := w_epoch w |}.

Definition with_loads (w : AuthWorld) (loads : list Loading) : AuthWorld :=
  {| w_db := w_db w; w_shared := w_shared w; w_store := w_store w; w_loads := loads;
     w_dirty_keys := w_dirty_keys w; w_dirty_tenants := w_dirty_tenants w; w_epoch := w_epoch w |}.

Definition with_shared (w : AuthWorld) (r : R) : AuthWorld :=
  {| w_db := w_db w; w_shared := r; w_store := w_store w; w_loads := w_loads w;
     w_dirty_keys := w_dirty_keys w; w_dirty_tenants := w_dirty_tenants w; w_epoch := w_epoch w |}.

Definition advance (l : Loading) (stage : Stage) : Loading :=
  {| lg_digest := lg_digest l; lg_generation := lg_generation l; lg_epoch := lg_epoch l; lg_stage := stage |}.

Inductive auth_step : AuthWorld → AuthWorld → Prop :=
(** A reader looks into the in-memory cache. *)
| step_get w key now :
    auth_step w (with_store w (with_l1 (w_store w) (l1_Get (cs_l1 (w_store w)) key now).2))
(** A load begins and misses. *)
| step_begin w digest now store generation result :
    load_begin (w_store w) (store_cacheKey settings digest) now = (generation, result, store) →
    auth_step w (with_loads (with_store w store)
      ({| lg_digest := digest; lg_generation := generation; lg_epoch := w_epoch w; lg_stage := Missed |} :: w_loads w))
(** It reads the shared cache, and hits; *)
| step_read_hit w l now snapshot loads :
    w_loads w ≡ₚ l :: loads → lg_stage l = Missed →
    shared_read (w_shared w) (store_cacheKey settings (lg_digest l)) (lg_digest l) now = SharedHit snapshot →
    auth_step w (with_loads w (advance l (GotShared snapshot) :: loads))
(** it finds an invalid payload and deletes it; *)
| step_read_invalid w digest :
    auth_step w (with_shared w (sa_DeleteValue (store_cacheKey settings digest) (w_shared w)).2)
(** it copies its hit down; *)
| step_copy_down w l now snapshot loads :
    w_loads w ≡ₚ l :: loads → lg_stage l = GotShared snapshot →
    auth_step w (with_loads (with_store w
      (copy_down (w_store w) (lg_generation l) (store_cacheKey settings (lg_digest l)) snapshot now)) loads)
(** it reads the database. *)
| step_source w l now loads :
    w_loads w ≡ₚ l :: loads → lg_stage l = Missed →
    auth_step w (with_loads w
      (advance l (GotSource (load_source (w_db w) (lg_digest l) now (lg_generation l))) :: loads))
(** A caller that verified the credential promotes it. *)
| step_promote w l now load load' store r loads :
    w_loads w ≡ₚ l :: loads → lg_stage l = GotSource load →
    Promote (w_store w) (w_shared w) (store_cacheKey settings (lg_digest l)) load now = (load', store, r) →
    auth_step w (with_loads (with_shared (with_store w store) r) (advance l (GotSource load') :: loads))
| step_forget w l loads :
    w_loads w ≡ₚ l :: loads → auth_step w (with_loads w loads)
(** The rows of a key, or of a tenant, change. *)
| step_change_key w db keyID :
    changes_only (λ row, ar_APIKeyID row = keyID) (w_db w) db → rows_stable db →
    auth_step w {| w_db := db; w_shared := w_shared w; w_store := w_store w; w_loads := w_loads w;
                   w_dirty_keys := {[keyID]} ∪ w_dirty_keys w; w_dirty_tenants := w_dirty_tenants w;
                   w_epoch := w_epoch w |}
| step_change_tenant w db tenantID :
    changes_only (λ row, ar_TenantID row = tenantID) (w_db w) db → rows_stable db →
    auth_step w {| w_db := db; w_shared := w_shared w; w_store := w_store w; w_loads := w_loads w;
                   w_dirty_keys := w_dirty_keys w; w_dirty_tenants := {[tenantID]} ∪ w_dirty_tenants w;
                   w_epoch := w_epoch w |}
(** An invalidation, of this process or on behalf of another; the change is
    settled when the shared cache obeyed. *)
| step_invalidate_key w visit keyID store r (ok : bool) :
    (∀ s, visit s ≡ₚ elements s) →
    InvalidateKey visit (w_store w) (w_shared w) keyID = (store, r, ok) →
    auth_step w {| w_db := w_db w; w_shared := r; w_store := store; w_loads := w_loads w;
                   w_dirty_keys := if ok then w_dirty_keys w ∖ {[keyID]} else w_dirty_keys w;
                   w_dirty_tenants := w_dirty_tenants w; w_epoch := w_epoch w + 1 |}
| step_invalidate_tenant w visit tenantID store r (ok : bool) :
    (∀ s, visit s ≡ₚ elements s) →
    InvalidateTenant visit (w_store w) (w_shared w) tenantID = (store, r, ok) →
    auth_step w {| w_db := w_db w; w_shared := r; w_store := store; w_loads := w_loads w;
                   w_dirty_keys := w_dirty_keys w;
                   w_dirty_tenants := if ok then w_dirty_tenants w ∖ {[tenantID]} else w_dirty_tenants w;
                   w_epoch := w_epoch w + 1 |}
(** Entries of the shared cache expire. *)
| step_expire w r :
    sa_expires (w_shared w) r → auth_step w (with_shared w r).

(** *** The invariant *)

Definition coherent (w : AuthWorld) (s : authSnapshot) : Prop :=
  as_APIKeyID s ∈ w_dirty_keys w ∨ as_TenantID s ∈ w_dirty_tenants w ∨ agrees (w_db w) s.

(** A snapshot for a digest: the digest is its own, it belongs to its home, and
    its hash can be compared. *)
Definition belongs_to (digest : string) (s : authSnapshot) : Prop :=
  as_LookupDigest s = digest ∧ home (as_APIKeyID s) = store_cacheKey settings digest ∧
  owner (as_APIKeyID s) = as_TenantID s ∧ str_len (as_KeyHash s) = 32 ∧ as_HashVersion s = hashVersion.

Record load_ok (w : AuthWorld) (l : Loading) : Prop := {
  lk_epoch : 0 ≤ lg_epoch l ≤ w_epoch w;
  lk_generation : lg_generation l = wrap_uint64 (lg_epoch l);
  lk_snapshot :
    match lg_stage l with
    | Missed => True
    | GotShared s => belongs_to (lg_digest l) s ∧ (lg_epoch l = w_epoch w → coherent w s)
    | GotSource load => cl_generation load = lg_generation l ∧
        ∀ s, cl_result load = Ok s → belongs_to (lg_digest l) s ∧ (lg_epoch l = w_epoch w → coherent w s)
    end;
}.

Record world_ok (w : AuthWorld) : Prop := {
  wo_settings : cs_settings (w_store w) = settings ∧ cs_enabled (w_store w) = true;
  wo_live : l1_live (ac_L1MaxEntries settings) (ac_L1TTL settings) (cs_l1 (w_store w));
  wo_l1 : ∀ e, e ∈ contents (cs_l1 (w_store w)) → coherent w (le_snapshot e) ∧
    ∃ digest, belongs_to digest (le_snapshot e) ∧ le_cacheKey e = store_cacheKey settings digest;
  wo_shared_ok : sa_ok (w_shared w);
  wo_shared : ∀ k kid tid p, sa_holds (w_shared w) k kid tid p →
    ∃ s, snapshot_unmarshal p = Some s ∧ as_APIKeyID s = kid ∧ as_TenantID s = tid ∧
      home kid = store_cacheKey settings (as_LookupDigest s) ∧ owner kid = tid ∧ coherent w s;
  wo_loads : ∀ l, l ∈ w_loads w → load_ok w l;
  wo_epoch : 0 ≤ w_epoch w ∧ cs_generation (w_store w) = wrap_uint64 (w_epoch w);
  wo_rows : rows_stable (w_db w);
}.

(** *** Facts about coherence *)

Lemma coherent_change_key w db keyID s :
  changes_only (λ row, ar_APIKeyID row = keyID) (w_db w) db → coherent w s →
  as_APIKeyID s ∈ {[keyID]} ∪ w_dirty_keys w ∨ as_TenantID s ∈ w_dirty_tenants w ∨ agrees db s.
Proof.
  intros Hch [?|[?|(row & Hrow & Ha)]]; [set_solver | auto|].
  destruct (decide (ar_APIKeyID row = keyID)) as [<-|Hne].
  - left. rewrite (ra_key _ _ _ Ha). set_solver.
  - right. right. destruct (Hch _ _ Hrow Hne) as (row' & ? & Hsame). exists row'. auto.
Qed.

Lemma coherent_change_tenant w db tenantID s :
  changes_only (λ row, ar_TenantID row = tenantID) (w_db w) db → coherent w s →
  as_APIKeyID s ∈ w_dirty_keys w ∨ as_TenantID s ∈ {[tenantID]} ∪ w_dirty_tenants w ∨ agrees db s.
Proof.
  intros Hch [?|[?|(row & Hrow & Ha)]]; [auto | set_solver|].
  destruct (decide (ar_TenantID row = tenantID)) as [<-|Hne].
  - right. left. rewrite (ra_tenant _ _ _ Ha). set_solver.
  - right. right. destruct (Hch _ _ Hrow Hne) as (row' & ? & Hsame). exists row'. auto.
Qed.

(** What the caching changes in a snapshot does not matter. *)
Lemma coherent_cached_until w s t : coherent w s → coherent w (with_cached_until s t).
Proof. intros [?|[?|(row & ? & [])]]; [by left | by right; left|]. right. right. exists row. by split. Qed.

Lemma coherent_normalized w s models :
  normalizeModels (as_AllowedModels s) = Ok models → coherent w s → coherent w (with_models s models).
Proof.
  intros Hn [?|[?|(row & ? & Ha)]]; [by left | by right; left|]. right. right. exists row. split; [done|].
  pose proof (normalizeModels_idem _ _ (ra_models _ _ _ Ha)) as Hi. destruct Ha. split; cbn; try done. congruence.
Qed.

Lemma load_ok_same w w' l :
  w_epoch w' = w_epoch w → (∀ s, coherent w s → coherent w' s) → load_ok w l → load_ok w' l.
Proof.
  intros He Hc [Hep Hg Hs]. split; rewrite ?He; [done..|].
  destruct (lg_stage l) as [|s|load]; [done | naive_solver|]. destruct Hs as [? Hs]. split; [done|].
  intros s Hr. destruct (Hs s Hr). split; [done|]. auto.
Qed.

(** A load that began before an invalidation promises nothing any more. *)
Lemma load_ok_later w w' l : w_epoch w' = w_epoch w + 1 → load_ok w l → load_ok w' l.
Proof.
  intros He [Hep Hg Hs]. split; rewrite ?He; [lia | done|].
  destruct (lg_stage l) as [|s|load]; [done | |].
  - destruct Hs as [? _]. split; [done | lia].
  - destruct Hs as [? Hs]. split; [done|]. intros s Hr. destruct (Hs s Hr). split; [done | lia].
Qed.

Lemma same_generation w l :
  world_ok w → load_ok w l → w_epoch w < two64 → cs_generation (w_store w) = lg_generation l →
  lg_epoch l = w_epoch w.
Proof.
  intros Hw Hl Hb Heq. destruct (wo_epoch _ Hw) as [? Hg]. rewrite (lk_generation _ _ Hl), Hg in Heq.
  pose proof (lk_epoch _ _ Hl). unfold wrap_uint64 in Heq. rewrite !Z.mod_small in Heq by lia. lia.
Qed.

Lemma source_Load_coherent w digest now s n :
  world_ok w → source_Load (w_db w) digest now = (Ok s, n) → belongs_to digest s ∧ agrees (w_db w) s.
Proof.
  intros Hw Hl. destruct (source_Load_ok _ _ _ _ _ Hl) as (Hv & _ & row & models & Hrow & Hg & Hrest).
  apply select_row_law in Hrow. apply select_grants_law in Hg. destruct Hv as [_ Hlook [? ?] _ _ _ _].
  destruct Hrest as (Hid & Ht & Hh & Hp & Hks & Hts & He & Hm). split.
  - split; [done|]. rewrite Hid, Ht. destruct (wo_rows _ Hw _ _ Hrow). done.
  - exists row. rewrite Hlook. split; [done|]. split; try done. by rewrite Hg.
Qed.

Lemma shared_read_coherent w digest now s :
  world_ok w → shared_read (w_shared w) (store_cacheKey settings digest) digest now = SharedHit s →
  belongs_to digest s ∧ coherent w s ∧ now < as_CachedUntil s.
Proof.
  intros Hw Hr. unfold shared_read in Hr. destruct (sa_Load _ _) as [[payload|]|] eqn:Hload; try done.
  destruct (sa_load_law _ _ _ (wo_shared_ok _ Hw) (Hname digest) Hload) as (kid & tid & Hh).
  destruct (wo_shared _ Hw _ _ _ _ Hh) as (s0 & Hu & <- & <- & Hhome & Howner & Hc). rewrite Hu in Hr.
  destruct (snapshot_validate _ _ _ _) as [s'|] eqn:Hv; [|done]. injection Hr as ->.
  destruct (snapshot_validate_ok _ _ _ _ _ Hv) as (Hvalid & (models & ->) & Hcached).
  assert (normalizeModels (as_AllowedModels s0) = Ok models) as Hn.
  { unfold snapshot_validate in Hv. destruct (snapshot_malformed _ _); [done|].
    do 2 (destruct (negb _); [done|]). destruct (normalizeModels _); [|done].
    destruct (_ && _); [done|]. injection Hv as Hv. by rewrite Hv. }
  destruct Hvalid as [_ Hlook [? ?] _ _ _ _]. cbn in Hlook. repeat split.
  - done.
  - cbn. by rewrite Hhome, Hlook.
  - done.
  - done.
  - done.
  - by apply coherent_normalized.
  - by apply Hcached.
Qed.

(** Writing a coherent snapshot under its own key keeps the in-memory cache coherent. *)
Lemma setL1_ok w digest s now :
  world_ok w → belongs_to digest s → coherent w s →
  world_ok (with_store w (setL1 (w_store w) (store_cacheKey settings digest) s now)).
Proof.
  intros Hw Hd Hc. destruct Hw as [Hs Hlive Hl1 Hso Hsh Hlo He Hr]. split; try done.
  - by apply l1_Set_live.
  - intros e He'. destruct (l1_Set_live _ _ Hentries _ (store_cacheKey settings digest) s now Hlive) as [_ Hin].
    apply Hin in He' as [He'|[Hk ->]]; [by apply Hl1|].
    split; [done | by exists digest].
  - intros l Hl. by eapply load_ok_same; [| |apply Hlo].
Qed.

Lemma forget_ok w loads : world_ok w → (∀ l, l ∈ loads → load_ok w l) → world_ok (with_loads w loads).
Proof. intros [] Hl. split; try done. intros l Hin. by eapply load_ok_same; [| |apply Hl]. Qed.

Lemma shared_ok w r :
  world_ok w → sa_ok r → (∀ k kid tid p, sa_holds r k kid tid p → sa_holds (w_shared w) k kid tid p) →
  world_ok (with_shared w r).
Proof.
  intros [] Hr Hsub. split; try done.
  - intros k kid tid p Hh. cbn in Hh. eauto.
  - intros l Hin. eapply load_ok_same; [| |eauto]; done.
Qed.

Lemma loads_perm_ok w l loads :
  world_ok w → w_loads w ≡ₚ l :: loads → load_ok w l ∧ ∀ l', l' ∈ loads → load_ok w l'.
Proof. intros Hw Hp. split; intros; apply (wo_loads _ Hw); rewrite Hp; set_solver. Qed.

(** *** Every step keeps the invariant *)

Lemma get_ok w key now :
  world_ok w → world_ok (with_store w (with_l1 (w_store w) (l1_Get (cs_l1 (w_store w)) key now).2)).
Proof.
  intros Hw. destruct (l1_Get_live _ _ Hentries _ key now (wo_live _ Hw)) as (Hlive & Hsub & _).
  destruct Hw as [Hs _ Hl1 Hso Hsh Hlo He Hr]. split; try done.
  - intros e He'. by apply Hl1, Hsub.
  - intros l Hl. by eapply load_ok_same; [| |apply Hlo].
Qed.

Lemma with_store_loads_ok w store loads :
  world_ok (with_store w store) → (∀ l, l ∈ loads → load_ok w l) → world_ok (with_loads (with_store w store) loads).
Proof. intros Hw Hl. apply forget_ok; [done|]. intros l Hin. by eapply load_ok_same; [| |apply Hl]. Qed.

Lemma read_ok w l stage loads :
  world_ok w → w_loads w ≡ₚ l :: loads → load_ok w (advance l stage) →
  world_ok (with_loads w (advance l stage :: loads)).
Proof.
  intros Hw Hp Hl. destruct (loads_perm_ok _ _ _ Hw Hp) as [_ Hrest].
  apply forget_ok; [done|]. intros l' [->|Hin]%elem_of_cons; auto.
Qed.

Lemma copy_down_ok w l now snapshot loads :
  world_ok w → w_epoch w < two64 → w_loads w ≡ₚ l :: loads → lg_stage l = GotShared snapshot →
  world_ok (with_loads (with_store w
    (copy_down (w_store w) (lg_generation l) (store_cacheKey settings (lg_digest l)) snapshot now)) loads).
Proof.
  intros Hw Hb Hp Hst. destruct (loads_perm_ok _ _ _ Hw Hp) as [Hl Hrest].
  apply with_store_loads_ok; [|done]. unfold copy_down.
  destruct (Z.eqb_spec (cs_generation (w_store w)) (lg_generation l)) as [Heq|]; [|by destruct w].
  pose proof (same_generation _ _ Hw Hl Hb Heq) as Hep. pose proof (lk_snapshot _ _ Hl) as Hs. rewrite Hst in Hs.
  destruct Hs. apply setL1_ok; auto.
Qed.

Lemma Promote_ok w l now load load' store r loads :
  world_ok w → w_epoch w < two64 → w_loads w ≡ₚ l :: loads → lg_stage l = GotSource load →
  Promote (w_store w) (w_shared w) (store_cacheKey settings (lg_digest l)) load now = (load', store, r) →
  world_ok (with_loads (with_shared (with_store w store) r) (advance l (GotSource load') :: loads)).
Proof.
  intros Hw Hb Hp Hst Hpro. destruct (loads_perm_ok _ _ _ Hw Hp) as [Hl Hrest].
  pose proof (lk_snapshot _ _ Hl) as Hs. rewrite Hst in Hs. destruct Hs as [Hgen Hs].
  assert (load_ok w (advance l (GotSource load'))) as Hl'.
  { destruct Hl as [Hep Hlg _]. split; cbn; [done..|].
    assert (cl_generation load' = cl_generation load ∧ cl_result load' = cl_result load) as [-> ->].
    { unfold Promote in Hpro. repeat case_match; simplify_eq; done. }
    done. }
  assert (world_ok (with_shared (with_store w store) r)) as Hw'.
  2: { apply forget_ok; [done|].
       intros l' [->|Hin]%elem_of_cons; (apply (load_ok_same w); [done | done|]); auto. }
  unfold Promote in Hpro. destruct (cl_result load) as [s|] eqn:Hres; [|simplify_eq; by destruct w].
  destruct (_ || _); [simplify_eq; by destruct w|].
  destruct (Z.eqb_spec (cs_generation (w_store w)) (cl_generation load)) as [Heq|]; cbn [negb] in Hpro;
    [|simplify_eq; by destruct w].
  destruct (cl_promoted load); [simplify_eq; by destruct w|]. injection Hpro as <- <- <-.
  rewrite Hgen in Heq. pose proof (same_generation _ _ Hw Hl Hb Heq) as Hep.
  destruct (Hs s eq_refl) as [Hbel Hc]. specialize (Hc Hep).
  destruct (Hbel) as (Hd & Hh & Ho & _).
  set (s' := with_cached_until s _). assert (coherent w s') as Hc' by (by apply coherent_cached_until).
  assert (world_ok (with_store w (setL1 (w_store w) (store_cacheKey settings (lg_digest l)) s' now))) as Hw1
    by (by apply setL1_ok).
  destruct (snapshot_marshal s') as [payload|] eqn:Hm; [|done].
  destruct (sa_store_law (w_shared w) (store_cacheKey settings (lg_digest l)) (as_APIKeyID s') (as_TenantID s')
    payload (ac_L2TTL (cs_settings (w_store w))) (wo_shared_ok _ Hw)) as [Hok Hsub];
    [done | done | by rewrite (proj1 (wo_settings _ Hw))|].
  destruct Hw1 as [Hset Hlive Hl1 _ Hsh Hlo He Hr]. split; try done.
  - intros k kid tid p [Hold|(-> & -> & -> & ->)]%Hsub; [by eapply Hsh|].
    exists s'. split; [by apply snapshot_codec_law|]. split_and!; try done. cbn. by rewrite Hd.
  - intros l' Hin. by eapply load_ok_same; [| |apply Hlo].
Qed.

Lemma invalidated_ok w (db : DB) store r dirty_keys dirty_tenants gone :
  world_ok w → cs_settings store = settings ∧ cs_enabled store = true →
  l1_live (ac_L1MaxEntries settings) (ac_L1TTL settings) (cs_l1 store) →
  cs_generation store = wrap_uint64 (w_epoch w + 1) → sa_ok r →
  let w' := {| w_db := w_db w; w_shared := r; w_store := store; w_loads := w_loads w;
               w_dirty_keys := dirty_keys; w_dirty_tenants := dirty_tenants; w_epoch := w_epoch w + 1 |} in
  (∀ s, gone s = false → coherent w s → coherent w' s) →
  (∀ e, e ∈ contents (cs_l1 store) → e ∈ contents (cs_l1 (w_store w)) ∧ gone (le_snapshot e) = false) →
  (∀ k kid tid p, sa_holds r k kid tid p → sa_holds (w_shared w) k kid tid p ∧
     ∀ s, as_APIKeyID s = kid → as_TenantID s = tid → coherent w s → coherent w' s) →
  world_ok w'.
Proof.
  intros Hw Hset Hlive Hgen Hok w' Hc Hl1 Hsh. split; try done.
  - intros e He. destruct (Hl1 e He) as [Hin Hg]. destruct (wo_l1 _ Hw e Hin). split; [|done]. by apply Hc.
  - intros k kid tid p Hh. destruct (Hsh _ _ _ _ Hh) as [Hold Hco].
    destruct (wo_shared _ Hw _ _ _ _ Hold) as (s & Hu & Hk & Ht & Hhome & Howner & Hcs). exists s. split_and!; auto.
  - intros l Hl. apply (load_ok_later w); [done|]. by apply (wo_loads _ Hw).
  - destruct (wo_epoch _ Hw). cbn. split; [lia | done].
  - apply (wo_rows _ Hw).
Qed.

Lemma changed_ok w db dirty_keys dirty_tenants :
  world_ok w → rows_stable db →
  let w' := {| w_db := db; w_shared := w_shared w; w_store := w_store w; w_loads := w_loads w;
               w_dirty_keys := dirty_keys; w_dirty_tenants := dirty_tenants; w_epoch := w_epoch w |} in
  (∀ s, coherent w s → coherent w' s) → world_ok w'.
Proof.
  intros [Hs Hlive Hl1 Hso Hsh Hlo He Hr] Hrows w' Hc. split; try done.
  - intros e Hin. destruct (Hl1 e Hin). split; auto.
  - intros k kid tid p Hh. destruct (Hsh _ _ _ _ Hh) as (s & ? & ? & ? & ? & ? & ?). exists s. split_and!; auto.
  - intros l Hl. by eapply load_ok_same; [| |apply Hlo].
Qed.

Lemma wrap_epoch w : world_ok w → wrap_uint64 (cs_generation (w_store w) + 1) = wrap_uint64 (w_epoch w + 1).
Proof.
  intros Hw. destruct (wo_epoch _ Hw) as [? ->]. unfold wrap_uint64. by rewrite Zplus_mod_idemp_l.
Qed.

Lemma invalidate_key_ok w visit keyID store r (ok : bool) :
  world_ok w → (∀ s, visit s ≡ₚ elements s) →
  InvalidateKey visit (w_store w) (w_shared w) keyID = (store, r, ok) →
  world_ok {| w_db := w_db w; w_shared := r; w_store := store; w_loads := w_loads w;
              w_dirty_keys := if ok then w_dirty_keys w ∖ {[keyID]} else w_dirty_keys w;
              w_dirty_tenants := w_dirty_tenants w; w_epoch := w_epoch w + 1 |}.
Proof.
  intros Hw Hv Hinv. unfold InvalidateKey in Hinv. destruct (wo_settings _ Hw) as [Hset Hen].
  rewrite Hen in Hinv. cbn [negb] in Hinv.
  destruct (sa_InvalidateKey keyID (w_shared w)) as [ok' r'] eqn:Hsh. injection Hinv as <- <- <-.
  pose proof (sa_invalidate_key_law (w_shared w) keyID (wo_shared_ok _ Hw)) as [Hok Hsub]. rewrite Hsh in Hok, Hsub.
  destruct (l1_DeleteKey_live _ _ Hentries visit _ keyID Hv (wo_live _ Hw)) as [Hlive Hin].
  apply (invalidated_ok _ (w_db w) _ _ _ _ (λ s, bool_decide (as_APIKeyID s = keyID))); try done.
  - by apply wrap_epoch.
  - intros s Hg%bool_decide_eq_false [Hd|[?|?]]; [|by right; left | by right; right].
    left. cbn. destruct ok'; [set_solver | done].
  - intros e He. destruct (Hin e He). split; [done|]. by apply bool_decide_eq_false.
  - intros k kid tid p Hh. destruct (Hsub _ _ _ _ Hh) as [Hold Hne]. split; [done|].
    intros s <- _ [Hd|[?|?]]; [|by right; left | by right; right]. left. cbn in Hne |- *.
    destruct ok'; [specialize (Hne eq_refl); set_solver | done].
Qed.

Lemma invalidate_tenant_ok w visit tenantID store r (ok : bool) :
  world_ok w → (∀ s, visit s ≡ₚ elements s) →
  InvalidateTenant visit (w_store w) (w_shared w) tenantID = (store, r, ok) →
  world_ok {| w_db := w_db w; w_shared := r; w_store := store; w_loads := w_loads w;
              w_dirty_keys := w_dirty_keys w;
              w_dirty_tenants := if ok then w_dirty_tenants w ∖ {[tenantID]} else w_dirty_tenants w;
              w_epoch := w_epoch w + 1 |}.
Proof.
  intros Hw Hv Hinv. unfold InvalidateTenant in Hinv. destruct (wo_settings _ Hw) as [Hset Hen].
  rewrite Hen in Hinv. cbn [negb] in Hinv.
  destruct (sa_InvalidateTenant tenantID (w_shared w)) as [ok' r'] eqn:Hsh. injection Hinv as <- <- <-.
  pose proof (sa_invalidate_tenant_law (w_shared w) tenantID (wo_shared_ok _ Hw)) as [Hok Hsub]. rewrite Hsh in Hok, Hsub.
  destruct (l1_DeleteTenant_live _ _ Hentries visit _ tenantID Hv (wo_live _ Hw)) as [Hlive Hin].
  apply (invalidated_ok _ (w_db w) _ _ _ _ (λ s, bool_decide (as_TenantID s = tenantID))); try done.
  - by apply wrap_epoch.
  - intros s Hg%bool_decide_eq_false [?|[Hd|?]]; [by left | | by right; right].
    right. left. cbn. destruct ok'; [set_solver | done].
  - intros e He. destruct (Hin e He). split; [done|]. by apply bool_decide_eq_false.
  - intros k kid tid p Hh. destruct (Hsub _ _ _ _ Hh) as [Hold Hne]. split; [done|].
    intros s _ <- [?|[Hd|?]]; [by left | | by right; right]. right. left. cbn in Hne |- *.
    destruct ok'; [specialize (Hne eq_refl); set_solver | done].
Qed.

Lemma auth_step_ok w w' : world_ok w → w_epoch w < two64 → auth_step w w' → world_ok w'.
Proof.
  intros Hw Hb Hstep. destruct Hstep as
    [w key now|w digest now store gen res Hbeg|w l now s loads Hp Hst Hr|w digest|w l now s loads Hp Hst
    |w l now loads Hp Hst|w l now load load' store r loads Hp Hst Hpro|w l loads Hp|w db keyID Hch Hrs
    |w db tenantID Hch Hrs|w visit keyID store r ok Hv Hinv|w visit tenantID store r ok Hv Hinv|w r Hexp].
  - by apply get_ok.
  - unfold load_begin in Hbeg. injection Hbeg as <- <- <-. apply with_store_loads_ok; [by apply get_ok|].
    intros l [->|Hl]%elem_of_cons; [|by apply (wo_loads _ Hw)]. destruct (wo_epoch _ Hw). split; cbn; [lia | done | done].
  - destruct (loads_perm_ok _ _ _ Hw Hp) as [[He Hg _] _]. apply read_ok; [done..|].
    destruct (shared_read_coherent _ _ _ _ Hw Hr) as (? & ? & _). by split.
  - destruct (sa_delete_law (w_shared w) _ (wo_shared_ok _ Hw) (Hname digest)). by apply shared_ok.
  - by apply (copy_down_ok w l).
  - destruct (loads_perm_ok _ _ _ Hw Hp) as [[He Hg _] _]. apply read_ok; [done..|]. split; [done..|].
    unfold load_source. destruct (source_Load _ _ _) as [res n] eqn:Hs. cbn. split; [done|].
    intros s. destruct res as [s'|]; [|done]. intros [= ->].
    destruct (source_Load_coherent _ _ _ _ _ Hw Hs) as [? Ha]. split; [done|]. intros _. by right; right.
  - by eapply Promote_ok.
  - destruct (loads_perm_ok _ _ _ Hw Hp). by apply forget_ok.
  - apply changed_ok; [done..|]. intros s Hc. exact (coherent_change_key w db keyID s Hch Hc).
  - apply changed_ok; [done..|]. intros s Hc. exact (coherent_change_tenant w db tenantID s Hch Hc).
  - by eapply invalidate_key_ok.
  - by eapply invalidate_tenant_ok.
  - destruct (sa_expires_law _ _ (wo_shared_ok _ Hw) Hexp). by apply shared_ok.
Qed.

Lemma auth_step_epoch w w' : auth_step w w' → w_epoch w ≤ w_epoch w'.
Proof. destruct 1; cbn; lia. Qed.

Lemma auth_steps_ok w w' : world_ok w → rtc auth_step w w' → w_epoch w' < two64 → world_ok w'.
Proof.
  intros Hw Hsteps. induction Hsteps as [|w1 w2 w3 Hstep Hsteps IH]; [done|]. intros Hb.
  apply IH; [|done]. apply (auth_step_ok w1); [done | | done].
  pose proof (auth_step_epoch _ _ Hstep). assert (w_epoch w2 ≤ w_epoch w3); [|lia].
  clear -Hsteps. induction Hsteps as [|? ? ? Hs ? ?]; [lia|]. pose proof (auth_step_epoch _ _ Hs). lia.
Qed.

(** The process starts with empty caches. *)
Definition initial_world (db : DB) (r : R) : AuthWorld :=
  {| w_db := db; w_shared := r; w_store := newCredentialStore settings; w_loads := []; w_dirty_keys := ∅;
     w_dirty_tenants := ∅; w_epoch := 0 |}.

Lemma initial_world_ok db r :
  rows_stable db → sa_ok r → (∀ k kid tid p, ¬ sa_holds r k kid tid p) → world_ok (initial_world db r).
Proof.
  intros Hr Hok Hnone. destruct (newL1Cache_ok (ac_L1MaxEntries settings) (ac_L1TTL settings)) as [Hl Hc].
  split; try done.
  - split; try done. cbn [initial_world w_store newCredentialStore cs_l1]. rewrite Hc. cbn. lia.
  - intros e He. cbn [initial_world w_store newCredentialStore cs_l1] in He. rewrite Hc in He.
    by apply not_elem_of_nil in He.
  - intros k kid tid p Hh. by destruct (Hnone k kid tid p).
  - intros l Hl'. by apply not_elem_of_nil in Hl'.
Qed.

Lemma cacheKey_inj d d' : store_cacheKey settings d = store_cacheKey settings d' → d = d'.
Proof. unfold store_cacheKey. intros Heq%string_app_inj%string_app_inj. by apply hex_encode_inj. Qed.

(** How a lookup that misses in memory gets its answer from what is not outdated: it leads a
    load of its own, which runs at once, or it is given what a load in flight has read from
    the shared cache or the database, which began after the last invalidation. *)
Definition flight_current (w : AuthWorld) (digest : string) (flight : Flight) : Prop :=
  match flight with
  | Leads | GivesUp _ => True
  | Joins load => ∃ l, l ∈ w_loads w ∧ lg_digest l = digest ∧ lg_epoch l = w_epoch w ∧
      (lg_stage l = GotSource load ∨ ∃ s, lg_stage l = GotShared s ∧ cl_result load = Ok s)
  end.

Lemma joined_coherent w digest load s :
  world_ok w → flight_current w digest (Joins load) → cl_result load = Ok s → belongs_to digest s ∧ coherent w s.
Proof.
  intros Hw (l & Hl & <- & He & Hst) Hres. destruct (wo_loads _ Hw l Hl) as [_ _ Hs].
  destruct Hst as [Hst|(s' & Hst & Hres')]; rewrite Hst in Hs.
  - destruct Hs as [_ Hs]. destruct (Hs s Hres) as [? Hc]. auto.
  - destruct Hs as [? Hc]. rewrite Hres in Hres'. injection Hres' as <-. auto.
Qed.

Lemma Lookup_coherent w digest flight now load leader store r s :
  world_ok w → flight_current w digest flight →
  Lookup (w_store w) (w_shared w) (w_db w) digest flight now = (load, leader, store, r) →
  cl_result load = Ok s → belongs_to digest s ∧ coherent w s.
Proof.
  intros Hw Hflight Hlook Hres. unfold Lookup in Hlook. destruct (wo_settings _ Hw) as [Hset Hen]. rewrite Hen, Hset in Hlook.
  cbn [negb] in Hlook. destruct (l1_Get_live _ _ Hentries _ (store_cacheKey settings digest) now (wo_live _ Hw))
    as (Hlive & Hsub & Hhit).
  assert (∀ c s, c = cs_l1 (w_store w) ∨ c = (l1_Get (cs_l1 (w_store w)) (store_cacheKey settings digest) now).2 →
    (l1_Get c (store_cacheKey settings digest) now).1 = L1Hit s → belongs_to digest s ∧ coherent w s) as Hl1.
  { intros c s' Hc Hs'. assert (∃ e, e ∈ contents (cs_l1 (w_store w)) ∧ le_cacheKey e = store_cacheKey settings digest ∧
      le_snapshot e = s') as (e & He & Hk & <-).
    { destruct Hc as [->| ->]; [naive_solver|].
      destruct (l1_Get_live _ _ Hentries _ (store_cacheKey settings digest) now Hlive) as (_ & _ & Hhit').
      destruct (Hhit' s' Hs') as (e & He & ? & ? & _). exists e. auto. }
    destruct (wo_l1 _ Hw e He) as (? & d & ? & Hk'). rewrite Hk in Hk'. apply cacheKey_inj in Hk' as ->. done. }
  assert (∀ load', cl_result load' = Ok s → load' = load_source (w_db w) digest now (cl_generation load') →
    belongs_to digest s ∧ coherent w s) as Hsrc.
  { intros load' Hr Heq. rewrite Heq in Hr. unfold load_source in Hr.
    destruct (source_Load _ _ _) as [[s'|] n] eqn:Hs; [|done]. cbn in Hr. injection Hr as ->.
    destruct (source_Load_coherent _ _ _ _ _ Hw Hs) as [? ?]. split; [done|]. by right; right. }
  assert (load_source (w_db w) digest now (cs_generation (w_store w)) =
    load_source (w_db w) digest now (cl_generation (load_source (w_db w) digest now (cs_generation (w_store w))))) as Hgen
    by (unfold load_source; by destruct (source_Load _ _ _)).
  destruct (l1_Get (cs_l1 (w_store w)) (store_cacheKey settings digest) now) as [res c] eqn:Hget. cbn [fst snd] in *.
  assert (∀ x, (AuthCache.load (with_l1 (w_store w) c) (w_shared w) (w_db w) (store_cacheKey settings digest) digest now).1.1 = x →
    cl_result x = Ok s → belongs_to digest s ∧ coherent w s) as Hload.
  { intros x <- Hr. unfold AuthCache.load, load_begin in Hr. cbn [cs_l1 with_l1 cs_generation] in Hr.
    destruct ((l1_Get c (store_cacheKey settings digest) now).1) as [| |s'] eqn:Hg.
    1,2: destruct (shared_read _ _ _ _) as [s''| | |] eqn:Hsh; cbn [fst] in Hr;
      [cbn in Hr; injection Hr as ->; destruct (shared_read_coherent _ _ _ _ Hw Hsh) as (? & ? & _); done
      | by eapply Hsrc..].
    cbn in Hr. injection Hr as ->. eapply Hl1; [by right | done]. }
  destruct res as [| |s'].
  1,2: destruct flight as [|shared|e];
    [destruct (AuthCache.load _ _ _ _ _ _) as [[x ?] ?]; injection Hlook as <- _ _ _; by eapply Hload
    |injection Hlook as <- _ _ _; by eapply joined_coherent
    |injection Hlook as <- _ _ _; done].
  injection Hlook as <- _ _ _. cbn in Hres. injection Hres as ->. apply (Hl1 (cs_l1 (w_store w))); [by left|]. by rewrite Hget.
Qed.

(** C25: The caches agree with the database. However lookups, loads, promotions,
    changes of rows, invalidations and expiries interleave, a lookup that is
    answered, from memory, by a load that it leads and that runs at once, or by
    one in flight that began after the last invalidation, has a snapshot of its
    own digest; and if no change of that key or tenant is waiting for its
    invalidation, this snapshot agrees with the database: same status, expiry,
    hash and grants. So a revoked key is dead as soon as its invalidation has
    been carried out (for fewer than 2^64 invalidations), but for lookups that
    join a load begun before it. *)
Theorem caches_agree db r w digest flight now load leader store r' s :
  rows_stable db → sa_ok r → (∀ k kid tid p, ¬ sa_holds r k kid tid p) →
  rtc auth_step (initial_world db r) w → w_epoch w < two64 →
  flight_current w digest flight →
  Lookup (w_store w) (w_shared w) (w_db w) digest flight now = (load, leader, store, r') →
  cl_result load = Ok s →
  as_APIKeyID s ∉ w_dirty_keys w → as_TenantID s ∉ w_dirty_tenants w →
  as_LookupDigest s = digest ∧ agrees (w_db w) s.
Proof.
  intros Hrows Hok Hnone Hsteps Hb Hflight Hlook Hres Hk Ht.
  pose proof (auth_steps_ok _ _ (initial_world_ok _ _ Hrows Hok Hnone) Hsteps Hb) as Hw.
  destruct (Lookup_coherent _ _ _ _ _ _ _ _ _ Hw Hflight Hlook Hres) as [[? _] [?|[?|?]]]; done.
Qed.
End coherence.

(** ** A concrete run

    A key is looked up, verified and promoted to both caches, then revoked, then
    invalidated. *)

Record AuthTables := { at_rows : gmap string AuthRow; at_grants : gmap string (list string) }.

#[export] Instance tables_auth_rows : AuthRows AuthTables :=
  {| select_auth_row := λ db digest, Some (at_rows db !! digest);
     select_grants := λ db tenant, Some (default [] (at_grants db !! tenant)) |}.

#[export] Instance tables_auth_rows_laws : AuthRowsLaws AuthTables.
Proof.
  refine {| db_row := λ db digest, at_rows db !! digest; db_grants := λ db tenant, default [] (at_grants db !! tenant) |}.
  - by intros db digest o [= <-].
  - by intros db tenant l [= <-].
Defined.

Definition demo_settings : AuthCacheSettings :=
  {| ac_Enabled := true; ac_L1MaxEntries := 10; ac_L1TTL := 15 * second; ac_L2TTL := 30 * second;
     ac_KeyPrefix := "mv"; ac_InvalidationChannel := "c" |}.

Definition demo_prefix : string := "mvl_MDEyMzQ1Njc4OWFi".
Definition demo_digest : string := digestPrefix demo_prefix.

(** In this run the identifier of a key is its digest. *)
Definition demo_row (status : string) : AuthRow :=
  {| ar_APIKeyID := demo_digest; ar_TenantID := "t"; ar_KeyPrefix := demo_prefix; ar_LookupDigest := demo_digest;
     ar_KeyHash := hashSecret (EncodeToString demo_secret) demo_pepper; ar_HashVersion := 1; ar_KeyStatus := status;
     ar_KeyExpiresAt := None; ar_LastUsedAt := None; ar_TenantStatus := TenantActive; ar_TenantVersion := 1 |}.

Definition demo_db (status : string) : AuthTables :=
  {| at_rows := {[ demo_digest := demo_row status ]}; at_grants := {[ "t"%string := ["fast"%string] ]} |}.

Definition demo_home (keyID : string) : string := store_cacheKey demo_settings keyID.
Definition demo_owner (keyID : string) : string := "t".

(** A codec for the one snapshot of the run. *)
Definition demo_cached : authSnapshot :=
  with_cached_until (with_models (row_snapshot (demo_row APIKeyActive) ["fast"%string] 100) ["fast"%string])
    (100 + 30 * second).

#[export] Instance demo_codec : SnapshotCodec :=
  {| snapshot_marshal := λ s, if decide (s = demo_cached) then Some "the snapshot"%string else None;
     snapshot_unmarshal := λ p, if (p =? "the snapshot")%string then Some demo_cached else None |}.

#[export] Instance demo_codec_laws : SnapshotCodecLaws.
Proof. intros s p. cbn. destruct (decide (s = demo_cached)) as [->|]; [|done]. by intros [= <-]. Qed.

#[export] Instance demo_redis : sharedAuthCache RedisData := redisAuthCache "mv".

Lemma demo_home_name kid : ∃ x, demo_home kid = ("mv" ++ ":snapshot:" ++ x)%string.
Proof. by exists (hex_encode kid). Qed.

Lemma demo_home_inj : Inj (=) (=) demo_home.
Proof. intros a b. apply cacheKey_inj. Qed.

#[export] Instance demo_redis_laws : SharedAuthLaws RedisData demo_home demo_owner (ac_L2TTL demo_settings) :=
  redis_laws "mv" demo_home demo_owner (30 * second) demo_home_name demo_home_inj.

Definition demo_world : AuthWorld :=
  initial_world demo_settings (demo_db APIKeyActive) {| rd_strings := ∅; rd_sets := ∅; rd_clock := 100 |}.

Definition demo_key : string := store_cacheKey demo_settings demo_digest.

Definition demo_begun : AuthWorld :=
  with_loads (with_store demo_world (load_begin (w_store demo_world) demo_key 100).2)
    [{| lg_digest := demo_digest; lg_generation := 0; lg_epoch := 0; lg_stage := Missed |}].

Definition demo_load : cacheLoad := load_source (demo_db APIKeyActive) demo_digest 100 0.

Definition demo_loading (load : cacheLoad) : Loading :=
  {| lg_digest := demo_digest; lg_generation := 0; lg_epoch := 0; lg_stage := GotSource load |}.

Definition demo_loaded : AuthWorld := with_loads demo_begun [demo_loading demo_load].

Definition demo_promote : cacheLoad * credentialStore * RedisData :=
  Promote (w_store demo_loaded) (w_shared demo_loaded) demo_key demo_load 100.

Definition demo_promoted : AuthWorld :=
  with_loads (with_shared (with_store demo_loaded demo_promote.1.2) demo_promote.2) [demo_loading demo_promote.1.1].

(** After the promotion both caches answer. *)
Example demo_promoted_hits :
  (l1_Get (cs_l1 (w_store demo_promoted)) demo_key 101).1 = L1Hit demo_cached ∧
  sa_Load (w_shared demo_promoted) demo_key = Some (Some "the snapshot"%string).
Proof. vm_compute. split; reflexivity. Qed.

Definition demo_revoked : AuthWorld :=
  {| w_db := demo_db APIKeyRevoked; w_shared := w_shared demo_promoted; w_store := w_store demo_promoted;
     w_loads := w_loads demo_promoted; w_dirty_keys := {[demo_digest]} ∪ w_dirty_keys demo_promoted;
     w_dirty_tenants := w_dirty_tenants demo_promoted; w_epoch := w_epoch demo_promoted |}.

Definition demo_invalidation : credentialStore * RedisData * bool :=
  InvalidateKey elements (w_store demo_revoked) (w_shared demo_revoked) demo_digest.

Definition demo_invalidated : AuthWorld :=
  {| w_db := w_db demo_revoked; w_shared := demo_invalidation.1.2; w_store := demo_invalidation.1.1;
     w_loads := w_loads demo_revoked;
     w_dirty_keys := if demo_invalidation.2 then w_dirty_keys demo_revoked ∖ {[demo_digest]} else w_dirty_keys demo_revoked;
     w_dirty_tenants := w_dirty_tenants demo_revoked; w_epoch := w_epoch demo_revoked + 1 |}.

Lemma demo_rows_stable status : rows_stable demo_home demo_owner demo_settings (demo_db status).
Proof.
  intros digest row Hrow. cbn in Hrow. apply lookup_singleton_Some in Hrow as [<- <-]. done.
Qed.

Lemma demo_change : changes_only (λ row, ar_APIKeyID row = demo_digest) (demo_db APIKeyActive) (demo_db APIKeyRevoked).
Proof.
  intros digest row Hrow Hne. cbn in Hrow. apply lookup_singleton_Some in Hrow as [<- <-]. by destruct Hne.
Qed.

Lemma demo_run : rtc (auth_step demo_home demo_owner demo_settings) demo_world demo_invalidated.
Proof.
  eapply (rtc_l _ _ demo_begun).
  { apply (step_begin _ _ _ demo_world demo_digest 100 (load_begin (w_store demo_world) demo_key 100).2 0 L1Miss).
    reflexivity. }
  eapply (rtc_l _ _ demo_loaded).
  { apply (step_source _ _ _ demo_begun {| lg_digest := demo_digest; lg_generation := 0; lg_epoch := 0;
      lg_stage := Missed |} 100 []); done. }
  eapply (rtc_l _ _ demo_promoted).
  { apply (step_promote _ _ _ demo_loaded (demo_loading demo_load) 100 demo_load demo_promote.1.1 demo_promote.1.2
      demo_promote.2 []); [done | done | unfold demo_promote; by destruct (Promote _ _ _ _ _) as [[? ?] ?]]. }
  eapply (rtc_l _ _ demo_revoked).
  { apply (step_change_key _ _ _ demo_promoted (demo_db APIKeyRevoked) demo_digest); [apply demo_change | apply demo_rows_stable]. }
  apply rtc_once. apply (step_invalidate_key _ _ _ demo_revoked elements demo_digest demo_invalidation.1.1
    demo_invalidation.1.2 demo_invalidation.2); [done|].
  unfold demo_invalidation. by destruct (InvalidateKey _ _ _ _) as [[? ?] ?].
Qed.

Definition demo_lookup : cacheLoad * bool * credentialStore * RedisData :=
  Lookup (w_store demo_invalidated) (w_shared demo_invalidated) (w_db demo_invalidated) demo_digest Leads 102.

(** The revoked key is read from the database. *)
Definition demo_answer : authSnapshot := Eval vm_compute in
  match cl_result demo_lookup.1.1.1 with Ok s => s | Err _ => demo_cached end.

Lemma demo_lookup_result :
  cl_result demo_lookup.1.1.1 = Ok demo_answer ∧ as_KeyStatus demo_answer = APIKeyRevoked ∧
  as_APIKeyID demo_answer ∉ w_dirty_keys demo_invalidated ∧ as_TenantID demo_answer ∉ w_dirty_tenants demo_invalidated.
Proof. split_and!; [vm_compute; reflexivity | reflexivity | apply (bool_decide_unpack _); vm_compute; exact I..]. Qed.

Lemma demo_name digest : @sa_name _ _ _ _ _ demo_redis_laws (store_cacheKey demo_settings digest).
Proof. by exists (hex_encode digest). Qed.

Lemma demo_no_entries k kid tid p :
  ¬ @sa_holds _ _ _ _ _ demo_redis_laws {| rd_strings := ∅; rd_sets := ∅; rd_clock := 100 |} k kid tid p.
Proof. intros (_ & _ & dl & Hl). by apply (lookup_empty_Some k (p, dl)) in Hl. Qed.

Lemma demo_lookup_eq :
  Lookup (w_store demo_invalidated) (w_shared demo_invalidated) (w_db demo_invalidated) demo_digest Leads 102 =
  (demo_lookup.1.1.1, demo_lookup.1.1.2, demo_lookup.1.2, demo_lookup.2).
Proof. unfold demo_lookup. by destruct (Lookup _ _ _ _ _ _) as [[[? ?] ?] ?]. Qed.

Lemma demo_epoch : w_epoch demo_invalidated < two64.
Proof. vm_compute. reflexivity. Qed.

Lemma caches_agree_witness :
  as_LookupDigest demo_answer = demo_digest ∧ agrees (w_db demo_invalidated) demo_answer.
Proof.
  exact (caches_agree demo_home demo_owner demo_settings eq_refl eq_refl
    demo_name
    (demo_db APIKeyActive) {| rd_strings := ∅; rd_sets := ∅; rd_clock := 100 |} demo_invalidated demo_digest Leads 102
    demo_lookup.1.1.1 demo_lookup.1.1.2 demo_lookup.1.2 demo_lookup.2 demo_answer
    (demo_rows_stable APIKeyActive)
    (empty_data_ok "mv" demo_home demo_owner (30 * second) 100)
    demo_no_entries
    demo_run demo_epoch I demo_lookup_eq (proj1 demo_lookup_result)
    (proj1 (proj2 (proj2 demo_lookup_result))) (proj2 (proj2 (proj2 demo_lookup_result)))).
Defined.
