(* ===== verification/ResponseCache.v ===== *)
(** * The response cache

    Models [src/internal/responsecache/cache.go]: complete answers are kept in Redis
    under a key made of the environment and of digests of the tenant, the model, the
    version of the routes and the request in canonical form. A hit is an answer that
    was stored for the same tenant, model, routes and JSON request, and an answer
    that was stored is found by every way to write the request. *)

From S2P Require Import Prelude Encoding Json JsonWrite JsonTree Token AuthSnapshot AuthCache RedisAuth.

Inductive Status := StatusHit | StatusMiss | StatusBypass.
Record Result := { rs_Status : Status; rs_Body : string }.

Inductive CacheError :=
| CacheClientNil
| CacheSettingsInvalid
| CacheContextDone
| CacheKeyParts        (* "response cache tenant and model are required" *)
| CacheReadFailed
| CacheBodyInvalid
| CacheWriteFailed.

Record Cache := { ca_environment : string; ca_routeVersion : string; ca_ttl : Duration }.

Definition New {C} (client : option C) (environment routeVersion : string) (ttl : Duration) : result CacheError Cache :=
  match client with
  | None => Err CacheClientNil
  | Some _ =>
      let environment := TrimSpace environment in
      let routeVersion := TrimSpace routeVersion in
      if (environment =? "")%string || (routeVersion =? "")%string || (ttl <? 0) then Err CacheSettingsInvalid
      else Ok {| ca_environment := environment; ca_routeVersion := routeVersion; ca_ttl := ttl |}
  end.

(** What the cache looks at in a context: whether it is done, and its value under
    [routeVersionContextKey]. *)
Record Context := { cx_done : bool; cx_routeVersion : option string }.

Definition WithRouteVersion (ctx : Context) (routeVersion : string) : Context :=
  let routeVersion := TrimSpace routeVersion in
  if (routeVersion =? "")%string then ctx
  else {| cx_done := cx_done ctx; cx_routeVersion := Some routeVersion |}.

Definition routeVersionFromContext (ctx : Context) (fallback : string) : string :=
  let value := default ""%string (cx_routeVersion ctx) in
  if (TrimSpace value =? "")%string then fallback else value.

Definition canonicalizeJSON (source : string) : option string :=
  value ← read_json source; Some (encode_tree value).

Definition cacheKey (environment tenantID model routeVersion canonicalRequest : string) : string :=
  ("model-velo:response-cache:v1:" ++ environment ++
   ":tenant:" ++ hex_encode (Sum256 tenantID) ++ ":model:" ++ hex_encode (Sum256 model) ++
   ":route:" ++ hex_encode (Sum256 routeVersion) ++ ":request:" ++ hex_encode (Sum256 canonicalRequest))%string.

(** [None]: the request cannot be cached. *)
Definition keyForRouteVersion (cache : Cache) (routeVersion tenantID model requestBody : string)
    : result CacheError (option string) :=
  let tenantID := TrimSpace tenantID in
  let model := TrimSpace model in
  let routeVersion := TrimSpace routeVersion in
  if (tenantID =? "")%string || (model =? "")%string || (routeVersion =? "")%string then Err CacheKeyParts
  else Ok (cacheKey (ca_environment cache) tenantID model routeVersion <$> canonicalizeJSON requestBody).

Definition key (cache : Cache) (tenantID model requestBody : string) : result CacheError (option string) :=
  keyForRouteVersion cache (ca_routeVersion cache) tenantID model requestBody.

Section operations.
Context {T : Type} `{RedisServer T} (cache : Cache) (ctx : Context).

Definition context_key (tenantID model requestBody : string) : result CacheError (option string) :=
  keyForRouteVersion cache (routeVersionFromContext ctx (ca_routeVersion cache)) tenantID model requestBody.

Definition Lookup (tenantID model requestBody : string) (t : T) : result CacheError Result :=
  if cx_done ctx then Err CacheContextDone
  else if ca_ttl cache =? 0 then Ok {| rs_Status := StatusBypass; rs_Body := "" |}
  else
    match context_key tenantID model requestBody with
    | Err e => Err e
    | Ok None => Ok {| rs_Status := StatusBypass; rs_Body := "" |}
    | Ok (Some key) =>
        match rd_Get t key with
        | None => Err CacheReadFailed
        | Some None => Ok {| rs_Status := StatusMiss; rs_Body := "" |}
        | Some (Some body) =>
            if json_valid body then Ok {| rs_Status := StatusHit; rs_Body := body |} else Err CacheBodyInvalid
        end
    end.

Definition Store (tenantID model requestBody responseBody : string) (t : T) : result CacheError () * T :=
  if cx_done ctx then (Err CacheContextDone, t)
  else if (ca_ttl cache =? 0) || negb (json_valid responseBody) then (Ok (), t)
  else
    match context_key tenantID model requestBody with
    | Err e => (Err e, t)
    | Ok None => (Ok (), t)
    | Ok (Some key) =>
        let '(ok, t) := rd_Exec [RSet key responseBody (ca_ttl cache)] t in
        (if ok : bool then Ok () else Err CacheWriteFailed, t)
    end.
End operations.

(** ** Keys

    The key determines the environment and the four digests: they have a fixed
    length, so the environment cannot run into them. *)

Lemma append_inj_l p s t : (p +:+ s) = (p +:+ t) → s = t.
Proof. induction p as [|c p IH]; [done|]. rewrite !append_cons. intros [= Hp]. by apply IH. Qed.

Lemma append_inj_length p q s t :
  String.length s = String.length t → (p +:+ s) = (q +:+ t) → p = q ∧ s = t.
Proof.
  intros Hlen Heq. assert (String.length p = String.length q) as Hpq.
  { apply (f_equal String.length) in Heq. rewrite !length_append in Heq. lia. }
  revert q Hpq Heq. induction p as [|c p IH]; intros [|d q] Hpq Heq; try done.
  rewrite !append_cons in Heq. injection Heq as -> Heq. destruct (IH q) as [-> ->]; [by injection Hpq|done|done].
Qed.

Lemma response_key_inj env t m r q env' t' m' r' q' :
  cacheKey env t m r q = cacheKey env' t' m' r' q' →
  env = env' ∧ Sum256 t = Sum256 t' ∧ Sum256 m = Sum256 m' ∧ Sum256 r = Sum256 r' ∧ Sum256 q = Sum256 q'.
Proof.
  unfold cacheKey. intros Heq%append_inj_l.
  assert (∀ a b p x y, String.length x = String.length y →
    (hex_encode (Sum256 a) +:+ (p +:+ x)) = (hex_encode (Sum256 b) +:+ (p +:+ y)) → Sum256 a = Sum256 b ∧ x = y) as Hpart.
  { intros a b p x y Hlen Hxy. apply append_inj_length in Hxy as [Ha%hex_encode_inj Hx%append_inj_l]; [done|].
    rewrite !length_append. lia. }
  apply append_inj_length in Heq as [-> Heq%append_inj_l].
  2:{ rewrite !length_append, !digest_length. lia. }
  apply Hpart in Heq as [-> Heq]; [|by rewrite !length_append, !digest_length].
  apply Hpart in Heq as [-> Heq]; [|by rewrite !length_append, !digest_length].
  apply Hpart in Heq as [-> Heq%hex_encode_inj]; [|by rewrite !digest_length]. done.
Qed.

(** ** Requests *)

Lemma canonicalize_equiv a b x y :
  canonicalizeJSON a = Some x → canonicalizeJSON b = Some y → x = y ↔ same_json a b.
Proof.
  unfold canonicalizeJSON, same_json.
  intros (t & Ht & [= <-])%bind_Some (u & Hu & [= <-])%bind_Some.
  rewrite encode_tree_equiv by by eapply read_json_ok. split; [by eauto|].
  intros (t' & u' & Ht' & Hu' & Heq). congruence.
Qed.

Lemma canonicalize_stable a x : canonicalizeJSON a = Some x → canonicalizeJSON x = Some x ∧ same_json a x.
Proof.
  unfold canonicalizeJSON, same_json. intros (t & Ht & [= <-])%bind_Some. apply read_json_ok in Ht as Hok.
  rewrite read_json_encode by done. cbn. pose proof (sorted_equiv t (sorted_tree t)) as Heq.
  rewrite sorted_tree_idem in Heq by done. specialize (Heq eq_refl). split; [|by eauto].
  f_equal. symmetry. apply encode_tree_equiv; [done|by apply sorted_tree_ok|done].
Qed.

(** ** Histories

    What the gateways have stored, by request, and the server: other clients and the
    passing of time may take entries away, but write nothing under a key of the
    cache. *)

Record Entry := {
  en_environment : string; en_tenantID : string; en_model : string; en_routeVersion : string;
  en_request : string; en_response : string;
}.

Definition entry_key (e : Entry) : option string :=
  cacheKey (en_environment e) (TrimSpace (en_tenantID e)) (TrimSpace (en_model e)) (TrimSpace (en_routeVersion e)) <$>
  canonicalizeJSON (en_request e).

Definition is_cache_key (k : string) : Prop := ∃ environment t m r q, k = cacheKey environment t m r q.

Definition store_entry (cache : Cache) (ctx : Context) (tenantID model request response : string) : Entry :=
  {| en_environment := ca_environment cache; en_tenantID := tenantID; en_model := model;
     en_routeVersion := routeVersionFromContext ctx (ca_routeVersion cache); en_request := request;
     en_response := response |}.

Inductive cache_step {T} `{RedisServer T} : T * list Entry → T * list Entry → Prop :=
| step_store cache ctx tenantID model request response t log :
    cache_step (t, log)
      ((Store cache ctx tenantID model request response t).2,
       store_entry cache ctx tenantID model request response :: log)
| step_other t t' log :
    (∀ k v, is_cache_key k → rd_strings (rd_data t') !! k = Some v →
       ∃ v', rd_strings (rd_data t) !! k = Some v' ∧ v'.1 = v.1) →
    cache_step (t, log) (t', log).

(** The server started without entries of the cache. *)
Definition fresh {T} `{RedisServer T} (t : T) : Prop := ∀ k, is_cache_key k → rd_strings (rd_data t) !! k = None.

Definition entries_logged {T} `{RedisServer T} (t : T) (log : list Entry) : Prop :=
  ∀ k v, is_cache_key k → rd_strings (rd_data t) !! k = Some v →
    ∃ e, e ∈ log ∧ entry_key e = Some k ∧ en_response e = v.1.

Section histories.
Context {T : Type} `{RedisServerLaws T}.

Lemma context_key_spec cache ctx tenantID model request k :
  context_key cache ctx tenantID model request = Ok (Some k) →
  ∃ q, canonicalizeJSON request = Some q ∧
    k = cacheKey (ca_environment cache) (TrimSpace tenantID) (TrimSpace model)
          (TrimSpace (routeVersionFromContext ctx (ca_routeVersion cache))) q.
Proof.
  unfold context_key, keyForRouteVersion. destruct (_ || _); [done|]. intros [= Hk].
  destruct (canonicalizeJSON request) as [q|]; [|done]. injection Hk as <-. by exists q.
Qed.

Lemma Store_spec cache ctx tenantID model request response (t : T) :
  (∃ k, context_key cache ctx tenantID model request = Ok (Some k) ∧
     rd_data (Store cache ctx tenantID model request response t).2 =
       redis_apply (rd_data t) (RSet k response (ca_ttl cache))) ∨
  rd_data (Store cache ctx tenantID model request response t).2 = rd_data t.
Proof.
  unfold Store. destruct (cx_done ctx); [by right|]. destruct (_ || _); [by right|].
  destruct (context_key _ _ _ _ _) as [[k|]|e]; [|by right..].
  pose proof (rd_exec_law [RSet k response (ca_ttl cache)] t) as Hx.
  destruct (rd_Exec _ t) as [ok t']. cbn [fst snd] in *. destruct Hx as [Hx|[_ Hx]]; [left|by right].
  exists k. split; [done|exact Hx].
Qed.

Lemma step_logged t log t' log' :
  cache_step (t, log) (t', log') → entries_logged t log → entries_logged t' log'.
Proof.
  inversion 1 as [cache ctx tenantID model request response ? ?|? ? ? Hother]; subst; intros Hlog k v Hk Hv.
  - destruct (Store_spec cache ctx tenantID model request response t) as [(k' & Hkey & Hd)|Hd]; rewrite Hd in Hv.
    + cbn in Hv. apply lookup_insert_Some in Hv as [[<- <-]|[_ Hv]].
      * exists (store_entry cache ctx tenantID model request response). split_and!; [apply elem_of_cons; by left| |done].
        apply context_key_spec in Hkey as (q & Hq & ->). unfold entry_key. cbn [store_entry en_environment en_tenantID en_model en_routeVersion en_request]. by rewrite Hq.
      * destruct (Hlog k v Hk Hv) as (e & He & Hrest). exists e. split; [apply elem_of_cons; by right|done].
    + destruct (Hlog k v Hk Hv) as (e & He & Hrest). exists e. split; [apply elem_of_cons; by right|done].
  - destruct (Hother k v Hk Hv) as (v' & Hv' & <-). by apply Hlog.
Qed.

Lemma history_logged t t' log : fresh t → rtc cache_step (t, []) (t', log) → entries_logged t' log.
Proof.
  intros Hfresh Hsteps. assert (entries_logged t []) as Hlog by (intros k v Hk Hv; rewrite (Hfresh k Hk) in Hv; done).
  revert Hlog. generalize (@nil Entry) Hsteps. intros log0 Hs. remember (t, log0) as x eqn:Hx. remember (t', log) as y eqn:Hy.
  clear Hsteps Hfresh. revert t log0 Hx. induction Hs as [x|x [t1 log1] y Hstep _ IH]; intros t log0 ->.
  - by injection Hy as -> ->.
  - intros Hlog. eapply IH; [done|done|]. by eapply step_logged.
Qed.

End histories.

(** No two of these texts have the same digest. *)
Definition no_collision (texts : list string) : Prop :=
  ∀ a b, a ∈ texts → b ∈ texts → Sum256 a = Sum256 b → a = b.

(** The texts a request is known by. *)
Definition key_texts (tenantID model routeVersion request : string) : list string :=
  [TrimSpace tenantID; TrimSpace model; TrimSpace routeVersion; default ""%string (canonicalizeJSON request)].

Definition entry_texts (e : Entry) : list string :=
  key_texts (en_tenantID e) (en_model e) (en_routeVersion e) (en_request e).

(** An entry answers a request: same environment, tenant, model and routes, and a
    request that is the same JSON value. *)
Definition answers (cache : Cache) (ctx : Context) (tenantID model request : string) (e : Entry) : Prop :=
  en_environment e = ca_environment cache ∧ TrimSpace (en_tenantID e) = TrimSpace tenantID ∧
  TrimSpace (en_model e) = TrimSpace model ∧
  TrimSpace (en_routeVersion e) = TrimSpace (routeVersionFromContext ctx (ca_routeVersion cache)) ∧
  same_json (en_request e) request.

(** ** Theorems *)

(** C38: [canonicalizeJSON] is a normal form of JSON: two request bodies get the same
    text exactly when they are the same JSON value (white space, escapes and the order
    of object members do not count, everything else does), and the text is itself the
    canonical text of the same value. *)
Theorem canonical_form a b x y :
  canonicalizeJSON a = Some x → canonicalizeJSON b = Some y →
  (x = y ↔ same_json a b) ∧ canonicalizeJSON x = Some x ∧ same_json a x.
Proof. intros Ha Hb. split; [by apply canonicalize_equiv | by apply canonicalize_stable]. Qed.

Example request_a : string := text "{'model':'m', 'messages':[{'role':'user','content':'h\u0069'}]}".
Example request_b : string := text " {'messages' : [ {'content':'hi','role':'user'} ] , 'model':'m'}".
Example request_c : string := text "{'model':'m','messages':[{'role':'user','content':'ho'}]}".

Lemma canonical_form_witness :
  (canonicalizeJSON request_a = canonicalizeJSON request_b ∧ canonicalizeJSON request_a ≠ None) ∧
  same_json request_a request_b.
Proof.
  destruct (canonicalizeJSON request_a) as [x|] eqn:Ha; [|vm_compute in Ha; discriminate Ha].
  destruct (canonicalizeJSON request_b) as [y|] eqn:Hb; [|vm_compute in Hb; discriminate Hb].
  assert (x = y) as Hxy by (vm_compute in Ha, Hb; congruence).
  split; [split; [by rewrite Hxy|done]|]. by apply (canonical_form _ _ _ _ Ha Hb).
Defined.

(** C37: Whatever the gateways store in any order, under any settings, and whatever
    expires or is deleted, a hit is a valid JSON answer that was stored in the same
    environment for the same tenant, model and route version, and for a request that is
    the same JSON value, provided no two of the texts involved have the same SHA-256. *)
Theorem hit_is_stored {T} `{RedisServerLaws T} (t0 t : T) log cache ctx tenantID model request body :
  fresh t0 → rtc cache_step (t0, []) (t, log) →
  no_collision (key_texts tenantID model (routeVersionFromContext ctx (ca_routeVersion cache)) request ++
                (log ≫= entry_texts)) →
  Lookup cache ctx tenantID model request t = Ok {| rs_Status := StatusHit; rs_Body := body |} →
  json_valid body = true ∧
  ∃ e, e ∈ log ∧ en_response e = body ∧ answers cache ctx tenantID model request e.
Proof.
  intros Hfresh Hsteps Hdistinct. apply history_logged in Hsteps; [|done]. unfold Lookup.
  destruct (cx_done ctx); [done|]. destruct (_ =? 0); [done|].
  destruct (context_key _ _ _ _ _) as [[k|]|] eqn:Hkey; [|done..].
  destruct (rd_Get t k) as [[b|]|] eqn:Hget; [|done..]. destruct (json_valid b) eqn:Hvalid; [|done].
  intros [= <-]. split; [done|].
  apply rd_get_law in Hget. symmetry in Hget. apply fmap_Some in Hget as (v & Hv & Hb).
  apply context_key_spec in Hkey as (q & Hq & ->).
  destruct (Hsteps _ v ltac:(by repeat eexists) Hv) as (e & He & Hek & Her). exists e. split_and!; [done|congruence|].
  unfold entry_key in Hek. apply fmap_Some in Hek as (q' & Hq' & Heq).
  apply response_key_inj in Heq as (Henv & Ht & Hm & Hr & Hqq).
  assert (∀ x y i, key_texts tenantID model (routeVersionFromContext ctx (ca_routeVersion cache)) request !! i = Some x →
    entry_texts e !! i = Some y → Sum256 x = Sum256 y → x = y) as Hsame.
  { intros x y i Hx Hy. apply Hdistinct; apply elem_of_app; [left; by eapply list_elem_of_lookup_2|right].
    apply list_elem_of_bind. exists e. split; [by eapply list_elem_of_lookup_2|done]. }
  unfold entry_texts, key_texts in Hsame. rewrite Hq, Hq' in Hsame. cbn [default from_option id] in Hsame.
  split_and!; [done|symmetry; by apply (Hsame _ _ 0%nat)|symmetry; by apply (Hsame _ _ 1%nat)
    |symmetry; by apply (Hsame _ _ 2%nat)|].
  apply (canonicalize_equiv _ _ q' q); [done..|]. symmetry. by apply (Hsame _ _ 3%nat).
Qed.

Example demo_cache : Cache := {| ca_environment := "test"; ca_routeVersion := "7"; ca_ttl := 60 |}.
Example demo_ctx : Context := {| cx_done := false; cx_routeVersion := None |}.
Example demo_server : RedisData := {| rd_strings := ∅; rd_sets := ∅; rd_clock := 0 |}.
Example demo_answer : string := text "{'id':'1'}".

Lemma hit_is_stored_witness :
  let t := (Store demo_cache demo_ctx "acme" "m" request_a demo_answer demo_server).2 in
  Lookup demo_cache demo_ctx " acme" "m" request_b t = Ok {| rs_Status := StatusHit; rs_Body := demo_answer |} ∧
  json_valid demo_answer = true ∧
  ∃ e, e ∈ [store_entry demo_cache demo_ctx "acme" "m" request_a demo_answer] ∧ en_response e = demo_answer ∧
    answers demo_cache demo_ctx " acme" "m" request_b e.
Proof.
  set (t := (Store demo_cache demo_ctx "acme" "m" request_a demo_answer demo_server).2).
  assert (Lookup demo_cache demo_ctx " acme" "m" request_b t = Ok {| rs_Status := StatusHit; rs_Body := demo_answer |})
    as Hhit by (vm_compute; reflexivity).
  split; [done|]. refine (hit_is_stored demo_server t _ _ _ _ _ _ _ _ _ _ Hhit).
  - intros k _. apply lookup_empty.
  - apply rtc_once, step_store.
  - intros a b Ha Hb. revert a Ha b Hb.
    assert (forallb (λ a, forallb (λ b, implb (Sum256 a =? Sum256 b)%string (a =? b)%string)
      (key_texts " acme" "m" (routeVersionFromContext demo_ctx (ca_routeVersion demo_cache)) request_b ++
       ([store_entry demo_cache demo_ctx "acme" "m" request_a demo_answer] ≫= entry_texts)))
      (key_texts " acme" "m" (routeVersionFromContext demo_ctx (ca_routeVersion demo_cache)) request_b ++
       ([store_entry demo_cache demo_ctx "acme" "m" request_a demo_answer] ≫= entry_texts)) = true) as Hall
      by (vm_compute; reflexivity).
    intros a Ha b Hb Hab. rewrite forallb_forall in Hall. apply list_elem_of_In in Ha, Hb. specialize (Hall a Ha).
    cbn beta in Hall. rewrite forallb_forall in Hall. specialize (Hall b Hb). rewrite Hab, String.eqb_refl in Hall.
    by apply String.eqb_eq.
Defined.

(** What was stored is found: after [Store] has succeeded with caching switched
    on, a valid answer and a request that is JSON, [Lookup] answers it for the same
    tenant and model and for every text of the same JSON request; only a failing read of
    Redis prevents it. *)
Theorem store_then_lookup {T} `{RedisServerLaws T} (t t' : T) cache ctx tenantID model request response request' :
  ca_ttl cache ≠ 0 → json_valid response = true → same_json request request' →
  Store cache ctx tenantID model request response t = (Ok (), t') →
  Lookup cache ctx tenantID model request' t' = Ok {| rs_Status := StatusHit; rs_Body := response |} ∨
  Lookup cache ctx tenantID model request' t' = Err CacheReadFailed.
Proof.
  intros Httl Hvalid Hsame. unfold Store, Lookup. destruct (cx_done ctx); [done|].
  destruct (Z.eqb_spec (ca_ttl cache) 0); [done|]. rewrite Hvalid. cbn [negb orb].
  assert (context_key cache ctx tenantID model request' = context_key cache ctx tenantID model request) as ->.
  { pose proof Hsame as (u & v & Hu & Hv & _). unfold context_key, keyForRouteVersion. destruct (_ || _); [done|].
    do 2 f_equal. assert (canonicalizeJSON request = Some (encode_tree u)) as Hx by (unfold canonicalizeJSON; by rewrite Hu).
    assert (canonicalizeJSON request' = Some (encode_tree v)) as Hy by (unfold canonicalizeJSON; by rewrite Hv).
    rewrite Hx, Hy. f_equal. symmetry. by apply (canonicalize_equiv request request'). }
  destruct (context_key _ _ _ _ _) as [[k|]|e] eqn:Hkey; [| |done].
  - pose proof (rd_exec_law [RSet k response (ca_ttl cache)] t) as Hx. destruct (rd_Exec _ t) as [ok t1].
    cbn [fst snd] in Hx. intros [= Hok <-]. destruct ok; [|done]. destruct Hx as [Hx|[Hf _]]; [|done].
    destruct (rd_Get t1 k) as [o|] eqn:Hget; [left|by right].
    apply rd_get_law in Hget. rewrite Hx in Hget. cbn in Hget. rewrite lookup_insert_eq in Hget. cbn in Hget.
    subst o. by rewrite Hvalid.
  - exfalso. destruct Hsame as (u & v & Hu & _). unfold context_key, keyForRouteVersion in Hkey.
    destruct (_ || _); [done|]. injection Hkey as Hkey. unfold canonicalizeJSON in Hkey. by rewrite Hu in Hkey.
Qed.

Lemma store_then_lookup_witness :
  let t := (Store demo_cache demo_ctx "acme" "m" request_a demo_answer demo_server).2 in
  Lookup demo_cache demo_ctx "acme" "m" request_b t = Ok {| rs_Status := StatusHit; rs_Body := demo_answer |} ∨
  Lookup demo_cache demo_ctx "acme" "m" request_b t = Err CacheReadFailed.
Proof.
  intros t. apply (store_then_lookup demo_server t demo_cache demo_ctx "acme" "m" request_a demo_answer request_b).
  - done.
  - vm_compute; reflexivity.
  - destruct (canonicalizeJSON request_a) as [x|] eqn:Ha; [|vm_compute in Ha; discriminate Ha].
    destruct (canonicalizeJSON request_b) as [y|] eqn:Hb; [|vm_compute in Hb; discriminate Hb].
    apply (canonicalize_equiv _ _ x y Ha Hb). vm_compute in Ha, Hb. congruence.
  - rewrite (surjective_pairing (Store _ _ _ _ _ _ _)). apply (f_equal2 pair); [vm_compute; reflexivity | reflexivity].
Defined.

(** Another request, another route version and a text that is not JSON. *)
Example cache_misses :
  let t := (Store demo_cache demo_ctx "acme" "m" request_a demo_answer demo_server).2 in
  (Lookup demo_cache demo_ctx "acme" "m" request_c t,
   Lookup demo_cache (WithRouteVersion demo_ctx " 8 ") "acme" "m" request_a t,
   Lookup demo_cache demo_ctx "acme" "m" "{" t, Lookup demo_cache demo_ctx "acme" " " request_a t) =
  (Ok {| rs_Status := StatusMiss; rs_Body := "" |}, Ok {| rs_Status := StatusMiss; rs_Body := "" |},
   Ok {| rs_Status := StatusBypass; rs_Body := "" |}, Err CacheKeyParts).
Proof. vm_compute. reflexivity. Qed.
