(* ===== verification/ApiKeys.v ===== *)
(** * Authentication and model authorization

    Models [Authenticate], [AuthorizeModel] and [AuthorizedModels] of
    [src/internal/apikey/manager.go] over the credential store, and proves that
    the decision is the one the database would take. *)

From S2P Require Import Prelude Encoding Token AuthSnapshot AuthL1 AuthCache RedisAuth AuthCoherence.

(** ** Authentication *)

Inductive AuthError :=
| ErrInvalidCredential | ErrKeyInactive | ErrKeyRevoked | ErrKeyExpired | ErrTenantInactive
| ErrModelNotAllowed | AuthCtx (e : CtxErr) | AuthFailed (message : string).

Definition expirationReached (expiresAt : option Time) (now : Time) : bool :=
  match expiresAt with Some t => negb (time_after t now) | None => false end.

(** The update of [last_used_at]; the number of queries it took. *)
Class KeyTouch (DB : Type) := source_Touch : string → Time → DB → Z * DB.

Section manager.
Context {DB : Type} `{AuthRows DB, KeyTouch DB} {R : Type} `{sharedAuthCache R} `{SnapshotCodec} (pepper : string).

(** Only a load from the database touches, once. *)
Definition Touch (db : DB) (load : cacheLoad) (now : Time) : Z * cacheLoad * DB :=
  match cl_result load with
  | Ok snapshot =>
      if negb (bool_decide (cl_source load = FromPostgres)) || (as_APIKeyID snapshot =? "")%string || cl_touched load
      then (0, load, db)
      else
        let '(queries, db) := source_Touch (as_APIKeyID snapshot) now db in
        (queries,
         {| cl_result := cl_result load; cl_source := cl_source load; cl_queries := cl_queries load;
            cl_generation := cl_generation load; cl_promoted := cl_promoted load; cl_touched := true |}, db)
  | Err _ => (0, load, db)
  end.

(** What a verified snapshot allows at an instant. *)
Definition snapshot_admits (s : authSnapshot) (now : Time) : option AuthError :=
  if (as_KeyStatus s =? APIKeyRevoked)%string then Some ErrKeyRevoked
  else if negb (as_KeyStatus s =? APIKeyActive)%string then Some ErrKeyInactive
  else if negb (as_TenantStatus s =? TenantActive)%string then Some ErrTenantInactive
  else if expirationReached (as_KeyExpiresAt s) now then Some ErrKeyExpired
  else None.

Definition touch_due (s : authSnapshot) (now : Time) : bool :=
  match as_LastUsedAt s with
  | None => true
  | Some t => 5 * minute <=? time_sub now t
  end.

(** [lookup_at], [promote_at] and [now] are the readings of the clock;
    [interrupted] is the context's error after the lookup. *)
Definition Authenticate (store : credentialStore) (r : R) (db : DB) (plaintext : string) (flight : Flight)
    (interrupted : option CtxErr) (lookup_at promote_at now : Time) :
    result AuthError Identity * credentialStore * R * DB :=
  match parseToken plaintext with
  | Err _ => (Err ErrInvalidCredential, store, r, db)
  | Ok token =>
      let lookupDigest := digestPrefix (pt_prefix token) in
      let '(load, leader, store, r) := Lookup store r db lookupDigest flight lookup_at in
      match cl_result load with
      | Err (LookupFailed errSnapshotNotFound) => (Err ErrInvalidCredential, store, r, db)
      | Err _ =>
          match interrupted with
          | Some e => (Err (AuthCtx e), store, r, db)
          | None => (Err (AuthFailed "read API key"), store, r, db)
          end
      | Ok snapshot =>
          if negb (verifyToken token (as_KeyHash snapshot) (as_HashVersion snapshot) pepper) ||
             negb (as_KeyPrefix snapshot =? pt_prefix token)%string
          then (Err ErrInvalidCredential, store, r, db)
          else
            let '(load, store, r) := Promote store r (store_cacheKey (cs_settings store) lookupDigest) load promote_at in
            match snapshot_admits snapshot now with
            | Some e => (Err e, store, r, db)
            | None =>
                let db := if touch_due snapshot now then (Touch db load now).2 else db in
                (Ok (identity snapshot), store, r, db)
            end
      end
  end.
End manager.

(** ** Authorization *)

Definition AuthorizeModel (ctx_now : option CtxErr) (who : Identity) (model : string) : option AuthError :=
  let tenantID := TrimSpace (id_TenantID who) in
  let model := TrimSpace model in
  if (tenantID =? "")%string || (model =? "")%string then Some ErrModelNotAllowed
  else
    match ctx_now with
    | Some e => Some (AuthCtx e)
    | None =>
        match id_authorization who with
        | None => Some ErrModelNotAllowed
        | Some models =>
            if existsb (λ allowed, (allowed =? "*")%string || (allowed =? model)%string) models then None
            else Some ErrModelNotAllowed
        end
    end.

Definition AuthorizedModels (ctx_now : option CtxErr) (who : Identity) : result AuthError (list string) :=
  if (TrimSpace (id_TenantID who) =? "")%string then Err ErrModelNotAllowed
  else
    match ctx_now with
    | Some e => Err (AuthCtx e)
    | None => Ok (default [] (id_authorization who))
    end.

(** ** The decision is the database's *)

(** What the row and the grants say about a token at an instant. *)
Definition row_decides (row : AuthRow) (models : list string) (token : parsedToken) (pepper : string) (now : Time) :
    result AuthError Identity :=
  if negb (ar_KeyHash row =? hashSecret (pt_secret token) pepper)%string || negb (ar_KeyPrefix row =? pt_prefix token)%string
  then Err ErrInvalidCredential
  else if (ar_KeyStatus row =? APIKeyRevoked)%string then Err ErrKeyRevoked
  else if negb (ar_KeyStatus row =? APIKeyActive)%string then Err ErrKeyInactive
  else if negb (ar_TenantStatus row =? TenantActive)%string then Err ErrTenantInactive
  else if expirationReached (ar_KeyExpiresAt row) now then Err ErrKeyExpired
  else Ok {| id_TenantID := ar_TenantID row; id_APIKeyID := ar_APIKeyID row; id_KeyPrefix := ar_KeyPrefix row;
             id_authorization := Some models |}.

Lemma verify_spec token s pepper :
  str_len (as_KeyHash s) = 32 ∧ as_HashVersion s = hashVersion →
  verifyToken token (as_KeyHash s) (as_HashVersion s) pepper =
  (as_KeyHash s =? hashSecret (pt_secret token) pepper)%string.
Proof.
  intros [Hl ->]. unfold verifyToken. rewrite Z.eqb_refl, Hl. cbn.
  destruct (String.eqb_spec (as_KeyHash s) (hashSecret (pt_secret token) pepper)) as [->|Hne];
    [by rewrite bool_decide_true | rewrite bool_decide_false; congruence].
Qed.

Section theorems.
Context {DB : Type} `{AuthRowsLaws DB, !KeyTouch DB} {R : Type} `{sharedAuthCache R} (home owner : string → string)
  (settings : AuthCacheSettings) `{!SharedAuthLaws R home owner (ac_L2TTL settings)} `{SnapshotCodecLaws}.
Hypotheses (Henabled : ac_Enabled settings = true) (Hentries : 0 < ac_L1MaxEntries settings)
  (Hname : ∀ digest, sa_name (store_cacheKey settings digest)).

(** Authenticating with the snapshot that was looked up. *)
Lemma Authenticate_looked_up store r (db : DB) plaintext token flight interrupted t1 t2 now pepper load leader store' r' s :
  parseToken plaintext = Ok token →
  Lookup store r db (digestPrefix (pt_prefix token)) flight t1 = (load, leader, store', r') →
  cl_result load = Ok s → str_len (as_KeyHash s) = 32 ∧ as_HashVersion s = hashVersion →
  ∀ row grants, row_agrees row grants s →
  (Authenticate pepper store r db plaintext flight interrupted t1 t2 now).1.1.1 =
    row_decides row (as_AllowedModels s) token pepper now.
Proof.
  intros Hparse Hlook Hres Hhash row grants Ha. unfold Authenticate. rewrite Hparse, Hlook, Hres, verify_spec by done.
  destruct Ha. unfold row_decides. rewrite <-ra_hash, <-ra_prefix, <-ra_status, <-ra_tenant_status, <-ra_expires.
  destruct (_ || _); [done|]. destruct (Promote _ _ _ _ _) as [[load' store''] r'']. unfold snapshot_admits.
  repeat (destruct (_ =? _)%string; cbn [negb]; try done). destruct (expirationReached _ _); [done|].
  cbn. unfold identity. by rewrite ra_key, ra_tenant, ra_prefix.
Qed.

(** C26: Authentication takes the database's decision. In any reachable state of
    the caches, when no change of the key or its tenant waits for its
    invalidation, a lookup that is answered from memory, by a load of its own
    that runs at once, or by a load in flight that began after the last
    invalidation, leads to the decision that the row of the token's digest
    dictates: the hash and prefix must match, a revoked, inactive or expired key
    and an inactive tenant are refused with their own error, in this order, and
    otherwise the identity carries the row's tenant and the tenant's normalized
    grants. *)
Theorem authentication_agrees db r w plaintext token flight interrupted t1 t2 now pepper load leader store r' s :
  rows_stable home owner settings db → sa_ok r → (∀ k kid tid p, ¬ sa_holds r k kid tid p) →
  rtc (auth_step home owner settings) (initial_world settings db r) w → w_epoch w < two64 →
  parseToken plaintext = Ok token →
  flight_current w (digestPrefix (pt_prefix token)) flight →
  Lookup (w_store w) (w_shared w) (w_db w) (digestPrefix (pt_prefix token)) flight t1 = (load, leader, store, r') →
  cl_result load = Ok s →
  as_APIKeyID s ∉ w_dirty_keys w → as_TenantID s ∉ w_dirty_tenants w →
  ∃ row models, db_row (w_db w) (digestPrefix (pt_prefix token)) = Some row ∧
    normalizeModels (db_grants (w_db w) (ar_TenantID row)) = Ok models ∧
    (Authenticate pepper (w_store w) (w_shared w) (w_db w) plaintext flight interrupted t1 t2 now).1.1.1 =
      row_decides row models token pepper now.
Proof.
  intros Hrows Hok Hnone Hsteps Hb Hparse Hflight Hlook Hres Hk Ht.
  pose proof (auth_steps_ok home owner settings Henabled Hentries Hname _ _
    (initial_world_ok home owner settings Henabled Hentries _ _ Hrows Hok Hnone) Hsteps Hb) as Hw.
  destruct (Lookup_coherent home owner settings Hentries Hname _ _ _ _ _ _ _ _ _ Hw Hflight Hlook Hres) as [Hbel Hco].
  destruct Hbel as (Hd & _ & _ & Hhash). destruct Hco as [?|[?|(row & Hrow & Ha)]]; [done..|].
  rewrite Hd in Hrow. exists row, (as_AllowedModels s). split; [done|]. split; [apply Ha|].
  by eapply Authenticate_looked_up.
Qed.
End theorems.

(** ** Issuing keys *)

Record CreateKeyInput := { ck_TenantID : string; ck_Label : string; ck_ExpiresAt : option Time }.

Record APIKey := {
  ak_ID : string;
  ak_TenantID : string;
  ak_Label : string;
  ak_KeyPrefix : string;
  ak_LookupDigest : string;
  ak_KeyHash : string;
  ak_HashVersion : Z;
  ak_Status : string;
  ak_ExpiresAt : option Time;
  ak_LastUsedAt : option Time;
  ak_RevokedAt : option Time;
}.

Record IssuedKey := {
  ik_ID : string; ik_TenantID : string; ik_Prefix : string; ik_Plaintext : string; ik_ExpiresAt : option Time;
}.

Definition normalizeCreateKeyInput (input : CreateKeyInput) (now : Time) : result string CreateKeyInput :=
  let tenantID := TrimSpace (ck_TenantID input) in
  let label := TrimSpace (ck_Label input) in
  if (tenantID =? "")%string then Err "tenant ID is required"%string
  else if (label =? "")%string || (100 <? RuneCountInString label) then
    Err "key label must contain 1-100 characters"%string
  else if expirationReached (ck_ExpiresAt input) now then Err "expiration must be in the future"%string
  else Ok {| ck_TenantID := tenantID; ck_Label := label; ck_ExpiresAt := ck_ExpiresAt input |}.

(** The row that is stored and what the caller is told; the randomness is an
    argument, the insertion is the transaction's. *)
Definition createKey (pepper : string) (random1 random2 keyID : option string) (input : CreateKeyInput) :
    result string (APIKey * IssuedKey) :=
  match generateToken pepper random1 random2 with
  | Err (TokenFailed e) => Err e
  | Err ErrInvalidToken => Err "invalid Model-Velo API key"%string
  | Ok token =>
      match keyID with
      | None => Err "generate UUID"%string
      | Some keyID =>
          let record := {| ak_ID := keyID; ak_TenantID := ck_TenantID input; ak_Label := ck_Label input;
                           ak_KeyPrefix := gt_prefix token; ak_LookupDigest := gt_lookupDigest token;
                           ak_KeyHash := gt_keyHash token; ak_HashVersion := gt_hashVersion token;
                           ak_Status := APIKeyActive; ak_ExpiresAt := ck_ExpiresAt input;
                           ak_LastUsedAt := None; ak_RevokedAt := None |} in
          Ok (record, {| ik_ID := ak_ID record; ik_TenantID := ak_TenantID record; ik_Prefix := ak_KeyPrefix record;
                         ik_Plaintext := gt_plaintext token; ik_ExpiresAt := ak_ExpiresAt record |})
      end
  end.

(** The row the authentication query selects for a stored key and its tenant. *)
Definition joined_row (key : APIKey) (tenantStatus : string) (tenantVersion : Z) : AuthRow :=
  {| ar_APIKeyID := ak_ID key; ar_TenantID := ak_TenantID key; ar_KeyPrefix := ak_KeyPrefix key;
     ar_LookupDigest := ak_LookupDigest key; ar_KeyHash := ak_KeyHash key; ar_HashVersion := ak_HashVersion key;
     ar_KeyStatus := ak_Status key; ar_KeyExpiresAt := ak_ExpiresAt key; ar_LastUsedAt := ak_LastUsedAt key;
     ar_TenantStatus := tenantStatus; ar_TenantVersion := tenantVersion |}.

(** An issued key works. Issuing with sound randomness succeeds, what the
    caller is given parses, is filed under the digest of its prefix, and until
    the key expires it is accepted, with the tenant's grants, as long as the row
    is what was stored and the tenant is active. *)
Theorem issued_key_accepted pepper locator secret keyID input models version now :
  str_len locator = 12 → str_len secret = 32 → expirationReached (ck_ExpiresAt input) now = false →
  ∃ key issued token, createKey pepper (Some locator) (Some secret) (Some keyID) input = Ok (key, issued) ∧
    parseToken (ik_Plaintext issued) = Ok token ∧
    ak_LookupDigest key = digestPrefix (pt_prefix token) ∧
    row_decides (joined_row key TenantActive version) models token pepper now =
      Ok {| id_TenantID := ck_TenantID input; id_APIKeyID := keyID; id_KeyPrefix := ik_Prefix issued;
            id_authorization := Some models |}.
Proof.
  intros Hl Hs Hexp. destruct (token_parses pepper locator secret Hl Hs) as (g & t & Hg & Hp & Hpre & Hdig & Hhash).
  unfold createKey. rewrite Hg. eexists _, _, t. split; [reflexivity|]. split; [done|]. split; [done|].
  unfold row_decides, joined_row. cbn. rewrite Hhash, Hpre, !String.eqb_refl. cbn. by rewrite Hexp.
Qed.

(** Authorization is membership. With a live context a model is allowed
    exactly when the identity has a tenant, the model has a name, and the grants
    of the identity hold that name or the wildcard; every other identity and
    model is refused. *)
Theorem authorize_exact who model :
  AuthorizeModel None who model = None ↔
  TrimSpace (id_TenantID who) ≠ ""%string ∧ TrimSpace model ≠ ""%string ∧
  ∃ models, id_authorization who = Some models ∧ ("*"%string ∈ models ∨ TrimSpace model ∈ models).
Proof.
  unfold AuthorizeModel. destruct (String.eqb_spec (TrimSpace (id_TenantID who)) "") as [He|Hne]; cbn [orb]; [naive_solver|].
  destruct (String.eqb_spec (TrimSpace model) "") as [He|Hne']; [naive_solver|].
  destruct (id_authorization who) as [models|]; [|naive_solver].
  destruct (existsb _ models) eqn:Hex.
  - apply existsb_exists in Hex as (x & Hx%list_elem_of_In & Heq). apply orb_true_iff in Heq as [->%String.eqb_eq| ->%String.eqb_eq];
      naive_solver.
  - split; [done|]. intros (_ & _ & ? & [= <-] & Hin). exfalso.
    assert (existsb (λ allowed, (allowed =? "*")%string || (allowed =? TrimSpace model)%string) models = true); [|congruence].
    apply existsb_exists. destruct Hin as [Hin|Hin]; eexists; (split; [by apply list_elem_of_In|]);
      rewrite String.eqb_refl, ?orb_true_r; done.
Qed.

(** ** Concrete instances *)

#[export] Instance demo_touch : KeyTouch AuthTables := λ _ _ db, (1, db).

Definition demo_plaintext : string := "mvl_MDEyMzQ1Njc4OWFi_dGhlIHNlY3JldCBwYXJ0IG9mIGEgZGVtbyB0b2tlbiE".

Definition demo_token : parsedToken :=
  {| pt_prefix := demo_prefix; pt_secret := "dGhlIHNlY3JldCBwYXJ0IG9mIGEgZGVtbyB0b2tlbiE" |}.

Lemma demo_parse : parseToken demo_plaintext = Ok demo_token.
Proof. vm_compute. reflexivity. Qed.

Lemma authentication_agrees_witness :
  ∃ row models, db_row (w_db demo_invalidated) (digestPrefix (pt_prefix demo_token)) = Some row ∧
    normalizeModels (db_grants (w_db demo_invalidated) (ar_TenantID row)) = Ok models ∧
    (Authenticate demo_pepper (w_store demo_invalidated) (w_shared demo_invalidated) (w_db demo_invalidated)
       demo_plaintext Leads None 102 102 102).1.1.1 = row_decides row models demo_token demo_pepper 102.
Proof.
  exact (authentication_agrees demo_home demo_owner demo_settings eq_refl eq_refl demo_name
    (demo_db APIKeyActive) {| rd_strings := ∅; rd_sets := ∅; rd_clock := 100 |} demo_invalidated
    demo_plaintext demo_token Leads None 102 102 102 demo_pepper
    demo_lookup.1.1.1 demo_lookup.1.1.2 demo_lookup.1.2 demo_lookup.2 demo_answer
    (demo_rows_stable APIKeyActive) (empty_data_ok "mv" demo_home demo_owner (30 * second) 100) demo_no_entries
    demo_run demo_epoch demo_parse I demo_lookup_eq (proj1 demo_lookup_result)
    (proj1 (proj2 (proj2 demo_lookup_result))) (proj2 (proj2 (proj2 demo_lookup_result)))).
Defined.

(** Before the revocation the key is accepted from memory, afterwards it is refused. *)
Example demo_authenticates :
  (Authenticate demo_pepper (w_store demo_promoted) (w_shared demo_promoted) (w_db demo_promoted)
     demo_plaintext Leads None 102 102 102).1.1.1 =
    Ok {| id_TenantID := "t"; id_APIKeyID := demo_digest; id_KeyPrefix := demo_prefix;
          id_authorization := Some ["fast"%string] |} ∧
  (Authenticate demo_pepper (w_store demo_invalidated) (w_shared demo_invalidated) (w_db demo_invalidated)
     demo_plaintext Leads None 102 102 102).1.1.1 = Err ErrKeyRevoked.
Proof. vm_compute. split; reflexivity. Qed.

Definition demo_create : CreateKeyInput := {| ck_TenantID := "t"; ck_Label := "ci"; ck_ExpiresAt := Some 500 |}.

Lemma issued_key_accepted_witness :
  ∃ key issued token, createKey demo_pepper (Some demo_locator) (Some demo_secret) (Some "k"%string) demo_create = Ok (key, issued) ∧
    parseToken (ik_Plaintext issued) = Ok token ∧
    ak_LookupDigest key = digestPrefix (pt_prefix token) ∧
    row_decides (joined_row key TenantActive 1) ["fast"%string] token demo_pepper 100 =
      Ok {| id_TenantID := "t"; id_APIKeyID := "k"; id_KeyPrefix := ik_Prefix issued;
            id_authorization := Some ["fast"%string] |}.
Proof.
  exact (issued_key_accepted demo_pepper demo_locator demo_secret "k" demo_create ["fast"%string] 1 100
    eq_refl eq_refl eq_refl).
Defined.

(** A lookup that joins a load begun before the revocation is still answered
    with the old snapshot, after the invalidation has been carried out. *)
Example joined_load_outlives_revocation :
  is_ok (Authenticate demo_pepper (w_store demo_invalidated) (w_shared demo_invalidated) (w_db demo_invalidated)
     demo_plaintext (Joins demo_load) None 102 102 102).1.1.1 = true ∧
  ar_KeyStatus <$> db_row (w_db demo_invalidated) demo_digest = Some APIKeyRevoked.
Proof. vm_compute. split; reflexivity. Qed.
