(* ===== verification/RateLimit.v ===== *)
(** * The rate limiter

    Models [src/internal/ratelimit/limiter.go]: the fixed-window script that
    Redis runs atomically on one counter, the reading of its reply, and [Allow]
    with its failure policies. The script works on whole milliseconds of the
    server's clock; a counter is gone after its deadline, and whether it still
    exists in the very millisecond of the deadline is a parameter. Lua's numbers
    are doubles, which are exact for the counts and instants below 2^53. *)

From S2P Require Import Prelude Encoding.

(** ** The script *)

(** A counter: its content ([None] when it is not a number) and its expiry in
    milliseconds, if it has one. *)
Record Counter := { ct_value : option Z; ct_deadline : option Z }.

Class RedisExpiry := lives_at_deadline : bool.

Inductive RedisValue := RInt (z : Z) | ROther.

Definition ceil_div (a b : Z) : Z := - (- a / b).

Section script.
Context `{RedisExpiry}.

Definition counter_lives (c : Counter) (now_ms : Z) : bool :=
  match ct_deadline c with
  | None => true
  | Some d => (now_ms <? d) || (lives_at_deadline && (now_ms =? d))
  end.

Definition redis_get (key : option Counter) (now_ms : Z) : option Counter :=
  c ← key; if counter_lives c now_ms then Some c else None.

(** The answer [None] is a script error. *)
Definition fixedWindowScript (limit window_ms now_us : Z) (key : option Counter) :
    option (list RedisValue) * option Counter :=
  let now_ms := now_us / 1000 in
  let current := redis_get key now_ms in
  let counted :=
    match current with
    | None => if window_ms <=? 0 then None
              else Some (1, 1, {| ct_value := Some 1; ct_deadline := Some (now_ms + window_ms) |})
    | Some c =>
        match ct_value c with
        | None => None
        | Some used =>
            if used <? limit
            then Some (used + 1, 1, {| ct_value := Some (used + 1); ct_deadline := ct_deadline c |})
            else Some (used, 0, c)
        end
    end in
  match counted with
  | None => (None, current)
  | Some (used, allowed, c) =>
      let ttl_ms := match ct_deadline c with None => -1 | Some d => Z.max 0 (d - now_ms) end in
      let '(ttl_ms, c) :=
        if ttl_ms <? 1 then (window_ms, {| ct_value := ct_value c; ct_deadline := Some (now_ms + window_ms) |})
        else (ttl_ms, c) in
      let remaining := Z.max 0 (limit - used) in
      let reset_at := ceil_div (now_ms + ttl_ms) 1000 in
      let retry_after := if allowed =? 0 then Z.max 1 (ceil_div ttl_ms 1000) else 0 in
      (Some [RInt allowed; RInt remaining; RInt reset_at; RInt retry_after], Some c)
  end.
End script.

(** ** The limiter *)

Record RateDecision := {
  rd_Allowed : bool;
  rd_Bypassed : bool;
  rd_Limit : Z;
  rd_Remaining : Z;
  rd_ResetAtUnix : Z;
  rd_RetryAfterSeconds : Z;
}.

Inductive RateLimitFailurePolicy := RateLimitFailOpen | RateLimitFailClosed.

Record RateLimitSettings := {
  rs_Environment : string;
  rs_MaxRequests : Z;
  rs_Window : Duration;
  rs_FailurePolicy : option RateLimitFailurePolicy;   (* [None]: some other text *)
}.

Record Limiter := {
  lm_environment : string;
  lm_maxRequests : Z;
  lm_window : Duration;
  lm_failurePolicy : RateLimitFailurePolicy;
}.

Inductive RateError := RateCtx (e : CtxErr) | RateUnavailable | RateInvalid (message : string).

Definition NewLimiter (settings : RateLimitSettings) : result RateError Limiter :=
  if (TrimSpace (rs_Environment settings) =? "")%string || (rs_MaxRequests settings <=? 0) || (rs_Window settings <=? 0)
  then Err (RateInvalid "rate limiter settings are invalid")
  else
    match rs_FailurePolicy settings with
    | None => Err (RateInvalid "rate limiter failure policy is invalid")
    | Some policy =>
        Ok {| lm_environment := rs_Environment settings; lm_maxRequests := rs_MaxRequests settings;
              lm_window := rs_Window settings; lm_failurePolicy := policy |}
    end.

Definition limiter_key (l : Limiter) (tenantID model : string) : result RateError string :=
  let tenantID := TrimSpace tenantID in
  let model := TrimSpace model in
  if (tenantID =? "")%string || (model =? "")%string then Err (RateInvalid "rate limit tenant and model are required")
  else Ok ("model-velo:rate-limit:v1:" ++ lm_environment l ++ ":tenant:" ++ hex_encode (Sum256 tenantID) ++
           ":model:" ++ hex_encode (Sum256 model))%string.

Definition rv_int (v : RedisValue) : option Z := match v with RInt z => Some z | ROther => None end.

(** [None] is any of the errors: too many values, or one of the wrong type or
    out of its range. *)
Definition parseDecision (values : list RedisValue) (limit : Z) : option RateDecision :=
  match values with
  | [v1; v2; v3; v4] =>
      allowed ← rv_int v1;
      if negb (allowed =? 0) && negb (allowed =? 1) then None
      else
        remaining ← rv_int v2;
        if (remaining <? 0) || (limit <? remaining) then None
        else
          resetAt ← rv_int v3;
          if resetAt <=? 0 then None
          else
            retryAfter ← rv_int v4;
            if retryAfter <? 0 then None
            else if (allowed =? 0) && (retryAfter =? 0) then None
            else Some {| rd_Allowed := allowed =? 1; rd_Bypassed := false; rd_Limit := limit;
                         rd_Remaining := remaining; rd_ResetAtUnix := resetAt;
                         rd_RetryAfterSeconds := retryAfter |}
  | _ => None
  end.

Definition bypass : RateDecision :=
  {| rd_Allowed := true; rd_Bypassed := true; rd_Limit := 0; rd_Remaining := 0; rd_ResetAtUnix := 0;
     rd_RetryAfterSeconds := 0 |}.

(** [reply] is what the client library answers for the script's run on this key,
    [None] an error; [before] and [after] are the context's error at the two
    instants it is asked. *)
Definition Allow (l : Limiter) (before : option CtxErr) (tenantID model : string)
    (reply : string → option (list RedisValue)) (after : option CtxErr) : result RateError RateDecision :=
  match before with
  | Some e => Err (RateCtx e)
  | None =>
      match limiter_key l tenantID model with
      | Err e => Err e
      | Ok key =>
          match reply key with
          | None =>
              match after with
              | Some e => Err (RateCtx e)
              | None =>
                  match lm_failurePolicy l with
                  | RateLimitFailOpen => Ok bypass
                  | RateLimitFailClosed => Err RateUnavailable
                  end
              end
          | Some values =>
              match parseDecision values (lm_maxRequests l) with
              | Some decision => Ok decision
              | None =>
                  match lm_failurePolicy l with
                  | RateLimitFailOpen => Ok bypass
                  | RateLimitFailClosed => Err RateUnavailable
                  end
              end
          end
      end
  end.

(** ** A run of calls on one key *)

Section runs.
Context `{RedisExpiry} (limit window_ms : Z).

(** The call at [now_us], whether it was allowed, and the counter it leaves. *)
Definition call_allowed (values : option (list RedisValue)) : bool :=
  match values with Some (RInt allowed :: _) => allowed =? 1 | _ => false end.

Fixpoint calls (key : option Counter) (times : list Z) : list (Z * bool) :=
  match times with
  | [] => []
  | now_us :: times =>
      let r := fixedWindowScript limit window_ms now_us key in
      (now_us / 1000, call_allowed r.1) :: calls r.2 times
  end.

(** The allowed calls in the milliseconds from [a] on, before [b]. *)
Definition allowed_between (a b : Z) (l : list (Z * bool)) : Z :=
  Z.of_nat (length (List.filter (λ c, c.2 && (a <=? c.1) && (c.1 <? b)) l)).
End runs.

Lemma allowed_between_cons a b m (al : bool) l :
  allowed_between a b ((m, al) :: l) =
    (if al && (a <=? m) && (m <? b) then 1 else 0) + allowed_between a b l.
Proof. unfold allowed_between. cbn. destruct (al && _ && _); cbn; lia. Qed.

Lemma allowed_between_nonneg a b l : 0 ≤ allowed_between a b l.
Proof. unfold allowed_between. lia. Qed.

Section bounds.
Context `{RedisExpiry} (limit window_ms : Z) (Hlimit : 0 < limit) (Hwindow : 0 < window_ms).

Definition key_ok (key : option Counter) : Prop :=
  ∀ c, key = Some c → ∃ v, ct_value c = Some v ∧ 0 ≤ v ≤ limit.

(** The deadline a call leaves: a new one, or the old one when it is ahead. *)
Definition deadline_after (now : Z) (c c' : Counter) : Prop :=
  ct_deadline c' = Some (now + window_ms) ∨
  (ct_deadline c' = ct_deadline c ∧ ∃ d, ct_deadline c' = Some d ∧ now < d).

(** What one call does to a sound counter. *)
Inductive call_outcome (now : Z) (key : option Counter) : bool → Counter → Prop :=
| call_starts c' :
    redis_get key now = None → ct_value c' = Some 1 → ct_deadline c' = Some (now + window_ms) →
    call_outcome now key true c'
| call_counts c v c' :
    redis_get key now = Some c → key = Some c → ct_value c = Some v → v < limit → ct_value c' = Some (v + 1) → deadline_after now c c' →
    call_outcome now key true c'
| call_refused c v c' :
    redis_get key now = Some c → key = Some c → ct_value c = Some v → limit ≤ v → ct_value c' = Some v → deadline_after now c c' →
    call_outcome now key false c'.

Lemma rearm_cases now c ttl c' :
  (let ttl_ms := match ct_deadline c with None => -1 | Some d => Z.max 0 (d - now) end in
   if ttl_ms <? 1 then (window_ms, {| ct_value := ct_value c; ct_deadline := Some (now + window_ms) |})
   else (ttl_ms, c)) = (ttl, c') →
  ct_value c' = ct_value c ∧ deadline_after now c c'.
Proof.
  unfold deadline_after. cbn zeta. destruct (Z.ltb_spec (match ct_deadline c with None => -1 | Some d => Z.max 0 (d - now) end) 1) as [Hs|Hs];
    intros [= <- <-]; cbn; [by split; [|left]|].
  split; [done|]. right. split; [done|]. destruct (ct_deadline c) as [d|]; [|lia]. exists d. split; [done | lia].
Qed.

Lemma redis_get_Some key now c : redis_get key now = Some c → key = Some c ∧ counter_lives c now = true.
Proof.
  unfold redis_get. destruct key as [c'|]; [|done]. cbn. destruct (counter_lives c' now) eqn:?; [|done].
  by intros [= ->].
Qed.

Lemma script_outcome key now_us :
  key_ok key →
  ∃ c, (fixedWindowScript limit window_ms now_us key).2 = Some c ∧
    call_outcome (now_us / 1000) key (call_allowed (fixedWindowScript limit window_ms now_us key).1) c.
Proof.
  intros Hok. unfold fixedWindowScript. set (now := now_us / 1000).
  destruct (redis_get key now) as [c|] eqn:Hget.
  - destruct (redis_get_Some _ _ _ Hget) as [-> _]. destruct (Hok c eq_refl) as (v & Hv & Hr). rewrite Hv.
    destruct (Z.ltb_spec v limit) as [Hlt|Hge].
    + destruct (let ttl_ms := _ in if ttl_ms <? 1 then _ else _) as [ttl c'] eqn:Hre.
      apply (rearm_cases now {| ct_value := Some (v + 1); ct_deadline := ct_deadline c |}) in Hre as [Hv' Hd].
      exists c'. split; [done|]. by eapply call_counts.
    + destruct (let ttl_ms := _ in if ttl_ms <? 1 then _ else _) as [ttl c'] eqn:Hre.
      apply rearm_cases in Hre as [Hv' Hd].
      exists c'. split; [done|]. eapply call_refused; eauto. by rewrite Hv'.
  - destruct (Z.leb_spec window_ms 0) as [|_]; [lia|].
    destruct (let ttl_ms := _ in if ttl_ms <? 1 then _ else _) as [ttl c'] eqn:Hre.
    apply (rearm_cases now {| ct_value := Some 1; ct_deadline := Some (now + window_ms) |}) in Hre as [Hv' Hd].
    exists c'. split; [done|]. apply call_starts; [done..|]. by destruct Hd as [?|[-> _]].
Qed.

Lemma outcome_ok now key al c : key_ok key → call_outcome now key al c → key_ok (Some c).
Proof.
  intros Hok Hout c' [= <-]. destruct Hout as [c' _ Hv|c v c' _ Hk Hv Hlt Hv'|c v c' _ Hk Hv Hge Hv'].
  - exists 1. split; [done | lia].
  - destruct (Hok c Hk) as (v' & ? & ?). simplify_eq. exists (v + 1). split; [done | lia].
  - destruct (Hok c Hk) as (v' & ? & ?). simplify_eq. by exists v.
Qed.

Definition sorted_from (t : Z) (times : list Z) : Prop := Sorted Z.le (t :: times).

Lemma sorted_from_tail t u times : sorted_from t (u :: times) → t ≤ u ∧ sorted_from u times.
Proof. intros Hs. apply Sorted_inv in Hs as [Hs Hhd]. apply HdRel_inv in Hhd. done. Qed.

Lemma ms_mono t u : t ≤ u → t / 1000 ≤ u / 1000.
Proof. intros. by apply Z.div_le_mono. Qed.

(** Calls from [b] on do not count. *)
Lemma count_late a b key t times :
  sorted_from t times → b ≤ t / 1000 → allowed_between a b (calls limit window_ms key times) = 0.
Proof.
  revert key t. induction times as [|u times IH]; intros key t Hs Hb; [done|].
  apply sorted_from_tail in Hs as [Htu Hs]. cbn [calls]. rewrite allowed_between_cons.
  apply ms_mono in Htu. rewrite (proj2 (Z.ltb_ge (u / 1000) b)), andb_false_r by lia.
  rewrite (IH _ u Hs); lia.
Qed.

(** As long as the counter lives beyond [b], what is left of the limit bounds the
    calls before [b]. *)
Lemma count_within a b c v d t times :
  sorted_from t times → ct_value c = Some v → 0 ≤ v ≤ limit → ct_deadline c = Some d → b ≤ d →
  b ≤ t / 1000 + window_ms →
  allowed_between a b (calls limit window_ms (Some c) times) ≤ limit - v.
Proof.
  revert c v d t. induction times as [|u times IH]; intros c v d t Hs Hv Hr Hd Hb Hw.
  { unfold allowed_between. cbn. lia. }
  apply sorted_from_tail in Hs as [Htu Hs]. apply ms_mono in Htu. cbn [calls].
  destruct (Z.le_gt_cases b (u / 1000)) as [Hlate|Hearly].
  { rewrite allowed_between_cons, (proj2 (Z.ltb_ge (u / 1000) b)), andb_false_r by lia.
    rewrite (count_late _ _ _ u) by done. lia. }
  destruct (script_outcome (Some c) u) as (c' & -> & Hout).
  { intros c' [= <-]. by exists v. }
  rewrite allowed_between_cons.
  assert (∀ v', ct_value c' = Some v' → 0 ≤ v' ≤ limit → deadline_after (u / 1000) c c' →
    allowed_between a b (calls limit window_ms (Some c') times) ≤ limit - v') as Hrest.
  { intros v' Hv' Hr' Hda. assert (∃ d', ct_deadline c' = Some d' ∧ b ≤ d') as (d' & Hd' & Hb').
    { destruct Hda as [->|[-> _]]; eexists; (split; [done | lia]). }
    apply (IH c' v' d' u); done || lia. }
  destruct Hout as [c' Hget|c1 v1 c' _ [= <-] Hv1 Hlt Hv' Hda|c1 v1 c' _ [= <-] Hv1 Hge Hv' Hda].
  - exfalso. unfold redis_get, counter_lives in Hget. cbn in Hget. rewrite Hd in Hget.
    destruct (Z.ltb_spec (u / 1000) d); [done | lia].
  - simplify_eq. specialize (Hrest _ Hv' ltac:(lia) Hda). destruct (_ && _); lia.
  - simplify_eq. specialize (Hrest _ Hv' ltac:(lia) Hda). cbn. lia.
Qed.

(** From [a] on, with [n] already allowed on the counter. *)
Lemma count_after a key n t times :
  sorted_from t times → a ≤ t / 1000 → key_ok key → 0 ≤ n ≤ limit →
  (∀ c v, key = Some c → ct_value c = Some v → n ≤ v) →
  n + allowed_between a (a + window_ms) (calls limit window_ms key times) ≤ 2 * limit.
Proof.
  revert key n t. induction times as [|u times IH]; intros key n t Hs Ha Hok Hn Hinv.
  { unfold allowed_between. cbn. lia. }
  apply sorted_from_tail in Hs as [Htu Hs]. apply ms_mono in Htu. cbn [calls].
  destruct (Z.le_gt_cases (a + window_ms) (u / 1000)) as [Hlate|Hearly].
  { rewrite allowed_between_cons, (proj2 (Z.ltb_ge (u / 1000) (a + window_ms))), andb_false_r by lia.
    rewrite (count_late _ _ _ u) by done. lia. }
  destruct (script_outcome key u Hok) as (c' & -> & Hout). pose proof (outcome_ok _ _ _ _ Hok Hout) as Hok'.
  rewrite allowed_between_cons.
  assert (∀ v', ct_value c' = Some v' → 0 ≤ v' ≤ limit → ct_deadline c' = Some (u / 1000 + window_ms) →
    allowed_between a (a + window_ms) (calls limit window_ms (Some c') times) ≤ limit - v') as Hfresh.
  { intros v' Hv' Hr' Hd'. apply (count_within _ _ c' v' (u / 1000 + window_ms) u); done || lia. }
  assert (∀ n' v', n' ≤ v' → 0 ≤ n' ≤ limit → ct_value c' = Some v' →
    n' + allowed_between a (a + window_ms) (calls limit window_ms (Some c') times) ≤ 2 * limit) as Hsame.
  { intros n' v' Hnv Hr' Hv'. apply (IH _ n' u Hs); [lia | done..|]. intros c v [= <-] ?. simplify_eq. lia. }
  destruct (Z.leb_spec a (u / 1000)); [|lia]. destruct (Z.ltb_spec (u / 1000) (a + window_ms)); [|lia].
  destruct Hout as [c' Hget Hv' Hd'|c1 v1 c' _ Hk Hv1 Hlt Hv' Hda|c1 v1 c' _ Hk Hv1 Hge Hv' Hda]; cbn [andb].
  - specialize (Hfresh _ Hv' ltac:(lia) Hd'). lia.
  - pose proof (Hinv _ _ Hk Hv1). destruct (Hok _ Hk) as (v & Hv & ?). simplify_eq.
    specialize (Hsame (n + 1) (v1 + 1) ltac:(lia) ltac:(lia) Hv'). lia.
  - pose proof (Hinv _ _ Hk Hv1). specialize (Hsame n v1 ltac:(lia) ltac:(lia) Hv'). lia.
Qed.

Lemma count_any a key t times :
  sorted_from t times → key_ok key →
  allowed_between a (a + window_ms) (calls limit window_ms key times) ≤ 2 * limit.
Proof.
  revert key t. induction times as [|u times IH]; intros key t Hs Hok.
  { unfold allowed_between. cbn. lia. }
  destruct (Z.le_gt_cases a (u / 1000)) as [Hge|Hlt].
  - apply sorted_from_tail in Hs as [_ Hs].
    pose proof (count_after a key 0 u (u :: times)) as Hc.
    assert (sorted_from u (u :: times)) as Hs' by (constructor; [done | by constructor]).
    specialize (Hc Hs' Hge Hok ltac:(lia)). rewrite Z.add_0_l in Hc. apply Hc. intros c v Hk Hv.
    destruct (Hok _ Hk) as (v' & ? & ?). simplify_eq. lia.
  - apply sorted_from_tail in Hs as [_ Hs]. cbn [calls]. rewrite allowed_between_cons.
    destruct (Z.leb_spec a (u / 1000)); [lia|]. rewrite andb_false_r. cbn [andb].
    destruct (script_outcome key u Hok) as (c & -> & Hout). rewrite Z.add_0_l. apply (IH _ u Hs). by eapply outcome_ok.
Qed.
End bounds.

Section theorems.
Context `{RedisExpiry} (limit window_ms : Z) (Hlimit : 0 < limit) (Hwindow : 0 < window_ms).

(** C28: The fixed window holds. Whatever the times of the calls on one key, a
    window that starts with a call allows at most the limit in its duration, and
    no interval as long as a window ever sees more than twice the limit. *)
Theorem rate_limit_holds key t times :
  sorted_from t times → key_ok limit key →
  (∀ a, allowed_between a (a + window_ms) (calls limit window_ms key times) ≤ 2 * limit) ∧
  ∀ u rest, times = u :: rest → redis_get key (u / 1000) = None →
    1 ≤ allowed_between (u / 1000) (u / 1000 + window_ms) (calls limit window_ms key times) ≤ limit.
Proof.
  intros Hs Hok. split; [intros a; by eapply count_any|].
  intros u rest -> Hget. apply sorted_from_tail in Hs as [_ Hs]. cbn [calls]. rewrite allowed_between_cons.
  destruct (script_outcome limit window_ms Hwindow key u Hok) as (c & -> & Hout).
  destruct Hout as [c' _ Hv Hd|c v c' Hl|c v c' Hl]; [|congruence..].
  rewrite Z.leb_refl, (proj2 (Z.ltb_lt _ _)) by lia. cbn [andb].
  pose proof (count_within limit window_ms Hwindow (u / 1000) (u / 1000 + window_ms) c' 1
    (u / 1000 + window_ms) u rest Hs Hv ltac:(lia) Hd ltac:(lia) ltac:(lia)).
  pose proof (allowed_between_nonneg (u / 1000) (u / 1000 + window_ms) (calls limit window_ms (Some c') rest)). lia.
Qed.

Lemma ceil_div_spec a b : 0 < b → a ≤ b * ceil_div a b < a + b.
Proof. intros. unfold ceil_div. pose proof (Z.div_mod (- a) b). pose proof (Z.mod_pos_bound (- a) b). nia. Qed.

(** The reply of the script on a sound counter. *)
Lemma script_reply key now_us :
  key_ok limit key → 0 ≤ now_us →
  ∃ allowed used ttl c, fixedWindowScript limit window_ms now_us key =
      (Some [RInt allowed; RInt (Z.max 0 (limit - used)); RInt (ceil_div (now_us / 1000 + ttl) 1000);
             RInt (if allowed =? 0 then Z.max 1 (ceil_div ttl 1000) else 0)], Some c) ∧
    (allowed = 0 ∨ allowed = 1) ∧ 0 ≤ used ≤ limit ∧ 1 ≤ ttl ∧
    ct_value c = Some used ∧ ct_deadline c = Some (now_us / 1000 + ttl) ∧ (allowed = 0 → used = limit).
Proof.
  intros Hok Hnow. unfold fixedWindowScript. set (now := now_us / 1000).
  assert (∀ c, ∃ ttl d, (let ttl_ms := match ct_deadline c with None => -1 | Some d => Z.max 0 (d - now) end in
     if ttl_ms <? 1 then (window_ms, {| ct_value := ct_value c; ct_deadline := Some (now + window_ms) |})
     else (ttl_ms, c)) = (ttl, {| ct_value := ct_value c; ct_deadline := Some d |}) ∧ 1 ≤ ttl ∧ d = now + ttl) as Hre.
  { intros c. cbn zeta. destruct (Z.ltb_spec (match ct_deadline c with None => -1 | Some d => Z.max 0 (d - now) end) 1).
    - eexists _, _. split; [reflexivity|]. split; lia.
    - destruct c as [v [d|]]; cbn in *; [|lia]. eexists _, _. split; [reflexivity|]. split; lia. }
  destruct (redis_get key now) as [c|] eqn:Hget.
  - destruct (redis_get_Some _ _ _ Hget) as [-> _]. destruct (Hok c eq_refl) as (v & Hv & Hr). rewrite Hv.
    destruct (Z.ltb_spec v limit).
    + destruct (Hre {| ct_value := Some (v + 1); ct_deadline := ct_deadline c |}) as (ttl & d & Heq & Ht & Hd).
      cbn [ct_deadline ct_value] in *. cbn zeta in *. rewrite Heq.
      eexists 1, (v + 1), ttl, _. split; [reflexivity|]. cbn. subst d. repeat split; lia || auto.
    + destruct (Hre c) as (ttl & d & Heq & Ht & Hd). cbn zeta in *. rewrite Heq, Hv.
      eexists 0, v, ttl, _. split; [reflexivity|]. cbn. subst d. repeat split; lia || auto.
  - destruct (Z.leb_spec window_ms 0) as [|_]; [lia|].
    destruct (Hre {| ct_value := Some 1; ct_deadline := Some (now + window_ms) |}) as (ttl & d & Heq & Ht & Hd).
    cbn [ct_deadline ct_value] in *. cbn zeta in *. rewrite Heq.
    eexists 1, 1, ttl, _. split; [reflexivity|]. cbn. subst d. repeat split; lia || auto.
Qed.

(** The limiter's answer is exact and its advice is good. On a sound counter
    the script's reply always parses, so the failure policy is not consulted: the
    call is allowed or refused as the script decided, what remains is the limit
    less the calls counted, and after a refusal a call more than [Retry-After]
    seconds later, with none in between, is allowed. *)
Theorem allow_exact l tenantID model name key now_us after :
  limiter_key l tenantID model = Ok name → lm_maxRequests l = limit → key_ok limit key → 0 ≤ now_us →
  let r := fixedWindowScript limit window_ms now_us key in
  ∃ d, Allow l None tenantID model (λ _, r.1) after = Ok d ∧ rd_Bypassed d = false ∧
    rd_Allowed d = call_allowed r.1 ∧
    (∃ c used, r.2 = Some c ∧ ct_value c = Some used ∧ rd_Remaining d = limit - used) ∧
    (rd_Allowed d = false →
       ∀ later_us, now_us / 1000 + 1000 * rd_RetryAfterSeconds d < later_us / 1000 →
         call_allowed (fixedWindowScript limit window_ms later_us r.2).1 = true).
Proof.
  intros Hname Hmax Hok Hnow. cbn zeta.
  destruct (script_reply key now_us Hok Hnow) as (allowed & used & ttl & c & -> & Hal & Hu & Ht & Hv & Hd & Hfull).
  unfold Allow. rewrite Hname. cbn [fst snd]. rewrite Hmax. unfold parseDecision, rv_int. cbn [mbind option_bind].
  pose proof (ceil_div_spec ttl 1000 ltac:(lia)) as Hc1.
  pose proof (ceil_div_spec (now_us / 1000 + ttl) 1000 ltac:(lia)) as Hc2.
  assert (0 ≤ now_us / 1000) by (apply Z.div_pos; lia).
  destruct (Z.ltb_spec (Z.max 0 (limit - used)) 0) as [|_]; [lia|].
  destruct (Z.ltb_spec limit (Z.max 0 (limit - used))) as [|_]; [lia|].
  destruct (Z.leb_spec (ceil_div (now_us / 1000 + ttl) 1000) 0) as [|_]; [lia|]. cbn [orb].
  destruct Hal as [->| ->]; cbn [negb andb Z.eqb Pos.eqb].
  - destruct (Z.ltb_spec (Z.max 1 (ceil_div ttl 1000)) 0) as [|_]; [lia|].
    destruct (Z.eqb_spec (Z.max 1 (ceil_div ttl 1000)) 0) as [|_]; [lia|].
    eexists. split; [reflexivity|]. cbn. split; [done|]. split; [done|]. split; [exists c, used; repeat split; [done | lia]|].
    intros _ later Hlater.
    assert (key_ok limit (Some c)) as Hok' by (intros c' [= <-]; exists used; split; [done | lia]).
    destruct (script_outcome limit window_ms Hwindow (Some c) later Hok') as (c' & _ & Hout).
    destruct Hout as [| |c1 v1 c' Hget [= <-]]; [done..|]. exfalso.
    unfold redis_get, counter_lives in Hget. cbn in Hget. rewrite Hd in Hget.
    destruct (Z.ltb_spec (later / 1000) (now_us / 1000 + ttl)); [lia|].
    destruct (Z.eqb_spec (later / 1000) (now_us / 1000 + ttl)); [lia|]. by rewrite andb_false_r in Hget.
  - eexists. split; [reflexivity|]. cbn. split; [done|]. split; [done|]. split; [exists c, used; repeat split; [done | lia]|].
    done.
Qed.

(** When the counter still exists in the millisecond of its deadline, a call in
    it is refused although its window is over, and starts the window again with
    the limit used up. *)
Lemma deadline_call_extends c now_us :
  lives_at_deadline = true → ct_value c = Some limit → ct_deadline c = Some (now_us / 1000) →
  let r := fixedWindowScript limit window_ms now_us (Some c) in
  call_allowed r.1 = false ∧
  r.2 = Some {| ct_value := Some limit; ct_deadline := Some (now_us / 1000 + window_ms) |}.
Proof.
  intros Hl Hv Hd. unfold fixedWindowScript, redis_get, counter_lives. cbn. rewrite Hd, Hl, Z.eqb_refl, orb_true_r, Hv.
  rewrite Z.ltb_irrefl. cbn. rewrite Hd, Z.sub_diag. cbn. by rewrite Hv.
Qed.
End theorems.

(** ** Concrete instances *)

#[export] Instance demo_expiry : RedisExpiry := false.

Definition demo_times : list Z := [1000; 5000000; 9000000; 10000000; 12000000].

(** Two requests in ten seconds: the third and the fourth are refused. *)
Example demo_calls :
  calls 2 10000 None demo_times = [(1, true); (5000, true); (9000, false); (10000, false); (12000, true)].
Proof. vm_compute. reflexivity. Qed.

Lemma demo_sorted : sorted_from 0 demo_times.
Proof. unfold sorted_from, demo_times. repeat constructor; done. Qed.

Lemma no_key_ok limit : key_ok limit None.
Proof. done. Qed.

Lemma rate_limit_holds_witness :
  (∀ a, allowed_between a (a + 10000) (calls 2 10000 None demo_times) ≤ 2 * 2) ∧
  ∀ u rest, demo_times = u :: rest → redis_get None (u / 1000) = None →
    1 ≤ allowed_between (u / 1000) (u / 1000 + 10000) (calls 2 10000 None demo_times) ≤ 2.
Proof. exact (rate_limit_holds 2 10000 eq_refl eq_refl None 0 demo_times demo_sorted (no_key_ok 2)). Defined.

Definition demo_limiter : Limiter :=
  {| lm_environment := "prod"; lm_maxRequests := 2; lm_window := 10 * second; lm_failurePolicy := RateLimitFailOpen |}.

Definition demo_counter : Counter := {| ct_value := Some 2; ct_deadline := Some 10001 |}.

Lemma demo_counter_ok : key_ok 2 (Some demo_counter).
Proof. intros c [= <-]. by exists 2. Qed.

Definition demo_name : string := Eval vm_compute in
  match limiter_key demo_limiter "t" "fast" with Ok name => name | Err _ => "" end.

Lemma demo_name_ok : limiter_key demo_limiter "t" "fast" = Ok demo_name.
Proof. vm_compute. reflexivity. Qed.

Lemma allow_exact_witness :
  let r := fixedWindowScript 2 10000 9000000 (Some demo_counter) in
  ∃ d, Allow demo_limiter None "t" "fast" (λ _, r.1) None = Ok d ∧ rd_Bypassed d = false ∧
    rd_Allowed d = call_allowed r.1 ∧
    (∃ c used, r.2 = Some c ∧ ct_value c = Some used ∧ rd_Remaining d = 2 - used) ∧
    (rd_Allowed d = false →
       ∀ later_us, 9000000 / 1000 + 1000 * rd_RetryAfterSeconds d < later_us / 1000 →
         call_allowed (fixedWindowScript 2 10000 later_us r.2).1 = true).
Proof.
  exact (allow_exact 2 10000 eq_refl eq_refl demo_limiter "t" "fast" demo_name (Some demo_counter) 9000000 None
    demo_name_ok eq_refl demo_counter_ok ltac:(done)).
Defined.
