(* ===== verification/HttpApi.v ===== *)
(** * What the HTTP interface answers ([httpapi/errors.go], [auth.go], [chat.go])

    The parts of the handlers that only look at a request or write an answer: error
    bodies in the two dialects, the answer to each kind of upstream failure, rate limit
    and cache headers, the checks of a chat request, credentials in headers, and the
    frames of an event stream. *)

From S2P Require Import Prelude Encoding Json JsonWrite JsonTree Failure Sse Token AuthSnapshot AuthL1 AuthCache RedisAuth AuthCoherence ResponseCache ApiKeys RateLimit Routing Usage Pricing PolicyIndex Quota ChatContent ChatRequest Transport.

Open Scope Z_scope.

(** ** The answer under construction

    Of a gin context: the dialect, the request's identifier, the error code that was
    noted, the headers that were set, and what was written, in order. *)

Inductive Written :=
| wrote (status : Z) (contentType body : string)
| wrote_frame (bytes : string).

Record Gin := {
  gc_anthropic : bool;
  gc_requestID : string;
  gc_errorCode : string;
  gc_header : gmap string string;
  gc_written : list Written;
}.

Definition new_gin (anthropic : bool) (requestID : string) : Gin :=
  {| gc_anthropic := anthropic; gc_requestID := requestID; gc_errorCode := ""; gc_header := ∅; gc_written := [] |}.

(** [c.Header]. *)
Definition set_header (name value : string) (c : Gin) : Gin :=
  {| gc_anthropic := gc_anthropic c; gc_requestID := gc_requestID c; gc_errorCode := gc_errorCode c;
     gc_header := <[name := value]> (gc_header c); gc_written := gc_written c |}.
Definition write (w : Written) (c : Gin) : Gin :=
  {| gc_anthropic := gc_anthropic c; gc_requestID := gc_requestID c; gc_errorCode := gc_errorCode c;
     gc_header := gc_header c; gc_written := gc_written c ++ [w] |}.
Definition note_error (code : string) (c : Gin) : Gin :=
  {| gc_anthropic := gc_anthropic c; gc_requestID := gc_requestID c; gc_errorCode := code;
     gc_header := gc_header c; gc_written := gc_written c |}.

Definition json_content_type : string := "application/json; charset=utf-8".
(** [c.Data] of JSON. *)
Definition write_data (status : Z) (body : string) : Gin → Gin := write (wrote status json_content_type body).

(** ** Errors *)

Record ApiError := {
  ae_Status : Z; ae_Message : string; ae_Type : string; ae_Param : option string; ae_Code : string;
}.

Definition anthropicErrorType (status : Z) : string :=
  if status =? 400 then "invalid_request_error"
  else if status =? 401 then "authentication_error"
  else if status =? 403 then "permission_error"
  else if status =? 404 then "not_found_error"
  else if status =? 413 then "request_too_large"
  else if status =? 429 then "rate_limit_error"
  else if status =? 503 then "overloaded_error"
  else "api_error".

(** The members of a [gin.H] are sorted. *)
Definition error_body (c : Gin) (e : ApiError) : string :=
  if gc_anthropic c then
    encode_object
      [("error", encode_object [("message", encode_string (ae_Message e));
                                ("type", encode_string (anthropicErrorType (ae_Status e)))]);
       ("request_id", encode_string (gc_requestID c)); ("type", encode_string "error")]%string
  else
    encode_object
      [("error", encode_object [("message", encode_string (ae_Message e)); ("type", encode_string (ae_Type e));
                                ("param", match ae_Param e with Some p => encode_string p | None => "null" end);
                                ("code", encode_string (ae_Code e))])]%string.

Definition writeAPIError (e : ApiError) (c : Gin) : Gin :=
  write_data (ae_Status e) (error_body c e) (note_error (ae_Code e) c).

Abbreviation api_error := Build_ApiError (only parsing).
Abbreviation invalid_request status message param code := (api_error status message "invalid_request_error" param code) (only parsing).
Abbreviation server_error status message param code := (api_error status message "server_error" param code) (only parsing).
Abbreviation upstream_error status message param code := (api_error status message "upstream_error" param code) (only parsing).

(** *** Failures of the upstream *)

Definition category_text (category : Category) : string :=
  match category with
  | CategoryLocalValidation => "local_validation"
  | CategoryKeyUnauthorized => "key_unauthorized"
  | CategoryKeyForbidden => "key_forbidden"
  | CategoryUpstreamRateLimit => "upstream_rate_limit"
  | CategoryUpstream4xx => "upstream_4xx"
  | CategoryModelUnavailable => "model_unavailable"
  | CategoryUpstream5xx => "upstream_5xx"
  | CategoryUpstreamProtocol => "upstream_protocol"
  | CategoryUnsupportedCapability => "unsupported_capability"
  | CategoryUnsupportedResponse => "unsupported_response"
  | CategoryNetwork => "network"
  | CategoryTimeout => "timeout"
  | CategoryKeyExhausted => "key_exhausted"
  | CategoryQueue => "queue"
  | CategoryBreaker => "breaker"
  | CategoryCanceled => "canceled"
  end.

(** The error that a failure is answered with. *)
Definition failure_error (failure : Failure) : ApiError :=
  match f_Category failure with
  | CategoryTimeout => upstream_error 504 "upstream request timed out" None "upstream_timeout"
  | CategoryUnsupportedCapability =>
      invalid_request 400 "no configured provider supports a requested capability" None "unsupported_provider_capability"
  | CategoryUnsupportedResponse =>
      upstream_error 502 "upstream returned output this gateway cannot represent" None "unsupported_upstream_response"
  | CategoryUpstreamProtocol =>
      if errors_Is ErrResponseTooLarge (EFailure failure)
      then upstream_error 502 "upstream response exceeded the size limit" None "upstream_response_too_large"
      else if errors_Is ErrInvalidResponse (EFailure failure)
      then upstream_error 502 "upstream returned an invalid response" None "invalid_upstream_response"
      else upstream_error 502 "upstream returned an unsupported response" None "upstream_protocol_error"
  | CategoryUpstream4xx =>
      if f_StatusCode failure =? 400
      then invalid_request 400 "upstream rejected the request" None "upstream_rejected_request"
      else upstream_error 502 "upstream request failed" None "upstream_http_error"
  | CategoryModelUnavailable =>
      upstream_error 503 "requested model is unavailable from configured providers" (Some "model"%string) "model_unavailable"
  | CategoryUpstreamRateLimit => upstream_error 429 "upstream rate limit exceeded" None "upstream_rate_limited"
  | CategoryKeyUnauthorized | CategoryKeyForbidden | CategoryUpstream5xx =>
      upstream_error 502 "upstream request failed" None "upstream_http_error"
  | CategoryBreaker => upstream_error 503 "provider circuit is temporarily open" None "provider_circuit_open"
  | CategoryKeyExhausted => upstream_error 503 "provider has no available API key" None "provider_keys_exhausted"
  | CategoryQueue =>
      match f_Queue failure with
      | Some QueueFull => upstream_error 503 "provider queue is full" None "provider_queue_full"
      | Some QueueWaitTimeout => upstream_error 503 "provider queue wait timed out" None "provider_queue_timeout"
      | _ => upstream_error 503 "provider capacity is temporarily unavailable" None "provider_queue_unavailable"
      end
  | CategoryLocalValidation => server_error 500 "provider request could not be prepared" None "provider_request_error"
  | CategoryCanceled => upstream_error 504 "upstream request was canceled" None "upstream_canceled"
  | CategoryNetwork => upstream_error 502 "upstream is unavailable" None "upstream_unavailable"
  end.

(** The seconds in [Retry-After], rounded up. *)
Definition retry_seconds (d : Duration) : Z := Z.quot (wrap_int64 (d + second - 1)) second.

Definition retry_header (failure : Failure) : option string :=
  let seconds := encode_int (retry_seconds (f_RetryAfter failure)) in
  match f_Category failure with
  | CategoryUpstreamRateLimit => if f_RetryAfterSet failure then Some seconds else None
  | CategoryBreaker | CategoryKeyExhausted => if 0 <? f_RetryAfter failure then Some seconds else None
  | _ => None
  end.

(** [client_done]: the context of the request is over, read when the failure is a
    cancellation. *)
Definition writeReliabilityError (failure : Failure) (client_done : bool) (c : Gin) : Gin :=
  if bool_decide (f_Category failure = CategoryCanceled) && client_done then c
  else
    let c := match retry_header failure with Some seconds => set_header "Retry-After" seconds c | None => c end in
    writeAPIError (failure_error failure) c.

(** *** Other errors *)

Definition quota_error_of (e : QuotaError) : ApiError :=
  match e with
  | ErrExceeded => api_error 429 "tenant token or spending quota exceeded" "rate_limit_error" None "quota_exceeded"
  | ErrCostUnknown =>
      server_error 503 "request cost cannot be reserved because pricing is unavailable" None "quota_pricing_unavailable"
  | _ => server_error 503 "quota service is unavailable" None "quota_unavailable"
  end.

Definition limit_error (e : RateError) : ApiError :=
  match e with
  | RateUnavailable => server_error 503 "rate limit service is unavailable" None "rate_limit_unavailable"
  | _ => server_error 500 "rate limit decision could not be evaluated" None "rate_limit_error"
  end.

Definition route_error (e : Sentinel) : ApiError :=
  match e with
  | ErrCapabilityUnavailable =>
      invalid_request 400 "no configured provider model supports the requested capabilities" (Some "model"%string)
        "unsupported_provider_capability"
  | ErrNoRoute =>
      server_error 503 "no provider route is available for the requested model" (Some "model"%string) "route_unavailable"
  | _ => server_error 500 "provider route could not be planned" None "route_error"
  end.

Definition authorization_error (e : AuthError) : ApiError :=
  match e with
  | ErrModelNotAllowed =>
      api_error 403 "API key is not allowed to use the requested model" "permission_error" (Some "model"%string) "model_not_allowed"
  | _ => server_error 503 "model authorization service is unavailable" None "authorization_unavailable"
  end.

(** ** Headers *)

Definition status_text (status : Status) : string :=
  match status with StatusHit => "HIT" | StatusMiss => "MISS" | StatusBypass => "BYPASS" end.

Definition writeCacheStatusHeader (status : Status) : Gin → Gin := set_header "X-Model-Velo-Cache" (status_text status).

Definition writeRateLimitHeaders (decision : RateDecision) (c : Gin) : Gin :=
  if rd_Bypassed decision then set_header "X-RateLimit-Status" "bypassed" c
  else
    let c := set_header "X-RateLimit-Limit" (encode_int (rd_Limit decision)) c in
    let c := set_header "X-RateLimit-Remaining" (encode_int (rd_Remaining decision)) c in
    let c := set_header "X-RateLimit-Reset" (encode_int (rd_ResetAtUnix decision)) c in
    if rd_Allowed decision then c else set_header "Retry-After" (encode_int (rd_RetryAfterSeconds decision)) c.

(** [strings.Split] at one character. *)
Fixpoint split_at (fuel : nat) (sep : ascii) (s : string) : list string :=
  match fuel with
  | O => [s]
  | S fuel => match Cut sep s with Some (before, after) => before :: split_at fuel sep after | None => [s] end
  end.

(** [values]: the [Cache-Control] headers of the request. *)
Definition requestBypassesResponseCache (values : list string) : bool :=
  existsb (λ value, existsb (λ directive, EqualFold (TrimSpace directive) "no-store")
                      (split_at (String.length value) "," value)) values.

Definition hasJSONContentType `{Unicode} (contentType : string) : bool :=
  match ParseMediaType contentType with Some mediaType => (mediaType =? "application/json")%string | None => false end.

(** ** Checks of a chat request *)

Definition supportedMessageRole (role : string) : bool :=
  existsb (String.eqb role) ["system"; "developer"; "user"; "assistant"; "tool"]%string.

Inductive ContentStatus := content_present | content_missing | content_invalid.

Definition part_type_present (raw : string) : bool :=
  match (ms ← struct_members raw; field "type" decode_string ""%string ms) with
  | Some type => negb (TrimSpace type =? "")%string
  | None => false
  end.

Definition messageContentStatus (raw : string) : ContentStatus :=
  let raw := TrimSpace raw in
  match raw with
  | EmptyString => content_missing
  | String first _ =>
      if (raw =? "null")%string then content_missing
      else if (first =? quote_byte)%char then
        match decode_string "" raw with
        | None => content_invalid
        | Some text => if (TrimSpace text =? "")%string then content_missing else content_present
        end
      else if negb (first =? "[")%char then content_invalid
      else
        match json_array raw with
        | None => content_invalid
        | Some [] => content_missing
        | Some parts => if forallb part_type_present parts then content_present else content_invalid
        end
  end.

(** [fmt.Sprintf] of the texts with the position of a message. *)
Definition at_message (index : nat) (what : string) : string :=
  ("messages[" ++ encode_int (Z.of_nat index) ++ "]" ++ what)%string.

Fixpoint check_messages (index : nat) (messages : list ChatMessage) : option ApiError :=
  match messages with
  | [] => None
  | message :: rest =>
      if negb (supportedMessageRole (msg_Role message))
      then Some (invalid_request 400 (at_message index ".role is not supported") (Some "messages"%string) "invalid_message_role")
      else
        match messageContentStatus (msg_Content message) with
        | content_missing =>
            if (msg_Role message =? "assistant")%string &&
               (negb (bool_decide (length (msg_ToolCalls message) = 0%nat)) || HasField message "function_call")
            then check_messages (S index) rest
            else Some (invalid_request 400 (at_message index ".content is required") (Some "messages"%string) "missing_message_content")
        | content_invalid =>
            Some (invalid_request 400 (at_message index ".content must be text or a non-empty content-parts array")
                    (Some "messages"%string) "invalid_message_content")
        | content_present => check_messages (S index) rest
        end
  end.

(** The error of the first check that fails. *)
Definition validateChatRequest (request : ChatRequest) : option ApiError :=
  if (TrimSpace (cq_Model request) =? "")%string
  then Some (invalid_request 400 "model is required" (Some "model"%string) "missing_model")
  else
    match cq_Messages request with
    | [] => Some (invalid_request 400 "messages must contain at least one message" (Some "messages"%string) "missing_messages")
    | messages => check_messages 0 messages
    end.

(** ** Credentials *)

Definition has_blank (s : string) : bool :=
  existsb (λ c, existsb (Ascii.eqb c) [" "; "009"; "013"; "010"]%char) (list_ascii_of_string s).

Definition missing_bearer : ApiError :=
  api_error 401 "Authorization header with Bearer API key is required" "authentication_error" None "missing_api_key".
Definition invalid_bearer : ApiError :=
  api_error 401 "Authorization header is invalid" "authentication_error" None "invalid_authorization".
Definition not_bearer : ApiError :=
  api_error 401 "Authorization header must use Bearer authentication" "authentication_error" None "invalid_authorization".

(** [values]: the [Authorization] headers. *)
Definition bearerToken (values : list string) : result ApiError string :=
  match values with
  | [] => Err missing_bearer
  | [value] =>
      if negb (value =? TrimSpace value)%string then Err invalid_bearer
      else
        match Cut " " value with
        | None => Err not_bearer
        | Some (scheme, plaintext) =>
            if negb (EqualFold scheme "Bearer") || (plaintext =? "")%string || has_blank plaintext
            then Err not_bearer else Ok plaintext
        end
  | _ => Err invalid_bearer
  end.

(** The headers that carry a credential. *)
Record CredentialHeaders := { ch_Authorization : list string; ch_XApiKey : list string }.

Definition requestCredential (anthropic : bool) (headers : CredentialHeaders) : result ApiError string :=
  if negb anthropic then bearerToken (ch_Authorization headers)
  else
    match ch_XApiKey headers with
    | [value] =>
        let credential := TrimSpace value in
        if (credential =? "")%string || negb (credential =? value)%string || has_blank credential
        then Err (api_error 401 "x-api-key header is invalid" "authentication_error" None "invalid_authorization")
        else Ok credential
    | _ => Err (api_error 401 "x-api-key header is required" "authentication_error" None "missing_api_key")
    end.

Definition rejected_credential (e : AuthError) : bool :=
  match e with
  | ErrInvalidCredential | ErrKeyInactive | ErrKeyRevoked | ErrKeyExpired | ErrTenantInactive => true
  | _ => false
  end.

(** How the chain of handlers goes on: not at all once an error was answered ([Abort]);
    otherwise with the identity, if there is one. [authenticate] is [access.Authenticate];
    [client_done] is read when it fails, and then nothing is answered, nor the chain stopped. *)
Inductive Authenticated := aborted | goes_on (identity : option Identity).

Definition authenticationMiddleware {S} (authenticate : string → S → result AuthError Identity * S) (client_done : bool)
    (headers : CredentialHeaders) (c : Gin) (s : S) : Authenticated * Gin * S :=
  match requestCredential (gc_anthropic c) headers with
  | Err e => (aborted, writeAPIError e (set_header "WWW-Authenticate" "Bearer" c), s)
  | Ok plaintext =>
      let '(answer, s) := authenticate plaintext s in
      match answer with
      | Ok identity => (goes_on (Some identity), c, s)
      | Err e =>
          if client_done then (goes_on None, c, s)
          else if rejected_credential e then
            (aborted, writeAPIError (api_error 401 "API key is invalid or inactive" "authentication_error" None "invalid_api_key")
                        (set_header "WWW-Authenticate" "Bearer" c), s)
          else (aborted, writeAPIError (server_error 503 "authentication service is unavailable" None "authentication_unavailable") c, s)
      end
  end.

(** ** Event streams *)

Definition newline_text : string := String newline "".

(** The bytes of one event. *)
Definition stream_frame (event : ChatStreamEvent) : option string :=
  payload ← (if ev_Done event then Some "[DONE]"%string else json_compact (ev_Data event));
  Some ("data: " ++ payload ++ newline_text ++ newline_text)%string.

(** What a writer answers: the number of bytes it took, and its error. *)
Record WriteAnswer := { wa_written : Z; wa_err : option GoErr }.

Definition io_ErrShortWrite : GoErr := EOther "short write".

Definition write_outcome (frame : string) (answer : WriteAnswer) : option GoErr :=
  match wa_err answer with
  | Some e => Some e
  | None => if wa_written answer =? str_len frame then None else Some io_ErrShortWrite
  end.

(** [writeChatStreamEvent] into the connection of [c]: the bytes that were taken. *)
Definition writeChatStreamEvent (event : ChatStreamEvent) (answer : string → WriteAnswer) (c : Gin) : option GoErr * Gin :=
  match stream_frame event with
  | None => (Some (ESentinel ErrInvalidStream), c)
  | Some frame =>
      let a := answer frame in
      (write_outcome frame a, write (wrote_frame (take_string (Z.to_nat (wa_written a)) frame)) c)
  end.
