(* ===== verification/ChatSession.v ===== *)
(** * Requests and their accounting ([httpapi/usage.go])

    What the handlers of requests share: the services they call, as interfaces; the state
    of one request, with a log of the calls it makes; and the session that meters it, from
    [newUsageSession] to [finish]. *)

From Stdlib Require Import Floats.
From S2P Require Import Prelude Json Failure Sse Breaker Queue Registry KeySelector Retry Routing Attempt Stream Orchestrator Construction Gateway Token AuthSnapshot AuthL1 AuthCache RedisAuth AuthCoherence ResponseCache ApiKeys RateLimit BigRat Calendar Usage Collector Pricing PolicyIndex Quota HttpApi.

Open Scope Z_scope.

(** ** Services

    What [httpapi] declares as interfaces, and the quota manager; [S] is the state behind
    them. [sv_Begin] is there when the emitter is a [LifecycleEmitter], [sv_quota] when
    there is a manager. *)

Class GatewayServices (S : Type) := {
  sv_AuthorizeModel : option CtxErr → Identity → string → S → option AuthError * S;
  sv_Allow : option CtxErr → string → string → S → result RateError RateDecision * S;
  sv_Lookup : Context → string → string → string → S → result CacheError Result * S;
  sv_Store : Context → string → string → string → string → S → result CacheError () * S;
  sv_Current : S → option Snapshot * S;
  sv_quota : bool;
  sv_HasPolicy : string → string → S → bool * S;
  sv_DefaultMaxOutputTokens : Z;
  sv_Reserve : ReserveInput → S → result QuotaError QuotaDecision * S;
  sv_Settle : string → UsageEvent → S → result QuotaError () * S;
  sv_EventID : S → option string * S;
  sv_Begin : option (PendingEvent → S → result UsageError () * S);
  sv_Emit : UsageEvent → S → result UsageError string * S;
}.

(** ** The state of a request *)

(** The calls it makes, as far as their order matters. *)
Inductive Act :=
| act_begin (pending : PendingEvent) (begun : bool)
| act_authorize (allowed : bool)
| act_limit (allowed : bool)
| act_unmetered
| act_reserve (reservation : option string)
| act_lookup (hit : bool)
| act_upstream
| act_store (body : string)
| act_settle (reservation : string) (event : UsageEvent)
| act_emit (event : UsageEvent).

(** [us_event] is there when the session is ready. *)
Record usageSession := {
  us_collector : Collector;
  us_event : option UsageEvent;
  us_eventID : string;
  us_quota : bool;
  us_reservationID : string;
}.

Record HState (S : Type) := {
  hs_services : S;
  hs_st : St;
  hs_gin : Gin;
  hs_session : option usageSession;
  hs_log : list Act;
}.
Arguments Build_HState {S} _ _ _ _ _.
Arguments hs_services {S} _.
Arguments hs_st {S} _.
Arguments hs_gin {S} _.
Arguments hs_session {S} _.
Arguments hs_log {S} _.

Definition HM (S A : Type) : Type := HState S → A * HState S.
#[export] Instance HM_ret S : MRet (HM S) := λ A a h, (a, h).
#[export] Instance HM_bind S : MBind (HM S) := λ A B f m h, let '(a, h) := m h in f a h.

Section request.
Context {S : Type}.
Implicit Type h : HState S.

Definition serve {A} (f : S → A * S) : HM S A := λ h,
  let '(a, s) := f (hs_services h) in
  (a, Build_HState s (hs_st h) (hs_gin h) (hs_session h) (hs_log h)).
Definition lift {A} (m : M A) : HM S A := λ h,
  let '(a, st) := m (hs_st h) in
  (a, Build_HState (hs_services h) st (hs_gin h) (hs_session h) (hs_log h)).
Definition answer (f : Gin → Gin) : HM S () := λ h,
  ((), Build_HState (hs_services h) (hs_st h) (f (hs_gin h)) (hs_session h) (hs_log h)).
Definition log (act : Act) : HM S () := λ h,
  ((), Build_HState (hs_services h) (hs_st h) (hs_gin h) (hs_session h) (hs_log h ++ [act])).
Definition get_gin : HM S Gin := λ h, (hs_gin h, h).
Definition get_session : HM S (option usageSession) := λ h, (hs_session h, h).
Definition set_session (s : option usageSession) : HM S () := λ h,
  ((), Build_HState (hs_services h) (hs_st h) (hs_gin h) s (hs_log h)).

(** A session that is nil is left alone. *)
Definition update_session (f : usageSession → usageSession) : HM S () := λ h,
  ((), Build_HState (hs_services h) (hs_st h) (hs_gin h) (f <$> hs_session h) (hs_log h)).
End request.

Definition with_collector (f : Collector → Collector) (s : usageSession) : usageSession :=
  {| us_collector := f (us_collector s); us_event := us_event s; us_eventID := us_eventID s; us_quota := us_quota s;
     us_reservationID := us_reservationID s |}.
Definition attachQuota (reservationID : string) (s : usageSession) : usageSession :=
  {| us_collector := us_collector s; us_event := us_event s; us_eventID := us_eventID s; us_quota := true;
     us_reservationID := TrimSpace reservationID |}.

Definition retriesFromTrail (trail : list AttemptRecord) : Z :=
  Z.of_nat (length (filter (λ r, 1 < ar_Attempt r) trail)).

Definition outcome_of (status category code : string) : UsageOutcome :=
  {| uo_Status := status; uo_ErrorCategory := category; uo_ErrorCode := code; uo_EndedAt := time_zero |}.

(** Once, with the time that is read. *)
Definition finalize_session (outcome : UsageOutcome) (now : Time) (s : usageSession) : usageSession :=
  match us_event s with
  | Some _ => s
  | None =>
      let '(event, collector) := Finalize outcome now (us_collector s) in
      match event with
      | None => s
      | Some event => {| us_collector := collector; us_event := Some event; us_eventID := us_eventID s; us_quota := us_quota s;
                         us_reservationID := us_reservationID s |}
      end
  end.

(** ** The session *)

Section session.
Context {S : Type} `{GatewayServices S} {Request Body : Type} `{Env Request Body} `{Unicode, UnicodeUpper}.
Context (ctx : Ctx).

Definition time_now : HM S Time := lift time_Now.
(** [c.Request.Context().Err()]. *)
Definition client_err : HM S (option CtxErr) := now ← time_now; mret (ctx_err ctx now).

Definition newUsageSession (tenantID apiKeyID model : string) (stream : bool) : HM S bool :=
  c ← get_gin;
  id ← serve sv_EventID;
  now ← time_now;
  match NewCollector {| ni_RequestID := gc_requestID c; ni_TenantID := tenantID; ni_APIKeyID := apiKeyID;
                        ni_RequestedModel := model; ni_Stream := stream; ni_StartedAt := time_zero |} id now with
  | Err _ => mret false
  | Ok collector =>
      let pending := Pending collector in
      begun ← match sv_Begin with
              | Some begin => r ← serve (begin pending); mret (is_ok r)
              | None => mret true
              end;
      _ ← log (act_begin pending begun);
      if begun : bool then
        _ ← set_session (Some {| us_collector := collector; us_event := None; us_eventID := pe_EventID pending;
                                 us_quota := false; us_reservationID := "" |});
        mret true
      else mret false
  end.

Definition setCacheStatus (status : Status) : HM S () := update_session (with_collector (SetCacheStatus (status_text status))).
Definition session_observe (payload : string) : HM S () := update_session (with_collector (ObserveResponse payload)).
Definition observeStream (payload : string) : HM S () :=
  now ← time_now; update_session (with_collector (ObserveStreamResponse payload now now)).

Definition setRoute (providerID upstreamModel : string) (attempts : Z) (trail : list AttemptRecord) (fallbacks : Z) : HM S () :=
  update_session (with_collector (SetRoute providerID upstreamModel attempts (retriesFromTrail trail) fallbacks)).
Definition recordExecution {Payload} (x : ExecutionResult Payload) : HM S () :=
  setRoute (x_ProviderID x) (x_UpstreamModel x) (x_Attempts x) (x_Trail x) (x_Fallbacks x).
Definition recordStream (s : PreparedStream) : HM S () :=
  setRoute (ps_ProviderID s) (ps_UpstreamModel s) (ps_Attempts s) (ps_Trail s) (ps_Fallbacks s).
Definition recordFailure (f : Failure) : HM S () :=
  setRoute (f_ProviderID f) (match last (f_Trail f) with Some r => ar_UpstreamModel r | None => "" end)
    (f_TotalAttempts f) (f_Trail f) (f_Fallbacks f).

Definition finalize (outcome : UsageOutcome) : HM S () :=
  now ← time_now; update_session (finalize_session outcome now).

(** The outcome of a request that was answered before anything else was said of it. *)
Definition unfinished_outcome (code : string) (client_done : bool) : UsageOutcome :=
  let category := if client_done then "client"%string else "gateway"%string in
  let code := if client_done && (code =? "")%string then "client_canceled"%string else code in
  outcome_of (if client_done then StatusCanceled else StatusFailed) category
    (if (code =? "")%string then "request_incomplete" else code).

(** Settle, then emit; their errors are reported only. *)
Definition deliver (s : usageSession) (event : UsageEvent) : HM S () :=
  _ ← (if us_quota s && negb (us_reservationID s =? "")%string then
         _ ← serve (sv_Settle (us_reservationID s) event); log (act_settle (us_reservationID s) event)
       else mret ());
  _ ← serve (sv_Emit event);
  log (act_emit event).

Definition finish : HM S () :=
  s ← get_session;
  match s with
  | None => mret ()
  | Some s =>
      _ ← match us_event s with
          | Some _ => mret ()
          | None =>
              c ← get_gin;
              e ← client_err;
              finalize (unfinished_outcome (gc_errorCode c) (isSome e))
          end;
      s ← get_session;
      match s with
      | Some s => match us_event s with Some event => deliver s event | None => mret () end
      | None => mret ()
      end
  end.
End session.
