(* ===== verification/ChatHandler.v ===== *)
(** * The chat handler ([httpapi/chat.go])

    [complete] and [stream] as one computation over the services, the shared state of the
    reliability layer and the upstream: the checks, the session, authorization, rate limit,
    plan, reservation, cache, execution and answer, with every early return. *)

From Stdlib Require Import Floats.
From S2P Require Import Prelude Json Failure Sse Breaker Queue Registry KeySelector Retry Routing Attempt Stream Orchestrator Construction Gateway Token AuthSnapshot AuthL1 AuthCache RedisAuth AuthCoherence ResponseCache ApiKeys RateLimit BigRat Calendar Usage Collector Pricing PolicyIndex Quota ChatContent ChatRequest HttpApi ChatSession.

Open Scope Z_scope.

(** ** The client's connection and the other dialects *)

Inductive DeadlineAnswer := deadline_set | deadline_unsupported | deadline_failed (error : GoErr).

(** The response writer: whether it can flush, and how its calls end. *)
Class ClientConnection (S : Type) := {
  cc_flushes : bool;
  cc_SetWriteDeadline : option Time → S → DeadlineAnswer * S;
  cc_Write : string → S → WriteAnswer * S;
  cc_Flush : S → option GoErr * S;
}.

(** [responseProtocol]: it keeps the state of its stream, and writes the frames it makes of
    an event. *)
Record ResponseProtocol (S : Type) := {
  rp_EncodeResponse : string → S → option string * S;
  rp_WriteStream : (string → S → WriteAnswer * S) → ChatStreamEvent → S → option GoErr * list string * S;
}.
Arguments rp_EncodeResponse {S} _ _ _.
Arguments rp_WriteStream {S} _ _ _ _.

(** Reading the upstream stream: the instants of its activity, when the event is there,
    whether the idle timer wins a tie, and what was read. *)
Class UpstreamReads := up_Next : nat → PreparedStream → list Time * Time * bool * ChatStreamEvent * option GoErr.

(** ** The request *)

Definition maxChatRequestBodyBytes : Z := 16777216.
Definition streamFrameWriteTimeout : Duration := 15 * second.

(** [hr_bodyFails]: reading ends with an error after these bytes. *)
Record HttpRequest := {
  hr_ContentType : string;
  hr_body : string;
  hr_bodyFails : bool;
  hr_CacheControl : list string;
  hr_identity : option Identity;
}.

Definition read_body (limit : Z) (r : HttpRequest) : result ApiError string :=
  if limit <? str_len (hr_body r)
  then Err (invalid_request 413 "request body exceeds the size limit" None "request_too_large")
  else if hr_bodyFails r then Err (invalid_request 400 "request body could not be read" None "invalid_request_body")
  else Ok (hr_body r).

Definition content_type_error : ApiError :=
  invalid_request 415 "request Content-Type must be application/json" None "invalid_content_type".
Definition invalid_json : ApiError := invalid_request 400 "request body must be a valid JSON object" None "invalid_json".
Definition identity_unavailable : ApiError :=
  server_error 500 "authenticated identity is unavailable" None "identity_unavailable".
Definition usage_unavailable : ApiError :=
  server_error 503 "usage accounting is temporarily unavailable" None "usage_accounting_unavailable".
Definition capability_error : ApiError :=
  invalid_request 400 "request uses a capability that is not supported by this gateway" None "unsupported_request_capability".
Definition limit_exceeded : ApiError :=
  api_error 429 "tenant request quota exceeded for this model" "rate_limit_error" None "rate_limit_exceeded".
Definition runtime_unavailable : ApiError := server_error 503 "gateway runtime is unavailable" None "runtime_unavailable".
Definition streaming_unavailable : ApiError :=
  server_error 500 "streaming is unavailable on this HTTP connection" None "streaming_unavailable".
Definition cached_unrepresentable : ApiError :=
  upstream_error 502 "cached response could not be represented in the requested protocol" None "unsupported_upstream_response".
Definition response_unrepresentable : ApiError :=
  upstream_error 502 "upstream response could not be represented in the requested protocol" None "unsupported_upstream_response".
Definition encoding_failed : UsageOutcome := outcome_of StatusFailed "gateway" "protocol_encoding_failed".

(** [safeRecoveryMiddleware]: a panic is answered with 500. *)
Definition recovered : Gin → Gin := write (wrote 500 "" "").

Section handler.
Context {S : Type} `{GatewayServices S, ClientConnection S}.
Context `{Env ChatRequest string, StreamEnv ChatRequest, UpstreamReads, Unicode, UnicodeUpper, HTTPDates}.
Context (protocol : option (ResponseProtocol S)) (fuel : nat) (ctx : Ctx).

Abbreviation Handler := (HM S).

Definition fail (e : ApiError) : Handler () := answer (writeAPIError e).

(** ** The parts *)

Definition encodeProtocolResponse (body : string) : Handler (option string) :=
  match protocol with None => mret (Some body) | Some p => serve (rp_EncodeResponse p body) end.

Definition chatSetDeadline (deadline : option Time) : Handler (option GoErr) :=
  a ← serve (cc_SetWriteDeadline deadline);
  mret match a with deadline_failed e => Some e | _ => None end.

(** [writeProtocolStream]. *)
Definition writeProtocolStream (event : ChatStreamEvent) : Handler (option GoErr) :=
  match protocol with
  | None =>
      match stream_frame event with
      | None => mret (Some (ESentinel ErrInvalidStream))
      | Some frame =>
          a ← serve (cc_Write frame);
          _ ← answer (write (wrote_frame (take_string (Z.to_nat (wa_written a)) frame)));
          mret (write_outcome frame a)
      end
  | Some p =>
      '(e, frames) ← serve (λ s, let '(e, frames, s) := rp_WriteStream p cc_Write event s in ((e, frames), s));
      _ ← answer (λ c, foldl (λ c frame, write (wrote_frame frame) c) c frames);
      mret e
  end.

Definition writeAndFlush (event : ChatStreamEvent) : Handler (option GoErr) :=
  now ← time_now;
  e ← chatSetDeadline (Some (time_add now streamFrameWriteTimeout));
  match e with
  | Some e => mret (Some e)
  | None =>
      e ← writeProtocolStream event;
      match e with
      | Some e => _ ← chatSetDeadline None; mret (Some e)
      | None =>
          e ← serve cc_Flush;
          match e with
          | Some e => _ ← chatSetDeadline None; mret (Some e)
          | None => chatSetDeadline None
          end
      end
  end.

(** The warning header of a reservation. *)
Definition quota_warning (decision : QuotaDecision) (c : Gin) : Gin :=
  if qd_Exceeded decision then set_header "X-Model-Velo-Quota-Warning" "overage" c
  else if negb (bool_decide (qd_Alerts decision = [])) then set_header "X-Model-Velo-Quota-Warning" "cost_unknown" c
  else c.

(** The tokens a request may produce: its own limit, or the default, for each choice. *)
Definition estimated_output (request : ChatRequest) : Z :=
  let output := match cq_MaxCompletionTokens request, cq_MaxTokens request with
                | Some n, _ => n
                | None, Some n => n
                | None, None => sv_DefaultMaxOutputTokens
                end in
  match cq_N request with
  | Some n => if 1 <? n then wrap_int64 (output * n) else output
  | None => output
  end.

Definition reserve (input : string → ReserveInput) (tenantID model : string) : Handler bool :=
  if negb sv_quota then _ ← log act_unmetered; mret true
  else
    has ← serve (sv_HasPolicy tenantID model);
    if negb has then _ ← log act_unmetered; mret true
    else
      s ← get_session;
      r ← serve (sv_Reserve (input (match s with Some s => us_eventID s | None => "" end)));
      match r with
      | Err e => _ ← log (act_reserve None); _ ← fail (quota_error_of e); mret false
      | Ok decision =>
          _ ← log (act_reserve (Some (TrimSpace (qd_ReservationID decision))));
          _ ← update_session (attachQuota (qd_ReservationID decision));
          _ ← answer (quota_warning decision);
          mret true
      end.

Definition reserveQuota (tenantID model body : string) (request : ChatRequest) (plan : Plan) : Handler bool :=
  reserve (λ group, {| ri_GroupID := group; ri_TenantID := tenantID; ri_GatewayModel := model;
                       ri_EstimatedInputTokens := str_len body; ri_EstimatedOutputTokens := estimated_output request;
                       ri_Plan := plan |}) tenantID model.

(** A failure of the execution: its route, its answer and its outcome. [client_code]: what
    is reported for a cancellation that was not answered. *)
Definition fail_execution (failure : Failure) (client_code : string) : Handler () :=
  _ ← recordFailure failure;
  done ← (if bool_decide (f_Category failure = CategoryCanceled) then e ← client_err ctx; mret (isSome e) else mret false);
  _ ← answer (writeReliabilityError failure done);
  c ← get_gin;
  let canceled := bool_decide (f_Category failure = CategoryCanceled) in
  let code := if canceled && (gc_errorCode c =? "")%string then client_code else gc_errorCode c in
  finalize (outcome_of (if canceled then StatusCanceled else StatusFailed) (category_text (f_Category failure)) code).

(** ** Streams *)

(** [PreparedStream.Next] at the upstream. *)
Definition read_stream (s : PreparedStream) : Handler (ChatStreamEvent * option GoErr * PreparedStream) :=
  lift (op (λ w,
    let '(activity, ready, tie, event, err) := up_Next (w_tick w) s in
    let fired := if ps_finished s then Some (w_now w)
                 else if ps_idleTime s <=? 0 then None else idle_fires (ps_idleTime s) (w_now w) activity ready tie in
    (PreparedStream_Next s (w_now w) activity ready tie event err, w_set_now w (default ready fired))) (λ _, [])).

Definition stream_interrupted : UsageOutcome := outcome_of StatusStreamInterrupted "client_write" "stream_write_failed".

Definition abort (s : PreparedStream) (cause : option GoErr) : Handler PreparedStream := r ← lift (Abort s cause); mret (snd r).

Definition interrupted_outcome (failure : Failure) : UsageOutcome :=
  if bool_decide (f_Category failure = CategoryCanceled)
  then outcome_of StatusCanceled (category_text (f_Category failure)) "client_canceled"
  else outcome_of StatusStreamInterrupted (category_text (f_Category failure)) "stream_interrupted".

(** The events behind the first one. [None]: more than [fuel] of them. *)
Fixpoint relay (fuel : nat) (s : PreparedStream) : Handler (option PreparedStream) :=
  match fuel with
  | O => mret None
  | Datatypes.S fuel =>
      '(event, err, s) ← read_stream s;
      match err with
      | Some err =>
          '(failure, s) ← lift (FinishError s ctx err);
          _ ← match failure with Some failure => finalize (interrupted_outcome failure) | None => mret () end;
          mret (Some s)
      | None =>
          _ ← observeStream (ev_Data event);
          e ← writeAndFlush event;
          match e with
          | Some e =>
              s ← abort s (Some e);
              _ ← finalize stream_interrupted;
              mret (Some s)
          | None =>
              if ev_Done event then
                r ← lift (Finish s None);
                _ ← finalize (outcome_of StatusStreamCompleted "" "");
                mret (Some (snd r))
              else relay fuel s
          end
      end
  end.

Definition stream_headers (c : Gin) : Gin :=
  let c := set_header "Content-Type" "text/event-stream; charset=utf-8" c in
  let c := set_header "Cache-Control" "no-cache, no-transform" c in
  let c := set_header "Connection" "keep-alive" c in
  writeCacheStatusHeader StatusBypass (set_header "X-Accel-Buffering" "no" c).

(** From an open stream to its end; the answer is the stream as it is left. *)
Definition serve_stream (s : PreparedStream) : Handler (option PreparedStream) :=
  e ← client_err ctx;
  match e with
  | Some e =>
      s ← abort s (Some (ctx_GoErr e));
      _ ← finalize (outcome_of StatusCanceled "client" "client_canceled");
      mret (Some s)
  | None =>
      e ← chatSetDeadline None;
      match e with
      | Some e =>
          s ← abort s (Some e);
          _ ← fail streaming_unavailable;
          c ← get_gin;
          _ ← finalize (outcome_of StatusFailed "gateway" (gc_errorCode c));
          mret (Some s)
      | None =>
          _ ← answer stream_headers;
          e ← writeAndFlush (ps_FirstEvent s);
          match e with
          | Some e =>
              s ← abort s (Some e);
              _ ← finalize stream_interrupted;
              mret (Some s)
          | None => relay fuel s
          end
      end
  end.

Definition stream (orchestrator : Orchestrator) (input : ExecutionInput ChatRequest) : Handler (option ()) :=
  if negb cc_flushes then _ ← fail streaming_unavailable; mret (Some ())
  else
    _ ← log act_upstream;
    r ← lift (OpenStream orchestrator fuel ctx input);
    match r with
    | None => mret None
    | Some (Err failure) => _ ← fail_execution failure "client_canceled"; mret (Some ())
    | Some (Ok s) =>
        _ ← recordStream s;
        _ ← observeStream (ev_Data (ps_FirstEvent s));
        s ← serve_stream s;
        match s with
        | None => mret None
        | Some s => _ ← abort s (Some (ESentinel context_Canceled)); mret (Some ())
        end
    end.

(** ** Chat requests *)

(** The response cache before the execution: its result, or nothing when the request is
    over. *)
Definition lookup (cacheControl : list string) (namespace tenantID model body : string) : Handler (option Result) :=
  if requestBypassesResponseCache cacheControl then mret (Some {| ResponseCache.rs_Status := StatusBypass; rs_Body := "" |})
  else
    e ← client_err ctx;
    r ← serve (sv_Lookup (WithRouteVersion {| cx_done := isSome e; cx_routeVersion := None |} namespace) tenantID model body);
    match r with
    | Ok result => _ ← log (act_lookup (match ResponseCache.rs_Status result with StatusHit => true | _ => false end)); mret (Some result)
    | Err _ =>
        _ ← log (act_lookup false);
        e ← client_err ctx;
        mret (if isSome e then None else Some {| ResponseCache.rs_Status := StatusBypass; rs_Body := "" |})
    end.

(** Keeping an answer, after a miss and without fallbacks: the status that is reported, or
    nothing when the request is over. *)
Definition store (status : Status) (fallbacks : Z) (namespace tenantID model body response : string) : Handler (option Status) :=
  match status with
  | StatusMiss =>
      if fallbacks =? 0 then
        e ← client_err ctx;
        r ← serve (sv_Store (WithRouteVersion {| cx_done := isSome e; cx_routeVersion := None |} namespace) tenantID model body response);
        _ ← log (act_store response);
        match r with
        | Ok _ => mret (Some status)
        | Err _ => e ← client_err ctx; mret (if isSome e then None else Some StatusBypass)
        end
      else mret (Some status)
  | _ => mret (Some status)
  end.

(** A hit. *)
Definition replay_cached (body : string) : Handler () :=
  _ ← setCacheStatus StatusHit;
  _ ← session_observe body;
  encoded ← encodeProtocolResponse body;
  match encoded with
  | None => _ ← finalize encoding_failed; fail cached_unrepresentable
  | Some clientBody =>
      _ ← finalize (outcome_of StatusCacheHit "" "");
      answer (λ c, write_data 200 clientBody (writeCacheStatusHeader StatusHit c))
  end.

(** An answer of the upstream. *)
Definition respond (status : Status) (body : string) : Handler () :=
  _ ← answer (writeCacheStatusHeader status);
  _ ← setCacheStatus status;
  encoded ← encodeProtocolResponse body;
  match encoded with
  | None => _ ← finalize encoding_failed; fail response_unrepresentable
  | Some clientBody => _ ← finalize (outcome_of StatusSuccess "" ""); answer (write_data 200 clientBody)
  end.

(** Without streaming, from the cache to the answer. *)
Definition execute (orchestrator : Orchestrator) (input : ExecutionInput ChatRequest)
    (cacheControl : list string) (namespace tenantID model body : string) : Handler (option ()) :=
  cached ← lookup cacheControl namespace tenantID model body;
  match cached with
  | None => mret (Some ())
  | Some cached =>
      match ResponseCache.rs_Status cached with
      | StatusHit => _ ← replay_cached (rs_Body cached); mret (Some ())
      | status =>
          _ ← setCacheStatus status;
          _ ← log act_upstream;
          r ← lift (Orchestrator_Execute orchestrator fuel ctx input);
          match r with
          | None => mret None
          | Some (Err failure) => _ ← fail_execution failure "client_canceled"; mret (Some ())
          | Some (Ok x) =>
              let response := default ""%string (x_Payload x) in
              _ ← recordExecution x;
              _ ← session_observe response;
              status ← store status (x_Fallbacks x) namespace tenantID model body response;
              match status with
              | None => mret (Some ())
              | Some status => _ ← respond status response; mret (Some ())
              end
          end
      end
  end.

(** The rate limit; [false]: the request has been answered or is over. *)
Definition limited (identity : Identity) (model : string) : Handler bool :=
  e ← client_err ctx;
  decision ← serve (sv_Allow e (id_TenantID identity) model);
  _ ← log (act_limit (match decision with Ok d => rd_Allowed d | Err _ => false end));
  match decision with
  | Err e =>
      over ← client_err ctx;
      _ ← (if isSome over then mret () else fail (limit_error e));
      mret false
  | Ok decision =>
      _ ← answer (writeRateLimitHeaders decision);
      if rd_Allowed decision then mret true
      else _ ← fail limit_exceeded; mret false
  end.

(** Authorization and rate limit. *)
Definition admission (identity : Identity) (model : string) : Handler bool :=
  e ← client_err ctx;
  refused ← serve (sv_AuthorizeModel e identity model);
  _ ← log (act_authorize (negb (isSome refused)));
  match refused with
  | Some e =>
      over ← client_err ctx;
      _ ← (if isSome over then mret () else fail (authorization_error e));
      mret false
  | None => limited identity model
  end.

(** A snapshot that was published is complete; a missing part would be a nil pointer. *)
Definition dispatch (r : HttpRequest) (identity : Identity) (model body : string) (request : ChatRequest)
    (required : list Capability) : Handler (option ()) :=
  admitted ← admission identity model;
  if negb admitted then mret (Some ())
  else
    active ← serve sv_Current;
    match active with
    | None => _ ← fail runtime_unavailable; mret (Some ())
    | Some active =>
        match sn_Routes active, sn_Chat active with
        | Some routes, Some chat =>
            match Router_Plan routes model required with
            | Err e => _ ← fail (route_error e); mret (Some ())
            | Ok plan =>
                reserved ← reserveQuota (id_TenantID identity) model body request plan;
                if negb reserved then mret (Some ())
                else
                  c ← get_gin;
                  let input := {| xin_RequestID := gc_requestID c; xin_Request := request; xin_Plan := plan |} in
                  if cq_Stream request then _ ← setCacheStatus StatusBypass; stream chat input
                  else execute chat input (hr_CacheControl r) (sn_CacheNamespace active) (id_TenantID identity) model body
            end
        | _, _ => _ ← answer recovered; mret (Some ())
        end
    end.

(** What runs between [newUsageSession] and the deferred [finish]. *)
Definition metered (r : HttpRequest) (identity : Identity) (model body : string) (request : ChatRequest) : Handler (option ()) :=
  match RequiredCapabilities request with
  | Err _ => _ ← fail capability_error; mret (Some ())
  | Ok required => dispatch r identity model body request required
  end.

(** [complete]; its context is that of the request. *)
Definition complete (r : HttpRequest) : Handler (option ()) :=
  if negb (hasJSONContentType (hr_ContentType r)) then _ ← fail content_type_error; mret (Some ())
  else
    match read_body maxChatRequestBodyBytes r with
    | Err e => _ ← fail e; mret (Some ())
    | Ok body =>
        match ParseChatRequest body with
        | None => _ ← answer recovered; mret (Some ())
        | Some (Err _) => _ ← fail invalid_json; mret (Some ())
        | Some (Ok request) =>
            match validateChatRequest request with
            | Some e => _ ← fail e; mret (Some ())
            | None =>
                match hr_identity r with
                | None => _ ← fail identity_unavailable; mret (Some ())
                | Some identity =>
                    let model := TrimSpace (cq_Model request) in
                    begun ← newUsageSession (id_TenantID identity) (id_APIKeyID identity) model (cq_Stream request);
                    if negb begun then _ ← fail usage_unavailable; mret (Some ())
                    else
                      r ← metered r identity model body request;
                      match r with None => mret None | Some _ => _ ← finish ctx; mret (Some ()) end
                end
            end
        end
    end.
End handler.

(** The request with the identity that [authenticationMiddleware] noted. *)
Definition with_identity (r : HttpRequest) (identity : option Identity) : HttpRequest :=
  {| hr_ContentType := hr_ContentType r; hr_body := hr_body r; hr_bodyFails := hr_bodyFails r;
     hr_CacheControl := hr_CacheControl r; hr_identity := identity |}.

(** ** The other dialects ([httpapi/protocol.go]) *)

Section dialect.
Context {S : Type} `{GatewayServices S, ClientConnection S}.
Context `{Env ChatRequest string, StreamEnv ChatRequest, UpstreamReads, Unicode, UnicodeUpper, HTTPDates}.
Context (fuel : nat) (ctx : Ctx).

Definition protocol_error : ApiError :=
  invalid_request 400 "request contains fields that cannot be represented by the configured gateway" None
    "unsupported_protocol_feature".

(** [serveProtocol]: the body becomes that of a chat request; [convert] also sets up the
    state of the answer's protocol. *)
Definition serveProtocol (convert : string → string → S → result () (string * ResponseProtocol S) * S) (r : HttpRequest)
  : HM S (option ()) :=
  if negb (hasJSONContentType (hr_ContentType r)) then _ ← fail content_type_error; mret (Some ())
  else
    match read_body maxChatRequestBodyBytes r with
    | Err e => _ ← fail e; mret (Some ())
    | Ok body =>
        c ← get_gin;
        converted ← serve (convert body (gc_requestID c));
        match converted with
        | Err _ => _ ← fail protocol_error; mret (Some ())
        | Ok (chatBody, protocol) =>
            complete (Some protocol) fuel ctx
              {| hr_ContentType := hr_ContentType r; hr_body := chatBody; hr_bodyFails := false;
                 hr_CacheControl := hr_CacheControl r; hr_identity := hr_identity r |}
        end
    end.

(** A route behind [authenticationMiddleware]; [next] is its handler. *)
Definition authenticated (authenticate : option CtxErr → string → S → result AuthError Identity * S) (headers : CredentialHeaders)
    (next : option Identity → HM S (option ())) : HM S (option ()) :=
  e ← client_err ctx;
  over ← client_err ctx;
  goes ← (λ h, let '(a, c, s) := authenticationMiddleware (authenticate e) (isSome over) headers (hs_gin h) (hs_services h) in
               (a, Build_HState s (hs_st h) c (hs_session h) (hs_log h)));
  match goes with aborted => mret (Some ()) | goes_on identity => next identity end.
End dialect.
