(* ===== verification/ChatProtocol.v ===== *)
(** * The protocol of a request

    The order in which a handler may call the services, as an automaton, and what every
    run of [complete] keeps to: accounting begins before anything is decided, the upstream
    is called only when the request is authorized, within its limits and reserved, and
    whatever happens the reservation is settled once and the event emitted once, last. *)

From Stdlib Require Import Floats.
From S2P Require Import Prelude Json Failure Sse Breaker Queue Registry KeySelector Retry Routing Attempt Stream Orchestrator Construction Gateway Token AuthSnapshot AuthL1 AuthCache RedisAuth AuthCoherence ResponseCache ApiKeys RateLimit BigRat Calendar Usage Collector Pricing PolicyIndex Quota ChatContent ChatRequest HttpApi ChatSession ChatHandler.

Open Scope Z_scope.

(** ** The automaton *)

#[export] Instance InputTokenDetails_eq_dec : EqDecision InputTokenDetails.
Proof. solve_decision. Defined.
#[export] Instance OutputTokenDetails_eq_dec : EqDecision OutputTokenDetails.
Proof. solve_decision. Defined.
#[export] Instance ReportedCost_eq_dec : EqDecision ReportedCost.
Proof. solve_decision. Defined.
#[export] Instance TokenUsage_eq_dec : EqDecision TokenUsage.
Proof. solve_decision. Defined.
#[export] Instance UsageEvent_eq_dec : EqDecision UsageEvent.
Proof. solve_decision. Defined.

Inductive Phase :=
| ph_start
| ph_refused
| ph_begun (id : string)
| ph_authorized (id : string)
| ph_admitted (id : string)
| ph_metered (id : string) (reservation : option string)
| ph_called (id : string) (reservation : option string)
| ph_ending (id : string) (reservation : option string)
| ph_settled (id : string) (event : UsageEvent)
| ph_done (id : string) (event : UsageEvent).

(** What an open phase has to settle. *)
Definition open_phase (p : Phase) : option (string * option string) :=
  match p with
  | ph_begun id | ph_authorized id | ph_admitted id => Some (id, None)
  | ph_metered id r | ph_called id r | ph_ending id r => Some (id, r)
  | _ => None
  end.

Definition reservation_named (r : string) : option string := if (r =? "")%string then None else Some r.

Definition phase_step (p : Phase) (a : Act) : option Phase :=
  match p, a with
  | ph_start, act_begin pending true => Some (ph_begun (pe_EventID pending))
  | ph_start, act_begin _ false => Some ph_refused
  | ph_begun id, act_authorize ok => Some (if ok then ph_authorized id else ph_ending id None)
  | ph_authorized id, act_limit ok => Some (if ok then ph_admitted id else ph_ending id None)
  | ph_admitted id, act_unmetered => Some (ph_metered id None)
  | ph_admitted id, act_reserve None => Some (ph_ending id None)
  | ph_admitted id, act_reserve (Some r) => Some (ph_metered id (reservation_named r))
  | ph_metered id r, act_lookup hit => Some (if hit then ph_ending id r else p)
  | ph_metered id r, act_upstream => Some (ph_called id r)
  | ph_called id r, act_store _ => Some p
  | _, act_settle reservation event =>
      match open_phase p with
      | Some (id, Some r) => if bool_decide (r = reservation ∧ e_EventID event = id) then Some (ph_settled id event) else None
      | _ => None
      end
  | ph_settled id event, act_emit event' => if bool_decide (event = event') then Some (ph_done id event) else None
  | _, act_emit event =>
      match open_phase p with
      | Some (id, None) => if bool_decide (e_EventID event = id) then Some (ph_done id event) else None
      | _ => None
      end
  | _, _ => None
  end.

Definition run_phases (log : list Act) : option Phase := foldl (λ p a, p ≫= λ p, phase_step p a) (Some ph_start) log.

(** ** What is gathered is valid *)

(** The route, blanked: its names come from the configuration, which does not bound them. *)
Definition blank (c : Collector) : Collector :=
  SetRoute "" "" (e_Attempts (col_event c)) (e_Retries (col_event c)) (e_Fallbacks (col_event c)) c.

Definition gathering (stream : bool) (now : Time) (c : Collector) : Prop :=
  ∀ t, now ≤ t → collecting stream t (blank c).

Definition route_short (event : UsageEvent) : Prop := str_len (e_ProviderID event) ≤ 100 ∧ str_len (e_UpstreamModel event) ≤ 200.

(** An answer from the cache that could not be represented. *)
Definition hit_unrepresentable (event : UsageEvent) : Prop := e_CacheStatus event = "hit"%string ∧ e_Status event = StatusFailed.

(** A cancellation that was reported without a code. *)
Definition uncoded (event : UsageEvent) : Prop := e_Status event = StatusCanceled ∧ e_ErrorCode event = ""%string.

(** [strict]: cancellations have codes. *)
Definition event_fine (strict : bool) (event : UsageEvent) : Prop :=
  route_short event → ¬ hit_unrepresentable event → (strict = false → ¬ uncoded event) → Event_Validate event = None.

(** What the handlers report at the end, when [hit] says that the answer came from the cache. *)
Record outcome_fine (strict stream hit : bool) (outcome : UsageOutcome) : Prop := {
  of_status : validUsageStatus (uo_Status outcome) = true;
  of_category : str_len (uo_ErrorCategory outcome) ≤ 64;
  of_code : str_len (uo_ErrorCode outcome) ≤ 100;
  of_failed : failedStatus (uo_Status outcome) = true → uo_ErrorCategory outcome ≠ ""%string ∧
    (uo_ErrorCode outcome ≠ ""%string ∨ strict = false ∧ uo_Status outcome = StatusCanceled);
  of_hit : uo_Status outcome = StatusCacheHit → hit = true ∧ stream = false;
  of_replayed : hit = true → uo_Status outcome = StatusCacheHit ∨ uo_Status outcome = StatusFailed;
  of_stream : uo_Status outcome = StatusStreamCompleted ∨ uo_Status outcome = StatusStreamInterrupted → stream = true;
}.

Lemma gathering_later stream now now' c : now ≤ now' → gathering stream now c → gathering stream now' c.
Proof. intros Hle Hg t Ht. apply Hg. lia. Qed.

Lemma gathering_open stream now c : gathering stream now c → col_finalized c = false.
Proof.
  intros Hg. pose proof (cg_open _ _ _ (Hg now ltac:(lia))) as Ho. unfold blank, SetRoute in Ho.
  by destruct c as [[] []].
Qed.

Section gathering.
Context `{Unicode, UnicodeUpper}.

Lemma newEvent_gathering input id now c :
  NewCollector input (Some id) now = Ok c → validRequiredText id 64 = true → 0 < or_now (ni_StartedAt input) now →
  gathering (ni_Stream input) now c.
Proof.
  intros Hn Hid Hs t _. pose proof (newEvent_collecting _ _ _ _ t Hn Hid Hs) as Hc.
  apply (run_op_collecting _ _ c (OpRoute "" "" _ _ _)); [|done].
  pose proof (cg_counters _ _ _ Hc). unfold op_ok, str_len. cbn [String.length]. lia.
Qed.

Lemma blank_op c op :
  blank (run_op c op) =
  match op with OpRoute _ _ a r f => run_op (blank c) (OpRoute "" "" a r f) | _ => run_op (blank c) op end.
Proof.
  destruct c as [[] [|]], op; cbn; try done.
  - unfold SetCacheStatus. cbn. by destruct (negb _).
  - unfold blank, ObserveResponse, observe. cbn. by destruct (md_usage _), e_Usage.
  - unfold blank, ObserveStreamResponse, observe. cbn. by destruct (md_usage _), e_Usage.
Qed.

Lemma gathering_op stream now c op :
  match op with
  | OpRoute _ _ a r f => 0 ≤ a ∧ 0 ≤ r ∧ 0 ≤ f
  | OpStreamResponse _ observed at_ => stream = true ∧ or_now observed at_ ≤ now
  | OpCacheStatus status => validCacheStatus (ToLower (TrimSpace status)) = true
  | OpResponse _ => True
  end → gathering stream now c → gathering stream now (run_op c op).
Proof.
  intros Hop Hg t Ht. rewrite blank_op. destruct op; apply run_op_collecting; try by apply Hg.
  - by right.
  - unfold op_ok, str_len. cbn [String.length]. lia.
  - done.
  - destruct Hop. split; [done|lia].
Qed.
End gathering.

Lemma collecting_unblank stream t c :
  route_short (col_event c) → collecting stream t (blank c) → collecting stream t c.
Proof. intros [Hp Hu] Hc. destruct c as [[] [|]]; [by destruct (cg_open _ _ _ Hc)|]. destruct Hc. constructor; cbn in *; done. Qed.

Lemma outcome_fine_ok strict stream hit cache outcome :
  outcome_fine strict stream hit outcome → (cache = "hit"%string ↔ hit = true) →
  ¬ (cache = "hit"%string ∧ uo_Status outcome = StatusFailed) →
  (strict = false → ¬ (uo_Status outcome = StatusCanceled ∧ uo_ErrorCode outcome = ""%string)) → outcome_ok stream cache outcome.
Proof.
  intros [H1' H2' H3' H4' H5' H6' H7'] Hhit Hnot Hcode. constructor; try done.
  - intros Hf. destruct (H4' Hf) as [Hc [Hn|[Hs Hst]]]; [done|]. split; [done|]. intros Hz. by apply (Hcode Hs).
  - rewrite Hhit. split; [intros Hs; apply H5', Hs|]. intros Hh. destruct (H6' Hh); [done|]. exfalso. apply Hnot. by rewrite Hhit.
  - apply H5'.
Qed.

Lemma finalize_fine strict stream hit now outcome c :
  gathering stream now c → outcome_fine strict stream hit outcome → uo_EndedAt outcome = time_zero →
  (e_CacheStatus (col_event c) = "hit"%string ↔ hit = true) →
  ∃ event c', Finalize outcome now c = (Some event, c') ∧ e_EventID event = e_EventID (col_event c) ∧ event_fine strict event.
Proof.
  intros Hg Ho Hz Hhit. pose proof (gathering_open _ _ _ Hg) as Hopen. unfold Finalize. rewrite Hopen.
  eexists _, _. split; [done|]. split; [by destruct c as [[] ?]|]. intros Hshort Hnot Hcode.
  destruct (finalize_valid stream outcome now c) as (event & c' & Hf & _ & _ & Hv & _).
  - apply collecting_unblank; [by destruct c as [[] ?]|]. apply Hg. unfold or_now. rewrite Hz. cbn. lia.
  - eapply outcome_fine_ok; [done|done| |].
    + intros [Hc Hs]. apply Hnot. by destruct c as [[] ?].
    + intros Hs Hu. apply (Hcode Hs). by destruct c as [[] ?].
  - unfold Finalize in Hf. rewrite Hopen in Hf. by injection Hf as <- _.
Qed.

(** ** Reasoning about handlers *)

Definition reservation_of (s : usageSession) : option string :=
  if us_quota s then reservation_named (us_reservationID s) else None.

(** A session for the event [id] at the time [now]. *)
Definition session_fine (strict stream hit : bool) (id : string) (now : Time) (s : usageSession) : Prop :=
  us_eventID s = id ∧
  match us_event s with
  | None => gathering stream now (us_collector s) ∧ e_EventID (col_event (us_collector s)) = id ∧
            (e_CacheStatus (col_event (us_collector s)) = "hit"%string ↔ hit = true)
  | Some event => e_EventID event = id ∧ event_fine strict event
  end.

(** The error code that was noted fits into an event. *)
Definition code_short (c : Gin) : Prop := str_len (gc_errorCode c) ≤ 100.

Create HintDb short.

Lemma short_error e c : str_len (ae_Code e) ≤ 100 → code_short (writeAPIError e c).
Proof. done. Qed.
Lemma short_header name value c : code_short c → code_short (set_header name value c).
Proof. done. Qed.
Lemma short_write w c : code_short c → code_short (write w c).
Proof. done. Qed.
#[local] Hint Resolve short_error short_header short_write : short.

Lemma failure_error_code f : ae_Code (failure_error f) ≠ ""%string ∧ str_len (ae_Code (failure_error f)) ≤ 100.
Proof. unfold failure_error. repeat case_match; vm_compute; split; congruence. Qed.
Lemma short_reliability f done c : code_short c → code_short (writeReliabilityError f done c).
Proof.
  intros Hc. unfold writeReliabilityError. destruct (_ && _); [done|]. apply short_error, failure_error_code.
Qed.
Lemma category_text_short c : category_text c ≠ ""%string ∧ str_len (category_text c) ≤ 64.
Proof. destruct c; vm_compute; split; congruence. Qed.
#[local] Hint Resolve short_reliability : short.

Section handlers.
Context {S : Type}.
Implicit Type h : HState S.

Abbreviation now_of h := (w_now (st_world (hs_st h))).
Abbreviation tick_of h := (w_tick (st_world (hs_st h))).

Definition hwp {A} (m : HM S A) h (Q : A → HState S → Prop) : Prop := Q (m h).1 (m h).2.

Lemma hwp_ret {A} (a : A) h Q : Q a h → hwp (mret a) h Q.
Proof. done. Qed.
Lemma hwp_bind {A B} (m : HM S A) (f : A → HM S B) h Q :
  hwp m h (λ a h', hwp (f a) h' Q) → hwp (mbind f m) h Q.
Proof. unfold hwp, mbind, HM_bind. by destruct (m h). Qed.
Lemma hwp_mono {A} (m : HM S A) h (Q R : A → HState S → Prop) : hwp m h Q → (∀ a h', Q a h' → R a h') → hwp m h R.
Proof. unfold hwp. auto. Qed.

Lemma hwp_and {A} (m : HM S A) h (Q R : A → HState S → Prop) : hwp m h Q → hwp m h R → hwp m h (λ a h', Q a h' ∧ R a h').
Proof. done. Qed.

(** Computations that leave the session, the log and the resources alone. *)
Record unchanged h h' : Prop := {
  un_session : hs_session h' = hs_session h;
  un_log : hs_log h' = hs_log h;
  un_events : st_events (hs_st h') = st_events (hs_st h);
  un_now : now_of h ≤ now_of h';
  un_tick : (tick_of h ≤ tick_of h')%nat;
  un_code : code_short (hs_gin h) → code_short (hs_gin h');
}.
Definition quiet {A} (m : HM S A) : Prop := ∀ h, unchanged h (m h).2.

Lemma unchanged_refl h : unchanged h h.
Proof. by split. Qed.
Lemma unchanged_trans h1 h2 h3 : unchanged h1 h2 → unchanged h2 h3 → unchanged h1 h3.
Proof. intros [] []. split; try congruence; try lia; auto. Qed.

Lemma quiet_ret {A} (a : A) : quiet (mret a).
Proof. intros h. apply unchanged_refl. Qed.
Lemma quiet_bind {A B} (m : HM S A) (f : A → HM S B) : quiet m → (∀ a, quiet (f a)) → quiet (mbind f m).
Proof.
  intros Hm Hf h. unfold mbind, HM_bind. specialize (Hm h). destruct (m h) as [a h'].
  eapply unchanged_trans; [exact Hm|apply Hf].
Qed.
Lemma quiet_serve {A} (f : S → A * S) : quiet (serve f).
Proof. intros h. unfold serve. destruct (f _). by split. Qed.
Lemma quiet_answer f : (∀ c, code_short c → code_short (f c)) → quiet (answer f).
Proof. intros Hf h. split; try done. apply Hf. Qed.
Lemma quiet_get_gin : quiet get_gin.
Proof. intros h. apply unchanged_refl. Qed.
Lemma quiet_get_session : quiet get_session.
Proof. intros h. apply unchanged_refl. Qed.

Lemma hwp_quiet {A} (m : HM S A) h Q : quiet m → (∀ a h', unchanged h h' → Q a h') → hwp m h Q.
Proof. intros Hm HQ. apply HQ, Hm. Qed.

Context `{Env ChatRequest string}.

Lemma quiet_time : quiet time_now.
Proof.
  intros h. unfold time_now, lift, time_Now, op. split; cbn; try done; [by rewrite app_nil_r|lia|lia].
Qed.
Lemma hwp_time h (Q : Time → HState S → Prop) : (∀ h', unchanged h h' → Q (now_of h') h') → hwp time_now h Q.
Proof. intros HQ. exact (HQ _ (quiet_time h)). Qed.
Lemma quiet_client_err ctx : quiet (client_err ctx).
Proof. apply quiet_bind; [apply quiet_time|]. intros. apply quiet_ret. Qed.

(** ** The state of a request that is metered *)

Context {since : Time} {strict : bool}.

(** It began at [since] or later. *)
Record running (stream hit : bool) (id : string) (res : option string) (events0 : list Event) (held : Held) (p : Phase) h : Prop := {
  lv_phase : run_phases (hs_log h) = Some p;
  lv_session : ∃ s, hs_session h = Some s ∧ session_fine strict stream hit id (now_of h) s ∧ reservation_of s = res;
  lv_held : ∃ es, st_events (hs_st h) = events0 ++ es ∧ replay holds_nothing es = Some held;
  lv_code : code_short (hs_gin h);
  lv_since : since ≤ now_of h;
}.

Lemma session_fine_later stream hit id now now' s : now ≤ now' → session_fine strict stream hit id now s → session_fine strict stream hit id now' s.
Proof.
  intros Hle [Hid Hs]. split; [done|]. destruct (us_event s); [done|]. destruct Hs as (Hg & ?). split; [|done].
  by eapply gathering_later.
Qed.

Lemma live_unchanged stream hit id res ev held p h h' : unchanged h h' → running stream hit id res ev held p h → running stream hit id res ev held p h'.
Proof.
  intros [] [Hp (s & Hs & Hf & Hr) Hh]. split; [by rewrite un_log0| |by rewrite un_events0|auto|lia].
  exists s. rewrite un_session0. split_and!; [done|by eapply session_fine_later|done].
Qed.

Lemma run_phases_snoc l a : run_phases (l ++ [a]) = run_phases l ≫= λ p, phase_step p a.
Proof. unfold run_phases. by rewrite foldl_app. Qed.

Lemma live_log stream hit id res ev held p p' a h :
  phase_step p a = Some p' → running stream hit id res ev held p h → running stream hit id res ev held p' (log a h).2.
Proof. intros Hs [Hp ? ? ? ?]. split; [|done..]. cbn [log hs_log snd]. by rewrite run_phases_snoc, Hp. Qed.

Lemma hwp_log stream hit id res ev held p p' a h (Q : () → HState S → Prop) :
  running stream hit id res ev held p h → phase_step p a = Some p' →
  (∀ h', running stream hit id res ev held p' h' → Q () h') → hwp (log a) h Q.
Proof. intros Hl Hs HQ. apply HQ. by eapply live_log. Qed.

Lemma live_update stream hit hit' id res res' ev held p f h :
  (∀ s, session_fine strict stream hit id (now_of h) s → reservation_of s = res →
    session_fine strict stream hit' id (now_of h) (f s) ∧ reservation_of (f s) = res') →
  running stream hit id res ev held p h → running stream hit' id res' ev held p (update_session f h).2.
Proof.
  intros Hf [Hp (s & Hs & Hsf & Hr) Hh]. split; [done| |done|done|done]. exists (f s). cbn [update_session snd hs_session hs_st].
  rewrite Hs. destruct (Hf s Hsf Hr). done.
Qed.

(** What was run upstream changes what is held. *)
Lemma hwp_lift {A} (m : M A) stream hit id res ev held p h (R : A → list Event → St → Prop) (Q : A → HState S → Prop) :
  running stream hit id res ev held p h → wp m (hs_st h) R →
  (∀ a es st', R a es st' → ∀ held', replay held es = Some held' →
     ∀ h', running stream hit id res ev held' p h' → Q a h') →
  (∀ a es st', R a es st' → is_Some (replay held es)) → hwp (lift m) h Q.
Proof.
  intros [Hp (s & Hs & Hsf & Hr) (es0 & He0 & Hr0) Hcode Hsince] (a & es & st' & Hm & He & Hn & HR) HQ Hsome.
  destruct (Hsome a es st' HR) as [held' Hh']. unfold hwp, lift. rewrite Hm. cbn [fst snd].
  apply (HQ a es st' HR held' Hh'). split; cbn [hs_log hs_session hs_st hs_gin]; [done| | |done|lia].
  - exists s. split_and!; [done| |done]. by eapply session_fine_later.
  - exists (es0 ++ es). rewrite He, He0, app_assoc. split; [done|]. by rewrite replay_app, Hr0.
Qed.
End handlers.

(** ** The steps of the handlers *)

Section steps.
Context {S : Type} `{GatewayServices S, ClientConnection S}.
Context `{Env ChatRequest string, StreamEnv ChatRequest, UpstreamReads, Unicode, UnicodeUpper, HTTPDates}.
Context (protocol : option (ResponseProtocol S)) (ctx : Ctx) (since : Time) (strict : bool).

Abbreviation live := (@running S since strict).
Implicit Types (h : HState S) (Q : () → HState S → Prop).

Lemma quiet_encode body : quiet (encodeProtocolResponse protocol body).
Proof. unfold encodeProtocolResponse. destruct protocol; [apply quiet_serve|apply quiet_ret]. Qed.
Lemma quiet_deadline d : quiet (chatSetDeadline d).
Proof. apply quiet_bind; [apply quiet_serve|]. intros. apply quiet_ret. Qed.
Lemma quiet_write_event event : quiet (writeProtocolStream protocol event).
Proof.
  unfold writeProtocolStream. destruct protocol.
  - apply quiet_bind; [apply quiet_serve|]. intros [e frames]. apply quiet_bind; [|intros; apply quiet_ret].
    apply quiet_answer. intros c Hc. revert c Hc. induction frames as [|f frames IH]; intros c Hc; [done|]. by apply IH.
  - destruct (stream_frame event); [|apply quiet_ret]. apply quiet_bind; [apply quiet_serve|]. intros.
    apply quiet_bind; [by apply quiet_answer|]. intros. apply quiet_ret.
Qed.
Lemma quiet_flush event : quiet (writeAndFlush protocol event).
Proof.
  apply quiet_bind; [apply quiet_time|]. intros now. apply quiet_bind; [apply quiet_deadline|]. intros [e|]; [apply quiet_ret|].
  apply quiet_bind; [apply quiet_write_event|]. intros [e|].
  { apply quiet_bind; [apply quiet_deadline|]. intros. apply quiet_ret. }
  apply quiet_bind; [apply quiet_serve|]. intros [e|]; [|apply quiet_deadline].
  apply quiet_bind; [apply quiet_deadline|]. intros. apply quiet_ret.
Qed.

Lemma quiet_fail e : str_len (ae_Code e) ≤ 100 → quiet (S := S) (fail e).
Proof. intros He. by apply quiet_answer. Qed.

Section live.
Context (stream : bool) (id : string) (ev : list Event).

Lemma hwp_live {A} (m : HM S A) hit res held p h (Q : A → HState S → Prop) :
  quiet m → live stream hit id res ev held p h → (∀ a h', live stream hit id res ev held p h' → Q a h') → hwp m h Q.
Proof. intros Hm Hl HQ. apply hwp_quiet; [done|]. intros a h' Hu. apply HQ. by eapply live_unchanged. Qed.

(** What the collector is told. *)
Lemma hwp_collect op hit hit' res held p h Q :
  live stream hit id res ev held p h →
  match op with
  | OpRoute _ _ a r f => hit' = hit ∧ 0 ≤ a ∧ 0 ≤ r ∧ 0 ≤ f
  | OpStreamResponse _ observed at_ => hit' = hit ∧ stream = true ∧ or_now observed at_ ≤ w_now (st_world (hs_st h))
  | OpCacheStatus status => validCacheStatus (ToLower (TrimSpace status)) = true ∧ (ToLower (TrimSpace status) = "hit"%string ↔ hit' = true)
  | OpResponse _ => hit' = hit
  end →
  (∀ h', live stream hit' id res ev held p h' → Q () h') → hwp (update_session (with_collector (λ c, run_op c op))) h Q.
Proof.
  intros Hl Hop HQ. apply HQ. eapply live_update; [|exact Hl]. intros s [Hid Hs] Hr. split; [|done]. split; [done|].
  cbn [with_collector us_event us_collector]. destruct (us_event s); [done|]. destruct Hs as (Hg & He & Hh).
  pose proof (gathering_open _ _ _ Hg) as Hopen. split_and!.
  - apply gathering_op; [|done]. destruct op; naive_solver.
  - rewrite <-He. destruct (us_collector s) as [[] b], op; cbn in Hopen; subst b; cbn; try done.
    + unfold SetCacheStatus. cbn. by destruct (_ =? "")%string.
    + unfold ObserveResponse, observe. cbn. by destruct (md_usage _), e_Usage.
    + unfold ObserveStreamResponse, observe. cbn. by destruct (md_usage _), e_Usage.
  - destruct (us_collector s) as [[] b], op; cbn in Hopen, Hh, Hop; subst b; cbn.
    + unfold SetCacheStatus. cbn. destruct Hop as [Hv Hop]. destruct (String.eqb_spec (ToLower (TrimSpace status)) "") as [Heq|]; [|done].
      rewrite Heq in Hv. done.
    + by destruct Hop as [-> _].
    + subst hit'. unfold ObserveResponse, observe. cbn. by destruct (md_usage _), e_Usage.
    + destruct Hop as [-> _]. unfold ObserveStreamResponse, observe. cbn. by destruct (md_usage _), e_Usage.
Qed.

Lemma hwp_setCacheStatus status hit res held p h Q :
  live stream hit id res ev held p h →
  (∀ h', live stream (match status with StatusHit => true | _ => false end) id res ev held p h' → Q () h') →
  hwp (setCacheStatus status) h Q.
Proof. intros Hl HQ. eapply (hwp_collect (OpCacheStatus (status_text status))); [exact Hl| |exact HQ]. by destruct status. Qed.

Lemma hwp_observe body hit res held p h Q :
  live stream hit id res ev held p h → (∀ h', live stream hit id res ev held p h' → Q () h') → hwp (session_observe body) h Q.
Proof. intros Hl HQ. by eapply (hwp_collect (OpResponse body)). Qed.

Lemma hwp_route p' m a t f hit res held p h Q :
  live stream hit id res ev held p h → 0 ≤ a → 0 ≤ f → (∀ h', live stream hit id res ev held p h' → Q () h') →
  hwp (setRoute p' m a t f) h Q.
Proof.
  intros Hl Ha Hf HQ. eapply (hwp_collect (OpRoute p' m a (retriesFromTrail t) f)); [exact Hl| |exact HQ].
  unfold retriesFromTrail. split_and!; [done|done|lia|done].
Qed.

Definition ready h : Prop := ∃ s event, hs_session h = Some s ∧ us_event s = Some event.

Lemma hwp_finalize outcome hit res held p h Q :
  live stream hit id res ev held p h → outcome_fine strict stream hit outcome → uo_EndedAt outcome = time_zero →
  (∀ h', (∀ hit', live stream hit' id res ev held p h') → ready h' → Q () h') → hwp (finalize outcome) h Q.
Proof.
  intros Hl Ho Hz HQ. apply hwp_bind, hwp_time. intros h1 Hu. apply (live_unchanged _ _ _ _ _ _ _ _ _ Hu) in Hl.
  assert (∀ s, session_fine strict stream hit id (w_now (st_world (hs_st h1))) s → ∃ event,
    us_event (finalize_session outcome (w_now (st_world (hs_st h1))) s) = Some event ∧ e_EventID event = id ∧ event_fine strict event ∧
    us_eventID (finalize_session outcome (w_now (st_world (hs_st h1))) s) = id ∧
    reservation_of (finalize_session outcome (w_now (st_world (hs_st h1))) s) = reservation_of s) as Hclose.
  { intros s [Hid Hs]. unfold finalize_session. destruct (us_event s) as [event|] eqn:He; [exists event; rewrite He; destruct Hs; done|].
    destruct Hs as (Hg & Hev & Hh). destruct (finalize_fine strict stream hit (w_now (st_world (hs_st h1))) outcome (us_collector s))
      as (event & c' & Hf & Hid' & Hfine); [done..|]. rewrite Hf. exists event. cbn. split_and!; try done. congruence. }
  apply HQ.
  - intros hit'. eapply live_update; [|exact Hl]. intros s Hs Hr. destruct (Hclose s Hs) as (event & He & Hid & Hf & Hi & Hrs).
    split; [|congruence]. split; [done|]. by rewrite He.
  - destruct (lv_session _ _ _ _ _ _ _ _ Hl) as (s & Hs & Hsf & _). destruct (Hclose s Hsf) as (event & He & _).
    eexists _, event. cbn [update_session snd hs_session]. by rewrite Hs.
Qed.

Lemma hwp_observeStream body hit res held p h Q :
  live stream hit id res ev held p h → stream = true →
  (∀ h', live stream hit id res ev held p h' → (w_tick (st_world (hs_st h)) ≤ w_tick (st_world (hs_st h')))%nat → Q () h') →
  hwp (observeStream body) h Q.
Proof.
  intros Hl Hs HQ. apply hwp_bind, hwp_time. intros h1 Hu. apply (live_unchanged _ _ _ _ _ _ _ _ _ Hu) in Hl.
  eapply hwp_mono; [apply (hwp_and _ _ (λ _ h', live stream hit id res ev held p h')
    (λ _ h', (w_tick (st_world (hs_st h)) ≤ w_tick (st_world (hs_st h')))%nat))|].
  - eapply (hwp_collect (OpStreamResponse body _ _)); [exact Hl| |by auto].
    split_and!; [done|done|]. unfold or_now. case_match; lia.
  - apply Hu.
  - cbn beta. intros [] h' [Hl' Ht]. by apply HQ.
Qed.

(** The request can be closed: what it has reserved is in the session. *)
Definition closable h : Prop := ∃ p res, live stream false id res ev holds_nothing p h ∧ open_phase p = Some (id, res).

(** The request is closed: its event is the last thing that was emitted. *)
Definition closed h : Prop :=
  ∃ event, run_phases (hs_log h) = Some (ph_done id event) ∧ event_fine strict event ∧
    ∃ es, st_events (hs_st h) = ev ++ es ∧ replay holds_nothing es = Some holds_nothing.

Lemma unfinished_fine code done : str_len code ≤ 100 → outcome_fine strict stream false (unfinished_outcome code done).
Proof.
  intros Hc. unfold unfinished_outcome. destruct done; cbn [andb]; destruct (String.eqb_spec code "");
    (constructor; cbn [outcome_of uo_Status uo_ErrorCategory uo_ErrorCode]; [done|done| |intros _; split; [done|left]|done|done|by intros []]);
    try done; by destruct (String.eqb_spec code "").
Qed.

Lemma settle_step p res r event :
  open_phase p = Some (id, res) → res = Some r → e_EventID event = id → phase_step p (act_settle r event) = Some (ph_settled id event).
Proof. intros Hp -> He. destruct p; simplify_eq/=; by rewrite bool_decide_true. Qed.
Lemma emit_step p event :
  open_phase p = Some (id, None) → e_EventID event = id → phase_step p (act_emit event) = Some (ph_done id event).
Proof. intros Hp He. destruct p; simplify_eq/=; by rewrite bool_decide_true. Qed.

Lemma deliver_closes s event res p h :
  live stream false id res ev holds_nothing p h → open_phase p = Some (id, res) → hs_session h = Some s → us_event s = Some event →
  hwp (deliver s event) h (λ _, closed).
Proof.
  intros Hl Ho Hs He. pose proof Hl as [_ (s' & Hs' & [_ Hf] & Hr) _ _]. rewrite Hs in Hs'. injection Hs' as <-. rewrite He in Hf. destruct Hf as [Hid Hfine].
  apply hwp_bind. unfold reservation_of, reservation_named in Hr.
  assert (∀ h1 p1, live stream false id res ev holds_nothing p1 h1 → phase_step p1 (act_emit event) = Some (ph_done id event) →
    hwp (_ ← serve (sv_Emit event); log (act_emit event)) h1 (λ _, closed)) as Hend.
  { intros h1 p1 Hl1 Hstep. apply hwp_bind, (hwp_live _ false res holds_nothing p1); [apply quiet_serve|done|]. intros r h2 Hl2.
    eapply hwp_log; [done|done|]. intros h3 [Hp _ Hh _]. by exists event. }
  destruct (us_quota s); [destruct (String.eqb_spec (us_reservationID s) "") as [Hz|Hz]|]; cbn [andb negb].
  - apply hwp_ret. eapply Hend; [done|]. apply emit_step; congruence.
  - apply hwp_bind, (hwp_live _ false res holds_nothing p); [apply quiet_serve|done|]. intros r h1 Hl1.
    eapply hwp_log; [done|by eapply settle_step|]. intros h2 Hl2. eapply Hend; [done|]. cbn. by rewrite bool_decide_true.
  - apply hwp_ret. eapply Hend; [done|]. apply emit_step; congruence.
Qed.

Lemma finish_closes h : closable h → hwp (finish ctx) h (λ _, closed).
Proof.
  intros (p & res & Hl & Ho). apply hwp_bind. unfold hwp at 1. cbn [get_session fst snd].
  destruct (lv_session _ _ _ _ _ _ _ _ Hl) as (s & Hs & Hsf & _). rewrite Hs. apply hwp_bind.
  assert (∀ h1, live stream false id res ev holds_nothing p h1 → ready h1 →
    hwp (s ← get_session; match s with
         | Some s => match us_event s with Some event => deliver s event | None => mret () end
         | None => mret () end) h1 (λ _, closed)) as Hend.
  { intros h1 Hl1 (s1 & event & Hs1 & He1). apply hwp_bind. unfold hwp at 1. cbn [get_session fst snd]. rewrite Hs1, He1.
    by eapply deliver_closes. }
  destruct (us_event s) as [event|] eqn:He; [apply hwp_ret, Hend; [done|by exists s, event]|].
  apply hwp_bind. unfold hwp at 1. cbn [get_gin fst snd].
  apply hwp_bind, (hwp_live _ false res holds_nothing p); [apply quiet_client_err|done|]. intros e h1 Hl1.
  eapply hwp_finalize; [done|apply unfinished_fine, (lv_code _ _ _ _ _ _ _ _ Hl)|done|]. intros h2 Hl2 Hr2. by apply Hend.
Qed.

(** ** Failures of the execution *)

Lemma fail_execution_live failure code res p h :
  live stream false id res ev holds_nothing p h → 0 ≤ f_TotalAttempts failure → 0 ≤ f_Fallbacks failure →
  code ≠ ""%string ∨ strict = false → str_len code ≤ 100 →
  hwp (fail_execution ctx failure code) h (λ _, live stream false id res ev holds_nothing p).
Proof.
  intros Hl Ha Hf Hne Hlen. apply hwp_bind. eapply hwp_route; [done..|]. intros h1 Hl1. apply hwp_bind.
  assert (∀ done (h2 : HState S), live stream false id res ev holds_nothing p h2 →
    (f_Category failure ≠ CategoryCanceled → done = false) →
    hwp (_ ← answer (writeReliabilityError failure done); c ← get_gin;
         finalize (outcome_of (if bool_decide (f_Category failure = CategoryCanceled) then StatusCanceled else StatusFailed)
           (category_text (f_Category failure))
           (if bool_decide (f_Category failure = CategoryCanceled) && (gc_errorCode c =? "")%string then code else gc_errorCode c))) h2
      (λ _, live stream false id res ev holds_nothing p)) as Hend.
  { intros over h2 Hl2 Hover. apply hwp_bind. set (h3 := (answer (S := S) (writeReliabilityError failure over) h2).2).
    assert (live stream false id res ev holds_nothing p h3) as Hl3.
    { eapply live_unchanged; [|exact Hl2]. apply quiet_answer. intros c. apply short_reliability. }
    apply hwp_bind. unfold hwp at 1. cbn [get_gin fst snd]. pose proof (category_text_short (f_Category failure)) as [Hc Hcl].
    pose proof (lv_code _ _ _ _ _ _ _ _ Hl3) as Hcode. pose proof (failure_error_code failure) as [Hfe Hfl].
    eapply hwp_finalize; [exact Hl3| |done|by auto].
    constructor; cbn [outcome_of uo_Status uo_ErrorCategory uo_ErrorCode]; [by case_bool_decide|done| |intros _; split; [done|]|by case_bool_decide|done|by case_bool_decide; intros []].
    - by destruct (_ && _).
    - destruct (_ && _) eqn:Hb.
      { apply andb_true_iff in Hb as [Hb _]. rewrite Hb. destruct Hne; [by left|by right]. }
      left. intros Hz. unfold h3 in *. cbn [answer snd hs_gin] in *. rewrite Hz in Hb. cbn in Hb. rewrite andb_true_r in Hb.
      apply bool_decide_eq_false in Hb. rewrite (Hover Hb) in Hz. unfold writeReliabilityError in Hz. rewrite andb_false_r in Hz. done. }
  case_bool_decide as Hcat.
  - apply hwp_bind, (hwp_live _ false res holds_nothing p); [apply quiet_client_err|done|]. intros e h2 Hl2. apply hwp_ret. by apply Hend.
  - apply hwp_ret. by apply Hend.
Qed.

(** ** The execution *)

Lemma report_attempts_nonneg {Payload} (rs : list (Report Payload)) :
  Forall (λ r, trail_ok (rep_candidate r) (r_Attempts (rep_result r)) (r_Trail (rep_result r))) rs → 0 ≤ report_attempts rs.
Proof.
  intros Hr. unfold report_attempts. induction Hr as [|r rs [Hl _ _] _ IH]; [done|]. rewrite sumZ_cons. lia.
Qed.

Lemma orchestrated_totals {Payload} held_by (good : Payload → Prop) max cs answer es :
  orchestrated held_by good max cs answer es →
  match answer with
  | Ok x => 0 ≤ x_Attempts x ∧ 0 ≤ x_Fallbacks x
  | Err f => 0 ≤ f_TotalAttempts f ∧ 0 ≤ f_Fallbacks f
  end.
Proof.
  intros [(before & last & [_ _ Ht Ha]) _ _ _ _]. apply report_attempts_nonneg in Ht. destruct answer as [x|f].
  - destruct Ha as (_ & _ & _ & _ & _ & -> & _ & -> & _). lia.
  - destruct Ha as (f0 & _ & -> & _ & -> & _). lia.
Qed.

Context (orchestrator : Orchestrator) (fuel : nat).
Hypothesis Hset : ∀ st, since ≤ w_now (st_world st) → orchestration orchestrator ctx fuel st.

Lemma hwp_Execute input res p h (Q : option (result Failure (ExecutionResult string)) → HState S → Prop) :
  live stream false id res ev holds_nothing p h →
  (∀ x h', live stream false id res ev holds_nothing p h' → 0 ≤ x_Attempts x → 0 ≤ x_Fallbacks x → Q (Some (Ok x)) h') →
  (∀ f h', live stream false id res ev holds_nothing p h' → 0 ≤ f_TotalAttempts f → 0 ≤ f_Fallbacks f → Q (Some (Err f)) h') →
  hwp (lift (Orchestrator_Execute orchestrator fuel ctx input)) h Q.
Proof.
  intros Hl Hok Herr. destruct (decide (plan_Candidates (xin_Plan input) = [])) as [Hnil|Hne].
  - eapply (hwp_lift _ _ _ _ _ _ _ _ _ (λ r es _, r = Some (Err no_route) ∧ es = [])); [exact Hl| | |].
    + unfold Orchestrator_Execute. rewrite bool_decide_true by done. by apply wp_ret.
    + intros a es st' [-> ->] held' [= <-] h' Hl'. by apply Herr.
    + by intros a es st' [_ ->].
  - eapply hwp_lift; [exact Hl|apply Orchestrator_Execute_spec; [apply Hset, Hl|done]| |]; cbn beta.
    + intros a es st' (answer & -> & Hans) held' Hr h' Hl'. rewrite (oc_held _ _ _ _ _ _ Hans) in Hr.
      pose proof (orchestrated_totals _ _ _ _ _ _ Hans) as Ht. destruct answer as [x|f]; destruct Ht as [Hta Htf].
      * destruct (oc_success _ _ _ _ _ _ Hans x eq_refl) as (b & Hb & _). rewrite Hb in Hr. injection Hr as <-. by apply Hok.
      * injection Hr as <-. by apply Herr.
    + intros a es st' (answer & _ & Hans). rewrite (oc_held _ _ _ _ _ _ Hans). by destruct answer.
Qed.

Lemma hwp_OpenStream input res p h (Q : option (result Failure PreparedStream) → HState S → Prop) :
  live stream false id res ev holds_nothing p h →
  (∀ s h', live stream false id res ev (stream_holds s) p h' → stream_fresh s → 0 ≤ ps_Attempts s → 0 ≤ ps_Fallbacks s → Q (Some (Ok s)) h') →
  (∀ f h', live stream false id res ev holds_nothing p h' → 0 ≤ f_TotalAttempts f → 0 ≤ f_Fallbacks f → Q (Some (Err f)) h') →
  hwp (lift (OpenStream orchestrator fuel ctx input)) h Q.
Proof.
  intros Hl Hok Herr. destruct (decide (plan_Candidates (xin_Plan input) = [])) as [Hnil|Hne].
  - eapply (hwp_lift _ _ _ _ _ _ _ _ _ (λ r es _, r = Some (Err no_route) ∧ es = [])); [exact Hl| | |].
    + unfold OpenStream. rewrite bool_decide_true by done. by apply wp_ret.
    + intros a es st' [-> ->] held' [= <-] h' Hl'. by apply Herr.
    + by intros a es st' [_ ->].
  - eapply hwp_lift; [exact Hl|apply OpenStream_spec; [apply Hset, Hl|done]| |]; cbn beta.
    + intros a es st' (answer & -> & x & Hans & Hm) held' Hr h' Hl'. rewrite (oc_held _ _ _ _ _ _ Hans) in Hr.
      pose proof (orchestrated_totals _ _ _ _ _ _ Hans) as Ht. destruct answer as [s|f], x as [x|f']; try done; destruct Ht as [Hta Htf].
      * destruct Hm as (s0 & Hs0 & ->). destruct (oc_success _ _ _ _ _ _ Hans x eq_refl) as (s1 & Hs1 & Hfresh).
        rewrite Hs0 in Hs1, Hr. injection Hs1 as <-. injection Hr as <-. by apply Hok.
      * subst f'. injection Hr as <-. by apply Herr.
    + intros a es st' (answer & _ & x & Hans & _). rewrite (oc_held _ _ _ _ _ _ Hans). by destruct x.
Qed.

(** ** The cache *)

Lemma lookup_live cc ns tenant model body id' res p h :
  live stream false id res ev holds_nothing p h → p = ph_metered id' res →
  hwp (lookup ctx cc ns tenant model body) h (λ r h', match r with
    | Some result => match ResponseCache.rs_Status result with
                     | StatusHit => live stream false id res ev holds_nothing (ph_ending id' res) h'
                     | _ => live stream false id res ev holds_nothing p h'
                     end
    | None => live stream false id res ev holds_nothing p h' end).
Proof.
  intros Hl ->. unfold lookup. destruct (requestBypassesResponseCache cc); [by apply hwp_ret|].
  apply hwp_bind, (hwp_live _ false res holds_nothing (ph_metered id' res)); [apply quiet_client_err|done|]. intros e h1 Hl1.
  apply hwp_bind, (hwp_live _ false res holds_nothing (ph_metered id' res)); [apply quiet_serve|done|]. intros [[status text]|e'] h2 Hl2; apply hwp_bind.
  - eapply hwp_log; [exact Hl2|reflexivity|]. intros h3 Hl3. apply hwp_ret. by destruct status.
  - eapply hwp_log; [exact Hl2|reflexivity|]. intros h3 Hl3.
    apply hwp_bind, (hwp_live _ false res holds_nothing (ph_metered id' res)); [apply quiet_client_err|done|]. intros e2 h4 Hl4.
    apply hwp_ret. by destruct (isSome e2).
Qed.

Lemma store_live status fallbacks ns tenant model body response id' res h :
  live stream false id res ev holds_nothing (ph_called id' res) h → status ≠ StatusHit →
  hwp (store ctx status fallbacks ns tenant model body response) h (λ r h', r ≠ Some StatusHit ∧
    live stream false id res ev holds_nothing (ph_called id' res) h').
Proof.
  intros Hl Hs. unfold store. destruct status; [done| |by apply hwp_ret]. destruct (fallbacks =? 0); [|by apply hwp_ret].
  apply hwp_bind, (hwp_live _ false res holds_nothing (ph_called id' res)); [apply quiet_client_err|done|]. intros e h1 Hl1.
  apply hwp_bind, (hwp_live _ false res holds_nothing (ph_called id' res)); [apply quiet_serve|done|]. intros r h2 Hl2. apply hwp_bind.
  eapply hwp_log; [exact Hl2|reflexivity|]. intros h3 Hl3. destruct r; [by apply hwp_ret|].
  apply hwp_bind, (hwp_live _ false res holds_nothing (ph_called id' res)); [apply quiet_client_err|done|]. intros e2 h4 Hl4.
  apply hwp_ret. by destruct (isSome e2).
Qed.

Lemma outcome_fine_failed hit category code :
  category ≠ ""%string → code ≠ ""%string → str_len category ≤ 64 → str_len code ≤ 100 →
  outcome_fine strict stream hit (outcome_of StatusFailed category code).
Proof. intros. constructor; cbn; try done; [intros _; split; [done|by left]|by right|by intros []]. Qed.

Lemma live_closable h p res : live stream false id res ev holds_nothing p h → open_phase p = Some (id, res) → closable h.
Proof. intros. by exists p, res. Qed.

Lemma replay_cached_closable body res h :
  stream = false → live stream false id res ev holds_nothing (ph_ending id res) h →
  hwp (replay_cached protocol body) h (λ _, closable).
Proof.
  intros Hs Hl. apply hwp_bind. eapply hwp_setCacheStatus; [exact Hl|]. cbv iota. intros h1 Hl1.
  apply hwp_bind. eapply hwp_observe; [exact Hl1|]. intros h2 Hl2.
  apply hwp_bind, (hwp_live _ true res holds_nothing (ph_ending id res)); [apply quiet_encode|done|]. intros [b|] h3 Hl3; apply hwp_bind.
  - eapply hwp_finalize; [exact Hl3| |done|]; [by constructor; cbn; try done; [by left|intros []]|]. intros h4 Hl4 _.
    eapply (hwp_live _ false res holds_nothing (ph_ending id res)); [by apply quiet_answer|done|]. intros _ h5 Hl5. by eapply live_closable.
  - eapply hwp_finalize; [exact Hl3|by apply outcome_fine_failed|done|]. intros h4 Hl4 _.
    eapply (hwp_live _ false res holds_nothing (ph_ending id res)); [by apply quiet_fail|done|]. intros _ h5 Hl5. by eapply live_closable.
Qed.

Lemma respond_closable status body res h :
  status ≠ StatusHit → live stream false id res ev holds_nothing (ph_called id res) h →
  hwp (respond protocol status body) h (λ _, closable).
Proof.
  intros Hs Hl. apply hwp_bind, (hwp_live _ false res holds_nothing (ph_called id res)); [by apply quiet_answer|done|]. intros _ h1 Hl1.
  apply hwp_bind. eapply hwp_setCacheStatus; [exact Hl1|]. intros h2 Hl2.
  assert (live stream false id res ev holds_nothing (ph_called id res) h2) as Hl2' by (by destruct status). clear Hl2.
  apply hwp_bind, (hwp_live _ false res holds_nothing (ph_called id res)); [apply quiet_encode|done|]. intros [b|] h3 Hl3; apply hwp_bind.
  - eapply hwp_finalize; [exact Hl3| |done|]; [by constructor; cbn; try done; intros []|]. intros h4 Hl4 _.
    eapply (hwp_live _ false res holds_nothing (ph_called id res)); [by apply quiet_answer|done|]. intros _ h5 Hl5. by eapply live_closable.
  - eapply hwp_finalize; [exact Hl3|by apply outcome_fine_failed|done|]. intros h4 Hl4 _.
    eapply (hwp_live _ false res holds_nothing (ph_called id res)); [by apply quiet_fail|done|]. intros _ h5 Hl5. by eapply live_closable.
Qed.

Lemma execute_closable input cc ns tenant model body res h :
  stream = false → live stream false id res ev holds_nothing (ph_metered id res) h →
  hwp (execute protocol fuel ctx orchestrator input cc ns tenant model body) h (λ r h', r = Some () ∧ closable h').
Proof.
  intros Hs Hl. apply hwp_bind. eapply hwp_mono; [by eapply lookup_live|]. cbn beta. intros [[status text]|] h1.
  2: { intros Hl1. apply hwp_ret. split; [done|]. by eapply live_closable. }
  cbn [ResponseCache.rs_Status]. assert (∀ status, status ≠ StatusHit → live stream false id res ev holds_nothing (ph_metered id res) h1 →
    hwp (_ ← setCacheStatus status; _ ← log act_upstream; r ← lift (Orchestrator_Execute orchestrator fuel ctx input);
         match r with
         | None => mret None
         | Some (Err failure) => _ ← fail_execution ctx failure "client_canceled"; mret (Some ())
         | Some (Ok x) =>
             let response := default ""%string (x_Payload x) in
             _ ← recordExecution x; _ ← session_observe response;
             status ← store ctx status (x_Fallbacks x) ns tenant model body response;
             match status with None => mret (Some ()) | Some status => _ ← respond protocol status response; mret (Some ()) end
         end) h1 (λ r h', r = Some () ∧ closable h')) as Hgo.
  { clear status. intros status Hst Hl1. apply hwp_bind. eapply hwp_setCacheStatus; [exact Hl1|]. intros h2 Hl2.
    assert (live stream false id res ev holds_nothing (ph_metered id res) h2) as Hl2' by (by destruct status). clear Hl2.
    apply hwp_bind. eapply hwp_log; [exact Hl2'|reflexivity|]. intros h3 Hl3. apply hwp_bind. eapply hwp_Execute; [exact Hl3| |].
    - intros x h4 Hl4 Ha Hf. cbn zeta. apply hwp_bind. eapply hwp_route; [exact Hl4|done|done|]. intros h5 Hl5.
      apply hwp_bind. eapply hwp_observe; [exact Hl5|]. intros h6 Hl6. apply hwp_bind.
      eapply hwp_mono; [by eapply store_live|]. cbn beta. intros [status'|] h7 [Hne Hl7].
      + apply hwp_bind. eapply hwp_mono; [eapply respond_closable; [by intros ->|exact Hl7]|]. intros ? h8 Hc. by apply hwp_ret.
      + apply hwp_ret. split; [done|]. by eapply live_closable.
    - intros f h4 Hl4 Ha Hf. apply hwp_bind. eapply hwp_mono; [eapply fail_execution_live; [done|done|done|by left|done]|]. cbn beta. intros _ h5 Hl5.
      apply hwp_ret. split; [done|]. by eapply live_closable. }
  destruct status; [|by apply Hgo..]. intros Hl1. apply hwp_bind. eapply hwp_mono; [by eapply replay_cached_closable|]. intros ? h2 Hc. by apply hwp_ret.
Qed.

(** ** Streams *)

Section streams.
Hypothesis streaming : stream = true.

Lemma hwp_Finish s failure res p h (Q : bool * PreparedStream → HState S → Prop) :
  live stream false id res ev (stream_holds s) p h → stream_fresh s →
  (∀ r h', live stream false id res ev holds_nothing p h' → ps_finished (snd r) = true → Q r h') →
  hwp (lift (Finish s failure)) h Q.
Proof.
  intros Hl Hs HQ. eapply hwp_lift; [exact Hl|by apply Finish_spec| |]; cbn beta.
  - intros r es st' (_ & Hfin & Hr & _) held' Hr' h' Hl'. rewrite Hr in Hr'. injection Hr' as <-. by apply HQ.
  - intros r es st' (_ & _ & -> & _). done.
Qed.

Lemma hwp_FinishError s err res p h (Q : option Failure * PreparedStream → HState S → Prop) :
  live stream false id res ev (stream_holds s) p h → stream_fresh s →
  (∀ f s' h', live stream false id res ev holds_nothing p h' → ps_finished s' = true → Q (f, s') h') →
  hwp (lift (FinishError s ctx err)) h Q.
Proof.
  intros Hl Hs HQ. eapply (hwp_lift _ _ _ _ _ _ _ _ _ (λ r es _, ps_finished (snd r) = true ∧ replay (stream_holds s) es = Some holds_nothing)); [exact Hl| | |].
  - apply wp_bind, wp_time_Now. intros t st' _. apply wp_bind. eapply wp_mono; [by apply Finish_spec|]. cbn beta.
    intros r es st2 _ (_ & Hfin & Hr & _). apply wp_ret. cbn [snd app]. by rewrite app_nil_r.
  - intros [f s'] es st' [Hfin Hr] held' Hr' h' Hl'. rewrite Hr in Hr'. injection Hr' as <-. by apply HQ.
  - intros r es st' [_ ->]. done.
Qed.

Lemma hwp_abort s cause res p h (Q : PreparedStream → HState S → Prop) :
  live stream false id res ev (stream_holds s) p h → stream_fresh s →
  (∀ s' h', live stream false id res ev holds_nothing p h' → ps_finished s' = true → Q s' h') → hwp (abort s cause) h Q.
Proof.
  intros Hl Hs HQ. apply hwp_bind. unfold Abort. eapply hwp_Finish; [exact Hl|done|]. intros r h' Hl' Hf. apply hwp_ret. by apply HQ.
Qed.

Lemma hwp_abort_finished s cause h (Q : PreparedStream → HState S → Prop) : ps_finished s = true → Q s h → hwp (abort s cause) h Q.
Proof. intros Hs HQ. unfold hwp, abort, Abort, Finish, mbind, HM_bind, lift. rewrite Hs. cbn. by destruct h. Qed.

(** The upstream comes to an end, at the latest after so many of its events. *)
Definition reads_end (bound : nat) : Prop :=
  ∀ tick s, (bound ≤ tick)%nat → let '(_, _, _, event, err) := up_Next tick s in isSome err || ev_Done event = true.

Lemma read_stream_spec bound s h (Q : ChatStreamEvent * option GoErr * PreparedStream → HState S → Prop) :
  reads_end bound → stream_fresh s →
  (∀ event err s' h', unchanged h h' → (w_tick (st_world (hs_st h)) < w_tick (st_world (hs_st h')))%nat →
     ((bound ≤ w_tick (st_world (hs_st h')))%nat → isSome err || ev_Done event = true) →
     stream_fresh s' → stream_holds s' = stream_holds s → Q (event, err, s') h') →
  hwp (read_stream s) h Q.
Proof.
  intros Hend (Hfin & Hfresh) HQ. unfold hwp, read_stream, lift, op. cbn zeta.
  specialize (Hend (w_tick (interfere (st_world (hs_st h)))) s).
  destruct (up_Next _ s) as [[[[activity ready] tie] event] err]. cbn [fst snd]. rewrite Hfin.
  match goal with |- context [PreparedStream_Next s ?a ?b ?c ?d ?e ?f] => destruct (PreparedStream_Next s a b c d e f) as [[event' err'] s'] eqn:Hnext end.
  assert (stream_fresh s' ∧ stream_holds s' = stream_holds s ∧ (isSome err || ev_Done event = true → isSome err' || ev_Done event' = true)) as (Hf & Hh & Hd).
  { unfold PreparedStream_Next in Hnext. rewrite Hfin in Hnext. unfold stream_next in Hnext.
    destruct (ps_idleTime s <=? 0); [|match type of Hnext with context [idle_fires ?a ?b ?c ?d ?e] => destruct (idle_fires a b c d e) end]; destruct err as [e|], (ev_Done event) eqn:Hdone; try destruct (_ && _);
      injection Hnext as <- <- <-; cbn [ev_Done isSome orb]; rewrite ?Hdone; done. }
  unfold interfere, w_set_now in *. cbn [w_now w_tick w_breakers w_queues w_keys] in *.
  apply HQ; cbn [hs_st st_world w_tick]; [|lia| |done|done].
  - split; cbn [hs_session hs_log hs_st st_events st_world w_now w_tick hs_gin]; [done|done|by rewrite app_nil_r| |lia|done].
    etrans; [|apply Z.le_max_l]. apply Z.le_max_l.
  - intros Hb. by apply Hd, Hend.
Qed.

Lemma interrupted_fine failure : outcome_fine strict stream false (interrupted_outcome failure).
Proof.
  pose proof (category_text_short (f_Category failure)) as [Hc Hl]. unfold interrupted_outcome.
  case_bool_decide; (constructor; cbn [outcome_of uo_Status uo_ErrorCategory uo_ErrorCode]; [done|done|done|intros _; split; [done|by left]|done|done|done]).
Qed.

Lemma outcome_stream_fine status category code :
  status = StatusStreamInterrupted ∨ status = StatusCanceled → category ≠ ""%string → code ≠ ""%string → str_len category ≤ 64 → str_len code ≤ 100 →
  outcome_fine strict stream false (outcome_of status category code).
Proof.
  intros Hs ????. constructor; cbn [outcome_of uo_Status uo_ErrorCategory uo_ErrorCode]; try done; [by destruct Hs as [-> | ->]| |by destruct Hs as [-> | ->]..].
  intros _. split; [done|by left].
Qed.

Definition stream_closed res p (r : option PreparedStream) h : Prop :=
  ∃ s, r = Some s ∧ ps_finished s = true ∧ live stream false id res ev holds_nothing p h.

Lemma abort_closed s cause outcome res p h :
  live stream false id res ev (stream_holds s) p h → stream_fresh s → outcome_fine strict stream false outcome → uo_EndedAt outcome = time_zero →
  hwp (s ← abort s cause; _ ← finalize outcome; mret (Some s)) h (stream_closed res p).
Proof.
  intros Hl Hs Ho Hz. apply hwp_bind. eapply hwp_abort; [exact Hl|done|]. intros s' h1 Hl1 Hf. apply hwp_bind.
  eapply hwp_finalize; [exact Hl1|done|done|]. intros h2 Hl2 _. apply hwp_ret. by exists s'.
Qed.

Lemma relay_closed bound n s res p h :
  reads_end bound → (bound - w_tick (st_world (hs_st h)) < n)%nat → stream_fresh s → live stream false id res ev (stream_holds s) p h →
  hwp (relay protocol ctx n s) h (stream_closed res p).
Proof.
  intros Hend. revert s h. induction n as [|n IH]; intros s h Hn Hs Hl; [lia|]. cbn [relay]. apply hwp_bind.
  eapply read_stream_spec; [done|done|]. intros event err s1 h1 Hu Htick Hdone Hs1 Hh1.
  apply (live_unchanged _ _ _ _ _ _ _ _ _ Hu) in Hl. rewrite <-Hh1 in Hl. destruct err as [err|].
  - apply hwp_bind. eapply hwp_FinishError; [exact Hl|done|]. intros f s2 h2 Hl2 Hf2. apply hwp_bind. destruct f as [f|].
    + eapply hwp_finalize; [exact Hl2|apply interrupted_fine|unfold interrupted_outcome; by case_bool_decide|]. intros h3 Hl3 _. apply hwp_ret. by exists s2.
    + apply hwp_ret, hwp_ret. by exists s2.
  - apply hwp_bind.
    assert (∀ h2 : HState S, (w_tick (st_world (hs_st h1)) ≤ w_tick (st_world (hs_st h2)))%nat → live stream false id res ev (stream_holds s1) p h2 →
      hwp (e ← writeAndFlush protocol event;
           match e with
           | Some e => s ← abort s1 (Some e); _ ← finalize stream_interrupted; mret (Some s)
           | None =>
               if ev_Done event then r ← lift (Finish s1 None); _ ← finalize (outcome_of StatusStreamCompleted "" ""); mret (Some (snd r))
               else relay protocol ctx n s1
           end) h2 (stream_closed res p)) as Hwrite.
    { intros h2 Ht2 Hl2. apply hwp_bind, hwp_quiet; [apply quiet_flush|]. intros [e|] h3 Hu3; apply (live_unchanged _ _ _ _ _ _ _ _ _ Hu3) in Hl2.
      - apply abort_closed; [done|done| |done]. apply outcome_stream_fine; try done. by left.
      - destruct (ev_Done event) eqn:Hd.
        + apply hwp_bind. eapply hwp_Finish; [exact Hl2|done|]. intros r h4 Hl4 Hf4. apply hwp_bind.
          eapply hwp_finalize; [exact Hl4|by constructor|done|]. intros h5 Hl5 _. apply hwp_ret. by exists (snd r).
        + apply IH; [|done|done]. destruct Hu3 as [_ _ _ _ Ht3 _]. cbn in Hdone.
          destruct (decide (bound ≤ w_tick (st_world (hs_st h1)))%nat) as [Hb|]; [by specialize (Hdone Hb)|]. lia. }
    eapply hwp_observeStream; [exact Hl|done|]. intros h2 Hl2 Ht2. by apply Hwrite.
Qed.

Lemma serve_stream_closed bound s res p h :
  reads_end bound → (bound < fuel)%nat → stream_fresh s → live stream false id res ev (stream_holds s) p h →
  hwp (serve_stream protocol fuel ctx s) h (stream_closed res p).
Proof.
  intros Hend Hfuel Hs Hl. apply hwp_bind, (hwp_live _ false res (stream_holds s) p); [apply quiet_client_err|done|]. intros [e|] h1 Hl1.
  { apply abort_closed; [done|done| |done]. apply outcome_stream_fine; try done. by right. }
  apply hwp_bind, (hwp_live _ false res (stream_holds s) p); [apply quiet_deadline|done|]. intros [e|] h2 Hl2.
  - apply hwp_bind. eapply hwp_abort; [exact Hl2|done|]. intros s' h3 Hl3 Hf3. apply hwp_bind.
    set (h4 := (fail (S := S) streaming_unavailable h3).2).
    assert (live stream false id res ev holds_nothing p h4) as Hl4 by (by eapply live_unchanged; [apply quiet_fail|]).
    apply hwp_bind. unfold hwp at 1. cbn [get_gin fst snd]. apply hwp_bind.
    eapply hwp_finalize; [exact Hl4|by apply outcome_fine_failed|done|]. intros h5 Hl5 _. apply hwp_ret. by exists s'.
  - apply hwp_bind, (hwp_live _ false res (stream_holds s) p); [by apply quiet_answer|done|]. intros _ h3 Hl3.
    apply hwp_bind, (hwp_live _ false res (stream_holds s) p); [apply quiet_flush|done|]. intros [e|] h4 Hl4.
    + apply abort_closed; [done|done| |done]. apply outcome_stream_fine; try done. by left.
    + eapply relay_closed; [done|lia|done|done].
Qed.

Lemma stream_closable bound input res h :
  reads_end bound → (bound < fuel)%nat → live stream false id res ev holds_nothing (ph_metered id res) h →
  hwp (ChatHandler.stream protocol fuel ctx orchestrator input) h (λ r h', r = Some () ∧ closable h').
Proof.
  intros Hend Hfuel Hl. unfold ChatHandler.stream. destruct cc_flushes; cbn [negb].
  2: { apply hwp_bind, (hwp_live _ false res holds_nothing (ph_metered id res)); [by apply quiet_fail|done|]. intros _ h1 Hl1.
       apply hwp_ret. split; [done|]. by eapply live_closable. }
  apply hwp_bind. eapply hwp_log; [exact Hl|reflexivity|]. intros h1 Hl1. apply hwp_bind. eapply hwp_OpenStream; [exact Hl1| |].
  - intros s h2 Hl2 Hs Ha Hf. apply hwp_bind. eapply hwp_route; [exact Hl2|done|done|]. intros h3 Hl3.
    apply hwp_bind. eapply hwp_observeStream; [exact Hl3|done|]. intros h4 Hl4 _. apply hwp_bind.
    eapply hwp_mono; [by eapply serve_stream_closed|]. intros r h5 (s' & -> & Hf' & Hl5).
    apply hwp_bind, hwp_abort_finished; [done|]. apply hwp_ret. split; [done|]. by eapply live_closable.
  - intros f h2 Hl2 Ha Hf. apply hwp_bind. eapply hwp_mono; [eapply fail_execution_live; [done|done|done|by left|done]|]. cbn beta. intros _ h3 Hl3.
    apply hwp_ret. split; [done|]. by eapply live_closable.
Qed.
End streams.
End live.
End steps.

(** ** The whole request *)

(** The setting of a handler: the identifiers of events fit into an event, the fuel covers
    the policies of every snapshot that is served, and streams come to an end within it. *)
Section whole.
Context {S : Type} `{GatewayServices S, ClientConnection S}.
Context `{Env ChatRequest string, StreamEnv ChatRequest, UpstreamReads, Unicode, UnicodeUpper, HTTPDates}.
Context (fuel : nat) (ctx : Ctx) (since : Time).
Implicit Types (h : HState S).

Record serving : Prop := {
  sg_ids : ∀ s id, fst (sv_EventID s) = Some id → validRequiredText id 64 = true;
  sg_policies : ∀ s active chat st, fst (sv_Current s) = Some active → sn_Chat active = Some chat → since ≤ w_now (st_world st) → orchestration chat ctx fuel st;
  sg_reads : ∃ bound, reads_end bound ∧ (bound < fuel)%nat;
}.

Section session.
Context (strict : bool) (protocol : option (ResponseProtocol S)) (stream : bool) (id : string) (ev : list Event).

Abbreviation alive := (@running S since strict stream false id).

Lemma hwp_refuse A (e : ApiError) (a : A) p res h (Q : A → HState S → Prop) :
  str_len (ae_Code e) ≤ 100 → alive res ev holds_nothing p h → open_phase p = Some (id, res) →
  (∀ h', closable since strict stream id ev h' → Q a h') → hwp (_ ← fail e; mret a) h Q.
Proof.
  intros He Hl Ho HQ. apply hwp_bind, (hwp_live since strict stream id ev _ false res holds_nothing p); [by apply quiet_fail|done|]. intros _ h1 Hl1.
  apply hwp_ret, HQ. by exists p, res.
Qed.

Lemma limited_live identity model h :
  alive None ev holds_nothing (ph_authorized id) h →
  hwp (limited ctx identity model) h (λ r h', if r : bool then alive None ev holds_nothing (ph_admitted id) h' else closable since strict stream id ev h').
Proof.
  intros Hl. apply hwp_bind, (hwp_live since strict stream id ev _ false None holds_nothing (ph_authorized id)); [apply quiet_client_err|done|]. intros e2 h4 Hl4.
  apply hwp_bind, (hwp_live since strict stream id ev _ false None holds_nothing (ph_authorized id)); [apply quiet_serve|done|]. intros [decision|failed] h5 Hl5; apply hwp_bind.
  - eapply hwp_log; [exact Hl5|reflexivity|]. intros h6 Hl6. apply hwp_bind.
    eapply (hwp_live since strict stream id ev _ false None holds_nothing); [apply quiet_answer|exact Hl6|].
    { intros c Hc. unfold writeRateLimitHeaders. destruct (rd_Bypassed decision); [done|]. by destruct (rd_Allowed decision). }
    intros _ h7 Hl7. destruct (rd_Allowed decision); [by apply hwp_ret|]. eapply hwp_refuse; [|exact Hl7|done|]; [done|]. done.
  - eapply hwp_log; [exact Hl5|reflexivity|]. intros h6 Hl6.
    apply hwp_bind, (hwp_live since strict stream id ev _ false None holds_nothing (ph_ending id None)); [apply quiet_client_err|done|]. intros over h7 Hl7.
    apply hwp_bind. destruct (isSome over); [apply hwp_ret, hwp_ret; by exists (ph_ending id None), None|].
    eapply (hwp_live since strict stream id ev _ false None holds_nothing (ph_ending id None)); [apply quiet_fail; by destruct failed|done|].
    intros _ h8 Hl8. apply hwp_ret. by exists (ph_ending id None), None.
Qed.

Lemma admission_live identity model h :
  alive None ev holds_nothing (ph_begun id) h →
  hwp (admission ctx identity model) h (λ r h', if r : bool then alive None ev holds_nothing (ph_admitted id) h' else closable since strict stream id ev h').
Proof.
  intros Hl. apply hwp_bind, (hwp_live since strict stream id ev _ false None holds_nothing (ph_begun id)); [apply quiet_client_err|done|]. intros e h1 Hl1.
  apply hwp_bind, (hwp_live since strict stream id ev _ false None holds_nothing (ph_begun id)); [apply quiet_serve|done|]. intros [refused|] h2 Hl2; apply hwp_bind.
  - eapply hwp_log; [exact Hl2|reflexivity|]. cbn [isSome negb]. intros h3 Hl3.
    apply hwp_bind, (hwp_live since strict stream id ev _ false None holds_nothing (ph_ending id None)); [apply quiet_client_err|done|]. intros over h4 Hl4.
    apply hwp_bind. destruct (isSome over); [apply hwp_ret, hwp_ret; by exists (ph_ending id None), None|].
    eapply (hwp_live since strict stream id ev _ false None holds_nothing (ph_ending id None)); [apply quiet_fail; by destruct refused|done|].
    intros _ h5 Hl5. apply hwp_ret. by exists (ph_ending id None), None.
  - eapply hwp_log; [exact Hl2|reflexivity|]. cbn [isSome negb]. intros h3 Hl3. by apply limited_live.
Qed.

Lemma reserve_live input tenantID model h :
  alive None ev holds_nothing (ph_admitted id) h →
  hwp (reserve input tenantID model) h (λ r h',
    if r : bool then ∃ res, alive res ev holds_nothing (ph_metered id res) h' else closable since strict stream id ev h').
Proof.
  intros Hl. unfold reserve. destruct sv_quota; cbn [negb].
  2: { apply hwp_bind. eapply hwp_log; [exact Hl|reflexivity|]. intros h1 Hl1. apply hwp_ret. by exists None. }
  apply hwp_bind, (hwp_live since strict stream id ev _ false None holds_nothing (ph_admitted id)); [apply quiet_serve|done|]. intros [|] h1 Hl1; cbn [negb].
  2: { apply hwp_bind. eapply hwp_log; [exact Hl1|reflexivity|]. intros h2 Hl2. apply hwp_ret. by exists None. }
  apply hwp_bind, (hwp_live since strict stream id ev _ false None holds_nothing (ph_admitted id)); [apply quiet_get_session|done|]. intros s h2 Hl2.
  apply hwp_bind, (hwp_live since strict stream id ev _ false None holds_nothing (ph_admitted id)); [apply quiet_serve|done|]. intros [decision|e] h3 Hl3; apply hwp_bind.
  - eapply hwp_log; [exact Hl3|reflexivity|]. intros h4 Hl4. apply hwp_bind.
    assert (alive (reservation_named (TrimSpace (qd_ReservationID decision))) ev holds_nothing
      (ph_metered id (reservation_named (TrimSpace (qd_ReservationID decision)))) (update_session (attachQuota (qd_ReservationID decision)) h4).2) as Hl5.
    { eapply live_update; [|exact Hl4]. intros s' Hs' _. done. }
    apply hwp_bind. eapply (hwp_live since strict stream id ev _ false); [apply quiet_answer|exact Hl5|].
    { intros c Hc. unfold quota_warning. by repeat case_match. }
    intros _ h6 Hl6. apply hwp_ret. eauto.
  - eapply hwp_log; [exact Hl3|reflexivity|]. intros h4 Hl4. eapply hwp_refuse; [by destruct e|exact Hl4|done|]. done.
Qed.

Lemma dispatch_closable r identity model body request required h :
  serving → stream = cq_Stream request → alive None ev holds_nothing (ph_begun id) h →
  hwp (dispatch protocol fuel ctx r identity model body request required) h (λ r h', r = Some () ∧ closable since strict stream id ev h').
Proof.
  intros [_ Hset (bound & Hend & Hfuel)] Hs Hl. apply hwp_bind. eapply hwp_mono; [by apply admission_live|]. cbn beta. intros [|] h1; cbn [negb]; [|by intros; apply hwp_ret].
  intros Hl1. apply hwp_bind. specialize (Hset (hs_services h1)). unfold serve at 1, hwp at 1. destruct (sv_Current (hs_services h1)) as [active s] eqn:Hcur.
  cbn [fst snd] in *. set (h2 := Build_HState _ _ _ _ _ : HState S).
  assert (alive None ev holds_nothing (ph_admitted id) h2) as Hl2 by (destruct Hl1; by split). clearbody h2.
  destruct active as [active|]; [|by eapply hwp_refuse; [| exact Hl2| |]].
  destruct (sn_Routes active) as [routes|], (sn_Chat active) as [chat|] eqn:Hchat; cycle 1.
  1-3: apply hwp_bind, (hwp_live since strict stream id ev _ false None holds_nothing (ph_admitted id)); [by apply quiet_answer|done|]; intros _ h3 Hl3;
    apply hwp_ret; split; [done|]; by exists (ph_admitted id), None.
  pose proof (λ st, Hset active chat st eq_refl Hchat) as Hor. clear Hset.
  destruct (Router_Plan routes model required) as [plan|e]; [|by eapply hwp_refuse; [by destruct e| exact Hl2| |]].
  apply hwp_bind. eapply hwp_mono; [by apply reserve_live|]. cbn beta. intros [|] h3; cbn [negb]; [|by intros; apply hwp_ret].
  intros (res & Hl3). apply hwp_bind. unfold hwp at 1. cbn [get_gin fst snd]. cbv zeta.
  destruct (cq_Stream request) eqn:Hstream.
  - apply hwp_bind. eapply hwp_setCacheStatus; [exact Hl3|]. intros h4 Hl4. eapply stream_closable; [exact Hor|by rewrite Hs|exact Hend|exact Hfuel|exact Hl4].
  - eapply execute_closable; [exact Hor|by rewrite Hs|exact Hl3].
Qed.

Lemma metered_closable r identity model body request h :
  serving → stream = cq_Stream request → alive None ev holds_nothing (ph_begun id) h →
  hwp (metered protocol fuel ctx r identity model body request) h (λ r h', r = Some () ∧ closable since strict stream id ev h').
Proof.
  intros Hs Hst Hl. unfold metered. destruct (RequiredCapabilities request); [by apply dispatch_closable|].
  eapply hwp_refuse; [|exact Hl|done|done]. done.
Qed.
End session.

(** Nothing was accounted, and nothing was done. *)
Definition untouched (ev : list Event) h : Prop :=
  hs_session h = None ∧ (run_phases (hs_log h) = Some ph_start ∨ run_phases (hs_log h) = Some ph_refused) ∧ st_events (hs_st h) = ev.

Lemma untouched_unchanged ev h h' : unchanged h h' → untouched ev h → untouched ev h'.
Proof. intros [] (? & Hr & ?). unfold untouched. rewrite un_session0, un_log0, un_events0. done. Qed.

Lemma hwp_untouched {A} ev (m : HM S A) h (Q : A → HState S → Prop) :
  quiet m → untouched ev h → (∀ a h', untouched ev h' → Q a h') → hwp m h Q.
Proof. intros Hm Hu HQ. apply hwp_quiet; [done|]. intros a h' Hu'. by apply HQ, (untouched_unchanged ev h). Qed.

Lemma newUsageSession_live strict tenantID apiKeyID model stream h :
  (∀ s id, fst (sv_EventID s) = Some id → validRequiredText id 64 = true) →
  hs_log h = [] → hs_session h = None → code_short (hs_gin h) → 0 < since ≤ w_now (st_world (hs_st h)) →
  hwp (newUsageSession tenantID apiKeyID model stream) h (λ r h',
    if r : bool then ∃ id, @running S since strict stream false id None (st_events (hs_st h)) holds_nothing (ph_begun id) h'
    else untouched (st_events (hs_st h)) h').
Proof.
  intros Hids Hlog Hsess Hcode Hnow. apply hwp_bind. unfold hwp at 1. cbn [get_gin fst snd].
  apply hwp_bind. pose proof (quiet_serve sv_EventID h) as Hu. specialize (Hids (hs_services h)). unfold hwp at 1.
  assert (fst (serve sv_EventID h) = fst (sv_EventID (hs_services h))) as Hid by (unfold serve; by destruct (sv_EventID _)).
  rewrite Hid. set (h1 := (serve sv_EventID h).2) in *. clearbody h1. destruct (fst (sv_EventID (hs_services h))) as [i|]; clear Hid.
  - specialize (Hids i eq_refl). apply hwp_bind, hwp_time. intros h2 Hu2. pose proof (unchanged_trans _ _ _ Hu Hu2) as [Us Ul Ue Un Ut Uc].
    rewrite Hlog in Ul. rewrite Hsess in Us. destruct (NewCollector _ _ _) as [collector|e] eqn:Hn.
    2: { apply hwp_ret. unfold untouched. rewrite Us, Ul, Ue. auto. }
    assert (e_EventID (col_event collector) = i) as Hev.
    { unfold NewCollector, newEvent in Hn. cbn zeta in Hn. destruct (first_error _) in Hn; [done|]. by injection Hn as <-. }
    apply newEvent_gathering in Hn as Hg; [|done|cbn; unfold or_now; cbn; lia]. cbn [ni_Stream] in Hg.
    assert (e_CacheStatus (col_event collector) = "bypass"%string) as Hc.
    { unfold NewCollector, newEvent in Hn. cbn zeta in Hn. destruct (first_error _) in Hn; [done|]. by injection Hn as <-. }
    assert (∀ begun h3, unchanged h2 h3 → hwp (_ ← log (act_begin (Pending collector) begun);
      if begun : bool then
        _ ← set_session (Some {| us_collector := collector; us_event := None; us_eventID := pe_EventID (Pending collector);
                                 us_quota := false; us_reservationID := "" |}); mret true
      else mret false) h3 (λ r h', if r : bool then ∃ id, @running S since strict stream false id None (st_events (hs_st h)) holds_nothing (ph_begun id) h'
                                    else untouched (st_events (hs_st h)) h')) as Hend.
    { intros begun h3 [Vs Vl Ve Vn Vt Vc]. unfold hwp, log, mbind, HM_bind. rewrite Vl, Ul. destruct begun; cbn.
      - exists i. rewrite <-Hev. split; cbn; [done| | |auto|lia].
        + eexists. split; [done|]. split; [|done]. split; [done|]. cbn. split_and!; [|done|by rewrite Hc]. by eapply gathering_later.
        + exists []. rewrite app_nil_r. split; [congruence|done].
      - unfold untouched. cbn. split_and!; [congruence|by right|congruence]. }
    apply hwp_bind. destruct sv_Begin as [begin|]; [|by apply hwp_ret, Hend, unchanged_refl].
    apply hwp_bind, hwp_quiet; [apply quiet_serve|]. intros r h3 Hu3. by apply hwp_ret, Hend.
  - apply hwp_bind, hwp_time. intros h2 Hu2. pose proof (unchanged_trans _ _ _ Hu Hu2) as [Us Ul Ue Un Ut Uc].
    destruct (NewCollector _ _ _) as [collector|e] eqn:Hn; [done|]. apply hwp_ret. unfold untouched. rewrite Us, Ul, Ue, Hlog. auto.
Qed.

(** The whole request: it was refused before it was accounted, or is closed. *)
Definition kept {A} (strict : bool) (m : HM S (option A)) : Prop :=
  ∀ h, hs_log h = [] → hs_session h = None → code_short (hs_gin h) → 0 < since ≤ w_now (st_world (hs_st h)) →
    let '(done, h') := m h in
    done ≠ None ∧ (untouched (st_events (hs_st h)) h' ∨ ∃ id, closed strict id (st_events (hs_st h)) h').

Lemma complete_kept protocol r : serving → kept true (complete protocol fuel ctx r).
Proof.
  intros Hs h Hlog Hsess Hcode Hnow. set (ev := st_events (hs_st h)).
  enough (hwp (complete protocol fuel ctx r) h (λ d h', d ≠ None ∧ (untouched ev h' ∨ ∃ id, closed true id ev h'))) as Hc
    by (unfold hwp in Hc; by destruct (complete protocol fuel ctx r h)).
  assert (untouched ev h) as Hu by (unfold untouched; rewrite Hlog; auto).
  assert (∀ f h1, untouched ev h1 → hwp (_ ← answer f; mret (Some ())) h1
    (λ d h', d ≠ None ∧ (untouched ev h' ∨ ∃ id, closed true id ev h'))) as Hend by (intros f h1 Hu1; split; [done|by left]).
  unfold complete. destruct (negb _); [by apply Hend|]. destruct (read_body _ _) as [body|e]; [|by apply Hend].
  destruct (ParseChatRequest body) as [[request|e]|]; [|by apply Hend..].
  destruct (validateChatRequest request); [by apply Hend|]. destruct (hr_identity r) as [identity|]; [|by apply Hend].
  apply hwp_bind. eapply hwp_mono; [apply newUsageSession_live; [apply Hs|done..]|]. cbn beta. intros [|] h1; cbn [negb]; [|by apply Hend].
  intros (id & Hl). apply hwp_bind. eapply hwp_mono; [by eapply metered_closable|]. cbn beta. intros d h2 [-> Hc].
  apply hwp_bind. eapply hwp_mono; [by eapply finish_closes|]. cbn beta. intros _ h3 Hdone. apply hwp_ret. eauto.
Qed.

Lemma serveProtocol_kept convert r : serving → kept true (serveProtocol fuel ctx convert r).
Proof.
  intros Hs h Hlog Hsess Hcode Hnow. unfold serveProtocol.
  assert (∀ e h1, untouched (st_events (hs_st h)) h1 → let '(done, h') := (_ ← fail e; mret (Some ())) h1 in
    done ≠ None ∧ (untouched (st_events (hs_st h)) h' ∨ ∃ id, closed true id (st_events (hs_st h)) h')) as Hend by (intros e h1 Hu1; split; [done|by left]).
  assert (untouched (st_events (hs_st h)) h) as Hu by (unfold untouched; rewrite Hlog; auto).
  destruct (negb _); [by apply Hend|]. destruct (read_body _ _) as [body|e]; [|by apply Hend].
  unfold mbind at 1, HM_bind at 1, get_gin. unfold mbind at 1, HM_bind at 1, serve. destruct (convert _ _ _) as [[[chatBody protocol]|e] s]; [|by apply Hend].
  by apply (complete_kept (Some protocol) _ Hs (Build_HState s (hs_st h) (hs_gin h) (hs_session h) (hs_log h))).
Qed.

(** C1: every run of the chat handler, in its own or another dialect, keeps to the protocol of
    a request: it terminates; when it was refused before its accounting began it has done
    nothing, and otherwise its calls are those that the automaton allows, in that order
    (authorization before the rate limit before the reservation before the cache before the
    upstream, an answer kept only after the upstream was called), what it took upstream is
    given back, a reservation is settled exactly once, with the event that is emitted exactly
    once, last, and that event is valid, unless the names of its route are longer than 100 or
    200 bytes or a cached answer could not be represented (it is invalid in both cases:
    [long_route_invalid], [unrepresentable_invalid]). Assumed ([serving]): generated
    identifiers fit an event, the fuel covers the retry policies of every snapshot that is
    served, and upstream streams end within the fuel. *)
Theorem chat_protocol protocol convert r :
  serving → kept true (complete protocol fuel ctx r) ∧ kept true (serveProtocol fuel ctx convert r).
Proof. intros Hs. split; [by apply complete_kept|by apply serveProtocol_kept]. Qed.

(** ** Names that do not fit *)

(** The configuration does not bound the names of providers and models. *)
Lemma long_route_invalid event : ¬ route_short event → Event_Validate event ≠ None.
Proof.
  intros Hl Hv. unfold Event_Validate in Hv. destruct (first_error _) eqn:Hf; [done|]. apply first_error_none in Hf.
  rewrite !Forall_cons in Hf. destruct_and! Hf. cbn [fst] in *. apply Hl. unfold route_short.
  match goal with H : (100 <? _) || (200 <? _) = false |- _ => apply orb_false_iff in H as [?%Z.ltb_ge ?%Z.ltb_ge] end. done.
Qed.

(** ** A cached answer that cannot be represented *)

Lemma unrepresentable_invalid event : hit_unrepresentable event → Event_Validate event ≠ None.
Proof.
  intros [Hc Hs] Hv. unfold Event_Validate in Hv. destruct (first_error _) eqn:Hf; [done|]. apply first_error_none in Hf.
  rewrite !Forall_cons in Hf. destruct_and! Hf. cbn [fst] in *. by rewrite Hc, Hs in *.
Qed.

Lemma observe_keeps payload isStream observedAt now c :
  e_CacheStatus (col_event (observe payload isStream observedAt now c)) = e_CacheStatus (col_event c) ∧
  col_finalized (observe payload isStream observedAt now c) = col_finalized c.
Proof. destruct c as [[] [|]]; unfold observe; cbn; [done|]. by destruct (md_usage _), e_Usage. Qed.

Lemma Finalize_failed now outcome c :
  col_finalized c = false → uo_Status outcome = StatusFailed → e_CacheStatus (col_event c) = "hit"%string →
  ∃ event c', Finalize outcome now c = (Some event, c') ∧ hit_unrepresentable event.
Proof. intros Ho Hs Hc. unfold Finalize. rewrite Ho. destruct c as [[] ?]. cbn in *. eexists _, _. split; [done|]. by rewrite Hs. Qed.

(** When an answer from the cache cannot be represented in the dialect of the request, the
    session ends with an event that is not valid (a hit that failed), and that cannot be
    encoded for its delivery. *)
Theorem unrepresentable_hit_lost p body (h : HState S) s :
  (∀ b st, fst (rp_EncodeResponse p b st) = None) →
  hs_session h = Some s → us_event s = None → col_finalized (us_collector s) = false →
  ∃ event, hs_session (snd (replay_cached (Some p) body h)) ≫= us_event = Some event ∧ Event_Validate event ≠ None.
Proof.
  intros Hp Hs He Ho. set (c := ObserveResponse body (SetCacheStatus "HIT" (us_collector s))).
  assert (col_finalized c = false ∧ e_CacheStatus (col_event c) = "hit"%string) as [Hc Hh].
  { unfold c, ObserveResponse. destruct (observe_keeps body false time_zero time_zero (SetCacheStatus "HIT" (us_collector s))) as [-> ->].
    by destruct (us_collector s) as [[] []]. }
  unfold replay_cached, setCacheStatus, session_observe, encodeProtocolResponse, finalize, time_now, lift, serve, update_session, mbind, HM_bind.
  cbn [hs_services hs_st hs_gin hs_session hs_log fst snd]. rewrite Hs. specialize (Hp body (hs_services h)).
  destruct (rp_EncodeResponse p body (hs_services h)) as [o st]. cbn [fst] in Hp. subst o.
  cbn [hs_services hs_st hs_gin hs_session hs_log fst snd]. destruct (time_Now (hs_st h)) as [now st1].
  destruct (Finalize_failed now encoding_failed c Hc eq_refl Hh) as (event & c' & Hf & Hu).
  exists event. split; [|by apply unrepresentable_invalid].
  cbn [fail answer fst snd hs_session fmap option_fmap option_map mbind option_bind with_collector finalize_session us_event us_collector].
  unfold finalize_session. cbn [with_collector us_event us_collector]. rewrite He. change (status_text StatusHit) with "HIT"%string. fold c. by rewrite Hf.
Qed.

(** ** Credentials *)

(** Answered with one error and nothing else. *)
Record refused (h h' : HState S) : Prop := {
  rf_log : hs_log h' = hs_log h;
  rf_session : hs_session h' = hs_session h;
  rf_events : st_events (hs_st h') = st_events (hs_st h);
  rf_answer : ∃ status contentType body, gc_written (hs_gin h') = gc_written (hs_gin h) ++ [wrote status contentType body] ∧ 400 ≤ status;
}.

Lemma fail_refuses e h : 400 ≤ ae_Status e → hwp (_ ← fail e; mret (Some ())) h (λ d h', d ≠ None ∧ refused h h').
Proof. intros He. split; [done|]. split; [done..|]. cbn. by eexists _, _, _. Qed.

Lemma check_messages_status index messages e : check_messages index messages = Some e → ae_Status e = 400.
Proof.
  revert index. induction messages as [|m messages IH]; intros index; [done|]. cbn [check_messages].
  destruct (negb _); [by intros [= <-]|]. destruct (messageContentStatus _); [by apply IH| |by intros [= <-]].
  destruct (_ && _); [by apply IH|by intros [= <-]].
Qed.

Lemma validateChatRequest_status request e : validateChatRequest request = Some e → ae_Status e = 400.
Proof.
  unfold validateChatRequest. destruct (_ =? _)%string; [by intros [= <-]|]. destruct (cq_Messages request); [by intros [= <-]|].
  apply check_messages_status.
Qed.

Lemma complete_anonymous protocol r h : hr_identity r = None →
  hwp (complete protocol fuel ctx r) h (λ d h', d ≠ None ∧ refused h h').
Proof.
  intros Hr. unfold complete. destruct (negb _); [by apply fail_refuses|]. destruct (read_body _ _) as [body|e] eqn:Hb.
  2: { apply fail_refuses. unfold read_body in Hb. destruct (_ <? _); [by injection Hb as <-|]. destruct (hr_bodyFails r); [by injection Hb as <-|done]. }
  destruct (ParseChatRequest body) as [[request|e]|]; [|by apply fail_refuses|].
  2: { split; [done|]. split; [done..|]. cbn. by eexists _, _, _. }
  destruct (validateChatRequest request) as [e|] eqn:Hv; [apply fail_refuses; by rewrite (validateChatRequest_status _ _ Hv)|].
  rewrite Hr. by apply fail_refuses.
Qed.

(** C12: a request whose credential is missing, malformed or not accepted is answered with one
    error and never served: it is not metered, and neither a service behind the
    authentication nor an upstream is called, also when the client is gone and the chain of
    handlers goes on without an identity. *)
Theorem refused_not_served authenticate headers protocol r h :
  (∀ e plaintext s identity, requestCredential (gc_anthropic (hs_gin h)) headers = Ok plaintext →
     fst (authenticate e plaintext s) ≠ Ok identity) →
  let '(done, h') := authenticated ctx authenticate headers (λ identity, complete protocol fuel ctx (with_identity r identity)) h in
  done ≠ None ∧ refused h h'.
Proof.
  intros Ha. enough (hwp (authenticated ctx authenticate headers (λ identity, complete protocol fuel ctx (with_identity r identity))) h
    (λ d h', d ≠ None ∧ refused h h')) as Hc by (unfold hwp in Hc; by destruct (authenticated _ _ _ _ h)).
  assert (∀ (h0 : HState S) (Q : option CtxErr → HState S → Prop),
    (∀ e h', hs_log h' = hs_log h0 → hs_session h' = hs_session h0 → hs_gin h' = hs_gin h0 →
       st_events (hs_st h') = st_events (hs_st h0) → Q e h') → hwp (client_err ctx) h0 Q) as Herr.
  { intros h0 Q HQ. apply HQ; [done..|]. apply (app_nil_r (st_events (hs_st h0))). }
  apply hwp_bind, Herr. intros e h1 L1 S1 G1 E1. apply hwp_bind, Herr. intros over h2 L2 S2 G2 E2.
  apply hwp_bind. unfold hwp at 1, authenticationMiddleware. rewrite G2, G1.
  destruct (requestCredential (gc_anthropic (hs_gin h)) headers) as [plaintext|re] eqn:Hc.
  - specialize (Ha e plaintext (hs_services h2)). destruct (authenticate e plaintext (hs_services h2)) as [[identity|ae] s].
    { by destruct (Ha identity eq_refl). }
    destruct (isSome over); [|destruct (rejected_credential ae)]; cbn [fst snd].
    + eapply hwp_mono; [by apply complete_anonymous|]. cbn beta. intros d h3 [Hd [L3 S3 E3 A3]]. split; [done|].
      split; cbn in *; congruence.
    + split; [done|]. split; cbn; [congruence..|]. by eexists _, _, _.
    + split; [done|]. split; cbn; [congruence..|]. by eexists _, _, _.
  - cbn [fst snd]. split; [done|]. split; cbn; [congruence..|]. eexists _, _, _. split; [done|].
    unfold requestCredential, bearerToken in Hc. repeat case_match; by simplify_eq/=.
Qed.
End whole.

(** ** Concrete instances

    A request that is metered, reserved, missed in the cache, answered by the upstream,
    kept in the cache, settled and emitted; and the same one in a dialect that cannot
    represent what the cache answers. *)

#[local] Instance demo_chat_env : Env ChatRequest string :=
  {| env_other := λ _ w, w;
     env_wait := λ _ q, (WaitTimer, 0, q);
     env_complete := λ tick _ _ _ _,
       {| cr_payload := text "{'usage':{'prompt_tokens':3,'completion_tokens':4,'total_tokens':7}}"; cr_err := None; cr_at := Z.of_nat tick |};
     env_random := λ _, 0.5%float;
     env_timer_first := λ _, true |}.
#[local] Instance demo_chat_streams : StreamEnv ChatRequest :=
  {| env_open := λ tick _ _ _ _,
       (FirstReady, 11, {| fe_event := {| ev_Data := "{}"; ev_Done := false |}; fe_err := None; fe_completedAt := 10 |}) |}.
#[local] Instance demo_reads : UpstreamReads := λ tick _, ([], 12, false, {| ev_Data := "{}"; ev_Done := true |}, None).

Definition demo_routes : Router :=
  match @Routing.New demo_unicode {|
    def_Providers := [{| pv_ID := "p"; pv_Type := "openai"; pv_BaseURL := ""; pv_Models := ["m"]; pv_ModelCapabilities := [] |}];
    def_Rules := [{| rule_Model := "fast"; rule_Candidates := [{| tg_ProviderID := "p"; tg_UpstreamModel := "m" |}] |}] |} with
  | Ok r => r
  | Err _ => {| rt_providers := ∅; rt_exact := ∅; rt_defaultTargets := [] |}
  end.

Definition demo_snapshot : Snapshot :=
  {| sn_CacheNamespace := "1"; sn_Routes := Some demo_routes; sn_Chat := Some Orchestrator.demo_orchestrator; sn_Embeddings := None;
     sn_Breakers := None; sn_Queues := None; sn_Keys := None; sn_ProviderStates := ∅ |}.

(** The state of the services is what the cache answers. *)
#[local] Instance demo_services : GatewayServices (option string) :=
  {| sv_AuthorizeModel := λ _ _ _ s, (None, s);
     sv_Allow := λ _ _ _ s, (Ok {| rd_Allowed := true; rd_Bypassed := false; rd_Limit := 9; rd_Remaining := 8; rd_ResetAtUnix := 60; rd_RetryAfterSeconds := 0 |}, s);
     sv_Lookup := λ _ _ _ _ s, (Ok match s with
                                   | Some b => {| ResponseCache.rs_Status := StatusHit; rs_Body := b |}
                                   | None => {| ResponseCache.rs_Status := StatusMiss; rs_Body := "" |}
                                   end, s);
     sv_Store := λ _ _ _ _ b s, (Ok (), Some b);
     sv_Current := λ s, (Some demo_snapshot, s);
     sv_quota := true;
     sv_HasPolicy := λ _ _ s, (true, s);
     sv_DefaultMaxOutputTokens := 100;
     sv_Reserve := λ input s, (Ok {| qd_ReservationID := ri_GroupID input; qd_Exceeded := false; qd_Alerts := []; qd_AppliedPolicies := 1 |}, s);
     sv_Settle := λ _ _ s, (Ok (), s);
     sv_EventID := λ s, (Some "evt"%string, s);
     sv_Begin := Some (λ _ s, (Ok (), s));
     sv_Emit := λ _ s, (Ok "1-0"%string, s) |}.
#[local] Instance demo_connection : ClientConnection (option string) :=
  {| cc_flushes := true; cc_SetWriteDeadline := λ _ s, (deadline_set, s);
     cc_Write := λ b s, ({| wa_written := str_len b; wa_err := None |}, s); cc_Flush := λ s, (None, s) |}.

Definition demo_http : HttpRequest :=
  {| hr_ContentType := "application/json"; hr_body := text "{'model':'fast','messages':[{'role':'user','content':'hi'}]}";
     hr_bodyFails := false; hr_CacheControl := [];
     hr_identity := Some {| id_TenantID := "t"; id_APIKeyID := "k"; id_KeyPrefix := ""; id_authorization := None |} |}.

Definition demo_dialect : ResponseProtocol (option string) :=
  {| rp_EncodeResponse := λ _ s, (None, s); rp_WriteStream := λ _ _ s, (None, [], s) |}.

Definition demo_handler (cached : option string) : HState (option string) :=
  {| hs_services := cached; hs_st := Attempt.demo_st; hs_gin := new_gin false "r"; hs_session := None; hs_log := [] |}.

Definition demo_complete (protocol : option (ResponseProtocol (option string))) (cached : option string) :=
  @complete (option string) demo_services demo_connection demo_chat_env demo_chat_streams demo_reads demo_unicode demo_upper demo_dates
    protocol 60 Attempt.demo_ctx demo_http (demo_handler cached).


Lemma demo_serving : @serving (option string) demo_services demo_chat_env demo_chat_streams demo_reads 60 Attempt.demo_ctx 9.
Proof.
  constructor.
  - intros s id [= <-]. done.
  - intros s active chat st [= <-] [= <-] Hst. constructor.
    + intros tick p actx c key e [=].
    + intros tick p actx c key e [=].
    + intros p retry [= <-]. vm_compute. reflexivity.
    + exists maximumRequestTimeout, 31. split; [apply demo_policies_ok|]. split; [|by vm_compute].
      right. exists 40. split; [done|]. lia.
  - exists 0%nat. split; [|lia]. intros tick s _. done.
Qed.

Lemma demo_run_session : isSome (hs_session (snd (demo_complete None None))) = true.
Proof. vm_compute. reflexivity. Qed.

(** The calls of the run, by name. *)
Definition act_name (a : Act) : string :=
  match a with
  | act_begin _ _ => "begin" | act_authorize _ => "authorize" | act_limit _ => "limit" | act_unmetered => "unmetered"
  | act_reserve _ => "reserve" | act_lookup _ => "lookup" | act_upstream => "upstream" | act_store _ => "store"
  | act_settle _ _ => "settle" | act_emit _ => "emit"
  end.

Lemma demo_run_calls :
  map act_name (hs_log (snd (demo_complete None None))) =
    ["begin"; "authorize"; "limit"; "reserve"; "lookup"; "upstream"; "store"; "settle"; "emit"]%string.
Proof. vm_compute. reflexivity. Qed.

Lemma chat_protocol_witness : ∃ id, closed true id [] (snd (demo_complete None None)).
Proof.
  pose proof (proj1 (@chat_protocol (option string) demo_services demo_connection demo_chat_env demo_chat_streams demo_reads demo_unicode
    demo_upper demo_dates 60 Attempt.demo_ctx 9 None (λ _ _ s, (Err (), s)) demo_http demo_serving)
    (demo_handler None) eq_refl eq_refl ltac:(vm_compute; discriminate) ltac:(vm_compute; split; congruence)) as H.
  change (let '(done, h') := demo_complete None None in done ≠ None ∧ (untouched [] h' ∨ ∃ id, closed true id [] h')) in H.
  pose proof demo_run_session as Hs. destruct (demo_complete None None) as [d h'].
  destruct H as [_ [(Hn & _)|Hc]]; [|exact Hc]. cbn [snd] in Hs. rewrite Hn in Hs. discriminate Hs.
Defined.

Definition demo_replay : HState (option string) :=
  {| hs_services := None; hs_st := Attempt.demo_st; hs_gin := new_gin false "r";
     hs_session := Some {| us_collector := demo_collector; us_event := None; us_eventID := "evt"; us_quota := false; us_reservationID := "" |};
     hs_log := [] |}.

Lemma unrepresentable_hit_lost_witness :
  ∃ event, hs_session (snd (@replay_cached (option string) demo_chat_env demo_unicode demo_upper (Some demo_dialect) "{}" demo_replay))
    ≫= us_event = Some event ∧ Event_Validate event ≠ None.
Proof.
  exact (@unrepresentable_hit_lost (option string) demo_chat_env demo_unicode demo_upper demo_dialect "{}" demo_replay _ (λ _ _, eq_refl) eq_refl eq_refl eq_refl).
Defined.

Lemma refused_not_served_witness : ∃ h', refused (demo_handler None) h'.
Proof.
  pose proof (@refused_not_served (option string) demo_services demo_connection demo_chat_env demo_chat_streams demo_reads demo_unicode
    demo_upper demo_dates 60 Attempt.demo_ctx (λ _ _ s, (Err ErrKeyRevoked, s))
    {| ch_Authorization := ["Bearer mvl_demo"%string]; ch_XApiKey := [] |} None demo_http (demo_handler None) ltac:(discriminate)) as H.
  match type of H with (let '(_, _) := ?m in _) => destruct m as [d h'] end. exists h'. exact (proj2 H).
Defined.
