(* ===== verification/EmbeddingHandler.v ===== *)
(** * The handler of embeddings ([httpapi/embeddings.go])

    [create] over the services and the parts of the chat handler, and the protocol it keeps
    to: that of chat requests, but for what it reports of a client that is gone. *)

From Stdlib Require Import Floats.
From S2P Require Import Prelude Json Failure Sse Breaker Queue Registry KeySelector Retry Routing Attempt Stream Orchestrator Construction Gateway Token AuthSnapshot AuthL1 AuthCache RedisAuth AuthCoherence ResponseCache ApiKeys RateLimit BigRat Calendar Usage Collector Pricing PolicyIndex Quota ChatContent ChatRequest Embedding HttpApi ChatSession ChatHandler ChatProtocol.

Open Scope Z_scope.

Definition maxEmbeddingRequestBodyBytes : Z := 8388608.

Definition invalid_embedding : ApiError :=
  HttpApi.invalid_request 400 "embedding request is invalid" None "invalid_embedding_request".
Definition no_embedding_provider : ApiError :=
  server_error 503 "no embedding provider is configured" (Some "model"%string) "embedding_unavailable".

(** [writeRouteError]. *)
Definition embedding_route_error (e : Sentinel) : ApiError :=
  match e with
  | ErrCapabilityUnavailable | ErrNoRoute =>
      server_error 503 "no embedding route is available for the requested model" (Some "model"%string) "embedding_unavailable"
  | _ => server_error 500 "embedding route could not be planned" None "route_error"
  end.

Definition estimateEmbeddingTokens (input : string) : Z :=
  match token_list input with
  | Some tokens => Z.of_nat (length tokens)
  | None =>
      match token_batches input with
      | Some batches => foldl (λ total batch, total + Z.of_nat (length batch)) 0 batches
      | None => str_len input
      end
  end.

Section handler.
Context {S : Type} `{GatewayServices S}.
Context `{Env ChatRequest string, Unicode, UnicodeUpper, HTTPDates}.
Context (fuel : nat) (ctx : Ctx).

Abbreviation Handler := (HM S).

(** A model that is not allowed is answered also when the client is gone. *)
Definition embedding_admission (identity : Identity) (model : string) : Handler bool :=
  e ← client_err ctx;
  refused ← serve (sv_AuthorizeModel e identity model);
  _ ← log (act_authorize (negb (isSome refused)));
  match refused with
  | Some ErrModelNotAllowed => _ ← fail (authorization_error ErrModelNotAllowed); mret false
  | Some e =>
      over ← client_err ctx;
      _ ← (if isSome over then mret () else fail (authorization_error e));
      mret false
  | None => limited ctx identity model
  end.

Definition embedding_reserve (tenantID model : string) (request : EmbeddingRequest) (plan : Plan) : Handler bool :=
  reserve (λ group, {| ri_GroupID := group; ri_TenantID := tenantID; ri_GatewayModel := model;
                       ri_EstimatedInputTokens := estimateEmbeddingTokens (er_Input request); ri_EstimatedOutputTokens := 0;
                       ri_Plan := plan |}) tenantID model.

Definition embedding_hit (body : string) : Handler () :=
  _ ← session_observe body;
  _ ← finalize (outcome_of StatusCacheHit "" "");
  answer (λ c, write_data 200 body (writeCacheStatusHeader StatusHit c)).

Definition embedding_respond (status : Status) (body : string) : Handler () :=
  _ ← answer (writeCacheStatusHeader status);
  _ ← setCacheStatus status;
  _ ← finalize (outcome_of StatusSuccess "" "");
  answer (write_data 200 body).

(** From the cache to the answer. An answer that could not be kept is sent all the same. *)
Definition embedding_execute (orchestrator : Orchestrator) (request : EmbeddingRequest) (plan : Plan)
    (cacheControl : list string) (namespace tenantID model body : string) : Handler (option ()) :=
  cached ← lookup ctx cacheControl namespace tenantID model body;
  match cached with
  | None => mret (Some ())
  | Some cached =>
      let status := ResponseCache.rs_Status cached in
      _ ← setCacheStatus status;
      match status with
      | StatusHit => _ ← embedding_hit (rs_Body cached); mret (Some ())
      | _ =>
          c ← get_gin;
          _ ← log act_upstream;
          r ← lift (Orchestrator_Execute orchestrator fuel ctx
            {| xin_RequestID := gc_requestID c; xin_Request := ReliabilityRequest request; xin_Plan := plan |});
          match r with
          | None => mret None
          | Some (Err failure) => _ ← fail_execution ctx failure ""; mret (Some ())
          | Some (Ok x) =>
              let response := default ""%string (x_Payload x) in
              _ ← recordExecution x;
              _ ← session_observe response;
              kept ← store ctx status (x_Fallbacks x) namespace tenantID model body response;
              _ ← embedding_respond (default status kept) response;
              mret (Some ())
          end
      end
  end.

(** What runs between [newUsageSession] and the deferred [finish]. A snapshot that was
    published has routes; without them the handler would panic. *)
Definition embedding_metered (r : HttpRequest) (identity : Identity) (model body : string) (request : EmbeddingRequest)
    : Handler (option ()) :=
  admitted ← embedding_admission identity model;
  if negb admitted then mret (Some ())
  else
    active ← serve sv_Current;
    match active ≫= λ a, pair (sn_Routes a, sn_CacheNamespace a) <$> sn_Embeddings a with
    | None => _ ← fail no_embedding_provider; mret (Some ())
    | Some ((None, _), _) => _ ← answer recovered; mret (Some ())
    | Some ((Some routes, namespace), embeddings) =>
        match Router_Plan routes model [CapabilityEmbedding] with
        | Err e => _ ← fail (embedding_route_error e); mret (Some ())
        | Ok plan =>
            reserved ← embedding_reserve (id_TenantID identity) model request plan;
            if negb reserved then mret (Some ())
            else embedding_execute embeddings request plan (hr_CacheControl r) namespace (id_TenantID identity) model body
        end
    end.

(** [create]; its context is that of the request. *)
Definition create (r : HttpRequest) : Handler (option ()) :=
  if negb (hasJSONContentType (hr_ContentType r)) then _ ← fail content_type_error; mret (Some ())
  else
    match read_body maxEmbeddingRequestBodyBytes r with
    | Err e => _ ← fail e; mret (Some ())
    | Ok body =>
        match ParseEmbeddingRequest body with
        | Err _ => _ ← fail invalid_embedding; mret (Some ())
        | Ok request =>
            match hr_identity r with
            | None => _ ← fail identity_unavailable; mret (Some ())
            | Some identity =>
                let model := TrimSpace (er_Model request) in
                begun ← newUsageSession (id_TenantID identity) (id_APIKeyID identity) model false;
                if negb begun then _ ← fail usage_unavailable; mret (Some ())
                else
                  done ← embedding_metered r identity model body request;
                  match done with None => mret None | Some _ => _ ← finish ctx; mret (Some ()) end
            end
        end
    end.
End handler.

(** ** The protocol *)

#[local] Instance Status_eq_dec : EqDecision Status.
Proof. solve_decision. Defined.

Section protocol.
Context {S : Type} `{GatewayServices S}.
Context `{Env ChatRequest string, StreamEnv ChatRequest, Unicode, UnicodeUpper, HTTPDates}.
Context (fuel : nat) (ctx : Ctx) (since : Time).
Implicit Types (h : HState S).

(** The identifiers of events fit into an event, and the fuel covers the policies of every
    snapshot that is served. *)
Record embedding_serving : Prop := {
  es_ids : ∀ s id, fst (sv_EventID s) = Some id → validRequiredText id 64 = true;
  es_policies : ∀ s active embeddings st, fst (sv_Current s) = Some active → sn_Embeddings active = Some embeddings →
    since ≤ w_now (st_world st) → orchestration embeddings ctx fuel st;
}.

Section session.
Context (id : string) (ev : list Event).

Abbreviation alive := (@running S since false false false id).
Abbreviation ends := (closable since false false id ev).

Lemma live_step {A} (m : HM S A) hit res held p h (Q : A → HState S → Prop) :
  quiet m → @running S since false false hit id res ev held p h →
  (∀ a h', @running S since false false hit id res ev held p h' → Q a h') → hwp m h Q.
Proof. apply hwp_live. Qed.

Lemma ends_when p res h : alive res ev holds_nothing p h → open_phase p = Some (id, res) → ends h.
Proof. intros. by exists p, res. Qed.

Lemma embedding_admission_live identity model h :
  alive None ev holds_nothing (ph_begun id) h →
  hwp (embedding_admission ctx identity model) h (λ r h', if r : bool then alive None ev holds_nothing (ph_admitted id) h' else ends h').
Proof.
  intros Hl. apply hwp_bind. eapply live_step; [apply quiet_client_err|exact Hl|]. intros e h1 Hl1.
  apply hwp_bind. eapply live_step; [apply quiet_serve|exact Hl1|]. intros refused h2 Hl2. apply hwp_bind.
  eapply hwp_log; [exact Hl2|reflexivity|]. intros h3 Hl3. destruct refused as [e'|]; [|by apply limited_live].
  assert (∀ refused (over : bool) h4, alive None ev holds_nothing (ph_ending id None) h4 →
    hwp (_ ← (if over then mret () else fail (authorization_error refused)); mret false) h4
      (λ r h', if r : bool then alive None ev holds_nothing (ph_admitted id) h' else ends h')) as Hend.
  { intros refused over h4 Hl4. apply hwp_bind. eapply live_step; [|exact Hl4|].
    - destruct over; [apply quiet_ret|]. apply quiet_fail. by destruct refused.
    - intros _ h5 Hl5. apply hwp_ret. by eapply ends_when. }
  cbn [isSome negb] in Hl3. destruct e'; try by apply (Hend ErrModelNotAllowed false).
  all: apply hwp_bind; eapply live_step; [apply quiet_client_err|exact Hl3|]; intros over h4 Hl4; by apply Hend.
Qed.

Lemma embedding_hit_ends body res h :
  @running S since false false true id res ev holds_nothing (ph_ending id res) h → hwp (embedding_hit body) h (λ _, ends).
Proof.
  intros Hl. apply hwp_bind. eapply hwp_observe; [exact Hl|]. intros h1 Hl1. apply hwp_bind.
  eapply hwp_finalize; [exact Hl1| |done|]; [by constructor; cbn; try done; [by left|intros []]|]. intros h2 Hl2 _.
  eapply (live_step _ false); [by apply quiet_answer|done|]. intros _ h3 Hl3. by eapply ends_when.
Qed.

Lemma embedding_respond_ends status body res h :
  status ≠ StatusHit → alive res ev holds_nothing (ph_called id res) h → hwp (embedding_respond status body) h (λ _, ends).
Proof.
  intros Hs Hl. apply hwp_bind. eapply live_step; [by apply quiet_answer|exact Hl|]. intros _ h1 Hl1.
  apply hwp_bind. eapply hwp_setCacheStatus; [exact Hl1|]. intros h2 Hl2.
  assert (alive res ev holds_nothing (ph_called id res) h2) as Hl2' by (by destruct status). clear Hl2. apply hwp_bind.
  eapply hwp_finalize; [exact Hl2'| |done|]; [by constructor; cbn; try done; intros []|]. intros h3 Hl3 _.
  eapply (live_step _ false); [by apply quiet_answer|done|]. intros _ h4 Hl4. by eapply ends_when.
Qed.

Lemma embedding_execute_ends orchestrator request plan cc ns tenant model body res h :
  (∀ st, since ≤ w_now (st_world st) → orchestration orchestrator ctx fuel st) →
  alive res ev holds_nothing (ph_metered id res) h →
  hwp (embedding_execute fuel ctx orchestrator request plan cc ns tenant model body) h (λ r h', r = Some () ∧ ends h').
Proof.
  intros Hset Hl. apply hwp_bind. eapply hwp_mono; [by eapply lookup_live|]. cbn beta. intros [[status text]|] h1.
  2: { intros Hl1. apply hwp_ret. split; [done|]. by eapply ends_when. }
  cbn [ResponseCache.rs_Status]. intros Hl1.
  assert (∃ p, @running S since false false false id res ev holds_nothing p h1 ∧ p = match status with StatusHit => ph_ending id res | _ => ph_metered id res end)
    as (p & Hp & Hphase) by (by destruct status; eexists).
  clear Hl1. cbv zeta. apply hwp_bind. eapply hwp_setCacheStatus; [exact Hp|]. intros h2 Hl2.
  destruct (decide (status = StatusHit)) as [->|Hne]; [|assert (∀ (A B : HM S (option ())), match status with StatusHit => A | _ => B end = B) as Heq by (by destruct status)].
  { subst p. apply hwp_bind. eapply hwp_mono; [by eapply embedding_hit_ends|]. intros ? h3 Hc. by apply hwp_ret. }
  rewrite Heq. clear Heq. assert (alive res ev holds_nothing (ph_metered id res) h2) as Hl2' by (subst p; by destruct status). clear Hl2 Hp Hphase p.
  apply hwp_bind. unfold hwp at 1. cbn [get_gin fst snd]. apply hwp_bind. eapply hwp_log; [exact Hl2'|reflexivity|]. intros h3 Hl3. apply hwp_bind.
  eapply hwp_Execute; [exact Hset|exact Hl3| |].
  - intros x h4 Hl4 Ha Hf. cbv zeta. apply hwp_bind. eapply hwp_route; [exact Hl4|done|done|]. intros h5 Hl5.
    apply hwp_bind. eapply hwp_observe; [exact Hl5|]. intros h6 Hl6. apply hwp_bind.
    eapply hwp_mono; [by eapply store_live|]. cbn beta. intros kept h7 [Hk Hl7].
    apply hwp_bind. eapply hwp_mono; [eapply embedding_respond_ends; [|exact Hl7]|intros ? h8 Hc; by apply hwp_ret].
    destruct kept; cbn; [congruence|done].
  - intros f h4 Hl4 Ha Hf. apply hwp_bind. eapply hwp_mono; [eapply fail_execution_live; [done|done|done|by right|done]|]. cbn beta. intros _ h5 Hl5.
    apply hwp_ret. split; [done|]. by eapply ends_when.
Qed.

Lemma embedding_metered_ends r identity model body request h :
  embedding_serving → alive None ev holds_nothing (ph_begun id) h →
  hwp (embedding_metered fuel ctx r identity model body request) h (λ r h', r = Some () ∧ ends h').
Proof.
  intros [_ Hset] Hl. apply hwp_bind. eapply hwp_mono; [by apply embedding_admission_live|]. cbn beta. intros [|] h1; cbn [negb]; [|by intros; apply hwp_ret].
  intros Hl1. apply hwp_bind. specialize (Hset (hs_services h1)). unfold serve at 1, hwp at 1. destruct (sv_Current (hs_services h1)) as [active s] eqn:Hcur.
  cbn [fst snd] in *. set (h2 := Build_HState _ _ _ _ _ : HState S).
  assert (alive None ev holds_nothing (ph_admitted id) h2) as Hl2 by (destruct Hl1; by split). clearbody h2.
  assert (∀ f, (∀ c, code_short c → code_short (f c)) → hwp (_ ← answer f; mret (Some ())) h2 (λ r h', r = Some () ∧ ends h')) as Hend.
  { intros f Hf. apply hwp_bind. eapply live_step; [by apply quiet_answer|exact Hl2|]. intros _ h3 Hl3. apply hwp_ret. split; [done|]. by eapply ends_when. }
  destruct active as [active|]; [|by apply Hend]. cbn [mbind option_bind]. destruct (sn_Embeddings active) as [embeddings|] eqn:Hemb; [|by apply Hend].
  cbn [fmap option_fmap option_map]. destruct (sn_Routes active) as [routes|]; [|by apply Hend].
  destruct (Router_Plan routes model _) as [plan|e]; [|by apply Hend; destruct e].
  apply hwp_bind. eapply hwp_mono; [by apply reserve_live|]. cbn beta. intros [|] h3; cbn [negb]; [|by intros; apply hwp_ret].
  intros (res & Hl3). eapply embedding_execute_ends; [intros st; by apply (Hset active)|exact Hl3].
Qed.
End session.

(** C2: every run of the handler of embeddings keeps to the protocol of a request, as those of
    the chat handler do: it terminates, is refused before its accounting began with nothing
    done, or makes its calls in the order of the automaton, gives back what it took, settles
    a reservation once and emits its event once, last; and that event is valid, unless the
    names of its route are longer than 100 or 200 bytes, a hit of the cache failed, or the
    client was gone before the upstream answered, so that the cancellation has no code (each
    makes it invalid: [long_route_invalid], [unrepresentable_invalid], [uncoded_invalid]).
    Assumed ([embedding_serving]): generated identifiers fit an event, and the fuel covers
    the retry policies of every snapshot that is served. *)
Theorem embedding_protocol r : embedding_serving → kept since false (create fuel ctx r).
Proof.
  intros Hs h Hlog Hsess Hcode Hnow. set (ev := st_events (hs_st h)).
  enough (hwp (create fuel ctx r) h (λ d h', d ≠ None ∧ (untouched ev h' ∨ ∃ id, closed false id ev h'))) as Hc
    by (unfold hwp in Hc; by destruct (create fuel ctx r h)).
  assert (untouched ev h) as Hu by (unfold untouched; rewrite Hlog; auto).
  assert (∀ f h1, untouched ev h1 → hwp (_ ← answer f; mret (Some ())) h1
    (λ d h', d ≠ None ∧ (untouched ev h' ∨ ∃ id, closed false id ev h'))) as Hend by (intros f h1 Hu1; split; [done|by left]).
  unfold create. destruct (negb _); [by apply Hend|]. destruct (read_body _ _) as [body|e]; [|by apply Hend].
  destruct (ParseEmbeddingRequest body) as [request|e]; [|by apply Hend]. destruct (hr_identity r) as [identity|]; [|by apply Hend].
  apply hwp_bind. eapply hwp_mono; [apply newUsageSession_live; [apply Hs|done..]|]. cbn beta. intros [|] h1; cbn [negb]; [|by apply Hend].
  intros (id & Hl). apply hwp_bind. eapply hwp_mono; [by eapply embedding_metered_ends|]. cbn beta. intros d h2 [-> Hc].
  apply hwp_bind. eapply hwp_mono; [by eapply finish_closes|]. cbn beta. intros _ h3 Hdone. apply hwp_ret. eauto.
Qed.

(** ** A client that is gone *)

Lemma uncoded_invalid event : uncoded event → Event_Validate event ≠ None.
Proof.
  intros [Hs Hc] Hv. unfold Event_Validate in Hv. destruct (first_error _) eqn:Hf; [done|]. apply first_error_none in Hf.
  rewrite !Forall_cons in Hf. destruct_and! Hf. cbn [fst] in *.
  match goal with H : failedStatus _ && _ = false |- _ => by rewrite Hs, Hc, orb_true_r in H end.
Qed.

Lemma Finalize_uncoded now category c :
  col_finalized c = false →
  ∃ event c', Finalize (outcome_of StatusCanceled category "") now c = (Some event, c') ∧ uncoded event.
Proof. intros Ho. unfold Finalize. rewrite Ho. destruct c as [[] ?]. by eexists _, _. Qed.

(** When the client of a request for embeddings is gone before the upstream answers, what
    is reported of it is not a valid event, so that it is not encoded for its delivery. *)
Theorem canceled_embedding_invalid failure s h :
  f_Category failure = CategoryCanceled → gc_errorCode (hs_gin h) = ""%string →
  (∀ now, w_now (st_world (hs_st h)) ≤ now → isSome (ctx_err ctx now) = true) →
  hs_session h = Some s → us_event s = None → col_finalized (us_collector s) = false →
  ∃ event, hs_session (fail_execution ctx failure "" h).2 ≫= us_event = Some event ∧ Event_Validate event ≠ None.
Proof.
  intros Hcat Hcode Hgone Hs He Ho.
  assert (∀ h0 : HState S, w_now (st_world (hs_st h)) ≤ w_now (st_world (hs_st h0)) →
    isSome (client_err ctx h0).1 = true ∧ hs_session (client_err ctx h0).2 = hs_session h0 ∧ hs_gin (client_err ctx h0).2 = hs_gin h0) as Herr.
  { intros h0 Hle. split; [|done]. apply Hgone. pose proof (un_now _ _ (quiet_time h0)). cbn in *. lia. }
  unfold fail_execution. rewrite bool_decide_true by done. unfold recordFailure, setRoute, update_session, mbind, HM_bind. cbn [fst snd].
  match goal with |- context [client_err ctx ?h0] => destruct (Herr h0 ltac:(done)) as (Hover & Hs1 & Hg1); destruct (client_err ctx h0) as [over h1] end.
  cbn [fst snd hs_session hs_gin mret HM_ret answer get_gin] in *. rewrite Hover.
  unfold writeReliabilityError, finalize, time_now, lift, mbind, HM_bind. rewrite bool_decide_true by done. cbn [andb hs_st hs_gin hs_session].
  rewrite Hg1, Hcode, Hs1, Hs. cbn [fmap option_fmap option_map String.eqb fst snd hs_st]. destruct (time_Now (hs_st h1)) as [now st1].
  cbn [update_session snd hs_session fmap option_fmap option_map mbind option_bind]. unfold finalize_session. cbn [with_collector us_event us_collector].
  rewrite He. match goal with |- context [Finalize _ now ?c] => destruct (Finalize_uncoded now (category_text (f_Category failure)) c) as (event & c' & Hf & Hu) end.
  { by destruct (us_collector s) as [[] []]. }
  rewrite Hf. exists event. split; [done|by apply uncoded_invalid].
Qed.
End protocol.

(** ** Concrete instances

    A request that is metered, reserved, missed in the cache, answered and kept; and one
    whose client is gone. *)

Definition demo_embedding_routes : Router :=
  match @Routing.New demo_unicode {|
    def_Providers := [{| pv_ID := "p"; pv_Type := "openai"; pv_BaseURL := ""; pv_Models := ["m"];
                         pv_ModelCapabilities := [("m", ["embedding"])] |}];
    def_Rules := [{| rule_Model := "fast"; rule_Candidates := [{| tg_ProviderID := "p"; tg_UpstreamModel := "m" |}] |}] |}%string with
  | Ok r => r
  | Err _ => {| rt_providers := ∅; rt_exact := ∅; rt_defaultTargets := [] |}
  end.

Definition demo_embedding_snapshot : Snapshot :=
  {| sn_CacheNamespace := "1"; sn_Routes := Some demo_embedding_routes; sn_Chat := None;
     sn_Embeddings := Some Orchestrator.demo_orchestrator; sn_Breakers := None; sn_Queues := None; sn_Keys := None; sn_ProviderStates := ∅ |}.

Definition demo_embedding_services : GatewayServices (option string) :=
  {| sv_AuthorizeModel := @sv_AuthorizeModel _ demo_services; sv_Allow := @sv_Allow _ demo_services;
     sv_Lookup := @sv_Lookup _ demo_services; sv_Store := @sv_Store _ demo_services;
     sv_Current := λ s, (Some demo_embedding_snapshot, s); sv_quota := true;
     sv_HasPolicy := @sv_HasPolicy _ demo_services; sv_DefaultMaxOutputTokens := 100;
     sv_Reserve := @sv_Reserve _ demo_services; sv_Settle := @sv_Settle _ demo_services;
     sv_EventID := @sv_EventID _ demo_services; sv_Begin := @sv_Begin _ demo_services; sv_Emit := @sv_Emit _ demo_services |}.

Definition demo_embedding_http : HttpRequest :=
  {| hr_ContentType := "application/json"; hr_body := text "{'model':'fast','input':['hi','there']}";
     hr_bodyFails := false; hr_CacheControl := [];
     hr_identity := Some {| id_TenantID := "t"; id_APIKeyID := "k"; id_KeyPrefix := ""; id_authorization := None |} |}.

Definition demo_create : option () * HState (option string) :=
  @create (option string) demo_embedding_services demo_chat_env demo_unicode demo_upper demo_dates 60 Attempt.demo_ctx demo_embedding_http
    (demo_handler None).

Lemma demo_embedding_serving :
  @embedding_serving (option string) demo_embedding_services demo_chat_env demo_chat_streams 60 Attempt.demo_ctx 9.
Proof.
  constructor.
  - intros s id [= <-]. done.
  - intros s active embeddings st [= <-] [= <-] Hst.
    exact (sg_policies _ _ _ demo_serving None demo_snapshot Orchestrator.demo_orchestrator st eq_refl eq_refl Hst).
Qed.

Lemma demo_create_calls :
  map act_name (hs_log demo_create.2) =
    ["begin"; "authorize"; "limit"; "reserve"; "lookup"; "upstream"; "store"; "settle"; "emit"]%string ∧
  isSome (hs_session demo_create.2) = true.
Proof. vm_compute. done. Qed.

Lemma embedding_protocol_witness : ∃ id, closed false id [] demo_create.2.
Proof.
  pose proof (@embedding_protocol (option string) demo_embedding_services demo_chat_env demo_chat_streams demo_unicode demo_upper demo_dates
    60 Attempt.demo_ctx 9 demo_embedding_http demo_embedding_serving
    (demo_handler None) eq_refl eq_refl ltac:(vm_compute; discriminate) ltac:(vm_compute; split; congruence)) as H.
  change (let '(done, h') := demo_create in done ≠ None ∧ (untouched [] h' ∨ ∃ id, closed false id [] h')) in H.
  pose proof (proj2 demo_create_calls) as Hs. destruct demo_create as [d h'].
  destruct H as [_ [(Hn & _)|Hc]]; [|exact Hc]. cbn [snd] in Hs. rewrite Hn in Hs. discriminate Hs.
Defined.

Definition demo_gone : Ctx := {| ctx_deadline := None; ctx_cancel_at := Some 0 |}.
Definition demo_canceled : Failure :=
  {| f_Category := CategoryCanceled; f_ProviderID := "p"; f_KeyID := ""; f_Candidate := 1; f_Attempt := 1; f_TotalAttempts := 1;
     f_Fallbacks := 0; f_StatusCode := 0; f_Timeout := None; f_Queue := None; f_RetryAfter := 0; f_RetryAfterSet := false;
     f_Trail := []; f_Cause := None |}.

Lemma canceled_embedding_invalid_witness :
  ∃ event, hs_session (@fail_execution (option string) demo_chat_env demo_gone demo_canceled "" demo_replay).2 ≫= us_event =
    Some event ∧ Event_Validate event ≠ None.
Proof.
  refine (@canceled_embedding_invalid (option string) demo_chat_env demo_gone demo_canceled _ demo_replay eq_refl eq_refl _ eq_refl eq_refl eq_refl).
  intros now Hnow. unfold demo_gone, ctx_err. cbn in *. destruct (Z.leb_spec 0 now); [reflexivity|]. lia.
Defined.
